(* ===== verification/_CoqProject ===== *)
-Q . S2P
Prelude.v
RustStr.v
RustNum.v
RustText.v
SqsTime.v
SqsModel.v
SqsValidation.v
SqsServer.v
SqsMessages.v
SqsSpec.v
SqsRefine.v
SqsReceive.v
SqsCalls.v
SqsManage.v
SqsSystem.v
SqsTheorems.v
Json.v
DynNumber.v
DynModel.v
DynValue.v
DynExpr.v
DynUpdate.v
DynUpdateProofs.v
DynExprProofs.v
DynQuery.v
PubTime.v
PubModel.v
PubValidation.v
PubResources.v
PubGrpc.v
PubMessages.v
PubSystem.v
PubInvariant.v
PubCalls.v
PubFlows.v
PubRun.v
PubDelivery.v
PubPull.v
PubAck.v
PubDemo.v
S3Codecs.v
DynState.v
DynItems.v
DynTables.v
DynReads.v
DynWrites.v
DynTxn.v
DynManage.v
DynSystem.v
DynTheorems.v
MailSmtp.v
MailProofs.v
StateFile.v
AwsSigV4.v
SsmServer.v
SsmTheorems.v
AwsHttp.v
SsmFront.v
AwsDemo.v
AasServer.v
AasTheorems.v
AasFront.v
AasDemo.v
Disk.v
S3Store.v
S3Objects.v
S3Config.v
S3Xml.v
S3Cors.v
S3Sidecars.v
S3Calm.v
S3Reads.v
S3Calls.v
S3Refine.v
S3Theorems.v
S3Reports.v
S3Confined.v
S3Demo.v
