(* ===== verification/Prelude.v ===== *)
(** A model of devcloud, a local stand-in for cloud services, and its correctness.

    devcloud is a Rust workspace under src/: an orchestrator starts one process per
    service, and each service under src/services/ answers a cloud provider's protocol
    from state it keeps in memory and in files of its own.  The services do not call
    one another's code.  What they share is the shape this development follows: a
    [Server] record or a store behind a lock, handlers that validate, change it,
    persist it and take the change back when the write fails, and a front end that
    decodes requests.  The lock makes every call one atomic step, so a run of a
    service is a sequence of calls.

    * How programs are modelled

    A handler is a function of the state that returns a [result]: a value, an error or
    a panic ([Prelude.result]); [ME] is the monad of such functions.  Early returns,
    [?], rollbacks and the order of the changes are kept; [wp] gives a call's
    behaviour on every branch.  Strings are byte strings (RustStr, with the code-point
    view and the facts on cutting and joining in RustText); integers are [Z] with the
    width, the checks and the wrapping of their Rust type written out where an input
    can reach the bounds (RustNum, PubTime), the class [Build] saying whether overflow
    panics or wraps.  A hash map or B-tree map is a [gmap]; iteration is in key order
    ([btree_iter]).

    What is not the repository's code is a field of a class: the clock, the file
    system, randomness, digests and serde_json ([Env] of SqsModel, DynState, PubModel;
    [Host], [Digests], [Disk], [Clock], [Hashes], [Codec] elsewhere; [SerdeJson] of
    Json).  A world is a server, its files and the number of system calls made, so
    every reading of the clock and every failing write is chosen by the environment.
    Theorems about restarts assume that serde_json reads back what it wrote; those
    about signatures, that the digests of the requests compared do not collide.  The
    ...Demo files and the first part of SqsSystem and DynTheorems give concrete
    environments, in which the theorems that have hypotheses are applied to concrete
    runs.

    * SQS (src/services/sqs/src)

    SqsTime is time_fmt.rs; SqsModel the records of model.rs, persistence.rs and the
    state of server.rs; SqsValidation validation.rs, errors.rs, hashing.rs and
    policy.rs; SqsServer the queue management of server.rs; SqsMessages messages.rs
    and move_tasks.rs; SqsSystem the dispatch of all calls.  SqsSpec is an abstract
    machine - queues of messages, labelled steps - and SqsRefine, SqsReceive, SqsCalls
    and SqsManage show that every call refines it; SqsTheorems states what sending,
    receiving, deleting, moving and cleaning up guarantee: refinement in every
    reachable state, unique receipt handles, one live copy per message, FIFO order,
    exclusivity within the visibility timeout whatever calls come in between, deduplication, conservation through
    redrives, restarts.

    * DynamoDB (src/services/dynamodb/src)

    DynNumber is number.rs, DynValue attribute.rs, DynUpdate and DynExpr the
    expression languages (update_expression.rs, expression.rs), DynQuery query.rs,
    DynModel model.rs, wire_json.rs and requests.rs; DynState streams.rs and the state
    of server.rs with its persistence; DynItems, DynTables and DynReads the calls of
    server.rs and partiql.rs; DynSystem the dispatch of http.rs.  DynExprProofs,
    DynUpdateProofs and DynQuery give the languages and queries their meaning: a
    filter is its disjunction of conjunctions, an update keeps types, comparison is a
    total preorder, pages cover a query.  DynWrites, DynTxn and DynManage show that
    every writing call is a transaction that keeps the server's invariant; DynTheorems
    states the consequences: each call's exact effect, atomic transactions, complete
    stream replay, expiry, backups, restarts.

    * Pub/Sub (src/services/pubsub/src)

    PubTime is time_fmt.rs, delivery.rs and duration.rs; PubModel model.rs,
    persistence.rs, wire_json.rs, errors.rs and the state and storage of server.rs;
    PubValidation paths.rs and validation.rs; PubResources, PubGrpc and PubMessages the
    methods of server.rs - resources over REST, resources over gRPC, and messages over
    both with the stream driver of grpc.rs; PubSystem the projections of dashboard.rs
    and introspect.rs, the patches of patch.rs, the router of http.rs, and [run], all
    calls as one function.  PubInvariant states what holds of every state, PubCalls
    and PubFlows prove it handler by handler together with the undoing of refused
    calls, PubRun for every call.  PubDelivery, PubPull and PubAck say exactly what
    publishing, restarting, pulling, acknowledging, retry delays and streaming do.
    PubDemo has concrete runs, the pages of lists and the histories of schemas, and
    runs on which the service does what it does not mean to.

    * The S3 object store (src/services/s3/src)

    S3Codecs models base64.rs, percent.rs and aws_chunked.rs: encodings are
    invertible, the parser accepts exactly the framed bodies.  Disk is std::fs: a tree
    of files and directories, each system call of which may fail and leave part of its
    work behind.  S3Store is model.rs, validation.rs, time_fmt.rs, hashes.rs, objops.rs
    and the paths, atomic writes and buckets of store.rs; S3Objects store_objects.rs
    and store_multipart.rs; S3Config store_config.rs and store_objectlock.rs.  S3Xml
    and S3Cors are xml.rs and cors.rs: a CORS configuration is read back as it was
    written, and what a rule grants stays on its header lines.  S3Sidecars has the
    other configurations of store_config.rs, the inventories of store_inventory.rs with
    csv.rs, and from http.rs the events and the replication they cause.

    S3Confined holds on any disk: a call on one object changes nothing outside the
    object's directory.  The other theorems are about a disk that does not fail
    ([calm]), with metadata files that read back as written ([CodecLaws]) and digests
    of the right shape ([HashLaws]): S3Calm has one rule per step and the abstract
    bucket - a map from keys to an object, its versions and its access list - with how
    it lies on the disk ([bucket_at]); S3Reads and S3Calls follow reading, putting,
    deleting and the rebuilding of the current object; S3Refine is the bucket as an
    abstract machine and the proof that the store implements it; S3Theorems states
    that what is put is read back, that versions stay, that a legal hold holds, and
    that a completed multipart upload is its parts; S3Reports that an inventory report
    is a CSV file with one row per object, saying in each column what [says] says.  S3Demo applies them and collects runs on
    which the store does what it does not mean to.  The S3 server runs each request
    under one mutex, and object writes of all servers over a root take that root's
    lock, so a call is one step.

    * The AWS registries: Systems Manager parameters and Application Auto Scaling

    StateFile is the state file both keep; AwsSigV4 the Signature Version 4 check of
    sigv4.rs and AwsHttp the HTTP front end of http.rs, each at the parameters of the
    service.  SsmServer is src/services/ssm/src/server.rs and AasServer types.rs and
    server.rs of src/services/applicationautoscaling/src; SsmTheorems and AasTheorems
    show that each implements an abstract registry with its state file, what a secret
    may reach, and what deregistering takes along; AwsSigV4 itself, what of a request a
    signature binds, query parameters being read by a relation of their own ([spells],
    [query_lists]); SsmFront and AasFront put the
    services behind their front ends, so that refusals and authentication are
    statements about the bytes of a connection.  AwsDemo and AasDemo are concrete runs.

    * The mail session (src/services/mail/src)

    MailSmtp and MailProofs model smtp.rs, one connection as a state machine: sessions
    end, messages are framed by CRLF.CRLF only and stored as they were sent.

    * Fuel and bounds

    Recursion that is not structural takes fuel that is shown to be enough or bounded
    by construction: one unit per byte for the expression languages and durations
    (every round consumes a byte), the number of digits for printed integers, one
    candidate more than there are resources for generated names, as many pages as
    elements for pagination, one read per event of a connection.  Counters: SQS,
    DynamoDB and Pub/Sub numbers are 64 bits wide; the invariant of Pub/Sub asks for
    room in its two counters ([PubFlows.fits]) only in builds that do not check for
    overflow, where otherwise an increment past 2^64 would wrap and ids would repeat.
    Timestamps are computed exactly; sums with a client's numbers are checked or
    wrapped.

    * Not modelled

    Sockets and process start-up; the HTTP, XML and query-string front ends of SQS,
    DynamoDB, Pub/Sub and S3 but for what is named above, and their signature checks;
    the generated protobuf types and their conversions: input and output around the
    modelled services.  The MIME parser and message
    store of the mail service.  Cloud Storage, an HTTP front end over the S3 store's
    code; STS, stateless token responses; Redshift, BigQuery, Redis, Lambda and Cloud
    Run, which drive external engines, containers and processes; the event relay, the
    dashboard and the mailbox client; the orchestrator's configuration and
    supervision. *)

From stdpp Require Export base gmap list strings sorting.
From Stdlib Require Export ZArith Lia Bool.
From Stdlib Require Export Ascii.

(** [lia] with Euclidean and truncating division by constants. *)
Ltac euclid := Z.to_euclidean_division_equations; lia.

(** ** Outcomes of Rust code

    A Rust function that returns [Result<T, E>] and may also panic (an [unwrap]
    of [None], an arithmetic overflow in a build with overflow checks, an index
    out of range) is a value of [result E T]; with [String] errors, [outcome T]. *)

Inductive result (E A : Type) : Type :=
| Ok (a : A)
| Err (e : E)
| Panic (why : string).
Arguments Ok {E A} a.
Arguments Err {E A} e.
Arguments Panic {E A} why.
Abbreviation outcome := (result string).

Definition is_panic {E A} (o : result E A) : bool :=
  match o with Panic _ => true | _ => false end.

#[export] Instance outcome_ret {E} : MRet (result E) := @Ok E.
#[export] Instance outcome_bind {E} : MBind (result E) := fun A B f o =>
  match o with Ok a => f a | Err e => Err e | Panic w => Panic w end.
#[export] Instance outcome_fmap {E} : FMap (result E) := fun A B f o =>
  match o with Ok a => Ok (f a) | Err e => Err e | Panic w => Panic w end.

(** [.ok_or_else(|| e)] *)
Definition ok_or {E A} (e : E) (o : option A) : result E A :=
  match o with Some a => Ok a | None => Err e end.

(** A library's [Result]. *)
Definition of_result {E A} (r : A + E) : result E A :=
  match r with inl a => Ok a | inr e => Err e end.

(** [.map_err(f)] *)
Definition map_err {E F A} (f : E -> F) (o : result E A) : result F A :=
  match o with Ok a => Ok a | Err e => Err (f e) | Panic w => Panic w end.

(** [.ok()] *)
Definition ok_opt {E A} (o : result E A) : option A :=
  match o with Ok a => Some a | _ => None end.

(** Pure code that cannot panic. *)
Definition no_panic {E A} (o : result E A) : Prop := is_panic o = false.

Lemma no_panic_bind {E A B} (o : result E A) (f : A -> result E B) :
  no_panic o -> (forall a, no_panic (f a)) -> no_panic (o ≫= f).
Proof. destruct o; simpl; auto. Qed.
Lemma no_panic_ok_or {E A} (e : E) (o : option A) : no_panic (ok_or e o).
Proof. by destruct o. Qed.
Lemma no_panic_of_result {E A} (r : A + E) : no_panic (of_result r).
Proof. by destruct r. Qed.
Lemma no_panic_not {E A} (o : result E A) w : no_panic o -> o <> Panic w.
Proof. by intros H ->. Qed.

(** Walks through binds and branches down to constructors and hints. *)
Create HintDb no_panic discriminated.
#[export] Hint Resolve no_panic_ok_or no_panic_of_result : no_panic.
Ltac solve_no_panic :=
  repeat first
    [ progress intros
    | reflexivity
    | solve [auto with no_panic]
    | apply no_panic_bind
    | match goal with
      | |- no_panic (match ?x with _ => _ end) => destruct x
      end ].

(** ** The state monad of [&mut self] methods *)

Definition ME (E S A : Type) : Type := S -> result E A * S.
Abbreviation M := (ME string).

Section Monad.
Context {Er S : Type}.

#[export] Instance m_ret : MRet (ME Er S) := fun A a s => (Ok a, s).
#[export] Instance m_bind : MBind (ME Er S) := fun A B f m s =>
  match m s with
  | (Ok a, s') => f a s'
  | (Err e, s') => (Err e, s')
  | (Panic w, s') => (Panic w, s')
  end.

Definition fail {A} (e : Er) : ME Er S A := fun s => (Err e, s).
Definition panic {A} (w : string) : ME Er S A := fun s => (Panic w, s).
Definition get : ME Er S S := fun s => (Ok s, s).
Definition gets {A} (f : S -> A) : ME Er S A := fun s => (Ok (f s), s).
Definition modify (f : S -> S) : ME Er S unit := fun s => (Ok tt, f s).

(** [?] on a pure [Result]. *)
Definition lift {A} (o : result Er A) : ME Er S A := fun s => (o, s).

(** [match self.op() { Ok(a) => .., Err(e) => .. }]: the error is caught as a
    value, a panic is not. *)
Definition catch {A} (m : ME Er S A) : ME Er S (A + Er) := fun s =>
  match m s with
  | (Ok a, s') => (Ok (inl a), s')
  | (Err e, s') => (Ok (inr e), s')
  | (Panic w, s') => (Panic w, s')
  end.

(** [if cond { return Err(e) }] *)
Definition guard_err (cond : bool) (e : Er) : ME Er S unit :=
  if cond then fail e else mret tt.

(** [for x in xs { acc = body(x, acc) }], where the body may [return Err]. *)
Fixpoint for_each {X A} (xs : list X) (acc : A) (body : X -> A -> ME Er S A) : ME Er S A :=
  match xs with
  | [] => mret acc
  | x :: xs' => acc' ← body x acc; for_each xs' acc' body
  end.
End Monad.

(** A pure loop over a list whose body may [return Err] with [?]. *)
Fixpoint try_each {E X} (f : X -> result E unit) (xs : list X) : result E unit :=
  match xs with
  | [] => Ok tt
  | x :: xs' => _ ← f x; try_each f xs'
  end.

Lemma no_panic_try_each {E X} (f : X -> result E unit) xs :
  (forall x, no_panic (f x)) -> no_panic (try_each f xs).
Proof. intros Hf. induction xs as [|x xs IH]; simpl; [done|]. by apply no_panic_bind. Qed.

(** ** Total-correctness assertions for [M]

    [wp m Q s] says how [m] behaves from [s] on every branch: [Q] receives the
    outcome and the final state. *)
Definition wp {E S A} (m : ME E S A) (Q : result E A -> S -> Prop) (s : S) : Prop :=
  Q (fst (m s)) (snd (m s)).

(** The postcondition a bind passes on: continue on [Ok], stop otherwise. *)
Definition bind_post {E S A B} (f : A -> ME E S B) (Q : result E B -> S -> Prop)
    (o : result E A) (s : S) : Prop :=
  match o with
  | Ok a => wp (f a) Q s
  | Err e => Q (Err e) s
  | Panic w => Q (Panic w) s
  end.

Section Wp.
Context {Er S : Type}.
Implicit Types s : S.

Lemma wp_mono {A} (m : ME Er S A) (Q R : result Er A -> S -> Prop) s :
  wp m Q s -> (forall o s', Q o s' -> R o s') -> wp m R s.
Proof. unfold wp. eauto. Qed.

Lemma wp_ret {A} (a : A) (Q : result Er A -> S -> Prop) s : Q (Ok a) s -> wp (mret a) Q s.
Proof. done. Qed.

Lemma wp_bind {A B} (m : ME Er S A) (f : A -> ME Er S B) Q s :
  wp m (bind_post f Q) s -> wp (m ≫= f) Q s.
Proof.
  unfold wp, bind_post, mbind, m_bind, wp. destruct (m s) as [[a|e|w] s'] eqn:E; simpl; auto.
Qed.

Lemma wp_bind_inv {A B} (m : ME Er S A) (f : A -> ME Er S B) Q s :
  wp (m ≫= f) Q s -> wp m (bind_post f Q) s.
Proof.
  unfold wp, bind_post, mbind, m_bind, wp. destruct (m s) as [[a|e|w] s'] eqn:E; simpl; auto.
Qed.

Lemma wp_fail {A} e (Q : result Er A -> S -> Prop) s : Q (Err e) s -> wp (fail e) Q s.
Proof. done. Qed.

Lemma wp_panic {A} w (Q : result Er A -> S -> Prop) s : Q (Panic w) s -> wp (panic w) Q s.
Proof. done. Qed.

Lemma wp_gets {A} (f : S -> A) (Q : result Er A -> S -> Prop) s : Q (Ok (f s)) s -> wp (gets f) Q s.
Proof. done. Qed.

Lemma wp_modify (f : S -> S) (Q : result Er unit -> S -> Prop) s : Q (Ok tt) (f s) -> wp (modify f) Q s.
Proof. done. Qed.

Lemma wp_lift {A} (o : result Er A) Q s : Q o s -> wp (lift o) Q s.
Proof. done. Qed.

Lemma wp_guard cond (e : Er) Q s :
  (cond = true -> Q (Err e) s) -> (cond = false -> Q (Ok tt) s) -> wp (guard_err cond e) Q s.
Proof. unfold guard_err, wp. destruct cond; simpl; auto. Qed.

Lemma wp_catch {A} (m : ME Er S A) Q s :
  wp m (fun o s' => match o with
                    | Ok a => Q (Ok (inl a)) s'
                    | Err e => Q (Ok (inr e)) s'
                    | Panic w => Q (Panic w) s'
                    end) s -> wp (catch m) Q s.
Proof. unfold wp, catch. destruct (m s) as [[a|e|w] s']; auto. Qed.

(** Loop rule: an invariant over the accumulator and the state, indexed by
    what is left to traverse. *)
Lemma wp_for_each {X A} (Inv : list X -> A -> S -> Prop) (body : X -> A -> ME Er S A)
    (Q : result Er A -> S -> Prop) :
  (forall x xs acc s, Inv (x :: xs) acc s ->
     wp (body x acc) (fun o s' => match o with
                                  | Ok acc' => Inv xs acc' s'
                                  | Err e => Q (Err e) s'
                                  | Panic w => Q (Panic w) s'
                                  end) s) ->
  (forall acc s, Inv [] acc s -> Q (Ok acc) s) ->
  forall xs acc s, Inv xs acc s -> wp (for_each xs acc body) Q s.
Proof.
  intros Hstep Hdone xs. induction xs as [|x xs IH]; intros acc s HI; simpl.
  - apply wp_ret; eauto.
  - apply wp_bind. eapply wp_mono; [by apply Hstep|].
    intros [acc'|e|w] s' H; simpl; auto.
Qed.
End Wp.

(** One symbolic-execution step of a monadic program under [wp]. *)
Ltac wp_step :=
  lazymatch goal with
  | |- wp (_ ≫= _) _ _ => apply wp_bind
  | |- wp (mret _) _ _ => apply wp_ret
  | |- wp (fail _) _ _ => apply wp_fail
  | |- wp (panic _) _ _ => apply wp_panic
  | |- wp (gets _) _ _ => apply wp_gets
  | |- wp (modify _) _ _ => apply wp_modify
  | |- wp (lift _) _ _ => apply wp_lift
  | |- wp (catch _) _ _ => apply wp_catch
  | |- wp (guard_err _ _) _ _ => apply wp_guard; intros ?
  | |- bind_post _ _ _ _ => unfold bind_post
  end.
Ltac wp_steps := repeat (wp_step; simpl).

(** ** BTreeMap iteration

    A [BTreeMap<String, V>] is a [gmap string V]; where the code iterates over
    it, the order is the byte order of the keys. *)

Definition key_le {V} (p q : string * V) : Prop := String.le p.1 q.1.
#[export] Instance key_le_dec {V} : RelDecision (@key_le V).
Proof. intros p q. unfold key_le. apply _. Defined.
#[export] Instance key_le_trans {V} : Transitive (@key_le V).
Proof. intros p q r. unfold key_le. apply transitivity. Qed.
#[export] Instance key_le_total {V} : Total (@key_le V).
Proof. intros p q. unfold key_le. apply total. apply _. Qed.

Definition btree_iter {V} (m : gmap string V) : list (string * V) :=
  merge_sort key_le (map_to_list m).

Lemma elem_of_btree_iter {V} (m : gmap string V) k v :
  (k, v) ∈ btree_iter m <-> m !! k = Some v.
Proof. unfold btree_iter. by rewrite merge_sort_Permutation, elem_of_map_to_list. Qed.

Lemma btree_iter_sorted {V} (m : gmap string V) : StronglySorted key_le (btree_iter m).
Proof. apply StronglySorted_merge_sort; apply _. Qed.

Lemma NoDup_btree_keys {V} (m : gmap string V) : NoDup (btree_iter m).*1.
Proof. unfold btree_iter. rewrite merge_sort_Permutation. apply NoDup_fst_map_to_list. Qed.

Lemma btree_iter_nil {V} (m : gmap string V) : btree_iter m = [] <-> m = ∅.
Proof.
  split.
  - intros H. apply map_eq. intros k. rewrite lookup_empty.
    destruct (m !! k) as [v|] eqn:E; [|done].
    apply elem_of_btree_iter in E. rewrite H in E. by apply elem_of_nil in E.
  - intros ->. reflexivity.
Qed.

(** [.iter().find(|(_, v)| p(v))] *)
Definition btree_find {V} (p : V -> bool) (m : gmap string V) : option (string * V) :=
  snd <$> list_find (fun kv => p kv.2 = true) (btree_iter m).

Lemma btree_find_Some {V} (p : V -> bool) (m : gmap string V) k v :
  btree_find p m = Some (k, v) -> m !! k = Some v /\ p v = true.
Proof.
  unfold btree_find. intros H. apply fmap_Some in H as ([i [k' v']] & H & ?).
  simplify_eq/=. apply list_find_Some in H as (H & ? & _).
  split; [|done]. apply elem_of_btree_iter. by eapply list_elem_of_lookup_2.
Qed.

Lemma btree_find_None {V} (p : V -> bool) (m : gmap string V) :
  btree_find p m = None <-> forall k v, m !! k = Some v -> p v = false.
Proof.
  unfold btree_find. rewrite fmap_None, list_find_None. split.
  - intros H k v E. apply elem_of_btree_iter in E.
    rewrite Forall_forall in H. specialize (H _ E). simpl in H. by destruct (p v).
  - intros H. apply Forall_forall. intros [k v] E%elem_of_btree_iter. simpl. by rewrite (H _ _ E).
Qed.


Lemma list_to_map_btree_iter {V} (m : gmap string V) : list_to_map (btree_iter m) = m.
Proof.
  rewrite (list_to_map_proper _ (map_to_list m)).
  - apply list_to_map_to_list.
  - apply NoDup_btree_keys.
  - apply merge_sort_Permutation.
Qed.

(** Inserting every entry of a map, in key order, rebuilds it. *)
Lemma foldl_insert_lookup {V} (l : list (string * V)) (acc : gmap string V) k :
  NoDup l.*1 ->
  foldl (fun m p => <[p.1 := p.2]> m) acc l !! k
  = match (list_to_map l : gmap string V) !! k with Some v => Some v | None => acc !! k end.
Proof.
  revert acc. induction l as [|[k' v'] l IH]; intros acc Hnd; cbn in *; [done|].
  apply NoDup_cons in Hnd as [Hni Hnd]. rewrite IH by done.
  destruct (decide (k' = k)) as [->|Hne].
  - apply not_elem_of_list_to_map in Hni. rewrite Hni. by rewrite !lookup_insert_eq.
  - by rewrite !lookup_insert_ne.
Qed.

Lemma foldl_insert_btree {V} (m : gmap string V) :
  foldl (fun m p => <[p.1 := p.2]> m) ∅ (btree_iter m) = m.
Proof.
  apply map_eq. intros k. rewrite foldl_insert_lookup by apply NoDup_btree_keys.
  rewrite list_to_map_btree_iter. by destruct (m !! k).
Qed.

Lemma foldl_ext_Forall {A B} (P : B -> Prop) (f g : A -> B -> A) l a :
  Forall P l -> (forall a b, P b -> f a b = g a b) -> foldl f a l = foldl g a l.
Proof. intros Hl Hfg. revert a. induction Hl; intros a; simpl; [done|]. by rewrite Hfg. Qed.

(** Iteration order depends on the keys only. *)
Lemma btree_iter_fmap {V W} (f : V -> W) (m : gmap string V) :
  btree_iter (f <$> m) = prod_map id f <$> btree_iter m.
Proof.
  apply (StronglySorted_unique_strong key_le).
  - intros [k v] [k' v'] H1 H2 L1 L2. apply elem_of_btree_iter in H1.
    apply list_elem_of_fmap in H2 as ([k2 v2] & [= -> ->] & H2). apply elem_of_btree_iter in H2.
    assert (k = k2) as <- by (by apply (anti_symm String.le)).
    rewrite lookup_fmap, H2 in H1. simpl in H1. by injection H1 as <-.
  - apply btree_iter_sorted.
  - pose proof (btree_iter_sorted m) as Hs. revert Hs. generalize (btree_iter m).
    induction 1 as [|[k v] l Hl IH Hf]; [constructor|]. constructor; [done|].
    apply Forall_fmap. eapply Forall_impl; [done|]. by intros [k' v'].
  - unfold btree_iter. rewrite !merge_sort_Permutation. by rewrite map_to_list_fmap.
Qed.

Lemma btree_find_fmap {V W} (f : V -> W) (p : W -> bool) (m : gmap string V) :
  fst <$> btree_find (fun v => p (f v)) m = fst <$> btree_find p (f <$> m).
Proof.
  unfold btree_find. rewrite btree_iter_fmap. generalize (btree_iter m) as l. intros l.
  assert (list_find (fun kv : string * W => p kv.2 = true) (prod_map id f <$> l)
          = prod_map id (prod_map id f) <$> list_find (fun kv : string * V => p (f kv.2) = true) l) as ->.
  { by rewrite list_find_fmap. }
  by destruct (list_find _ l) as [[i [k v]]|].
Qed.

(** ** [slice::sort_by]: a stable sort *)

Section SortBy.
  Context {A : Type} (cmp : A -> A -> comparison).

Fixpoint insert_by (x : A) (l : list A) : list A :=
  match l with
  | [] => [x]
  | y :: r => match cmp x y with Gt => y :: insert_by x r | _ => x :: l end
  end.
Definition sort_by (l : list A) : list A := foldr insert_by [] l.

Lemma insert_by_perm x l : insert_by x l ≡ₚ x :: l.
Proof.
  induction l as [|y l IH]; [done|]. simpl. destruct (cmp x y); [done..|].
  rewrite IH. apply Permutation_swap.
Qed.
Lemma sort_by_perm l : sort_by l ≡ₚ l.
Proof. induction l as [|x l IH]; [done|]. simpl. by rewrite insert_by_perm, IH. Qed.

(** The order laws, wanted of the elements of the list only. *)
Context (P : A -> Prop).
Context (cmp_total : forall x y, P x -> P y -> cmp x y = Gt -> cmp y x <> Gt).
Context (cmp_trans : forall x y z, P x -> P y -> P z -> cmp x y <> Gt -> cmp y z <> Gt -> cmp x z <> Gt).

Lemma insert_by_sorted x l :
  P x -> Forall P l -> StronglySorted (fun x y => cmp x y <> Gt) l ->
  StronglySorted (fun x y => cmp x y <> Gt) (insert_by x l).
Proof.
  intros Hx Hl Hs. induction Hs as [|y l Hs IH Hy]; [by repeat constructor|]. simpl.
  apply Forall_cons in Hl as [Hy' Hl]. destruct (cmp x y) eqn:E.
  1, 2: constructor; [by constructor|]; constructor; [by rewrite E|];
    rewrite Forall_forall in *; intros z Hz; apply (cmp_trans x y z); auto; by rewrite E.
  constructor; [by apply IH|]. rewrite insert_by_perm. constructor; [|done]. by apply cmp_total.
Qed.
Lemma sort_by_sorted l :
  Forall P l -> StronglySorted (fun x y => cmp x y <> Gt) (sort_by l).
Proof.
  induction 1 as [|x l Hx Hl IH]; [constructor|]. simpl. apply insert_by_sorted; [done| |done].
  by rewrite sort_by_perm.
Qed.
End SortBy.
