(* ===== verification/RustStr.v ===== *)
(** Byte strings as Rust's [str] and [String], and comparisons: the functions of the
    standard library on bytes, and the laws of a comparison function used for sorting. *)

From Stdlib Require Import QArith.
From S2P Require Import Prelude.
Local Open Scope Z_scope.

(** The part of Rust's [str]/[String] and integer parsing and printing that the
    modelled services use.  A Rust string is the byte sequence of its UTF-8
    encoding ([Stdlib]'s [string], one [ascii] per byte); the code-point view is
    [chars].  Every function here is a function of the Rust standard library. *)

(** ** Bytes *)

Definition byte_of (c : ascii) : Z := Z.of_N (N_of_ascii c).
Definition of_byte (z : Z) : ascii := ascii_of_N (Z.to_N z).

Lemma byte_of_range c : 0 <= byte_of c < 256.
Proof. unfold byte_of. pose proof (N_ascii_bounded c). lia. Qed.

Lemma of_byte_of c : of_byte (byte_of c) = c.
Proof. unfold of_byte, byte_of. rewrite N2Z.id. apply ascii_N_embedding. Qed.

Lemma byte_of_of z : 0 <= z < 256 -> byte_of (of_byte z) = z.
Proof. intros H. unfold of_byte, byte_of. rewrite N_ascii_embedding by lia. lia. Qed.

Lemma byte_of_inj c d : byte_of c = byte_of d -> c = d.
Proof. intros H. rewrite <- (of_byte_of c), H. apply of_byte_of. Qed.

(** The byte of a char literal, [b'x']. *)
Definition in_range (lo hi : ascii) (c : ascii) : bool :=
  (byte_of lo <=? byte_of c) && (byte_of c <=? byte_of hi).

Definition is_ascii_digit : ascii -> bool := in_range "0" "9".
Definition is_ascii_lowercase : ascii -> bool := in_range "a" "z".
Definition is_ascii_uppercase : ascii -> bool := in_range "A" "Z".
Definition is_ascii_alphabetic (c : ascii) : bool := is_ascii_lowercase c || is_ascii_uppercase c.
Definition is_ascii_alphanumeric (c : ascii) : bool := is_ascii_alphabetic c || is_ascii_digit c.

Definition to_lower_byte (c : ascii) : ascii :=
  if is_ascii_uppercase c then of_byte (byte_of c + 32) else c.
Definition to_upper_byte (c : ascii) : ascii :=
  if is_ascii_lowercase c then of_byte (byte_of c - 32) else c.

Definition dquote : ascii := of_byte 34.
Definition nul : ascii := of_byte 0.
Definition cr : ascii := of_byte 13.
Definition lf : ascii := of_byte 10.
Definition crlf : string := String cr (String lf EmptyString).

(** ** Basic string operations *)

Definition is_empty (s : string) : bool := match s with EmptyString => true | _ => false end.
Definition str_len (s : string) : Z := Z.of_nat (String.length s).
Definition str_eqb (a b : string) : bool := bool_decide (a = b).
Definition char_str (c : ascii) : string := String c EmptyString.

Fixpoint str_map (f : ascii -> ascii) (s : string) : string :=
  match s with EmptyString => EmptyString | String c s' => String (f c) (str_map f s') end.
Definition to_ascii_lowercase : string -> string := str_map to_lower_byte.
Definition to_ascii_uppercase : string -> string := str_map to_upper_byte.
Definition eq_ignore_ascii_case (a b : string) : bool :=
  str_eqb (to_ascii_lowercase a) (to_ascii_lowercase b).

(** [s.bytes().all(p)] / [.any(p)] *)
Fixpoint str_all (p : ascii -> bool) (s : string) : bool :=
  match s with EmptyString => true | String c s' => p c && str_all p s' end.
Definition str_any (p : ascii -> bool) (s : string) : bool := negb (str_all (negb ∘ p) s).

Fixpoint str_rev_app (s acc : string) : string :=
  match s with EmptyString => acc | String c s' => str_rev_app s' (String c acc) end.
Definition str_rev (s : string) : string := str_rev_app s EmptyString.

Fixpoint strip_prefix (p s : string) : option string :=
  match p, s with
  | EmptyString, _ => Some s
  | String a p', String b s' => if Ascii.eqb a b then strip_prefix p' s' else None
  | String _ _, EmptyString => None
  end.
Definition starts_with (p s : string) : bool := bool_decide (is_Some (strip_prefix p s)).
Definition strip_suffix (p s : string) : option string :=
  str_rev <$> strip_prefix (str_rev p) (str_rev s).
Definition ends_with (p s : string) : bool := bool_decide (is_Some (strip_suffix p s)).

(** [s.split_once(pat)]: what is before and after the first occurrence. *)
Fixpoint split_once (pat s : string) : option (string * string) :=
  match strip_prefix pat s with
  | Some rest => Some (EmptyString, rest)
  | None =>
      match s with
      | EmptyString => None
      | String c s' => '(a, b) ← split_once pat s'; Some (String c a, b)
      end
  end.
Definition contains (pat s : string) : bool := bool_decide (is_Some (split_once pat s)).

(** [s.split(p)] for a predicate on (ASCII) characters; never empty. *)
Fixpoint split_by (p : ascii -> bool) (s : string) : list string :=
  match s with
  | EmptyString => [EmptyString]
  | String c s' =>
      if p c then EmptyString :: split_by p s'
      else match split_by p s' with
           | [] => [char_str c]
           | w :: ws => String c w :: ws
           end
  end.
Definition split_char (c : ascii) : string -> list string := split_by (Ascii.eqb c).

(** [s.trim_start_matches(c)], [s.trim_end_matches(c)], [s.trim_matches(c)] *)
Fixpoint trim_start_by (p : ascii -> bool) (s : string) : string :=
  match s with
  | EmptyString => EmptyString
  | String c s' => if p c then trim_start_by p s' else s
  end.
Definition trim_end_by (p : ascii -> bool) (s : string) : string :=
  str_rev (trim_start_by p (str_rev s)).
Definition trim_by (p : ascii -> bool) (s : string) : string := trim_end_by p (trim_start_by p s).

(** [s.trim()]: Unicode [White_Space], by the UTF-8 encodings of its code points. *)
Definition bytes_str (l : list Z) : string := foldr (fun b s => String (of_byte b) s) EmptyString l.
Definition white_space : list string :=
  map bytes_str
    ([[9]; [10]; [11]; [12]; [13]; [32]; [194; 133]; [194; 160]; [225; 154; 128];
      [226; 128; 168]; [226; 128; 169]; [226; 128; 175]; [226; 129; 159]; [227; 128; 128]]
     ++ map (fun x => [226; 128; x]) [128; 129; 130; 131; 132; 133; 134; 135; 136; 137; 138]).

Fixpoint strip_one_of (ps : list string) (s : string) : option string :=
  match ps with
  | [] => None
  | p :: ps' => match strip_prefix p s with Some r => Some r | None => strip_one_of ps' s end
  end.
Fixpoint trim_start_of (fuel : nat) (ps : list string) (s : string) : string :=
  match fuel with
  | O => s
  | S fuel' => match strip_one_of ps s with Some r => trim_start_of fuel' ps r | None => s end
  end.
Definition trim_start (s : string) : string := trim_start_of (String.length s) white_space s.
Definition trim_end (s : string) : string :=
  str_rev (trim_start_of (String.length s) (map str_rev white_space) (str_rev s)).
Definition trim (s : string) : string := trim_end (trim_start s).

(** [s.chars()]: the code points of a UTF-8 string.  Rust strings are always
    valid UTF-8; on other byte sequences a byte that starts no valid encoding
    reads as U+FFFD. *)
Definition cont_val (c : ascii) : option Z :=
  let b := byte_of c in if (128 <=? b) && (b <? 192) then Some (b - 128) else None.
Fixpoint chars (s : string) : list Z :=
  match s with
  | EmptyString => []
  | String c0 s1 =>
      let b0 := byte_of c0 in
      let bad := 65533 :: chars s1 in
      if b0 <? 128 then b0 :: chars s1
      else match s1 with
      | EmptyString => bad
      | String c1 s2 =>
          match cont_val c1 with
          | None => bad
          | Some b1 =>
              if b0 <? 224 then
                (if 194 <=? b0 then (b0 - 192) * 64 + b1 :: chars s2 else bad)
              else match s2 with
              | EmptyString => bad
              | String c2 s3 =>
                  match cont_val c2 with
                  | None => bad
                  | Some b2 =>
                      let v := ((b0 - 224) * 64 + b1) * 64 + b2 in
                      if b0 <? 240 then (if 2048 <=? v then v :: chars s3 else bad)
                      else match s3 with
                      | EmptyString => bad
                      | String c3 s4 =>
                          match cont_val c3 with
                          | None => bad
                          | Some b3 =>
                              let v := (((b0 - 240) * 64 + b1) * 64 + b2) * 64 + b3 in
                              if 65536 <=? v then v :: chars s4 else bad
                          end
                      end
                  end
              end
          end
      end
  end.

Definition is_ascii (c : ascii) : bool := byte_of c <? 128.

(** ** Fixed-width integers *)

Definition i64_min : Z := - 2 ^ 63.
Definition i64_max : Z := 2 ^ 63 - 1.
Definition i128_min : Z := - 2 ^ 127.
Definition i128_max : Z := 2 ^ 127 - 1.
Definition in_i64 (z : Z) : bool := (i64_min <=? z) && (z <=? i64_max).
Definition in_i128 (z : Z) : bool := (i128_min <=? z) && (z <=? i128_max).

(** Two's-complement wrap-around to [w] bits: [as i64], [as i128], and what
    arithmetic does in a build without overflow checks. *)
Definition wrap_s (w z : Z) : Z := (z + 2 ^ (w - 1)) mod 2 ^ w - 2 ^ (w - 1).
Definition wrap_u (w z : Z) : Z := z mod 2 ^ w.

Lemma wrap_s_id w z : 0 < w -> - 2 ^ (w - 1) <= z < 2 ^ (w - 1) -> wrap_s w z = z.
Proof.
  intros Hw Hz. unfold wrap_s.
  assert (2 ^ w = 2 * 2 ^ (w - 1)) as ->.
  { replace w with (Z.succ (w - 1)) at 1 by lia. apply Z.pow_succ_r. lia. }
  rewrite Z.mod_small; lia.
Qed.

Lemma wrap_u_id w z : 0 <= z < 2 ^ w -> wrap_u w z = z.
Proof. apply Z.mod_small. Qed.

(** Rust's [/] and [%] on signed integers truncate towards zero. *)
Notation "a '/t' b" := (Z.quot a b) (at level 40, left associativity) : Z_scope.

(** ** Lemmas on strings *)

Section StringLemmas.
Implicit Types s t : string.

Lemma str_app_nil_l s : EmptyString +:+ s = s.
Proof. reflexivity. Qed.
Lemma str_app_cons c s t : String c s +:+ t = String c (s +:+ t).
Proof. reflexivity. Qed.
Lemma str_app_nil_r s : s +:+ EmptyString = s.
Proof. induction s; [done|]. by rewrite str_app_cons, IHs. Qed.
Lemma str_app_assoc s t u : (s +:+ t) +:+ u = s +:+ (t +:+ u).
Proof. induction s; [done|]. by rewrite !str_app_cons, IHs. Qed.
Lemma str_length_app s t : String.length (s +:+ t) = (String.length s + String.length t)%nat.
Proof. induction s; [done|]. rewrite str_app_cons. simpl. by rewrite IHs. Qed.

Lemma str_all_app p s t : str_all p (s +:+ t) = str_all p s && str_all p t.
Proof. induction s; [done|]. rewrite str_app_cons. simpl. by rewrite IHs, andb_assoc. Qed.
Lemma str_all_impl (p q : ascii -> bool) s :
  (forall c, p c = true -> q c = true) -> str_all p s = true -> str_all q s = true.
Proof.
  intros H. induction s; simpl; [done|]. rewrite !andb_true_iff. intros [? ?]. auto.
Qed.

Lemma str_rev_app_spec s acc : str_rev_app s acc = str_rev s +:+ acc.
Proof.
  unfold str_rev. revert acc. induction s as [|c s IH]; intros acc; [done|]. simpl.
  rewrite IH, (IH (String c EmptyString)), str_app_assoc. reflexivity.
Qed.
Lemma str_rev_cons c s : str_rev (String c s) = str_rev s +:+ char_str c.
Proof. exact (str_rev_app_spec s (char_str c)). Qed.
Lemma str_rev_append s t : str_rev (s +:+ t) = str_rev t +:+ str_rev s.
Proof.
  induction s.
  - by rewrite str_app_nil_l, str_app_nil_r.
  - by rewrite str_app_cons, !str_rev_cons, IHs, str_app_assoc.
Qed.
Lemma str_rev_involutive s : str_rev (str_rev s) = s.
Proof. induction s; [done|]. by rewrite str_rev_cons, str_rev_append, IHs. Qed.
Lemma str_length_rev s : String.length (str_rev s) = String.length s.
Proof. induction s; [done|]. rewrite str_rev_cons, str_length_app, IHs. simpl. lia. Qed.
Lemma str_all_rev p s : str_all p (str_rev s) = str_all p s.
Proof.
  induction s; [done|]. rewrite str_rev_cons, str_all_app, IHs. simpl.
  by rewrite andb_true_r, andb_comm.
Qed.

Lemma str_app_inj_l s t u : s +:+ t = s +:+ u -> t = u.
Proof. induction s as [|c s IH]; [done|]. rewrite !str_app_cons. intros [= H]. auto. Qed.
Lemma str_app_inj_length s s' t t' :
  String.length s = String.length s' -> s +:+ t = s' +:+ t' -> s = s' /\ t = t'.
Proof.
  revert s'. induction s as [|c s IH]; intros [|c' s']; simpl; try done.
  rewrite !str_app_cons. intros Hl [= -> H]. injection Hl as Hl.
  by destruct (IH s' Hl H) as [-> ->].
Qed.

Lemma strip_prefix_Some p s r : strip_prefix p s = Some r <-> s = p +:+ r.
Proof.
  revert s. induction p as [|a p IH]; intros s; simpl.
  - rewrite str_app_nil_l. split; congruence.
  - rewrite str_app_cons. destruct s as [|b s]; [done|].
    destruct (Ascii.eqb_spec a b) as [->|Hne].
    + rewrite IH. split; congruence.
    + split; congruence.
Qed.
Lemma strip_prefix_app p s : strip_prefix p (p +:+ s) = Some s.
Proof. by apply strip_prefix_Some. Qed.
Lemma strip_suffix_app p s : strip_suffix p (s +:+ p) = Some s.
Proof.
  unfold strip_suffix. rewrite str_rev_append, strip_prefix_app. simpl.
  by rewrite str_rev_involutive.
Qed.
Lemma strip_suffix_Some p s r : strip_suffix p s = Some r <-> s = r +:+ p.
Proof.
  split; [|intros ->; apply strip_suffix_app].
  unfold strip_suffix. intros (r' & H & ->)%fmap_Some.
  apply strip_prefix_Some in H. apply (f_equal str_rev) in H.
  by rewrite str_rev_append, !str_rev_involutive in H.
Qed.

Lemma split_once_Some pat s a b : split_once pat s = Some (a, b) -> s = a +:+ pat +:+ b.
Proof.
  revert a b. induction s as [|c s IH]; intros a b; simpl.
  - destruct (strip_prefix pat EmptyString) as [r|] eqn:E; [|done]. intros [= <- <-].
    apply strip_prefix_Some in E. exact E.
  - destruct (strip_prefix pat (String c s)) as [r|] eqn:E.
    + intros [= <- <-]. apply strip_prefix_Some in E. exact E.
    + destruct (split_once pat s) as [[a' b']|] eqn:E'; [|done].
      intros [= <- <-]. rewrite str_app_cons. f_equal. by apply IH.
Qed.

(** The first occurrence of a one-byte pattern is found. *)
Lemma split_once_char c s t :
  str_all (negb ∘ Ascii.eqb c) s = true ->
  split_once (char_str c) (s +:+ char_str c +:+ t) = Some (s, t).
Proof.
  induction s as [|d s IH].
  - intros _. rewrite str_app_nil_l. simpl. by rewrite Ascii.eqb_refl.
  - rewrite str_app_cons. cbn [str_all]. intros [Hd Hs]%andb_true_iff.
    apply negb_true_iff in Hd. cbn. by rewrite Hd, (IH Hs).
Qed.
Lemma split_once_char_None c s :
  str_all (negb ∘ Ascii.eqb c) s = true -> split_once (char_str c) s = None.
Proof.
  induction s as [|d s IH]; [done|].
  simpl. intros [Hd Hs]%andb_true_iff. apply negb_true_iff in Hd. rewrite Hd, IH; done.
Qed.

Lemma split_by_nonempty p s : split_by p s <> [].
Proof. destruct s; simpl; [done|]. repeat case_match; done. Qed.
Lemma split_by_none p s : str_all (negb ∘ p) s = true -> split_by p s = [s].
Proof.
  induction s as [|c s IH]; [done|]. simpl. intros [Hc Hs]%andb_true_iff.
  apply negb_true_iff in Hc. rewrite Hc, IH; done.
Qed.
Lemma split_by_app p s c t :
  str_all (negb ∘ p) s = true -> p c = true ->
  split_by p (s +:+ String c t) = s :: split_by p t.
Proof.
  intros Hs Hc. induction s as [|d s IH].
  - rewrite str_app_nil_l. cbn [split_by]. by rewrite Hc.
  - cbn [str_all] in Hs. apply andb_true_iff in Hs as [Hd Hs]. apply negb_true_iff in Hd.
    rewrite str_app_cons. simpl. by rewrite Hd, IH.
Qed.

Lemma trim_start_by_none p s :
  match s with String c _ => p c = false | EmptyString => True end -> trim_start_by p s = s.
Proof. destruct s; simpl; [done|]. by intros ->. Qed.
Lemma trim_end_by_none p s t :
  t <> EmptyString -> str_all (negb ∘ p) t = true -> trim_end_by p (s +:+ t) = s +:+ t.
Proof.
  intros Ht Hp. unfold trim_end_by. rewrite <- (str_all_rev _ t) in Hp.
  rewrite str_rev_append. destruct (str_rev t) as [|c r] eqn:E.
  - destruct Ht. rewrite <- (str_rev_involutive t), E. done.
  - rewrite str_app_cons, trim_start_by_none.
    + by rewrite <- str_app_cons, <- E, <- str_rev_append, str_rev_involutive.
    + cbn [str_all] in Hp. apply andb_true_iff in Hp as [Hc _]. by apply negb_true_iff in Hc.
Qed.
End StringLemmas.

Create Rewrite HintDb str.
#[export] Hint Rewrite str_app_nil_l str_app_nil_r str_app_cons str_app_assoc
  str_length_app str_length_rev : str.

(** ** Code points of ASCII strings *)

Lemma chars_ascii_cons c s : is_ascii c = true -> chars (String c s) = byte_of c :: chars s.
Proof. unfold is_ascii. intros H. cbn [chars]. by rewrite H. Qed.

Lemma cont_val_range c v : cont_val c = Some v -> 0 <= v < 64.
Proof. unfold cont_val. case_match; intros [= <-]. lia. Qed.

Lemma chars_head c s : is_ascii c = false -> exists v l, chars (String c s) = v :: l /\ 128 <= v.
Proof.
  unfold is_ascii. intros H. cbn [chars]. rewrite H.
  repeat case_match;
    repeat match goal with H : cont_val _ = Some _ |- _ => apply cont_val_range in H end;
    do 2 eexists; (split; [done|]); lia.
Qed.

Lemma length_chars_ascii s : str_all is_ascii s = true -> length (chars s) = String.length s.
Proof.
  induction s as [|c s IH]; [done|]. cbn [str_all]. intros [Hc Hs]%andb_true_iff.
  rewrite chars_ascii_cons by done. cbn [length String.length]. by rewrite IH.
Qed.

(** A predicate that holds of ASCII code points only, checked on [chars], is the
    same check on bytes. *)
Lemma forallb_chars (p : Z -> bool) s :
  (forall v, p v = true -> v < 128) ->
  forallb p (chars s) = str_all (fun c => p (byte_of c)) s.
Proof.
  intros Hp. induction s as [|c s IH]; [done|].
  destruct (is_ascii c) eqn:Hc.
  - rewrite chars_ascii_cons by done. cbn [forallb str_all]. by rewrite IH.
  - destruct (chars_head c s Hc) as (v & l & -> & Hv). cbn [forallb str_all].
    assert (forall v, 128 <= v -> p v = false) as Hno.
    { intros u Hu. destruct (p u) eqn:E; [|done]. apply Hp in E. lia. }
    rewrite !Hno; [done| |done]. unfold is_ascii in Hc. lia.
Qed.

Lemma starts_with_true p s : starts_with p s = true <-> exists r, s = p +:+ r.
Proof.
  unfold starts_with. rewrite bool_decide_eq_true. unfold is_Some.
  by setoid_rewrite strip_prefix_Some.
Qed.
Lemma ends_with_true p s : ends_with p s = true <-> exists r, s = r +:+ p.
Proof.
  unfold ends_with. rewrite bool_decide_eq_true. unfold is_Some.
  by setoid_rewrite strip_suffix_Some.
Qed.
Lemma str_eqb_true s t : str_eqb s t = true <-> s = t.
Proof. unfold str_eqb. apply bool_decide_eq_true. Qed.
Lemma is_empty_true s : is_empty s = true <-> s = EmptyString.
Proof. by destruct s. Qed.

Lemma bytes_str_cons z l : bytes_str (z :: l) = String (of_byte z) (bytes_str l).
Proof. reflexivity. Qed.

(** ** Byte ranges *)

(** [s[..n]] and [s[n..]] *)
Definition str_take (n : Z) (s : string) : string := String.substring 0 (Z.to_nat n) s.
Definition str_drop (n : Z) (s : string) : string :=
  String.substring (Z.to_nat n) (String.length s - Z.to_nat n) s.

Lemma str_len_cons c s : str_len (String c s) = 1 + str_len s.
Proof. unfold str_len. cbn [String.length]. lia. Qed.
Lemma str_len_app s t : str_len (s +:+ t) = str_len s + str_len t.
Proof. unfold str_len. rewrite str_length_app. lia. Qed.
Lemma str_len_nonneg s : 0 <= str_len s.
Proof. unfold str_len. lia. Qed.

Lemma str_len_zero s : str_len s = 0 -> s = EmptyString.
Proof. by destruct s. Qed.

Lemma substring_full s : String.substring 0 (String.length s) s = s.
Proof. induction s as [|c s IH]; [done|]. cbn [String.length String.substring]. by rewrite IH. Qed.

Lemma substring_split n s :
  (n <= String.length s)%nat ->
  s = String.substring 0 n s +:+ String.substring n (String.length s - n) s
  /\ String.length (String.substring 0 n s) = n.
Proof.
  revert s. induction n as [|n IH]; intros s Hn.
  - rewrite Nat.sub_0_r, substring_full. destruct s; cbn [String.substring]; by rewrite str_app_nil_l.
  - destruct s as [|c s]; cbn [String.length] in *; [lia|].
    destruct (IH s ltac:(lia)) as [Hs Hl]. cbn [String.substring String.length Nat.sub].
    rewrite str_app_cons, Hl. by rewrite <- Hs.
Qed.

Lemma str_split n s :
  0 <= n <= str_len s ->
  s = str_take n s +:+ str_drop n s
  /\ str_len (str_take n s) = n /\ str_len (str_drop n s) = str_len s - n.
Proof.
  intros Hn. unfold str_take, str_drop. unfold str_len in Hn.
  destruct (substring_split (Z.to_nat n) s) as [Hs Hl]; [lia|]. split; [done|].
  assert (str_len s = str_len (String.substring 0 (Z.to_nat n) s)
    + str_len (String.substring (Z.to_nat n) (String.length s - Z.to_nat n) s)) as Hlen
    by (rewrite Hs at 1; apply str_len_app).
  unfold str_len in *. rewrite Hl in *. lia.
Qed.

(** ** UTF-8 *)

Definition in_bytes (lo hi : Z) (c : ascii) : bool := (lo <=? byte_of c) && (byte_of c <=? hi).

(** [std::str::from_utf8(s).is_ok()]: the well-formed byte sequences of the
    Unicode standard. *)
Fixpoint utf8_valid (s : string) : bool :=
  match s with
  | EmptyString => true
  | String a r =>
      if in_bytes 0 127 a then utf8_valid r
      else
        match r with
        | EmptyString => false
        | String b r =>
            if in_bytes 194 223 a then in_bytes 128 191 b && utf8_valid r
            else
              match r with
              | EmptyString => false
              | String c r =>
                  if in_bytes 224 239 a then
                    in_bytes (if byte_of a =? 224 then 160 else 128)
                             (if byte_of a =? 237 then 159 else 191) b
                    && in_bytes 128 191 c && utf8_valid r
                  else
                    match r with
                    | EmptyString => false
                    | String d r =>
                        in_bytes 240 244 a
                        && in_bytes (if byte_of a =? 240 then 144 else 128)
                                    (if byte_of a =? 244 then 143 else 191) b
                        && in_bytes 128 191 c && in_bytes 128 191 d && utf8_valid r
                    end
              end
        end
  end.

Lemma utf8_valid_ascii s : str_all is_ascii s = true -> utf8_valid s = true.
Proof.
  induction s as [|c s IH]; [done|]. cbn [str_all utf8_valid]. intros [Hc Hs]%andb_true_iff.
  unfold in_bytes. unfold is_ascii in Hc. pose proof (byte_of_range c).
  assert ((0 <=? byte_of c) && (byte_of c <=? 127) = true) as -> by lia. auto.
Qed.

(** ** Graphic ASCII: what neither [trim] nor line splitting touches *)

Definition graphic (c : ascii) : bool := in_range "!" "~" c.

Lemma strip_one_of_graphic ps c s :
  forallb (fun p => match p with String a _ => negb (graphic a) | EmptyString => false end) ps = true ->
  graphic c = true -> strip_one_of ps (String c s) = None.
Proof.
  intros Hps Hc. induction ps as [|p ps IH]; [done|]. cbn [forallb] in Hps.
  apply andb_true_iff in Hps as [Hp Hps]. cbn [strip_one_of].
  destruct p as [|a p]; [done|]. cbn [strip_prefix].
  destruct (Ascii.eqb_spec a c) as [->|_]; [by rewrite Hc in Hp|]. by apply IH.
Qed.

Lemma trim_start_of_graphic fuel ps s :
  forallb (fun p => match p with String a _ => negb (graphic a) | EmptyString => false end) ps = true ->
  str_all graphic s = true -> trim_start_of fuel ps s = s.
Proof.
  intros Hps Hs. destruct fuel as [|fuel]; [done|]. cbn [trim_start_of].
  destruct s as [|c s].
  - assert (strip_one_of ps EmptyString = None) as ->; [|done].
    clear Hs. induction ps as [|p ps IH]; [done|]. cbn [forallb] in Hps.
    apply andb_true_iff in Hps as [Hp Hps]. destruct p as [|a p]; [done|]. cbn [strip_one_of strip_prefix].
    by apply IH.
  - cbn [str_all] in Hs. apply andb_true_iff in Hs as [Hc _]. by rewrite strip_one_of_graphic.
Qed.

Lemma trim_graphic s : str_all graphic s = true -> trim s = s.
Proof.
  intros Hs. unfold trim, trim_start. rewrite trim_start_of_graphic; [|by vm_compute|done].
  unfold trim_end. rewrite trim_start_of_graphic; [|by vm_compute|by rewrite str_all_rev].
  apply str_rev_involutive.
Qed.

Lemma graphic_ascii s : str_all graphic s = true -> str_all is_ascii s = true.
Proof.
  apply str_all_impl. intros c. unfold graphic, in_range, is_ascii. change (byte_of "~") with 126. lia.
Qed.

(** The first line end of a string whose first line has no carriage return. *)
Lemma split_once_crlf s t :
  str_all (negb ∘ Ascii.eqb cr) s = true -> split_once crlf (s +:+ crlf +:+ t) = Some (s, t).
Proof.
  induction s as [|c s IH].
  - intros _. rewrite str_app_nil_l.
    change (crlf +:+ t) with (String cr (String lf t)). reflexivity.
  - rewrite str_app_cons. cbn [str_all]. intros [Hc Hs]%andb_true_iff. apply negb_true_iff in Hc.
    cbn [split_once strip_prefix crlf]. change (String cr (String lf "")) with crlf.
    by rewrite Hc, (IH Hs).
Qed.

Lemma graphic_no_cr s : str_all graphic s = true -> str_all (negb ∘ Ascii.eqb cr) s = true.
Proof.
  apply str_all_impl. intros c Hc. apply negb_true_iff. destruct (Ascii.eqb_spec cr c) as [<-|_]; [|done].
  by vm_compute in Hc.
Qed.

(** Total preorders given by comparison functions ([Ord::cmp] and the closures of
    [sort_by]): their laws on a domain, and the combinators that build them -
    by a key, lexicographically, on optional values. *)

(** The laws, asked of the elements of [P] only. *)
Record total_cmp {A} (P : A -> Prop) (cmp : A -> A -> comparison) : Prop := mkTotal {
  tc_anti x y : P x -> P y -> cmp y x = CompOpp (cmp x y);
  tc_trans x y z : P x -> P y -> P z -> cmp x y <> Gt -> cmp y z <> Gt -> cmp x z <> Gt }.

Section Laws.
  Context {A : Type} (P : A -> Prop) (cmp : A -> A -> comparison).
  Context (HT : total_cmp P cmp).

Lemma tc_refl x : P x -> cmp x x = Eq.
Proof. intros Hx. pose proof (tc_anti _ _ HT x x Hx Hx) as Ha. by destruct (cmp x x). Qed.
Lemma tc_gt x y : P x -> P y -> cmp x y = Gt -> cmp y x <> Gt.
Proof. intros Hx Hy Hg. by rewrite (tc_anti _ _ HT x y Hx Hy), Hg. Qed.
(** Equals compare alike. *)
Lemma tc_eq_l x y z : P x -> P y -> P z -> cmp x y = Eq -> cmp x z = cmp y z.
Proof.
  intros Hx Hy Hz Hxy. pose proof (tc_anti _ _ HT x y Hx Hy) as Hyx. rewrite Hxy in Hyx.
  pose proof (tc_trans _ _ HT x y z Hx Hy Hz) as T1. pose proof (tc_trans _ _ HT y x z Hy Hx Hz) as T2.
  pose proof (tc_trans _ _ HT z x y Hz Hx Hy) as T3. pose proof (tc_trans _ _ HT z y x Hz Hy Hx) as T4.
  rewrite Hxy in *. rewrite Hyx in *. rewrite (tc_anti _ _ HT x z), (tc_anti _ _ HT y z) in T3, T4 by done.
  destruct (cmp x z), (cmp y z); try done; exfalso; simpl in *;
    first [by apply T1|by apply T2|by apply T3|by apply T4].
Qed.
Lemma tc_eq_r x y z : P x -> P y -> P z -> cmp y z = Eq -> cmp x y = cmp x z.
Proof.
  intros Hx Hy Hz Hyz. rewrite (tc_anti _ _ HT y x), (tc_anti _ _ HT z x) by done. f_equal. by apply tc_eq_l.
Qed.
End Laws.

(** Comparing by a key. *)
Lemma total_by {A B} (P : A -> Prop) (Q : B -> Prop) (f : A -> B) cmp :
  total_cmp Q cmp -> (forall x, P x -> Q (f x)) -> total_cmp P (fun x y => cmp (f x) (f y)).
Proof. intros [Ha Ht] Hf. split; intros; [apply Ha; auto|eapply (Ht _ (f y)); auto]. Qed.

(** Lexicographic composition; the second comparison is only asked about elements
    that the first takes for equal. *)
Definition lex {A} (c1 c2 : A -> A -> comparison) (x y : A) : comparison :=
  match c1 x y with Eq => c2 x y | c => c end.
Lemma total_lex {A} (P : A -> Prop) (c1 c2 : A -> A -> comparison) :
  total_cmp P c1 ->
  (forall x y, P x -> P y -> c1 x y = Eq -> c2 y x = CompOpp (c2 x y)) ->
  (forall x y z, P x -> P y -> P z -> c1 x y = Eq -> c1 y z = Eq -> c2 x y <> Gt -> c2 y z <> Gt -> c2 x z <> Gt) ->
  total_cmp P (lex c1 c2).
Proof.
  intros H1 Ha Ht. split.
  - intros x y Hx Hy. unfold lex. rewrite (tc_anti _ _ H1 x y) by done.
    destruct (c1 x y) eqn:E; simpl; auto.
  - intros x y z Hx Hy Hz. unfold lex.
    pose proof (tc_trans _ _ H1 x y z Hx Hy Hz) as T.
    pose proof (tc_eq_l _ _ H1 x y z Hx Hy Hz) as TL. pose proof (tc_eq_r _ _ H1 x y z Hx Hy Hz) as TR.
    destruct (c1 x y) eqn:E1; destruct (c1 y z) eqn:E2; try done.
    + rewrite TL by done. by apply Ht.
    + by rewrite TL.
    + by rewrite <- TR.
    + intros _ _. specialize (T ltac:(done) ltac:(done)). destruct (c1 x z) eqn:E3; [|done|done].
      exfalso. pose proof (tc_anti _ _ H1 x z Hx Hz) as Hzx. rewrite E3 in Hzx.
      pose proof (tc_eq_l _ _ H1 z x y Hz Hx Hy Hzx) as Hzy.
      pose proof (tc_anti _ _ H1 y z Hy Hz) as Ha'. rewrite Hzy, E1, E2 in Ha'. done.
Qed.
Lemma total_lex_simple {A} (P : A -> Prop) (c1 c2 : A -> A -> comparison) :
  total_cmp P c1 -> total_cmp P c2 -> total_cmp P (lex c1 c2).
Proof.
  intros H1 H2. apply total_lex; [done|..].
  - intros. by apply H2.
  - intros x y z Hx Hy Hz _ _. by apply H2.
Qed.

(** [None] before every [Some]. *)
Definition cmp_option {A} (cmp : A -> A -> comparison) (x y : option A) : comparison :=
  match x, y with None, None => Eq | None, _ => Lt | _, None => Gt | Some x, Some y => cmp x y end.
Lemma total_option {A} (P : A -> Prop) cmp :
  total_cmp P cmp -> total_cmp (fun o => forall x, o = Some x -> P x) (cmp_option cmp).
Proof.
  intros [Ha Ht]. split.
  - intros [x|] [y|] Hx Hy; try done. simpl. auto.
  - intros [x|] [y|] [z|] Hx Hy Hz; try done. simpl. apply Ht; auto.
Qed.

Lemma total_Z (P : Z -> Prop) : total_cmp P Z.compare.
Proof.
  split; [intros x y _ _; apply Z.compare_antisym|]. intros x y z _ _ _. rewrite !Z.compare_gt_iff. lia.
Qed.
Lemma total_Q (P : Q -> Prop) : total_cmp P Qcompare.
Proof.
  split.
  - intros x y _ _. symmetry. apply Qcompare_antisym.
  - intros x y z _ _ _. rewrite <- !Qle_alt. apply Qle_trans.
Qed.

(** The byte order of strings. *)
Lemma ascii_compare_spec c d : Ascii.compare c d = (byte_of c ?= byte_of d).
Proof. unfold Ascii.compare, byte_of. symmetry. apply N2Z.inj_compare. Qed.
Lemma string_compare_refl s : String.compare s s = Eq.
Proof. induction s as [|c s IH]; [done|]. simpl. by rewrite ascii_compare_spec, Z.compare_refl. Qed.
Lemma total_string (P : string -> Prop) : total_cmp P String.compare.
Proof.
  split; [intros x y _ _; apply String.compare_antisym|]. intros x y z _ _ _. revert y z.
  induction x as [|c x IH]; intros [|d y] [|e z]; simpl; try done.
  rewrite !ascii_compare_spec.
  destruct (Z.compare_spec (byte_of c) (byte_of d)) as [->|H1|H1]; [|..|done].
  - destruct (byte_of d ?= byte_of e) eqn:E; try done. apply IH.
  - intros _. destruct (Z.compare_spec (byte_of d) (byte_of e)) as [<-|H2|H2]; [|..|done];
      intros _; rewrite (proj2 (Z.compare_lt_iff _ _)); done || lia.
Qed.
