(* ===== verification/RustNum.v ===== *)
(** Rust's integers: parsing, printing and their round trips, and arithmetic at a width,
    checked or wrapping as the build has it. *)

From S2P Require Import Prelude RustStr.
Local Open Scope Z_scope.

(** Parsing and printing of Rust's integer types: [str::parse], [from_str_radix],
    [to_string], and the [{:04}], [{:02x}], [{:x}] formats, with the round-trip
    lemmas the services' codecs rest on. *)

(** ** Digits *)

(** [char::to_digit(16)] *)
Definition hex_digit_value (c : ascii) : option Z :=
  if is_ascii_digit c then Some (byte_of c - 48)
  else if in_range "a" "f" c then Some (byte_of c - 87)
  else if in_range "A" "F" c then Some (byte_of c - 55)
  else None.

(** [char::to_digit(b)] for [b <= 16] *)
Definition to_digit (b : Z) (c : ascii) : option Z :=
  d ← hex_digit_value c; if d <? b then Some d else None.

(** The digit character printed for a value below 16. *)
Definition digit_char (d : Z) : ascii :=
  if d <? 10 then of_byte (48 + d) else of_byte (87 + d).

Fixpoint digits_value (b : Z) (s : string) (acc : Z) : option Z :=
  match s with
  | EmptyString => Some acc
  | String c s' => d ← to_digit b c; digits_value b s' (acc * b + d)
  end.

Definition parse_digits (b : Z) (s : string) : option Z :=
  if is_empty s then None else digits_value b s 0.

(** [T::from_str_radix(s, b)] for the integer type with range [lo..=hi]: an
    optional [+], a [-] for signed types only, then at least one digit. *)
Definition parse_radix (b lo hi : Z) (s : string) : option Z :=
  let range z := if (lo <=? z) && (z <=? hi) then Some z else None in
  match s with
  | EmptyString => None
  | String c r =>
      if Ascii.eqb c "+" then parse_digits b r ≫= range
      else if Ascii.eqb c "-" then
        (if lo <? 0 then z ← parse_digits b r; range (- z) else None)
      else parse_digits b s ≫= range
  end.

Definition parse_i64 : string -> option Z := parse_radix 10 i64_min i64_max.
Definition parse_i128 : string -> option Z := parse_radix 10 i128_min i128_max.
Definition parse_u16 : string -> option Z := parse_radix 10 0 (2 ^ 16 - 1).
Definition parse_usize_hex : string -> option Z := parse_radix 16 0 (2 ^ 64 - 1).

(** ** Printing *)

Fixpoint show_fuel (b : Z) (fuel : nat) (n : Z) (acc : string) : string :=
  match fuel with
  | O => acc
  | S fuel' =>
      let acc' := String (digit_char (n mod b)) acc in
      if n <? b then acc' else show_fuel b fuel' (n / b) acc'
  end.

(** [2 ^ fuel > n], so the fuel covers every digit in base 2 or more. *)
Definition show_radix (b n : Z) : string :=
  show_fuel b (S (Z.to_nat (Z.log2 n))) n EmptyString.

(** [n.to_string()] *)
Definition show_Z (n : Z) : string :=
  if n <? 0 then String "-" (show_radix 10 (- n)) else show_radix 10 n.

Fixpoint str_repeat (n : nat) (c : ascii) : string :=
  match n with O => EmptyString | S n' => String c (str_repeat n' c) end.

Definition pad_left (w : nat) (c : ascii) (s : string) : string :=
  str_repeat (w - String.length s) c +:+ s.

(** [{:0w}] of an integer: zeros go between the sign and the digits, and the
    sign counts for the width. *)
Definition show_pad (w : nat) (n : Z) : string :=
  if n <? 0 then String "-" (pad_left (w - 1) "0" (show_radix 10 (- n)))
  else pad_left w "0" (show_radix 10 n).

(** [{:x}] of an unsigned integer *)
Definition show_hex (n : Z) : string := show_radix 16 n.

(** [{:02x}] of each byte: the crates' own [hex_lower]. *)
Definition hex2 (c : ascii) : string := pad_left 2 "0" (show_hex (byte_of c)).

(** ** Lemmas *)

Lemma hex_digit_value_spec c d :
  hex_digit_value c = Some d ->
  (48 <= byte_of c <= 57 /\ d = byte_of c - 48) \/
  (97 <= byte_of c <= 102 /\ d = byte_of c - 87) \/
  (65 <= byte_of c <= 70 /\ d = byte_of c - 55).
Proof.
  unfold hex_digit_value, is_ascii_digit, in_range.
  change (byte_of "0") with 48. change (byte_of "9") with 57.
  change (byte_of "a") with 97. change (byte_of "f") with 102.
  change (byte_of "A") with 65. change (byte_of "F") with 70.
  repeat case_match; intros [= <-]; lia.
Qed.

Lemma hex_digit_value_range c d : hex_digit_value c = Some d -> 0 <= d < 16.
Proof. intros H%hex_digit_value_spec. lia. Qed.

Lemma to_digit_range b c d : to_digit b c = Some d -> 0 <= d < b.
Proof.
  unfold to_digit. destruct (hex_digit_value c) as [v|] eqn:E; [|done]. simpl.
  destruct (Z.ltb_spec v b); [|done]. intros [= <-]. apply hex_digit_value_range in E. lia.
Qed.

Lemma digit_char_value d : 0 <= d < 16 -> hex_digit_value (digit_char d) = Some d.
Proof.
  intros H. unfold digit_char, hex_digit_value, is_ascii_digit, in_range.
  change (byte_of "0") with 48. change (byte_of "9") with 57.
  change (byte_of "a") with 97. change (byte_of "f") with 102.
  destruct (Z.ltb_spec d 10); rewrite byte_of_of by lia;
    repeat case_match; first [f_equal; lia | lia].
Qed.

Lemma to_digit_char b d : 0 <= d < b -> b <= 16 -> to_digit b (digit_char d) = Some d.
Proof.
  intros Hd Hb. unfold to_digit. rewrite digit_char_value by lia. simpl.
  by destruct (Z.ltb_spec d b); [|lia].
Qed.

Lemma digit_char_decimal d : 0 <= d < 10 -> is_ascii_digit (digit_char d) = true.
Proof.
  intros H. unfold digit_char, is_ascii_digit, in_range.
  change (byte_of "0") with 48. change (byte_of "9") with 57.
  destruct (Z.ltb_spec d 10); [|lia]. rewrite byte_of_of by lia. lia.
Qed.

(** [show_fuel] prints exactly the digits of [n] in front of [acc]. *)
Lemma digits_value_show_fuel b fuel n acc :
  2 <= b <= 16 -> 0 <= n < 2 ^ Z.of_nat fuel -> (0 < fuel)%nat ->
  exists k, 0 <= k /\ forall a,
    digits_value b (show_fuel b fuel n acc) a = digits_value b acc (a * b ^ k + n).
Proof.
  intros Hb. revert n acc. induction fuel as [|fuel IH]; [lia|].
  intros n acc Hn _. cbn [show_fuel].
  assert (Hd : to_digit b (digit_char (n mod b)) = Some (n mod b)).
  { apply to_digit_char; [apply Z.mod_pos_bound|]; lia. }
  destruct (Z.ltb_spec n b) as [Hlt|Hge].
  - exists 1. split; [lia|]. intros a. cbn [digits_value]. rewrite Hd. simpl.
    rewrite Z.pow_1_r, Z.mod_small by lia. reflexivity.
  - assert (0 < n / b < n) by (split; [apply Z.div_str_pos; lia | apply Z.div_lt; lia]).
    destruct fuel as [|fuel]; [simpl in Hn; lia|].
    assert (n / b < 2 ^ Z.of_nat (S fuel)).
    { rewrite (Nat2Z.inj_succ (S fuel)), Z.pow_succ_r in Hn by lia.
      apply Z.div_lt_upper_bound; nia. }
    destruct (IH (n / b) (String (digit_char (n mod b)) acc)) as (k & Hk & Hval); [lia..|].
    exists (k + 1). split; [lia|]. intros a. rewrite Hval. cbn [digits_value]. rewrite Hd. simpl.
    rewrite Z.pow_add_r by lia. f_equal. pose proof (Z.div_mod n b). lia.
Qed.

Lemma show_radix_fuel n : 0 <= n -> n < 2 ^ Z.of_nat (S (Z.to_nat (Z.log2 n))).
Proof.
  intros Hn. pose proof (Z.log2_nonneg n).
  rewrite Nat2Z.inj_succ, Z2Nat.id by lia.
  destruct (Z.eq_dec n 0) as [->|]; [done|]. by apply Z.log2_spec; lia.
Qed.

Lemma digits_value_show b n :
  2 <= b <= 16 -> 0 <= n -> digits_value b (show_radix b n) 0 = Some n.
Proof.
  intros Hb Hn. unfold show_radix.
  destruct (digits_value_show_fuel b (S (Z.to_nat (Z.log2 n))) n EmptyString) as (k & _ & H);
    [done| |lia|].
  { split; [done|]. by apply show_radix_fuel. }
  by rewrite H, Z.mul_0_l.
Qed.

(** Printing is injective in every base. *)
Lemma show_radix_inj b n m :
  2 <= b <= 16 -> 0 <= n -> 0 <= m -> show_radix b n = show_radix b m -> n = m.
Proof.
  intros Hb Hn Hm H. apply (f_equal (fun s => digits_value b s 0)) in H.
  rewrite !digits_value_show in H by done. congruence.
Qed.

Lemma str_all_show_fuel fuel n acc :
  0 <= n -> str_all is_ascii_digit acc = true ->
  str_all is_ascii_digit (show_fuel 10 fuel n acc) = true.
Proof.
  revert n acc. induction fuel as [|fuel IH]; intros n acc Hn Hacc; [done|].
  assert (str_all is_ascii_digit (String (digit_char (n mod 10)) acc) = true).
  { cbn [str_all]. rewrite digit_char_decimal; [done|]. apply Z.mod_pos_bound. lia. }
  cbn [show_fuel]. destruct (n <? 10); [done|]. apply IH; [|done]. by apply Z.div_pos.
Qed.

Lemma str_all_show n : 0 <= n -> str_all is_ascii_digit (show_radix 10 n) = true.
Proof. intros Hn. by apply str_all_show_fuel. Qed.

Lemma show_fuel_nonempty b fuel n acc :
  acc <> EmptyString \/ (0 < fuel)%nat -> show_fuel b fuel n acc <> EmptyString.
Proof.
  revert n acc. induction fuel as [|fuel IH]; intros n acc H; simpl; [destruct H; [done|lia]|].
  destruct (n <? b); [done|]. apply IH. by left.
Qed.

Lemma show_radix_nonempty b n : show_radix b n <> EmptyString.
Proof. apply show_fuel_nonempty. right. lia. Qed.

Lemma length_show_fuel b fuel n acc k :
  2 <= b -> 0 <= n < b ^ Z.of_nat k -> (0 < k)%nat ->
  (String.length (show_fuel b fuel n acc) <= k + String.length acc)%nat.
Proof.
  intros Hb. revert n acc k. induction fuel as [|fuel IH]; intros n acc k Hn Hk; [simpl; lia|].
  cbn [show_fuel]. destruct (Z.ltb_spec n b) as [|Hge]; [simpl; lia|].
  destruct k as [|[|k]]; [lia|rewrite Z.pow_1_r in Hn; lia|].
  rewrite (Nat2Z.inj_succ (S k)), Z.pow_succ_r in Hn by lia.
  etrans; [apply (IH _ _ (S k))|]; [|lia|simpl; lia].
  split; [apply Z.div_pos; lia|]. apply Z.div_lt_upper_bound; lia.
Qed.

Lemma length_show b n k :
  2 <= b -> 0 <= n < b ^ Z.of_nat k -> (0 < k)%nat ->
  (String.length (show_radix b n) <= k)%nat.
Proof.
  intros Hb Hn Hk. unfold show_radix.
  pose proof (length_show_fuel b (S (Z.to_nat (Z.log2 n))) n EmptyString k Hb Hn Hk) as H.
  simpl in H |- *. lia.
Qed.

Lemma str_length_repeat n c : String.length (str_repeat n c) = n.
Proof. induction n; simpl; auto. Qed.

Lemma str_rev_repeat n c : str_rev (str_repeat n c) = str_repeat n c.
Proof.
  induction n as [|n IH]; [done|]. cbn [str_repeat]. rewrite str_rev_cons, IH.
  clear IH. induction n as [|n IH]; [done|]. cbn [str_repeat]. by rewrite str_app_cons, IH.
Qed.

Lemma str_all_repeat p n c : p c = true -> str_all p (str_repeat n c) = true.
Proof. intros H. induction n as [|n IH]; [done|]. cbn [str_repeat str_all]. by rewrite H. Qed.

Lemma length_pad_left w c s :
  (String.length s <= w)%nat -> String.length (pad_left w c s) = w.
Proof. intros H. unfold pad_left. rewrite str_length_app, str_length_repeat. lia. Qed.

Lemma str_all_pad_left p w c s :
  p c = true -> str_all p s = true -> str_all p (pad_left w c s) = true.
Proof. intros Hc Hs. unfold pad_left. by rewrite str_all_app, str_all_repeat, Hs. Qed.

Lemma digits_value_zeros b n s :
  2 <= b <= 16 -> digits_value b (str_repeat n "0" +:+ s) 0 = digits_value b s 0.
Proof.
  intros Hb. induction n as [|n IH]; [done|]. cbn [str_repeat]. rewrite str_app_cons.
  cbn [digits_value].
  assert (to_digit b "0" = Some 0) as ->.
  { change "0"%char with (digit_char 0). apply to_digit_char; lia. }
  exact IH.
Qed.

Lemma digits_value_pad b w n :
  2 <= b <= 16 -> 0 <= n -> digits_value b (pad_left w "0" (show_radix b n)) 0 = Some n.
Proof. intros Hb Hn. unfold pad_left. rewrite digits_value_zeros by lia. by apply digits_value_show. Qed.

Lemma pad_left_nonempty w c s : s <> EmptyString -> pad_left w c s <> EmptyString.
Proof. unfold pad_left. intros Hs. destruct (str_repeat _ _); [done|]. by rewrite str_app_cons. Qed.

(** A non-empty string of decimal digits is parsed by its value. *)
Lemma parse_radix_digits lo hi s n :
  str_all is_ascii_digit s = true -> s <> EmptyString ->
  digits_value 10 s 0 = Some n -> lo <= n <= hi -> parse_radix 10 lo hi s = Some n.
Proof.
  intros Hall Hne Hv Hr. destruct s as [|c s']; [done|].
  cbn [str_all] in Hall. apply andb_true_iff in Hall as [Hc _].
  assert (48 <= byte_of c <= 57) as Hb.
  { unfold is_ascii_digit, in_range in Hc. change (byte_of "0") with 48 in Hc.
    change (byte_of "9") with 57 in Hc. lia. }
  unfold parse_radix, parse_digits. cbn [is_empty]. rewrite Hv.
  destruct (Ascii.eqb_spec c "+") as [->|_]; [by change (byte_of "+") with 43 in Hb|].
  destruct (Ascii.eqb_spec c "-") as [->|_]; [by change (byte_of "-") with 45 in Hb|].
  simpl. destruct (Z.leb_spec lo n); [|lia]. by destruct (Z.leb_spec n hi); [|lia].
Qed.

Lemma parse_show_pad lo hi w n :
  0 <= n -> lo <= n <= hi -> parse_radix 10 lo hi (show_pad w n) = Some n.
Proof.
  intros Hn Hr. unfold show_pad. destruct (Z.ltb_spec n 0); [lia|].
  apply parse_radix_digits; [|..|done].
  - apply str_all_pad_left; [done|]. by apply str_all_show.
  - apply pad_left_nonempty, show_radix_nonempty.
  - by apply digits_value_pad.
Qed.

Lemma str_all_show_pad w n : 0 <= n -> str_all is_ascii_digit (show_pad w n) = true.
Proof.
  intros Hn. unfold show_pad. destruct (Z.ltb_spec n 0); [lia|].
  apply str_all_pad_left; [done|]. by apply str_all_show.
Qed.

(** [x.to_string().parse::<T>()] gives [x] back. *)
Lemma parse_show_Z lo hi n : lo <= n <= hi -> parse_radix 10 lo hi (show_Z n) = Some n.
Proof.
  intros Hr. unfold show_Z. destruct (Z.ltb_spec n 0) as [Hneg|Hpos].
  - cbn [parse_radix]. destruct (Ascii.eqb_spec "-" "+"); [done|].
    destruct (Ascii.eqb_spec "-" "-"); [|done].
    destruct (Z.ltb_spec lo 0); [|lia]. unfold parse_digits.
    destruct (is_empty (show_radix 10 (- n))) eqn:E.
    { destruct (show_radix 10 (-n)) eqn:E'; [|done]. by apply show_radix_nonempty in E'. }
    rewrite digits_value_show by lia. simpl. rewrite Z.opp_involutive.
    destruct (Z.leb_spec lo n); [|lia]. by destruct (Z.leb_spec n hi); [|lia].
  - apply parse_radix_digits; [by apply str_all_show|by apply show_radix_nonempty| |done].
    by apply digits_value_show.
Qed.

Lemma digits_value_bound b s acc v :
  2 <= b -> digits_value b s acc = Some v ->
  acc * b ^ str_len s <= v < (acc + 1) * b ^ str_len s.
Proof.
  intros Hb. revert acc. unfold str_len. induction s as [|c s IH]; intros acc Hv; cbn in Hv.
  { injection Hv as <-. cbn. lia. }
  destruct (to_digit b c) as [d|] eqn:E; [|done]. cbn in Hv. apply to_digit_range in E.
  apply IH in Hv. cbn [String.length]. rewrite Nat2Z.inj_succ, Z.pow_succ_r by lia.
  pose proof (Z.pow_pos_nonneg b (Z.of_nat (String.length s)) ltac:(lia) ltac:(lia)). nia.
Qed.

(** A number between two consecutive powers of the base has that many digits. *)
Lemma length_show_exact b n k :
  2 <= b <= 16 -> (0 < k)%nat -> b ^ (Z.of_nat k - 1) <= n < b ^ Z.of_nat k ->
  String.length (show_radix b n) = k.
Proof.
  intros Hb Hk Hn.
  pose proof (Z.pow_pos_nonneg b (Z.of_nat k - 1) ltac:(lia) ltac:(lia)) as Hp.
  pose proof (length_show b n k ltac:(lia) ltac:(lia) Hk) as Hle.
  pose proof (digits_value_show b n Hb ltac:(lia)) as Hv.
  apply digits_value_bound in Hv; [|lia]. unfold str_len in Hv.
  destruct (decide (String.length (show_radix b n) = k)) as [|Hne]; [done|].
  assert (b ^ Z.of_nat (String.length (show_radix b n)) <= b ^ (Z.of_nat k - 1))
    by (apply Z.pow_le_mono_r; lia). lia.
Qed.

(** Machine integers of Rust: arithmetic at a width, checked or wrapping as the
    build has it, and [str::parse]. *)

Local Open Scope string_scope.
Local Open Scope Z_scope.

(** ** Fixed-width arithmetic

    A build with overflow checks panics, one without wraps. *)

Class Build := { overflow_checks : bool }.

Definition in_width (lo hi z : Z) : bool := (lo <=? z) && (z <=? hi).
Definition checked_i64 `{Build} {E} (z : Z) : result E Z :=
  if in_i64 z then Ok z else if overflow_checks then Panic "arithmetic overflow" else Ok (wrap_s 64 z).
Definition checked_u64 `{Build} {E} (z : Z) : result E Z :=
  if in_width 0 (2 ^ 64 - 1) z then Ok z
  else if overflow_checks then Panic "arithmetic overflow" else Ok (wrap_u 64 z).

Definition parse_u32 : string -> option Z := parse_radix 10 0 (2 ^ 32 - 1).
Definition parse_u64 : string -> option Z := parse_radix 10 0 (2 ^ 64 - 1).

Lemma checked_u64_range `{Build} {E} (z n : Z) : checked_u64 (E := E) z = Ok n -> 0 <= n < 2 ^ 64.
Proof.
  unfold checked_u64, in_width. destruct ((0 <=? z) && (z <=? 2 ^ 64 - 1)) eqn:Ez.
  - intros [= <-]. lia.
  - destruct overflow_checks; [done|]. intros [= <-]. unfold wrap_u. apply Z.mod_pos_bound. lia.
Qed.

(** [parse] never leaves the type's range. *)
Lemma parse_radix_bounds b lo hi s n : parse_radix b lo hi s = Some n -> lo <= n <= hi.
Proof.
  assert (forall z, (if (lo <=? z) && (z <=? hi) then Some z else None) = Some n -> lo <= n <= hi) as Hr.
  { intros z. destruct ((lo <=? z) && (z <=? hi)) eqn:E; [|done]. intros [= <-]. lia. }
  unfold parse_radix. destruct s as [|c r]; [done|].
  destruct (Ascii.eqb c "+"); [|destruct (Ascii.eqb c "-"); [destruct (lo <? 0); [|done]|]];
    destruct (parse_digits _ _) as [z|]; simpl; try done; apply Hr.
Qed.
