(* ===== verification/RustText.v ===== *)
(** Rust's [str] seen as characters, words and slices, and the facts on cutting, joining
    and searching strings that the services share. *)

From S2P Require Import Prelude RustStr RustNum.
Local Open Scope string_scope.
Local Open Scope Z_scope.

(** Characters, words and slices of a Rust [str]: the functions of the standard
    library that see more than single bytes ([String::from_utf8_lossy], [char]
    predicates, [split_whitespace], [join], slicing by byte offsets, case mapping),
    and the lemmas on words that the expression languages use. *)

(** ** Text from bytes *)

(** The well-formed characters of a byte string and its maximal ill-formed pieces,
    as [Utf8Chunks] cuts them. *)
Fixpoint utf8_pieces (s : string) : list (bool * string) :=
  match s with
  | EmptyString => []
  | String a r1 =>
      let bad1 := (false, char_str a) in
      if in_bytes 0 127 a then (true, char_str a) :: utf8_pieces r1
      else if in_bytes 194 244 a then
        let lo := if byte_of a =? 224 then 160 else if byte_of a =? 240 then 144 else 128 in
        let hi := if byte_of a =? 237 then 159 else if byte_of a =? 244 then 143 else 191 in
        match r1 with
        | String b r2 =>
            if in_bytes lo hi b then
              let two := String a (char_str b) in
              if in_bytes 194 223 a then (true, two) :: utf8_pieces r2
              else
                match r2 with
                | String c r3 =>
                    if in_bytes 128 191 c then
                      let three := String a (String b (char_str c)) in
                      if in_bytes 224 239 a then (true, three) :: utf8_pieces r3
                      else
                        match r3 with
                        | String d r4 =>
                            if in_bytes 128 191 d
                            then (true, String a (String b (String c (char_str d)))) :: utf8_pieces r4
                            else (false, three) :: utf8_pieces r3
                        | EmptyString => (false, three) :: utf8_pieces r3
                        end
                    else (false, two) :: utf8_pieces r2
                | EmptyString => (false, two) :: utf8_pieces r2
                end
            else bad1 :: utf8_pieces r1
        | EmptyString => bad1 :: utf8_pieces r1
        end
      else bad1 :: utf8_pieces r1
  end.

Definition str_concat (l : list string) : string := foldr String.append EmptyString l.

(** [String::from_utf8_lossy(bytes).into_owned()] *)
Definition from_utf8_lossy (s : string) : string :=
  str_concat (map (fun p : bool * string => if p.1 then p.2 else bytes_str [239; 191; 189]) (utf8_pieces s)).

(** [s.chars()] as encoded characters. *)
Definition char_strs (s : string) : list string := map snd (utf8_pieces s).

(** [char::is_control]: general category Cc. *)
Definition is_control (c : string) : bool :=
  match c with
  | String a EmptyString => in_bytes 0 31 a || (byte_of a =? 127)
  | String a (String b EmptyString) => (byte_of a =? 194) && in_bytes 128 159 b
  | _ => false
  end.

(** A word and what follows it, up to white space. *)
Fixpoint take_word (s : string) : string * string :=
  match strip_one_of white_space s, s with
  | Some _, _ | None, EmptyString => (EmptyString, s)
  | None, String c r => let '(w, r) := take_word r in (String c w, r)
  end.
Fixpoint split_words (fuel : nat) (s : string) : list string :=
  match fuel with
  | O => []
  | S fuel' =>
      let s := trim_start s in
      if is_empty s then [] else let '(w, r) := take_word s in w :: split_words fuel' r
  end.
(** [s.split_whitespace()]: each word has a byte. *)
Definition split_whitespace (s : string) : list string := split_words (String.length s) s.

(** [s.find(p)] for an ASCII predicate: what is before and what starts there. *)
Fixpoint find_by (p : ascii -> bool) (s : string) : option (string * string) :=
  match s with
  | EmptyString => None
  | String c r =>
      if p c then Some (EmptyString, s) else '(a, b) ← find_by p r; Some (String c a, b)
  end.


(** [v.join(sep)] *)
Fixpoint str_join (sep : string) (l : list string) : string :=
  match l with
  | [] => EmptyString
  | s :: r => match r with [] => s | _ => s +:+ sep +:+ str_join sep r end
  end.

(** [s.find(pat)]: the byte offset of the first occurrence. *)
Definition find (pat s : string) : option Z := (fun p => str_len p.1) <$> split_once pat s.

(** [s.is_char_boundary(i)]: 0, the length, or the start of a character. *)
Definition is_char_boundary (s : string) (i : Z) : bool :=
  if (i =? 0) || (i =? str_len s) then true
  else match String.get (Z.to_nat i) s with
       | Some c => (0 <? i) && negb (in_bytes 128 191 c)
       | None => false
       end.
(** [&s[lo..hi]], a panic where the offsets are out of order, out of bounds or
    inside a character. *)
Definition str_slice (lo hi : Z) (s : string) : outcome string :=
  if (lo <=? hi) && is_char_boundary s lo && is_char_boundary s hi
  then Ok (str_take (hi - lo) (str_drop lo s))
  else Panic "byte index is not a char boundary".

(** [s.to_uppercase()]: ASCII letters by their byte, the other characters by
    Unicode's table, which is a parameter. *)
Class UnicodeCase := { upper_char : string -> string }.
Definition to_uppercase `{UnicodeCase} (s : string) : string :=
  str_concat (map (fun c => match c with
                            | String a EmptyString => char_str (to_upper_byte a)
                            | _ => upper_char c
                            end) (char_strs s)).

(** ** Words *)

Section Words.

(** No white space starts anywhere in [s]. *)
Fixpoint no_space (s : string) : bool :=
  match s with
  | EmptyString => true
  | String _ r => match strip_one_of white_space s with Some _ => false | None => no_space r end
  end.
Definition is_word (s : string) : Prop := s <> EmptyString /\ no_space s = true.

Lemma strip_one_of_Some ps s r :
  strip_one_of ps s = Some r -> exists p, p ∈ ps /\ s = p +:+ r.
Proof.
  induction ps as [|p ps IH]; [done|]. cbn [strip_one_of].
  destruct (strip_prefix p s) as [r'|] eqn:Hp.
  - intros [= <-]. exists p. split; [apply list_elem_of_here|]. by apply strip_prefix_Some.
  - intros (q & Hq & Hs)%IH. exists q. split; [by apply list_elem_of_further|done].
Qed.
Lemma strip_one_of_None ps s p r : strip_one_of ps s = None -> p ∈ ps -> s <> p +:+ r.
Proof.
  induction ps as [|q ps IH]; [by intros _ ?%elem_of_nil|]. cbn [strip_one_of].
  destruct (strip_prefix q s) as [r'|] eqn:Hq; [done|].
  intros Hps [->|Hp]%elem_of_cons; [|by apply IH].
  intros ->. by rewrite strip_prefix_app in Hq.
Qed.

(** A white-space character is a space or has no space in it. *)
Lemma white_space_no_space p a b : p ∈ white_space -> p = a +:+ String " " b -> a = EmptyString.
Proof.
  assert (forallb (fun p => match p with
                    | String _ r => str_all (negb ∘ Ascii.eqb " ") r | EmptyString => false end)
            white_space = true) as Hall by by vm_compute.
  intros Hp ->. rewrite forallb_forall in Hall.
  specialize (Hall _ (proj1 (list_elem_of_In _ _) Hp)).
  destruct a as [|c a]; [done|]. rewrite str_app_cons in Hall. rewrite str_all_app in Hall.
  apply andb_true_iff in Hall as [_ Hall]. by cbn in Hall.
Qed.
Lemma str_app_split a b c d :
  a +:+ b = c +:+ d -> (exists e, c = a +:+ e /\ b = e +:+ d) \/ (exists e, a = c +:+ e /\ d = e +:+ b).
Proof.
  revert c. induction a as [|x a IH]; intros c.
  - rewrite str_app_nil_l. intros ->. left. exists c. by rewrite str_app_nil_l.
  - destruct c as [|y c].
    + rewrite str_app_nil_l. intros <-. right. exists (String x a). by rewrite str_app_nil_l.
    + rewrite !str_app_cons. intros [= -> [(e & -> & ->)|(e & -> & ->)]%IH]; [left|right];
        exists e; by rewrite str_app_cons.
Qed.

Lemma no_space_head c s : no_space (String c s) = true -> strip_one_of white_space (String c s) = None.
Proof. cbn [no_space]. by destruct (strip_one_of _ _). Qed.
Lemma no_space_tail c s : no_space (String c s) = true -> no_space s = true.
Proof. cbn [no_space]. by destruct (strip_one_of _ _). Qed.

(** A space after a word does not combine with it. *)
Lemma strip_word_space c s t :
  strip_one_of white_space (String c s) = None ->
  strip_one_of white_space (String c s +:+ String " " t) = None.
Proof.
  intros Hs. destruct (strip_one_of _ (_ +:+ _)) as [r|] eqn:Hr; [|done].
  apply strip_one_of_Some in Hr as (p & Hp & Heq).
  apply str_app_split in Heq as [(e & -> & He)|(e & He & _)].
  - destruct e as [|x e].
    + rewrite str_app_nil_r in Hp.
      by destruct (strip_one_of_None _ _ _ EmptyString Hs Hp); rewrite str_app_nil_r.
    + rewrite str_app_cons in He. injection He as <- _.
      by apply (white_space_no_space _ (String c s) e) in Hp.
  - by destruct (strip_one_of_None _ _ _ e Hs Hp).
Qed.
Lemma strip_space t : strip_one_of white_space (String " " t) = Some t.
Proof. reflexivity. Qed.

Lemma take_word_space w t : no_space w = true -> take_word (w +:+ String " " t) = (w, String " " t).
Proof.
  induction w as [|c w IH]; intros Hw; [by rewrite str_app_nil_l|].
  rewrite str_app_cons. cbn [take_word]. rewrite <- str_app_cons.
  rewrite strip_word_space by by apply no_space_head.
  by rewrite (IH (no_space_tail _ _ Hw)).
Qed.
Lemma take_word_end w : no_space w = true -> take_word w = (w, EmptyString).
Proof.
  induction w as [|c w IH]; intros Hw; [done|]. cbn [take_word].
  rewrite (no_space_head _ _ Hw), (IH (no_space_tail _ _ Hw)). done.
Qed.

Lemma trim_start_word c s : strip_one_of white_space (String c s) = None -> trim_start (String c s) = String c s.
Proof. intros Hs. unfold trim_start. cbn [String.length trim_start_of]. by rewrite Hs. Qed.
Lemma trim_start_of_space fuel t : trim_start_of (S fuel) white_space (String " " t) = trim_start_of fuel white_space t.
Proof. reflexivity. Qed.

Lemma str_join_cons c w ws : exists s, str_join " " (String c w :: ws) = String c s /\
  (is_word (String c w) -> strip_one_of white_space (String c s) = None).
Proof.
  destruct ws as [|v ws].
  - exists w. split; [done|]. intros [_ Hw]. by apply no_space_head.
  - exists (w +:+ String " " (str_join " " (v :: ws))). split; [done|]. intros [_ Hw].
    rewrite <- str_app_cons. by apply strip_word_space, no_space_head.
Qed.
Lemma trim_start_join ws : Forall is_word ws -> trim_start (str_join " " ws) = str_join " " ws.
Proof.
  destruct 1 as [|[|c w] ws Hw _]; [done|by destruct Hw|].
  destruct (str_join_cons c w ws) as (s & -> & Hs). by apply trim_start_word, Hs.
Qed.

(** One step of fuel is enough per word. *)
Lemma split_words_join fuel ws :
  Forall is_word ws -> (length ws <= fuel)%nat -> split_words fuel (str_join " " ws) = ws.
Proof.
  revert fuel. induction ws as [|w ws IH]; intros fuel Hws Hlen.
  { destruct fuel; [done|]. by vm_compute. }
  apply Forall_cons in Hws as [[Hne Hw] Hws]. destruct fuel as [|fuel]; [simpl in Hlen; lia|].
  cbn [length] in Hlen. destruct w as [|c w]; [done|]. destruct ws as [|w' ws].
  - cbn [str_join split_words]. rewrite trim_start_word by by apply no_space_head. cbn [is_empty].
    rewrite take_word_end by done. destruct fuel; [done|]. by cbn.
  - change (str_join " " (String c w :: w' :: ws)) with (String c w +:+ String " " (str_join " " (w' :: ws))).
    set (t := str_join " " (w' :: ws)) in *. cbn [split_words].
    assert (strip_one_of white_space (String c w +:+ String " " t) = None) as Hnone
      by by apply strip_word_space, no_space_head.
    rewrite str_app_cons in Hnone |- *. rewrite (trim_start_word _ _ Hnone). cbn [is_empty].
    rewrite <- str_app_cons, (take_word_space _ _ Hw). f_equal.
    destruct fuel as [|fuel]; [simpl in Hlen; lia|]. rewrite <- (IH (S fuel)); [|done|lia].
    fold t. cbn [split_words].
    assert (trim_start (String " " t) = t) as ->.
    { unfold trim_start. cbn [String.length]. rewrite trim_start_of_space. by apply trim_start_join. }
    assert (trim_start t = t) as -> by by apply trim_start_join. done.
Qed.

Lemma str_join_length ws : Forall is_word ws -> (length ws <= String.length (str_join " " ws))%nat.
Proof.
  induction 1 as [|w ws [Hne _] Hws IH]; [simpl; lia|]. destruct w as [|c w]; [done|].
  destruct ws as [|v ws]; [simpl; lia|].
  change (str_join " " (String c w :: v :: ws)) with (String c w +:+ String " " (str_join " " (v :: ws))).
  rewrite str_length_app. cbn [String.length length] in *. lia.
Qed.
(** Words are read back from their join. *)
Lemma split_whitespace_join ws : Forall is_word ws -> split_whitespace (str_join " " ws) = ws.
Proof. intros Hws. apply split_words_join; [done|]. by apply str_join_length. Qed.

Lemma white_space_nonempty p : p ∈ white_space -> p <> EmptyString.
Proof.
  assert (forallb (negb ∘ is_empty) white_space = true) as Hall by by vm_compute.
  intros Hp ->. rewrite forallb_forall in Hall. by specialize (Hall _ (proj1 (list_elem_of_In _ _) Hp)).
Qed.
Lemma no_space_app_inv e p : p ∈ white_space -> no_space (e +:+ p) = true -> False.
Proof.
  intros Hp. induction e as [|c e IH]; rewrite ?str_app_nil_l, ?str_app_cons; intros Hs.
  - destruct p as [|c p]; [by apply white_space_nonempty in Hp|].
    destruct (strip_one_of_None _ _ _ EmptyString (no_space_head _ _ Hs) Hp). by rewrite str_app_nil_r.
  - by apply no_space_tail in Hs.
Qed.
Lemma white_space_space w : String " " w ∈ white_space -> w = EmptyString.
Proof.
  assert (forallb (fun p => match p with
                    | String c r => negb (Ascii.eqb " " c) || is_empty r | EmptyString => false end)
            white_space = true) as Hall by by vm_compute.
  intros Hw. rewrite forallb_forall in Hall.
  specialize (Hall _ (proj1 (list_elem_of_In _ _) Hw)). by apply is_empty_true.
Qed.
Lemma trim_end_word a w :
  is_word w -> (a = EmptyString \/ exists a', a = a' +:+ " ") -> trim_end (a +:+ w) = a +:+ w.
Proof.
  intros [Hne Hw] Ha. unfold trim_end.
  destruct (strip_one_of (map str_rev white_space) (str_rev (a +:+ w))) as [r|] eqn:Hr.
  - exfalso. apply strip_one_of_Some in Hr as (q & (p & -> & Hp)%list_elem_of_fmap & Heq).
    apply (f_equal str_rev) in Heq. rewrite str_rev_involutive, str_rev_append, str_rev_involutive in Heq.
    apply str_app_split in Heq as [(e & _ & ->)|(e & Ha' & ->)]; [by apply no_space_app_inv in Hw|].
    destruct e as [|x e]; [by apply (no_space_app_inv EmptyString _ Hp) in Hw|].
    destruct Ha as [->|(a' & ->)]; [by destruct (str_rev r)|].
    apply str_app_split in Ha' as [(d & _ & He)|(d & -> & He)].
    + destruct d as [|y d]; [|by destruct d]. rewrite str_app_nil_l in He. rewrite <- He in Hp.
      by apply white_space_space in Hp.
    + rewrite He, str_app_assoc in Hp. rewrite (white_space_no_space _ d w Hp) in Hp by done.
      by apply white_space_space in Hp.
  - destruct (String.length (a +:+ w)) eqn:Hl; cbn [trim_start_of]; [|rewrite Hr]; apply str_rev_involutive.
Qed.
Lemma str_join_snoc ws w : exists a, str_join " " (ws ++ [w]) = a +:+ w
  /\ (a = EmptyString \/ exists a', a = a' +:+ " ").
Proof.
  induction ws as [|v ws (a & Ha & Hs)]; [exists EmptyString; by rewrite str_app_nil_l; auto|].
  exists (v +:+ " " +:+ a). split.
  - cbn [app str_join]. destruct (ws ++ [w])%list eqn:He; [by destruct ws|].
    by rewrite Ha, !str_app_assoc.
  - right. destruct Hs as [-> | (a' & ->)].
    + exists v. by rewrite str_app_nil_r.
    + exists (v +:+ " " +:+ a'). by rewrite !str_app_assoc.
Qed.
Lemma trim_join ws : Forall is_word ws -> trim (str_join " " ws) = str_join " " ws.
Proof.
  intros Hws. unfold trim. rewrite trim_start_join by done.
  destruct ws as [|w ws _] using rev_ind; [done|].
  destruct (str_join_snoc ws w) as (a & -> & Ha). apply Forall_app in Hws as [_ Hw].
  apply trim_end_word; [by inversion Hw|done].
Qed.
Lemma trim_word w : is_word w -> trim w = w.
Proof. intros Hw. apply (trim_join [w]). by constructor. Qed.
Lemma split_whitespace_word w : is_word w -> split_whitespace w = [w].
Proof. intros Hw. apply (split_whitespace_join [w]). by constructor. Qed.
Lemma str_join_app sep a b : a <> [] -> b <> [] ->
  str_join sep (a ++ b) = str_join sep a +:+ sep +:+ str_join sep b.
Proof.
  intros Ha Hb. induction a as [|w a IH]; [done|]. destruct a as [|v a].
  - cbn [app str_join]. by destruct b.
  - change (str_join sep ((w :: v :: a) ++ b)) with (w +:+ sep +:+ str_join sep ((v :: a) ++ b)).
    rewrite IH by done. cbn [str_join]. by rewrite !str_app_assoc.
Qed.
End Words.

(** ** Case mapping *)

Section CaseLemmas.

Lemma utf8_pieces_ascii c s :
  is_ascii c = true -> utf8_pieces (String c s) = (true, char_str c) :: utf8_pieces s.
Proof.
  intros Hc. cbn [utf8_pieces].
  assert (in_bytes 0 127 c = true) as ->; [|done].
  unfold in_bytes, is_ascii in *. pose proof (byte_of_range c). lia.
Qed.
Lemma to_uppercase_ascii `{UnicodeCase} s : str_all is_ascii s = true -> to_uppercase s = to_ascii_uppercase s.
Proof.
  induction s as [|c s IH]; [done|]. cbn [str_all]. intros [Hc Hs]%andb_true_iff.
  unfold to_uppercase, char_strs in *. rewrite utf8_pieces_ascii by done.
  cbn [map snd char_str str_concat foldr]. unfold to_ascii_uppercase. cbn [str_map].
  change (foldr String.append "") with str_concat. rewrite IH by done. reflexivity.
Qed.
Lemma str_map_length f s : String.length (str_map f s) = String.length s.
Proof. induction s as [|c s IH]; [done|]. cbn. by rewrite IH. Qed.
Lemma str_map_map f g s : str_map f (str_map g s) = str_map (f ∘ g) s.
Proof. induction s as [|c s IH]; [done|]. cbn [str_map]. by rewrite IH. Qed.
Lemma upper_lower s : to_ascii_uppercase (to_ascii_lowercase s) = to_ascii_uppercase s.
Proof.
  unfold to_ascii_uppercase, to_ascii_lowercase. rewrite str_map_map.
  induction s as [|c s IH]; [done|]. cbn [str_map]. f_equal; [|exact IH].
  by destruct c as [[] [] [] [] [] [] [] []].
Qed.
Lemma eq_ignore_case_upper s t :
  eq_ignore_ascii_case s t = true -> to_ascii_uppercase s = to_ascii_uppercase t.
Proof. intros He%str_eqb_true. by rewrite <- (upper_lower s), He, upper_lower. Qed.

Lemma str_get_app a c t : String.get (String.length a) (a +:+ String c t) = Some c.
Proof. induction a as [|d a IH]; [done|]. by rewrite str_app_cons. Qed.
Lemma is_char_boundary_ascii s i : str_all is_ascii s = true -> 0 <= i <= str_len s -> is_char_boundary s i = true.
Proof.
  intros Hs Hi. unfold is_char_boundary. destruct (_ || _) eqn:E; [done|].
  apply orb_false_iff in E as [E1%Z.eqb_neq E2%Z.eqb_neq].
  destruct (str_split i s Hi) as (Hsp & Ht & Hd). destruct (str_drop i s) as [|c r] eqn:Er.
  { change (str_len "") with 0 in Hd. lia. }
  replace (String.get (Z.to_nat i) s) with (Some c).
  - rewrite Hsp, str_all_app in Hs. cbn [str_all] in Hs.
    apply andb_true_iff in Hs as [_ [Hc _]%andb_true_iff]. unfold in_bytes, is_ascii in *. lia.
  - rewrite Hsp at 1. unfold str_len in Ht. replace (Z.to_nat i) with (String.length (str_take i s)) by lia.
    by rewrite str_get_app.
Qed.

Lemma str_take_drop_app a b : str_take (str_len a) (a +:+ b) = a /\ str_drop (str_len a) (a +:+ b) = b.
Proof.
  destruct (str_split (str_len a) (a +:+ b)) as (Hs & Hl & _).
  { rewrite str_len_app. pose proof (str_len_nonneg a). pose proof (str_len_nonneg b). lia. }
  apply str_app_inj_length in Hs as [H1 H2]; [by split|]. unfold str_len in *. lia.
Qed.

End CaseLemmas.

(** Facts on strings the parsers and printers of several services share: cutting at a
    separator, joining and splitting, and finding a pattern in a buffer that grows. *)

(** ** Separators *)

Section Separators.
Implicit Types s t : string.

Definition free_of (c : ascii) (s : string) : Prop := str_all (negb ∘ Ascii.eqb c) s = true.

Lemma cut_first c s s' t t' :
  free_of c s -> free_of c s' -> s +:+ char_str c +:+ t = s' +:+ char_str c +:+ t' -> s = s' /\ t = t'.
Proof.
  intros Hs Hs' E. apply (f_equal (split_once (char_str c))) in E.
  rewrite !split_once_char in E by done. by injection E.
Qed.
Lemma cut_last c s s' t t' :
  free_of c t -> free_of c t' -> s +:+ char_str c +:+ t = s' +:+ char_str c +:+ t' -> s = s' /\ t = t'.
Proof.
  intros Ht Ht' E. apply (f_equal str_rev) in E. rewrite !str_rev_append, !str_app_assoc in E.
  change (str_rev (char_str c)) with (char_str c) in E.
  apply cut_first in E as [E1 E2]; [|by unfold free_of; rewrite str_all_rev..].
  split; rewrite <- str_rev_involutive; symmetry; rewrite <- str_rev_involutive; congruence.
Qed.
Lemma split_join c l :
  l <> [] -> Forall (free_of c) l -> split_char c (str_join (char_str c) l) = l.
Proof.
  intros Hl Hf. induction Hf as [|s l Hs Hf IH]; [done|]. destruct l as [|s' l].
  - by apply split_by_none.
  - change (split_char c (s +:+ String c (str_join (char_str c) (s' :: l))) = s :: s' :: l).
    unfold split_char. rewrite split_by_app by (done || by apply Ascii.eqb_refl). f_equal. by apply IH.
Qed.

Lemma cut_last_line c l l' x y :
  l <> [] -> l' <> [] -> free_of c x -> free_of c y ->
  str_join (char_str c) (l ++ [x]) = str_join (char_str c) (l' ++ [y]) ->
  str_join (char_str c) l = str_join (char_str c) l' /\ x = y.
Proof.
  intros Hl Hl' Hx Hy. rewrite !str_join_app by done. by apply cut_last.
Qed.

Lemma graphic_free c s : graphic c = false -> str_all graphic s = true -> free_of c s.
Proof.
  intros Hc. apply str_all_impl. intros d Hd. apply negb_true_iff.
  destruct (Ascii.eqb_spec c d) as [->|]; congruence.
Qed.
Lemma str_all_join p sep l :
  str_all p sep = true -> Forall (fun s => str_all p s = true) l -> str_all p (str_join sep l) = true.
Proof.
  intros Hsep. induction 1 as [|s l Hs Hl IH]; [done|]. destruct l as [|s' l]; [done|].
  change (str_all p (s +:+ sep +:+ str_join sep (s' :: l)) = true).
  by rewrite !str_all_app, Hs, Hsep, IH.
Qed.
Lemma trim_space_graphic s : str_all graphic s = true -> trim (String " " s) = s.
Proof.
  intros Hs. rewrite <- (trim_graphic s Hs) at 2. reflexivity.
Qed.
End Separators.

(** ** Finding a pattern in a growing buffer *)

Section Find.
Implicit Types pat s t : string.

Lemma strip_prefix_extend pat s t r : strip_prefix pat s = Some r -> strip_prefix pat (s +:+ t) = Some (r +:+ t).
Proof. rewrite !strip_prefix_Some. intros ->. by rewrite str_app_assoc. Qed.
Lemma strip_prefix_short pat s t :
  (String.length pat <= String.length s)%nat -> strip_prefix pat s = None -> strip_prefix pat (s +:+ t) = None.
Proof.
  revert s. induction pat as [|a pat IH]; intros s Hl; [done|]. destruct s as [|b s]; [simpl in Hl; lia|].
  rewrite str_app_cons. cbn [strip_prefix]. destruct (Ascii.eqb a b); [|done]. apply IH. simpl in Hl. lia.
Qed.
Lemma split_once_extend pat s t a b : split_once pat s = Some (a, b) -> split_once pat (s +:+ t) = Some (a, b +:+ t).
Proof.
  revert a b. induction s as [|c s IH]; intros a b Hs.
  - simpl in Hs. destruct (strip_prefix pat "") as [r|] eqn:E; [|done]. injection Hs as <- <-.
    rewrite str_app_nil_l. apply strip_prefix_Some in E. destruct pat; [|done]. rewrite str_app_nil_l in E. subst r.
    rewrite str_app_nil_l. by destruct t.
  - pose proof (split_once_Some _ _ _ _ Hs) as Hlen. apply (f_equal String.length) in Hlen. rewrite !str_length_app in Hlen.
    rewrite str_app_cons. cbn [split_once] in Hs |- *. destruct (strip_prefix pat (String c s)) as [r|] eqn:E.
    + injection Hs as <- <-. apply (strip_prefix_extend _ _ t) in E. rewrite str_app_cons in E. by rewrite E.
    + apply (strip_prefix_short _ _ t) in E; [|lia]. rewrite str_app_cons in E. rewrite E.
      destruct (split_once pat s) as [[a' b']|] eqn:E'; [|done]. cbn in Hs. injection Hs as <- <-.
      by rewrite (IH _ _ eq_refl).
Qed.
Lemma split_once_found pat a b : is_Some (split_once pat (a +:+ pat +:+ b)).
Proof.
  induction a as [|c a [[x y] IH]].
  - rewrite str_app_nil_l. destruct (pat +:+ b) eqn:E; cbn [split_once]; rewrite <- E, strip_prefix_app; by eexists.
  - rewrite str_app_cons. cbn [split_once]. destruct (strip_prefix _ _); [by eexists|]. rewrite IH. by eexists.
Qed.
Lemma split_once_beyond pat s t a b :
  split_once pat s = None -> split_once pat (s +:+ t) = Some (a, b) ->
  (String.length s < String.length a + String.length pat)%nat.
Proof.
  intros Hn Hs. apply split_once_Some in Hs. rewrite <- str_app_assoc in Hs. apply Nat.lt_nge. intros Hle.
  rewrite <- str_length_app in Hle.
  destruct (str_app_split _ _ _ _ Hs) as [(e & He & _)|(e & He & _)].
  - assert (e = "") as ->.
    { rewrite He, str_length_app in Hle. destruct e; [done|]. simpl in Hle. lia. }
    rewrite str_app_nil_r in He. destruct (split_once_found pat a "") as [x Hx].
    rewrite str_app_nil_r, He, Hn in Hx. done.
  - rewrite str_app_assoc in He. destruct (split_once_found pat a e) as [x Hx]. rewrite <- He, Hn in Hx. done.
Qed.

Lemma find_extend pat s t p : find pat s = Some p -> find pat (s +:+ t) = Some p.
Proof.
  unfold find. destruct (split_once pat s) as [[a b]|] eqn:E; [|done]. by rewrite (split_once_extend _ _ _ _ _ E).
Qed.
Lemma find_beyond pat s t p : find pat s = None -> find pat (s +:+ t) = Some p -> str_len s < p + str_len pat.
Proof.
  unfold find. destruct (split_once pat s) eqn:E; [done|]. intros _.
  destruct (split_once pat (s +:+ t)) as [[a b]|] eqn:E'; [|done]. intros [= <-].
  pose proof (split_once_beyond _ _ _ _ _ E E'). unfold str_len. simpl. lia.
Qed.
Lemma find_bound pat s p : find pat s = Some p -> 0 <= p /\ p + str_len pat <= str_len s.
Proof.
  unfold find. destruct (split_once pat s) as [[a b]|] eqn:E; [|done]. intros [= <-].
  apply split_once_Some in E as ->. rewrite !str_len_app. simpl. pose proof (str_len_nonneg a). pose proof (str_len_nonneg b). lia.
Qed.
Lemma str_take_app n s t : 0 <= n <= str_len s -> str_take n (s +:+ t) = str_take n s.
Proof.
  intros Hn. destruct (str_split n s Hn) as (Hs & Hl & _).
  rewrite Hs at 1. rewrite str_app_assoc. rewrite <- Hl at 1. by destruct (str_take_drop_app (str_take n s) (str_drop n s +:+ t)).
Qed.
Lemma str_drop_app n s t : 0 <= n <= str_len s -> str_drop n (s +:+ t) = str_drop n s +:+ t.
Proof.
  intros Hn. destruct (str_split n s Hn) as (Hs & Hl & _).
  rewrite Hs at 1. rewrite str_app_assoc. rewrite <- Hl at 1. by destruct (str_take_drop_app (str_take n s) (str_drop n s +:+ t)).
Qed.
End Find.

Lemma split_once_skip x pat l r : free_of x l ->
  split_once (String x pat) (l +:+ r) = match split_once (String x pat) r with
                                        | Some (a, b) => Some (l +:+ a, b)
                                        | None => None
                                        end.
Proof.
  induction l as [|c l IH].
  { intros _. rewrite str_app_nil_l. by destruct (split_once (String x pat) r) as [[]|]. }
  intros [Hc Hl]%andb_true_iff.
  rewrite str_app_cons. cbn [split_once strip_prefix]. apply negb_true_iff in Hc. rewrite Hc.
  rewrite (IH Hl). by destruct (split_once (String x pat) r) as [[]|].
Qed.

Lemma from_utf8_lossy_ascii s : str_all is_ascii s = true -> from_utf8_lossy s = s.
Proof.
  induction s as [|c s IH]; [done|]. intros [Hc Hs]%andb_true_iff. unfold from_utf8_lossy.
  rewrite utf8_pieces_ascii by done. cbn [map str_concat foldr fst snd].
  change (foldr String.append "" ?l) with (str_concat l). rewrite (IH Hs : str_concat _ = s). reflexivity.
Qed.

(** ** The words of a text *)

Lemma strip_one_of_longer ps s t : strip_one_of ps (s +:+ t) = None -> strip_one_of ps s = None.
Proof.
  intros Hn. destruct (strip_one_of ps s) as [r|] eqn:E; [|done].
  apply strip_one_of_Some in E as (p & Hp & ->). rewrite str_app_assoc in Hn.
  exfalso. by apply (strip_one_of_None _ _ _ (r +:+ t) Hn Hp).
Qed.
(** The first word: nothing in it starts white space. *)
Lemma take_word_spec s : exists w r, take_word s = (w, r) /\ s = w +:+ r /\ no_space w = true.
Proof.
  induction s as [|c s (w & r & E & Hs & Hw)].
  - exists "", "". done.
  - cbn [take_word]. destruct (strip_one_of white_space (String c s)) as [x|] eqn:Ex.
    + exists "", (String c s). by rewrite str_app_nil_l.
    + rewrite E. exists (String c w), r. rewrite str_app_cons, <- Hs. split_and!; [done..|].
      cbn [no_space]. rewrite (strip_one_of_longer _ _ r); [done|]. by rewrite str_app_cons, <- Hs.
Qed.
Lemma trim_start_of_None fuel s : (String.length s <= fuel)%nat -> strip_one_of white_space (trim_start_of fuel white_space s) = None.
Proof.
  revert s. induction fuel as [|fuel IH]; intros s Hf.
  - destruct s; [by vm_compute|simpl in Hf; lia].
  - cbn [trim_start_of]. destruct (strip_one_of white_space s) as [r|] eqn:E; [|done].
    apply IH. apply strip_one_of_Some in E as (p & Hp & ->). apply white_space_nonempty in Hp.
    destruct p as [|c p]; [done|]. rewrite str_length_app in Hf. simpl in Hf. lia.
Qed.
Lemma split_words_words fuel s : Forall is_word (split_words fuel s).
Proof.
  revert s. induction fuel as [|fuel IH]; intros s; [constructor|]. cbn [split_words].
  pose proof (trim_start_of_None (String.length s) s (le_n _)) as Ht. fold (trim_start s) in Ht.
  destruct (trim_start s) as [|c t]; [constructor|]. cbn [is_empty].
  destruct (take_word_spec (String c t)) as (w & r & E & Hs & Hw). rewrite E. constructor; [|apply IH].
  split; [|done]. intros ->. cbn [take_word] in E. rewrite Ht in E. destruct (take_word t); discriminate E.
Qed.
(** [split_whitespace] yields words. *)
Lemma split_whitespace_words s : Forall is_word (split_whitespace s).
Proof. apply split_words_words. Qed.
Lemma no_space_free c s : char_str c ∈ white_space -> no_space s = true -> free_of c s.
Proof.
  intros Hc. unfold free_of. induction s as [|d s IH]; [done|]. intros Hs. cbn [str_all].
  rewrite IH by by apply no_space_tail in Hs. rewrite andb_true_r. unfold compose. apply negb_true_iff.
  destruct (Ascii.eqb_spec c d) as [<-|]; [|done].
  exfalso. by apply (strip_one_of_None _ _ _ s (no_space_head _ _ Hs) Hc).
Qed.
