(* ===== verification/SqsTime.v ===== *)
(** The SQS service's timestamps ([services/sqs/src/time_fmt.rs]): RFC 3339
    printing and parsing and the proleptic Gregorian calendar behind them. *)

From S2P Require Import Prelude RustStr RustNum.
Local Open Scope Z_scope.

(** [model.rs]: the legacy zero [time.Time]. *)
Definition ZERO_TIME : string := "0001-01-01T00:00:00Z".

Module TimeFmt.

(** [i64] arithmetic below is exact: [civil_no_overflow] shows that no
    intermediate value leaves the type on the dates the service handles. *)
Definition days_from_civil (y m d : Z) : Z :=
  let y := if m <=? 2 then y - 1 else y in
  let era := (if 0 <=? y then y else y - 399) /t 400 in
  let yoe := y - era * 400 in
  let doy := (153 * (if 2 <? m then m - 3 else m + 9) + 2) /t 5 + d - 1 in
  let doe := yoe * 365 + yoe /t 4 - yoe /t 100 + doy in
  era * 146097 + doe - 719468.

(** The same computation with every [i64] operation checked, as a build with
    overflow checks runs it; [None] is the overflow panic. *)
Definition ck (z : Z) : option Z := if in_i64 z then Some z else None.
Definition days_from_civil_checked (y m d : Z) : option Z :=
  y ← (if m <=? 2 then ck (y - 1) else Some y);
  n ← (if 0 <=? y then Some y else ck (y - 399));
  era ← ck (n /t 400);
  e400 ← ck (era * 400);
  yoe ← ck (y - e400);
  mp ← (if 2 <? m then ck (m - 3) else ck (m + 9));
  a ← ck (153 * mp);
  b ← ck (a + 2);
  c ← ck (b /t 5 + d);
  doy ← ck (c - 1);
  p ← ck (yoe * 365);
  q ← ck (p + yoe /t 4);
  r ← ck (q - yoe /t 100);
  doe ← ck (r + doy);
  t ← ck (era * 146097);
  u ← ck (t + doe);
  ck (u - 719468).

Definition civil_from_days (z : Z) : Z * Z * Z :=
  let z := z + 719468 in
  let era := (if 0 <=? z then z else z - 146096) /t 146097 in
  let doe := z - era * 146097 in
  let yoe := (doe - doe /t 1460 + doe /t 36524 - doe /t 146096) /t 365 in
  let y := yoe + era * 400 in
  let doy := doe - (365 * yoe + yoe /t 4 - yoe /t 100) in
  let mp := (5 * doy + 2) /t 153 in
  let d := wrap_u 32 (doy - (153 * mp + 2) /t 5 + 1) in
  let m := wrap_u 32 (if mp <? 10 then mp + 3 else mp - 9) in
  (if m <=? 2 then y + 1 else y, m, d).

Definition rfc3339_from_unix (secs nanos : Z) : string :=
  let days := secs / 86400 in
  let secs_of_day := secs mod 86400 in
  let '(year, month, day) := civil_from_days days in
  let hour := secs_of_day /t 3600 in
  let minute := Z.rem secs_of_day 3600 /t 60 in
  let second := Z.rem secs_of_day 60 in
  let out := show_pad 4 year +:+ "-" +:+ show_pad 2 month +:+ "-" +:+ show_pad 2 day
             +:+ "T" +:+ show_pad 2 hour +:+ ":" +:+ show_pad 2 minute
             +:+ ":" +:+ show_pad 2 second in
  let out := if 0 <? nanos
             then out +:+ "." +:+ trim_end_by (Ascii.eqb "0") (show_pad 9 nanos)
             else out in
  out +:+ "Z".

(** [digits.truncate(9)] and [while digits.len() < 9 { digits.push('0') }] *)
Fixpoint str_take (n : nat) (s : string) : string :=
  match n, s with
  | S n', String c s' => String c (str_take n' s')
  | _, _ => EmptyString
  end.
Definition pad_right (w : nat) (c : ascii) (s : string) : string :=
  s +:+ str_repeat (w - String.length s) c.

Definition strip_zulu (rest : string) : option string :=
  match strip_suffix "Z" rest with
  | Some t => Some t
  | None => strip_suffix "z" rest
  end.

Definition parse_date (date : string) : option (Z * Z * Z) :=
  match split_char "-" date with
  | [y; m; d] =>
      year ← parse_i64 y; month ← parse_i64 m; day ← parse_i64 d;
      Some (year, month, day)
  | _ => None
  end.

Definition parse_hms (hms : string) : option (Z * Z * Z) :=
  match split_char ":" hms with
  | h :: m :: s :: _ =>
      hour ← parse_i64 h; minute ← parse_i64 m; second ← parse_i64 s;
      Some (hour, minute, second)
  | _ => None
  end.

Definition parse_frac (f : string) : option Z :=
  if is_empty f || negb (str_all is_ascii_digit f) then None
  else parse_i128 (pad_right 9 "0" (str_take 9 f)).

Definition civil_secs (date hms : Z * Z * Z) : Z :=
  let '(year, month, day) := date in
  let '(hour, minute, second) := hms in
  days_from_civil year month day * 86400 + hour * 3600 + minute * 60 + second.

Definition parse_rfc3339_nanos (s : string) : option Z :=
  '(date, rest) ← split_once "T" s;
  time ← strip_zulu rest;
  date ← parse_date date;
  let '(hms, frac) := match split_once "." time with
                      | Some (h, f) => (h, Some f)
                      | None => (time, None)
                      end in
  hms ← parse_hms hms;
  nanos ← match frac with None => Some 0 | Some f => parse_frac f end;
  Some (civil_secs date hms * 1000000000 + nanos).

Definition parse_rfc3339_secs (s : string) : option Z :=
  '(date, rest) ← split_once "T" s;
  time ← strip_zulu rest;
  date ← parse_date date;
  hms ← parse_hms (match split_once "." time with Some (h, _) => h | None => time end);
  Some (civil_secs date hms).

Definition GO_ZERO_UNIX : Z := -62135596800.

Definition unix_from_rfc3339 (s : string) : Z :=
  if str_eqb s ZERO_TIME then GO_ZERO_UNIX
  else default GO_ZERO_UNIX (parse_rfc3339_secs s).

Definition unix_nanos_from_rfc3339 (s : string) : Z :=
  if is_empty s || str_eqb s ZERO_TIME then i128_min
  else default i128_min (parse_rfc3339_nanos s).

Definition unix_millis_from_rfc3339 (s : string) : Z :=
  wrap_s 64 (unix_nanos_from_rfc3339 s /t 1000000).

Definition add_seconds (base : string) (seconds : Z) : string :=
  let nanos := unix_nanos_from_rfc3339 base + seconds * 1000000000 in
  rfc3339_from_unix (wrap_s 64 (nanos / 1000000000)) (wrap_u 32 (nanos mod 1000000000)).

Definition before (a b : string) : bool :=
  unix_nanos_from_rfc3339 a <? unix_nanos_from_rfc3339 b.

Definition is_zero (s : string) : bool := is_empty s || str_eqb s ZERO_TIME.

End TimeFmt.
Export TimeFmt.

(** ** The calendar *)

Definition is_leap (y : Z) : bool := (y mod 4 =? 0) && (negb (y mod 100 =? 0) || (y mod 400 =? 0)).
Definition month_length (y m : Z) : Z :=
  if m =? 2 then (if is_leap y then 29 else 28)
  else if (m =? 4) || (m =? 6) || (m =? 9) || (m =? 11) then 30 else 31.
Definition valid_date (y m d : Z) : Prop := 1 <= m <= 12 /\ 1 <= d <= month_length y m.
Definition days_before_month (y m : Z) : Z :=
  match m with
  | 1 => 0 | 2 => 31 | 3 => 59 | 4 => 90 | 5 => 120 | 6 => 151 | 7 => 181 | 8 => 212
  | 9 => 243 | 10 => 273 | 11 => 304 | _ => 334
  end + (if (2 <? m) && is_leap y then 1 else 0).
(** Days since 1970-01-01, counted year by year. *)
Definition gregorian_days (y m d : Z) : Z :=
  365 * (y - 1) + (y - 1) / 4 - (y - 1) / 100 + (y - 1) / 400 + days_before_month y m + d - 1 - 719162.


Lemma era_floor y : (if 0 <=? y then y else y - 399) /t 400 = y / 400.
Proof. destruct (Z.leb_spec 0 y); euclid. Qed.

(** Leap days up to a year, and the year a leap day belongs to. *)
Definition leaps (y : Z) : Z := y / 4 - y / 100 + y / 400.

Lemma leaps_step y : leaps y = leaps (y - 1) + (if is_leap y then 1 else 0).
Proof.
  unfold leaps, is_leap.
  destruct (Z.eqb_spec (y mod 4) 0), (Z.eqb_spec (y mod 100) 0), (Z.eqb_spec (y mod 400) 0);
    simpl; euclid.
Qed.

Lemma era_leaps y :
  let era := y / 400 in let yoe := y - era * 400 in
  era * 146097 + (yoe * 365 + yoe /t 4 - yoe /t 100) = 365 * y + leaps y.
Proof. unfold leaps. simpl. euclid. Qed.

(** Days from 1 March to the first of a month. *)
Lemma month_offset y m :
  1 <= m <= 12 ->
  (153 * (if 2 <? m then m - 3 else m + 9) + 2) /t 5
  = days_before_month y m + (if m <=? 2 then 306 else -59 - (if is_leap y then 1 else 0)).
Proof.
  intros Hm.
  assert (m = 1 \/ m = 2 \/ m = 3 \/ m = 4 \/ m = 5 \/ m = 6 \/ m = 7 \/ m = 8 \/ m = 9
          \/ m = 10 \/ m = 11 \/ m = 12) as Hc by lia.
  destruct_or! Hc; subst m; unfold days_before_month; simpl; destruct (is_leap y); reflexivity.
Qed.

Lemma days_from_civil_gregorian y m d : 1 <= m <= 12 -> days_from_civil y m d = gregorian_days y m d.
Proof.
  intros Hm. unfold days_from_civil, gregorian_days. rewrite era_floor, (month_offset y m Hm).
  set (y' := if m <=? 2 then y - 1 else y).
  pose proof (era_leaps y') as He. pose proof (leaps_step y) as Hl. cbv zeta in He.
  subst y'. unfold leaps in *. destruct (m <=? 2); lia.
Qed.

Lemma doe_bound doe : 0 <= doe <= 146096 ->
  let yoe := (doe - doe /t 1460 + doe /t 36524 - doe /t 146096) /t 365 in
  0 <= yoe <= 399 /\ 0 <= doe - (365 * yoe + yoe /t 4 - yoe /t 100) <= 365.
Proof. intros H yoe. subst yoe. euclid. Qed.

Lemma doe_leap doe : 0 <= doe <= 146096 ->
  let yoe := (doe - doe /t 1460 + doe /t 36524 - doe /t 146096) /t 365 in
  doe - (365 * yoe + yoe /t 4 - yoe /t 100) = 365 ->
  (yoe + 1) mod 4 = 0 /\ ((yoe + 1) mod 100 <> 0 \/ (yoe + 1) mod 400 = 0).
Proof. intros H yoe. subst yoe. euclid. Qed.

Lemma civil_era z : (if 0 <=? z then z else z - 146096) /t 146097 = z / 146097.
Proof. destruct (Z.leb_spec 0 z); euclid. Qed.

(** The month and day of a day of the March-based year. *)
Definition mp_month (mp : Z) : Z := if mp <? 10 then mp + 3 else mp - 9.
Lemma month_day doy : 0 <= doy <= 365 ->
  let mp := (5 * doy + 2) /t 153 in
  let m := mp_month mp in
  let d := doy - (153 * mp + 2) /t 5 + 1 in
  1 <= m <= 12 /\ 1 <= d <= (if m =? 2 then 29 else month_length 0 m)
  /\ (m = 2 -> d = 29 -> doy = 365) /\ (if 2 <? m then m - 3 else m + 9) = mp /\ d <= 31.
Proof.
  intros H mp m d.
  assert (mp = 0 \/ mp = 1 \/ mp = 2 \/ mp = 3 \/ mp = 4 \/ mp = 5 \/ mp = 6 \/ mp = 7 \/ mp = 8
          \/ mp = 9 \/ mp = 10 \/ mp = 11) as Hc by (subst mp; euclid).
  assert (153 * mp <= 5 * doy + 2 < 153 * mp + 153) by (subst mp; euclid).
  subst d m. clearbody mp.
  destruct_or! Hc; subst mp;
    repeat match goal with |- context [Z.quot ?a 5] =>
      let v := eval vm_compute in (Z.quot a 5) in change (Z.quot a 5) with v end;
    unfold mp_month, month_length; simpl; lia.
Qed.

Lemma month_length_year y m : m <> 2 -> month_length y m = month_length 0 m.
Proof. intros H. unfold month_length. destruct (Z.eqb_spec m 2); [lia|done]. Qed.

Lemma civil_from_days_valid z y m d :
  civil_from_days z = (y, m, d) -> valid_date y m d /\ gregorian_days y m d = z.
Proof.
  unfold civil_from_days. rewrite civil_era.
  set (z' := z + 719468). set (era := z' / 146097). set (doe := z' - era * 146097).
  assert (0 <= doe <= 146096) as Hdoe by (subst doe era; euclid).
  pose proof (doe_bound doe Hdoe) as [Hy Hdoy]. pose proof (doe_leap doe Hdoe) as Hleap.
  set (yoe := (doe - doe /t 1460 + doe /t 36524 - doe /t 146096) /t 365) in *.
  set (doy := doe - (365 * yoe + yoe /t 4 - yoe /t 100)) in *.
  destruct (month_day doy Hdoy) as (Hm & Hd & H29 & Hmp & Hd31).
  set (mp := (5 * doy + 2) /t 153) in *.
  fold (mp_month mp). rewrite !wrap_u_id by lia.
  set (mm := mp_month mp) in *. set (dd := doy - (153 * mp + 2) /t 5 + 1) in *.
  intros [= <- <- <-].
  assert (Hz : z = days_from_civil (if mm <=? 2 then yoe + era * 400 + 1 else yoe + era * 400) mm dd).
  { unfold days_from_civil. rewrite Hmp.
    replace (if mm <=? 2 then (if mm <=? 2 then yoe + era * 400 + 1 else yoe + era * 400) - 1
             else if mm <=? 2 then yoe + era * 400 + 1 else yoe + era * 400) with (yoe + era * 400)
      by (destruct (mm <=? 2); lia).
    rewrite era_floor. replace ((yoe + era * 400) / 400) with era by euclid.
    replace (yoe + era * 400 - era * 400) with yoe by lia.
    subst dd doy doe z'. lia. }
  rewrite days_from_civil_gregorian in Hz by done.
  split; [|by symmetry]. split; [done|].
  destruct (Z.eqb_spec mm 2) as [E|E]; [|rewrite month_length_year by done; lia].
  unfold month_length, is_leap. rewrite E. simpl.
  destruct (Z.eq_dec dd 29) as [E29|]; [|repeat case_match; lia].
  destruct (Hleap (H29 E E29)) as [H4 H100].
  assert ((yoe + era * 400 + 1) mod 4 = 0) as -> by euclid.
  replace ((yoe + era * 400 + 1) mod 100) with ((yoe + 1) mod 100) by euclid.
  replace ((yoe + era * 400 + 1) mod 400) with ((yoe + 1) mod 400) by euclid.
  destruct (Z.eqb_spec ((yoe + 1) mod 100) 0), (Z.eqb_spec ((yoe + 1) mod 400) 0); simpl; lia.
Qed.

(** ** Printing and parsing *)

Lemma trim_start_split c s :
  s = str_repeat (String.length s - String.length (trim_start_by (Ascii.eqb c) s)) c
      +:+ trim_start_by (Ascii.eqb c) s.
Proof.
  induction s as [|d s IH]; [done|]. cbn [trim_start_by].
  destruct (Ascii.eqb_spec c d) as [->|_].
  - assert (String.length (trim_start_by (Ascii.eqb d) s) <= String.length s)%nat.
    { apply (f_equal String.length) in IH. rewrite str_length_app in IH. lia. }
    cbn [String.length]. rewrite Nat.sub_succ_l by lia. cbn [str_repeat].
    rewrite str_app_cons. by f_equal.
  - by rewrite Nat.sub_diag.
Qed.

Lemma trim_end_split c s :
  s = trim_end_by (Ascii.eqb c) s
      +:+ str_repeat (String.length s - String.length (trim_end_by (Ascii.eqb c) s)) c.
Proof.
  unfold trim_end_by. rewrite str_length_rev. pose proof (trim_start_split c (str_rev s)) as H.
  apply (f_equal str_rev) in H.
  by rewrite str_rev_involutive, str_rev_append, str_rev_repeat, str_length_rev in H.
Qed.

Lemma str_take_all n s : (String.length s <= n)%nat -> str_take n s = s.
Proof.
  revert n. induction s as [|c s IH]; intros [|n] H; simpl in *; [done..|lia|].
  by rewrite IH by lia.
Qed.

Lemma parse_frac_show n :
  0 < n < 10 ^ 9 -> parse_frac (trim_end_by (Ascii.eqb "0") (show_pad 9 n)) = Some n.
Proof.
  intros Hn. set (s := show_pad 9 n). set (f := trim_end_by (Ascii.eqb "0") s).
  assert (Hlen : String.length s = 9%nat).
  { subst s. unfold show_pad. destruct (Z.ltb_spec n 0); [lia|]. apply length_pad_left.
    apply length_show; lia. }
  pose proof (trim_end_split "0" s) as Hs. fold f in Hs. rewrite Hlen in Hs.
  assert (Hall : str_all is_ascii_digit s = true) by (apply str_all_show_pad; lia).
  assert (Hfl : (String.length f <= 9)%nat).
  { apply (f_equal String.length) in Hs. rewrite str_length_app, Hlen in Hs. lia. }
  assert (Hval : parse_i128 s = Some n) by (apply parse_show_pad; unfold i128_min, i128_max; lia).
  unfold parse_frac. destruct (is_empty f) eqn:Hf.
  { destruct f; [|done]. rewrite Hs in Hval. simpl in Hval. vm_compute in Hval.
    injection Hval as Hval. lia. }
  rewrite Hs, str_all_app in Hall. apply andb_true_iff in Hall as [-> _]. cbn [negb orb].
  unfold pad_right. by rewrite str_take_all, <- Hs.
Qed.

(** A separator is not among printed digits. *)
Lemma pad_no_sep c w n :
  is_ascii_digit c = false -> 0 <= n -> str_all (negb ∘ Ascii.eqb c) (show_pad w n) = true.
Proof.
  intros Hc Hn. eapply str_all_impl; [|by apply str_all_show_pad].
  intros d Hd. unfold compose. destruct (Ascii.eqb_spec c d) as [<-|]; [congruence|done].
Qed.

Lemma split_pads c w1 n1 w2 n2 w3 n3 :
  is_ascii_digit c = false -> 0 <= n1 -> 0 <= n2 -> 0 <= n3 ->
  split_char c (show_pad w1 n1 +:+ String c (show_pad w2 n2 +:+ String c (show_pad w3 n3)))
  = [show_pad w1 n1; show_pad w2 n2; show_pad w3 n3].
Proof.
  intros Hc H1 H2 H3. unfold split_char.
  rewrite !split_by_app by (apply Ascii.eqb_refl || by apply pad_no_sep).
  by rewrite split_by_none by (by apply pad_no_sep).
Qed.

Lemma parse_date_show y m d :
  0 <= y <= i64_max -> 0 <= m <= 31 -> 0 <= d <= 31 ->
  parse_date (show_pad 4 y +:+ "-" +:+ show_pad 2 m +:+ "-" +:+ show_pad 2 d) = Some (y, m, d).
Proof.
  intros Hy Hm Hd. unfold parse_date. rewrite !str_app_cons, !str_app_nil_l.
  rewrite split_pads by (done || lia).
  unfold parse_i64. rewrite !parse_show_pad by (unfold i64_min, i64_max in *; lia). done.
Qed.

Lemma parse_hms_show h m s :
  0 <= h <= 60 -> 0 <= m <= 60 -> 0 <= s <= 60 ->
  parse_hms (show_pad 2 h +:+ ":" +:+ show_pad 2 m +:+ ":" +:+ show_pad 2 s) = Some (h, m, s).
Proof.
  intros Hh Hm Hs. unfold parse_hms. rewrite !str_app_cons, !str_app_nil_l.
  rewrite split_pads by (done || lia).
  unfold parse_i64. rewrite !parse_show_pad by (unfold i64_min, i64_max in *; lia). done.
Qed.

Lemma sep_not_in_pads c a w1 n1 w2 n2 w3 n3 :
  0 <= n1 -> 0 <= n2 -> 0 <= n3 -> is_ascii_digit c = false -> c <> a ->
  str_all (negb ∘ Ascii.eqb c)
    (show_pad w1 n1 +:+ char_str a +:+ show_pad w2 n2 +:+ char_str a +:+ show_pad w3 n3) = true.
Proof.
  intros H1 H2 H3 Hc Ha. rewrite !str_all_app, !pad_no_sep by done.
  cbn [str_all char_str andb]. unfold compose. by destruct (Ascii.eqb_spec c a).
Qed.

Lemma civil_year_bound z y m d :
  civil_from_days z = (y, m, d) -> -719162 <= z <= 2 ^ 48 -> 0 <= y <= 2 ^ 48.
Proof.
  intros H Hz. apply civil_from_days_valid in H as [[Hm Hd] Hg].
  unfold gregorian_days in Hg.
  assert (0 <= days_before_month y m <= 335).
  { unfold days_before_month. destruct (is_leap y), (2 <? m); simpl; repeat case_match; lia. }
  assert (month_length y m <= 31) by (unfold month_length; repeat case_match; lia). euclid.
Qed.

(** Parsing any text of the printed shape. *)
Lemma parse_rfc3339_shape dt ht frac date hms nanos :
  str_all (negb ∘ Ascii.eqb "T") dt = true -> str_all (negb ∘ Ascii.eqb ".") ht = true ->
  parse_date dt = Some date -> parse_hms ht = Some hms ->
  (frac = EmptyString /\ nanos = 0) \/ (exists f, frac = "." +:+ f /\ parse_frac f = Some nanos) ->
  parse_rfc3339_nanos (dt +:+ "T" +:+ (ht +:+ frac) +:+ "Z")
  = Some (civil_secs date hms * 1000000000 + nanos).
Proof.
  intros HT Hdot Hd Hh Hf. unfold parse_rfc3339_nanos.
  change "T" with (char_str "T"). rewrite split_once_char by done.
  cbn [mbind option_bind]. unfold strip_zulu. rewrite strip_suffix_app.
  cbn [mbind option_bind]. rewrite Hd. cbn [mbind option_bind].
  destruct Hf as [[-> ->]|(f & -> & Hf)].
  - rewrite str_app_nil_r. change "." with (char_str "."). rewrite split_once_char_None by done.
    cbn [mbind option_bind]. by rewrite Hh.
  - change "." with (char_str "."). rewrite split_once_char by done.
    cbn [mbind option_bind]. rewrite Hh. cbn [mbind option_bind]. by rewrite Hf.
Qed.

(** The text [rfc3339_from_unix] prints, field by field. *)
Definition date_text (y m d : Z) : string := show_pad 4 y +:+ "-" +:+ show_pad 2 m +:+ "-" +:+ show_pad 2 d.
Definition clock_text (h mi se : Z) : string := show_pad 2 h +:+ ":" +:+ show_pad 2 mi +:+ ":" +:+ show_pad 2 se.
Definition frac_text (nanos : Z) : string :=
  if 0 <? nanos then "." +:+ trim_end_by (Ascii.eqb "0") (show_pad 9 nanos) else EmptyString.

Lemma rfc3339_fields secs nanos :
  -719162 * 86400 <= secs <= 2 ^ 48 ->
  exists y m d h mi se,
    rfc3339_from_unix secs nanos
    = date_text y m d +:+ "T" +:+ (clock_text h mi se +:+ frac_text nanos) +:+ "Z"
    /\ (0 <= y <= 2 ^ 48 /\ 1 <= m <= 12 /\ 1 <= d <= 31)
    /\ (0 <= h <= 23 /\ 0 <= mi <= 59 /\ 0 <= se <= 59)
    /\ civil_secs (y, m, d) (h, mi, se) = secs.
Proof.
  intros Hs. unfold rfc3339_from_unix.
  destruct (civil_from_days (secs / 86400)) as [[y m] d] eqn:E.
  pose proof (civil_year_bound _ _ _ _ E ltac:(euclid)) as Hy.
  pose proof (civil_from_days_valid _ _ _ _ E) as [[Hm Hd] Hg].
  assert (month_length y m <= 31) by (unfold month_length; repeat case_match; lia).
  set (sod := secs mod 86400). assert (0 <= sod < 86400) by (apply Z.mod_pos_bound; lia).
  set (h := sod /t 3600). set (mi := Z.rem sod 3600 /t 60). set (se := Z.rem sod 60).
  assert (0 <= h <= 23 /\ 0 <= mi <= 59 /\ 0 <= se <= 59 /\ sod = h * 3600 + mi * 60 + se)
    as (Hh & Hmi & Hse & Hsod) by (subst h mi se; euclid).
  exists y, m, d, h, mi, se. split_and!; try lia.
  - unfold date_text, clock_text, frac_text.
    destruct (0 <? nanos); by rewrite ?str_app_nil_r, !str_app_assoc.
  - unfold civil_secs. rewrite days_from_civil_gregorian, Hg by done. subst sod. euclid.
Qed.

Lemma date_text_no c y m d :
  0 <= y -> 0 <= m -> 0 <= d -> is_ascii_digit c = false -> c <> "-"%char ->
  str_all (negb ∘ Ascii.eqb c) (date_text y m d) = true.
Proof. intros. by apply sep_not_in_pads. Qed.
Lemma clock_text_no c h mi se :
  0 <= h -> 0 <= mi -> 0 <= se -> is_ascii_digit c = false -> c <> ":"%char ->
  str_all (negb ∘ Ascii.eqb c) (clock_text h mi se) = true.
Proof. intros. by apply sep_not_in_pads. Qed.

(** What [rfc3339_from_unix] prints is parsed back. *)
Lemma parse_rfc3339_show secs nanos :
  -719162 * 86400 <= secs <= 2 ^ 48 -> 0 <= nanos < 10 ^ 9 ->
  parse_rfc3339_nanos (rfc3339_from_unix secs nanos) = Some (secs * 1000000000 + nanos).
Proof.
  intros Hs Hn. destruct (rfc3339_fields secs nanos Hs) as (y & m & d & h & mi & se & -> & Hd & Hh & <-).
  apply parse_rfc3339_shape.
  - apply date_text_no; done || lia.
  - apply clock_text_no; done || lia.
  - apply parse_date_show; unfold i64_max; lia.
  - apply parse_hms_show; lia.
  - unfold frac_text. destruct (Z.ltb_spec 0 nanos); [right|left; split; [done|lia]].
    eexists. split; [done|]. apply parse_frac_show. lia.
Qed.

Lemma unix_nanos_show secs nanos :
  -719162 * 86400 < secs <= 2 ^ 48 -> 0 <= nanos < 10 ^ 9 ->
  unix_nanos_from_rfc3339 (rfc3339_from_unix secs nanos) = secs * 1000000000 + nanos.
Proof.
  intros Hs Hn. pose proof (parse_rfc3339_show secs nanos ltac:(lia) Hn) as Hp.
  unfold unix_nanos_from_rfc3339.
  destruct (is_empty (rfc3339_from_unix secs nanos)) eqn:E1.
  { destruct (rfc3339_from_unix secs nanos); [|done]. by vm_compute in Hp. }
  unfold str_eqb. case_bool_decide as E2.
  { assert (Some (-62135596800 * 1000000000) = Some (secs * 1000000000 + nanos)) as [= H]
      by (rewrite <- Hp, E2; vm_compute; reflexivity). lia. }
  cbn [orb]. by rewrite Hp.
Qed.

(** The range of instants the printing and parsing are exact on: after the zero
    time and up to about nine million years from now, in nanoseconds. *)
Definition instant_ok (n : Z) : Prop := -719162 * 86400 * 10 ^ 9 + 10 ^ 9 <= n <= 2 ^ 48 * 10 ^ 9.

Lemma unix_nanos_add_seconds base k :
  instant_ok (unix_nanos_from_rfc3339 base + k * 10 ^ 9) ->
  unix_nanos_from_rfc3339 (add_seconds base k) = unix_nanos_from_rfc3339 base + k * 10 ^ 9.
Proof.
  unfold instant_ok, add_seconds. intros H. set (n := unix_nanos_from_rfc3339 base) in *.
  change (10 ^ 9) with 1000000000 in *.
  assert (-719162 * 86400 < (n + k * 1000000000) / 1000000000 <= 2 ^ 48) as Hd by euclid.
  assert (0 <= (n + k * 1000000000) mod 1000000000 < 1000000000) by (apply Z.mod_pos_bound; lia).
  rewrite wrap_s_id by lia. rewrite wrap_u_id by lia.
  rewrite unix_nanos_show by lia. euclid.
Qed.

(** ** Properties *)

(** [civil_from_days] is the proleptic Gregorian calendar, and
    [days_from_civil] its inverse: every day number yields an existing date
    (month 1 to 12, day within the month's length, leap years included) that is
    that many days from 1970-01-01 when counted year by year and month by month. *)
Theorem civil_from_days_correct z :
  let '(y, m, d) := civil_from_days z in
  valid_date y m d /\ gregorian_days y m d = z /\ days_from_civil y m d = z.
Proof.
  destruct (civil_from_days z) as [[y m] d] eqn:E.
  apply civil_from_days_valid in E as [Hv Hg]. split; [done|]. split; [done|].
  rewrite days_from_civil_gregorian; [done|]. apply Hv.
Qed.

(** a timestamp printed by [rfc3339_from_unix] reads back as the same
    instant, to the nanosecond, for every instant after the zero time up to
    year 8.9 million: the trimmed fraction and the zero-padded fields lose nothing. *)
Theorem rfc3339_roundtrip secs nanos :
  -719162 * 86400 < secs <= 2 ^ 48 -> 0 <= nanos < 10 ^ 9 ->
  unix_nanos_from_rfc3339 (rfc3339_from_unix secs nanos) = secs * 1000000000 + nanos.
Proof. apply unix_nanos_show. Qed.

Lemma rfc3339_roundtrip_witness :
  rfc3339_from_unix 1777543200 120000000 = "2026-04-30T10:00:00.12Z" /\
  unix_nanos_from_rfc3339 (rfc3339_from_unix 1777543200 120000000) = 1777543200 * 1000000000 + 120000000.
Proof. split; [reflexivity|]. apply (rfc3339_roundtrip 1777543200 120000000); lia. Defined.

(** [before now (add_seconds base k)] decides whether fewer than [k] seconds
    have passed since [base], at nanosecond precision; it holds of every timestamp
    the service can hold, also those it did not print itself. *)
Theorem before_add_seconds now base k :
  instant_ok (unix_nanos_from_rfc3339 base + k * 10 ^ 9) ->
  before now (add_seconds base k) = true <->
  unix_nanos_from_rfc3339 now - unix_nanos_from_rfc3339 base < k * 10 ^ 9.
Proof. intros H. unfold before. rewrite unix_nanos_add_seconds by done. lia. Qed.

Lemma before_add_seconds_witness :
  before "2026-04-30T10:00:29.999Z" (add_seconds "2026-04-30T10:00:00Z" 30) = true <->
  unix_nanos_from_rfc3339 "2026-04-30T10:00:29.999Z" - unix_nanos_from_rfc3339 "2026-04-30T10:00:00Z"
    < 30 * 10 ^ 9.
Proof. apply before_add_seconds. vm_compute. split; discriminate. Defined.

(** on years, months and days of at most 2^50 in absolute value no [i64]
    operation of [days_from_civil] overflows, so the checked run returns, and
    with the exact value. *)
Theorem days_from_civil_no_overflow y m d :
  Z.abs y <= 2 ^ 50 -> Z.abs m <= 2 ^ 50 -> Z.abs d <= 2 ^ 50 ->
  days_from_civil_checked y m d = Some (days_from_civil y m d).
Proof.
  intros Hy Hm Hd. unfold days_from_civil_checked, days_from_civil.
  assert (Hck : forall z, - 2 ^ 63 <= z < 2 ^ 63 -> ck z = Some z).
  { intros z Hz. unfold ck, in_i64, i64_min, i64_max.
    by replace ((- 2 ^ 63 <=? z) && (z <=? 2 ^ 63 - 1)) with true by lia. }
  destruct (Z.leb_spec m 2), (Z.ltb_spec 2 m); try lia;
    repeat (rewrite Hck by euclid; cbn [mbind option_bind]).
  all: [> destruct (Z.leb_spec 0 (y - 1)) | destruct (Z.leb_spec 0 y)];
    cbn [mbind option_bind]; repeat (rewrite Hck by euclid; cbn [mbind option_bind]); done.
Qed.

Lemma days_from_civil_no_overflow_witness :
  days_from_civil_checked 2026 4 30 = Some (days_from_civil 2026 4 30).
Proof. apply (days_from_civil_no_overflow 2026 4 30); vm_compute; discriminate. Defined.
