(* ===== verification/SqsModel.v ===== *)
(** The SQS service's data: the records of [services/sqs/src/model.rs],
    [persistence.rs] and [policy.rs], the server state of [server.rs], and the
    world its methods run in.

    What is not the repository's code is a field of the class [Env]: the system
    clock, the file system calls, and the crates [md5], [sha2], [base64] and
    [serde_json]. *)

From Stdlib Require Import SpecFloat.
From S2P Require Import Prelude RustStr RustNum SqsTime.
Local Open Scope Z_scope.

(** ** Messages ([model.rs]) *)

Record MessageAttributeValue := mkAttr {
  data_type : string;
  string_value : string;
  binary_value : string;
  string_list_values : list string;
  binary_list_values : list string;
}.

Record MessageState := mkMsg {
  msg_id : string;
  msg_body : string;
  msg_body_md5 : string;
  msg_attributes : gmap string MessageAttributeValue;
  msg_system_attributes : gmap string MessageAttributeValue;
  sent_at : string;
  available_at : string;
  invisible_until : string;
  receive_count : Z;
  first_receive_at : string;
  receipt_handle : string;
  deleted : bool;
  message_group_id : string;
  deduplication_id : string;
  sequence_number : string;
  dead_letter_source_arn : string;
}.

#[export] Instance MessageAttributeValue_eq_dec : EqDecision MessageAttributeValue.
Proof. solve_decision. Defined.
#[export] Instance MessageState_eq_dec : EqDecision MessageState.
Proof. solve_decision. Defined.

(** [MessageState::default()] *)
Definition default_message : MessageState :=
  mkMsg "" "" "" ∅ ∅ "" "" "" 0 "" "" false "" "" "" "".

(** Field assignments [m.field = v]. *)
Definition set_visibility (v : string) (m : MessageState) : MessageState :=
  mkMsg (msg_id m) (msg_body m) (msg_body_md5 m) (msg_attributes m) (msg_system_attributes m)
    (sent_at m) (available_at m) v (receive_count m) (first_receive_at m) (receipt_handle m)
    (deleted m) (message_group_id m) (deduplication_id m) (sequence_number m)
    (dead_letter_source_arn m).
Definition set_receipt_handle (v : string) (m : MessageState) : MessageState :=
  mkMsg (msg_id m) (msg_body m) (msg_body_md5 m) (msg_attributes m) (msg_system_attributes m)
    (sent_at m) (available_at m) (invisible_until m) (receive_count m) (first_receive_at m) v
    (deleted m) (message_group_id m) (deduplication_id m) (sequence_number m)
    (dead_letter_source_arn m).
Definition set_deleted (v : bool) (m : MessageState) : MessageState :=
  mkMsg (msg_id m) (msg_body m) (msg_body_md5 m) (msg_attributes m) (msg_system_attributes m)
    (sent_at m) (available_at m) (invisible_until m) (receive_count m) (first_receive_at m)
    (receipt_handle m) v (message_group_id m) (deduplication_id m) (sequence_number m)
    (dead_letter_source_arn m).
Definition set_receive_count (v : Z) (m : MessageState) : MessageState :=
  mkMsg (msg_id m) (msg_body m) (msg_body_md5 m) (msg_attributes m) (msg_system_attributes m)
    (sent_at m) (available_at m) (invisible_until m) v (first_receive_at m)
    (receipt_handle m) (deleted m) (message_group_id m) (deduplication_id m) (sequence_number m)
    (dead_letter_source_arn m).
Definition set_first_receive_at (v : string) (m : MessageState) : MessageState :=
  mkMsg (msg_id m) (msg_body m) (msg_body_md5 m) (msg_attributes m) (msg_system_attributes m)
    (sent_at m) (available_at m) (invisible_until m) (receive_count m) v
    (receipt_handle m) (deleted m) (message_group_id m) (deduplication_id m) (sequence_number m)
    (dead_letter_source_arn m).
Definition set_available_at (v : string) (m : MessageState) : MessageState :=
  mkMsg (msg_id m) (msg_body m) (msg_body_md5 m) (msg_attributes m) (msg_system_attributes m)
    (sent_at m) v (invisible_until m) (receive_count m) (first_receive_at m)
    (receipt_handle m) (deleted m) (message_group_id m) (deduplication_id m) (sequence_number m)
    (dead_letter_source_arn m).
Definition set_dead_letter_source_arn (v : string) (m : MessageState) : MessageState :=
  mkMsg (msg_id m) (msg_body m) (msg_body_md5 m) (msg_attributes m) (msg_system_attributes m)
    (sent_at m) (available_at m) (invisible_until m) (receive_count m) (first_receive_at m)
    (receipt_handle m) (deleted m) (message_group_id m) (deduplication_id m) (sequence_number m) v.
Definition set_fifo_ids (dedup seq : string) (m : MessageState) : MessageState :=
  mkMsg (msg_id m) (msg_body m) (msg_body_md5 m) (msg_attributes m) (msg_system_attributes m)
    (sent_at m) (available_at m) (invisible_until m) (receive_count m) (first_receive_at m)
    (receipt_handle m) (deleted m) (message_group_id m) dedup seq (dead_letter_source_arn m).

Record DeduplicationState := mkDedup {
  expires_at : string;
  dedup_message : option MessageState;
}.

Record MoveTaskState := mkTask {
  task_handle : string;
  source_arn : string;
  destination_arn : string;
  task_status : string;
  started_at : string;
  approximate_number_of_messages_moved : Z;
}.

(** ** Policies ([policy.rs]) *)

Record QueuePolicyStatement := mkStatement {
  sid : string;
  effect : string;
  principal_aws : list string;
  stmt_action : list string;
  stmt_resource : string;
}.

Record QueuePolicy := mkPolicy {
  policy_version : string;
  policy_id : string;
  statement : list QueuePolicyStatement;
}.

Record RedrivePolicy := mkRedrive {
  dead_letter_target_arn : string;
  max_receive_count : Z;
}.

Record RedriveAllowPolicy := mkRedriveAllow {
  permission : string;
  source_queue_arns : list string;
}.

(** [serde_json::Value], over the crate's number type. *)
Inductive json (N : Type) : Type :=
| JNull
| JBool (b : bool)
| JNumber (n : N)
| JString (s : string)
| JArray (l : list (json N))
| JObject (fields : list (string * json N)).
Arguments JNull {N}.
Arguments JBool {N} b.
Arguments JNumber {N} n.
Arguments JString {N} s.
Arguments JArray {N} l.
Arguments JObject {N} fields.

(** ** Server state ([server.rs], [persistence.rs]) *)

Record Config := mkConfig {
  addr : string;
  region : string;
  account_id : string;
  queue_url_host : string;
  auth_mode : string;
  access_key_id : string;
  secret_access_key : string;
  storage_path : string;
  cfg_max_queues : Z;
  cfg_max_message_bytes : Z;
  cfg_max_receive_batch_size : Z;
  cfg_default_visibility_timeout_seconds : Z;
  cfg_default_delay_seconds : Z;
  cfg_default_message_retention_seconds : Z;
  cfg_default_receive_wait_time_seconds : Z;
}.

Record QueueState := mkQueue {
  q_name : string;
  q_url : string;
  q_arn : string;
  q_attributes : gmap string string;
  q_tags : gmap string string;
  created_at : string;
  modified_at : string;
  messages : list MessageState;
  sequence : Z;
  dedup : gmap string DeduplicationState;
}.

Definition set_messages (v : list MessageState) (q : QueueState) : QueueState :=
  mkQueue (q_name q) (q_url q) (q_arn q) (q_attributes q) (q_tags q) (created_at q)
    (modified_at q) v (sequence q) (dedup q).
Definition set_sequence (v : Z) (q : QueueState) : QueueState :=
  mkQueue (q_name q) (q_url q) (q_arn q) (q_attributes q) (q_tags q) (created_at q)
    (modified_at q) (messages q) v (dedup q).
Definition set_dedup (v : gmap string DeduplicationState) (q : QueueState) : QueueState :=
  mkQueue (q_name q) (q_url q) (q_arn q) (q_attributes q) (q_tags q) (created_at q)
    (modified_at q) (messages q) (sequence q) v.
Definition set_attributes (v : gmap string string) (q : QueueState) : QueueState :=
  mkQueue (q_name q) (q_url q) (q_arn q) v (q_tags q) (created_at q)
    (modified_at q) (messages q) (sequence q) (dedup q).
Definition set_tags (v : gmap string string) (q : QueueState) : QueueState :=
  mkQueue (q_name q) (q_url q) (q_arn q) (q_attributes q) v (created_at q)
    (modified_at q) (messages q) (sequence q) (dedup q).
Definition set_modified_at (v : string) (q : QueueState) : QueueState :=
  mkQueue (q_name q) (q_url q) (q_arn q) (q_attributes q) (q_tags q) (created_at q)
    v (messages q) (sequence q) (dedup q).

Record Server := mkServer {
  config : Config;
  queues : gmap string QueueState;
  move_tasks : gmap string MoveTaskState;
  load_err : option string;
}.

Record QueueIdentity := mkIdentity { qi_arn : string; qi_created_at : string }.
#[export] Instance QueueIdentity_eq_dec : EqDecision QueueIdentity.
Proof. solve_decision. Defined.

(** [PersistedState] and its borrowing mirror [PersistedStateRef], which lists the
    same fields; a persisted queue has the fields of [QueueState]. *)
Record PersistedState := mkPersisted {
  p_queues : gmap string QueueState;
  p_move_tasks : gmap string MoveTaskState;
}.

(** ** The environment *)

Class Env := {
  (** A build with overflow checks ([cargo run], [cargo test]) panics on signed
      overflow; a release build wraps. *)
  overflow_checks : bool;
  (** The [k]-th call to the operating system: [SystemTime::now()] since the
      epoch (seconds, nanoseconds below 10^9), or the error of the file system call. *)
  sys_clock : nat -> Z * Z;
  fs_create_dir_all : nat -> option string;
  fs_write : nat -> option string;
  fs_rename : nat -> option string;
  fs_read : nat -> option string;
  (** Crates. *)
  json_number : Type;
  number_as_f64 : json_number -> option spec_float;
  json_from_str : string -> option (json json_number);
  policy_from_str : string -> option QueuePolicy;
  policy_to_string : QueuePolicy -> string + string;
  md5_digest : string -> string;
  sha256_digest : string -> string;
  base64_decode : string -> option string;
  state_to_vec : PersistedState -> string;
  state_from_slice : string -> PersistedState + string;
}.

(** [w_disk] is the content of [state.json]; [w_tick] counts operating system
    calls; the two counters are the [static COUNTER]s of [messages.rs] and
    [move_tasks.rs]. *)
Record World := mkWorld {
  server : Server;
  w_disk : option string;
  w_tick : nat;
  w_msg_counter : Z;
  w_task_counter : Z;
}.

Definition set_server (v : Server) (w : World) : World :=
  mkWorld v (w_disk w) (w_tick w) (w_msg_counter w) (w_task_counter w).
Definition set_disk (v : option string) (w : World) : World :=
  mkWorld (server w) v (w_tick w) (w_msg_counter w) (w_task_counter w).
Definition set_tick (v : nat) (w : World) : World :=
  mkWorld (server w) (w_disk w) v (w_msg_counter w) (w_task_counter w).
Definition set_msg_counter (v : Z) (w : World) : World :=
  mkWorld (server w) (w_disk w) (w_tick w) v (w_task_counter w).
Definition set_task_counter (v : Z) (w : World) : World :=
  mkWorld (server w) (w_disk w) (w_tick w) (w_msg_counter w) v.
Definition w_queues (w : World) : gmap string QueueState := queues (server w).
Definition set_queues (v : gmap string QueueState) (w : World) : World :=
  set_server (mkServer (config (server w)) v (move_tasks (server w)) (load_err (server w))) w.
Definition set_move_tasks (v : gmap string MoveTaskState) (w : World) : World :=
  set_server (mkServer (config (server w)) (queues (server w)) v (load_err (server w))) w.

(** ** Access to the world *)

Section Access.
Context `{Env}.

Definition next_tick : M World nat := fun w => (Ok (w_tick w), set_tick (S (w_tick w)) w).

(** A file system call: its error, if it fails. *)
Definition fs_call (result : nat -> option string) : M World unit :=
  t ← next_tick;
  match result t with None => mret tt | Some e => fail e end.

(** [SystemTime::now().duration_since(UNIX_EPOCH)] *)
Definition unix_now : M World (Z * Z) := t ← next_tick; mret (sys_clock t).

Definition now_rfc3339 : M World string :=
  '(secs, nanos) ← unix_now; mret (rfc3339_from_unix (wrap_s 64 secs) nanos).

(** [format!("{prefix}-{nanos:x}{n:x}")], on the counter [n] read before the
    increment. *)
Definition opaque_id (prefix : string) (nanos n : Z) : string :=
  prefix +:+ "-" +:+ show_hex nanos +:+ show_hex n.

Definition new_opaque_id (prefix : string) : M World string :=
  n ← gets w_msg_counter;
  modify (set_msg_counter (wrap_u 64 (n + 1)));;
  '(secs, nanos) ← unix_now;
  mret (opaque_id prefix (secs * 1000000000 + nanos) n).

Definition new_task_id (prefix : string) : M World string :=
  n ← gets w_task_counter;
  modify (set_task_counter (wrap_u 64 (n + 1)));;
  '(secs, nanos) ← unix_now;
  mret (opaque_id prefix (secs * 1000000000 + nanos) n).

(** [self.queues.get(name).unwrap()] and the assignment through [get_mut]. *)
Definition queue_unwrap (name : string) : M World QueueState :=
  o ← gets (fun w => w_queues w !! name);
  match o with Some q => mret q | None => panic "unwrap on None" end.
Definition put_queue (name : string) (q : QueueState) : M World unit :=
  modify (fun w => set_queues (<[name := q]> (w_queues w)) w).
Definition update_queue (name : string) (f : QueueState -> QueueState) : M World unit :=
  q ← queue_unwrap name; put_queue name (f q).

Definition contains_queue (name : string) : M World bool :=
  gets (fun w => bool_decide (is_Some (w_queues w !! name))).

(** Signed arithmetic at a fixed width. *)
Definition checked_i128 (z : Z) : outcome Z :=
  if in_i128 z then Ok z
  else if overflow_checks then Panic "arithmetic overflow" else Ok (wrap_s 128 z).
Definition checked_i64 (z : Z) : outcome Z :=
  if in_i64 z then Ok z
  else if overflow_checks then Panic "arithmetic overflow" else Ok (wrap_s 64 z).
Definition checked_u64 (z : Z) : outcome Z :=
  if (0 <=? z) && (z <? 2 ^ 64) then Ok z
  else if overflow_checks then Panic "arithmetic overflow" else Ok (wrap_u 64 z).
End Access.
