(* ===== verification/SqsValidation.v ===== *)
(** The SQS service's checks: [services/sqs/src/validation.rs], [errors.rs], [hashing.rs]
    and the queue policies of [policy.rs]. *)

From Stdlib Require Import SpecFloat.
From S2P Require Import Prelude RustStr RustNum SqsTime SqsModel.
Local Open Scope Z_scope.

(** Pure checks of the SQS service: [services/sqs/src/validation.rs],
    [errors.rs] and the attribute digest of [hashing.rs]. *)

(** [char::is_ascii_alphanumeric] on a code point. *)
Definition cp_ascii_alnum (c : Z) : bool :=
  ((48 <=? c) && (c <=? 57)) || ((65 <=? c) && (c <=? 90)) || ((97 <=? c) && (c <=? 122)).

(** [str::parse::<f64>().is_ok()]: [inf], [infinity], [nan] in any case, or
    digits with an optional point and exponent. *)
Definition skip_sign (s : string) : string :=
  match s with
  | String c r => if Ascii.eqb c "+" || Ascii.eqb c "-" then r else s
  | EmptyString => s
  end.
Fixpoint skip_digits (s : string) : string * bool :=
  match s with
  | String c r => if is_ascii_digit c then (fst (skip_digits r), true) else (s, false)
  | EmptyString => (s, false)
  end.
Definition is_f64_literal (s : string) : bool :=
  let s := skip_sign s in
  let l := to_ascii_lowercase s in
  if str_eqb l "inf" || str_eqb l "infinity" || str_eqb l "nan" then true
  else
    let '(r, int_digits) := skip_digits s in
    let '(r, frac_digits) := match strip_prefix "." r with
                             | Some r' => skip_digits r'
                             | None => (r, false)
                             end in
    if negb (int_digits || frac_digits) then false
    else match r with
         | EmptyString => true
         | String c r' =>
             if Ascii.eqb c "e" || Ascii.eqb c "E" then
               let '(rest, exp_digits) := skip_digits (skip_sign r') in exp_digits && is_empty rest
             else false
         end.

Section Validation.
Context `{Env}.

Definition validate_message_attribute_name (name : string) : outcome unit :=
  if is_empty name then
    Err "invalid attribute name: message attribute name is required"
  else if 256 <? str_len name then
    Err "invalid attribute name: message attribute name must be no longer than 256 characters"
  else
    let lower := to_ascii_lowercase name in
    if starts_with "aws." lower || starts_with "amazon." lower then
      Err "invalid attribute name: message attribute name must not start with AWS. or Amazon."
    else if starts_with "." name || ends_with "." name || contains ".." name then
      Err "invalid attribute name: message attribute name must not start or end with a period or contain consecutive periods"
    else if forallb (fun c => cp_ascii_alnum c || (c =? 95) || (c =? 45) || (c =? 46)) (chars name)
    then Ok tt
    else Err "invalid attribute name: message attribute name contains unsupported characters".

Definition is_unsupported_list_type (data_type : string) : bool :=
  str_eqb data_type "string.list" || starts_with "string.list." data_type
  || str_eqb data_type "binary.list" || starts_with "binary.list." data_type.

Definition attr_err (name what : string) : outcome unit :=
  Err ("invalid attribute value for " +:+ name +:+ ": " +:+ what).

Definition validate_message_attribute_value (name : string) (attr : MessageAttributeValue)
    : outcome unit :=
  if is_empty (trim (data_type attr)) then attr_err name "DataType is required"
  else
    let dt := to_ascii_lowercase (data_type attr) in
    if is_unsupported_list_type dt then attr_err name "list DataType is not supported"
    else if starts_with "string" dt then Ok tt
    else if starts_with "number" dt then
      (if is_f64_literal (string_value attr) then Ok tt
       else attr_err name "Number attributes must be numeric")
    else if starts_with "binary" dt then
      (if is_empty (binary_value attr) then attr_err name "BinaryValue is required"
       else match base64_decode (binary_value attr) with
            | None => attr_err name "BinaryValue must be base64"
            | Some _ => Ok tt
            end)
    else attr_err name "unsupported DataType".

Definition validate_message_system_attribute (name : string) (attr : MessageAttributeValue)
    : outcome unit :=
  if negb (str_eqb name "AWSTraceHeader") then
    Err ("invalid attribute value: unsupported message system attribute " +:+ name)
  else validate_message_attribute_value name attr.

Definition body_char_ok (c : Z) : bool :=
  negb (c =? 65533)
  && ((c =? 9) || (c =? 10) || (c =? 13)
      || ((32 <=? c) && (c <=? 55295)) || ((57344 <=? c) && (c <=? 65533))
      || ((65536 <=? c) && (c <=? 1114111))).
Definition valid_message_body (body : string) : bool := forallb body_char_ok (chars body).

Definition id_char_ok (c : Z) : bool := cp_ascii_alnum c || (c =? 95) || (c =? 45).
Definition valid_batch_entry_id (id : string) : bool :=
  let len := Z.of_nat (length (chars id)) in
  if (len =? 0) || (80 <? len) then false else forallb id_char_ok (chars id).

Definition valid_queue_name (name : string) : bool :=
  let base := default name (strip_suffix ".fifo" name) in
  let len := Z.of_nat (length (chars base)) in
  if (len =? 0) || (80 <? len) then false else forallb id_char_ok (chars base).

(** [error_code]: [to_lowercase] differs from the ASCII lowering only on
    non-ASCII characters, and none of those lowers to text the patterns contain. *)
Definition error_code (err : string) : string :=
  let m := to_ascii_lowercase err in
  if contains "queue name exists" m then "QueueNameExists"
  else if contains "queue does not exist" m then "QueueDoesNotExist"
  else if contains "receipt handle is invalid" m then "ReceiptHandleIsInvalid"
  else if contains "batch entry id must be unique" m then "BatchEntryIdsNotDistinct"
  else if contains "batch entry id" m then "InvalidBatchEntryId"
  else if contains "attribute name" m then "InvalidAttributeName"
  else if contains "attribute value" m then "InvalidAttributeValue"
  else if contains "invalid characters" m then "InvalidMessageContents"
  else "InvalidParameterValue".

(** ** Hashing *)

Fixpoint hex_lower (bytes : string) : string :=
  match bytes with EmptyString => EmptyString | String b r => hex2 b +:+ hex_lower r end.

Definition md5_hex (value : string) : string := hex_lower (md5_digest value).

(** [(n as u32).to_be_bytes()] *)
Definition be32 (n : Z) : string :=
  let n := wrap_u 32 n in
  bytes_str [Z.shiftr n 24; Z.land (Z.shiftr n 16) 255; Z.land (Z.shiftr n 8) 255; Z.land n 255].

Definition write_attr_bytes (value : string) : string := be32 (str_len value) +:+ value.
Definition write_attr_string (value : string) : string := write_attr_bytes value.

Definition decode_binary_attribute (value : string) : string :=
  match base64_decode value with Some decoded => decoded | None => value end.

(** One attribute of the digest's payload. *)
Definition encode_attr (name : string) (attr : MessageAttributeValue) : string :=
  write_attr_string name +:+ write_attr_string (data_type attr)
  +:+ (if starts_with "binary" (to_ascii_lowercase (data_type attr)) then
         bytes_str [2] +:+ write_attr_bytes (decode_binary_attribute (binary_value attr))
       else bytes_str [1] +:+ write_attr_string (string_value attr)).

Definition attrs_payload (attrs : list (string * MessageAttributeValue)) : string :=
  foldr (fun p acc => encode_attr p.1 p.2 +:+ acc) EmptyString attrs.

Definition md5_of_message_attributes (attrs : gmap string MessageAttributeValue) : string :=
  if bool_decide (attrs = ∅) then EmptyString
  else hex_lower (md5_digest (attrs_payload (btree_iter attrs))).
End Validation.

(** ** Names *)

(** The pattern [^[A-Za-z0-9_-]{1,80}(\.fifo)?$] the code states. *)
Definition name_byte_ok (c : ascii) : bool :=
  is_ascii_alphanumeric c || Ascii.eqb c "_" || Ascii.eqb c "-".
Definition name_part (s : string) : Prop :=
  (1 <= String.length s <= 80)%nat /\ str_all name_byte_ok s = true.
Definition queue_name_pattern (name : string) : Prop :=
  exists base suffix, name = base +:+ suffix /\ name_part base
                      /\ (suffix = EmptyString \/ suffix = ".fifo").

Lemma id_char_ok_ascii v : id_char_ok v = true -> v < 128.
Proof. unfold id_char_ok, cp_ascii_alnum. lia. Qed.

Lemma id_char_ok_byte c : id_char_ok (byte_of c) = name_byte_ok c.
Proof.
  unfold id_char_ok, cp_ascii_alnum, name_byte_ok, is_ascii_alphanumeric, is_ascii_alphabetic,
    is_ascii_lowercase, is_ascii_uppercase, is_ascii_digit, in_range.
  change (byte_of "0") with 48. change (byte_of "9") with 57.
  change (byte_of "a") with 97. change (byte_of "z") with 122.
  change (byte_of "A") with 65. change (byte_of "Z") with 90.
  destruct (Ascii.eqb_spec c "_") as [->|N1]; [done|].
  destruct (Ascii.eqb_spec c "-") as [->|N2]; [done|].
  assert (byte_of c <> 95) by (intros E; apply N1; by apply byte_of_inj).
  assert (byte_of c <> 45) by (intros E; apply N2; by apply byte_of_inj). lia.
Qed.

Lemma str_all_ext p q s : (forall c, p c = q c) -> str_all p s = str_all q s.
Proof. intros H. induction s as [|c s IH]; [done|]. cbn [str_all]. by rewrite H, IH. Qed.

(** The check the three validators share, on bytes. *)
Lemma name_check s :
  (let len := Z.of_nat (length (chars s)) in
   if (len =? 0) || (80 <? len) then false else forallb id_char_ok (chars s)) = true
  <-> name_part s.
Proof.
  cbv zeta. rewrite (forallb_chars _ _ id_char_ok_ascii), (str_all_ext _ name_byte_ok)
    by apply id_char_ok_byte.
  unfold name_part. destruct (str_all name_byte_ok s) eqn:E.
  - rewrite length_chars_ascii; [|eapply str_all_impl; [|done]].
    + destruct (_ || _) eqn:B; split; try done; lia.
    + intros c Hc. rewrite <- id_char_ok_byte in Hc. apply id_char_ok_ascii in Hc.
      unfold is_ascii. lia.
  - destruct (_ || _); split; try done; by intros [_ ?].
Qed.

Lemma valid_name_iff name : valid_queue_name name = true <-> queue_name_pattern name.
Proof.
  unfold valid_queue_name, queue_name_pattern. rewrite name_check.
  destruct (strip_suffix ".fifo" name) as [base|] eqn:E; simpl.
  - apply strip_suffix_Some in E as ->. split.
    + intros H. eauto 6.
    + intros (b & suf & Hname & Hb & [->| ->]).
      * rewrite str_app_nil_r in Hname. subst b. destruct Hb as [_ Hb].
        rewrite str_all_app in Hb. apply andb_true_iff in Hb as [_ Hb]. by vm_compute in Hb.
      * apply (f_equal (strip_suffix ".fifo")) in Hname.
        rewrite !strip_suffix_app in Hname. by injection Hname as ->.
  - split.
    + intros H. exists name, EmptyString. rewrite str_app_nil_r. auto.
    + intros (b & suf & -> & Hb & [->| ->]); [by rewrite str_app_nil_r|].
      by rewrite strip_suffix_app in E.
Qed.

(** What URLs rely on: no separator in a queue name. *)
Definition url_safe (s : string) : bool :=
  str_all (fun c => negb (Ascii.eqb c "/" || Ascii.eqb c "?" || Ascii.eqb c "#")) s.
Lemma valid_name_safe name : valid_queue_name name = true -> name <> "" /\ url_safe name = true.
Proof.
  intros (base & suffix & -> & [Hlen Hok] & Hs)%valid_name_iff. split.
  - destruct base; [simpl in Hlen; lia|done].
  - unfold url_safe. rewrite str_all_app. apply andb_true_iff. split; [|by destruct Hs as [->| ->]].
    eapply str_all_impl; [|exact Hok]. intros c Hc.
    destruct (Ascii.eqb_spec c "/") as [->|]; [done|]. destruct (Ascii.eqb_spec c "?") as [->|]; [done|].
    by destruct (Ascii.eqb_spec c "#") as [->|].
Qed.


(** ** The attribute digest *)

Lemma str_length_be32 n : String.length (be32 n) = 4%nat.
Proof. reflexivity. Qed.

Lemma be32_inj n m : 0 <= n < 2 ^ 32 -> 0 <= m < 2 ^ 32 -> be32 n = be32 m -> n = m.
Proof.
  intros Hn Hm. unfold be32. rewrite !wrap_u_id by done. rewrite !bytes_str_cons.
  assert (Hland : forall x, Z.land x 255 = x mod 256) by (intros x; exact (Z.land_ones x 8 ltac:(lia))).
  rewrite !Hland, !Z.shiftr_div_pow2 by lia.
  intros H. injection H as H1 H2 H3 H4.
  apply (f_equal byte_of) in H1, H2, H3, H4.
  rewrite !byte_of_of in H1, H2, H3, H4 by euclid.
  change (2 ^ 24) with 16777216 in *. change (2 ^ 16) with 65536 in *. change (2 ^ 8) with 256 in *.
  euclid.
Qed.

Definition short (s : string) : Prop := str_len s < 2 ^ 32.

Lemma write_attr_bytes_inj v v' r r' :
  short v -> short v' -> write_attr_bytes v +:+ r = write_attr_bytes v' +:+ r' -> v = v' /\ r = r'.
Proof.
  unfold short, str_len, write_attr_bytes. intros Hv Hv' H. rewrite !str_app_assoc in H.
  apply str_app_inj_length in H as [Hlen H]; [|done].
  apply be32_inj in Hlen; [|unfold str_len; lia..]. unfold str_len in Hlen.
  apply str_app_inj_length in H; [done|lia].
Qed.

Section Digest.
Context `{Env}.

(** What a digest is meant to identify in an attribute: its name, its data
    type, and its transport kind with the bytes it carries. *)
Definition attr_view (p : string * MessageAttributeValue) : string * string * (bool * string) :=
  (p.1, data_type p.2,
   if starts_with "binary" (to_ascii_lowercase (data_type p.2))
   then (true, decode_binary_attribute (binary_value p.2))
   else (false, string_value p.2)).
Definition attr_short (p : string * MessageAttributeValue) : Prop :=
  short p.1 /\ short (data_type p.2) /\ short (attr_view p).2.2.

Lemma encode_attr_inj p p' r r' :
  attr_short p -> attr_short p' ->
  encode_attr p.1 p.2 +:+ r = encode_attr p'.1 p'.2 +:+ r' -> attr_view p = attr_view p' /\ r = r'.
Proof.
  destruct p as [n a], p' as [n' a']. unfold attr_short, attr_view, encode_attr, write_attr_string.
  simpl. intros (Hn & Ht & Hv) (Hn' & Ht' & Hv') Heq. rewrite !str_app_assoc in Heq.
  apply write_attr_bytes_inj in Heq as [-> Heq]; [|done..].
  apply write_attr_bytes_inj in Heq as [Htype Heq]; [|done..]. rewrite <- Htype in *.
  destruct (starts_with "binary" _); rewrite !str_app_assoc in Heq; simpl in *;
    apply str_app_inj_l in Heq; apply write_attr_bytes_inj in Heq as [-> ->]; done.
Qed.

Lemma attrs_payload_inj l l' :
  Forall attr_short l -> Forall attr_short l' ->
  attrs_payload l = attrs_payload l' -> attr_view <$> l = attr_view <$> l'.
Proof.
  intros Hl. revert l'. induction Hl as [|p l Hp Hl IH]; intros l' Hl' Heq; destruct Hl' as [|p' l' Hp' Hl'].
  - done.
  - by unfold attrs_payload, encode_attr in Heq.
  - by unfold attrs_payload, encode_attr in Heq.
  - cbn [attrs_payload foldr] in Heq. apply encode_attr_inj in Heq as [Hv Heq]; [|done..].
    cbn. f_equal; [done|]. by apply IH.
Qed.
End Digest.

(** The buffer hashed into [MD5OfMessageAttributes] is unambiguous: two
    attribute maps with the same payload hold, in key order, the same names, data
    types and transported bytes (below 4 GiB each), so no two different sets of
    attributes are digested alike by construction of the buffer. *)
Theorem md5_payload_unambiguous `{Env} (a b : gmap string MessageAttributeValue) :
  Forall attr_short (btree_iter a) -> Forall attr_short (btree_iter b) ->
  attrs_payload (btree_iter a) = attrs_payload (btree_iter b) ->
  attr_view <$> btree_iter a = attr_view <$> btree_iter b.
Proof. apply attrs_payload_inj. Qed.

(** [valid_queue_name] accepts exactly the names of the pattern
    [^[A-Za-z0-9_-]{1,80}(\.fifo)?$], whatever the UTF-8 input. *)
Theorem valid_queue_name_pattern name :
  valid_queue_name name = true <-> queue_name_pattern name.
Proof. apply valid_name_iff. Qed.

(** Queue policies of the SQS service: [services/sqs/src/policy.rs] and the policy
    readers of [server.rs], [messages.rs] and [move_tasks.rs]. *)

(** ** [f64] as [maxReceiveCount] uses it *)

(** [f == f.trunc()]; a NaN equals nothing. *)
Definition f64_is_integral (f : spec_float) : bool :=
  match f with
  | S754_nan => false
  | S754_zero _ | S754_infinity _ => true
  | S754_finite _ m e => (0 <=? e) || (Z.pos m mod 2 ^ (- e) =? 0)
  end.

(** [f as i64]: truncation, saturating at the ends of the type, 0 for a NaN. *)
Definition f64_as_i64 (f : spec_float) : Z :=
  let clamp z := Z.max i64_min (Z.min i64_max z) in
  match f with
  | S754_nan | S754_zero _ => 0
  | S754_infinity s => if s then i64_min else i64_max
  | S754_finite s m e =>
      let a := if 0 <=? e then Z.pos m * 2 ^ e else Z.pos m / 2 ^ (- e) in
      clamp (if s then - a else a)
  end.

Section Policy.
Context `{Env}.

(** [Value::get], [Value::as_str], [Value::as_array] *)
Fixpoint assoc {A} (k : string) (l : list (string * A)) : option A :=
  match l with
  | [] => None
  | (k', v) :: l' => if str_eqb k k' then Some v else assoc k l'
  end.
Definition json_get (v : json json_number) (k : string) : option (json json_number) :=
  match v with JObject fields => assoc k fields | _ => None end.
Definition json_as_str (v : json json_number) : option string :=
  match v with JString s => Some s | _ => None end.
Definition json_as_array (v : json json_number) : option (list (json json_number)) :=
  match v with JArray l => Some l | _ => None end.

Definition parse_redrive_policy (raw : string) : outcome RedrivePolicy :=
  values ← ok_or "RedrivePolicy must be valid JSON" (json_from_str raw);
  let arn := default "" (json_get values "deadLetterTargetArn" ≫= json_as_str) in
  count ← match json_get values "maxReceiveCount" with
          | Some (JString s) =>
              ok_or "RedrivePolicy maxReceiveCount must be an integer" (parse_i64 s)
          | Some (JNumber n) =>
              let f := default S754_nan (number_as_f64 n) in
              if negb (f64_is_integral f)
              then Err "RedrivePolicy maxReceiveCount must be an integer"
              else Ok (f64_as_i64 f)
          | _ => Ok 0
          end;
  if is_empty arn then Err "RedrivePolicy deadLetterTargetArn is required"
  else Ok (mkRedrive arn count).

Fixpoint queue_arns (arns : list (json json_number)) : outcome (list string) :=
  match arns with
  | [] => Ok []
  | raw_arn :: arns' =>
      match json_as_str raw_arn with
      | Some arn =>
          if is_empty arn then Err "RedriveAllowPolicy sourceQueueArns must contain queue ARNs"
          else rest ← queue_arns arns'; Ok (arn :: rest)
      | None => Err "RedriveAllowPolicy sourceQueueArns must contain queue ARNs"
      end
  end.

Definition parse_redrive_allow_policy (raw : string) : outcome RedriveAllowPolicy :=
  values ← ok_or "RedriveAllowPolicy must be valid JSON" (json_from_str raw);
  let permission := match json_get values "redrivePermission" ≫= json_as_str with
                    | Some p => if is_empty p then "allowAll" else p
                    | None => "allowAll"
                    end in
  if str_eqb permission "allowAll" || str_eqb permission "denyAll" then
    Ok (mkRedriveAllow permission [])
  else if str_eqb permission "byQueue" then
    match json_get values "sourceQueueArns" ≫= json_as_array with
    | None | Some [] => Err "RedriveAllowPolicy sourceQueueArns is required for byQueue"
    | Some arns =>
        if 10 <? Z.of_nat (length arns) then
          Err "RedriveAllowPolicy sourceQueueArns must contain no more than 10 queues"
        else l ← queue_arns arns; Ok (mkRedriveAllow permission l)
    end
  else Err "RedriveAllowPolicy redrivePermission must be allowAll, denyAll, or byQueue".

Fixpoint normalized_permission_actions (actions : list string) : list string :=
  match actions with
  | [] => []
  | action :: rest =>
      if is_empty action then normalized_permission_actions rest
      else (if str_eqb action "*" || contains ":" action then action else "SQS:" +:+ action)
           :: normalized_permission_actions rest
  end.

(** [redrive_policy_from_queue]: the policy only if valid. *)
Definition redrive_policy_from_queue (queue : QueueState) : option RedrivePolicy :=
  raw ← q_attributes queue !! "RedrivePolicy";
  if is_empty raw then None
  else
    policy ← ok_opt (parse_redrive_policy raw);
    if (max_receive_count policy <? 1) || is_empty (dead_letter_target_arn policy) then None
    else Some policy.

(** [move_tasks.rs] has its own copy of it. *)
Definition redrive_policy_or_none (queue : QueueState) : option RedrivePolicy :=
  raw ← q_attributes queue !! "RedrivePolicy";
  if is_empty raw then None
  else
    policy ← ok_opt (parse_redrive_policy raw);
    if (max_receive_count policy <? 1) || is_empty (dead_letter_target_arn policy) then None
    else Some policy.

Definition validate_redrive_allow_policy (dlq : QueueState) (source_arn : string) : outcome unit :=
  let raw := default "" (q_attributes dlq !! "RedriveAllowPolicy") in
  if is_empty raw then Ok tt
  else
    policy ← parse_redrive_allow_policy raw;
    if str_eqb (permission policy) "allowAll" then Ok tt
    else if str_eqb (permission policy) "denyAll" then
      Err "RedriveAllowPolicy does not allow this dead-letter queue"
    else if str_eqb (permission policy) "byQueue" then
      (if existsb (fun a => str_eqb a source_arn) (source_queue_arns policy) then Ok tt
       else Err "RedriveAllowPolicy does not allow this source queue")
    else Err "RedriveAllowPolicy redrivePermission must be allowAll, denyAll, or byQueue".

Definition queue_policy_from_attribute (queue : QueueState) : outcome QueuePolicy :=
  let raw := default "" (trim <$> q_attributes queue !! "Policy") in
  let default_id := q_arn queue +:+ "/SQSDefaultPolicy" in
  if is_empty raw then Ok (mkPolicy "2012-10-17" default_id [])
  else
    policy ← ok_or "Policy must be valid JSON" (policy_from_str raw);
    Ok (mkPolicy
          (if is_empty (policy_version policy) then "2012-10-17" else policy_version policy)
          (if is_empty (policy_id policy) then default_id else policy_id policy)
          (statement policy)).
End Policy.

(** ** Properties *)

Section PolicyLemmas.
Context `{Env}.

Lemma redrive_policy_from_queue_valid q p :
  redrive_policy_from_queue q = Some p ->
  1 <= max_receive_count p /\ dead_letter_target_arn p <> "".
Proof.
  unfold redrive_policy_from_queue. destruct (q_attributes q !! _) as [raw|]; [|done]. simpl.
  destruct (is_empty raw); [done|]. destruct (ok_opt _) as [p'|]; [|done]. simpl.
  destruct (Z.ltb_spec (max_receive_count p') 1); [done|].
  destruct (is_empty _) eqn:E; [done|]. intros [= ->]. split; [done|].
  intros E'. by rewrite E' in E.
Qed.

Lemma parse_redrive_policy_arn raw p :
  parse_redrive_policy raw = Ok p -> dead_letter_target_arn p <> "".
Proof.
  unfold parse_redrive_policy. destruct (ok_or _ _) as [v| |]; [|done..]. simpl.
  destruct (match json_get v "maxReceiveCount" with Some _ => _ | _ => _ end) as [c| |];
    [|done..]. simpl. destruct (is_empty _) eqn:E; [done|].
  intros [= <-]. simpl. intros E'. by rewrite E' in E.
Qed.

Lemma normalized_action_ok l a :
  a ∈ normalized_permission_actions l -> a = "*" \/ contains ":" a = true.
Proof.
  induction l as [|x l IH]; simpl; [by intros ?%elem_of_nil|].
  destruct (is_empty x); [done|]. intros [->|Ha]%elem_of_cons; [|auto].
  destruct (str_eqb x "*") eqn:E; [left; by apply str_eqb_true|].
  destruct (contains ":" x) eqn:E'; simpl; [by right|]. right. reflexivity.
Qed.
End PolicyLemmas.
