(* ===== verification/SqsServer.v ===== *)
(** The SQS server's queue management: [services/sqs/src/server.rs].  Each public
    method is a computation in [M World]; a method's early returns, its
    snapshot, its single [persist] call and its rollback are kept. *)

From S2P Require Import Prelude RustStr RustNum SqsTime SqsModel SqsValidation.
Local Open Scope Z_scope.

Definition MAX_DELAY_SECONDS : Z := 900.
Definition MAX_VISIBILITY_TIMEOUT_SECONDS : Z := 43200.

(** ** Configuration getters *)

Definition default_str (value fallback : string) : string :=
  if is_empty value then fallback else value.

Definition max_queues (c : Config) : Z :=
  if cfg_max_queues c <=? 0 then 256 else cfg_max_queues c.
Definition max_message_bytes (c : Config) : Z :=
  if cfg_max_message_bytes c <=? 0 then 1024 * 1024 else cfg_max_message_bytes c.
Definition max_receive_batch_size (c : Config) : Z :=
  let v := cfg_max_receive_batch_size c in
  if (v <=? 0) || (10 <? v) then 10 else v.
Definition default_visibility_timeout_seconds (c : Config) : Z :=
  if cfg_default_visibility_timeout_seconds c <=? 0 then 30
  else cfg_default_visibility_timeout_seconds c.
Definition default_delay_seconds (c : Config) : Z :=
  if cfg_default_delay_seconds c <? 0 then 0 else cfg_default_delay_seconds c.
Definition default_message_retention_seconds (c : Config) : Z :=
  if cfg_default_message_retention_seconds c <=? 0 then 345600
  else cfg_default_message_retention_seconds c.
Definition default_receive_wait_time_seconds (c : Config) : Z :=
  Z.max 0 (Z.min 20 (cfg_default_receive_wait_time_seconds c)).

(** ** URLs and ARNs *)

Definition queue_url (c : Config) (name : string) : string :=
  let host := default_str (queue_url_host c) "127.0.0.1" in
  let host := if contains ":" host then host
              else match split_once ":" (addr c) with
                   | Some (_, port) => if is_empty port then host else host +:+ ":" +:+ port
                   | None => host
                   end in
  let account := default_str (account_id c) "000000000000" in
  "http://" +:+ host +:+ "/" +:+ account +:+ "/" +:+ name.

Definition queue_arn (c : Config) (name : string) : string :=
  "arn:aws:sqs:" +:+ default_str (region c) "us-east-1" +:+ ":"
  +:+ default_str (account_id c) "000000000000" +:+ ":" +:+ name.

Definition queue_name_from_url (url : string) : string :=
  let after_scheme := match split_once "://" url with Some (_, r) => r | None => url end in
  let after_scheme :=
    default after_scheme
      (head (split_by (fun c => Ascii.eqb c "?" || Ascii.eqb c "#") after_scheme)) in
  let path := if contains "://" url
              then match split_once "/" after_scheme with
                   | Some (_, r) => "/" +:+ r
                   | None => ""
                   end
              else after_scheme in
  let trimmed := trim_by (Ascii.eqb "/") path in
  if is_empty trimmed then ""
  else
    let parts := split_char "/" trimmed in
    if Z.of_nat (length parts) <? 2 then "" else default "" (last parts).

Definition default_queue_attributes (c : Config) : gmap string string :=
  <["VisibilityTimeout" := show_Z (default_visibility_timeout_seconds c)]>
  (<["ReceiveMessageWaitTimeSeconds" := show_Z (default_receive_wait_time_seconds c)]>
  (<["MessageRetentionPeriod" := show_Z (default_message_retention_seconds c)]>
  (<["MaximumMessageSize" := show_Z (max_message_bytes c)]>
  (<["DelaySeconds" := show_Z (default_delay_seconds c)]> ∅)))).

(** ** Attribute tables *)

Definition QUEUE_ATTRIBUTE_NAMES : list string :=
  ["ApproximateNumberOfMessages"; "ApproximateNumberOfMessagesDelayed";
   "ApproximateNumberOfMessagesNotVisible"; "ContentBasedDeduplication"; "CreatedTimestamp";
   "DeduplicationScope"; "DelaySeconds"; "FifoQueue"; "FifoThroughputLimit";
   "KmsDataKeyReusePeriodSeconds"; "KmsMasterKeyId"; "LastModifiedTimestamp";
   "MaximumMessageSize"; "MessageRetentionPeriod"; "Policy"; "QueueArn";
   "ReceiveMessageWaitTimeSeconds"; "RedriveAllowPolicy"; "RedrivePolicy";
   "SqsManagedSseEnabled"; "VisibilityTimeout"].

Definition is_readable_queue_attribute (name : string) : bool :=
  str_eqb name "All" || existsb (str_eqb name) QUEUE_ATTRIBUTE_NAMES.

Definition is_settable_queue_attribute (name : string) : bool :=
  if starts_with "ApproximateNumberOfMessages" name || str_eqb name "QueueArn"
     || str_eqb name "CreatedTimestamp" || str_eqb name "LastModifiedTimestamp"
  then false else existsb (str_eqb name) QUEUE_ATTRIBUTE_NAMES.

Definition quoted (s : string) : string := String dquote (s +:+ char_str dquote).

Definition attribute_bounds : list (string * Z * Z) :=
  [("DelaySeconds", 0, MAX_DELAY_SECONDS); ("MaximumMessageSize", 1024, 1048576);
   ("MessageRetentionPeriod", 60, 1209600); ("ReceiveMessageWaitTimeSeconds", 0, 20);
   ("VisibilityTimeout", 0, MAX_VISIBILITY_TIMEOUT_SECONDS);
   ("KmsDataKeyReusePeriodSeconds", 60, 86400)].
Definition boolean_attributes : list string :=
  ["ContentBasedDeduplication"; "FifoQueue"; "SqsManagedSseEnabled"].

Definition check_bound (attrs : gmap string string) (b : string * Z * Z) : outcome unit :=
  let '(name, min, max) := b in
  match attrs !! name with
  | None => Ok tt
  | Some value =>
      let err := "invalid attribute value for " +:+ name in
      match parse_i64 value with
      | Some parsed =>
          if parsed <? 0 then Err err
          else if (parsed <? min) || (max <? parsed) then Err err else Ok tt
      | None => Err err
      end
  end.
Definition check_boolean (attrs : gmap string string) (name : string) : outcome unit :=
  match attrs !! name with
  | None => Ok tt
  | Some value =>
      if negb (eq_ignore_ascii_case value "true") && negb (eq_ignore_ascii_case value "false")
      then Err ("invalid attribute value for " +:+ name) else Ok tt
  end.
Definition validate_queue_attribute_values (attrs : gmap string string) : outcome unit :=
  try_each (check_bound attrs) attribute_bounds;;
  try_each (check_boolean attrs) boolean_attributes.

Definition is_fifo_queue (queue : QueueState) : bool :=
  match q_attributes queue !! "FifoQueue" with
  | Some v => eq_ignore_ascii_case v "true"
  | None => false
  end || ends_with ".fifo" (q_name queue).

Definition queue_last_modified_at (queue : QueueState) : string :=
  if is_empty (modified_at queue) || str_eqb (modified_at queue) ZERO_TIME
  then created_at queue else modified_at queue.

Definition queue_attributes_with_computed (queue : QueueState) : gmap string string :=
  <["ApproximateNumberOfMessagesDelayed" := "0"]>
  (<["ApproximateNumberOfMessagesNotVisible" := "0"]>
  (<["ApproximateNumberOfMessages" := "0"]>
  (<["LastModifiedTimestamp" := show_Z (unix_from_rfc3339 (queue_last_modified_at queue))]>
  (<["CreatedTimestamp" := show_Z (unix_from_rfc3339 (created_at queue))]>
  (<["QueueArn" := q_arn queue]> (q_attributes queue)))))).

Fixpoint filter_names (attrs : gmap string string) (names : list string)
    (filtered : gmap string string) : outcome (gmap string string) :=
  match names with
  | [] => Ok filtered
  | name :: names' =>
      if negb (is_readable_queue_attribute name)
      then Err ("unknown queue attribute name " +:+ quoted name)
      else filter_names attrs names'
             (match attrs !! name with Some v => <[name := v]> filtered | None => filtered end)
  end.
Definition filter_queue_attributes (attrs : gmap string string) (names : list string)
    : outcome (gmap string string) :=
  if bool_decide (names = []) || existsb (fun n => str_eqb n "All") names then Ok attrs
  else filter_names attrs names ∅.

Fixpoint upsert_statement (s : QueuePolicyStatement) (l : list QueuePolicyStatement)
    : list QueuePolicyStatement :=
  match l with
  | [] => [s]
  | t :: l' => if str_eqb (sid t) (sid s) then s :: l' else t :: upsert_statement s l'
  end.

Section Server.
Context `{Env}.

(** ** Persistence *)

Definition persisted_ref (s : Server) : PersistedState :=
  mkPersisted ((fun q => set_modified_at (queue_last_modified_at q) q) <$> queues s)
    (move_tasks s).

Definition to_json_bytes (p : PersistedState) : string := state_to_vec p +:+ char_str lf.

Definition persist : M World unit :=
  s ← gets server;
  if is_empty (trim (storage_path (config s))) then mret tt
  else
    fs_call fs_create_dir_all;;
    let data := to_json_bytes (persisted_ref s) in
    fs_call fs_write;;
    fs_call fs_rename;;
    modify (set_disk (Some data)).

(** [if let Err(e) = self.persist() { rollback; return Err(e) }] *)
Definition persist_or (rollback : World -> World) : M World unit :=
  r ← catch persist;
  match r with
  | inl _ => mret tt
  | inr e => modify rollback;; fail e
  end.

Definition restore_queue (name : string) (q : QueueState) (w : World) : World :=
  set_queues (<[name := q]> (w_queues w)) w.

Definition load_task (tasks : gmap string MoveTaskState) (p : string * MoveTaskState)
    : gmap string MoveTaskState :=
  let '(handle, task) := p in
  let key := if is_empty handle then task_handle task else handle in
  if is_empty key then tasks
  else
    let task := if is_empty (task_handle task)
                then mkTask key (source_arn task) (destination_arn task) (task_status task)
                       (started_at task) (approximate_number_of_messages_moved task)
                else task in
    <[key := task]> tasks.

Definition load_queue (c : Config) (now : string) (qs : gmap string QueueState)
    (p : string * QueueState) : gmap string QueueState :=
  let '(name, pq) := p in
  let key := if is_empty name then q_name pq else name in
  if is_empty key then qs
  else
    let created := if is_empty (created_at pq) || str_eqb (created_at pq) ZERO_TIME
                   then now else created_at pq in
    let modified := if is_empty (modified_at pq) || str_eqb (modified_at pq) ZERO_TIME
                    then created else modified_at pq in
    <[key := mkQueue key
               (if is_empty (q_url pq) then queue_url c key else q_url pq)
               (if is_empty (q_arn pq) then queue_arn c key else q_arn pq)
               (if bool_decide (q_attributes pq = ∅) then default_queue_attributes c
                else q_attributes pq)
               (q_tags pq) created modified (messages pq) (sequence pq) (dedup pq)]> qs.

Definition load : M World unit :=
  t ← next_tick;
  match fs_read t with
  | Some e => fail e
  | None =>
      disk ← gets w_disk;
      match disk with
      | None => mret tt
      | Some data =>
          persisted ← lift (of_result (state_from_slice data));
          modify (fun w => set_move_tasks
            (foldl load_task (move_tasks (server w)) (btree_iter (p_move_tasks persisted))) w);;
          now ← now_rfc3339;
          modify (fun w => set_queues
            (foldl (load_queue (config (server w)) now) (w_queues w)
               (btree_iter (p_queues persisted))) w)
      end
  end.

(** [Server::new]: the world's server becomes the new one. *)
Definition new (c : Config) : M World unit :=
  modify (set_server (mkServer c ∅ ∅ None));;
  if is_empty (trim (storage_path c)) then mret tt
  else
    r ← catch load;
    match r with
    | inl _ => mret tt
    | inr e => modify (fun w =>
        let s := server w in set_server (mkServer (config s) (queues s) (move_tasks s) (Some e)) w)
    end.

(** ** Queue lifecycle *)

Definition validate_queue_attributes (qs : gmap string QueueState) (queue : QueueState)
    (attrs : gmap string string) : outcome unit :=
  try_each (fun p : string * string =>
    if is_settable_queue_attribute p.1 then Ok tt
    else Err ("unknown queue attribute name " +:+ quoted p.1)) (btree_iter attrs);;
  validate_queue_attribute_values attrs;;
  match attrs !! "RedriveAllowPolicy" with
  | Some allow => if is_empty allow then Ok tt
                  else _ ← parse_redrive_allow_policy allow; Ok tt
  | None => Ok tt
  end;;
  let policy_raw := default "" (attrs !! "RedrivePolicy") in
  if is_empty policy_raw then Ok tt
  else
    policy ← parse_redrive_policy policy_raw;
    if max_receive_count policy <? 1 then
      Err "RedrivePolicy maxReceiveCount must be greater than zero"
    else
      match btree_find (fun q => str_eqb (q_arn q) (dead_letter_target_arn policy)) qs with
      | None => Err "RedrivePolicy deadLetterTargetArn queue does not exist"
      | Some (_, dlq) =>
          if negb (Bool.eqb (is_fifo_queue queue) (is_fifo_queue dlq)) then
            Err "RedrivePolicy source queue and dead-letter queue must use the same queue type"
          else validate_redrive_allow_policy dlq (q_arn queue)
      end.

Definition create_queue (name : string) (attrs tags : gmap string string) : M World QueueState :=
  guard_err (is_empty name) "QueueName is required";;
  guard_err (negb (valid_queue_name name)) "QueueName must contain only alphanumeric characters, hyphens, underscores, and optional .fifo suffix";;
  s ← gets server;
  let c := config s in
  let normalized := attrs ∪ default_queue_attributes c in
  let is_fifo_name := ends_with ".fifo" name in
  let fifo_attr := bool_decide (normalized !! "FifoQueue" = Some "true") in
  guard_err (fifo_attr && negb is_fifo_name) "FIFO queues must use a .fifo suffix";;
  guard_err (is_fifo_name && negb fifo_attr)
    "queues with .fifo suffix must set FifoQueue to true";;
  match queues s !! name with
  | Some existing =>
      guard_err (negb (bool_decide (q_attributes existing = normalized)))
        "queue name exists with different attributes";;
      mret existing
  | None =>
      let max := max_queues c in
      guard_err ((0 <? max) && (max <=? Z.of_nat (size (queues s)))) "queue limit exceeded";;
      now ← now_rfc3339;
      let queue := mkQueue name (queue_url c name) (queue_arn c name) normalized tags now now
                     [] 0 ∅ in
      lift (validate_queue_attributes (queues s) queue attrs);;
      put_queue name queue;;
      persist_or (fun w => set_queues (delete name (w_queues w)) w);;
      queue_unwrap name
  end.

Definition list_queue_urls (s : Server) (prefix : string) : list string :=
  (fun p : string * QueueState => q_url p.2) <$>
    base.filter (fun p : string * QueueState =>
                   is_empty prefix || starts_with prefix p.1 = true) (btree_iter (queues s)).

Definition queue_by_name (s : Server) (name : string) : option QueueState := queues s !! name.

Definition queue_identity (s : Server) (name : string) : option QueueIdentity :=
  (fun q => mkIdentity (q_arn q) (created_at q)) <$> queues s !! name.

Definition queue_by_url (s : Server) (url : string) : option QueueState :=
  let name := queue_name_from_url url in
  if is_empty name then None else queue_by_name s name.

Definition delete_queue (url : string) : M World bool :=
  let name := queue_name_from_url url in
  if is_empty name then mret false
  else
    s ← gets server;
    match queues s !! name with
    | None => mret false
    | Some queue =>
        modify (fun w => set_queues (delete name (w_queues w)) w);;
        r ← catch persist;
        match r with
        | inr _ => put_queue name queue;; mret false
        | inl _ => mret true
        end
    end.

(** [name.is_empty() || !self.queues.contains_key(&name)] *)
Definition require_queue (name : string) : M World QueueState :=
  s ← gets server;
  if is_empty name then fail "queue does not exist"
  else match queues s !! name with
       | None => fail "queue does not exist"
       | Some q => mret q
       end.

(** [if let Some(q) = self.queues.get_mut(&name) { f(q) }] *)
Definition alter_queue (name : string) (f : QueueState -> QueueState) (w : World) : World :=
  set_queues (alter f name (w_queues w)) w.

Definition purge_queue (url : string) : M World unit :=
  let name := queue_name_from_url url in
  q ← require_queue name;
  put_queue name (set_messages [] q);;
  persist_or (alter_queue name (set_messages (messages q))).

(** ** Attributes *)

Definition get_queue_attributes (url : string) (names : list string)
    : M World (gmap string string) :=
  queue ← require_queue (queue_name_from_url url);
  lift (filter_queue_attributes (queue_attributes_with_computed queue) names).

Definition update_queue_attributes (url : string) (attrs : gmap string string)
    : M World QueueState :=
  let name := queue_name_from_url url in
  previous_queue ← require_queue name;
  s ← gets server;
  lift (validate_queue_attributes (queues s) previous_queue attrs);;
  now ← now_rfc3339;
  put_queue name
    (set_modified_at now
       (set_attributes (attrs ∪ q_attributes previous_queue) previous_queue));;
  persist_or (restore_queue name previous_queue);;
  queue_unwrap name.

(** ** Tags *)

Definition tag_queue (url : string) (tags : gmap string string) : M World unit :=
  guard_err (is_empty url) "QueueUrl is required";;
  guard_err (bool_decide (tags = ∅)) "Tags is required";;
  let name := queue_name_from_url url in
  q ← require_queue name;
  guard_err (bool_decide (is_Some (tags !! ""))) "tag key is required";;
  put_queue name (set_tags (tags ∪ q_tags q) q);;
  persist_or (alter_queue name (set_tags (q_tags q))).

Definition untag_queue (url : string) (tag_keys : list string) : M World unit :=
  guard_err (is_empty url) "QueueUrl is required";;
  guard_err (bool_decide (tag_keys = [])) "TagKeys is required";;
  let name := queue_name_from_url url in
  q ← require_queue name;
  put_queue name (set_tags (foldl (fun m k => delete k m) (q_tags q) tag_keys) q);;
  persist_or (alter_queue name (set_tags (q_tags q))).

Definition list_queue_tags (s : Server) (url : string) : outcome (gmap string string) :=
  if is_empty url then Err "QueueUrl is required"
  else
    let name := queue_name_from_url url in
    if is_empty name then Err "queue does not exist"
    else match queues s !! name with
         | None => Err "queue does not exist"
         | Some q => Ok (q_tags q)
         end.

(** ** Permissions *)

Definition add_permission (url label : string) (account_ids actions : list string)
    : M World unit :=
  guard_err (is_empty url) "QueueUrl is required";;
  guard_err (is_empty label) "Label is required";;
  guard_err (bool_decide (account_ids = [])) "AWSAccountIds is required";;
  guard_err (bool_decide (actions = [])) "Actions is required";;
  let name := queue_name_from_url url in
  queue ← require_queue name;
  policy ← lift (queue_policy_from_attribute queue);
  let stmt := mkStatement label "Allow" account_ids (normalized_permission_actions actions)
                (q_arn queue) in
  encoded ← lift (of_result $ policy_to_string
    (mkPolicy (policy_version policy) (policy_id policy)
       (upsert_statement stmt (statement policy))));
  put_queue name (set_attributes (<["Policy" := encoded]> (q_attributes queue)) queue);;
  persist_or (restore_queue name queue).

Definition remove_permission (url label : string) : M World unit :=
  guard_err (is_empty url) "QueueUrl is required";;
  guard_err (is_empty label) "Label is required";;
  let name := queue_name_from_url url in
  queue ← require_queue name;
  policy ← lift (queue_policy_from_attribute queue);
  let kept := base.filter (fun s => str_eqb (sid s) label = false) (statement policy) in
  if Nat.eqb (length kept) 0 then
    put_queue name (set_attributes (delete "Policy" (q_attributes queue)) queue);;
    persist_or (restore_queue name queue)
  else
    encoded ← lift (of_result $ policy_to_string (mkPolicy (policy_version policy) (policy_id policy) kept));
    put_queue name (set_attributes (<["Policy" := encoded]> (q_attributes queue)) queue);;
    persist_or (restore_queue name queue).
End Server.

(** ** Persistence: lemmas *)

Section PersistLemmas.
Context `{Env}.

(** The state file holds the server's state. *)
Definition synced (w : World) : Prop :=
  w_disk w = Some (to_json_bytes (persisted_ref (server w))).
Definition storage_off (c : Config) : bool := is_empty (trim (storage_path c)).
Definition saved (w : World) : Prop := storage_off (config (server w)) = true \/ synced w.

Lemma wp_fs_call r (Q : outcome unit -> World -> Prop) w :
  (r (w_tick w) = None -> Q (Ok tt) (set_tick (S (w_tick w)) w)) ->
  (forall e, r (w_tick w) = Some e -> Q (Err e) (set_tick (S (w_tick w)) w)) ->
  wp (fs_call r) Q w.
Proof.
  intros Hok Herr. unfold fs_call. apply wp_bind. unfold next_tick, wp. simpl.
  destruct (r (w_tick w)) eqn:E; unfold wp; simpl; auto.
Qed.

(** [persist] never changes the server, and writes the file unless it fails. *)
Lemma wp_persist (Q : outcome unit -> World -> Prop) w :
  (forall w', server w' = server w -> saved w' ->
              (storage_off (config (server w)) = true -> w' = w) -> Q (Ok tt) w') ->
  (forall e w', server w' = server w -> w_disk w' = w_disk w -> Q (Err e) w') ->
  wp persist Q w.
Proof.
  intros Hok Herr. unfold persist. wp_steps.
  fold (storage_off (config (server w))).
  destruct (storage_off (config (server w))) eqn:E.
  - apply wp_ret. apply Hok; [done|by left|done].
  - repeat (wp_step; apply wp_fs_call; [intros _|intros e _; by apply Herr]; simpl).
    apply wp_modify. apply Hok; simpl; [done| |congruence].
    right. unfold synced. simpl. reflexivity.
Qed.

Lemma wp_persist_or rollback (Q : outcome unit -> World -> Prop) w :
  (forall w', server w' = server w -> saved w' -> Q (Ok tt) w') ->
  (forall e w', server w' = server w -> w_disk w' = w_disk w -> Q (Err e) (rollback w')) ->
  wp (persist_or rollback) Q w.
Proof.
  intros Hok Herr. unfold persist_or. apply wp_bind, wp_catch, wp_persist; simpl.
  - intros w' Hs Hsaved _. apply wp_ret; auto.
  - intros e w' Hs Hd. wp_steps. auto.
Qed.

Lemma wp_require_queue name (Q : outcome QueueState -> World -> Prop) w :
  (forall q, w_queues w !! name = Some q -> name <> "" -> Q (Ok q) w) ->
  Q (Err "queue does not exist") w -> wp (require_queue name) Q w.
Proof.
  intros Hok Herr. unfold require_queue. wp_steps. destruct (is_empty name) eqn:E; [done|].
  fold (w_queues w). destruct (w_queues w !! name) eqn:Eq; [|done].
  apply wp_ret. apply Hok; [done|]. intros ->. done.
Qed.

Lemma wp_now (Q : outcome string -> World -> Prop) w :
  (forall now, Q (Ok now) (set_tick (S (w_tick w)) w)) -> wp now_rfc3339 Q w.
Proof.
  intros HQ. unfold now_rfc3339, unix_now, next_tick, wp, mbind, m_bind, mret, m_ret. simpl.
  destruct (sys_clock (w_tick w)) as [s n]. simpl. apply HQ.
Qed.

Lemma wp_queue_unwrap name q (Q : outcome QueueState -> World -> Prop) w :
  w_queues w !! name = Some q -> Q (Ok q) w -> wp (queue_unwrap name) Q w.
Proof. intros Hq HQ. unfold queue_unwrap. wp_steps. rewrite Hq. done. Qed.

Lemma wp_put_queue name q (Q : outcome unit -> World -> Prop) w :
  Q (Ok tt) (set_queues (<[name := q]> (w_queues w)) w) -> wp (put_queue name q) Q w.
Proof. done. Qed.

(** Updates of the queue map, and what undoes them. *)
Lemma server_set_queues_eq qs w : server (set_queues qs w) =
  mkServer (config (server w)) qs (move_tasks (server w)) (load_err (server w)).
Proof. reflexivity. Qed.

Lemma server_ext w w' :
  config (server w) = config (server w') -> queues (server w) = queues (server w') ->
  move_tasks (server w) = move_tasks (server w') -> load_err (server w) = load_err (server w') ->
  server w = server w'.
Proof. destruct w as [[]], w' as [[]]; simpl; congruence. Qed.
End PersistLemmas.

Ltac sqs_step :=
  lazymatch goal with
  | |- wp (require_queue _) _ _ => apply wp_require_queue; [intros ? ? ?|]
  | |- wp now_rfc3339 _ _ => apply wp_now; intros ?
  | |- wp (put_queue _ _) _ _ => apply wp_put_queue
  | |- wp (persist_or _) _ _ => apply wp_persist_or; [intros ? ? ?|intros ? ? ? ?]
  | |- wp (lift ?o) _ _ => apply wp_lift; destruct o eqn:?
  | |- wp (queue_unwrap _) _ _ => eapply wp_queue_unwrap; [solve [eauto with sqs]|]
  | |- wp persist _ _ => apply wp_persist; [intros ? ? ? ?|intros ? ? ? ?]
  | |- wp (match ?x with _ => _ end) _ _ => destruct x eqn:?
  | |- _ => wp_step
  end.
Ltac sqs_steps := repeat (sqs_step; simpl).

(** ** Management operations as transactions *)

Inductive mgmt_op :=
| CreateQueue (name : string) (attrs tags : gmap string string)
| DeleteQueue (url : string)
| PurgeQueue (url : string)
| UpdateQueueAttributes (url : string) (attrs : gmap string string)
| TagQueue (url : string) (tags : gmap string string)
| UntagQueue (url : string) (keys : list string)
| AddPermission (url label : string) (account_ids actions : list string)
| RemovePermission (url label : string).

Section Transactions.
Context `{Env}.

(** Runs an operation; [false] is [delete_queue]'s failure. *)
Definition run_mgmt (op : mgmt_op) : M World bool :=
  match op with
  | CreateQueue name attrs tags => create_queue name attrs tags;; mret true
  | DeleteQueue url => delete_queue url
  | PurgeQueue url => purge_queue url;; mret true
  | UpdateQueueAttributes url attrs => update_queue_attributes url attrs;; mret true
  | TagQueue url tags => tag_queue url tags;; mret true
  | UntagQueue url keys => untag_queue url keys;; mret true
  | AddPermission url label ids actions => add_permission url label ids actions;; mret true
  | RemovePermission url label => remove_permission url label;; mret true
  end.

Definition unchanged (w w' : World) : Prop := server w' = server w /\ w_disk w' = w_disk w.

Definition tx_post (w : World) (o : outcome bool) (w' : World) : Prop :=
  match o with
  | Ok true => unchanged w w' \/ saved w'
  | Ok false | Err _ => unchanged w w'
  | Panic _ => False
  end.

Lemma rollback_queues w w' qs qs' :
  server w' = server (set_queues qs w) -> qs' = w_queues w ->
  server (set_queues qs' w') = server w.
Proof. intros Hs ->. unfold set_queues. simpl. rewrite Hs. simpl. by destruct w as [[]]. Qed.

Lemma queues_of_put w w' qs : server w' = server (set_queues qs w) -> w_queues w' = qs.
Proof. intros Hs. unfold w_queues. by rewrite Hs. Qed.

(** Putting back a queue, or the field that was changed. *)
Lemma restore_queue_undo w w' name q q' :
  w_queues w !! name = Some q -> server w' = server (set_queues (<[name := q']> (w_queues w)) w) ->
  server (restore_queue name q w') = server w.
Proof.
  intros Hq Hs. unfold restore_queue. eapply rollback_queues; [done|].
  rewrite (queues_of_put _ _ _ Hs), insert_insert_eq. by apply insert_id.
Qed.

Lemma alter_queue_undo w w' name q q' f :
  server w' = server (set_queues (<[name := q']> (w_queues w)) w) ->
  w_queues w !! name = Some q -> f q' = q ->
  server (alter_queue name f w') = server w.
Proof.
  intros Hs Hq Hf. unfold alter_queue. eapply rollback_queues; [done|].
  rewrite (queues_of_put _ _ _ Hs). apply map_eq. intros k.
  destruct (decide (name = k)) as [->|Hne].
  - by rewrite lookup_alter_eq, lookup_insert_eq, Hq; simpl; rewrite Hf.
  - by rewrite lookup_alter_ne, lookup_insert_ne.
Qed.

Lemma lookup_of_put w w' name q qs :
  server w' = server (set_queues (<[name := q]> qs) w) -> w_queues w' !! name = Some q.
Proof. intros Hs. rewrite (queues_of_put _ _ _ Hs). apply lookup_insert_eq. Qed.

Lemma set_field_back q :
  (forall t, set_tags (q_tags q) (set_tags t q) = q) /\
  (forall t, set_messages (messages q) (set_messages t q) = q).
Proof. by destruct q. Qed.

Lemma delete_undo w w' name q :
  w_queues w !! name = None -> server w' = server (set_queues (<[name := q]> (w_queues w)) w) ->
  server (set_queues (delete name (w_queues w')) w') = server w.
Proof.
  intros Hq Hs. eapply rollback_queues; [done|].
  rewrite (queues_of_put _ _ _ Hs). by apply delete_insert_id.
Qed.

Lemma insert_undo w w' name q :
  w_queues w !! name = Some q -> server w' = server (set_queues (delete name (w_queues w)) w) ->
  server (set_queues (<[name := q]> (w_queues w')) w') = server w.
Proof.
  intros Hq Hs. eapply rollback_queues; [done|].
  rewrite (queues_of_put _ _ _ Hs), insert_delete_eq. by apply insert_id.
Qed.
End Transactions.

Create HintDb sqs discriminated.
#[export] Hint Resolve restore_queue_undo alter_queue_undo delete_undo insert_undo lookup_of_put : sqs.
#[export] Hint Extern 1 (set_tags _ (set_tags _ _) = _) => apply set_field_back : sqs.
#[export] Hint Extern 1 (set_messages _ (set_messages _ _) = _) => apply set_field_back : sqs.

Section TransactionProofs.
Context `{Env}.

Lemma no_panic_redrive raw : no_panic (parse_redrive_policy raw).
Proof. unfold parse_redrive_policy. solve_no_panic. Qed.
Lemma no_panic_queue_arns l : no_panic (queue_arns l).
Proof. induction l; simpl; solve_no_panic. Qed.
Hint Resolve no_panic_redrive no_panic_queue_arns : no_panic.
Lemma no_panic_redrive_allow raw : no_panic (parse_redrive_allow_policy raw).
Proof. unfold parse_redrive_allow_policy. solve_no_panic. Qed.
Hint Resolve no_panic_redrive_allow : no_panic.
Lemma no_panic_validate_allow q arn : no_panic (validate_redrive_allow_policy q arn).
Proof. unfold validate_redrive_allow_policy. solve_no_panic. Qed.
Lemma no_panic_queue_policy q : no_panic (queue_policy_from_attribute q).
Proof. unfold queue_policy_from_attribute. solve_no_panic. Qed.
Lemma no_panic_attribute_values attrs : no_panic (validate_queue_attribute_values attrs).
Proof.
  unfold validate_queue_attribute_values.
  apply no_panic_bind; intros; apply no_panic_try_each; intros [[]] || intros ?;
    unfold check_bound, check_boolean; solve_no_panic.
Qed.
Hint Resolve no_panic_validate_allow no_panic_attribute_values no_panic_queue_policy : no_panic.
Lemma no_panic_validate qs q attrs : no_panic (validate_queue_attributes qs q attrs).
Proof.
  unfold validate_queue_attributes. apply no_panic_bind.
  - apply no_panic_try_each. intros p. by destruct (is_settable_queue_attribute p.1).
  - solve_no_panic.
Qed.
Hint Resolve no_panic_validate : no_panic.

(** The clock reading before an update does not show in the server. *)
Ltac norm_tick := repeat match goal with
  | H : server ?w' = server (set_queues (<[?n := ?q]> (w_queues (set_tick ?t ?w))) (set_tick ?t ?w))
    |- _ => change (server w' = server (set_queues (<[n := q]> (w_queues w)) w)) in H
  end.
Ltac tx := sqs_steps; norm_tick; first
  [ done
  | by left
  | split; [eauto with sqs | done]
  | right; done
  | exfalso; eapply no_panic_not; [|eassumption]; auto with no_panic
  | idtac ].

Lemma tx_bind {A} (m : M World A) w :
  wp m (fun o w' => match o with
                    | Ok _ => unchanged w w' \/ saved w'
                    | Err _ => unchanged w w'
                    | Panic _ => False
                    end) w ->
  wp (m;; mret true) (tx_post w) w.
Proof. intros Hm. apply wp_bind. eapply wp_mono; [done|]. by intros [a|e|p] w'. Qed.

Lemma tag_queue_tx url tags w : wp (tag_queue url tags;; mret true) (tx_post w) w.
Proof. apply tx_bind. unfold tag_queue. tx. Qed.
Lemma untag_queue_tx url keys w : wp (untag_queue url keys;; mret true) (tx_post w) w.
Proof. apply tx_bind. unfold untag_queue. tx. Qed.
Lemma purge_queue_tx url w : wp (purge_queue url;; mret true) (tx_post w) w.
Proof. apply tx_bind. unfold purge_queue. tx. Qed.

Lemma add_permission_tx url label ids actions w :
  wp (add_permission url label ids actions;; mret true) (tx_post w) w.
Proof. apply tx_bind. unfold add_permission. tx. Qed.
Lemma remove_permission_tx url label w :
  wp (remove_permission url label;; mret true) (tx_post w) w.
Proof. apply tx_bind. unfold remove_permission. tx. Qed.
Lemma update_queue_attributes_tx url attrs w :
  wp (update_queue_attributes url attrs;; mret true) (tx_post w) w.
Proof. apply tx_bind. unfold update_queue_attributes. tx. Qed.
Lemma create_queue_tx name attrs tags w : wp (create_queue name attrs tags;; mret true) (tx_post w) w.
Proof. apply tx_bind. unfold create_queue. tx. Qed.
Lemma delete_queue_tx url w : wp (delete_queue url) (tx_post w) w.
Proof. unfold delete_queue. tx. Qed.
End TransactionProofs.

(** ** Round trips *)

Section RoundTrips.
Context `{Env}.

(** What [serde_json] documents of the derived [Serialize]/[Deserialize]. *)
Definition serde_roundtrip : Prop :=
  forall p, state_from_slice (to_json_bytes p) = inl p.

Definition set_time (t : string) : Prop := t <> "" /\ t <> ZERO_TIME.
Definition loadable (p : string * QueueState) : Prop :=
  let '(k, q) := p in
  k <> "" /\ q_name q = k /\ q_url q <> "" /\ q_arn q <> "" /\ q_attributes q <> ∅
  /\ set_time (created_at q) /\ set_time (modified_at q).
Definition loadable_task (p : string * MoveTaskState) : Prop :=
  p.1 <> "" /\ task_handle p.2 = p.1.

Lemma is_empty_false s : s <> "" -> is_empty s = false.
Proof. by destruct s. Qed.
Lemma unset_time_false t : set_time t -> is_empty t || str_eqb t ZERO_TIME = false.
Proof.
  intros [He Hz]. rewrite is_empty_false by done. unfold str_eqb. by rewrite bool_decide_eq_false_2.
Qed.

Lemma load_queue_loadable c now qs p : loadable p -> load_queue c now qs p = <[p.1 := p.2]> qs.
Proof.
  destruct p as [k q]. intros (Hk & Hn & Hu & Ha & Hat & Hc & Hm). unfold load_queue.
  rewrite !unset_time_false, !(is_empty_false k), (is_empty_false (q_url q)),
    (is_empty_false (q_arn q)), bool_decide_eq_false_2 by done.
  simpl. f_equal. subst k. by destruct q.
Qed.

Lemma load_task_loadable ts p : loadable_task p -> load_task ts p = <[p.1 := p.2]> ts.
Proof.
  destruct p as [k t]. intros [Hk Ht]. simpl in *. unfold load_task.
  rewrite !(is_empty_false k) by done. by rewrite (is_empty_false (task_handle t)) by congruence.
Qed.

Lemma persisted_ref_id s :
  Forall loadable (btree_iter (queues s)) -> persisted_ref s = mkPersisted (queues s) (move_tasks s).
Proof.
  intros Hl. unfold persisted_ref. f_equal. rewrite <- (map_fmap_id (queues s)) at 2.
  apply map_fmap_ext. intros k q Hq. rewrite Forall_forall in Hl.
  specialize (Hl (k, q) ltac:(by apply elem_of_btree_iter)). destruct Hl as (_ & _ & _ & _ & _ & _ & Hm).
  unfold queue_last_modified_at. rewrite unset_time_false by done. by destruct q.
Qed.
End RoundTrips.

(** ** Queue URLs *)

(** [host:port] of a queue URL, and its account. *)
Definition url_authority (c : Config) : string :=
  let host := default_str (queue_url_host c) "127.0.0.1" in
  if contains ":" host then host
  else match split_once ":" (addr c) with
       | Some (_, port) => if is_empty port then host else host +:+ ":" +:+ port
       | None => host
       end.
Definition url_account (c : Config) : string := default_str (account_id c) "000000000000".

Lemma queue_url_parts c name :
  queue_url c name = "http://" +:+ (url_authority c +:+ ("/" +:+ (url_account c +:+ ("/" +:+ name)))).
Proof. done. Qed.

Lemma url_safe_all p s :
  (forall c, p c = true -> c = "/"%char \/ c = "?"%char \/ c = "#"%char) ->
  url_safe s = true -> str_all (negb ∘ p) s = true.
Proof.
  intros Hp. apply str_all_impl. intros c Hc. simpl. apply negb_true_iff.
  destruct (p c) eqn:E; [|done]. by destruct (Hp c E) as [->|[->| ->]].
Qed.

Lemma url_account_nonempty c : url_account c <> "".
Proof. unfold url_account, default_str. by destruct (account_id c). Qed.

Lemma queue_name_from_queue_url c name :
  url_safe (url_authority c) = true -> url_safe (url_account c) = true ->
  valid_queue_name name = true -> queue_name_from_url (queue_url c name) = name.
Proof.
  intros Ha Hacc [Hne Hsafe]%valid_name_safe. rewrite queue_url_parts.
  set (rest := url_authority c +:+ _).
  assert (split_once "://" ("http://" +:+ rest) = Some ("http", rest)) as Hsplit by done.
  unfold queue_name_from_url, contains. rewrite Hsplit, bool_decide_eq_true_2 by eauto.
  assert (split_by (fun c => Ascii.eqb c "?" || Ascii.eqb c "#") rest = [rest]) as ->.
  { assert (forall s, url_safe s = true ->
      str_all (negb ∘ (fun c => Ascii.eqb c "?" || Ascii.eqb c "#")) s = true) as Hmark.
    { intros s. apply url_safe_all. intros x [->%Ascii.eqb_eq| ->%Ascii.eqb_eq]%orb_true_iff; auto. }
    apply split_by_none. subst rest. rewrite !str_all_app.
    by rewrite (Hmark (url_authority c)), (Hmark (url_account c)), (Hmark name). }
  simpl head. simpl default.
  assert (forall s, url_safe s = true -> str_all (negb ∘ Ascii.eqb "/") s = true) as Hslash.
  { intros s. apply url_safe_all. intros x <-%Ascii.eqb_eq. auto. }
  subst rest. set (body := url_account c +:+ _).
  assert (split_once "/" (url_authority c +:+ ("/" +:+ body)) = Some (url_authority c, body)) as ->
    by (apply (split_once_char "/"); auto).
  assert (trim_by (Ascii.eqb "/") ("/" +:+ body) = body) as ->.
  { unfold trim_by. rewrite str_app_cons, str_app_nil_l. cbn [trim_start_by]. simpl Ascii.eqb.
    rewrite trim_start_by_none.
    - subst body. rewrite <- str_app_assoc. apply trim_end_by_none; auto.
    - subst body. pose proof (url_account_nonempty c). specialize (Hslash _ Hacc).
      destruct (url_account c) as [|x r]; [done|]. rewrite str_app_cons. cbn [str_all] in Hslash.
      apply andb_true_iff in Hslash as [Hx _]. by apply negb_true_iff in Hx. }
  assert (split_char "/" body = [url_account c; name]) as Hparts.
  { subst body. unfold split_char. change ("/" +:+ name) with (String "/" name).
    rewrite split_by_app by auto. f_equal. apply split_by_none. auto. }
  rewrite Hparts. destruct (is_empty body) eqn:E; [|done].
  subst body. pose proof (url_account_nonempty c). by destruct (url_account c).
Qed.

(** ** Properties *)

(** every queue-management call is a transaction: if it fails, or reports
    that it did nothing, the server's queues, tasks and configuration and the state
    file are exactly as before, whatever call of the file system failed; if it
    succeeds, either it changed nothing or the state file holds the new state
    (unless persistence is off); and it never panics. *)
Theorem mgmt_transactional `{Env} op w :
  let '(o, w') := run_mgmt op w in
  match o with
  | Ok true => (server w' = server w /\ w_disk w' = w_disk w) \/ saved w'
  | Ok false | Err _ => server w' = server w /\ w_disk w' = w_disk w
  | Panic _ => False
  end.
Proof.
  assert (wp (run_mgmt op) (tx_post w) w) as Hwp.
  { destruct op; [apply create_queue_tx | apply delete_queue_tx | apply purge_queue_tx
      | apply update_queue_attributes_tx | apply tag_queue_tx | apply untag_queue_tx
      | apply add_permission_tx | apply remove_permission_tx]. }
  unfold wp in Hwp. destruct (run_mgmt op w) as [[[] | |] w']; exact Hwp.
Qed.

(** a restart loses nothing: [Server::new] on the file a server last persisted
    rebuilds its queues (messages, receipt handles, deduplication entries, sequence
    numbers) and move tasks exactly, for a server whose queues are keyed by their
    names and carry their creation data, as [create_queue] makes them. *)
Theorem restart_restores `{Env} w :
  serde_roundtrip -> storage_off (config (server w)) = false -> synced w ->
  Forall loadable (btree_iter (queues (server w))) ->
  Forall loadable_task (btree_iter (move_tasks (server w))) ->
  fs_read (w_tick w) = None ->
  let '(o, w') := new (config (server w)) w in
  o = Ok tt /\ server w' = mkServer (config (server w)) (queues (server w)) (move_tasks (server w)) None.
Proof.
  intros Hserde Hst Hsync Hq Ht Hread.
  assert (wp (new (config (server w))) (fun o w' => o = Ok tt /\ server w' =
    mkServer (config (server w)) (queues (server w)) (move_tasks (server w)) None) w) as Hwp.
  { unfold new. wp_steps. fold (storage_off (config (server w))). rewrite Hst.
    wp_steps. unfold load. apply wp_bind. unfold next_tick, wp. simpl. rewrite Hread.
    fold (@wp string World unit). apply wp_bind, wp_gets. simpl. rewrite Hsync, persisted_ref_id by done.
    apply wp_bind, wp_lift. rewrite Hserde. simpl. wp_steps. apply wp_now. intros now. simpl.
    apply wp_modify. simpl. split; [done|]. unfold w_queues. simpl.
    rewrite (foldl_ext_Forall _ _ _ _ _ Ht load_task_loadable),
      (foldl_ext_Forall _ _ _ _ _ Hq (load_queue_loadable _ now)), !foldl_insert_btree. done. }
  unfold wp in Hwp. by destruct (new _ w) as [o w'].
Qed.
