(* ===== verification/SqsMessages.v ===== *)
(** The SQS message lifecycle and message-move tasks: [services/sqs/src/messages.rs] and
    [move_tasks.rs]. *)

From S2P Require Import Prelude RustStr RustNum SqsTime SqsModel SqsValidation SqsServer.
Local Open Scope Z_scope.

(** The SQS message lifecycle: [services/sqs/src/messages.rs].  Sending (with
    FIFO deduplication), receiving (visibility, FIFO group blocking, redrive to a
    dead-letter queue), deleting and changing visibility with their batch forms,
    retention cleanup, and the projection of a received message. *)

Definition FIFO_DEDUPLICATION_WINDOW_SECONDS : Z := 5 * 60.

(** ** Requests and results *)

Record SendMessageRequest := mkSend {
  sm_queue_url : string;
  sm_message_body : string;
  sm_delay_seconds : option Z;
  sm_message_attributes : gmap string MessageAttributeValue;
  sm_message_system_attributes : gmap string MessageAttributeValue;
  sm_message_group_id : string;
  sm_message_deduplication_id : string;
}.

Record SendMessageBatchEntry := mkSendEntry {
  se_id : string;
  se_message_body : string;
  se_delay_seconds : option Z;
  se_message_attributes : gmap string MessageAttributeValue;
  se_message_system_attributes : gmap string MessageAttributeValue;
  se_message_group_id : string;
  se_message_deduplication_id : string;
}.

Record ReceiveMessageRequest := mkReceive {
  rq_queue_url : string;
  rq_max_number_of_messages : option Z;
  rq_visibility_timeout : option Z;
  rq_wait_time_seconds : option Z;
  rq_attribute_names : list string;
  rq_message_attribute_names : list string;
  rq_message_system_attribute_names : list string;
}.

Record ReceivedMessage := mkReceived {
  rm_message_id : string;
  rm_receipt_handle : string;
  rm_md5_of_message_body : string;
  rm_md5_of_message_attributes : string;
  rm_md5_of_message_system_attributes : string;
  rm_body : string;
  rm_attributes : gmap string string;
  rm_message_attributes : gmap string MessageAttributeValue;
}.

Record SendMessageBatchResultEntry := mkSent {
  sr_id : string;
  sr_message_id : string;
  sr_md5_of_message_body : string;
  sr_md5_of_message_attributes : string;
  sr_md5_of_message_system_attributes : string;
  sr_sequence_number : string;
}.

Record BatchResultErrorEntry := mkBatchError {
  be_id : string;
  be_sender_fault : bool;
  be_code : string;
  be_message : string;
}.

Record SendMessageBatchResult := mkSendBatchResult {
  sb_successful : list SendMessageBatchResultEntry;
  sb_failed : list BatchResultErrorEntry;
}.

(** [IdResultEntry] has the single field [id]. *)
Record BatchResult := mkBatchResult {
  br_successful : list string;
  br_failed : list BatchResultErrorEntry;
}.

Record DeleteMessageBatchEntry := mkDeleteEntry { de_id : string; de_receipt_handle : string }.

Record ChangeMessageVisibilityBatchEntry := mkVisibilityEntry {
  cv_id : string;
  cv_receipt_handle : string;
  cv_visibility_timeout : Z;
}.

(** [StagedMutation] and [StagedBatchEntry]. *)
Inductive StagedMutation :=
| Applied (idx : nat) (previous : MessageState) (pending_err : option string)
| Rejected (e : string).

Definition StagedBatchEntry : Type := string * nat * MessageState * option string.

(** What the scan of [receive_available_messages] carries. *)
Record Scan := mkScan {
  sc_messages : list ReceivedMessage;
  sc_blocked_groups : gset string;
  sc_delivered_groups : gset string;
  sc_changed : bool;
}.

(** ** Free helpers *)

Definition requested_system_attribute_names (input : ReceiveMessageRequest) : list string :=
  match rq_message_system_attribute_names input with
  | [] => rq_attribute_names input
  | names => names
  end.

Definition int_attribute (attrs : gmap string string) (key : string) (fallback : Z) : Z :=
  default fallback (attrs !! key ≫= parse_i64).

Definition wants_all (names : list string) : bool :=
  existsb (fun n => str_eqb n "All" || str_eqb n ".*") names.
Definition wants_any (names : list string) (target : string) : bool :=
  wants_all names || existsb (fun n => str_eqb n target) names.

Definition filter_message_attributes (attrs : gmap string MessageAttributeValue)
    (names : list string) : gmap string MessageAttributeValue :=
  if bool_decide (attrs = ∅) || bool_decide (names = []) then ∅
  else foldl (fun filtered requested =>
    if is_empty requested then filtered
    else match strip_suffix ".*" requested with
         | Some prefix =>
             foldl (fun filtered (p : string * MessageAttributeValue) =>
                      if starts_with prefix p.1 then <[p.1 := p.2]> filtered else filtered)
               filtered (btree_iter attrs)
         | None => match attrs !! requested with
                   | Some value => <[requested := value]> filtered
                   | None => filtered
                   end
         end) ∅ names.

Fixpoint check_batch_ids (ids : list string) (seen : gset string) : outcome unit :=
  match ids with
  | [] => Ok tt
  | id :: ids' =>
      if is_empty id then Err "batch entry Id is required"
      else if negb (valid_batch_entry_id id) then Err "batch entry Id may contain only alphanumeric characters, hyphens, and underscores, and must be no longer than 80 characters"
      else if bool_decide (id ∈ seen) then Err "batch entry Id must be unique"
      else check_batch_ids ids' ({[id]} ∪ seen)
  end.
Definition validate_batch_entries (ids : list string) : outcome unit :=
  if Nat.eqb (length ids) 0 then Err "Entries is required"
  else if (10 <? length ids)%nat then Err "Entries must contain no more than 10 entries"
  else check_batch_ids ids ∅.

Definition batch_error (id err : string) : BatchResultErrorEntry :=
  mkBatchError id true (error_code err) err.

Definition cleanup_expired_deduplication (queue : QueueState) (now : string) : QueueState :=
  set_dedup (base.filter (fun p : string * DeduplicationState => before now (expires_at p.2) = true)
               (dedup queue)) queue.

Definition push_message (m : MessageState) (q : QueueState) : QueueState :=
  set_messages (messages q ++ [m]) q.

Section Messages.
Context `{Env}.

(** The closure of [messages.retain]: the subtraction is on [i128]. *)
Definition retain_message (retention : Z) (now : string) (m : MessageState) : outcome bool :=
  if deleted m then Ok false
  else if 0 <? retention then
    age_nanos ← checked_i128 (unix_nanos_from_rfc3339 now - unix_nanos_from_rfc3339 (sent_at m));
    Ok (negb (retention * 1000000000 <? age_nanos))
  else Ok true.
Fixpoint retain_messages (retention : Z) (now : string) (ms : list MessageState)
    : outcome (list MessageState) :=
  match ms with
  | [] => Ok []
  | m :: ms' =>
      keep ← retain_message retention now m;
      rest ← retain_messages retention now ms';
      Ok (if keep : bool then m :: rest else rest)
  end.

Definition cleanup_expired_messages (queue : QueueState) (now : string) : outcome QueueState :=
  let retention := int_attribute (q_attributes queue) "MessageRetentionPeriod" 345600 in
  ms ← retain_messages retention now (messages queue);
  Ok (cleanup_expired_deduplication (set_messages ms queue) now).

Definition cleanup_queue (name now : string) : M World unit :=
  q ← queue_unwrap name;
  q' ← lift (cleanup_expired_messages q now);
  put_queue name q'.

Definition fifo_deduplication_id (queue : QueueState) (input : SendMessageRequest)
    : outcome string :=
  if is_empty (sm_message_group_id input) then Err "MessageGroupId is required for FIFO queues"
  else if negb (is_empty (sm_message_deduplication_id input))
  then Ok (sm_message_deduplication_id input)
  else
    let content_based := match q_attributes queue !! "ContentBasedDeduplication" with
                         | Some v => eq_ignore_ascii_case v "true"
                         | None => false
                         end in
    if content_based then Ok (hex_lower (sha256_digest (sm_message_body input)))
    else Err "MessageDeduplicationId is required for FIFO queues unless ContentBasedDeduplication is enabled".

Definition received_message_from_state (message : MessageState)
    (message_attribute_names system_attribute_names : list string) : ReceivedMessage :=
  let attrs : gmap string string :=
    <["SentTimestamp" := show_Z (unix_millis_from_rfc3339 (sent_at message))]>
    (<["ApproximateReceiveCount" := show_Z (receive_count message)]> ∅) in
  let attrs :=
    if negb (is_zero (first_receive_at message))
    then <["ApproximateFirstReceiveTimestamp" :=
             show_Z (unix_millis_from_rfc3339 (first_receive_at message))]> attrs
    else attrs in
  let trace := wants_any system_attribute_names "AWSTraceHeader" in
  let attrs :=
    if trace
    then match msg_system_attributes message !! "AWSTraceHeader" with
         | Some v => if negb (is_empty (string_value v))
                     then <["AWSTraceHeader" := string_value v]> attrs else attrs
         | None => attrs
         end
    else attrs in
  let '(md5, message_attributes) :=
    if wants_all message_attribute_names
    then (md5_of_message_attributes (msg_attributes message), msg_attributes message)
    else
      let filtered := filter_message_attributes (msg_attributes message) message_attribute_names in
      if bool_decide (filtered = ∅) then ("", ∅)
      else (md5_of_message_attributes filtered, filtered) in
  mkReceived (msg_id message) (receipt_handle message) (msg_body_md5 message) md5
    (if trace then md5_of_message_attributes (msg_system_attributes message) else "")
    (msg_body message) attrs message_attributes.

(** ** Sending *)

(** The FIFO branch of [send_message]: [inl] is the early return of a duplicate's
    message, [inr] the message to push, after it was recorded. *)
Definition fifo_stage (name now : string) (queue : QueueState) (input : SendMessageRequest)
    (message : MessageState) : M World (MessageState + MessageState) :=
  dedup_id ← lift (fifo_deduplication_id queue input);
  update_queue name (fun q => cleanup_expired_deduplication q now);;
  queue ← queue_unwrap name;
  let enqueue : M World (MessageState + MessageState) :=
    seq ← lift (checked_u64 (sequence queue + 1));
    let message := set_fifo_ids dedup_id (show_Z seq) message in
    put_queue name (set_sequence seq (set_dedup
      (<[dedup_id := mkDedup (add_seconds now FIFO_DEDUPLICATION_WINDOW_SECONDS) (Some message)]>
         (dedup queue)) queue));;
    mret (inr message) in
  match dedup queue !! dedup_id with
  | Some deduped =>
      if before now (expires_at deduped) then
        match dedup_message deduped with
        | Some m => mret (inl m)
        | None => enqueue
        end
      else enqueue
  | None => enqueue
  end.

Definition check_attribute (p : string * MessageAttributeValue) : outcome unit :=
  validate_message_attribute_name p.1;; validate_message_attribute_value p.1 p.2.

Definition restore_sent (prev : QueueState) (q : QueueState) : QueueState :=
  set_dedup (dedup prev) (set_sequence (sequence prev) (set_messages (messages prev) q)).

Definition send_message (input : SendMessageRequest) : M World MessageState :=
  guard_err (is_empty (sm_queue_url input)) "QueueUrl is required";;
  guard_err (is_empty (sm_message_body input)) "MessageBody is required";;
  c ← gets (fun w => config (server w));
  let max_bytes := max_message_bytes c in
  guard_err ((0 <? max_bytes) && (max_bytes <? str_len (sm_message_body input)))
    "MessageBody exceeds maximum message size";;
  guard_err (negb (valid_message_body (sm_message_body input)))
    "MessageBody contains invalid characters";;
  lift (try_each check_attribute (btree_iter (sm_message_attributes input)));;
  lift (try_each (fun p => validate_message_system_attribute p.1 p.2)
          (btree_iter (sm_message_system_attributes input)));;
  let name := queue_name_from_url (sm_queue_url input) in
  previous ← require_queue name;
  let fifo := is_fifo_queue previous in
  guard_err (fifo && bool_decide (is_Some (sm_delay_seconds input)))
    "DelaySeconds is not supported for FIFO queue messages";;
  now ← now_rfc3339;
  cleanup_queue name now;;
  queue ← queue_unwrap name;
  let delay_seconds :=
    default (int_attribute (q_attributes queue) "DelaySeconds" 0) (sm_delay_seconds input) in
  guard_err (delay_seconds <? 0) "DelaySeconds must be non-negative";;
  guard_err (MAX_DELAY_SECONDS <? delay_seconds) "DelaySeconds must be no greater than 900";;
  id ← new_opaque_id "msg";
  let message := mkMsg id (sm_message_body input) (md5_hex (sm_message_body input))
    (sm_message_attributes input) (sm_message_system_attributes input) now
    (add_seconds now delay_seconds) "" 0 "" "" false (sm_message_group_id input) "" "" "" in
  staged ← (if fifo then fifo_stage name now queue input message else mret (inr message));
  match staged with
  | inl duplicate => mret duplicate
  | inr message =>
      update_queue name (push_message message);;
      persist_or (alter_queue name (restore_sent previous));;
      mret message
  end.

Definition send_request (url : string) (e : SendMessageBatchEntry) : SendMessageRequest :=
  mkSend url (se_message_body e) (se_delay_seconds e) (se_message_attributes e)
    (se_message_system_attributes e) (se_message_group_id e) (se_message_deduplication_id e).

Definition send_batch_entry (url : string) (entry : SendMessageBatchEntry)
    (result : SendMessageBatchResult) : M World SendMessageBatchResult :=
  r ← catch (send_message (send_request url entry));
  mret match r with
       | inl m => mkSendBatchResult
           (sb_successful result ++
              [mkSent (se_id entry) (msg_id m) (msg_body_md5 m)
                 (md5_of_message_attributes (msg_attributes m))
                 (md5_of_message_attributes (msg_system_attributes m)) (sequence_number m)])
           (sb_failed result)
       | inr e => mkSendBatchResult (sb_successful result)
                    (sb_failed result ++ [batch_error (se_id entry) e])
       end.

Definition send_message_batch (url : string) (entries : list SendMessageBatchEntry)
    : M World SendMessageBatchResult :=
  guard_err (is_empty url) "QueueUrl is required";;
  lift (validate_batch_entries (se_id <$> entries));;
  for_each entries (mkSendBatchResult [] []) (send_batch_entry url).

(** ** Receiving *)

(** [self.queues.get(name).unwrap().messages[i]], read and updated in place. *)
Definition message_at (name : string) (i : nat) : M World MessageState :=
  q ← queue_unwrap name;
  match messages q !! i with
  | Some m => mret m
  | None => panic "index out of bounds"
  end.
Definition put_message (name : string) (i : nat) (m : MessageState) : M World unit :=
  q ← queue_unwrap name;
  if (i <? length (messages q))%nat
  then put_queue name (set_messages (<[i := m]> (messages q)) q)
  else panic "index out of bounds".

Definition find_by_arn (arn : string) (qs : gmap string QueueState) : option string :=
  fst <$> btree_find (fun q => str_eqb (q_arn q) arn) qs.

Definition redriven (now source_arn : string) (m : MessageState) : MessageState :=
  set_dead_letter_source_arn source_arn (set_deleted false (set_first_receive_at ZERO_TIME
    (set_receive_count 0 (set_receipt_handle "" (set_visibility ZERO_TIME
      (set_available_at now m)))))).
Definition tombstoned (m : MessageState) : MessageState :=
  set_receipt_handle "" (set_deleted true m).

Definition move_to_dlq_if_needed (name : string) (i : nat) (now : string) : M World bool :=
  queue ← queue_unwrap name;
  match redrive_policy_from_queue queue with
  | None => mret false
  | Some policy =>
      m ← message_at name i;
      if receive_count m <? max_receive_count policy then mret false
      else
        qs ← gets w_queues;
        match find_by_arn (dead_letter_target_arn policy) qs with
        | None => mret false
        | Some dlq_name =>
            update_queue dlq_name (push_message (redriven now (q_arn queue) m));;
            m ← message_at name i;
            put_message name i (tombstoned m);;
            mret true
        end
  end.

(** The update of a delivered message. *)
Definition delivered (now handle : string) (visibility count : Z) (m : MessageState)
    : MessageState :=
  let m := set_receive_count count m in
  let m := if is_zero (first_receive_at m) then set_first_receive_at now m else m in
  set_visibility (add_seconds now visibility) (set_receipt_handle handle m).

Definition deliver (name : string) (i : nat) (now : string) (visibility : Z)
    (message_attribute_names system_attribute_names : list string) : M World ReceivedMessage :=
  m ← message_at name i;
  count ← lift (checked_i64 (receive_count m + 1));
  handle ← new_opaque_id "rct";
  let m := delivered now handle visibility count m in
  put_message name i m;;
  mret (received_message_from_state m message_attribute_names system_attribute_names).

(** [if fifo && !group.is_empty() { groups.insert(group) }] *)
Definition note_group (fifo : bool) (group : string) (groups : gset string) : gset string :=
  if fifo && negb (is_empty group) then {[group]} ∪ groups else groups.

(** One iteration of the scan, after the check of [max_messages]. *)
Definition scan_one (name now : string) (fifo : bool) (visibility : Z)
    (man san : list string) (i : nat) (sc : Scan) : M World Scan :=
  m ← message_at name i;
  let group := message_group_id m in
  if deleted m then mret sc
  else if fifo && negb (is_empty group)
          && (bool_decide (group ∈ sc_blocked_groups sc)
              || bool_decide (group ∈ sc_delivered_groups sc)) then mret sc
  else if before now (available_at m) || before now (invisible_until m) then
    mret (mkScan (sc_messages sc) (note_group fifo group (sc_blocked_groups sc))
            (sc_delivered_groups sc) (sc_changed sc))
  else
    moved ← move_to_dlq_if_needed name i now;
    if moved : bool then
      mret (mkScan (sc_messages sc) (note_group fifo group (sc_blocked_groups sc))
              (sc_delivered_groups sc) true)
    else
      received ← deliver name i now visibility man san;
      mret (mkScan (sc_messages sc ++ [received]) (sc_blocked_groups sc)
              (note_group fifo group (sc_delivered_groups sc)) true).

(** [for i in 0..count], with its [break]. *)
Fixpoint scan_messages (max_messages : Z) (body : nat -> Scan -> M World Scan)
    (indices : list nat) (sc : Scan) : M World Scan :=
  match indices with
  | [] => mret sc
  | i :: rest =>
      if max_messages <=? Z.of_nat (length (sc_messages sc)) then mret sc
      else sc' ← body i sc; scan_messages max_messages body rest sc'
  end.

Definition receive_available_messages (name : string) (max_messages : Z)
    (visibility_override : option Z)
    (message_attribute_names system_attribute_names : list string)
    : M World (list ReceivedMessage) :=
  present ← contains_queue name;
  guard_err (negb present) "queue does not exist";;
  previous_queue ← queue_unwrap name;
  qs ← gets w_queues;
  let dlq_name := redrive_policy_from_queue previous_queue ≫= fun p =>
                    find_by_arn (dead_letter_target_arn p) qs in
  previous_dlq ← (match dlq_name with
                  | Some n => if str_eqb n name then mret None
                              else q ← queue_unwrap n; mret (Some (n, q))
                  | None => mret None
                  end : M World (option (string * QueueState)));
  now ← now_rfc3339;
  cleanup_queue name now;;
  queue ← queue_unwrap name;
  c ← gets (fun w => config (server w));
  let visibility :=
    default (int_attribute (q_attributes queue) "VisibilityTimeout"
               (default_visibility_timeout_seconds c)) visibility_override in
  guard_err (visibility <? 0) "VisibilityTimeout must be non-negative";;
  guard_err (MAX_VISIBILITY_TIMEOUT_SECONDS <? visibility)
    "VisibilityTimeout must be no greater than 43200";;
  let fifo := is_fifo_queue queue in
  sc ← scan_messages max_messages
         (scan_one name now fifo visibility message_attribute_names system_attribute_names)
         (seq 0 (length (messages queue))) (mkScan [] ∅ ∅ false);
  if sc_changed sc then
    persist_or (fun w =>
      let w := restore_queue name previous_queue w in
      match previous_dlq with
      | Some (n, snapshot) => restore_queue n snapshot w
      | None => w
      end);;
    mret (sc_messages sc)
  else mret (sc_messages sc).

Definition receive_messages_once (input : ReceiveMessageRequest) (pinned : option QueueIdentity)
    : M World (list ReceivedMessage * Z * QueueIdentity) :=
  guard_err (is_empty (rq_queue_url input)) "QueueUrl is required";;
  let name := queue_name_from_url (rq_queue_url input) in
  guard_err (is_empty name) "queue does not exist";;
  s ← gets server;
  identity ← lift (ok_or "queue does not exist" (queue_identity s name));
  guard_err (match pinned with Some p => negb (bool_decide (p = identity)) | None => false end)
    "queue does not exist";;
  let c := config s in
  let max_messages := default 1 (rq_max_number_of_messages input) in
  let max_messages := if max_messages <? 1 then 1 else max_messages in
  let max_messages := if max_receive_batch_size c <? max_messages
                      then max_receive_batch_size c else max_messages in
  let wait_seconds :=
    default (default_receive_wait_time_seconds c) (rq_wait_time_seconds input) in
  guard_err (wait_seconds <? 0) "WaitTimeSeconds must be non-negative";;
  guard_err (20 <? wait_seconds) "WaitTimeSeconds must be no greater than 20";;
  ms ← receive_available_messages name max_messages (rq_visibility_timeout input)
         (rq_message_attribute_names input) (requested_system_attribute_names input);
  mret (ms, wait_seconds, identity).

(** The wait between two attempts only lets the clock advance. *)
Fixpoint poll (input : ReceiveMessageRequest) (identity : QueueIdentity) (last : Z)
    (attempts : list Z) : M World (list ReceivedMessage) :=
  match attempts with
  | [] => mret []
  | attempt :: rest =>
      '(ms, _, _) ← receive_messages_once input (Some identity);
      if negb (Nat.eqb (length ms) 0) || (attempt =? last) then mret ms
      else poll input identity last rest
  end.

Definition receive_messages (input : ReceiveMessageRequest) : M World (list ReceivedMessage) :=
  '(first, wait_seconds, identity) ← receive_messages_once input None;
  let attempts := Z.max (wait_seconds * 10 + 1) 1 in
  if negb (Nat.eqb (length first) 0) || (attempts =? 1) then mret first
  else poll input identity (attempts - 1) (seqZ 1 (attempts - 1)).

(** ** Deleting and changing visibility *)

Definition stage_receipted_mutation (name handle : string)
    (mutate : MessageState -> string -> MessageState) : M World StagedMutation :=
  if is_empty handle then mret (Rejected "ReceiptHandle is required")
  else
    now ← now_rfc3339;
    q ← queue_unwrap name;
    match list_find (fun m => negb (deleted m) && str_eqb (receipt_handle m) handle = true)
            (messages q) with
    | None => mret (Rejected "receipt handle is invalid")
    | Some (idx, previous) =>
        if negb (before now (invisible_until previous)) then
          put_message name idx (set_receipt_handle "" previous);;
          mret (Applied idx previous (Some "receipt handle is invalid"))
        else
          put_message name idx (mutate previous now);;
          mret (Applied idx previous None)
    end.

Definition apply_to_receipted_message (name handle : string)
    (mutate : MessageState -> string -> MessageState) : M World unit :=
  staged ← stage_receipted_mutation name handle mutate;
  match staged with
  | Rejected e => fail e
  | Applied idx previous pending_err =>
      r ← catch persist;
      match r with
      | inr e => put_message name idx previous;; fail e
      | inl _ => match pending_err with Some e => fail e | None => mret tt end
      end
  end.

(** The two closures passed as [mutate]. *)
Definition delete_mutation (m : MessageState) (now : string) : MessageState := tombstoned m.
Definition visibility_mutation (seconds : Z) (m : MessageState) (now : string) : MessageState :=
  set_visibility (add_seconds now seconds) m.

Definition delete_message (url handle : string) : M World unit :=
  guard_err (is_empty url) "QueueUrl is required";;
  guard_err (is_empty handle) "ReceiptHandle is required";;
  let name := queue_name_from_url url in
  _ ← require_queue name;
  apply_to_receipted_message name handle delete_mutation.

Definition change_message_visibility (url handle : string) (seconds : Z) : M World unit :=
  guard_err (is_empty url) "QueueUrl is required";;
  guard_err (is_empty handle) "ReceiptHandle is required";;
  guard_err (seconds <? 0) "VisibilityTimeout must be non-negative";;
  guard_err (MAX_VISIBILITY_TIMEOUT_SECONDS <? seconds)
    "VisibilityTimeout must be no greater than 43200";;
  let name := queue_name_from_url url in
  _ ← require_queue name;
  apply_to_receipted_message name handle (visibility_mutation seconds).

Definition fail_entry (r : BatchResult) (id e : string) : BatchResult :=
  mkBatchResult (br_successful r) (br_failed r ++ [batch_error id e]).
Definition succeed_entry (r : BatchResult) (id : string) : BatchResult :=
  mkBatchResult (br_successful r ++ [id]) (br_failed r).

(** [for (_, idx, previous, _) in staged.iter().rev()] *)
Fixpoint unstage (name : string) (staged : list StagedBatchEntry) : M World unit :=
  match staged with
  | [] => mret tt
  | (_, idx, previous, _) :: rest => put_message name idx previous;; unstage name rest
  end.

Definition apply_staged_batch (name : string) (staged : list StagedBatchEntry)
    (result : BatchResult) : M World BatchResult :=
  match staged with
  | [] => mret result
  | _ =>
      r ← catch persist;
      match r with
      | inr e =>
          unstage name (reverse staged);;
          mret (foldl (fun res (s : StagedBatchEntry) => fail_entry res s.1.1.1 e) result staged)
      | inl _ =>
          mret (foldl (fun res (s : StagedBatchEntry) =>
                         match s.2 with
                         | Some e => fail_entry res s.1.1.1 e
                         | None => succeed_entry res s.1.1.1
                         end) result staged)
      end
  end.

(** The end of the loop body the two batch operations share. *)
Definition stage_entry (name id handle : string)
    (mutate : MessageState -> string -> MessageState)
    (acc : BatchResult * list StagedBatchEntry) : M World (BatchResult * list StagedBatchEntry) :=
  let '(result, staged) := acc in
  s ← gets server;
  if is_empty name || negb (bool_decide (is_Some (queues s !! name)))
  then mret (fail_entry result id "queue does not exist", staged)
  else
    r ← stage_receipted_mutation name handle mutate;
    mret match r with
         | Rejected e => (fail_entry result id e, staged)
         | Applied idx previous pending_err =>
             (result, staged ++ [(id, idx, previous, pending_err)])
         end.

Definition delete_batch_entry (name : string) (entry : DeleteMessageBatchEntry)
    (acc : BatchResult * list StagedBatchEntry) : M World (BatchResult * list StagedBatchEntry) :=
  if is_empty (de_receipt_handle entry)
  then mret (fail_entry acc.1 (de_id entry) "ReceiptHandle is required", acc.2)
  else stage_entry name (de_id entry) (de_receipt_handle entry) delete_mutation acc.

Definition delete_message_batch (url : string) (entries : list DeleteMessageBatchEntry)
    : M World BatchResult :=
  guard_err (is_empty url) "QueueUrl is required";;
  lift (validate_batch_entries (de_id <$> entries));;
  let name := queue_name_from_url url in
  '(result, staged) ← for_each entries (mkBatchResult [] [], []) (delete_batch_entry name);
  apply_staged_batch name staged result.

Definition visibility_batch_entry (name : string) (entry : ChangeMessageVisibilityBatchEntry)
    (acc : BatchResult * list StagedBatchEntry) : M World (BatchResult * list StagedBatchEntry) :=
  if is_empty (cv_receipt_handle entry)
  then mret (fail_entry acc.1 (cv_id entry) "ReceiptHandle is required", acc.2)
  else if cv_visibility_timeout entry <? 0
  then mret (fail_entry acc.1 (cv_id entry) "VisibilityTimeout must be non-negative", acc.2)
  else if MAX_VISIBILITY_TIMEOUT_SECONDS <? cv_visibility_timeout entry
  then mret (fail_entry acc.1 (cv_id entry) "VisibilityTimeout must be no greater than 43200",
             acc.2)
  else stage_entry name (cv_id entry) (cv_receipt_handle entry)
         (visibility_mutation (cv_visibility_timeout entry)) acc.

Definition change_message_visibility_batch (url : string)
    (entries : list ChangeMessageVisibilityBatchEntry) : M World BatchResult :=
  guard_err (is_empty url) "QueueUrl is required";;
  lift (validate_batch_entries (cv_id <$> entries));;
  let name := queue_name_from_url url in
  '(result, staged) ← for_each entries (mkBatchResult [] [], []) (visibility_batch_entry name);
  apply_staged_batch name staged result.
End Messages.

(** Dead-letter source queues and message-move tasks of the SQS service:
    [services/sqs/src/move_tasks.rs]. *)

Record MessageMoveTaskResult := mkTaskResult {
  tr_task_handle : string;
  tr_status : string;
  tr_source_arn : string;
  tr_destination_arn : string;
  tr_approximate_number_of_messages_moved : Z;
}.

Definition task_result_from (t : MoveTaskState) : MessageMoveTaskResult :=
  mkTaskResult (task_handle t) (task_status t) (source_arn t) (destination_arn t)
    (approximate_number_of_messages_moved t).

(** [sort_by(|a, b| nanos(b).cmp(&nanos(a)))]: newest first, stable. *)
Definition newer (a b : MoveTaskState) : Prop :=
  unix_nanos_from_rfc3339 (started_at b) <= unix_nanos_from_rfc3339 (started_at a).
#[export] Instance newer_dec : RelDecision newer.
Proof. intros a b. unfold newer. apply _. Defined.
#[export] Instance newer_trans : Transitive newer.
Proof. intros a b c. unfold newer. lia. Qed.
#[export] Instance newer_total : Total newer.
Proof. intros a b. unfold newer. lia. Qed.

Section MoveTasks.
Context `{Env}.

Definition queue_name_by_arn (qs : gmap string QueueState) (arn : string) : option string :=
  fst <$> btree_find (fun q => str_eqb (q_arn q) arn) qs.

Definition resolve_original_source (qs : gmap string QueueState) (message : MessageState)
    : option string :=
  if is_empty (dead_letter_source_arn message) then None
  else queue_name_by_arn qs (dead_letter_source_arn message).

Definition list_dead_letter_source_queue_urls (s : Server) (url : string)
    : outcome (list string) :=
  let name := queue_name_from_url url in
  if is_empty name then Err "queue does not exist"
  else match queues s !! name with
       | None => Err "queue does not exist"
       | Some target =>
           Ok (merge_sort String.le
                 (omap (fun p : string * QueueState =>
                    policy ← redrive_policy_or_none p.2;
                    if str_eqb (dead_letter_target_arn policy) (q_arn target)
                    then Some (q_url p.2) else None) (btree_iter (queues s))))
       end.

Definition requeued (now : string) (m : MessageState) : MessageState :=
  set_dead_letter_source_arn "" (set_available_at now (set_first_receive_at ZERO_TIME
    (set_receive_count 0 (set_receipt_handle "" (set_visibility ZERO_TIME m))))).

(** The planned moves: index in the source, target queue, message to push. *)
Definition move_target (qs : gmap string QueueState) (destination_arn : string)
    (m : MessageState) : option string :=
  if is_empty destination_arn then resolve_original_source qs m
  else queue_name_by_arn qs destination_arn.
Fixpoint plan_moves (qs : gmap string QueueState) (destination_arn now : string) (i : nat)
    (ms : list MessageState) : list (nat * string * MessageState) :=
  match ms with
  | [] => []
  | m :: ms' =>
      let rest := plan_moves qs destination_arn now (S i) ms' in
      if deleted m then rest
      else match move_target qs destination_arn m with
           | Some target => (i, target, requeued now m) :: rest
           | None => rest
           end
  end.

Definition affected (source : string) (moves : list (nat * string * MessageState))
    : list string :=
  foldl (fun (names : list string) (mv : nat * string * MessageState) =>
           if bool_decide (mv.1.2 ∈ names) then names else names ++ [mv.1.2]) [source] moves.

Fixpoint snapshot_queues (names : list string) : M World (list (string * QueueState)) :=
  match names with
  | [] => mret []
  | n :: names' =>
      q ← queue_unwrap n;
      rest ← snapshot_queues names';
      mret ((n, q) :: rest)
  end.

Definition apply_move (source_name : string) (mv : nat * string * MessageState) (_ : unit)
    : M World unit :=
  let '(i, target, moved) := mv in
  qs ← gets w_queues;
  match qs !! target with
  | None => fail "destination queue does not exist"
  | Some t =>
      put_queue target (push_message moved t);;
      qs ← gets w_queues;
      match qs !! source_name with
      | None => fail "queue does not exist"
      | Some q =>
          match messages q !! i with
          | None => fail "queue does not exist"
          | Some m => put_queue source_name (set_messages (<[i := tombstoned m]> (messages q)) q)
          end
      end
  end.

Definition restore_snapshots (snapshots : list (string * QueueState)) (w : World) : World :=
  foldl (fun w (p : string * QueueState) => restore_queue p.1 p.2 w) w snapshots.

Definition start_message_move_task (source destination : string) : M World MoveTaskState :=
  guard_err (is_empty source) "SourceArn is required";;
  qs ← gets w_queues;
  source_name ← lift (ok_or "queue does not exist" (queue_name_by_arn qs source));
  guard_err (negb (is_empty destination)
             && bool_decide (queue_name_by_arn qs destination = None))
    "destination queue does not exist";;
  now ← now_rfc3339;
  q ← lift (ok_or "queue does not exist" (qs !! source_name));
  let moves := plan_moves qs destination now 0 (messages q) in
  let moved_count := Z.of_nat (length moves) in
  snapshots ← snapshot_queues (affected source_name moves);
  for_each moves tt (apply_move source_name);;
  handle ← new_task_id "mvt";
  let task := mkTask handle source destination "COMPLETED" now moved_count in
  modify (fun w => set_move_tasks (<[handle := task]> (move_tasks (server w))) w);;
  persist_or (fun w =>
    let w := restore_snapshots snapshots w in
    set_move_tasks (delete handle (move_tasks (server w))) w);;
  mret task.

Definition list_message_move_tasks (s : Server) (source : string) (max_results : Z)
    : outcome (list MoveTaskState) :=
  if is_empty source then Err "SourceArn is required"
  else if bool_decide (queue_name_by_arn (queues s) source = None)
  then Err "queue does not exist"
  else
    let tasks := merge_sort newer
      (base.filter (fun t => str_eqb (source_arn t) source = true)
         (snd <$> btree_iter (move_tasks s))) in
    let limit := if (max_results <=? 0) || (10 <? max_results) then 10 else max_results in
    Ok (if limit <? Z.of_nat (length tasks) then take (Z.to_nat limit) tasks else tasks).

Definition cancel_message_move_task (s : Server) (handle : string) : outcome Z :=
  if is_empty handle then Err "TaskHandle is required"
  else match move_tasks s !! handle with
       | None => Err "message move task does not exist"
       | Some t => Ok (approximate_number_of_messages_moved t)
       end.
End MoveTasks.
