(* ===== verification/SqsSpec.v ===== *)
(** The abstract machine of the SQS service: what each kind of step may do to the
    queues, and the invariants every run keeps.

    A state is the queue map with the number of identifiers issued so far.  The
    label of a step says what it does; [SqsRefine] shows that each API call of
    [server.rs], [messages.rs] and [move_tasks.rs] is a sequence of steps with the
    labels that call is allowed. *)

From S2P Require Import Prelude RustStr RustNum SqsTime SqsModel SqsValidation SqsServer SqsMessages.
Local Open Scope Z_scope.

(** ** Identifiers *)

(** Clock readings with exactly sixteen hexadecimal digits of nanoseconds: the
    years 2006 to 2554. *)
Definition modern (nanos : Z) : Prop := 2 ^ 60 <= nanos < 2 ^ 64.

Definition issued_at (prefix : string) (n : Z) (id : string) : Prop :=
  exists nanos, modern nanos /\ id = opaque_id prefix nanos n.
Definition issued (prefix : string) (n : Z) (id : string) : Prop :=
  exists k, 0 <= k < n /\ issued_at prefix k id.

Lemma opaque_id_inj p t t' n n' :
  modern t -> modern t' -> 0 <= n -> 0 <= n' -> opaque_id p t n = opaque_id p t' n' -> n = n'.
Proof.
  unfold modern. intros Ht Ht' Hn Hn' H. unfold opaque_id, show_hex in H.
  apply str_app_inj_l, str_app_inj_l, str_app_inj_length in H as [_ H].
  - by eapply show_radix_inj; [| | |exact H].
  - rewrite !(length_show_exact 16 _ 16) by (simpl; lia). done.
Qed.

Lemma issued_mono p n n' id : n <= n' -> issued p n id -> issued p n' id.
Proof. intros Hn (k & Hk & H). exists k. split; [lia|done]. Qed.
Lemma issued_at_issued p n id : 0 <= n -> issued_at p n id -> issued p (n + 1) id.
Proof. intros Hn H. exists n. split; [lia|done]. Qed.
Lemma issued_at_fresh p n id : 0 <= n -> issued_at p n id -> ~ issued p n id.
Proof.
  intros Hn (t & Ht & ->) (k & Hk & t' & Ht' & H).
  apply opaque_id_inj in H; [|done|done|lia..]. lia.
Qed.
Lemma issued_at_nonempty p n id : issued_at p n id -> id <> "".
Proof. intros (t & _ & ->). unfold opaque_id. destruct p; by intros ?. Qed.

(** ** What a queue holds *)

Definition dated (s : string) : Prop := 0 <= unix_nanos_from_rfc3339 s < 2 ^ 64.

(** Tokens a message carries: its id while it is live, its receipt handle when it
    has one. *)
Definition id_token (m : MessageState) : list string := if deleted m then [] else [msg_id m].
Definition handle_token (m : MessageState) : list string :=
  if is_empty (receipt_handle m) then [] else [receipt_handle m].

(** A per-queue list, over all queues. *)
Definition all_of {A} (f : QueueState -> list A) (qs : gmap string QueueState) : list A :=
  concat ((fun p : string * QueueState => f p.2) <$> map_to_list qs).

Lemma concat_Permutation {A} (l l' : list (list A)) : l ≡ₚ l' -> concat l ≡ₚ concat l'.
Proof.
  induction 1; simpl; try done.
  - by f_equiv.
  - rewrite !(assoc_L (++)). f_equiv. apply Permutation_app_comm.
  - by etrans.
Qed.

Lemma all_of_insert {A} (f : QueueState -> list A) qs k q :
  all_of f (<[k := q]> qs) ≡ₚ f q ++ all_of f (delete k qs).
Proof.
  unfold all_of. rewrite <- insert_delete_eq.
  rewrite (concat_Permutation _ ((fun p : string * QueueState => f p.2) <$> ((k, q) :: map_to_list (delete k qs)))).
  - done.
  - apply fmap_Permutation, map_to_list_insert. apply lookup_delete_eq.
Qed.

Lemma all_of_lookup {A} (f : QueueState -> list A) qs k q :
  qs !! k = Some q -> all_of f qs ≡ₚ f q ++ all_of f (delete k qs).
Proof. intros H. rewrite <- (insert_id _ _ _ H) at 1. apply all_of_insert. Qed.

Lemma elem_of_all_of {A} (f : QueueState -> list A) qs (x : A) :
  x ∈ all_of f qs <-> exists k q, qs !! k = Some q /\ x ∈ f q.
Proof.
  unfold all_of. rewrite list_elem_of_In, in_concat. setoid_rewrite <- list_elem_of_In. split.
  - intros (l & Hl & Hx). apply list_elem_of_fmap in Hl as ([k q] & -> & Hkq).
    apply elem_of_map_to_list in Hkq. eauto.
  - intros (k & q & Hq & Hx). exists (f q). split; [|done].
    apply list_elem_of_fmap. exists (k, q). by rewrite elem_of_map_to_list.
Qed.

(** All tokens of a kind. *)
Definition tokens (tok : MessageState -> list string) (qs : gmap string QueueState) : list string :=
  all_of (fun q => messages q ≫= tok) qs.

Lemma bind_split {A B} (f : A -> list B) (l : list A) i x :
  l !! i = Some x -> l ≫= f ≡ₚ f x ++ (delete i l ≫= f).
Proof. intros H. apply (bind_Permutation f _ _ (delete_Permutation _ _ _ H)). Qed.
Lemma bind_insert {A B} (f : A -> list B) (l : list A) i x y :
  l !! i = Some x -> <[i := y]> l ≫= f ≡ₚ f y ++ (delete i l ≫= f).
Proof.
  intros H. assert (<[i := y]> l !! i = Some y) as Hy.
  { apply list_lookup_insert_eq. by eapply lookup_lt_Some. }
  rewrite (bind_split f _ _ _ Hy). f_equiv.
  replace (delete i (<[i := y]> l)) with (delete i l); [done|].
  rewrite !delete_take_drop, take_insert_ge, drop_insert_lt by lia. done.
Qed.

Section Tokens.
Context (tok : MessageState -> list string).
Implicit Types qs : gmap string QueueState.

Lemma tokens_insert qs k q :
  tokens tok (<[k := q]> qs) ≡ₚ (messages q ≫= tok) ++ tokens tok (delete k qs).
Proof. apply (all_of_insert (fun q => messages q ≫= tok)). Qed.
Lemma tokens_lookup qs k q :
  qs !! k = Some q -> tokens tok qs ≡ₚ (messages q ≫= tok) ++ tokens tok (delete k qs).
Proof. apply (all_of_lookup (fun q => messages q ≫= tok)). Qed.
Lemma elem_of_tokens qs x :
  x ∈ tokens tok qs <-> exists k q m, qs !! k = Some q /\ m ∈ messages q /\ x ∈ tok m.
Proof.
  unfold tokens. rewrite elem_of_all_of. setoid_rewrite list_elem_of_bind.
  split; [intros (k & q & Hq & m & Hx & Hm)|intros (k & q & m & Hq & Hm & Hx)]; eauto 8.
Qed.

(** Same messages, same tokens. *)
Lemma tokens_same qs k q q' :
  qs !! k = Some q -> messages q' = messages q -> tokens tok (<[k := q']> qs) ≡ₚ tokens tok qs.
Proof. intros Hq Hm. by rewrite tokens_insert, (tokens_lookup qs k q Hq), Hm. Qed.

Lemma tokens_push qs k q q' m :
  qs !! k = Some q -> messages q' = messages q ++ [m] ->
  tokens tok (<[k := q']> qs) ≡ₚ tok m ++ tokens tok qs.
Proof.
  intros Hq Hm. rewrite tokens_insert, (tokens_lookup qs k q Hq), Hm, bind_app. simpl.
  rewrite app_nil_r, (assoc_L (++)). f_equiv. apply Permutation_app_comm.
Qed.

(** Replacing one message exchanges its tokens. *)
Lemma tokens_replace qs k q i m m' :
  qs !! k = Some q -> messages q !! i = Some m ->
  exists rest, tokens tok qs ≡ₚ tok m ++ rest
    /\ tokens tok (<[k := set_messages (<[i := m']> (messages q)) q]> qs) ≡ₚ tok m' ++ rest.
Proof.
  intros Hq Hm. exists ((delete i (messages q) ≫= tok) ++ tokens tok (delete k qs)). split.
  - by rewrite (tokens_lookup qs k q Hq), (bind_split _ _ _ _ Hm), (assoc_L (++)).
  - rewrite tokens_insert. simpl. by rewrite (bind_insert _ _ _ _ m' Hm), (assoc_L (++)).
Qed.

Lemma bind_submseteq (l l' : list MessageState) : l `sublist_of` l' -> l ≫= tok ⊆+ l' ≫= tok.
Proof.
  induction 1 as [|x l l' _ IH|x l l' _ IH]; simpl; [done|by apply submseteq_skips_l|].
  by apply submseteq_inserts_l.
Qed.
Lemma tokens_sublist qs k q q' :
  qs !! k = Some q -> messages q' `sublist_of` messages q ->
  tokens tok (<[k := q']> qs) ⊆+ tokens tok qs.
Proof.
  intros Hq Hs. rewrite tokens_insert, (tokens_lookup qs k q Hq).
  by apply submseteq_skips_r, bind_submseteq.
Qed.
Lemma tokens_delete qs k : tokens tok (delete k qs) ⊆+ tokens tok qs.
Proof.
  destruct (qs !! k) as [q|] eqn:Hq; [|by rewrite delete_id].
  rewrite (tokens_lookup qs k q Hq). by apply submseteq_inserts_l.
Qed.
Lemma tokens_create qs k q :
  qs !! k = None -> messages q = [] -> tokens tok (<[k := q]> qs) ≡ₚ tokens tok qs.
Proof. intros Hq Hm. by rewrite tokens_insert, Hm, delete_id. Qed.

(** Distinct tokens identify a message's place. *)
Lemma tokens_NoDup_place qs k q i m k' q' j m' x :
  NoDup (tokens tok qs) -> qs !! k = Some q -> messages q !! i = Some m -> x ∈ tok m ->
  qs !! k' = Some q' -> messages q' !! j = Some m' -> x ∈ tok m' -> k = k' /\ i = j.
Proof.
  intros Hnd Hq Hm Hx Hq' Hm' Hx'. rewrite (tokens_lookup _ _ _ Hq) in Hnd.
  apply NoDup_app in Hnd as (Hnd & Hdis & _).
  assert (x ∈ messages q ≫= tok) as Hin.
  { apply list_elem_of_bind. exists m. split; [done|]. by eapply list_elem_of_lookup_2. }
  destruct (decide (k = k')) as [->|Hne].
  - split; [done|]. assert (q' = q) as -> by congruence.
    destruct (decide (i = j)) as [|Hij]; [done|]. exfalso.
    rewrite (bind_split _ _ _ _ Hm) in Hnd. apply NoDup_app in Hnd as (_ & Hdis' & _).
    apply (Hdis' _ Hx). apply list_elem_of_bind. exists m'. split; [done|].
    rewrite delete_take_drop. apply elem_of_app.
    destruct (decide (j < i)%nat) as [Hlt|Hge].
    + left. eapply list_elem_of_lookup_2. rewrite lookup_take_Some. done.
    + right. apply (list_elem_of_lookup_2 _ (j - S i)). rewrite lookup_drop.
      replace (S i + (j - S i))%nat with j by lia. done.
  - exfalso. apply (Hdis _ Hin). apply elem_of_tokens. exists k', q', m'.
    split_and!; [by rewrite lookup_delete_ne|by eapply list_elem_of_lookup_2|done].
Qed.
End Tokens.

(** Distinct identifiers, all issued. *)
Definition distinct_issued (p : string) (n : Z) (l : list string) : Prop :=
  NoDup l /\ Forall (issued p n) l.

Lemma distinct_issued_sub p n l l' : l' ⊆+ l -> distinct_issued p n l -> distinct_issued p n l'.
Proof.
  intros Hs [Hn Hf]. apply submseteq_Permutation in Hs as [k Hk]. rewrite Hk in Hn, Hf.
  apply NoDup_app in Hn as (Hn & _ & _). apply Forall_app in Hf as [Hf _]. done.
Qed.
Lemma distinct_issued_perm p n l l' : l' ≡ₚ l -> distinct_issued p n l -> distinct_issued p n l'.
Proof. intros H. apply distinct_issued_sub. by rewrite H. Qed.
Lemma distinct_issued_mono p n n' l : n <= n' -> distinct_issued p n l -> distinct_issued p n' l.
Proof.
  intros Hn [Hd Hf]. split; [done|]. eapply Forall_impl; [done|]. intros x. by apply issued_mono.
Qed.
Lemma distinct_issued_cons p n id l :
  0 <= n -> issued_at p n id -> distinct_issued p n l -> distinct_issued p (n + 1) (id :: l).
Proof.
  intros Hn Hid [Hd Hf]. split.
  - apply NoDup_cons. split; [|done]. intros Hin. rewrite Forall_forall in Hf.
    by eapply issued_at_fresh; [| |apply Hf].
  - apply Forall_cons. split; [by apply issued_at_issued|].
    eapply Forall_impl; [done|]. intros x. apply issued_mono. lia.
Qed.

(** ** Steps *)

Definition Abs : Type := gmap string QueueState * Z.

Inductive label :=
| LFresh | LConfig | LCreate | LDrop | LPurge | LClean | LSend | LDeliver | LAck | LVisibility
| LForget | LMove.
#[export] Instance label_eq_dec : EqDecision label.
Proof. solve_decision. Defined.

(** What a change of attributes or tags keeps. *)
Definition same_core (q q' : QueueState) : Prop :=
  q_name q' = q_name q /\ q_url q' = q_url q /\ q_arn q' = q_arn q /\ created_at q' = created_at q
  /\ messages q' = messages q /\ sequence q' = sequence q /\ dedup q' = dedup q.

(** What message operations keep. *)
Definition same_settings (q q' : QueueState) : Prop :=
  q_name q' = q_name q /\ q_url q' = q_url q /\ q_arn q' = q_arn q /\ created_at q' = created_at q
  /\ q_attributes q' = q_attributes q /\ q_tags q' = q_tags q.

(** The messages retention keeps at time [now]. *)
Definition retention_of (q : QueueState) : Z :=
  int_attribute (q_attributes q) "MessageRetentionPeriod" 345600.
Definition expired (q : QueueState) (now : string) (m : MessageState) : bool :=
  (0 <? retention_of q)
  && (retention_of q * 1000000000
      <? unix_nanos_from_rfc3339 now - unix_nanos_from_rfc3339 (sent_at m)).
Definition retained (q : QueueState) (now : string) (m : MessageState) : Prop :=
  deleted m = false /\ expired q now m = false.
#[export] Instance retained_dec q now : forall m, Decision (retained q now m).
Proof. intros m. unfold retained. apply _. Defined.
Definition cleaned (now : string) (q : QueueState) : QueueState :=
  cleanup_expired_deduplication (set_messages (base.filter (retained q now) (messages q)) q) now.

Definition with_message (i : nat) (m : MessageState) (q : QueueState) : QueueState :=
  set_messages (<[i := m]> (messages q)) q.

(** [m] is the first live message of its group. *)
Definition group_head (q : QueueState) (i : nat) (m : MessageState) : Prop :=
  forall j m', (j < i)%nat -> messages q !! j = Some m' ->
    message_group_id m' = message_group_id m -> deleted m' = true.

Definition fresh_message (n : Z) (m : MessageState) : Prop :=
  issued_at "msg" n (msg_id m) /\ dated (sent_at m) /\ receive_count m = 0
  /\ receipt_handle m = "" /\ deleted m = false.

(** A moved copy: the same message, available again, with no handle. *)
Definition moved_copy (m m' : MessageState) : Prop :=
  msg_id m' = msg_id m /\ msg_body m' = msg_body m /\ msg_body_md5 m' = msg_body_md5 m
  /\ msg_attributes m' = msg_attributes m /\ msg_system_attributes m' = msg_system_attributes m
  /\ sent_at m' = sent_at m /\ message_group_id m' = message_group_id m
  /\ receive_count m' = 0 /\ receipt_handle m' = "" /\ deleted m' = false.

Section Steps.
Context (c : Config).

Definition fresh_queue (name : string) (q : QueueState) : Prop :=
  valid_queue_name name = true /\ q_name q = name /\ q_url q = queue_url c name
  /\ q_arn q = queue_arn c name /\ messages q = [] /\ sequence q = 0 /\ dedup q = ∅.

Inductive astep : label -> Abs -> Abs -> Prop :=
| a_fresh qs n : astep LFresh (qs, n) (qs, n + 1)
| a_config qs n name q q' :
    qs !! name = Some q -> same_core q q' -> astep LConfig (qs, n) (<[name := q']> qs, n)
| a_create qs n name q :
    qs !! name = None -> fresh_queue name q -> astep LCreate (qs, n) (<[name := q]> qs, n)
| a_drop qs n name : astep LDrop (qs, n) (delete name qs, n)
| a_purge qs n name q :
    qs !! name = Some q -> astep LPurge (qs, n) (<[name := set_messages [] q]> qs, n)
| a_clean qs n name q now :
    qs !! name = Some q -> dated now -> astep LClean (qs, n) (<[name := cleaned now q]> qs, n)
| a_send qs n name q q' m :
    qs !! name = Some q -> fresh_message n m -> same_settings q q' ->
    messages q' = messages q ++ [m] ->
    sequence q' = sequence q \/ sequence q' = sequence q + 1 ->
    astep LSend (qs, n) (<[name := q']> qs, n + 1)
| a_deliver qs n name q i m now visibility handle :
    qs !! name = Some q -> messages q !! i = Some m -> deleted m = false ->
    dated now -> before now (available_at m) = false -> before now (invisible_until m) = false ->
    (is_fifo_queue q = true -> message_group_id m <> "" -> group_head q i m) ->
    issued_at "rct" n handle ->
    astep LDeliver (qs, n)
      (<[name := with_message i (delivered now handle visibility (receive_count m + 1) m) q]> qs, n + 1)
| a_ack qs n name q i m :
    qs !! name = Some q -> messages q !! i = Some m -> deleted m = false ->
    receipt_handle m <> "" ->
    astep LAck (qs, n) (<[name := with_message i (tombstoned m) q]> qs, n)
| a_visibility qs n name q i m until :
    qs !! name = Some q -> messages q !! i = Some m -> deleted m = false ->
    astep LVisibility (qs, n) (<[name := with_message i (set_visibility until m) q]> qs, n)
| a_forget qs n name q i m :
    qs !! name = Some q -> messages q !! i = Some m -> deleted m = false ->
    astep LForget (qs, n) (<[name := with_message i (set_receipt_handle "" m) q]> qs, n)
| a_move qs n name i q m target t m' q1 :
    qs !! name = Some q -> messages q !! i = Some m -> deleted m = false ->
    qs !! target = Some t -> moved_copy m m' ->
    <[target := push_message m' t]> qs !! name = Some q1 ->
    astep LMove (qs, n)
      (<[name := with_message i (tombstoned m) q1]> (<[target := push_message m' t]> qs), n).

(** Runs whose labels all satisfy [L]. *)
Inductive asteps (L : label -> bool) : Abs -> Abs -> Prop :=
| asteps_refl a : asteps L a a
| asteps_step a l a' a'' : L l = true -> astep l a a' -> asteps L a' a'' -> asteps L a a''.

Lemma asteps_one (L : label -> bool) l a a' : L l = true -> astep l a a' -> asteps L a a'.
Proof. intros. eapply asteps_step; [done|done|]. constructor. Qed.
Lemma asteps_trans L a a' a'' : asteps L a a' -> asteps L a' a'' -> asteps L a a''.
Proof. induction 1; intros; [done|]. eapply asteps_step; eauto. Qed.
Lemma asteps_snoc (L : label -> bool) l a a' a'' :
  asteps L a a' -> L l = true -> astep l a' a'' -> asteps L a a''.
Proof. intros. eapply asteps_trans; [done|]. by eapply asteps_one. Qed.
Lemma asteps_weaken (L L' : label -> bool) a a' :
  (forall l, L l = true -> L' l = true) -> asteps L a a' -> asteps L' a a'.
Proof. intros HL. induction 1; [constructor|]. eapply asteps_step; eauto. Qed.
Lemma asteps_inv (L : label -> bool) (P : Abs -> Prop) a a' :
  (forall l a a', L l = true -> P a -> astep l a a' -> P a') -> asteps L a a' -> P a -> P a'.
Proof. intros HP. induction 1; eauto. Qed.
Lemma asteps_fresh (L : label -> bool) qs n n' :
  L LFresh = true -> n <= n' -> asteps L (qs, n) (qs, n').
Proof.
  intros HL Hn. remember (Z.to_nat (n' - n)) as d eqn:Hd. revert n Hn Hd.
  induction d as [|d IH]; intros n Hn Hd.
  - replace n' with n by lia. constructor.
  - eapply asteps_step; [done|constructor|]. apply IH; lia.
Qed.
End Steps.

(** ** Invariants *)

Definition msg_ok (n : Z) (m : MessageState) : Prop :=
  dated (sent_at m) /\ 0 <= receive_count m <= n /\ (deleted m = true -> receipt_handle m = "").

Section Invariant.
Context (c : Config).
Implicit Types qs : gmap string QueueState.

Definition named_ok (k : string) (q : QueueState) : Prop :=
  valid_queue_name k = true /\ q_name q = k /\ q_url q = queue_url c k /\ q_arn q = queue_arn c k.
Definition queue_ok (n : Z) (k : string) (q : QueueState) : Prop :=
  named_ok k q /\ 0 <= sequence q <= n /\ Forall (msg_ok n) (messages q).

Record sqs_inv (a : Abs) : Prop := {
  inv_count : 0 <= a.2;
  inv_queues : map_Forall (queue_ok a.2) a.1;
  inv_ids : distinct_issued "msg" a.2 (tokens id_token a.1);
  inv_handles : distinct_issued "rct" a.2 (tokens handle_token a.1);
}.

Lemma msg_ok_mono n n' m : n <= n' -> msg_ok n m -> msg_ok n' m.
Proof. unfold msg_ok. intros Hn (? & ? & ?). split; [done|]. split; [lia|done]. Qed.
Lemma queue_ok_mono n n' k q : n <= n' -> queue_ok n k q -> queue_ok n' k q.
Proof.
  intros Hn (? & ? & Hm). split; [done|]. split; [lia|].
  eapply Forall_impl; [done|]. intros m. by apply msg_ok_mono.
Qed.
Lemma queues_ok_mono n n' qs : n <= n' -> map_Forall (queue_ok n) qs -> map_Forall (queue_ok n') qs.
Proof. intros Hn H k q Hq. eapply queue_ok_mono; eauto. Qed.

Lemma queues_ok_insert n qs k q :
  map_Forall (queue_ok n) qs -> queue_ok n k q -> map_Forall (queue_ok n) (<[k := q]> qs).
Proof. intros. by apply map_Forall_insert_2. Qed.

Lemma same_settings_named k q q' : same_settings q q' -> named_ok k q -> named_ok k q'.
Proof. unfold named_ok. intros (-> & -> & -> & _) H. done. Qed.

(** Replacing one message of a queue by an acceptable one. *)
Lemma queue_ok_with_message n k q i m :
  queue_ok n k q -> msg_ok n m -> queue_ok n k (with_message i m q).
Proof.
  intros (Hn & Hs & Hm) Hok. split; [done|]. split; [done|]. simpl. by apply Forall_insert.
Qed.
Lemma queue_ok_push n k q m : queue_ok n k q -> msg_ok n m -> queue_ok n k (push_message m q).
Proof.
  intros (Hn & Hs & Hm) Hok. split; [done|]. split; [done|]. simpl. apply Forall_app; auto.
Qed.

Lemma queue_msg_ok n k q i m :
  queue_ok n k q -> messages q !! i = Some m -> msg_ok n m.
Proof. intros (_ & _ & Hm) Hi. by eapply Forall_lookup_1. Qed.

Lemma delivered_fields now h vis r m :
  let m' := delivered now h vis r m in
  sent_at m' = sent_at m /\ receive_count m' = r /\ receipt_handle m' = h /\ deleted m' = deleted m
  /\ msg_id m' = msg_id m.
Proof. unfold delivered. simpl. destruct (is_zero _); simpl; done. Qed.

(** Tokens of the updated messages. *)
Lemma id_token_same m m' : msg_id m' = msg_id m -> deleted m' = deleted m -> id_token m' = id_token m.
Proof. unfold id_token. by intros -> ->. Qed.
Lemma handle_token_nil m : receipt_handle m = "" -> handle_token m = [].
Proof. unfold handle_token. by intros ->. Qed.
Lemma handle_token_one m h : receipt_handle m = h -> h <> "" -> handle_token m = [h].
Proof. unfold handle_token. intros -> Hh. by destruct h. Qed.
Lemma id_token_tombstoned m : id_token (tombstoned m) = [].
Proof. done. Qed.

(** Exchanging a message whose tokens stay. *)
Lemma tokens_kept tok qs k q i m m' :
  qs !! k = Some q -> messages q !! i = Some m -> tok m' = tok m ->
  tokens tok (<[k := with_message i m' q]> qs) ≡ₚ tokens tok qs.
Proof.
  intros Hq Hm Ht. destruct (tokens_replace tok qs k q i m m' Hq Hm) as (r & -> & H).
  unfold with_message. by rewrite H, Ht.
Qed.
Lemma tokens_dropped tok qs k q i m m' :
  qs !! k = Some q -> messages q !! i = Some m -> tok m' = [] ->
  tokens tok qs ≡ₚ tok m ++ tokens tok (<[k := with_message i m' q]> qs).
Proof.
  intros Hq Hm Ht. destruct (tokens_replace tok qs k q i m m' Hq Hm) as (r & -> & H).
  unfold with_message. by rewrite H, Ht.
Qed.

Lemma move_source_message qs k (q : QueueState) i m target t m' q1 :
  qs !! k = Some q -> messages q !! i = Some m -> qs !! target = Some t ->
  <[target := push_message m' t]> qs !! k = Some q1 -> messages q1 !! i = Some m.
Proof.
  intros Hq Hm Ht Hq1. destruct (decide (target = k)) as [->|Hne].
  - rewrite lookup_insert_eq in Hq1. injection Hq1 as <-. simpl.
    rewrite Hq in Ht. injection Ht as <-. by apply lookup_app_l_Some.
  - rewrite lookup_insert_ne in Hq1 by done. congruence.
Qed.
(** Moving a message: its copy takes over its id. *)
Lemma tokens_move tok qs k q i m target t m' q1 :
  qs !! k = Some q -> messages q !! i = Some m -> qs !! target = Some t ->
  <[target := push_message m' t]> qs !! k = Some q1 -> tok (tombstoned m) = [] ->
  tok m ++ tokens tok (<[k := with_message i (tombstoned m) q1]> (<[target := push_message m' t]> qs))
  ≡ₚ tok m' ++ tokens tok qs.
Proof.
  intros Hq Hm Ht Hq1 Htomb. rewrite <- (tokens_push tok qs target t (push_message m' t) m' Ht eq_refl).
  symmetry. apply tokens_dropped; [done| |done]. exact (move_source_message _ _ _ _ _ _ _ _ _ Hq Hm Ht Hq1).
Qed.

End Invariant.

Section Preservation.
Context (c : Config).

(** Case analysis on a step, with the same names everywhere. *)
Ltac astep_cases Hstep :=
  destruct Hstep as
    [qs n|qs n name q q' H (H1 & H2 & H3 & H4 & H5 & H6 & H7)
    |qs n name q H (H1 & H2 & H3 & H4 & H5 & H6 & H7)|qs n name|qs n name q H|qs n name q now H Hd
    |qs n name q q' m H (Hid & Hd & Hr & Hh & Hl) Hset Hm Hs
    |qs n name q i m now vis h H Hm Hl Hd Hav Hin Hhead Hid|qs n name q i m H Hm Hl Hh|qs n name q i m until H Hm Hl
    |qs n name q i m H Hm Hl|qs n name i q m target t m' q1 H Hm Hl Ht Hmv Hq1].

Lemma astep_count l a a' : astep c l a a' -> a.2 <= a'.2 <= a.2 + 1.
Proof. destruct 1; simpl; lia. Qed.

Lemma cleaned_messages q now : messages (cleaned now q) `sublist_of` messages q.
Proof. apply sublist_filter. Qed.

Lemma queue_ok_cleaned n k q now : queue_ok c n k q -> queue_ok c n k (cleaned now q).
Proof.
  intros (Hn & Hs & Hm). split; [done|]. split; [done|]. simpl.
  apply Forall_forall. intros m [_ Hin]%list_elem_of_filter. by eapply Forall_forall in Hm.
Qed.

Lemma msg_ok_delivered n now h vis m :
  msg_ok n m -> deleted m = false -> msg_ok (n + 1) (delivered now h vis (receive_count m + 1) m).
Proof.
  intros (Hd & Hr & _) Hl. destruct (delivered_fields now h vis (receive_count m + 1) m)
    as (E1 & E2 & E3 & E4 & _). unfold msg_ok. rewrite E1, E2, E4, Hl.
  split; [done|]. split; [lia|done].
Qed.

Lemma msg_ok_moved n m m' : 0 <= n -> msg_ok n m -> moved_copy m m' -> msg_ok n m'.
Proof.
  intros Hn0 (Hd & Hr & _) (_ & _ & _ & _ & _ & Hs & _ & Hc & Hh & Hl). unfold msg_ok.
  rewrite Hs, Hc. split; [done|]. split; [lia|by intros _].
Qed.

Lemma astep_queues l a a' :
  sqs_inv c a -> astep c l a a' -> map_Forall (queue_ok c a'.2) a'.1.
Proof.
  intros [Hn Hq _ _] Hstep.
  assert (forall qs' n', n' = a.2 + 1 -> a.1 = qs' -> map_Forall (queue_ok c n') qs') as Hup
    by (intros ? ? -> <-; eapply queues_ok_mono; [|done]; lia).
  astep_cases Hstep; simpl in *;
    try (pose proof (Hq _ _ H) as Hok; destruct (Hok) as (Hnamed & Hseq & Hmsgs)).
  - by apply Hup.
  - apply queues_ok_insert; [done|]. unfold queue_ok, named_ok. rewrite H1, H2, H3, H5, H6. done.
  - apply queues_ok_insert; [done|]. unfold queue_ok, named_ok. rewrite H5, H6.
    split; [done|]. split; [lia|by constructor].
  - by apply map_Forall_delete.
  - apply queues_ok_insert; [done|]. split; [done|]. split; [done|]. by constructor.
  - apply queues_ok_insert; [done|]. by apply queue_ok_cleaned.
  - apply queues_ok_insert; [by apply Hup|]. split; [by eapply same_settings_named|].
    split; [lia|]. rewrite Hm. apply Forall_app. split.
    + eapply Forall_impl; [done|]. intros m'. apply msg_ok_mono. lia.
    + apply Forall_singleton. unfold msg_ok. rewrite Hr, Hh. repeat split; auto; try apply Hd; lia.
  - apply queues_ok_insert; [by apply Hup|]. apply queue_ok_with_message.
    + eapply queue_ok_mono; [|done]. lia.
    + apply msg_ok_delivered; [|done]. by eapply queue_msg_ok.
  - apply queues_ok_insert; [done|]. apply queue_ok_with_message; [done|].
    destruct (queue_msg_ok c _ _ _ _ _ Hok Hm) as (? & ? & _). by split.
  - apply queues_ok_insert; [done|]. apply queue_ok_with_message; [done|].
    by apply (queue_msg_ok c _ _ _ _ _ Hok Hm).
  - apply queues_ok_insert; [done|]. apply queue_ok_with_message; [done|].
    destruct (queue_msg_ok c _ _ _ _ _ Hok Hm) as (? & ? & _). by split.
  - pose proof (queue_msg_ok c _ _ _ _ _ Hok Hm) as Hmo.
    assert (map_Forall (queue_ok c n) (<[target := push_message m' t]> qs)) as Hpush.
    { apply queues_ok_insert; [done|]. apply queue_ok_push; [by apply (Hq _ _ Ht)|].
      by eapply msg_ok_moved. }
    apply queues_ok_insert; [done|]. apply queue_ok_with_message; [by apply (Hpush _ _ Hq1)|].
    destruct Hmo as (? & ? & _). by split.
Qed.

(** How a step changes the identifiers of the live messages. *)
Lemma astep_ids l a a' :
  astep c l a a' ->
  match l with
  | LSend => exists id, issued_at "msg" a.2 id /\ a'.2 = a.2 + 1
                        /\ tokens id_token a'.1 ≡ₚ id :: tokens id_token a.1
  | LAck => exists id, tokens id_token a.1 ≡ₚ id :: tokens id_token a'.1
  | LDrop | LPurge | LClean => tokens id_token a'.1 ⊆+ tokens id_token a.1
  | _ => tokens id_token a'.1 ≡ₚ tokens id_token a.1
  end.
Proof.
  intros Hstep. astep_cases Hstep; simpl.
  - done.
  - by apply tokens_same with q.
  - by apply tokens_create.
  - apply tokens_delete.
  - apply tokens_sublist with q; [done|]. apply sublist_nil_l.
  - apply tokens_sublist with q; [done|]. apply cleaned_messages.
  - exists (msg_id m). split_and!; [done..|]. rewrite (tokens_push _ _ _ q _ m) by done.
    unfold id_token at 1. by rewrite Hl.
  - eapply tokens_kept; [done|done|].
    destruct (delivered_fields now h vis (receive_count m + 1) m) as (_&_&_&?&?).
    by apply id_token_same.
  - exists (msg_id m). rewrite (tokens_dropped id_token _ _ q i m (tombstoned m)) by done.
    unfold id_token at 1. by rewrite Hl.
  - eapply tokens_kept; [done|done|by apply id_token_same].
  - eapply tokens_kept; [done|done|by apply id_token_same].
  - pose proof (tokens_move id_token _ _ _ _ _ _ _ _ _ H Hm Ht Hq1 (id_token_tombstoned m)) as Hp.
    destruct Hmv as (Hid & _ & _ & _ & _ & _ & _ & _ & _ & Hl').
    rewrite (id_token_same m m') in Hp by congruence. by apply Permutation_app_inv_l in Hp.
Qed.

(** How a step changes the receipt handles. *)
Lemma astep_handles l a a' :
  astep c l a a' ->
  tokens handle_token a'.1 ⊆+ tokens handle_token a.1
  \/ exists h rest, issued_at "rct" a.2 h /\ a'.2 = a.2 + 1 /\ rest ⊆+ tokens handle_token a.1
       /\ tokens handle_token a'.1 ≡ₚ h :: rest.
Proof.
  intros Hstep. astep_cases Hstep; simpl.
  - by left.
  - left. by rewrite (tokens_same _ _ _ q).
  - left. by rewrite tokens_create.
  - left. apply tokens_delete.
  - left. apply tokens_sublist with q; [done|]. apply sublist_nil_l.
  - left. apply tokens_sublist with q; [done|]. apply cleaned_messages.
  - left. rewrite (tokens_push _ _ _ q _ m) by done. by rewrite handle_token_nil.
  - right. destruct (delivered_fields now h vis (receive_count m + 1) m) as (_&_&Hh&_&_).
    destruct (tokens_replace handle_token qs name q i m
      (delivered now h vis (receive_count m + 1) m) H Hm) as (rest & Hr & Hr').
    exists h, rest. split_and!; [done|done|rewrite Hr; by apply submseteq_inserts_l|].
    unfold with_message. rewrite Hr', (handle_token_one _ h); [done|done|].
    by eapply issued_at_nonempty.
  - left. rewrite (tokens_dropped handle_token qs _ q i m (tombstoned m)) by done.
    by apply submseteq_inserts_l.
  - left. by rewrite (tokens_kept handle_token qs _ q i m).
  - left. rewrite (tokens_dropped handle_token qs _ q i m (set_receipt_handle "" m)) by done.
    by apply submseteq_inserts_l.
  - left. pose proof (tokens_move handle_token _ _ _ _ _ _ _ _ _ H Hm Ht Hq1 eq_refl) as Hp.
    destruct Hmv as (_ & _ & _ & _ & _ & _ & _ & _ & Hh' & _).
    rewrite (handle_token_nil m') in Hp by done. simpl in Hp. rewrite <- Hp.
    by apply submseteq_inserts_l.
Qed.

Lemma astep_inv l a a' : sqs_inv c a -> astep c l a a' -> sqs_inv c a'.
Proof.
  intros Hinv Hstep. pose proof (astep_count _ _ _ Hstep) as Hn.
  destruct (Hinv) as [Hn0 _ Hids Hhandles]. split.
  - lia.
  - by eapply astep_queues.
  - pose proof (astep_ids _ _ _ Hstep) as Heff.
    destruct l; try (by eapply distinct_issued_mono; [|eapply distinct_issued_perm; [done|done]]; lia);
      try (eapply distinct_issued_mono; [|by eapply distinct_issued_sub]; lia).
    + destruct Heff as (id & Hid & -> & Hp). eapply distinct_issued_perm; [done|].
      by apply distinct_issued_cons.
    + destruct Heff as (id & Hp). eapply distinct_issued_mono; [|eapply distinct_issued_sub; [|done]].
      * lia.
      * rewrite Hp. by apply submseteq_cons.
  - destruct (astep_handles _ _ _ Hstep) as [Hs|(h & rest & Hh & -> & Hs & Hp)].
    + eapply distinct_issued_mono; [|by eapply distinct_issued_sub]. lia.
    + eapply distinct_issued_perm; [done|]. apply distinct_issued_cons; [done|done|].
      by eapply distinct_issued_sub.
Qed.

Lemma asteps_sqs_inv L a a' : asteps c L a a' -> sqs_inv c a -> sqs_inv c a'.
Proof. apply asteps_inv. intros ? ? ? _ ? ?. by eapply astep_inv. Qed.
End Preservation.
