(* ===== verification/SqsRefine.v ===== *)
(** Every API call of the SQS service refines the abstract machine of [SqsSpec]:
    symbolic-execution rules for the primitives, then one refinement lemma per call. *)

From S2P Require Import Prelude RustStr RustNum SqsTime SqsModel SqsValidation SqsServer SqsMessages SqsSpec.
Local Open Scope Z_scope.

Definition abs (w : World) : Abs := (w_queues w, w_msg_counter w).

(** Fewer than [2 ^ 63] identifiers will have been issued after [k] more. *)
Definition room (k : Z) (w : World) : Prop := w_msg_counter w + k < 2 ^ 63.

Section Rules.
Context `{Env}.

(** The clock reads a time between 2006 and 2554, with nanoseconds below a second. *)
Definition clock_modern : Prop :=
  forall t, 0 <= (sys_clock t).2 < 10 ^ 9 /\ modern ((sys_clock t).1 * 1000000000 + (sys_clock t).2).

Lemma dated_clock t :
  clock_modern -> dated (rfc3339_from_unix (wrap_s 64 (sys_clock t).1) (sys_clock t).2).
Proof.
  intros Hc. destruct (Hc t) as [Hn Hm]. unfold modern in Hm. unfold dated.
  rewrite wrap_s_id by lia. rewrite unix_nanos_show by lia. lia.
Qed.

(** The time a call that starts in [w] reads: its first operating system call. *)
Definition now_at (w : World) : string :=
  rfc3339_from_unix (wrap_s 64 (sys_clock (w_tick w)).1) (sys_clock (w_tick w)).2.
Definition reading (w : World) (now : string) : Prop := dated now /\ now = now_at w.

Lemma wp_now_dated (Q : outcome string -> World -> Prop) w :
  clock_modern ->
  (forall now, reading w now -> Q (Ok now) (set_tick (S (w_tick w)) w)) -> wp now_rfc3339 Q w.
Proof.
  intros Hc HQ. pose proof (dated_clock (w_tick w) Hc) as Hd.
  unfold reading, now_at in HQ. unfold now_rfc3339, unix_now, next_tick, wp, mbind, m_bind, mret, m_ret. simpl.
  destruct (sys_clock (w_tick w)) as [s n]. simpl in *. by apply HQ.
Qed.

Lemma wp_new_opaque_id p (Q : outcome string -> World -> Prop) w :
  clock_modern -> 0 <= w_msg_counter w -> room 1 w ->
  (forall id, issued_at p (w_msg_counter w) id ->
     Q (Ok id) (set_tick (S (w_tick w)) (set_msg_counter (w_msg_counter w + 1) w))) ->
  wp (new_opaque_id p) Q w.
Proof.
  intros Hc Hn Hr HQ. unfold room in Hr. destruct (Hc (w_tick w)) as [_ Hm].
  unfold new_opaque_id, unix_now, next_tick, wp, mbind, m_bind, mret, m_ret, gets, modify. simpl.
  destruct (sys_clock (w_tick w)) as [s n]. simpl in *. rewrite wrap_u_id by lia.
  apply HQ. by exists (s * 1000000000 + n).
Qed.

(** [persist] leaves the server and the counters alone, and does not panic. *)
Lemma wp_persist_io (Q : outcome unit -> World -> Prop) w :
  (forall o w', is_panic o = false -> server w' = server w -> w_msg_counter w' = w_msg_counter w ->
     Q o w') -> wp persist Q w.
Proof.
  intros HQ. unfold persist. wp_steps. destruct (is_empty _).
  - apply wp_ret. by apply HQ.
  - repeat (wp_step; apply wp_fs_call; [intros _|intros e _; by apply HQ]; simpl).
    apply wp_modify. by apply HQ.
Qed.

Lemma wp_persist_or_io rollback (Q : outcome unit -> World -> Prop) w :
  (forall w', server w' = server w -> w_msg_counter w' = w_msg_counter w -> Q (Ok tt) w') ->
  (forall e w', server w' = server w -> w_msg_counter w' = w_msg_counter w ->
     Q (Err e) (rollback w')) ->
  wp (persist_or rollback) Q w.
Proof.
  intros Hok Herr. unfold persist_or. apply wp_bind, wp_catch, wp_persist_io.
  intros [[]|e|p] w' Hp Hs Hn; simpl; [|wp_steps; by apply Herr|done].
  apply wp_ret. by apply Hok.
Qed.

Lemma wp_queue_at name q (Q : outcome QueueState -> World -> Prop) w :
  w_queues w !! name = Some q -> Q (Ok q) w -> wp (queue_unwrap name) Q w.
Proof. apply wp_queue_unwrap. Qed.

Lemma wp_update_queue name f q (Q : outcome unit -> World -> Prop) w :
  w_queues w !! name = Some q -> Q (Ok tt) (set_queues (<[name := f q]> (w_queues w)) w) ->
  wp (update_queue name f) Q w.
Proof. intros Hq HQ. unfold update_queue. apply wp_bind, (wp_queue_at _ _ _ _ Hq). simpl. done. Qed.

Lemma wp_message_at name i q m (Q : outcome MessageState -> World -> Prop) w :
  w_queues w !! name = Some q -> messages q !! i = Some m -> Q (Ok m) w ->
  wp (message_at name i) Q w.
Proof.
  intros Hq Hm HQ. unfold message_at. apply wp_bind, (wp_queue_at _ _ _ _ Hq). simpl. rewrite Hm. done.
Qed.

Lemma wp_put_message name i q m m' (Q : outcome unit -> World -> Prop) w :
  w_queues w !! name = Some q -> messages q !! i = Some m ->
  Q (Ok tt) (set_queues (<[name := with_message i m' q]> (w_queues w)) w) ->
  wp (put_message name i m') Q w.
Proof.
  intros Hq Hm HQ. unfold put_message. apply wp_bind, (wp_queue_at _ _ _ _ Hq). simpl.
  apply lookup_lt_Some in Hm. destruct (Nat.ltb_spec i (length (messages q))); [done|lia].
Qed.

(** [i128] arithmetic on two dates of the supported range is exact. *)
Lemma checked_age now sent :
  dated now -> dated sent ->
  checked_i128 (unix_nanos_from_rfc3339 now - unix_nanos_from_rfc3339 sent)
  = Ok (unix_nanos_from_rfc3339 now - unix_nanos_from_rfc3339 sent).
Proof.
  unfold dated, checked_i128, in_i128. intros H1 H2.
  destruct (_ && _) eqn:E; [done|]. unfold i128_min, i128_max in E. lia.
Qed.

Lemma retain_message_ok q now m :
  dated now -> dated (sent_at m) ->
  retain_message (retention_of q) now m = Ok (bool_decide (retained q now m)).
Proof.
  intros Hnow Hm. unfold retain_message. rewrite checked_age by done.
  case_bool_decide as Hd; unfold retained, expired in Hd;
    destruct (deleted m), (0 <? retention_of q), (_ <? _) eqn:Hlt; simpl in *; rewrite ?Hlt;
    intuition congruence.
Qed.

Lemma retain_messages_ok q now ms :
  dated now -> Forall (fun m => dated (sent_at m)) ms ->
  retain_messages (retention_of q) now ms = Ok (base.filter (retained q now) ms).
Proof.
  intros Hnow. induction 1 as [|m ms Hm Hms IH]; [done|]. cbn [retain_messages].
  rewrite IH, retain_message_ok, filter_cons by done. simpl.
  case_bool_decide; by destruct (decide _).
Qed.

Lemma wp_cleanup_queue c k n name now q (Q : outcome unit -> World -> Prop) w :
  queue_ok c n k q -> dated now -> w_queues w !! name = Some q ->
  Q (Ok tt) (set_queues (<[name := cleaned now q]> (w_queues w)) w) ->
  wp (cleanup_queue name now) Q w.
Proof.
  intros (_ & _ & Hm) Hnow Hq HQ. unfold cleanup_queue.
  apply wp_bind, (wp_queue_at _ _ _ _ Hq). simpl. apply wp_bind, wp_lift.
  unfold cleanup_expired_messages. fold (retention_of q). rewrite retain_messages_ok; [done|done|].
  eapply Forall_impl; [exact Hm|]. by intros m (? & _).
Qed.
End Rules.

(** ** Refinement of the calls *)

(** A call from [w] ends in [w'] after abstract steps labelled in [L], without a
    panic, and having issued at most [k] identifiers. *)
Definition refines {A} (L : label -> bool) (k : Z) (w : World) (o : outcome A) (w' : World) : Prop :=
  is_panic o = false /\ config (server w') = config (server w)
  /\ asteps (config (server w)) L (abs w) (abs w') /\ w_msg_counter w' <= w_msg_counter w + k.

Section Refinement.
Context `{Env}.

Record ready (k : Z) (w : World) : Prop := {
  ready_clock : clock_modern;
  ready_inv : sqs_inv (config (server w)) (abs w);
  ready_room : room k w;
}.

Lemma ready_queue k w name q :
  ready k w -> w_queues w !! name = Some q ->
  queue_ok (config (server w)) (w_msg_counter w) name q.
Proof. intros [_ [_ Hqs _ _] _] Hq. by apply (Hqs name). Qed.

(** Unchanged queues, more identifiers. *)
Lemma refines_fresh {A} (L : label -> bool) k w (o : outcome A) w' :
  L LFresh = true -> is_panic o = false -> server w' = server w ->
  w_msg_counter w <= w_msg_counter w' <= w_msg_counter w + k -> refines L k w o w'.
Proof.
  intros HL Ho Hs Hn. unfold refines, abs, w_queues. rewrite Hs. split_and!; try done; [|lia].
  apply asteps_fresh; [done|lia].
Qed.
Lemma refines_same {A} L k w (o : outcome A) w' :
  0 <= k -> is_panic o = false -> server w' = server w -> w_msg_counter w' = w_msg_counter w ->
  refines L k w o w'.
Proof.
  intros Hk Ho Hs Hn. unfold refines, abs, w_queues. rewrite Hs, Hn. split_and!; [done|done| |lia].
  constructor.
Qed.
Lemma refines_err {A B} L k w (o : outcome A) (o' : outcome B) w' :
  is_panic o' = false -> refines L k w o w' -> refines L k w o' w'.
Proof. intros Ho (_ & ? & ? & ?). done. Qed.

Definition send_labels (l : label) : bool :=
  bool_decide (l ∈ [LFresh; LClean; LSend]).
Definition receive_labels (l : label) : bool :=
  bool_decide (l ∈ [LFresh; LClean; LDeliver; LMove]).
Definition ack_labels (l : label) : bool := bool_decide (l ∈ [LAck; LForget]).
Definition visibility_labels (l : label) : bool := bool_decide (l ∈ [LVisibility; LForget]).
Definition move_labels (l : label) : bool := bool_decide (l ∈ [LFresh; LMove]).
Definition manage_labels (l : label) : bool :=
  bool_decide (l ∈ [LConfig; LCreate; LDrop; LPurge]).

Lemma no_panic_attr_name n : no_panic (validate_message_attribute_name n).
Proof. unfold validate_message_attribute_name. solve_no_panic. Qed.
Lemma no_panic_attr_value n a : no_panic (validate_message_attribute_value n a).
Proof. unfold validate_message_attribute_value, attr_err. solve_no_panic. Qed.
Hint Resolve no_panic_attr_name no_panic_attr_value : no_panic.
Lemma no_panic_attributes l : no_panic (try_each check_attribute l).
Proof. apply no_panic_try_each. intros p. unfold check_attribute. solve_no_panic. Qed.
Lemma no_panic_system_attribute n a : no_panic (validate_message_system_attribute n a).
Proof. unfold validate_message_system_attribute, attr_err. solve_no_panic. Qed.
Lemma no_panic_dedup_id q input : no_panic (fifo_deduplication_id q input).
Proof. unfold fifo_deduplication_id. solve_no_panic. Qed.

(** An error of a check that cannot panic leaves the call before any change. *)
Lemma wp_check {A} (o : outcome A) (Q : outcome A -> World -> Prop) w :
  no_panic o -> (forall a, o = Ok a -> Q (Ok a) w) -> (forall e, Q (Err e) w) -> wp (lift o) Q w.
Proof. intros Ho Hok Herr. apply wp_lift. destruct o; auto. done. Qed.

Lemma cleaned_twice now q : cleanup_expired_deduplication (cleaned now q) now = cleaned now q.
Proof.
  unfold cleaned, cleanup_expired_deduplication, set_dedup, set_messages. simpl. f_equal.
  rewrite map_filter_filter_l; [done|]. done.
Qed.

Lemma insert_cleaned qs name now q :
  <[name := cleanup_expired_deduplication (cleaned now q) now]> (<[name := cleaned now q]> qs)
  = (<[name := cleaned now q]> qs : gmap string QueueState).
Proof. by rewrite cleaned_twice, insert_insert_eq. Qed.

(** The state between cleanup and push: the queue cleaned at [now], [j] more
    identifiers issued. *)
Definition cleaned_world (name now : string) (q : QueueState) (j : Z) (w0 w : World) : Prop :=
  config (server w) = config (server w0)
  /\ w_queues w = <[name := cleaned now q]> (w_queues w0)
  /\ w_msg_counter w = w_msg_counter w0 + j.

Lemma cleaned_refines {A} L k w0 name now q j (o : outcome A) w :
  L LFresh = true -> L LClean = true ->
  w_queues w0 !! name = Some q -> dated now -> cleaned_world name now q j w0 w -> 0 <= j <= k ->
  is_panic o = false -> refines L k w0 o w.
Proof.
  intros HF HC Hq Hd (Hc & Hqs & Hn) Hj Ho. split_and!; [done|done| |lia].
  unfold abs. rewrite Hqs, Hn. eapply asteps_step; [exact HC|by apply a_clean|].
  apply asteps_fresh; [done|lia].
Qed.

Lemma set_queues_same w name q :
  w_queues w !! name = Some q -> set_queues (<[name := q]> (w_queues w)) w = w.
Proof. intros Hq. rewrite insert_id by done. by destruct w as [[]]. Qed.

(** The message recorded as a duplicate of deduplication id [d] at time [now]. *)
Definition duplicate_of (q : QueueState) (now d : string) : option MessageState :=
  e ← dedup q !! d;
  if before now (expires_at e) then dedup_message e else None.

(** A FIFO queue that took a message: its sequence number and deduplication entry. *)
Definition enqueued (now d : string) (m : MessageState) (q : QueueState) : QueueState :=
  set_sequence (sequence q + 1)
    (set_dedup (<[d := mkDedup (add_seconds now FIFO_DEDUPLICATION_WINDOW_SECONDS)
                         (Some (set_fifo_ids d (show_Z (sequence q + 1)) m))]> (dedup q)) q).

Lemma wp_fifo_stage name now q input m (Q : outcome (MessageState + MessageState) -> World -> Prop) w :
  w_queues w !! name = Some (cleaned now q) -> 0 <= sequence q -> sequence q + 1 < 2 ^ 63 ->
  (forall e, Q (Err e) w) ->
  (forall d m', fifo_deduplication_id (cleaned now q) input = Ok d ->
     duplicate_of (cleaned now q) now d = Some m' -> Q (Ok (inl m')) w) ->
  (forall d, fifo_deduplication_id (cleaned now q) input = Ok d ->
     duplicate_of (cleaned now q) now d = None ->
     Q (Ok (inr (set_fifo_ids d (show_Z (sequence q + 1)) m)))
       (set_queues (<[name := enqueued now d m (cleaned now q)]> (w_queues w)) w)) ->
  wp (fifo_stage name now (cleaned now q) input m) Q w.
Proof.
  intros Hq Hs0 Hs Herr Hdup Hnew. unfold fifo_stage. apply wp_bind, wp_check; simpl;
    [apply no_panic_dedup_id|intros d Hd|done].
  apply wp_bind. eapply wp_update_queue; [done|]. rewrite cleaned_twice, (set_queues_same _ _ _ Hq).
  simpl. apply wp_bind. eapply wp_queue_at; [done|]. simpl. specialize (Hdup d). specialize (Hnew d).
  unfold duplicate_of in Hdup, Hnew. simpl in Hdup, Hnew.
  assert (checked_u64 (sequence q + 1) = Ok (sequence q + 1)) as Hck.
  { unfold checked_u64. destruct (_ && _) eqn:E; [done|lia]. }
  destruct (base.filter _ (dedup q) !! d) as [e|] eqn:He; simpl in Hdup, Hnew.
  - destruct (before now (expires_at e)); [destruct (dedup_message e) as [m'|]|].
    + apply wp_ret. by apply Hdup.
    + rewrite Hck. wp_steps. apply wp_put_queue. simpl. apply wp_ret. by apply Hnew.
    + rewrite Hck. wp_steps. apply wp_put_queue. simpl. apply wp_ret. by apply Hnew.
  - rewrite Hck. wp_steps. apply wp_put_queue. simpl. apply wp_ret. by apply Hnew.
Qed.


(** ** Sending *)

Definition send_name (input : SendMessageRequest) : string :=
  queue_name_from_url (sm_queue_url input).
Definition send_delay (q : QueueState) (input : SendMessageRequest) : Z :=
  default (int_attribute (q_attributes q) "DelaySeconds" 0) (sm_delay_seconds input).
Definition sent_message (input : SendMessageRequest) (id now : string) (delay : Z) : MessageState :=
  mkMsg id (sm_message_body input) (md5_hex (sm_message_body input))
    (sm_message_attributes input) (sm_message_system_attributes input) now
    (add_seconds now delay) "" 0 "" "" false (sm_message_group_id input) "" "" "".

(** What a request must satisfy to be taken. *)
Definition acceptable (c : Config) (q : QueueState) (input : SendMessageRequest) : Prop :=
  sm_message_body input <> "" /\ str_len (sm_message_body input) <= max_message_bytes c
  /\ valid_message_body (sm_message_body input) = true
  /\ 0 <= send_delay q input <= MAX_DELAY_SECONDS
  /\ (is_fifo_queue q = true -> sm_delay_seconds input = None /\ sm_message_group_id input <> "").

(** The queue after a message was taken, and the message as pushed. *)
Definition pushed (q : QueueState) (now : string) (d : option string) (m : MessageState)
    : MessageState * QueueState :=
  match d with
  | Some d => let m := set_fifo_ids d (show_Z (sequence q + 1)) m in
              (m, push_message m (set_sequence (sequence q + 1)
                    (set_dedup (<[d := mkDedup (add_seconds now FIFO_DEDUPLICATION_WINDOW_SECONDS)
                                         (Some m)]> (dedup q)) q)))
  | None => (m, push_message m q)
  end.

(** Every way a send can end. *)
Inductive send_spec (input : SendMessageRequest) (w : World) : outcome MessageState -> World -> Prop :=
| send_rejected e w' :
    server w' = server w -> w_msg_counter w' = w_msg_counter w ->
    send_spec input w (Err e) w'
| send_refused e w' q now j :
    w_queues w !! send_name input = Some q -> reading w now ->
    cleaned_world (send_name input) now q j w w' -> 0 <= j <= 1 ->
    send_spec input w (Err e) w'
| send_duplicate w' q now d m :
    w_queues w !! send_name input = Some q -> reading w now -> acceptable (config (server w)) q input ->
    is_fifo_queue q = true -> fifo_deduplication_id q input = Ok d ->
    duplicate_of (cleaned now q) now d = Some m ->
    cleaned_world (send_name input) now q 1 w w' ->
    send_spec input w (Ok m) w'
| send_taken w' q now id d m q' :
    w_queues w !! send_name input = Some q -> reading w now -> acceptable (config (server w)) q input ->
    issued_at "msg" (w_msg_counter w) id ->
    (if is_fifo_queue q
     then exists d', d = Some d' /\ fifo_deduplication_id q input = Ok d'
                     /\ duplicate_of (cleaned now q) now d' = None
     else d = None) ->
    pushed (cleaned now q) now d (sent_message input id now (send_delay q input)) = (m, q') ->
    config (server w') = config (server w) ->
    w_queues w' = <[send_name input := q']> (w_queues w) ->
    w_msg_counter w' = w_msg_counter w + 1 ->
    send_spec input w (Ok m) w'
| send_rolled_back e w' :
    server w' = server w -> w_msg_counter w' = w_msg_counter w + 1 ->
    send_spec input w (Err e) w'.


Lemma pushed_undo q now d m0 m q' :
  pushed (cleaned now q) now d m0 = (m, q') -> restore_sent q q' = q.
Proof. unfold pushed. destruct d; intros [= <- <-]; by destruct q. Qed.

Lemma fifo_id_group q input d : fifo_deduplication_id q input = Ok d -> sm_message_group_id input <> "".
Proof. unfold fifo_deduplication_id. by destruct (sm_message_group_id input). Qed.

(** The end of [send_message]: push, persist, or put the queue back. *)
Lemma wp_send_finish input w0 w q now d m0 m q' qm :
  w_queues w0 !! send_name input = Some q -> pushed (cleaned now q) now d m0 = (m, q') ->
  push_message m qm = q' -> config (server w) = config (server w0) ->
  move_tasks (server w) = move_tasks (server w0) -> load_err (server w) = load_err (server w0) ->
  w_queues w = <[send_name input := qm]> (w_queues w0) ->
  w_msg_counter w = w_msg_counter w0 + 1 ->
  (forall w', config (server w') = config (server w0) ->
     w_queues w' = <[send_name input := q']> (w_queues w0) ->
     w_msg_counter w' = w_msg_counter w0 + 1 -> send_spec input w0 (Ok m) w') ->
  wp (update_queue (send_name input) (push_message m);;
      persist_or (alter_queue (send_name input) (restore_sent q));; mret m) (send_spec input w0) w.
Proof.
  intros Hq Hp Hqm Hc Ht Hl Hqs Hn Hok. apply wp_bind. eapply wp_update_queue.
  { rewrite Hqs. apply lookup_insert_eq. }
  rewrite Hqs, insert_insert_eq, Hqm. simpl. apply wp_bind, wp_persist_or_io; simpl.
  - intros w' Hs Hn'. apply wp_ret, Hok; unfold w_queues; rewrite ?Hs, ?Hn'; simpl; first [done | congruence].
  - intros e w' Hs Hn'. apply send_rolled_back; [|simpl; congruence].
    pose proof (pushed_undo _ _ _ _ _ _ Hp) as Hundo. unfold alter_queue.
    assert (w_queues w' = <[send_name input := q']> (w_queues w0)) as -> by (unfold w_queues; by rewrite Hs).
    assert (alter (restore_sent q) (send_name input) (<[send_name input:=q']> (w_queues w0)) = w_queues w0) as ->.
    { apply map_eq. intros k. destruct (decide (send_name input = k)) as [<-|Hne].
      - rewrite lookup_alter_eq, lookup_insert_eq, Hq. simpl. by rewrite Hundo.
      - by rewrite lookup_alter_ne, lookup_insert_ne by done. }
    apply server_ext; simpl; rewrite ?Hs; simpl; first [done | congruence].
Qed.

Lemma acceptable_intro c q input :
  is_empty (sm_message_body input) = false ->
  (0 <? max_message_bytes c) && (max_message_bytes c <? str_len (sm_message_body input)) = false ->
  negb (valid_message_body (sm_message_body input)) = false ->
  is_fifo_queue q && bool_decide (is_Some (sm_delay_seconds input)) = false ->
  (send_delay q input <? 0) = false -> (MAX_DELAY_SECONDS <? send_delay q input) = false ->
  (is_fifo_queue q = true -> sm_message_group_id input <> "") ->
  acceptable c q input.
Proof.
  intros Hb Hl Hv Hf Hd1 Hd2 Hg. assert (0 < max_message_bytes c) as Hpos.
  { unfold max_message_bytes. destruct (Z.leb_spec (cfg_max_message_bytes c) 0); lia. }
  split_and!; [intros E; by rewrite E in Hb|lia|by destruct (valid_message_body _)|lia..|].
  intros Hfifo. split; [|auto]. rewrite Hfifo in Hf. simpl in Hf.
  apply bool_decide_eq_false in Hf. by destruct (sm_delay_seconds input) as [d|]; [destruct Hf; exists d|].
Qed.

Lemma send_message_spec_wp input w :
  ready 1 w -> wp (send_message input) (send_spec input w) w.
Proof.
  intros [Hclock Hinv Hroom]. unfold send_message.
  assert (forall e w', server w' = server w -> w_msg_counter w' = w_msg_counter w ->
            send_spec input w (Err e) w') as Hrej by (intros; by apply send_rejected).
  do 2 (apply wp_bind, wp_guard; intros ?; simpl; [by apply Hrej|]).
  wp_step. apply wp_gets. simpl. do 2 (apply wp_bind, wp_guard; intros ?; simpl; [by apply Hrej|]).
  apply wp_bind, wp_check; simpl; [apply no_panic_attributes|intros _ _|intros e; by apply Hrej].
  apply wp_bind, wp_check; simpl;
    [apply no_panic_try_each; intros; apply no_panic_system_attribute|intros _ _|intros e; by apply Hrej].
  apply wp_bind, wp_require_queue; simpl; [intros q Hq _|by apply Hrej].
  apply wp_bind, wp_guard; intros Hfd; simpl; [by apply Hrej|].
  apply wp_bind, wp_now_dated; [done|]. intros now Hread. pose proof (proj1 Hread) as Hnow. simpl.
  pose proof (ready_queue 1 w _ q ltac:(done) Hq) as Hok.
  apply wp_bind. eapply wp_cleanup_queue; [exact Hok|done|done|]. simpl.
  apply wp_bind. eapply wp_queue_at; [apply lookup_insert_eq|]. simpl.
  fold (send_name input) (send_delay q input).
  apply wp_bind, wp_guard; intros Hd1; simpl.
  { eapply (send_refused _ _ _ _ q now 0); [done|done|split_and!; simpl; try done; lia|lia]. }
  apply wp_bind, wp_guard; intros Hd2; simpl.
  { eapply (send_refused _ _ _ _ q now 0); [done|done|split_and!; simpl; try done; lia|lia]. }
  apply wp_bind, wp_new_opaque_id; simpl; [done|apply Hinv|done|]. intros id Hid.
  fold (sent_message input id now (send_delay q input)).
  set (w1 := set_tick _ (set_msg_counter _ _)).
  assert (cleaned_world (send_name input) now q 1 w w1) as Hw1 by done.
  destruct (is_fifo_queue q) eqn:Hfifo.
  - destruct Hok as (_ & Hseq & _). unfold room in Hroom. simpl in Hseq.
    apply wp_bind, wp_fifo_stage; simpl; [apply lookup_insert_eq|lia|lia| | |].
    + intros e. eapply send_refused; [done|done|exact Hw1|lia].
    + intros d m Hd Hdup. apply wp_ret. eapply send_duplicate; [done|done| |done|exact Hd|exact Hdup|done].
      apply acceptable_intro; rewrite ?Hfifo; try done. intros _. by eapply fifo_id_group.
    + intros d Hd Hdup. eapply wp_send_finish with (d := Some d); [exact Hq|reflexivity|reflexivity|done..| |done|].
      { apply insert_insert_eq. }
      intros w' Hc' Hqs' Hn'. eapply send_taken with (d := Some d); [done|exact Hread| |exact Hid| |reflexivity|done..].
      * apply acceptable_intro; rewrite ?Hfifo; try done. intros _. by eapply fifo_id_group.
      * rewrite Hfifo. exists d. done.
  - eapply wp_bind, wp_ret, wp_send_finish with (d := None); [exact Hq|reflexivity|reflexivity|done..|].
    intros w' Hc' Hqs' Hn'. eapply send_taken with (d := None); [done|exact Hread| |exact Hid| |reflexivity|done..].
    + apply acceptable_intro; rewrite ?Hfifo; try done.
    + by rewrite Hfifo.
Qed.

Lemma cleaned_settings now q : same_settings q (cleaned now q).
Proof. by repeat split. Qed.

Lemma send_spec_refines input w o w' :
  ready 1 w -> send_spec input w o w' -> refines send_labels 1 w o w'.
Proof.
  intros [_ [Hn0 _ _ _] _] Hs. simpl in Hn0.
  destruct Hs as [e w' Hs Hn|e w' q now j Hq (Hd & _) Hw Hj|w' q now d m Hq (Hd & _) _ _ _ _ Hw
    |w' q now id d m q' Hq (Hd & _) Hacc Hid Hfd Hp Hc Hqs Hn|e w' Hs Hn].
  - apply refines_same; [lia|done..].
  - by eapply cleaned_refines.
  - eapply cleaned_refines; [done|done|done|done|exact Hw|lia|done].
  - split_and!; [done|done| |lia]. unfold abs. rewrite Hqs, Hn.
    eapply asteps_step; [|by apply a_clean|]; [done|].
    rewrite <- (insert_insert_eq _ (send_name input) q' (cleaned now q)).
    eapply asteps_one; [|eapply (a_send _ _ _ _ (cleaned now q) q' m); [apply lookup_insert_eq|..]]; [done|..];
      unfold pushed in Hp; destruct d; injection Hp as <- <-; simpl; auto; by repeat split; try apply Hd.
  - apply refines_fresh; [done|done|done|lia].
Qed.
End Refinement.
