(* ===== verification/SqsReceive.v ===== *)
(** Receiving from an SQS queue: what the scan of [receive_available_messages]
    does, message by message, and its refinement of the abstract machine. *)

From S2P Require Import Prelude RustStr RustNum SqsTime SqsModel SqsValidation SqsServer SqsMessages SqsSpec SqsRefine.
Local Open Scope Z_scope.

Section Rules.
Context `{Env}.

(** The dead-letter queue a message must move to, if any. *)
Definition redrive_target (q : QueueState) (qs : gmap string QueueState) (m : MessageState)
    : option string :=
  p ← redrive_policy_from_queue q;
  if receive_count m <? max_receive_count p then None
  else find_by_arn (dead_letter_target_arn p) qs.

Lemma find_by_arn_Some arn qs k :
  find_by_arn arn qs = Some k -> exists q, qs !! k = Some q /\ q_arn q = arn.
Proof.
  unfold find_by_arn. intros Hf. apply fmap_Some in Hf as ([k' q] & Hf & ->).
  apply btree_find_Some in Hf as [Hq Ha]. apply str_eqb_true in Ha. eauto.
Qed.

Lemma find_by_arn_ext arn (qs qs' : gmap string QueueState) :
  q_arn <$> qs = q_arn <$> qs' -> find_by_arn arn qs = find_by_arn arn qs'.
Proof.
  intros Hq. unfold find_by_arn.
  by rewrite !(btree_find_fmap q_arn (fun a => str_eqb a arn)), Hq.
Qed.

Lemma redrive_target_ext q q' qs qs' m :
  same_settings q q' -> q_arn <$> qs = q_arn <$> qs' ->
  redrive_target q' qs' m = redrive_target q qs m.
Proof.
  intros (_ & _ & _ & _ & Ha & _) Hq. unfold redrive_target, redrive_policy_from_queue. rewrite Ha.
  destruct (redrive_policy_from_queue q) as [p|] eqn:E;
    unfold redrive_policy_from_queue in E; rewrite E; [|done]. simpl.
  by rewrite (find_by_arn_ext _ _ _ Hq).
Qed.

(** The queue map after a move of message [i] of [name]. *)
Definition moved_queues (name target : string) (i : nat) (m m' : MessageState)
    (t q1 : QueueState) (qs : gmap string QueueState) : gmap string QueueState :=
  <[name := with_message i (tombstoned m) q1]> (<[target := push_message m' t]> qs).

Lemma wp_move_to_dlq name i now q m (Q : outcome bool -> World -> Prop) w :
  w_queues w !! name = Some q -> messages q !! i = Some m ->
  (redrive_target q (w_queues w) m = None -> Q (Ok false) w) ->
  (forall target t q1,
     redrive_target q (w_queues w) m = Some target -> w_queues w !! target = Some t ->
     <[target := push_message (redriven now (q_arn q) m) t]> (w_queues w) !! name = Some q1 ->
     Q (Ok true)
       (set_queues (moved_queues name target i m (redriven now (q_arn q) m) t q1 (w_queues w)) w)) ->
  wp (move_to_dlq_if_needed name i now) Q w.
Proof.
  intros Hq Hm Hno Hyes. unfold move_to_dlq_if_needed, redrive_target in *.
  apply wp_bind. eapply wp_queue_at; [done|]. simpl.
  destruct (redrive_policy_from_queue q) as [p|]; simpl in *; [|apply wp_ret; auto].
  apply wp_bind. eapply wp_message_at; [done|done|]. simpl.
  destruct (receive_count m <? max_receive_count p); [apply wp_ret; auto|].
  wp_steps.
  destruct (find_by_arn (dead_letter_target_arn p) (w_queues w)) as [target|] eqn:Ht;
    [|apply wp_ret; auto].
  destruct (find_by_arn_Some _ _ _ Ht) as (t & Htq & _).
  apply wp_bind. eapply wp_update_queue; [done|]. simpl.
  set (qs1 := <[target := push_message _ t]> (w_queues w)).
  assert (is_Some (qs1 !! name)) as [q1 Hq1].
  { subst qs1. destruct (decide (target = name)) as [->|Hne];
      [rewrite lookup_insert_eq|rewrite lookup_insert_ne by done]; eauto. }
  pose proof (move_source_message _ _ _ _ _ _ _ _ _ Hq Hm Htq Hq1) as Hm1.
  apply wp_bind. eapply wp_message_at; [exact Hq1|exact Hm1|]. simpl.
  apply wp_bind. eapply wp_put_message; [exact Hq1|exact Hm1|]. simpl. apply wp_ret.
  by apply Hyes.
Qed.

Lemma checked_count r n : 0 <= r <= n -> n + 1 < 2 ^ 63 -> checked_i64 (r + 1) = Ok (r + 1).
Proof.
  intros Hr Hn. unfold checked_i64, in_i64, i64_min, i64_max. destruct (_ && _) eqn:E; [done|lia].
Qed.

Lemma wp_deliver name i now vis man san q m (Q : outcome ReceivedMessage -> World -> Prop) w :
  clock_modern -> room 1 w -> w_queues w !! name = Some q -> messages q !! i = Some m ->
  0 <= receive_count m <= w_msg_counter w ->
  (forall h w', issued_at "rct" (w_msg_counter w) h ->
     let m' := delivered now h vis (receive_count m + 1) m in
     w_queues w' = <[name := with_message i m' q]> (w_queues w) ->
     w_msg_counter w' = w_msg_counter w + 1 -> config (server w') = config (server w) ->
     move_tasks (server w') = move_tasks (server w) -> load_err (server w') = load_err (server w) ->
     Q (Ok (received_message_from_state m' man san)) w') ->
  wp (deliver name i now vis man san) Q w.
Proof.
  intros Hc Hr Hq Hm Hrc HQ. unfold deliver. apply wp_bind. eapply wp_message_at; [done|done|].
  simpl. rewrite (checked_count _ (w_msg_counter w)) by (unfold room in Hr; lia).
  wp_steps. apply wp_new_opaque_id; simpl; [done|lia|done|]. intros h Hh.
  apply wp_bind. eapply wp_put_message; [done|done|]. simpl. apply wp_ret. by apply HQ.
Qed.
End Rules.

(** ** The scan *)

Section Scan.
Context `{Env}.
(** The queue and world right after the cleanup, and the parameters of the scan. *)
Context (name now : string) (vis max_messages : Z) (man san : list string).
Context (q1 : QueueState) (w1 : World).
Context (Hclock : clock_modern) (Hnow : dated now).
Context (Hq1 : w_queues w1 !! name = Some q1).
Context (Hinv : sqs_inv (config (server w1)) (abs w1)).
Context (Hroom : room max_messages w1).

Let fifo := is_fifo_queue q1.
Let dlq := redrive_policy_from_queue q1 ≫= fun p =>
             find_by_arn (dead_letter_target_arn p) (w_queues w1).

(** The abstract steps of the scan itself. *)
Definition scan_labels (l : label) : bool := bool_decide (l ∈ [LFresh; LDeliver; LMove]).

(** Messages the scan passes over: delayed or in flight. *)
Definition hidden (m : MessageState) : bool :=
  before now (available_at m) || before now (invisible_until m).
Definition grouped (m : MessageState) : Prop := fifo = true /\ message_group_id m <> "".

(** Message [j] of the queue was delivered as [r], and [q] is the queue now. *)
Definition delivery (q : QueueState) (j : nat) (r : ReceivedMessage) : Prop :=
  exists m h,
    messages q1 !! j = Some m /\ deleted m = false /\ hidden m = false
    /\ redrive_target q1 (w_queues w1) m = None
    /\ (grouped m -> group_head q1 j m) /\ (h <> "" /\ h ∉ tokens handle_token (w_queues w1))
    /\ messages q !! j = Some (delivered now h vis (receive_count m + 1) m)
    /\ r = received_message_from_state (delivered now h vis (receive_count m + 1) m) man san.

Record scan_state (i : nat) (js : list nat) (sc : Scan) (q : QueueState) (w : World) : Prop := {
  ss_config : config (server w) = config (server w1);
  ss_tasks : move_tasks (server w) = move_tasks (server w1);
  ss_load_err : load_err (server w) = load_err (server w1);
  ss_steps : asteps (config (server w1)) scan_labels (abs w1) (abs w);
  ss_arns : q_arn <$> w_queues w = q_arn <$> w_queues w1;
  ss_frame : forall k, k <> name -> dlq <> Some k -> w_queues w !! k = w_queues w1 !! k;
  ss_count : w_msg_counter w = w_msg_counter w1 + Z.of_nat (length (sc_messages sc));
  ss_length : Z.of_nat (length (sc_messages sc)) <= Z.max 0 max_messages;
  ss_clean : sc_changed sc = false -> w_queues w = w_queues w1;
  ss_queue : w_queues w !! name = Some q;
  ss_settings : same_settings q1 q /\ modified_at q = modified_at q1
                /\ sequence q = sequence q1 /\ dedup q = dedup q1;
  ss_rest : forall j m, (i <= j)%nat -> messages q1 !! j = Some m -> messages q !! j = Some m;
  ss_hidden : forall j m, messages q1 !! j = Some m -> deleted m = true \/ hidden m = true ->
                messages q !! j = Some m;
  ss_groups : forall j m, messages q1 !! j = Some m ->
                exists m', messages q !! j = Some m' /\ message_group_id m' = message_group_id m;
  ss_sorted : StronglySorted lt js /\ Forall (fun j => j < i)%nat js;
  ss_results : Forall2 (delivery q) js (sc_messages sc);
  ss_heads : forall j m, (j < i)%nat -> messages q1 !! j = Some m -> deleted m = false -> grouped m ->
                message_group_id m ∈ sc_blocked_groups sc ∪ sc_delivered_groups sc;
  ss_done : forall j m, (j < i)%nat -> messages q1 !! j = Some m -> deleted m = false ->
                hidden m = false -> ~ grouped m -> redrive_target q1 (w_queues w1) m = None -> j ∈ js;
  (** Other queues keep their messages, with redriven ones after them. *)
  ss_others : forall k t, k <> name -> w_queues w1 !! k = Some t ->
                exists t' extra, w_queues w !! k = Some t' /\ messages t' = (messages t ++ extra)%list;
}.

Lemma scan_inv_w i js sc q w :
  scan_state i js sc q w -> sqs_inv (config (server w1)) (abs w).
Proof. intros S. eapply asteps_sqs_inv; [apply (ss_steps _ _ _ _ _ S)|done]. Qed.

Lemma scan_start : scan_state 0 [] (mkScan [] ∅ ∅ false) q1 w1.
Proof.
  split; try done; simpl; try lia.
  - constructor.
  - eauto.
  - split; constructor.
  - intros k t _ Ht. exists t, []. by rewrite app_nil_r.
Qed.

Lemma scan_fifo i js sc q w : scan_state i js sc q w -> is_fifo_queue q = fifo.
Proof.
  intros S. destruct (ss_settings _ _ _ _ _ S) as [(Hn & _ & _ & _ & Ha & _) _].
  unfold fifo, is_fifo_queue. by rewrite Hn, Ha.
Qed.

Lemma scan_redrive i js sc q w m :
  scan_state i js sc q w -> redrive_target q (w_queues w) m = redrive_target q1 (w_queues w1) m.
Proof.
  intros S. apply redrive_target_ext; [apply (ss_settings _ _ _ _ _ S)|].
  symmetry. apply (ss_arns _ _ _ _ _ S).
Qed.

(** The message at the scan's position, and what its group's absence from the two
    sets means. *)
Lemma scan_head i js sc q w m :
  scan_state i js sc q w -> messages q1 !! i = Some m -> grouped m ->
  message_group_id m ∉ sc_blocked_groups sc -> message_group_id m ∉ sc_delivered_groups sc ->
  group_head q1 i m.
Proof.
  intros S Hm [Hf Hg] Hb Hd j m' Hj Hm' Heq.
  destruct (deleted m') eqn:Hl; [done|]. exfalso.
  pose proof (ss_heads _ _ _ _ _ S j m' Hj Hm' Hl) as Hin. rewrite Heq in Hin.
  assert (message_group_id m ∈ sc_blocked_groups sc ∪ sc_delivered_groups sc) as Hin'.
  { apply Hin. split; [done|]. by rewrite Heq. }
  by apply elem_of_union in Hin' as [?|?].
Qed.

Lemma scan_head_now i js sc q w m :
  scan_state i js sc q w -> group_head q1 i m -> (i < length (messages q1))%nat ->
  group_head q i m.
Proof.
  intros S Hh Hi j m' Hj Hm' Heq.
  destruct (lookup_lt_is_Some_2 (messages q1) j ltac:(lia)) as [m0 Hm0].
  destruct (ss_groups _ _ _ _ _ S j m0 Hm0) as (m'' & Hm'' & Hg).
  assert (m'' = m') as -> by congruence.
  pose proof (Hh j m0 Hj Hm0 ltac:(congruence)) as Hl.
  pose proof (ss_hidden _ _ _ _ _ S j m0 Hm0 (or_introl Hl)) as Hsame. congruence.
Qed.

Ltac scan_fields S :=
  destruct S as [Sconfig Stasks Sload Ssteps Sarns Sframe Scount Slength Sclean Squeue Ssettings
                 Srest Shidden Sgroups Ssorted Sresults Sheads Sdone Sothers].

Lemma lt_S_cases j i : (j < S i)%nat -> (j < i)%nat \/ j = i.
Proof. lia. Qed.

Lemma sorted_S (js : list nat) i :
  StronglySorted lt js /\ Forall (fun j => j < i)%nat js ->
  StronglySorted lt js /\ Forall (fun j => j < S i)%nat js.
Proof. intros [? Hf]. split; [done|]. eapply Forall_impl; [done|]. simpl. lia. Qed.

Lemma sorted_snoc (js : list nat) i :
  StronglySorted lt js /\ Forall (fun j => j < i)%nat js ->
  StronglySorted lt (js ++ [i]) /\ Forall (fun j => j < S i)%nat (js ++ [i]).
Proof.
  intros [Hs Hf]. split.
  - apply StronglySorted_app. split_and!; [|done|repeat constructor].
    intros x y Hx ->%list_elem_of_singleton. rewrite Forall_forall in Hf. by apply Hf.
  - apply Forall_app. split; [|repeat constructor]. eapply Forall_impl; [done|]. simpl. lia.
Qed.

(** Passing over message [i], whose group may become blocked. *)
Lemma scan_advance i js sc sc' q w m :
  scan_state i js sc q w -> messages q1 !! i = Some m ->
  sc_messages sc' = sc_messages sc -> sc_delivered_groups sc' = sc_delivered_groups sc ->
  sc_changed sc' = sc_changed sc -> sc_blocked_groups sc ⊆ sc_blocked_groups sc' ->
  (deleted m = false -> grouped m ->
     message_group_id m ∈ sc_blocked_groups sc' ∪ sc_delivered_groups sc) ->
  (deleted m = false -> hidden m = false -> ~ grouped m ->
     redrive_target q1 (w_queues w1) m = None -> False) ->
  scan_state (S i) js sc' q w.
Proof.
  intros S Hm Hms Hd Hc Hb Hgroup Hskip. scan_fields S. split; rewrite ?Hms, ?Hc, ?Hd; try done.
  - intros j m' Hj. apply Srest. lia.
  - by apply sorted_S.
  - intros j m' Hj Hm' Hl Hg. apply lt_S_cases in Hj as [Hj| ->].
    + pose proof (Sheads j m' Hj Hm' Hl Hg) as Hin.
      apply elem_of_union in Hin as [Hin|Hin]; apply elem_of_union; auto.
    + assert (m' = m) as -> by congruence. auto.
  - intros j m' Hj Hm' Hl Hh Hg Hr. apply lt_S_cases in Hj as [Hj| ->].
    + by apply (Sdone j m').
    + assert (m' = m) as -> by congruence. exfalso. auto.
Qed.

(** Updating message [i] keeps the other messages, hence earlier deliveries. *)
Definition updates (i : nat) (m' : MessageState) (q q' : QueueState) : Prop :=
  messages q' !! i = Some m'
  /\ forall j m, j <> i -> messages q !! j = Some m -> messages q' !! j = Some m.

Lemma with_message_updates i q qm m m' :
  messages q !! i = Some m -> qm = q \/ (exists x, qm = push_message x q) ->
  updates i m' q (with_message i m' qm).
Proof.
  intros Hm Hqm. assert (forall j x, messages q !! j = Some x -> messages qm !! j = Some x) as Hext.
  { destruct Hqm as [->|[x ->]]; [done|]. intros j y Hy. by apply lookup_app_l_Some. }
  split; simpl.
  - apply list_lookup_insert_eq. eapply lookup_lt_Some, Hext, Hm.
  - intros j x Hj Hx. rewrite list_lookup_insert_ne by done. auto.
Qed.

Lemma delivery_kept i m' q q' j r :
  updates i m' q q' -> delivery q j r -> (j < i)%nat -> delivery q' j r.
Proof.
  intros [_ Hu] (m0 & h & H1 & H2 & H3 & H4 & H5 & H6 & H7 & H8) Hj.
  exists m0, h. destruct H6. split_and!; try done. apply Hu; [lia|done].
Qed.

Lemma deliveries_kept i m' q q' js rs :
  updates i m' q q' -> Forall (fun j => j < i)%nat js ->
  Forall2 (delivery q) js rs -> Forall2 (delivery q') js rs.
Proof.
  intros Hu Hf. induction 1 as [|j r js rs Hj _ IH]; [constructor|].
  apply Forall_cons in Hf as [Hji Hf]. constructor; [by eapply delivery_kept|auto].
Qed.

Lemma arns_insert (qs : gmap string QueueState) k q q' :
  qs !! k = Some q -> q_arn q' = q_arn q -> q_arn <$> <[k := q']> qs = q_arn <$> qs.
Proof.
  intros Hq Ha. rewrite fmap_insert. apply insert_id. rewrite lookup_fmap, Hq. simpl. by rewrite Ha.
Qed.

(** The fields of the scan's state that only depend on how message [i] was updated. *)
Lemma scan_update i js sc q q' w m m' :
  scan_state i js sc q w -> messages q1 !! i = Some m -> deleted m = false -> hidden m = false ->
  updates i m' q q' -> message_group_id m' = message_group_id m ->
  (forall j x, (S i <= j)%nat -> messages q1 !! j = Some x -> messages q' !! j = Some x)
  /\ (forall j x, messages q1 !! j = Some x -> deleted x = true \/ hidden x = true ->
        messages q' !! j = Some x)
  /\ (forall j x, messages q1 !! j = Some x ->
        exists y, messages q' !! j = Some y /\ message_group_id y = message_group_id x)
  /\ Forall2 (delivery q') js (sc_messages sc).
Proof.
  intros S Hm Hl Hh Hu Hg. destruct (Hu) as [Hui Huj]. scan_fields S. split_and!.
  - intros j x Hj Hx. apply Huj; [lia|]. apply Srest; [lia|done].
  - intros j x Hx Hor. destruct (decide (j = i)) as [->|Hne]; [|by apply Huj; auto].
    assert (x = m) as -> by congruence. destruct Hor; congruence.
  - intros j x Hx. destruct (decide (j = i)) as [->|Hne].
    + assert (x = m) as -> by congruence. eauto.
    + destruct (Sgroups j x Hx) as (y & Hy & Hyg). eauto.
  - eapply deliveries_kept; [done|apply Ssorted|done].
Qed.

Lemma w_queues_set qs w : w_queues (set_queues qs w) = qs.
Proof. done. Qed.

Lemma moved_source (qs : gmap string QueueState) k q target t m' qm :
  qs !! k = Some q -> qs !! target = Some t ->
  <[target := push_message m' t]> qs !! k = Some qm -> qm = q \/ (exists x, qm = push_message x q).
Proof.
  intros Hq Ht Hqm. destruct (decide (target = k)) as [->|Hne].
  - rewrite lookup_insert_eq in Hqm. right. exists m'. congruence.
  - rewrite lookup_insert_ne in Hqm by done. left. congruence.
Qed.

Lemma redrive_dlq m target : redrive_target q1 (w_queues w1) m = Some target -> dlq = Some target.
Proof.
  unfold redrive_target, dlq. destruct (redrive_policy_from_queue q1) as [p|]; [|done]. simpl.
  by destruct (receive_count m <? max_receive_count p).
Qed.

Lemma note_group_subset g gs : gs ⊆ note_group fifo g gs.
Proof. unfold note_group. destruct (_ && _); [apply union_subseteq_r|done]. Qed.
Lemma note_group_in m gs : grouped m -> message_group_id m ∈ note_group fifo (message_group_id m) gs.
Proof.
  intros [Hf Hg]. unfold note_group. rewrite Hf. destruct (message_group_id m); [done|]. simpl.
  apply elem_of_union. left. by apply elem_of_singleton.
Qed.

(** Groups noted so far stay noted, and message [i]'s joins them. *)
Lemma heads_step i js sc q w m (b d : gset string) :
  scan_state i js sc q w -> messages q1 !! i = Some m ->
  sc_blocked_groups sc ⊆ b -> sc_delivered_groups sc ⊆ d ->
  (grouped m -> message_group_id m ∈ b ∪ d) ->
  forall j x, (j < S i)%nat -> messages q1 !! j = Some x -> deleted x = false -> grouped x ->
    message_group_id x ∈ b ∪ d.
Proof.
  intros S Hm Hb Hd Hg j x Hj Hx Hl Hgx. apply lt_S_cases in Hj as [Hj| ->].
  - pose proof (ss_heads _ _ _ _ _ S j x Hj Hx Hl Hgx) as Hin.
    apply elem_of_union in Hin as [Hin|Hin]; apply elem_of_union; auto.
  - assert (x = m) as -> by congruence. auto.
Qed.

Lemma scan_redriven i js sc q w m target t qm :
  scan_state i js sc q w -> messages q1 !! i = Some m -> deleted m = false -> hidden m = false ->
  redrive_target q1 (w_queues w1) m = Some target -> w_queues w !! target = Some t ->
  let m' := redriven now (q_arn q) m in
  <[target := push_message m' t]> (w_queues w) !! name = Some qm ->
  scan_state (S i) js
    (mkScan (sc_messages sc) (note_group fifo (message_group_id m) (sc_blocked_groups sc))
       (sc_delivered_groups sc) true)
    (with_message i (tombstoned m) qm)
    (set_queues (moved_queues name target i m m' t qm (w_queues w)) w).
Proof.
  intros S Hm Hl Hh Hr Ht m' Hqm.
  pose proof (ss_rest _ _ _ _ _ S i m ltac:(lia) Hm) as Hmq.
  pose proof (moved_source _ _ _ _ _ _ _ (ss_queue _ _ _ _ _ S) Ht Hqm) as Hcase.
  pose proof (with_message_updates i q qm m (tombstoned m) Hmq Hcase) as Hu.
  destruct (scan_update i js sc q _ w m _ S Hm Hl Hh Hu eq_refl) as (U1 & U2 & U3 & U4).
  pose proof (heads_step i js sc q w m _ _ S Hm (note_group_subset (message_group_id m) _)
    (reflexivity (sc_delivered_groups sc)) ltac:(intros; apply elem_of_union; left; by apply note_group_in)) as Hheads.
  scan_fields S. split; rewrite ?w_queues_set; simpl; try done.
  - eapply asteps_snoc; [exact Ssteps| |].
    2: eapply (a_move _ _ _ name i q m target t m' qm); try done; by repeat split.
    done.
  - unfold moved_queues. rewrite (arns_insert _ name qm) by done.
    by rewrite (arns_insert _ target t) by done.
  - intros k Hk1 Hk2. unfold moved_queues. rewrite lookup_insert_ne by done.
    rewrite lookup_insert_ne; [by apply Sframe|]. intros ->. apply Hk2. by eapply redrive_dlq.
  - apply lookup_insert_eq.
  - destruct Hcase as [-> | [x ->]]; apply Ssettings.
  - by apply sorted_S.
  - intros j x Hj Hx Hlx Hhx Hgx Hrx. apply lt_S_cases in Hj as [Hj| ->]; [by apply (Sdone j x)|].
    exfalso. congruence.
  - intros k x Hk Hx. destruct (Sothers k x Hk Hx) as (x' & extra & Hx' & Hms). unfold moved_queues.
    rewrite lookup_insert_ne by done. destruct (decide (target = k)) as [->|Hne].
    + rewrite lookup_insert_eq. eexists _, (extra ++ [m'])%list. split; [done|].
      assert (t = x') as -> by congruence. simpl. by rewrite Hms, app_assoc.
    + rewrite lookup_insert_ne by done. by exists x', extra.
Qed.

Lemma scan_delivered i js sc q w m h w' :
  scan_state i js sc q w -> messages q1 !! i = Some m -> deleted m = false -> hidden m = false ->
  redrive_target q1 (w_queues w1) m = None -> (grouped m -> group_head q1 i m) ->
  Z.of_nat (length (sc_messages sc)) < max_messages ->
  issued_at "rct" (w_msg_counter w) h ->
  let m' := delivered now h vis (receive_count m + 1) m in
  w_queues w' = <[name := with_message i m' q]> (w_queues w) ->
  w_msg_counter w' = w_msg_counter w + 1 -> config (server w') = config (server w) ->
  move_tasks (server w') = move_tasks (server w) -> load_err (server w') = load_err (server w) ->
  scan_state (S i) (js ++ [i])
    (mkScan (sc_messages sc ++ [received_message_from_state m' man san]) (sc_blocked_groups sc)
       (note_group fifo (message_group_id m) (sc_delivered_groups sc)) true)
    (with_message i m' q) w'.
Proof.
  intros S Hm Hl Hh Hr Hhead Hlen Hid m' Hqs Hn Hc Ht Hle.
  pose proof (ss_rest _ _ _ _ _ S i m ltac:(lia) Hm) as Hmq.
  pose proof (with_message_updates i q q m m' Hmq (or_introl eq_refl)) as Hu.
  assert (message_group_id m' = message_group_id m) as Hg
    by (unfold m', delivered; simpl; by destruct (is_zero _)).
  destruct (scan_update i js sc q _ w m _ S Hm Hl Hh Hu Hg) as (U1 & U2 & U3 & U4).
  pose proof (heads_step i js sc q w m _ _ S Hm (reflexivity (sc_blocked_groups sc))
    (note_group_subset (message_group_id m) _) ltac:(intros; apply elem_of_union; right; by apply note_group_in)) as Hheads.
  pose proof (lookup_lt_Some _ _ _ Hm) as Hi.
  assert (is_fifo_queue q = true -> message_group_id m <> "" -> group_head q i m) as Hfifo.
  { rewrite (scan_fifo _ _ _ _ _ S). intros Hf Hgm. eapply scan_head_now; [done| |done].
    apply Hhead. by split. }
  apply orb_false_iff in Hh as Hav. destruct Hav as [Hav Hin].
  assert (h ∉ tokens handle_token (w_queues w1)) as Hfresh.
  { intros Hold. destruct (Hinv) as [Hn0 _ _ [_ Hissued]]. simpl in Hn0, Hissued. rewrite Forall_forall in Hissued.
    pose proof (ss_count _ _ _ _ _ S). eapply issued_at_fresh; [|exact Hid|]; [lia|].
    eapply issued_mono; [|by apply Hissued]. lia. }
  scan_fields S. split; simpl; rewrite ?Hc, ?Ht, ?Hle, ?Hqs; try done.
  - unfold abs. rewrite Hqs, Hn. eapply asteps_snoc; [exact Ssteps| |].
    2: by eapply a_deliver.
    done.
  - by rewrite (arns_insert _ name q).
  - intros k Hk1 Hk2. rewrite lookup_insert_ne by done. by apply Sframe.
  - rewrite length_app. simpl. lia.
  - rewrite length_app. simpl. lia.
  - apply lookup_insert_eq.
  - by apply sorted_snoc.
  - apply Forall2_app; [done|]. constructor; [|constructor].
    exists m, h. split_and!; try done; [by eapply issued_at_nonempty|exact (proj1 Hu)].
  - intros j x Hj Hx Hlx Hhx Hgx Hrx. apply elem_of_app. apply lt_S_cases in Hj as [Hj| ->].
    + left. by apply (Sdone j x).
    + right. by apply list_elem_of_singleton.
  - intros k x Hk Hx. rewrite lookup_insert_ne by done. by apply Sothers.
Qed.

Lemma grouped_dec m : Decision (grouped m).
Proof. unfold grouped. apply _. Defined.

Lemma wp_scan_one i js sc q w :
  scan_state i js sc q w -> (i < length (messages q1))%nat ->
  Z.of_nat (length (sc_messages sc)) < max_messages ->
  wp (scan_one name now fifo vis man san i sc)
     (fun o w' => exists js' sc' q', o = Ok sc' /\ scan_state (S i) js' sc' q' w') w.
Proof.
  intros S Hi Hlen. destruct (lookup_lt_is_Some_2 _ _ Hi) as [m Hm].
  pose proof (ss_rest _ _ _ _ _ S i m ltac:(lia) Hm) as Hmq.
  pose proof (scan_inv_w _ _ _ _ _ S) as [Hn0 Hqs _ _].
  pose proof (Hqs _ _ (ss_queue _ _ _ _ _ S)) as Hok.
  pose proof (queue_msg_ok _ _ _ _ _ _ Hok Hmq) as (_ & Hrc & _). simpl in Hrc.
  unfold scan_one. apply wp_bind. eapply wp_message_at; [apply (ss_queue _ _ _ _ _ S)|exact Hmq|]. simpl.
  destruct (deleted m) eqn:Hl.
  { apply wp_ret. exists js, sc, q. split; [done|]. eapply scan_advance; try done; congruence. }
  destruct (_ && _) eqn:Hgrp.
  { apply wp_ret. exists js, sc, q. split; [done|].
    apply andb_true_iff in Hgrp as [Hg Hin]. apply andb_true_iff in Hg as [Hf Hg].
    assert (grouped m) as Hgm by (split; [done|intros E; by rewrite E in Hg]).
    eapply scan_advance; try done. intros _ _. apply elem_of_union.
    apply orb_true_iff in Hin as [Hin|Hin]; apply bool_decide_eq_true in Hin; auto. }
  fold (hidden m). destruct (hidden m) eqn:Hh.
  { apply wp_ret. eexists js, _, q. split; [done|].
    eapply scan_advance; try done; simpl; [apply note_group_subset| |congruence].
    intros _ Hg. apply elem_of_union. left. by apply note_group_in. }
  assert (grouped m -> group_head q1 i m) as Hhead.
  { intros Hg. destruct (Hg) as [Hf Hgn]. rewrite Hf in Hgrp.
    destruct (message_group_id m) eqn:E in Hgrp; [done|]. simpl in Hgrp. rewrite <- E in Hgrp.
    apply orb_false_iff in Hgrp as [Hb Hd]. apply bool_decide_eq_false in Hb, Hd.
    by eapply scan_head. }
  apply wp_bind. eapply wp_move_to_dlq; [apply (ss_queue _ _ _ _ _ S)|exact Hmq| |];
    rewrite (scan_redrive _ _ _ _ _ m S).
  - intros Hr. simpl. apply wp_bind. eapply wp_deliver;
      [done| |apply (ss_queue _ _ _ _ _ S)|exact Hmq|lia|].
    + unfold room in *. pose proof (ss_count _ _ _ _ _ S). lia.
    + intros h w' Hid m' Hqs' Hn Hc Ht Hle. simpl. apply wp_ret.
      eexists (js ++ [i]), _, _. split; [reflexivity|]. by eapply scan_delivered.
  - intros target t qm Hr Ht Hqm. simpl. apply wp_ret.
    eexists js, _, _. split; [reflexivity|]. by eapply scan_redriven.
Qed.

Lemma wp_scan_messages k i js sc q w :
  (i + k = length (messages q1))%nat -> scan_state i js sc q w ->
  wp (scan_messages max_messages (scan_one name now fifo vis man san) (seq i k) sc)
     (fun o w' => exists i' js' sc' q', o = Ok sc' /\ scan_state i' js' sc' q' w'
        /\ (i' = length (messages q1) \/ max_messages <= Z.of_nat (length (sc_messages sc')))) w.
Proof.
  revert i js sc q w. induction k as [|k IH]; intros i js sc q w Hik Hst.
  - apply wp_ret. exists i, js, sc, q. split_and!; [done|done|]. left. lia.
  - cbn [seq scan_messages]. destruct (Z.leb_spec max_messages (Z.of_nat (length (sc_messages sc)))).
    + apply wp_ret. exists i, js, sc, q. split_and!; [done|done|by right].
    + apply wp_bind. eapply wp_mono; [apply (wp_scan_one i js sc q w); [done|lia|lia]|].
      intros o w' (js' & sc' & q' & -> & Hst'). simpl. apply (IH (S i) js' sc' q'); [lia|done].
Qed.
End Scan.

(** ** The whole call *)

Section Receive.
Context `{Env}.

Definition receive_visibility (c : Config) (q : QueueState) (override : option Z) : Z :=
  default (int_attribute (q_attributes q) "VisibilityTimeout" (default_visibility_timeout_seconds c))
    override.

(** The world right after the cleanup at [now]. *)
Definition cleaned_at (name now : string) (q : QueueState) (w : World) : World :=
  set_queues (<[name := cleaned now q]> (w_queues w)) w.

Lemma scan_state_io name now vis mx man san q1 w1 i js sc q w w' :
  server w' = server w -> w_msg_counter w' = w_msg_counter w ->
  scan_state name now vis mx man san q1 w1 i js sc q w ->
  scan_state name now vis mx man san q1 w1 i js sc q w'.
Proof.
  intros Hs Hn []. split; unfold abs, w_queues in *; rewrite ?Hs, ?Hn; assumption.
Qed.

Lemma scan_state_base name now vis mx man san q1 w1 w1' i js sc q w :
  server w1' = server w1 -> w_msg_counter w1' = w_msg_counter w1 ->
  scan_state name now vis mx man san q1 w1 i js sc q w ->
  scan_state name now vis mx man san q1 w1' i js sc q w.
Proof.
  intros Hs Hn []. split; unfold delivery, abs, w_queues in *; rewrite ?Hs, ?Hn in *; assumption.
Qed.

Inductive receive_spec (name : string) (mx : Z) (override : option Z) (man san : list string)
    (w : World) : outcome (list ReceivedMessage) -> World -> Prop :=
| receive_no_queue w' :
    w_queues w !! name = None -> server w' = server w -> w_msg_counter w' = w_msg_counter w ->
    receive_spec name mx override man san w (Err "queue does not exist") w'
| receive_refused e w' q now :
    w_queues w !! name = Some q -> reading w now -> cleaned_world name now q 0 w w' ->
    receive_spec name mx override man san w (Err e) w'
| receive_done w' q now i js sc q' :
    w_queues w !! name = Some q -> reading w now ->
    0 <= receive_visibility (config (server w)) q override <= MAX_VISIBILITY_TIMEOUT_SECONDS ->
    scan_state name now (receive_visibility (config (server w)) q override) mx man san
      (cleaned now q) (cleaned_at name now q w) i js sc q' w' ->
    i = length (messages (cleaned now q)) \/ mx <= Z.of_nat (length (sc_messages sc)) ->
    receive_spec name mx override man san w (Ok (sc_messages sc)) w'
| receive_rolled_back e w' :
    server w' = server w ->
    w_msg_counter w <= w_msg_counter w' <= w_msg_counter w + Z.max 0 mx ->
    receive_spec name mx override man san w (Err e) w'.

Definition receive_rollback (name : string) (q : QueueState) (d : option (string * QueueState))
    (w : World) : World :=
  let w := restore_queue name q w in
  match d with Some (n, snapshot) => restore_queue n snapshot w | None => w end.

(** Putting back the queue and its dead-letter queue undoes the whole scan. *)
Lemma receive_rollback_server name now vis mx man san q w i js sc q' w' (d : option (string * QueueState)) :
  w_queues w !! name = Some q ->
  scan_state name now vis mx man san (cleaned now q) (cleaned_at name now q w) i js sc q' w' ->
  match redrive_policy_from_queue q ≫= (fun p => find_by_arn (dead_letter_target_arn p) (w_queues w)) with
  | Some n => if str_eqb n name then d = None
              else exists t, w_queues w !! n = Some t /\ d = Some (n, t)
  | None => d = None
  end ->
  server (receive_rollback name q d w') = server w.
Proof.
  intros Hq [] Hd.
  assert (redrive_policy_from_queue (cleaned now q) ≫= (fun p =>
            find_by_arn (dead_letter_target_arn p) (w_queues (cleaned_at name now q w)))
          = redrive_policy_from_queue q ≫= (fun p => find_by_arn (dead_letter_target_arn p) (w_queues w))) as Hdlq.
  { change (redrive_policy_from_queue (cleaned now q)) with (redrive_policy_from_queue q).
    destruct (redrive_policy_from_queue q) as [p|]; [|done]. simpl. apply find_by_arn_ext.
    by apply (arns_insert _ name q). }
  rewrite Hdlq in ss_frame0.
  assert (forall k, k <> name ->
    redrive_policy_from_queue q ≫= (fun p => find_by_arn (dead_letter_target_arn p) (w_queues w)) <> Some k ->
    w_queues w' !! k = w_queues w !! k) as Hframe.
  { intros k H1 H2. rewrite ss_frame0 by done. unfold cleaned_at, w_queues. simpl.
    by rewrite lookup_insert_ne. }
  apply server_ext; unfold receive_rollback, restore_queue.
  - by destruct d as [[n t]|]; simpl.
  - apply map_eq. intros k. fold (w_queues w).
    destruct (redrive_policy_from_queue q ≫= _) as [n|] eqn:E.
    + destruct (str_eqb n name) eqn:En.
      * apply str_eqb_true in En as ->. subst d. simpl. destruct (decide (name = k)) as [<-|Hne].
        -- by rewrite lookup_insert_eq.
        -- rewrite lookup_insert_ne by done. apply Hframe; congruence.
      * destruct Hd as (t & Ht & ->). simpl. destruct (decide (n = k)) as [<-|Hnk].
        -- by rewrite lookup_insert_eq.
        -- rewrite lookup_insert_ne by done. destruct (decide (name = k)) as [<-|Hne].
           ++ unfold w_queues at 1. simpl. by rewrite lookup_insert_eq.
           ++ unfold w_queues at 1. simpl. rewrite lookup_insert_ne by done. apply Hframe; congruence.
    + subst d. simpl. destruct (decide (name = k)) as [<-|Hne].
      * by rewrite lookup_insert_eq.
      * rewrite lookup_insert_ne by done. apply Hframe; congruence.
  - by destruct d as [[n t]|]; simpl.
  - by destruct d as [[n t]|]; simpl.
Qed.

Lemma contains_queue_true name w : bool_decide (is_Some (w_queues w !! name)) = false ->
  w_queues w !! name = None.
Proof.
  intros Hb. apply bool_decide_eq_false in Hb. destruct (w_queues w !! name); [|done].
  by destruct Hb.
Qed.

Lemma wp_snapshot_dlq name q (Q : outcome (option (string * QueueState)) -> World -> Prop) w :
  let target := redrive_policy_from_queue q ≫= fun p =>
                  find_by_arn (dead_letter_target_arn p) (w_queues w) in
  (forall d, match target with
             | Some n => if str_eqb n name then d = None
                         else exists t, w_queues w !! n = Some t /\ d = Some (n, t)
             | None => d = None
             end -> Q (Ok d) w) ->
  wp (match target with
      | Some n => if str_eqb n name then mret None else q ← queue_unwrap n; mret (Some (n, q))
      | None => mret None
      end) Q w.
Proof.
  intros target HQ. subst target.
  destruct (redrive_policy_from_queue q) as [p|]; simpl in *; [|apply wp_ret; auto].
  destruct (find_by_arn _ _) as [n|] eqn:Hf; [|apply wp_ret; auto].
  destruct (str_eqb n name); [apply wp_ret; auto|].
  destruct (find_by_arn_Some _ _ _ Hf) as (t & Ht & _).
  apply wp_bind. eapply wp_queue_at; [done|]. simpl. apply wp_ret. eauto.
Qed.

Lemma cleaned_at_inv k name now q w :
  ready k w -> w_queues w !! name = Some q -> dated now ->
  sqs_inv (config (server w)) (abs (cleaned_at name now q w)).
Proof. intros [_ Hinv _] Hq Hd. eapply astep_inv; [exact Hinv|]. by apply a_clean. Qed.

Lemma receive_spec_wp name mx override man san w :
  ready (Z.max 0 mx) w ->
  wp (receive_available_messages name mx override man san)
     (receive_spec name mx override man san w) w.
Proof.
  intros Hready. pose proof Hready as [Hclock Hinv Hroom]. unfold receive_available_messages, contains_queue.
  wp_steps.
  { apply receive_no_queue; [|done|done]. apply contains_queue_true. by destruct (bool_decide _). }
  destruct (w_queues w !! name) as [q|] eqn:Hq; [|done].
  apply (wp_queue_at _ _ _ _ Hq). simpl. wp_steps. apply wp_snapshot_dlq. intros d Hd. simpl.
  apply wp_bind, wp_now_dated; [done|]. intros now Hread. pose proof (proj1 Hread) as Hnow. simpl.
  apply wp_bind. eapply wp_cleanup_queue; [by apply (ready_queue (Z.max 0 mx) w name)|done|done|]. simpl.
  apply wp_bind. eapply wp_queue_at; [apply lookup_insert_eq|]. simpl. wp_steps; fold (receive_visibility (config (server w)) q override) in *.
  { by eapply (receive_refused _ _ _ _ _ _ _ _ q now); [done|done|split_and!; simpl; try done; lia]. }
  { by eapply (receive_refused _ _ _ _ _ _ _ _ q now); [done|done|split_and!; simpl; try done; lia]. }
  set (vis := receive_visibility (config (server w)) q override) in *.
  set (w1 := set_queues _ _).
  pose proof (cleaned_at_inv _ _ now _ _ Hready Hq Hnow) as Hinv1.
  eapply wp_mono.
  { eapply (wp_scan_messages name now vis mx man san (cleaned now q) w1 Hclock Hnow Hinv1).
    - unfold room in *. change (w_msg_counter w1) with (w_msg_counter w). lia.
    - done.
    - apply scan_start. apply lookup_insert_eq. }
  intros o w2 (i & js & sc & q' & -> & S & Hend). simpl.
  apply (scan_state_base _ _ _ _ _ _ _ _ (cleaned_at name now q w)) in S; [|done|done].
  destruct (sc_changed sc).
  - apply wp_bind, wp_persist_or_io; simpl.
    + intros w' Hs Hn. apply wp_ret. eapply receive_done; [exact Hq|exact Hread|lia| |exact Hend].
      by eapply scan_state_io.
    + intros e w' Hs Hn. apply (scan_state_io _ _ _ _ _ _ _ _ _ _ _ _ _ w') in S; [|done|done].
      apply receive_rolled_back.
      * by eapply (receive_rollback_server name now vis mx man san).
      * pose proof (ss_count _ _ _ _ _ _ _ _ _ _ _ _ _ S) as Hcount.
        pose proof (ss_length _ _ _ _ _ _ _ _ _ _ _ _ _ S) as Hlen. simpl in *.
        unfold restore_queue. destruct d as [[n t]|]; simpl in *; lia.
  - apply wp_ret. eapply receive_done; [exact Hq|exact Hread|lia|exact S|exact Hend].
Qed.

Lemma receive_spec_refines name mx override man san w o w' :
  ready (Z.max 0 mx) w -> receive_spec name mx override man san w o w' ->
  refines receive_labels (Z.max 0 mx) w o w'.
Proof.
  intros _ Hs. destruct Hs as [w' Hq Hs Hn|e w' q now Hq (Hd & _) Hw|w' q now i js sc q' Hq (Hd & _) Hv S Hend|e w' Hs Hn].
  - apply refines_same; [lia|done..].
  - eapply cleaned_refines; [done|done|done|done|exact Hw|lia|done].
  - split_and!; [done|by rewrite (ss_config _ _ _ _ _ _ _ _ _ _ _ _ _ S)| |].
    + eapply asteps_step; [|by apply a_clean|]; [done|].
      eapply asteps_weaken; [|apply (ss_steps _ _ _ _ _ _ _ _ _ _ _ _ _ S)]. by intros [].
    + rewrite (ss_count _ _ _ _ _ _ _ _ _ _ _ _ _ S).
      pose proof (ss_length _ _ _ _ _ _ _ _ _ _ _ _ _ S). simpl. lia.
  - by apply refines_fresh.
Qed.

(** [receive_messages_once] checks the request, then scans. *)
Lemma receive_batch_size c : 1 <= max_receive_batch_size c <= 10.
Proof. unfold max_receive_batch_size. destruct (_ || _) eqn:E; lia. Qed.

Definition clamped (c : Config) (n : option Z) : Z :=
  Z.min (max_receive_batch_size c) (Z.max 1 (default 1 n)).

Lemma clamped_code c n :
  (let m := default 1 n in let m := if m <? 1 then 1 else m in
   if max_receive_batch_size c <? m then max_receive_batch_size c else m) = clamped c n.
Proof.
  unfold clamped. cbv zeta. pose proof (receive_batch_size c).
  destruct (Z.ltb_spec (default 1 n) 1), (Z.ltb_spec (max_receive_batch_size c) 1),
    (Z.ltb_spec (max_receive_batch_size c) (default 1 n)); simpl; lia.
Qed.

Inductive once_spec (input : ReceiveMessageRequest) (pinned : option QueueIdentity) (w : World)
    : outcome (list ReceivedMessage * Z * QueueIdentity) -> World -> Prop :=
| once_rejected e w' :
    server w' = server w -> w_msg_counter w' = w_msg_counter w ->
    once_spec input pinned w (Err e) w'
| once_failed e w' :
    receive_spec (queue_name_from_url (rq_queue_url input))
      (clamped (config (server w)) (rq_max_number_of_messages input)) (rq_visibility_timeout input)
      (rq_message_attribute_names input) (requested_system_attribute_names input) w (Err e) w' ->
    once_spec input pinned w (Err e) w'
| once_done ms wait id w' :
    receive_spec (queue_name_from_url (rq_queue_url input))
      (clamped (config (server w)) (rq_max_number_of_messages input)) (rq_visibility_timeout input)
      (rq_message_attribute_names input) (requested_system_attribute_names input) w (Ok ms) w' ->
    0 <= wait <= 20 -> queue_identity (server w) (queue_name_from_url (rq_queue_url input)) = Some id ->
    (forall p, pinned = Some p -> p = id) ->
    once_spec input pinned w (Ok (ms, wait, id)) w'.

Lemma once_spec_wp input pinned w :
  ready 10 w -> wp (receive_messages_once input pinned) (once_spec input pinned w) w.
Proof.
  intros Hr. assert (forall e, once_spec input pinned w (Err e) w) as Hrej by (intros; by apply once_rejected).
  unfold receive_messages_once. do 2 (apply wp_bind, wp_guard; intros ?; simpl; [apply Hrej|]).
  wp_step. apply wp_gets. simpl. apply wp_bind, wp_check; simpl; [apply no_panic_ok_or|intros id Hid|intros e; apply Hrej].
  apply wp_bind, wp_guard; intros Hpin; simpl; [apply Hrej|].
  do 2 (apply wp_bind, wp_guard; intros ?; simpl; [apply Hrej|]).
  rewrite clamped_code. pose proof (receive_batch_size (config (server w))) as Hb.
  apply wp_bind. eapply wp_mono.
  - apply receive_spec_wp. destruct Hr as [Hc Hi Hroom]. split; [done|done|].
    unfold room, clamped in *. lia.
  - intros [ms|e|p] w' Hs; simpl.
    + apply wp_ret. apply once_done; [done|lia| |].
      * by destruct (queue_identity _ _); simplify_eq/=.
      * intros p ->. by destruct (bool_decide (p = id)) eqn:E; [apply bool_decide_eq_true in E|].
    + by apply once_failed.
    + inversion Hs.
Qed.

Lemma once_spec_refines input pinned w o w' :
  ready 10 w -> once_spec input pinned w o w' -> refines receive_labels 10 w o w'.
Proof.
  intros Hr Hs. pose proof (receive_batch_size (config (server w))) as Hb.
  assert (ready (Z.max 0 (clamped (config (server w)) (rq_max_number_of_messages input))) w) as Hr'.
  { destruct Hr as [Hc Hi Hroom]. split; [done|done|]. unfold room, clamped in *. lia. }
  destruct Hs as [e w' Hs Hn|e w' Hs|ms wait id w' Hs Hw Hid Hp].
  - by apply refines_same.
  - apply receive_spec_refines in Hs as (H1 & H2 & H3 & H4); [|done].
    split_and!; [done|done|done|]. unfold clamped in H4. lia.
  - apply receive_spec_refines in Hs as (H1 & H2 & H3 & H4); [|done].
    split_and!; [done|done|done|]. unfold clamped in H4. lia.
Qed.
End Receive.
