(* ===== verification/SqsCalls.v ===== *)
(** Deleting, changing visibility, their batch forms, message-move tasks and queue
    management: what each call does, and its refinement of the abstract machine. *)

From S2P Require Import Prelude RustStr RustNum SqsTime SqsModel SqsValidation SqsServer SqsMessages SqsSpec SqsRefine SqsReceive.
Local Open Scope Z_scope.

Section Receipted.
Context `{Env}.

(** The live message that carries a receipt handle, first in the queue. *)
Definition holder (q : QueueState) (handle : string) (i : nat) (m : MessageState) : Prop :=
  messages q !! i = Some m /\ deleted m = false /\ receipt_handle m = handle.
Definition no_holder (q : QueueState) (handle : string) : Prop :=
  forall i m, ~ holder q handle i m.

Lemma list_find_holder q handle :
  match list_find (fun m => negb (deleted m) && str_eqb (receipt_handle m) handle = true) (messages q) with
  | Some (i, m) => holder q handle i m
  | None => no_holder q handle
  end.
Proof.
  destruct (list_find _ _) as [[i m]|] eqn:E.
  - apply list_find_Some in E as (Hi & Hm & _). apply andb_true_iff in Hm as [Hl Hh].
    apply str_eqb_true in Hh. split_and!; [done|by destruct (deleted m)|done].
  - apply list_find_None in E. intros i m (Hi & Hl & Hh).
    eapply Forall_lookup_1 in E; [|exact Hi]. apply E. rewrite Hl. simpl. by apply str_eqb_true.
Qed.

(** Everything but the operating system calls is as [w] with the queues [qs]. *)
Definition only_queues (w : World) (qs : gmap string QueueState) (w' : World) : Prop :=
  server w' = server (set_queues qs w) /\ w_msg_counter w' = w_msg_counter w.

Lemma only_queues_refl w : only_queues w (w_queues w) w.
Proof. split; [by destruct w as [[]]|done]. Qed.
Lemma only_queues_queues w qs w' : only_queues w qs w' -> w_queues w' = qs.
Proof. intros [Hs _]. unfold w_queues. by rewrite Hs. Qed.
Lemma only_queues_set w qs w' qs' :
  only_queues w qs w' -> only_queues w qs' (set_queues qs' w').
Proof. intros [Hs Hn]. split; [|done]. unfold set_queues. simpl. by rewrite Hs. Qed.
Lemma only_queues_io w qs w1 w2 :
  server w2 = server w1 -> w_msg_counter w2 = w_msg_counter w1 ->
  only_queues w qs w1 -> only_queues w qs w2.
Proof. intros Hs Hn [Hs' Hn']. split; congruence. Qed.
Lemma only_queues_same w w' : only_queues w (w_queues w) w' -> server w' = server w.
Proof. intros [Hs _]. rewrite Hs. by destruct w as [[]]. Qed.
Lemma only_queues_refines {A} (L : label -> bool) k w qs (o : outcome A) w' :
  is_panic o = false -> only_queues w qs w' -> 0 <= k ->
  asteps (config (server w)) L (abs w) (qs, w_msg_counter w) -> refines L k w o w'.
Proof.
  intros Ho Hw Hk Hst. pose proof (only_queues_queues _ _ _ Hw) as Hqs. destruct Hw as [Hs Hn].
  split_and!; [done|by rewrite Hs| |lia]. unfold abs in *. by rewrite Hqs, Hn.
Qed.

Lemma with_message_undo q i m x : messages q !! i = Some m -> with_message i m (with_message i x q) = q.
Proof.
  intros Hm. unfold with_message. destruct q; simpl in *. unfold set_messages. simpl. f_equal.
  rewrite list_insert_insert_eq. by apply list_insert_id.
Qed.

Inductive stage_spec (name handle : string) (mutate : MessageState -> string -> MessageState)
    (q : QueueState) (w : World) : outcome StagedMutation -> World -> Prop :=
| stage_unknown w' :
    handle = "" \/ no_holder q handle -> only_queues w (w_queues w) w' ->
    stage_spec name handle mutate q w
      (Ok (Rejected (if is_empty handle then "ReceiptHandle is required" else "receipt handle is invalid"))) w'
| stage_expired w' i m now :
    handle <> "" -> holder q handle i m -> reading w now -> before now (invisible_until m) = false ->
    only_queues w (<[name := with_message i (set_receipt_handle "" m) q]> (w_queues w)) w' ->
    stage_spec name handle mutate q w (Ok (Applied i m (Some "receipt handle is invalid"))) w'
| stage_applied w' i m now :
    handle <> "" -> holder q handle i m -> reading w now -> before now (invisible_until m) = true ->
    only_queues w (<[name := with_message i (mutate m now) q]> (w_queues w)) w' ->
    stage_spec name handle mutate q w (Ok (Applied i m None)) w'.

Lemma stage_spec_wp name handle mutate q w :
  clock_modern -> w_queues w !! name = Some q ->
  wp (stage_receipted_mutation name handle mutate) (stage_spec name handle mutate q w) w.
Proof.
  intros Hc Hq. unfold stage_receipted_mutation. destruct (is_empty handle) eqn:Hh.
  { apply wp_ret. pose proof (stage_unknown name handle mutate q w w) as Hu. rewrite Hh in Hu.
    apply Hu; [|apply only_queues_refl]. left. by destruct handle. }
  assert (handle <> "") as Hne by (by intros ->).
  apply wp_bind, wp_now_dated; [done|]. intros now Hnow. simpl.
  apply wp_bind. eapply wp_queue_at; [exact Hq|]. simpl. pose proof (list_find_holder q handle) as Hf.
  assert (only_queues w (w_queues w) (set_tick (S (w_tick w)) w)) as Hw
    by (eapply only_queues_io; [..|apply only_queues_refl]; done).
  destruct (list_find _ _) as [[i m]|].
  - pose proof Hf as (Hi & _ & _). destruct (before now (invisible_until m)) eqn:Hb; simpl;
      (apply wp_bind; eapply wp_put_message; [exact Hq|exact Hi|]; simpl; apply wp_ret).
    + eapply stage_applied; [done..|]. eapply only_queues_set, Hw.
    + eapply stage_expired; [done..|]. eapply only_queues_set, Hw.
  - apply wp_ret. pose proof (stage_unknown name handle mutate q w) as Hu. rewrite Hh in Hu.
    apply Hu; [by right|done].
Qed.

(** ** One receipted call *)

Inductive receipted_spec (name handle : string) (mutate : MessageState -> string -> MessageState)
    (q : QueueState) (w : World) : outcome unit -> World -> Prop :=
| receipted_unknown e w' :
    handle = "" \/ no_holder q handle -> only_queues w (w_queues w) w' ->
    receipted_spec name handle mutate q w (Err e) w'
| receipted_expired w' i m now :
    handle <> "" -> holder q handle i m -> reading w now -> before now (invisible_until m) = false ->
    only_queues w (<[name := with_message i (set_receipt_handle "" m) q]> (w_queues w)) w' ->
    receipted_spec name handle mutate q w (Err "receipt handle is invalid") w'
| receipted_done w' i m now :
    handle <> "" -> holder q handle i m -> reading w now -> before now (invisible_until m) = true ->
    only_queues w (<[name := with_message i (mutate m now) q]> (w_queues w)) w' ->
    receipted_spec name handle mutate q w (Ok tt) w'
| receipted_rolled_back e w' :
    only_queues w (w_queues w) w' -> receipted_spec name handle mutate q w (Err e) w'.

(** Persisting an update of message [i], or putting the message back. *)
Lemma wp_persist_message name q i m x (Q : outcome unit -> World -> Prop) (k : outcome unit) w0 w :
  w_queues w0 !! name = Some q -> messages q !! i = Some m ->
  only_queues w0 (<[name := with_message i x q]> (w_queues w0)) w ->
  (forall w', only_queues w0 (<[name := with_message i x q]> (w_queues w0)) w' -> Q k w') ->
  (forall e w', only_queues w0 (w_queues w0) w' -> Q (Err e) w') ->
  wp (r ← catch persist;
      match r with
      | inr e => put_message name i m;; fail e
      | inl _ => lift k
      end) Q w.
Proof.
  intros Hq Hm Hw Hok Herr. apply wp_bind, wp_catch, wp_persist_io.
  intros [[]|e|p] w' Hp Hs Hn; simpl; [| |done]; pose proof (only_queues_io _ _ _ _ Hs Hn Hw) as Hw'.
  - apply wp_lift. auto.
  - pose proof (lookup_lt_Some _ _ _ Hm) as Hlt.
    apply wp_bind. eapply wp_put_message.
    + rewrite (only_queues_queues _ _ _ Hw'). apply lookup_insert_eq.
    + apply list_lookup_insert_eq, Hlt.
    + simpl. apply wp_fail, Herr. rewrite (only_queues_queues _ _ _ Hw').
      rewrite with_message_undo, insert_insert_eq, (insert_id _ _ _ Hq) by done.
      by eapply only_queues_set.
Qed.

Lemma receipted_spec_wp name handle mutate q w :
  clock_modern -> w_queues w !! name = Some q ->
  wp (apply_to_receipted_message name handle mutate) (receipted_spec name handle mutate q w) w.
Proof.
  intros Hc Hq. unfold apply_to_receipted_message. apply wp_bind.
  eapply wp_mono; [by apply (stage_spec_wp name handle mutate q w)|].
  intros o w1 Hs. destruct Hs as [w1 Hu Hw|w1 i m now Hne Hh Hd Hb Hw|w1 i m now Hne Hh Hd Hb Hw]; simpl.
  - apply wp_fail. by apply receipted_unknown.
  - pose proof Hh as (Hi & _ & _).
    apply (wp_persist_message name q i m _ _ (Err "receipt handle is invalid") w w1 Hq Hi Hw).
    + intros w' Hw'. by eapply receipted_expired.
    + intros e w' Hw'. by apply receipted_rolled_back.
  - pose proof Hh as (Hi & _ & _).
    apply (wp_persist_message name q i m _ _ (Ok tt) w w1 Hq Hi Hw).
    + intros w' Hw'. by eapply receipted_done.
    + intros e w' Hw'. by apply receipted_rolled_back.
Qed.

(** A mutation that is an abstract step labelled [l]. *)
Definition mutates (c : Config) (l : label) (mutate : MessageState -> string -> MessageState) : Prop :=
  forall (qs : gmap string QueueState) n name q i m now,
    qs !! name = Some q -> messages q !! i = Some m -> deleted m = false -> receipt_handle m <> "" ->
    astep c l (qs, n) (<[name := with_message i (mutate m now) q]> qs, n).

Lemma delete_mutates c : mutates c LAck delete_mutation.
Proof. intros qs n name q i m now Hq Hm Hl Hh. by apply a_ack. Qed.
Lemma visibility_mutates c seconds : mutates c LVisibility (visibility_mutation seconds).
Proof. intros qs n name q i m now Hq Hm Hl Hh. by apply a_visibility. Qed.

Lemma receipted_refines (L : label -> bool) l name handle mutate q w o w' :
  L l = true -> L LForget = true -> mutates (config (server w)) l mutate ->
  w_queues w !! name = Some q -> receipted_spec name handle mutate q w o w' -> refines L 0 w o w'.
Proof.
  intros Hl Hf Hmut Hq Hs.
  destruct Hs as [e w' _ Hw|w' i m now Hne (Hi & Hd & Hh) _ _ Hw|w' i m now Hne (Hi & Hd & Hh) _ _ Hw|e w' Hw];
    eapply only_queues_refines; try exact Hw; try done; try apply asteps_refl.
  - eapply asteps_one; [exact Hf|]. by eapply a_forget.
  - eapply asteps_one; [exact Hl|]. apply Hmut; [done..|congruence].
Qed.

(** The calls themselves: their checks, then the receipted update. *)
Inductive call_spec (url handle : string) (mutate : MessageState -> string -> MessageState) (w : World)
    : outcome unit -> World -> Prop :=
| call_rejected e w' : only_queues w (w_queues w) w' -> call_spec url handle mutate w (Err e) w'
| call_applied q o w' :
    w_queues w !! queue_name_from_url url = Some q ->
    receipted_spec (queue_name_from_url url) handle mutate q w o w' -> call_spec url handle mutate w o w'.

Lemma delete_message_wp url handle w :
  clock_modern -> wp (delete_message url handle) (call_spec url handle delete_mutation w) w.
Proof.
  intros Hc. assert (forall e, call_spec url handle delete_mutation w (Err e) w) as Hrej
    by (intros; apply call_rejected, only_queues_refl).
  unfold delete_message. do 2 (apply wp_bind, wp_guard; intros ?; simpl; [apply Hrej|]).
  apply wp_bind, wp_require_queue; simpl; [intros q Hq _|apply Hrej].
  eapply wp_mono; [by apply (receipted_spec_wp _ _ _ q)|]. intros o w' Hs. by eapply call_applied.
Qed.

Lemma change_message_visibility_wp url handle seconds w :
  clock_modern ->
  wp (change_message_visibility url handle seconds)
     (fun o w' => call_spec url handle (visibility_mutation seconds) w o w'
                  /\ (o = Ok tt -> 0 <= seconds <= MAX_VISIBILITY_TIMEOUT_SECONDS)) w.
Proof.
  intros Hc. assert (forall e, call_spec url handle (visibility_mutation seconds) w (Err e) w
    /\ (Err e = Ok tt -> 0 <= seconds <= MAX_VISIBILITY_TIMEOUT_SECONDS)) as Hrej.
  { intros e. split; [|done]. apply call_rejected, only_queues_refl. }
  unfold change_message_visibility.
  do 4 (apply wp_bind, wp_guard; intros ?; simpl; [apply Hrej|]).
  apply wp_bind, wp_require_queue; simpl; [intros q Hq _|apply Hrej].
  eapply wp_mono; [by apply (receipted_spec_wp _ _ _ q)|]. intros o w' Hs.
  split; [by eapply call_applied|]. lia.
Qed.

Lemma call_refines (L : label -> bool) l url handle mutate w o w' :
  L l = true -> L LForget = true -> mutates (config (server w)) l mutate ->
  call_spec url handle mutate w o w' -> refines L 0 w o w'.
Proof.
  intros Hl Hf Hmut [e w1 Hw|q o1 w1 Hq Hs].
  - eapply only_queues_refines; [done|exact Hw|done|]. constructor.
  - by apply (receipted_refines L l (queue_name_from_url url) handle mutate q).
Qed.

(** ** Batches *)

(** Undoing staged updates, last first. *)
Definition undo (ms : list MessageState) (staged : list StagedBatchEntry) : list MessageState :=
  foldl (fun ms (s : StagedBatchEntry) => <[s.1.1.2 := s.1.2]> ms) ms staged.

(** The queues during the staging loop of a batch that started in [w0]. *)
Record staged_state (c : Config) (L : label -> bool) (name : string) (w0 : World)
    (staged : list StagedBatchEntry) (w : World) : Prop := {
  st_only : only_queues w0 (w_queues w) w;
  st_steps : asteps c L (abs w0) (abs w);
  st_undo : match w_queues w0 !! name with
            | None => staged = [] /\ w_queues w = w_queues w0
            | Some q0 => exists ms,
                w_queues w = <[name := set_messages ms q0]> (w_queues w0)
                /\ undo ms (reverse staged) = messages q0
                /\ Forall (fun s : StagedBatchEntry => (s.1.1.2 < length ms)%nat) staged
            end;
}.

Lemma set_messages_same q : set_messages (messages q) q = q.
Proof. by destruct q. Qed.

Lemma staged_start c L name w : staged_state c L name w [] w.
Proof.
  split; [apply only_queues_refl|constructor|]. destruct (w_queues w !! name) as [q|] eqn:Hq; [|done].
  exists (messages q). split_and!; [|done|constructor]. rewrite set_messages_same. by rewrite insert_id.
Qed.

(** Staging one more update of message [i]. *)
Lemma staged_snoc c L l name w0 staged w w' id i m x e qs ms q0 :
  staged_state c L name w0 staged w -> L l = true ->
  w_queues w0 !! name = Some q0 -> w_queues w = <[name := set_messages ms q0]> (w_queues w0) ->
  undo ms (reverse staged) = messages q0 ->
  Forall (fun s : StagedBatchEntry => (s.1.1.2 < length ms)%nat) staged ->
  ms !! i = Some m ->
  qs = <[name := with_message i x (set_messages ms q0)]> (w_queues w) ->
  astep c l (abs w) (qs, w_msg_counter w) -> only_queues w qs w' ->
  staged_state c L name w0 (staged ++ [(id, i, m, e)]) w'.
Proof.
  intros [Ho Hst _] Hl Hq0 Hqs Hundo Hlt Hm -> Hstep Hw'.
  pose proof (only_queues_queues _ _ _ Hw') as Hqs'. split.
  - rewrite Hqs'. destruct Hw' as [Hs' Hn'], Ho as [Hs Hn]. split; [|congruence].
    rewrite Hs'. unfold set_queues. simpl. by rewrite Hs.
  - eapply asteps_snoc; [exact Hst|exact Hl|]. unfold abs at 2. rewrite Hqs'.
    destruct Hw' as [_ ->]. exact Hstep.
  - rewrite Hq0. exists (<[i := x]> ms). split_and!.
    + by rewrite Hqs', Hqs, insert_insert_eq.
    + rewrite reverse_app. simpl. by rewrite list_insert_insert_eq, list_insert_id.
    + rewrite length_insert. apply Forall_app. split; [done|]. apply Forall_singleton. simpl.
      by eapply lookup_lt_Some.
Qed.

(** [stage_entry], for a mutation that is a step labelled [l]. *)
Lemma wp_stage_entry c (L : label -> bool) l name id handle mutate result staged w0 w :
  clock_modern -> config (server w0) = c -> L l = true -> L LForget = true -> mutates c l mutate ->
  staged_state c L name w0 staged w ->
  wp (stage_entry name id handle mutate (result, staged))
     (fun o w' => (exists e, o = Ok (fail_entry result id e, staged) /\ staged_state c L name w0 staged w')
        \/ exists i m e, o = Ok (result, staged ++ [(id, i, m, e)])
             /\ staged_state c L name w0 (staged ++ [(id, i, m, e)]) w') w.
Proof.
  intros Hclock Hcfg Hl Hf Hmut S. unfold stage_entry. wp_step. apply wp_gets. simpl.
  fold (w_queues w). destruct (is_empty name || _) eqn:Hno.
  { apply wp_ret. left. eauto. }
  apply orb_false_iff in Hno as [_ Hno]. apply negb_false_iff, bool_decide_eq_true in Hno as [q Hq].
  pose proof S as [Ho Hst Hundo]. destruct (w_queues w0 !! name) as [q0|] eqn:Hq0.
  2:{ destruct Hundo as [_ E]. rewrite E in Hq. congruence. }
  destruct Hundo as (ms & Hqs & Hun & Hlt).
  assert (q = set_messages ms q0) as -> by (rewrite Hqs, lookup_insert_eq in Hq; congruence).
  apply wp_bind. eapply wp_mono; [by apply (stage_spec_wp name handle mutate (set_messages ms q0))|].
  intros o w' Hs. destruct Hs as [w' _ Hw|w' i m now Hne (Hi & Hd & Hh) _ _ Hw|w' i m now Hne (Hi & Hd & Hh) _ _ Hw];
    simpl; apply wp_ret.
  - left. eexists. split; [done|]. pose proof (only_queues_queues _ _ _ Hw) as Hq'.
    destruct Hw as [Hs Hn], Ho as [Hs0 Hn0]. split.
    + rewrite Hq'. split; [|congruence]. rewrite Hs. unfold set_queues. simpl. by rewrite Hs0.
    + unfold abs at 2. by rewrite Hq', Hn.
    + rewrite Hq0, Hq'. eauto.
  - right. exists i, m, (Some "receipt handle is invalid"). split; [done|].
    eapply (staged_snoc c L LForget); try done. by eapply a_forget.
  - right. exists i, m, None. split; [done|].
    eapply (staged_snoc c L l); try done. apply Hmut; [done..|congruence].
Qed.

Lemma wp_unstage name staged q w :
  w_queues w !! name = Some q ->
  Forall (fun s : StagedBatchEntry => (s.1.1.2 < length (messages q))%nat) staged ->
  wp (unstage name staged)
     (fun o w' => o = Ok tt
        /\ only_queues w (<[name := set_messages (undo (messages q) staged) q]> (w_queues w)) w') w.
Proof.
  revert q w. induction staged as [|[[[id i] m] e] staged IH]; intros q w Hq Hlt.
  - apply wp_ret. split; [done|]. simpl. rewrite set_messages_same, insert_id by done.
    apply only_queues_refl.
  - apply Forall_cons in Hlt as [Hi Hlt]. simpl in Hi.
    destruct (lookup_lt_is_Some_2 _ _ Hi) as [m0 Hm0]. cbn [unstage].
    apply wp_bind. eapply wp_put_message; [exact Hq|exact Hm0|]. simpl.
    eapply wp_mono.
    + apply (IH (with_message i m q)); [apply lookup_insert_eq|]. simpl. by rewrite length_insert.
    + intros o w' [-> [Hs Hn]]. split; [done|]. split; [|done]. rewrite Hs. simpl.
      unfold set_queues, w_queues. simpl. by rewrite insert_insert_eq.
Qed.

(** How a batch call ends: every entry is reported exactly once. *)
Inductive batch_spec (L : label -> bool) (ids : list string) (w : World) : outcome BatchResult -> World -> Prop :=
| batch_rejected e w' : only_queues w (w_queues w) w' -> batch_spec L ids w (Err e) w'
| batch_done r w' :
    br_successful r ++ (be_id <$> br_failed r) ≡ₚ ids ->
    only_queues w (w_queues w') w' -> asteps (config (server w)) L (abs w) (abs w') ->
    batch_spec L ids w (Ok r) w'
| batch_rolled_back r w' :
    br_successful r = [] -> (be_id <$> br_failed r) ≡ₚ ids ->
    only_queues w (w_queues w) w' -> batch_spec L ids w (Ok r) w'.

Definition staged_id (s : StagedBatchEntry) : string := s.1.1.1.

Lemma foldl_failed (staged : list StagedBatchEntry) e result :
  let r := foldl (fun res (s : StagedBatchEntry) => fail_entry res s.1.1.1 e) result staged in
  br_successful r = br_successful result
  /\ be_id <$> br_failed r = (be_id <$> br_failed result) ++ (staged_id <$> staged).
Proof.
  revert result. induction staged as [|s staged IH]; intros result; simpl.
  - by rewrite app_nil_r.
  - destruct (IH (fail_entry result s.1.1.1 e)) as [-> ->]. split; [done|]. simpl.
    by rewrite fmap_app, <- (assoc_L (++)).
Qed.

Lemma foldl_resolved (staged : list StagedBatchEntry) result :
  let r := foldl (fun res (s : StagedBatchEntry) =>
                    match s.2 with
                    | Some e => fail_entry res s.1.1.1 e
                    | None => succeed_entry res s.1.1.1
                    end) result staged in
  br_successful r ++ (be_id <$> br_failed r)
  ≡ₚ br_successful result ++ (be_id <$> br_failed result) ++ (staged_id <$> staged).
Proof.
  revert result. induction staged as [|[[[id i] m] e] staged IH]; intros result; simpl.
  - by rewrite app_nil_r.
  - rewrite IH. destruct e; simpl.
    + rewrite fmap_app. simpl. by rewrite <- !(assoc_L (++)).
    + rewrite <- !(assoc_L (++)). f_equiv. simpl. by rewrite <- Permutation_middle.
Qed.

Lemma wp_apply_staged (L : label -> bool) name ids result staged w0 w :
  br_successful result = [] -> (be_id <$> br_failed result) ++ (staged_id <$> staged) ≡ₚ ids ->
  staged_state (config (server w0)) L name w0 staged w ->
  wp (apply_staged_batch name staged result) (batch_spec L ids w0) w.
Proof.
  intros Hsucc Hids [Ho Hst Hundo]. unfold apply_staged_batch. destruct staged as [|s staged'] eqn:E.
  { apply wp_ret. apply batch_done; [|done|done]. rewrite Hsucc. simpl in *.
    by rewrite app_nil_r in Hids. }
  rewrite <- E in *. clear E s staged'.
  apply wp_bind, wp_catch, wp_persist_io. intros [[]|e|p] w' Hp Hs Hn; simpl; [| |done];
    pose proof (only_queues_io _ _ _ _ Hs Hn Ho) as Ho';
    assert (w_queues w' = w_queues w) as Hqs by (unfold w_queues; by rewrite Hs).
  - apply wp_ret. apply batch_done.
    + rewrite foldl_resolved, Hsucc. done.
    + by rewrite Hqs.
    + unfold abs at 2. by rewrite Hqs, Hn.
  - destruct (foldl_failed staged e result) as [Hf1 Hf2].
    destruct (w_queues w0 !! name) as [q0|] eqn:Hq0.
    + destruct Hundo as (ms & Hqms & Hun & Hlt). apply wp_bind. eapply wp_mono.
      { apply (wp_unstage name (reverse staged) (set_messages ms q0)).
        - rewrite Hqs, Hqms. apply lookup_insert_eq.
        - by apply Forall_reverse. }
      intros o w2 [-> Hw2]. simpl. apply wp_ret. apply batch_rolled_back; [congruence| |].
      { by rewrite Hf2. }
      simpl in Hw2. rewrite Hun in Hw2. rewrite Hqs, Hqms, insert_insert_eq in Hw2.
      replace (set_messages (messages q0) (set_messages ms q0)) with q0 in Hw2 by (by destruct q0).
      rewrite insert_id in Hw2 by done. destruct Hw2 as [Hs2 Hn2], Ho' as [Hs0 Hn0].
      split; [|congruence]. rewrite Hs2. unfold set_queues. simpl. by rewrite Hs0.
    + destruct Hundo as [-> Hq]. simpl. apply wp_ret. apply batch_rolled_back; [done| |].
      { simpl in Hids. by rewrite app_nil_r in Hids. }
      by rewrite Hq in Ho'.
Qed.

(** What the body of a batch loop does with one entry: it fails the entry, or
    stages an update for it. *)
Definition entry_post c (L : label -> bool) name (id : string) result staged w0
    (o : outcome (BatchResult * list StagedBatchEntry)) (w' : World) : Prop :=
  (exists e, o = Ok (fail_entry result id e, staged) /\ staged_state c L name w0 staged w')
  \/ exists i m e, o = Ok (result, staged ++ [(id, i, m, e)])
       /\ staged_state c L name w0 (staged ++ [(id, i, m, e)]) w'.

Lemma wp_batch {X} (L : label -> bool) name (xid : X -> string)
    (body : X -> BatchResult * list StagedBatchEntry -> M World (BatchResult * list StagedBatchEntry))
    (xs : list X) w0 :
  (forall x result staged w, staged_state (config (server w0)) L name w0 staged w ->
     wp (body x (result, staged)) (entry_post (config (server w0)) L name (xid x) result staged w0) w) ->
  wp ('(result, staged) ← for_each xs (mkBatchResult [] [], []) body;
      apply_staged_batch name staged result) (batch_spec L (xid <$> xs) w0) w0.
Proof.
  intros Hbody. apply wp_bind.
  eapply (wp_for_each (fun rest (acc : BatchResult * list StagedBatchEntry) w =>
    br_successful acc.1 = []
    /\ (be_id <$> br_failed acc.1) ++ (staged_id <$> acc.2) ++ (xid <$> rest) ≡ₚ xid <$> xs
    /\ staged_state (config (server w0)) L name w0 acc.2 w)).
  - intros x rest [result staged] w (Hsucc & Hids & S). simpl in *.
    eapply wp_mono; [by apply Hbody|].
    intros o w' [(e & -> & S')|(i & m & e & -> & S')]; simpl.
    + split_and!; [done| |done]. rewrite fmap_app, <- Hids. simpl.
      rewrite <- (assoc_L (++)). simpl. f_equiv. apply Permutation_middle.
    + split_and!; [done| |done]. rewrite fmap_app, <- Hids. simpl. by rewrite <- (assoc_L (++)).
  - intros [result staged] w (Hsucc & Hids & S). simpl in *. rewrite app_nil_r in Hids.
    by apply wp_apply_staged.
  - simpl. split_and!; [done|done|]. apply staged_start.
Qed.

Lemma no_panic_batch_ids ids seen : no_panic (check_batch_ids ids seen).
Proof. revert seen. induction ids as [|id ids IH]; intros seen; simpl; solve_no_panic. Qed.
Lemma no_panic_batch ids : no_panic (validate_batch_entries ids).
Proof. unfold validate_batch_entries. destruct (Nat.eqb _ 0); [done|]. destruct (Nat.ltb 10 _); [done|]. apply no_panic_batch_ids. Qed.

Lemma entry_fail c L name id result staged w0 w e :
  staged_state c L name w0 staged w ->
  entry_post c L name id result staged w0 (Ok (fail_entry result id e, staged)) w.
Proof. intros S. left. eauto. Qed.

Lemma delete_message_batch_wp url entries w :
  clock_modern ->
  wp (delete_message_batch url entries) (batch_spec ack_labels (de_id <$> entries) w) w.
Proof.
  intros Hc. unfold delete_message_batch.
  apply wp_bind, wp_guard; intros ?; simpl; [apply batch_rejected, only_queues_refl|].
  apply wp_bind, wp_check; simpl; [apply no_panic_batch|intros _ _|
    intros e; apply batch_rejected, only_queues_refl].
  apply wp_batch. intros [id handle] result staged w' S. unfold delete_batch_entry. simpl.
  destruct (is_empty handle); [apply wp_ret; by apply entry_fail|].
  by apply (wp_stage_entry _ _ LAck); [..|apply delete_mutates|].
Qed.

Lemma change_message_visibility_batch_wp url entries w :
  clock_modern ->
  wp (change_message_visibility_batch url entries)
     (batch_spec visibility_labels (cv_id <$> entries) w) w.
Proof.
  intros Hc. unfold change_message_visibility_batch.
  apply wp_bind, wp_guard; intros ?; simpl; [apply batch_rejected, only_queues_refl|].
  apply wp_bind, wp_check; simpl; [apply no_panic_batch|intros _ _|
    intros e; apply batch_rejected, only_queues_refl].
  apply wp_batch. intros [id handle seconds] result staged w' S. unfold visibility_batch_entry. simpl.
  destruct (is_empty handle); [apply wp_ret; by apply entry_fail|].
  destruct (seconds <? 0); [apply wp_ret; by apply entry_fail|].
  destruct (MAX_VISIBILITY_TIMEOUT_SECONDS <? seconds); [apply wp_ret; by apply entry_fail|].
  by apply (wp_stage_entry _ _ LVisibility); [..|apply visibility_mutates|].
Qed.

Lemma batch_refines (L : label -> bool) ids w o w' :
  batch_spec L ids w o w' -> refines L 0 w o w'.
Proof.
  intros [e w1 Hw|r w1 Hids Hw Hst|r w1 _ _ Hw].
  - eapply only_queues_refines; [done|exact Hw|done|]. constructor.
  - destruct Hw as [Hs Hn]. split_and!; [done|by rewrite Hs|done|lia].
  - eapply only_queues_refines; [done|exact Hw|done|]. constructor.
Qed.

(** ** Batch send *)

Lemma ready_after {A} (L : label -> bool) k j w (o : outcome A) w' :
  ready (k + j) w -> refines L k w o w' -> ready j w'.
Proof.
  intros [Hc Hi Hr] (_ & Hcfg & Hst & Hn). split; [done| |unfold room in *; lia].
  rewrite Hcfg. by eapply asteps_sqs_inv.
Qed.

Lemma refines_trans {A B} (L : label -> bool) j k w (o : outcome A) w1 (o' : outcome B) w2 :
  refines L j w o w1 -> refines L k w1 o' w2 -> refines L (j + k) w o' w2.
Proof.
  intros (_ & Hc1 & Hs1 & Hn1) (Hp & Hc2 & Hs2 & Hn2). split_and!; [done|congruence| |lia].
  eapply asteps_trans; [done|]. by rewrite <- Hc1.
Qed.

Lemma refines_start {A} L w (a : A) : refines L 0 w (Ok a) w.
Proof. by apply refines_same. Qed.

Definition sent_ids (r : SendMessageBatchResult) : list string :=
  (sr_id <$> sb_successful r) ++ (be_id <$> sb_failed r).

Inductive send_batch_spec (ids : list string) (w : World) : outcome SendMessageBatchResult -> World -> Prop :=
| send_batch_rejected e : send_batch_spec ids w (Err e) w
| send_batch_done r w' :
    (length ids <= 10)%nat -> sent_ids r ≡ₚ ids -> refines send_labels (Z.of_nat (length ids)) w (Ok r) w' ->
    send_batch_spec ids w (Ok r) w'.

Lemma wp_send_entry url entry result w :
  ready 1 w ->
  wp (send_batch_entry url entry result)
     (fun o w' => exists r, o = Ok r /\ sent_ids r ≡ₚ sent_ids result ++ [se_id entry]
        /\ refines send_labels 1 w (Ok r) w') w.
Proof.
  intros Hr. unfold send_batch_entry. apply wp_bind, wp_catch.
  eapply wp_mono; [by apply send_message_spec_wp|]. intros o w' Hs.
  apply send_spec_refines in Hs; [|done].
  destruct o as [m|e|p]; simpl; [| |by destruct Hs]; apply wp_ret; eexists; (split_and!; [done| |done]);
    unfold sent_ids; simpl; rewrite fmap_app; simpl.
  - rewrite <- !(assoc_L (++)). f_equiv. apply Permutation_app_comm.
  - by rewrite (assoc_L (++)).
Qed.

Lemma validate_batch_length ids : validate_batch_entries ids = Ok tt -> (length ids <= 10)%nat.
Proof.
  unfold validate_batch_entries. destruct (Nat.eqb _ 0); [done|].
  destruct (Nat.ltb_spec 10 (length ids)); [done|lia].
Qed.

Lemma send_message_batch_wp url entries w :
  ready 10 w -> wp (send_message_batch url entries) (send_batch_spec (se_id <$> entries) w) w.
Proof.
  intros Hready. unfold send_message_batch.
  apply wp_bind, wp_guard; intros ?; simpl; [apply send_batch_rejected|].
  apply wp_bind, wp_check; simpl; [apply no_panic_batch|intros [] Hv|intros e; apply send_batch_rejected].
  apply validate_batch_length in Hv. rewrite length_fmap in Hv.
  assert (ready (Z.of_nat (length entries)) w) as Hr
    by (destruct Hready; split; [done|done|unfold room in *; lia]).
  eapply (wp_for_each (fun rest acc w' =>
    sent_ids acc ++ (se_id <$> rest) ≡ₚ se_id <$> entries
    /\ refines send_labels (Z.of_nat (length entries) - Z.of_nat (length rest)) w (Ok acc) w')).
  - intros e rest acc w' (Hids & Href).
    eapply wp_mono; [apply wp_send_entry|].
    + eapply (ready_after send_labels _ 1); [|exact Href].
      destruct Hr; split; [done|done|]. unfold room in *. simpl. lia.
    + intros o w'' (r & -> & Hp & Href'). split.
      * rewrite Hp, <- (assoc_L (++)). done.
      * pose proof (refines_trans _ _ _ _ _ _ _ _ Href Href') as Ht. simpl in Ht.
        replace (Z.of_nat (length entries) - Z.of_nat (length rest))
          with (Z.of_nat (length entries) - Z.of_nat (S (length rest)) + 1) by lia. done.
  - intros acc w' (Hids & Href). apply send_batch_done; [by rewrite length_fmap|..].
    + by rewrite app_nil_r in Hids.
    + rewrite length_fmap. simpl in Href. by rewrite Z.sub_0_r in Href.
  - split; [done|]. rewrite Z.sub_diag. apply refines_start.
Qed.
End Receipted.
