(* ===== verification/SqsManage.v ===== *)
(** Message-move tasks and queue management: what the calls do to the queues, and
    their refinement of the abstract machine. *)

From S2P Require Import Prelude RustStr RustNum SqsTime SqsModel SqsValidation SqsServer SqsMessages SqsSpec SqsRefine SqsReceive SqsCalls.
Local Open Scope Z_scope.

(** ** The plan of a move task *)

Definition move : Type := nat * string * MessageState.
Definition mv_index (mv : move) : nat := mv.1.1.
Definition mv_target (mv : move) : string := mv.1.2.

Section Plan.
Implicit Types qs : gmap string QueueState.

(** [mv] moves message [i] of [ms], live, to the queue it resolves to. *)
Definition planned qs (destination now : string) (ms : list MessageState) (mv : move) : Prop :=
  exists m, ms !! mv_index mv = Some m /\ deleted m = false
    /\ move_target qs destination m = Some (mv_target mv) /\ mv.2 = requeued now m.

Lemma plan_moves_shift qs d now k ms :
  plan_moves qs d now (S k) ms = (fun mv : move => (S (mv_index mv), mv_target mv, mv.2)) <$> plan_moves qs d now k ms.
Proof.
  revert k. induction ms as [|m ms IH]; intros k; simpl; [done|].
  destruct (deleted m); [apply IH|]. destruct (move_target qs d m); [|apply IH].
  rewrite fmap_cons. f_equal. apply IH.
Qed.

Lemma plan_moves_planned qs d now ms : Forall (planned qs d now ms) (plan_moves qs d now 0 ms).
Proof.
  induction ms as [|m ms IH]; simpl; [constructor|].
  assert (Forall (planned qs d now (m :: ms)) (plan_moves qs d now 1 ms)) as Hrest.
  { rewrite plan_moves_shift. apply Forall_fmap. eapply Forall_impl; [exact IH|].
    intros mv (x & Hx & H1 & H2 & H3). exists x. done. }
  destruct (deleted m) eqn:Hl; [done|]. destruct (move_target qs d m) as [t|] eqn:Ht; [|done].
  constructor; [|done]. by exists m.
Qed.

Lemma plan_moves_complete qs d now ms i m :
  ms !! i = Some m -> deleted m = false -> is_Some (move_target qs d m) ->
  i ∈ (mv_index <$> plan_moves qs d now 0 ms).
Proof.
  revert i. induction ms as [|x ms IH]; intros i Hi Hl [t Ht]; [done|].
  destruct i as [|i]; simpl in Hi; cbn [plan_moves].
  - injection Hi as ->. rewrite Hl, Ht. apply list_elem_of_here.
  - assert (S i ∈ (mv_index <$> plan_moves qs d now 1 ms)) as Hin.
    { rewrite plan_moves_shift, <- list_fmap_compose.
      specialize (IH i Hi Hl ltac:(eauto)). apply list_elem_of_fmap in IH as (mv & -> & Hmv).
      apply list_elem_of_fmap. by exists mv. }
    destruct (deleted x); [done|]. destruct (move_target qs d x); [|done]. by apply list_elem_of_further.
Qed.

Lemma plan_moves_sorted qs d now k ms :
  StronglySorted lt (mv_index <$> plan_moves qs d now k ms)
  /\ Forall (fun mv => k <= mv_index mv)%nat (plan_moves qs d now k ms).
Proof.
  revert k. induction ms as [|m ms IH]; intros k; simpl; [split; constructor|].
  destruct (IH (S k)) as [Hs Hf].
  assert (Forall (fun mv => k <= mv_index mv)%nat (plan_moves qs d now (S k) ms)) as Hf'
    by (eapply Forall_impl; [exact Hf|]; simpl; intros mv Hmv; lia).
  destruct (deleted m); [done|]. destruct (move_target qs d m); [|done].
  split; simpl; constructor; try done.
  apply Forall_fmap. eapply Forall_impl; [exact Hf|]. intros mv Hmv. unfold compose, mv_index in *.
  simpl in *. lia.
Qed.

Lemma move_target_exists qs d m t : move_target qs d m = Some t -> is_Some (qs !! t).
Proof.
  unfold move_target, resolve_original_source, queue_name_by_arn. fold (find_by_arn d qs).
  fold (find_by_arn (dead_letter_source_arn m) qs). intros Ht.
  assert (exists arn, find_by_arn arn qs = Some t) as [arn Hf]
    by (destruct (is_empty d); [destruct (is_empty (dead_letter_source_arn m)); [done|]|]; eauto).
  destruct (find_by_arn_Some _ _ _ Hf) as (q & Hq & _). eauto.
Qed.

(** ** The queues after some moves *)

Definition tombstone_all (ms : list MessageState) (idx : list nat) : list MessageState :=
  foldl (fun ms i => alter tombstoned i ms) ms idx.
Definition moved_to (k : string) (moves : list move) : list MessageState :=
  (base.filter (fun mv => mv_target mv = k) moves).*2.
Definition after_moves (source : string) (moves : list move) (k : string) (q : QueueState) : QueueState :=
  set_messages ((if decide (k = source) then tombstone_all (messages q) (mv_index <$> moves)
                 else messages q) ++ moved_to k moves) q.

Lemma length_tombstone_all ms idx : length (tombstone_all ms idx) = length ms.
Proof. revert ms. induction idx as [|i idx IH]; intros ms; simpl; [done|]. by rewrite IH, length_alter. Qed.
Lemma lookup_tombstone_all ms idx i : i ∉ idx -> tombstone_all ms idx !! i = ms !! i.
Proof.
  revert ms. induction idx as [|j idx IH]; intros ms Hi; simpl; [done|].
  apply not_elem_of_cons in Hi as [Hne Hi]. rewrite IH by done. by rewrite list_lookup_alter_ne.
Qed.
Lemma tombstone_all_snoc ms idx i : tombstone_all ms (idx ++ [i]) = alter tombstoned i (tombstone_all ms idx).
Proof. unfold tombstone_all. by rewrite foldl_app. Qed.
Lemma moved_to_snoc k moves mv :
  moved_to k (moves ++ [mv]) = moved_to k moves ++ (if decide (mv_target mv = k) then [mv.2] else []).
Proof. unfold moved_to. rewrite filter_app, fmap_app. f_equal. rewrite filter_cons. by destruct (decide _). Qed.

Lemma after_no_moves source k q : after_moves source [] k q = q.
Proof.
  unfold after_moves. destruct (decide _); simpl; rewrite app_nil_r; apply set_messages_same.
Qed.

(** A queue the moves do not touch. *)
Lemma after_moves_other source moves k q :
  k <> source -> Forall (fun mv => mv_target mv <> k) moves -> after_moves source moves k q = q.
Proof.
  intros Hk Hf. unfold after_moves. rewrite decide_False by done.
  assert (moved_to k moves = []) as ->.
  { unfold moved_to. induction Hf as [|mv moves Hmv Hf IH]; [done|].
    rewrite filter_cons, decide_False by done. done. }
  rewrite app_nil_r. apply set_messages_same.
Qed.
End Plan.

Section MoveCalls.
Context `{Env}.

(** The queues are those of [w0] with the moves [done] applied. *)
Record moving (source destination now : string) (q0 : QueueState) (w0 : World)
    (finished : list move) (w : World) : Prop := {
  mv_only : only_queues w0 (w_queues w) w;
  mv_steps : asteps (config (server w0)) move_labels (abs w0) (abs w);
  mv_queues : forall k, w_queues w !! k = after_moves source finished k <$> w_queues w0 !! k;
}.

Lemma moving_start source destination now q0 w0 : moving source destination now q0 w0 [] w0.
Proof.
  split; [apply only_queues_refl|constructor|]. intros k.
  destruct (w_queues w0 !! k) as [q|]; simpl; [|done]. by rewrite after_no_moves.
Qed.

Lemma planned_copy now m : moved_copy m (requeued now m) <-> deleted m = false.
Proof. unfold moved_copy. simpl. split; [by intros (_&_&_&_&_&_&_&_&_&?)|by repeat split]. Qed.

(** The source's message when its move comes. *)
Lemma source_message source finished q0 i m :
  messages q0 !! i = Some m -> i ∉ (mv_index <$> finished) ->
  messages (after_moves source finished source q0) !! i = Some m.
Proof.
  intros Hm Hi. simpl. rewrite decide_True by done. apply lookup_app_l_Some.
  by rewrite lookup_tombstone_all.
Qed.

(** Pushing the copy and marking the original, as one update per queue. *)
Lemma after_moves_snoc source finished i target moved k q0 :
  (k = source -> i < length (messages q0))%nat ->
  after_moves source (finished ++ [(i, target, moved)]) k q0
  = let q := after_moves source finished k q0 in
    let q := if decide (k = target) then push_message moved q else q in
    if decide (k = source) then set_messages (alter tombstoned i (messages q)) q else q.
Proof.
  intros Hi. unfold after_moves. rewrite fmap_app, moved_to_snoc. simpl. rewrite tombstone_all_snoc.
  assert (length (tombstone_all (messages q0) (mv_index <$> finished)) = length (messages q0)) as Hlen
    by apply length_tombstone_all.
  unfold mv_index, mv_target in *. simpl.
  destruct (decide (target = k)), (decide (k = target)); try congruence;
    destruct (decide (k = source)); unfold push_message, set_messages; simpl;
    rewrite ?app_nil_r, <- ?(assoc_L (++)), ?alter_app_l by (specialize (Hi ltac:(done)); lia); reflexivity.
Qed.

Lemma alter_insert_message (ms : list MessageState) i m f :
  ms !! i = Some m -> alter f i ms = <[i := f m]> ms.
Proof.
  intros Hm. apply list_eq. intros j. destruct (decide (i = j)) as [<-|Hne].
  - rewrite list_lookup_alter_eq, Hm, list_lookup_insert_eq; [done|]. by eapply lookup_lt_Some.
  - by rewrite list_lookup_alter_ne, list_lookup_insert_ne.
Qed.

Lemma wp_apply_move source d now q0 w0 finished mv w :
  w_queues w0 !! source = Some q0 -> moving source d now q0 w0 finished w ->
  planned (w_queues w0) d now (messages q0) mv -> mv_index mv ∉ (mv_index <$> finished) ->
  wp (apply_move source mv tt)
     (fun o w' => o = Ok tt /\ moving source d now q0 w0 (finished ++ [mv]) w') w.
Proof.
  destruct mv as [[i target] moved]. intros Hq0 [Ho Hst Hqs] (m & Hm & Hl & Ht & Hc) Hi.
  unfold mv_index, mv_target in Hm, Ht, Hi. simpl in Hm, Ht, Hi, Hc.
  destruct (move_target_exists _ _ _ _ Ht) as [t0 Ht0].
  pose proof (Hqs target) as Htq. rewrite Ht0 in Htq. simpl in Htq.
  pose proof (Hqs source) as Hsq. rewrite Hq0 in Hsq. simpl in Hsq.
  pose proof (source_message source finished q0 i m Hm Hi) as Hmq.
  set (t := after_moves source finished target t0) in *. set (q := after_moves source finished source q0) in *.
  set (qs1 := <[target := push_message moved t]> (w_queues w)).
  assert (exists q1, qs1 !! source = Some q1) as [q1 Hq1].
  { subst qs1. destruct (decide (target = source)) as [->|Hne];
      [rewrite lookup_insert_eq|rewrite lookup_insert_ne by done]; eauto. }
  pose proof (move_source_message _ _ _ _ _ _ _ _ _ Hsq Hmq Htq Hq1) as Hm1.
  unfold apply_move. wp_step. apply wp_gets. simpl. rewrite Htq.
  apply wp_bind, wp_put_queue. simpl. wp_step. apply wp_gets. simpl.
  change (w_queues (set_queues (<[target:=push_message moved t]> (w_queues w)) w)) with qs1.
  rewrite Hq1, Hm1. apply wp_put_queue. split; [done|].
  change (set_messages (<[i:=tombstoned m]> (messages q1)) q1) with (with_message i (tombstoned m) q1).
  split.
  - unfold w_queues at 2. simpl. do 2 eapply only_queues_set. exact Ho.
  - eapply asteps_snoc; [exact Hst| |].
    2: { unfold abs at 2. eapply (a_move _ (w_queues w) _ source i q m target t moved q1); try done.
         rewrite Hc. by apply planned_copy. }
    done.
  - intros k. rewrite w_queues_set. subst qs1. rewrite Hqs in Htq, Hsq. rewrite ?w_queues_set in *.
    destruct (w_queues w0 !! k) as [qk|] eqn:Hk; simpl.
    2:{ rewrite !lookup_insert_ne by (intros ->; congruence). rewrite Hqs, Hk. done. }
    destruct (decide (k = source)) as [->|Hks].
    + assert (qk = q0) as -> by congruence. rewrite lookup_insert_eq.
      rewrite after_moves_snoc by (intros; first [done | exact (lookup_lt_Some _ _ _ Hm)]). cbv zeta. fold q.
      rewrite (decide_True _ _ eq_refl). destruct (decide (source = target)) as [<-|Hst'].
      * rewrite lookup_insert_eq in Hq1. injection Hq1 as <-.
        assert (t = q) as -> by (subst t q; congruence).
        unfold with_message. by rewrite (alter_insert_message _ _ m).
      * rewrite lookup_insert_ne in Hq1 by done. rewrite Hqs, Hq0 in Hq1. injection Hq1 as <-.
        unfold with_message. by rewrite (alter_insert_message _ _ m).
    + rewrite lookup_insert_ne by done. rewrite after_moves_snoc by (intros; first [done | exact (lookup_lt_Some _ _ _ Hm)]).
      cbv zeta. rewrite (decide_False (P := k = source)) by done.
      destruct (decide (k = target)) as [->|Hkt].
      * rewrite lookup_insert_eq. by assert (qk = t0) as -> by congruence.
      * rewrite lookup_insert_ne by done. by rewrite Hqs, Hk.
Qed.

(** ** The whole task *)

Lemma elem_of_affected source moves k :
  k ∈ affected source moves <-> k = source \/ k ∈ (mv_target <$> moves).
Proof.
  unfold affected. assert (forall names, k ∈ foldl (fun (names : list string) (mv : move) =>
      if bool_decide (mv.1.2 ∈ names) then names else names ++ [mv.1.2]) names moves
    <-> k ∈ names \/ k ∈ (mv_target <$> moves)) as Hgen.
  { induction moves as [|mv moves IH]; intros names; simpl.
    - split; [auto|]. by intros [?|?%elem_of_nil].
    - rewrite IH. unfold mv_target at 3. rewrite elem_of_cons. case_bool_decide as Hin.
      + split; [intros [?|?]; auto|]. intros [?|[->|?]]; auto.
      + rewrite elem_of_app, list_elem_of_singleton. tauto. }
  rewrite Hgen, list_elem_of_singleton. done.
Qed.

Lemma wp_snapshots names w (Q : outcome (list (string * QueueState)) -> World -> Prop) :
  Forall (fun k => is_Some (w_queues w !! k)) names ->
  (forall snaps, snaps.*1 = names -> Forall (fun p => w_queues w !! p.1 = Some p.2) snaps -> Q (Ok snaps) w) ->
  wp (snapshot_queues names) Q w.
Proof.
  intros Hall. revert Q. induction Hall as [|k names [q Hq] _ IH]; intros Q HQ; cbn [snapshot_queues].
  - apply wp_ret, HQ; [done|constructor].
  - apply wp_bind. eapply wp_queue_at; [exact Hq|]. simpl. apply wp_bind, IH. intros snaps <- Hf.
    simpl. apply wp_ret, HQ; [done|by constructor].
Qed.

Lemma restore_snapshots_queues snaps w k :
  w_queues (restore_snapshots snaps w) !! k
  = w_queues (set_queues (foldl (fun m p => <[p.1 := p.2]> m) (w_queues w) snaps) w) !! k.
Proof.
  rewrite w_queues_set. revert w. induction snaps as [|[n q] snaps IH]; intros w; simpl; [done|].
  by rewrite IH.
Qed.
Lemma restore_snapshots_rest snaps w :
  config (server (restore_snapshots snaps w)) = config (server w)
  /\ w_msg_counter (restore_snapshots snaps w) = w_msg_counter w.
Proof.
  revert w. induction snaps as [|[n q] snaps IH]; intros w; simpl; [done|].
  destruct (IH (restore_queue n q w)) as [-> ->]. done.
Qed.

Lemma foldl_insert_known {V} (snaps : list (string * V)) (m : gmap string V) (v0 : gmap string V) k :
  Forall (fun p => v0 !! p.1 = Some p.2) snaps ->
  foldl (fun m p => <[p.1 := p.2]> m) m snaps !! k
  = if decide (k ∈ snaps.*1) then v0 !! k else m !! k.
Proof.
  revert m. induction snaps as [|[n q] snaps IH]; intros m Hf; simpl.
  - done.
  - apply Forall_cons in Hf as [Hq Hf]. simpl in Hq. rewrite IH by done.
    destruct (decide (k ∈ snaps.*1)) as [Hin|Hnin]; case_decide as Hin'; try done.
    + destruct Hin'. by apply list_elem_of_further.
    + apply elem_of_cons in Hin' as [->|?]; [|done]. by rewrite lookup_insert_eq.
    + rewrite lookup_insert_ne; [done|]. intros ->. apply Hin', list_elem_of_here.
Qed.

Inductive move_spec (source_arn destination : string) (w : World) : outcome MoveTaskState -> World -> Prop :=
| move_rejected e w' :
    server w' = server w -> w_msg_counter w' = w_msg_counter w ->
    move_spec source_arn destination w (Err e) w'
| move_done task w' source q0 now :
    queue_name_by_arn (w_queues w) source_arn = Some source -> w_queues w !! source = Some q0 ->
    let moves := plan_moves (w_queues w) destination now 0 (messages q0) in
    (forall k, w_queues w' !! k = after_moves source moves k <$> w_queues w !! k) ->
    approximate_number_of_messages_moved task = Z.of_nat (length moves) ->
    task_status task = "COMPLETED" -> started_at task = now ->
    move_tasks (server w') = <[task_handle task := task]> (move_tasks (server w)) ->
    config (server w') = config (server w) -> w_msg_counter w' = w_msg_counter w ->
    asteps (config (server w)) move_labels (abs w) (abs w') ->
    move_spec source_arn destination w (Ok task) w'
| move_rolled_back e w' :
    w_queues w' = w_queues w -> config (server w') = config (server w) ->
    w_msg_counter w' = w_msg_counter w -> move_spec source_arn destination w (Err e) w'.

Lemma wp_new_task_id p (Q : outcome string -> World -> Prop) w :
  (forall id w', server w' = server w -> w_msg_counter w' = w_msg_counter w -> Q (Ok id) w') ->
  wp (new_task_id p) Q w.
Proof.
  intros HQ. unfold new_task_id, unix_now, next_tick, wp, mbind, m_bind, mret, m_ret, gets, modify. simpl.
  destruct (sys_clock (w_tick w)). simpl. by apply HQ.
Qed.

(** The loop over the plan applies all its moves. *)
Lemma wp_moves source d now q0 w0 (moves : list move) finished w :
  w_queues w0 !! source = Some q0 -> Forall (planned (w_queues w0) d now (messages q0)) moves ->
  NoDup (mv_index <$> (finished ++ moves)) -> moving source d now q0 w0 finished w ->
  wp (for_each moves tt (apply_move source))
     (fun o w' => o = Ok tt /\ moving source d now q0 w0 (finished ++ moves) w') w.
Proof.
  intros Hq0. revert finished w. induction moves as [|mv moves IH]; intros finished w Hpl Hnd Hmv; cbn [for_each].
  - apply wp_ret. by rewrite app_nil_r.
  - apply Forall_cons in Hpl as [Hp Hpl]. apply wp_bind. eapply wp_mono.
    + apply (wp_apply_move source d now q0 w0 finished mv w); [done..|].
      rewrite fmap_app in Hnd. apply NoDup_app in Hnd as (_ & Hdis & _).
      intros Hin. apply (Hdis _ Hin). simpl. apply list_elem_of_here.
    + intros o w' [-> Hmv']. simpl. rewrite cons_middle, (assoc_L (++)) in Hnd |- *. by apply IH.
Qed.

Lemma lt_sorted_NoDup (l : list nat) : StronglySorted lt l -> NoDup l.
Proof.
  induction 1 as [|x l _ IH Hf]; constructor; [|done]. intros Hin.
  rewrite Forall_forall in Hf. specialize (Hf _ Hin). lia.
Qed.

Lemma affected_exist qs source d now q0 :
  qs !! source = Some q0 ->
  Forall (fun k => is_Some (qs !! k)) (affected source (plan_moves qs d now 0 (messages q0))).
Proof.
  intros Hq0. apply Forall_forall. intros k Hk. apply elem_of_affected in Hk as [->|Hk]; [eauto|].
  apply list_elem_of_fmap in Hk as (mv & -> & Hmv).
  pose proof (plan_moves_planned qs d now (messages q0)) as Hpl. rewrite Forall_forall in Hpl.
  destruct (Hpl _ Hmv) as (m & _ & _ & Ht & _). by eapply move_target_exists.
Qed.

(** Restoring the snapshots undoes the moves. *)
Lemma moving_undone source d now q0 w0 moves w snaps :
  w_queues w0 !! source = Some q0 -> moving source d now q0 w0 moves w ->
  snaps.*1 = affected source moves -> Forall (fun p => w_queues w0 !! p.1 = Some p.2) snaps ->
  w_queues (restore_snapshots snaps w) = w_queues w0.
Proof.
  intros Hq0 [_ _ Hqs] Hnames Hf. apply map_eq. intros k.
  rewrite restore_snapshots_queues, w_queues_set, (foldl_insert_known _ _ (w_queues w0)) by done.
  rewrite Hnames. case_decide as Hk; [done|]. rewrite Hqs.
  destruct (w_queues w0 !! k) as [q|]; [|done]. simpl. f_equal. apply after_moves_other.
  - intros ->. apply Hk, elem_of_affected. by left.
  - apply Forall_forall. intros mv Hmv Ht. apply Hk, elem_of_affected. right.
    apply list_elem_of_fmap. eauto.
Qed.

Lemma moving_io source d now q0 w0 moves w w' :
  server w' = server w -> w_msg_counter w' = w_msg_counter w ->
  moving source d now q0 w0 moves w -> moving source d now q0 w0 moves w'.
Proof.
  intros Hs Hn [[Ho1 Ho2] Hst Hqs].
  assert (w_queues w' = w_queues w) as Hq by (unfold w_queues; by rewrite Hs). split.
  - rewrite Hq. split; congruence.
  - unfold abs at 2. rewrite Hq, Hn. exact Hst.
  - by rewrite Hq.
Qed.

Lemma moving_base source d now q0 w0 w1 moves w :
  server w1 = server w0 -> w_msg_counter w1 = w_msg_counter w0 ->
  moving source d now q0 w1 moves w -> moving source d now q0 w0 moves w.
Proof.
  intros Hs Hn [[Ho1 Ho2] Hst Hqs].
  assert (w_queues w1 = w_queues w0) as Hq by (unfold w_queues; by rewrite Hs).
  unfold abs in Hst. rewrite Hq, Hn, Hs in Hst. rewrite Hq in Hqs. split; [|done|done].
  split; [|congruence]. rewrite Ho1. unfold set_queues. simpl. by rewrite Hs.
Qed.

(** What is left after the loop: the task record and the single persist. *)
Lemma wp_move_finish source source_arn d now q0 moves snaps w0 w :
  queue_name_by_arn (w_queues w0) source_arn = Some source -> w_queues w0 !! source = Some q0 ->
  moves = plan_moves (w_queues w0) d now 0 (messages q0) ->
  snaps.*1 = affected source moves -> Forall (fun p => w_queues w0 !! p.1 = Some p.2) snaps ->
  moving source d now q0 w0 moves w ->
  wp (handle ← new_task_id "mvt";
      let task := mkTask handle source_arn d "COMPLETED" now (Z.of_nat (length moves)) in
      modify (fun w => set_move_tasks (<[handle := task]> (move_tasks (server w))) w);;
      persist_or (fun w =>
        let w := restore_snapshots snaps w in
        set_move_tasks (delete handle (move_tasks (server w))) w);;
      mret task) (move_spec source_arn d w0) w.
Proof.
  intros Hname Hq0 Hmoves Hnames Hf Hmv. apply wp_bind, wp_new_task_id. intros handle w2 Hs2 Hn2. simpl.
  apply (moving_io _ _ _ _ _ _ _ w2) in Hmv; [|done|done]. clear Hs2 Hn2 w.
  set (task := mkTask handle _ _ _ _ _). wp_step. apply wp_modify. simpl.
  apply wp_bind, wp_persist_or_io; simpl.
  - intros w' Hs Hn. apply wp_ret. destruct Hmv as [[Ho1 Ho2] Hst Hqs].
    assert (w_queues w' = w_queues w2) as Hq by (unfold w_queues; by rewrite Hs).
    eapply (move_done _ _ _ task w' source q0 now); [exact Hname|exact Hq0|..]; try reflexivity.
    + intros k. rewrite Hq, Hqs, <- Hmoves. done.
    + simpl. by rewrite Hmoves.
    + rewrite Hs. simpl. by rewrite Ho1.
    + rewrite Hs. simpl. by rewrite Ho1.
    + simpl in Hn. congruence.
    + unfold abs at 2. rewrite Hq, Hn. exact Hst.
  - intros e w' Hs Hn. destruct (restore_snapshots_rest snaps w') as [Hc Hn'].
    assert (moving source d now q0 w0 moves (set_move_tasks (move_tasks (server w2)) w')) as Hmv'.
    { eapply moving_io; [| |exact Hmv]; simpl; [|done]. rewrite Hs. simpl. by destruct w2 as [[]]. }
    pose proof (moving_undone _ _ _ _ _ _ _ _ Hq0 Hmv' Hnames Hf) as Hundo.
    apply move_rolled_back.
    + rewrite <- Hundo. change (w_queues (restore_snapshots snaps w')
        = w_queues (restore_snapshots snaps (set_move_tasks (move_tasks (server w2)) w'))).
      apply map_eq. intros k. by rewrite !restore_snapshots_queues.
    + simpl. rewrite Hc, Hs. simpl. destruct Hmv as [[Ho1 _] _ _]. by rewrite Ho1.
    + simpl. rewrite Hn', Hn. apply (mv_only _ _ _ _ _ _ _ Hmv).
Qed.

Lemma start_message_move_task_wp source_arn d w :
  clock_modern -> wp (start_message_move_task source_arn d) (move_spec source_arn d w) w.
Proof.
  intros Hclock. assert (forall e w', server w' = server w -> w_msg_counter w' = w_msg_counter w ->
    move_spec source_arn d w (Err e) w') as Hrej by (intros; by apply move_rejected).
  unfold start_message_move_task. apply wp_bind, wp_guard; intros ?; simpl; [by apply Hrej|].
  wp_step. apply wp_gets. simpl.
  apply wp_bind, wp_check; simpl; [apply no_panic_ok_or|intros source Hname|intros e; by apply Hrej].
  assert (queue_name_by_arn (w_queues w) source_arn = Some source) as Hname'
    by (destruct (queue_name_by_arn _ _); by simplify_eq/=).
  apply wp_bind, wp_guard; intros ?; simpl; [by apply Hrej|].
  apply wp_bind, wp_now_dated; [done|]. intros now Hnow. simpl.
  destruct (find_by_arn_Some _ _ _ Hname') as (q0 & Hq0 & _).
  apply wp_bind, wp_lift. rewrite Hq0. simpl.
  set (w1 := set_tick (S (w_tick w)) w). set (moves := plan_moves (w_queues w) d now 0 (messages q0)).
  apply wp_bind, wp_snapshots; [by apply affected_exist|]. intros snaps Hnames Hf. simpl.
  apply wp_bind. eapply wp_mono.
  - apply (wp_moves source d now q0 w1 moves [] w1); [done|apply plan_moves_planned| |apply moving_start].
    apply lt_sorted_NoDup, plan_moves_sorted.
  - intros o w2 [-> Hmv]. simpl. apply (moving_base _ _ _ _ w) in Hmv; [|done|done].
    by apply (wp_move_finish source _ _ now q0 moves).
Qed.

Lemma move_refines source_arn d w o w' :
  move_spec source_arn d w o w' -> refines move_labels 0 w o w'.
Proof.
  intros [e w1 Hs Hn|task w1 source q0 now Hname Hq0 moves Hqs _ _ _ Ht Hc Hn Hst|e w1 Hq Hc Hn].
  - by apply refines_same.
  - split_and!; [done|done|done|lia].
  - split_and!; [done|done| |lia]. unfold abs. rewrite Hq, Hn. constructor.
Qed.

(** ** Queue management *)

Lemma managed_refines {A} l qs w (o : outcome A) w' :
  is_panic o = false -> manage_labels l = true -> server w' = server (set_queues qs w) ->
  w_msg_counter w' = w_msg_counter w ->
  astep (config (server w)) l (w_queues w, w_msg_counter w) (qs, w_msg_counter w) ->
  refines manage_labels 0 w o w'.
Proof.
  intros Ho Hl Hs Hn Hst. eapply only_queues_refines; [done|by split|done|].
  by eapply asteps_one.
Qed.

Lemma same_core_attrs q attrs : same_core q (set_attributes attrs q).
Proof. by repeat split. Qed.
Lemma same_core_tags q tags : same_core q (set_tags tags q).
Proof. by repeat split. Qed.
Lemma same_core_modified q attrs t : same_core q (set_modified_at t (set_attributes attrs q)).
Proof. by repeat split. Qed.

(** Symbolic execution that keeps the counters. *)
Ltac mg_step :=
  lazymatch goal with
  | |- wp (require_queue _) _ _ => apply wp_require_queue; [intros ? ? ?|]
  | |- wp now_rfc3339 _ _ => apply wp_now; intros ?
  | |- wp (put_queue _ _) _ _ => apply wp_put_queue
  | |- wp (persist_or _) _ _ => apply wp_persist_or_io; [intros ? ? ?|intros ? ? ? ?]
  | |- wp (lift ?o) _ _ =>
      apply wp_check; [solve [auto with no_panic]|intros ? ?|intros ?]
  | |- wp (queue_unwrap _) _ _ => eapply wp_queue_unwrap; [solve [eauto with sqs]|]
  | |- wp (match ?x with _ => _ end) _ _ => destruct x eqn:?
  | |- _ => wp_step
  end.
Ltac mg_norm := repeat match goal with
  | H : server ?w' = server (set_queues (<[?n := ?q]> (w_queues (set_tick ?t ?w))) (set_tick ?t ?w))
    |- _ => change (server w' = server (set_queues (<[n := q]> (w_queues w)) w)) in H
  end.
Ltac mg_done l rule :=
  first
    [ apply refines_same; [done|done|first [done|solve [eauto with sqs]]|done]
    | eapply (managed_refines l); [done|done|eassumption|assumption|eapply rule; [eassumption|..]] ].
Ltac mg l rule := repeat (mg_step; simpl); mg_norm; try mg_done l rule.

Hint Resolve no_panic_validate no_panic_queue_policy : no_panic.

Lemma tag_queue_mg url tags w : wp (tag_queue url tags;; mret true) (refines manage_labels 0 w) w.
Proof. unfold tag_queue. mg LConfig a_config. apply same_core_tags. Qed.
Lemma untag_queue_mg url keys w : wp (untag_queue url keys;; mret true) (refines manage_labels 0 w) w.
Proof. unfold untag_queue. mg LConfig a_config. apply same_core_tags. Qed.
Lemma purge_queue_mg url w : wp (purge_queue url;; mret true) (refines manage_labels 0 w) w.
Proof.
  unfold purge_queue. mg LPurge a_purge.
Qed.
Lemma add_permission_mg url label ids actions w :
  wp (add_permission url label ids actions;; mret true) (refines manage_labels 0 w) w.
Proof. unfold add_permission. mg LConfig a_config; apply same_core_attrs. Qed.
Lemma remove_permission_mg url label w :
  wp (remove_permission url label;; mret true) (refines manage_labels 0 w) w.
Proof. unfold remove_permission. mg LConfig a_config; apply same_core_attrs. Qed.
Lemma update_queue_attributes_mg url attrs w :
  wp (update_queue_attributes url attrs;; mret true) (refines manage_labels 0 w) w.
Proof. unfold update_queue_attributes. mg LConfig a_config; apply same_core_modified. Qed.
Lemma create_queue_mg name attrs tags w :
  wp (create_queue name attrs tags;; mret true) (refines manage_labels 0 w) w.
Proof.
  unfold create_queue. mg LCreate a_create.
  all: repeat split; try done.
  all: by match goal with H : negb (valid_queue_name ?n) = false |- valid_queue_name ?n = true =>
    destruct (valid_queue_name n) end.
Qed.
Lemma delete_queue_mg url w : wp (delete_queue url) (refines manage_labels 0 w) w.
Proof.
  unfold delete_queue. destruct (is_empty _); [apply wp_ret; by apply refines_same|].
  wp_step. apply wp_gets. simpl. fold (w_queues w).
  destruct (w_queues w !! queue_name_from_url url) as [q|] eqn:Hq; [|apply wp_ret; by apply refines_same].
  wp_step. apply wp_modify. simpl. apply wp_bind, wp_catch, wp_persist_io.
  intros [[]|e|p] w' Hp Hs Hn; simpl; [| |done].
  - apply wp_ret. eapply (managed_refines LDrop); [done|done|exact Hs|exact Hn|constructor].
  - apply wp_bind, wp_put_queue, wp_ret. apply refines_same; [done|done| |done].
    by eapply insert_undo.
Qed.

Lemma run_mgmt_refines op w : wp (run_mgmt op) (refines manage_labels 0 w) w.
Proof.
  destruct op; [apply create_queue_mg | apply delete_queue_mg | apply purge_queue_mg
    | apply update_queue_attributes_mg | apply tag_queue_mg | apply untag_queue_mg
    | apply add_permission_mg | apply remove_permission_mg].
Qed.
End MoveCalls.
