(* ===== verification/SqsSystem.v ===== *)
(** The SQS service as a whole - its calls as one interpreter and the states they reach -
    and the concrete environment in which the theorems with hypotheses are instantiated. *)

From S2P Require Import Prelude RustStr RustNum SqsTime SqsModel SqsValidation SqsServer SqsMessages SqsSpec SqsRefine SqsReceive SqsCalls SqsManage.
Local Open Scope Z_scope.

(** A concrete environment, at which the theorems with hypotheses are instantiated:
    a clock that advances by a second per call (for a million calls), a file system that never fails, and
    a state file format with a proved round trip. *)

(** ** A state format *)

Ltac decode_fields :=
  intros []; cbn -[encode decode]; repeat (rewrite decode_encode; cbn -[encode decode]).

(** A record is encoded as the list of its encoded fields, which grows linearly. *)
#[export] Instance attr_countable : Countable MessageAttributeValue.
Proof.
  apply (inj_countable
    (fun r => [encode (data_type r); encode (string_value r); encode (binary_value r);
               encode (string_list_values r); encode (binary_list_values r)])
    (fun l : list positive => match l with
     | [a; b; c; d; e] => a ← decode a; b ← decode b; c ← decode c; d ← decode d; e ← decode e;
                          Some (mkAttr a b c d e)
     | _ => None
     end)).
  by decode_fields.
Defined.
#[export] Instance message_countable : Countable MessageState.
Proof.
  apply (inj_countable
    (fun m => [encode (msg_id m); encode (msg_body m); encode (msg_body_md5 m);
               encode (msg_attributes m); encode (msg_system_attributes m); encode (sent_at m);
               encode (available_at m); encode (invisible_until m); encode (receive_count m);
               encode (first_receive_at m); encode (receipt_handle m); encode (deleted m);
               encode (message_group_id m); encode (deduplication_id m);
               encode (sequence_number m); encode (dead_letter_source_arn m)])
    (fun l : list positive => match l with
     | [a; b; c; d; e; f; g; h; i; j; k; l; m; n; o; p] =>
         a ← decode a; b ← decode b; c ← decode c; d ← decode d; e ← decode e; f ← decode f;
         g ← decode g; h ← decode h; i ← decode i; j ← decode j; k ← decode k; l ← decode l;
         m ← decode m; n ← decode n; o ← decode o; p ← decode p;
         Some (mkMsg a b c d e f g h i j k l m n o p)
     | _ => None
     end)).
  by decode_fields.
Defined.
#[export] Instance dedup_eq_dec : EqDecision DeduplicationState.
Proof. solve_decision. Defined.
#[export] Instance dedup_countable : Countable DeduplicationState.
Proof.
  apply (inj_countable' (fun d => (expires_at d, dedup_message d)) (fun '(a, b) => mkDedup a b)).
  by intros [].
Defined.
#[export] Instance task_eq_dec : EqDecision MoveTaskState.
Proof. solve_decision. Defined.
#[export] Instance task_countable : Countable MoveTaskState.
Proof.
  apply (inj_countable
    (fun t => [encode (task_handle t); encode (source_arn t); encode (destination_arn t);
               encode (task_status t); encode (started_at t);
               encode (approximate_number_of_messages_moved t)])
    (fun l : list positive => match l with
     | [a; b; c; d; e; f] => a ← decode a; b ← decode b; c ← decode c; d ← decode d; e ← decode e;
                             f ← decode f; Some (mkTask a b c d e f)
     | _ => None
     end)).
  by decode_fields.
Defined.
#[export] Instance queue_eq_dec : EqDecision QueueState.
Proof. solve_decision. Defined.
#[export] Instance queue_countable : Countable QueueState.
Proof.
  apply (inj_countable
    (fun q => [encode (q_name q); encode (q_url q); encode (q_arn q); encode (q_attributes q);
               encode (q_tags q); encode (created_at q); encode (modified_at q);
               encode (messages q); encode (sequence q); encode (dedup q)])
    (fun l : list positive => match l with
     | [a; b; c; d; e; f; g; h; i; j] =>
         a ← decode a; b ← decode b; c ← decode c; d ← decode d; e ← decode e; f ← decode f;
         g ← decode g; h ← decode h; i ← decode i; j ← decode j;
         Some (mkQueue a b c d e f g h i j)
     | _ => None
     end)).
  by decode_fields.
Defined.
#[export] Instance persisted_eq_dec : EqDecision PersistedState.
Proof. solve_decision. Defined.
#[export] Instance persisted_countable : Countable PersistedState.
Proof.
  apply (inj_countable' (fun p => (p_queues p, p_move_tasks p)) (fun '(a, b) => mkPersisted a b)).
  by intros [].
Defined.

Fixpoint pos_to_string (p : positive) : string :=
  match p with
  | xH => EmptyString
  | xO p => String "0" (pos_to_string p)
  | xI p => String "1" (pos_to_string p)
  end.
Fixpoint pos_of_string (s : string) : positive :=
  match s with
  | String "0" s => xO (pos_of_string s)
  | String "1" s => xI (pos_of_string s)
  | _ => xH
  end.
Lemma pos_of_to_string p : pos_of_string (pos_to_string p +:+ char_str lf) = p.
Proof. induction p as [p IH|p IH|]; [| |done]; cbn [pos_to_string];
  rewrite str_app_cons; cbn [pos_of_string]; by rewrite IH. Qed.

Definition demo_env : Env := {|
  overflow_checks := true;
  sys_clock := fun k => (1777543200 + Z.min (Z.of_nat k) 1000000, 0);
  fs_create_dir_all := fun _ => None;
  fs_write := fun _ => None;
  fs_rename := fun _ => None;
  fs_read := fun _ => None;
  json_number := unit;
  number_as_f64 := fun _ => None;
  json_from_str := fun raw =>
    Some (JObject [("deadLetterTargetArn", JString raw); ("maxReceiveCount", JString "1")]);
  policy_from_str := fun _ => None;
  policy_to_string := fun _ => inl "{}";
  md5_digest := fun s => s;
  sha256_digest := fun s => s;
  base64_decode := Some;
  state_to_vec := fun p => pos_to_string (encode p);
  state_from_slice := fun s =>
    match decode (pos_of_string s) with Some p => inl p | None => inr "invalid state" end;
|}.

(** The SQS service as a whole: its API calls as one step function, the states
    reachable from a fresh start, and the theorems about them. *)

Inductive api_op :=
| Manage (op : mgmt_op)
| Send (input : SendMessageRequest)
| SendBatch (url : string) (entries : list SendMessageBatchEntry)
| Receive (input : ReceiveMessageRequest) (pinned : option QueueIdentity)
| Delete (url handle : string)
| DeleteBatch (url : string) (entries : list DeleteMessageBatchEntry)
| ChangeVisibility (url handle : string) (seconds : Z)
| ChangeVisibilityBatch (url : string) (entries : list ChangeMessageVisibilityBatchEntry)
| StartMove (source destination : string).

Section System.
Context `{Env}.

Definition run_api (op : api_op) : M World unit :=
  match op with
  | Manage op => run_mgmt op;; mret tt
  | Send input => send_message input;; mret tt
  | SendBatch url entries => send_message_batch url entries;; mret tt
  | Receive input pinned => receive_messages_once input pinned;; mret tt
  | Delete url handle => delete_message url handle
  | DeleteBatch url entries => delete_message_batch url entries;; mret tt
  | ChangeVisibility url handle seconds => change_message_visibility url handle seconds
  | ChangeVisibilityBatch url entries => change_message_visibility_batch url entries;; mret tt
  | StartMove source destination => start_message_move_task source destination;; mret tt
  end.

(** The abstract steps each call may take. *)
Definition api_labels (op : api_op) : label -> bool :=
  match op with
  | Manage _ => manage_labels
  | Send _ | SendBatch _ _ => send_labels
  | Receive _ _ => receive_labels
  | Delete _ _ | DeleteBatch _ _ => ack_labels
  | ChangeVisibility _ _ _ | ChangeVisibilityBatch _ _ => visibility_labels
  | StartMove _ _ => move_labels
  end.

Lemma refines_k {A} L k k' w (o : outcome A) w' :
  k <= k' -> refines L k w o w' -> refines L k' w o w'.
Proof. intros Hk (? & ? & ? & ?). split_and!; [done..|lia]. Qed.

Lemma wp_discard {A} L k (m : M World A) w :
  wp m (refines L k w) w -> wp (m;; mret tt) (refines L k w) w.
Proof.
  intros Hm. apply wp_bind. eapply wp_mono; [exact Hm|].
  intros [a|e|p] w' (Hp & Hc & Hs & Hn); simpl; [apply wp_ret| |done]; by split_and!.
Qed.

Lemma ready_le k k' w : k <= k' -> ready k' w -> ready k w.
Proof. intros Hk [? ? ?]. split; [done|done|unfold room in *; lia]. Qed.

Lemma run_api_wp op w :
  ready 10 w -> wp (run_api op) (refines (api_labels op) 10 w) w.
Proof.
  intros Hr. pose proof (ready_clock _ _ Hr) as Hc.
  destruct op; simpl; try apply wp_discard.
  - eapply wp_mono; [apply run_mgmt_refines|]. intros o w'. by apply refines_k.
  - eapply wp_mono; [apply send_message_spec_wp; by eapply ready_le; [|exact Hr]|].
    intros o w' Hs. eapply refines_k; [|eapply send_spec_refines; [|exact Hs]]; [lia|].
    by eapply ready_le; [|exact Hr].
  - eapply wp_mono; [by apply send_message_batch_wp|]. intros o w' Hs. destruct Hs as [e|r w' Hlen Hids Hs].
    + by apply refines_same.
    + eapply refines_k; [|exact Hs]. lia.
  - eapply wp_mono; [by apply once_spec_wp|]. intros o w' Hs. by apply (once_spec_refines input pinned).
  - eapply wp_mono; [by apply delete_message_wp|]. intros o w' Hs. eapply refines_k;
      [|by apply (call_refines _ LAck url handle delete_mutation); [..|apply delete_mutates|]]. lia.
  - eapply wp_mono; [by apply delete_message_batch_wp|]. intros o w' Hs. eapply refines_k;
      [|by eapply batch_refines]. lia.
  - eapply wp_mono; [by apply change_message_visibility_wp|]. intros o w' [Hs _]. eapply refines_k;
      [|by apply (call_refines _ LVisibility url handle (visibility_mutation seconds)); [..|apply visibility_mutates|]]. lia.
  - eapply wp_mono; [by apply change_message_visibility_batch_wp|]. intros o w' Hs. eapply refines_k;
      [|by eapply batch_refines]. lia.
  - eapply wp_mono; [by apply start_message_move_task_wp|]. intros o w' Hs. eapply refines_k;
      [|by eapply move_refines]. lia.
Qed.

(** ** Reachable states *)

(** A server started with no state file, then any calls, in any order, with any
    arguments, whatever file system call fails; as long as fewer than [2 ^ 63]
    identifiers are issued. *)
Inductive reach (c : Config) : World -> Prop :=
| reach_start w0 :
    w_disk w0 = None -> 0 <= w_msg_counter w0 -> reach c (new c w0).2
| reach_step w op : reach c w -> room 10 w -> reach c (run_api op w).2.

Lemma new_empty c w0 :
  w_disk w0 = None ->
  let w := (new c w0).2 in
  config (server w) = c /\ w_queues w = ∅ /\ w_msg_counter w = w_msg_counter w0.
Proof.
  intros Hd. assert (wp (new c) (fun _ w => config (server w) = c /\ w_queues w = ∅
    /\ w_msg_counter w = w_msg_counter w0) w0) as Hwp; [|exact Hwp].
  unfold new. wp_steps. destruct (is_empty (trim (storage_path c))); [by apply wp_ret|].
  wp_steps. unfold load. apply wp_bind. unfold next_tick, wp. simpl.
  destruct (fs_read (w_tick w0)) as [e|]; [done|]. fold (@wp string World unit). apply wp_bind, wp_gets.
  simpl. rewrite Hd. done.
Qed.

Lemma sqs_inv_empty c n : 0 <= n -> sqs_inv c (∅, n).
Proof.
  intros Hn. split; simpl; [done|apply map_Forall_empty|..]; (split; [|constructor]; constructor).
Qed.

Lemma reach_inv c w : clock_modern -> reach c w -> config (server w) = c /\ sqs_inv c (abs w).
Proof.
  intros Hclock. induction 1 as [w0 Hd Hn|w op Hr [Hc Hi] Hroom].
  - destruct (new_empty c w0 Hd) as (Hc & Hq & Hn'). split; [done|].
    unfold abs. rewrite Hq, Hn'. by apply sqs_inv_empty.
  - assert (ready 10 w) as Hready by (split; [done|by rewrite Hc|done]).
    pose proof (run_api_wp op w Hready) as (_ & Hc' & Hs & _). split; [congruence|].
    rewrite Hc in Hs. by eapply asteps_sqs_inv.
Qed.

Lemma reach_ready c w : clock_modern -> reach c w -> room 10 w -> ready 10 w.
Proof. intros Hclock Hr Hroom. destruct (reach_inv c w Hclock Hr) as [Hc Hi]. split; [done| |done]. by rewrite Hc. Qed.

(** ** Consequences of the refinement *)

Lemma run_api_refines c w op :
  clock_modern -> reach c w -> room 10 w ->
  is_panic (run_api op w).1 = false
  /\ asteps c (api_labels op) (abs w) (abs (run_api op w).2).
Proof.
  intros Hclock Hr Hroom. destruct (reach_inv c w Hclock Hr) as [Hc _].
  pose proof (run_api_wp op w (reach_ready c w Hclock Hr Hroom)) as (Hp & _ & Hs & _).
  rewrite Hc in Hs. done.
Qed.

(** Later states, and what every step keeps. *)
Inductive later (c : Config) (w : World) : World -> Prop :=
| later_refl : later c w w
| later_step w' op : later c w w' -> room 10 w' -> later c w (run_api op w').2.

Lemma later_reach c w w' : reach c w -> later c w w' -> reach c w'.
Proof. intros Hr. induction 1; [done|by apply reach_step]. Qed.

Lemma astep_gone c l a a' id :
  0 <= a.2 -> issued "msg" a.2 id -> id ∉ tokens id_token a.1 -> astep c l a a' ->
  id ∉ tokens id_token a'.1.
Proof.
  intros Hn Hid Hout Hstep Hin. pose proof (astep_ids c l a a' Hstep) as Heff.
  destruct l; try (by apply Hout; rewrite <- Heff);
    try (apply Hout; by eapply elem_of_submseteq).
  - destruct Heff as (x & Hx & _ & Hp). rewrite Hp in Hin. apply elem_of_cons in Hin as [->|Hin]; [|done].
    by eapply issued_at_fresh.
  - destruct Heff as (x & Hp). apply Hout. rewrite Hp. by apply list_elem_of_further.
Qed.

Lemma asteps_gone c L a a' id :
  0 <= a.2 -> issued "msg" a.2 id -> id ∉ tokens id_token a.1 -> asteps c L a a' ->
  id ∉ tokens id_token a'.1.
Proof.
  intros Hn Hid Hout Hsteps. enough (0 <= a'.2 /\ issued "msg" a'.2 id /\ id ∉ tokens id_token a'.1) by tauto.
  eapply (asteps_inv c L (fun a => 0 <= a.2 /\ issued "msg" a.2 id /\ id ∉ tokens id_token a.1)); [|exact Hsteps|done].
  - intros l a1 a2 _ (H1 & H2 & H3) Hs. pose proof (astep_count _ _ _ _ Hs).
    split_and!; [lia|eapply issued_mono; [|done]; lia|by eapply astep_gone].
Qed.

(** Labels that keep every message. *)
Definition keeps_ids (l : label) : bool :=
  bool_decide (l ∉ [LDrop; LPurge; LClean; LSend; LAck]).
Lemma asteps_keep_ids c L a a' :
  (forall l, L l = true -> keeps_ids l = true) -> asteps c L a a' ->
  tokens id_token a'.1 ≡ₚ tokens id_token a.1.
Proof.
  intros HL. induction 1 as [|a l a1 a2 Hl Hs _ IH]; [done|]. rewrite IH.
  pose proof (astep_ids c l a a1 Hs) as Heff. specialize (HL l Hl). by destruct l.
Qed.
(** ** Messages in flight *)

(** Whatever live message has the id [id] is in queue [name], invisible until [until]. *)
Definition sealed (id name until : string) (qs : gmap string QueueState) : Prop :=
  forall k q m, qs !! k = Some q -> m ∈ messages q -> deleted m = false -> msg_id m = id ->
    k = name /\ invisible_until m = until.

Lemma sealed_insert id name until qs k q :
  sealed id name until qs ->
  (forall m, m ∈ messages q -> deleted m = false -> msg_id m = id -> k = name /\ invisible_until m = until) ->
  sealed id name until (<[k := q]> qs).
Proof. intros Hs Hq k' q' m [[<- <-]|[_ Hk]]%lookup_insert_Some; [by apply Hq|by eapply Hs]. Qed.
(** Replacing a queue by one with no other messages of that id. *)
Lemma sealed_update id name until qs k q q' :
  sealed id name until qs -> qs !! k = Some q ->
  (forall m, m ∈ messages q' -> deleted m = false -> msg_id m = id ->
     exists m0, m0 ∈ messages q /\ deleted m0 = false /\ msg_id m0 = id /\ invisible_until m0 = invisible_until m) ->
  sealed id name until (<[k := q']> qs).
Proof.
  intros Hs Hk Hm. apply sealed_insert; [done|]. intros m Hin Hl Hid.
  destruct (Hm m Hin Hl Hid) as (m0 & H1 & H2 & H3 & <-). by eapply Hs.
Qed.
Lemma elem_of_with_message i x q m : m ∈ messages (with_message i x q) -> m = x \/ m ∈ messages q.
Proof.
  simpl. intros [j Hj]%list_elem_of_lookup. apply list_lookup_insert_Some in Hj as [(_ & -> & _)|[_ Hj]]; [by left|].
  right. by eapply list_elem_of_lookup_2.
Qed.

(** Steps that neither deliver, nor move, nor change visibility. *)
Definition leaves_flight (l : label) : bool := bool_decide (l ∉ [LDeliver; LVisibility; LMove]).
Lemma astep_sealed c l a a' id name until :
  leaves_flight l = true -> 0 <= a.2 -> issued "msg" a.2 id -> sealed id name until a.1 -> astep c l a a' ->
  sealed id name until a'.1.
Proof.
  intros Hl Hn Hid Hs Hstep. destruct Hstep as
    [qs n|qs n k q q' H1 (_ & _ & _ & _ & Hm & _)|qs n k q H1 (_ & _ & _ & _ & Hm & _)|qs n k|qs n k q H1|qs n k q now H1 Hd
    |qs n k q q' m H1 (Hf & _) Hset Hm _| |qs n k q i m H1 Hm Hlive Hh| |qs n k q i m H1 Hm Hlive|]; try done; simpl in *.
  - eapply sealed_update; [done|done|]. rewrite Hm. eauto.
  - apply sealed_insert; [done|]. rewrite Hm. by intros m ?%elem_of_nil.
  - intros k' q m [_ Hk]%lookup_delete_Some. by eapply Hs.
  - apply sealed_insert; [done|]. by intros m ?%elem_of_nil.
  - eapply sealed_update; [done|done|]. intros m [_ Hin]%list_elem_of_filter. eauto.
  - apply sealed_insert; [done|]. rewrite Hm. intros x [Hx| ->%list_elem_of_singleton]%elem_of_app Hlx Hix; [by eapply Hs|].
    exfalso. subst id. by eapply issued_at_fresh.
  - eapply sealed_update; [done|done|]. intros x [->|Hx]%elem_of_with_message; [done|]. eauto.
  - eapply sealed_update; [done|done|]. intros x [->|Hx]%elem_of_with_message; [|eauto].
    intros _ Hx. exists m. by apply list_elem_of_lookup_2 in Hm.
Qed.
Lemma asteps_sealed c (L : label -> bool) a a' id name until :
  (forall l, L l = true -> leaves_flight l = true) -> 0 <= a.2 -> issued "msg" a.2 id -> sealed id name until a.1 ->
  asteps c L a a' -> sealed id name until a'.1.
Proof.
  intros HL Hn Hid Hs Hsteps.
  enough (0 <= a'.2 /\ issued "msg" a'.2 id /\ sealed id name until a'.1) by tauto.
  eapply (asteps_inv c L (fun a => 0 <= a.2 /\ issued "msg" a.2 id /\ sealed id name until a.1)); [|exact Hsteps|done].
  intros l a1 a2 Hl (H1 & H2 & H3) Hst. pose proof (astep_count _ _ _ _ Hst).
  split_and!; [lia|eapply issued_mono; [|done]; lia|eapply astep_sealed; [by apply HL|done..]].
Qed.

(** A receive before the end of the timeout leaves the message where it is. *)
Lemma scan_sealed rname now vis mx man san q1 w1 i js sc q' w' id name until :
  sqs_inv (config (server w1)) (abs w1) -> issued "msg" (w_msg_counter w1) id ->
  w_queues w1 !! rname = Some q1 -> scan_state rname now vis mx man san q1 w1 i js sc q' w' ->
  before now until = true -> sealed id name until (w_queues w1) -> sealed id name until (w_queues w').
Proof.
  intros Hinv Hid Hq1 S Hb Hs k q m Hk Hm Hl Hmid. destruct (Hinv) as [Hn _ _ _].
  pose proof (scan_inv_w _ _ _ _ _ _ _ _ Hinv _ _ _ _ _ S) as [_ _ [Hnd _] _].
  pose proof (ss_steps _ _ _ _ _ _ _ _ _ _ _ _ _ S) as Hsteps.
  destruct (decide (id ∈ tokens id_token (w_queues w1))) as [Hin|Hout]; last first.
  { destruct (asteps_gone _ _ _ _ id Hn Hid Hout Hsteps). apply elem_of_tokens. exists k, q, m.
    unfold id_token. rewrite Hl, Hmid. split_and!; [done|done|apply list_elem_of_here]. }
  apply elem_of_tokens in Hin as (k0 & q0 & m0 & Hk0 & Hm0 & Ht). unfold id_token in Ht.
  destruct (deleted m0) eqn:Hl0; [by apply elem_of_nil in Ht|]. apply list_elem_of_singleton in Ht as ->.
  destruct (Hs _ _ _ Hk0 Hm0 Hl0 eq_refl) as [-> Hu]. apply list_elem_of_lookup in Hm0 as [j Hj].
  assert (exists q2, w_queues w' !! name = Some q2 /\ messages q2 !! j = Some m0) as (q2 & Hq2 & Hj2).
  { destruct (decide (name = rname)) as [->|Hne].
    - exists q'. split; [apply (ss_queue _ _ _ _ _ _ _ _ _ _ _ _ _ S)|]. assert (q0 = q1) as -> by congruence.
      apply (ss_hidden _ _ _ _ _ _ _ _ _ _ _ _ _ S); [done|]. right. unfold hidden. rewrite Hu, Hb. apply orb_true_r.
    - destruct (ss_others _ _ _ _ _ _ _ _ _ _ _ _ _ S _ _ Hne Hk0) as (q2 & extra & Hq2 & Hms).
      exists q2. split; [done|]. rewrite Hms. by apply lookup_app_l_Some. }
  apply list_elem_of_lookup in Hm as [j' Hj'].
  assert (k = name /\ j' = j) as [-> ->].
  { eapply (tokens_NoDup_place id_token _ _ _ _ _ _ _ _ _ (msg_id m0)); [exact Hnd|exact Hk|exact Hj'| |exact Hq2|exact Hj2|];
      unfold id_token; rewrite ?Hl, ?Hl0, ?Hmid; apply list_elem_of_here. }
  split; [done|]. congruence.
Qed.
Lemma receive_sealed input pinned w o w' id name until :
  ready 10 w -> issued "msg" (w_msg_counter w) id -> once_spec input pinned w o w' ->
  before (now_at w) until = true -> sealed id name until (w_queues w) -> sealed id name until (w_queues w').
Proof.
  intros Hr Hid Ho Hb Hs. pose proof (ready_inv _ _ Hr) as [Hn _ _ _]. simpl in Hn.
  assert (forall rname q, w_queues w !! rname = Some q -> dated (now_at w) ->
    sealed id name until (<[rname := cleaned (now_at w) q]> (w_queues w))) as Hclean.
  { intros rname q Hq Hd. apply (astep_sealed (config (server w)) LClean (abs w) (_, w_msg_counter w) id name until); try done.
    by apply a_clean. }
  assert (forall w', server w' = server w -> sealed id name until (w_queues w')) as Hsame
    by (intros w2 E; unfold w_queues; by rewrite E).
  assert (forall rname mx ov man san o, receive_spec rname mx ov man san w o w' -> sealed id name until (w_queues w')) as Hspec.
  { intros rname mx ov man san o' [w2 _ E _|e w2 q now Hq [Hd ->] (_ & E & _)|w2 q now i js sc q' Hq [Hd ->] _ S _|e w2 E _].
    - by apply Hsame.
    - rewrite E. by apply Hclean.
    - eapply scan_sealed; [| | |exact S|done|by apply Hclean].
      + exact (cleaned_at_inv 10 rname (now_at w) q w Hr Hq Hd).
      + done.
      + apply lookup_insert_eq.
    - by apply Hsame. }
  destruct Ho as [e w2 E _|e w2 R|ms wait q w2 R _ _ _]; [by apply Hsame|by eapply Hspec..].
Qed.

(** Calls that change no visibility and move nothing on request. *)
Definition leaves_visibility (op : api_op) : bool :=
  match op with ChangeVisibility _ _ _ | ChangeVisibilityBatch _ _ | StartMove _ _ => false | _ => true end.
(** Such calls one after the other, each made before the deadline. *)
Inductive calls_until (deadline : Z) (w : World) : World -> Prop :=
| calls_none : calls_until deadline w w
| calls_one w' op : calls_until deadline w w' -> room 10 w' -> leaves_visibility op = true ->
    unix_nanos_from_rfc3339 (now_at w') < deadline -> calls_until deadline w (run_api op w').2.

Lemma call_sealed op w id name until :
  ready 10 w -> leaves_visibility op = true -> issued "msg" (w_msg_counter w) id -> before (now_at w) until = true ->
  sealed id name until (w_queues w) -> sealed id name until (w_queues (run_api op w).2).
Proof.
  intros Hr Hop Hid Hb Hs. pose proof (run_api_wp op w Hr) as (_ & _ & Hsteps & _).
  pose proof (ready_inv _ _ Hr) as [Hn _ _ _].
  assert ((forall l, api_labels op l = true -> leaves_flight l = true) -> sealed id name until (w_queues (run_api op w).2)) as Hdone
    by (intros HL; exact (asteps_sealed _ _ _ _ id name until HL Hn Hid Hs Hsteps)).
  destruct op; try done; try (apply Hdone; by intros []).
  clear Hdone Hsteps. pose proof (once_spec_wp input pinned w Hr) as Ho.
  assert (wp (run_api (Receive input pinned)) (fun _ w' => sealed id name until (w_queues w')) w) as Hwp; [|exact Hwp].
  simpl. apply wp_bind. eapply wp_mono; [exact Ho|]. intros o w' Hspec.
  pose proof (receive_sealed _ _ _ _ _ _ _ _ Hr Hid Hspec Hb Hs) as Hs'. by destruct o.
Qed.
Lemma calls_sealed deadline w w' id name until :
  ready 0 w -> issued "msg" (w_msg_counter w) id -> sealed id name until (w_queues w) ->
  (forall now, unix_nanos_from_rfc3339 now < deadline -> before now until = true) ->
  calls_until deadline w w' ->
  ready 0 w' /\ issued "msg" (w_msg_counter w') id /\ sealed id name until (w_queues w').
Proof.
  intros Hr Hid Hs Hb. induction 1 as [|w' op _ (Hr' & Hid' & Hs') Hroom Hop Hclock]; [done|].
  assert (ready 10 w') as Hr10 by (split; [apply Hr'|apply Hr'|done]).
  pose proof (run_api_wp op w' Hr10) as Hrun. split_and!.
  - by eapply (ready_after _ 10 0).
  - destruct Hrun as (_ & _ & Hst & _). eapply issued_mono; [|exact Hid'].
    assert (w_msg_counter w' <= (abs (run_api op w').2).2) as Hle; [|done].
    eapply (asteps_inv _ _ (fun a => w_msg_counter w' <= a.2)); [|exact Hst|done].
    intros l a a' _ Ha Hs1. pose proof (astep_count _ _ _ _ Hs1). lia.
  - apply call_sealed; [done|done|done|by apply Hb|done].
Qed.
End System.

(** ** A concrete run, for the witnesses *)

Definition demo_config : Config :=
  mkConfig "127.0.0.1:9324" "" "" "" "" "" "" "" 0 0 0 0 0 0 0.
Definition demo_start : World := mkWorld (mkServer demo_config ∅ ∅ None) None 0 0 0.
Definition demo_url (name : string) : string := "http://127.0.0.1:9324/000000000000/" +:+ name.
Definition demo_send (name body group dedup : string) : SendMessageRequest :=
  mkSend (demo_url name) body None ∅ ∅ group dedup.
Definition demo_receive (name : string) : ReceiveMessageRequest :=
  mkReceive (demo_url name) (Some 10) None None [] [] [].
Fixpoint demo_run (ops : list api_op) (w : World) : World :=
  match ops with [] => w | op :: ops => demo_run ops (@run_api demo_env op w).2 end.
Definition fifo_attrs : gmap string string := <["FifoQueue" := "true"]> ∅.

(** Two queues, a standard and a FIFO one, with two messages each. *)
Definition demo_ops : list api_op :=
  [Manage (CreateQueue "jobs" ∅ ∅); Manage (CreateQueue "orders.fifo" fifo_attrs ∅);
   Send (demo_send "jobs" "one" "" ""); Send (demo_send "jobs" "two" "" "");
   Send (demo_send "orders.fifo" "first" "g" "d1"); Send (demo_send "orders.fifo" "second" "g" "d2")].
Definition demo_world : World := demo_run demo_ops (@new demo_env demo_config demo_start).2.

Lemma demo_clock : @clock_modern demo_env.
Proof. intros t. unfold modern. simpl. lia. Qed.

Definition small (w : World) : bool := w_msg_counter w <? 2 ^ 62.
Fixpoint demo_small (ops : list api_op) (w : World) : bool :=
  small w && match ops with [] => true | op :: ops => demo_small ops (@run_api demo_env op w).2 end.
Lemma demo_run_reach c ops w :
  @reach demo_env c w -> demo_small ops w = true -> @reach demo_env c (demo_run ops w).
Proof.
  revert w. induction ops as [|op ops IH]; intros w Hr Hs; simpl in *; [done|].
  apply andb_true_iff in Hs as [Hw Hs]. apply IH; [|done]. apply reach_step; [done|].
  unfold small, room in *. lia.
Qed.
Lemma demo_reach : @reach demo_env demo_config demo_world.
Proof.
  apply demo_run_reach; [by apply (@reach_start demo_env)|]. vm_compute. reflexivity.
Qed.
Lemma demo_room : room 10 demo_world.
Proof. vm_compute. reflexivity. Qed.

(** ** Properties *)

(** C1: the service refines the abstract machine: in every reachable state, every
    API call, whatever its arguments and whatever file system call fails, ends
    without a panic (no overflow, no index out of range, no unwrap of None) after
    abstract steps of the kinds allowed to that call only; in particular a call
    that fails has changed the queues by such steps at most. *)
Theorem api_refines_machine `{Env} c w op :
  clock_modern -> reach c w -> room 10 w ->
  is_panic (run_api op w).1 = false /\ asteps c (api_labels op) (abs w) (abs (run_api op w).2).
Proof. apply run_api_refines. Qed.

Lemma api_refines_machine_witness :
  is_panic (@run_api demo_env (Receive (demo_receive "jobs") None) demo_world).1 = false
  /\ asteps demo_config receive_labels (abs demo_world)
       (abs (@run_api demo_env (Receive (demo_receive "jobs") None) demo_world).2).
Proof.
  exact (@api_refines_machine demo_env demo_config demo_world (Receive (demo_receive "jobs") None)
           demo_clock demo_reach demo_room).
Defined.

(** a receipt handle names one message: in every reachable state, two messages,
    in any queues and positions, that carry the same non-empty receipt handle are
    the same message of the same queue. *)
Theorem receipt_handle_unique `{Env} c w k q i m k' q' j m' :
  clock_modern -> reach c w ->
  w_queues w !! k = Some q -> messages q !! i = Some m ->
  w_queues w !! k' = Some q' -> messages q' !! j = Some m' ->
  receipt_handle m <> "" -> receipt_handle m' = receipt_handle m -> k = k' /\ i = j.
Proof.
  intros Hclock Hr Hq Hm Hq' Hm' Hne Heq. destruct (reach_inv c w Hclock Hr) as [_ [_ _ _ [Hnd _]]].
  eapply (tokens_NoDup_place handle_token); [exact Hnd|exact Hq|exact Hm| |exact Hq'|exact Hm'|].
  - rewrite (handle_token_one m _ eq_refl Hne). apply list_elem_of_here.
  - rewrite (handle_token_one m' (receipt_handle m)); [apply list_elem_of_here|done|done].
Qed.

(** a message has one live copy: in every reachable state, two live messages
    with the same message id, in any queues, are the same message, also after
    redrives and move tasks, which leave tombstones with that id behind. *)
Theorem live_message_unique `{Env} c w k q i m k' q' j m' :
  clock_modern -> reach c w ->
  w_queues w !! k = Some q -> messages q !! i = Some m -> deleted m = false ->
  w_queues w !! k' = Some q' -> messages q' !! j = Some m' -> deleted m' = false ->
  msg_id m' = msg_id m -> k = k' /\ i = j.
Proof.
  intros Hclock Hr Hq Hm Hl Hq' Hm' Hl' Heq. destruct (reach_inv c w Hclock Hr) as [_ [_ _ [Hnd _] _]].
  eapply (tokens_NoDup_place id_token); [exact Hnd|exact Hq|exact Hm| |exact Hq'|exact Hm'|];
    unfold id_token; rewrite ?Hl, ?Hl'; rewrite ?Heq; apply list_elem_of_here.
Qed.

(** a message that is gone stays gone: once an issued message id is on no live
    message (deleted, expired or purged), no later sequence of calls makes a
    message with that id live again. *)
Theorem gone_stays_gone `{Env} c w w' id :
  clock_modern -> reach c w -> issued "msg" (w_msg_counter w) id ->
  id ∉ tokens id_token (w_queues w) -> later c w w' -> id ∉ tokens id_token (w_queues w').
Proof.
  intros Hclock Hr Hid Hout Hl. pose proof (reach_inv c w Hclock Hr) as [_ [Hn _ _ _]].
  assert (asteps c (fun _ => true) (abs w) (abs w')) as Hs.
  { induction Hl as [|w' op Hl IH Hroom]; [constructor|]. eapply asteps_trans; [exact IH|].
    eapply asteps_weaken; [|eapply run_api_refines; [done|by eapply later_reach|done]]. done. }
  by apply (asteps_gone c (fun _ => true) (abs w) (abs w') id).
Qed.

(** Queues are found where they say they are: in every reachable state a queue
    is stored under its own, valid name, its ARN and URL are the server's for that
    name, and looking its URL up gives it back (for a host and account without
    separator characters). *)
Theorem queues_addressable `{Env} c w k q :
  clock_modern -> reach c w -> w_queues w !! k = Some q ->
  q_name q = k /\ valid_queue_name k = true /\ q_arn q = queue_arn c k /\ q_url q = queue_url c k
  /\ (url_safe (url_authority c) = true -> url_safe (url_account c) = true ->
      queue_by_url (server w) (q_url q) = Some q).
Proof.
  intros Hclock Hr Hq. destruct (reach_inv c w Hclock Hr) as [_ [_ Hqs _ _]].
  destruct (Hqs k q Hq) as [(Hv & Hn & Hu & Ha) _]. split_and!; try done.
  intros H1 H2. unfold queue_by_url. rewrite Hu, queue_name_from_queue_url by done.
  destruct (valid_name_safe _ Hv) as [Hne _]. destruct (is_empty k) eqn:E; [|done].
  by apply is_empty_true in E.
Qed.
