(* ===== verification/SqsTheorems.v ===== *)
(** What sending, receiving, deleting and moving guarantee, call by call, and the
    concrete runs on which the guarantees are exercised. *)

From S2P Require Import Prelude RustStr RustNum SqsTime SqsModel SqsValidation SqsServer SqsMessages SqsSpec SqsRefine SqsReceive SqsCalls SqsManage SqsSystem.
Local Open Scope Z_scope.

Section Facts.
Context `{Env}.

(** A receive request's queue, batch bound and visibility. *)
Definition request_name (input : ReceiveMessageRequest) : string :=
  queue_name_from_url (rq_queue_url input).
Definition request_max (w : World) (input : ReceiveMessageRequest) : Z :=
  clamped (config (server w)) (rq_max_number_of_messages input).
Definition request_visibility (w : World) (q : QueueState) (input : ReceiveMessageRequest) : Z :=
  receive_visibility (config (server w)) q (rq_visibility_timeout input).

(** Message [j] of the cleaned queue was delivered as [r]; [q'] is the queue after. *)
Definition delivered_as (w : World) (q q' : QueueState) (input : ReceiveMessageRequest) (j : nat)
    (r : ReceivedMessage) : Prop :=
  delivery (now_at w) (request_visibility w q input) (rq_message_attribute_names input)
    (requested_system_attribute_names input) (cleaned (now_at w) q)
    (cleaned_at (request_name input) (now_at w) q w) q' j r.

(** A successful receive, taken apart. *)
Lemma receive_ok input pinned w ms wait id w' :
  ready 10 w -> receive_messages_once input pinned w = (Ok (ms, wait, id), w') ->
  exists q q' js sc,
    w_queues w !! request_name input = Some q /\ dated (now_at w) /\ ms = sc_messages sc
    /\ 0 <= request_visibility w q input <= MAX_VISIBILITY_TIMEOUT_SECONDS
    /\ exists i, scan_state (request_name input) (now_at w) (request_visibility w q input)
         (request_max w input) (rq_message_attribute_names input)
         (requested_system_attribute_names input) (cleaned (now_at w) q)
         (cleaned_at (request_name input) (now_at w) q w) i js sc q' w'
       /\ (i = length (messages (cleaned (now_at w) q)) \/ request_max w input <= Z.of_nat (length ms)).
Proof.
  intros Hr Hrun. pose proof (once_spec_wp input pinned w Hr) as Hwp. unfold wp in Hwp.
  rewrite Hrun in Hwp. simpl in Hwp. inversion Hwp as [| |ms' wait' id' w1 Hs]; subst.
  inversion Hs as [| |w1 q now i js sc q' Hq [Hd ->] Hv S Hend|]; subst.
  exists q, q', js, sc. split_and!; [done|done|done|apply Hv|apply Hv|]. exists i. by split.
Qed.

Lemma delivered_at_most input pinned w ms wait id w' :
  ready 10 w -> receive_messages_once input pinned w = (Ok (ms, wait, id), w') ->
  Z.of_nat (length ms) <= request_max w input.
Proof.
  intros Hr Hrun. destruct (receive_ok _ _ _ _ _ _ _ Hr Hrun) as (q & q' & js & sc & _ & _ & -> & _ & i & S & _).
  pose proof (ss_length _ _ _ _ _ _ _ _ _ _ _ _ _ S).
  pose proof (receive_batch_size (config (server w))). unfold request_max, clamped in *. lia.
Qed.

(** Where a received message came from. *)
Lemma received_origin w q q' input js ms r :
  Forall2 (delivered_as w q q' input) js ms -> r ∈ ms -> exists j, j ∈ js /\ delivered_as w q q' input j r.
Proof.
  intros Hf Hr. apply list_elem_of_lookup in Hr as [k Hk].
  destruct (Forall2_lookup_r _ _ _ _ _ Hf Hk) as (j & Hj & Hd).
  exists j. split; [by eapply list_elem_of_lookup_2|done].
Qed.

Lemma received_fields m man san :
  let r := received_message_from_state m man san in
  rm_message_id r = msg_id m /\ rm_receipt_handle r = receipt_handle m /\ rm_body r = msg_body m
  /\ rm_md5_of_message_body r = msg_body_md5 m.
Proof.
  unfold received_message_from_state. cbv zeta.
  destruct (if wants_all man then _ else _) as [md5 attrs]. done.
Qed.

Lemma delivered_visibility now h vis r m :
  invisible_until (delivered now h vis r m) = add_seconds now vis
  /\ msg_body (delivered now h vis r m) = msg_body m
  /\ message_group_id (delivered now h vis r m) = message_group_id m.
Proof. unfold delivered. simpl. by destruct (is_zero _). Qed.
End Facts.

(** ** Receiving *)

(** C7: what a receive delivers.  A successful call returns at most the clamped
    batch size; the returned messages are distinct messages of the queue, in queue
    order, each live, neither delayed nor in flight at the time of the call, and
    not due for the dead-letter queue; each is left in the queue with the returned
    receipt handle, which is not empty and was on no message before, its receive count increased by one, and invisible
    until the visibility timeout from now; and messages that were delayed or in
    flight are left exactly as they were. *)
Theorem receive_delivers `{Env} input pinned w ms wait id w' :
  ready 10 w -> receive_messages_once input pinned w = (Ok (ms, wait, id), w') ->
  exists q q' js,
    w_queues w !! request_name input = Some q /\ w_queues w' !! request_name input = Some q'
    /\ Z.of_nat (length ms) <= request_max w input
    /\ StronglySorted lt js /\ Forall2 (delivered_as w q q' input) js ms
    /\ (forall j m, messages (cleaned (now_at w) q) !! j = Some m -> hidden (now_at w) m = true ->
          messages q' !! j = Some m).
Proof.
  intros Hr Hrun. pose proof (delivered_at_most _ _ _ _ _ _ _ Hr Hrun) as Hmax.
  destruct (receive_ok _ _ _ _ _ _ _ Hr Hrun) as (q & q' & js & sc & Hq & Hd & -> & Hv & i & S & Hend).
  exists q, q', js. split_and!; try done.
  - apply (ss_queue _ _ _ _ _ _ _ _ _ _ _ _ _ S).
  - apply (ss_sorted _ _ _ _ _ _ _ _ _ _ _ _ _ S).
  - apply (ss_results _ _ _ _ _ _ _ _ _ _ _ _ _ S).
  - intros j m Hm Hh. apply (ss_hidden _ _ _ _ _ _ _ _ _ _ _ _ _ S); auto.
Qed.

(** a receive misses nothing: when a call on a standard queue returns fewer
    messages than it may, every live message that was visible and not due for the
    dead-letter queue is among those it delivered. *)
Theorem receive_complete `{Env} input pinned w ms wait id w' :
  ready 10 w -> receive_messages_once input pinned w = (Ok (ms, wait, id), w') ->
  Z.of_nat (length ms) < request_max w input ->
  exists q q' js,
    w_queues w !! request_name input = Some q /\ Forall2 (delivered_as w q q' input) js ms
    /\ (is_fifo_queue q = false ->
        forall j m, messages (cleaned (now_at w) q) !! j = Some m -> deleted m = false ->
          hidden (now_at w) m = false ->
          redrive_target (cleaned (now_at w) q)
            (w_queues (cleaned_at (request_name input) (now_at w) q w)) m = None -> j ∈ js).
Proof.
  intros Hr Hrun Hshort.
  destruct (receive_ok _ _ _ _ _ _ _ Hr Hrun) as (q & q' & js & sc & Hq & Hd & -> & Hv & i & S & [->|Hend]); [|lia].
  exists q, q', js. split_and!; [done|apply (ss_results _ _ _ _ _ _ _ _ _ _ _ _ _ S)|].
  intros Hf j m Hm Hl Hh Hrd. eapply (ss_done _ _ _ _ _ _ _ _ _ _ _ _ _ S); try done.
  - by eapply lookup_lt_Some.
  - intros [Hg _]. change (is_fifo_queue (cleaned (now_at w) q)) with (is_fifo_queue q) in Hg. congruence.
Qed.

(** C8: FIFO order: from a FIFO queue, a message of a group is delivered only when
    every earlier message of its group is deleted, so a call delivers at most one
    message per group, the oldest, and none from a group whose oldest message is
    delayed, in flight or moved away in this call. *)
Theorem receive_fifo_order `{Env} input pinned w ms wait id w' :
  ready 10 w -> receive_messages_once input pinned w = (Ok (ms, wait, id), w') ->
  exists q q' js,
    w_queues w !! request_name input = Some q /\ Forall2 (delivered_as w q q' input) js ms
    /\ (is_fifo_queue q = true ->
        forall j m, j ∈ js -> messages (cleaned (now_at w) q) !! j = Some m ->
          message_group_id m <> "" ->
          forall j' m', (j' < j)%nat -> messages (cleaned (now_at w) q) !! j' = Some m' ->
            message_group_id m' = message_group_id m -> deleted m' = true).
Proof.
  intros Hr Hrun.
  destruct (receive_ok _ _ _ _ _ _ _ Hr Hrun) as (q & q' & js & sc & Hq & Hd & -> & Hv & i & S & Hend).
  pose proof (ss_results _ _ _ _ _ _ _ _ _ _ _ _ _ S) as Hres.
  exists q, q', js. split_and!; [done|exact Hres|]. intros Hf j m Hj Hm Hg.
  apply list_elem_of_lookup in Hj as [k Hk]. destruct (Forall2_lookup_l _ _ _ _ _ Hres Hk) as (r & _ & Hdel).
  destruct Hdel as (m0 & h & Hm0 & _ & _ & _ & Hhead & _). assert (m0 = m) as -> by congruence.
  apply Hhead. by split.
Qed.

(** C23: a receive neither loses nor duplicates a message: after a successful call,
    redrives to the dead-letter queue included, the live messages over all queues
    are exactly those left by the retention cleanup of the received queue, which
    removes only tombstones and messages past the retention period. *)
Theorem receive_conserves `{Env} input pinned w ms wait id w' :
  ready 10 w -> receive_messages_once input pinned w = (Ok (ms, wait, id), w') ->
  exists q,
    w_queues w !! request_name input = Some q
    /\ tokens id_token (w_queues w')
       ≡ₚ tokens id_token (<[request_name input := cleaned (now_at w) q]> (w_queues w))
    /\ (forall m, m ∈ messages q -> m ∉ messages (cleaned (now_at w) q) ->
          deleted m = true \/ expired q (now_at w) m = true).
Proof.
  intros Hr Hrun.
  destruct (receive_ok _ _ _ _ _ _ _ Hr Hrun) as (q & q' & js & sc & Hq & Hd & -> & Hv & i & S & Hend).
  exists q. split_and!; [done| |].
  - apply (asteps_keep_ids (config (server w)) scan_labels
      (abs (cleaned_at (request_name input) (now_at w) q w)) (abs w')); [by intros []|].
    apply (ss_steps _ _ _ _ _ _ _ _ _ _ _ _ _ S).
  - intros m Hm Hout. destruct (deleted m) eqn:Hl; [by left|]. right.
    destruct (expired q (now_at w) m) eqn:He; [done|]. destruct Hout.
    by apply list_elem_of_filter.
Qed.

(** The clock over two calls. *)
Lemma before_timeout now now2 vis :
  dated now -> 0 <= vis <= MAX_VISIBILITY_TIMEOUT_SECONDS ->
  unix_nanos_from_rfc3339 now2 < unix_nanos_from_rfc3339 now + vis * 10 ^ 9 ->
  before now2 (add_seconds now vis) = true.
Proof.
  intros Hd Hv Hlt. unfold before, dated, MAX_VISIBILITY_TIMEOUT_SECONDS in *.
  rewrite unix_nanos_add_seconds; [lia|]. unfold instant_ok. lia.
Qed.

(** What a receive has delivered is in flight: no live copy of it is visible before the
    timeout ends. *)
Lemma delivered_sealed `{Env} input pinned w ms wait id w1 r q :
  ready 10 w -> receive_messages_once input pinned w = (Ok (ms, wait, id), w1) -> r ∈ ms ->
  w_queues w !! request_name input = Some q ->
  issued "msg" (w_msg_counter w1) (rm_message_id r)
  /\ sealed (rm_message_id r) (request_name input) (add_seconds (now_at w) (request_visibility w q input)) (w_queues w1)
  /\ forall now, unix_nanos_from_rfc3339 now
                 < unix_nanos_from_rfc3339 (now_at w) + request_visibility w q input * 10 ^ 9 ->
       before now (add_seconds (now_at w) (request_visibility w q input)) = true.
Proof.
  intros Hr Hrun Hin Hq0.
  assert (ready 0 w1) as [_ [_ _ [Hnd Hids] _] _].
  { pose proof (once_spec_wp input pinned w Hr) as Hwp. unfold wp in Hwp. rewrite Hrun in Hwp. simpl in Hwp.
    eapply (ready_after _ 10 0); [exact Hr|]. by eapply once_spec_refines. }
  destruct (receive_ok _ _ _ _ _ _ _ Hr Hrun) as (q1 & q' & js & sc & Hq & Hd & -> & Hv & i & S & _).
  assert (q1 = q) as -> by congruence. clear Hq0.
  pose proof (ss_queue _ _ _ _ _ _ _ _ _ _ _ _ _ S) as Hq'.
  destruct (received_origin w q q' input js _ r (ss_results _ _ _ _ _ _ _ _ _ _ _ _ _ S) Hin)
    as (j & _ & m & h & Hm & Hl & Hh & _ & _ & _ & Hm' & ->).
  set (m1 := delivered _ _ _ _ m) in *.
  destruct (received_fields m1 (rq_message_attribute_names input) (requested_system_attribute_names input)) as [E1 _].
  destruct (delivered_fields (now_at w) h (request_visibility w q input) (receive_count m + 1) m) as (_&_&_&F1&G1).
  destruct (delivered_visibility (now_at w) h (request_visibility w q input) (receive_count m + 1) m) as [Hvis _].
  assert (deleted m1 = false) as Hl1 by (subst m1; by rewrite F1).
  assert (msg_id m1 ∈ id_token m1) as Ht by (unfold id_token; rewrite Hl1; apply list_elem_of_here).
  rewrite E1. split_and!.
  - rewrite Forall_forall in Hids. apply Hids. apply elem_of_tokens. exists (request_name input), q', m1.
    split_and!; [done|by eapply list_elem_of_lookup_2|done].
  - intros k q2 m2 Hk [j2 Hm2]%list_elem_of_lookup Hl2 Hid2.
    assert (k = request_name input /\ j2 = j) as [-> ->].
    { eapply (tokens_NoDup_place id_token _ _ _ _ _ _ _ _ _ (msg_id m1)); [exact Hnd|exact Hk|exact Hm2| |exact Hq'|exact Hm'|done].
      unfold id_token. rewrite Hl2, Hid2. apply list_elem_of_here. }
    split; [done|]. assert (m2 = m1) as -> by congruence. exact Hvis.
  - intros now Hnow. by apply before_timeout.
Qed.

(** C9: a delivered message is not delivered again before its visibility timeout ends:
    after a receive, whatever calls are made before that time - sends, receives from any
    queue with their redrives, deletions, queue management, and any that fail, only
    changes of visibility and move tasks excepted -, a receive from any queue, also
    made before that time, returns none of the messages the first returned. *)
Theorem receive_exclusive `{Env} input pinned w ms wait id w1 w2 input2 pinned2 ms2 wait2 id2 w3 q :
  ready 10 w -> receive_messages_once input pinned w = (Ok (ms, wait, id), w1) ->
  w_queues w !! request_name input = Some q ->
  let deadline := unix_nanos_from_rfc3339 (now_at w) + request_visibility w q input * 10 ^ 9 in
  calls_until deadline w1 w2 -> room 10 w2 -> unix_nanos_from_rfc3339 (now_at w2) < deadline ->
  receive_messages_once input2 pinned2 w2 = (Ok (ms2, wait2, id2), w3) ->
  forall r r2, r ∈ ms -> r2 ∈ ms2 -> rm_message_id r2 <> rm_message_id r.
Proof.
  intros Hr Hrun Hq deadline Hcalls Hroom Hnow Hrun2 r r2 Hin Hin2 Heq.
  destruct (delivered_sealed _ _ _ _ _ _ _ _ _ Hr Hrun Hin Hq) as (Hid & Hs & Hb).
  assert (ready 0 w1) as Hr1.
  { pose proof (once_spec_wp input pinned w Hr) as Hwp. unfold wp in Hwp. rewrite Hrun in Hwp. simpl in Hwp.
    eapply (ready_after _ 10 0); [exact Hr|]. by eapply once_spec_refines. }
  destruct (calls_sealed deadline w1 w2 _ _ _ Hr1 Hid Hs Hb Hcalls) as (Hr2 & _ & Hs2).
  assert (ready 10 w2) as Hr10 by (split; [apply Hr2|apply Hr2|done]).
  destruct (receive_ok _ _ _ _ _ _ _ Hr10 Hrun2) as (q2 & q2' & js2 & sc2 & Hq2 & Hd2 & -> & _ & i2 & S2 & _).
  destruct (received_origin w2 q2 q2' input2 js2 _ r2 (ss_results _ _ _ _ _ _ _ _ _ _ _ _ _ S2) Hin2)
    as (j2 & _ & m2 & h2 & Hm2 & Hl2 & Hh2 & _ & _ & _ & _ & ->).
  apply list_elem_of_lookup_2, list_elem_of_filter in Hm2 as [_ Hm2]. set (m2' := delivered _ _ _ _ m2) in *.
  destruct (received_fields m2' (rq_message_attribute_names input2) (requested_system_attribute_names input2)) as [E2 _].
  destruct (delivered_fields (now_at w2) h2 (request_visibility w2 q2 input2) (receive_count m2 + 1) m2) as (_&_&_&_&G2).
  destruct (Hs2 _ _ m2 Hq2 Hm2 Hl2 ltac:(unfold m2' in *; congruence)) as [_ Hu].
  unfold hidden in Hh2. apply orb_false_iff in Hh2 as [_ Hh2]. by rewrite Hu, Hb in Hh2.
Qed.

(** ** Sending *)

(** every way a send can end.  It is refused with the queues unchanged, or
    unchanged but for the retention cleanup; or it finds a duplicate in a FIFO
    queue's deduplication window and returns that message without enqueueing; or it
    takes the message, and then the request was acceptable (body non-empty, within
    the size limit, of valid characters; delay within 0..900), the message has a
    fresh id, its availability delayed as asked, and it is appended to the cleaned
    queue, in a FIFO queue with the next sequence number and a deduplication entry;
    or persisting fails and queues, sequence and deduplication entries are back. *)
Theorem send_message_outcomes `{Env} input w :
  ready 1 w -> send_spec input w (send_message input w).1 (send_message input w).2.
Proof. apply send_message_spec_wp. Qed.

(** C24: FIFO deduplication: a message with the deduplication id of a message sent
    to the queue less than five minutes before is not enqueued: the second send
    returns the first message, and only the retention cleanup touches the queue. *)
Theorem fifo_deduplicates `{Env} input input2 w m w1 m2 w2 q :
  ready 2 w -> w_queues w !! send_name input = Some q -> is_fifo_queue q = true ->
  sm_message_deduplication_id input <> "" -> dedup q !! sm_message_deduplication_id input = None ->
  send_message input w = (Ok m, w1) ->
  send_name input2 = send_name input ->
  sm_message_deduplication_id input2 = sm_message_deduplication_id input ->
  unix_nanos_from_rfc3339 (now_at w1) < unix_nanos_from_rfc3339 (now_at w) + 300 * 10 ^ 9 ->
  send_message input2 w1 = (Ok m2, w2) ->
  m2 = m /\ exists q1, w_queues w1 !! send_name input = Some q1
            /\ w_queues w2 = <[send_name input := cleaned (now_at w1) q1]> (w_queues w1).
Proof.
  intros Hr2 Hq Hf Hd Hnone Hrun Hname Hdd Hclock Hrun2.
  assert (ready 1 w) as Hr by (eapply ready_le; [|exact Hr2]; lia).
  pose proof (send_message_spec_wp input w Hr) as Hs. unfold wp in Hs. rewrite Hrun in Hs. simpl in Hs.
  assert (ready 1 w1) as Hr1.
  { eapply (ready_after _ 1 1); [exact Hr2|]. by eapply send_spec_refines. }
  pose proof (send_message_spec_wp input2 w1 Hr1) as Hs2. unfold wp in Hs2. rewrite Hrun2 in Hs2. simpl in Hs2.
  assert (forall (q : QueueState) i d, fifo_deduplication_id q i = Ok d -> sm_message_deduplication_id i <> "" ->
            d = sm_message_deduplication_id i) as Hid.
  { intros q0 i d. unfold fifo_deduplication_id. destruct (is_empty (sm_message_group_id i)); [done|].
    destruct (sm_message_deduplication_id i); [done|]. simpl. congruence. }
  inversion Hs as [| |w' q0 now d m' Hq0 Hrd _ _ Hfd Hdup _|w' q0 now id d m' q' Hq0 [Hdn ->] _ _ Hfd Hp _ Hqs _|];
    subst; assert (q0 = q) as -> by congruence.
  { apply Hid in Hfd as ->; [|done]. exfalso. unfold duplicate_of in Hdup. simpl in Hdup.
    rewrite map_lookup_filter, Hnone in Hdup. done. }
  rewrite Hf in Hfd. destruct Hfd as (d' & -> & Hfd & _). apply Hid in Hfd as ->; [|done].
  set (k := sm_message_deduplication_id input) in *.
  assert (w_queues w1 !! send_name input = Some q') as Hq1 by (rewrite Hqs; apply lookup_insert_eq).
  assert (is_fifo_queue q' = true /\ duplicate_of (cleaned (now_at w1) q') (now_at w1) k = Some m) as [Hf' Hdup].
  { unfold pushed in Hp. injection Hp as <- <-. split; [done|].
    unfold duplicate_of. simpl. rewrite map_lookup_filter, lookup_insert_eq. simpl.
    assert (before (now_at w1) (add_seconds (now_at w) FIFO_DEDUPLICATION_WINDOW_SECONDS) = true) as Hb
      by (apply before_timeout; [done|unfold FIFO_DEDUPLICATION_WINDOW_SECONDS, MAX_VISIBILITY_TIMEOUT_SECONDS; lia|done]).
    rewrite Hb. rewrite option_guard_True by done. simpl. by rewrite Hb. }
  inversion Hs2 as [| |w' q2 now d m' Hq2 [_ ->] _ _ Hfd2 Hdup2 Hw2|w' q2 now id2 d m' q2' Hq2 [_ ->] _ _ Hfd2 _ _ _ _|];
    subst; rewrite Hname in Hq2; assert (q2 = q') as -> by congruence.
  - apply Hid in Hfd2 as ->; [|congruence]. rewrite Hdd in Hdup2. split; [congruence|].
    exists q'. split; [done|]. rewrite <- Hname. apply Hw2.
  - exfalso. rewrite Hf' in Hfd2. destruct Hfd2 as (d2 & -> & Hfd2 & Hno).
    apply Hid in Hfd2 as ->; [|congruence]. rewrite Hdd in Hno. congruence.
Qed.

(** ** Deleting *)

(** deleting by receipt handle.  A delete succeeds exactly on the live message
    that holds the handle while it is in flight, tombstones that message and removes
    one live message; a failed one leaves every queue unchanged, except that an
    expired handle is taken off its message. *)
Theorem delete_message_outcomes `{Env} url handle w o w' :
  clock_modern -> delete_message url handle w = (o, w') ->
  let name := queue_name_from_url url in
  match o with
  | Ok _ => exists q i m,
      w_queues w !! name = Some q /\ holder q handle i m
      /\ before (now_at w) (invisible_until m) = true
      /\ w_queues w' = <[name := with_message i (tombstoned m) q]> (w_queues w)
      /\ tokens id_token (w_queues w) ≡ₚ msg_id m :: tokens id_token (w_queues w')
  | Err _ =>
      w_queues w' = w_queues w
      \/ exists q i m,
           w_queues w !! name = Some q /\ holder q handle i m
           /\ before (now_at w) (invisible_until m) = false
           /\ w_queues w' = <[name := with_message i (set_receipt_handle "" m) q]> (w_queues w)
  | Panic _ => False
  end.
Proof.
  intros Hc Hrun name. pose proof (delete_message_wp url handle w Hc) as Hs. unfold wp in Hs.
  rewrite Hrun in Hs. simpl in Hs. inversion Hs as [e w1 Hw|q o1 w1 Hq Hs']; subst.
  { left. by apply only_queues_queues in Hw. }
  inversion Hs' as [e w1 _ Hw|w1 i m now Hne Hh [_ ->] Hb Hw|w1 i m now Hne Hh [_ ->] Hb Hw|e w1 Hw]; subst;
    apply only_queues_queues in Hw.
  - by left.
  - right. eauto 8.
  - exists q, i, m. split_and!; try done. rewrite Hw.
    destruct Hh as (Hi & Hl & _). rewrite (tokens_dropped id_token _ _ q i m (tombstoned m)) by done.
    unfold id_token at 1. by rewrite Hl.
  - by left.
Qed.

(** batch calls report every entry exactly once and are all-or-nothing on
    disk: a batch delete or visibility change either is refused with nothing
    changed, or reports each entry as successful or failed exactly once; if
    persisting fails, every entry is reported failed and the queues are as before,
    also when several entries named the same message. *)
Theorem batch_outcomes `{Env} url deletes changes w :
  clock_modern ->
  batch_spec ack_labels (de_id <$> deletes) w
    (delete_message_batch url deletes w).1 (delete_message_batch url deletes w).2
  /\ batch_spec visibility_labels (cv_id <$> changes) w
       (change_message_visibility_batch url changes w).1 (change_message_visibility_batch url changes w).2.
Proof.
  intros Hc. split; [by apply delete_message_batch_wp|by apply change_message_visibility_batch_wp].
Qed.

(** ** Moving *)

(** a message-move task moves each live message of the source queue that has a
    destination exactly once: it is tombstoned in place and a copy (same id and
    body, no receipt handle, receive count zero, available now) is appended to its
    destination, in order; the recorded count is the number of moved messages; no
    live message is lost or duplicated; and if the call fails, all queues are as
    they were. *)
Theorem move_task_exact `{Env} source_arn destination w o w' :
  clock_modern -> start_message_move_task source_arn destination w = (o, w') ->
  match o with
  | Ok task => exists source q0,
      queue_name_by_arn (w_queues w) source_arn = Some source /\ w_queues w !! source = Some q0
      /\ let moves := plan_moves (w_queues w) destination (started_at task) 0 (messages q0) in
         (forall k, w_queues w' !! k = after_moves source moves k <$> w_queues w !! k)
         /\ Forall (planned (w_queues w) destination (started_at task) (messages q0)) moves
         /\ (forall i m, messages q0 !! i = Some m -> deleted m = false ->
               is_Some (move_target (w_queues w) destination m) -> i ∈ (mv_index <$> moves))
         /\ NoDup (mv_index <$> moves)
         /\ approximate_number_of_messages_moved task = Z.of_nat (length moves)
         /\ move_tasks (server w') !! task_handle task = Some task
         /\ tokens id_token (w_queues w') ≡ₚ tokens id_token (w_queues w)
  | Err _ => w_queues w' = w_queues w
  | Panic _ => False
  end.
Proof.
  intros Hc Hrun. pose proof (start_message_move_task_wp source_arn destination w Hc) as Hs. unfold wp in Hs.
  rewrite Hrun in Hs. simpl in Hs.
  inversion Hs as [e w1 Hse Hn|task w1 source q0 now Hname Hq0 moves Hqs Hcnt Hst Hat Ht Hcf Hn Hsteps|e w1 Hq Hcf Hn]; subst.
  - unfold w_queues. by rewrite Hse.
  - exists source, q0. cbv zeta. split_and!; try done.
    + apply plan_moves_planned.
    + intros i m. apply plan_moves_complete.
    + apply lt_sorted_NoDup, plan_moves_sorted.
    + rewrite Ht. apply lookup_insert_eq.
    + apply (asteps_keep_ids (config (server w)) move_labels (abs w) (abs w')); [by intros []|done].
  - done.
Qed.

(** ** Retention *)

(** retention cleanup is exact: on a queue whose messages carry dates of the
    supported range, it succeeds and keeps, in order, exactly the live messages not
    older than [MessageRetentionPeriod] seconds (all live ones when the period is
    not positive), and exactly the deduplication entries that have not expired. *)
Theorem cleanup_exact `{Env} q now :
  dated now -> Forall (fun m => dated (sent_at m)) (messages q) ->
  exists q', cleanup_expired_messages q now = Ok q'
    /\ messages q' `sublist_of` messages q
    /\ (forall m, m ∈ messages q' <->
          m ∈ messages q /\ deleted m = false
          /\ (retention_of q <= 0
              \/ unix_nanos_from_rfc3339 now - unix_nanos_from_rfc3339 (sent_at m)
                 <= retention_of q * 10 ^ 9))
    /\ (forall d e, dedup q' !! d = Some e <-> dedup q !! d = Some e /\ before now (expires_at e) = true).
Proof.
  intros Hnow Hms. exists (cleaned now q). split_and!.
  - unfold cleanup_expired_messages. fold (retention_of q). by rewrite retain_messages_ok.
  - apply cleaned_messages.
  - intros m. simpl. rewrite list_elem_of_filter. unfold retained, expired.
    destruct (Z.ltb_spec 0 (retention_of q)); simpl; (split; [intros [[? ?] ?]|intros (? & ? & ?)]);
      split_and!; try done; try lia; destruct_or?; try lia.
  - intros d e. simpl. by rewrite map_lookup_filter_Some.
Qed.

(** A stored message without a send date breaks the cleanup: the age is
    computed by subtracting the parser's [i128::MIN] for an unset date, so a build
    with overflow checks panics on every send to or receive from the queue, and one
    without them wraps to a negative age and never expires the message. *)
Theorem cleanup_unset_date `{Env} q now m :
  dated now -> messages q = [m] -> deleted m = false -> sent_at m = ZERO_TIME -> 0 < retention_of q ->
  cleanup_expired_messages q now
  = if overflow_checks then Panic "arithmetic overflow"
    else Ok (cleanup_expired_deduplication (set_messages [m] q) now).
Proof.
  intros Hnow Hm Hl Hs Hr. unfold cleanup_expired_messages. fold (retention_of q). rewrite Hm.
  cbn [retain_messages]. unfold retain_message. rewrite Hl, Hs.
  change (unix_nanos_from_rfc3339 ZERO_TIME) with i128_min.
  destruct (Z.ltb_spec 0 (retention_of q)); [|lia]. unfold dated in Hnow.
  unfold checked_i128. unfold in_i128. destruct (_ && _) eqn:E.
  { unfold i128_min, i128_max in E. lia. }
  destruct overflow_checks; [done|]. cbn [mbind outcome_bind].
  assert (wrap_s 128 (unix_nanos_from_rfc3339 now - i128_min) = unix_nanos_from_rfc3339 now + i128_min) as ->.
  { unfold wrap_s, i128_min. set (n := unix_nanos_from_rfc3339 now) in *.
    replace (n - - 2 ^ 127 + 2 ^ (128 - 1)) with (n + 1 * 2 ^ 128) by lia.
    rewrite Z_mod_plus_full, Z.mod_small by lia. lia. }
  destruct (Z.ltb_spec (retention_of q * 1000000000) (unix_nanos_from_rfc3339 now + i128_min)) as [Hlt|];
    [unfold i128_min in Hlt; lia|]. done.
Qed.

(** ** Witnesses *)

#[export] Instance dated_dec s : Decision (dated s).
Proof. unfold dated. apply _. Defined.

Definition received_of (o : outcome (list ReceivedMessage * Z * QueueIdentity))
    : list ReceivedMessage * Z * QueueIdentity :=
  match o with Ok r => r | _ => ([], 0, mkIdentity "" "") end.

(** A receive from the standard queue, and then from the FIFO queue. *)
Definition demo_got := @receive_messages_once demo_env (demo_receive "jobs") None demo_world.
Definition demo_ms : list ReceivedMessage := (received_of demo_got.1).1.1.
Definition demo_fifo := @receive_messages_once demo_env (demo_receive "orders.fifo") None demo_world.

Definition got_eq (input : ReceiveMessageRequest) (w : World)
    (got : outcome (list ReceivedMessage * Z * QueueIdentity) * World) : Prop :=
  @receive_messages_once demo_env input None w
  = (Ok ((received_of got.1).1.1, (received_of got.1).1.2, (received_of got.1).2), got.2).
Lemma demo_got_eq : got_eq (demo_receive "jobs") demo_world demo_got.
Proof. vm_compute. reflexivity. Qed.
Lemma demo_fifo_eq : got_eq (demo_receive "orders.fifo") demo_world demo_fifo.
Proof. vm_compute. reflexivity. Qed.

Lemma demo_ready : @ready demo_env 20 demo_world.
Proof.
  destruct (@reach_ready demo_env demo_config demo_world demo_clock demo_reach demo_room) as [Hc Hi _].
  split; [done|done|]. vm_compute. reflexivity.
Qed.
Lemma demo_ready10 : @ready demo_env 10 demo_world.
Proof. eapply ready_le; [|exact demo_ready]. lia. Qed.

(** The world after further calls, still reachable. *)
Definition demo_later (ops : list api_op) : World := demo_run ops demo_world.
Lemma demo_later_reach ops :
  demo_small ops demo_world = true -> @reach demo_env demo_config (demo_later ops).
Proof. apply demo_run_reach, demo_reach. Qed.
Definition demo_queue (name : string) (w : World) : QueueState :=
  default (mkQueue "" "" "" ∅ ∅ "" "" [] 0 ∅) (w_queues w !! name).
Definition demo_message (name : string) (i : nat) (w : World) : MessageState :=
  default default_message (messages (demo_queue name w) !! i).

Definition demo_w2 : World := demo_later [Receive (demo_receive "jobs") None].
Definition demo_handle : string := receipt_handle (demo_message "jobs" 0 demo_w2).

Lemma receipt_handle_unique_witness :
  demo_handle <> "" /\ "jobs" = "jobs" /\ 0%nat = 0%nat.
Proof.
  assert (demo_handle <> "") as Hne by (vm_compute; discriminate).
  split; [exact Hne|].
  apply (@receipt_handle_unique demo_env demo_config demo_w2 "jobs" (demo_queue "jobs" demo_w2) 0
    (demo_message "jobs" 0 demo_w2) "jobs" (demo_queue "jobs" demo_w2) 0 (demo_message "jobs" 0 demo_w2));
    [exact demo_clock|apply demo_later_reach; vm_compute; reflexivity
    |vm_compute; reflexivity|vm_compute; reflexivity|vm_compute; reflexivity|vm_compute; reflexivity
    |exact Hne|reflexivity].
Defined.

Lemma live_message_unique_witness :
  msg_body (demo_message "jobs" 1 demo_w2) = "two" /\ "jobs" = "jobs" /\ 1%nat = 1%nat.
Proof.
  split; [vm_compute; reflexivity|].
  apply (@live_message_unique demo_env demo_config demo_w2 "jobs" (demo_queue "jobs" demo_w2) 1
    (demo_message "jobs" 1 demo_w2) "jobs" (demo_queue "jobs" demo_w2) 1 (demo_message "jobs" 1 demo_w2));
    [exact demo_clock|apply demo_later_reach; vm_compute; reflexivity|vm_compute; reflexivity..].
Defined.

(** The first message is received and deleted, then another is sent. *)
Definition demo_w3 : World := demo_later [Receive (demo_receive "jobs") None; Delete (demo_url "jobs") demo_handle].
Definition demo_id : string := msg_id (demo_message "jobs" 0 demo_world).

Lemma gone_stays_gone_witness :
  demo_id ∉ tokens id_token (w_queues (@run_api demo_env (Send (demo_send "jobs" "three" "" "")) demo_w3).2).
Proof.
  apply (@gone_stays_gone demo_env demo_config demo_w3); [exact demo_clock| | | |].
  - apply demo_later_reach. vm_compute. reflexivity.
  - exists 0. split; [vm_compute; split; [discriminate|reflexivity]|].
    exists 1777543203000000000. split; [unfold modern; lia|vm_compute; reflexivity].
  - apply (bool_decide_unpack _). vm_compute. exact I.
  - eapply later_step; [apply later_refl|vm_compute; reflexivity].
Defined.

Lemma queues_addressable_witness :
  queue_by_url (server demo_world) (q_url (demo_queue "orders.fifo" demo_world))
  = Some (demo_queue "orders.fifo" demo_world).
Proof.
  apply (@queues_addressable demo_env demo_config demo_world "orders.fifo"
           (demo_queue "orders.fifo" demo_world) demo_clock demo_reach); vm_compute; reflexivity.
Defined.

Lemma receive_delivers_witness :
  length demo_ms = 2%nat
  /\ exists q', w_queues demo_got.2 !! "jobs" = Some q' /\ Z.of_nat (length demo_ms) <= 10.
Proof.
  split; [vm_compute; reflexivity|].
  destruct (@receive_delivers demo_env (demo_receive "jobs") None demo_world _ _ _ _ demo_ready10 demo_got_eq) as (q & q' & js & _ & Hq' & Hn & _).
  exists q'. split; [exact Hq'|]. exact Hn.
Defined.

Lemma receive_complete_witness :
  exists q (js : list nat), w_queues demo_world !! "jobs" = Some q /\ length js = 2%nat.
Proof.
  destruct (@receive_complete demo_env (demo_receive "jobs") None demo_world _ _ _ _ demo_ready10 demo_got_eq) as (q & q' & js & Hq & Hf & _).
  { vm_compute. reflexivity. }
  exists q, js. split; [exact Hq|]. apply Forall2_length in Hf. rewrite Hf. vm_compute. reflexivity.
Defined.

(** Two messages of group [g] wait in the FIFO queue: only the first is delivered. *)
Lemma receive_fifo_order_witness :
  rm_body <$> (received_of demo_fifo.1).1.1 = ["first"]
  /\ exists q (js : list nat), w_queues demo_world !! "orders.fifo" = Some q /\ length js = 1%nat.
Proof.
  split; [vm_compute; reflexivity|].
  destruct (@receive_fifo_order demo_env (demo_receive "orders.fifo") None demo_world _ _ _ _ demo_ready10 demo_fifo_eq) as (q & q' & js & Hq & Hf & _).
  exists q, js. split; [exact Hq|]. apply Forall2_length in Hf. rewrite Hf. vm_compute. reflexivity.
Defined.

Lemma receive_conserves_witness :
  exists q, w_queues demo_world !! "jobs" = Some q
    /\ tokens id_token (w_queues demo_got.2)
       ≡ₚ tokens id_token (<["jobs" := cleaned (@now_at demo_env demo_world) q]> (w_queues demo_world)).
Proof.
  destruct (@receive_conserves demo_env (demo_receive "jobs") None demo_world _ _ _ _ demo_ready10 demo_got_eq) as (q & Hq & Hp & _).
  exists q. split; [exact Hq|exact Hp].
Defined.

(** A receive of one message, another send and a receive of one message. *)
Definition demo_one : ReceiveMessageRequest := mkReceive (demo_url "jobs") (Some 1) None None [] [] [].
Definition demo_first := @receive_messages_once demo_env demo_one None demo_world.
Definition demo_between : World := (@run_api demo_env (Send (demo_send "jobs" "three" "" "")) demo_first.2).2.
Definition demo_second := @receive_messages_once demo_env demo_one None demo_between.
Lemma demo_first_eq : got_eq demo_one demo_world demo_first.
Proof. vm_compute. reflexivity. Qed.
Lemma demo_second_eq : got_eq demo_one demo_between demo_second.
Proof. vm_compute. reflexivity. Qed.
Definition first_id (got : outcome (list ReceivedMessage * Z * QueueIdentity) * World) : string :=
  match (received_of got.1).1.1 with [r] => rm_message_id r | _ => "" end.

Lemma receive_exclusive_witness :
  length (received_of demo_first.1).1.1 = 1%nat /\ length (received_of demo_second.1).1.1 = 1%nat
  /\ first_id demo_second <> first_id demo_first.
Proof.
  assert (exists r, (received_of demo_first.1).1.1 = [r]) as [r Hr] by (vm_compute; eauto).
  assert (exists r, (received_of demo_second.1).1.1 = [r]) as [r2 Hr2] by (vm_compute; eauto).
  unfold first_id. rewrite Hr, Hr2. split_and!; [done..|].
  assert (exists q, w_queues demo_world !! "jobs" = Some q) as [q Hq] by (vm_compute; eauto).
  eapply (@receive_exclusive demo_env demo_one None demo_world _ _ _ demo_first.2 demo_between demo_one None _ _ _ demo_second.2 q
    demo_ready10 demo_first_eq Hq).
  - apply (@calls_one demo_env); [constructor|vm_compute; reflexivity|reflexivity|].
    vm_compute in Hq. injection Hq as <-. vm_compute. reflexivity.
  - vm_compute. reflexivity.
  - vm_compute in Hq. injection Hq as <-. vm_compute. reflexivity.
  - exact demo_second_eq.
  - rewrite Hr. apply list_elem_of_here.
  - rewrite Hr2. apply list_elem_of_here.
Defined.

Lemma send_message_outcomes_witness :
  @send_spec demo_env (demo_send "jobs" "three" "" "") demo_world
    (@send_message demo_env (demo_send "jobs" "three" "" "") demo_world).1
    (@send_message demo_env (demo_send "jobs" "three" "" "") demo_world).2.
Proof.
  apply (@send_message_outcomes demo_env). eapply ready_le; [|exact demo_ready]. lia.
Defined.

(** The same order sent twice. *)
Definition demo_order : SendMessageRequest := demo_send "orders.fifo" "third" "g" "d3".
Definition sent_of (o : outcome MessageState) : MessageState :=
  match o with Ok m => m | _ => default_message end.
Definition demo_sent := @send_message demo_env demo_order demo_world.
Definition demo_resent := @send_message demo_env (demo_send "orders.fifo" "again" "g" "d3") demo_sent.2.

Lemma fifo_deduplicates_witness : sent_of demo_resent.1 = sent_of demo_sent.1.
Proof.
  apply (@fifo_deduplicates demo_env demo_order (demo_send "orders.fifo" "again" "g" "d3") demo_world
    (sent_of demo_sent.1) demo_sent.2 (sent_of demo_resent.1) demo_resent.2
    (demo_queue "orders.fifo" demo_world)).
  - eapply ready_le; [|exact demo_ready]. lia.
  - vm_compute. reflexivity.
  - vm_compute. reflexivity.
  - vm_compute. discriminate.
  - vm_compute. reflexivity.
  - vm_compute. reflexivity.
  - reflexivity.
  - reflexivity.
  - vm_compute. reflexivity.
  - vm_compute. reflexivity.
Defined.

Lemma delete_message_outcomes_witness :
  exists q i m, w_queues demo_w2 !! "jobs" = Some q /\ holder q demo_handle i m.
Proof.
  pose proof (@delete_message_outcomes demo_env (demo_url "jobs") demo_handle demo_w2 (Ok tt)
    (@delete_message demo_env (demo_url "jobs") demo_handle demo_w2).2 demo_clock) as Hd.
  destruct Hd as (q & i & m & Hq & Hh & _); [vm_compute; reflexivity|].
  exists q, i, m. split; [exact Hq|exact Hh].
Defined.

(** One handle twice and an unknown one in a batch. *)
Definition demo_deletes : list DeleteMessageBatchEntry :=
  [mkDeleteEntry "a" demo_handle; mkDeleteEntry "b" demo_handle; mkDeleteEntry "c" "nope"].
Lemma batch_outcomes_witness :
  @batch_spec ack_labels ["a"; "b"; "c"] demo_w2
    (@delete_message_batch demo_env (demo_url "jobs") demo_deletes demo_w2).1
    (@delete_message_batch demo_env (demo_url "jobs") demo_deletes demo_w2).2.
Proof. exact (proj1 (@batch_outcomes demo_env (demo_url "jobs") demo_deletes [] demo_w2 demo_clock)). Defined.

Definition demo_arn (name : string) : string := "arn:aws:sqs:us-east-1:000000000000:" +:+ name.
Definition demo_moved := @start_message_move_task demo_env (demo_arn "jobs") (demo_arn "orders.fifo") demo_w2.
Definition task_of (o : outcome MoveTaskState) : MoveTaskState :=
  match o with Ok t => t | _ => mkTask "" "" "" "" "" 0 end.
Lemma move_task_exact_witness :
  approximate_number_of_messages_moved (task_of demo_moved.1) = 2
  /\ tokens id_token (w_queues demo_moved.2) ≡ₚ tokens id_token (w_queues demo_w2).
Proof.
  split; [vm_compute; reflexivity|].
  pose proof (@move_task_exact demo_env (demo_arn "jobs") (demo_arn "orders.fifo") demo_w2 (Ok (task_of demo_moved.1)) demo_moved.2 demo_clock) as Hm.
  destruct Hm as (source & q0 & _ & _ & _ & _ & _ & _ & _ & _ & Hp); [vm_compute; reflexivity|]. exact Hp.
Defined.

Lemma cleanup_exact_witness :
  exists q', @cleanup_expired_messages demo_env (demo_queue "jobs" demo_world) "2027-01-01T00:00:00Z" = Ok q'.
Proof.
  destruct (@cleanup_exact demo_env (demo_queue "jobs" demo_world) "2027-01-01T00:00:00Z") as (q' & Hq' & _).
  - unfold dated. vm_compute. split; [discriminate|reflexivity].
  - apply (bool_decide_unpack _). vm_compute. exact I.
  - exists q'. exact Hq'.
Defined.

Definition demo_undated : QueueState :=
  set_messages [mkMsg "msg-1" "old" "" ∅ ∅ ZERO_TIME ZERO_TIME ZERO_TIME 0 ZERO_TIME "" false "" "" "" ""]
    (demo_queue "jobs" demo_world).
Lemma cleanup_unset_date_witness :
  @cleanup_expired_messages demo_env demo_undated "2027-01-01T00:00:00Z" = Panic "arithmetic overflow".
Proof.
  apply (@cleanup_unset_date demo_env demo_undated "2027-01-01T00:00:00Z"
    (mkMsg "msg-1" "old" "" ∅ ∅ ZERO_TIME ZERO_TIME ZERO_TIME 0 ZERO_TIME "" false "" "" "" "")).
  - unfold dated. vm_compute. split; [discriminate|reflexivity].
  - reflexivity.
  - reflexivity.
  - reflexivity.
  - vm_compute. reflexivity.
Defined.

(** ** Witnesses of the queue-level theorems *)

#[export] Instance attr_short_dec (e : Env) p : Decision (@attr_short e p).
Proof. unfold attr_short, short. apply _. Defined.

(** An attribute map, and one that differs in a field the digest does not cover. *)
Definition demo_attr (s : string) (l : list string) : MessageAttributeValue := mkAttr "String" s "" l [].
Definition demo_attrs (l : list string) : gmap string MessageAttributeValue :=
  <["kind" := demo_attr "a" l]> (<["lang" := demo_attr "b" []]> ∅).
Lemma md5_payload_unambiguous_witness :
  @attr_view demo_env <$> btree_iter (demo_attrs []) = @attr_view demo_env <$> btree_iter (demo_attrs ["x"]).
Proof.
  apply (@md5_payload_unambiguous demo_env (demo_attrs []) (demo_attrs ["x"]));
    [apply (bool_decide_unpack _); vm_compute; exact I
    |apply (bool_decide_unpack _); vm_compute; exact I|vm_compute; reflexivity].
Defined.

(** A persisting server with the demo's queues, just after it wrote its state. *)
Definition stored_config : Config :=
  mkConfig "127.0.0.1:9324" "" "" "" "" "" "" "/data" 0 0 0 0 0 0 0.
Definition stored_server : Server :=
  mkServer stored_config (queues (server demo_world)) (move_tasks (server demo_world)) None.
Definition after_persist (s : Server) : World :=
  mkWorld s (Some (@to_json_bytes demo_env (persisted_ref s))) 0 0 0.

Lemma demo_serde : @serde_roundtrip demo_env.
Proof.
  intros p. unfold to_json_bytes. simpl. by rewrite pos_of_to_string, decode_encode.
Qed.

#[export] Instance set_time_dec t : Decision (set_time t).
Proof. unfold set_time. apply _. Defined.
#[export] Instance loadable_dec p : Decision (loadable p).
Proof. destruct p as [k q]. unfold loadable. apply _. Defined.
#[export] Instance loadable_task_dec p : Decision (loadable_task p).
Proof. unfold loadable_task. apply _. Defined.

Lemma restart_restores_witness :
  server (@new demo_env (config stored_server) (after_persist stored_server)).2
  = mkServer (config stored_server) (queues stored_server) (move_tasks stored_server) None.
Proof.
  assert (storage_off (config stored_server) = false) as H1 by (vm_compute; reflexivity).
  assert (Forall loadable (btree_iter (queues stored_server))) as H2
    by (apply (bool_decide_unpack _); vm_compute; exact I).
  assert (Forall loadable_task (btree_iter (move_tasks stored_server))) as H3
    by (apply (bool_decide_unpack _); vm_compute; exact I).
  revert H1 H2 H3. generalize stored_server as s. intros s H1 H2 H3.
  pose proof (@restart_restores demo_env (after_persist s) demo_serde H1 eq_refl H2 H3 eq_refl) as Hr.
  cbn [server after_persist] in Hr. revert Hr.
  destruct (@new demo_env (config s) (after_persist s)) as [o w']. by intros [_ Hr].
Defined.
