(* ===== verification/Json.v ===== *)
(** JSON values as the services use them, and the services' writer on top of
    [serde_json].  [Value] is [serde_json::Value] built without [preserve_order]:
    an object is a [BTreeMap], kept as its entries in key order.  A struct is
    serialised as an object with its fields in declaration order, the fields with a
    true [skip_serializing_if] left out.  The crate's serialiser
    ([serde_json::to_vec]) is a parameter, [json_to_vec]. *)

From S2P Require Import Prelude RustStr RustNum.
Local Open Scope string_scope.
Local Open Scope Z_scope.

(** ** JSON values *)

(** [serde_json::Number]; a float is its IEEE-754 bits (never NaN or infinite). *)
Inductive number :=
| PosInt (n : Z)
| NegInt (n : Z)
| Float (bits : Z).

Inductive Value :=
| JNull
| JBool (b : bool)
| JNumber (n : number)
| JString (s : string)
| JArray (l : list Value)
| JObject (m : list (string * Value)).

Section ValueInd.
  Context (P : Value -> Prop).
  Context (HNull : P JNull) (HBool : forall b, P (JBool b)) (HNum : forall n, P (JNumber n))
    (HStr : forall s, P (JString s)) (HArr : forall l, Forall P l -> P (JArray l))
    (HObj : forall m, Forall (fun e => P e.2) m -> P (JObject m)).

(** Induction through arrays and objects. *)
Fixpoint value_ind' (v : Value) : P v :=
  match v with
  | JNull => HNull
  | JBool b => HBool b
  | JNumber n => HNum n
  | JString s => HStr s
  | JArray l => HArr l ((fix go l := match l return Forall P l with
                          | [] => Forall_nil_2 P
                          | x :: r => Forall_cons_2 P x r (value_ind' x) (go r)
                          end) l)
  | JObject m => HObj m ((fix go m := match m return Forall (fun e => P e.2) m with
                          | [] => Forall_nil_2 _
                          | x :: r => Forall_cons_2 (fun e => P e.2) x r (value_ind' x.2) (go r)
                          end) m)
  end.
End ValueInd.

Definition as_object (v : Value) : option (list (string * Value)) :=
  match v with JObject m => Some m | _ => None end.
Definition as_array (v : Value) : option (list Value) :=
  match v with JArray l => Some l | _ => None end.
Definition as_str (v : Value) : option string :=
  match v with JString s => Some s | _ => None end.
Definition as_bool (v : Value) : option bool :=
  match v with JBool b => Some b | _ => None end.
Definition is_object (v : Value) : bool := bool_decide (is_Some (as_object v)).
Definition is_string (v : Value) : bool := bool_decide (is_Some (as_str v)).
Definition is_boolean (v : Value) : bool := bool_decide (is_Some (as_bool v)).

(** [obj.get(k)] and [obj.contains_key(k)] *)
Fixpoint obj_get (k : string) (m : list (string * Value)) : option Value :=
  match m with
  | [] => None
  | (k', v) :: r => if str_eqb k k' then Some v else obj_get k r
  end.
Definition obj_contains (k : string) (m : list (string * Value)) : bool :=
  bool_decide (is_Some (obj_get k m)).
(** [map.insert(k, v)] *)
Fixpoint obj_insert (k : string) (v : Value) (m : list (string * Value)) : list (string * Value) :=
  match m with
  | [] => [(k, v)]
  | (k', v') :: r =>
      match String.compare k k' with
      | Lt => (k, v) :: m
      | Eq => (k, v) :: r
      | Gt => (k', v') :: obj_insert k v r
      end
  end.
Definition obj_remove (k : string) (m : list (string * Value)) : list (string * Value) :=
  List.filter (fun e => negb (str_eqb k e.1)) m.

(** [value.get(k)] and [as_str] of the member, as [as_object().and_then(..)] chains. *)
Definition member (k : string) (v : Value) : option Value := m ← as_object v; obj_get k m.
Definition str_member (k : string) (v : Value) : option string := member k v ≫= as_str.
Definition arr_member (k : string) (v : Value) : option (list Value) := member k v ≫= as_array.
Definition obj_member (k : string) (v : Value) : option (list (string * Value)) := member k v ≫= as_object.

(** [json!({ k: v })] *)
Definition json1 (k : string) (v : Value) : Value := JObject [(k, v)].
Definition json_strings (l : list string) : Value := JArray (map JString l).

(** [PartialEq for Value]: floats compare as numbers, so the two zeros are equal. *)
Definition float_zero (bits : Z) : bool := (bits =? 0) || (bits =? 2 ^ 63).
Definition number_eqb (a b : number) : bool :=
  match a, b with
  | PosInt x, PosInt y | NegInt x, NegInt y => x =? y
  | Float x, Float y => (x =? y) || (float_zero x && float_zero y)
  | _, _ => false
  end.
Fixpoint value_eqb (a b : Value) : bool :=
  match a, b with
  | JNull, JNull => true
  | JBool x, JBool y => Bool.eqb x y
  | JNumber x, JNumber y => number_eqb x y
  | JString x, JString y => str_eqb x y
  | JArray l, JArray l' =>
      (fix go l l' := match l, l' with
       | [], [] => true
       | x :: r, y :: r' => value_eqb x y && go r r'
       | _, _ => false
       end) l l'
  | JObject m, JObject m' =>
      (fix go m m' := match m, m' with
       | [], [] => true
       | (k, x) :: r, (k', y) :: r' => str_eqb k k' && value_eqb x y && go r r'
       | _, _ => false
       end) m m'
  | _, _ => false
  end.

(** ** Structs as objects *)

Definition field (k : string) (v : Value) : option (string * Value) := Some (k, v).
Definition skip_if (b : bool) (k : string) (v : Value) : option (string * Value) :=
  if b then None else Some (k, v).
Definition struct_value (fields : list (option (string * Value))) : Value := JObject (omap id fields).

(** An [i64] as a JSON number. *)
Definition int_value (n : Z) : Value := JNumber (if 0 <=? n then PosInt n else NegInt n).
Definition nil_b {A} (l : list A) : bool := match l with [] => true | _ => false end.
Definition map_value {V} (f : V -> Value) (m : gmap string V) : Value :=
  JObject (map (fun e => (e.1, f e.2)) (btree_iter m)).
Definition opt_field {A} (k : string) (f : A -> Value) (o : option A) : option (string * Value) :=
  match o with Some a => Some (k, f a) | None => None end.
Definition str_field (k s : string) : option (string * Value) := skip_if (is_empty s) k (JString s).

Definition list_field {A} (k : string) (f : A -> Value) (l : list A) : option (string * Value) :=
  skip_if (nil_b l) k (JArray (map f l)).

(** [serde_json::to_value]: a struct becomes a [Map], in key order. *)
Fixpoint to_value (v : Value) : Value :=
  match v with
  | JArray l => JArray (map to_value l)
  | JObject m => JObject (foldr (fun e acc => obj_insert e.1 (to_value e.2) acc) [] m)
  | _ => v
  end.

(** ** The serialiser *)

(** [serde_json::to_vec], of a JSON value. *)
Class SerdeJson := { json_to_vec : Value -> string }.

(** wire_json.rs: [<], [>], [&] and the two Unicode line separators, as
    [encoding/json] escapes them. *)
Definition line_separator (last : Z) : string := bytes_str [226; 128; last].
Fixpoint html_escape (s : string) : string :=
  match s with
  | EmptyString => EmptyString
  | String c r =>
      if Ascii.eqb c "<" then "\u003c" +:+ html_escape r
      else if Ascii.eqb c ">" then "\u003e" +:+ html_escape r
      else if Ascii.eqb c "&" then "\u0026" +:+ html_escape r
      else match r with
           | String c1 (String c2 r2) =>
               if str_eqb (String c (String c1 (char_str c2))) (line_separator 168)
               then "\u2028" +:+ html_escape r2
               else if str_eqb (String c (String c1 (char_str c2))) (line_separator 169)
               then "\u2029" +:+ html_escape r2
               else String c (html_escape r)
           | _ => String c (html_escape r)
           end
  end.
Definition marshal `{SerdeJson} (v : Value) : string := html_escape (json_to_vec v).
Definition to_vec `{SerdeJson} (v : Value) : string := html_escape (json_to_vec v) +:+ char_str lf.

(** ** Lemmas *)

Lemma obj_get_json1 k v : member k (json1 k v) = Some v.
Proof. unfold member, json1. cbn. unfold str_eqb. by rewrite bool_decide_true. Qed.
Lemma obj_get_json1_ne k k' v : k <> k' -> member k (json1 k' v) = None.
Proof. intros Hk. unfold member, json1. cbn. unfold str_eqb. by rewrite bool_decide_false. Qed.

Lemma number_eqb_refl n : number_eqb n n = true.
Proof. destruct n; simpl; rewrite ?Z.eqb_refl; done. Qed.
Lemma str_eqb_refl s : str_eqb s s = true.
Proof. by apply str_eqb_true. Qed.
Lemma value_eqb_refl v : value_eqb v v = true.
Proof.
  induction v using value_ind'; simpl; rewrite ?str_eqb_refl, ?number_eqb_refl; try done.
  - by destruct b.
  - induction H as [|x l -> _ IH]; [done|]. by rewrite IH.
  - induction H as [|[k x] l Hx _ IH]; [done|]. simpl in Hx. by rewrite str_eqb_refl, Hx, IH.
Qed.

(** Equality of values without numbers is equality. *)
Fixpoint no_number (v : Value) : bool :=
  match v with
  | JNumber _ => false
  | JArray l => forallb no_number l
  | JObject m => forallb (fun e => no_number e.2) m
  | _ => true
  end.
Lemma value_eqb_true v w : no_number v = true -> value_eqb v w = true -> v = w.
Proof.
  revert w. induction v using value_ind'; intros w Hn; destruct w; simpl in *; try done.
  - by intros ->%Bool.eqb_prop.
  - by intros ->%str_eqb_true.
  - intros Heq. f_equal. revert l0 Hn Heq.
    induction H as [|x l Hx _ IH]; intros [|y l']; try done. simpl.
    intros [Hn1 Hn2]%andb_true_iff [H1 H2]%andb_true_iff. f_equal; auto.
  - intros Heq. f_equal. revert m0 Hn Heq.
    induction H as [|[k x] l Hx _ IH]; intros [|[k' y] l']; try done. simpl.
    intros [Hn1 Hn2]%andb_true_iff [[->%str_eqb_true H1]%andb_true_iff H2]%andb_true_iff.
    f_equal; [f_equal; auto|auto].
Qed.
