(* ===== verification/DynNumber.v ===== *)
(** Decimal numbers of the DynamoDB service (src/services/dynamodb/src/number.rs):
    parsing of [N] attribute values, comparison, addition and negation on decimal
    digit strings, and the formatting of results.  The value of a [Decimal] is the
    rational [value]; the theorems show that comparison and arithmetic on the
    digit strings are exact. *)

From Stdlib Require Import QArith Qpower.
From S2P Require Import Prelude RustStr RustNum.
Local Open Scope string_scope.
Local Open Scope Z_scope.

(** ** Magnitudes: unsigned decimal digit strings *)

Section Magnitudes.

(** [s.trim_start_matches('0')], [0] when nothing is left. *)
Definition normalize_mag (s : string) : string :=
  let trimmed := trim_start_by (Ascii.eqb "0") s in
  if is_empty trimmed then "0" else trimmed.

Definition cmp_mag (a b : string) : comparison :=
  let a := normalize_mag a in
  let b := normalize_mag b in
  match Z.compare (str_len a) (str_len b) with
  | Eq => String.compare a b
  | ord => ord
  end.

(** The digit at the cursor and what is left, for a cursor that moves down a
    byte string: the string is given reversed, and a spent one yields 0. *)
Definition next_digit (s : string) : Z * string :=
  match s with
  | EmptyString => (0, EmptyString)
  | String c s' => (byte_of c - 48, s')
  end.

(** The loop [while i > 0 || j > 0 || carry > 0]; the result is [out] as it is
    pushed, least significant digit first. *)
Fixpoint add_loop (fuel : nat) (a b : string) (carry : Z) : string :=
  match fuel with
  | O => EmptyString
  | S fuel' =>
      if is_empty a && is_empty b && (carry <=? 0) then EmptyString
      else
        let '(da, a') := next_digit a in
        let '(db, b') := next_digit b in
        let sum := da + db + carry in
        String (of_byte (48 + sum mod 10)) (add_loop fuel' a' b' (sum / 10))
  end.

(** Each round consumes a digit of the longer operand, and one more round is
    needed for a last carry. *)
Definition add_mag (a b : string) : string :=
  let fuel := S (Nat.max (String.length a) (String.length b)) in
  normalize_mag (str_rev (add_loop fuel (str_rev a) (str_rev b) 0)).

Fixpoint sub_loop (a b : string) (borrow : Z) : string :=
  match a with
  | EmptyString => EmptyString
  | String c a' =>
      let da := byte_of c - 48 in
      let '(db, b') := next_digit b in
      let diff := da - db - borrow in
      if diff <? 0 then String (of_byte (48 + (diff + 10))) (sub_loop a' b' 1)
      else String (of_byte (48 + diff)) (sub_loop a' b' 0)
  end.
Definition sub_mag (a b : string) : string :=
  normalize_mag (str_rev (sub_loop (str_rev a) (str_rev b) 0)).

Definition increment_mag (a : string) : string := add_mag a "1".

(** [for _ in 0..n { digits.push('0') }] *)
Definition push_zeros (n : Z) (digits : string) : string :=
  digits +:+ str_repeat (Z.to_nat n) "0".

End Magnitudes.

(** ** Decimals *)

Section Decimals.

(** [coeff] is a digit string without leading zeros, [scale] a [u32]. *)
Record Decimal := mkDecimal {
  negative : bool;
  coeff : string;
  scale : Z }.

Definition zero : Decimal := mkDecimal false "0" 0.
Definition is_zero (d : Decimal) : bool := str_eqb (coeff d) "0".
Definition coeff_at_scale (d : Decimal) (target : Z) : string :=
  normalize_mag (push_zeros (target - scale d) (coeff d)).

Definition is_integer (d : Decimal) : bool :=
  if scale d =? 0 then true
  else
    let len := str_len (coeff d) in
    if wrap_u 32 len <=? scale d then str_eqb (coeff d) "0"
    else str_all (Ascii.eqb "0") (str_drop (len - scale d) (coeff d)).

Definition integer_string (d : Decimal) : string :=
  let len := str_len (coeff d) in
  let int_digits :=
    if wrap_u 32 len <=? scale d then "0"
    else normalize_mag (str_take (len - scale d) (coeff d)) in
  if negative d && negb (str_eqb int_digits "0") then String "-" int_digits else int_digits.

Definition round_to (d : Decimal) (precision : Z) : string * bool :=
  if scale d <=? precision then
    (normalize_mag (push_zeros (precision - scale d) (coeff d)), negative d)
  else
    let drop := scale d - precision in
    let len := str_len (coeff d) in
    let kept := if len <=? drop then "0" else str_take (len - drop) (coeff d) in
    let first_dropped :=
      if drop <=? len then String.get (Z.to_nat (len - drop)) (coeff d) else Some "0"%char in
    let round_up :=
      match first_dropped with Some c => byte_of "5" <=? byte_of c | None => false end in
    let result :=
      if round_up then increment_mag (normalize_mag kept) else normalize_mag kept in
    (result, negative d).

(** [while padded.len() as u32 <= precision { padded.insert(0, '0') }] pads to
    one digit more than [precision]. *)
Definition float_string_trimmed (d : Decimal) (precision : Z) : string :=
  let '(rounded, neg) := round_to d precision in
  let padded := pad_left (S (Z.to_nat precision)) "0" rounded in
  let split := str_len padded - precision in
  let int_part := normalize_mag (str_take split padded) in
  let frac_part := str_drop split padded in
  let out := if precision =? 0 then int_part else int_part +:+ "." +:+ frac_part in
  let out :=
    if contains "." out then
      let out := trim_end_by (Ascii.eqb "0") out in
      match strip_suffix "." out with Some r => r | None => out end
    else out in
  if neg && negb (str_eqb out "0") then String "-" out else out.

(** ** Parsing *)

(** [while idx < bytes.len() && bytes[idx].is_ascii_digit()] *)
Fixpoint take_digits (s : string) : string * string :=
  match s with
  | String c s' =>
      if is_ascii_digit c then let '(ds, r) := take_digits s' in (String c ds, r)
      else (EmptyString, s)
  | EmptyString => (EmptyString, EmptyString)
  end.

(** An optional sign: is it [-], and what follows. *)
Definition take_sign (s : string) : bool * string :=
  match s with
  | String c s' => if Ascii.eqb c "+" || Ascii.eqb c "-" then (Ascii.eqb c "-", s') else (false, s)
  | EmptyString => (false, s)
  end.

(** The optional exponent: its value and what follows. *)
Definition take_exponent (s : string) : option (Z * string) :=
  match s with
  | String c s' =>
      if Ascii.eqb c "e" || Ascii.eqb c "E" then
        let '(exp_neg, s') := take_sign s' in
        let '(exp_digits, rest) := take_digits s' in
        if is_empty exp_digits then None
        else exp ← parse_i64 exp_digits; Some (if exp_neg then - exp else exp, rest)
      else Some (0, s)
  | EmptyString => Some (0, s)
  end.

(** The fraction digits after an optional point. *)
Definition take_fraction (s : string) : string * string :=
  match s with
  | String c s' => if Ascii.eqb c "." then take_digits s' else (EmptyString, s)
  | EmptyString => (EmptyString, s)
  end.

(** [coeff · 10^total_exp] with the exponent moved into the coefficient or the
    scale; [(-total_exp) as u32] truncates. *)
Definition place_exponent (mantissa : string) (total_exp : Z) : string * Z :=
  if 0 <=? total_exp then (normalize_mag (push_zeros total_exp mantissa), 0)
  else (mantissa, wrap_u 32 (- total_exp)).

(** [exp - frac_len] is a 64-bit subtraction that wraps around in the release
    build. *)
Definition parse (s : string) : option Decimal :=
  let s := trim s in
  if is_empty s then None
  else
    let '(neg, s) := take_sign s in
    let '(int_digits, s) := take_digits s in
    let '(frac_digits, s) := take_fraction s in
    if is_empty int_digits && is_empty frac_digits then None
    else
      '(exp, s) ← take_exponent s;
      if negb (is_empty s) then None
      else
        let frac_len := str_len frac_digits in
        let mantissa := normalize_mag (int_digits +:+ frac_digits) in
        let total_exp := wrap_s 64 (exp - frac_len) in
        let '(coeff, scale) := place_exponent mantissa total_exp in
        Some (mkDecimal (neg && negb (str_eqb coeff "0")) coeff scale).

Definition is_valid_number (s : string) : bool := bool_decide (is_Some (parse s)).

(** ** Comparison and arithmetic *)

Definition compare (a b : Decimal) : comparison :=
  if is_zero a && is_zero b then Eq
  else
    match negative a, negative b with
    | false, true => Gt
    | true, false => Lt
    | _, _ =>
        let s := Z.max (scale a) (scale b) in
        let mag := cmp_mag (coeff_at_scale a s) (coeff_at_scale b s) in
        if negative a then CompOpp mag else mag
    end.

Definition compare_number_strings (left right : string) : comparison :=
  match parse left, parse right with
  | Some a, Some b => compare a b
  | _, _ => String.compare left right
  end.

Definition decimal_places (value : string) : Z :=
  match split_once "." value with
  | Some (before, _) => wrap_u 32 (str_len value - str_len before - 1)
  | None => 0
  end.

Definition add (a b : Decimal) : Decimal :=
  let s := Z.max (scale a) (scale b) in
  let am := coeff_at_scale a s in
  let bm := coeff_at_scale b s in
  if Bool.eqb (negative a) (negative b) then
    let mag := add_mag am bm in
    mkDecimal (negative a && negb (str_eqb mag "0")) mag s
  else
    match cmp_mag am bm with
    | Eq => zero
    | Gt =>
        let mag := sub_mag am bm in
        mkDecimal (negative a && negb (str_eqb mag "0")) mag s
    | Lt =>
        let mag := sub_mag bm am in
        mkDecimal (negative b && negb (str_eqb mag "0")) mag s
    end.

Definition format_sum (value : Decimal) (lexical_precision : Z) : string :=
  if is_integer value then integer_string value
  else float_string_trimmed value (Z.max lexical_precision 1).

Definition invalid_number (s : string) : string :=
  "invalid number " +:+ char_str dquote +:+ s +:+ char_str dquote.

Definition add_number_strings (left right : string) : outcome string :=
  a ← ok_or (invalid_number left) (parse left);
  b ← ok_or (invalid_number right) (parse right);
  let sum := add a b in
  mret (format_sum sum (Z.max (decimal_places left) (decimal_places right))).

Definition negate_number_string (value : string) : outcome string :=
  d ← ok_or (invalid_number value) (parse value);
  let d := if negb (is_zero d) then mkDecimal (negb (negative d)) (coeff d) (scale d) else d in
  mret (format_sum d (decimal_places value)).

End Decimals.

(** The unit tests of number.rs. *)
Example add_number_strings_tests :
  map (fun p => add_number_strings p.1 p.2)
    [("1", "2"); ("10", "-3"); ("1000000000000000000", "1"); ("1.5", "2.25"); ("100", "0.001");
     ("-1.5", "-2.5"); ("0.0000001", "0.0000002")]
  = [Ok "3"; Ok "7"; Ok "1000000000000000001"; Ok "3.75"; Ok "100.001"; Ok "-4"; Ok "0.0000003"].
Proof. vm_compute. reflexivity. Qed.
Example negate_number_string_tests :
  map negate_number_string ["5"; "1.5"; "-2.25"; "0"; "0.10"]
  = [Ok "-5"; Ok "-1.5"; Ok "2.25"; Ok "0"; Ok "-0.1"].
Proof. vm_compute. reflexivity. Qed.
Example compare_number_strings_tests :
  map (fun p => compare_number_strings p.1 p.2)
    [("9", "10"); ("3.5", "3.50"); ("-1", "0"); ("1e2", "100"); ("0.1", "0.2")]
  = [Lt; Eq; Lt; Eq; Lt].
Proof. vm_compute. reflexivity. Qed.
Example is_valid_number_tests :
  map is_valid_number ["1"; "-3.14"; "1e2"; ".5"; "abc"; "1.2.3"; ""; "1e"]
  = [true; true; true; true; false; false; false; false].
Proof. vm_compute. reflexivity. Qed.

(** ** Values of digit strings *)

Fixpoint mag_from (acc : Z) (s : string) : Z :=
  match s with
  | EmptyString => acc
  | String c s' => mag_from (acc * 10 + (byte_of c - 48)) s'
  end.
Definition mag (s : string) : Z := mag_from 0 s.

(** The value of a digit string, least significant digit first. *)
Fixpoint lmag (s : string) : Z :=
  match s with EmptyString => 0 | String c s' => (byte_of c - 48) + 10 * lmag s' end.

Abbreviation digits s := (str_all is_ascii_digit s = true).

(** A digit string as [normalize_mag] leaves it. *)
Definition normal (s : string) : Prop := digits s /\ normalize_mag s = s.

Section MagnitudeLemmas.

Lemma digit_range c : is_ascii_digit c = true <-> 48 <= byte_of c <= 57.
Proof. unfold is_ascii_digit, in_range. rewrite andb_true_iff, !Z.leb_le. done. Qed.

Lemma digit_of_byte d : 0 <= d <= 9 -> is_ascii_digit (of_byte (48 + d)) = true.
Proof. intros Hd. apply digit_range. rewrite byte_of_of; lia. Qed.

Lemma digits_cons c s : digits (String c s) <-> 48 <= byte_of c <= 57 /\ digits s.
Proof. cbn [str_all]. by rewrite andb_true_iff, digit_range. Qed.
Lemma digits_app s t : digits (s +:+ t) <-> digits s /\ digits t.
Proof. by rewrite str_all_app, andb_true_iff. Qed.
Lemma digits_rev s : digits (str_rev s) <-> digits s.
Proof. by rewrite str_all_rev. Qed.
Lemma digits_repeat n : digits (str_repeat n "0").
Proof. by apply str_all_repeat. Qed.

Lemma pow10_pos n : 0 <= n -> 0 < 10 ^ n.
Proof. intros. by apply Z.pow_pos_nonneg. Qed.

Lemma mag_from_spec acc s : mag_from acc s = acc * 10 ^ str_len s + mag s.
Proof.
  unfold mag. revert acc. induction s as [|c s IH]; intros acc; cbn [mag_from].
  - change (str_len EmptyString) with 0. lia.
  - rewrite str_len_cons, Z.pow_add_r by (pose proof (str_len_nonneg s); lia).
    rewrite IH, (IH (0 * 10 + _)). lia.
Qed.

Lemma mag_cons c s : mag (String c s) = (byte_of c - 48) * 10 ^ str_len s + mag s.
Proof. unfold mag at 1. cbn [mag_from]. rewrite mag_from_spec. lia. Qed.

Lemma mag_app s t : mag (s +:+ t) = mag s * 10 ^ str_len t + mag t.
Proof.
  induction s as [|c s IH].
  - rewrite str_app_nil_l. change (mag EmptyString) with 0. lia.
  - rewrite str_app_cons, !mag_cons, IH, str_len_app, Z.pow_add_r by apply str_len_nonneg. lia.
Qed.

Lemma mag_rev s : mag (str_rev s) = lmag s.
Proof.
  induction s as [|c s IH]; [done|]. rewrite str_rev_cons, mag_app, IH. cbn [lmag].
  change (str_len (char_str c)) with 1. unfold mag, char_str. cbn [mag_from]. lia.
Qed.

Lemma mag_range s : digits s -> 0 <= mag s < 10 ^ str_len s.
Proof.
  induction s as [|c s IH]; intros Hs.
  - change (mag EmptyString) with 0. change (str_len EmptyString) with 0. lia.
  - apply digits_cons in Hs as [Hc Hs]. specialize (IH Hs). rewrite mag_cons, str_len_cons.
    rewrite Z.pow_add_r by (pose proof (str_len_nonneg s); lia). nia.
Qed.

Lemma lmag_nonneg s : digits s -> 0 <= lmag s.
Proof. intros Hs. rewrite <- mag_rev. apply mag_range. by apply digits_rev. Qed.

Lemma mag_repeat n : mag (str_repeat n "0") = 0.
Proof. induction n as [|n IH]; [done|]. cbn [str_repeat]. rewrite mag_cons, IH. done. Qed.

Lemma str_len_repeat n c : str_len (str_repeat n c) = Z.of_nat n.
Proof. unfold str_len. by rewrite str_length_repeat. Qed.

Lemma push_zeros_spec n s :
  0 <= n -> digits s -> digits (push_zeros n s) /\ mag (push_zeros n s) = mag s * 10 ^ n.
Proof.
  intros Hn Hs. unfold push_zeros. split.
  - apply digits_app. split; [done|apply digits_repeat].
  - rewrite mag_app, mag_repeat, str_len_repeat, Z2Nat.id by done. lia.
Qed.

(** What [normalize_mag] removes. *)
Lemma normalize_split s :
  exists n, s = str_repeat n "0" +:+ trim_start_by (Ascii.eqb "0") s
    /\ match trim_start_by (Ascii.eqb "0") s with String c _ => c <> "0"%char | _ => True end.
Proof.
  induction s as [|c s (n & IH & Hh)].
  - exists 0%nat. done.
  - cbn [trim_start_by]. destruct (Ascii.eqb_spec "0" c) as [<-|Hc].
    + exists (S n). cbn [str_repeat]. rewrite str_app_cons. by rewrite <- IH.
    + exists 0%nat. split; [by rewrite str_app_nil_l|congruence].
Qed.

Lemma normalize_spec s : digits s -> normal (normalize_mag s) /\ mag (normalize_mag s) = mag s.
Proof.
  intros Hs. destruct (normalize_split s) as (n & Hn & Hh). unfold normal, normalize_mag.
  rewrite Hn in Hs. apply digits_app in Hs as [_ Hs].
  assert (mag s = mag (trim_start_by (Ascii.eqb "0") s)) as ->
    by (rewrite Hn at 1; rewrite mag_app, mag_repeat; lia).
  destruct (trim_start_by (Ascii.eqb "0") s) as [|c r] eqn:E; cbn [is_empty]; [done|].
  assert (Ascii.eqb "0" c = false) as Hc by (by apply Ascii.eqb_neq; congruence).
  split_and!; [done| |done]. cbn [trim_start_by]. by rewrite Hc.
Qed.

Lemma normal_digits s : normal s -> digits s.
Proof. by intros [? _]. Qed.
Lemma normalize_normal s : digits s -> normal (normalize_mag s).
Proof. apply normalize_spec. Qed.
Lemma mag_normalize s : digits s -> mag (normalize_mag s) = mag s.
Proof. apply normalize_spec. Qed.
Lemma normal_zero : normal "0".
Proof. done. Qed.

(** A normal magnitude is [0] or has a value of its full width. *)
Lemma normal_cases s :
  normal s -> s = "0" \/ (1 <= str_len s /\ 10 ^ (str_len s - 1) <= mag s).
Proof.
  intros [Hs Hn]. destruct s as [|c s]; [done|].
  apply digits_cons in Hs as [Hc Hs]. unfold normalize_mag in Hn. cbn [trim_start_by] in Hn.
  destruct (Ascii.eqb_spec "0" c) as [<-|Hne].
  - left. destruct (normalize_split s) as (n & Hsp & Hh).
    destruct (trim_start_by (Ascii.eqb "0") s) as [|d r]; cbn [is_empty] in Hn; [done|].
    injection Hn as Hd _. by destruct Hh.
  - right. rewrite str_len_cons, mag_cons. pose proof (str_len_nonneg s). split; [lia|].
    replace (1 + str_len s - 1) with (str_len s) by lia.
    assert (byte_of c <> 48) by (intros E; apply Hne; apply byte_of_inj; rewrite E; done).
    pose proof (mag_range s Hs). pose proof (pow10_pos (str_len s)). nia.
Qed.

Lemma normal_mag_zero s : normal s -> mag s = 0 <-> s = "0".
Proof.
  intros Hs. split; [|by intros ->]. intros Hz.
  destruct (normal_cases s Hs) as [?|[Hl Hm]]; [done|].
  pose proof (pow10_pos (str_len s - 1)). lia.
Qed.

(** Digit strings of one length compare as numbers. *)
Lemma compare_digits s t :
  digits s -> digits t -> str_len s = str_len t -> String.compare s t = (mag s ?= mag t).
Proof.
  revert t. induction s as [|c s IH]; intros [|d t] Hs Ht Hl.
  - done.
  - rewrite str_len_cons in Hl. pose proof (str_len_nonneg t). change (str_len EmptyString) with 0 in Hl. lia.
  - rewrite str_len_cons in Hl. pose proof (str_len_nonneg s). change (str_len EmptyString) with 0 in Hl. lia.
  - rewrite !str_len_cons in Hl. apply digits_cons in Hs as [Hc Hs]. apply digits_cons in Ht as [Hd Ht].
    cbn [String.compare]. rewrite !mag_cons. assert (str_len s = str_len t) as Hl' by lia. rewrite Hl'.
    pose proof (mag_range s Hs) as Rs. pose proof (mag_range t Ht) as Rt. rewrite Hl' in Rs.
    assert (Ascii.compare c d = (byte_of c ?= byte_of d)) as ->
      by (unfold Ascii.compare, byte_of; by rewrite N2Z.inj_compare).
    destruct (Z.compare_spec (byte_of c) (byte_of d)) as [E|E|E].
    + rewrite E, IH by done. by rewrite Z.add_compare_mono_l.
    + symmetry. apply Z.compare_lt_iff. nia.
    + symmetry. apply Z.compare_gt_iff. nia.
Qed.

Lemma cmp_mag_spec a b : digits a -> digits b -> cmp_mag a b = (mag a ?= mag b).
Proof.
  intros Ha Hb. unfold cmp_mag.
  rewrite <- (mag_normalize a Ha), <- (mag_normalize b Hb).
  pose proof (normalize_normal a Ha) as Na. pose proof (normalize_normal b Hb) as Nb.
  set (x := normalize_mag a) in *. set (y := normalize_mag b) in *. clearbody x y.
  pose proof (normal_digits x Na) as Dx. pose proof (normal_digits y Nb) as Dy.
  pose proof (mag_range x Dx) as Rx. pose proof (mag_range y Dy) as Ry.
  assert (forall u v, normal u -> normal v -> digits u -> str_len u < str_len v -> mag u < mag v) as Hlt.
  { intros u v Nu Nv Du Hl. pose proof (mag_range u Du) as Ru.
    destruct (normal_cases v Nv) as [->|[_ Hv]].
    - destruct (normal_cases u Nu) as [->|[Hu _]]; change (str_len "0") with 1 in Hl; [|lia].
      change (str_len "0") with 1 in Hl. lia.
    - assert (10 ^ str_len u <= 10 ^ (str_len v - 1)) by (apply Z.pow_le_mono_r; lia). lia. }
  destruct (Z.compare_spec (str_len x) (str_len y)) as [E|E|E].
  - by apply compare_digits.
  - symmetry. apply Z.compare_lt_iff. by apply Hlt.
  - symmetry. apply Z.compare_gt_iff. by apply Hlt.
Qed.

End MagnitudeLemmas.

(** ** Column arithmetic *)

Section ColumnArithmetic.

Lemma lmag_digit d s : 0 <= d <= 9 -> lmag (String (of_byte (48 + d)) s) = d + 10 * lmag s.
Proof. intros Hd. cbn [lmag]. rewrite byte_of_of by lia. lia. Qed.

Lemma digits_digit d s : 0 <= d <= 9 -> digits s -> digits (String (of_byte (48 + d)) s).
Proof. intros Hd Hs. apply digits_cons. rewrite byte_of_of by lia. split; [lia|done]. Qed.

Lemma next_digit_spec s d r :
  digits s -> next_digit s = (d, r) ->
  0 <= d <= 9 /\ digits r /\ lmag s = d + 10 * lmag r
  /\ String.length r = pred (String.length s).
Proof.
  intros Hs Hn. destruct s as [|c s]; injection Hn as <- <-; [done|].
  apply digits_cons in Hs as [Hc Hs]. cbn [lmag String.length pred]. split_and!; [lia..|done|lia|done].
Qed.

Lemma is_empty_length s : is_empty s = true <-> String.length s = 0%nat.
Proof. by destruct s. Qed.

Lemma add_loop_spec fuel a b carry :
  digits a -> digits b -> 0 <= carry <= 1 ->
  (Nat.max (String.length a) (String.length b) < fuel)%nat
  \/ (String.length a = 0 /\ String.length b = 0)%nat /\ carry = 0 ->
  digits (add_loop fuel a b carry) /\ lmag (add_loop fuel a b carry) = lmag a + lmag b + carry.
Proof.
  revert a b carry. induction fuel as [|fuel IH]; intros a b carry Ha Hb Hc Hf.
  - destruct Hf as [?|[[La Lb] ->]]; [lia|]. destruct a, b; try done.
  - cbn [add_loop]. destruct (is_empty a && is_empty b && (carry <=? 0)) eqn:E.
    + rewrite !andb_true_iff, Z.leb_le, !is_empty_length in E. destruct E as [[La Lb] ?].
      destruct a, b; try done. cbn [lmag]. split; [done|lia].
    + rewrite !andb_false_iff, Z.leb_gt in E.
      destruct (next_digit a) as [da a'] eqn:Ea. destruct (next_digit b) as [db b'] eqn:Eb.
      apply next_digit_spec in Ea as (Rda & Da' & La & Na); [|done].
      apply next_digit_spec in Eb as (Rdb & Db' & Lb & Nb); [|done].
      cbv zeta. assert (0 <= (da + db + carry) mod 10 <= 9) by euclid.
      assert (0 <= (da + db + carry) / 10 <= 1) by euclid.
      destruct (IH a' b' ((da + db + carry) / 10) Da' Db') as [Hd Hl]; [done| |].
      { destruct Hf as [Hf|[[La0 Lb0] ->]].
        - destruct (Nat.eq_dec (Nat.max (String.length a) (String.length b)) 0) as [E0|E0]; [|lia].
          right. split; [lia|]. destruct a, b; simpl in E0; try lia. cbn [lmag] in La, Lb.
          pose proof (lmag_nonneg a' Da'). pose proof (lmag_nonneg b' Db').
          replace da with 0 by lia. replace db with 0 by lia. euclid.
        - exfalso. rewrite <- !not_true_iff_false, !is_empty_length in E. lia. }
      split; [by apply digits_digit|]. rewrite lmag_digit, Hl by done. rewrite La, Lb.
      pose proof (Z.div_mod (da + db + carry) 10). lia.
Qed.

Lemma add_mag_spec a b :
  digits a -> digits b -> normal (add_mag a b) /\ mag (add_mag a b) = mag a + mag b.
Proof.
  intros Ha Hb. unfold add_mag. cbv zeta.
  destruct (add_loop_spec (S (Nat.max (String.length a) (String.length b)))
              (str_rev a) (str_rev b) 0) as [Hd Hl]; [by apply digits_rev..|lia| |].
  { left. rewrite !str_length_rev. lia. }
  apply digits_rev in Hd. destruct (normalize_spec _ Hd) as [Hn Hm]. split; [done|].
  rewrite Hm, mag_rev, Hl, <- !mag_rev, !str_rev_involutive. lia.
Qed.

Lemma sub_loop_spec a b borrow :
  digits a -> digits b -> 0 <= borrow <= 1 -> lmag b + borrow <= lmag a ->
  digits (sub_loop a b borrow) /\ lmag (sub_loop a b borrow) = lmag a - lmag b - borrow.
Proof.
  revert b borrow. induction a as [|c a IH]; intros b borrow Ha Hb Hr Hle.
  - pose proof (lmag_nonneg b Hb). cbn [sub_loop lmag] in *. split; [done|lia].
  - apply digits_cons in Ha as [Hc Ha]. cbn [sub_loop]. cbv zeta.
    destruct (next_digit b) as [db b'] eqn:Eb.
    apply next_digit_spec in Eb as (Rdb & Db' & Lb & _); [|done]. cbn [lmag] in Hle |- *.
    destruct (Z.ltb_spec (byte_of c - 48 - db - borrow) 0).
    + destruct (IH b' 1) as [Hd Hl]; [done|done|lia|lia|].
      split; [apply digits_digit; [lia|done]|]. rewrite lmag_digit, Hl by lia. lia.
    + destruct (IH b' 0) as [Hd Hl]; [done|done|lia|lia|].
      split; [apply digits_digit; [lia|done]|]. rewrite lmag_digit, Hl by lia. lia.
Qed.

Lemma sub_mag_spec a b :
  digits a -> digits b -> mag b <= mag a ->
  normal (sub_mag a b) /\ mag (sub_mag a b) = mag a - mag b.
Proof.
  intros Ha Hb Hle. unfold sub_mag.
  assert (forall s, lmag (str_rev s) = mag s) as Hlm by (intros s; by rewrite <- mag_rev, str_rev_involutive).
  destruct (sub_loop_spec (str_rev a) (str_rev b) 0) as [Hd Hl]; [by apply digits_rev..|lia| |].
  { rewrite !Hlm. lia. }
  apply digits_rev in Hd. destruct (normalize_spec _ Hd) as [Hn Hm]. split; [done|].
  rewrite Hm, mag_rev, Hl, !Hlm. lia.
Qed.

Lemma increment_mag_spec a : digits a -> normal (increment_mag a) /\ mag (increment_mag a) = mag a + 1.
Proof. intros Ha. by apply (add_mag_spec a "1"). Qed.

End ColumnArithmetic.

(** ** Decimals as rationals *)

(** The invariant the constructors of [Decimal] keep. *)
Record wf (d : Decimal) : Prop := mkWf {
  wf_coeff : normal (coeff d);
  wf_sign : coeff d = "0" -> negative d = false;
  wf_scale : 0 <= scale d < 2 ^ 32 }.

Definition signed (neg : bool) (z : Z) : Z := if neg then - z else z.

(** [(-1)^negative · coeff / 10^scale] *)
Definition value (d : Decimal) : Q :=
  signed (negative d) (mag (coeff d)) # Z.to_pos (10 ^ scale d).

(** The numerator of [value d] over [10^s]. *)
Definition numer (d : Decimal) (s : Z) : Z :=
  signed (negative d) (mag (coeff_at_scale d s)).

Section DecimalLemmas.

Lemma at_scale_spec d s :
  wf d -> scale d <= s ->
  normal (coeff_at_scale d s) /\ mag (coeff_at_scale d s) = mag (coeff d) * 10 ^ (s - scale d).
Proof.
  intros [Hc _ Hs] Hle. apply normal_digits in Hc. unfold coeff_at_scale.
  destruct (push_zeros_spec (s - scale d) (coeff d)) as [Hd Hm]; [lia|done|].
  destruct (normalize_spec _ Hd) as [Hn ->]. done.
Qed.

Lemma pow10_to_pos n : 0 <= n -> Z.pos (Z.to_pos (10 ^ n)) = 10 ^ n.
Proof. intros. apply Z2Pos.id. by apply pow10_pos. Qed.

Lemma value_at_scale d s :
  wf d -> scale d <= s -> (value d == numer d s # Z.to_pos (10 ^ s))%Q.
Proof.
  intros Hd Hle. pose proof (wf_scale d Hd). unfold value, numer, Qeq. cbn [Qnum Qden].
  destruct (at_scale_spec d s Hd Hle) as [_ ->].
  rewrite !pow10_to_pos by lia. replace (10 ^ s) with (10 ^ (s - scale d) * 10 ^ scale d)
    by (rewrite <- Z.pow_add_r by lia; f_equal; lia).
  unfold signed. destruct (negative d); lia.
Qed.

Lemma Qcompare_same_den x y p : ((x # p) ?= (y # p))%Q = (x ?= y)%Z.
Proof.
  unfold Qcompare. cbn [Qnum Qden].
  destruct (Z.compare_spec x y) as [->|E|E]; [by apply Z.compare_eq_iff|..].
  - apply Z.compare_lt_iff. nia.
  - apply Z.compare_gt_iff. nia.
Qed.

(** How every operation builds its result. *)
Lemma mk_signed neg m s :
  normal m -> 0 <= s < 2 ^ 32 ->
  wf (mkDecimal (neg && negb (str_eqb m "0")) m s)
  /\ value (mkDecimal (neg && negb (str_eqb m "0")) m s) = (signed neg (mag m) # Z.to_pos (10 ^ s)).
Proof.
  intros Hm Hs. destruct (str_eqb m "0") eqn:E.
  - apply str_eqb_true in E as ->. rewrite andb_false_r. split; [done|].
    unfold value. cbn. by destruct neg.
  - rewrite andb_true_r. split; [|done]. split; [done| |done]. simpl. intros ->. done.
Qed.

Lemma is_zero_true d : wf d -> is_zero d = true <-> mag (coeff d) = 0.
Proof.
  intros Hd. unfold is_zero. rewrite str_eqb_true. symmetry. apply normal_mag_zero, Hd.
Qed.

Lemma negative_pos d : wf d -> negative d = true -> 0 < mag (coeff d).
Proof.
  intros [Hc Hs _] Hn. pose proof (mag_range _ (normal_digits _ Hc)).
  destruct (decide (mag (coeff d) = 0)) as [E|E]; [|lia].
  apply normal_mag_zero in E; [|done]. rewrite Hs in Hn; done.
Qed.

(** Both operands at the larger scale. *)
Lemma common_scale a b :
  wf a -> wf b ->
  let s := Z.max (scale a) (scale b) in
  exists x y, 0 <= s < 2 ^ 32
    /\ normal (coeff_at_scale a s) /\ mag (coeff_at_scale a s) = x
    /\ normal (coeff_at_scale b s) /\ mag (coeff_at_scale b s) = y
    /\ (value a == signed (negative a) x # Z.to_pos (10 ^ s))%Q
    /\ (value b == signed (negative b) y # Z.to_pos (10 ^ s))%Q
    /\ 0 <= x /\ 0 <= y
    /\ (is_zero a = true <-> x = 0) /\ (is_zero b = true <-> y = 0)
    /\ (negative a = true -> 0 < x) /\ (negative b = true -> 0 < y).
Proof.
  intros Ha Hb s. pose proof (wf_scale a Ha). pose proof (wf_scale b Hb).
  destruct (at_scale_spec a s Ha ltac:(lia)) as [Na Ma]. destruct (at_scale_spec b s Hb ltac:(lia)) as [Nb Mb].
  exists (mag (coeff_at_scale a s)), (mag (coeff_at_scale b s)).
  pose proof (pow10_pos (s - scale a) ltac:(lia)). pose proof (pow10_pos (s - scale b) ltac:(lia)).
  pose proof (mag_range _ (normal_digits _ (wf_coeff _ Ha))).
  pose proof (mag_range _ (normal_digits _ (wf_coeff _ Hb))).
  rewrite !is_zero_true by done. pose proof (negative_pos a Ha). pose proof (negative_pos b Hb).
  split_and!; try done; try lia; try (apply value_at_scale; [done|lia]); rewrite ?Ma, ?Mb; try nia.
  all: intros Hneg; apply Z.mul_pos_pos; auto.
Qed.

Lemma compare_value a b : wf a -> wf b -> compare a b = (value a ?= value b)%Q.
Proof.
  intros Ha Hb.
  destruct (common_scale a b Ha Hb) as (x & y & _ & Na & Ma & Nb & Mb & Va & Vb & Px & Py & Za & Zb & Sa & Sb).
  rewrite Va, Vb, Qcompare_same_den. unfold compare.
  destruct (is_zero a && is_zero b) eqn:E.
  { apply andb_true_iff in E as [->%Za ->%Zb]. by destruct (negative a), (negative b). }
  rewrite cmp_mag_spec by (by apply normal_digits). rewrite Ma, Mb. unfold signed.
  destruct (negative a), (negative b).
  - by rewrite Z.compare_opp, <- Z.compare_antisym.
  - specialize (Sa eq_refl). symmetry. apply Z.compare_lt_iff. lia.
  - specialize (Sb eq_refl). symmetry. apply Z.compare_gt_iff. lia.
  - done.
Qed.

Lemma add_value a b : wf a -> wf b -> wf (add a b) /\ (value (add a b) == value a + value b)%Q.
Proof.
  intros Ha Hb.
  destruct (common_scale a b Ha Hb) as (x & y & Hs & Na & Ma & Nb & Mb & Va & Vb & Px & Py & _).
  pose proof (normal_digits _ Na) as Da. pose proof (normal_digits _ Nb) as Db.
  rewrite Va, Vb, Qinv_plus_distr. unfold add.
  set (s := Z.max (scale a) (scale b)) in *. cbv zeta.
  set (am := coeff_at_scale a s) in *. set (bm := coeff_at_scale b s) in *.
  assert (forall neg m z, normal m -> mag m = z ->
            wf (mkDecimal (neg && negb (str_eqb m "0")) m s)
            /\ (value (mkDecimal (neg && negb (str_eqb m "0")) m s)
                == signed neg z # Z.to_pos (10 ^ s))%Q) as Hmk.
  { intros neg m z Hm <-. destruct (mk_signed neg m s Hm Hs) as [? ->]. split; [done|reflexivity]. }
  destruct (Bool.eqb (negative a) (negative b)) eqn:E.
  - apply eqb_prop in E. destruct (add_mag_spec am bm Da Db) as [Hn Hm].
    destruct (Hmk (negative a) _ _ Hn Hm) as [Hw ->]. split; [done|].
    rewrite <- E, Ma, Mb. unfold signed. destruct (negative a); [|reflexivity].
    by replace (- (x + y)) with (- x + - y) by lia.
  - apply eqb_false_iff in E. rewrite cmp_mag_spec by done. rewrite Ma, Mb.
    destruct (Z.compare_spec x y) as [->|Hlt|Hgt].
    + split; [done|]. change (value zero) with 0%Q.
      assert (signed (negative a) y + signed (negative b) y = 0) as ->
        by (unfold signed; destruct (negative a), (negative b); done || lia).
      done.
    + destruct (sub_mag_spec bm am Db Da) as [Hn Hm]; [lia|].
      destruct (Hmk (negative b) _ _ Hn Hm) as [Hw ->]. split; [done|].
      rewrite Ma, Mb. unfold signed, Qeq. cbn [Qnum Qden]. destruct (negative a), (negative b); done || lia.
    + destruct (sub_mag_spec am bm Da Db) as [Hn Hm]; [lia|].
      destruct (Hmk (negative a) _ _ Hn Hm) as [Hw ->]. split; [done|].
      rewrite Ma, Mb. unfold signed, Qeq. cbn [Qnum Qden]. destruct (negative a), (negative b); done || lia.
Qed.

End DecimalLemmas.

(** ** The accepted syntax *)

Section Syntax.

(** The exponent part: the letter, the sign and the digits. *)
Record exponent_part := mkExp {
  e_letter : ascii;
  e_sign : string;
  e_digits : string }.

(** A number as it is written. *)
Record literal := mkLit {
  l_sign : string;
  l_int : string;
  l_frac : option string;
  l_exp : option exponent_part }.

Definition print_fraction (f : option string) : string :=
  match f with Some f => String "." f | None => "" end.
Definition print_exponent (e : option exponent_part) : string :=
  match e with Some e => String (e_letter e) (e_sign e +:+ e_digits e) | None => "" end.
Definition print (l : literal) : string :=
  l_sign l +:+ l_int l +:+ print_fraction (l_frac l) +:+ print_exponent (l_exp l).

Definition is_sign (s : string) : Prop := s = "" \/ s = "+" \/ s = "-".
Definition fraction (l : literal) : string := default "" (l_frac l).
Definition exponent_ok (e : exponent_part) : Prop :=
  (e_letter e = "e"%char \/ e_letter e = "E"%char) /\ is_sign (e_sign e)
  /\ digits (e_digits e) /\ e_digits e <> "" /\ mag (e_digits e) <= i64_max.

(** The grammar: an optional sign, digits and an optional fraction (at least one
    digit in all), and an optional exponent that fits an [i64]. *)
Record literal_ok (l : literal) : Prop := mkLitOk {
  lo_sign : is_sign (l_sign l);
  lo_int : digits (l_int l);
  lo_frac : digits (fraction l);
  lo_some : l_int l <> "" \/ fraction l <> "";
  lo_exp : forall e, l_exp l = Some e -> exponent_ok e }.

Definition minus (s : string) : bool := str_eqb s "-".
Definition exponent (l : literal) : Z :=
  match l_exp l with Some e => signed (minus (e_sign e)) (mag (e_digits e)) | None => 0 end.
Definition mantissa (l : literal) : Z := mag (l_int l +:+ fraction l).

(** The number the literal denotes. *)
Definition literal_value (l : literal) : Q :=
  inject_Z (signed (minus (l_sign l)) (mantissa l))
  * Qpower (inject_Z 10) (exponent l - str_len (fraction l)).

Definition no_digit (s : string) : Prop :=
  match s with String c _ => is_ascii_digit c = false | EmptyString => True end.

Lemma take_digits_app ds r : digits ds -> no_digit r -> take_digits (ds +:+ r) = (ds, r).
Proof.
  intros Hd Hr. induction ds as [|c ds IH].
  - rewrite str_app_nil_l. destruct r as [|c r]; [done|]. simpl in Hr. cbn [take_digits]. by rewrite Hr.
  - rewrite str_app_cons. cbn [take_digits]. cbn [str_all] in Hd. apply andb_true_iff in Hd as [-> Hd].
    by rewrite IH.
Qed.

Lemma take_digits_inv s ds r :
  take_digits s = (ds, r) -> s = ds +:+ r /\ digits ds /\ no_digit r.
Proof.
  revert ds r. induction s as [|c s IH]; intros ds r; cbn [take_digits].
  - by intros [= <- <-].
  - destruct (is_ascii_digit c) eqn:E.
    + destruct (take_digits s) as [ds' r']. intros [= <- <-].
      destruct (IH _ _ eq_refl) as (-> & Hd & Hr). rewrite str_app_cons.
      cbn [str_all]. by rewrite E, Hd.
    + intros [= <- <-]. by rewrite str_app_nil_l.
Qed.

Definition no_sign (s : string) : Prop :=
  match s with String c _ => c <> "+"%char /\ c <> "-"%char | EmptyString => True end.

Lemma take_sign_app sg r : is_sign sg -> no_sign r -> take_sign (sg +:+ r) = (minus sg, r).
Proof.
  intros Hs Hr. destruct Hs as [-> | [-> | ->]]; [|done..].
  rewrite str_app_nil_l. destruct r as [|c r]; [done|]. destruct Hr as [H1 H2]. cbn [take_sign].
  apply Ascii.eqb_neq in H1 as ->. by apply Ascii.eqb_neq in H2 as ->.
Qed.

Lemma take_sign_inv s b r : take_sign s = (b, r) -> exists sg, s = sg +:+ r /\ is_sign sg /\ b = minus sg.
Proof.
  destruct s as [|c s]; cbn [take_sign]; [by intros [= <- <-]; exists ""; unfold is_sign; auto|].
  destruct (Ascii.eqb_spec c "+") as [->|H1]; simpl.
  - intros [= <- <-]. exists "+". unfold is_sign. auto.
  - destruct (Ascii.eqb_spec c "-") as [->|H2]; intros [= <- <-]; [exists "-"|exists ""];
      unfold is_sign; auto.
Qed.

Lemma digits_no_sign s r : digits s -> s <> "" -> no_sign (s +:+ r).
Proof.
  destruct s as [|c s]; [done|]. rewrite digits_cons. intros [Hc _] _. rewrite str_app_cons. simpl.
  split; intros ->; vm_compute in Hc; by destruct Hc as [[] _].
Qed.

(** [str::parse::<i64>] on a digit string. *)
Lemma digits_value_mag s acc : digits s -> digits_value 10 s acc = Some (mag_from acc s).
Proof.
  revert acc. induction s as [|c s IH]; intros acc Hs; cbn [digits_value mag_from]; [done|].
  apply digits_cons in Hs as [Hc Hs].
  assert (to_digit 10 c = Some (byte_of c - 48)) as ->.
  { unfold to_digit. assert (hex_digit_value c = Some (byte_of c - 48)) as ->.
    { unfold hex_digit_value. destruct (is_ascii_digit c) eqn:E; [done|].
      apply not_true_iff_false in E. by rewrite digit_range in E. }
    simpl. destruct (Z.ltb_spec (byte_of c - 48) 10); [done|lia]. }
  simpl. by apply IH.
Qed.

Lemma parse_i64_digits s :
  digits s -> s <> "" -> parse_i64 s = if mag s <=? i64_max then Some (mag s) else None.
Proof.
  intros Hs Hne. pose proof (mag_range s Hs) as Hr.
  assert (parse_digits 10 s = Some (mag s)) as Hp.
  { unfold parse_digits. destruct s; [done|]. cbn [is_empty]. by apply digits_value_mag. }
  pose proof (digits_no_sign s "" Hs Hne) as Hns. rewrite str_app_nil_r in Hns.
  unfold parse_i64, parse_radix. destruct s as [|c s]; [done|]. destruct Hns as [H1 H2].
  apply Ascii.eqb_neq in H1 as ->. apply Ascii.eqb_neq in H2 as ->. rewrite Hp. simpl.
  destruct (Z.leb_spec i64_min (mag (String c s))); [done|]. unfold i64_min in *. lia.
Qed.

Lemma take_exponent_print e :
  (forall x, e = Some x -> exponent_ok x) ->
  take_exponent (print_exponent e)
  = Some (match e with Some x => signed (minus (e_sign x)) (mag (e_digits x)) | None => 0 end, "").
Proof.
  intros He. destruct e as [x|]; [|done]. destruct (He x eq_refl) as (Hl & Hs & Hd & Hne & Hm).
  simpl. assert (Ascii.eqb (e_letter x) "e" || Ascii.eqb (e_letter x) "E" = true) as ->
    by (by destruct Hl as [-> | ->]).
  rewrite <- (str_app_nil_r (e_digits x)), take_sign_app by (done || by apply digits_no_sign).
  rewrite take_digits_app by done. destruct (e_digits x) as [|c ds] eqn:E; [done|]. rewrite <- E in *.
  assert (is_empty (e_digits x) = false) as -> by (by rewrite E).
  rewrite parse_i64_digits by (done || by rewrite E). rewrite str_app_nil_r.
  apply Z.leb_le in Hm as ->. simpl. done.
Qed.

Lemma take_exponent_inv s n r :
  take_exponent s = Some (n, r) ->
  exists e, s = print_exponent e +:+ r /\ (forall x, e = Some x -> exponent_ok x).
Proof.
  destruct s as [|c s]; cbn [take_exponent].
  { intros [= <- <-]. exists None. split; [done|congruence]. }
  destruct (Ascii.eqb c "e" || Ascii.eqb c "E") eqn:Ec.
  2: { intros [= <- <-]. exists None. split; [done|congruence]. }
  destruct (take_sign s) as [b s1] eqn:Es. apply take_sign_inv in Es as (sg & -> & Hsg & ->).
  destruct (take_digits s1) as [ds rest] eqn:Ed. apply take_digits_inv in Ed as (-> & Hd & _).
  destruct (is_empty ds) eqn:Ee; [done|]. assert (ds <> "") as Hne by (by intros ->).
  rewrite parse_i64_digits by done.
  destruct (Z.leb_spec (mag ds) i64_max) as [Hm|]; [|done]. simpl. intros [= _ <-].
  exists (Some (mkExp c sg ds)). simpl. rewrite str_app_cons, str_app_assoc. split; [done|].
  intros x [= <-]. apply orb_true_iff in Ec. rewrite !Ascii.eqb_eq in Ec. done.
Qed.

Lemma no_digit_exponent e : (forall x, e = Some x -> exponent_ok x) -> no_digit (print_exponent e).
Proof.
  intros He. destruct e as [x|]; [|done]. destruct (He x eq_refl) as ([E|E] & _); simpl; by rewrite E.
Qed.

Lemma take_fraction_print f e :
  digits (default "" f) -> (forall x, e = Some x -> exponent_ok x) ->
  take_fraction (print_fraction f +:+ print_exponent e) = (default "" f, print_exponent e).
Proof.
  intros Hf He. pose proof (no_digit_exponent e He). destruct f as [f|]; cbn [print_fraction default from_option] in *.
  - rewrite str_app_cons. cbn [take_fraction]. by apply take_digits_app.
  - rewrite str_app_nil_l. destruct e as [x|]; [|done].
    destruct (He x eq_refl) as ([E|E] & _); cbn [print_exponent take_fraction]; by rewrite E.
Qed.

Lemma take_fraction_inv s f r :
  take_fraction s = (f, r) -> exists o, s = print_fraction o +:+ r /\ default "" o = f /\ digits f.
Proof.
  destruct s as [|c s]; cbn [take_fraction].
  { intros [= <- <-]. by exists None. }
  destruct (Ascii.eqb_spec c ".") as [->|_].
  - intros Ht. apply take_digits_inv in Ht as (-> & Hd & _). by exists (Some f).
  - intros [= <- <-]. by exists None.
Qed.

(** The decimal a literal is parsed to. *)
Definition literal_decimal (l : literal) : Decimal :=
  let '(coeff, scale) :=
    place_exponent (normalize_mag (l_int l +:+ fraction l))
      (wrap_s 64 (exponent l - str_len (fraction l))) in
  mkDecimal (minus (l_sign l) && negb (str_eqb coeff "0")) coeff scale.

Lemma literal_nonempty l : literal_ok l -> print l <> "".
Proof.
  intros [Hs _ _ Hne _]. unfold print, fraction in *. destruct Hs as [-> | [-> | ->]]; [|done..].
  rewrite str_app_nil_l. destruct (l_int l) as [|c i]; [|done].
  rewrite str_app_nil_l. destruct (l_frac l); [done|]. by destruct Hne.
Qed.

Lemma parse_print s l : literal_ok l -> trim s = print l -> parse s = Some (literal_decimal l).
Proof.
  intros Hl Ht. pose proof (literal_nonempty l Hl) as Hne. unfold parse. cbv zeta. rewrite Ht.
  destruct (is_empty (print l)) eqn:E; [by apply is_empty_true in E|]. clear E.
  destruct Hl as [Hs Hi Hf Hsome He]. unfold print.
  rewrite take_sign_app; [|done|].
  2: { destruct (l_int l) as [|c i] eqn:E; [|rewrite <- E in *; apply digits_no_sign; [done|by rewrite E]].
       rewrite str_app_nil_l. unfold fraction in *. destruct (l_frac l); [done|]. by destruct Hsome. }
  rewrite take_digits_app; [|done|].
  2: { destruct (l_frac l); [done|]. rewrite str_app_nil_l. by apply no_digit_exponent. }
  rewrite take_fraction_print by done. fold (fraction l).
  destruct (is_empty (l_int l) && is_empty (fraction l)) eqn:E.
  { rewrite andb_true_iff, !is_empty_true in E. destruct E as [E1 E2]. by destruct Hsome. }
  rewrite take_exponent_print by done. simpl. unfold literal_decimal, exponent.
  by destruct (place_exponent _ _).
Qed.

Lemma parse_inv s d : parse s = Some d -> exists l, literal_ok l /\ trim s = print l.
Proof.
  unfold parse. cbv zeta. destruct (is_empty (trim s)); [done|].
  destruct (take_sign (trim s)) as [b s1] eqn:Es. apply take_sign_inv in Es as (sg & -> & Hsg & _).
  destruct (take_digits s1) as [i s2] eqn:Ei. apply take_digits_inv in Ei as (-> & Hi & _).
  destruct (take_fraction s2) as [f s3] eqn:Ef. apply take_fraction_inv in Ef as (o & -> & Ho & Hf).
  destruct (is_empty i && is_empty f) eqn:Ee; [done|].
  destruct (take_exponent s3) as [[n r]|] eqn:Ex; [|done].
  apply take_exponent_inv in Ex as (e & -> & He). simpl.
  destruct (is_empty r) eqn:Er; [|done]. apply is_empty_true in Er as ->. intros _.
  exists (mkLit sg i o e). unfold print. simpl. rewrite str_app_nil_r. split; [|done].
  apply andb_false_iff in Ee. rewrite <- !not_true_iff_false, !is_empty_true in Ee.
  split; simpl; unfold fraction; simpl; try done; by rewrite Ho.
Qed.

Lemma Qmake_pow10 x n : 0 <= n -> (x # Z.to_pos (10 ^ n) == inject_Z x * Qpower (inject_Z 10) (- n))%Q.
Proof.
  intros Hn. rewrite Qpower_opp, <- Zpower_Qpower by done. rewrite Qmake_Qdiv, pow10_to_pos by done.
  reflexivity.
Qed.

(** Exponents for which neither the 64-bit subtraction nor the scale wraps. *)
Definition exponent_fits (l : literal) : Prop :=
  - 2 ^ 32 < exponent l - str_len (fraction l) <= i64_max.

Lemma literal_digits l : literal_ok l -> digits (l_int l +:+ fraction l).
Proof. intros [_ Hi Hf _ _]. by apply digits_app. Qed.

Lemma literal_decimal_spec l :
  literal_ok l -> exponent_fits l ->
  wf (literal_decimal l) /\ (value (literal_decimal l) == literal_value l)%Q.
Proof.
  intros Hl He. pose proof (literal_digits l Hl) as Hd. unfold exponent_fits in He.
  destruct (normalize_spec _ Hd) as [Hn Hm]. fold (mantissa l) in Hm.
  unfold literal_decimal, literal_value.
  set (te := exponent l - str_len (fraction l)) in *.
  rewrite wrap_s_id by (unfold i64_max in He; lia). unfold place_exponent.
  destruct (Z.leb_spec 0 te).
  - destruct (push_zeros_spec te _ H (normal_digits _ Hn)) as [Hp Hpm].
    destruct (normalize_spec _ Hp) as [Hn' Hm'].
    destruct (mk_signed (minus (l_sign l)) _ 0 Hn') as [Hw ->]; [lia|]. split; [done|].
    rewrite Hm', Hpm, Hm, <- Zpower_Qpower, <- inject_Z_mult by done.
    change (Z.to_pos (10 ^ 0)) with 1%positive. unfold Qeq, signed, inject_Z. cbn [Qnum Qden].
    destruct (minus (l_sign l)); lia.
  - rewrite wrap_u_id by lia.
    destruct (mk_signed (minus (l_sign l)) _ (- te) Hn) as [Hw ->]; [lia|]. split; [done|].
    rewrite Hm, Qmake_pow10 by lia. by rewrite Z.opp_involutive.
Qed.

End Syntax.

(** ** Cutting digit strings *)

Section Cutting.

Lemma get_app a c t : String.get (String.length a) (a +:+ String c t) = Some c.
Proof. induction a as [|d a IH]; [done|]. by rewrite str_app_cons. Qed.

Lemma trim_start_by_stop p u c v :
  p c = false -> trim_start_by p (u +:+ String c v) = trim_start_by p u +:+ String c v.
Proof.
  intros Hc. induction u as [|d u IH].
  - rewrite !str_app_nil_l. cbn [trim_start_by]. by rewrite Hc.
  - rewrite str_app_cons. cbn [trim_start_by]. destruct (p d); [done|]. by rewrite str_app_cons.
Qed.

Lemma trim_end_by_stop p s c t :
  p c = false -> trim_end_by p (s +:+ String c t) = s +:+ String c (trim_end_by p t).
Proof.
  intros Hc. unfold trim_end_by. rewrite str_rev_append, str_rev_cons, str_app_assoc.
  change (char_str c +:+ str_rev s) with (String c (str_rev s)). rewrite trim_start_by_stop by done.
  rewrite str_rev_append, str_rev_cons, str_rev_involutive, str_app_assoc. done.
Qed.

(** What is left of a fraction when its trailing zeros are removed. *)
Lemma trim_zeros_split s :
  exists n, s = trim_end_by (Ascii.eqb "0") s +:+ str_repeat n "0".
Proof.
  destruct (normalize_split (str_rev s)) as (n & Hn & _). exists n. unfold trim_end_by.
  rewrite <- (str_rev_involutive s) at 1. rewrite Hn at 1. by rewrite str_rev_append, str_rev_repeat.
Qed.

Lemma pad_left_spec n s :
  digits s ->
  digits (pad_left n "0" s) /\ mag (pad_left n "0" s) = mag s
  /\ Z.of_nat n <= str_len (pad_left n "0" s).
Proof.
  intros Hs. unfold pad_left. rewrite digits_app, mag_app, mag_repeat, str_len_app, str_len_repeat.
  split_and!; [apply digits_repeat|done|lia|]. unfold str_len. lia.
Qed.

Lemma normal_len s k : normal s -> mag s < 10 ^ k -> 1 <= k -> str_len s <= k.
Proof.
  intros Hs Hm Hk. destruct (normal_cases s Hs) as [->|[Hl Hge]]; [done|].
  destruct (Z.le_gt_cases (str_len s) k) as [|Hgt]; [done|].
  assert (10 ^ k <= 10 ^ (str_len s - 1)) by (apply Z.pow_le_mono_r; lia). lia.
Qed.

Lemma digits_graphic s : digits s -> str_all graphic s = true.
Proof.
  apply str_all_impl. intros c. rewrite digit_range. unfold graphic, in_range.
  change (byte_of "!") with 33. change (byte_of "~") with 126. lia.
Qed.

Lemma trim_print l : literal_ok l -> trim (print l) = print l.
Proof.
  intros [Hs Hi Hf _ He]. apply trim_graphic. unfold print. rewrite !str_all_app.
  assert (forall s, is_sign s -> str_all graphic s = true) as Hsign by (by intros ? [-> | [-> | ->]]).
  rewrite Hsign, digits_graphic by done. simpl. apply andb_true_iff. split.
  - unfold fraction in Hf. destruct (l_frac l); [|done]. by apply digits_graphic in Hf.
  - destruct (l_exp l) as [x|]; [|done]. destruct (He x eq_refl) as (Hl & Hg & Hd & _).
    cbn [print_exponent str_all]. rewrite str_all_app, Hsign, digits_graphic by done.
    by destruct Hl as [-> | ->].
Qed.

End Cutting.

(** ** Formatting *)

Section Formatting.

(** The magnitude rounded half away from zero to [p] fractional digits. *)
Definition rounded (d : Decimal) (p : Z) : Z :=
  (2 * mag (coeff d) * 10 ^ p + 10 ^ scale d) / (2 * 10 ^ scale d).

Lemma rounded_exact d p :
  wf d -> scale d <= p -> rounded d p = mag (coeff d) * 10 ^ (p - scale d).
Proof.
  intros Hd Hp. pose proof (wf_scale d Hd). unfold rounded.
  replace (10 ^ p) with (10 ^ (p - scale d) * 10 ^ scale d)
    by (rewrite <- Z.pow_add_r by lia; f_equal; lia).
  pose proof (pow10_pos (scale d)). symmetry. apply Z.div_unique with (r := 10 ^ scale d); lia.
Qed.

Lemma rounded_drop d p :
  wf d -> 0 <= p < scale d ->
  rounded d p = (2 * mag (coeff d) + 10 ^ (scale d - p)) / (2 * 10 ^ (scale d - p)).
Proof.
  intros Hd Hp. unfold rounded. replace (10 ^ scale d) with (10 ^ (scale d - p) * 10 ^ p)
    by (rewrite <- Z.pow_add_r by lia; f_equal; lia).
  pose proof (pow10_pos p). pose proof (pow10_pos (scale d - p)).
  rewrite <- (Z.div_mul_cancel_r (2 * mag (coeff d) + _) _ (10 ^ p)) by lia. f_equal; lia.
Qed.

(** Rounding looks at the first dropped digit only. *)
Lemma round_half k c t n :
  digits (String c t) -> str_len (String c t) = n ->
  (2 * (k * 10 ^ n + mag (String c t)) + 10 ^ n) / (2 * 10 ^ n)
  = k + (if byte_of "5" <=? byte_of c then 1 else 0).
Proof.
  rewrite digits_cons, str_len_cons, mag_cons. intros [Hc Ht] <-.
  pose proof (mag_range t Ht) as Hr. pose proof (pow10_pos (str_len t) (str_len_nonneg t)).
  rewrite Z.pow_add_r by (pose proof (str_len_nonneg t); lia). change (10 ^ 1) with 10.
  change (byte_of "5") with 53. set (P := 10 ^ str_len t) in *. clearbody P.
  destruct (Z.leb_spec 53 (byte_of c)).
  - symmetry. apply Z.div_unique with
      (r := 2 * ((byte_of c - 48) * P + mag t) - 10 * P); nia.
  - symmetry. apply Z.div_unique with
      (r := 2 * ((byte_of c - 48) * P + mag t) + 10 * P); nia.
Qed.

Lemma round_to_spec d p :
  wf d -> 0 <= p ->
  exists r, round_to d p = (r, negative d) /\ normal r /\ mag r = rounded d p.
Proof.
  intros Hd Hp. pose proof (normal_digits _ (wf_coeff d Hd)) as Hc. unfold round_to.
  destruct (Z.leb_spec (scale d) p) as [Hle|Hgt].
  - destruct (push_zeros_spec (p - scale d) (coeff d)) as [Hz Hm]; [lia|done|].
    destruct (normalize_spec _ Hz) as [Hn Hm']. eexists. split; [done|]. split; [done|].
    by rewrite Hm', Hm, rounded_exact.
  - cbv zeta. rewrite rounded_drop by done. set (n := scale d - p). pose proof (mag_range _ Hc) as Hr.
    destruct (Z.leb_spec n (str_len (coeff d))) as [Hn|Hn].
    + destruct (str_split (str_len (coeff d) - n) (coeff d)) as (Hs & Hl & Hl'); [lia|].
      set (k := str_take (str_len (coeff d) - n) (coeff d)) in *.
      set (t := str_drop (str_len (coeff d) - n) (coeff d)) in *.
      destruct t as [|c t]; [change (str_len "") with 0 in Hl'; lia|].
      assert (String.get (Z.to_nat (str_len (coeff d) - n)) (coeff d) = Some c) as ->.
      { rewrite <- Hl at 1. unfold str_len. rewrite Nat2Z.id, Hs. apply get_app. }
      rewrite Hs in Hc. apply digits_app in Hc as [Dk Dt].
      assert (mag (coeff d) = mag k * 10 ^ n + mag (String c t)) as ->
        by (rewrite Hs, mag_app; do 3 f_equal; lia).
      rewrite (round_half (mag k) c t n) by (done || lia).
      set (kept := if str_len (coeff d) <=? n then "0" else k).
      assert (digits kept /\ mag kept = mag k) as [Dkept Mkept].
      { unfold kept. destruct (Z.leb_spec (str_len (coeff d)) n); [|done]. split; [done|].
        destruct k as [|x k']; [done|]. rewrite str_len_cons in Hl. pose proof (str_len_nonneg k'). lia. }
      destruct (normalize_spec _ Dkept) as [Nk Mk].
      destruct (byte_of "5" <=? byte_of c); eexists; (split; [done|]).
      * destruct (increment_mag_spec _ (normal_digits _ Nk)) as [? ->]. split; [done|lia].
      * split; [done|lia].
    + destruct (Z.leb_spec (str_len (coeff d)) n); [|lia]. eexists. split; [done|]. split; [done|].
      assert (10 * 10 ^ str_len (coeff d) <= 10 ^ n)
        by (rewrite <- Z.pow_succ_r by apply str_len_nonneg; apply Z.pow_le_mono_r; lia).
      symmetry. apply Z.div_small. lia.
Qed.

Lemma strip_point s t : digits t -> t <> "" -> strip_suffix "." (s +:+ t) = None.
Proof.
  intros Ht Hne. unfold strip_suffix. rewrite str_rev_append. apply digits_rev in Ht.
  destruct (str_rev t) as [|c r] eqn:E.
  { destruct Hne. by rewrite <- (str_rev_involutive t), E. }
  apply digits_cons in Ht as [Hc _]. rewrite str_app_cons. change (str_rev ".") with ".".
  cbn [strip_prefix]. destruct (Ascii.eqb_spec "." c) as [<-|_]; [|done].
  vm_compute in Hc. by destruct Hc as [[] _].
Qed.

(** Trimming a fraction: the trailing zeros go, and the point with the last. *)
Definition trimmed_literal (sg int frac : string) : literal :=
  let f := trim_end_by (Ascii.eqb "0") frac in
  mkLit sg int (if is_empty f then None else Some f) None.

Lemma trimmed_out int frac :
  digits int -> digits frac ->
  let out := int +:+ "." +:+ frac in
  contains "." out = true
  /\ (let out := trim_end_by (Ascii.eqb "0") out in
      match strip_suffix "." out with Some r => r | None => out end)
     = print (trimmed_literal "" int frac).
Proof.
  intros Hi Hf. cbv zeta. change ("." +:+ frac) with (String "." frac). split.
  - unfold contains. change (split_once "." _) with (split_once (char_str ".") (int +:+ char_str "." +:+ frac)).
    rewrite split_once_char; [by apply bool_decide_eq_true_2|].
    revert Hi. apply str_all_impl. intros c. rewrite digit_range. intros Hc. apply negb_true_iff.
    destruct (Ascii.eqb_spec "." c) as [<-|_]; [|done]. vm_compute in Hc. by destruct Hc as [[] _].
  - rewrite trim_end_by_stop by done. unfold print, trimmed_literal. cbv zeta.
    destruct (trim_zeros_split frac) as [n Hn]. rewrite Hn in Hf. apply digits_app in Hf as [Hf _].
    destruct (trim_end_by (Ascii.eqb "0") frac) as [|c f] eqn:E; cbn [is_empty l_sign l_int l_frac l_exp].
    + rewrite strip_suffix_app. cbn [print_fraction print_exponent]. by rewrite !str_app_nil_r.
    + replace (int +:+ String "." (String c f)) with ((int +:+ ".") +:+ String c f)
        by (rewrite str_app_assoc; done).
      rewrite strip_point by done. cbn [print_fraction print_exponent].
      rewrite str_app_nil_r, str_app_nil_l, str_app_assoc. done.
Qed.

(** A literal without exponent denotes its digits over a power of ten. *)
Lemma literal_value_plain l :
  l_exp l = None ->
  (literal_value l == signed (minus (l_sign l)) (mantissa l) # Z.to_pos (10 ^ str_len (fraction l)))%Q.
Proof.
  intros He. unfold literal_value, exponent. rewrite He, Qmake_pow10 by apply str_len_nonneg.
  by rewrite Z.sub_0_l.
Qed.

Lemma trimmed_literal_spec sg int frac :
  is_sign sg -> digits int -> int <> "" -> digits frac ->
  let l := trimmed_literal sg int frac in
  literal_ok l
  /\ (literal_value l == signed (minus sg) (mag int * 10 ^ str_len frac + mag frac)
                          # Z.to_pos (10 ^ str_len frac))%Q
  /\ str_len (fraction l) <= str_len frac.
Proof.
  intros Hs Hi Hne Hf l. destruct (trim_zeros_split frac) as [n Hn].
  set (f := trim_end_by (Ascii.eqb "0") frac) in *.
  assert (fraction l = f) as Hfr.
  { unfold l, trimmed_literal, fraction. fold f. cbv zeta. by destruct f. }
  rewrite Hn in Hf. apply digits_app in Hf as [Hf _].
  assert (mag frac = mag f * 10 ^ Z.of_nat n) as Hm
    by (rewrite Hn, mag_app, mag_repeat, str_len_repeat; lia).
  assert (str_len frac = str_len f + Z.of_nat n) as Hlen
    by (rewrite Hn, str_len_app, str_len_repeat; done).
  split_and!.
  - split; [done|done|by rewrite Hfr|by left|done].
  - rewrite literal_value_plain by done. unfold mantissa. rewrite Hfr. cbn [l l_int l_sign trimmed_literal].
    rewrite mag_app, Hm, Hlen. unfold Qeq. cbn [Qnum Qden].
    pose proof (str_len_nonneg f). rewrite !pow10_to_pos, !Z.pow_add_r by lia.
    unfold signed. destruct (minus sg); lia.
  - rewrite Hfr. lia.
Qed.

Lemma normalize_nonempty s : normalize_mag s <> "".
Proof. unfold normalize_mag. by destruct (trim_start_by _ s). Qed.

(** Only zero prints as [0]. *)
Lemma print_zero l : l_int l <> "" -> l_exp l = None -> print l = "0" -> mantissa l = 0.
Proof.
  intros Hne He. unfold print, mantissa, fraction. rewrite He. cbn [print_exponent].
  rewrite str_app_nil_r. destruct (l_sign l) as [|c sg].
  - rewrite str_app_nil_l. destruct (l_int l) as [|c i]; [done|]. rewrite str_app_cons.
    intros [= -> Hr]. destruct i as [|c i]; [|done]. rewrite str_app_nil_l in Hr.
    by destruct (l_frac l).
  - rewrite str_app_cons. intros [= _ Hr]. destruct sg; [|done]. by destruct (l_int l).
Qed.

(** Attaching the sign of a result. *)
Lemma signed_output neg l :
  literal_ok l -> l_int l <> "" -> l_exp l = None -> l_sign l = "" ->
  exists l', literal_ok l' /\ l_exp l' = None /\ fraction l' = fraction l
    /\ (if neg && negb (str_eqb (print l) "0") then String "-" (print l) else print l) = print l'
    /\ (literal_value l' == signed neg (mantissa l) # Z.to_pos (10 ^ str_len (fraction l)))%Q.
Proof.
  intros Hl Hne He Hs. destruct neg; simpl.
  - destruct (str_eqb (print l) "0") eqn:E; cbn [negb].
    + apply str_eqb_true in E. exists l. split_and!; try done.
      rewrite literal_value_plain, Hs by done. rewrite (print_zero l) by done. done.
    + set (l' := mkLit "-" (l_int l) (l_frac l) None). exists l'.
      destruct Hl as [_ Hi Hf Hsome _]. split_and!; try done.
      * split; unfold is_sign; simpl; auto. done.
      * unfold print. rewrite Hs, He. done.
      * by rewrite literal_value_plain.
  - exists l. split_and!; try done. rewrite literal_value_plain, Hs by done. done.
Qed.

Lemma float_print d p :
  wf d -> 1 <= p ->
  exists l, literal_ok l /\ l_exp l = None /\ float_string_trimmed d p = print l
    /\ (literal_value l == signed (negative d) (rounded d p) # Z.to_pos (10 ^ p))%Q
    /\ str_len (fraction l) <= p.
Proof.
  intros Hd Hp. unfold float_string_trimmed.
  destruct (round_to_spec d p Hd) as (r & -> & Hr & <-); [lia|]. cbv zeta.
  destruct (pad_left_spec (S (Z.to_nat p)) r (normal_digits _ Hr)) as (Dp & Mp & Lp).
  set (pad := pad_left _ _ _) in *. clearbody pad.
  destruct (str_split (str_len pad - p) pad) as (Hs & _ & Lf); [lia|].
  set (ip := str_take _ pad) in *. set (fp := str_drop _ pad) in *.
  assert (str_len fp = p) as Lf' by lia. clear Lf.
  rewrite Hs in Dp. apply digits_app in Dp as [Di Df].
  destruct (normalize_spec ip Di) as [Ni Mi]. set (int := normalize_mag ip) in *.
  assert (mag r = mag int * 10 ^ str_len fp + mag fp) as Hr'
    by (rewrite Mi, <- Mp, Hs; apply mag_app).
  destruct (Z.eqb_spec p 0); [lia|].
  destruct (trimmed_out int fp (normal_digits _ Ni) Df) as [Hc Ho]. cbv zeta in Hc, Ho. rewrite Hc, Ho.
  pose proof (trimmed_literal_spec "" int fp ltac:(by left) (normal_digits _ Ni)
    (normalize_nonempty ip) Df) as (Hl & Hv & Hle).
  destruct (signed_output (negative d) _ Hl (normalize_nonempty ip) eq_refl eq_refl)
    as (l' & Hl' & He' & Hf' & -> & Hv').
  exists l'. split_and!; [done|done|done| |by rewrite Hf'; lia].
  rewrite Hv', Hr', <- Lf'. rewrite literal_value_plain in Hv by done.
  cbn [minus l_sign trimmed_literal signed] in Hv. change (minus "") with false in Hv.
  unfold Qeq, signed in *. cbn [Qnum Qden] in *. destruct (negative d); lia.
Qed.

Lemma mag_all_zeros s : str_all (Ascii.eqb "0") s = true -> mag s = 0.
Proof.
  induction s as [|c s IH]; [done|]. cbn [str_all]. intros [Hc%Ascii.eqb_eq Hs]%andb_true_iff.
  rewrite mag_cons, IH, <- Hc by done. done.
Qed.

Lemma normal_nonempty s : normal s -> 1 <= str_len s.
Proof. by intros Hs; destruct (normal_cases s Hs) as [-> | [? _]]. Qed.

Lemma integer_print d :
  wf d -> str_len (coeff d) < 2 ^ 32 -> is_integer d = true ->
  exists l, literal_ok l /\ l_exp l = None /\ integer_string d = print l
    /\ (literal_value l == value d)%Q /\ str_len (fraction l) = 0.
Proof.
  intros Hd Hlen Hint. pose proof (wf_coeff d Hd) as Hn. pose proof (normal_digits _ Hn) as Hc.
  pose proof (wf_scale d Hd). pose proof (str_len_nonneg (coeff d)).
  unfold is_integer, integer_string in *. cbv zeta in *. rewrite wrap_u_id in Hint |- * by lia.
  assert (exists k, digits k /\ mag (coeff d) = mag k * 10 ^ scale d
    /\ (if str_len (coeff d) <=? scale d then "0"
        else normalize_mag (str_take (str_len (coeff d) - scale d) (coeff d))) = normalize_mag k)
    as (k & Dk & Mk & ->).
  { destruct (Z.leb_spec (str_len (coeff d)) (scale d)) as [Hle|Hgt].
    - destruct (Z.eqb_spec (scale d) 0) as [E|]; [pose proof (normal_nonempty _ Hn); lia|].
      apply str_eqb_true in Hint as ->. by exists "0".
    - destruct (str_split (str_len (coeff d) - scale d) (coeff d)) as (Hs & _ & Lz); [lia|].
      set (k := str_take _ _) in *. set (z := str_drop _ _) in *. exists k.
      rewrite Hs in Hc. apply digits_app in Hc as [Dk _]. split_and!; [done| |done].
      rewrite Hs at 1. rewrite mag_app. replace (str_len z) with (scale d) by lia.
      assert (mag z = 0); [|lia]. destruct (Z.eqb_spec (scale d) 0) as [E|]; [|by apply mag_all_zeros].
      destruct z as [|c z]; [done|]. rewrite str_len_cons in Lz. pose proof (str_len_nonneg z). lia. }
  destruct (normalize_spec k Dk) as [Nk Mk']. set (l := mkLit "" (normalize_mag k) None None).
  assert (mantissa l = mag k) as Hman by (unfold mantissa; cbn; by rewrite str_app_nil_r).
  assert (print l = normalize_mag k) as <-.
  { unfold print. cbn [l l_sign l_int l_frac l_exp print_fraction print_exponent].
    by rewrite !str_app_nil_r, str_app_nil_l. }
  assert (literal_ok l) as Hl.
  { split; simpl; [by left|by apply normal_digits|done|left; apply normalize_nonempty|done]. }
  destruct (signed_output (negative d) l Hl (normalize_nonempty k) eq_refl eq_refl)
    as (l' & Hl' & He' & Hf' & -> & Hv'). exists l'. split_and!; [done..| |by rewrite Hf'].
  rewrite Hv', Hman. unfold value. rewrite Mk. unfold Qeq. cbn [Qnum Qden].
  change (10 ^ str_len (fraction l)) with 1. rewrite pow10_to_pos by lia. unfold signed.
  destruct (negative d); lia.
Qed.

(** Formatting loses nothing when the precision covers the scale. *)
Lemma format_sum_print d p :
  wf d -> str_len (coeff d) < 2 ^ 32 -> scale d <= Z.max p 1 ->
  exists l, literal_ok l /\ l_exp l = None /\ format_sum d p = print l
    /\ (literal_value l == value d)%Q /\ str_len (fraction l) <= Z.max p 1.
Proof.
  intros Hd Hlen Hp. unfold format_sum. destruct (is_integer d) eqn:E.
  - destruct (integer_print d Hd Hlen E) as (l & ? & ? & ? & ? & ?). exists l. split_and!; try done; lia.
  - destruct (float_print d (Z.max p 1) Hd) as (l & ? & ? & ? & Hv & ?); [lia|]. exists l.
    split_and!; try done. rewrite Hv, rounded_exact by done. pose proof (wf_scale d Hd).
    unfold value, Qeq. cbn [Qnum Qden]. rewrite !pow10_to_pos by lia.
    replace (10 ^ Z.max p 1) with (10 ^ (Z.max p 1 - scale d) * 10 ^ scale d)
      by (rewrite <- Z.pow_add_r by lia; f_equal; lia).
    unfold signed. destruct (negative d); lia.
Qed.

Lemma add_mag_bound a b :
  wf a -> wf b ->
  mag (coeff (add a b))
  <= mag (coeff_at_scale a (Z.max (scale a) (scale b))) + mag (coeff_at_scale b (Z.max (scale a) (scale b))).
Proof.
  intros Ha Hb. unfold add. cbv zeta. set (s := Z.max (scale a) (scale b)).
  destruct (at_scale_spec a s Ha) as [Na _]; [lia|]. destruct (at_scale_spec b s Hb) as [Nb _]; [lia|].
  set (am := coeff_at_scale a s) in *. set (bm := coeff_at_scale b s) in *.
  pose proof (normal_digits _ Na) as Da. pose proof (normal_digits _ Nb) as Db.
  pose proof (mag_range _ Da). pose proof (mag_range _ Db).
  destruct (Bool.eqb _ _); [destruct (add_mag_spec am bm Da Db); simpl; lia|].
  rewrite cmp_mag_spec by done. destruct (Z.compare_spec (mag am) (mag bm)) as [E|E|E].
  - change (mag (coeff zero)) with 0. lia.
  - destruct (sub_mag_spec bm am Db Da) as [_ Hm]; [lia|]. simpl. lia.
  - destruct (sub_mag_spec am bm Da Db) as [_ Hm]; [lia|]. simpl. lia.
Qed.

(** The sum has at most one digit more than the wider aligned operand. *)
Lemma add_len a b :
  wf a -> wf b ->
  str_len (coeff (add a b)) <= str_len (coeff a) + str_len (coeff b) + Z.max (scale a) (scale b) + 1.
Proof.
  intros Ha Hb. pose proof (wf_scale a Ha). pose proof (wf_scale b Hb).
  pose proof (normal_nonempty _ (wf_coeff a Ha)). pose proof (normal_nonempty _ (wf_coeff b Hb)).
  set (s := Z.max (scale a) (scale b)).
  assert (forall d, wf d -> scale d <= s -> mag (coeff_at_scale d s) < 10 ^ (str_len (coeff d) + s)) as Hbd.
  { intros d Hd Hs. pose proof (wf_scale d Hd). destruct (at_scale_spec d s Hd Hs) as [_ ->].
    pose proof (mag_range _ (normal_digits _ (wf_coeff d Hd))).
    pose proof (str_len_nonneg (coeff d)).
    rewrite Z.pow_add_r by lia. pose proof (pow10_pos (s - scale d)).
    assert (10 ^ (s - scale d) <= 10 ^ s) by (apply Z.pow_le_mono_r; lia). nia. }
  pose proof (Hbd a Ha ltac:(lia)). pose proof (Hbd b Hb ltac:(lia)).
  pose proof (add_mag_bound a b Ha Hb) as Hm. fold s in Hm.
  apply normal_len; [apply add_value; done| |lia].
  set (k := str_len (coeff a) + str_len (coeff b) + s) in *.
  assert (10 ^ (str_len (coeff a) + s) <= 10 ^ k) by (apply Z.pow_le_mono_r; lia).
  assert (10 ^ (str_len (coeff b) + s) <= 10 ^ k) by (apply Z.pow_le_mono_r; lia).
  rewrite Z.pow_add_r by lia. pose proof (pow10_pos k). lia.
Qed.

End Formatting.

(** ** What the operations compute *)

Section Results.

Lemma no_point s : str_all (fun c => is_ascii_digit c || Ascii.eqb c "+" || Ascii.eqb c "-") s = true ->
  str_all (negb ∘ Ascii.eqb ".") s = true.
Proof.
  apply str_all_impl. intros c Hc. apply negb_true_iff.
  destruct (Ascii.eqb_spec "." c) as [<-|_]; [|done]. by vm_compute in Hc.
Qed.

Lemma decimal_places_print l :
  literal_ok l -> l_exp l = None -> str_len (print l) < 2 ^ 32 ->
  decimal_places (print l) = str_len (fraction l).
Proof.
  intros [Hs Hi Hf _ _] He Hlen. unfold decimal_places, print, fraction in *. rewrite He in *.
  cbn [print_exponent] in *. rewrite str_app_nil_r in *.
  assert (str_all (negb ∘ Ascii.eqb ".") (l_sign l +:+ l_int l) = true) as Hnp.
  { apply no_point. rewrite str_all_app. apply andb_true_iff. split.
    - by destruct Hs as [-> | [-> | ->]].
    - revert Hi. apply str_all_impl. by intros c ->. }
  destruct (l_frac l) as [f|]; cbn [print_fraction default from_option] in *.
  - rewrite <- str_app_assoc in *. set (pre := l_sign l +:+ l_int l) in *. clearbody pre.
    change (String "." f) with (char_str "." +:+ f) in *.
    change (split_once ".") with (split_once (char_str ".")). rewrite split_once_char by done.
    rewrite !str_len_app in *. change (str_len (char_str ".")) with 1 in *.
    change (id f) with f in *.
    pose proof (str_len_nonneg f). pose proof (str_len_nonneg pre). rewrite wrap_u_id; lia.
  - rewrite str_app_nil_r. change (split_once ".") with (split_once (char_str ".")).
    by rewrite split_once_char_None.
Qed.

Lemma print_len l :
  l_exp l = None ->
  str_len (l_int l +:+ fraction l) <= str_len (print l)
  /\ str_len (fraction l) <= str_len (print l).
Proof.
  intros He. unfold print, fraction. rewrite He. cbn [print_exponent]. rewrite !str_len_app.
  pose proof (str_len_nonneg (l_sign l)). pose proof (str_len_nonneg (l_int l)).
  destruct (l_frac l) as [f|]; cbn [print_fraction default from_option id];
    [rewrite str_len_cons|]; pose proof (str_len_nonneg ""); lia.
Qed.

(** Parsing a literal without exponent: its scale is its number of fraction
    digits. *)
Lemma plain_parse l :
  literal_ok l -> l_exp l = None -> str_len (print l) < 2 ^ 31 ->
  exists d, parse (print l) = Some d /\ wf d /\ (value d == literal_value l)%Q
    /\ scale d = str_len (fraction l) /\ str_len (coeff d) <= str_len (print l).
Proof.
  intros Hl He Hlen. exists (literal_decimal l). destruct (print_len l He) as [L1 L2].
  pose proof (str_len_nonneg (fraction l)).
  assert (exponent l = 0) as Hx by (unfold exponent; by rewrite He).
  assert (exponent_fits l) as Hfit by (unfold exponent_fits, i64_max; rewrite Hx; lia).
  destruct (literal_decimal_spec l Hl Hfit) as [Hw Hv].
  split_and!; [by apply parse_print; [|apply trim_print]|done|done|..].
  - unfold literal_decimal. rewrite Hx, wrap_s_id by lia. unfold place_exponent.
    destruct (Z.leb_spec 0 (0 - str_len (fraction l))); simpl; [lia|]. rewrite wrap_u_id; lia.
  - pose proof (literal_digits l Hl) as Hd. destruct (normalize_spec _ Hd) as [Hn Hm].
    assert (mag (coeff (literal_decimal l)) = mantissa l) as Hc.
    { unfold literal_decimal. rewrite Hx, wrap_s_id by lia. unfold place_exponent.
      destruct (Z.leb_spec 0 (0 - str_len (fraction l))) as [Hz|Hz]; simpl; [|done].
      destruct (push_zeros_spec (0 - str_len (fraction l)) _ Hz (normal_digits _ Hn)) as [Hp Hpm].
      rewrite mag_normalize, Hpm, Hm by done.
      replace (0 - str_len (fraction l)) with 0 by lia. unfold mantissa. lia. }
    transitivity (str_len (l_int l +:+ fraction l)); [|done]. apply normal_len.
    + apply Hw.
    + rewrite Hc. by apply mag_range.
    + destruct Hl as [_ _ _ Hsome _]. rewrite str_len_app.
      pose proof (str_len_nonneg (l_int l)).
      destruct Hsome as [Hne|Hne]; [destruct (l_int l)|destruct (fraction l)]; try done;
        rewrite str_len_cons in *; match goal with |- context [1 + str_len ?s] => pose proof (str_len_nonneg s) end; lia.
Qed.

Lemma negated_wf d :
  wf d -> let d' := if negb (is_zero d) then mkDecimal (negb (negative d)) (coeff d) (scale d) else d in
  wf d' /\ (value d' == - value d)%Q /\ coeff d' = coeff d /\ scale d' = scale d.
Proof.
  intros Hd d'. subst d'. destruct (is_zero d) eqn:E; cbn [negb].
  - split_and!; try done. apply is_zero_true in E; [|done]. unfold value. rewrite E.
    unfold Qeq, signed. simpl. by destruct (negative d).
  - split_and!; try done.
    + destruct Hd as [Hc _ Hs]. split; [done| |done]. simpl. intros Hz. unfold is_zero in E.
      by rewrite Hz in E.
    + unfold value, Qeq, signed. simpl. destruct (negative d); simpl; lia.
Qed.

(** Whatever the exponent, what is parsed is a decimal and what is printed is a
    number. *)
Lemma literal_decimal_wf l : literal_ok l -> wf (literal_decimal l).
Proof.
  intros Hl. pose proof (normalize_normal _ (literal_digits l Hl)) as Hn. unfold literal_decimal, place_exponent.
  set (te := wrap_s 64 _). destruct (Z.leb_spec 0 te).
  - apply mk_signed; [|lia]. apply normalize_normal. by apply push_zeros_spec, normal_digits.
  - apply mk_signed; [done|]. unfold wrap_u. by apply Z.mod_pos_bound.
Qed.
Lemma parse_wf s d : parse s = Some d -> wf d.
Proof.
  intros Hp. destruct (parse_inv s d Hp) as (l & Hl & Ht). rewrite (parse_print s l Hl Ht) in Hp.
  injection Hp as <-. by apply literal_decimal_wf.
Qed.
Lemma print_valid l : literal_ok l -> is_valid_number (print l) = true.
Proof.
  intros Hl. unfold is_valid_number. rewrite (parse_print _ l Hl (trim_print l Hl)). done.
Qed.
Lemma digits_valid neg s : digits s -> s <> "" -> is_valid_number (if neg : bool then String "-" s else s) = true.
Proof.
  intros Hs Hne. set (l := mkLit (if neg then "-" else "") s None None).
  replace (if neg then String "-" s else s) with (print l).
  - apply print_valid. split; simpl; try done; [destruct neg; unfold is_sign; auto|by left].
  - unfold print. cbn [l l_sign l_int l_frac l_exp print_fraction print_exponent]. rewrite !str_app_nil_r.
    by destruct neg.
Qed.
Lemma str_take_digits n s : digits s -> digits (str_take n s).
Proof.
  intros Hs. unfold str_take. generalize (Z.to_nat n). intros k. revert s Hs.
  induction k as [|k IH]; intros [|c s] Hs; try done. apply digits_cons in Hs as [Hc Hs].
  cbn [String.substring]. apply digits_cons. by split; [|apply IH].
Qed.
Lemma format_sum_valid d p : wf d -> is_valid_number (format_sum d p) = true.
Proof.
  intros Hd. unfold format_sum. destruct (is_integer d).
  - unfold integer_string. cbv zeta.
    set (s := if wrap_u 32 _ <=? _ then _ else _).
    assert (normal s) as Hs.
    { unfold s. destruct (_ <=? _); [done|]. by apply normalize_normal, str_take_digits, normal_digits, Hd. }
    apply digits_valid; [by apply normal_digits|]. intros ->. by apply normal_nonempty in Hs.
  - destruct (float_print d (Z.max p 1) Hd) as (l & Hl & _ & -> & _); [lia|]. by apply print_valid.
Qed.
Lemma add_number_valid s t r : add_number_strings s t = Ok r -> is_valid_number r = true.
Proof.
  unfold add_number_strings. destruct (parse s) as [a|] eqn:Ha; [|done].
  destruct (parse t) as [b|] eqn:Hb; [|done]. simpl. intros [= <-].
  apply format_sum_valid, add_value; by eapply parse_wf.
Qed.
Lemma negate_number_valid s r : negate_number_string s = Ok r -> is_valid_number r = true.
Proof.
  unfold negate_number_string. destruct (parse s) as [a|] eqn:Ha; [|done]. simpl. intros [= <-].
  apply format_sum_valid, negated_wf. by eapply parse_wf.
Qed.

End Results.

(** The strings accepted as numbers are exactly those of the grammar: after
    trimming, an optional sign, digits with an optional point and at least one
    digit, and an optional exponent whose digits fit an [i64]. *)
Theorem valid_number_language s :
  is_valid_number s = true <-> exists l, literal_ok l /\ trim s = print l.
Proof.
  unfold is_valid_number. rewrite bool_decide_eq_true. split.
  - intros [d Hd]. by eapply parse_inv.
  - intros (l & Hl & Ht). exists (literal_decimal l). by apply parse_print.
Qed.

(** numbers compare by value: for literals whose exponents stay in range, with
    any surrounding white space, the comparison of two number strings is the
    comparison of the rationals they denote, whatever their notation (signs, leading
    and trailing zeros, exponents). *)
Theorem compare_numbers_exact s1 s2 l1 l2 :
  literal_ok l1 -> literal_ok l2 -> trim s1 = print l1 -> trim s2 = print l2 ->
  exponent_fits l1 -> exponent_fits l2 ->
  compare_number_strings s1 s2 = (literal_value l1 ?= literal_value l2)%Q.
Proof.
  intros O1 O2 T1 T2 F1 F2. unfold compare_number_strings.
  rewrite (parse_print s1 l1), (parse_print s2 l2) by done.
  destruct (literal_decimal_spec l1 O1 F1) as [W1 V1]. destruct (literal_decimal_spec l2 O2 F2) as [W2 V2].
  by rewrite compare_value, V1, V2.
Qed.

(** addition is exact: adding two numbers written without exponent succeeds and
    prints a number that denotes exactly the sum of the two, at any number of digits
    and with any signs. *)
Theorem add_numbers_exact l1 l2 :
  literal_ok l1 -> literal_ok l2 -> l_exp l1 = None -> l_exp l2 = None ->
  str_len (print l1) < 2 ^ 30 -> str_len (print l2) < 2 ^ 30 ->
  exists l, add_number_strings (print l1) (print l2) = Ok (print l)
    /\ literal_ok l /\ l_exp l = None
    /\ (literal_value l == literal_value l1 + literal_value l2)%Q.
Proof.
  intros O1 O2 E1 E2 L1 L2.
  destruct (plain_parse l1 O1 E1) as (a & Pa & Wa & Va & Sa & La); [lia|].
  destruct (plain_parse l2 O2 E2) as (b & Pb & Wb & Vb & Sb & Lb); [lia|].
  destruct (print_len l1 E1) as [_ F1]. destruct (print_len l2 E2) as [_ F2].
  unfold add_number_strings. rewrite Pa, Pb. cbn [ok_or mbind outcome_bind].
  rewrite !decimal_places_print by (done || lia).
  destruct (add_value a b Wa Wb) as [W V]. pose proof (add_len a b Wa Wb).
  assert (scale (add a b) <= Z.max (scale a) (scale b)) as Hs.
  { unfold add. pose proof (wf_scale a Wa). destruct (Bool.eqb _ _); [simpl; lia|].
    destruct (cmp_mag _ _); simpl; lia. }
  destruct (format_sum_print (add a b) (Z.max (str_len (fraction l1)) (str_len (fraction l2))) W)
    as (l & Hl & He & -> & Hv & _); [lia..|].
  exists l. split_and!; try done. by rewrite Hv, V, Va, Vb.
Qed.

(** Negation is exact: negating a number written without exponent prints a
    number that denotes its opposite. *)
Theorem negate_number_exact l1 :
  literal_ok l1 -> l_exp l1 = None -> str_len (print l1) < 2 ^ 30 ->
  exists l, negate_number_string (print l1) = Ok (print l)
    /\ literal_ok l /\ l_exp l = None /\ (literal_value l == - literal_value l1)%Q.
Proof.
  intros O1 E1 L1. destruct (plain_parse l1 O1 E1) as (a & Pa & Wa & Va & Sa & La); [lia|].
  unfold negate_number_string. rewrite Pa. cbn [ok_or mbind outcome_bind]. cbv zeta.
  destruct (negated_wf a Wa) as (W & V & Hc & Hs). cbv zeta in W, V, Hc, Hs.
  set (d := if negb (is_zero a) then _ else a) in *.
  rewrite decimal_places_print by (done || lia).
  destruct (format_sum_print d (str_len (fraction l1)) W) as (l & Hl & He & -> & Hv & _);
    [rewrite Hc; lia|rewrite Hs; lia|].
  exists l. split_and!; try done. by rewrite Hv, V, Va.
Qed.

(** With exponents the lexical precision (digits after the point) does not cover the
    scale, and the sum is rounded away. *)
Theorem add_exponent_rounds : add_number_strings "1e-2" "1e-2" = Ok "0".
Proof. vm_compute. reflexivity. Qed.

(** The scale is truncated to 32 bits: a tiny number parses as 1. *)
Theorem parse_scale_truncates : parse "1e-4294967296" = Some (mkDecimal false "1" 0).
Proof. vm_compute. reflexivity. Qed.

(** ** Witnesses *)

Definition lit (sg int : string) (frac : option string) : literal := mkLit sg int frac None.

Lemma lit_ok sg int frac :
  is_sign sg -> digits int -> digits (default "" frac) -> int <> "" -> literal_ok (lit sg int frac).
Proof. intros. split; simpl; auto. done. Qed.

Lemma compare_numbers_exact_witness : compare_number_strings " 1e2" "100.0" = Eq.
Proof.
  set (l1 := mkLit "" "1" None (Some (mkExp "e" "" "2"))). set (l2 := lit "" "100" (Some "0")).
  assert (literal_ok l1) as O1.
  { split; simpl; try done; [by left|by left|]. intros e [= <-]. split_and!; try done; by left. }
  assert (literal_ok l2) as O2 by (apply lit_ok; try done; by left).
  rewrite (compare_numbers_exact " 1e2" "100.0" l1 l2 O1 O2); [|done..]. vm_compute. reflexivity.
Defined.

Lemma add_numbers_exact_witness :
  exists l, add_number_strings "-1.25" "0.5" = Ok (print l) /\ (literal_value l == -(75 # 100))%Q.
Proof.
  destruct (add_numbers_exact (lit "-" "1" (Some "25")) (lit "" "0" (Some "5"))) as (l & Ha & _ & _ & Hv);
    [apply lit_ok; try done; unfold is_sign; auto|apply lit_ok; try done; by left|done..|].
  exists l. split; [exact Ha|]. rewrite Hv. vm_compute. reflexivity.
Defined.

Lemma negate_number_exact_witness :
  exists l, negate_number_string "1.50" = Ok (print l) /\ (literal_value l == -(3 # 2))%Q.
Proof.
  destruct (negate_number_exact (lit "" "1" (Some "50"))) as (l & Ha & _ & _ & Hv);
    [apply lit_ok; try done; by left|done..|].
  exists l. split; [exact Ha|]. rewrite Hv. vm_compute. reflexivity.
Defined.
