(* ===== verification/DynModel.v ===== *)
(** The data of the DynamoDB service: its records (services/dynamodb/src/model.rs), their
    wire forms, and the requests (requests.rs). *)

From S2P Require Import Prelude RustStr RustNum Json.
Local Open Scope string_scope.
Local Open Scope Z_scope.

(** The data of the DynamoDB service (src/services/dynamodb/src/model.rs); an
    attribute value is a JSON value. *)

(** ** The model *)

(** [AttributeValue = Value], [Item = BTreeMap<String, AttributeValue>] *)
Abbreviation Item := (gmap string Value).
Abbreviation Names := (gmap string string).
Abbreviation Values := (gmap string Value).
(** [serde_json::to_value(item)] *)
Definition item_value (i : Item) : Value := JObject (btree_iter i).

Record AttributeDefinition := mkAttrDef { ad_name : string; ad_type : string }.
Record KeySchemaElement := mkKey { attribute_name : string; key_type : string }.
Record BillingModeSummary := mkBilling { bm_billing_mode : string }.
Record StreamSpecification := mkStreamSpec { stream_enabled : bool; stream_view_type : string }.
Record TimeToLiveDescription := mkTtl { ttl_attribute_name : string; time_to_live_status : string }.
Record IndexProjection := mkProjection { projection_type : string; non_key_attributes : list string }.
Record GlobalSecondaryIndexDescription := mkGsi {
  gsi_arn : string; gsi_name : string; gsi_size_bytes : Z; gsi_status : string; gsi_item_count : Z;
  gsi_key_schema : list KeySchemaElement; gsi_projection : IndexProjection;
  gsi_provisioned_throughput : gmap string Z }.
Record LocalSecondaryIndexDescription := mkLsi {
  lsi_arn : string; lsi_name : string; lsi_size_bytes : Z; lsi_item_count : Z;
  lsi_key_schema : list KeySchemaElement; lsi_projection : IndexProjection }.
Record PointInTimeRecoveryDescription := mkPitr { pitr_status : string }.
Record ContinuousBackupsDescription := mkCb {
  continuous_backups_status : string; pitr_description : PointInTimeRecoveryDescription }.
Record TableDescription := mkDesc {
  attribute_definitions : list AttributeDefinition;
  billing_mode_summary : option BillingModeSummary;
  creation_date_time : Z;
  global_secondary_indexes : list GlobalSecondaryIndexDescription;
  item_count : Z;
  key_schema : list KeySchemaElement;
  latest_stream_arn : string;
  latest_stream_label : string;
  local_secondary_indexes : list LocalSecondaryIndexDescription;
  stream_specification : option StreamSpecification;
  table_arn : string;
  table_name : string;
  table_size_bytes : Z;
  table_status : string;
  time_to_live_description : option TimeToLiveDescription }.
Record StreamRecordImage := mkImage {
  approximate_creation_date_time : Z; img_keys : Item; new_image : Item; old_image : Item;
  sequence_number : string; size_bytes : Z; img_view_type : string }.
Record StreamRecord := mkRecord {
  event_id : string; event_name : string; event_source : string; event_version : string;
  aws_region : string; sr_dynamodb : StreamRecordImage }.

(** The wire forms of the DynamoDB model (the [Serialize] derives of
    src/services/dynamodb/src/model.rs) and the API error of errors.rs. *)

(** ** model.rs *)

Definition attribute_definition_value (d : AttributeDefinition) : Value :=
  struct_value [field "AttributeName" (JString (ad_name d)); field "AttributeType" (JString (ad_type d))].
Definition key_schema_value (k : KeySchemaElement) : Value :=
  struct_value [field "AttributeName" (JString (attribute_name k)); field "KeyType" (JString (key_type k))].
Definition billing_value (b : BillingModeSummary) : Value :=
  struct_value [field "BillingMode" (JString (bm_billing_mode b))].
Definition stream_spec_value (s : StreamSpecification) : Value :=
  struct_value [field "StreamEnabled" (JBool (stream_enabled s));
                str_field "StreamViewType" (stream_view_type s)].
Definition ttl_value (t : TimeToLiveDescription) : Value :=
  struct_value [str_field "AttributeName" (ttl_attribute_name t);
                field "TimeToLiveStatus" (JString (time_to_live_status t))].
Definition projection_value (p : IndexProjection) : Value :=
  struct_value [field "ProjectionType" (JString (projection_type p));
                skip_if (nil_b (non_key_attributes p)) "NonKeyAttributes" (json_strings (non_key_attributes p))].
Definition gsi_value (i : GlobalSecondaryIndexDescription) : Value :=
  struct_value [field "IndexArn" (JString (gsi_arn i)); field "IndexName" (JString (gsi_name i));
    field "IndexSizeBytes" (int_value (gsi_size_bytes i)); field "IndexStatus" (JString (gsi_status i));
    field "ItemCount" (int_value (gsi_item_count i));
    field "KeySchema" (JArray (map key_schema_value (gsi_key_schema i)));
    field "Projection" (projection_value (gsi_projection i));
    skip_if (bool_decide (gsi_provisioned_throughput i = ∅)) "ProvisionedThroughput"
      (map_value int_value (gsi_provisioned_throughput i))].
Definition lsi_value (i : LocalSecondaryIndexDescription) : Value :=
  struct_value [field "IndexArn" (JString (lsi_arn i)); field "IndexName" (JString (lsi_name i));
    field "IndexSizeBytes" (int_value (lsi_size_bytes i)); field "ItemCount" (int_value (lsi_item_count i));
    field "KeySchema" (JArray (map key_schema_value (lsi_key_schema i)));
    field "Projection" (projection_value (lsi_projection i))].
Definition pitr_value (p : PointInTimeRecoveryDescription) : Value :=
  struct_value [field "PointInTimeRecoveryStatus" (JString (pitr_status p))].
Definition continuous_backups_value (c : ContinuousBackupsDescription) : Value :=
  struct_value [field "ContinuousBackupsStatus" (JString (continuous_backups_status c));
                field "PointInTimeRecoveryDescription" (pitr_value (pitr_description c))].
Definition description_value (d : TableDescription) : Value :=
  struct_value [
    list_field "AttributeDefinitions" attribute_definition_value (attribute_definitions d);
    opt_field "BillingModeSummary" billing_value (billing_mode_summary d);
    field "CreationDateTime" (int_value (creation_date_time d));
    list_field "GlobalSecondaryIndexes" gsi_value (global_secondary_indexes d);
    field "ItemCount" (int_value (item_count d));
    list_field "KeySchema" key_schema_value (key_schema d);
    str_field "LatestStreamArn" (latest_stream_arn d);
    str_field "LatestStreamLabel" (latest_stream_label d);
    list_field "LocalSecondaryIndexes" lsi_value (local_secondary_indexes d);
    opt_field "StreamSpecification" stream_spec_value (stream_specification d);
    field "TableArn" (JString (table_arn d));
    field "TableName" (JString (table_name d));
    field "TableSizeBytes" (int_value (table_size_bytes d));
    field "TableStatus" (JString (table_status d));
    opt_field "TimeToLiveDescription" ttl_value (time_to_live_description d)].

Record BackupDetails := mkDetails {
  backup_arn : string; backup_creation_date_time : Z; backup_name : string; backup_size_bytes : Z;
  backup_status : string; backup_type : string }.
Record SourceTableDetails := mkSource {
  src_attribute_definitions : list AttributeDefinition; src_billing_mode : string; src_item_count : Z;
  src_key_schema : list KeySchemaElement; src_table_arn : string; src_creation_date_time : Z;
  src_table_id : string; src_table_name : string; src_table_size_bytes : Z }.
Record BackupDescription := mkBackup {
  backup_details : BackupDetails; source_table_details : SourceTableDetails }.
Record Tag := mkTag { tag_key : string; tag_value : string }.
Record BackupSummary := mkSummary {
  bs_backup_arn : string; bs_creation_date_time : Z; bs_backup_name : string; bs_size_bytes : Z;
  bs_status : string; bs_type : string; bs_table_arn : string; bs_table_name : string }.

Definition backup_details_value (d : BackupDetails) : Value :=
  struct_value [field "BackupArn" (JString (backup_arn d));
    field "BackupCreationDateTime" (int_value (backup_creation_date_time d));
    field "BackupName" (JString (backup_name d)); field "BackupSizeBytes" (int_value (backup_size_bytes d));
    field "BackupStatus" (JString (backup_status d)); field "BackupType" (JString (backup_type d))].
Definition source_table_value (d : SourceTableDetails) : Value :=
  struct_value [
    list_field "AttributeDefinitions" attribute_definition_value (src_attribute_definitions d);
    str_field "BillingMode" (src_billing_mode d); field "ItemCount" (int_value (src_item_count d));
    list_field "KeySchema" key_schema_value (src_key_schema d);
    field "TableArn" (JString (src_table_arn d));
    field "TableCreationDateTime" (int_value (src_creation_date_time d));
    field "TableId" (JString (src_table_id d)); field "TableName" (JString (src_table_name d));
    field "TableSizeBytes" (int_value (src_table_size_bytes d))].
Definition backup_value (d : BackupDescription) : Value :=
  struct_value [field "BackupDetails" (backup_details_value (backup_details d));
                field "SourceTableDetails" (source_table_value (source_table_details d))].
Definition tag_value_json (t : Tag) : Value :=
  struct_value [field "Key" (JString (tag_key t)); field "Value" (JString (tag_value t))].
Definition backup_summary_value (s : BackupSummary) : Value :=
  struct_value [field "BackupArn" (JString (bs_backup_arn s));
    field "BackupCreationDateTime" (int_value (bs_creation_date_time s));
    field "BackupName" (JString (bs_backup_name s)); field "BackupSizeBytes" (int_value (bs_size_bytes s));
    field "BackupStatus" (JString (bs_status s)); field "BackupType" (JString (bs_type s));
    field "TableArn" (JString (bs_table_arn s)); field "TableName" (JString (bs_table_name s))].
Definition image_value (i : StreamRecordImage) : Value :=
  struct_value [field "ApproximateCreationDateTime" (int_value (approximate_creation_date_time i));
    field "Keys" (item_value (img_keys i));
    skip_if (bool_decide (new_image i = ∅)) "NewImage" (item_value (new_image i));
    skip_if (bool_decide (old_image i = ∅)) "OldImage" (item_value (old_image i));
    field "SequenceNumber" (JString (sequence_number i)); field "SizeBytes" (int_value (size_bytes i));
    field "StreamViewType" (JString (img_view_type i))].
Definition stream_record_value (r : StreamRecord) : Value :=
  struct_value [field "eventID" (JString (event_id r)); field "eventName" (JString (event_name r));
    field "eventSource" (JString (event_source r)); field "eventVersion" (JString (event_version r));
    field "awsRegion" (JString (aws_region r)); field "dynamodb" (image_value (sr_dynamodb r))].

(** ** errors.rs *)

Record ApiError := mkError {
  e_status : Z; e_name : string; e_message : string; e_extra : list (string * Value) }.

Definition api_error (status : Z) (name message : string) : ApiError := mkError status name message [].
Definition validation (message : string) : ApiError := api_error 400 "ValidationException" message.
Definition not_found (message : string) : ApiError := api_error 400 "ResourceNotFoundException" message.
Definition in_use (message : string) : ApiError := api_error 400 "ResourceInUseException" message.
Definition internal (message : string) : ApiError := api_error 500 "InternalServerError" message.
Definition condition_check_failed (message return_values : string) (old_item : option Item) : ApiError :=
  let err := api_error 400 "ConditionalCheckFailedException" message in
  if str_eqb return_values "ALL_OLD" then
    match old_item with
    | Some item => mkError (e_status err) (e_name err) (e_message err) (obj_insert "Item" (item_value item) [])
    | None => err
    end
  else err.
Definition error_body (e : ApiError) : Value :=
  let m := obj_insert "__type" (JString ("com.amazonaws.dynamodb.v20120810#" +:+ e_name e)) (e_extra e) in
  JObject (obj_insert "message" (JString (e_message e)) m).
Definition body_bytes `{SerdeJson} (e : ApiError) : string := to_vec (error_body e).

(** The request payloads of the DynamoDB API (src/services/dynamodb/src/requests.rs),
    one record per struct, each with its own prefix on the field names. *)

Local Open Scope Z_scope.

Record IndexProjectionRequest := mkIndexProjectionRequest {
  ip_projection_type : string; ip_non_key_attributes : list string }.
Record GlobalSecondaryIndexRequest := mkGlobalSecondaryIndexRequest {
  gsr_index_name : string; gsr_key_schema : list KeySchemaElement;
  gsr_projection : IndexProjectionRequest }.
Record LocalSecondaryIndexRequest := mkLocalSecondaryIndexRequest {
  lsr_index_name : string; lsr_key_schema : list KeySchemaElement;
  lsr_projection : IndexProjectionRequest }.
Record CreateTableRequest := mkCreateTableRequest {
  ct_table_name : string; ct_attribute_definitions : list AttributeDefinition;
  ct_key_schema : list KeySchemaElement; ct_global_secondary_indexes : list GlobalSecondaryIndexRequest;
  ct_local_secondary_indexes : list LocalSecondaryIndexRequest; ct_billing_mode : string;
  ct_stream_specification : StreamSpecification }.
Record ListTablesRequest := mkListTablesRequest {
  lt_exclusive_start_table_name : string; lt_limit : Z }.
Record DeleteGlobalSecondaryIndex := mkDeleteGlobalSecondaryIndex { dgsi_index_name : string }.
Record UpdateGlobalSecondaryIndex := mkUpdateGlobalSecondaryIndex { ugsi_index_name : string }.
Record GlobalSecondaryIndexUpdate := mkGlobalSecondaryIndexUpdate {
  gsu_create : option GlobalSecondaryIndexRequest; gsu_delete : option DeleteGlobalSecondaryIndex;
  gsu_update : option UpdateGlobalSecondaryIndex }.
Record UpdateTableRequest := mkUpdateTableRequest {
  ut_table_name : string; ut_attribute_definitions : list AttributeDefinition; ut_billing_mode : string;
  ut_global_secondary_index_updates : list GlobalSecondaryIndexUpdate;
  ut_stream_specification : option StreamSpecification }.
Record PutItemRequest := mkPutItemRequest {
  pi_table_name : string; pi_item : Item; pi_condition_expression : string;
  pi_expression_attribute_names : gmap string string; pi_expression_attribute_values : gmap string Value;
  pi_return_values : string; pi_return_values_on_condition_check_failure : string;
  pi_return_consumed_capacity : string }.
Record GetItemRequest := mkGetItemRequest {
  gi_table_name : string; gi_key : Item; gi_projection_expression : string;
  gi_expression_attribute_names : gmap string string; gi_consistent_read : bool;
  gi_return_consumed_capacity : string }.
Record TagResourceRequest := mkTagResourceRequest { tr_resource_arn : string; tr_tags : list Tag }.
Record ListTagsOfResourceRequest := mkListTagsOfResourceRequest {
  ltr_resource_arn : string; ltr_next_token : string }.
Record UntagResourceRequest := mkUntagResourceRequest {
  ur_resource_arn : string; ur_tag_keys : list string }.
Record PutResourcePolicyRequest := mkPutResourcePolicyRequest {
  prp_resource_arn : string; prp_policy : string }.
Record ResourceArnRequest := mkResourceArnRequest { ra_resource_arn : string }.
Record PointInTimeRecoverySpecification := mkPointInTimeRecoverySpecification {
  pitrs_point_in_time_recovery_enabled : bool }.
Record UpdateContinuousBackupsRequest := mkUpdateContinuousBackupsRequest {
  ucb_table_name : string; ucb_point_in_time_recovery_specification : PointInTimeRecoverySpecification }.
Record CreateBackupRequest := mkCreateBackupRequest {
  cb_table_name : string; cb_backup_name : string }.
Record BackupArnRequest := mkBackupArnRequest { ba_backup_arn : string }.
Record ListBackupsRequest := mkListBackupsRequest {
  lb_table_name : string; lb_exclusive_start_backup_arn : string; lb_limit : Z }.
Record RestoreTableFromBackupRequest := mkRestoreTableFromBackupRequest {
  rtb_backup_arn : string; rtb_target_table_name : string }.
Record TimeToLiveSpecification := mkTimeToLiveSpecification {
  ttls_attribute_name : string; ttls_enabled : bool }.
Record UpdateTimeToLiveRequest := mkUpdateTimeToLiveRequest {
  uttl_table_name : string; uttl_time_to_live_specification : TimeToLiveSpecification }.
Record ListStreamsRequest := mkListStreamsRequest {
  ls_table_name : string; ls_exclusive_start_stream_arn : string; ls_limit : Z }.
Record DescribeStreamRequest := mkDescribeStreamRequest {
  ds_stream_arn : string; ds_exclusive_start_shard_id : string; ds_limit : Z }.
Record GetShardIteratorRequest := mkGetShardIteratorRequest {
  gsh_stream_arn : string; gsh_shard_id : string; gsh_shard_iterator_type : string;
  gsh_sequence_number : string }.
Record GetRecordsRequest := mkGetRecordsRequest { gr_shard_iterator : string; gr_limit : Z }.
Record ExecuteStatementRequest := mkExecuteStatementRequest {
  es_statement : string; es_parameters : list Value; es_consistent_read : bool; es_limit : Z;
  es_return_consumed_capacity : string }.
Record BatchStatementRequest := mkBatchStatementRequest {
  bst_statement : string; bst_parameters : list Value; bst_consistent_read : bool;
  bst_return_values_on_condition_check_failure : string }.
Record BatchExecuteStatementRequest := mkBatchExecuteStatementRequest {
  bes_statements : list BatchStatementRequest; bes_return_consumed_capacity : string }.
Record ExecuteTransactionRequest := mkExecuteTransactionRequest {
  et_transact_statements : list BatchStatementRequest; et_return_consumed_capacity : string }.
Record BatchGetTableRequest := mkBatchGetTableRequest {
  bgt_keys : list Item; bgt_projection_expression : string;
  bgt_expression_attribute_names : gmap string string; bgt_consistent_read : bool }.
Record BatchGetItemRequest := mkBatchGetItemRequest {
  bg_request_items : gmap string BatchGetTableRequest; bg_return_consumed_capacity : string }.
Record PutRequest := mkPutRequest { pr_item : Item }.
Record DeleteRequest := mkDeleteRequest { del_key : Item }.
Record WriteRequest := mkWriteRequest {
  wr_put_request : option PutRequest; wr_delete_request : option DeleteRequest }.
Record BatchWriteItemRequest := mkBatchWriteItemRequest {
  bw_request_items : gmap string (list WriteRequest); bw_return_consumed_capacity : string }.
Record TransactGet := mkTransactGet {
  tg_table_name : string; tg_key : Item; tg_projection_expression : string;
  tg_expression_attribute_names : gmap string string }.
Record TransactGetItem := mkTransactGetItem { tgi_get : option TransactGet }.
Record TransactGetItemsRequest := mkTransactGetItemsRequest {
  tgs_transact_items : list TransactGetItem }.
Record TransactPut := mkTransactPut {
  tp_table_name : string; tp_item : Item; tp_condition_expression : string;
  tp_expression_attribute_names : gmap string string;
  tp_expression_attribute_values : gmap string Value }.
Record TransactUpdate := mkTransactUpdate {
  tu_table_name : string; tu_key : Item; tu_update_expression : string; tu_condition_expression : string;
  tu_expression_attribute_names : gmap string string;
  tu_expression_attribute_values : gmap string Value }.
Record TransactDelete := mkTransactDelete {
  td_table_name : string; td_key : Item; td_condition_expression : string;
  td_expression_attribute_names : gmap string string;
  td_expression_attribute_values : gmap string Value }.
Record TransactConditionCheck := mkTransactConditionCheck {
  tcc_table_name : string; tcc_key : Item; tcc_condition_expression : string;
  tcc_expression_attribute_names : gmap string string;
  tcc_expression_attribute_values : gmap string Value }.
Record TransactWriteItem := mkTransactWriteItem {
  tw_put : option TransactPut; tw_update : option TransactUpdate; tw_delete : option TransactDelete;
  tw_condition_check : option TransactConditionCheck }.
Record TransactWriteItemsRequest := mkTransactWriteItemsRequest {
  tws_transact_items : list TransactWriteItem }.
Record QueryRequest := mkQueryRequest {
  qr_table_name : string; qr_index_name : string; qr_key_condition_expression : string;
  qr_expression_attribute_names : gmap string string; qr_expression_attribute_values : gmap string Value;
  qr_projection_expression : string; qr_select : string; qr_exclusive_start_key : Item; qr_limit : Z;
  qr_scan_index_forward : option bool; qr_return_consumed_capacity : string }.
Record ScanRequest := mkScanRequest {
  sc_table_name : string; sc_index_name : string; sc_filter_expression : string;
  sc_expression_attribute_names : gmap string string; sc_expression_attribute_values : gmap string Value;
  sc_projection_expression : string; sc_select : string; sc_exclusive_start_key : Item; sc_limit : Z;
  sc_return_consumed_capacity : string }.
Record UpdateItemRequest := mkUpdateItemRequest {
  ui_table_name : string; ui_key : Item; ui_condition_expression : string; ui_update_expression : string;
  ui_expression_attribute_names : gmap string string; ui_expression_attribute_values : gmap string Value;
  ui_return_values : string; ui_return_values_on_condition_check_failure : string;
  ui_return_consumed_capacity : string }.
Record DeleteItemRequest := mkDeleteItemRequest {
  di_table_name : string; di_key : Item; di_condition_expression : string;
  di_expression_attribute_names : gmap string string; di_expression_attribute_values : gmap string Value;
  di_return_values : string; di_return_values_on_condition_check_failure : string;
  di_return_consumed_capacity : string }.
