(* ===== verification/DynValue.v ===== *)
(** Attribute values of the DynamoDB service
    (src/services/dynamodb/src/attribute.rs): validation with its error texts, type
    names, the internal item key, projections, equality and the order that sorts
    query results.  [attribute_ok] is the declarative form of what
    [validate_attribute_value] accepts. *)

From S2P Require Import Prelude RustStr RustNum RustText Json DynNumber DynModel.
Local Open Scope string_scope.
Local Open Scope Z_scope.

(** ** Sets of strings *)

Definition strings_of (arr : list Value) : option (list string) := mapM as_str arr.
Definition string_slice (raw : Value) : option (list string) := as_array raw ≫= strings_of.

(** The set [seen] grows by [insert], which says whether the string was new. *)
Fixpoint has_duplicate_from (seen : gset string) (values : list string) : bool :=
  match values with
  | [] => false
  | v :: r => if bool_decide (v ∈ seen) then true else has_duplicate_from ({[v]} ∪ seen) r
  end.
Definition has_duplicate : list string -> bool := has_duplicate_from ∅.

(** ** Base64 *)

Definition base64_value (c : ascii) : option Z :=
  if in_range "A" "Z" c then Some (byte_of c - byte_of "A")
  else if in_range "a" "z" c then Some (byte_of c - byte_of "a" + 26)
  else if in_range "0" "9" c then Some (byte_of c - byte_of "0" + 52)
  else if Ascii.eqb c "+" then Some 62
  else if Ascii.eqb c "/" then Some 63
  else None.

(** [chunk.iter().rev().take_while(|b| b == PAD).count()] *)
Fixpoint count_leading (p : ascii -> bool) (l : list ascii) : Z :=
  match l with [] => 0 | c :: r => if p c then 1 + count_leading p r else 0 end.
(** The loop over one chunk, from position [j] with accumulator [acc]. *)
Fixpoint decode_chunk (pads j acc : Z) (l : list ascii) : option Z :=
  match l with
  | [] => Some acc
  | c :: r =>
      v ← (if Ascii.eqb c "=" then (if j <? 4 - pads then None else Some 0) else base64_value c);
      decode_chunk pads (j + 1) (Z.lor (wrap_u 32 (Z.shiftl acc 6)) v) r
  end.
Fixpoint decode_chunks (s : string) : option string :=
  match s with
  | EmptyString => Some EmptyString
  | String a (String b (String c (String d r))) =>
      let chunk := [a; b; c; d] in
      let pads := count_leading (Ascii.eqb "=") (rev chunk) in
      if 2 <? pads then None
      else
        acc ← decode_chunk pads 0 0 chunk;
        rest ← decode_chunks r;
        Some (char_str (of_byte (wrap_u 8 (Z.shiftr acc 16)))
              +:+ (if pads <? 2 then char_str (of_byte (wrap_u 8 (Z.shiftr acc 8))) else EmptyString)
              +:+ (if pads <? 1 then char_str (of_byte (wrap_u 8 acc)) else EmptyString)
              +:+ rest)
  | _ => None
  end.
Definition base64_decode (input : string) : option string :=
  if str_len input mod 4 =? 0 then decode_chunks input else None.

(** ** Validation *)

Definition unless (cond : bool) (e : string) : outcome unit := if cond then Ok tt else Err e.

Definition check_set (path kind : string) (raw : Value) : outcome (list string) :=
  values ← ok_or ("attribute " +:+ path +:+ " " +:+ kind +:+ " value must be a string list") (string_slice raw);
  _ ← unless (negb (bool_decide (values = [])))
        ("attribute " +:+ path +:+ " " +:+ kind +:+ " value must not be empty");
  _ ← unless (negb (has_duplicate values))
        ("attribute " +:+ path +:+ " " +:+ kind +:+ " value must not contain duplicates");
  Ok values.

Fixpoint validate_attribute_value (value : Value) (path : string) : outcome unit :=
  match value with
  | JObject [(kind, raw)] =>
      if str_eqb kind "S" then
        unless (is_string raw) ("attribute " +:+ path +:+ " " +:+ kind +:+ " value must be a string")
      else if str_eqb kind "B" then
        binary ← ok_or ("attribute " +:+ path +:+ " B value must be a string") (as_str raw);
        unless (bool_decide (is_Some (base64_decode binary)))
          ("attribute " +:+ path +:+ " B value must be base64 encoded")
      else if str_eqb kind "N" then
        number ← ok_or ("attribute " +:+ path +:+ " N value must be a string") (as_str raw);
        unless (is_valid_number number) ("attribute " +:+ path +:+ " N value must be a valid number")
      else if str_eqb kind "BOOL" then
        unless (is_boolean raw) ("attribute " +:+ path +:+ " BOOL value must be a boolean")
      else if str_eqb kind "NULL" then
        unless (bool_decide (as_bool raw = Some true)) ("attribute " +:+ path +:+ " NULL value must be true")
      else if str_eqb kind "M" then
        match raw with
        | JObject entries =>
            (fix go entries := match entries with
             | [] => Ok tt
             | (name, nested) :: rest =>
                 _ ← unless (is_object nested)
                       ("attribute " +:+ path +:+ "." +:+ name +:+ " must be an AttributeValue object");
                 _ ← validate_attribute_value nested (path +:+ "." +:+ name);
                 go rest
             end) entries
        | _ => Err ("attribute " +:+ path +:+ " M value must be a map")
        end
      else if str_eqb kind "L" then
        match raw with
        | JArray entries =>
            (fix go index entries := match entries with
             | [] => Ok tt
             | nested :: rest =>
                 let at_ := path +:+ "[" +:+ show_Z index +:+ "]" in
                 _ ← unless (is_object nested) ("attribute " +:+ at_ +:+ " must be an AttributeValue object");
                 _ ← validate_attribute_value nested at_;
                 go (index + 1) rest
             end) 0 entries
        | _ => Err ("attribute " +:+ path +:+ " L value must be a list")
        end
      else if str_eqb kind "SS" || str_eqb kind "BS" then
        values ← check_set path kind raw;
        if str_eqb kind "BS" then
          try_each (fun binary => unless (bool_decide (is_Some (base64_decode binary)))
            ("attribute " +:+ path +:+ " BS value must contain base64 encoded strings")) values
        else Ok tt
      else if str_eqb kind "NS" then
        values ← check_set path kind raw;
        try_each (fun number => unless (is_valid_number number)
            ("attribute " +:+ path +:+ " NS value must contain valid numbers")) values
      else Err ("attribute " +:+ path +:+ " has unsupported AttributeValue type " +:+ kind)
  | _ => Err ("attribute " +:+ path +:+ " must contain exactly one AttributeValue type")
  end.

Definition validate_item_attribute_values (item : Item) : outcome unit :=
  try_each (fun e : string * Value =>
    _ ← unless (negb (is_empty e.1)) "attribute name is required";
    validate_attribute_value e.2 e.1) (btree_iter item).

Definition type_order : list string := ["S"; "N"; "B"; "BOOL"; "NULL"; "M"; "L"; "SS"; "NS"; "BS"].
Definition attribute_type_name (value : Value) : string :=
  match as_object value with
  | Some obj => default "" (List.find (fun name => obj_contains name obj) type_order)
  | None => ""
  end.

(** ** Keys and projections *)

Definition missing_key (name : string) : string := "missing key attribute " +:+ name.

(** The values of the key attributes, each validated. *)
Fixpoint key_values (schema : list KeySchemaElement) (values : Item) : outcome (list Value) :=
  match schema with
  | [] => Ok []
  | element :: rest =>
      value ← ok_or (missing_key (attribute_name element)) (values !! attribute_name element);
      _ ← validate_attribute_value value (attribute_name element);
      r ← key_values rest values; Ok (value :: r)
  end.
Definition item_key `{SerdeJson} (description : TableDescription) (values : Item) : outcome string :=
  kvs ← key_values (key_schema description) values; Ok (marshal (JArray kvs)).

Fixpoint extract_from (schema : list KeySchemaElement) (value key : Item) : outcome Item :=
  match schema with
  | [] => Ok key
  | element :: rest =>
      attr ← ok_or (missing_key (attribute_name element)) (value !! attribute_name element);
      extract_from rest value (<[attribute_name element := attr]> key)
  end.
Definition extract_key (description : TableDescription) (value : Item) : outcome Item :=
  extract_from (key_schema description) value ∅.

Definition resolve_attribute_name (token : string) (names : Names) : string :=
  if starts_with "#" token then default token (names !! token) else token.

Definition project_item (value : Item) (expression : string) (names : Names) : Item :=
  let expression := trim expression in
  if is_empty expression then value
  else foldl (fun projected token =>
         let name := resolve_attribute_name (trim token) names in
         match value !! name with Some attr => <[name := attr]> projected | None => projected end)
       (∅ : Item) (split_char "," expression).

Definition index_projection_for_name (description : TableDescription) (index_name : string)
    : option (IndexProjection * list KeySchemaElement) :=
  if is_empty index_name then None
  else match List.find (fun i => str_eqb (gsi_name i) index_name) (global_secondary_indexes description) with
       | Some i => Some (gsi_projection i, gsi_key_schema i)
       | None =>
           match List.find (fun i => str_eqb (lsi_name i) index_name) (local_secondary_indexes description) with
           | Some i => Some (lsi_projection i, lsi_key_schema i)
           | None => None
           end
       end.

Definition project_index_item (description : TableDescription) (index_name : string) (value : Item) : Item :=
  match index_projection_for_name description index_name with
  | None => value
  | Some (projection, schema) =>
      if is_empty (projection_type projection) || str_eqb (projection_type projection) "ALL" then value
      else
        let allowed := list_to_set (map attribute_name (key_schema description))
                       ∪ list_to_set (map attribute_name schema)
                       ∪ (if str_eqb (projection_type projection) "INCLUDE"
                          then list_to_set (non_key_attributes projection) else ∅) : gset string in
        filter (fun e => e.1 ∈ allowed) value
  end.

Definition project_result_item (description : TableDescription) (index_name : string)
    (value : Item) (expression : string) (names : Names) : Item :=
  project_item (project_index_item description index_name value) expression names.

(** ** Equality and order *)

Definition attribute_values_equal (left right : Value) : bool := value_eqb left right.

Definition compare_attribute_values `{SerdeJson} (left right : Value) : comparison :=
  let by_type := String.compare (attribute_type_name left) (attribute_type_name right) in
  let by_json := String.compare (marshal left) (marshal right) in
  match as_object left, as_object right with
  | Some _, Some _ =>
      match str_member "N" left with
      | Some ln => match str_member "N" right with
                   | Some rn => compare_number_strings ln rn | None => by_type end
      | None =>
          match str_member "S" left with
          | Some ls => match str_member "S" right with
                       | Some rs => String.compare ls rs | None => by_type end
          | None =>
              match str_member "B" left with
              | Some lb => match str_member "B" right with
                           | Some rb => String.compare lb rb | None => by_type end
              | None => by_json
              end
          end
      end
  | _, _ => by_json
  end.

(** ** What validation accepts *)

(** A well-typed attribute value. *)
Inductive attribute_ok : Value -> Prop :=
| ok_S s : attribute_ok (json1 "S" (JString s))
| ok_N s : is_valid_number s = true -> attribute_ok (json1 "N" (JString s))
| ok_B s : is_Some (base64_decode s) -> attribute_ok (json1 "B" (JString s))
| ok_BOOL b : attribute_ok (json1 "BOOL" (JBool b))
| ok_NULL : attribute_ok (json1 "NULL" (JBool true))
| ok_M m : Forall (fun e => attribute_ok e.2) m -> attribute_ok (json1 "M" (JObject m))
| ok_L l : Forall attribute_ok l -> attribute_ok (json1 "L" (JArray l))
| ok_SS l : l <> [] -> NoDup l -> attribute_ok (json1 "SS" (json_strings l))
| ok_NS l : l <> [] -> NoDup l -> Forall (fun s => is_valid_number s = true) l ->
    attribute_ok (json1 "NS" (json_strings l))
| ok_BS l : l <> [] -> NoDup l -> Forall (fun s => is_Some (base64_decode s)) l ->
    attribute_ok (json1 "BS" (json_strings l)).

(** A well-typed item. *)
Definition item_ok (item : Item) : Prop := forall k v, item !! k = Some v -> k <> "" /\ attribute_ok v.

(** ** Lemmas *)

Section ValidationLemmas.

Lemma unless_Ok b e : unless b e = Ok tt <-> b = true.
Proof. by destruct b. Qed.
Lemma unless_no_panic b e : no_panic (unless b e).
Proof. by destruct b. Qed.
Lemma bind_Ok {E A B} (o : result E A) (f : A -> result E B) b :
  (o ≫= f) = Ok b <-> exists a, o = Ok a /\ f a = Ok b.
Proof. destruct o; simpl; naive_solver. Qed.
Lemma ok_or_Ok {E A} (e : E) (o : option A) a : ok_or e o = Ok a <-> o = Some a.
Proof. destruct o; simpl; naive_solver. Qed.
Lemma try_each_Ok {X} (f : X -> outcome unit) xs : try_each f xs = Ok tt <-> Forall (fun x => f x = Ok tt) xs.
Proof.
  induction xs as [|x xs IH]; [by split|]. cbn [try_each]. rewrite bind_Ok, Forall_cons, <- IH.
  split; [by intros ([] & ? & ?)|]. intros [? ?]. by exists tt.
Qed.

Lemma strings_of_strings l : strings_of (map JString l) = Some l.
Proof. unfold strings_of. induction l as [|s l IH]; [done|]. simpl. by rewrite IH. Qed.
Lemma strings_of_Some arr l : strings_of arr = Some l <-> arr = map JString l.
Proof.
  split; [|intros ->; apply strings_of_strings].
  revert l. unfold strings_of. induction arr as [|v arr IH]; intros l; simpl; [by intros [= <-]|].
  destruct (as_str v) as [s|] eqn:Hs; [simpl|done].
  destruct (mapM as_str arr) as [r|]; [simpl|done]. intros [= <-]. cbn. rewrite <- (IH r) by done.
  destruct v; try done. by injection Hs as ->.
Qed.
Lemma string_slice_Some raw l : string_slice raw = Some l <-> raw = json_strings l.
Proof.
  unfold string_slice, json_strings. destruct raw; simpl; try by split; [done|]; intros [=].
  rewrite strings_of_Some. split; [by intros ->|by intros [=]].
Qed.

Lemma has_duplicate_from_spec seen l :
  has_duplicate_from seen l = false <-> NoDup l /\ forall v, v ∈ l -> v ∉ seen.
Proof.
  revert seen. induction l as [|v l IH]; intros seen; cbn [has_duplicate_from].
  { split; [|done]. split; [constructor|by intros ? ?%elem_of_nil]. }
  case_bool_decide as Hv.
  - split; [done|]. intros [_ Hl]. destruct (Hl v); [apply list_elem_of_here|done].
  - rewrite IH, NoDup_cons. split.
    + intros [Hnd Hl]. split; [split; [|done]; intros Hin; specialize (Hl v Hin); set_solver|].
      intros w [->|Hw]%elem_of_cons; [done|]. specialize (Hl w Hw). set_solver.
    + intros [[Hni Hnd] Hl]. split; [done|]. intros w Hw.
      assert (w ∉ seen) by (apply Hl; by apply list_elem_of_further). set_solver.
Qed.
Lemma has_duplicate_spec l : has_duplicate l = false <-> NoDup l.
Proof. unfold has_duplicate. rewrite has_duplicate_from_spec. set_solver. Qed.

Lemma check_set_Ok path kind raw l :
  check_set path kind raw = Ok l <-> raw = json_strings l /\ l <> [] /\ NoDup l.
Proof.
  unfold check_set. split.
  - intros (x & ->%ok_or_Ok%string_slice_Some & ([] & Hne%unless_Ok & ([] & Hd%unless_Ok & [= ->])%bind_Ok)%bind_Ok)%bind_Ok.
    apply negb_true_iff in Hne, Hd. apply bool_decide_eq_false in Hne. by apply has_duplicate_spec in Hd.
  - intros (-> & Hne & Hnd%has_duplicate_spec). rewrite (proj2 (string_slice_Some _ l) eq_refl).
    simpl. rewrite Hnd, bool_decide_false by done. done.
Qed.
Lemma check_set_no_panic path kind raw : no_panic (check_set path kind raw).
Proof.
  unfold check_set. destruct (string_slice raw) as [l|]; [|done]. simpl.
  destruct (bool_decide _), (has_duplicate l); done.
Qed.

Lemma is_object_json1 k v : is_object (json1 k v) = true.
Proof. reflexivity. Qed.
Lemma attribute_ok_object v : attribute_ok v -> is_object v = true.
Proof. by destruct 1. Qed.

(** The loops over map entries and list elements, named. *)
Fixpoint validate_entries (path : string) (entries : list (string * Value)) : outcome unit :=
  match entries with
  | [] => Ok tt
  | (name, nested) :: rest =>
      _ ← unless (is_object nested)
            ("attribute " +:+ path +:+ "." +:+ name +:+ " must be an AttributeValue object");
      _ ← validate_attribute_value nested (path +:+ "." +:+ name);
      validate_entries path rest
  end.
Fixpoint validate_elements (path : string) (index : Z) (entries : list Value) : outcome unit :=
  match entries with
  | [] => Ok tt
  | nested :: rest =>
      let at_ := path +:+ "[" +:+ show_Z index +:+ "]" in
      _ ← unless (is_object nested) ("attribute " +:+ at_ +:+ " must be an AttributeValue object");
      _ ← validate_attribute_value nested at_;
      validate_elements path (index + 1) rest
  end.
Lemma validate_M path m : validate_attribute_value (json1 "M" (JObject m)) path = validate_entries path m.
Proof. simpl. induction m as [|[k v] m IH]; [done|]. simpl. by rewrite IH. Qed.
Lemma validate_L path l : validate_attribute_value (json1 "L" (JArray l)) path = validate_elements path 0 l.
Proof.
  simpl. generalize 0. induction l as [|v l IH]; intros i; [done|]. simpl. by rewrite IH.
Qed.
Lemma validate_entries_Ok path m :
  Forall (fun e => forall p, validate_attribute_value e.2 p = Ok tt <-> attribute_ok e.2) m ->
  validate_entries path m = Ok tt <-> Forall (fun e => attribute_ok e.2) m.
Proof.
  induction 1 as [|[k v] m Hv _ IH]; [by split|]. cbn [validate_entries snd] in *.
  rewrite Forall_cons, <- IH. cbn [snd]. split.
  - intros ([] & _ & ([] & Hv1 & Hm)%bind_Ok)%bind_Ok. split; [by apply Hv in Hv1|done].
  - intros [Hok Hm]. rewrite (attribute_ok_object _ Hok). cbn. by rewrite (proj2 (Hv _) Hok).
Qed.
Lemma validate_elements_Ok path i l :
  Forall (fun v => forall p, validate_attribute_value v p = Ok tt <-> attribute_ok v) l ->
  validate_elements path i l = Ok tt <-> Forall attribute_ok l.
Proof.
  intros Hl. revert i. induction Hl as [|v l Hv _ IH]; intros i; [by split|]. cbn [validate_elements].
  rewrite Forall_cons, <- (IH (i + 1)). split.
  - intros ([] & _ & ([] & Hv1 & Hm)%bind_Ok)%bind_Ok. split; [by apply Hv in Hv1|done].
  - intros [Hok Hm]. rewrite (attribute_ok_object _ Hok). cbn. by rewrite (proj2 (Hv _) Hok).
Qed.

Definition exact (v : Value) : Prop :=
  forall path, validate_attribute_value v path = Ok tt <-> attribute_ok v.
Definition exact_below (v : Value) : Prop :=
  match v with
  | JArray l => Forall exact l
  | JObject m => Forall (fun e => exact e.2) m
  | _ => True
  end.
Ltac use_set :=
  match goal with Hne : ?l <> [], Hnd : NoDup ?l |- _ =>
    rewrite (proj2 (check_set_Ok _ _ _ _) (conj eq_refl (conj Hne Hnd))) end.
Lemma exact_json1 kind raw : exact_below raw -> exact (json1 kind raw).
Proof.
  intros IH path.
  destruct (decide (kind ∈ type_order)) as [Hk|Hk].
  - unfold type_order in Hk. repeat (apply elem_of_cons in Hk as [-> | Hk]); [..|by apply elem_of_nil in Hk].
    + split; [|by inversion 1]. by destruct raw; intros [=]; constructor.
    + split; [|inversion 1; subst; simpl; by apply unless_Ok].
      destruct raw; try done. intros Hn%unless_Ok. by constructor.
    + split; [|by inversion 1; subst; simpl; rewrite bool_decide_true].
      destruct raw; try done. intros Hn%unless_Ok%bool_decide_eq_true. by constructor.
    + split; [|by inversion 1]. by destruct raw; intros [=]; constructor.
    + split; [|by inversion 1]. destruct raw as [|[]| | | |]; intros [=]; constructor.
    + destruct raw; try by split; [done|inversion 1]. rewrite validate_M, validate_entries_Ok.
      * split; [by constructor|by inversion 1].
      * exact IH.
    + destruct raw; try by split; [done|inversion 1]. rewrite validate_L, validate_elements_Ok.
      * split; [by constructor|by inversion 1].
      * exact IH.
    + split.
      * intros (l & (-> & Hne & Hnd)%check_set_Ok & _)%bind_Ok. by constructor.
      * inversion 1; subst. simpl. by use_set.
    + split.
      * intros (l & (-> & Hne & Hnd)%check_set_Ok & Hf)%bind_Ok. apply try_each_Ok in Hf.
        constructor; try done. eapply Forall_impl; [done|]. by intros x Hx%unless_Ok.
      * inversion 1; subst. simpl. use_set.
        apply try_each_Ok. eapply Forall_impl; [done|]. simpl. by intros x ->.
    + split.
      * intros (l & (-> & Hne & Hnd)%check_set_Ok & Hf)%bind_Ok. apply try_each_Ok in Hf.
        constructor; try done. eapply Forall_impl; [done|]. by intros x Hx%unless_Ok%bool_decide_eq_true.
      * inversion 1; subst. simpl. use_set.
        apply try_each_Ok. eapply Forall_impl; [done|]. simpl. intros x Hx. by rewrite bool_decide_true.
  - split; [|inversion 1; subst; by destruct Hk; apply (bool_decide_unpack _)].
    cbn [validate_attribute_value json1].
    repeat match goal with |- context [str_eqb kind ?k] =>
      destruct (str_eqb kind k) eqn:?; [exfalso|] end; [..|done].
    all: match goal with He : str_eqb _ _ = true |- _ => apply str_eqb_true in He; subst end.
    all: apply Hk; by apply (bool_decide_unpack _).
Qed.
(** A path-independent reading of validation. *)
Lemma validate_Ok v : exact v.
Proof.
  assert (exact v /\ exact_below v) as [H _]; [|done].
  induction v as [| | | |l IH|m IH] using value_ind';
    try by split; [intros path; split; [done|inversion 1]|].
  - split; [intros path; split; [done|inversion 1]|]. simpl. eapply Forall_impl; [done|]. by intros x [].
  - split.
    + destruct m as [|[kind raw] [|]]; try by (intros path; split; [done|inversion 1]).
      apply Forall_inv in IH. by apply exact_json1, IH.
    + simpl. eapply Forall_impl; [done|]. by intros x [].
Qed.
End ValidationLemmas.
