(* ===== verification/DynExpr.v ===== *)
(** The condition, filter, key and projection expressions of the DynamoDB service
    (services/dynamodb/src/expression.rs), with the tokenizers that the update language
    shares. *)

From S2P Require Import Prelude RustStr RustNum RustText Json DynNumber DynModel DynValue.
Local Open Scope string_scope.
Local Open Scope Z_scope.

(** The tokenizers shared by the expression languages of the DynamoDB service
    (the last sections of src/services/dynamodb/src/expression.rs and
    update_expression.rs, which define the same functions twice): splitting at
    commas outside parentheses, function calls, and cutting at a separator. *)

(** The pieces between the commas at depth 0. *)
Fixpoint comma_pieces (depth : Z) (s : string) : list string :=
  match s with
  | EmptyString => [EmptyString]
  | String c r =>
      let keep depth := match comma_pieces depth r with
                        | p :: ps => String c p :: ps
                        | [] => []
                        end in
      if Ascii.eqb c "(" then keep (depth + 1)
      else if Ascii.eqb c ")" then keep (if 0 <? depth then depth - 1 else depth)
      else if Ascii.eqb c "," && (depth =? 0) then EmptyString :: comma_pieces depth r
      else keep depth
  end.
Definition split_comma_separated (value : string) : list string := map trim (comma_pieces 0 value).

Definition parse_function_call (expression name : string) : option string :=
  rest ← strip_prefix (name +:+ "(") expression; strip_suffix ")" rest.

(** [cut]: split on the first occurrence of [sep]. *)
Definition cut (s sep : string) : option (string * string) := split_once sep s.

(** ** Lemmas *)

Section TokenLemmas.

(** A piece without commas or parentheses. *)
Definition plain_byte (c : ascii) : bool :=
  negb (Ascii.eqb c "(" || Ascii.eqb c ")" || Ascii.eqb c ",").
Definition plain (s : string) : Prop := str_all plain_byte s = true.

Lemma comma_pieces_nonempty d s : comma_pieces d s <> [].
Proof.
  revert d. induction s as [|c s IH]; intros d; cbn [comma_pieces]; [done|].
  destruct (Ascii.eqb c "("); [destruct (comma_pieces (d + 1) s) eqn:E; [by apply IH in E|done]|].
  destruct (Ascii.eqb c ")"); [destruct (comma_pieces _ s) eqn:E; [by apply IH in E|done]|].
  destruct (_ && _); [done|]. destruct (comma_pieces d s) eqn:E; [by apply IH in E|done].
Qed.
Lemma comma_pieces_plain s : plain s -> comma_pieces 0 s = [s].
Proof.
  unfold plain. induction s as [|c s IH]; [done|]. cbn [str_all comma_pieces].
  intros [Hc Hs]%andb_true_iff. unfold plain_byte in Hc. rewrite (IH Hs).
  destruct (Ascii.eqb c "("), (Ascii.eqb c ")"), (Ascii.eqb c ","); done.
Qed.
Lemma comma_pieces_comma s t : plain s -> comma_pieces 0 (s +:+ String "," t) = s :: comma_pieces 0 t.
Proof.
  unfold plain. induction s as [|c s IH]; [done|]. rewrite str_app_cons. cbn [str_all comma_pieces].
  intros [Hc Hs]%andb_true_iff. unfold plain_byte in Hc. rewrite (IH Hs).
  destruct (Ascii.eqb c "("), (Ascii.eqb c ")"), (Ascii.eqb c ","); done.
Qed.

(** Every piece is at most as long as the whole. *)
Lemma comma_pieces_length d s p :
  p ∈ comma_pieces d s -> (String.length p <= String.length s)%nat.
Proof.
  revert d p. induction s as [|c s IH]; intros d p; cbn [comma_pieces].
  { intros [->|?%elem_of_nil]%elem_of_cons; done. }
  assert (forall d', p ∈ match comma_pieces d' s with p :: ps => String c p :: ps | [] => [] end ->
    (String.length p <= String.length (String c s))%nat) as Hkeep.
  { intros d' Hp. destruct (comma_pieces d' s) as [|q ps] eqn:E; [by apply elem_of_nil in Hp|].
    apply elem_of_cons in Hp as [->|Hp]; cbn [String.length].
    - specialize (IH d' q). rewrite E in IH. specialize (IH (list_elem_of_here _ _)). lia.
    - specialize (IH d' p). rewrite E in IH. specialize (IH (list_elem_of_further _ _ _ Hp)). lia. }
  destruct (Ascii.eqb c "("); [apply Hkeep|]. destruct (Ascii.eqb c ")"); [apply Hkeep|].
  destruct (_ && _); [|apply Hkeep].
  intros [->|Hp]%elem_of_cons; cbn [String.length]; [lia|]. specialize (IH _ _ Hp). lia.
Qed.

Lemma parse_function_call_Some e name body :
  parse_function_call e name = Some body <-> e = name +:+ "(" +:+ body +:+ ")".
Proof.
  unfold parse_function_call. split.
  - destruct (strip_prefix _ e) as [r|] eqn:Hp; [|done]. cbn [mbind option_bind].
    intros ->%strip_suffix_Some. apply strip_prefix_Some in Hp as ->. by rewrite !str_app_assoc.
  - intros ->. rewrite <- str_app_assoc, strip_prefix_app. cbn [mbind option_bind].
    apply strip_suffix_app.
Qed.

(** [trim] shortens. *)
Lemma strip_prefix_length p s r : strip_prefix p s = Some r -> (String.length r <= String.length s)%nat.
Proof. intros ->%strip_prefix_Some. rewrite str_length_app. lia. Qed.
Lemma trim_start_of_length fuel ps s : (String.length (trim_start_of fuel ps s) <= String.length s)%nat.
Proof.
  revert s. induction fuel as [|fuel IH]; intros s; cbn [trim_start_of]; [lia|].
  destruct (strip_one_of ps s) as [r|] eqn:Hr; [|lia].
  apply strip_one_of_Some in Hr as (p & _ & ->). rewrite str_length_app. specialize (IH r). lia.
Qed.
Lemma trim_length s : (String.length (trim s) <= String.length s)%nat.
Proof.
  unfold trim, trim_end, trim_start. rewrite str_length_rev.
  etransitivity; [apply trim_start_of_length|]. rewrite str_length_rev. apply trim_start_of_length.
Qed.

Lemma split_comma_length s p :
  p ∈ split_comma_separated s -> (String.length p <= String.length s)%nat.
Proof.
  intros (q & -> & Hq)%list_elem_of_fmap. etransitivity; [apply trim_length|].
  by apply comma_pieces_length in Hq.
Qed.

(** Cutting at a separator whose first byte does not occur before it. *)
Lemma cut_app c sep a b :
  str_all (negb ∘ Ascii.eqb c) a = true -> cut (a +:+ String c sep +:+ b) (String c sep) = Some (a, b).
Proof.
  unfold cut. induction a as [|x a IH].
  - intros _. rewrite str_app_nil_l, str_app_cons. cbn [split_once strip_prefix].
    rewrite Ascii.eqb_refl, strip_prefix_app. done.
  - cbn [str_all]. intros [Hx Ha]%andb_true_iff. apply negb_true_iff in Hx. rewrite str_app_cons.
    cbn [split_once strip_prefix]. rewrite Hx, IH by done. done.
Qed.
(** No cut where a byte of the separator does not occur. *)
Lemma cut_None c sep s :
  contains (char_str c) sep = true -> str_all (negb ∘ Ascii.eqb c) s = true -> cut s sep = None.
Proof.
  unfold cut. intros Hc Hs. destruct (split_once sep s) as [[a b]|] eqn:E; [|done].
  apply split_once_Some in E as ->. rewrite !str_all_app, !andb_true_iff in Hs. destruct Hs as [_ [Hs _]].
  unfold contains in Hc. by rewrite split_once_char_None in Hc.
Qed.

End TokenLemmas.

(** Condition, filter and key-condition expressions of the DynamoDB service
    (src/services/dynamodb/src/expression.rs): OR of AND of predicates, evaluated
    left to right with short circuit.  [match_predicate] recurses only under NOT, on
    a shorter text: one unit of fuel per byte is enough. *)

(** ** Tokenizers *)

(** The loop over the fields of [split_disjunctive_predicates]. *)
Fixpoint disjuncts (fields current : list string) (parts : list string) : outcome (list string) :=
  match fields with
  | [] => if bool_decide (current = []) then Err "invalid OR expression"
          else Ok (parts ++ [str_join " " current])%list
  | field :: rest =>
      if eq_ignore_ascii_case field "OR" then
        if bool_decide (current = []) then Err "invalid OR expression"
        else disjuncts rest [] (parts ++ [str_join " " current])%list
      else disjuncts rest (current ++ [field])%list parts
  end.
Definition split_disjunctive_predicates (expression : string) : outcome (list string) :=
  let fields := split_whitespace expression in
  if bool_decide (fields = []) then Err "empty expression" else disjuncts fields [] [].

Section Expressions.
  Context `{UnicodeCase, SerdeJson}.

Fixpoint conjuncts (fields current : list string) (parts : list string) (between_needs_and : bool)
    : outcome (list string) :=
  match fields with
  | [] => if bool_decide (current = []) then Err "invalid AND expression"
          else Ok (parts ++ [str_join " " current])%list
  | field :: rest =>
      let upper := to_uppercase field in
      if str_eqb upper "BETWEEN" then conjuncts rest (current ++ [field])%list parts true
      else if str_eqb upper "AND" && negb between_needs_and then
        if bool_decide (current = []) then Err "invalid AND expression"
        else conjuncts rest [] (parts ++ [str_join " " current])%list between_needs_and
      else
        let between_needs_and := if str_eqb upper "AND" && between_needs_and then false else between_needs_and in
        conjuncts rest (current ++ [field])%list parts between_needs_and
  end.
Definition split_conjunctive_predicates (expression : string) : outcome (list string) :=
  let fields := split_whitespace expression in
  if bool_decide (fields = []) then Err "empty expression" else conjuncts fields [] [] false.

Definition split_between_expression (expression : string) : option (string * string * string) :=
  match split_whitespace expression with
  | [f0; f1; f2; f3; f4] =>
      if negb (eq_ignore_ascii_case f1 "BETWEEN") || negb (eq_ignore_ascii_case f3 "AND") then None
      else Some (f0, f2, f4)
  | _ => None
  end.

(** [&right[1..right.len() - 1]] needs two bytes: the text [(] alone does not end
    with a parenthesis. *)
Definition split_in_expression (expression : string) : option (string * list string) :=
  '(l, r) ← (match cut expression " IN " with Some p => Some p | None => cut expression " in " end);
  let r := trim r in
  if negb (starts_with "(" r) || negb (ends_with ")" r) then None
  else Some (trim l, split_comma_separated (str_take (str_len r - 2) (str_drop 1 r))).

Fixpoint first_operator (ops : list string) (expression : string) : option (string * string * string) :=
  match ops with
  | [] => None
  | op :: rest =>
      match cut expression op with
      | Some (l, r) => Some (l, op, r)
      | None => first_operator rest expression
      end
  end.
Definition split_comparison_expression : string -> option (string * string * string) :=
  first_operator ["<="; ">="; "<>"; "="; "<"; ">"].

(** ** Functions of values *)

Fixpoint first_set_length (sets : list string) (value : Value) : option Z :=
  match sets with
  | [] => None
  | set_ :: rest =>
      match arr_member set_ value with
      | Some arr => Some (Z.of_nat (length arr))
      | None => first_set_length rest value
      end
  end.
Definition attribute_size (value : Value) : option Z :=
  match str_member "S" value with
  | Some s => Some (str_len s)
  | None =>
      match str_member "B" value with
      | Some b => Some (str_len b)
      | None =>
          match first_set_length ["SS"; "NS"; "BS"] value with
          | Some n => Some n
          | None =>
              match arr_member "L" value with
              | Some arr => Some (Z.of_nat (length arr))
              | None => (fun m => Z.of_nat (length m)) <$> obj_member "M" value
              end
          end
      end
  end.

Definition attribute_has_type (actual : option Value) (expected : Value) : bool :=
  match str_member "S" expected with
  | None => false
  | Some expected_type => str_eqb (attribute_type_name (default JNull actual)) expected_type
  end.

Definition attribute_begins_with (actual : option Value) (expected : Value) : bool :=
  match actual ≫= str_member "S", str_member "S" expected with
  | Some a, Some b => starts_with b a
  | _, _ => false
  end.

(** The strings of an array, the others skipped: [filter_map(Value::as_str)]. *)
Definition strings_only (arr : list Value) : list string := omap as_str arr.
Definition scalar_type (set_ : string) : string :=
  if str_eqb set_ "SS" then "S" else if str_eqb set_ "NS" then "N" else if str_eqb set_ "BS" then "B" else "".

(** The loop over the set types: [None] when the value is no set. *)
Fixpoint set_contains (sets : list string) (actual expected : Value) : option bool :=
  match sets with
  | [] => None
  | set_ :: rest =>
      match arr_member set_ actual with
      | None => set_contains rest actual expected
      | Some actual_values =>
          let actual_strings := strings_only actual_values in
          Some (match arr_member set_ expected with
                | Some expected_values =>
                    match expected_values with
                    | [one] => match as_str one with
                               | Some want => bool_decide (want ∈ actual_strings)
                               | None => false
                               end
                    | _ => false
                    end
                | None =>
                    match str_member (scalar_type set_) expected with
                    | Some scalar => bool_decide (scalar ∈ actual_strings)
                    | None => false
                    end
                end)
      end
  end.
Definition attribute_contains (actual : option Value) (expected : Value) : bool :=
  match actual with
  | None => false
  | Some actual =>
      match str_member "S" actual with
      | Some actual_string =>
          match str_member "S" expected with
          | Some expected_string => contains expected_string actual_string
          | None => false
          end
      | None =>
          match set_contains ["SS"; "NS"; "BS"] actual expected with
          | Some b => b
          | None =>
              match arr_member "L" actual with
              | Some list => existsb (fun entry => attribute_values_equal entry expected) list
              | None => false
              end
          end
      end
  end.

(** ** Predicates *)

Definition is_eq (c : comparison) : bool := match c with Eq => true | _ => false end.
Definition is_lt (c : comparison) : bool := match c with Lt => true | _ => false end.
Definition is_gt (c : comparison) : bool := match c with Gt => true | _ => false end.

Definition compare_with_operator (c : comparison) (operator : string) : outcome bool :=
  if str_eqb operator "=" then Ok (is_eq c)
  else if str_eqb operator "<>" then Ok (negb (is_eq c))
  else if str_eqb operator "<" then Ok (is_lt c)
  else if str_eqb operator "<=" then Ok (negb (is_gt c))
  else if str_eqb operator ">" then Ok (is_gt c)
  else if str_eqb operator ">=" then Ok (negb (is_lt c))
  else Err ("unsupported comparison operator " +:+ operator).

Section Predicates.
  Context (names : Names) (values : Values) (candidate : Item).

Definition missing_value (token : string) : string := "missing expression attribute value " +:+ token.
Definition value_of (token : string) : outcome Value := ok_or (missing_value token) (values !! token).
Definition attribute_of (token : string) : option Value :=
  candidate !! resolve_attribute_name (trim token) names.

Definition evaluate_existence_predicate (expression : string) : option bool :=
  match parse_function_call expression "attribute_exists" with
  | Some body => Some (bool_decide (is_Some (attribute_of body)))
  | None =>
      match parse_function_call expression "attribute_not_exists" with
      | Some body => Some (negb (bool_decide (is_Some (attribute_of body))))
      | None => None
      end
  end.

Definition binary_function (name : string) (actual : option Value) (expected : Value) : bool :=
  if str_eqb name "begins_with" then attribute_begins_with actual expected
  else if str_eqb name "contains" then attribute_contains actual expected
  else attribute_has_type actual expected.
Fixpoint binary_functions (funcs : list string) (expression : string) : outcome (option bool) :=
  match funcs with
  | [] => Ok None
  | name :: rest =>
      match parse_function_call expression name with
      | None => binary_functions rest expression
      | Some body =>
          match split_comma_separated body with
          | [a0; a1] =>
              expected ← value_of (trim a1);
              Ok (Some (binary_function name (attribute_of a0) expected))
          | _ => Err ("invalid " +:+ name +:+ " expression")
          end
      end
  end.
Definition evaluate_binary_function_predicate : string -> outcome (option bool) :=
  binary_functions ["begins_with"; "contains"; "attribute_type"].

Definition evaluate_between_predicate (attr_token lower_token upper_token : string) : outcome bool :=
  lower ← value_of (trim lower_token);
  upper ← value_of (trim upper_token);
  match attribute_of attr_token with
  | None => Ok false
  | Some actual => Ok (negb (is_lt (compare_attribute_values actual lower))
                       && negb (is_gt (compare_attribute_values actual upper)))
  end.

Fixpoint in_tokens (actual : Value) (tokens : list string) : outcome bool :=
  match tokens with
  | [] => Ok false
  | token :: rest =>
      expected ← value_of (trim token);
      if attribute_values_equal actual expected then Ok true else in_tokens actual rest
  end.
Definition evaluate_in_predicate (attr_token : string) (value_tokens : list string) : outcome bool :=
  match attribute_of attr_token with
  | None => Ok false
  | Some actual =>
      if bool_decide (value_tokens = []) then Err "IN expression requires at least one value"
      else in_tokens actual value_tokens
  end.

Definition evaluate_size_operand (expression : string) : outcome (option Z) :=
  match parse_function_call expression "size" with
  | None => Ok None
  | Some body =>
      match attribute_of body with
      | None => Ok (Some 0)
      | Some value =>
          match attribute_size value with
          | Some size => Ok (Some size)
          | None => Err ("size is not supported for attribute " +:+ resolve_attribute_name (trim body) names)
          end
      end
  end.

Definition evaluate_comparison_predicate (expression : string) : outcome bool :=
  '(name_token, operator, value_token) ←
    ok_or "unsupported expression predicate" (split_comparison_expression expression);
  size ← evaluate_size_operand (trim name_token);
  match size with
  | Some actual_size =>
      expected ← value_of (trim value_token);
      compare_with_operator
        (compare_attribute_values (json1 "N" (JString (show_Z actual_size))) expected) operator
  | None =>
      expected ← value_of (trim value_token);
      match attribute_of name_token with
      | None => Ok false
      | Some actual =>
          if str_eqb operator "=" then Ok (attribute_values_equal actual expected)
          else if str_eqb operator "<>" then Ok (negb (attribute_values_equal actual expected))
          else compare_with_operator (compare_attribute_values actual expected) operator
      end
  end.

Fixpoint predicate_fuel (fuel : nat) (expression : string) : outcome bool :=
  match fuel with
  | O => Panic "out of fuel"
  | S fuel' =>
      if starts_with "NOT " (to_uppercase expression) then
        inner ← str_slice 4 (str_len expression) expression;
        b ← predicate_fuel fuel' (trim inner); Ok (negb b)
      else
        match evaluate_existence_predicate expression with
        | Some result => Ok result
        | None =>
            result ← evaluate_binary_function_predicate expression;
            match result with
            | Some result => Ok result
            | None =>
                match split_between_expression expression with
                | Some (attr, lower, upper) => evaluate_between_predicate attr lower upper
                | None =>
                    match split_in_expression expression with
                    | Some (attr, value_tokens) => evaluate_in_predicate attr value_tokens
                    | None => evaluate_comparison_predicate expression
                    end
                end
            end
        end
  end.
Definition match_predicate (expression : string) : outcome bool :=
  predicate_fuel (S (String.length expression)) expression.

(** All parts match, stopping at the first that does not. *)
Fixpoint all_match (parts : list string) : outcome bool :=
  match parts with
  | [] => Ok true
  | part :: rest => b ← match_predicate (trim part); if b : bool then all_match rest else Ok false
  end.
Fixpoint any_match (disjs : list string) : outcome bool :=
  match disjs with
  | [] => Ok false
  | disjunct :: rest =>
      parts ← split_conjunctive_predicates disjunct;
      b ← all_match parts; if b : bool then Ok true else any_match rest
  end.
Definition match_conjunctive_expression (expression : string) : outcome bool :=
  disjs ← split_disjunctive_predicates expression; any_match disjs.

Definition match_filter (expression : string) : outcome bool :=
  let expression := trim expression in
  if is_empty expression then Ok true else match_conjunctive_expression expression.
Definition match_key_condition (expression : string) : outcome bool :=
  parts ← split_conjunctive_predicates expression; all_match parts.
End Predicates.

Definition check_condition (expression : string) (names : Names) (values : Values) (existing : option Item)
    : outcome unit :=
  let expression := trim expression in
  if is_empty expression then Ok tt
  else
    b ← match_conjunctive_expression names values (default ∅ existing) expression;
    if b : bool then Ok tt else Err "condition check failed".
End Expressions.

(** The unit tests of expression.rs. *)
Section Tests.
#[local] Instance plain_case : UnicodeCase := {| upper_char := fun c => c |}.
#[local] Instance no_json : SerdeJson := {| json_to_vec := fun _ => "" |}.
Let n s := json1 "N" (JString s).
Let s s := json1 "S" (JString s).
Let check e vals it := check_condition e ∅ (list_to_map vals) (Some (list_to_map it)).
Example condition_tests :
  [check "attribute_exists(pk)" [] [("pk", s "x")];
   check "attribute_not_exists(pk)" [] [("pk", s "x")];
   check "n < :big" [(":big", n "10")] [("n", n "5")];
   check "s = :abc" [(":abc", s "abc")] [("s", s "abc")];
   check "n BETWEEN :lo AND :hi" [(":lo", n "1"); (":hi", n "9")] [("n", n "5")];
   check "s IN (:a, :b)" [(":a", s "zzz"); (":b", s "hello")] [("s", s "hello")];
   check "begins_with(s, :pre)" [(":pre", s "he")] [("s", s "hello")];
   check "size(s) = :five" [(":five", n "5")] [("s", s "hello")];
   check "a = :x AND b > :one" [(":x", s "x"); (":one", n "1")] [("a", s "x"); ("b", n "2")];
   check "a = :x OR b < :one" [(":x", s "x"); (":one", n "1")] [("a", s "x"); ("b", n "2")];
   check "NOT a = :x" [(":x", s "x"); (":one", n "1")] [("a", s "x"); ("b", n "2")];
   check "n < :missing" [] [("n", n "5")]]
  = [Ok tt; Err "condition check failed"; Ok tt; Ok tt; Ok tt; Ok tt; Ok tt; Ok tt; Ok tt; Ok tt;
     Err "condition check failed"; Err "missing expression attribute value :missing"].
Proof. vm_compute. reflexivity. Qed.
End Tests.
