(* ===== verification/DynUpdate.v ===== *)
(** UpdateExpression evaluation of the DynamoDB service
    (src/services/dynamodb/src/update_expression.rs): the clauses SET, REMOVE, ADD
    and DELETE applied in place to the item under update, which is the state of
    the monad.  [evaluate_update_value] recurses on parts of its expression, so one
    unit of fuel per byte is enough. *)

From S2P Require Import Prelude RustStr RustNum RustText Json DynNumber DynModel DynValue DynExpr.
Local Open Scope string_scope.
Local Open Scope Z_scope.

(** ** String sets *)

(** [update_expression::string_slice]: the strings of a member. *)
Definition string_member (key : string) (value : Value) : option (list string) :=
  arr_member key value ≫= strings_of.

Fixpoint union_from (seen : gset string) (values : list string) : list string :=
  match values with
  | [] => []
  | v :: r => if bool_decide (v ∈ seen) then union_from seen r else v :: union_from ({[v]} ∪ seen) r
  end.
Definition union_strings (left right : list string) : list string := union_from ∅ (left ++ right).
Definition subtract_strings (left right : list string) : list string :=
  filter (fun v => v ∉ (list_to_set right : gset string)) left.

Definition set_types : list string := ["SS"; "NS"; "BS"].

(** ** Operations on values *)

(** The loop of [add_attribute_value] over the set types. *)
Fixpoint add_set (types : list string) (current : option Value) (increment : Value) : outcome Value :=
  match types with
  | [] => Err "ADD supports N, SS, NS, and BS values"
  | set_type :: rest =>
      match string_member set_type increment with
      | None => add_set rest current increment
      | Some values_to_add =>
          match current with
          | None => Ok increment
          | Some current =>
              current_values ← ok_or ("ADD " +:+ set_type +:+ " requires existing " +:+ set_type +:+ " attribute")
                                 (string_member set_type current);
              Ok (json1 set_type (json_strings (union_strings current_values values_to_add)))
          end
      end
  end.

Definition add_attribute_value (current : option Value) (increment : Value) : outcome Value :=
  match str_member "N" increment with
  | Some number =>
      match current with
      | None => Ok increment
      | Some current =>
          current_number ← ok_or "ADD number requires existing number attribute" (str_member "N" current);
          sum ← add_number_strings current_number number;
          Ok (json1 "N" (JString sum))
      end
  | None => add_set set_types current increment
  end.

Definition negate_number_attribute (value : Value) : outcome Value :=
  number ← ok_or "subtraction requires number attributes" (str_member "N" value);
  negated ← negate_number_string number;
  Ok (json1 "N" (JString negated)).

(** The value to store, if any, and whether to remove the attribute. *)
Fixpoint delete_set (types : list string) (current : option Value) (decrement : Value)
    : outcome (option Value * bool) :=
  match types with
  | [] => Err "DELETE supports SS, NS, and BS values"
  | set_type :: rest =>
      match string_member set_type decrement with
      | None => delete_set rest current decrement
      | Some values_to_delete =>
          if bool_decide (values_to_delete = []) then Err "DELETE set value must not be empty"
          else match current with
          | None => Ok (None, false)
          | Some current =>
              current_values ← ok_or ("DELETE " +:+ set_type +:+ " requires existing " +:+ set_type +:+ " attribute")
                                 (string_member set_type current);
              let remaining := subtract_strings current_values values_to_delete in
              if bool_decide (remaining = []) then Ok (None, true)
              else Ok (Some (json1 set_type (json_strings remaining)), false)
          end
      end
  end.
Definition delete_attribute_value : option Value -> Value -> outcome (option Value * bool) :=
  delete_set set_types.

Definition append_list_attribute_values (left right : Value) : outcome Value :=
  match arr_member "L" left, arr_member "L" right with
  | Some l, Some r => Ok (json1 "L" (JArray (l ++ r)))
  | _, _ => Err "list_append requires list attributes"
  end.

(** ** Parsing *)

(** The first [+] or [-] outside parentheses: what is before, the operator, what
    is after.  Continuation bytes are none of the four characters. *)
Fixpoint find_operator (depth : Z) (s : string) : option (string * ascii * string) :=
  match s with
  | EmptyString => None
  | String ch r =>
      let keep depth := '(a, op, b) ← find_operator depth r; Some (String ch a, op, b) in
      if Ascii.eqb ch "(" then keep (depth + 1)
      else if Ascii.eqb ch ")" then keep (if 0 <? depth then depth - 1 else depth)
      else if (Ascii.eqb ch "+" || Ascii.eqb ch "-") && (depth =? 0) then Some (EmptyString, ch, r)
      else keep depth
  end.
Definition split_arithmetic_update_expression (expression : string) : option (string * ascii * string) :=
  '(a, op, b) ← find_operator 0 expression; Some (trim a, op, trim b).

(** Two arguments, or the error. *)
Definition two_args (e : string) (args : list string) : outcome (string * string) :=
  match args with [a; b] => Ok (a, b) | _ => Err e end.

Fixpoint evaluate_fuel (fuel : nat) (target : Item) (expression : string) (names : Names) (values : Values)
    : outcome Value :=
  match fuel with
  | O => Panic "out of fuel"
  | S fuel' =>
      let eval e := evaluate_fuel fuel' target e names values in
      match split_arithmetic_update_expression expression with
      | Some (l, operator, r) =>
          left_value ← eval l;
          right_value ← eval r;
          right_value ← (if Ascii.eqb operator "-" then negate_number_attribute right_value else Ok right_value);
          add_attribute_value (Some left_value) right_value
      | None =>
          match parse_function_call expression "if_not_exists" with
          | Some body =>
              '(a, b) ← two_args "invalid if_not_exists expression" (split_comma_separated body);
              match target !! resolve_attribute_name (trim a) names with
              | Some current => Ok current
              | None => eval (trim b)
              end
          | None =>
              match parse_function_call expression "list_append" with
              | Some body =>
                  '(a, b) ← two_args "invalid list_append expression" (split_comma_separated body);
                  left_value ← eval (trim a);
                  right_value ← eval (trim b);
                  append_list_attribute_values left_value right_value
              | None =>
                  match values !! expression with
                  | Some value => Ok value
                  | None =>
                      ok_or ("missing expression attribute value " +:+ expression)
                        (target !! resolve_attribute_name expression names)
                  end
              end
          end
      end
  end.
Definition evaluate_update_value (target : Item) (expression : string) (names : Names) (values : Values)
    : outcome Value :=
  evaluate_fuel (S (String.length expression)) target expression names values.

Definition is_update_clause_boundary (expression : string) (index keyword_len : Z) : bool :=
  let before_ok := (index =? 0) || bool_decide (String.get (Z.to_nat (index - 1)) expression = Some " "%char) in
  let after_ok := bool_decide (String.get (Z.to_nat (index + keyword_len)) expression = Some " "%char) in
  before_ok && after_ok.

(** The offsets of the clauses of one keyword, from [offset] on. *)
Fixpoint keyword_starts (fuel : nat) (upper keyword : string) (offset : Z) : list (string * Z) :=
  match fuel with
  | O => []
  | S fuel' =>
      match find keyword (str_drop offset upper) with
      | None => []
      | Some rel =>
          let absolute := offset + rel in
          let rest := keyword_starts fuel' upper keyword (absolute + str_len keyword) in
          if is_update_clause_boundary upper absolute (str_len keyword)
          then (keyword, absolute) :: rest else rest
      end
  end.

Record UpdateClause := mkClause { keyword : string; body : string }.

Fixpoint clauses_of (expression : string) (starts : list (string * Z)) : outcome (list UpdateClause) :=
  match starts with
  | [] => Ok []
  | (kw, index) :: rest =>
      let next := match rest with (_, i) :: _ => i | [] => str_len expression end in
      slice ← str_slice (index + str_len kw) next expression;
      let b := trim slice in
      if is_empty b then Err (kw +:+ " update expression clause is empty")
      else cs ← clauses_of expression rest; Ok (mkClause kw b :: cs)
  end.

Section Update.
  Context `{UnicodeCase}.

Definition split_update_clauses (expression : string) : outcome (list UpdateClause) :=
  let upper := to_uppercase expression in
  let starts := flat_map (fun kw => keyword_starts (S (String.length upper)) upper kw 0)
                  ["SET"; "REMOVE"; "ADD"; "DELETE"] in
  if bool_decide (starts = []) then Err "update expression must include SET, REMOVE, ADD, or DELETE"
  else clauses_of expression (sort_by (fun a b => (a.2 ?= b.2)) starts).

(** ** The clauses *)

Section Clauses.
  Context (names : Names) (values : Values).

Definition set_one (assignment : string) : M Item unit :=
  '(name_token, value_token) ← lift (ok_or "invalid SET assignment" (cut (trim assignment) "="));
  let attr := resolve_attribute_name (trim name_token) names in
  target ← gets (fun t => t);
  value ← lift (evaluate_update_value target (trim value_token) names values);
  modify (<[attr := value]>).

Definition remove_one (removal : string) : M Item unit :=
  let attr := resolve_attribute_name (trim removal) names in
  _ ← guard_err (is_empty attr) "invalid REMOVE path";
  modify (delete attr).

(** The attribute and value of an ADD or DELETE action. *)
Definition action_operands (kw action : string) : M Item (string * Value) :=
  match split_whitespace action with
  | [name; token] =>
      let attr := resolve_attribute_name name names in
      _ ← guard_err (is_empty attr) ("invalid " +:+ kw +:+ " path");
      value ← lift (ok_or ("missing expression attribute value " +:+ token) (values !! token));
      mret (attr, value)
  | _ => fail ("invalid " +:+ kw +:+ " assignment")
  end.
Definition add_one (addition : string) : M Item unit :=
  '(attr, value) ← action_operands "ADD" addition;
  current ← gets (lookup attr);
  updated ← lift (add_attribute_value current value);
  modify (<[attr := updated]>).
Definition delete_one (deletion : string) : M Item unit :=
  '(attr, value) ← action_operands "DELETE" deletion;
  current ← gets (lookup attr);
  '(updated, remove) ← lift (delete_attribute_value current value);
  if remove : bool then modify (delete attr)
  else match updated with Some v => modify (<[attr := v]>) | None => mret tt end.

Definition each (action : string -> M Item unit) (b : string) : M Item unit :=
  for_each (split_comma_separated b) tt (fun s _ => action s).
Definition apply_clause (clause : UpdateClause) : M Item unit :=
  if str_eqb (keyword clause) "SET" then each set_one (body clause)
  else if str_eqb (keyword clause) "REMOVE" then each remove_one (body clause)
  else if str_eqb (keyword clause) "ADD" then each add_one (body clause)
  else if str_eqb (keyword clause) "DELETE" then each delete_one (body clause)
  else fail ("unsupported update expression clause " +:+ keyword clause).

Definition apply_update_expression (expression : string) : M Item unit :=
  let expression := trim expression in
  _ ← guard_err (is_empty expression) "update expression is required";
  clauses ← lift (split_update_clauses expression);
  for_each clauses tt (fun clause _ => apply_clause clause).
End Clauses.
End Update.

(** The unit tests of update_expression.rs. *)
Definition no_unicode : UnicodeCase := {| upper_char := fun c => c |}.
Definition item_of (l : list (string * Value)) : Item := list_to_map l.
Definition num (s : string) : Value := json1 "N" (JString s).
Definition str (s : string) : Value := json1 "S" (JString s).
Definition run_update (target : list (string * Value)) (e : string) (vals : list (string * Value))
    : outcome (list (string * Value)) :=
  let '(r, t) := apply_update_expression (H := no_unicode) ∅ (list_to_map vals) e (item_of target) in
  _ ← r; Ok (btree_iter t).
Example update_tests :
  [run_update [("count", num "10")] "SET count = count + :inc" [(":inc", num "5")];
   run_update [("list", json1 "L" (JArray [str "x"]))]
     "SET label = if_not_exists(label, :def), list = list_append(list, :more)"
     [(":def", str "new"); (":more", json1 "L" (JArray [str "y"]))];
   run_update [("a", str "x"); ("b", num "1")] "REMOVE b" [];
   run_update [("score", num "3")] "ADD score :s" [(":s", num "3")];
   run_update [("tags", json1 "SS" (json_strings ["a"; "b"]))] "ADD tags :t" [(":t", json1 "SS" (json_strings ["b"; "c"]))];
   run_update [("colors", json1 "SS" (json_strings ["red"; "blue"]))] "DELETE colors :c"
     [(":c", json1 "SS" (json_strings ["red"; "blue"]))];
   run_update [("count", num "1"); ("old", str "x")] "SET count = count + :inc REMOVE old" [(":inc", num "2")];
   run_update [] "  " []]
  = [Ok [("count", num "15")];
     Ok [("label", str "new"); ("list", json1 "L" (JArray [str "x"; str "y"]))];
     Ok [("a", str "x")];
     Ok [("score", num "6")];
     Ok [("tags", json1 "SS" (json_strings ["a"; "b"; "c"]))];
     Ok [];
     Ok [("count", num "3")];
     Err "update expression is required"].
Proof. vm_compute. reflexivity. Qed.
