(* ===== verification/DynUpdateProofs.v ===== *)
(** Theorems on UpdateExpression evaluation: updates keep every attribute
    well-typed and do not panic on ASCII expressions, the fuel is enough, and ADD
    and DELETE on sets are union and difference. *)

From S2P Require Import Prelude RustStr RustNum RustText Json DynNumber DynModel DynValue DynExpr DynUpdate.
Local Open Scope string_scope.
Local Open Scope Z_scope.

(** ** Well-typed values under the update operations *)

Section Typing.

Definition set_ok (k : string) (l : list string) : Prop :=
  l <> [] /\ NoDup l /\
  Forall (fun s => (k = "NS" -> is_valid_number s = true) /\ (k = "BS" -> is_Some (base64_decode s))) l.

Lemma ok_number v s : attribute_ok v -> str_member "N" v = Some s -> is_valid_number s = true.
Proof. by destruct 1; intros [= <-]. Qed.
Lemma ok_list v l : attribute_ok v -> arr_member "L" v = Some l -> Forall attribute_ok l.
Proof. by destruct 1; intros [= <-]. Qed.
Lemma string_member_json1 k l : string_member k (json1 k (json_strings l)) = Some l.
Proof. unfold string_member, arr_member. rewrite obj_get_json1. simpl. apply strings_of_strings. Qed.
Lemma ok_set k v l : attribute_ok v -> k ∈ set_types -> string_member k v = Some l ->
  v = json1 k (json_strings l) /\ set_ok k l.
Proof.
  intros Hv Hk. unfold set_types in Hk.
  repeat (apply elem_of_cons in Hk as [-> | Hk]); [..|by apply elem_of_nil in Hk];
  destruct Hv as [| | | | | | |l' Hne Hnd|l' Hne Hnd Hf|l' Hne Hnd Hf]; try done;
  rewrite string_member_json1; intros [= <-]; (split; [done|]); (split_and!; [done|done|]).
  - apply Forall_forall. by intros x _.
  - eapply Forall_impl; [done|]. by intros x Hx.
  - eapply Forall_impl; [done|]. by intros x Hx.
Qed.
Lemma set_ok_value k l : k ∈ set_types -> set_ok k l -> attribute_ok (json1 k (json_strings l)).
Proof.
  intros Hk (Hne & Hnd & Hf). unfold set_types in Hk.
  repeat (apply elem_of_cons in Hk as [-> | Hk]); [..|by apply elem_of_nil in Hk]; constructor; try done;
    eapply Forall_impl; try done; simpl; intros x [Hx1 Hx2]; auto.
Qed.

Lemma list_filter_iff_in {A} (P Q : A -> Prop) 
    `{!forall x, Decision (P x), !forall x, Decision (Q x)} (l : list A) :
  (forall x, x ∈ l -> P x <-> Q x) -> filter P l = filter Q l.
Proof.
  induction l as [|x l IH]; intros Hl; [done|]. rewrite !filter_cons.
  assert (P x <-> Q x) as Hx by (apply Hl, list_elem_of_here).
  rewrite IH by (intros y Hy; apply Hl; by apply list_elem_of_further).
  destruct (decide (P x)), (decide (Q x)); tauto.
Qed.
Lemma list_filter_Forall {A} (P Q : A -> Prop) `{!forall x, Decision (Q x)} (l : list A) :
  Forall P l -> Forall P (filter Q l).
Proof.
  induction 1 as [|x l Hx _ IH]; [constructor|]. rewrite filter_cons. destruct (decide (Q x)); auto.
Qed.
(** The union keeps the left set in order and appends what is new. *)
Lemma union_from_NoDup seen l : NoDup l -> union_from seen l = filter (fun v => v ∉ seen) l.
Proof.
  intros Hl. revert seen. induction Hl as [|x l Hx Hl IH]; intros seen; [done|]. cbn [union_from].
  rewrite filter_cons. case_bool_decide as Hs.
  - rewrite decide_False by (intros Hn; by apply Hn). apply IH.
  - rewrite decide_True by done. f_equal. rewrite IH. apply list_filter_iff_in. intros v Hv.
    rewrite elem_of_union, elem_of_singleton. split; [tauto|]. intros Hv' [->|?]; done.
Qed.
Lemma union_from_app seen l r :
  union_from seen (l ++ r) = (union_from seen l ++ union_from (list_to_set l ∪ seen) r)%list.
Proof.
  revert seen. induction l as [|x l IH]; intros seen.
  - simpl. by rewrite (left_id_L ∅ (∪)).
  - cbn [app union_from list_to_set]. case_bool_decide as Hx.
    + rewrite IH. replace ({[x]} ∪ list_to_set l ∪ seen) with (list_to_set l ∪ seen : gset string); [done|].
      apply set_eq. intros v. rewrite !elem_of_union, elem_of_singleton. split; [tauto|].
      intros [[->|?]|?]; tauto.
    + rewrite IH. cbn [app]. do 3 f_equal. apply set_eq. intros v. rewrite !elem_of_union. tauto.
Qed.
Lemma union_strings_NoDup l r : NoDup l -> NoDup r -> union_strings l r = (l ++ filter (fun v => v ∉ l) r)%list.
Proof.
  intros Hl Hr. unfold union_strings. rewrite union_from_app, !union_from_NoDup by done. f_equal.
  - clear. induction l as [|x l IH]; [done|]. rewrite filter_cons, IH, decide_True; [done|].
    apply not_elem_of_empty.
  - apply list_filter_iff_in. intros v _. rewrite elem_of_union, elem_of_list_to_set.
    split; [tauto|]. intros Hn [?|Hv]; [done|]. by apply elem_of_empty in Hv.
Qed.
Lemma subtract_strings_spec l r : subtract_strings l r = filter (fun v => v ∉ r) l.
Proof. apply list_filter_iff_in. intros v _. by rewrite elem_of_list_to_set. Qed.

Lemma str_member_N s : str_member "N" (json1 "N" (JString s)) = Some s.
Proof. reflexivity. Qed.

Lemma add_set_ok types cur inc r :
  (forall c, cur = Some c -> attribute_ok c) -> attribute_ok inc -> (forall k, k ∈ types -> k ∈ set_types) ->
  add_set types cur inc = Ok r -> attribute_ok r.
Proof.
  intros Hc Hi Ht. induction types as [|k types IH]; [done|]. cbn [add_set].
  assert (k ∈ set_types) as Hk by (apply Ht, list_elem_of_here).
  destruct (string_member k inc) as [l|] eqn:Hl;
    [|apply IH; intros k' Hk'; apply Ht; by apply list_elem_of_further].
  destruct cur as [c|]; [|by intros [= <-]].
  intros (l' & Hl'%ok_or_Ok & [= <-])%bind_Ok.
  destruct (ok_set k inc l Hi Hk Hl) as [_ (Hne & Hnd & Hf)].
  destruct (ok_set k c l' (Hc c eq_refl) Hk Hl') as [_ (Hne' & Hnd' & Hf')].
  apply set_ok_value; [done|]. rewrite union_strings_NoDup by done. split_and!.
  - by destruct l'.
  - apply NoDup_app. split; [done|]. split; [|by apply NoDup_filter].
    intros x Hx [Hn _]%list_elem_of_filter. done.
  - apply Forall_app. split; [done|]. by apply list_filter_Forall.
Qed.
Lemma add_attribute_ok cur inc r :
  (forall c, cur = Some c -> attribute_ok c) -> attribute_ok inc ->
  add_attribute_value cur inc = Ok r -> attribute_ok r.
Proof.
  intros Hc Hi. unfold add_attribute_value. destruct (str_member "N" inc) as [n|] eqn:Hn.
  - destruct cur as [c|]; [|by intros [= <-]].
    intros (m & Hm%ok_or_Ok & (s & Hs & [= <-])%bind_Ok)%bind_Ok. constructor.
    apply (add_number_valid m n s Hs).
  - by apply (add_set_ok set_types).
Qed.
Lemma negate_ok v r : negate_number_attribute v = Ok r -> attribute_ok r.
Proof.
  intros (m & Hm%ok_or_Ok & (s & Hs & [= <-])%bind_Ok)%bind_Ok. constructor. by apply (negate_number_valid m).
Qed.
Lemma append_ok l r v :
  attribute_ok l -> attribute_ok r -> append_list_attribute_values l r = Ok v -> attribute_ok v.
Proof.
  intros Hl Hr. unfold append_list_attribute_values.
  destruct (arr_member "L" l) as [a|] eqn:Ha; [|done]. destruct (arr_member "L" r) as [b|] eqn:Hb; [|done].
  intros [= <-]. constructor. apply Forall_app. split; [by apply (ok_list l)|by apply (ok_list r)].
Qed.
Lemma delete_set_ok types cur dec v b :
  (forall c, cur = Some c -> attribute_ok c) -> (forall k, k ∈ types -> k ∈ set_types) ->
  delete_set types cur dec = Ok (Some v, b) -> attribute_ok v.
Proof.
  intros Hc Ht. induction types as [|k types IH]; [done|]. cbn [delete_set].
  assert (k ∈ set_types) as Hk by (apply Ht, list_elem_of_here).
  destruct (string_member k dec) as [l|] eqn:Hl;
    [|apply IH; intros k' Hk'; apply Ht; by apply list_elem_of_further].
  case_bool_decide; [done|]. destruct cur as [c|]; [|done].
  intros (l' & Hl'%ok_or_Ok & Hr)%bind_Ok. cbv zeta in Hr. case_bool_decide as Hne; [done|].
  injection Hr as <- _.
  destruct (ok_set k c l' (Hc c eq_refl) Hk Hl') as [_ (Hne' & Hnd' & Hf')].
  rewrite subtract_strings_spec in *. apply set_ok_value; [done|]. split_and!; [done| |].
  - by apply NoDup_filter.
  - by apply list_filter_Forall.
Qed.

(** ** Evaluation *)

Definition values_ok (m : gmap string Value) : Prop := forall k v, m !! k = Some v -> attribute_ok v.

Lemma evaluate_ok fuel target e names values v :
  values_ok target -> values_ok values -> evaluate_fuel fuel target e names values = Ok v -> attribute_ok v.
Proof.
  intros Ht Hv. revert e v. induction fuel as [|fuel IH]; intros e v; [done|]. cbn [evaluate_fuel].
  destruct (split_arithmetic_update_expression e) as [[[l op] r]|].
  { intros (lv & Hl%IH & (rv & Hr%IH & (rv' & Hn & Ha)%bind_Ok)%bind_Ok)%bind_Ok.
    apply (add_attribute_ok (Some lv) rv'); [by intros c [= <-]| |done].
    destruct (Ascii.eqb op "-"); [by apply (negate_ok rv)|by injection Hn as <-]. }
  destruct (parse_function_call e "if_not_exists") as [body|].
  { intros ([a b] & _ & Hr)%bind_Ok. case_match eqn:Hc; [|by apply IH in Hr].
    injection Hr as <-. by apply Ht in Hc. }
  destruct (parse_function_call e "list_append") as [body|].
  { intros ([a b] & _ & (lv & Hl%IH & (rv & Hr%IH & Ha)%bind_Ok)%bind_Ok)%bind_Ok. by apply (append_ok lv rv). }
  case_match eqn:Hw; [intros [= <-]; by apply Hv in Hw|].
  intros Hr%ok_or_Ok. by apply Ht in Hr.
Qed.

(** The parts of an expression are shorter than it. *)
Lemma find_operator_length d e a op b :
  find_operator d e = Some (a, op, b) -> (String.length a + String.length b < String.length e)%nat.
Proof.
  revert d a. induction e as [|c e IH]; intros d a; cbn [find_operator]; [done|].
  assert (forall d', ('(a, op, b) ← find_operator d' e; Some (String c a, op, b)) = Some (a, op, b) ->
    (String.length a + String.length b < String.length (String c e))%nat) as Hkeep.
  { intros d'. destruct (find_operator d' e) as [[[a' op'] b']|] eqn:E; [|done]. cbn. intros [= <- -> ->].
    apply IH in E. cbn. lia. }
  destruct (Ascii.eqb c "("); [apply Hkeep|]. destruct (Ascii.eqb c ")"); [apply Hkeep|].
  destruct (_ && _); [|apply Hkeep]. intros [= <- _ <-]. cbn. lia.
Qed.
Lemma split_arithmetic_length e a op b :
  split_arithmetic_update_expression e = Some (a, op, b) ->
  (String.length a < String.length e)%nat /\ (String.length b < String.length e)%nat.
Proof.
  unfold split_arithmetic_update_expression.
  destruct (find_operator 0 e) as [[[a' op'] b']|] eqn:E; [|done]. intros [= <- _ <-].
  apply find_operator_length in E. pose proof (trim_length a'). pose proof (trim_length b'). lia.
Qed.
Lemma call_args_length e name body p :
  parse_function_call e name = Some body -> p ∈ split_comma_separated body ->
  (String.length (trim p) < String.length e)%nat.
Proof.
  intros ->%parse_function_call_Some Hp%split_comma_length. pose proof (trim_length p).
  rewrite !str_length_app. change (String.length "(") with 1%nat. lia.
Qed.
Lemma two_args_elem e l a b : two_args e l = Ok (a, b) -> a ∈ l /\ b ∈ l.
Proof. destruct l as [|x [|y [|]]]; try done. intros [= <- <-]. rewrite !elem_of_cons. auto. Qed.

(** More fuel than bytes changes nothing: the recursion ends. *)
Lemma evaluate_enough fuel target e names values :
  (String.length e < fuel)%nat ->
  evaluate_fuel fuel target e names values = evaluate_update_value target e names values.
Proof.
  unfold evaluate_update_value. remember (S (String.length e)) as k eqn:Hk. intros Hf.
  assert (String.length e < k)%nat as Hk' by lia. clear Hk. revert k e Hf Hk'.
  induction fuel as [|fuel IH]; intros [|k] e Hf Hk; try lia. cbn [evaluate_fuel].
  destruct (split_arithmetic_update_expression e) as [[[l op] r]|] eqn:Ha.
  { apply split_arithmetic_length in Ha as [Hl Hr]. rewrite (IH k l), (IH k r) by lia. done. }
  destruct (parse_function_call e "if_not_exists") as [body|] eqn:Hb.
  { destruct (two_args _ _) as [[a b]| |] eqn:Hab; [cbn|done..].
    apply two_args_elem in Hab as [_ Hb']. case_match; [done|].
    pose proof (call_args_length _ _ _ _ Hb Hb'). apply IH; lia. }
  destruct (parse_function_call e "list_append") as [body|] eqn:Hb'; [|done].
  destruct (two_args _ _) as [[a b]| |] eqn:Hab; [cbn|done..].
  apply two_args_elem in Hab as [Ha' Hb''].
  pose proof (call_args_length _ _ _ _ Hb' Ha'). pose proof (call_args_length _ _ _ _ Hb' Hb'').
  by rewrite (IH k (trim a)), (IH k (trim b)) by lia.
Qed.

Lemma add_number_no_panic s t : no_panic (add_number_strings s t).
Proof. unfold add_number_strings. by destruct (parse s), (parse t). Qed.
Lemma add_no_panic cur inc : no_panic (add_attribute_value cur inc).
Proof.
  unfold add_attribute_value. destruct (str_member "N" inc) as [n|].
  - destruct cur as [c|]; [|done]. destruct (str_member "N" c) as [m|]; [|done]. simpl.
    apply no_panic_bind; [apply add_number_no_panic|done].
  - generalize set_types. intros types. induction types as [|k types IH]; [done|]. cbn [add_set].
    destruct (string_member k inc); [|done]. destruct cur as [c|]; [|done]. by destruct (string_member k c).
Qed.
Lemma negate_no_panic v : no_panic (negate_number_attribute v).
Proof.
  unfold negate_number_attribute. destruct (str_member "N" v) as [n|]; [|done]. simpl.
  unfold negate_number_string. by destruct (parse n).
Qed.
Lemma delete_no_panic cur dec : no_panic (delete_attribute_value cur dec).
Proof.
  unfold delete_attribute_value. generalize set_types. intros types.
  induction types as [|k types IH]; [done|]. cbn [delete_set].
  destruct (string_member k dec); [|done]. case_bool_decide; [done|].
  destruct cur as [c|]; [|done]. destruct (string_member k c); [|done]. simpl. by case_bool_decide.
Qed.
Lemma two_args_no_panic e l w : two_args e l <> Panic w.
Proof. by destruct l as [|? [|? [|]]]. Qed.

Lemma evaluate_no_panic fuel target e names values :
  (String.length e < fuel)%nat -> no_panic (evaluate_fuel fuel target e names values).
Proof.
  revert e. induction fuel as [|fuel IH]; intros e Hf; [lia|]. cbn [evaluate_fuel].
  destruct (split_arithmetic_update_expression e) as [[[l op] r]|] eqn:Ha.
  { apply split_arithmetic_length in Ha as [Hl Hr].
    apply no_panic_bind; [apply IH; lia|]. intros lv. apply no_panic_bind; [apply IH; lia|]. intros rv.
    apply no_panic_bind; [by destruct (Ascii.eqb _ _); [apply negate_no_panic|]|]. intros w.
    apply add_no_panic. }
  destruct (parse_function_call e "if_not_exists") as [body|] eqn:Hb.
  { destruct (two_args _ _) as [[a b]| |] eqn:Hab; [cbn|done|by apply two_args_no_panic in Hab].
    apply two_args_elem in Hab as [_ Hb']. case_match; [done|].
    pose proof (call_args_length _ _ _ _ Hb Hb'). apply IH; lia. }
  destruct (parse_function_call e "list_append") as [body|] eqn:Hb'.
  { destruct (two_args _ _) as [[a b]| |] eqn:Hab; [cbn|done|by apply two_args_no_panic in Hab].
    apply two_args_elem in Hab as [Ha' Hb''].
    pose proof (call_args_length _ _ _ _ Hb' Ha'). pose proof (call_args_length _ _ _ _ Hb' Hb'').
    apply no_panic_bind; [apply IH; lia|]. intros lv. apply no_panic_bind; [apply IH; lia|]. intros rv.
    unfold append_list_attribute_values. by repeat case_match. }
  case_match; [done|]. apply no_panic_ok_or.
Qed.
End Typing.

(** ** Clause boundaries

    On ASCII text uppercasing keeps every offset, so the slices between the
    clauses are in bounds and in order. *)
Section Boundaries.

(** The word [kw] starts at offset [i], between spaces. *)
Definition starts_at (s : string) (k : string * Z) : Prop :=
  exists a b, s = a +:+ k.1 +:+ String " " b /\ str_len a = k.2
    /\ (a = "" \/ exists a', a = a' +:+ " ").

Lemma get_split n s c : String.get n s = Some c -> exists a b, s = a +:+ String c b /\ String.length a = n.
Proof.
  revert s. induction n as [|n IH]; intros [|d s]; cbn [String.get]; try done.
  - intros [= ->]. by exists "", s.
  - intros (a & b & -> & <-)%IH. by exists (String d a), b.
Qed.
Lemma boundary_starts s a kw b :
  s = a +:+ kw +:+ b -> is_update_clause_boundary s (str_len a) (str_len kw) = true ->
  starts_at s (kw, str_len a).
Proof.
  intros Hs [Hb Ha]%andb_true_iff. apply bool_decide_eq_true in Ha.
  destruct (get_split _ _ _ Ha) as (p & q & Hp & Hl).
  assert (b = String " " q) as ->.
  { rewrite Hp in Hs. rewrite <- str_app_assoc in Hs. apply str_app_inj_length in Hs as [_ Hs]; [done|].
    rewrite Hl, str_length_app. unfold str_len. lia. }
  exists a, q. split; [done|]. split; [done|]. apply orb_true_iff in Hb as [Hb|Hb].
  - left. apply Z.eqb_eq in Hb. by apply str_len_zero.
  - apply bool_decide_eq_true in Hb. destruct (get_split _ _ _ Hb) as (p' & q' & Hp' & Hl').
    destruct (decide (a = "")) as [->|Hne]; [by left|]. right.
    rewrite Hs in Hp'. apply str_app_split in Hp' as [(e & -> & He)|(e & -> & He)].
    + rewrite str_length_app in Hl'. unfold str_len in Hl'. destruct a; [done|]. cbn [String.length] in *. lia.
    + rewrite str_len_app in Hl'. destruct e as [|x e].
      { change (str_len "") with 0 in Hl'. destruct p'; [done|]. unfold str_len in Hl'. cbn [String.length] in Hl'. lia. }
      rewrite str_app_cons in He. injection He as <- He. rewrite str_len_cons in Hl'.
      assert (e = "") as ->; [|by exists p'].
      apply str_len_zero. unfold str_len in *. lia.
Qed.

Lemma keyword_starts_spec fuel s kw off e :
  0 <= off -> e ∈ keyword_starts fuel s kw off -> kw <> "" -> off <= str_len s ->
  e.1 = kw /\ off <= e.2 /\ starts_at s e.
Proof.
  intros Hoff He Hkw. revert off Hoff He. induction fuel as [|fuel IH]; intros off Hoff;
    cbn [keyword_starts]; [by intros ?%elem_of_nil|].
  destruct (find kw (str_drop off s)) as [rel|] eqn:Hf; [|by intros ?%elem_of_nil].
  intros He Hle. unfold find in Hf. destruct (split_once kw _) as [[a b]|] eqn:Hs; [|done].
  injection Hf as <-. apply split_once_Some in Hs. destruct (str_split off s ltac:(lia)) as (Hsp & Ht & Hd).
  cbn [fst] in *. rewrite Hs in Hsp. set (p := str_take off s) in *.
  assert (str_len (p +:+ a) = off + str_len a) as Hpa by (rewrite str_len_app; lia).
  assert (off + str_len a + str_len kw <= str_len s) as Hend.
  { rewrite Hsp, !str_len_app. pose proof (str_len_nonneg b). lia. }
  pose proof (str_len_nonneg a). pose proof (str_len_nonneg kw).
  assert (e ∈ keyword_starts fuel s kw (off + str_len a + str_len kw) -> e.1 = kw /\ off <= e.2 /\ starts_at s e)
    as Hrest.
  { intros He'. destruct (IH (off + str_len a + str_len kw) ltac:(lia) He' ltac:(lia)) as (? & ? & ?).
    split_and!; [done|lia|done]. }
  destruct (is_update_clause_boundary _ _ _) eqn:Hb; [|by apply Hrest].
  apply elem_of_cons in He as [->|He]; [|by apply Hrest]. cbn. split; [done|]. split; [lia|].
  rewrite <- Hpa. apply (boundary_starts s (p +:+ a) kw b); [by rewrite str_app_assoc|by rewrite Hpa].
Qed.
Lemma keyword_starts_NoDup fuel s kw off :
  0 <= off <= str_len s -> kw <> "" -> NoDup (keyword_starts fuel s kw off).
Proof.
  intros Hoff Hkw. revert off Hoff. induction fuel as [|fuel IH]; intros off Hoff; cbn [keyword_starts];
    [constructor|].
  destruct (find kw (str_drop off s)) as [rel|] eqn:Hf; [|constructor].
  unfold find in Hf. destruct (split_once kw _) as [[a b]|] eqn:Hs; [|done].
  injection Hf as <-. apply split_once_Some in Hs. destruct (str_split off s ltac:(lia)) as (Hsp & Ht & Hd).
  cbn [fst]. pose proof (str_len_nonneg a).
  assert (1 <= str_len kw) by (destruct kw; [done|]; rewrite str_len_cons; pose proof (str_len_nonneg kw); lia).
  assert (off + str_len a + str_len kw <= str_len s) as Hend.
  { rewrite Hs, !str_len_app in Hd. pose proof (str_len_nonneg b). lia. }
  assert (NoDup (keyword_starts fuel s kw (off + str_len a + str_len kw))) as Hnd by (apply IH; lia).
  destruct (is_update_clause_boundary _ _ _); [|done]. constructor; [|done].
  intros Hin. apply keyword_starts_spec in Hin as (_ & Hle & _); simpl in *; try done; lia.
Qed.


Lemma snoc_suffix a e a' : a +:+ e = a' +:+ " " -> e <> "" -> exists f, e = f +:+ " ".
Proof.
  intros [(f & _ & ->)|(f & _ & He)]%str_app_split Hne; [by exists f|].
  destruct f as [|c f]; [exists ""; by rewrite He|]. rewrite str_app_cons in He. injection He as _ He. destruct f; [|done].
  rewrite str_app_nil_l in He. by destruct Hne.
Qed.
Definition no_blank (s : string) : Prop := str_all (negb ∘ Ascii.eqb " ") s = true.
Lemma starts_apart s k1 k2 :
  no_blank k1.1 -> no_blank k2.1 -> starts_at s k1 -> starts_at s k2 -> k1 <> k2 -> k1.2 <= k2.2 ->
  k1.2 + str_len k1.1 <= k2.2.
Proof.
  destruct k1 as [k1 i], k2 as [k2 j]. cbn [fst snd].
  intros Hk1 Hk2 (a1 & b1 & Hs1 & Hi & _) (a2 & b2 & Hs2 & Hj & Ha2) Hne Hle. cbn [fst snd] in *. subst i j.
  rewrite Hs1 in Hs2. apply str_app_split in Hs2 as [(e & -> & He)|(e & -> & He)].
  - rewrite str_len_app. destruct (decide (e = "")) as [->|Hnil].
    + rewrite str_app_nil_l in He. exfalso. apply Hne. f_equal; [|by rewrite str_app_nil_r].
      change (String " " b1) with (char_str " " +:+ b1) in He.
      change (String " " b2) with (char_str " " +:+ b2) in He.
      pose proof (split_once_char " " k1 b1 Hk1) as H1. rewrite He, split_once_char in H1 by done. congruence.
    + destruct Ha2 as [Ha2|(a' & Ha2)]; [by destruct a1|].
      apply snoc_suffix in Ha2 as (e' & ->); [|done].
      rewrite str_app_assoc in He. apply str_app_split in He as [(f & -> & _)|(f & -> & He)].
      * rewrite !str_len_app. pose proof (str_len_nonneg f). pose proof (str_len_nonneg " "). lia.
      * destruct f as [|y f].
        { rewrite !str_len_app. change (str_len "") with 0. pose proof (str_len_nonneg " "). lia. }
        rewrite str_app_cons in He. injection He as <- _. unfold no_blank in Hk1.
        by rewrite str_all_app, andb_false_r in Hk1.
  - rewrite str_len_app in Hle. destruct e as [|x e]; [|rewrite str_len_cons in Hle; pose proof (str_len_nonneg e); lia].
    rewrite str_app_nil_l in He. exfalso. apply Hne. f_equal; [|by rewrite str_app_nil_r].
    change (String " " b1) with (char_str " " +:+ b1) in He.
    change (String " " b2) with (char_str " " +:+ b2) in He.
    pose proof (split_once_char " " k1 b1 Hk1) as H1. rewrite <- He, split_once_char in H1 by done. congruence.
Qed.

Definition clause_keywords : list string := ["SET"; "REMOVE"; "ADD"; "DELETE"].
Definition clause_starts (upper : string) : list (string * Z) :=
  flat_map (fun kw => keyword_starts (S (String.length upper)) upper kw 0) clause_keywords.
Lemma clause_keywords_ok k : k ∈ clause_keywords -> k <> "" /\ no_blank k.
Proof. revert k. apply Forall_forall. by repeat constructor. Qed.
Lemma clause_starts_spec s e :
  e ∈ clause_starts s -> e.1 ∈ clause_keywords /\ 0 <= e.2 /\ starts_at s e.
Proof.
  intros He%list_elem_of_In. apply in_flat_map in He as (kw & Hkw & He).
  apply list_elem_of_In in Hkw, He. pose proof (str_len_nonneg s).
  destruct (clause_keywords_ok kw Hkw).
  apply keyword_starts_spec in He as (-> & ? & ?); [done|lia|done|lia].
Qed.
Lemma NoDup_flat_map_keys (f : string -> list (string * Z)) l :
  NoDup l -> (forall k, k ∈ l -> NoDup (f k)) -> (forall k e, k ∈ l -> e ∈ f k -> e.1 = k) -> NoDup (flat_map f l).
Proof.
  intros Hl Hnd Hk. induction Hl as [|k l Hn Hl IH]; [constructor|]. simpl.
  assert (k ∈ k :: l) as Hkl by apply list_elem_of_here.
  apply NoDup_app. split; [by apply Hnd|]. split.
  - intros e He (k' & Hk' & He')%list_elem_of_In%in_flat_map. apply list_elem_of_In in Hk', He'.
    apply (Hk k e Hkl) in He. apply (Hk k' e) in He'; [|by apply list_elem_of_further]. congruence.
  - apply IH; intros k' Hk'; [apply Hnd|intros e; apply Hk]; by apply list_elem_of_further.
Qed.
Lemma clause_starts_NoDup s : NoDup (clause_starts s).
Proof.
  pose proof (str_len_nonneg s). apply NoDup_flat_map_keys.
  - by apply (bool_decide_unpack _).
  - intros k Hk. apply keyword_starts_NoDup; [lia|]. by apply clause_keywords_ok.
  - intros k e Hk He. apply keyword_starts_spec in He as (-> & _); [done|lia|by apply clause_keywords_ok|lia].
Qed.

(** Clauses in order, each ending before the next begins. *)
Lemma str_slice_ascii s lo hi : str_all is_ascii s = true -> 0 <= lo <= hi -> hi <= str_len s ->
  no_panic (str_slice lo hi s).
Proof.
  intros Hs Hlo Hhi. unfold str_slice. rewrite !is_char_boundary_ascii by (done || lia).
  destruct (Z.leb_spec lo hi); [done|lia].
Qed.
Lemma clauses_of_no_panic s starts :
  str_all is_ascii s = true ->
  Forall (fun e => 0 <= e.2 /\ e.2 + str_len e.1 <= str_len s) starts ->
  StronglySorted (fun a b => a.2 + str_len a.1 <= b.2) starts -> no_panic (clauses_of s starts).
Proof.
  intros Hs Hb Hsort. induction Hsort as [|[kw i] rest Hsort IH Hhd]; [done|]. cbn [clauses_of].
  apply Forall_cons in Hb as [[Hi Hend] Hb]. cbn [fst snd] in *.
  apply no_panic_bind.
  - pose proof (str_len_nonneg kw). destruct rest as [|[kw' j] rest]; [by apply str_slice_ascii; [done|lia|lia]|].
    apply Forall_cons in Hhd as [Hij _], Hb as [[Hj Hend'] _]. cbn [fst snd] in *.
    pose proof (str_len_nonneg kw'). apply str_slice_ascii; [done|lia|lia].
  - intros slice. destruct (is_empty _); [done|]. apply no_panic_bind; [by apply IH|done].
Qed.

Lemma starts_at_end s e : starts_at s e -> e.2 + str_len e.1 <= str_len s.
Proof.
  intros (a & b & -> & <- & _). rewrite !str_len_app, str_len_cons. pose proof (str_len_nonneg b). lia.
Qed.
Lemma split_update_clauses_no_panic `{UnicodeCase} s :
  str_all is_ascii s = true -> no_panic (split_update_clauses s).
Proof.
  intros Hs. unfold split_update_clauses. cbv zeta. rewrite to_uppercase_ascii by done.
  set (upper := to_ascii_uppercase s). change (flat_map _ _) with (clause_starts upper).
  case_bool_decide; [done|].
  assert (str_len upper = str_len s) as Hlen by (unfold str_len; by rewrite <- (str_map_length to_upper_byte s)).
  set (l := sort_by _ _). assert (l ≡ₚ clause_starts upper) as Hp by apply sort_by_perm.
  assert (forall e, e ∈ l -> e.1 ∈ clause_keywords /\ 0 <= e.2 /\ starts_at upper e) as Hl
    by (intros e He; rewrite Hp in He; by apply clause_starts_spec).
  apply clauses_of_no_panic; [done|..].
  - apply Forall_forall. intros e He. destruct (Hl e He) as (_ & ? & Hst%starts_at_end). lia.
  - assert (NoDup l) as Hnd by (rewrite Hp; apply clause_starts_NoDup).
    assert (StronglySorted (fun a b : string * Z => (a.2 ?= b.2) <> Gt) l) as Hsort.
    { apply (sort_by_sorted _ (fun _ => True)); [|..].
      - intros x y _ _. rewrite Z.compare_gt_iff, Z.compare_gt_iff. lia.
      - intros x y z _ _ _. rewrite !Z.compare_gt_iff. lia.
      - by apply Forall_forall. }
    clearbody l. clear Hp. induction Hsort as [|e l Hsort IH Hhd]; [constructor|].
    apply NoDup_cons in Hnd as [Hn Hnd]. constructor.
    + apply IH; [|done]. intros x Hx. apply Hl. by apply list_elem_of_further.
    + rewrite Forall_forall in *. intros x Hx. specialize (Hhd x Hx). rewrite Z.compare_gt_iff in Hhd.
      destruct (Hl e (list_elem_of_here _ _)) as (Hk1 & _ & Hs1).
      destruct (Hl x (list_elem_of_further _ _ _ Hx)) as (Hk2 & _ & Hs2).
      apply clause_keywords_ok in Hk1 as [_ Hk1], Hk2 as [_ Hk2].
      apply (starts_apart upper); try done; [by intros ->|lia].
Qed.
End Boundaries.

(** ** The whole expression *)

Section Whole.
  Context `{UnicodeCase} (names : Names) (values : Values).
  Hypothesis values_typed : values_ok values.

Lemma values_insert t k v : values_ok t -> attribute_ok v -> values_ok (<[k := v]> t).
Proof.
  intros Ht Hv k' v'. destruct (decide (k = k')) as [->|Hk].
  - rewrite lookup_insert_eq. by intros [= <-].
  - rewrite lookup_insert_ne by done. apply Ht.
Qed.
Lemma values_delete t k : values_ok t -> values_ok (delete k t).
Proof. intros Ht k' v' [_ Hk]%lookup_delete_Some. by apply Ht in Hk. Qed.

(** Every step leaves the item well-typed and does not panic. *)
Definition safe {A} (o : outcome A) (t : Item) : Prop := values_ok t /\ no_panic o.

Lemma set_one_safe s t : values_ok t -> wp (set_one names values s) safe t.
Proof.
  intros Ht. unfold set_one. wp_steps. destruct (cut (trim s) "=") as [[n v]|]; [|by split]. simpl. wp_steps.
  pose proof (evaluate_no_panic (S (String.length (trim v))) t (trim v) names values ltac:(lia)) as Hp.
  fold (evaluate_update_value t (trim v) names values) in Hp.
  destruct (evaluate_update_value _ _ _ _) as [w|e|e] eqn:He; [|by split|done].
  wp_steps. split; [|done]. apply values_insert; [done|].
  by apply (evaluate_ok (S (String.length (trim v))) t (trim v) names values).
Qed.
Lemma remove_one_safe s t : values_ok t -> wp (remove_one names s) safe t.
Proof. intros Ht. unfold remove_one. wp_steps; split; try done. by apply values_delete. Qed.
Lemma action_operands_safe kw s (Q : outcome (string * Value) -> Item -> Prop) t :
  (forall e, Q (Err e) t) -> (forall a v, a <> "" -> attribute_ok v -> Q (Ok (a, v)) t) ->
  wp (action_operands names values kw s) Q t.
Proof.
  intros He Hok. unfold action_operands. destruct (split_whitespace s) as [|n [|v [|]]]; try apply He.
  wp_steps; [apply He|]. destruct (values !! v) as [w|] eqn:Hv; simpl; [|apply He]. wp_steps.
  apply Hok; [intros E%is_empty_true; congruence|by apply values_typed in Hv].
Qed.
Lemma add_one_safe s t : values_ok t -> wp (add_one names values s) safe t.
Proof.
  intros Ht. unfold add_one. wp_steps. apply action_operands_safe; [intros e; unfold bind_post; by split|]. intros a v _ Hv. wp_steps.
  destruct (add_attribute_value _ v) as [w|e|e] eqn:Ha;
    [|by split|by destruct (no_panic_not _ _ (add_no_panic _ _) Ha)]. wp_steps. split; [|done].
  apply values_insert; [done|]. eapply add_attribute_ok; [|done|done]. intros c Hc. by apply Ht in Hc.
Qed.
Lemma delete_one_safe s t : values_ok t -> wp (delete_one names values s) safe t.
Proof.
  intros Ht. unfold delete_one. wp_steps. apply action_operands_safe; [intros e; unfold bind_post; by split|]. intros a v _ Hv. wp_steps.
  destruct (delete_attribute_value _ v) as [[w b]|e|e] eqn:Ha;
    [|by split|by destruct (no_panic_not _ _ (delete_no_panic _ _) Ha)].
  destruct b; [wp_steps; split; [by apply values_delete|done]|].
  destruct w as [w|]; [|by split]. wp_steps. split; [|done]. apply values_insert; [done|].
  apply (delete_set_ok set_types) in Ha; [done| |done]. intros c Hc. by apply Ht in Hc.
Qed.

Lemma for_each_safe {X} (f : X -> M Item unit) l t :
  (forall x t, values_ok t -> wp (f x) safe t) -> values_ok t ->
  wp (for_each l tt (fun x _ => f x)) safe t.
Proof.
  intros Hf Ht. apply (wp_for_each (fun _ _ t => values_ok t)); [|by split|done].
  intros x xs [] t' Ht'. eapply wp_mono; [by apply Hf|]. intros [[]|e|w] t'' [Ht'' Hp]; [done|by split|done].
Qed.
Lemma apply_clause_safe c t : values_ok t -> wp (apply_clause names values c) safe t.
Proof.
  intros Ht. unfold apply_clause, each.
  destruct (str_eqb _ _); [apply for_each_safe; [apply set_one_safe|done]|].
  destruct (str_eqb _ _); [apply for_each_safe; [apply remove_one_safe|done]|].
  destruct (str_eqb _ _); [apply for_each_safe; [apply add_one_safe|done]|].
  destruct (str_eqb _ _); [apply for_each_safe; [apply delete_one_safe|done]|by split].
Qed.
End Whole.

Lemma trim_start_of_suffix fuel ps s : exists a, s = a +:+ trim_start_of fuel ps s.
Proof.
  revert s. induction fuel as [|fuel IH]; intros s; cbn [trim_start_of]; [by exists ""|].
  destruct (strip_one_of ps s) as [r|] eqn:Hr; [|by exists ""].
  apply strip_one_of_Some in Hr as (p & _ & ->). destruct (IH r) as (a & Ha).
  exists (p +:+ a). by rewrite str_app_assoc, <- Ha.
Qed.
Lemma str_all_trim p s : str_all p s = true -> str_all p (trim s) = true.
Proof.
  intros Hs. unfold trim, trim_end, trim_start. rewrite str_all_rev.
  destruct (trim_start_of_suffix (String.length s) white_space s) as (a & Ha).
  rewrite Ha, str_all_app in Hs. apply andb_true_iff in Hs as [_ Hs].
  set (t := trim_start_of _ _ s) in *.
  destruct (trim_start_of_suffix (String.length t) (map str_rev white_space) (str_rev t)) as (b & Hb).
  rewrite <- str_all_rev, Hb, str_all_app in Hs. by apply andb_true_iff in Hs as [_ Hs].
Qed.

(** ** Theorems *)

(** C28: UpdateExpression evaluation is type-safe: from an item whose attributes are
    well-typed and with well-typed expression values, every attribute of the item is
    well-typed afterwards, whatever the expression and whether it succeeds or
    fails; on ASCII expressions it never panics. *)
Theorem update_preserves_types `{UnicodeCase} names values e t :
  values_ok values -> values_ok t ->
  wp (apply_update_expression names values e)
     (fun o t' => values_ok t' /\ (str_all is_ascii e = true -> no_panic o)) t.
Proof.
  intros Hv Ht. unfold apply_update_expression. cbv zeta. wp_steps; [by split|].
  pose proof (split_update_clauses_no_panic (trim e)) as Hp.
  destruct (split_update_clauses (trim e)) as [cs|err|w]; [|by split|].
  - eapply wp_mono; [by apply for_each_safe; [apply apply_clause_safe|]|]. by intros o t' [? ?].
  - split; [done|]. intros He. by apply Hp, str_all_trim.
Qed.

(** The recursion of evaluate_update_value always ends with a value or an error:
    on any expression, in at most one step per byte and one more; more steps do not
    change its result. *)
Theorem evaluate_terminates target e names values fuel :
  (String.length e < fuel)%nat ->
  evaluate_fuel fuel target e names values = evaluate_update_value target e names values
  /\ no_panic (evaluate_update_value target e names values).
Proof.
  intros Hf. split; [by apply evaluate_enough|]. apply evaluate_no_panic. lia.
Qed.

Lemma string_member_other k k' l : k <> k' -> string_member k (json1 k' (json_strings l)) = None.
Proof. intros Hk. unfold string_member, arr_member. by rewrite obj_get_json1_ne. Qed.
Lemma str_member_set k l : k ∈ set_types -> str_member "N" (json1 k (json_strings l)) = None.
Proof.
  intros Hk. unfold set_types in Hk.
  by repeat (apply elem_of_cons in Hk as [-> | Hk]); [..|apply elem_of_nil in Hk].
Qed.
Lemma add_set_same k types cur l :
  k ∈ types ->
  add_set types cur (json1 k (json_strings l)) =
    match cur with
    | None => Ok (json1 k (json_strings l))
    | Some c => l' ← ok_or ("ADD " +:+ k +:+ " requires existing " +:+ k +:+ " attribute") (string_member k c);
                Ok (json1 k (json_strings (union_strings l' l)))
    end.
Proof.
  induction types as [|k' types IH]; [by intros ?%elem_of_nil|]. intros Hk. cbn [add_set].
  destruct (decide (k' = k)) as [->|Hne]; [by rewrite string_member_json1|].
  rewrite string_member_other by done. apply IH. by apply elem_of_cons in Hk as [->|?].
Qed.
Lemma delete_set_same k types cur l :
  k ∈ types -> l <> [] ->
  delete_set types cur (json1 k (json_strings l)) =
    match cur with
    | None => Ok (None, false)
    | Some c => l' ← ok_or ("DELETE " +:+ k +:+ " requires existing " +:+ k +:+ " attribute") (string_member k c);
                Ok (if bool_decide (subtract_strings l' l = []) then (None, true)
                    else (Some (json1 k (json_strings (subtract_strings l' l))), false))
    end.
Proof.
  intros Hk Hl. induction types as [|k' types IH]; [by apply elem_of_nil in Hk|]. cbn [delete_set].
  destruct (decide (k' = k)) as [->|Hne].
  - rewrite string_member_json1, bool_decide_false by done. destruct cur as [c|]; [|done].
    destruct (string_member k c); [|done]. simpl. by case_bool_decide.
  - rewrite string_member_other by done. apply IH. by apply elem_of_cons in Hk as [->|?].
Qed.

(** ADD and DELETE on string, number and binary sets are set union and
    difference: ADD keeps the elements in place and appends the new ones once, DELETE
    keeps the elements not deleted, in order, and removes the attribute when none
    is left; on an absent attribute ADD creates the set and DELETE does nothing. *)
Theorem set_add_delete k l r :
  k ∈ set_types -> set_ok k l -> set_ok k r ->
  let v s := json1 k (json_strings s) in
  let kept := filter (fun x => x ∉ r) l in
  add_attribute_value (Some (v l)) (v r) = Ok (v (l ++ filter (fun x => x ∉ l) r)%list)
  /\ add_attribute_value None (v r) = Ok (v r)
  /\ delete_attribute_value (Some (v l)) (v r)
     = Ok (if bool_decide (kept = []) then (None, true) else (Some (v kept), false))
  /\ delete_attribute_value None (v r) = Ok (None, false).
Proof.
  intros Hk (_ & Hl & _) (Hne & Hr & _) v kept. unfold add_attribute_value, delete_attribute_value, v, kept.
  rewrite str_member_set, !add_set_same, !delete_set_same by done.
  rewrite string_member_json1. cbn [ok_or mbind outcome_bind].
  by rewrite union_strings_NoDup, subtract_strings_spec by done.
Qed.

(** Subtraction and addition group to the right: 10 - 3 - 2 is 10 - (3 - 2). *)
Theorem update_arithmetic_right_assoc :
  evaluate_update_value (item_of [("a", num "10")]) "a - :x - :y" ∅
    (list_to_map [(":x", num "3"); (":y", num "2")]) = Ok (num "9").
Proof. vm_compute. reflexivity. Qed.

(** A character that uppercases to fewer bytes shifts every later clause: with the
    dotless i (two bytes, uppercased to the one byte [I]) before it, [REMOVE x]
    removes the attribute named [E x], that is nothing. *)
Definition dotless_i : string := bytes_str [196; 177].
Definition turkish : UnicodeCase := {| upper_char := fun c => if str_eqb c dotless_i then "I" else c |}.
Theorem update_clause_shift :
  apply_update_expression (H := turkish) ∅ (list_to_map [(":v", num "1")])
    ("SET " +:+ dotless_i +:+ " = :v REMOVE x") (item_of [("x", num "5")])
  = (Ok tt, item_of [("x", num "5"); (dotless_i, num "1")]).
Proof. vm_compute. reflexivity. Qed.

Lemma update_preserves_types_witness :
  let values := list_to_map [(":t", json1 "SS" (json_strings ["b"; "c"]))] in
  let item := item_of [("tags", json1 "SS" (json_strings ["a"; "b"]))] in
  values_ok item
  /\ wp (apply_update_expression (H := no_unicode) ∅ values "ADD tags :t")
       (fun o t' => values_ok t' /\ (str_all is_ascii "ADD tags :t" = true -> no_panic o)) item.
Proof.
  assert (forall k (l : list string), values_ok (item_of [(k, json1 "SS" (json_strings l))])
    <-> attribute_ok (json1 "SS" (json_strings l))) as Hone.
  { intros k l. split; [intros Hv; apply (Hv k); unfold item_of; simpl; apply lookup_insert_eq|].
    intros Hok k' v'. unfold item_of. simpl. intros [[_ <-]|[_ Hn]]%lookup_insert_Some; [done|].
    discriminate Hn. }
  assert (values_ok (item_of [("tags", json1 "SS" (json_strings ["a"; "b"]))])) as H1.
  { apply Hone. constructor; [done|by apply (bool_decide_unpack _)]. }
  split; [exact H1|].
  apply (@update_preserves_types no_unicode ∅ (list_to_map [(":t", json1 "SS" (json_strings ["b"; "c"]))])
    "ADD tags :t" (item_of [("tags", json1 "SS" (json_strings ["a"; "b"]))])); [|exact H1].
  apply Hone. constructor; [done|by apply (bool_decide_unpack _)].
Defined.
Lemma evaluate_terminates_witness :
  evaluate_fuel 100 ∅ "list_append(:a, :b)" ∅ ∅ = Err "missing expression attribute value :a"
  /\ no_panic (evaluate_update_value ∅ "list_append(:a, :b)" ∅ ∅).
Proof.
  destruct (evaluate_terminates ∅ "list_append(:a, :b)" ∅ ∅ 100 ltac:(simpl; lia)) as [He Hp].
  split; [|exact Hp]. rewrite He. vm_compute. reflexivity.
Defined.
Lemma set_add_delete_witness :
  add_attribute_value (Some (json1 "NS" (json_strings ["1"; "2"]))) (json1 "NS" (json_strings ["2"; "3"]))
  = Ok (json1 "NS" (json_strings ["1"; "2"; "3"])).
Proof.
  assert (forall l : list string, l <> [] -> NoDup l -> Forall (fun s => is_valid_number s = true) l -> set_ok "NS" l)
    as Hset.
  { intros l Hne Hnd Hf. split; [done|]. split; [done|]. eapply Forall_impl; [exact Hf|]. by intros x Hx. }
  apply (set_add_delete "NS" ["1"; "2"] ["2"; "3"]).
  - by apply (bool_decide_unpack _).
  - apply Hset; [done|by apply (bool_decide_unpack _)|by repeat constructor].
  - apply Hset; [done|by apply (bool_decide_unpack _)|by repeat constructor].
Defined.
