(* ===== verification/DynExprProofs.v ===== *)
(** What the condition language means: predicates as data, their text, and the
    theorem that evaluating the text of an OR of ANDs of predicates is evaluating
    the predicates, short circuits and errors included. *)

From S2P Require Import Prelude RustStr RustNum RustText Json DynNumber DynModel DynValue DynExpr.
Local Open Scope string_scope.
Local Open Scope Z_scope.

(** ** Predicates as data *)

Inductive cmp_op := OpEq | OpNe | OpLt | OpLe | OpGt | OpGe.
Definition op_text (op : cmp_op) : string :=
  match op with OpEq => "=" | OpNe => "<>" | OpLt => "<" | OpLe => "<=" | OpGt => ">" | OpGe => ">=" end.
Definition op_holds (op : cmp_op) (c : comparison) : bool :=
  match op, c with
  | OpEq, Eq | OpNe, (Lt | Gt) | OpLt, Lt | OpLe, (Lt | Eq) | OpGt, Gt | OpGe, (Gt | Eq) => true
  | _, _ => false
  end.

Inductive call := BeginsWith | Contains | AttributeType.
Definition call_text (f : call) : string :=
  match f with BeginsWith => "begins_with" | Contains => "contains" | AttributeType => "attribute_type" end.
Definition call_holds (f : call) : option Value -> Value -> bool :=
  match f with
  | BeginsWith => attribute_begins_with
  | Contains => attribute_contains
  | AttributeType => attribute_has_type
  end.

(** Names are attribute names or [#] placeholders, values are placeholders. *)
Inductive predicate :=
| PExists (n : string)
| PNotExists (n : string)
| PCall (f : call) (n v : string)
| PBetween (n lo hi : string)
| PIn (n v : string) (vs : list string)
| PCompare (op : cmp_op) (n v : string)
| PSize (op : cmp_op) (n v : string)
| PNot (p : predicate).

(** The words of a predicate's text. *)
Fixpoint in_words (pre v : string) (vs : list string) : list string :=
  match vs with
  | [] => [pre +:+ v +:+ ")"]
  | v' :: vs' => (pre +:+ v +:+ ",") :: in_words "" v' vs'
  end.
Fixpoint words (p : predicate) : list string :=
  match p with
  | PExists n => ["attribute_exists(" +:+ n +:+ ")"]
  | PNotExists n => ["attribute_not_exists(" +:+ n +:+ ")"]
  | PCall f n v => [call_text f +:+ "(" +:+ n +:+ ","; v +:+ ")"]
  | PBetween n lo hi => [n; "BETWEEN"; lo; "AND"; hi]
  | PIn n v vs => n :: "IN" :: in_words "(" v vs
  | PCompare op n v => [n; op_text op; v]
  | PSize op n v => ["size(" +:+ n +:+ ")"; op_text op; v]
  | PNot p => "NOT" :: words p
  end.
Definition text (p : predicate) : string := str_join " " (words p).

(** Words separated by a keyword. *)
Fixpoint sep_words (kw : string) (l : list (list string)) : list string :=
  match l with
  | [] => []
  | ws :: rest => match rest with [] => ws | _ => ws ++ kw :: sep_words kw rest end
  end.
Definition and_words (ps : list predicate) : list string := sep_words "AND" (map words ps).
Definition or_words (dnf : list (list predicate)) : list string := sep_words "OR" (map and_words dnf).
Definition filter_text (dnf : list (list predicate)) : string := str_join " " (or_words dnf).

Section Meaning.
  Context `{SerdeJson} (names : Names) (values : Values) (candidate : Item).

Definition attr (n : string) : option Value := candidate !! resolve_attribute_name n names.
Definition val (v : string) : outcome Value := value_of values v.

Fixpoint member_of (actual : Value) (vs : list string) : outcome bool :=
  match vs with
  | [] => Ok false
  | v :: rest => expected ← val v; if value_eqb actual expected then Ok true else member_of actual rest
  end.

(** What a predicate says of the candidate. *)
Fixpoint holds (p : predicate) : outcome bool :=
  match p with
  | PExists n => Ok (bool_decide (is_Some (attr n)))
  | PNotExists n => Ok (negb (bool_decide (is_Some (attr n))))
  | PCall f n v => expected ← val v; Ok (call_holds f (attr n) expected)
  | PBetween n lo hi =>
      lower ← val lo; upper ← val hi;
      Ok match attr n with
         | None => false
         | Some actual => negb (is_lt (compare_attribute_values actual lower))
                          && negb (is_gt (compare_attribute_values actual upper))
         end
  | PIn n v vs => match attr n with None => Ok false | Some actual => member_of actual (v :: vs) end
  | PCompare op n v =>
      expected ← val v;
      Ok match attr n, op with
         | None, _ => false
         | Some actual, OpEq => value_eqb actual expected
         | Some actual, OpNe => negb (value_eqb actual expected)
         | Some actual, _ => op_holds op (compare_attribute_values actual expected)
         end
  | PSize op n v =>
      size ← (match attr n with
              | None => Ok 0
              | Some a => ok_or ("size is not supported for attribute " +:+ resolve_attribute_name n names)
                            (attribute_size a)
              end);
      expected ← val v;
      Ok (op_holds op (compare_attribute_values (json1 "N" (JString (show_Z size))) expected))
  | PNot p => b ← holds p; Ok (negb b)
  end.

(** Conjunction and disjunction, left to right, stopping early. *)
Fixpoint all_hold (ps : list predicate) : outcome bool :=
  match ps with [] => Ok true | p :: rest => b ← holds p; if b : bool then all_hold rest else Ok false end.
Fixpoint some_hold (dnf : list (list predicate)) : outcome bool :=
  match dnf with [] => Ok false | ps :: rest => b ← all_hold ps; if b : bool then Ok true else some_hold rest end.
End Meaning.

(** ** Well-formed predicates *)

(** A token: graphic ASCII without parentheses, commas or comparison signs, and no
    keyword of the language. *)
Definition token_byte (c : ascii) : bool :=
  graphic c && plain_byte c && negb (Ascii.eqb c "<" || Ascii.eqb c ">" || Ascii.eqb c "=").
Definition keywords : list string := ["AND"; "OR"; "NOT"; "BETWEEN"].
Definition token (s : string) : Prop :=
  s <> "" /\ str_all token_byte s = true /\ to_ascii_uppercase s ∉ keywords.
Fixpoint wf_predicate (p : predicate) : Prop :=
  match p with
  | PExists n | PNotExists n => token n
  | PCall _ n v | PCompare _ n v | PSize _ n v => token n /\ token v
  | PBetween n lo hi => token n /\ token lo /\ token hi
  | PIn n v vs => token n /\ token v /\ Forall token vs
  | PNot p => wf_predicate p
  end.

(** ** Words of the text *)

Section WordLemmas.

(** A graphic byte starts no white space. *)
Lemma strip_one_of_graphic' c s : graphic c = true -> strip_one_of white_space (String c s) = None.
Proof. intros Hc. by apply strip_one_of_graphic; [vm_compute|]. Qed.
Lemma graphic_word s : s <> "" -> str_all graphic s = true -> is_word s.
Proof.
  intros Hne Hs. split; [done|]. clear Hne. induction s as [|c s IH]; [done|].
  cbn [str_all] in Hs. apply andb_true_iff in Hs as [Hc Hs]. cbn [no_space].
  rewrite strip_one_of_graphic' by done. by apply IH.
Qed.

(** A word that none of the splitting loops treats as a keyword. *)
Definition ordinary (w : string) : Prop :=
  w <> "" /\ str_all graphic w = true /\ to_ascii_uppercase w ∉ keywords.
Lemma ordinary_word w : ordinary w -> is_word w.
Proof. intros (? & ? & _). by apply graphic_word. Qed.
Lemma token_ordinary s : token s -> ordinary s.
Proof.
  intros (Hne & Hs & Hk). split; [done|]. split; [|done]. revert Hs. apply str_all_impl.
  intros c Hc. unfold token_byte in Hc. by apply andb_true_iff in Hc as [[Hc _]%andb_true_iff _].
Qed.
Lemma token_not c s : token s -> token_byte c = false -> str_all (negb ∘ Ascii.eqb c) s = true.
Proof.
  intros (_ & Hs & _) Hc. revert Hs. apply str_all_impl. intros d Hd. simpl. apply negb_true_iff.
  destruct (Ascii.eqb_spec c d) as [->|]; [by rewrite Hc in Hd|done].
Qed.

Lemma upper_app s t : to_ascii_uppercase (s +:+ t) = to_ascii_uppercase s +:+ to_ascii_uppercase t.
Proof.
  unfold to_ascii_uppercase. induction s as [|c s IH]; [done|].
  rewrite !str_app_cons. cbn [str_map]. by rewrite IH, str_app_cons.
Qed.
(** Uppercasing does not make a byte that is no letter. *)
Lemma upper_contains c s :
  is_ascii_alphabetic c = false ->
  str_all (negb ∘ Ascii.eqb c) (to_ascii_uppercase s) = str_all (negb ∘ Ascii.eqb c) s.
Proof.
  intros Hc. unfold to_ascii_uppercase. induction s as [|d s IH]; [done|]. cbn [str_map str_all].
  rewrite IH. f_equal. simpl. f_equal. unfold to_upper_byte.
  destruct (is_ascii_lowercase d) eqn:Hd; [|done].
  destruct (Ascii.eqb_spec c d) as [->|_]; [by unfold is_ascii_alphabetic in Hc; rewrite Hd in Hc|].
  destruct (Ascii.eqb_spec c (of_byte (byte_of d - 32))) as [->|]; [|done].
  exfalso. unfold is_ascii_alphabetic, is_ascii_lowercase, is_ascii_uppercase, in_range in *.
  change (byte_of "a") with 97 in *. change (byte_of "z") with 122 in *.
  change (byte_of "A") with 65 in *. change (byte_of "Z") with 90 in *.
  rewrite byte_of_of in Hc by lia. lia.
Qed.
(** A word with a byte that occurs in no keyword is none. *)
Lemma not_keyword c w :
  is_ascii_alphabetic c = false -> str_all (negb ∘ Ascii.eqb c) w = false -> to_ascii_uppercase w ∉ keywords.
Proof.
  intros Hc Hw Hk. rewrite <- upper_contains in Hw by done.
  assert (forall k, k ∈ keywords -> str_all is_ascii_alphabetic k = true) as Hall
    by by (apply Forall_forall; repeat constructor).
  apply Hall in Hk. apply not_true_iff_false in Hw. apply Hw. revert Hk. apply str_all_impl.
  intros d Hd. simpl. apply negb_true_iff. destruct (Ascii.eqb_spec c d) as [->|]; [by rewrite Hc in Hd|done].
Qed.
Lemma ordinary_byte c w :
  w <> "" -> str_all graphic w = true -> is_ascii_alphabetic c = false ->
  str_all (negb ∘ Ascii.eqb c) w = false -> ordinary w.
Proof. intros. split; [done|]. split; [done|]. by apply (not_keyword c). Qed.

Lemma str_all_app_true p s t : str_all p (s +:+ t) = true <-> str_all p s = true /\ str_all p t = true.
Proof. by rewrite str_all_app, andb_true_iff. Qed.
Lemma token_graphic s : token s -> str_all graphic s = true.
Proof. intros Hs. by apply token_ordinary in Hs as (_ & ? & _). Qed.
Lemma ends_paren s : str_all (negb ∘ Ascii.eqb ")") (s +:+ ")") = false.
Proof. rewrite str_all_app. apply andb_false_r. Qed.
Lemma ends_comma s : str_all (negb ∘ Ascii.eqb ",") (s +:+ ",") = false.
Proof. rewrite str_all_app. apply andb_false_r. Qed.
Lemma app_nonempty_r s t : t <> "" -> s +:+ t <> "".
Proof. intros Ht. by destruct s. Qed.

Lemma closed_ordinary s : str_all graphic s = true -> ordinary (s +:+ ")").
Proof.
  intros Hs. apply (ordinary_byte ")"); [by apply app_nonempty_r| |done|apply ends_paren].
  by apply str_all_app_true.
Qed.
Lemma comma_ordinary s : str_all graphic s = true -> ordinary (s +:+ ",").
Proof.
  intros Hs. apply (ordinary_byte ","); [by apply app_nonempty_r| |done|apply ends_comma].
  by apply str_all_app_true.
Qed.
Lemma op_ordinary op : ordinary (op_text op).
Proof. destruct op; (split; [done|]; split; [done|]; by apply (bool_decide_unpack _)). Qed.
Lemma in_words_ordinary pre v vs :
  str_all graphic pre = true -> token v -> Forall token vs -> Forall ordinary (in_words pre v vs).
Proof.
  intros Hpre Hv Hvs. revert pre v Hpre Hv. induction Hvs as [|v' vs Hv' _ IH]; intros pre v Hpre Hv.
  - constructor; [|constructor]. rewrite <- str_app_assoc. apply closed_ordinary.
    apply str_all_app_true. split; [done|by apply token_graphic].
  - constructor; [|by apply IH]. rewrite <- str_app_assoc. apply comma_ordinary.
    apply str_all_app_true. split; [done|by apply token_graphic].
Qed.

End WordLemmas.

(** ** Splitting *)

Section Splitting.
  Context `{UnicodeCase, SerdeJson}.

Lemma ordinary_ne w k : ordinary w -> k ∈ keywords -> to_ascii_uppercase w <> k.
Proof. intros (_ & _ & Hw) Hk <-. done. Qed.
Lemma to_uppercase_ordinary w : ordinary w -> to_uppercase w = to_ascii_uppercase w.
Proof. intros (_ & Hg & _). by apply to_uppercase_ascii, graphic_ascii. Qed.

Lemma disjuncts_ordinary ws rest cur parts :
  Forall (fun w => eq_ignore_ascii_case w "OR" = false) ws ->
  disjuncts (ws ++ rest) cur parts = disjuncts rest (cur ++ ws) parts.
Proof.
  intros Hws. revert cur. induction Hws as [|w ws Hw _ IH]; intros cur; [by rewrite app_nil_r|].
  cbn [app disjuncts]. by rewrite Hw, IH, <- app_assoc.
Qed.
Definition no_or (ws : list string) : Prop :=
  ws <> [] /\ Forall (fun w => eq_ignore_ascii_case w "OR" = false) ws.
Lemma disjuncts_sep l parts :
  l <> [] -> Forall no_or l ->
  disjuncts (sep_words "OR" l) [] parts = Ok (parts ++ map (str_join " ") l)%list.
Proof.
  intros Hl Hno. revert parts Hl. induction Hno as [|ws l [Hne Hws] Hno IH]; intros parts Hl; [done|].
  cbn [sep_words map]. destruct l as [|ws' l].
  - rewrite <- (app_nil_r ws), disjuncts_ordinary, app_nil_r by done. cbn [disjuncts app].
    by rewrite bool_decide_false.
  - rewrite disjuncts_ordinary by done. cbn [disjuncts app].
    change (eq_ignore_ascii_case "OR" "OR") with true. cbv iota. rewrite bool_decide_false by done.
    rewrite (IH (parts ++ [str_join " " ws])%list) by done. by rewrite <- app_assoc.
Qed.

Lemma conjuncts_ordinary w rest cur parts b :
  ordinary w -> conjuncts (w :: rest) cur parts b = conjuncts rest (cur ++ [w]) parts b.
Proof.
  intros Hw. cbn [conjuncts]. rewrite to_uppercase_ordinary by done.
  destruct (str_eqb _ "BETWEEN") eqn:E1.
  { apply str_eqb_true in E1. by apply ordinary_ne in E1; [| |by apply (bool_decide_unpack _)]. }
  destruct (str_eqb _ "AND") eqn:E2; [|done].
  apply str_eqb_true in E2. by apply ordinary_ne in E2; [| |by apply (bool_decide_unpack _)].
Qed.
Lemma conjuncts_all ws rest cur parts b :
  Forall ordinary ws -> conjuncts (ws ++ rest) cur parts b = conjuncts rest (cur ++ ws) parts b.
Proof.
  intros Hws. revert cur. induction Hws as [|w ws Hw _ IH]; intros cur; [by rewrite app_nil_r|].
  cbn [app]. by rewrite conjuncts_ordinary, IH, <- app_assoc by done.
Qed.
Lemma to_uppercase_keyword k : k ∈ ["AND"; "OR"; "NOT"; "BETWEEN"; "IN"] -> to_uppercase k = k.
Proof.
  intros Hk. repeat (apply elem_of_cons in Hk as [-> | Hk]); [..|by apply elem_of_nil in Hk];
    by rewrite to_uppercase_ascii.
Qed.

Lemma conjuncts_between rest cur parts b :
  conjuncts ("BETWEEN" :: rest) cur parts b = conjuncts rest (cur ++ ["BETWEEN"]) parts true.
Proof. cbn [conjuncts]. by rewrite to_uppercase_keyword by by apply (bool_decide_unpack _). Qed.
Lemma conjuncts_AND rest cur parts b :
  conjuncts ("AND" :: rest) cur parts b =
    if b then conjuncts rest (cur ++ ["AND"]) parts false
    else if bool_decide (cur = []) then Err "invalid AND expression"
    else conjuncts rest [] (parts ++ [str_join " " cur])%list false.
Proof.
  cbn [conjuncts]. rewrite to_uppercase_keyword by by apply (bool_decide_unpack _). by destruct b.
Qed.
Lemma conjuncts_NOT rest cur parts b :
  conjuncts ("NOT" :: rest) cur parts b = conjuncts rest (cur ++ ["NOT"]) parts b.
Proof. cbn [conjuncts]. by rewrite to_uppercase_keyword by by apply (bool_decide_unpack _). Qed.

(** The words of a predicate pass through the AND loop as a whole. *)
Lemma conjuncts_words p rest cur parts :
  wf_predicate p -> conjuncts (words p ++ rest) cur parts false = conjuncts rest (cur ++ words p) parts false.
Proof.
  revert cur. induction p as [n|n|f n v|n lo hi|n v vs|op n v|op n v|p IH]; intros cur; cbn [wf_predicate words].
  - intros Hn. apply conjuncts_all. constructor; [|done]. rewrite <- str_app_assoc. apply closed_ordinary.
    apply str_all_app_true. split; [done|by apply token_graphic].
  - intros Hn. apply conjuncts_all. constructor; [|done]. rewrite <- str_app_assoc. apply closed_ordinary.
    apply str_all_app_true. split; [done|by apply token_graphic].
  - intros [Hn Hv]. apply conjuncts_all. constructor; [|constructor; [|done]].
    + rewrite <- !str_app_assoc. apply comma_ordinary. rewrite !str_all_app_true.
      split_and!; [by destruct f|done|by apply token_graphic].
    + by apply closed_ordinary, token_graphic.
  - intros (Hn & Hlo & Hhi). cbn [app].
    rewrite conjuncts_ordinary, conjuncts_between, conjuncts_ordinary, conjuncts_AND, conjuncts_ordinary
      by by apply token_ordinary.
    by rewrite <- !app_assoc.
  - intros (Hn & Hv & Hvs). apply (conjuncts_all (n :: "IN" :: in_words "(" v vs)).
    constructor; [by apply token_ordinary|]. constructor; [|by apply in_words_ordinary].
    split; [done|]. split; [done|by apply (bool_decide_unpack _)].
  - intros [Hn Hv]. apply conjuncts_all. constructor; [by apply token_ordinary|].
    constructor; [apply op_ordinary|]. constructor; [by apply token_ordinary|done].
  - intros [Hn Hv]. apply conjuncts_all. constructor; [|constructor; [apply op_ordinary|]].
    + rewrite <- str_app_assoc. apply closed_ordinary. apply str_all_app_true.
      split; [done|by apply token_graphic].
    + constructor; [by apply token_ordinary|done].
  - intros Hp. cbn [app]. rewrite conjuncts_NOT, IH by done. by rewrite <- app_assoc.
Qed.
Lemma words_nonempty p : words p <> [].
Proof. by destruct p. Qed.
Lemma conjuncts_and ps parts :
  ps <> [] -> Forall wf_predicate ps ->
  conjuncts (and_words ps) [] parts false = Ok (parts ++ map text ps)%list.
Proof.
  intros Hne Hps. revert parts Hne. unfold and_words.
  induction Hps as [|p ps Hp Hps IH]; intros parts Hne; [done|]. cbn [map sep_words].
  destruct ps as [|p' ps].
  - cbn [map]. rewrite <- (app_nil_r (words p)), conjuncts_words by done. cbn [conjuncts app].
    by rewrite bool_decide_false by apply words_nonempty.
  - cbn [map]. rewrite conjuncts_words, conjuncts_AND by done. cbn [app].
    rewrite bool_decide_false by apply words_nonempty.
    change (words p' :: map words ps) with (map words (p' :: ps)).
    rewrite (IH (parts ++ [str_join " " (words p)])%list) by done. by rewrite <- app_assoc.
Qed.
End Splitting.

(** ** Evaluating the text of one predicate *)

Section Texts.

Lemma parse_none e f : str_all (negb ∘ Ascii.eqb "(") e = true -> parse_function_call e f = None.
Proof.
  intros He. destruct (parse_function_call e f) as [b|] eqn:E; [|done].
  apply parse_function_call_Some in E as ->. rewrite !str_all_app in He.
  apply andb_true_iff in He as [_ He]. done.
Qed.
(** A call after something else than the function's name. *)
Lemma parse_other pre b f :
  str_all (negb ∘ Ascii.eqb "(") pre = true -> str_all (negb ∘ Ascii.eqb "(") f = true -> pre <> f ->
  parse_function_call (pre +:+ "(" +:+ b) f = None.
Proof.
  intros Hpre Hf Hne. destruct (parse_function_call _ f) as [c|] eqn:E; [|done].
  apply parse_function_call_Some in E. exfalso. apply Hne.
  pose proof (split_once_char "(" pre b Hpre) as H1.
  pose proof (split_once_char "(" f (c +:+ ")") Hf) as H2.
  change (char_str "(") with "(" in *. rewrite E in H1. congruence.
Qed.
Lemma parse_call f b : parse_function_call (f +:+ "(" +:+ b +:+ ")") f = Some b.
Proof. by apply parse_function_call_Some. Qed.

Lemma token_word v : token v -> is_word v.
Proof. intros Hv. by apply ordinary_word, token_ordinary. Qed.
Lemma trim_token v : token v -> trim v = v.
Proof. intros Hv. by apply trim_word, token_word. Qed.
Lemma trim_space_before s : trim (String " " s) = trim s.
Proof. unfold trim, trim_start. cbn [String.length]. by rewrite trim_start_of_space. Qed.
Lemma trim_end_space s : trim_end (s +:+ " ") = trim_end s.
Proof.
  unfold trim_end. rewrite str_rev_append, str_length_app. change (str_rev " " +:+ str_rev s) with (String " " (str_rev s)).
  change (String.length " ") with 1%nat. rewrite Nat.add_1_r. reflexivity.
Qed.
Lemma trim_token_after v : token v -> trim (v +:+ " ") = v.
Proof.
  intros Hv. pose proof (token_word v Hv) as Hw. unfold trim.
  assert (trim_start (v +:+ " ") = v +:+ " ") as ->.
  { destruct Hw as [Hne Hw]. destruct v as [|c v]; [done|]. rewrite str_app_cons. apply trim_start_word.
    rewrite <- str_app_cons. by apply strip_word_space, no_space_head. }
  rewrite trim_end_space. pose proof (trim_word v Hw) as Ht. unfold trim in Ht.
  assert (trim_start v = v) as Hs; [|by rewrite Hs in Ht].
  destruct Hw as [Hne Hw]. destruct v as [|c v]; [done|]. by apply trim_start_word, no_space_head.
Qed.
Lemma trim_token_before v : token v -> trim (String " " v) = v.
Proof. intros Hv. rewrite trim_space_before. by apply trim_token. Qed.

Lemma token_plain v : token v -> plain v.
Proof.
  intros (_ & Hv & _). unfold plain. revert Hv. apply str_all_impl. intros c Hc.
  unfold token_byte in Hc. by apply andb_true_iff in Hc as [[_ Hc]%andb_true_iff _].
Qed.
(** The arguments of a call. *)
Lemma split_args n v : token n -> token v -> split_comma_separated (n +:+ ", " +:+ v) = [n; v].
Proof.
  intros Hn Hv. unfold split_comma_separated. change (", " +:+ v) with (String "," (String " " v)).
  rewrite comma_pieces_comma by by apply token_plain.
  rewrite comma_pieces_plain by by apply (token_plain v). cbn [map].
  by rewrite trim_token, trim_token_before by done.
Qed.

(** The words of a list of values, and what is between its parentheses. *)
Fixpoint in_body (v : string) (vs : list string) : string :=
  match vs with [] => v | v' :: vs' => v +:+ ", " +:+ in_body v' vs' end.
Lemma in_words_text pre v vs : str_join " " (in_words pre v vs) = pre +:+ in_body v vs +:+ ")".
Proof.
  revert pre v. induction vs as [|v' vs IH]; intros pre v; [done|]. cbn [in_words in_body].
  destruct (in_words "" v' vs) as [|w ws] eqn:E; [by destruct vs|].
  change (str_join " " ((pre +:+ v +:+ ",") :: w :: ws)) with ((pre +:+ v +:+ ",") +:+ " " +:+ str_join " " (w :: ws)).
  rewrite <- E, IH, !str_app_assoc, str_app_nil_l. done.
Qed.
Lemma comma_pieces_body v vs : token v -> Forall token vs ->
  map trim (comma_pieces 0 (in_body v vs)) = v :: vs.
Proof.
  intros Hv Hvs. revert v Hv. induction Hvs as [|v' vs Hv' _ IH]; intros v Hv; cbn [in_body].
  - rewrite comma_pieces_plain by by apply token_plain. cbn [map]. by rewrite trim_token.
  - change (", " +:+ in_body v' vs) with (String "," (String " " (in_body v' vs))).
    rewrite comma_pieces_comma by by apply token_plain. cbn [map].
    rewrite trim_token by done. f_equal. rewrite <- (IH v' Hv').
    assert (comma_pieces 0 (String " " (in_body v' vs))
            = match comma_pieces 0 (in_body v' vs) with p :: ps => String " " p :: ps | [] => [] end) as ->
      by reflexivity.
    destruct (comma_pieces 0 (in_body v' vs)) as [|p ps]; [done|]. cbn [map]. by rewrite trim_space_before.
Qed.

(** A list of values is read back. *)
Lemma split_in_text n v vs :
  token n -> token v -> Forall token vs ->
  split_in_expression (n +:+ " IN (" +:+ in_body v vs +:+ ")") = Some (n, v :: vs).
Proof.
  intros Hn Hv Hvs. unfold split_in_expression.
  change (" IN (" +:+ in_body v vs +:+ ")") with (String " " "IN " +:+ ("(" +:+ in_body v vs +:+ ")")).
  rewrite (cut_app " " "IN ") by by apply token_not. cbn [mbind option_bind].
  assert (trim ("(" +:+ in_body v vs +:+ ")") = "(" +:+ in_body v vs +:+ ")") as ->.
  { rewrite <- (in_words_text "("). apply trim_join.
    eapply Forall_impl; [by apply in_words_ordinary|]. intros w. apply ordinary_word. }
  assert (starts_with "(" ("(" +:+ in_body v vs +:+ ")") = true) as -> by (apply starts_with_true; eauto).
  assert (ends_with ")" ("(" +:+ in_body v vs +:+ ")") = true) as ->
    by (apply ends_with_true; exists ("(" +:+ in_body v vs); by rewrite str_app_assoc).
  cbn [negb orb]. do 2 f_equal; [by apply trim_token|].
  replace (str_take _ _) with (in_body v vs); [by apply comma_pieces_body|].
  set (b := in_body v vs). destruct (str_take_drop_app "(" (b +:+ ")")) as [_ Hd].
  change (str_len "(") with 1 in Hd. rewrite Hd.
  rewrite !str_len_app. change (str_len "(") with 1. change (str_len ")") with 1.
  replace (1 + (str_len b + 1) - 2) with (str_len b) by lia. by rewrite (proj1 (str_take_drop_app b ")")).
Qed.

(** No [IN] between the words of a comparison. *)
Lemma split_by_cut p s c t : p c = true -> split_by p (s +:+ String c t) = (split_by p s ++ split_by p t)%list.
Proof.
  intros Hc. induction s as [|d s IH].
  - rewrite str_app_nil_l. cbn [split_by]. by rewrite Hc.
  - rewrite str_app_cons. cbn [split_by]. rewrite IH. destruct (p d); [done|].
    destruct (split_by p s) eqn:E; [by apply split_by_nonempty in E|done].
Qed.
Lemma no_in w1 w2 w3 kw :
  is_word kw -> str_all (negb ∘ Ascii.eqb " ") kw = true -> w2 <> kw ->
  Forall (fun w => str_all (negb ∘ Ascii.eqb " ") w = true) [w1; w2; w3] ->
  cut (str_join " " [w1; w2; w3]) (" " +:+ kw +:+ " ") = None.
Proof.
  intros Hkw Hb Hne Hws. unfold cut. destruct (split_once _ _) as [[a b]|] eqn:E; [|done].
  apply split_once_Some in E. exfalso. apply Hne.
  apply Forall_cons in Hws as [H1 [H2 [H3 _]%Forall_cons]%Forall_cons].
  apply (f_equal (split_by (Ascii.eqb " "))) in E.
  change (str_join " " [w1; w2; w3]) with (w1 +:+ String " " (w2 +:+ String " " w3)) in E.
  rewrite !split_by_app, (split_by_none _ w3) in E by done.
  change (a +:+ (" " +:+ kw +:+ " ") +:+ b) with (a +:+ String " " ((kw +:+ " ") +:+ b)) in E.
  rewrite str_app_assoc in E. change (" " +:+ b) with (String " " b) in E.
  rewrite !split_by_cut, (split_by_none _ kw) in E by done.
  pose proof (split_by_nonempty (Ascii.eqb " ") a). pose proof (split_by_nonempty (Ascii.eqb " ") b).
  destruct (split_by _ a) as [|x [|y l]]; [done|..]; destruct (split_by _ b) as [|z [|z' l']]; try done;
    simpl in E; injection E; intros; subst; try done.
  all: by destruct l as [|? [|? ?]].
Qed.
End Texts.

(** ** Meaning of one predicate's text *)

Section Meanings.
  Context `{UnicodeCase, SerdeJson} (names : Names) (values : Values) (candidate : Item).

(** What [match_predicate] does once NOT is excluded. *)
Definition match_simple (e : string) : outcome bool :=
  match evaluate_existence_predicate names candidate e with
  | Some result => Ok result
  | None =>
      result ← evaluate_binary_function_predicate names values candidate e;
      match result with
      | Some result => Ok result
      | None =>
          match split_between_expression e with
          | Some (attr, lower, upper) => evaluate_between_predicate names values candidate attr lower upper
          | None =>
              match split_in_expression e with
              | Some (attr, tokens) => evaluate_in_predicate names values candidate attr tokens
              | None => evaluate_comparison_predicate names values candidate e
              end
          end
      end
  end.

Lemma words_first p : wf_predicate p -> match p with PNot _ => True | _ =>
  exists w ws, words p = w :: ws /\ ordinary w end.
Proof.
  assert (forall s n, str_all graphic s = true -> token n -> ordinary (s +:+ n +:+ ")")) as Hcall.
  { intros s n Hs Hn. rewrite <- str_app_assoc. apply closed_ordinary, str_all_app_true.
    split; [done|by apply token_graphic]. }
  destruct p as [n|n|f n v|n lo hi|n v vs|op n v|op n v|p]; cbn [wf_predicate words]; intros Hp; [..|done];
    repeat match goal with Hc : _ /\ _ |- _ => destruct Hc end; eexists _, _; (split; [done|]);
    try (by apply token_ordinary); try (by apply Hcall).
  rewrite <- !str_app_assoc. apply comma_ordinary. rewrite !str_all_app_true.
  split_and!; [by destruct f|done|by apply token_graphic].
Qed.

Lemma not_not w ws :
  ordinary w -> str_all is_ascii (str_join " " (w :: ws)) = true ->
  starts_with "NOT " (to_uppercase (str_join " " (w :: ws))) = false.
Proof.
  intros Hw Ha. apply not_true_iff_false. rewrite to_uppercase_ascii by done.
  intros (r & Hr)%starts_with_true. destruct Hw as (_ & Hg & Hk). apply Hk.
  assert (str_all (negb ∘ Ascii.eqb " ") (to_ascii_uppercase w) = true) as Hb.
  { rewrite upper_contains by done. revert Hg. apply str_all_impl. intros c Hc. apply negb_true_iff.
    destruct (Ascii.eqb_spec " " c) as [<-|]; done. }
  destruct ws as [|w' ws].
  - cbn [str_join] in Hr. rewrite Hr in Hb. cbn in Hb. done.
  - change (str_join " " (w :: w' :: ws)) with (w +:+ char_str " " +:+ str_join " " (w' :: ws)) in Hr.
    rewrite !upper_app in Hr. change (to_ascii_uppercase (char_str " ")) with (char_str " ") in Hr.
    pose proof (split_once_char " " _ (to_ascii_uppercase (str_join " " (w' :: ws))) Hb) as H1.
    rewrite Hr in H1. change ("NOT " +:+ r) with ("NOT" +:+ char_str " " +:+ r) in H1.
    rewrite split_once_char in H1 by done. injection H1 as <- _. by apply (bool_decide_unpack _).
Qed.

(** Every word is ASCII. *)
Lemma words_ascii p : wf_predicate p -> Forall (fun w => is_word w /\ str_all is_ascii w = true) (words p).
Proof.
  assert (forall w, ordinary w -> is_word w /\ str_all is_ascii w = true) as Hord.
  { intros w Hw. split; [by apply ordinary_word|]. destruct Hw as (_ & Hg & _). by apply graphic_ascii. }
  assert (forall w, w <> "" -> str_all graphic w = true -> is_word w /\ str_all is_ascii w = true) as Hgr.
  { intros w Hne Hg. split; [by apply graphic_word|by apply graphic_ascii]. }
  induction p as [n|n|f n v|n lo hi|n v vs|op n v|op n v|p IH]; cbn [wf_predicate words]; intros Hp;
    repeat match goal with Hc : _ /\ _ |- _ => destruct Hc end;
    repeat first [apply Forall_nil_2 | apply Forall_cons_2].
  all: try (by apply Hord, token_ordinary); try (by apply Hgr); try (by apply Hord, op_ordinary).
  all: try (apply Hgr; [by destruct n|]; rewrite ?str_all_app_true; split_and!; try done; by apply token_graphic).
  - apply Hgr; [by destruct f|]. rewrite !str_all_app_true. split_and!; [by destruct f|done|by apply token_graphic|done].
  - by apply Hord, closed_ordinary, token_graphic.
  - eapply Forall_impl; [by apply in_words_ordinary|]. exact Hord.
  - by apply IH.
Qed.
Lemma text_ascii p : wf_predicate p -> str_all is_ascii (text p) = true.
Proof.
  intros Hp%words_ascii. apply str_all_join; [done|]. eapply Forall_impl; [done|]. by intros w [_ ?].
Qed.
Lemma words_are_words p : wf_predicate p -> Forall is_word (words p).
Proof. intros Hp%words_ascii. eapply Forall_impl; [done|]. by intros w [? _]. Qed.
Lemma trim_text p : wf_predicate p -> trim (text p) = text p.
Proof. intros Hp. by apply trim_join, words_are_words. Qed.
Lemma split_text p : wf_predicate p -> split_whitespace (text p) = words p.
Proof. intros Hp. by apply split_whitespace_join, words_are_words. Qed.
Lemma val_token v : token v -> value_of values (trim v) = val values v.
Proof. intros Hv. unfold val. by rewrite trim_token. Qed.
Lemma attr_token n : token n -> attribute_of names candidate n = attr names candidate n.
Proof. intros Hn. unfold attribute_of, attr. by rewrite trim_token. Qed.

Lemma in_tokens_member actual vs :
  Forall token vs -> in_tokens values actual vs = member_of values actual vs.
Proof.
  induction 1 as [|v vs Hv _ IH]; [done|]. cbn [in_tokens member_of]. rewrite val_token by done.
  by rewrite IH.
Qed.

Lemma compare_with_op op c : compare_with_operator c (op_text op) = Ok (op_holds op c).
Proof. by destruct op, c. Qed.

(** The operator is found, and no longer one before it. *)
Lemma split_op op l r :
  str_all (fun c => negb (Ascii.eqb "<" c || Ascii.eqb ">" c || Ascii.eqb "=" c)) l = true ->
  str_all (fun c => negb (Ascii.eqb "<" c || Ascii.eqb ">" c || Ascii.eqb "=" c)) r = true ->
  split_comparison_expression (l +:+ op_text op +:+ r) = Some (l, op_text op, r).
Proof.
  intros Hl Hr.
  assert (forall c s, c ∈ ["<"%char; ">"%char; "="%char] ->
    str_all (fun c => negb (Ascii.eqb "<" c || Ascii.eqb ">" c || Ascii.eqb "=" c)) s = true ->
    str_all (negb ∘ Ascii.eqb c) s = true) as Hc.
  { intros c s Hc. apply str_all_impl. intros d Hd. apply negb_true_iff. apply negb_true_iff in Hd.
    apply orb_false_iff in Hd as [[H1 H2]%orb_false_iff H3].
    by repeat (apply elem_of_cons in Hc as [-> | Hc]); [..|apply elem_of_nil in Hc]. }
  assert (forall c sep, contains (char_str c) sep = true -> c ∈ ["<"%char; ">"%char; "="%char] ->
    str_all (negb ∘ Ascii.eqb c) (op_text op) = true -> cut (l +:+ op_text op +:+ r) sep = None) as Hnone.
  { intros c sep Hsep Hin Hop. apply (cut_None c); [done|]. rewrite !str_all_app, Hop, !Hc by done. done. }
  assert (forall c sep, op_text op = String c sep -> c ∈ ["<"%char; ">"%char; "="%char] ->
    cut (l +:+ op_text op +:+ r) (op_text op) = Some (l, r)) as Hsome.
  { intros c sep -> Hin. apply cut_app. by apply Hc. }
  assert ("<"%char ∈ ["<"%char; ">"%char; "="%char]) as I1 by by apply (bool_decide_unpack _).
  assert (">"%char ∈ ["<"%char; ">"%char; "="%char]) as I2 by by apply (bool_decide_unpack _).
  assert ("="%char ∈ ["<"%char; ">"%char; "="%char]) as I3 by by apply (bool_decide_unpack _).
  unfold split_comparison_expression. cbn [first_operator]. destruct op; cbn [op_text] in *.
  - rewrite (Hnone "<"%char "<="), (Hnone ">"%char ">="), (Hnone "<"%char "<>") by done.
    by rewrite (Hsome "="%char "") by done.
  - rewrite (Hnone "="%char "<="), (Hnone "="%char ">=") by done. by rewrite (Hsome "<"%char ">") by done.
  - rewrite (Hnone "="%char "<="), (Hnone ">"%char ">="), (Hnone ">"%char "<>"), (Hnone "="%char "=") by done.
    by rewrite (Hsome "<"%char "") by done.
  - by rewrite (Hsome "<"%char "=") by done.
  - rewrite (Hnone "<"%char "<="), (Hnone "="%char ">="), (Hnone "<"%char "<>"), (Hnone "="%char "="),
      (Hnone "<"%char "<") by done. by rewrite (Hsome ">"%char "") by done.
  - rewrite (Hnone "<"%char "<=") by done. by rewrite (Hsome ">"%char "=") by done.
Qed.
Lemma token_no_op v : token v ->
  str_all (fun c => negb (Ascii.eqb "<" c || Ascii.eqb ">" c || Ascii.eqb "=" c)) v = true.
Proof.
  intros (_ & Hv & _). revert Hv. apply str_all_impl. intros c Hc. unfold token_byte in Hc.
  apply andb_true_iff in Hc as [_ Hc]. by rewrite !(Ascii.eqb_sym _ c).
Qed.

Lemma no_blank_ordinary w : ordinary w -> str_all (negb ∘ Ascii.eqb " ") w = true.
Proof.
  intros (_ & Hg & _). revert Hg. apply str_all_impl. intros c Hc. apply negb_true_iff.
  destruct (Ascii.eqb_spec " " c) as [<-|]; done.
Qed.
(** Nothing but the comparison remains for three words around an operator. *)
Lemma three_words w op v :
  ordinary w -> token v ->
  evaluate_existence_predicate names candidate (str_join " " [w; op_text op; v]) = None ->
  evaluate_binary_function_predicate names values candidate (str_join " " [w; op_text op; v]) = Ok None ->
  match_simple (str_join " " [w; op_text op; v])
  = evaluate_comparison_predicate names values candidate (str_join " " [w; op_text op; v]).
Proof.
  intros Hw Hv He Hb. unfold match_simple. rewrite He, Hb. cbn [mbind outcome_bind].
  assert (ordinary v) as Hv' by by apply token_ordinary.
  assert (split_between_expression (str_join " " [w; op_text op; v]) = None) as ->.
  { unfold split_between_expression. rewrite split_whitespace_join; [done|].
    repeat (apply Forall_cons_2; [apply ordinary_word; first [done|apply op_ordinary]|]). constructor. }
  assert (split_in_expression (str_join " " [w; op_text op; v]) = None) as ->; [|done].
  unfold split_in_expression.
  assert (Forall (fun w => str_all (negb ∘ Ascii.eqb " ") w = true) [w; op_text op; v]) as Hbl.
  { repeat (apply Forall_cons_2; [apply no_blank_ordinary; first [done|apply op_ordinary]|]). constructor. }
  pose proof (no_in w (op_text op) v "IN") as H1. change (" " +:+ "IN" +:+ " ") with " IN " in H1.
  rewrite H1; [|by apply graphic_word|done|by destruct op|done].
  pose proof (no_in w (op_text op) v "in") as H2. change (" " +:+ "in" +:+ " ") with " in " in H2.
  rewrite H2; [|by apply graphic_word|done|by destruct op|done]. done.
Qed.

(** The three words of a comparison, evaluated. *)
Lemma compare_plain op n v :
  token n -> token v ->
  evaluate_comparison_predicate names values candidate (str_join " " [n; op_text op; v])
  = holds names values candidate (PCompare op n v).
Proof.
  intros Hn Hv. unfold evaluate_comparison_predicate.
  replace (str_join " " [n; op_text op; v]) with ((n +:+ " ") +:+ op_text op +:+ String " " v)
    by (rewrite str_app_assoc; done).
  rewrite split_op.
  2: { rewrite str_all_app, token_no_op by done. done. }
  2: { cbn [str_all]. by rewrite token_no_op. }
  cbn [ok_or mbind outcome_bind]. rewrite trim_token_after by done.
  unfold evaluate_size_operand. rewrite parse_none by by apply token_not.
  cbn [mbind outcome_bind]. rewrite trim_token_before by done. cbn [holds]. unfold val, attr.
  destruct (value_of values v) as [e|err|w]; [cbn [mbind outcome_bind]|done..].
  unfold attribute_of. rewrite trim_token_after by done.
  destruct (candidate !! resolve_attribute_name n names) as [a|]; [|done].
  destruct op; try done; apply (compare_with_op _ _).
Qed.
Lemma compare_size op n v :
  token n -> token v ->
  evaluate_comparison_predicate names values candidate (str_join " " ["size(" +:+ n +:+ ")"; op_text op; v])
  = holds names values candidate (PSize op n v).
Proof.
  intros Hn Hv. unfold evaluate_comparison_predicate.
  set (w := "size(" +:+ n +:+ ")").
  assert (token w -> False) as _ by (intros (_ & Hw & _); done).
  replace (str_join " " [w; op_text op; v]) with ((w +:+ " ") +:+ op_text op +:+ String " " v)
    by (rewrite str_app_assoc; done).
  rewrite split_op.
  2: { unfold w. rewrite !str_all_app, (token_no_op n) by done. done. }
  2: { cbn [str_all]. by rewrite token_no_op. }
  cbn [ok_or mbind outcome_bind].
  assert (trim (w +:+ " ") = w) as ->.
  { assert (ordinary w) as Hw.
    { unfold w. rewrite <- str_app_assoc. apply closed_ordinary, str_all_app_true.
      split; [done|by apply token_graphic]. }
    rewrite <- (trim_word w) at 2 by by apply ordinary_word. unfold trim.
    apply ordinary_word in Hw as [Hne Hw].
    replace (trim_start (w +:+ " ")) with (w +:+ " ").
    - replace (trim_start w) with w; [apply trim_end_space|].
      by destruct w as [|c w']; [|symmetry; apply trim_start_word, no_space_head].
    - destruct w as [|c w']; [done|]. symmetry. rewrite str_app_cons. apply trim_start_word.
      rewrite <- str_app_cons. by apply strip_word_space, no_space_head. }
  unfold evaluate_size_operand, w. change ("size(" +:+ n +:+ ")") with ("size" +:+ "(" +:+ n +:+ ")").
  rewrite parse_call. rewrite (attr_token n) by done. cbn [holds].
  assert (forall z, (expected ← value_of values (trim (String " " v));
     compare_with_operator (compare_attribute_values (json1 "N" (JString (show_Z z))) expected) (op_text op))
     = (expected ← val values v;
        Ok (op_holds op (compare_attribute_values (json1 "N" (JString (show_Z z))) expected)))) as Hcmp.
  { intros z. rewrite trim_token_before by done. unfold val.
    destruct (value_of values v); [cbn [mbind outcome_bind]|done..]. apply compare_with_op. }
  destruct (attr names candidate n) as [a|]; cbn [mbind outcome_bind]; [|apply Hcmp].
  rewrite (trim_token n) by done. destruct (attribute_size a) as [z|]; cbn [ok_or mbind outcome_bind]; [apply Hcmp|done].
Qed.

Lemma existence_none e : str_all (negb ∘ Ascii.eqb "(") e = true ->
  evaluate_existence_predicate names candidate e = None
  /\ evaluate_binary_function_predicate names values candidate e = Ok None.
Proof.
  intros He. unfold evaluate_existence_predicate, evaluate_binary_function_predicate, binary_functions.
  by rewrite !parse_none.
Qed.
Lemma existence_other pre b :
  str_all (negb ∘ Ascii.eqb "(") pre = true ->
  pre ∉ ["attribute_exists"; "attribute_not_exists"; "begins_with"; "contains"; "attribute_type"] ->
  evaluate_existence_predicate names candidate (pre +:+ "(" +:+ b) = None
  /\ evaluate_binary_function_predicate names values candidate (pre +:+ "(" +:+ b) = Ok None.
Proof.
  intros Hpre Hn. rewrite !not_elem_of_cons in Hn. destruct Hn as (N1 & N2 & N3 & N4 & N5 & _).
  unfold evaluate_existence_predicate, evaluate_binary_function_predicate, binary_functions.
  by rewrite !parse_other.
Qed.

Lemma simple_holds p :
  wf_predicate p -> match p with PNot _ => False | _ => True end ->
  match_simple (text p) = holds names values candidate p.
Proof.
  intros Hp. destruct p as [n|n|f n v|n lo hi|n v vs|op n v|op n v|p]; cbn [wf_predicate] in Hp; intros Hnot;
    [..|done]; unfold text; cbn [words].
  - cbn [str_join holds]. unfold match_simple, evaluate_existence_predicate.
    change ("attribute_exists(" +:+ n +:+ ")") with ("attribute_exists" +:+ "(" +:+ n +:+ ")").
    rewrite parse_call. by rewrite attr_token.
  - cbn [str_join holds]. unfold match_simple, evaluate_existence_predicate.
    change ("attribute_not_exists(" +:+ n +:+ ")") with ("attribute_not_exists" +:+ "(" +:+ n +:+ ")").
    rewrite parse_other by done. rewrite parse_call. by rewrite attr_token.
  - destruct Hp as [Hn Hv].
    replace (str_join " " [call_text f +:+ "(" +:+ n +:+ ","; v +:+ ")"])
      with (call_text f +:+ "(" +:+ (n +:+ ", " +:+ v) +:+ ")")
      by (cbn [str_join]; rewrite !str_app_assoc; done).
    unfold match_simple, evaluate_existence_predicate. rewrite !parse_other by by destruct f.
    unfold evaluate_binary_function_predicate, binary_functions.
    cbn [holds]. unfold val.
    destruct f; cbn [call_text]; rewrite ?(parse_other _ _ _) by done; rewrite parse_call, split_args by done;
      rewrite trim_token, attr_token by done; by destruct (value_of values v).
  - destruct Hp as (Hn & Hlo & Hhi).
    destruct (existence_none (str_join " " [n; "BETWEEN"; lo; "AND"; hi])) as [He Hb].
    { apply str_all_join; [done|]. repeat (apply Forall_cons_2; [first [done|by apply token_not]|]). constructor. }
    unfold match_simple. rewrite He, Hb. cbn [mbind outcome_bind].
    unfold split_between_expression. rewrite split_whitespace_join.
    2: { repeat (apply Forall_cons_2; [first [by apply token_word|by apply graphic_word]|]). constructor. }
    change (eq_ignore_ascii_case "BETWEEN" "BETWEEN") with true.
    change (eq_ignore_ascii_case "AND" "AND") with true. cbn [negb orb].
    unfold evaluate_between_predicate. rewrite !val_token, attr_token by done. cbn [holds].
    destruct (val values lo); [cbn [mbind outcome_bind]|done..].
    destruct (val values hi); [cbn [mbind outcome_bind]|done..]. by destruct (attr names candidate n).
  - destruct Hp as (Hn & Hv & Hvs).
    replace (str_join " " (n :: "IN" :: in_words "(" v vs)) with (n +:+ " IN (" +:+ in_body v vs +:+ ")").
    2: { pose proof (in_words_text "(" v vs) as Ht. destruct (in_words "(" v vs) as [|w ws] eqn:E; [by destruct vs|].
         change (str_join " " (n :: "IN" :: w :: ws)) with (n +:+ " " +:+ "IN" +:+ " " +:+ str_join " " (w :: ws)).
         by rewrite Ht. }
    destruct (existence_other (n +:+ " IN ") (in_body v vs +:+ ")")) as [He Hb].
    { rewrite str_all_app, token_not by done. done. }
    { rewrite !not_elem_of_cons. split_and!; [..|apply not_elem_of_nil].
      all: intros Hx; apply (f_equal (str_all (negb ∘ Ascii.eqb " "))) in Hx;
        rewrite str_all_app, andb_false_r in Hx; done. }
    rewrite !str_app_assoc in He, Hb. change (" IN " +:+ "(" +:+ in_body v vs +:+ ")") with (" IN (" +:+ in_body v vs +:+ ")") in *.
    unfold match_simple. rewrite He, Hb. cbn [mbind outcome_bind].
    assert (split_between_expression (n +:+ " IN (" +:+ in_body v vs +:+ ")") = None) as ->.
    { unfold split_between_expression.
      replace (n +:+ " IN (" +:+ in_body v vs +:+ ")") with (str_join " " (n :: "IN" :: in_words "(" v vs)).
      2: { pose proof (in_words_text "(" v vs) as Ht. destruct (in_words "(" v vs) as [|w ws] eqn:E; [by destruct vs|].
           change (str_join " " (n :: "IN" :: w :: ws)) with (n +:+ " " +:+ "IN" +:+ " " +:+ str_join " " (w :: ws)).
           by rewrite Ht. }
      rewrite split_whitespace_join.
      - by destruct (in_words "(" v vs) as [|? [|? [|? [|]]]].
      - apply Forall_cons_2; [by apply token_word|]. apply Forall_cons_2; [by apply graphic_word|].
        eapply Forall_impl; [by apply in_words_ordinary|]. apply ordinary_word. }
    rewrite split_in_text by done. unfold evaluate_in_predicate. rewrite attr_token by done. cbn [holds].
    destruct (attr names candidate n); [|done]. rewrite bool_decide_false by done.
    apply in_tokens_member. by constructor.
  - destruct Hp as [Hn Hv].
    destruct (existence_none (str_join " " [n; op_text op; v])) as [He Hb].
    { apply str_all_join; [done|].
      apply Forall_cons_2; [by apply token_not|]. apply Forall_cons_2; [by destruct op|].
      apply Forall_cons_2; [by apply token_not|constructor]. }
    rewrite three_words by (done || by apply token_ordinary). by apply compare_plain.
  - destruct Hp as [Hn Hv].
    assert (str_join " " ["size(" +:+ n +:+ ")"; op_text op; v]
            = "size" +:+ "(" +:+ (n +:+ ")" +:+ " " +:+ op_text op +:+ " " +:+ v)) as Ht
      by (cbn [str_join]; rewrite !str_app_assoc; done).
    destruct (existence_other "size" (n +:+ ")" +:+ " " +:+ op_text op +:+ " " +:+ v)) as [He Hb];
      [done|by apply (bool_decide_unpack _)|]. rewrite <- Ht in He, Hb.
    rewrite three_words; [by apply compare_size| |done|done|done].
    rewrite <- str_app_assoc. apply closed_ordinary, str_all_app_true. split; [done|by apply token_graphic].
Qed.

Lemma predicate_fuel_S fuel e :
  predicate_fuel names values candidate (S fuel) e =
    if starts_with "NOT " (to_uppercase e) then
      inner ← str_slice 4 (str_len e) e;
      b ← predicate_fuel names values candidate fuel (trim inner); Ok (negb b)
    else match_simple e.
Proof. reflexivity. Qed.
Lemma predicate_holds p fuel :
  wf_predicate p -> (String.length (text p) < fuel)%nat ->
  predicate_fuel names values candidate fuel (text p) = holds names values candidate p.
Proof.
  revert fuel. induction p as [n|n|f n v|n lo hi|n v vs|op n v|op n v|p IH]; intros [|fuel] Hp Hf; try lia.
  8: { rewrite predicate_fuel_S. cbn [holds].
    assert (text (PNot p) = "NOT " +:+ text p) as Ht.
    { unfold text. cbn [words str_join]. destruct (words p) eqn:E; [by apply words_nonempty in E|done]. }
    rewrite to_uppercase_ascii by by apply text_ascii. rewrite Ht in *. rewrite upper_app.
    assert (starts_with "NOT " (to_ascii_uppercase "NOT " +:+ to_ascii_uppercase (text p)) = true) as ->
      by (apply starts_with_true; by eexists).
    assert (str_slice 4 (str_len ("NOT " +:+ text p)) ("NOT " +:+ text p) = Ok (text p)) as ->.
    { assert (str_all is_ascii ("NOT " +:+ text p) = true) as Ha by (rewrite <- Ht; by apply text_ascii).
      assert (4 <= str_len ("NOT " +:+ text p)) as Hl
        by (rewrite str_len_app; pose proof (str_len_nonneg (text p)); change (str_len "NOT ") with 4; lia).
      unfold str_slice. rewrite !(is_char_boundary_ascii _ _ Ha) by lia. clear Hl.
      rewrite str_len_app. change (str_len "NOT ") with 4. pose proof (str_len_nonneg (text p)).
      destruct (Z.leb_spec 4 (4 + str_len (text p))); [cbn [andb]|lia]. f_equal.
      replace (4 + str_len (text p) - 4) with (str_len (text p)) by lia.
      replace (str_drop 4 ("NOT " +:+ text p)) with (text p).
      - unfold str_take, str_len. rewrite Nat2Z.id. apply substring_full.
      - symmetry. apply (str_take_drop_app "NOT "). }
    cbn [mbind outcome_bind]. rewrite trim_text by done. rewrite IH; [done..|].
    rewrite str_length_app in Hf. cbn in Hf. lia. }
  all: rewrite predicate_fuel_S;
    match goal with |- context [holds _ _ _ ?p] =>
      rewrite <- (simple_holds p) by done; destruct (words_first p Hp) as (w & ws & Hw & Ho);
      pose proof (text_ascii p Hp) as Ha; unfold text in Ha |- *; rewrite Hw in Ha |- *
    end; by rewrite not_not.
Qed.
Lemma match_predicate_text p :
  wf_predicate p -> match_predicate names values candidate (text p) = holds names values candidate p.
Proof. intros Hp. apply predicate_holds; [done|lia]. Qed.

Lemma all_match_text ps :
  Forall wf_predicate ps -> all_match names values candidate (map text ps) = all_hold names values candidate ps.
Proof.
  induction 1 as [|p ps Hp _ IH]; [done|]. cbn [map all_match all_hold].
  rewrite trim_text, match_predicate_text by done. destruct (holds _ _ _ p) as [[]| |]; try done.
Qed.

Lemma sep_words_Forall (P : string -> Prop) kw l :
  P kw -> Forall (Forall P) l -> Forall P (sep_words kw l).
Proof.
  intros Hkw. induction 1 as [|ws l Hws Hl IH]; [constructor|]. cbn [sep_words].
  destruct l; [done|]. apply Forall_app. split; [done|]. by constructor.
Qed.
Lemma and_words_are_words ps : Forall wf_predicate ps -> Forall is_word (and_words ps).
Proof.
  intros Hps. apply sep_words_Forall; [by apply graphic_word|].
  apply Forall_map. eapply Forall_impl; [done|]. apply words_are_words.
Qed.
Lemma sep_words_nonempty kw l : l <> [] -> Forall (fun ws => ws <> []) l -> sep_words kw l <> [].
Proof. intros Hl. destruct 1 as [|ws l Hws]; [done|]. cbn [sep_words]. destruct l; [done|]. by destruct ws. Qed.
Lemma and_words_nonempty ps : ps <> [] -> and_words ps <> [].
Proof.
  intros Hps. apply sep_words_nonempty; [by destruct ps|]. apply Forall_map, Forall_forall.
  intros p _. apply words_nonempty.
Qed.
Lemma split_conjunctive_text ps :
  ps <> [] -> Forall wf_predicate ps ->
  split_conjunctive_predicates (str_join " " (and_words ps)) = Ok (map text ps).
Proof.
  intros Hne Hps. unfold split_conjunctive_predicates. cbv zeta.
  rewrite split_whitespace_join by by apply and_words_are_words.
  rewrite bool_decide_false by by apply and_words_nonempty. by rewrite (conjuncts_and ps []).
Qed.

Lemma any_match_text dnf :
  Forall (fun ps => ps <> [] /\ Forall wf_predicate ps) dnf ->
  any_match names values candidate (map (fun ps => str_join " " (and_words ps)) dnf)
  = some_hold names values candidate dnf.
Proof.
  induction 1 as [|ps dnf [Hne Hps] _ IH]; [done|]. cbn [map any_match some_hold].
  rewrite split_conjunctive_text by done. cbn [mbind outcome_bind]. rewrite all_match_text by done.
  by destruct (all_hold _ _ _ ps) as [[]| |].
Qed.

Lemma ordinary_not_or w : ordinary w -> eq_ignore_ascii_case w "OR" = false.
Proof.
  intros Hw. apply not_true_iff_false. intros He%eq_ignore_case_upper.
  destruct Hw as (_ & _ & Hk). apply Hk. rewrite He. by apply (bool_decide_unpack _).
Qed.
(** No word of a predicate is OR. *)
Lemma words_no_or p : wf_predicate p -> Forall (fun w => eq_ignore_ascii_case w "OR" = false) (words p).
Proof.
  induction p as [n|n|f n v|n lo hi|n v vs|op n v|op n v|p IH]; cbn [wf_predicate words]; intros Hp;
    repeat match goal with Hc : _ /\ _ |- _ => destruct Hc end;
    repeat first [apply Forall_nil_2 | apply Forall_cons_2]; try done.
  all: try (by apply ordinary_not_or, token_ordinary); try (by apply ordinary_not_or, op_ordinary).
  all: try (apply ordinary_not_or; rewrite <- ?str_app_assoc; first [apply closed_ordinary|apply comma_ordinary];
    rewrite ?str_all_app_true; split_and?; try done; by apply token_graphic).
  - apply ordinary_not_or. rewrite <- !str_app_assoc. apply comma_ordinary. rewrite !str_all_app_true.
    split_and!; [by destruct f|done|by apply token_graphic].
  - eapply Forall_impl; [by apply in_words_ordinary|]. apply ordinary_not_or.
  - by apply IH.
Qed.

End Meanings.

(** ** The theorem *)

Section Filters.
  Context `{UnicodeCase, SerdeJson}.
  Context (dnf : list (list predicate)).
  Hypothesis dnf_some : dnf <> [].
  Hypothesis dnf_ok : Forall (fun ps => ps <> [] /\ Forall wf_predicate ps) dnf.

Lemma and_words_no_or ps : ps <> [] -> Forall wf_predicate ps -> no_or (and_words ps).
Proof.
  intros Hne Hps. split; [by apply and_words_nonempty|]. apply sep_words_Forall; [done|].
  apply Forall_map. eapply Forall_impl; [done|]. apply words_no_or.
Qed.
Lemma or_words_are_words : Forall is_word (or_words dnf).
Proof.
  apply sep_words_Forall; [by apply graphic_word|]. apply Forall_map. eapply Forall_impl; [done|].
  intros ps [_ Hps]. by apply and_words_are_words.
Qed.
Lemma or_words_nonempty : or_words dnf <> [].
Proof.
  apply sep_words_nonempty; [by destruct dnf|]. apply Forall_map. eapply Forall_impl; [done|].
  intros ps [Hne _]. by apply and_words_nonempty.
Qed.
Lemma filter_text_nonempty : is_empty (filter_text dnf) = false.
Proof.
  apply not_true_iff_false. intros He%is_empty_true.
  pose proof (split_whitespace_join _ or_words_are_words) as Hs. unfold filter_text in He. rewrite He in Hs.
  by apply or_words_nonempty.
Qed.
Lemma conjunctive_text names values candidate :
  match_conjunctive_expression names values candidate (filter_text dnf)
  = some_hold names values candidate dnf.
Proof.
  unfold match_conjunctive_expression, split_disjunctive_predicates, filter_text. cbv zeta.
  rewrite split_whitespace_join by apply or_words_are_words.
  rewrite bool_decide_false by apply or_words_nonempty. unfold or_words.
  rewrite (disjuncts_sep _ []).
  - cbn [app mbind outcome_bind]. rewrite map_map. by apply any_match_text.
  - by destruct dnf.
  - apply Forall_map. eapply Forall_impl; [done|]. intros ps [Hne Hps]. by apply and_words_no_or.
Qed.
End Filters.

(** C25: The condition language means what it says.  For predicates with ordinary
    names and placeholders, evaluating the text of an OR of ANDs of predicates - as a
    filter, as the condition of a write, and as a key condition when there is no OR -
    is evaluating the predicates themselves from left to right, stopping at the
    first conjunct that fails and at the first disjunct that holds, with the errors
    of the predicates that are reached and no other. *)
Theorem filter_meaning `{UnicodeCase, SerdeJson} names values dnf :
  dnf <> [] -> Forall (fun ps => ps <> [] /\ Forall wf_predicate ps) dnf ->
  (forall candidate, match_filter names values candidate (filter_text dnf)
                     = some_hold names values candidate dnf)
  /\ (forall existing, check_condition (filter_text dnf) names values existing
        = (b ← some_hold names values (default ∅ existing) dnf;
           if b : bool then Ok tt else Err "condition check failed"))
  /\ (forall ps candidate, dnf = [ps] ->
        match_key_condition names values candidate (filter_text dnf) = all_hold names values candidate ps).
Proof.
  intros Hne Hok.
  assert (trim (filter_text dnf) = filter_text dnf) as Ht by by apply trim_join, or_words_are_words.
  split_and!.
  - intros candidate. unfold match_filter. cbv zeta. rewrite Ht, filter_text_nonempty by done.
    by apply conjunctive_text.
  - intros existing. unfold check_condition. cbv zeta. rewrite Ht, filter_text_nonempty by done.
    by rewrite conjunctive_text.
  - intros ps candidate ->. apply Forall_inv in Hok as [Hps Hwf]. unfold match_key_condition, filter_text.
    cbn [or_words map sep_words]. rewrite split_conjunctive_text by done. by apply all_match_text.
Qed.

Lemma filter_meaning_witness :
  match_filter (H := {| upper_char := fun c => c |}) (H0 := {| json_to_vec := fun _ => "" |}) ∅
    (list_to_map [(":a", json1 "N" (JString "5"))]) (list_to_map [("n", json1 "N" (JString "7"))])
    "NOT n < :a AND n BETWEEN :a AND :a OR attribute_exists(n) AND n IN (:a, :a)"
  = Ok false.
Proof.
  set (dnf := [[PNot (PCompare OpLt "n" ":a"); PBetween "n" ":a" ":a"];
               [PExists "n"; PIn "n" ":a" [":a"]]]).
  assert (token "n") as Hn by (split; [done|]; split; [done|]; by apply (bool_decide_unpack _)).
  assert (token ":a") as Ha by (split; [done|]; split; [done|]; by apply (bool_decide_unpack _)).
  assert (Forall (fun ps => ps <> [] /\ Forall wf_predicate ps) dnf) as Hok.
  { unfold dnf. apply Forall_cons_2; [split; [discriminate|]|apply Forall_cons_2; [split; [discriminate|]|constructor]].
    all: repeat apply Forall_cons_2; try apply Forall_nil_2; cbn [wf_predicate]; auto. }
  pose proof (proj1 (@filter_meaning {| upper_char := fun c => c |} {| json_to_vec := fun _ => "" |} ∅
    (list_to_map [(":a", json1 "N" (JString "5"))]) dnf ltac:(discriminate) Hok)
    (list_to_map [("n", json1 "N" (JString "7"))])) as Hm.
  vm_compute in Hm |- *. exact Hm.
Defined.
