(* ===== verification/DynQuery.v ===== *)
(** Query and Scan of the DynamoDB service (services/dynamodb/src/query.rs): the walk, the
    order of its results, and the pages that cover it. *)

From Stdlib Require Import QArith.
From S2P Require Import Prelude RustStr RustNum RustText Json DynNumber DynModel DynValue.
Local Open Scope string_scope.
Local Open Scope Z_scope.

(** Query and Scan of the DynamoDB service (src/services/dynamodb/src/query.rs):
    sorting by a key schema, walking from an exclusive start key, limits,
    [LastEvaluatedKey] and [Select].  The matcher is a function of the item that
    may fail, as the closures of Query and Scan are. *)

Record KeyedItem := mkKeyed { ki_key : string; ki_value : Item }.

Section Query.
  Context `{SerdeJson}.

(** ** Sorting *)

Definition query_key_schema (description : TableDescription) (index_name : string) : list KeySchemaElement :=
  if is_empty index_name then key_schema description
  else match List.find (fun i => str_eqb (gsi_name i) index_name) (global_secondary_indexes description) with
       | Some i => gsi_key_schema i
       | None =>
           match List.find (fun i => str_eqb (lsi_name i) index_name) (local_secondary_indexes description) with
           | Some i => lsi_key_schema i
           | None => key_schema description
           end
       end.

Definition compare_optional_values (l r : option Value) : comparison :=
  match l, r with
  | None, None => Eq
  | None, Some _ => Lt
  | Some _, None => Gt
  | Some l, Some r => compare_attribute_values l r
  end.
Fixpoint compare_items_by_schema (l r : Item) (schema : list KeySchemaElement) : comparison :=
  match schema with
  | [] => Eq
  | element :: rest =>
      match compare_optional_values (l !! attribute_name element) (r !! attribute_name element) with
      | Eq => compare_items_by_schema l r rest
      | ord => ord
      end
  end.
Definition compare_keyed (schema : list KeySchemaElement) (a b : KeyedItem) : comparison :=
  match compare_items_by_schema (ki_value a) (ki_value b) schema with
  | Eq => String.compare (ki_key a) (ki_key b)
  | ord => ord
  end.
Definition sorted_items_for_query (items : gmap string Item) (description : TableDescription) (index_name : string)
    : list KeyedItem :=
  sort_by (compare_keyed (query_key_schema description index_name))
    (map (fun e => mkKeyed e.1 e.2) (btree_iter items)).

Definition item_has_all_keys (value : Item) (schema : list KeySchemaElement) : bool :=
  forallb (fun e => bool_decide (is_Some (value !! attribute_name e))) schema.
Definition sorted_items_for_scan (items : gmap string Item) (description : TableDescription) (index_name : string)
    : list KeyedItem :=
  let sorted := sorted_items_for_query items description index_name in
  if is_empty index_name then sorted
  else List.filter (fun c => item_has_all_keys (ki_value c) (query_key_schema description index_name)) sorted.

Definition reverse_items (items : list KeyedItem) : list KeyedItem := rev items.

Definition start_key_string (description : TableDescription) (start : Item) : outcome string :=
  if bool_decide (start = ∅) then Ok "" else item_key description start.

(** ** Pages *)

Fixpoint has_more_items (found : bool) (source : list KeyedItem) (after_key : string) : bool :=
  match source with
  | [] => false
  | candidate :: rest =>
      if negb found then has_more_items (str_eqb (ki_key candidate) after_key) rest after_key else true
  end.

Section Collect.
  Context (matcher : Item -> outcome bool).
  Context (description : TableDescription) (index_name : string) (all : list KeyedItem) (limit : Z)
    (start_key projection : string) (names : Names) (limit_counts_unmatched : bool).

Fixpoint has_more_matches (found : bool) (source : list KeyedItem) (after_key : string) : outcome bool :=
  match source with
  | [] => Ok false
  | candidate :: rest =>
      if negb found then has_more_matches (str_eqb (ki_key candidate) after_key) rest after_key
      else b ← matcher (ki_value candidate);
           if b : bool then Ok true else has_more_matches found rest after_key
  end.

(** A response: its items, the scanned count and the last key. *)
Record Page := mkPage { p_items : list Item; p_scanned : Z; p_last : option Item }.
Definition items_response (items : list Item) (scanned : Z) : Page := mkPage items scanned None.
Definition limited_items_response (candidate : KeyedItem) (items : list Item) (scanned : Z) (has_more : bool) : Page :=
  mkPage items scanned
    (if has_more then ok_opt (extract_key description (ki_value candidate)) else None).

(** The loop of [collect_items] over what is left of the source. *)
Fixpoint collect_loop (source : list KeyedItem) (response_items : list Item) (scanned : Z) (started : bool)
    : outcome Page :=
  match source with
  | [] => Ok (items_response response_items scanned)
  | candidate :: rest =>
      if negb started then collect_loop rest response_items scanned (str_eqb (ki_key candidate) start_key)
      else
        matched ← matcher (ki_value candidate);
        let scanned := if (matched : bool) || limit_counts_unmatched then scanned + 1 else scanned in
        if negb matched then
          if limit_counts_unmatched && (0 <? limit) && (scanned =? limit) then
            Ok (limited_items_response candidate response_items scanned
                  (has_more_items false all (ki_key candidate)))
          else collect_loop rest response_items scanned started
        else
          let response_items :=
            (response_items ++ [project_result_item description index_name (ki_value candidate) projection names])%list in
          if (0 <? limit) && (scanned =? limit) then
            has_more ← (if limit_counts_unmatched then Ok (has_more_items false all (ki_key candidate))
                        else has_more_matches false all (ki_key candidate));
            Ok (limited_items_response candidate response_items scanned has_more)
          else collect_loop rest response_items scanned started
  end.
Definition collect_page : outcome Page := collect_loop all [] 0 (is_empty start_key).

(** The response object. *)
Definition page_map (p : Page) : list (string * Value) :=
  let m := obj_insert "Items" (JArray (map item_value (p_items p))) [] in
  let m := obj_insert "Count" (JNumber (PosInt (Z.of_nat (length (p_items p))))) m in
  let m := obj_insert "ScannedCount" (JNumber (PosInt (p_scanned p))) m in
  match p_last p with Some k => obj_insert "LastEvaluatedKey" (item_value k) m | None => m end.
Definition collect_items : outcome (list (string * Value)) := page_map <$> collect_page.
End Collect.

Definition validate_select `{UnicodeCase} (select_value projection_expression : string) : outcome unit :=
  let s := to_uppercase (trim select_value) in
  if bool_decide (s ∈ [""; "ALL_ATTRIBUTES"; "ALL_PROJECTED_ATTRIBUTES"; "SPECIFIC_ATTRIBUTES"]) then Ok tt
  else if str_eqb s "COUNT" then
    if negb (is_empty (trim projection_expression)) then Err "select COUNT cannot be used with ProjectionExpression"
    else Ok tt
  else Err ("unsupported select value " +:+ s).
Definition apply_select (response : list (string * Value)) (select_value : string) : list (string * Value) :=
  if eq_ignore_ascii_case (trim select_value) "COUNT" then obj_remove "Items" response else response.
End Query.

(** The order of attribute values and of query results: on well-typed values
    [compare_attribute_values] is a total preorder - by type name, numbers by value,
    strings and binaries by bytes, the rest by their JSON text - so the sort of
    Query and Scan is well defined and ordered by the key schema. *)

(** What the order and the item keys need of the JSON text: an array begins with a
    bracket, an object with a plain key with that key. *)
Class SerdeLaws `{SerdeJson} := {
  array_head : forall l, exists r, json_to_vec (JArray l) = String "[" r;
  object_head : forall k v, str_all is_ascii_uppercase k = true ->
    exists r, json_to_vec (json1 k v) = String "{" (String dquote (k +:+ String dquote r)) }.

Section Order.
  Context `{SerdeLaws}.

Definition kind (v : Value) : string := attribute_type_name v.

(** Comparison within one type. *)
Definition within (v w : Value) : comparison :=
  match str_member "N" v, str_member "N" w with
  | Some a, Some b => compare_number_strings a b
  | _, _ =>
      match str_member "S" v, str_member "S" w with
      | Some a, Some b => String.compare a b
      | _, _ =>
          match str_member "B" v, str_member "B" w with
          | Some a, Some b => String.compare a b
          | _, _ => String.compare (marshal v) (marshal w)
          end
      end
  end.

Lemma attribute_kind v : attribute_ok v -> exists raw, v = json1 (kind v) raw /\ kind v ∈ type_order.
Proof. destruct 1; eexists; (split; [reflexivity|by apply (bool_decide_unpack _)]). Qed.

Definition safe_byte (c : ascii) : bool :=
  is_ascii_uppercase c || Ascii.eqb c "{" || Ascii.eqb c dquote.
Lemma html_escape_safe c s : safe_byte c = true -> html_escape (String c s) = String c (html_escape s).
Proof.
  intros Hc. cbn [html_escape].
  destruct (Ascii.eqb_spec c "<") as [->|_]; [done|]. destruct (Ascii.eqb_spec c ">") as [->|_]; [done|].
  destruct (Ascii.eqb_spec c "&") as [->|_]; [done|].
  destruct s as [|c1 [|c2 s]]; [done..|].
  assert (forall l, String c (String c1 (char_str c2)) <> line_separator l) as Hl.
  { intros l [= -> _ _]. done. }
  unfold str_eqb. by rewrite !bool_decide_false.
Qed.
Lemma html_escape_prefix p s : str_all safe_byte p = true -> html_escape (p +:+ s) = p +:+ html_escape s.
Proof.
  induction p as [|c p IH]; [done|]. cbn [str_all]. intros [Hc Hp]%andb_true_iff. rewrite str_app_cons.
  by rewrite html_escape_safe, IH.
Qed.
Lemma type_order_upper k : k ∈ type_order -> str_all is_ascii_uppercase k = true.
Proof. revert k. apply Forall_forall. by repeat constructor. Qed.
Lemma marshal_head k v : k ∈ type_order ->
  exists r, marshal (json1 k v) = String "{" (String dquote (k +:+ String dquote r)).
Proof.
  intros Hk%type_order_upper. destruct (object_head k v Hk) as (r & Hr). exists (html_escape r).
  unfold marshal. rewrite Hr.
  change (String "{" (String dquote (k +:+ String dquote r))) with ((String "{" (char_str dquote)) +:+ (k +:+ (char_str dquote +:+ r))).
  rewrite html_escape_prefix by done. rewrite html_escape_prefix.
  - by rewrite html_escape_prefix.
  - revert Hk. apply str_all_impl. intros c Hc. unfold safe_byte. by rewrite Hc.
Qed.

(** Between different types, the JSON texts compare as the type names. *)
Lemma compare_heads k k' r r' :
  k ∈ type_order -> k' ∈ type_order -> k <> k' ->
  String.compare (k +:+ String dquote r) (k' +:+ String dquote r') = String.compare k k'.
Proof.
  intros Hk Hk'. unfold type_order in Hk, Hk'.
  repeat (apply elem_of_cons in Hk as [-> | Hk]); [..|by apply elem_of_nil in Hk];
    repeat (apply elem_of_cons in Hk' as [-> | Hk']); try (by apply elem_of_nil in Hk'); done.
Qed.
Lemma json_by_type v w :
  attribute_ok v -> attribute_ok w -> kind v <> kind w ->
  String.compare (marshal v) (marshal w) = String.compare (kind v) (kind w).
Proof.
  intros (rv & Hv & Kv)%attribute_kind (rw & Hw & Kw)%attribute_kind Hne.
  destruct (marshal_head (kind v) rv Kv) as (x & Hx). destruct (marshal_head (kind w) rw Kw) as (y & Hy).
  rewrite <- Hv in Hx. rewrite <- Hw in Hy. rewrite Hx, Hy. by apply compare_heads.
Qed.

Lemma str_member_json1 k s : str_member k (json1 k (JString s)) = Some s.
Proof. unfold str_member. by rewrite obj_get_json1. Qed.
Lemma str_member_other k k' v : k <> k' -> str_member k (json1 k' v) = None.
Proof. intros Hk. unfold str_member. by rewrite obj_get_json1_ne. Qed.

Lemma member_kind k v :
  attribute_ok v -> k ∈ ["N"; "S"; "B"] ->
  (kind v = k /\ exists s, str_member k v = Some s) \/ (kind v <> k /\ str_member k v = None).
Proof.
  intros Hv Hk. repeat (apply elem_of_cons in Hk as [-> | Hk]); [..|by apply elem_of_nil in Hk];
    destruct Hv; first [left; split; [reflexivity|by eexists]|right; by split].
Qed.
Lemma kind_object v : attribute_ok v -> exists m, as_object v = Some m.
Proof. destruct 1; by eexists. Qed.

(** What the comparison computes. *)
Lemma compare_lex v w :
  attribute_ok v -> attribute_ok w ->
  compare_attribute_values v w = lex (fun v w => String.compare (kind v) (kind w)) within v w.
Proof.
  intros Hv Hw. unfold lex, compare_attribute_values. cbv zeta.
  destruct (kind_object v Hv) as (mv & ->). destruct (kind_object w Hw) as (mw & ->).
  assert (forall k, k ∈ ["N"; "S"; "B"] -> forall s, str_member k v = Some s -> str_member k w = None ->
    String.compare (kind v) (kind w) <> Eq) as Hdiff.
  { intros k Hk s Hs Hn Hc%String.compare_eq_iff.
    destruct (member_kind k v Hv Hk) as [[Ek _]|[_ E]]; [|congruence].
    destruct (member_kind k w Hw Hk) as [[_ [t E]]|[E _]]; congruence. }
  pose proof (json_by_type v w Hv Hw) as Hj.
  assert ("N" ∈ ["N"; "S"; "B"] /\ "S" ∈ ["N"; "S"; "B"] /\ "B" ∈ ["N"; "S"; "B"]) as (IN & IS & IB)
    by by (split_and!; apply (bool_decide_unpack _)).
  pose proof (Hdiff _ IN) as D1. pose proof (Hdiff _ IS) as D2. pose proof (Hdiff _ IB) as D3.
  clear Hdiff.
  unfold within. fold (kind v) (kind w).
  destruct (String.compare (kind v) (kind w)) eqn:Hc.
  1: { clear Hj. destruct (str_member "N" v) as [a|]; [by destruct (str_member "N" w); [|by destruct (D1 a)]|].
    destruct (str_member "S" v) as [a'|]; [by destruct (str_member "S" w); [|by destruct (D2 a')]|].
    destruct (str_member "B" v) as [a''|]; [by destruct (str_member "B" w); [|by destruct (D3 a'')]|]. done. }
  all: assert (kind v <> kind w) as Hne by (intros E; by rewrite E, string_compare_refl in Hc); rewrite Hj by done;
    assert (forall k, k ∈ ["N"; "S"; "B"] -> is_Some (str_member k v) -> is_Some (str_member k w) -> False) as Hx
      by (intros k Hk [a Ha] [b Hb]; destruct (member_kind k v Hv Hk) as [[E1 _]|[_ E]]; [|congruence];
          destruct (member_kind k w Hw Hk) as [[E2 _]|[_ E]]; congruence);
    pose proof (Hx _ IN) as X1; pose proof (Hx _ IS) as X2; pose proof (Hx _ IB) as X3;
    destruct (str_member "N" v), (str_member "N" w); try done; try (by destruct X1);
    destruct (str_member "S" v), (str_member "S" w); try done; try (by destruct X2);
    destruct (str_member "B" v), (str_member "B" w); try done; by destruct X3.
Qed.
(** The value of a number attribute. *)
Definition number_of (v : Value) : Q :=
  match str_member "N" v ≫= parse with Some d => value d | None => 0%Q end.
Lemma within_total k : exists c, total_cmp attribute_ok c /\
  forall v w, attribute_ok v -> attribute_ok w -> kind v = k -> kind w = k -> within v w = c v w.
Proof.
  assert (forall k' v, k' ∈ ["N"; "S"; "B"] -> attribute_ok v -> kind v = k ->
    (k = k' /\ exists s, str_member k' v = Some s) \/ (k <> k' /\ str_member k' v = None)) as Hm.
  { intros k' v Hk' Hv <-. by apply member_kind. }
  assert ("N" ∈ ["N"; "S"; "B"] /\ "S" ∈ ["N"; "S"; "B"] /\ "B" ∈ ["N"; "S"; "B"]) as (IN & IS & IB)
    by by (split_and!; apply (bool_decide_unpack _)).
  destruct (decide (k = "N")) as [->|HN]; [|destruct (decide (k = "S")) as [->|HS];
    [|destruct (decide (k = "B")) as [->|HB]]].
  - exists (fun v w => (number_of v ?= number_of w)%Q).
    split; [by apply (total_by _ (fun _ => True)); [apply total_Q|]|]. intros v w Hv Hw Kv Kw.
    destruct (Hm "N" v IN Hv Kv) as [[_ [a Ea]]|[? _]]; [|done].
    destruct (Hm "N" w IN Hw Kw) as [[_ [b Eb]]|[? _]]; [|done].
    unfold within, number_of, compare_number_strings. rewrite Ea, Eb. cbn [mbind option_bind].
    assert (forall v s, attribute_ok v -> str_member "N" v = Some s -> exists d, parse s = Some d) as Hp.
    { intros x s Hx Hs. assert (is_valid_number s = true) as Hval by (destruct Hx; try done; by injection Hs as <-).
      unfold is_valid_number in Hval. by apply bool_decide_eq_true in Hval as [d Hd]; exists d. }
    destruct (Hp v a Hv Ea) as [d Hd]. destruct (Hp w b Hw Eb) as [e He]. rewrite Hd, He.
    apply compare_value; by eapply parse_wf.
  - exists (fun v w => String.compare (default "" (str_member "S" v)) (default "" (str_member "S" w))).
    split; [by apply (total_by _ (fun _ => True)); [apply total_string|]|]. intros v w Hv Hw Kv Kw.
    destruct (Hm "N" v IN Hv Kv) as [[? _]|[_ Na]]; [done|]. destruct (Hm "N" w IN Hw Kw) as [[? _]|[_ Nb]]; [done|].
    destruct (Hm "S" v IS Hv Kv) as [[_ [a Ea]]|[? _]]; [|done].
    destruct (Hm "S" w IS Hw Kw) as [[_ [b Eb]]|[? _]]; [|done].
    unfold within. by rewrite Na, Ea, Eb.
  - exists (fun v w => String.compare (default "" (str_member "B" v)) (default "" (str_member "B" w))).
    split; [by apply (total_by _ (fun _ => True)); [apply total_string|]|]. intros v w Hv Hw Kv Kw.
    destruct (Hm "N" v IN Hv Kv) as [[? _]|[_ Na]]; [done|]. destruct (Hm "S" v IS Hv Kv) as [[? _]|[_ Sa]]; [done|].
    destruct (Hm "B" v IB Hv Kv) as [[_ [a Ea]]|[? _]]; [|done].
    destruct (Hm "B" w IB Hw Kw) as [[_ [b Eb]]|[? _]]; [|done].
    unfold within. by rewrite Na, Sa, Ea, Eb.
  - exists (fun v w => String.compare (marshal v) (marshal w)).
    split; [by apply (total_by _ (fun _ => True)); [apply total_string|]|]. intros v w Hv Hw Kv Kw.
    destruct (Hm "N" v IN Hv Kv) as [[? _]|[_ Na]]; [done|]. destruct (Hm "S" v IS Hv Kv) as [[? _]|[_ Sa]]; [done|].
    destruct (Hm "B" v IB Hv Kv) as [[? _]|[_ Ba]]; [done|].
    unfold within. by rewrite Na, Sa, Ba.
Qed.

Lemma total_ext {A} (P : A -> Prop) c1 c2 :
  (forall x y, P x -> P y -> c1 x y = c2 x y) -> total_cmp P c2 -> total_cmp P c1.
Proof.
  intros He [Ha Ht]. split.
  - intros x y Hx Hy. rewrite !He by done. auto.
  - intros x y z Hx Hy Hz. rewrite !He by done. eauto.
Qed.
Lemma compare_attribute_total : total_cmp attribute_ok compare_attribute_values.
Proof.
  apply (total_ext _ _ _ compare_lex), total_lex.
  - apply (total_by _ (fun _ => True)); [apply total_string|done].
  - intros x y Hx Hy Hk%String.compare_eq_iff. destruct (within_total (kind x)) as (c & Hc & Hw).
    rewrite !Hw by done. by apply Hc.
  - intros x y z Hx Hy Hz Hxy%String.compare_eq_iff Hyz%String.compare_eq_iff.
    destruct (within_total (kind x)) as (c & Hc & Hw). rewrite !Hw by congruence. by apply Hc.
Qed.

(** ** Sorting *)

Definition keyed_ok (c : KeyedItem) : Prop := forall k v, ki_value c !! k = Some v -> attribute_ok v.
Lemma compare_by_schema_total schema :
  total_cmp (fun i : Item => forall k v, i !! k = Some v -> attribute_ok v)
    (fun l r => compare_items_by_schema l r schema).
Proof.
  induction schema as [|e schema IH]; [by split; [|intros x y z _ _ _ _ _]|].
  apply (total_ext _ _ (lex (fun l r => cmp_option compare_attribute_values (l !! attribute_name e) (r !! attribute_name e))
                            (fun l r => compare_items_by_schema l r schema))).
  - intros l r _ _. cbn [compare_items_by_schema]. unfold lex. by destruct (l !! _), (r !! _).
  - apply total_lex_simple; [|done].
    apply (total_by _ (fun o => forall x, o = Some x -> attribute_ok x)).
    + apply total_option, compare_attribute_total.
    + intros i Hi v Hv. by apply Hi in Hv.
Qed.
Lemma compare_keyed_total schema : total_cmp keyed_ok (compare_keyed schema).
Proof.
  apply (total_ext _ _ (lex (fun a b => compare_items_by_schema (ki_value a) (ki_value b) schema)
                            (fun a b => String.compare (ki_key a) (ki_key b)))); [done|].
  apply total_lex_simple.
  - by apply (total_by _ _ ki_value _ (compare_by_schema_total schema)).
  - by apply (total_by _ _ ki_key _ (total_string (fun _ => True))).
Qed.
End Order.

(** Query and Scan sort well: on well-typed items the order of the sort is a total
    preorder (so [sort_by] neither panics nor depends on the input order), and the
    result has every item of the table exactly once, strictly increasing by the key
    schema of the table or index - missing attributes first - and then by item key. *)
Theorem sorted_items_exact `{SerdeLaws} items desc index :
  (forall k i, items !! k = Some i -> forall a v, i !! a = Some v -> attribute_ok v) ->
  let schema := query_key_schema desc index in
  let sorted := sorted_items_for_query items desc index in
  total_cmp keyed_ok (compare_keyed schema)
  /\ sorted ≡ₚ map (fun e => mkKeyed e.1 e.2) (btree_iter items)
  /\ StronglySorted (fun a b => compare_keyed schema a b = Lt) sorted.
Proof.
  intros Hok schema sorted. pose proof (compare_keyed_total schema) as HT.
  assert (sorted ≡ₚ map (fun e => mkKeyed e.1 e.2) (btree_iter items)) as Hp by apply sort_by_perm.
  split_and!; [done|done|].
  set (l := map (fun e => mkKeyed e.1 e.2) (btree_iter items)) in *.
  assert (Forall keyed_ok l) as Hl.
  { apply Forall_map, Forall_forall. intros [k i] Hin. apply elem_of_btree_iter in Hin. intros a v. by apply (Hok k i). }
  assert (NoDup (map ki_key sorted)) as Hnd.
  { rewrite Hp. unfold l. rewrite map_map. apply NoDup_btree_keys. }
  assert (Forall keyed_ok sorted) as Hs by by rewrite Hp.
  assert (StronglySorted (fun a b => compare_keyed schema a b <> Gt) sorted) as Hsort.
  { apply (sort_by_sorted _ keyed_ok); [|apply HT|done]. intros x y Hx Hy. by apply (tc_gt _ _ HT). }
  clearbody sorted. clear Hp. induction Hsort as [|a r Hr IH Ha]; [constructor|].
  apply NoDup_cons in Hnd as [Hn Hnd]. apply Forall_cons in Hs as [Hs1 Hs2].
  constructor; [by apply IH|]. rewrite Forall_forall in *. intros b Hb. specialize (Ha b Hb).
  destruct (compare_keyed schema a b) eqn:E; [|done|done]. exfalso. apply Hn.
  unfold compare_keyed in E. destruct (compare_items_by_schema _ _ _); try done.
  apply String.compare_eq_iff in E. rewrite E. by apply list_elem_of_fmap_2.
Qed.

(** Pagination of the DynamoDB service's Query and Scan: following
    [LastEvaluatedKey] from page to page visits every item of the sorted source once,
    in order, and ends. *)

(** ** Keys of stored items *)

Section Keys.
  Context `{SerdeLaws}.

Lemma extract_from_ok schema value key0 :
  (forall e, e ∈ schema -> is_Some (value !! attribute_name e)) ->
  exists key, extract_from schema value key0 = Ok key
    /\ (forall a, key !! a = if decide (a ∈ map attribute_name schema) then value !! a else key0 !! a).
Proof.
  revert key0. induction schema as [|e schema IH]; intros key0 Hs; [by exists key0|]. cbn [extract_from].
  destruct (Hs e (list_elem_of_here _ _)) as [v Hv]. rewrite Hv. cbn [ok_or mbind outcome_bind].
  destruct (IH (<[attribute_name e := v]> key0)) as (key & -> & Hk);
    [intros e' He'; apply Hs; by apply list_elem_of_further|].
  exists key. split; [done|]. intros a. rewrite Hk. cbn [map].
  destruct (decide (a ∈ map attribute_name schema)) as [Hin|Hin].
  - rewrite decide_True; [done|]. by apply list_elem_of_further.
  - destruct (decide (a = attribute_name e)) as [->|Hne].
    + rewrite lookup_insert_eq, decide_True, Hv; [done|]. apply list_elem_of_here.
    + rewrite lookup_insert_ne by done. rewrite decide_False; [done|]. by intros [->|?]%elem_of_cons.
Qed.
Lemma key_values_lookup schema value kvs :
  key_values schema value = Ok kvs -> forall e, e ∈ schema -> is_Some (value !! attribute_name e).
Proof.
  revert kvs. induction schema as [|e schema IH]; intros kvs; [by intros _ e ?%elem_of_nil|]. cbn [key_values].
  intros (v & Hv%ok_or_Ok & ([] & _ & (r & Hr & _)%bind_Ok)%bind_Ok)%bind_Ok e' [->|He']%elem_of_cons; [by eexists|].
  by apply (IH r).
Qed.
Lemma key_values_ext schema i j :
  (forall e, e ∈ schema -> i !! attribute_name e = j !! attribute_name e) -> key_values schema i = key_values schema j.
Proof.
  induction schema as [|e schema IH]; intros He; [done|]. cbn [key_values].
  rewrite (He e (list_elem_of_here _ _)), IH; [done|]. intros e' He'. apply He. by apply list_elem_of_further.
Qed.
Lemma marshal_array_nonempty l : marshal (JArray l) <> "".
Proof.
  unfold marshal. destruct (array_head l) as (r & ->). cbn [html_escape].
  destruct r as [|c1 [|c2 r]]; done.
Qed.

(** The key extracted from a stored item names it. *)
Lemma stored_key desc i k :
  key_schema desc <> [] -> item_key desc i = Ok k ->
  exists key, extract_key desc i = Ok key /\ key <> ∅ /\ item_key desc key = Ok k /\ k <> "".
Proof.
  intros Hne. unfold item_key. intros (kvs & Hk & [= <-])%bind_Ok.
  destruct (extract_from_ok (key_schema desc) i ∅ (key_values_lookup _ _ _ Hk)) as (key & He & Hl).
  assert (forall e, e ∈ key_schema desc -> key !! attribute_name e = i !! attribute_name e) as Heq.
  { intros e Hin. rewrite Hl, decide_True; [done|]. by apply list_elem_of_fmap_2. }
  exists key. split_and!; [done| | |by apply marshal_array_nonempty].
  - intros ->. destruct (key_schema desc) as [|e schema]; [done|].
    destruct (key_values_lookup _ _ _ Hk e (list_elem_of_here _ _)) as [v Hv].
    rewrite <- Heq in Hv by apply list_elem_of_here. by rewrite lookup_empty in Hv.
  - by rewrite (key_values_ext _ key i), Hk.
Qed.
End Keys.

(** ** Pages *)

Section Pages.
  Context `{SerdeLaws}.
  Context (matcher : Item -> outcome bool) (m : Item -> bool).
  Context (desc : TableDescription) (index : string) (all : list KeyedItem) (limit : Z)
    (projection : string) (names : Names) (lcu : bool).

Definition page (start : string) : outcome Page :=
  collect_page matcher desc index all limit start projection names lcu.
(** Following [LastEvaluatedKey]. *)
Fixpoint pages (fuel : nat) (start : string) : outcome (list Page) :=
  match fuel with
  | O => Panic "pages left"
  | S fuel' =>
      p ← page start;
      match p_last p with
      | None => Ok [p]
      | Some k => s ← start_key_string desc k; ps ← pages fuel' s; Ok (p :: ps)
      end
  end.

Definition shown (c : KeyedItem) : Item := project_result_item desc index (ki_value c) projection names.
Definition hits (l : list KeyedItem) : list Item := map shown (List.filter (fun c => m (ki_value c)) l).

Hypothesis limit_pos : 0 < limit.
Hypothesis schema_some : key_schema desc <> [].
Hypothesis keys_unique : NoDup (map ki_key all).
Hypothesis keys_stored : forall c, c ∈ all -> item_key desc (ki_value c) = Ok (ki_key c).
Hypothesis matcher_total : forall c, c ∈ all -> matcher (ki_value c) = Ok (m (ki_value c)).

Abbreviation loop := (collect_loop matcher desc index all limit).

Lemma hits_app a b : hits (a ++ b)%list = (hits a ++ hits b)%list.
Proof. unfold hits. by rewrite List.filter_app, map_app. Qed.

Lemma unique_split pre c rest : all = (pre ++ c :: rest)%list -> ki_key c ∉ map ki_key pre.
Proof.
  intros Hall. rewrite Hall, map_app in keys_unique. apply NoDup_app in keys_unique as (_ & Hd & _).
  intros Hin. apply (Hd _ Hin). apply list_elem_of_here.
Qed.
(** Skipping to the start key. *)
Lemma collect_skip pre c rest k acc scanned :
  all = (pre ++ c :: rest)%list -> k = ki_key c ->
  loop k projection names lcu all acc scanned false = loop k projection names lcu rest acc scanned true.
Proof.
  intros Hall ->. pose proof (unique_split _ _ _ Hall) as Hn. rewrite Hall at 2. clear Hall.
  induction pre as [|d pre IH]; cbn [app collect_loop negb].
  - unfold str_eqb. by rewrite bool_decide_true.
  - rewrite map_cons, not_elem_of_cons in Hn. destruct Hn as [Hne Hn].
    unfold str_eqb. rewrite bool_decide_false by congruence. by apply IH.
Qed.
Lemma has_more_items_spec pre c rest :
  all = (pre ++ c :: rest)%list -> has_more_items false all (ki_key c) = negb (bool_decide (rest = [])).
Proof.
  intros Hall. pose proof (unique_split _ _ _ Hall) as Hn. rewrite Hall. clear Hall.
  induction pre as [|d pre IH]; cbn [app has_more_items negb].
  - unfold str_eqb. rewrite bool_decide_true by done. by destruct rest.
  - rewrite map_cons, not_elem_of_cons in Hn. destruct Hn as [Hne Hn].
    unfold str_eqb. rewrite bool_decide_false by congruence. by apply IH.
Qed.
Lemma has_more_matches_spec pre c rest :
  all = (pre ++ c :: rest)%list ->
  has_more_matches matcher false all (ki_key c) = Ok (negb (bool_decide (hits rest = []))).
Proof.
  intros Hall. pose proof (unique_split _ _ _ Hall) as Hn.
  assert (forall c', c' ∈ rest -> matcher (ki_value c') = Ok (m (ki_value c'))) as Hm.
  { intros c' Hc'. apply matcher_total. rewrite Hall. apply elem_of_app. right. by apply list_elem_of_further. }
  rewrite Hall. clear Hall. induction pre as [|d pre IH]; cbn [app has_more_matches negb].
  - unfold str_eqb. rewrite bool_decide_true by done. clear Hn.
    induction rest as [|x rest IH]; [done|]. cbn [has_more_matches negb].
    rewrite Hm by apply list_elem_of_here. cbn [mbind outcome_bind]. unfold hits. cbn [List.filter].
    destruct (m (ki_value x)); [done|]. apply IH. intros c' Hc'. apply Hm. by apply list_elem_of_further.
  - rewrite map_cons, not_elem_of_cons in Hn. destruct Hn as [Hne Hn].
    unfold str_eqb. rewrite bool_decide_false by congruence. by apply IH.
Qed.

(** What a page says about what it walked over. *)
Definition page_ok (rest : list KeyedItem) (acc : list Item) (p : Page) : Prop :=
  exists walked left,
    rest = (walked ++ left)%list /\ p_items p = (acc ++ hits walked)%list
    /\ Z.of_nat (length (p_items p)) <= limit
    /\ match p_last p with
       | None => hits left = []
       | Some k => left <> [] /\ exists pre c, walked = (pre ++ [c])%list /\ start_key_string desc k = Ok (ki_key c) /\ ki_key c <> ""
       end.

Lemma limited_ok pre c rest acc scanned items more :
  all = (pre ++ c :: rest)%list -> items = (acc ++ hits [c])%list -> Z.of_nat (length items) <= limit ->
  (more = false -> hits rest = []) -> (more = true -> rest <> []) ->
  page_ok (c :: rest) acc (limited_items_response desc c items scanned more).
Proof.
  intros Hall -> Hlen Hmore Hrest. exists [c], rest. split; [done|]. split; [done|]. split; [done|].
  cbn [limited_items_response p_last]. destruct more; [|by apply Hmore].
  assert (c ∈ all) as Hc by (rewrite Hall; apply elem_of_app; right; apply list_elem_of_here).
  destruct (stored_key desc (ki_value c) (ki_key c) schema_some (keys_stored c Hc)) as (key & -> & Hne & Hk & Hke).
  cbn [ok_opt]. split; [by apply Hrest|]. exists [], c. split; [done|]. unfold start_key_string. rewrite bool_decide_false by done. done.
Qed.

Lemma page_ok_step c rest acc acc' p :
  page_ok rest acc' p -> acc' = (acc ++ hits [c])%list -> page_ok (c :: rest) acc p.
Proof.
  intros (walked & left & -> & Hi & Hl & Hlast) ->. exists (c :: walked), left. split; [done|].
  split; [by rewrite Hi, <- app_assoc, <- hits_app|]. split; [done|].
  destruct (p_last p) as [k|]; [|done]. destruct Hlast as (Hne & pre & d & -> & ?).
  split; [done|]. by exists (c :: pre), d.
Qed.

Lemma collect_loop_ok k pre rest acc scanned :
  all = (pre ++ rest)%list -> Z.of_nat (length acc) <= scanned -> scanned < limit ->
  exists p, loop k projection names lcu rest acc scanned true = Ok p /\ page_ok rest acc p.
Proof.
  revert pre acc scanned. induction rest as [|c rest IH]; intros pre acc scanned Hall Hacc Hsc.
  { eexists. split; [done|]. exists [], []. split_and!; try done; cbn; [by rewrite app_nil_r|lia]. }
  assert (c ∈ all) as Hc by (rewrite Hall; apply elem_of_app; right; apply list_elem_of_here).
  assert (all = ((pre ++ [c]) ++ rest)%list) as Hall' by by rewrite Hall, <- app_assoc.
  cbn [collect_loop negb]. rewrite (matcher_total c Hc). cbn [mbind outcome_bind]. cbv zeta.
  destruct (m (ki_value c)) eqn:Em; cbn [orb negb].
  - assert (hits [c] = [shown c]) as Hh by (unfold hits; cbn [List.filter]; by rewrite Em).
    fold (shown c).
    assert (Z.of_nat (length (acc ++ [shown c])%list) <= scanned + 1) as Hlen
      by (rewrite length_app; simpl; lia).
    rewrite (proj2 (Z.ltb_lt 0 limit)) by done. cbn [andb].
    destruct (Z.eqb_spec (scanned + 1) limit) as [Hlim|Hlim].
    + assert (exists more, (if lcu then Ok (has_more_items false all (ki_key c))
                            else has_more_matches matcher false all (ki_key c)) = Ok more
                           /\ (more = false -> hits rest = []) /\ (more = true -> rest <> [])) as (more & -> & Hmore & Hleft).
      { destruct lcu.
        - rewrite (has_more_items_spec _ _ _ Hall). eexists. split; [done|]. split.
          + intros Hr%negb_false_iff%bool_decide_eq_true. by rewrite Hr.
          + by intros Hr%negb_true_iff%bool_decide_eq_false.
        - rewrite (has_more_matches_spec _ _ _ Hall). eexists. split; [done|]. split.
          + by intros Hr%negb_false_iff%bool_decide_eq_true.
          + intros Hr%negb_true_iff%bool_decide_eq_false ->. by apply Hr. }
      cbn [mbind outcome_bind]. eexists. split; [done|].
      eapply limited_ok; [done|by rewrite Hh|lia|done..].
    + destruct (IH (pre ++ [c])%list (acc ++ [shown c])%list (scanned + 1) Hall' Hlen ltac:(lia)) as (p & Hp & Hok).
      exists p. split; [done|]. eapply page_ok_step; [done|by rewrite Hh].
  - assert (hits [c] = []) as Hh by (unfold hits; cbn [List.filter]; by rewrite Em).
    destruct lcu eqn:El; cbn [andb].
    + rewrite (proj2 (Z.ltb_lt 0 limit)) by done. cbn [andb].
      destruct (Z.eqb_spec (scanned + 1) limit) as [Hlim|Hlim].
      * eexists. split; [done|]. rewrite (has_more_items_spec _ _ _ Hall).
        eapply limited_ok; [done|by rewrite Hh, app_nil_r|lia| |by intros Hr%negb_true_iff%bool_decide_eq_false].
        intros Hr%negb_false_iff%bool_decide_eq_true. by rewrite Hr.
      * destruct (IH (pre ++ [c])%list acc (scanned + 1) Hall' ltac:(lia) ltac:(lia)) as (p & Hp & Hok).
        exists p. split; [done|]. eapply page_ok_step; [done|by rewrite Hh, app_nil_r].
    + destruct (IH (pre ++ [c])%list acc scanned Hall' Hacc Hsc) as (p & Hp & Hok).
      exists p. split; [done|]. eapply page_ok_step; [done|by rewrite Hh, app_nil_r].
Qed.
Lemma page_from pre rest start :
  all = (pre ++ rest)%list ->
  (pre = [] /\ start = "") \/ (exists pre' c, pre = (pre' ++ [c])%list /\ start = ki_key c /\ start <> "") ->
  exists p, page start = Ok p /\ page_ok rest [] p.
Proof.
  intros Hall Hstart. unfold page, collect_page.
  assert (loop start projection names lcu all [] 0 (is_empty start)
          = loop start projection names lcu rest [] 0 true) as ->.
  { destruct Hstart as [[-> ->]|(pre' & c & -> & Hs & Hne)]; [by rewrite Hall|].
    destruct (is_empty start) eqn:E; [by apply is_empty_true in E|].
    rewrite <- app_assoc in Hall. by apply (collect_skip pre' c). }
  by apply (collect_loop_ok start pre); [|simpl; lia|].
Qed.
Lemma pages_ok fuel pre rest start :
  all = (pre ++ rest)%list ->
  (pre = [] /\ start = "") \/ (exists pre' c, pre = (pre' ++ [c])%list /\ start = ki_key c /\ start <> "") ->
  (Nat.max 1 (length rest) <= fuel)%nat ->
  exists ps, pages fuel start = Ok ps /\ concat (map p_items ps) = hits rest
    /\ Forall (fun p => Z.of_nat (length (p_items p)) <= limit) ps.
Proof.
  revert pre rest start. induction fuel as [|fuel IH]; intros pre rest start Hall Hstart Hf; [lia|].
  destruct (page_from pre rest start Hall Hstart) as (p & Hp & walked & left & -> & Hi & Hl & Hlast).
  cbn [pages]. rewrite Hp. cbn [mbind outcome_bind]. destruct (p_last p) as [k|].
  - destruct Hlast as (Hleft & w & c & -> & -> & Hne). cbn [mbind outcome_bind].
    destruct (IH (pre ++ w ++ [c])%list left (ki_key c)) as (ps & -> & Hc & Hps).
    + by rewrite Hall, !app_assoc.
    + right. exists (pre ++ w)%list, c. by rewrite app_assoc.
    + rewrite !length_app in Hf. destruct left; [done|]. cbn [length] in *. lia.
    + exists (p :: ps). split; [done|]. split; [|by constructor].
      cbn [map concat]. by rewrite Hc, Hi, (hits_app (w ++ [c])%list left).
  - exists [p]. split; [done|]. split; [|by constructor]. cbn [map concat].
    by rewrite Hi, hits_app, Hlast, !app_nil_r.
Qed.
End Pages.

(** C26: Pagination is complete: with a positive limit, over a source whose items are
    stored under their own keys and with a matcher that does not fail, following
    LastEvaluatedKey from the first page ends after at most one page per item of the
    source (one page for an empty source), no page exceeds the limit, and the pages together are exactly the matching
    items of the source, projected, in order, none lost and none repeated - for Query
    (which counts matches) and for Scan (which counts every item). *)
Theorem pagination_complete `{SerdeLaws} matcher m desc index source limit projection names lcu :
  0 < limit -> key_schema desc <> [] -> NoDup (map ki_key source) ->
  (forall c, c ∈ source -> item_key desc (ki_value c) = Ok (ki_key c)) ->
  (forall c, c ∈ source -> matcher (ki_value c) = Ok (m (ki_value c))) ->
  exists ps, pages matcher desc index source limit projection names lcu (Nat.max 1 (length source)) "" = Ok ps
    /\ concat (map p_items ps)
       = map (fun c => project_result_item desc index (ki_value c) projection names)
             (List.filter (fun c => m (ki_value c)) source)
    /\ Forall (fun p => Z.of_nat (length (p_items p)) <= limit) ps.
Proof.
  intros Hl Hs Hu Hk Hm. apply (pages_ok _ m) with (pre := []); try done. by left.
Qed.

(** A serialiser for concrete runs: objects and arrays of strings, unescaped. *)
Fixpoint plain_json (v : Value) : string :=
  match v with
  | JString s => char_str dquote +:+ s +:+ char_str dquote
  | JArray l => "[" +:+ str_join "," (map plain_json l) +:+ "]"
  | JObject m => "{" +:+ str_join "," (map (fun e => char_str dquote +:+ e.1 +:+ char_str dquote +:+ ":" +:+ plain_json e.2) m) +:+ "}"
  | JBool true => "true" | JBool false => "false"
  | _ => "null"
  end.
Definition plain_serde : SerdeJson := {| json_to_vec := plain_json |}.
Lemma plain_laws : @SerdeLaws plain_serde.
Proof.
  split.
  - intros l. by eexists.
  - intros k v _. eexists. cbn. rewrite !str_app_assoc. reflexivity.
Qed.

Definition demo_desc : TableDescription :=
  mkDesc [] None 0 [] 0 [mkKey "pk" "HASH"] "" "" [] None "arn" "t" 0 "ACTIVE" None.
Definition demo_item (pk n : string) : Item := list_to_map [("pk", json1 "S" (JString pk)); ("n", json1 "N" (JString n))].
Definition demo_source : list KeyedItem :=
  let key pk := marshal (H := plain_serde) (JArray [json1 "S" (JString pk)]) in
  [mkKeyed (key "a") (demo_item "a" "1"); mkKeyed (key "b") (demo_item "b" "2"); mkKeyed (key "c") (demo_item "c" "1")].
Definition demo_match (i : Item) : bool := value_eqb (default JNull (i !! "n")) (json1 "N" (JString "1")).

Lemma pagination_complete_witness :
  exists ps, pages (H := plain_serde) (fun i => Ok (demo_match i)) demo_desc "" demo_source 1 "pk" ∅ true 3 "" = Ok ps
    /\ concat (map p_items ps) = [list_to_map [("pk", json1 "S" (JString "a"))]; list_to_map [("pk", json1 "S" (JString "c"))]].
Proof.
  destruct (@pagination_complete plain_serde plain_laws (fun i => Ok (demo_match i)) demo_match demo_desc "" demo_source
    1 "pk" ∅ true) as (ps & Hp & Hc & _).
  - lia.
  - discriminate.
  - by apply (bool_decide_unpack _).
  - apply Forall_forall. repeat (apply Forall_cons_2; [vm_compute; reflexivity|]). constructor.
  - intros c _. reflexivity.
  - exists ps. split; [exact Hp|]. rewrite Hc. vm_compute. reflexivity.
Defined.
Lemma sorted_items_exact_witness :
  total_cmp keyed_ok (compare_keyed (H := plain_serde) [mkKey "pk" "HASH"])
  /\ sorted_items_for_query (H := plain_serde)
       (list_to_map [("k2", demo_item "b" "2"); ("k1", demo_item "a" "1")]) demo_desc ""
     ≡ₚ [mkKeyed "k1" (demo_item "a" "1"); mkKeyed "k2" (demo_item "b" "2")].
Proof.
  destruct (@sorted_items_exact plain_serde plain_laws
    (list_to_map [("k2", demo_item "b" "2"); ("k1", demo_item "a" "1")]) demo_desc "") as (Ht & Hp & _).
  - intros k i Hk a v Ha. cbn [list_to_map foldr] in Hk. cbn in Hk.
    apply lookup_insert_Some in Hk as [[_ <-]|[_ [[_ <-]|[_ Hk]]%lookup_insert_Some]]; [..|discriminate Hk].
    all: cbn in Ha; apply lookup_insert_Some in Ha as [[_ <-]|[_ [[_ <-]|[_ Ha]]%lookup_insert_Some]]; [..|discriminate Ha];
      by constructor.
  - split; [exact Ht|]. rewrite Hp. vm_compute. reflexivity.
Defined.
