(* ===== verification/PubTime.v ===== *)
(** The Pub/Sub service's clock arithmetic: timestamps (services/pubsub/src/time_fmt.rs),
    delivery times (delivery.rs) and Go durations (duration.rs).

    The calendar is the one of SqsTime: [civil_from_days] and [days_from_civil] are
    the same functions in both services.  Timestamps are computed exactly;
    [days_from_civil_no_overflow] bounds the dates on which no [i64] operation
    overflows.  Additions that can overflow on a client's input are checked. *)

From S2P Require Import Prelude RustStr RustNum RustText SqsTime.
Local Open Scope string_scope.
Local Open Scope Z_scope.

(** ** time_fmt.rs *)

Definition rfc3339nano_from_unix (secs nanos : Z) : string := rfc3339_from_unix secs nanos.

(** [frac.bytes().take(9).fold(..) * 10^(9 - len)] *)
Definition frac_nanos (frac : string) : Z :=
  let first := str_take 9 frac in
  default 0 (digits_value 10 first 0) * 10 ^ (9 - Z.of_nat (String.length first)).

Definition parse_ymd (date : string) : option (Z * Z * Z) :=
  match split_char "-" date with
  | [y; m; d] => year ← parse_i64 y; month ← parse_u32 m; day ← parse_u32 d; Some (year, month, day)
  | _ => None
  end.
Definition parse_clock (hms : string) : option (Z * Z * Z) :=
  match split_char ":" hms with
  | [h; m; s] => hour ← parse_i64 h; minute ← parse_i64 m; second ← parse_i64 s; Some (hour, minute, second)
  | _ => None
  end.
Definition split_frac (time : string) : option (string * string) :=
  match split_once "." time with
  | Some (hms, frac) =>
      if is_empty frac || negb (str_all is_ascii_digit frac) then None else Some (hms, frac)
  | None => Some (time, "")
  end.
Definition parse_rfc3339 (value : string) : option (Z * Z) :=
  s ← strip_suffix "Z" value;
  '(date, time) ← split_once "T" s;
  date ← parse_ymd date;
  '(hms, frac) ← split_frac time;
  hms ← parse_clock hms;
  Some (civil_secs date hms, frac_nanos frac).

(** ** delivery.rs *)

Definition delivery_is_zero (value : string) : bool := is_empty value || str_eqb value ZERO_TIME.
Definition unix_secs (value : string) : Z :=
  if delivery_is_zero value then i64_min
  else match parse_rfc3339 value with Some (s, _) => s | None => i64_min end.
Definition after (value : string) (now_secs : Z) : bool :=
  negb (delivery_is_zero value) && (now_secs <? unix_secs value).
Definition plus_seconds `{Build} {E} (now_secs seconds : Z) : result E string :=
  t ← checked_i64 (now_secs + seconds); Ok (rfc3339nano_from_unix t 0).

(** ** duration.rs *)

(** The bytes up to the first that is not [p], and the rest. *)
Fixpoint span (p : ascii -> bool) (s : string) : string * string :=
  match s with
  | EmptyString => (EmptyString, EmptyString)
  | String c r => if p c then let '(a, b) := span p r in (String c a, b) else (EmptyString, s)
  end.

Definition micro_sign : string := bytes_str [194; 181].
Definition unit_nanos (unit : string) : option Z :=
  if str_eqb unit "ns" then Some 1
  else if str_eqb unit "us" || str_eqb unit (micro_sign +:+ "s") then Some 1000
  else if str_eqb unit "ms" then Some 1000000
  else if str_eqb unit "s" then Some 1000000000
  else if str_eqb unit "m" then Some 60000000000
  else if str_eqb unit "h" then Some 3600000000000
  else None.

(** [checked_mul] and the like. *)
Definition ck_i128 (z : Z) : option Z := if in_i128 z then Some z else None.

(** The whole part, the digits after a point, whether any digit was seen, the rest. *)
Definition segment_number (s : string) : string * string * string :=
  let '(int_digits, r) := span is_ascii_digit s in
  match r with
  | String "." r' => let '(frac_digits, r'') := span is_ascii_digit r' in (int_digits, frac_digits, r'')
  | _ => (int_digits, "", r)
  end.
Definition segment_nanos (int_digits frac_digits : string) (unit_ns : Z) : option Z :=
  int_val ← (if is_empty int_digits then Some 0 else parse_i128 int_digits);
  segment ← ck_i128 (int_val * unit_ns);
  if is_empty frac_digits then Some segment
  else
    frac_val ← parse_i128 frac_digits;
    scale ← ck_i128 (10 ^ wrap_u 32 (str_len frac_digits));
    part ← ck_i128 (frac_val * unit_ns);
    ck_i128 (segment + part /t scale).
(** The loop [while i < bytes.len()]; a round that goes on consumes its unit, so the
    length of the string is fuel enough. *)
Fixpoint duration_segments (fuel : nat) (s : string) (total : Z) : option Z :=
  match fuel with
  | O => Some total
  | S fuel' =>
      if is_empty s then Some total
      else
        let '(int_digits, frac_digits, r) := segment_number s in
        if is_empty int_digits && is_empty frac_digits then None
        else
          let '(unit, rest) := span (fun c => negb (is_ascii_digit c || Ascii.eqb c ".")) r in
          unit_ns ← unit_nanos unit;
          segment ← segment_nanos int_digits frac_digits unit_ns;
          total' ← ck_i128 (total + segment);
          duration_segments fuel' rest total'
  end.
Definition split_sign (s : string) : bool * string :=
  match s with
  | String c r => if Ascii.eqb c "+" || Ascii.eqb c "-" then (Ascii.eqb c "-", r) else (false, s)
  | EmptyString => (false, s)
  end.
Definition parse_go_duration (value : string) : option Z :=
  let s := trim value in
  if is_empty s then None
  else
    let '(neg, r) := split_sign s in
    if str_eqb r "0" then Some 0
    else if is_empty r then None
    else
      total ← duration_segments (S (String.length r)) r 0;
      Some (if neg then - total else total).
Definition valid_google_duration (value : string) : bool :=
  match parse_go_duration (trim value) with Some n => 0 <=? n | None => false end.

Example durations :
  parse_go_duration "3600s" = Some 3600000000000 /\ parse_go_duration "1.5h" = Some 5400000000000
  /\ parse_go_duration "-1h30m" = Some (-5400000000000) /\ parse_go_duration "10" = None
  /\ valid_google_duration "0" = true /\ valid_google_duration "-5s" = false
  /\ valid_google_duration "100ns" = true /\ valid_google_duration "1x" = false.
Proof. vm_compute. by split_and!. Qed.

(** ** Timestamps read back *)

Lemma digits_value_app b s t acc :
  digits_value b (s +:+ t) acc = d ← digits_value b s acc; digits_value b t d.
Proof.
  revert acc. induction s as [|c s IH]; intros acc; [done|]. rewrite str_app_cons. cbn [digits_value].
  destruct (to_digit b c); [apply IH|done].
Qed.
Lemma digits_value_repeat k v : digits_value 10 (str_repeat k "0") v = Some (v * 10 ^ Z.of_nat k).
Proof.
  revert v. induction k as [|k IH]; intros v; [simpl; f_equal; lia|].
  cbn [str_repeat digits_value]. change (to_digit 10 "0") with (Some 0). cbn [mbind option_bind].
  rewrite IH, Nat2Z.inj_succ, Z.pow_succ_r by lia. f_equal. lia.
Qed.

Lemma frac_nanos_show n : 0 < n < 10 ^ 9 ->
  frac_nanos (trim_end_by (Ascii.eqb "0") (show_pad 9 n)) = n.
Proof.
  intros Hn. set (s := show_pad 9 n). set (f := trim_end_by (Ascii.eqb "0") s).
  assert (s = pad_left 9 "0" (show_radix 10 n)) as Es.
  { subst s. unfold show_pad. destruct (Z.ltb_spec n 0); [lia|done]. }
  assert (String.length s = 9%nat) as Hlen by (rewrite Es; apply length_pad_left, length_show; lia).
  pose proof (trim_end_split "0" s) as Hs. fold f in Hs. rewrite Hlen in Hs.
  assert (String.length f <= 9)%nat as Hf.
  { apply (f_equal String.length) in Hs. rewrite str_length_app, Hlen in Hs. lia. }
  assert (digits_value 10 s 0 = Some n) as Hv by (rewrite Es; apply digits_value_pad; lia).
  rewrite Hs, digits_value_app in Hv. unfold frac_nanos. rewrite str_take_all by done.
  destruct (digits_value 10 f 0) as [v|]; [|done]. cbn [mbind option_bind default] in *.
  rewrite digits_value_repeat in Hv. injection Hv as Hv. rewrite <- Hv. simpl.
  by replace (9 - Z.of_nat (String.length f)) with (Z.of_nat (9 - String.length f)) by lia.
Qed.

Lemma frac_show_digits n : 0 < n < 10 ^ 9 ->
  let f := trim_end_by (Ascii.eqb "0") (show_pad 9 n) in is_empty f = false /\ str_all is_ascii_digit f = true.
Proof.
  intros Hn f. split.
  - destruct (is_empty f) eqn:E; [|done]. apply is_empty_true in E.
    pose proof (frac_nanos_show n Hn) as H. fold f in H. rewrite E in H. vm_compute in H. lia.
  - pose proof (trim_end_split "0" (show_pad 9 n)) as Hs. fold f in Hs.
    pose proof (str_all_show_pad 9 n ltac:(lia)) as Ha. rewrite Hs, str_all_app in Ha.
    by apply andb_true_iff in Ha as [? _].
Qed.

Lemma parse_ymd_show y m d :
  0 <= y <= i64_max -> 0 <= m <= 31 -> 0 <= d <= 31 -> parse_ymd (date_text y m d) = Some (y, m, d).
Proof.
  intros Hy Hm Hd. unfold parse_ymd, date_text. rewrite !str_app_cons, !str_app_nil_l.
  rewrite split_pads by (done || lia).
  unfold parse_i64, parse_u32. rewrite !parse_show_pad by (unfold i64_min, i64_max in *; lia). done.
Qed.
Lemma parse_clock_show h m s :
  0 <= h <= 60 -> 0 <= m <= 60 -> 0 <= s <= 60 -> parse_clock (clock_text h m s) = Some (h, m, s).
Proof.
  intros Hh Hm Hs. unfold parse_clock, clock_text. rewrite !str_app_cons, !str_app_nil_l.
  rewrite split_pads by (done || lia).
  unfold parse_i64. rewrite !parse_show_pad by (unfold i64_min, i64_max in *; lia). done.
Qed.

(** The instants printing and parsing are exact on: years 1 to 8.9 million. *)
Definition secs_ok (s : Z) : Prop := -719162 * 86400 < s <= 2 ^ 48.

Lemma parse_rfc3339_print secs nanos :
  secs_ok secs -> 0 <= nanos < 10 ^ 9 ->
  parse_rfc3339 (rfc3339nano_from_unix secs nanos) = Some (secs, nanos).
Proof.
  unfold secs_ok. intros Hs Hn. unfold rfc3339nano_from_unix.
  destruct (rfc3339_fields secs nanos ltac:(lia)) as (y & m & d & h & mi & se & -> & Hd & Hh & <-).
  unfold parse_rfc3339.
  replace (date_text y m d +:+ "T" +:+ (clock_text h mi se +:+ frac_text nanos) +:+ "Z")
    with ((date_text y m d +:+ char_str "T" +:+ (clock_text h mi se +:+ frac_text nanos)) +:+ "Z")
    by (by rewrite !str_app_assoc).
  rewrite strip_suffix_app. cbn [mbind option_bind]. change "T" with (char_str "T").
  rewrite split_once_char by (apply date_text_no; done || lia). cbn [mbind option_bind].
  rewrite parse_ymd_show by (unfold i64_max; lia). cbn [mbind option_bind].
  unfold split_frac, frac_text. change "." with (char_str ".").
  assert (str_all (negb ∘ Ascii.eqb ".") (clock_text h mi se) = true) as Hdot
    by (apply clock_text_no; done || lia).
  destruct (Z.ltb_spec 0 nanos).
  - rewrite split_once_char by done.
    destruct (frac_show_digits nanos ltac:(lia)) as [-> ->]. cbn [negb orb mbind option_bind].
    rewrite parse_clock_show by lia. cbn [mbind option_bind]. by rewrite frac_nanos_show by lia.
  - rewrite str_app_nil_r, split_once_char_None by done. cbn [mbind option_bind].
    rewrite parse_clock_show by lia. cbn [mbind option_bind]. repeat f_equal. vm_compute. lia.
Qed.

Lemma unix_secs_print secs : secs_ok secs -> unix_secs (rfc3339nano_from_unix secs 0) = secs.
Proof.
  intros Hs. pose proof (parse_rfc3339_print secs 0 Hs ltac:(lia)) as Hp. unfold unix_secs, delivery_is_zero.
  destruct (is_empty (rfc3339nano_from_unix secs 0)) eqn:E1.
  { destruct (rfc3339nano_from_unix secs 0); [|done]. by vm_compute in Hp. }
  destruct (str_eqb _ ZERO_TIME) eqn:E2.
  { apply str_eqb_true in E2. rewrite E2 in Hp.
    assert (Some (-62135596800, 0) = Some (secs, 0)) as [= H] by (rewrite <- Hp; vm_compute; reflexivity).
    unfold secs_ok in Hs. lia. }
  cbn [orb]. by rewrite Hp.
Qed.

(** A delivery time set [k] seconds ahead lies ahead exactly until then. *)
Lemma after_plus_seconds `{Build} {E} now k t now' :
  secs_ok (now + k) -> plus_seconds (E := E) now k = Ok t -> after t now' = (now' <? now + k).
Proof.
  intros Hok. unfold plus_seconds, checked_i64.
  assert (in_i64 (now + k) = true) as -> by (unfold in_i64, i64_min, i64_max, secs_ok in *; lia).
  cbn [mbind outcome_bind]. intros [= <-].
  pose proof (unix_secs_print _ Hok) as Hu. unfold after. rewrite Hu.
  destruct (delivery_is_zero _) eqn:Ez; [|done]. unfold unix_secs in Hu. rewrite Ez in Hu.
  unfold secs_ok, i64_min in *. lia.
Qed.
Lemma plus_seconds_ok `{Build} {E} now k :
  secs_ok (now + k) -> plus_seconds (E := E) now k = Ok (rfc3339nano_from_unix (now + k) 0).
Proof.
  intros Hok. unfold plus_seconds, checked_i64.
  by assert (in_i64 (now + k) = true) as -> by (unfold in_i64, i64_min, i64_max, secs_ok in *; lia).
Qed.
Lemma after_zero_time now : after ZERO_TIME now = false.
Proof. done. Qed.
Lemma after_empty now : after "" now = false.
Proof. done. Qed.

(** ** Durations *)

Definition head_not (p : ascii -> bool) (s : string) : Prop :=
  match s with String c _ => p c = false | EmptyString => True end.
Lemma span_app p a b : str_all p a = true -> head_not p b -> span p (a +:+ b) = (a, b).
Proof.
  intros Ha Hb. induction a as [|c a IH].
  - rewrite str_app_nil_l. destruct b as [|d b]; [done|]. simpl in *. by rewrite Hb.
  - rewrite str_app_cons. cbn [str_all span] in *. apply andb_true_iff in Ha as [-> Ha]. by rewrite IH.
Qed.

(** A duration as Go prints it: numbers with their units. *)
Definition duration_text (parts : list (Z * string)) : string :=
  foldr (fun e s => show_radix 10 e.1 +:+ e.2 +:+ s) EmptyString parts.
Definition duration_sum (parts : list (Z * string)) : Z :=
  foldr (fun e acc => e.1 * match unit_nanos e.2 with Some k => k | None => 0 end + acc) 0 parts.
Definition ascii_units : list string := ["ns"; "us"; "ms"; "s"; "m"; "h"].
Definition part_ok (e : Z * string) : Prop := 0 <= e.1 /\ e.2 ∈ ascii_units.

Lemma unit_ok u : u ∈ ascii_units ->
  (exists n, unit_nanos u = Some n /\ 1 <= n) /\ is_empty u = false
  /\ str_all (fun c => negb (is_ascii_digit c || Ascii.eqb c ".")) u = true /\ str_all graphic u = true
  /\ forall s, head_not (Ascii.eqb ".") (u +:+ s) /\ head_not is_ascii_digit (u +:+ s).
Proof.
  unfold ascii_units. rewrite !elem_of_cons, elem_of_nil.
  intros [-> | [-> | [-> | [-> | [-> | [-> | []]]]]]]; (split; [eexists; split; [reflexivity|lia]|]); done.
Qed.
Lemma duration_sum_nonneg parts : Forall part_ok parts -> 0 <= duration_sum parts.
Proof.
  induction 1 as [|[n u] parts [Hn Hu] _ IH]; [done|]. simpl in *.
  destruct (unit_ok u Hu) as [(k & -> & Hk) _]. simpl. nia.
Qed.

Lemma show_digits_head n t : 0 <= n -> exists c r,
  show_radix 10 n +:+ t = String c r /\ is_ascii_digit c = true.
Proof.
  intros Hn. pose proof (str_all_show n Hn) as Ha.
  destruct (show_radix 10 n) as [|c r] eqn:E; [by apply show_radix_nonempty in E|].
  cbn [str_all] in Ha. apply andb_true_iff in Ha as [Hc _].
  exists c, (r +:+ t). by rewrite str_app_cons.
Qed.
Lemma duration_text_head parts : Forall part_ok parts ->
  head_not (fun c => negb (is_ascii_digit c || Ascii.eqb c ".")) (duration_text parts).
Proof.
  destruct 1 as [|[n u] parts [Hn Hu] _]; [done|]. simpl in *.
  destruct (show_digits_head n (u +:+ duration_text parts) Hn) as (c & r & -> & Hc). simpl. by rewrite Hc.
Qed.

Lemma segment_number_show n rest :
  0 <= n -> head_not is_ascii_digit rest -> head_not (Ascii.eqb ".") rest ->
  segment_number (show_radix 10 n +:+ rest) = (show_radix 10 n, "", rest).
Proof.
  intros Hn Hd Hp. unfold segment_number. rewrite span_app by (done || by apply str_all_show).
  destruct rest as [|c r]; [done|]. simpl in Hp.
  by destruct c as [[] [] [] [] [] [] [] []].
Qed.

Lemma duration_segments_show parts : forall fuel total,
  Forall part_ok parts -> 0 <= total -> total + duration_sum parts <= i128_max ->
  (String.length (duration_text parts) < fuel)%nat ->
  duration_segments fuel (duration_text parts) total = Some (total + duration_sum parts).
Proof.
  induction parts as [|[n u] parts IH]; intros fuel total Hp Ht Hmax Hf.
  - destruct fuel; [simpl in Hf; lia|]. simpl. f_equal. lia.
  - apply Forall_cons in Hp as [[Hn Hu] Hp]. simpl in Hn, Hu. destruct fuel as [|fuel]; [lia|].
    pose proof (duration_sum_nonneg parts Hp) as H0.
    destruct (unit_ok u Hu) as ((k & Hk & Hk1) & Hne & Hall & _ & Hhead).
    cbn [duration_text foldr fst snd duration_sum] in *. fold (duration_text parts) in *.
    fold (duration_sum parts) in *. rewrite Hk in Hmax |- *. cbv beta iota in Hmax |- *.
    destruct (show_digits_head n (u +:+ duration_text parts) Hn) as (c & r & E & _).
    cbn [duration_segments]. rewrite E at 1. cbn [is_empty].
    destruct (Hhead (duration_text parts)) as [Hd1 Hd2]. rewrite segment_number_show by done.
    destruct (is_empty (show_radix 10 n)) eqn:Es; [apply is_empty_true in Es; by apply show_radix_nonempty in Es|].
    cbn [andb]. rewrite span_app by (done || by apply duration_text_head). rewrite Hk. cbn [mbind option_bind].
    unfold segment_nanos. rewrite Es. unfold parse_i128.
    assert (n <= n * k) by nia.
    rewrite (parse_radix_digits _ _ (show_radix 10 n) n);
      [|by apply str_all_show|by apply show_radix_nonempty|by apply digits_value_show; lia|unfold i128_min; lia].
    assert (forall z, 0 <= z <= i128_max -> ck_i128 z = Some z) as Hin.
    { intros z Hz. unfold ck_i128.
      by assert (in_i128 z = true) as -> by (unfold in_i128, i128_min, i128_max in *; lia). }
    cbn [mbind option_bind]. rewrite (Hin (n * k)) by lia. cbn [mbind option_bind is_empty].
    rewrite (Hin (total + n * k)) by lia.
    cbn [mbind option_bind]. rewrite IH; [f_equal; lia|done|lia|lia|].
    rewrite !str_length_app in Hf. destruct u; [done|]. simpl in Hf. lia.
Qed.

Lemma duration_text_graphic parts : Forall part_ok parts -> str_all graphic (duration_text parts) = true.
Proof.
  induction 1 as [|[n u] parts [Hn Hu] _ IH]; [done|]. cbn [duration_text foldr fst snd] in *.
  fold (duration_text parts). rewrite !str_all_app, IH.
  destruct (unit_ok u Hu) as (_ & _ & _ & -> & _). rewrite !andb_true_r.
  eapply str_all_impl; [|by apply str_all_show]. intros c. unfold graphic, is_ascii_digit, in_range.
  change (byte_of "0") with 48. change (byte_of "9") with 57.
  change (byte_of "!") with 33. change (byte_of "~") with 126. lia.
Qed.

Lemma parse_go_duration_text parts :
  parts <> [] -> Forall part_ok parts -> duration_sum parts <= i128_max ->
  parse_go_duration (duration_text parts) = Some (duration_sum parts).
Proof.
  intros Hne Hp Hmax. unfold parse_go_duration. rewrite trim_graphic by by apply duration_text_graphic.
  destruct parts as [|[n u] parts]; [done|]. pose proof Hp as Hp'. apply Forall_cons in Hp as [[Hn Hu] Hp].
  simpl in Hn, Hu. set (t := duration_text _) in *.
  destruct (show_digits_head n (u +:+ duration_text parts) Hn) as (c & r & E & Hc).
  change (show_radix 10 n +:+ u +:+ duration_text parts) with t in E.
  assert (split_sign t = (false, t)) as ->.
  { rewrite E. unfold split_sign. by destruct c as [[] [] [] [] [] [] [] []]. }
  assert (is_empty t = false) as -> by by rewrite E.
  destruct (str_eqb t "0") eqn:E0.
  { apply str_eqb_true in E0. exfalso.
    assert (String.length t = 1%nat) as Hl by by rewrite E0.
    subst t. cbn [duration_text foldr fst snd] in Hl. rewrite !str_length_app in Hl.
    destruct (unit_ok u Hu) as (_ & Hu' & _). destruct u; [done|]. simpl in Hl.
    destruct (show_radix 10 n) eqn:Er; [by apply show_radix_nonempty in Er|]. simpl in Hl. lia. }
  subst t. rewrite duration_segments_show; [done|done|lia|lia|lia].
Qed.
