(* ===== verification/PubModel.v ===== *)
(** The data of the Pub/Sub service, its state, and the storage of the state in one file
    or two (services/pubsub/src/model.rs, persistence.rs, errors.rs, server.rs). *)

From S2P Require Import Prelude RustStr RustNum Json PubTime.
Local Open Scope string_scope.
Local Open Scope Z_scope.

(** The data of the Pub/Sub service: the records of services/pubsub/src/model.rs and
    persistence.rs with their wire forms, the errors of errors.rs, the writers of
    wire_json.rs, and the server state of server.rs with the world it runs in.

    What is not the repository's code is a field of the class [Env]: the system
    clock, the file system calls and serde_json's readers; its writers are
    [SerdeJson] (compact) and [SerdePretty] (indented). *)

(** ** model.rs *)

Definition ZERO_TIME : string := SqsTime.ZERO_TIME.

Record Topic := mkTopic {
  t_name : string;
  t_labels : gmap string string;
  t_created_at : string;
  t_updated_at : string;
  t_message_retention_duration : string;
  t_schema_settings : option Value;
  t_kms_key_name : string }.

Record Subscription := mkSub {
  s_name : string;
  s_topic : string;
  s_detached : bool;
  s_labels : gmap string string;
  s_created_at : string;
  s_updated_at : string;
  s_ack_deadline_seconds : Z;
  s_enable_message_ordering : bool;
  s_enable_exactly_once_delivery : bool;
  s_retain_acked_messages : bool;
  s_message_retention_duration : string;
  s_expiration_policy : option Value;
  s_filter : string;
  s_dead_letter_policy : option Value;
  s_retry_policy : option Value;
  s_push_config : option Value }.

Record DeliveryRecord := mkDelivery {
  d_message_id : string;
  d_ack_id : string;
  d_lease_deadline : string;
  d_next_delivery_time : string;
  d_delivery_attempt : Z;
  d_acked : bool }.

Record Snapshot := mkSnapshot {
  sn_name : string;
  sn_topic : string;
  sn_subscription : string;
  sn_expire_time : string;
  sn_labels : gmap string string;
  sn_deliveries : list DeliveryRecord }.

Record SchemaRevision := mkRevision {
  rv_type : string;
  rv_definition : string;
  rv_revision_id : string;
  rv_revision_create_time : string }.

Record Schema := mkSchema {
  sc_name : string;
  sc_type : string;
  sc_definition : string;
  sc_revision_id : string;
  sc_revision_create_time : string;
  sc_revisions : list SchemaRevision }.

Record PubsubMessage := mkMessage {
  m_data : string;
  m_attributes : gmap string string;
  m_message_id : string;
  m_publish_time : string;
  m_ordering_key : string }.

#[export] Instance DeliveryRecord_eq_dec : EqDecision DeliveryRecord.
Proof. solve_decision. Defined.
#[export] Instance PubsubMessage_eq_dec : EqDecision PubsubMessage.
Proof. solve_decision. Defined.
#[export] Instance SchemaRevision_eq_dec : EqDecision SchemaRevision.
Proof. solve_decision. Defined.

(** [Default]; that of [DeliveryRecord] is written out in the source. *)
Definition default_topic : Topic := mkTopic "" ∅ "" "" "" None "".
Definition default_subscription : Subscription :=
  mkSub "" "" false ∅ "" "" 0 false false false "" None "" None None None.
Definition default_schema : Schema := mkSchema "" "" "" "" "" [].
Definition default_delivery (message_id : string) : DeliveryRecord :=
  mkDelivery message_id "" ZERO_TIME ZERO_TIME 0 false.

(** ** Wire forms: the [Serialize] derives *)

Definition labels_field (k : string) (m : gmap string string) : option (string * Value) :=
  skip_if (bool_decide (m = ∅)) k (map_value JString m).
Definition int_field (k : string) (n : Z) : option (string * Value) := skip_if (n =? 0) k (int_value n).
Definition bool_field (k : string) (b : bool) : option (string * Value) := skip_if (negb b) k (JBool b).
Definition value_field (k : string) (v : option Value) : option (string * Value) := opt_field k id v.

Definition topic_value (t : Topic) : Value :=
  struct_value [
    field "name" (JString (t_name t));
    labels_field "labels" (t_labels t);
    str_field "createdAt" (t_created_at t);
    str_field "updatedAt" (t_updated_at t);
    str_field "messageRetentionDuration" (t_message_retention_duration t);
    value_field "schemaSettings" (t_schema_settings t);
    str_field "kmsKeyName" (t_kms_key_name t)].
Definition subscription_value (s : Subscription) : Value :=
  struct_value [
    field "name" (JString (s_name s));
    field "topic" (JString (s_topic s));
    bool_field "detached" (s_detached s);
    labels_field "labels" (s_labels s);
    str_field "createdAt" (s_created_at s);
    str_field "updatedAt" (s_updated_at s);
    int_field "ackDeadlineSeconds" (s_ack_deadline_seconds s);
    bool_field "enableMessageOrdering" (s_enable_message_ordering s);
    bool_field "enableExactlyOnceDelivery" (s_enable_exactly_once_delivery s);
    bool_field "retainAckedMessages" (s_retain_acked_messages s);
    str_field "messageRetentionDuration" (s_message_retention_duration s);
    value_field "expirationPolicy" (s_expiration_policy s);
    str_field "filter" (s_filter s);
    value_field "deadLetterPolicy" (s_dead_letter_policy s);
    value_field "retryPolicy" (s_retry_policy s);
    value_field "pushConfig" (s_push_config s)].
Definition delivery_value (d : DeliveryRecord) : Value :=
  struct_value [
    field "MessageID" (JString (d_message_id d));
    field "AckID" (JString (d_ack_id d));
    field "LeaseDeadline" (JString (d_lease_deadline d));
    field "NextDeliveryTime" (JString (d_next_delivery_time d));
    field "DeliveryAttempt" (int_value (d_delivery_attempt d));
    field "Acked" (JBool (d_acked d))].
Definition snapshot_value (s : Snapshot) : Value :=
  struct_value [
    field "name" (JString (sn_name s));
    str_field "topic" (sn_topic s);
    str_field "subscription" (sn_subscription s);
    str_field "expireTime" (sn_expire_time s);
    labels_field "labels" (sn_labels s);
    list_field "deliveries" delivery_value (sn_deliveries s)].
Definition revision_value (r : SchemaRevision) : Value :=
  struct_value [
    str_field "type" (rv_type r);
    str_field "definition" (rv_definition r);
    str_field "revisionId" (rv_revision_id r);
    str_field "revisionCreateTime" (rv_revision_create_time r)].
Definition schema_value (s : Schema) : Value :=
  struct_value [
    field "name" (JString (sc_name s));
    str_field "type" (sc_type s);
    str_field "definition" (sc_definition s);
    str_field "revisionId" (sc_revision_id s);
    str_field "revisionCreateTime" (sc_revision_create_time s);
    list_field "revisions" revision_value (sc_revisions s)].
Definition message_value (m : PubsubMessage) : Value :=
  struct_value [
    str_field "data" (m_data m);
    labels_field "attributes" (m_attributes m);
    field "messageId" (JString (m_message_id m));
    field "publishTime" (JString (m_publish_time m));
    str_field "orderingKey" (m_ordering_key m)].

(** ** persistence.rs *)

Record ResourceFile := mkResourceFile {
  rf_topics : list Topic;
  rf_subscriptions : list Subscription;
  rf_snapshots : list Snapshot;
  rf_schemas : list Schema;
  rf_messages : list PubsubMessage;
  rf_deliveries : gmap string (list DeliveryRecord);
  rf_next_message_id : Z;
  rf_next_ack_id : Z }.
Record MessageStateFile := mkMessageFile {
  mf_messages : list PubsubMessage;
  mf_deliveries : gmap string (list DeliveryRecord);
  mf_next_message_id : Z;
  mf_next_ack_id : Z }.

Definition deliveries_value (m : gmap string (list DeliveryRecord)) : Value :=
  map_value (fun l => JArray (map delivery_value l)) m.
Definition resource_file_value (f : ResourceFile) : Value :=
  struct_value [
    field "topics" (JArray (map topic_value (rf_topics f)));
    field "subscriptions" (JArray (map subscription_value (rf_subscriptions f)));
    list_field "snapshots" snapshot_value (rf_snapshots f);
    list_field "schemas" schema_value (rf_schemas f);
    list_field "messages" message_value (rf_messages f);
    skip_if (bool_decide (rf_deliveries f = ∅)) "deliveries" (deliveries_value (rf_deliveries f));
    int_field "nextMessageId" (rf_next_message_id f);
    int_field "nextAckId" (rf_next_ack_id f)].
Definition message_file_value (f : MessageStateFile) : Value :=
  struct_value [
    list_field "messages" message_value (mf_messages f);
    skip_if (bool_decide (mf_deliveries f = ∅)) "deliveries" (deliveries_value (mf_deliveries f));
    int_field "nextMessageId" (mf_next_message_id f);
    int_field "nextAckId" (mf_next_ack_id f)].

(** ** wire_json.rs *)

(** [serde_json::to_vec_pretty] *)
Class SerdePretty := { json_to_vec_pretty : Value -> string }.
Definition to_vec_indent `{SerdePretty} (v : Value) : string := html_escape (json_to_vec_pretty v).
Definition resource_file_bytes `{SerdePretty} (f : ResourceFile) : string := to_vec_indent (resource_file_value f).
Definition message_file_bytes `{SerdePretty} (f : MessageStateFile) : string := to_vec_indent (message_file_value f).

(** ** errors.rs *)

Record ApiError := mkError { e_status : Z; e_code : string; e_message : string }.
Definition api_error (status : Z) (code message : string) : ApiError := mkError status code message.
Definition invalid_argument (message : string) : ApiError := api_error 400 "INVALID_ARGUMENT" message.
Definition not_found (message : string) : ApiError := api_error 404 "NOT_FOUND" message.
Definition already_exists (message : string) : ApiError := api_error 409 "ALREADY_EXISTS" message.
Definition failed_precondition (message : string) : ApiError := api_error 400 "FAILED_PRECONDITION" message.
Definition internal (message : string) : ApiError := api_error 500 "INTERNAL" message.
Definition error_body (e : ApiError) : Value :=
  json1 "error" (JObject [("code", int_value (e_status e)); ("message", JString (e_message e));
                          ("status", JString (e_code e))]).
Definition body_bytes `{SerdeJson} (e : ApiError) : string := to_vec (error_body e).

(** ** Server state (server.rs) *)

Record Config := mkConfig {
  cfg_project : string;
  cfg_auth_mode : string;
  cfg_bearer_token : string;
  storage_path : string;
  message_storage_path : string;
  cfg_default_ack_deadline_seconds : Z;
  message_retention_seconds : Z;
  cfg_max_ack_deadline_seconds : Z;
  cfg_max_pull_messages : Z;
  cfg_streaming_pull_disabled : bool }.

Definition DEFAULT_PROJECT : string := "devcloud".
Definition cfg_project_or_default (c : Config) : string :=
  if is_empty (cfg_project c) then DEFAULT_PROJECT else cfg_project c.
(** [default_ack_deadline] and its copy [default_ack_deadline_cfg]. *)
Definition default_ack_deadline (c : Config) : Z :=
  if 0 <? cfg_default_ack_deadline_seconds c then cfg_default_ack_deadline_seconds c else 10.
Definition max_ack_deadline (c : Config) : Z :=
  if 0 <? cfg_max_ack_deadline_seconds c then cfg_max_ack_deadline_seconds c else 600.
Definition max_pull_messages (c : Config) : Z :=
  if 0 <? cfg_max_pull_messages c then cfg_max_pull_messages c else 1000.

Abbreviation Deliveries := (gmap string (list DeliveryRecord)).

Record Server := mkServer {
  config : Config;
  topics : gmap string Topic;
  subscriptions : gmap string Subscription;
  snapshots : gmap string Snapshot;
  schemas : gmap string Schema;
  messages : gmap string PubsubMessage;
  deliveries : Deliveries;
  next_message_id : Z;
  next_ack_id : Z;
  load_err : option string;
  fixed_now : option string;
  resource_dirty : bool;
  messages_dirty : bool }.

Definition set_topics (v : gmap string Topic) (s : Server) : Server :=
  mkServer (config s) v (subscriptions s) (snapshots s) (schemas s) (messages s) (deliveries s)
    (next_message_id s) (next_ack_id s) (load_err s) (fixed_now s) (resource_dirty s) (messages_dirty s).
Definition set_subscriptions (v : gmap string Subscription) (s : Server) : Server :=
  mkServer (config s) (topics s) v (snapshots s) (schemas s) (messages s) (deliveries s)
    (next_message_id s) (next_ack_id s) (load_err s) (fixed_now s) (resource_dirty s) (messages_dirty s).
Definition set_snapshots (v : gmap string Snapshot) (s : Server) : Server :=
  mkServer (config s) (topics s) (subscriptions s) v (schemas s) (messages s) (deliveries s)
    (next_message_id s) (next_ack_id s) (load_err s) (fixed_now s) (resource_dirty s) (messages_dirty s).
Definition set_schemas (v : gmap string Schema) (s : Server) : Server :=
  mkServer (config s) (topics s) (subscriptions s) (snapshots s) v (messages s) (deliveries s)
    (next_message_id s) (next_ack_id s) (load_err s) (fixed_now s) (resource_dirty s) (messages_dirty s).
Definition set_messages (v : gmap string PubsubMessage) (s : Server) : Server :=
  mkServer (config s) (topics s) (subscriptions s) (snapshots s) (schemas s) v (deliveries s)
    (next_message_id s) (next_ack_id s) (load_err s) (fixed_now s) (resource_dirty s) (messages_dirty s).
Definition set_deliveries (v : Deliveries) (s : Server) : Server :=
  mkServer (config s) (topics s) (subscriptions s) (snapshots s) (schemas s) (messages s) v
    (next_message_id s) (next_ack_id s) (load_err s) (fixed_now s) (resource_dirty s) (messages_dirty s).
Definition set_next_ids (m a : Z) (s : Server) : Server :=
  mkServer (config s) (topics s) (subscriptions s) (snapshots s) (schemas s) (messages s) (deliveries s)
    m a (load_err s) (fixed_now s) (resource_dirty s) (messages_dirty s).
Definition set_load_err (v : option string) (s : Server) : Server :=
  mkServer (config s) (topics s) (subscriptions s) (snapshots s) (schemas s) (messages s) (deliveries s)
    (next_message_id s) (next_ack_id s) v (fixed_now s) (resource_dirty s) (messages_dirty s).
Definition set_resource_dirty (v : bool) (s : Server) : Server :=
  mkServer (config s) (topics s) (subscriptions s) (snapshots s) (schemas s) (messages s) (deliveries s)
    (next_message_id s) (next_ack_id s) (load_err s) (fixed_now s) v (messages_dirty s).
Definition set_messages_dirty (v : bool) (s : Server) : Server :=
  mkServer (config s) (topics s) (subscriptions s) (snapshots s) (schemas s) (messages s) (deliveries s)
    (next_message_id s) (next_ack_id s) (load_err s) (fixed_now s) (resource_dirty s) v.
Definition set_next_message_id (v : Z) (s : Server) : Server := set_next_ids v (next_ack_id s) s.
Definition set_next_ack_id (v : Z) (s : Server) : Server := set_next_ids (next_message_id s) v s.

(** The server, the two state files ([resources.json], [pubsub.json]) and the
    number of system calls made. *)
Record World := mkWorld {
  server : Server; w_resources : option string; w_pubsub : option string; w_tick : nat }.
Definition on_server (f : Server -> Server) (w : World) : World :=
  mkWorld (f (server w)) (w_resources w) (w_pubsub w) (w_tick w).
Definition set_resources_file (v : option string) (w : World) : World :=
  mkWorld (server w) v (w_pubsub w) (w_tick w).
Definition set_pubsub_file (v : option string) (w : World) : World :=
  mkWorld (server w) (w_resources w) v (w_tick w).

Class Env := {
  env_build :: Build;
  (** [SystemTime::now()] since the epoch at the k-th system call: seconds and nanoseconds. *)
  sys_clock : nat -> Z * Z;
  (** The error of the k-th system call, if it is this call and fails. *)
  fs_create_dir_all : nat -> option string;
  fs_write : nat -> option string;
  fs_rename : nat -> option string;
  fs_read : nat -> option string;
  (** serde_json's readers. *)
  resource_from_slice : string -> ResourceFile + string;
  message_from_slice : string -> MessageStateFile + string;
  json_from_slice : string -> option Value;
  topic_from_value : Value -> option Topic;
  subscription_from_value : Value -> option Subscription;
  schema_from_value : Value -> option Schema }.

Definition Api : Type -> Type := ME ApiError World.

Section Access.
Context `{Env}.

Definition next_tick {E} : ME E World nat := fun w =>
  (Ok (w_tick w), mkWorld (server w) (w_resources w) (w_pubsub w) (S (w_tick w))).
Definition store_unavailable : ApiError := internal "pubsub resource store unavailable".
(** A file system call under [.map_err(|_| ApiError::internal(..))?]. *)
Definition fs_call (call : nat -> option string) : Api unit :=
  t ← next_tick;
  match call t with None => mret tt | Some _ => fail store_unavailable end.

Definition now : Api string :=
  s ← gets server;
  match fixed_now s with
  | Some n => mret n
  | None => t ← next_tick; let '(secs, nanos) := sys_clock t in mret (rfc3339nano_from_unix (wrap_s 64 secs) nanos)
  end.
Definition now_parts : Api (Z * Z) := n ← now; mret (default (0, 0) (parse_rfc3339 n)).
End Access.

(** [RestResponse] *)
Record RestResponse := mkResponse {
  r_status : Z; r_body : string; r_allow : option string; r_www_authenticate : bool }.
Definition ok_struct `{SerdeJson} (v : Value) : RestResponse := mkResponse 200 (to_vec v) None false.
Definition no_content : RestResponse := mkResponse 204 "" None false.

(** The Pub/Sub server's store (services/pubsub/src/server.rs): pruning of messages
    nobody refers to, retention, expiry of snapshots, the two state files and
    start-up. *)

(** ** References *)

(** [.values()] in key order. *)
Definition values {V} (m : gmap string V) : list V := (btree_iter m).*2.

(** A record that keeps its message: unacknowledged, or retained. *)
Definition holds_message (retain_acked : bool) (r : DeliveryRecord) : bool := negb (d_acked r && negb retain_acked).
Definition retains (s : Server) (sub : string) : bool :=
  match subscriptions s !! sub with Some sb => s_retain_acked_messages sb | None => false end.
Definition held_ids (s : Server) (sub : string) (rs : list DeliveryRecord) : list string :=
  map d_message_id (List.filter (holds_message (retains s sub)) rs).
Definition referenced (s : Server) : gset string :=
  list_to_set ((btree_iter (deliveries s) ≫= fun e => held_ids s e.1 e.2)
               ++ (values (snapshots s) ≫= fun sn => map d_message_id (sn_deliveries sn)))%list.

Definition cleanup_unreferenced_messages (s : Server) : Server :=
  if bool_decide (messages s = ∅) then s
  else
    let refs := referenced s in
    let kept := filter (fun e => e.1 ∈ refs) (messages s) in
    set_messages_dirty (messages_dirty s || negb (bool_decide (size kept = size (messages s)))) (set_messages kept s).

(** ** Expiry *)

Section Expiry.
Context `{Env}.

(** [i64] additions of a week stay far from the bounds on the dates a clock yields. *)
Definition snapshot_expire_time : Api string :=
  n ← now;
  mret match parse_rfc3339 n with
       | Some (secs, nanos) => rfc3339nano_from_unix (secs + 7 * 24 * 3600) nanos
       | None => ""
       end.
Definition snapshot_expired (sn : Snapshot) : Api bool :=
  let expire := trim (sn_expire_time sn) in
  if is_empty expire then mret false
  else match parse_rfc3339 expire with
       | None => mret false
       | Some (exp_secs, _) =>
           n ← now;
           mret match parse_rfc3339 n with Some (now_secs, _) => exp_secs <=? now_secs | None => false end
       end.
(** [.filter(|(_, snap)| self.snapshot_expired(snap))]: the clock is read for each. *)
Fixpoint expired_names (l : list (string * Snapshot)) : Api (list string) :=
  match l with
  | [] => mret []
  | (name, sn) :: r =>
      e ← snapshot_expired sn;
      rest ← expired_names r;
      mret (if (e : bool) then name :: rest else rest)
  end.
Definition remove_snapshots (names : list string) (s : Server) : Server :=
  set_snapshots (foldl (fun (m : gmap string Snapshot) n => delete n m) (snapshots s) names) s.
Definition cleanup_expired_snapshots : Api unit :=
  s ← gets server;
  expired ← expired_names (btree_iter (snapshots s));
  modify (on_server (fun s =>
    remove_snapshots expired (if bool_decide (expired = []) then s else set_resource_dirty true s))).

Definition NANOS : Z := 1000000000.
Definition subscription_message_retention_nanos (s : Server) (name : string) : Z :=
  let fallback := message_retention_seconds (config s) * NANOS in
  let positive d := match parse_go_duration d with Some n => if 0 <? n then n else fallback | None => fallback end in
  match subscriptions s !! name with
  | None => fallback
  | Some sub =>
      if is_empty (trim (s_message_retention_duration sub)) then
        match topics s !! s_topic sub with
        | None => fallback
        | Some t => if is_empty (trim (t_message_retention_duration t)) then fallback
                    else positive (t_message_retention_duration t)
        end
      else positive (s_message_retention_duration sub)
  end.
(** Published at or after [cutoff], in nanoseconds. *)
Definition published_since (ms : gmap string PubsubMessage) (cutoff : Z) (d : DeliveryRecord) : bool :=
  match ms !! d_message_id d with
  | Some m => match parse_rfc3339 (m_publish_time m) with
              | Some (secs, nanos) => cutoff <=? secs * NANOS + nanos
              | None => false
              end
  | None => false
  end.
(** The loop over the subscriptions with deliveries; each round sets its own entry. *)
Definition retained_records (s : Server) (now_secs : Z) (sub : string) (rs : list DeliveryRecord)
    : list DeliveryRecord :=
  List.filter (published_since (messages s) (now_secs * NANOS - subscription_message_retention_nanos s sub)) rs.
Definition retain_deliveries (now_secs : Z) (s : Server) : Server :=
  let changed := existsb (fun e => negb (length (retained_records s now_secs e.1 e.2) =? length e.2)%nat)
                   (btree_iter (deliveries s)) in
  set_messages_dirty (messages_dirty s || changed)
    (set_deliveries (map_imap (fun sub rs =>
       match retained_records s now_secs sub rs with [] => None | kept => Some kept end) (deliveries s)) s).
Definition retain_snapshot (s : Server) (now_secs : Z) (sn : Snapshot) : Snapshot :=
  mkSnapshot (sn_name sn) (sn_topic sn) (sn_subscription sn) (sn_expire_time sn) (sn_labels sn)
    (List.filter (published_since (messages s) (now_secs * NANOS - message_retention_seconds (config s) * NANOS))
       (sn_deliveries sn)).
Definition retain_snapshots (now_secs : Z) (s : Server) : Server :=
  let changed := existsb (fun e =>
      negb (length (sn_deliveries (retain_snapshot s now_secs e.2)) =? length (sn_deliveries e.2))%nat)
    (btree_iter (snapshots s)) in
  set_resource_dirty (resource_dirty s || changed)
    (set_snapshots (retain_snapshot s now_secs <$> snapshots s) s).
Definition cleanup_retained_messages (now_secs : Z) : Api unit :=
  cleanup_expired_snapshots;;
  modify (on_server (fun s =>
    if (message_retention_seconds (config s) <=? 0) || bool_decide (messages s = ∅) then s
    else cleanup_unreferenced_messages (retain_snapshots now_secs (retain_deliveries now_secs s)))).
End Expiry.

(** ** The state files *)

Definition nonempty_deliveries (d : Deliveries) : Deliveries := filter (fun e => e.2 <> []) d.
Definition resource_file (include_message_state : bool) (s : Server) : ResourceFile :=
  let file := mkResourceFile (values (topics s)) (values (subscriptions s)) (values (snapshots s)) (values (schemas s)) in
  if include_message_state
  then file (values (messages s)) (nonempty_deliveries (deliveries s)) (next_message_id s) (next_ack_id s)
  else file [] ∅ 0 0.
Definition message_file (s : Server) : MessageStateFile :=
  mkMessageFile (values (messages s)) (nonempty_deliveries (deliveries s)) (next_message_id s) (next_ack_id s).

(** Message state lives in [resources.json]. *)
Definition single_file (c : Config) : bool := is_empty (message_storage_path c).
Definition in_memory (c : Config) : bool := is_empty (storage_path c) && is_empty (message_storage_path c).
Definition writes_resources (s : Server) : bool :=
  negb (is_empty (storage_path (config s)))
  && (resource_dirty s || (single_file (config s) && messages_dirty s)).
Definition writes_messages (s : Server) : bool := negb (single_file (config s)) && messages_dirty s.

Section Persistence.
Context `{Env, SerdePretty}.

(** [create_dir_all], then a temporary file renamed over the target. *)
Definition write_atomic (store : World -> World) : Api unit :=
  fs_call fs_create_dir_all;; fs_call fs_write;; fs_call fs_rename;; modify store.
Definition write_resource_file (s : Server) : Api unit :=
  write_atomic (set_resources_file (Some (resource_file_bytes (resource_file (single_file (config s)) s))));;
  modify (on_server (set_resource_dirty false)).
Definition write_message_file (s : Server) : Api unit :=
  write_atomic (set_pubsub_file (Some (message_file_bytes (message_file s))));;
  modify (on_server (set_messages_dirty false)).

Definition pruned (s : Server) : Server := if messages_dirty s then cleanup_unreferenced_messages s else s.
Definition persist : Api unit :=
  modify (on_server pruned);;
  s ← gets server;
  if in_memory (config s) then
    modify (on_server (fun s => set_messages_dirty false (set_resource_dirty false s)))
  else
    (if writes_resources s then write_resource_file s else mret tt);;
    (if writes_messages s then write_message_file s else mret tt).

(** [if let Err(err) = self.persist() { rollback; return Err(err); }]: every error of
    [persist] is [store_unavailable], which is also what the gRPC methods return. *)
Definition persist_or (rollback : Server -> Server) : Api unit :=
  r ← catch persist;
  match r with
  | inl _ => mret tt
  | inr e => modify (on_server rollback);; fail e
  end.

(** ** Start-up *)

(** [for t in file.topics { if !t.name.is_empty() { map.insert(t.name, t); } }] *)
Definition insert_named {V} (name : V -> string) (l : list V) (m : gmap string V) : gmap string V :=
  foldl (fun m v => if is_empty (name v) then m else <[name v := v]> m) m l.
Definition load_resources (f : ResourceFile) (s : Server) : Server :=
  set_schemas (insert_named sc_name (rf_schemas f) (schemas s))
    (set_snapshots (insert_named sn_name (rf_snapshots f) (snapshots s))
      (set_subscriptions (insert_named s_name (rf_subscriptions f) (subscriptions s))
        (set_topics (insert_named t_name (rf_topics f) (topics s)) s))).
(** The largest numeric id among the messages, and [next]. *)
Definition loaded_message_id (ms : list PubsubMessage) (next : Z) : Z :=
  foldl (fun n m => if is_empty (m_message_id m) then n
                    else match parse_u64 (m_message_id m) with Some id => if n <? id then id else n | None => n end)
    next ms.
Definition load_message_state (ms : list PubsubMessage) (ds : Deliveries) (next_message next_ack : Z) (s : Server) : Server :=
  let loaded := loaded_message_id ms (next_message_id s) in
  set_next_ids (if loaded <? next_message then next_message else loaded) next_ack
    (set_deliveries (foldl (fun m e => if is_empty e.1 then m else <[e.1 := e.2]> m) (deliveries s) (btree_iter ds))
      (set_messages (insert_named m_message_id ms (messages s)) s)).

(** The result of reading a file: absent, an error, or its content. *)
Definition read_file (file : World -> option string) : ME string World (option string) :=
  t ← next_tick;
  disk ← gets file;
  match disk with
  | None => mret None
  | Some data => match fs_read t with Some e => fail e | None => mret (Some data) end
  end.
Definition load : ME string World unit :=
  s ← gets server;
  let c := config s in
  (if is_empty (storage_path c) then mret tt
   else
     data ← read_file w_resources;
     match data with
     | None => mret tt
     | Some data =>
         f ← lift (of_result (resource_from_slice data));
         modify (on_server (fun s =>
           let s := load_resources f s in
           if single_file c
           then load_message_state (rf_messages f) (rf_deliveries f) (rf_next_message_id f) (rf_next_ack_id f) s
           else s))
     end);;
  if single_file c then mret tt
  else
    data ← read_file w_pubsub;
    match data with
    | None => mret tt
    | Some data =>
        f ← lift (of_result (message_from_slice data));
        modify (on_server (fun s =>
          load_message_state (mf_messages f) (mf_deliveries f) (mf_next_message_id f) (mf_next_ack_id f)
            (set_next_ids 0 (next_ack_id s) (set_deliveries ∅ (set_messages ∅ s)))))
    end.
Definition empty_server (c : Config) : Server := mkServer c ∅ ∅ ∅ ∅ ∅ ∅ 0 0 None None false false.
(** [Server::new], in place of the running server. *)
Definition new (c : Config) : ME string World unit :=
  modify (on_server (fun _ => empty_server c));;
  if in_memory c then mret tt
  else
    r ← catch load;
    match r with
    | inl _ => mret tt
    | inr e => modify (on_server (set_load_err (Some e)))
    end.
End Persistence.
