(* ===== verification/PubValidation.v ===== *)
(** The names, paths and checks of the Pub/Sub service (services/pubsub/src/paths.rs,
    validation.rs). *)

From S2P Require Import Prelude RustStr RustNum RustText Json PubTime PubModel.
Local Open Scope string_scope.
Local Open Scope Z_scope.

(** Resource names and request paths of the Pub/Sub service
    (services/pubsub/src/paths.rs). *)

(** ** Names *)

Definition id_char (c : ascii) : bool :=
  is_ascii_alphanumeric c || Ascii.eqb c "." || Ascii.eqb c "_" || Ascii.eqb c "~" || Ascii.eqb c "+"
  || Ascii.eqb c "%" || Ascii.eqb c "-".
Definition valid_resource_id (id : string) : bool :=
  match id with
  | EmptyString => false
  | String c r => (str_len id <=? 255) && is_ascii_alphanumeric c && str_all id_char r
  end.
Definition valid_project_id (id : string) : bool := valid_resource_id id.

Definition valid_full_name (collection name : string) : bool :=
  match split_char "/" name with
  | [a; p; c; id] => str_eqb a "projects" && str_eqb c collection && valid_project_id p && valid_resource_id id
  | _ => false
  end.
Definition valid_full_topic_name : string -> bool := valid_full_name "topics".
Definition valid_full_schema_name : string -> bool := valid_full_name "schemas".
Definition valid_full_subscription_name : string -> bool := valid_full_name "subscriptions".
Definition valid_full_snapshot_name : string -> bool := valid_full_name "snapshots".

Definition resource_name (collection project id : string) : string :=
  "projects/" +:+ project +:+ "/" +:+ collection +:+ "/" +:+ id.
Definition topic_name : string -> string -> string := resource_name "topics".
Definition subscription_name : string -> string -> string := resource_name "subscriptions".
Definition snapshot_name : string -> string -> string := resource_name "snapshots".
Definition schema_name : string -> string -> string := resource_name "schemas".

Definition resource_project (name : string) : string :=
  match split_char "/" name with
  | a :: p :: _ => if str_eqb a "projects" then p else ""
  | _ => ""
  end.

(** ** Request paths *)

Fixpoint percent_bytes (s : string) : option string :=
  match s with
  | EmptyString => Some EmptyString
  | String c r =>
      if Ascii.eqb c "%" then
        match r with
        | String a (String b r') =>
            hi ← hex_digit_value a; lo ← hex_digit_value b;
            rest ← percent_bytes r'; Some (String (of_byte (hi * 16 + lo)) rest)
        | _ => None
        end
      else rest ← percent_bytes r; Some (String c rest)
  end.
Definition percent_decode (input : string) : option string :=
  out ← percent_bytes input; if utf8_valid out then Some out else None.
Definition path_parts (path : string) : list string :=
  map (fun part => match percent_decode part with Some d => trim d | None => char_str nul end)
    (split_char "/" (trim_by (Ascii.eqb "/") path)).

(** [/v1/projects/<p>/<collection>] *)
Definition simple_collection (path collection : string) : option string :=
  match path_parts path with
  | [v; ps; p; c] =>
      if str_eqb v "v1" && str_eqb ps "projects" && str_eqb c collection && negb (is_empty p) then Some p else None
  | _ => None
  end.
Definition topics_collection (path : string) : option string := simple_collection path "topics".
Definition subscriptions_collection (path : string) : option string := simple_collection path "subscriptions".
Definition snapshots_collection (path : string) : option string := simple_collection path "snapshots".
Definition schemas_collection (path : string) : option string := simple_collection path "schemas".
Definition schemas_validate_message (path : string) : option string :=
  simple_collection path "schemas:validateMessage".

(** [/v1/projects/<p>/<collection>/<id>] *)
Definition leaf_name_parts (path collection : string) : option (string * string) :=
  match path_parts path with
  | [v; ps; p; c; id] =>
      if str_eqb v "v1" && str_eqb ps "projects" && str_eqb c collection && negb (is_empty p)
         && negb (is_empty id) && negb (contains ":" id)
      then Some (p, id) else None
  | _ => None
  end.
Definition topic_name_parts (path : string) : option (string * string) := leaf_name_parts path "topics".
Definition subscription_name_parts (path : string) : option (string * string) := leaf_name_parts path "subscriptions".
Definition snapshot_name_parts (path : string) : option (string * string) := leaf_name_parts path "snapshots".
Definition schema_name_parts (path : string) : option (string * string) := leaf_name_parts path "schemas".

(** [/v1/projects/<p>/<collection>/<id>:<action>] *)
Definition action_parts (path collection : string) : option (string * string * string) :=
  match path_parts path with
  | [v; ps; p; c; last] =>
      if str_eqb v "v1" && str_eqb ps "projects" && str_eqb c collection && negb (is_empty p) then
        '(id, action) ← split_once ":" last;
        if is_empty id || is_empty action then None else Some (p, id, action)
      else None
  | _ => None
  end.
Definition topic_action_parts (path : string) : option (string * string * string) := action_parts path "topics".
Definition subscription_action_parts (path : string) : option (string * string * string) :=
  action_parts path "subscriptions".

(** [/v1/projects/<p>/<collection>/<id>/<sub>] *)
Definition sub_collection_parts (path collection sub : string) : option (string * string) :=
  match path_parts path with
  | [v; ps; p; c; id; s] =>
      if str_eqb v "v1" && str_eqb ps "projects" && str_eqb c collection && str_eqb s sub
         && negb (is_empty p) && negb (is_empty id)
      then Some (p, id) else None
  | _ => None
  end.
Definition topic_subscriptions_parts (path : string) : option (string * string) :=
  sub_collection_parts path "topics" "subscriptions".
Definition topic_snapshots_parts (path : string) : option (string * string) :=
  sub_collection_parts path "topics" "snapshots".

Example paths :
  topic_name_parts "/v1/projects/dev/topics/orders" = Some ("dev", "orders")
  /\ topic_name_parts "/v1/projects/dev/topics/orders:publish" = None
  /\ topic_action_parts "/v1/projects/dev/topics/a%2Fb:publish" = Some ("dev", "a/b", "publish")
  /\ valid_resource_id "a.b_c~d+e%f-g" = true /\ valid_resource_id ".bad" = false
  /\ valid_full_topic_name "projects/dev/topics/orders" = true /\ resource_project "projects/dev/topics/x" = "dev".
Proof. vm_compute. by split_and!. Qed.

(** ** Lemmas *)

Lemma alphanumeric_id_char c : is_ascii_alphanumeric c = true -> id_char c = true.
Proof. unfold id_char. by intros ->. Qed.
Lemma valid_id_chars id : valid_resource_id id = true -> str_all id_char id = true /\ id <> "".
Proof.
  destruct id as [|c r]; [done|]. cbn [valid_resource_id str_all].
  intros [[_ Hc]%andb_true_iff ->]%andb_true_iff. by rewrite alphanumeric_id_char.
Qed.
Lemma id_no_char c id : id_char c = false -> str_all id_char id = true -> str_all (negb ∘ Ascii.eqb c) id = true.
Proof.
  intros Hc. apply str_all_impl. intros d Hd. unfold compose.
  destruct (Ascii.eqb_spec c d) as [<-|]; [congruence|done].
Qed.

Lemma split_resource_name collection p id :
  str_all (negb ∘ Ascii.eqb "/") collection = true ->
  valid_resource_id p = true -> valid_resource_id id = true ->
  split_char "/" (resource_name collection p id) = ["projects"; p; collection; id].
Proof.
  intros Hc [Hp _]%valid_id_chars [Hi _]%valid_id_chars. unfold resource_name, split_char.
  apply (id_no_char "/") in Hp; [|done]. apply (id_no_char "/") in Hi; [|done].
  change ("projects/" +:+ ?x) with ("projects" +:+ String "/" x).
  change ("/" +:+ ?x) with (String "/" x). change ("/" +:+ ?x) with (String "/" x).
  rewrite !split_by_app by (done || apply Ascii.eqb_refl). by rewrite split_by_none.
Qed.

(** A name made of valid identifiers is valid and gives them back. *)
Lemma resource_name_valid collection p id :
  str_all (negb ∘ Ascii.eqb "/") collection = true ->
  valid_resource_id p = true -> valid_resource_id id = true ->
  valid_full_name collection (resource_name collection p id) = true
  /\ resource_project (resource_name collection p id) = p.
Proof.
  intros Hc Hp Hi. unfold valid_full_name, resource_project. rewrite split_resource_name by done.
  unfold valid_project_id. rewrite Hp, Hi. unfold str_eqb. by rewrite !bool_decide_true.
Qed.
Lemma resource_name_inj collection p id p' id' :
  str_all (negb ∘ Ascii.eqb "/") collection = true ->
  valid_resource_id p = true -> valid_resource_id id = true ->
  valid_resource_id p' = true -> valid_resource_id id' = true ->
  resource_name collection p id = resource_name collection p' id' -> p = p' /\ id = id'.
Proof.
  intros Hc Hp Hi Hp' Hi' E. pose proof (split_resource_name collection p id Hc Hp Hi) as H1.
  rewrite E, split_resource_name in H1 by done. by injection H1 as -> ->.
Qed.

(** The Pub/Sub service's validators (services/pubsub/src/validation.rs): schema
    definitions, base64 message data, subscription filters and policies. *)

(** ** Base64 *)

Definition b64_val (c : ascii) : option Z :=
  if is_ascii_uppercase c then Some (byte_of c - 65)
  else if is_ascii_lowercase c then Some (byte_of c - 97 + 26)
  else if is_ascii_digit c then Some (byte_of c - 48 + 52)
  else if Ascii.eqb c "+" then Some 62
  else if Ascii.eqb c "/" then Some 63
  else None.

(** [acc = (acc << 6) | v] over the characters; [u32], at most 24 bits. *)
Fixpoint b64_acc (l : list ascii) (acc : Z) : option Z :=
  match l with
  | [] => Some acc
  | c :: r => v ← b64_val c; b64_acc r (Z.lor (Z.shiftl acc 6) v)
  end.
(** [(acc >> 16) as u8] and so on, the first [n] of them. *)
Definition b64_bytes (n : nat) (acc : Z) : list Z :=
  take n [wrap_u 8 (Z.shiftr acc 16); wrap_u 8 (Z.shiftr acc 8); wrap_u 8 acc].

Definition is_pad (c : ascii) : bool := Ascii.eqb c "=".
(** [chunk.iter().rev().take_while(|b| b == b'=').count()] *)
Definition trailing_pads (chunk : list ascii) : nat :=
  length ((fix go l := match l with c :: r => if is_pad c then c :: go r else [] | [] => [] end) (rev chunk)).
(** A padded chunk of four: an [=] before the trailing ones fails. *)
Definition padded_chunk (chunk : list ascii) : option (list Z) :=
  let pads := trailing_pads chunk in
  if (2 <? pads)%nat then None
  else
    acc ← b64_acc (take (4 - pads) chunk) 0;
    Some (b64_bytes (3 - pads) (Z.shiftl acc (6 * Z.of_nat pads))).
Definition raw_chunk (chunk : list ascii) : option (list Z) :=
  if (length chunk =? 1)%nat then None
  else
    acc ← b64_acc chunk 0;
    Some (b64_bytes (length chunk - 1) (Z.shiftl acc (6 * Z.of_nat (4 - length chunk)))).

(** [bytes.chunks(4)] *)
Fixpoint decode_chunks (decode : list ascii -> option (list Z)) (l : list ascii) : option (list Z) :=
  match l with
  | [] => Some []
  | a :: b :: c :: d :: r =>
      out ← decode [a; b; c; d]; rest ← decode_chunks decode r; Some (out ++ rest)%list
  | _ => decode l
  end.
Definition base64_decode (input : string) (padded : bool) : option (list Z) :=
  let bytes := String.list_ascii_of_string input in
  if padded then
    if (length bytes mod 4 =? 0)%nat then decode_chunks padded_chunk bytes else None
  else
    if existsb is_pad bytes then None else decode_chunks raw_chunk bytes.
Definition decode_base64_bytes (value : string) : option (list Z) :=
  match base64_decode value true with
  | Some l => Some l
  | None => base64_decode value false
  end.

(** ** Schemas *)

Definition valid_schema_type (t : string) : bool :=
  str_eqb t "" || str_eqb t "TYPE_UNSPECIFIED" || str_eqb t "PROTOCOL_BUFFER" || str_eqb t "AVRO".
Definition valid_schema_encoding (e : string) : bool :=
  str_eqb e "" || str_eqb e "ENCODING_UNSPECIFIED" || str_eqb e "JSON" || str_eqb e "BINARY".

Definition Checked : Type := result ApiError unit.
Definition check (ok : bool) (e : ApiError) : Checked := if ok then Ok tt else Err e.

Section Json.
Context `{Env}.
Definition validate_schema_definition (schema_type definition : string) : Checked :=
  if is_empty (trim definition) then Ok tt
  else if str_eqb schema_type "AVRO" then
    match json_from_slice definition with
    | Some v => check (is_object v) (invalid_argument "avro schema definition must be a json object")
    | None => Err (invalid_argument "avro schema definition must be valid json")
    end
  else Ok tt.
Definition valid_schema_message_data (message : list Z) (encoding : string) : bool :=
  match message with
  | [] => true
  | _ => if str_eqb encoding "JSON" then bool_decide (is_Some (json_from_slice (bytes_str message))) else true
  end.
End Json.

(** ** Filters *)

Definition filter_key_char (c : ascii) : bool :=
  is_ascii_alphanumeric c || Ascii.eqb c "_" || Ascii.eqb c "." || Ascii.eqb c "-".
Definition quote : string := char_str dquote.
(** The text between the quotes that must enclose [s], if it has no quote itself. *)
Definition unquoted (s : string) : option string :=
  v ← strip_prefix quote s; v ← strip_suffix quote v;
  if contains quote v then None else Some v.
Definition filter_op (s : string) : option (string * string) :=
  match strip_prefix "!=" s with
  | Some r => Some ("!=", r)
  | None => r ← strip_prefix "=" s; Some ("=", r)
  end.
Definition parse_comparison_filter (filter : string) : option (string * string * string) :=
  rest ← strip_prefix "attributes." filter;
  let '(key, after) := span filter_key_char rest in
  if is_empty key then None
  else
    '(op, after_op) ← filter_op (trim_start after);
    value ← unquoted (trim_start after_op);
    Some (key, op, value).
Definition parse_prefix_filter (filter : string) : option (string * string) :=
  inner ← strip_prefix "hasPrefix(" filter;
  inner ← strip_suffix ")" inner;
  inner ← strip_prefix "attributes." (trim inner);
  '(key_part, value_part) ← split_once "," inner;
  let key := trim key_part in
  if is_empty key || negb (str_all filter_key_char key) then None
  else value ← unquoted (trim value_part); Some (key, value).
Definition validate_subscription_filter (filter : string) : Checked :=
  let filter := trim filter in
  if is_empty filter then Ok tt
  else match parse_comparison_filter filter, parse_prefix_filter filter with
       | None, None => Err (invalid_argument "unsupported subscription filter")
       | _, _ => Ok tt
       end.

(** ** Policies *)

Definition object_of (v : option Value) : option (list (string * Value)) := v ≫= as_object.

Definition validate_subscription_metadata (retention : string) (expiration_policy : option Value) : Checked :=
  _ ← check (is_empty (trim retention) || valid_google_duration retention)
        (invalid_argument "messageRetentionDuration must be a non-negative duration");
  match object_of expiration_policy with
  | None | Some [] => Ok tt
  | Some policy =>
      ttl ← ok_or (invalid_argument "expirationPolicy.ttl is required") (obj_get "ttl" policy);
      match as_str ttl with
      | Some s =>
          if is_empty (trim s) then Err (invalid_argument "expirationPolicy.ttl must be a duration string")
          else check (valid_google_duration s)
                 (invalid_argument "expirationPolicy.ttl must be a non-negative duration")
      | None => Err (invalid_argument "expirationPolicy.ttl must be a duration string")
      end
  end.

(** [f as i64] for an integral double given by its bits; [None] for the others. *)
Definition saturate_i64 (z : Z) : Z := Z.max i64_min (Z.min i64_max z).
Definition integral_float (bits : Z) : option Z :=
  let negative := Z.testbit bits 63 in
  let exponent := Z.shiftr bits 52 mod 2 ^ 11 in
  let fraction := bits mod 2 ^ 52 in
  let mantissa := if exponent =? 0 then fraction else fraction + 2 ^ 52 in
  let shift := (if exponent =? 0 then 1 else exponent) - 1075 in
  let sign z := if negative then - z else z in
  if 0 <=? shift then Some (saturate_i64 (sign (mantissa * 2 ^ shift)))
  else if mantissa mod 2 ^ (- shift) =? 0 then Some (sign (mantissa / 2 ^ (- shift)))
  else None.
(** [n.as_i64()] *)
Definition as_i64 (n : number) : option Z :=
  match n with
  | PosInt z => if z <=? i64_max then Some z else None
  | NegInt z => Some z
  | Float _ => None
  end.
Definition as_i64_value (v : Value) : option Z := match v with JNumber n => as_i64 n | _ => None end.
(** An integer above [i64::MAX] is an integral double at least 2^63, which [as i64]
    saturates. *)
Definition dead_letter_max_delivery_attempts (policy : list (string * Value)) : option Z :=
  raw ← obj_get "maxDeliveryAttempts" policy;
  match raw with
  | JNumber n =>
      match as_i64 n, n with
      | Some i, _ => Some i
      | None, Float bits => integral_float bits
      | None, _ => Some i64_max
      end
  | _ => None
  end.

Definition validate_dead_letter_policy (policy : option Value) : Checked :=
  match object_of policy with
  | None | Some [] => Ok tt
  | Some policy =>
      topic ← ok_or (invalid_argument "deadLetterPolicy.deadLetterTopic is required") (obj_get "deadLetterTopic" policy);
      _ ← match as_str topic with
          | Some t => check (valid_full_topic_name t) (invalid_argument "invalid deadLetterPolicy.deadLetterTopic")
          | None => Err (invalid_argument "invalid deadLetterPolicy.deadLetterTopic")
          end;
      attempts ← ok_or (invalid_argument "deadLetterPolicy.maxDeliveryAttempts is required")
                   (dead_letter_max_delivery_attempts policy);
      check (in_width 5 100 attempts)
        (invalid_argument "deadLetterPolicy.maxDeliveryAttempts must be between 5 and 100")
  end.
Definition dead_letter_topic (policy : option Value) : string :=
  default "" (policy ≫= str_member "deadLetterTopic").

Definition retry_policy_duration (policy : list (string * Value)) (fld : string) : result ApiError (option Z) :=
  match obj_get fld policy with
  | None => Ok None
  | Some raw =>
      let bad_string := invalid_argument ("retryPolicy." +:+ fld +:+ " must be a duration string") in
      let bad_duration := invalid_argument ("retryPolicy." +:+ fld +:+ " must be a non-negative duration") in
      match as_str raw with
      | None => Err bad_string
      | Some s =>
          if is_empty (trim s) then Err bad_string
          else match parse_go_duration s with
               | Some n => if 0 <=? n then Ok (Some n) else Err bad_duration
               | None => Err bad_duration
               end
      end
  end.
Definition validate_retry_policy (policy : option Value) : Checked :=
  match object_of policy with
  | None | Some [] => Ok tt
  | Some policy =>
      min ← retry_policy_duration policy "minimumBackoff";
      max ← retry_policy_duration policy "maximumBackoff";
      match min, max with
      | Some a, Some b => check (a <=? b) (invalid_argument
          "retryPolicy.minimumBackoff must be less than or equal to retryPolicy.maximumBackoff")
      | _, _ => Ok tt
      end
  end.

(** [authority.rsplit_once('@')] *)
Definition rsplit_once_at (s : string) : option (string * string) :=
  '(a, b) ← split_once "@" (str_rev s); Some (str_rev b, str_rev a).
Definition bad_endpoint : ApiError := invalid_argument "pushConfig.pushEndpoint must be an http or https URL".
Definition validate_push_endpoint (endpoint : string) : Checked :=
  '(scheme, rest) ← ok_or bad_endpoint (split_once "://" endpoint);
  if negb (str_eqb scheme "http" || str_eqb scheme "https") then Err bad_endpoint
  else
    let '(authority, _) :=
      span (fun c => negb (Ascii.eqb c "/" || Ascii.eqb c "?" || Ascii.eqb c "#")) rest in
    let host := match rsplit_once_at authority with
                | Some (user, h) => if is_empty user then Ok h
                    else Err (invalid_argument "pushConfig.pushEndpoint must not include user info")
                | None => Ok authority
                end in
    h ← host; check (negb (is_empty h)) bad_endpoint.
Definition validate_push_config (config : option Value) : Checked :=
  match object_of config with
  | None | Some [] => Ok tt
  | Some config =>
      match obj_get "pushEndpoint" config with
      | None => Ok tt
      | Some raw =>
          match as_str raw with
          | Some s => if is_empty (trim s) then Err bad_endpoint else validate_push_endpoint s
          | None => Err bad_endpoint
          end
      end
  end.
