(* ===== verification/PubResources.v ===== *)
(** Topics, subscriptions, snapshots and schemas over REST
    (services/pubsub/src/server.rs): each handler validates, changes the maps,
    persists, and takes the change back when the state cannot be written. *)

From S2P Require Import Prelude RustStr RustNum RustText Json PubTime PubModel PubValidation.
Local Open Scope string_scope.
Local Open Scope Z_scope.

(** ** Shared pieces *)

(** [page_bounds]: start, end and next page token. *)
Definition page_bounds (total page_token page_size : Z) : Z * Z * string :=
  let start := Z.min (Z.max page_token 0) total in
  if (0 <? page_size) && (start + page_size <? total)
  then (start, start + page_size, show_Z (start + page_size))
  else (start, total, "").
(** [items[start..end]] *)
Definition slice {A} (start stop : Z) (l : list A) : list A := take (Z.to_nat (stop - start)) (drop (Z.to_nat start) l).
(** The envelopes of responses.rs. *)
Definition list_response (next : string) (k : string) (items : list Value) : Value :=
  struct_value [field "nextPageToken" (JString next); field k (JArray items)].

Definition validate_topic_metadata (t : Topic) : Checked :=
  _ ← check (is_empty (trim (t_message_retention_duration t)) || valid_google_duration (t_message_retention_duration t))
        (invalid_argument "messageRetentionDuration must be a non-negative duration");
  match object_of (t_schema_settings t) with
  | None | Some [] => Ok tt
  | Some settings =>
      schema ← ok_or (invalid_argument "schemaSettings.schema is required") (obj_get "schema" settings);
      _ ← match as_str schema with
          | Some n => check (valid_full_schema_name n) (invalid_argument "invalid schemaSettings.schema")
          | None => Err (invalid_argument "invalid schemaSettings.schema")
          end;
      match obj_get "encoding" settings with
      | None => Ok tt
      | Some enc => check (match as_str enc with Some e => valid_schema_encoding e | None => false end)
                      (invalid_argument "invalid schemaSettings.encoding")
      end
  end.

(** [normalize_any_map]: an empty object becomes [None]. *)
Definition normalize_any_map (v : option Value) : option Value :=
  match object_of v with None | Some [] => None | Some m => Some (JObject m) end.
(** [snapshot_public], [schema_public] *)
Definition snapshot_public (s : Snapshot) : Snapshot :=
  mkSnapshot (sn_name s) (sn_topic s) (sn_subscription s) (sn_expire_time s) (sn_labels s) [].
Definition schema_public (s : Schema) (view : string) : Schema :=
  if str_eqb view "BASIC"
  then mkSchema (sc_name s) (sc_type s) "" (sc_revision_id s) (sc_revision_create_time s) (sc_revisions s)
  else s.
Definition schema_is_empty (s : Schema) : bool :=
  is_empty (sc_name s) && is_empty (sc_type s) && is_empty (sc_definition s) && is_empty (sc_revision_id s)
  && is_empty (sc_revision_create_time s) && nil_b (sc_revisions s).
Definition dead_letter_topic_exists (s : Server) (policy : option Value) : bool :=
  let topic := dead_letter_topic policy in is_empty topic || bool_decide (is_Some (topics s !! topic)).

Definition with_updated_at (now : string) (s : Subscription) : Subscription :=
  mkSub (s_name s) (s_topic s) (s_detached s) (s_labels s) (s_created_at s) now (s_ack_deadline_seconds s)
    (s_enable_message_ordering s) (s_enable_exactly_once_delivery s) (s_retain_acked_messages s)
    (s_message_retention_duration s) (s_expiration_policy s) (s_filter s) (s_dead_letter_policy s)
    (s_retry_policy s) (s_push_config s).
Definition with_detached (s : Subscription) : Subscription :=
  mkSub (s_name s) (s_topic s) true (s_labels s) (s_created_at s) (s_updated_at s) (s_ack_deadline_seconds s)
    (s_enable_message_ordering s) (s_enable_exactly_once_delivery s) (s_retain_acked_messages s)
    (s_message_retention_duration s) (s_expiration_policy s) (s_filter s) (s_dead_letter_policy s)
    (s_retry_policy s) (s_push_config s).
Definition with_push_config (v : option Value) (s : Subscription) : Subscription :=
  mkSub (s_name s) (s_topic s) (s_detached s) (s_labels s) (s_created_at s) (s_updated_at s) (s_ack_deadline_seconds s)
    (s_enable_message_ordering s) (s_enable_exactly_once_delivery s) (s_retain_acked_messages s)
    (s_message_retention_duration s) (s_expiration_policy s) (s_filter s) (s_dead_letter_policy s)
    (s_retry_policy s) v.
Definition with_topic (topic : string) (s : Subscription) : Subscription :=
  mkSub (s_name s) topic (s_detached s) (s_labels s) (s_created_at s) (s_updated_at s) (s_ack_deadline_seconds s)
    (s_enable_message_ordering s) (s_enable_exactly_once_delivery s) (s_retain_acked_messages s)
    (s_message_retention_duration s) (s_expiration_policy s) (s_filter s) (s_dead_letter_policy s)
    (s_retry_policy s) (s_push_config s).

(** [map.insert(k, v)] when there is a value to put back, else [map.remove(&k)]. *)
Definition put_back {V} (k : string) (o : option V) (m : gmap string V) : gmap string V :=
  match o with Some v => <[k := v]> m | None => delete k m end.
(** [if let Some(v) = o { map.insert(k, v); }] *)
Definition put_some {V} (k : string) (o : option V) (m : gmap string V) : gmap string V :=
  match o with Some v => <[k := v]> m | None => m end.
Definition on_topics (f : gmap string Topic -> gmap string Topic) (s : Server) : Server := set_topics (f (topics s)) s.
Definition on_subscriptions (f : gmap string Subscription -> gmap string Subscription) (s : Server) : Server :=
  set_subscriptions (f (subscriptions s)) s.
Definition on_snapshots (f : gmap string Snapshot -> gmap string Snapshot) (s : Server) : Server :=
  set_snapshots (f (snapshots s)) s.
Definition on_schemas (f : gmap string Schema -> gmap string Schema) (s : Server) : Server := set_schemas (f (schemas s)) s.
Definition on_deliveries (f : Deliveries -> Deliveries) (s : Server) : Server := set_deliveries (f (deliveries s)) s.

(** The snapshots of a subscription: dropped with it, put back on a failure. *)
Definition snapshots_of (sub : string) (s : Server) : gmap string Snapshot :=
  filter (fun e => sn_subscription e.2 = sub) (snapshots s).
Definition drop_snapshots_of (sub : string) (s : Server) : Server :=
  on_snapshots (fun m => m ∖ snapshots_of sub s) s.

Section Resources.
Context `{Env, SerdeJson, SerdePretty}.

Definition change (f : Server -> Server) : Api unit := modify (on_server f).
Definition checked_names (kind : string) (project id : string) : Api unit :=
  guard_err (negb (valid_resource_id id)) (invalid_argument ("invalid " +:+ kind +:+ " name"));;
  guard_err (negb (valid_project_id project)) (invalid_argument "invalid project name").
(** The same two checks in the other order. *)
Definition checked_project_first (kind : string) (project id : string) : Api unit :=
  guard_err (negb (valid_project_id project)) (invalid_argument "invalid project name");;
  guard_err (negb (valid_resource_id id)) (invalid_argument ("invalid " +:+ kind +:+ " name")).
(** [let Some(v) = map.get(k).cloned() else { return Err(not_found(..)) }] *)
Definition found {V} (field : Server -> gmap string V) (k msg : string) : Api V :=
  s ← gets server; lift (ok_or (not_found msg) (field s !! k)).
Definition absent {V} (field : Server -> gmap string V) (k msg : string) : Api unit :=
  s ← gets server; guard_err (bool_decide (is_Some (field s !! k))) (already_exists msg).
Definition empty_object : RestResponse := ok_struct (JObject []).

(** ** Topics *)

Definition create_topic (project topic_id : string) (request : Topic) : Api RestResponse :=
  let name := topic_name project topic_id in
  checked_names "topic" project topic_id;;
  guard_err (negb (is_empty (t_name request)) && negb (str_eqb (t_name request) name))
    (invalid_argument "topic name does not match request path");;
  lift (validate_topic_metadata request);;
  n ← now;
  let topic := mkTopic name (t_labels request) n n (t_message_retention_duration request)
                 (t_schema_settings request) (t_kms_key_name request) in
  absent topics name "topic already exists";;
  change (set_resource_dirty true ∘ on_topics <[name := topic]>);;
  persist_or (on_topics (delete name));;
  mret (ok_struct (topic_value topic)).

Definition get_topic (project topic_id : string) : Api RestResponse :=
  checked_names "topic" project topic_id;;
  topic ← found topics (topic_name project topic_id) "topic not found";
  mret (ok_struct (topic_value topic)).

Definition patch_topic_field (patch : Topic) (t : Topic) (f : string) : Topic :=
  if str_eqb f "labels" then
    mkTopic (t_name t) (t_labels patch) (t_created_at t) (t_updated_at t) (t_message_retention_duration t)
      (t_schema_settings t) (t_kms_key_name t)
  else if str_eqb f "messageRetentionDuration" then
    mkTopic (t_name t) (t_labels t) (t_created_at t) (t_updated_at t) (t_message_retention_duration patch)
      (t_schema_settings t) (t_kms_key_name t)
  else if str_eqb f "schemaSettings" then
    mkTopic (t_name t) (t_labels t) (t_created_at t) (t_updated_at t) (t_message_retention_duration t)
      (t_schema_settings patch) (t_kms_key_name t)
  else if str_eqb f "kmsKeyName" then
    mkTopic (t_name t) (t_labels t) (t_created_at t) (t_updated_at t) (t_message_retention_duration t)
      (t_schema_settings t) (t_kms_key_name patch)
  else t.
Definition touch_topic (now : string) (t : Topic) : Topic :=
  mkTopic (t_name t) (t_labels t) (t_created_at t) now (t_message_retention_duration t) (t_schema_settings t)
    (t_kms_key_name t).
Definition patch_topic (project topic_id : string) (patch : Topic) (fields : list string) : Api RestResponse :=
  let name := topic_name project topic_id in
  checked_names "topic" project topic_id;;
  guard_err (negb (is_empty (t_name patch)) && negb (str_eqb (t_name patch) name))
    (invalid_argument "topic name does not match request path");;
  lift (validate_topic_metadata patch);;
  topic ← found topics name "topic not found";
  n ← now;
  let patched := touch_topic n (foldl (patch_topic_field patch) topic fields) in
  change (set_resource_dirty true ∘ on_topics <[name := patched]>);;
  persist_or (on_topics <[name := topic]>);;
  mret (ok_struct (topic_value patched)).

Definition attached_to (name : string) (sub : Subscription) : bool :=
  str_eqb (s_topic sub) name && negb (s_detached sub).
Definition delete_topic (project topic_id : string) : Api RestResponse :=
  let name := topic_name project topic_id in
  checked_names "topic" project topic_id;;
  topic ← found topics name "topic not found";
  s ← gets server;
  guard_err (existsb (attached_to name) (values (subscriptions s)))
    (failed_precondition "topic has attached subscriptions");;
  change (set_resource_dirty true ∘ on_topics (delete name));;
  persist_or (on_topics <[name := topic]>);;
  mret no_content.

(** The values of a project, a page of them. *)
Definition in_project {V} (name : V -> string) (project : string) (m : gmap string V) : list V :=
  List.filter (fun v => str_eqb (resource_project (name v)) project) (values m).
Definition page_response {V} (k : string) (f : V -> Value) (items : list V) (page_size page_token : Z) : RestResponse :=
  let '(start, stop, next) := page_bounds (Z.of_nat (length items)) page_token page_size in
  ok_struct (list_response next k (map f (slice start stop items))).
Definition list_topics (project : string) (page_size page_token : Z) : Api RestResponse :=
  guard_err (negb (valid_project_id project)) (invalid_argument "invalid project name");;
  s ← gets server;
  mret (page_response "topics" topic_value (in_project t_name project (topics s)) page_size page_token).

(** [names.sort()] *)
Definition sort_names (l : list string) : list string := merge_sort String.le l.
Definition list_topic_subscriptions (project topic_id : string) (page_size page_token : Z) : Api RestResponse :=
  let name := topic_name project topic_id in
  checked_project_first "topic" project topic_id;;
  found topics name "topic not found";;
  s ← gets server;
  let subs := sort_names (map s_name (List.filter (attached_to name) (values (subscriptions s)))) in
  mret (page_response "subscriptions" JString subs page_size page_token).
Definition list_topic_snapshots (project topic_id : string) (page_size page_token : Z) : Api RestResponse :=
  let name := topic_name project topic_id in
  checked_project_first "topic" project topic_id;;
  found topics name "topic not found";;
  s ← gets server;
  let snaps := sort_names (map sn_name (List.filter (fun sn => str_eqb (sn_topic sn) name) (values (snapshots s)))) in
  mret (page_response "snapshots" JString snaps page_size page_token).

(** ** Subscriptions *)

Definition checked_subscription (request : Subscription) : Checked :=
  _ ← validate_subscription_filter (s_filter request);
  _ ← validate_subscription_metadata (s_message_retention_duration request) (s_expiration_policy request);
  _ ← validate_dead_letter_policy (s_dead_letter_policy request);
  _ ← validate_retry_policy (s_retry_policy request);
  validate_push_config (s_push_config request).
(** [Subscription { name, ack_deadline_seconds, created_at, updated_at, ..request.clone() }] *)
Definition named_subscription (name : string) (ack : Z) (now : string) (r : Subscription) : Subscription :=
  mkSub name (s_topic r) (s_detached r) (s_labels r) now now ack
    (s_enable_message_ordering r) (s_enable_exactly_once_delivery r) (s_retain_acked_messages r)
    (s_message_retention_duration r) (s_expiration_policy r) (s_filter r) (s_dead_letter_policy r)
    (s_retry_policy r) (s_push_config r).
Definition create_subscription (project subscription_id : string) (request : Subscription) : Api RestResponse :=
  let name := subscription_name project subscription_id in
  checked_names "subscription" project subscription_id;;
  guard_err (is_empty (s_topic request)) (invalid_argument "subscription topic is required");;
  guard_err (negb (valid_full_topic_name (s_topic request))) (invalid_argument "invalid topic name");;
  guard_err (s_ack_deadline_seconds request <? 0) (invalid_argument "ackDeadlineSeconds must be non-negative");;
  s ← gets server;
  let ack := if s_ack_deadline_seconds request =? 0 then default_ack_deadline (config s)
             else s_ack_deadline_seconds request in
  guard_err (max_ack_deadline (config s) <? ack)
    (invalid_argument "ackDeadlineSeconds exceeds maxAckDeadlineSeconds");;
  lift (checked_subscription request);;
  absent subscriptions name "subscription already exists";;
  found topics (s_topic request) "topic not found";;
  guard_err (negb (dead_letter_topic_exists s (s_dead_letter_policy request))) (not_found "dead-letter topic not found");;
  n ← now;
  let sub := named_subscription name ack n request in
  change (set_resource_dirty true ∘ on_subscriptions <[name := sub]>);;
  persist_or (on_subscriptions (delete name));;
  mret (ok_struct (subscription_value sub)).

Definition get_subscription (project subscription_id : string) : Api RestResponse :=
  checked_names "subscription" project subscription_id;;
  sub ← found subscriptions (subscription_name project subscription_id) "subscription not found";
  mret (ok_struct (subscription_value sub)).

Definition patched_subscription (has : string -> bool) (default_ack : Z) (p s : Subscription) : Subscription :=
  mkSub (s_name s) (s_topic s) (s_detached s)
    (if has "labels" then s_labels p else s_labels s) (s_created_at s) (s_updated_at s)
    (if has "ackDeadlineSeconds"
     then (if s_ack_deadline_seconds p =? 0 then default_ack else s_ack_deadline_seconds p)
     else s_ack_deadline_seconds s)
    (if has "enableMessageOrdering" then s_enable_message_ordering p else s_enable_message_ordering s)
    (if has "enableExactlyOnceDelivery" then s_enable_exactly_once_delivery p else s_enable_exactly_once_delivery s)
    (if has "retainAckedMessages" then s_retain_acked_messages p else s_retain_acked_messages s)
    (if has "messageRetentionDuration" then s_message_retention_duration p else s_message_retention_duration s)
    (if has "expirationPolicy" then s_expiration_policy p else s_expiration_policy s)
    (if has "filter" then s_filter p else s_filter s)
    (if has "deadLetterPolicy" then s_dead_letter_policy p else s_dead_letter_policy s)
    (if has "retryPolicy" then s_retry_policy p else s_retry_policy s)
    (if has "pushConfig" then s_push_config p else s_push_config s).
Definition checked_patch (has : string -> bool) (p : Subscription) : Checked :=
  _ ← (if has "filter" then validate_subscription_filter (s_filter p) else Ok tt);
  _ ← (if has "messageRetentionDuration" || has "expirationPolicy"
       then validate_subscription_metadata (s_message_retention_duration p) (s_expiration_policy p) else Ok tt);
  _ ← (if has "deadLetterPolicy" then validate_dead_letter_policy (s_dead_letter_policy p) else Ok tt);
  _ ← (if has "retryPolicy" then validate_retry_policy (s_retry_policy p) else Ok tt);
  if has "pushConfig" then validate_push_config (s_push_config p) else Ok tt.
Definition patch_subscription (project subscription_id : string) (patch : Subscription) (fields : list string)
    : Api RestResponse :=
  let name := subscription_name project subscription_id in
  checked_names "subscription" project subscription_id;;
  guard_err (negb (is_empty (s_name patch)) && negb (str_eqb (s_name patch) name))
    (invalid_argument "subscription name does not match request path");;
  guard_err (s_ack_deadline_seconds patch <? 0) (invalid_argument "ackDeadlineSeconds must be non-negative");;
  s ← gets server;
  guard_err (max_ack_deadline (config s) <? s_ack_deadline_seconds patch)
    (invalid_argument "ackDeadlineSeconds exceeds maxAckDeadlineSeconds");;
  let has f := existsb (str_eqb f) fields in
  lift (checked_patch has patch);;
  sub ← found subscriptions name "subscription not found";
  guard_err (has "deadLetterPolicy" && negb (dead_letter_topic_exists s (s_dead_letter_policy patch)))
    (not_found "dead-letter topic not found");;
  guard_err (has "topic" && negb (is_empty (s_topic patch)) && negb (str_eqb (s_topic patch) (s_topic sub)))
    (failed_precondition "subscription topic cannot be changed");;
  n ← now;
  let patched := with_updated_at n (patched_subscription has (default_ack_deadline (config s)) patch sub) in
  change (set_resource_dirty true ∘ on_subscriptions <[name := patched]>);;
  persist_or (on_subscriptions <[name := sub]>);;
  mret (ok_struct (subscription_value patched)).

Definition both_dirty (s : Server) : Server := set_messages_dirty true (set_resource_dirty true s).
Definition delete_subscription (project subscription_id : string) : Api RestResponse :=
  let name := subscription_name project subscription_id in
  checked_names "subscription" project subscription_id;;
  sub ← found subscriptions name "subscription not found";
  s ← gets server;
  change (both_dirty ∘ on_deliveries (delete name) ∘ drop_snapshots_of name ∘ on_subscriptions (delete name));;
  persist_or (fun s' =>
    set_messages (messages s)
      (on_deliveries (put_some name (deliveries s !! name))
        (on_snapshots (fun m => snapshots_of name s ∪ m) (on_subscriptions <[name := sub]> s'))));;
  mret no_content.

Definition list_subscriptions (project : string) (page_size page_token : Z) : Api RestResponse :=
  guard_err (negb (valid_project_id project)) (invalid_argument "invalid project name");;
  s ← gets server;
  mret (page_response "subscriptions" subscription_value (in_project s_name project (subscriptions s))
          page_size page_token).

Definition modify_push_config (project subscription_id : string) (push_config : option Value) : Api RestResponse :=
  let name := subscription_name project subscription_id in
  checked_names "subscription" project subscription_id;;
  lift (validate_push_config push_config);;
  sub ← found subscriptions name "subscription not found";
  n ← now;
  change (set_resource_dirty true
          ∘ on_subscriptions <[name := with_updated_at n (with_push_config (normalize_any_map push_config) sub)]>);;
  persist_or (on_subscriptions <[name := sub]>);;
  mret empty_object.

Definition detach_subscription (project subscription_id : string) : Api RestResponse :=
  let name := subscription_name project subscription_id in
  checked_names "subscription" project subscription_id;;
  sub ← found subscriptions name "subscription not found";
  n ← now;
  s ← gets server;
  change (both_dirty ∘ on_subscriptions <[name := with_updated_at n (with_detached sub)]> ∘ drop_snapshots_of name);;
  persist_or (fun s' =>
    set_messages (messages s)
      (on_snapshots (fun m => snapshots_of name s ∪ m) (on_subscriptions <[name := sub]> s')));;
  mret empty_object.

(** ** Snapshots *)

Definition create_snapshot (project snapshot_id subscription : string) : Api RestResponse :=
  let name := snapshot_name project snapshot_id in
  checked_project_first "snapshot" project snapshot_id;;
  guard_err (negb (valid_full_subscription_name subscription)) (invalid_argument "invalid subscription name");;
  absent snapshots name "snapshot already exists";;
  sub ← found subscriptions subscription "subscription not found";
  expire ← snapshot_expire_time;
  let snapshot := mkSnapshot name (s_topic sub) (s_name sub) expire ∅ [] in
  change (set_resource_dirty true ∘ on_snapshots <[name := snapshot]>);;
  persist_or (on_snapshots (delete name));;
  mret (ok_struct (snapshot_value (snapshot_public snapshot))).

(** [match self.snapshots.get(name) { Some(s) if !self.snapshot_expired(s) => .. }] *)
Definition live_snapshot (name : string) : Api Snapshot :=
  snap ← found snapshots name "snapshot not found";
  e ← snapshot_expired snap;
  guard_err e (not_found "snapshot not found");;
  mret snap.
Definition get_snapshot (project snapshot_id : string) : Api RestResponse :=
  checked_project_first "snapshot" project snapshot_id;;
  snap ← live_snapshot (snapshot_name project snapshot_id);
  mret (ok_struct (snapshot_value (snapshot_public snap))).

Definition delete_snapshot (project snapshot_id : string) : Api RestResponse :=
  let name := snapshot_name project snapshot_id in
  checked_project_first "snapshot" project snapshot_id;;
  snap ← found snapshots name "snapshot not found";
  s ← gets server;
  change (both_dirty ∘ on_snapshots (delete name));;
  persist_or (fun s' => set_messages (messages s) (on_snapshots <[name := snap]> s'));;
  mret no_content.

(** [.filter(|s| resource_project(&s.name) == project && !self.snapshot_expired(s))] *)
Fixpoint live_snapshots (keep : Snapshot -> bool) (l : list Snapshot) : Api (list Snapshot) :=
  match l with
  | [] => mret []
  | sn :: r =>
      e ← (if keep sn then snapshot_expired sn else mret true);
      rest ← live_snapshots keep r;
      mret (if (e : bool) then rest else sn :: rest)
  end.
Definition list_snapshots (project : string) (page_size page_token : Z) : Api RestResponse :=
  guard_err (negb (valid_project_id project)) (invalid_argument "invalid project name");;
  s ← gets server;
  snaps ← live_snapshots (fun sn => str_eqb (resource_project (sn_name sn)) project) (values (snapshots s));
  mret (page_response "snapshots" (fun sn => snapshot_value (snapshot_public sn)) snaps page_size page_token).

(** ** Schemas *)

Definition create_schema (project schema_id : string) (request : Schema) : Api RestResponse :=
  guard_err (negb (valid_project_id project)) (invalid_argument "invalid project name");;
  guard_err (is_empty (trim schema_id)) (invalid_argument "schemaId is required");;
  guard_err (negb (valid_resource_id schema_id)) (invalid_argument "invalid schema name");;
  let name := schema_name project schema_id in
  guard_err (negb (is_empty (sc_name request)) && negb (str_eqb (sc_name request) name))
    (invalid_argument "schema name does not match request path");;
  guard_err (negb (is_empty (sc_type request)) && negb (valid_schema_type (sc_type request)))
    (invalid_argument "invalid schema type");;
  lift (validate_schema_definition (sc_type request) (sc_definition request));;
  absent schemas name "schema already exists";;
  let schema := mkSchema name (sc_type request) (sc_definition request)
                  (if is_empty (sc_revision_id request) then "1" else sc_revision_id request)
                  (sc_revision_create_time request) (sc_revisions request) in
  change (set_resource_dirty true ∘ on_schemas <[name := schema]>);;
  persist_or (on_schemas (delete name));;
  mret (ok_struct (schema_value schema)).

Definition get_schema (project schema_id view : string) : Api RestResponse :=
  checked_project_first "schema" project schema_id;;
  schema ← found schemas (schema_name project schema_id) "schema not found";
  mret (ok_struct (schema_value (schema_public schema view))).

Definition delete_schema (project schema_id : string) : Api RestResponse :=
  let name := schema_name project schema_id in
  checked_project_first "schema" project schema_id;;
  schema ← found schemas name "schema not found";
  change (set_resource_dirty true ∘ on_schemas (delete name));;
  persist_or (on_schemas <[name := schema]>);;
  mret no_content.

Definition list_schemas (project view : string) (page_size page_token : Z) : Api RestResponse :=
  guard_err (negb (valid_project_id project)) (invalid_argument "invalid project name");;
  s ← gets server;
  mret (page_response "schemas" (fun sc => schema_value (schema_public sc view))
          (in_project sc_name project (schemas s)) page_size page_token).

Definition str_or_empty (k : string) (v : Value) : string := default "" (str_member k v).
Definition checked_schema_project (project name : string) : Api unit :=
  guard_err (negb (valid_full_schema_name name)) (invalid_argument "invalid schema name");;
  guard_err (negb (str_eqb (resource_project name) project))
    (failed_precondition "schema belongs to a different project").
Definition checked_message (data encoding : string) : Checked :=
  if is_empty data then Ok tt
  else
    decoded ← ok_or (invalid_argument "message must be base64 encoded") (decode_base64_bytes data);
    check (valid_schema_message_data decoded encoding) (invalid_argument "message is invalid for schema encoding").
Definition validate_message (project : string) (request : Value) : Api RestResponse :=
  guard_err (negb (valid_project_id project)) (invalid_argument "invalid project name");;
  let name := str_or_empty "name" request in
  let inline := default default_schema (member "schema" request ≫= schema_from_value) in
  let has_inline := negb (schema_is_empty inline) in
  let encoding := str_or_empty "encoding" request in
  guard_err (is_empty name && negb has_inline) (invalid_argument "schema name or inline schema is required");;
  guard_err (negb (is_empty name) && has_inline)
    (invalid_argument "only one of schema name or inline schema may be set");;
  guard_err (negb (is_empty encoding) && negb (valid_schema_encoding encoding))
    (invalid_argument "invalid schema encoding");;
  lift (checked_message (str_or_empty "message" request) encoding);;
  if is_empty name then
    (if is_empty (sc_name inline) then mret tt else checked_schema_project project (sc_name inline));;
    guard_err (negb (valid_schema_type (sc_type inline))) (invalid_argument "invalid schema type");;
    lift (validate_schema_definition (sc_type inline) (sc_definition inline));;
    mret empty_object
  else
    checked_schema_project project name;;
    found schemas name "schema not found";;
    mret empty_object.

(** ** Access control *)

(** [iam_action] *)
Definition empty_policy : Value := JObject [("bindings", JArray []); ("version", int_value 1)].
Definition iam_action (action : string) (body : Value) : Api RestResponse :=
  if str_eqb action "getIamPolicy" then mret (ok_struct empty_policy)
  else if str_eqb action "setIamPolicy" then
    mret (ok_struct match member "policy" body with
                    | Some p => if is_object p then p else empty_policy
                    | None => empty_policy
                    end)
  else if str_eqb action "testIamPermissions" then
    mret (ok_struct (json1 "permissions" (match arr_member "permissions" body with
                                          | Some l => JArray l
                                          | None => JArray []
                                          end)))
  else fail (not_found "not found").
Definition topic_iam (project topic_id action : string) (body : Value) : Api RestResponse :=
  checked_project_first "topic" project topic_id;;
  found topics (topic_name project topic_id) "topic not found";;
  iam_action action body.
Definition subscription_iam (project subscription_id action : string) (body : Value) : Api RestResponse :=
  checked_names "subscription" project subscription_id;;
  found subscriptions (subscription_name project subscription_id) "subscription not found";;
  iam_action action body.
End Resources.
