(* ===== verification/PubGrpc.v ===== *)
(** Topics, subscriptions, snapshots and schemas over gRPC (the [grpc_*] methods of
    services/pubsub/src/server.rs).  They share the state with the REST handlers and
    differ from them: masks instead of field lists, generated names, deleted topics
    that orphan their subscriptions, snapshots that capture deliveries; and several
    of them do not take their change back when the state cannot be written. *)

From S2P Require Import Prelude RustStr RustNum RustText Json PubTime PubModel PubValidation PubResources.
Local Open Scope string_scope.
Local Open Scope Z_scope.

(** ** Masks and pages *)

Definition grpc_page_bounds (total page_size : Z) (page_token : string) : result ApiError (Z * Z * string) :=
  start ← (if is_empty page_token then Ok 0
           else match parse_i64 page_token with
                | Some p => if (0 <=? p) && (p <=? total) then Ok p else Err (invalid_argument "invalid page token")
                | None => Err (invalid_argument "invalid page token")
                end);
  let limit := if (0 <? page_size) && (page_size <? total) then page_size else total in
  let stop := Z.min (start + limit) total in
  Ok (start, stop, if stop <? total then show_Z stop else "").

Fixpoint grpc_normalize_paths (paths : list string) : result ApiError (list string) :=
  match paths with
  | [] => Ok []
  | p :: r =>
      if is_empty (trim p) then Err (invalid_argument "update mask paths must not contain empty values")
      else rest ← grpc_normalize_paths r; Ok (trim p :: rest)
  end.
Definition grpc_normalize_mask (paths : list string) : result ApiError (list string) :=
  match paths with
  | [] => Err (invalid_argument "update mask paths are required")
  | _ => grpc_normalize_paths paths
  end.
(** Camel case and dots to snake case; other characters stay. *)
Fixpoint snake_case (first : bool) (s : string) : string :=
  match s with
  | EmptyString => EmptyString
  | String c r =>
      let rest := snake_case false r in
      if Ascii.eqb c "." then String "_" rest
      else if is_ascii_uppercase c then
        (if first then String (to_lower_byte c) rest else String "_" (String (to_lower_byte c) rest))
      else String c rest
  end.
Definition grpc_canonical_mask_path (path : string) : string := snake_case true path.

(** [format!("{:?}", s)] *)
Class DebugStr := { debug_str : string -> string }.

(** ** Schema revisions *)

Definition grpc_current_revision (s : Schema) : SchemaRevision :=
  mkRevision (sc_type s) (sc_definition s) (sc_revision_id s) (sc_revision_create_time s).
Definition grpc_schema_revisions (s : Schema) : list SchemaRevision :=
  match List.filter (fun r => negb (is_empty (rv_revision_id r))) (sc_revisions s) with
  | [] => [grpc_current_revision s]
  | revs => revs
  end.
Definition grpc_revision_to_schema (r : SchemaRevision) (name : string) : Schema :=
  mkSchema name (rv_type r) (rv_definition r) (rv_revision_id r) (rv_revision_create_time r) [].
Definition max_revision_id (revisions : list SchemaRevision) : Z :=
  foldl (fun max r => match parse_i64 (rv_revision_id r) with
                      | Some id => if max <? id then id else max
                      | None => max
                      end) 0 revisions.
Definition grpc_next_revision_id `{Build} (revisions : list SchemaRevision) : result ApiError string :=
  n ← checked_i64 (max_revision_id revisions + 1); Ok (show_Z n).
Definition grpc_schema_view (s : Schema) (view : string) : Schema :=
  mkSchema (sc_name s) (sc_type s) (if str_eqb view "BASIC" then "" else sc_definition s) (sc_revision_id s)
    (sc_revision_create_time s) [].
Definition grpc_list_schema_view (view : string) : string :=
  if is_empty view || str_eqb view "SCHEMA_VIEW_UNSPECIFIED" then "BASIC" else view.
(** A schema whose current definition is the revision [r] and whose history is [revs]. *)
Definition with_revision (r : SchemaRevision) (revs : list SchemaRevision) (s : Schema) : Schema :=
  mkSchema (sc_name s) (rv_type r) (rv_definition r) (rv_revision_id r) (rv_revision_create_time r) revs.
Definition stamped_revision (id now : string) (r : SchemaRevision) : SchemaRevision :=
  mkRevision (rv_type r) (rv_definition r) id now.

(** [snapshot_deliveries]: unacknowledged records, their leases cleared. *)
Definition snapshot_deliveries (l : list DeliveryRecord) : list DeliveryRecord :=
  map (fun d => mkDelivery (d_message_id d) "" ZERO_TIME ZERO_TIME (d_delivery_attempt d) false)
    (List.filter (fun d => negb (d_acked d)) l).

(** The first [prefix-i], from 1, that is not a key; among [size + 1] candidates one is free. *)
Fixpoint generated_name {V} (fuel : nat) (name : string -> string) (prefix : string) (i : Z) (m : gmap string V) : string :=
  let n := name (prefix +:+ show_Z i) in
  match fuel with
  | O => n
  | S fuel' => if bool_decide (is_Some (m !! n)) then generated_name fuel' name prefix (i + 1) m else n
  end.
Definition valid_or_default_project (c : Config) (project : string) : string :=
  if valid_project_id project then project else cfg_project_or_default c.
Definition generated_subscription_name (s : Server) (project : string) : string :=
  generated_name (size (subscriptions s)) (subscription_name (valid_or_default_project (config s) project))
    "devcloud-auto-sub-" 1 (subscriptions s).
Definition generated_snapshot_name (s : Server) (project : string) : string :=
  generated_name (size (snapshots s)) (snapshot_name (valid_or_default_project (config s) project))
    "devcloud-auto-snapshot-" 1 (snapshots s).

Section Grpc.
Context `{Env, SerdePretty, DebugStr}.

Definition checked_name (valid : string -> bool) (kind name : string) : Api unit :=
  guard_err (negb (valid name)) (invalid_argument ("invalid " +:+ kind +:+ " name")).
(** [if self.persist().is_err() { return Err(..) }]: the change stays. *)
Definition persist_keep : Api unit := persist_or id.
Definition grpc_page {V} (items : list V) (page_size : Z) (page_token : string) : Api (list V * string) :=
  '(start, stop, next) ← lift (grpc_page_bounds (Z.of_nat (length items)) page_size page_token);
  mret (slice start stop items, next).

(** ** Publisher *)

Definition grpc_create_topic (request : Topic) : Api Topic :=
  checked_name valid_full_topic_name "topic" (t_name request);;
  lift (validate_topic_metadata request);;
  n ← now;
  let topic := mkTopic (t_name request) (t_labels request) n n (t_message_retention_duration request)
                 (t_schema_settings request) (t_kms_key_name request) in
  absent topics (t_name topic) "topic already exists";;
  change (set_resource_dirty true ∘ on_topics <[t_name topic := topic]>);;
  persist_or (on_topics (delete (t_name topic)));;
  mret topic.

Definition grpc_get_topic (topic : string) : Api Topic :=
  checked_name valid_full_topic_name "topic" topic;; found topics topic "topic not found".

Definition unsupported_path (kind path : string) : ApiError :=
  invalid_argument ("unsupported " +:+ kind +:+ " update mask path " +:+ debug_str path).
Definition update_topic_field (update : Topic) (t : Topic) (path : string) : result ApiError Topic :=
  let p := grpc_canonical_mask_path path in
  if str_eqb p "labels" then Ok (patch_topic_field update t "labels")
  else if str_eqb p "message_retention_duration" then Ok (patch_topic_field update t "messageRetentionDuration")
  else if str_eqb p "schema_settings" then Ok (patch_topic_field update t "schemaSettings")
  else if str_eqb p "kms_key_name" then Ok (patch_topic_field update t "kmsKeyName")
  else Err (unsupported_path "topic" path).
(** [for path in &canonical { .. }] with an early return. *)
Fixpoint try_foldl {E A X} (f : A -> X -> result E A) (a : A) (l : list X) : result E A :=
  match l with [] => Ok a | x :: r => a' ← f a x; try_foldl f a' r end.
Definition grpc_update_topic (update : Topic) (mask_paths : list string) : Api Topic :=
  checked_name valid_full_topic_name "topic" (t_name update);;
  canonical ← lift (grpc_normalize_mask mask_paths);
  lift (validate_topic_metadata update);;
  topic ← found topics (t_name update) "topic not found";
  topic ← lift (try_foldl (update_topic_field update) topic canonical);
  n ← now;
  let topic := touch_topic n topic in
  change (set_resource_dirty true ∘ on_topics <[t_name topic := topic]>);;
  persist_keep;;
  mret topic.

Definition grpc_list_topics (project : string) (page_size : Z) (page_token : string) : Api (list Topic * string) :=
  s ← gets server; grpc_page (in_project t_name project (topics s)) page_size page_token.
Definition grpc_list_topic_subscriptions (topic : string) (page_size : Z) (page_token : string)
    : Api (list string * string) :=
  checked_name valid_full_topic_name "topic" topic;;
  found topics topic "topic not found";;
  s ← gets server;
  grpc_page (sort_names (map s_name (List.filter (fun sub => str_eqb (s_topic sub) topic) (values (subscriptions s)))))
    page_size page_token.
Definition grpc_list_topic_snapshots (topic : string) (page_size : Z) (page_token : string)
    : Api (list string * string) :=
  checked_name valid_full_topic_name "topic" topic;;
  found topics topic "topic not found";;
  s ← gets server;
  snaps ← live_snapshots (fun sn => str_eqb (sn_topic sn) topic) (values (snapshots s));
  grpc_page (sort_names (map sn_name snaps)) page_size page_token.

Definition orphaned (now topic : string) (sub : Subscription) : Subscription :=
  if str_eqb (s_topic sub) topic then with_updated_at now (with_topic "_deleted-topic_" sub) else sub.
Definition grpc_delete_topic (topic : string) : Api unit :=
  checked_name valid_full_topic_name "topic" topic;;
  previous ← found topics topic "topic not found";
  n ← now;
  s ← gets server;
  change (set_resource_dirty true ∘ on_subscriptions (fmap (orphaned n topic)) ∘ on_topics (delete topic));;
  persist_or (fun s' =>
    on_subscriptions (fun m => filter (fun e => s_topic e.2 = topic) (subscriptions s) ∪ m)
      (on_topics <[topic := previous]> s')).

Definition grpc_detach_subscription (subscription : string) : Api unit :=
  checked_name valid_full_subscription_name "subscription" subscription;;
  sub ← found subscriptions subscription "subscription not found";
  n ← now;
  s ← gets server;
  change (both_dirty ∘ drop_snapshots_of subscription ∘ on_deliveries (delete subscription)
          ∘ on_subscriptions <[s_name sub := with_updated_at n (with_detached sub)]>);;
  persist_or (fun s' =>
    set_messages (messages s)
      (on_snapshots (fun m => snapshots_of subscription s ∪ m)
        (on_deliveries (put_some subscription (deliveries s !! subscription))
          (on_subscriptions <[subscription := sub]> s')))).

(** ** Subscriber *)

Definition grpc_create_subscription (request : Subscription) : Api Subscription :=
  checked_name valid_full_topic_name "topic" (s_topic request);;
  guard_err (negb (is_empty (s_name request)) && negb (valid_full_subscription_name (s_name request)))
    (invalid_argument "invalid subscription name");;
  s ← gets server;
  let ack := if s_ack_deadline_seconds request =? 0 then default_ack_deadline (config s)
             else s_ack_deadline_seconds request in
  lift (validate_subscription_metadata (s_message_retention_duration request) (s_expiration_policy request));;
  lift (validate_subscription_filter (s_filter request));;
  lift (validate_dead_letter_policy (s_dead_letter_policy request));;
  lift (validate_retry_policy (s_retry_policy request));;
  lift (validate_push_config (s_push_config request));;
  n ← now;
  let name := if is_empty (s_name request)
              then generated_subscription_name s (resource_project (s_topic request)) else s_name request in
  let sub := named_subscription name ack n request in
  absent subscriptions name "subscription already exists";;
  found topics (s_topic request) "topic not found";;
  guard_err (negb (dead_letter_topic_exists s (s_dead_letter_policy request))) (not_found "dead-letter topic not found");;
  change (set_resource_dirty true ∘ on_subscriptions <[name := sub]>);;
  persist_or (on_deliveries (delete name) ∘ on_subscriptions (delete name));;
  mret sub.

Definition grpc_get_subscription (subscription : string) : Api Subscription :=
  checked_name valid_full_subscription_name "subscription" subscription;;
  found subscriptions subscription "subscription not found".

(** One field of an update, by its REST name; each changes its own field. *)
Definition set_field (default_ack : Z) (update sub : Subscription) (f : string) : Subscription :=
  patched_subscription (str_eqb f) default_ack update sub.
Definition mask_fields : list (string * string) :=
  [("labels", "labels"); ("ack_deadline_seconds", "ackDeadlineSeconds");
   ("enable_message_ordering", "enableMessageOrdering");
   ("enable_exactly_once_delivery", "enableExactlyOnceDelivery");
   ("retain_acked_messages", "retainAckedMessages");
   ("message_retention_duration", "messageRetentionDuration"); ("filter", "filter");
   ("dead_letter_policy", "deadLetterPolicy"); ("retry_policy", "retryPolicy"); ("push_config", "pushConfig")].
Definition field_of_mask (p : string) : option string :=
  snd <$> List.find (fun e => str_eqb e.1 p) mask_fields.
Definition update_subscription_field (default_ack : Z) (update sub : Subscription) (path : string)
    : result ApiError Subscription :=
  let p := grpc_canonical_mask_path path in
  if str_eqb p "topic" then
    if negb (is_empty (s_topic update)) && negb (str_eqb (s_topic update) (s_topic sub))
    then Err (failed_precondition "subscription topic cannot be changed") else Ok sub
  else match field_of_mask p with
       | Some f => Ok (set_field default_ack update sub f)
       | None => Err (unsupported_path "subscription" path)
       end.
Definition grpc_update_subscription (update : Subscription) (mask_paths : list string) : Api Subscription :=
  checked_name valid_full_subscription_name "subscription" (s_name update);;
  canonical ← lift (grpc_normalize_mask mask_paths);
  s ← gets server;
  guard_err (max_ack_deadline (config s) <? s_ack_deadline_seconds update)
    (invalid_argument "ackDeadlineSeconds exceeds maxAckDeadlineSeconds");;
  lift (validate_subscription_metadata (s_message_retention_duration update) (s_expiration_policy update));;
  lift (validate_subscription_filter (s_filter update));;
  lift (validate_dead_letter_policy (s_dead_letter_policy update));;
  lift (validate_retry_policy (s_retry_policy update));;
  lift (validate_push_config (s_push_config update));;
  sub ← found subscriptions (s_name update) "subscription not found";
  guard_err (existsb (fun p => str_eqb (grpc_canonical_mask_path p) "dead_letter_policy") canonical
             && negb (dead_letter_topic_exists s (s_dead_letter_policy update)))
    (not_found "dead-letter topic not found");;
  sub ← lift (try_foldl (update_subscription_field (default_ack_deadline (config s)) update) sub canonical);
  n ← now;
  let sub := with_updated_at n sub in
  change (set_resource_dirty true ∘ on_subscriptions <[s_name sub := sub]>);;
  persist_keep;;
  mret sub.

Definition grpc_list_subscriptions (project : string) (page_size : Z) (page_token : string)
    : Api (list Subscription * string) :=
  s ← gets server; grpc_page (in_project s_name project (subscriptions s)) page_size page_token.

Definition grpc_delete_subscription (subscription : string) : Api unit :=
  checked_name valid_full_subscription_name "subscription" subscription;;
  sub ← found subscriptions subscription "subscription not found";
  s ← gets server;
  change (both_dirty ∘ on_deliveries (delete subscription) ∘ on_subscriptions (delete subscription));;
  persist_or (fun s' =>
    set_messages (messages s)
      (on_deliveries (put_some subscription (deliveries s !! subscription))
        (on_subscriptions <[subscription := sub]> s'))).

Definition grpc_modify_push_config (subscription : string) (push_config : option Value) : Api unit :=
  checked_name valid_full_subscription_name "subscription" subscription;;
  lift (validate_push_config push_config);;
  sub ← found subscriptions subscription "subscription not found";
  n ← now;
  change (set_resource_dirty true
    ∘ on_subscriptions <[s_name sub := with_updated_at n (with_push_config (normalize_any_map push_config) sub)]>);;
  persist_keep.

(** ** Snapshots *)

Definition grpc_get_snapshot (snapshot : string) : Api Snapshot :=
  checked_name valid_full_snapshot_name "snapshot" snapshot;;
  snap ← live_snapshot snapshot; mret (snapshot_public snap).
Definition grpc_list_snapshots (project : string) (page_size : Z) (page_token : string)
    : Api (list Snapshot * string) :=
  s ← gets server;
  snaps ← live_snapshots (fun sn => str_eqb (resource_project (sn_name sn)) project) (values (snapshots s));
  grpc_page (map snapshot_public snaps) page_size page_token.

Definition grpc_create_snapshot (name subscription : string) (labels : gmap string string) : Api Snapshot :=
  guard_err (negb (is_empty name) && negb (valid_full_snapshot_name name)) (invalid_argument "invalid snapshot name");;
  checked_name valid_full_subscription_name "subscription" subscription;;
  absent snapshots name "snapshot already exists";;
  sub ← found subscriptions subscription "subscription not found";
  s ← gets server;
  let snapshot_name := if is_empty name then generated_snapshot_name s (resource_project (s_name sub)) else name in
  expire ← snapshot_expire_time;
  let snapshot := mkSnapshot snapshot_name (s_topic sub) (s_name sub) expire labels
                    (snapshot_deliveries (default [] (deliveries s !! subscription))) in
  change (set_resource_dirty true ∘ on_snapshots <[snapshot_name := snapshot]>);;
  persist_or (on_snapshots (delete snapshot_name));;
  mret (snapshot_public snapshot).

Definition grpc_delete_snapshot (snapshot : string) : Api unit :=
  checked_name valid_full_snapshot_name "snapshot" snapshot;;
  snap ← found snapshots snapshot "snapshot not found";
  s ← gets server;
  change (both_dirty ∘ on_snapshots (delete snapshot));;
  persist_or (fun s' => set_messages (messages s) (on_snapshots <[snapshot := snap]> s')).

Definition update_snapshot_field (update sn : Snapshot) (path : string) : result ApiError Snapshot :=
  if str_eqb (grpc_canonical_mask_path path) "labels" then
    Ok (mkSnapshot (sn_name sn) (sn_topic sn) (sn_subscription sn) (sn_expire_time sn) (sn_labels update) (sn_deliveries sn))
  else Err (unsupported_path "snapshot" path).
Definition grpc_update_snapshot (update : Snapshot) (mask_paths : list string) : Api Snapshot :=
  checked_name valid_full_snapshot_name "snapshot" (sn_name update);;
  canonical ← lift (grpc_normalize_mask mask_paths);
  snap ← live_snapshot (sn_name update);
  snap ← lift (try_foldl (update_snapshot_field update) snap canonical);
  change (set_resource_dirty true ∘ on_snapshots <[sn_name snap := snap]>);;
  persist_keep;;
  mret (snapshot_public snap).

(** ** Schemas *)

Definition grpc_schema_from_request (schema : Schema) : result ApiError Schema :=
  _ ← check (valid_schema_type (sc_type schema)) (invalid_argument "invalid schema type");
  _ ← check (is_empty (sc_name schema) || valid_full_schema_name (sc_name schema)) (invalid_argument "invalid schema name");
  _ ← validate_schema_definition (sc_type schema) (sc_definition schema);
  Ok (mkSchema (sc_name schema) (sc_type schema) (sc_definition schema) (sc_revision_id schema) "" []).

Definition store_schema (schema : Schema) : Api Schema :=
  change (set_resource_dirty true ∘ on_schemas <[sc_name schema := schema]>);;
  persist_keep;;
  mret (grpc_schema_view schema "FULL").

Definition grpc_create_schema (project schema_id : string) (request : Schema) : Api Schema :=
  guard_err (negb (valid_resource_id schema_id)) (invalid_argument "invalid schema name");;
  r ← lift (grpc_schema_from_request request);
  n ← now;
  let rev := mkRevision (sc_type r) (sc_definition r) (if is_empty (sc_revision_id r) then "1" else sc_revision_id r) n in
  let schema := with_revision rev [rev] (grpc_revision_to_schema rev (schema_name project schema_id)) in
  absent schemas (sc_name schema) "schema already exists";;
  change (set_resource_dirty true ∘ on_schemas <[sc_name schema := schema]>);;
  persist_or (on_schemas (delete (sc_name schema)));;
  mret (grpc_schema_view schema "FULL").

Definition grpc_get_schema (name view : string) : Api Schema :=
  checked_name valid_full_schema_name "schema" name;;
  schema ← found schemas name "schema not found"; mret (grpc_schema_view schema view).
Definition grpc_list_schemas (project view : string) (page_size : Z) (page_token : string) : Api (list Schema * string) :=
  s ← gets server;
  grpc_page (map (fun sc => grpc_schema_view sc (grpc_list_schema_view view)) (in_project sc_name project (schemas s)))
    page_size page_token.
Definition grpc_list_schema_revisions (name view : string) (page_size : Z) (page_token : string)
    : Api (list Schema * string) :=
  checked_name valid_full_schema_name "schema" name;;
  schema ← found schemas name "schema not found";
  '(page, next) ← grpc_page (grpc_schema_revisions schema) page_size page_token;
  mret (map (fun r => grpc_schema_view (grpc_revision_to_schema r (sc_name schema)) (grpc_list_schema_view view)) page,
        next).

Definition grpc_commit_schema (name : string) (request : Schema) : Api Schema :=
  checked_name valid_full_schema_name "schema" name;;
  revision ← lift (grpc_schema_from_request request);
  guard_err (negb (is_empty (sc_name revision)) && negb (str_eqb (sc_name revision) name))
    (invalid_argument "schema name mismatch");;
  schema ← found schemas name "schema not found";
  guard_err (negb (str_eqb (sc_type revision) (sc_type schema))) (failed_precondition "schema type cannot be changed");;
  id ← lift (grpc_next_revision_id (grpc_schema_revisions schema));
  n ← now;
  let rev := mkRevision (sc_type revision) (sc_definition revision) id n in
  store_schema (with_revision rev
    (grpc_schema_revisions (with_revision rev (sc_revisions schema) schema) ++ [rev])%list schema).

Definition grpc_rollback_schema (name revision_id : string) : Api Schema :=
  checked_name valid_full_schema_name "schema" name;;
  guard_err (is_empty (trim revision_id)) (invalid_argument "revision id is required");;
  schema ← found schemas name "schema not found";
  let revisions := grpc_schema_revisions schema in
  target ← lift (ok_or (not_found "schema revision not found")
                   (List.find (fun r => str_eqb (rv_revision_id r) revision_id) revisions));
  id ← lift (grpc_next_revision_id revisions);
  n ← now;
  let rev := stamped_revision id n target in
  store_schema (with_revision rev (revisions ++ [rev])%list schema).

Definition grpc_delete_schema_revision (name revision_id : string) : Api Schema :=
  guard_err (negb (valid_full_schema_name name) || is_empty revision_id)
    (invalid_argument "invalid schema revision name");;
  schema ← found schemas name "schema not found";
  let revisions := grpc_schema_revisions schema in
  guard_err (length revisions <=? 1)%nat (failed_precondition "cannot delete the only schema revision");;
  let kept := List.filter (fun r => negb (str_eqb (rv_revision_id r) revision_id)) revisions in
  guard_err (length kept =? length revisions)%nat (not_found "schema revision not found");;
  current ← lift (ok_or (failed_precondition "cannot delete the only schema revision") (last kept));
  store_schema (with_revision current kept schema).

Definition grpc_delete_schema (name : string) : Api unit :=
  checked_name valid_full_schema_name "schema" name;;
  found schemas name "schema not found";;
  change (set_resource_dirty true ∘ on_schemas (delete name));;
  persist_keep.

Definition grpc_validate_schema (request : Schema) : Api unit :=
  lift (grpc_schema_from_request request);; mret tt.
Definition grpc_validate_message (project name : string) (inline : option Schema) (message : list Z) (encoding : string)
    : Api unit :=
  guard_err (negb (valid_schema_encoding encoding)) (invalid_argument "invalid schema encoding");;
  let valid_data := guard_err (negb (valid_schema_message_data message encoding))
                      (invalid_argument "message is invalid for schema encoding") in
  match inline with
  | None =>
      guard_err (is_empty name) (invalid_argument "schema name or inline schema is required");;
      checked_schema_project project name;;
      found schemas name "schema not found";;
      valid_data
  | Some inline =>
      guard_err (negb (is_empty name)) (invalid_argument "only one of schema name or inline schema may be set");;
      schema ← lift (grpc_schema_from_request inline);
      (if is_empty (sc_name schema) then mret tt else checked_schema_project project (sc_name schema));;
      valid_data
  end.
End Grpc.
