(* ===== verification/PubMessages.v ===== *)
(** Publishing, delivery and acknowledgement in the Pub/Sub server
    (services/pubsub/src/server.rs), over REST and gRPC.  The two protocols run the
    same loops on the same state; where their copies of a loop differ only in how a
    received message is rendered, the loop is defined once and rendered by each. *)

From S2P Require Import Prelude RustStr RustNum RustText Json PubTime PubModel PubValidation PubResources PubGrpc.
Local Open Scope string_scope.
Local Open Scope Z_scope.

(** ** Records *)

(** The lease fields cleared: [ack_id], [lease_deadline], [next_delivery_time]. *)
Definition cleared (acked : bool) (attempt : Z) (d : DeliveryRecord) : DeliveryRecord :=
  mkDelivery (d_message_id d) "" ZERO_TIME ZERO_TIME attempt acked.
Definition with_lease (ack_id deadline : string) (attempt : Z) (d : DeliveryRecord) : DeliveryRecord :=
  mkDelivery (d_message_id d) ack_id deadline ZERO_TIME attempt (d_acked d).
(** [compact_acked] *)
Definition compact_acked (l : list DeliveryRecord) (retain_acked : bool) : list DeliveryRecord :=
  if retain_acked then l else List.filter (fun d => negb (d_acked d)) l.
Definition records_of (s : Server) (sub : string) : list DeliveryRecord := default [] (deliveries s !! sub).

(** ** Publishing *)

(** [subscription_matches_message] *)
Definition subscription_matches_message (sub : Subscription) (m : PubsubMessage) : bool :=
  let filter := trim (s_filter sub) in
  let actual key := default "" (m_attributes m !! key) in
  if is_empty filter then true
  else match parse_comparison_filter filter with
       | Some (key, op, value) =>
           if str_eqb op "!=" then negb (str_eqb (actual key) value) else str_eqb (actual key) value
       | None =>
           match parse_prefix_filter filter with
           | Some (key, prefix) => starts_with prefix (actual key)
           | None => false
           end
       end.
Definition matches (topic : string) (m : PubsubMessage) (sub : Subscription) : bool :=
  attached_to topic sub && subscription_matches_message sub m.
(** [self.deliveries.entry(sub).or_default().push(record)] for each subscription. *)
Definition push_delivery (id : string) (d : Deliveries) (sub : string) : Deliveries :=
  <[sub := (default [] (d !! sub) ++ [default_delivery id])%list]> d.
Definition deliver_to (subs : list string) (id : string) (s : Server) : Server :=
  on_deliveries (fun d => foldl (push_delivery id) d subs) s.

(** [validate_publish_message]; the attributes by their keys. *)
Definition validate_publish_message (data : string) (keys : list string) : Checked :=
  _ ← check (negb (is_empty data && nil_b keys)) (invalid_argument "message data or attributes are required");
  _ ← check (is_empty data || bool_decide (is_Some (decode_base64_bytes data)))
        (invalid_argument "message data must be base64 encoded");
  check (negb (existsb (fun k => is_empty (trim k)) keys))
    (invalid_argument "message attributes must not contain empty keys").

(** A message to publish: its base64 data, attributes and ordering key. *)
Record Incoming := mkIncoming { in_data : string; in_attributes : gmap string string; in_ordering_key : string }.
Definition published (id now : string) (i : Incoming) : PubsubMessage :=
  mkMessage (in_data i) (in_attributes i) id now (in_ordering_key i).
Definition matched_subs (topic : string) (m : PubsubMessage) (s : Server) : list string :=
  map s_name (List.filter (matches topic m) (values (subscriptions s))).
Definition publish_one (topic now id : string) (i : Incoming) (s : Server) : Server :=
  let m := published id now i in
  deliver_to (matched_subs topic m s) id (set_messages (<[id := m]> (messages s)) s).

Section Publish.
Context `{Env, SerdeJson, SerdePretty}.

Definition validate_message_against_topic_schema (data : string) (schema_settings : option Value) : Checked :=
  match object_of schema_settings with
  | None | Some [] => Ok tt
  | Some settings =>
      let encoding := default "" (obj_get "encoding" settings ≫= as_str) in
      if is_empty encoding then Ok tt
      else
        decoded ← ok_or (invalid_argument "message data must be base64 encoded") (decode_base64_bytes data);
        check (valid_schema_message_data decoded encoding)
          (invalid_argument "message is invalid for topic schema encoding")
  end.

(** [self.next_message_id += 1] *)
Definition fresh_message_id (s : Server) : result ApiError Z := checked_u64 (next_message_id s + 1).
(** The loop over the messages, from the server [s]; the ids in order. *)
Fixpoint publish_all (topic now : string) (l : list Incoming) (s : Server) : result ApiError (list string * Server) :=
  match l with
  | [] => Ok ([], s)
  | i :: r =>
      n ← fresh_message_id s;
      let id := show_Z n in
      '(ids, s') ← publish_all topic now r (publish_one topic now id i (set_next_message_id n s));
      Ok (id :: ids, s')
  end.
(** A pure computation on the server that may panic. *)
Definition on_server_try {A} (f : Server -> result ApiError (A * Server)) : Api A :=
  s ← gets server;
  '(a, s') ← lift (f s);
  modify (on_server (fun _ => s'));;
  mret a.
(** From the clock reading to the reply; a failure restores ids, messages and deliveries. *)
Definition publish_messages (topic : string) (l : list Incoming) : Api (list string) :=
  n ← now;
  s ← gets server;
  ids ← on_server_try (publish_all topic n l);
  change (set_messages_dirty true);;
  persist_or (fun s' =>
    set_deliveries (deliveries s) (set_messages (messages s) (set_next_message_id (next_message_id s) s')));;
  mret ids.

Definition incoming_keys (m : Value) : list string := (default [] (obj_member "attributes" m)).*1.
Definition incoming_of (m : Value) : Incoming :=
  mkIncoming (str_or_empty "data" m)
    (list_to_map (omap (fun e => s ← as_str e.2; Some (e.1, s)) (default [] (obj_member "attributes" m))))
    (str_or_empty "orderingKey" m).
Definition publish (project topic_id : string) (msgs : list Value) : Api RestResponse :=
  checked_names "topic" project topic_id;;
  let name := topic_name project topic_id in
  guard_err (nil_b msgs) (invalid_argument "messages are required");;
  lift (try_each (fun m => validate_publish_message (str_or_empty "data" m) (incoming_keys m)) msgs);;
  topic ← found topics name "topic not found";
  lift (try_each (fun m => validate_message_against_topic_schema (str_or_empty "data" m) (t_schema_settings topic)) msgs);;
  ids ← publish_messages name (map incoming_of msgs);
  mret (ok_struct (json1 "messageIds" (json_strings ids))).

Definition grpc_publish (topic : string) (msgs : list Incoming) : Api (list string) :=
  checked_name valid_full_topic_name "topic" topic;;
  guard_err (nil_b msgs) (invalid_argument "messages are required");;
  lift (try_each (fun i => validate_publish_message (in_data i) (btree_iter (in_attributes i)).*1) msgs);;
  t ← found topics topic "topic not found";
  lift (try_each (fun i => validate_message_against_topic_schema (in_data i) (t_schema_settings t)) msgs);;
  publish_messages topic msgs.
End Publish.

(** ** Leases *)

Section Leases.
Context `{Build}.

(** [policy_backoff_secs] *)
Definition policy_backoff_secs (policy : option Value) (fld : string) : option Z :=
  value ← policy ≫= str_member fld;
  nanos ← parse_go_duration value;
  if 0 <=? nanos then Some (wrap_s 64 (nanos /t 1000000000)) else None.
(** The loop [while attempt < delivery_attempt] with [delivery_attempt - 1] rounds left. *)
Fixpoint backoff_loop (rounds : nat) (max : option Z) (backoff : Z) : Z :=
  match rounds with
  | O => match max with Some m => if m <? backoff then m else backoff | None => backoff end
  | S r =>
      match max with
      | Some m => if m <=? backoff then m else backoff_loop r max (saturate_i64 (backoff * 2))
      | None => backoff_loop r max (saturate_i64 (backoff * 2))
      end
  end.
Definition retry_backoff (s : Server) (sub_name : string) (delivery_attempt : Z) : Z :=
  match subscriptions s !! sub_name with
  | None => 0
  | Some sub =>
      match policy_backoff_secs (s_retry_policy sub) "minimumBackoff" with
      | None => 0
      | Some min =>
          backoff_loop (Z.to_nat (delivery_attempt - 1)) (policy_backoff_secs (s_retry_policy sub) "maximumBackoff") min
      end
  end.

Definition leased (now_secs : Z) (d : DeliveryRecord) : bool := after (d_lease_deadline d) now_secs.
Definition lease_expired (now_secs : Z) (d : DeliveryRecord) : bool :=
  negb (d_acked d || delivery_is_zero (d_lease_deadline d) || leased now_secs d).
Definition expire_record (s : Server) (sub_name : string) (now_secs : Z) (d : DeliveryRecord)
    : result ApiError DeliveryRecord :=
  if lease_expired now_secs d then
    let backoff := retry_backoff s sub_name (d_delivery_attempt d) in
    next ← (if 0 <? backoff then plus_seconds (unix_secs (d_lease_deadline d)) backoff
            else Ok (d_next_delivery_time d));
    Ok (mkDelivery (d_message_id d) "" ZERO_TIME next (d_delivery_attempt d) (d_acked d))
  else Ok d.
Fixpoint map_try {X Y} (f : X -> result ApiError Y) (l : list X) : result ApiError (list Y) :=
  match l with [] => Ok [] | x :: r => y ← f x; ys ← map_try f r; Ok (y :: ys) end.
Definition expire_entry (now_secs : Z) (s : Server) (e : string * list DeliveryRecord) : result ApiError Server :=
  rs ← map_try (expire_record s e.1 now_secs) e.2;
  Ok (if existsb (lease_expired now_secs) e.2
      then set_messages_dirty true (on_deliveries <[e.1 := rs]> s) else s).
Definition expire_leases (now_secs : Z) (s : Server) : result ApiError Server :=
  try_foldl (expire_entry now_secs) s (btree_iter (deliveries s)).

(** ** Pulling *)

(** [dead_letter_target] *)
Definition dead_letter_target (s : Server) (sub : Subscription) : option (string * Z) :=
  policy ← object_of (s_dead_letter_policy sub);
  max ← obj_get "maxDeliveryAttempts" policy ≫= as_i64_value;
  topic ← obj_get "deadLetterTopic" policy ≫= as_str;
  if is_empty topic || negb (bool_decide (is_Some (topics s !! topic))) then None else Some (topic, max).

Record Received := mkReceived { rc_ack_id : string; rc_message : PubsubMessage; rc_attempt : Z }.

(** What the loop changes besides the records: the two counters, the clock, the
    blocked ordering keys, the messages received and those to dead-letter. *)
Record Pulling := mkPulling {
  pl_message_id : Z; pl_ack_id : Z; pl_tick : nat; pl_blocked : gset string;
  pl_received : list Received; pl_dead : list (string * PubsubMessage) }.

Definition nonempty_key (m : PubsubMessage) : option string :=
  if is_empty (m_ordering_key m) then None else Some (m_ordering_key m).
Definition key_of_record (s : Server) (d : DeliveryRecord) : option string :=
  messages s !! d_message_id d ≫= nonempty_key.
Definition block (o : option string) (keys : gset string) : gset string :=
  match o with Some k => {[k]} ∪ keys | None => keys end.
(** The ordering keys with a message in flight. *)
Definition leased_keys (s : Server) (sub : Subscription) (now_secs : Z) (l : list DeliveryRecord) : gset string :=
  if s_enable_message_ordering sub then
    foldl (fun keys d => if d_acked d || negb (leased now_secs d) then keys else block (key_of_record s d) keys) ∅ l
  else ∅.
End Leases.

Section Pull.
Context `{Env}.

(** [self.now()] at a tick, and the next tick. *)
Definition clock_at (s : Server) (t : nat) : string * nat :=
  match fixed_now s with
  | Some n => (n, t)
  | None => let '(secs, nanos) := sys_clock t in (rfc3339nano_from_unix (wrap_s 64 secs) nanos, S t)
  end.
Definition dead_lettered (id now : string) (m : PubsubMessage) : PubsubMessage :=
  mkMessage (m_data m) (m_attributes m) id now (m_ordering_key m).

(** Takes the attempts-exhausted message off the subscription. *)
Definition pull_dead_letter (s : Server) (topic : string) (m : PubsubMessage) (d : DeliveryRecord) (st : Pulling)
    : result ApiError (DeliveryRecord * Pulling) :=
  n ← checked_u64 (pl_message_id st + 1);
  let '(now, t) := clock_at s (pl_tick st) in
  Ok (cleared true (d_delivery_attempt d) d,
      mkPulling n (pl_ack_id st) t (pl_blocked st) (pl_received st)
        (pl_dead st ++ [(topic, dead_lettered (show_Z n) now m)])%list).
(** Leases the message to the caller. *)
Definition pull_deliver (now_secs ack_deadline : Z) (m : PubsubMessage) (blocked : gset string) (d : DeliveryRecord)
    (st : Pulling) : result ApiError (DeliveryRecord * Pulling) :=
  n ← checked_u64 (pl_ack_id st + 1);
  let ack_id := d_message_id d +:+ "-" +:+ show_Z n in
  deadline ← plus_seconds now_secs ack_deadline;
  attempt ← checked_i64 (d_delivery_attempt d + 1);
  Ok (with_lease ack_id deadline attempt d,
      mkPulling (pl_message_id st) n (pl_tick st) blocked
        (pl_received st ++ [mkReceived ack_id m attempt])%list (pl_dead st)).
Definition set_blocked (b : gset string) (st : Pulling) : Pulling :=
  mkPulling (pl_message_id st) (pl_ack_id st) (pl_tick st) b (pl_received st) (pl_dead st).

(** One round of [for i in 0..deliveries.len()]. *)
Definition pull_step (s : Server) (sub : Subscription) (now_secs ack_deadline : Z) (d : DeliveryRecord) (st : Pulling)
    : result ApiError (DeliveryRecord * Pulling) :=
  let ordered := s_enable_message_ordering sub in
  if d_acked d || leased now_secs d then Ok (d, st)
  else if after (d_next_delivery_time d) now_secs then
    Ok (d, if ordered then set_blocked (block (key_of_record s d) (pl_blocked st)) st else st)
  else match messages s !! d_message_id d with
  | None => Ok (d, st)
  | Some m =>
      let deliver :=
        match (if ordered then nonempty_key m else None) with
        | Some key =>
            if bool_decide (key ∈ pl_blocked st) then Ok (d, st)
            else pull_deliver now_secs ack_deadline m ({[key]} ∪ pl_blocked st) d st
        | None => pull_deliver now_secs ack_deadline m (pl_blocked st) d st
        end in
      match dead_letter_target s sub with
      | Some (topic, max_attempts) =>
          if max_attempts <=? d_delivery_attempt d then pull_dead_letter s topic m d st else deliver
      | None => deliver
      end
  end.
Fixpoint pull_loop (s : Server) (sub : Subscription) (max now_secs ack_deadline : Z) (l : list DeliveryRecord)
    (st : Pulling) : result ApiError (list DeliveryRecord * Pulling) :=
  match l with
  | [] => Ok ([], st)
  | d :: r =>
      if max <=? Z.of_nat (length (pl_received st)) then Ok (l, st)
      else
        '(d', st') ← pull_step s sub now_secs ack_deadline d st;
        '(r', st'') ← pull_loop s sub max now_secs ack_deadline r st';
        Ok (d' :: r', st'')
  end.

(** A dead-lettered message joins the subscriptions of its topic. *)
Definition add_dead_letter (s : Server) (e : string * PubsubMessage) : Server :=
  let '(topic, m) := e in
  deliver_to (map s_name (List.filter (attached_to topic) (values (subscriptions s)))) (m_message_id m)
    (set_messages (<[m_message_id m := m]> (messages s)) s).

Definition set_tick (t : nat) (w : World) : World := mkWorld (server w) (w_resources w) (w_pubsub w) t.
(** [pull_with_ack_deadline_core]: the messages received and the records after the
    loop, which the caller compacts and stores. *)
Definition pull_with_ack_deadline_core (name : string) (sub : Subscription) (max now_secs ack_deadline : Z)
    : Api (list Received * list DeliveryRecord) :=
  s ← gets server;
  t ← gets w_tick;
  let records := records_of s name in
  '(records', st) ← lift (pull_loop s sub max now_secs ack_deadline records
    (mkPulling (next_message_id s) (next_ack_id s) t (leased_keys s sub now_secs records) [] []));
  modify (set_tick (pl_tick st));;
  change (fun s => foldl add_dead_letter (set_next_ids (pl_message_id st) (pl_ack_id st) s) (pl_dead st));;
  mret (pl_received st, records').
End Pull.

(** [subscription_push_endpoint] *)
Definition subscription_push_endpoint (sub : Subscription) : option string :=
  s ← s_push_config sub ≫= str_member "pushEndpoint"; if is_empty (trim s) then None else Some s.

Section PullCalls.
Context `{Env, SerdeJson, SerdePretty, DebugStr}.

Definition pullable (sub : Subscription) : Api unit :=
  guard_err (s_detached sub) (failed_precondition "subscription is detached");;
  guard_err (bool_decide (is_Some (subscription_push_endpoint sub)))
    (failed_precondition "subscription is configured for push delivery").
Definition expire_leases_now (now_secs : Z) : Api unit :=
  on_server_try (fun s => s' ← expire_leases now_secs s; Ok (tt, s')).
(** What a failed pull puts back. *)
Definition restore_pull (s s' : Server) : Server :=
  set_next_ids (next_message_id s) (next_ack_id s)
    (set_snapshots (snapshots s) (set_deliveries (deliveries s) (set_messages (messages s) s'))).
Definition store_records (name : string) (records : list DeliveryRecord) (s : Server) : Server :=
  set_messages_dirty true (on_deliveries <[name := records]> s).
(** [self.now_parts()], the retention and lease cleanup; the server before it. *)
Definition begin_pull : Api (Z * Server) :=
  '(now_secs, _) ← now_parts;
  s ← gets server;
  cleanup_retained_messages now_secs;;
  expire_leases_now now_secs;;
  mret (now_secs, s).
Definition sub_ack_deadline (c : Config) (sub : Subscription) : Z :=
  if 0 <? s_ack_deadline_seconds sub then s_ack_deadline_seconds sub else default_ack_deadline c.
Definition pull_batch (name : string) (sub : Subscription) (max : Z) : Api (list Received) :=
  '(now_secs, s) ← begin_pull;
  '(received, records) ← pull_with_ack_deadline_core name sub max now_secs (sub_ack_deadline (config s) sub);
  change (store_records name (compact_acked records (s_retain_acked_messages sub)));;
  persist_or (restore_pull s);;
  mret received.
Definition pull_limit (c : Config) (max_messages : Z) : Z :=
  Z.min (if max_messages <=? 0 then 1 else max_messages) (max_pull_messages c).

(** [pull_message_value] and the reply of the REST pull. *)
Definition pull_message_value (m : PubsubMessage) : Value :=
  JObject [("attributes", if bool_decide (m_attributes m = ∅) then JNull else map_value JString (m_attributes m));
           ("data", JString (m_data m)); ("messageId", JString (m_message_id m));
           ("orderingKey", JString (m_ordering_key m)); ("publishTime", JString (m_publish_time m))].
Definition received_value (r : Received) : Value :=
  JObject [("ackId", JString (rc_ack_id r)); ("deliveryAttempt", int_value (rc_attempt r));
           ("message", pull_message_value (rc_message r))].
Definition pull (project subscription_id : string) (max_messages : Z) : Api RestResponse :=
  checked_names "subscription" project subscription_id;;
  let name := subscription_name project subscription_id in
  sub ← found subscriptions name "subscription not found";
  pullable sub;;
  s ← gets server;
  received ← pull_batch name sub (pull_limit (config s) max_messages);
  mret match received with
       | [] => empty_object
       | _ => ok_struct (json1 "receivedMessages" (JArray (map received_value received)))
       end.
Definition grpc_pull (subscription : string) (max_messages : Z) : Api (list Received) :=
  checked_name valid_full_subscription_name "subscription" subscription;;
  sub ← found subscriptions subscription "subscription not found";
  pullable sub;;
  s ← gets server;
  pull_batch (s_name sub) sub (pull_limit (config s) max_messages).

(** [grpc_pull_may_return] *)
Definition deliverable (s : Server) (sub : Subscription) (now_secs : Z) (blocked : gset string) (d : DeliveryRecord)
    : bool :=
  negb (d_acked d || leased now_secs d) && negb (after (d_next_delivery_time d) now_secs)
  && match messages s !! d_message_id d with
     | None => false
     | Some m => match (if s_enable_message_ordering sub then nonempty_key m else None) with
                 | Some key => negb (bool_decide (key ∈ blocked))
                 | None => true
                 end
     end.
Definition grpc_pull_may_return (subscription : string) : Api bool :=
  s ← gets server;
  match subscriptions s !! subscription with
  | None => mret true
  | Some sub =>
      if s_detached sub || bool_decide (is_Some (subscription_push_endpoint sub)) then mret true
      else
        '(now_secs, _) ← now_parts;
        expire_leases_now now_secs;;
        s ← gets server;
        let records := records_of s subscription in
        mret (existsb (deliverable s sub now_secs (leased_keys s sub now_secs records)) records)
  end.
End PullCalls.

(** ** Acknowledging *)

Section Acks.
Context `{Env, SerdeJson, SerdePretty, DebugStr}.

(** One round of [for d in &mut deliveries]; [acknowledge] takes precedence, a
    deadline of 0 gives the message back. *)
Definition update_record (ids : gset string) (acknowledge : bool) (deadline now_secs : Z) (d : DeliveryRecord)
    : result ApiError DeliveryRecord :=
  if negb (bool_decide (d_ack_id d ∈ ids)) || d_acked d then Ok d
  else if acknowledge then Ok (cleared true (d_delivery_attempt d) d)
  else if deadline =? 0 then Ok (cleared (d_acked d) (d_delivery_attempt d) d)
  else
    t ← plus_seconds now_secs deadline;
    Ok (with_lease (d_ack_id d) t (d_delivery_attempt d) d).
Definition update_records (name : string) (sub : Subscription) (ids : gset string) (acknowledge : bool)
    (deadline now_secs : Z) (s : Server) : result ApiError Server :=
  records ← map_try (update_record ids acknowledge deadline now_secs) (records_of s name);
  Ok (store_records name (compact_acked records (s_retain_acked_messages sub)) s).
Definition no_empty_ack_id (ack_ids : list string) : Checked :=
  check (negb (existsb (fun a => is_empty (trim a)) ack_ids)) (invalid_argument "ackIds must not contain empty values").

Definition update_ack_deadlines (project subscription_id : string) (ack_ids : list string)
    (ack_deadline_seconds : option Z) (acknowledge : bool) : Api RestResponse :=
  checked_names "subscription" project subscription_id;;
  match ack_ids with
  | [] => mret empty_object
  | _ =>
      lift (no_empty_ack_id ack_ids);;
      s ← gets server;
      match ack_deadline_seconds with
      | None => mret tt
      | Some deadline =>
          guard_err (deadline <? 0) (invalid_argument "ackDeadlineSeconds must be non-negative");;
          guard_err (max_ack_deadline (config s) <? deadline)
            (invalid_argument "ackDeadlineSeconds exceeds maxAckDeadlineSeconds")
      end;;
      let name := subscription_name project subscription_id in
      sub ← found subscriptions name "subscription not found";
      '(now_secs, _) ← now_parts;
      s ← gets server;
      expire_leases_now now_secs;;
      on_server_try (fun s =>
        s' ← update_records name sub (list_to_set ack_ids) acknowledge (default 0 ack_deadline_seconds) now_secs s;
        Ok (tt, s'));;
      persist_or (fun s' => set_messages (messages s) (set_deliveries (deliveries s) s'));;
      mret empty_object
  end.
Definition acknowledge (project subscription_id : string) (ack_ids : list string) : Api RestResponse :=
  update_ack_deadlines project subscription_id ack_ids None true.
Definition modify_ack_deadline (project subscription_id : string) (ack_ids : list string) (deadline : Z) : Api RestResponse :=
  update_ack_deadlines project subscription_id ack_ids (Some deadline) false.

Definition grpc_update_ack_deadline (subscription : string) (ack_ids : list string) (deadline : Z) (acknowledge : bool)
    : Api unit :=
  match ack_ids with
  | [] => mret tt
  | _ =>
      lift (no_empty_ack_id ack_ids);;
      sub ← found subscriptions subscription "subscription not found";
      '(now_secs, _) ← now_parts;
      expire_leases_now now_secs;;
      on_server_try (fun s =>
        s' ← update_records subscription sub (list_to_set ack_ids) acknowledge deadline now_secs s; Ok (tt, s'));;
      persist_keep
  end.
Definition grpc_acknowledge (subscription : string) (ack_ids : list string) : Api unit :=
  checked_name valid_full_subscription_name "subscription" subscription;;
  grpc_update_ack_deadline subscription ack_ids 0 true.
Definition grpc_modify_ack_deadline (subscription : string) (ack_ids : list string) (deadline : Z) : Api unit :=
  checked_name valid_full_subscription_name "subscription" subscription;;
  s ← gets server;
  guard_err (deadline <? 0) (invalid_argument "ackDeadlineSeconds must be non-negative");;
  guard_err (max_ack_deadline (config s) <? deadline)
    (invalid_argument "ackDeadlineSeconds exceeds maxAckDeadlineSeconds");;
  grpc_update_ack_deadline subscription ack_ids deadline false.

(** ** Seeking *)

(** Published at or after the second [seek_secs]. *)
Definition replayable (s : Server) (seek_secs : Z) (d : DeliveryRecord) : bool :=
  match messages s !! d_message_id d with
  | Some m => match parse_rfc3339 (m_publish_time m) with Some (secs, _) => seek_secs <=? secs | None => false end
  | None => false
  end.
(** [seek_deliveries_by_time] and its copy for gRPC. *)
Definition seek_deliveries_by_time (s : Server) (sub_name : string) (seek_secs : Z) : list DeliveryRecord :=
  map (fun d => default_delivery (d_message_id d)) (List.filter (replayable s seek_secs) (records_of s sub_name)).

(** [restore_deliveries_entry], with the messages. *)
Definition restore_entry (name : string) (s s' : Server) : Server :=
  set_messages (messages s) (on_deliveries (put_back name (deliveries s !! name)) s').
Definition replay (name : string) (records : list DeliveryRecord) : Api RestResponse :=
  s ← gets server;
  change (store_records name records);;
  persist_or (restore_entry name s);;
  mret empty_object.
Definition snapshot_of (snapshot name : string) : Api Snapshot :=
  snap ← live_snapshot snapshot;
  guard_err (negb (str_eqb (sn_subscription snap) name))
    (failed_precondition "snapshot belongs to a different subscription");;
  mret snap.
Definition seek (project subscription_id snapshot time : string) : Api RestResponse :=
  checked_project_first "subscription" project subscription_id;;
  guard_err (is_empty snapshot && is_empty time) (invalid_argument "snapshot or time is required");;
  guard_err (negb (is_empty snapshot) && negb (is_empty time)) (invalid_argument "only one of snapshot or time may be set");;
  seek_secs ← (if is_empty time then mret 0
               else match parse_rfc3339 time with
                    | Some (secs, _) => mret secs
                    | None => fail (invalid_argument "invalid seek time")
                    end);
  guard_err (negb (is_empty snapshot) && negb (valid_full_snapshot_name snapshot))
    (invalid_argument "invalid snapshot name");;
  let name := subscription_name project subscription_id in
  found subscriptions name "subscription not found";;
  if is_empty time then
    snap ← snapshot_of snapshot name;
    replay name (snapshot_deliveries (sn_deliveries snap))
  else
    s ← gets server;
    replay name (seek_deliveries_by_time s name seek_secs).

Definition grpc_seek (subscription : string) (snapshot : option string) (time_secs : option Z) : Api unit :=
  checked_name valid_full_subscription_name "subscription" subscription;;
  guard_err (negb (bool_decide (is_Some snapshot)) && negb (bool_decide (is_Some time_secs)))
    (invalid_argument "snapshot or time is required");;
  found subscriptions subscription "subscription not found";;
  match time_secs, snapshot with
  | Some secs, _ =>
      change (fun s => on_deliveries <[subscription := seek_deliveries_by_time s subscription secs]> s)
  | None, Some snap_name =>
      checked_name valid_full_snapshot_name "snapshot" snap_name;;
      snap ← snapshot_of snap_name subscription;
      change (on_deliveries <[subscription := snapshot_deliveries (sn_deliveries snap)]>)
  | None, None => mret tt
  end;;
  change (set_messages_dirty true);;
  persist_keep.
End Acks.

(** ** Streaming pull *)

Section Streaming.
Context `{Env, SerdeJson, SerdePretty, DebugStr}.

(** The stream's leases: ack id to size in bytes. *)
Abbreviation Outstanding := (gmap string Z).

Definition grpc_validate_streaming_subscription (subscription : string) : Api unit :=
  sub ← found subscriptions subscription "subscription not found"; pullable sub.
Definition grpc_stream_ack_deadline (seconds : Z) : Api Z :=
  s ← gets server;
  guard_err (seconds <? 0) (invalid_argument "streamAckDeadlineSeconds must be non-negative");;
  guard_err (max_ack_deadline (config s) <? seconds)
    (invalid_argument "streamAckDeadlineSeconds exceeds maxAckDeadlineSeconds");;
  mret (if seconds =? 0 then default_ack_deadline (config s) else seconds).

(** [streaming_received_message_size] and its copy in grpc.rs *)
Definition attributes_size (m : gmap string string) : Z :=
  foldl (fun n e => n + (str_len e.1 + str_len e.2)) 0 (btree_iter m).
Definition streaming_received_message_size (ack_id : string) (m : PubsubMessage) : Z :=
  match decode_base64_bytes (m_data m) with Some l => Z.of_nat (length l) | None => 0 end
  + str_len ack_id + str_len (m_ordering_key m) + attributes_size (m_attributes m).
Definition received_size (r : Received) : Z := streaming_received_message_size (rc_ack_id r) (rc_message r).

(** [release_unsent_streaming_ack_id]: the first unacknowledged record with the id. *)
Fixpoint release_unsent (ack_id : string) (l : list DeliveryRecord) : list DeliveryRecord :=
  match l with
  | [] => []
  | d :: r =>
      if negb (str_eqb (d_ack_id d) ack_id) || d_acked d then d :: release_unsent ack_id r
      else cleared false (if 0 <? d_delivery_attempt d then d_delivery_attempt d - 1 else d_delivery_attempt d) d :: r
  end.
(** How many received messages fit; the first always does. *)
Fixpoint fitting (first : bool) (l : list Received) (remaining : Z) : nat :=
  match l with
  | [] => O
  | r :: l' =>
      if (remaining <? received_size r) && negb first then O else S (fitting false l' (remaining - received_size r))
  end.
Definition trim_batch (max_outstanding_bytes outstanding_bytes : Z) (received : list Received) (records : list DeliveryRecord)
    : list Received * list DeliveryRecord :=
  if 0 <? max_outstanding_bytes then
    let keep := fitting true received (max_outstanding_bytes - outstanding_bytes) in
    (take keep received, foldl (fun l r => release_unsent (rc_ack_id r) l) records (drop keep received))
  else (received, records).

Definition grpc_streaming_response (subscription : string) (max_messages ack_deadline max_outstanding_bytes outstanding_bytes : Z)
    : Api (list Received) :=
  sub ← found subscriptions subscription "subscription not found";
  pullable sub;;
  s0 ← gets server;
  match records_of s0 (s_name sub) with
  | [] => mret []
  | _ =>
      '(now_secs, s) ← begin_pull;
      '(received, records) ← pull_with_ack_deadline_core (s_name sub) sub max_messages now_secs ack_deadline;
      match received with
      | [] => mret []
      | _ =>
          let '(received, records) := trim_batch max_outstanding_bytes outstanding_bytes received records in
          change (store_records (s_name sub) (compact_acked records (s_retain_acked_messages sub)));;
          persist_or (restore_pull s);;
          mret received
      end
  end.

(** [grpc_prune_outstanding]: the ids whose lease is still active. *)
Definition active_ack_ids (now_secs : Z) (l : list DeliveryRecord) : gset string :=
  list_to_set (map d_ack_id
    (List.filter (fun d => negb (is_empty (d_ack_id d) || d_acked d || negb (leased now_secs d))) l)).
Definition grpc_prune_outstanding (subscription : string) (outstanding : Outstanding) : Api Outstanding :=
  if bool_decide (outstanding = ∅) then mret outstanding
  else
    '(now_secs, _) ← now_parts;
    expire_leases_now now_secs;;
    s ← gets server;
    let active := active_ack_ids now_secs (records_of s subscription) in
    mret (filter (fun e => e.1 ∈ active) outstanding).

(** Clears the lease of the first unacknowledged record with the id, if any. *)
Fixpoint release_one (ack_id : string) (l : list DeliveryRecord) : option (list DeliveryRecord) :=
  match l with
  | [] => None
  | d :: r =>
      if negb (str_eqb (d_ack_id d) ack_id) || d_acked d then r' ← release_one ack_id r; Some (d :: r')
      else Some (cleared false (d_delivery_attempt d) d :: r)
  end.
Definition release_all (l : list DeliveryRecord) (ids : list string) : list DeliveryRecord * bool :=
  foldl (fun acc id => match release_one id acc.1 with Some l' => (l', true) | None => acc end) (l, false) ids.
Definition grpc_release_outstanding (subscription : string) (outstanding : Outstanding) : Api unit :=
  if bool_decide (outstanding = ∅) then mret tt
  else
    s ← gets server;
    match subscriptions s !! subscription with
    | None => mret tt
    | Some sub =>
        let '(records, changed) := release_all (records_of s subscription) (btree_iter outstanding).*1 in
        if changed then
          change (store_records subscription (compact_acked records (s_retain_acked_messages sub)));;
          catch (persist_or (on_deliveries (put_back subscription (deliveries s !! subscription))));;
          mret tt
        else mret tt
    end.

(** The stream driver of grpc.rs: what a client message carries, and the stream's own state. *)
Record StreamingPullRequest := mkStreamRequest {
  sp_subscription : string; sp_ack_ids : list string; sp_modify_seconds : list Z; sp_modify_ack_ids : list string;
  sp_stream_ack_deadline : Z; sp_max_messages : Z; sp_max_bytes : Z }.
Record Stream := mkStream { st_ack_deadline : Z; st_outstanding : Outstanding }.

Definition modify_one (subscription : string) (st : Stream) (e : string * Z) : Api Stream :=
  let '(ack_id, deadline) := e in
  s ← gets server;
  guard_err (deadline <? 0) (invalid_argument "modifyDeadlineSeconds must be non-negative");;
  guard_err (max_ack_deadline (config s) <? deadline)
    (invalid_argument "modifyDeadlineSeconds exceeds maxAckDeadlineSeconds");;
  grpc_update_ack_deadline subscription [ack_id] deadline false;;
  mret (if deadline =? 0 then mkStream (st_ack_deadline st) (delete ack_id (st_outstanding st)) else st).
Definition apply_streaming_pull_request (subscription : string) (request : StreamingPullRequest) (initial : bool)
    (st : Stream) : Api Stream :=
  guard_err (negb initial && negb (is_empty (sp_subscription request)) && negb (str_eqb (sp_subscription request) subscription))
    (invalid_argument "subscription must not change on a streaming pull stream");;
  guard_err (negb initial && negb (sp_max_messages request =? 0))
    (invalid_argument "maxOutstandingMessages can only be set on the initial request");;
  guard_err (negb initial && negb (sp_max_bytes request =? 0))
    (invalid_argument "maxOutstandingBytes can only be set on the initial request");;
  st ← (if sp_stream_ack_deadline request =? 0 then mret st
        else d ← grpc_stream_ack_deadline (sp_stream_ack_deadline request); mret (mkStream d (st_outstanding st)));
  guard_err (negb (length (sp_modify_ack_ids request) =? length (sp_modify_seconds request))%nat)
    (invalid_argument "modifyDeadlineAckIds and modifyDeadlineSeconds must have the same length");;
  st ← match sp_ack_ids request with
       | [] => mret st
       | ids => grpc_update_ack_deadline subscription ids 0 true;;
                mret (mkStream (st_ack_deadline st) (foldl (fun m id => delete id m) (st_outstanding st) ids))
       end;
  for_each (zip (sp_modify_ack_ids request) (sp_modify_seconds request)) st (fun e st => modify_one subscription st e).

Definition streaming_outstanding_bytes (o : Outstanding) : Z := foldl (fun n e => n + e.2) 0 (btree_iter o).
Definition streaming_has_capacity (o : Outstanding) (max_messages max_bytes : Z) : bool :=
  negb ((0 <? max_messages) && (max_messages <=? Z.of_nat (size o)))
  && negb ((0 <? max_bytes) && (max_bytes <=? streaming_outstanding_bytes o)).
Definition streaming_remaining_capacity (o : Outstanding) (max_messages : Z) : Z :=
  if max_messages <=? 0 then 1 else Z.max 0 (max_messages - Z.of_nat (size o)).
(** One delivery tick of the driver loop: the batch to send, if any. *)
Definition stream_tick (subscription : string) (max_messages max_bytes : Z) (st : Stream) : Api (list Received * Stream) :=
  o ← grpc_prune_outstanding subscription (st_outstanding st);
  let st := mkStream (st_ack_deadline st) o in
  if negb (streaming_has_capacity o max_messages max_bytes) then mret ([], st)
  else
    let remaining := streaming_remaining_capacity o max_messages in
    if remaining <=? 0 then mret ([], st)
    else
      received ← grpc_streaming_response subscription remaining (st_ack_deadline st) max_bytes
                   (streaming_outstanding_bytes o);
      mret (received,
            mkStream (st_ack_deadline st) (foldl (fun m r => <[rc_ack_id r := received_size r]> m) o received)).
End Streaming.
