(* ===== verification/PubSystem.v ===== *)
(** The Pub/Sub service as a whole: the projections of the introspection API
    (services/pubsub/src/dashboard.rs, introspect.rs), the REST router (http.rs,
    patch.rs) and the calls of both protocols as one type with one interpreter. *)

From S2P Require Import Prelude RustStr RustNum RustText Json PubTime PubModel PubValidation PubResources PubGrpc PubMessages.
Local Open Scope string_scope.
Local Open Scope Z_scope.

(** ** Introspection *)

Record DeliverySnapshot := mkDeliverySnapshot {
  ds_message_id : string; ds_subscription : string; ds_publish_time : string; ds_ordering_key : string;
  ds_state : string; ds_lease_deadline : string; ds_next_delivery_time : string; ds_delivery_attempt : Z }.
Definition delivery_snapshot_value (d : DeliverySnapshot) : Value :=
  struct_value [
    field "messageId" (JString (ds_message_id d)); str_field "subscription" (ds_subscription d);
    str_field "publishTime" (ds_publish_time d); str_field "orderingKey" (ds_ordering_key d);
    field "state" (JString (ds_state d)); str_field "leaseDeadline" (ds_lease_deadline d);
    str_field "nextDeliveryTime" (ds_next_delivery_time d);
    field "deliveryAttempt" (int_value (ds_delivery_attempt d))].
Definition delivery_snapshot (s : Server) (now_secs : Z) (subscription : string) (d : DeliveryRecord) : DeliverySnapshot :=
  let message := messages s !! d_message_id d in
  let snap state lease next :=
    mkDeliverySnapshot (d_message_id d) subscription
      (match message with Some m => m_publish_time m | None => "" end)
      (match message with Some m => m_ordering_key m | None => "" end) state lease next (d_delivery_attempt d) in
  if leased now_secs d then snap "in-flight" (d_lease_deadline d) ""
  else if after (d_next_delivery_time d) now_secs then snap "delayed" "" (d_next_delivery_time d)
  else snap "backlog" "" "".

(** [copy_any_map], [safe_push_config_snapshot] *)
Definition safe_push_config_snapshot (config : option Value) : option Value :=
  match object_of config with
  | None | Some [] => None
  | Some m =>
      let endpoint := trim (default "" (obj_get "pushEndpoint" m ≫= as_str)) in
      if is_empty endpoint then None else Some (json1 "pushEndpoint" (JString endpoint))
  end.
Definition live_records (l : list DeliveryRecord) : list DeliveryRecord := List.filter (fun d => negb (d_acked d)) l.
Definition count_where {A} (p : A -> bool) (l : list A) : Z := Z.of_nat (length (List.filter p l)).
(** The last 20. *)
Definition recent {A} (l : list A) : list A := drop (length l - 20) l.
Definition subscription_snapshot_value (s : Server) (now_secs : Z) (e : string * Subscription) : Value :=
  let '(name, sub) := e in
  let live := live_records (records_of s name) in
  struct_value [
    field "name" (JString (s_name sub)); field "topic" (JString (s_topic sub));
    labels_field "labels" (s_labels sub); str_field "createdAt" (s_created_at sub);
    str_field "updatedAt" (s_updated_at sub);
    field "ackDeadlineSeconds" (int_value (s_ack_deadline_seconds sub));
    bool_field "enableMessageOrdering" (s_enable_message_ordering sub);
    bool_field "enableExactlyOnceDelivery" (s_enable_exactly_once_delivery sub);
    bool_field "retainAckedMessages" (s_retain_acked_messages sub);
    str_field "messageRetentionDuration" (s_message_retention_duration sub);
    value_field "expirationPolicy" (normalize_any_map (s_expiration_policy sub));
    str_field "filter" (s_filter sub);
    value_field "deadLetterPolicy" (normalize_any_map (s_dead_letter_policy sub));
    value_field "retryPolicy" (normalize_any_map (s_retry_policy sub));
    value_field "pushConfig" (safe_push_config_snapshot (s_push_config sub));
    field "backlogMessages" (int_value (count_where (fun d => negb (leased now_secs d)) live));
    field "inFlightMessages" (int_value (count_where (leased now_secs) live));
    field "totalRetainedMessages" (int_value (Z.of_nat (length live)));
    field "maxDeliveryAttemptSeen" (int_value (foldl (fun m d => Z.max m (d_delivery_attempt d)) 0 live));
    list_field "recentDeliveries" delivery_snapshot_value (recent (map (delivery_snapshot s now_secs "") live))].
Definition topic_snapshot_value (s : Server) (e : string * Topic) : Value :=
  let '(name, t) := e in
  struct_value [
    field "name" (JString name);
    field "subscriptionCount" (int_value (count_where (fun sub => str_eqb (s_topic sub) name) (values (subscriptions s))));
    str_field "createdAt" (t_created_at t); str_field "updatedAt" (t_updated_at t)].

Section System.
Context `{Env, SerdeJson, SerdePretty, DebugStr}.

Definition snapshot : Api Value :=
  '(now_secs, _) ← now_parts;
  expire_leases_now now_secs;;
  cleanup_retained_messages now_secs;;
  s ← gets server;
  mret (struct_value [
    field "status" (JString "running"); field "running" (JBool true);
    field "project" (JString (cfg_project_or_default (config s)));
    field "topics" (JArray (map (topic_snapshot_value s) (btree_iter (topics s))));
    field "subscriptions" (JArray (map (subscription_snapshot_value s now_secs) (btree_iter (subscriptions s))))]).

(** The records of a message, in key order of their subscriptions. *)
Definition message_deliveries (s : Server) (now_secs : Z) (message_id : string) : list DeliverySnapshot :=
  btree_iter (deliveries s) ≫= fun e =>
    map (delivery_snapshot s now_secs e.1)
      (List.filter (fun d => str_eqb (d_message_id d) message_id && negb (d_acked d)) e.2).
Definition message_snapshot (message_id : string) : Api (option Value) :=
  '(now_secs, _) ← now_parts;
  cleanup_retained_messages now_secs;;
  s ← gets server;
  mret match messages s !! message_id with
       | None => None
       | Some m => Some (struct_value [
           field "messageId" (JString (m_message_id m)); str_field "publishTime" (m_publish_time m);
           str_field "orderingKey" (m_ordering_key m);
           list_field "subscriptions" delivery_snapshot_value (message_deliveries s now_secs message_id)])
       end.

Definition render_error (e : ApiError) : RestResponse := mkResponse (e_status e) (body_bytes e) None false.
Definition not_allowed (message allow : string) : RestResponse :=
  mkResponse 405 (body_bytes (api_error 405 "METHOD_NOT_ALLOWED" message)) (Some allow) false.
Definition handle_introspect (method path : string) : Api RestResponse :=
  if negb (str_eqb method "GET") then mret (not_allowed "introspection endpoints are read-only" "GET")
  else
    let rest := default "" (strip_prefix "/_introspect/" path) in
    let missing := mret (render_error (not_found "introspection endpoint not found")) in
    if str_eqb rest "snapshot" then v ← snapshot; mret (ok_struct v)
    else match strip_prefix "messages/" rest with
         | Some id =>
             if negb (is_empty id) && negb (contains "/" id) then
               v ← message_snapshot id;
               mret match v with
                    | Some v => ok_struct v
                    | None => render_error (not_found "message does not exist")
                    end
             else missing
         | None => missing
         end.

(** ** Patches (patch.rs) *)

Definition topic_fields : list (string * string) :=
  [("name", "name"); ("labels", "labels"); ("messageRetentionDuration", "messageRetentionDuration");
   ("message_retention_duration", "messageRetentionDuration"); ("schemaSettings", "schemaSettings");
   ("schema_settings", "schemaSettings"); ("kmsKeyName", "kmsKeyName"); ("kms_key_name", "kmsKeyName")].
Definition subscription_fields : list (string * string) :=
  [("name", "name"); ("topic", "topic"); ("labels", "labels");
   ("ackDeadlineSeconds", "ackDeadlineSeconds"); ("ack_deadline_seconds", "ackDeadlineSeconds");
   ("enableMessageOrdering", "enableMessageOrdering"); ("enable_message_ordering", "enableMessageOrdering");
   ("enableExactlyOnceDelivery", "enableExactlyOnceDelivery");
   ("enable_exactly_once_delivery", "enableExactlyOnceDelivery");
   ("retainAckedMessages", "retainAckedMessages"); ("retain_acked_messages", "retainAckedMessages");
   ("messageRetentionDuration", "messageRetentionDuration");
   ("message_retention_duration", "messageRetentionDuration");
   ("expirationPolicy", "expirationPolicy"); ("expiration_policy", "expirationPolicy"); ("filter", "filter");
   ("deadLetterPolicy", "deadLetterPolicy"); ("dead_letter_policy", "deadLetterPolicy");
   ("retryPolicy", "retryPolicy"); ("retry_policy", "retryPolicy");
   ("pushConfig", "pushConfig"); ("push_config", "pushConfig")].
Definition normalize_in (prefix : string) (table : list (string * string)) (fld : string) : option string :=
  let fld := default fld (strip_prefix prefix fld) in snd <$> List.find (fun e => str_eqb e.1 fld) table.
Definition normalize_field : string -> option string := normalize_in "topic." topic_fields.
Definition normalize_sub_field : string -> option string := normalize_in "subscription." subscription_fields.

Definition add_field (fields : list string) (f : string) : list string :=
  if existsb (str_eqb f) fields then fields else (fields ++ [f])%list.
Fixpoint mask_loop (normalize : string -> option string) (parts fields : list string) : option (list string) :=
  match parts with
  | [] => Some fields
  | raw :: r =>
      let f := trim raw in
      if is_empty f then mask_loop normalize r fields
      else n ← normalize f; mask_loop normalize r (add_field fields n)
  end.
Definition parse_mask_generic (mask : string) (normalize : string -> option string) : option (list string) :=
  mask_loop normalize (split_char "," mask) [].
Definition resolve_fields_generic (root body : list (string * Value)) (query : string)
    (normalize : string -> option string) : option (list string) :=
  if negb (is_empty query) then parse_mask_generic query normalize
  else match obj_get "updateMask" root with
       | Some raw =>
           match as_str raw with
           | Some mask => parse_mask_generic mask normalize
           | None => paths ← arr_member "paths" raw; parse_mask_generic (str_join "," (omap as_str paths)) normalize
           end
       | None => Some (foldl add_field [] (omap normalize body.*1))
       end.
(** The body, unwrapped from [key] if it is there, with the fields to change. *)
Definition decode_patch {A} (key : string) (from_value : Value -> option A) (normalize : string -> option string)
    (body query : string) : option (A * list string) :=
  root ← json_from_slice (if is_empty body then "{}" else body) ≫= as_object;
  inner ← match obj_get key root with Some v => as_object v | None => Some root end;
  a ← from_value (JObject inner);
  fields ← resolve_fields_generic root inner query normalize;
  Some (a, fields).
Definition decode_topic_patch (body query : string) : option (Topic * list string) :=
  decode_patch "topic" topic_from_value normalize_field body query.
Definition decode_subscription_patch (body query : string) : option (Subscription * list string) :=
  decode_patch "subscription" subscription_from_value normalize_sub_field body query.

(** ** Authorization *)

(** [constant_time_eq]: the xors accumulated. *)
Fixpoint xor_diff (a b : string) (diff : Z) : Z :=
  match a, b with
  | String x a', String y b' => xor_diff a' b' (Z.lor diff (Z.lxor (byte_of x) (byte_of y)))
  | _, _ => diff
  end.
Definition constant_time_eq (a b : string) : bool :=
  (str_len a =? str_len b) && (xor_diff a b 0 =? 0).
(** [trim().to_lowercase()] against ASCII words: a non-ASCII character never lowercases
    to one of them, except the Kelvin sign to [k], which no word has. *)
Definition authorized (c : Config) (bearer_token : string) : bool :=
  let mode := to_ascii_lowercase (trim (cfg_auth_mode c)) in
  if str_eqb mode "" || str_eqb mode "off" || str_eqb mode "relaxed" then true
  else if str_eqb mode "oauth-relaxed" then negb (is_empty bearer_token)
  else if str_eqb mode "bearer-dev" || str_eqb mode "strict" then
    let expected := trim (cfg_bearer_token c) in
    if is_empty bearer_token || is_empty expected then false else constant_time_eq bearer_token expected
  else false.

(** ** The REST router (http.rs) *)

Record Request := mkRequest {
  q_method : string; q_path : string; q_query : gmap string string; q_headers : gmap string string; q_body : string }.
Definition bearer_token (r : Request) : string :=
  let auth := trim (default "" (q_headers r !! "authorization")) in
  match split_once " " auth with
  | Some (scheme, token) => if eq_ignore_ascii_case scheme "bearer" then trim token else ""
  | None => ""
  end.
Definition is_iam_action (action : string) : bool :=
  str_eqb action "getIamPolicy" || str_eqb action "setIamPolicy" || str_eqb action "testIamPermissions".
Definition query_int (r : Request) (k : string) : Z := default 0 (q_query r !! k ≫= parse_i64).
Definition query_str (r : Request) (k : string) : string := default "" (q_query r !! k).
Definition body_is_invalid_json (r : Request) : bool :=
  negb (is_empty (q_body r)) && negb (bool_decide (is_Some (json_from_slice (q_body r)))).
Definition parse_body (body : string) : Value :=
  if is_empty body then JObject [] else default (JObject []) (json_from_slice body).
Definition string_array (body : Value) (k : string) : list string := omap as_str (default [] (arr_member k body)).
Definition int_member (k : string) (v : Value) : Z := default 0 (member k v ≫= as_i64_value).
Definition method_not_allowed (allow : string) : RestResponse := not_allowed "method not allowed" allow.
(** [to_response]: an error becomes its rendering. *)
Definition to_response (m : Api RestResponse) : Api RestResponse :=
  r ← catch m; mret match r with inl resp => resp | inr e => render_error e end.
Definition bad_json : RestResponse := render_error (invalid_argument "invalid json request").
Definition only (methods : string) (ok : bool) (m : Api RestResponse) : Api RestResponse :=
  if ok then m else mret (method_not_allowed methods).
Definition with_json (r : Request) (m : Api RestResponse) : Api RestResponse :=
  if body_is_invalid_json r then mret bad_json else m.

Definition route_topic_action (r : Request) (body : Value) (project id action : string) : option (Api RestResponse) :=
  let post := str_eqb (q_method r) "POST" in
  if str_eqb action "publish" then
    Some (only "POST" post (with_json r (to_response (publish project id (default [] (arr_member "messages" body))))))
  else if is_iam_action action then Some (only "POST" post (to_response (topic_iam project id action body)))
  else None.
Definition route_subscription_action (r : Request) (body : Value) (project id action : string) : Api RestResponse :=
  only "POST" (str_eqb (q_method r) "POST")
    (if str_eqb action "pull" then to_response (pull project id (int_member "maxMessages" body))
     else if str_eqb action "acknowledge" then to_response (acknowledge project id (string_array body "ackIds"))
     else if str_eqb action "modifyAckDeadline" then
       to_response (modify_ack_deadline project id (string_array body "ackIds") (int_member "ackDeadlineSeconds" body))
     else if str_eqb action "modifyPushConfig" then
       to_response (modify_push_config project id (member "pushConfig" body))
     else if str_eqb action "detach" then to_response (detach_subscription project id)
     else if str_eqb action "seek" then
       with_json r (to_response (seek project id (str_or_empty "snapshot" body) (str_or_empty "time" body)))
     else if is_iam_action action then to_response (subscription_iam project id action body)
     else mret (render_error (not_found "not found"))).
Definition method_is (r : Request) (m : string) : bool := str_eqb (q_method r) m.
Definition route_topic (r : Request) (body : Value) (project id : string) : Api RestResponse :=
  if method_is r "PUT" then
    with_json r (to_response (create_topic project id (default default_topic (topic_from_value body))))
  else if method_is r "GET" then to_response (get_topic project id)
  else if method_is r "PATCH" then
    match decode_topic_patch (q_body r) (query_str r "updateMask") with
    | Some (t, fields) => to_response (patch_topic project id t fields)
    | None => mret bad_json
    end
  else if method_is r "DELETE" then to_response (delete_topic project id)
  else mret (method_not_allowed "GET, PUT, PATCH, DELETE").
Definition route_subscription (r : Request) (body : Value) (project id : string) : Api RestResponse :=
  if method_is r "PUT" then
    with_json r (to_response (create_subscription project id (default default_subscription (subscription_from_value body))))
  else if method_is r "GET" then to_response (get_subscription project id)
  else if method_is r "PATCH" then
    match decode_subscription_patch (q_body r) (query_str r "updateMask") with
    | Some (sub, fields) => to_response (patch_subscription project id sub fields)
    | None => mret bad_json
    end
  else if method_is r "DELETE" then to_response (delete_subscription project id)
  else mret (method_not_allowed "GET, PUT, PATCH, DELETE").
Definition route_snapshot (r : Request) (body : Value) (project id : string) : Api RestResponse :=
  if method_is r "PUT" then with_json r (to_response (create_snapshot project id (str_or_empty "subscription" body)))
  else if method_is r "GET" then to_response (get_snapshot project id)
  else if method_is r "DELETE" then to_response (delete_snapshot project id)
  else mret (method_not_allowed "GET, PUT, DELETE").
Definition valid_view (view : string) : bool := str_eqb view "" || str_eqb view "FULL" || str_eqb view "BASIC".
Definition with_view (r : Request) (m : string -> Api RestResponse) : Api RestResponse :=
  let view := query_str r "view" in
  if valid_view view then m view else mret (render_error (invalid_argument "invalid schema view")).
Definition request_schema (body : Value) : Schema := default default_schema (schema_from_value body).
Definition route_schema (r : Request) (body : Value) (project id : string) : Api RestResponse :=
  if method_is r "PUT" then with_json r (to_response (create_schema project id (request_schema body)))
  else if method_is r "GET" then with_view r (fun view => to_response (get_schema project id view))
  else if method_is r "DELETE" then to_response (delete_schema project id)
  else mret (method_not_allowed "GET, PUT, DELETE").
Definition route_schemas (r : Request) (body : Value) (project : string) (page_size page_token : Z) : Api RestResponse :=
  if method_is r "POST" then
    with_json r (to_response (create_schema project (trim (query_str r "schemaId")) (request_schema body)))
  else
    only "GET, POST" (method_is r "GET")
      (with_view r (fun view => to_response (list_schemas project view page_size page_token))).

(** The chain of [if let Some(..) = paths::..(path)]: the first that matches. *)
Fixpoint first_route (l : list (option (Api RestResponse))) : Api RestResponse :=
  match l with
  | [] => mret (render_error (not_found "not found"))
  | Some m :: _ => m
  | None :: r => first_route r
  end.
Definition provider_routes (r : Request) : list (option (Api RestResponse)) :=
  let path := q_path r in
  let size := query_int r "pageSize" in
  let token := query_int r "pageToken" in
  let body := parse_body (q_body r) in
  let get := only "GET" (method_is r "GET") in
  [ (e ← topic_action_parts path; let '(p, id, a) := e in route_topic_action r body p id a);
    (fun e => let '(p, id, a) := e in route_subscription_action r body p id a) <$> subscription_action_parts path;
    (fun e => get (to_response (list_topic_subscriptions e.1 e.2 size token))) <$> topic_subscriptions_parts path;
    (fun e => get (to_response (list_topic_snapshots e.1 e.2 size token))) <$> topic_snapshots_parts path;
    (fun p => get (to_response (list_topics p size token))) <$> topics_collection path;
    (fun e => route_topic r body e.1 e.2) <$> topic_name_parts path;
    (fun p => get (to_response (list_snapshots p size token))) <$> snapshots_collection path;
    (fun e => route_snapshot r body e.1 e.2) <$> snapshot_name_parts path;
    (fun p => only "POST" (method_is r "POST") (with_json r (to_response (validate_message p body))))
      <$> schemas_validate_message path;
    (fun p => route_schemas r body p size token) <$> schemas_collection path;
    (fun e => route_schema r body e.1 e.2) <$> schema_name_parts path;
    (fun p => get (to_response (list_subscriptions p size token))) <$> subscriptions_collection path;
    (fun e => route_subscription r body e.1 e.2) <$> subscription_name_parts path ].
Definition health_body : Value :=
  JObject [("protocol", JString "rest"); ("service", JString "pubsub"); ("status", JString "running")].
Definition unauthenticated : RestResponse :=
  mkResponse 401 (body_bytes (api_error 401 "UNAUTHENTICATED" "invalid authentication credentials")) None true.
Definition route (r : Request) : Api RestResponse :=
  s ← gets server;
  if negb (authorized (config s) (bearer_token r)) then mret unauthenticated
  else if bool_decide (is_Some (load_err s)) then mret (render_error store_unavailable)
  else if str_eqb (q_path r) "/healthz" || str_eqb (q_path r) "/readyz" then
    if method_is r "GET" then mret (ok_struct health_body)
    else mret (render_error (api_error 405 "METHOD_NOT_ALLOWED" "method not allowed"))
  else if starts_with "/_introspect/" (q_path r) then handle_introspect (q_method r) (q_path r)
  else first_route (provider_routes r).
End System.

(** ** The calls *)

Inductive Call :=
| Rest (r : Request)
| CreateTopic (t : Topic) | GetTopic (topic : string) | UpdateTopic (t : Topic) (mask : list string)
| ListTopics (project : string) (size : Z) (token : string)
| ListTopicSubscriptions (topic : string) (size : Z) (token : string)
| ListTopicSnapshots (topic : string) (size : Z) (token : string)
| Publish (topic : string) (msgs : list Incoming)
| DeleteTopic (topic : string) | DetachSubscription (sub : string)
| CreateSubscription (s : Subscription) | GetSubscription (sub : string)
| UpdateSubscription (s : Subscription) (mask : list string)
| ListSubscriptions (project : string) (size : Z) (token : string)
| DeleteSubscription (sub : string) | ModifyPushConfig (sub : string) (config : option Value)
| Pull (sub : string) (max : Z) | PullMayReturn (sub : string)
| Acknowledge (sub : string) (ids : list string) | ModifyAckDeadline (sub : string) (ids : list string) (seconds : Z)
| GetSnapshot (snapshot : string) | ListSnapshots (project : string) (size : Z) (token : string)
| CreateSnapshot (name sub : string) (labels : gmap string string)
| DeleteSnapshot (snapshot : string) | UpdateSnapshot (s : Snapshot) (mask : list string)
| Seek (sub : string) (snapshot : option string) (time_secs : option Z)
| CreateSchema (project id : string) (s : Schema) | GetSchema (name view : string)
| ListSchemas (project view : string) (size : Z) (token : string)
| ListSchemaRevisions (name view : string) (size : Z) (token : string)
| CommitSchema (name : string) (s : Schema) | RollbackSchema (name revision : string)
| DeleteSchemaRevision (name revision : string) | DeleteSchema (name : string)
| ValidateSchema (s : Schema)
| ValidateMessage (project name : string) (inline : option Schema) (message : list Z) (encoding : string)
| StreamRequest (sub : string) (r : StreamingPullRequest) (initial : bool) (st : Stream)
| StreamTick (sub : string) (max_messages max_bytes : Z) (st : Stream)
| StreamClose (sub : string) (st : Stream).

Inductive Reply :=
| RRest (r : RestResponse) | RUnit | RBool (b : bool)
| RTopic (t : Topic) | RTopics (l : list Topic) (next : string)
| RNames (l : list string) (next : string) | RIds (l : list string)
| RSub (s : Subscription) | RSubs (l : list Subscription) (next : string)
| RReceived (l : list Received)
| RSnap (s : Snapshot) | RSnaps (l : list Snapshot) (next : string)
| RSchema (s : Schema) | RSchemas (l : list Schema) (next : string)
| RStream (l : list Received) (st : Stream).

Section Run.
Context `{Env, SerdeJson, SerdePretty, DebugStr}.

Definition reply {A} (f : A -> Reply) (m : Api A) : Api Reply := a ← m; mret (f a).
Definition page_reply {A} (f : list A -> string -> Reply) (m : Api (list A * string)) : Api Reply :=
  reply (fun p => f p.1 p.2) m.
Definition run (c : Call) : Api Reply :=
  match c with
  | Rest r => reply RRest (route r)
  | CreateTopic t => reply RTopic (grpc_create_topic t)
  | GetTopic t => reply RTopic (grpc_get_topic t)
  | UpdateTopic t mask => reply RTopic (grpc_update_topic t mask)
  | ListTopics p size token => page_reply RTopics (grpc_list_topics p size token)
  | ListTopicSubscriptions t size token => page_reply RNames (grpc_list_topic_subscriptions t size token)
  | ListTopicSnapshots t size token => page_reply RNames (grpc_list_topic_snapshots t size token)
  | Publish t msgs => reply RIds (grpc_publish t msgs)
  | DeleteTopic t => reply (fun _ => RUnit) (grpc_delete_topic t)
  | DetachSubscription s => reply (fun _ => RUnit) (grpc_detach_subscription s)
  | CreateSubscription s => reply RSub (grpc_create_subscription s)
  | GetSubscription s => reply RSub (grpc_get_subscription s)
  | UpdateSubscription s mask => reply RSub (grpc_update_subscription s mask)
  | ListSubscriptions p size token => page_reply RSubs (grpc_list_subscriptions p size token)
  | DeleteSubscription s => reply (fun _ => RUnit) (grpc_delete_subscription s)
  | ModifyPushConfig s config => reply (fun _ => RUnit) (grpc_modify_push_config s config)
  | Pull s max => reply RReceived (grpc_pull s max)
  | PullMayReturn s => reply RBool (grpc_pull_may_return s)
  | Acknowledge s ids => reply (fun _ => RUnit) (grpc_acknowledge s ids)
  | ModifyAckDeadline s ids seconds => reply (fun _ => RUnit) (grpc_modify_ack_deadline s ids seconds)
  | GetSnapshot s => reply RSnap (grpc_get_snapshot s)
  | ListSnapshots p size token => page_reply RSnaps (grpc_list_snapshots p size token)
  | CreateSnapshot name s labels => reply RSnap (grpc_create_snapshot name s labels)
  | DeleteSnapshot s => reply (fun _ => RUnit) (grpc_delete_snapshot s)
  | UpdateSnapshot s mask => reply RSnap (grpc_update_snapshot s mask)
  | Seek s snap time => reply (fun _ => RUnit) (grpc_seek s snap time)
  | CreateSchema p id s => reply RSchema (grpc_create_schema p id s)
  | GetSchema name view => reply RSchema (grpc_get_schema name view)
  | ListSchemas p view size token => page_reply RSchemas (grpc_list_schemas p view size token)
  | ListSchemaRevisions name view size token => page_reply RSchemas (grpc_list_schema_revisions name view size token)
  | CommitSchema name s => reply RSchema (grpc_commit_schema name s)
  | RollbackSchema name revision => reply RSchema (grpc_rollback_schema name revision)
  | DeleteSchemaRevision name revision => reply RSchema (grpc_delete_schema_revision name revision)
  | DeleteSchema name => reply (fun _ => RUnit) (grpc_delete_schema name)
  | ValidateSchema s => reply (fun _ => RUnit) (grpc_validate_schema s)
  | ValidateMessage p name inline message encoding =>
      reply (fun _ => RUnit) (grpc_validate_message p name inline message encoding)
  | StreamRequest s r initial st => reply (RStream []) (apply_streaming_pull_request s r initial st)
  | StreamTick s max_messages max_bytes st => reply (fun p => RStream p.1 p.2) (stream_tick s max_messages max_bytes st)
  | StreamClose s st => reply (fun _ => RUnit) (grpc_release_outstanding s (st_outstanding st))
  end.
End Run.
