(* ===== verification/PubInvariant.v ===== *)
(** What holds of every state of the Pub/Sub server: resources are stored under
    their names, every record that can still be delivered has its message, message
    and acknowledgement ids are the numbers handed out so far, and within a
    subscription an acknowledgement id names one record.  This file shows that the
    pure steps of the operations keep it. *)

From S2P Require Import Prelude RustStr RustNum RustText Json PubTime PubModel PubValidation PubResources PubGrpc PubMessages.
Local Open Scope string_scope.
Local Open Scope Z_scope.

(** ** Acknowledgement ids *)

Definition ack_id_of (message_id : string) (n : Z) : string := message_id +:+ "-" +:+ show_Z n.

Lemma show_Z_digits n : 0 <= n -> show_Z n = show_radix 10 n.
Proof. intros Hn. unfold show_Z. destruct (Z.ltb_spec n 0); [lia|done]. Qed.
Lemma show_Z_inj n m : 0 <= n -> 0 <= m -> show_Z n = show_Z m -> n = m.
Proof. intros Hn Hm. rewrite !show_Z_digits by done. apply show_radix_inj; lia. Qed.
Lemma show_Z_nonempty n : 0 <= n -> show_Z n <> "".
Proof. intros Hn. rewrite show_Z_digits by done. apply show_radix_nonempty. Qed.

Lemma ack_id_inj a n b m : 0 <= n -> 0 <= m -> ack_id_of a n = ack_id_of b m -> n = m.
Proof.
  intros Hn Hm E. unfold ack_id_of in E. apply (f_equal str_rev) in E.
  rewrite !str_rev_append in E. change (str_rev "-") with "-" in E. rewrite !str_app_assoc in E.
  assert (forall k, 0 <= k -> str_all (negb ∘ Ascii.eqb "-") (str_rev (show_Z k)) = true) as Hd.
  { intros k Hk. rewrite str_all_rev, show_Z_digits by done.
    eapply str_all_impl; [|by apply str_all_show]. intros c Hc. unfold compose.
    by destruct (Ascii.eqb_spec "-" c) as [<-|]. }
  apply (f_equal (split_once "-")) in E. change "-" with (char_str "-") in E.
  rewrite !split_once_char in E by auto. injection E as E _.
  apply (f_equal str_rev) in E. rewrite !str_rev_involutive in E. by apply show_Z_inj in E.
Qed.
Lemma str_app_inv_head a b c : a +:+ b = a +:+ c -> b = c.
Proof. induction a as [|x a IH]; [by rewrite !str_app_nil_l|]. rewrite !str_app_cons. intros [= E]. by apply IH. Qed.
Lemma ack_id_nonempty a n : ack_id_of a n <> "".
Proof. unfold ack_id_of. by destruct a. Qed.

(** ** The invariant *)

Definition named {V} (name : V -> string) (m : gmap string V) : Prop := map_Forall (fun k v => name v = k) m.
Definition numbered (next : Z) (id : string) : Prop := exists n, id = show_Z n /\ 1 <= n <= next.
Definition unleased (d : DeliveryRecord) : Prop := d_ack_id d = "" /\ d_lease_deadline d = ZERO_TIME.
(** Leased under an acknowledgement id handed out for it. *)
Definition leased_as (na : Z) (d : DeliveryRecord) : Prop :=
  d_acked d = false /\ exists n, d_ack_id d = ack_id_of (d_message_id d) n /\ 1 <= n <= na.
Definition lease_ok (na : Z) (d : DeliveryRecord) : Prop := unleased d \/ leased_as na d.
Definition has_message (ms : gmap string PubsubMessage) (d : DeliveryRecord) : Prop :=
  d_acked d = false -> is_Some (ms !! d_message_id d).
Definition record_ok (ms : gmap string PubsubMessage) (nm na : Z) (d : DeliveryRecord) : Prop :=
  numbered nm (d_message_id d) /\ lease_ok na d /\ has_message ms d.
(** The records of a subscription: one for a message at most. *)
Definition entry_ok (ms : gmap string PubsubMessage) (nm na : Z) (rs : list DeliveryRecord) : Prop :=
  Forall (record_ok ms nm na) rs /\ NoDup (map d_message_id rs).
Definition snapshot_ok (ms : gmap string PubsubMessage) (nm na : Z) (sn : Snapshot) : Prop :=
  entry_ok ms nm na (sn_deliveries sn) /\ Forall (fun d => d_acked d = false) (sn_deliveries sn).
Definition message_ok (nm : Z) (k : string) (m : PubsubMessage) : Prop := m_message_id m = k /\ numbered nm k.

Record store_ok (ms : gmap string PubsubMessage) (d : Deliveries) (sn : gmap string Snapshot) (nm na : Z) : Prop :=
  mkStoreOk {
    so_nm : 0 <= nm; so_na : 0 <= na;
    so_messages : map_Forall (message_ok nm) ms;
    so_deliveries : map_Forall (fun _ => entry_ok ms nm na) d;
    so_snapshots : map_Forall (fun _ => snapshot_ok ms nm na) sn }.
Definition names_ok (s : Server) : Prop :=
  named t_name (topics s) /\ named s_name (subscriptions s) /\ named sn_name (snapshots s)
  /\ named sc_name (schemas s).
Definition delivery_ok (s : Server) : Prop :=
  store_ok (messages s) (deliveries s) (snapshots s) (next_message_id s) (next_ack_id s).
(** Only subscriptions have records. *)
Definition subscribed (d : Deliveries) (subs : gmap string Subscription) : Prop :=
  map_Forall (fun k _ => is_Some (subs !! k)) d.
Definition wf (s : Server) : Prop := names_ok s /\ delivery_ok s /\ subscribed (deliveries s) (subscriptions s).

Lemma wf_empty c : wf (empty_server c).
Proof. unfold wf, names_ok, named. by split_and!. Qed.

(** The flags do not matter. *)
Definition set_flags (r m : bool) (s : Server) : Server := set_messages_dirty m (set_resource_dirty r s).

(** ** Records *)

Lemma numbered_mono n n' id : n <= n' -> numbered n id -> numbered n' id.
Proof. intros Hn (k & -> & Hk). exists k. split; [done|lia]. Qed.
Lemma numbered_next n : 0 <= n -> numbered (n + 1) (show_Z (n + 1)).
Proof. intros Hn. exists (n + 1). split; [done|lia]. Qed.
Lemma numbered_fresh n id : 0 <= n -> numbered n id -> id <> show_Z (n + 1).
Proof. intros Hn (k & -> & Hk) E. apply show_Z_inj in E; lia. Qed.

Lemma lease_ok_mono na na' d : na <= na' -> lease_ok na d -> lease_ok na' d.
Proof. intros Hn [Hu|[Ha (k & Hk & ?)]]; [by left|]. right. split; [done|]. exists k. split; [done|lia]. Qed.
Lemma has_message_mono ms ms' d : ms ⊆ ms' -> has_message ms d -> has_message ms' d.
Proof. intros Hs Hh Ha. destruct (Hh Ha) as [m Hm]. exists m. by eapply lookup_weaken. Qed.
Lemma record_ok_mono ms ms' nm nm' na na' d :
  ms ⊆ ms' -> nm <= nm' -> na <= na' -> record_ok ms nm na d -> record_ok ms' nm' na' d.
Proof.
  intros ??? (?&?&?). split_and!; [by eapply numbered_mono|by eapply lease_ok_mono|by eapply has_message_mono].
Qed.
Lemma entry_ok_mono ms ms' nm nm' na na' rs :
  ms ⊆ ms' -> nm <= nm' -> na <= na' -> entry_ok ms nm na rs -> entry_ok ms' nm' na' rs.
Proof. intros ??? [Hf Hn]. split; [|done]. eapply Forall_impl; [done|]. intros d. by apply record_ok_mono. Qed.
Lemma entry_ok_nil ms nm na : entry_ok ms nm na [].
Proof. split; constructor. Qed.

Lemma NoDup_map_filter {A B} (f : A -> B) (p : A -> bool) l : NoDup (map f l) -> NoDup (map f (List.filter p l)).
Proof.
  induction l as [|x l IH]; [done|]. simpl. rewrite NoDup_cons. intros [Hx Hl].
  destruct (p x); [|by apply IH]. simpl. rewrite NoDup_cons. split; [|by apply IH].
  intros Hin. apply Hx. apply list_elem_of_In, List.in_map_iff in Hin as (y & Hy & Hin).
  apply list_elem_of_In, List.in_map_iff. exists y. split; [done|]. by apply List.filter_In in Hin as [? _].
Qed.
Lemma NoDup_map_eq {A B} (f : A -> B) l x y : NoDup (map f l) -> x ∈ l -> y ∈ l -> f x = f y -> x = y.
Proof.
  intros Hnd [i Hi]%list_elem_of_lookup [j Hj]%list_elem_of_lookup E. change (NoDup (f <$> l)) in Hnd.
  assert (i = j) as ->; [|congruence]. eapply (NoDup_lookup _ i j (f x)); [exact Hnd|..]; rewrite list_lookup_fmap.
  - by rewrite Hi. - rewrite Hj. simpl. by rewrite E.
Qed.
Lemma entry_ok_filter ms nm na p rs : entry_ok ms nm na rs -> entry_ok ms nm na (List.filter p rs).
Proof.
  intros [Hf Hn]. split; [|by apply NoDup_map_filter]. rewrite Forall_forall in *.
  intros d Hd. apply list_elem_of_In, List.filter_In in Hd as [Hd _]. by apply Hf, list_elem_of_In.
Qed.
Lemma entry_ok_compact ms nm na b rs : entry_ok ms nm na rs -> entry_ok ms nm na (compact_acked rs b).
Proof. unfold compact_acked. destruct b; [done|]. apply entry_ok_filter. Qed.

(** What the operations do to a record: keep its message, never take an
    acknowledgement back, keep the lease well-formed. *)
Definition record_step (na : Z) (d d' : DeliveryRecord) : Prop :=
  d_message_id d' = d_message_id d /\ (d_acked d' = false -> d_acked d = false) /\ (lease_ok na d -> lease_ok na d').
Lemma record_step_refl na d : record_step na d d.
Proof. done. Qed.
Lemma entry_ok_step ms nm na na' rs rs' :
  na <= na' -> Forall2 (record_step na') rs rs' -> entry_ok ms nm na rs -> entry_ok ms nm na' rs'.
Proof.
  intros Hna Hs [Hf Hn]. split.
  - clear Hn. induction Hs as [|d d' rs rs' (Hm & Ha & Hl) _ IH]; [done|]. apply Forall_cons in Hf as [Hd Hf].
    destruct Hd as (? & ? & Hh). constructor; [|by apply IH]. unfold record_ok, has_message. rewrite Hm.
    split_and!; [done|apply Hl; by eapply lease_ok_mono|]. intros Hd'. by apply Hh, Ha.
  - assert (map d_message_id rs' = map d_message_id rs) as ->; [|done].
    clear -Hs. induction Hs as [|d d' rs rs' (Hm & _) _ IH]; [done|]. simpl. by rewrite Hm, IH.
Qed.
Lemma unleased_cleared acked n d : unleased (cleared acked n d).
Proof. done. Qed.
Lemma record_step_cleared na n d : record_step na d (cleared true n d).
Proof. split_and!; [done..|]. by left. Qed.
Lemma record_step_released na acked n d : d_acked d = acked -> record_step na d (cleared acked n d).
Proof. intros <-. split_and!; [done..|]. by left. Qed.

(** Within a subscription an acknowledgement id names one record. *)
Lemma ack_id_unique ms nm na rs d d' :
  entry_ok ms nm na rs -> d ∈ rs -> d' ∈ rs -> d_ack_id d = d_ack_id d' -> d_ack_id d <> "" -> d = d'.
Proof.
  intros [Hf Hn] Hd Hd' E Hne. rewrite Forall_forall in Hf.
  assert (d_message_id d = d_message_id d') as Hm.
  { destruct (Hf d Hd) as (_ & [[? _]|[_ (n & Hn1 & ?)]] & _); [done|].
    destruct (Hf d' Hd') as (_ & [[? _]|[_ (n' & Hn2 & ?)]] & _); [congruence|].
    rewrite Hn1, Hn2 in E. assert (n = n') as -> by (eapply ack_id_inj; [..|exact E]; lia).
    unfold ack_id_of in E. apply (f_equal str_rev) in E. rewrite !str_rev_append in E.
    apply str_app_inv_head in E. by rewrite <- (str_rev_involutive (d_message_id d)), E, str_rev_involutive. }
  by eapply NoDup_map_eq.
Qed.

(** ** The store *)

Section Store.
Context {ms : gmap string PubsubMessage} {d : Deliveries} {sn : gmap string Snapshot} {nm na : Z}.
Context (Hok : store_ok ms d sn nm na).

Lemma store_ok_mono ms' nm' na' :
  ms ⊆ ms' -> nm <= nm' -> na <= na' -> map_Forall (message_ok nm') ms' -> store_ok ms' d sn nm' na'.
Proof.
  intros Hms Hnm Hna Hm. destruct Hok as [?? _ Hd Hs]. split; [lia|lia|done| |].
  - eapply map_Forall_impl; [done|]. intros k rs. by apply entry_ok_mono.
  - eapply map_Forall_impl; [done|]. intros k s [He Ha]. split; [by eapply entry_ok_mono|done].
Qed.
Lemma message_ok_mono nm' : nm <= nm' -> map_Forall (message_ok nm') ms.
Proof.
  intros Hn. eapply map_Forall_impl; [apply (so_messages _ _ _ _ _ Hok)|]. intros k m [? ?].
  split; [done|by eapply numbered_mono].
Qed.
Lemma store_ok_acks na' : na <= na' -> store_ok ms d sn nm na'.
Proof. intros. apply store_ok_mono; [done|lia|done|]. apply message_ok_mono. lia. Qed.
Lemma store_ok_put sub rs : entry_ok ms nm na rs -> store_ok ms (<[sub := rs]> d) sn nm na.
Proof. intros Hrs. destruct Hok. split; try done. by apply map_Forall_insert_2. Qed.
Lemma store_ok_put_snapshot k s : snapshot_ok ms nm na s -> store_ok ms d (<[k := s]> sn) nm na.
Proof. intros Hs. destruct Hok. split; try done. by apply map_Forall_insert_2. Qed.
Lemma store_ok_sub d' sn' : d' ⊆ d -> sn' ⊆ sn -> store_ok ms d' sn' nm na.
Proof.
  intros Hd Hs. destruct Hok. split; try done.
  - intros k rs Hk. eapply so_deliveries0. by eapply lookup_weaken.
  - intros k s Hk. eapply so_snapshots0. by eapply lookup_weaken.
Qed.
Lemma store_ok_entry sub : entry_ok ms nm na (default [] (d !! sub)).
Proof. destruct (d !! sub) as [rs|] eqn:E; [|apply entry_ok_nil]. by apply (so_deliveries _ _ _ _ _ Hok sub). Qed.
Lemma store_ok_message k m : ms !! k = Some m -> m_message_id m = k /\ numbered nm k.
Proof. apply (so_messages _ _ _ _ _ Hok). Qed.

(** A message under the next id, with no delivery yet. *)
Lemma store_ok_new_message m :
  m_message_id m = show_Z (nm + 1) -> store_ok (<[show_Z (nm + 1) := m]> ms) d sn (nm + 1) na.
Proof.
  intros Hid. pose proof (so_nm _ _ _ _ _ Hok) as H0. apply store_ok_mono; [|lia|lia|].
  - apply insert_subseteq. destruct (ms !! show_Z (nm + 1)) as [m'|] eqn:E; [|done].
    destruct (store_ok_message _ _ E) as [_ Hn]. by destruct (numbered_fresh nm _ H0 Hn).
  - apply map_Forall_insert_2; [split; [done|by apply numbered_next]|]. apply message_ok_mono. lia.
Qed.
End Store.

(** ** Pruning *)

Lemma elem_of_values {V} (m : gmap string V) v : v ∈ values m <-> exists k, m !! k = Some v.
Proof.
  unfold values. rewrite list_elem_of_fmap. split.
  - intros ([k v'] & -> & Hk). exists k. by apply elem_of_btree_iter in Hk.
  - intros [k Hk]. exists (k, v). split; [done|]. by apply elem_of_btree_iter.
Qed.
Lemma elem_of_lfilter {A} (p : A -> bool) (l : list A) x : x ∈ List.filter p l <-> p x = true /\ x ∈ l.
Proof. rewrite !list_elem_of_In, List.filter_In. tauto. Qed.
Lemma elem_of_lmap {A B} (f : A -> B) (l : list A) y : y ∈ map f l <-> exists x, x ∈ l /\ f x = y.
Proof.
  rewrite list_elem_of_In, List.in_map_iff. split; intros (x & Hx & Hin).
  - exists x. by rewrite list_elem_of_In.
  - exists x. by rewrite <- list_elem_of_In.
Qed.

Lemma elem_of_referenced s id :
  id ∈ referenced s <->
  (exists sub rs d, deliveries s !! sub = Some rs /\ d ∈ rs /\ holds_message (retains s sub) d = true
                    /\ d_message_id d = id)
  \/ (exists n sn d, snapshots s !! n = Some sn /\ d ∈ sn_deliveries sn /\ d_message_id d = id).
Proof.
  unfold referenced. rewrite elem_of_list_to_set, elem_of_app, !list_elem_of_bind. apply Morphisms_Prop.or_iff_morphism; split.
  - intros ([sub rs] & Hid & Hin). apply elem_of_btree_iter in Hin.
    apply elem_of_lmap in Hid as (d & [Hh Hd]%elem_of_lfilter & <-). eauto 10.
  - intros (sub & rs & d & Hs & Hd & Hh & <-). exists (sub, rs). split; [|by apply elem_of_btree_iter].
    apply elem_of_lmap. exists d. split; [|done]. by apply elem_of_lfilter.
  - intros (sn & (d & Hd & <-)%elem_of_lmap & [n Hn]%elem_of_values). eauto 10.
  - intros (n & sn & d & Hn & Hd & <-). exists sn. split; [|apply elem_of_values; eauto]. apply elem_of_lmap. eauto.
Qed.

(** The messages still referred to. *)
Definition live_messages (s : Server) : gmap string PubsubMessage :=
  filter (fun e => e.1 ∈ referenced s) (messages s).
(** What pruning leaves: those; nothing else changes but a flag. *)
Lemma cleanup_unreferenced_eq s :
  exists b, cleanup_unreferenced_messages s = set_messages_dirty b (set_messages (live_messages s) s).
Proof.
  unfold cleanup_unreferenced_messages, live_messages. case_bool_decide as E; [|by eexists].
  exists (messages_dirty s). rewrite E, map_filter_empty. destruct s; simpl in *. by subst.
Qed.
Lemma pruned_eq s : exists b ms, pruned s = set_messages_dirty b (set_messages ms s)
  /\ (ms = messages s \/ ms = live_messages s).
Proof.
  unfold pruned. destruct (messages_dirty s) eqn:E.
  - destruct (cleanup_unreferenced_eq s) as [b ->]. eauto.
  - exists false, (messages s). split; [|by left]. destruct s; simpl in *. by subst.
Qed.

Lemma live_messages_lookup s id m :
  live_messages s !! id = Some m <-> messages s !! id = Some m /\ id ∈ referenced s.
Proof. apply map_lookup_filter_Some. Qed.
Lemma live_messages_sub s : live_messages s ⊆ messages s.
Proof. apply map_filter_subseteq. Qed.

Lemma delivery_ok_live s ms :
  delivery_ok s -> ms = messages s \/ ms = live_messages s -> delivery_ok (set_messages ms s).
Proof.
  intros Hok [-> | ->]; [by destruct s|]. destruct Hok as [?? Hm Hd Hs]. split; simpl; try done.
  - intros k m [Hk _]%live_messages_lookup. by apply Hm.
  - intros sub rs Hr. destruct (Hd sub rs Hr) as [Hf Hn]. split; [|done].
    rewrite Forall_forall in *. intros r Hin. destruct (Hf r Hin) as (? & ? & Hh). split_and!; [done..|].
    intros Ha. destruct (Hh Ha) as [m Hm']. exists m. apply live_messages_lookup. split; [done|].
    apply elem_of_referenced. left. exists sub, rs, r. split_and!; [done..| |done]. unfold holds_message. by rewrite Ha.
  - intros n sn Hsn. destruct (Hs n sn Hsn) as [[Hf Hn] Ha]. split; [|done]. split; [|done].
    rewrite Forall_forall in *. intros r Hin. destruct (Hf r Hin) as (? & ? & Hh). split_and!; [done..|].
    intros Hr. destruct (Hh Hr) as [m Hm']. exists m. apply live_messages_lookup. split; [done|].
    apply elem_of_referenced. right. eauto 10.
Qed.
Lemma wf_pruned s : wf s -> wf (pruned s).
Proof.
  intros (Hn & Hd & Hs). destruct (pruned_eq s) as (b & ms & -> & Hms). split_and!; [done| |done].
  by apply (delivery_ok_live s ms).
Qed.
Lemma delivery_ok_cleanup s : delivery_ok s -> delivery_ok (cleanup_unreferenced_messages s).
Proof. intros Hd. destruct (cleanup_unreferenced_eq s) as [b ->]. apply (delivery_ok_live s _ Hd). by right. Qed.

(** ** Retention *)

Lemma map_imap_forall {V W} (f : string -> V -> option W) (P : string -> W -> Prop) (m : gmap string V) :
  map_Forall (fun k v => forall w, f k v = Some w -> P k w) m -> map_Forall P (map_imap f m).
Proof.
  intros Hm k w Hk. rewrite map_lookup_imap in Hk. apply bind_Some in Hk as (v & Hv & Hw). by apply (Hm k v).
Qed.

Lemma delivery_ok_retain now s : delivery_ok s -> delivery_ok (retain_deliveries now s).
Proof.
  intros [?? Hm Hd Hs]. split; simpl; try done. apply map_imap_forall.
  eapply map_Forall_impl; [done|]. intros sub rs He kept Hk.
  apply (entry_ok_filter _ _ _ (published_since (messages s)
    (now * NANOS - subscription_message_retention_nanos s sub))) in He.
  unfold retained_records in Hk. destruct (List.filter _ rs); [done|]. by injection Hk as <-.
Qed.
Lemma delivery_ok_retain_snapshots now s : delivery_ok s -> delivery_ok (retain_snapshots now s).
Proof.
  intros [?? Hm Hd Hs]. split; simpl; try done. intros k sn Hk. rewrite lookup_fmap in Hk.
  destruct (snapshots s !! k) as [sn'|] eqn:E; [|done]. injection Hk as <-.
  destruct (Hs k sn' E) as [He Ha]. split; simpl; [by apply entry_ok_filter|].
  rewrite Forall_forall in *. intros d [_ Hin]%elem_of_lfilter. by apply Ha.
Qed.
Lemma named_fmap {V} (name : V -> string) (f : V -> V) (m : gmap string V) :
  (forall v, name (f v) = name v) -> named name m -> named name (f <$> m).
Proof. intros Hf Hm k v Hk. rewrite lookup_fmap_Some in Hk. destruct Hk as (v' & <- & Hv). rewrite Hf. by apply Hm. Qed.
Lemma named_sub {V} (name : V -> string) (m m' : gmap string V) : m' ⊆ m -> named name m -> named name m'.
Proof. intros Hs Hm k v Hk. apply Hm. by eapply lookup_weaken. Qed.
Lemma named_insert {V} (name : V -> string) k v (m : gmap string V) :
  name v = k -> named name m -> named name (<[k := v]> m).
Proof. intros. by apply map_Forall_insert_2. Qed.

Lemma foldl_delete_sub {V} (m : gmap string V) names : foldl (fun m n => delete n m) m names ⊆ m.
Proof.
  revert m. induction names as [|n names IH]; intros m; simpl; [done|].
  etrans; [apply IH|]. apply delete_subseteq.
Qed.

(** ** Leases *)

Lemma map_try_Forall2 {X Y} (f : X -> result ApiError Y) (R : X -> Y -> Prop) l l' :
  (forall x y, f x = Ok y -> R x y) -> map_try f l = Ok l' -> Forall2 R l l'.
Proof.
  intros Hf. revert l'. induction l as [|x l IH]; intros l'; cbn [map_try].
  - intros [= <-]. constructor.
  - destruct (f x) as [y| |] eqn:E; cbn [mbind outcome_bind]; [|done..].
    destruct (map_try f l) as [ys| |] eqn:E'; cbn [mbind outcome_bind]; [|done..].
    intros [= <-]. constructor; auto.
Qed.

Section Leases.
Context `{Build}.

Lemma expire_record_step s sub now na d d' : expire_record s sub now d = Ok d' -> record_step na d d'.
Proof.
  unfold expire_record. destruct (lease_expired now d); [|intros [= <-]; apply record_step_refl].
  destruct (if 0 <? _ then _ else _) as [t| |]; cbn [mbind outcome_bind]; [|done..]. intros [= <-].
  split_and!; [done..|]. by left.
Qed.
(** Only the deliveries and their flag change. *)
Definition only_deliveries (s s' : Server) : Prop :=
  s' = set_messages_dirty (messages_dirty s') (set_deliveries (deliveries s') s).
Lemma only_deliveries_refl s : only_deliveries s s.
Proof. by destruct s. Qed.
Lemma only_deliveries_trans s s' s'' : only_deliveries s s' -> only_deliveries s' s'' -> only_deliveries s s''.
Proof. unfold only_deliveries. intros H1 H2. rewrite H2. rewrite H1 at 1. done. Qed.

Lemma expire_record_subs s s' sub now d :
  subscriptions s' = subscriptions s -> expire_record s' sub now d = expire_record s sub now d.
Proof. intros E. unfold expire_record, retry_backoff. by rewrite E. Qed.
Lemma map_try_id {X} (f : X -> result ApiError X) l :
  (forall x, x ∈ l -> f x = Ok x) -> map_try f l = Ok l.
Proof.
  induction l as [|x l IH]; intros Hf; [done|]. cbn [map_try]. rewrite Hf by left.
  cbn [mbind outcome_bind]. rewrite IH; [done|]. intros y Hy. apply Hf. by right.
Qed.
Lemma map_try_ext {X Y} (f g : X -> result ApiError Y) l : (forall x, f x = g x) -> map_try f l = map_try g l.
Proof. intros E. induction l as [|x l IH]; [done|]. cbn [map_try]. by rewrite E, IH. Qed.

Lemma expire_entry_spec now s e s' :
  deliveries s !! e.1 = Some e.2 -> expire_entry now s e = Ok s' ->
  only_deliveries s s'
  /\ exists rs, map_try (expire_record s e.1 now) e.2 = Ok rs /\ deliveries s' = <[e.1 := rs]> (deliveries s).
Proof.
  intros He. unfold expire_entry. destruct (map_try _ e.2) as [rs| |] eqn:E; cbn [mbind outcome_bind]; [|done..].
  intros [= <-]. destruct (existsb _ e.2) eqn:Ex.
  - split; [done|]. by exists rs.
  - split; [apply only_deliveries_refl|]. exists e.2. rewrite insert_id by done. split; [|done].
    rewrite map_try_id in E; [by rewrite E|]. intros d Hd. unfold expire_record.
    destruct (lease_expired now d) eqn:El; [|done].
    assert (existsb (lease_expired now) e.2 = true); [|congruence].
    apply existsb_exists. exists d. by rewrite <- list_elem_of_In.
Qed.
Definition expired_in (now : Z) (s : Server) (d d' : Deliveries) (sub : string) : Prop :=
  match d !! sub with
  | None => d' !! sub = None
  | Some rs => exists rs', map_try (expire_record s sub now) rs = Ok rs' /\ d' !! sub = Some rs'
  end.
Lemma expire_fold_spec now l s s' :
  NoDup l.*1 -> (forall e, e ∈ l -> deliveries s !! e.1 = Some e.2) ->
  try_foldl (expire_entry now) s l = Ok s' ->
  only_deliveries s s'
  /\ forall sub, if decide (sub ∈ l.*1) then expired_in now s (deliveries s) (deliveries s') sub
                 else deliveries s' !! sub = deliveries s !! sub.
Proof.
  revert s. induction l as [|e l IH]; intros s Hnd Hin; cbn [try_foldl].
  { intros [= <-]. split; [apply only_deliveries_refl|]. intros sub. by rewrite decide_False by apply not_elem_of_nil. }
  destruct (expire_entry now s e) as [s1| |] eqn:E; cbn [mbind outcome_bind]; [|done..]. intros Hf.
  apply expire_entry_spec in E as (Ho & rs & Hrs & Hd); [|apply Hin; left].
  cbn in Hnd. apply NoDup_cons in Hnd as [Hni Hnd].
  apply IH in Hf as [Ho' Hsub]; [|done|].
  - split; [by eapply only_deliveries_trans|]. intros sub. specialize (Hsub sub).
    assert (subscriptions s1 = subscriptions s) as Es by (by rewrite Ho).
    destruct (decide (sub = e.1)) as [->|Hne].
    + rewrite decide_True by left. rewrite decide_False in Hsub by done. unfold expired_in.
      rewrite Hin by left. exists rs. split; [done|]. by rewrite Hsub, Hd, lookup_insert_eq.
    + assert (deliveries s1 !! sub = deliveries s !! sub) as El by (by rewrite Hd, lookup_insert_ne).
      destruct (decide (sub ∈ l.*1)) as [Hl|Hl].
      * rewrite decide_True by (by right). unfold expired_in in *. rewrite El in Hsub.
        destruct (deliveries s !! sub) as [r|]; [|done]. destruct Hsub as (rs' & Hm & Hs'). exists rs'.
        split; [|done]. rewrite <- Hm. apply map_try_ext. intros d. by apply expire_record_subs.
      * rewrite decide_False; [by rewrite Hsub|]. by intros [? | ?]%elem_of_cons.
  - intros e' He'. rewrite Hd, lookup_insert_ne; [by apply Hin; right|].
    intros Heq. apply Hni. rewrite Heq. apply list_elem_of_fmap. by exists e'.
Qed.
Lemma expire_leases_spec now s s' :
  expire_leases now s = Ok s' ->
  only_deliveries s s' /\ forall sub, expired_in now s (deliveries s) (deliveries s') sub.
Proof.
  unfold expire_leases. intros E. apply expire_fold_spec in E as [Ho Hs]; [|apply NoDup_btree_keys|].
  - split; [done|]. intros sub. specialize (Hs sub). destruct (decide _) as [|Hni]; [done|].
    unfold expired_in. destruct (deliveries s !! sub) as [rs|] eqn:El; [|by rewrite Hs].
    destruct Hni. apply list_elem_of_fmap. exists (sub, rs). split; [done|]. by apply elem_of_btree_iter.
  - intros [k v]. apply elem_of_btree_iter.
Qed.
Lemma expire_leases_ok now s s' :
  delivery_ok s -> expire_leases now s = Ok s' -> delivery_ok s' /\ only_deliveries s s'.
Proof.
  intros Hok E. apply expire_leases_spec in E as [Ho Hs]. split; [|done].
  destruct Hok as [?? Hm Hd Hsn]. unfold delivery_ok. rewrite Ho. split; simpl; try done.
  intros sub rs' Hr. specialize (Hs sub). unfold expired_in in Hs.
  destruct (deliveries s !! sub) as [rs|] eqn:El; [|congruence]. destruct Hs as (rs1 & Ht & E1).
  rewrite Hr in E1. injection E1 as <-. eapply entry_ok_step; [reflexivity| |by apply (Hd sub)].
  eapply map_try_Forall2; [|exact Ht]. intros x y. apply expire_record_step.
Qed.

End Leases.

(** ** Acknowledging and moving deadlines *)

Section Acks.
Context `{Env}.

Lemma update_record_step ids ack deadline now na d d' :
  "" ∉ ids -> update_record ids ack deadline now d = Ok d' -> record_step na d d'.
Proof.
  intros Hids. unfold update_record. case_bool_decide as Ein; cbn [negb orb]; [|intros [= <-]; apply record_step_refl].
  destruct (d_acked d) eqn:Ea; [intros [= <-]; apply record_step_refl|].
  destruct ack; [intros [= <-]; apply record_step_cleared|].
  destruct (deadline =? 0); [intros [= <-]; by apply record_step_released|].
  destruct (plus_seconds now deadline) as [t| |]; cbn [mbind outcome_bind]; [|done..]. intros [= <-].
  split_and!; [done..|]. intros [[Hu _]|[_ Hl]]; [congruence|]. right. by split.
Qed.
Lemma update_records_ok name sub ids ack deadline now s s' :
  "" ∉ ids -> delivery_ok s -> update_records name sub ids ack deadline now s = Ok s' ->
  delivery_ok s' /\ only_deliveries s s'.
Proof.
  intros Hids Hok. unfold update_records.
  destruct (map_try _ _) as [rs| |] eqn:E; cbn [mbind outcome_bind]; [|done..]. intros [= <-].
  split; [|done]. apply (store_ok_put Hok). apply entry_ok_compact.
  eapply entry_ok_step; [reflexivity| |apply (store_ok_entry Hok name)].
  eapply map_try_Forall2; [|exact E]. intros x y. by apply update_record_step.
Qed.
End Acks.

(** ** Publishing *)

Lemma NoDup_names {V} (name : V -> string) (m : gmap string V) : named name m -> NoDup (map name (values m)).
Proof.
  intros Hn. assert (map name (values m) = (btree_iter m).*1) as ->; [|apply NoDup_btree_keys].
  unfold values. assert (forall e, e ∈ btree_iter m -> name e.2 = e.1) as He.
  { intros [k v] Hk%elem_of_btree_iter. by apply Hn. }
  induction (btree_iter m) as [|e l IH]; [done|]. cbn. rewrite He by left. f_equal. apply IH.
  intros e' He'. apply He. by right.
Qed.
Lemma NoDup_some_names {V} (name : V -> string) (p : V -> bool) (m : gmap string V) :
  named name m -> NoDup (map name (List.filter p (values m))).
Proof. intros Hn. by apply NoDup_map_filter, NoDup_names. Qed.

Lemma push_deliveries_lookup id subs d sub :
  NoDup subs ->
  foldl (push_delivery id) d subs !! sub
  = if decide (sub ∈ subs) then Some (default [] (d !! sub) ++ [default_delivery id])%list else d !! sub.
Proof.
  revert d. induction subs as [|x subs IH]; intros d Hnd; simpl; [done|].
  apply NoDup_cons in Hnd as [Hni Hnd]. rewrite IH by done. unfold push_delivery.
  destruct (decide (sub = x)) as [->|Hne].
  - destruct (decide (x ∈ subs)); [done|]. rewrite lookup_insert_eq.
    destruct (decide (x ∈ x :: subs)) as [|Hx]; [done|]. destruct Hx. by left.
  - rewrite lookup_insert_ne by done. destruct (decide (sub ∈ subs)) as [Hin|Hin].
    + by rewrite decide_True by (by right).
    + rewrite decide_False; [done|]. by intros [? | ?]%elem_of_cons.
Qed.

Lemma subscribed_sub d d' subs : d' ⊆ d -> subscribed d subs -> subscribed d' subs.
Proof. intros Hd Hs k rs Hk. eapply Hs. by eapply lookup_weaken. Qed.
Lemma subscribed_put d subs k rs : is_Some (subs !! k) -> subscribed d subs -> subscribed (<[k := rs]> d) subs.
Proof. intros. by apply map_Forall_insert_2. Qed.
Lemma subscribed_keys d subs subs' :
  (forall k, is_Some (subs !! k) -> is_Some (subs' !! k)) -> subscribed d subs -> subscribed d subs'.
Proof. intros Hk Hs k rs Hr. apply Hk. by eapply Hs. Qed.
Lemma subscribed_push id p d subs :
  named s_name subs -> subscribed d subs ->
  subscribed (foldl (push_delivery id) d (map s_name (List.filter p (values subs)))) subs.
Proof.
  intros Hn Hs k rs. rewrite push_deliveries_lookup by (by apply NoDup_some_names).
  destruct (decide _) as [Hin|_]; [|by apply Hs]. intros _.
  apply elem_of_lmap in Hin as (sub & [_ [n Hsub]%elem_of_values]%elem_of_lfilter & <-).
  rewrite (Hn n sub Hsub). eauto.
Qed.

(** A message under the next id joins some subscriptions. *)
Lemma store_ok_publish ms d sn nm na m subs :
  store_ok ms d sn nm na -> m_message_id m = show_Z (nm + 1) -> NoDup subs ->
  store_ok (<[show_Z (nm + 1) := m]> ms) (foldl (push_delivery (show_Z (nm + 1))) d subs) sn (nm + 1) na.
Proof.
  intros Hok Hid Hnd. pose proof (so_nm _ _ _ _ _ Hok) as H0.
  pose proof (store_ok_new_message Hok m Hid) as Hok'. destruct Hok'. split; try done.
  intros sub rs. rewrite push_deliveries_lookup by done. destruct (decide _) as [Hin|Hin]; [|apply so_deliveries0].
  intros [= <-].
  assert (entry_ok (<[show_Z (nm + 1):=m]> ms) (nm + 1) na (default [] (d !! sub))) as [Hf Hn].
  { destruct (d !! sub) as [rs|] eqn:E; [by apply (so_deliveries0 sub)|apply entry_ok_nil]. }
  split.
  - apply Forall_app. split; [done|]. apply Forall_singleton. split_and!; [by apply numbered_next|by left|].
    intros _. exists m. by rewrite lookup_insert_eq.
  - rewrite map_app. apply NoDup_app. split_and!; [done| |by apply NoDup_singleton].
    intros id (r & Hr & <-)%elem_of_lmap [E|[]%not_elem_of_nil]%elem_of_cons.
    destruct (store_ok_entry Hok sub) as [Hf' _]. rewrite Forall_forall in Hf'.
    destruct (Hf' r Hr) as (Hnum & _). by apply (numbered_fresh nm _ H0 Hnum).
Qed.

(** The counters do not wrap: the build checks them, or they stay below [2^64]. *)
Definition room `{Build} (n k : Z) : Prop := overflow_checks = true \/ n + k < 2 ^ 64.
Lemma checked_u64_next `{Build} {E} n n' :
  0 <= n -> room n 1 -> checked_u64 (E := E) (n + 1) = Ok n' -> n' = n + 1.
Proof.
  intros H0 Hr. unfold checked_u64, in_width. destruct ((0 <=? n + 1) && (n + 1 <=? 2 ^ 64 - 1)) eqn:E1; [congruence|].
  destruct Hr as [->|Hlt]; [done|]. lia.
Qed.
Lemma room_le `{Build} n k k' : k' <= k -> room n k -> room n k'.
Proof. intros Hk [?|?]; [by left|right; lia]. Qed.
Lemma room_step `{Build} n k : room n (1 + k) -> room (n + 1) k.
Proof. intros [?|?]; [by left|right; lia]. Qed.

Section Publish.
Context `{Env}.

Lemma publish_one_ok topic now i s :
  wf s -> wf (publish_one topic now (show_Z (next_message_id s + 1)) i
                (set_next_message_id (next_message_id s + 1) s)).
Proof.
  intros (Hn & Hok & Hs). split_and!; [done| |].
  - unfold delivery_ok, publish_one. simpl. apply store_ok_publish; [done|done|]. apply NoDup_some_names, Hn.
  - apply subscribed_push; [apply Hn|done].
Qed.
Lemma publish_all_ok topic now l s ids s' :
  wf s -> room (next_message_id s) (Z.of_nat (length l)) ->
  publish_all topic now l s = Ok (ids, s') -> wf s'.
Proof.
  revert s ids s'. induction l as [|i l IH]; intros s ids s' Hw Hr; cbn [publish_all].
  { by intros [= _ <-]. }
  destruct (fresh_message_id s) as [n| |] eqn:En; cbn [mbind outcome_bind]; [|done..].
  pose proof (so_nm _ _ _ _ _ (proj1 (proj2 Hw))) as H0.
  apply checked_u64_next in En as ->; [|done|eapply room_le; [|done]; simpl; lia].
  destruct (publish_all topic now l _) as [[ids' s2]| |] eqn:Ep; cbn [mbind outcome_bind]; [|done..].
  intros [= _ <-]. eapply IH; [|  |exact Ep]; [by apply publish_one_ok|]. simpl.
  apply room_step. eapply room_le; [|done]. simpl. lia.
Qed.
End Publish.

(** ** Pulling *)

Fixpoint dead_numbered (nm : Z) (l : list (string * PubsubMessage)) (nm' : Z) : Prop :=
  match l with [] => nm = nm' | e :: r => m_message_id e.2 = show_Z (nm + 1) /\ dead_numbered (nm + 1) r nm' end.
Lemma dead_numbered_app nm l1 nm1 l2 nm2 :
  dead_numbered nm l1 nm1 -> dead_numbered nm1 l2 nm2 -> dead_numbered nm (l1 ++ l2)%list nm2.
Proof. revert nm. induction l1 as [|e l IH]; intros nm; simpl; [by intros ->|]. intros [? ?]. split; auto. Qed.

Section Pull.
Context `{Env}.

(** What a stretch of the loop does: leases and dead letters under fresh numbers. *)
Definition pulled (l : list DeliveryRecord) (st : Pulling) (l' : list DeliveryRecord) (st' : Pulling) : Prop :=
  pl_ack_id st <= pl_ack_id st' <= pl_ack_id st + Z.of_nat (length l)
  /\ pl_message_id st <= pl_message_id st' <= pl_message_id st + Z.of_nat (length l)
  /\ (forall na, pl_ack_id st' <= na -> Forall2 (record_step na) l l')
  /\ exists dl, pl_dead st' = (pl_dead st ++ dl)%list /\ dead_numbered (pl_message_id st) dl (pl_message_id st').

Lemma pulled_same d st st' :
  pl_ack_id st' = pl_ack_id st -> pl_message_id st' = pl_message_id st -> pl_dead st' = pl_dead st ->
  pulled [d] st [d] st'.
Proof.
  unfold pulled. intros -> -> ->. split_and!; try (simpl; lia).
  - intros na _. constructor; [apply record_step_refl|constructor].
  - exists []. by rewrite app_nil_r.
Qed.
Lemma pull_dead_letter_step s topic m d st d' st' :
  0 <= pl_message_id st -> room (pl_message_id st) 1 ->
  pull_dead_letter s topic m d st = Ok (d', st') -> pulled [d] st [d'] st'.
Proof.
  intros H0 Hr. unfold pull_dead_letter. destruct (checked_u64 _) as [n| |] eqn:En; cbn [mbind outcome_bind]; [|done..].
  apply checked_u64_next in En as ->; [|done..]. destruct (clock_at s (pl_tick st)) as [t t']. intros [= <- <-].
  split_and!; simpl; try lia.
  - intros na _. constructor; [apply record_step_cleared|constructor].
  - eexists [_]. by split.
Qed.
Lemma pull_deliver_step now ack m b d st d' st' :
  0 <= pl_ack_id st -> room (pl_ack_id st) 1 -> d_acked d = false ->
  pull_deliver now ack m b d st = Ok (d', st') -> pulled [d] st [d'] st'.
Proof.
  intros H0 Hr Ha. unfold pull_deliver. destruct (checked_u64 _) as [n| |] eqn:En; cbn [mbind outcome_bind]; [|done..].
  apply checked_u64_next in En as ->; [|done..].
  destruct (plus_seconds now ack) as [t| |]; cbn [mbind outcome_bind]; [|done..].
  destruct (checked_i64 _) as [a| |]; cbn [mbind outcome_bind]; [|done..]. intros [= <- <-].
  split_and!; simpl; try lia.
  - intros na Hna. constructor; [|constructor]. split_and!; [done..|]. intros _. right. split; [done|].
    exists (pl_ack_id st + 1). split; [done|lia].
  - exists []. by rewrite app_nil_r.
Qed.
Lemma pull_step_ok s sub now ack d st d' st' :
  0 <= pl_message_id st -> 0 <= pl_ack_id st -> room (pl_message_id st) 1 -> room (pl_ack_id st) 1 ->
  pull_step s sub now ack d st = Ok (d', st') -> pulled [d] st [d'] st'.
Proof.
  intros H1 H2 R1 R2. unfold pull_step.
  destruct (d_acked d) eqn:Ea; cbn [orb]; [intros [= <- <-]; by apply pulled_same|].
  destruct (leased now d); [intros [= <- <-]; by apply pulled_same|].
  destruct (after _ _); [intros [= <- <-]; apply pulled_same; by destruct (s_enable_message_ordering sub)|].
  destruct (messages s !! d_message_id d) as [m|]; [|intros [= <- <-]; by apply pulled_same].
  assert (forall o, (if dead_letter_target s sub is Some (topic, max_attempts)
                     then if max_attempts <=? d_delivery_attempt d then pull_dead_letter s topic m d st else o else o)
                    = Ok (d', st') -> (o = Ok (d', st') -> pulled [d] st [d'] st') -> pulled [d] st [d'] st') as Hdl.
  { intros o Ho Hd. destruct (dead_letter_target s sub) as [[topic max]|]; [|by apply Hd].
    destruct (max <=? _); [|by apply Hd]. by eapply pull_dead_letter_step. }
  intros Ho. eapply Hdl; [exact Ho|]. clear Ho Hdl.
  destruct (if s_enable_message_ordering sub then nonempty_key m else None) as [key|].
  - case_bool_decide; [intros [= <- <-]; by apply pulled_same|]. intros E. by eapply pull_deliver_step.
  - intros E. by eapply pull_deliver_step.
Qed.

Lemma pulled_cons d l st d' l' st' st'' :
  pulled [d] st [d'] st' -> pulled l st' l' st'' -> pulled (d :: l) st (d' :: l') st''.
Proof.
  intros (A1 & M1 & F1 & dl1 & D1 & N1) (A2 & M2 & F2 & dl2 & D2 & N2). unfold pulled. cbn [length] in *.
  split_and!; try lia.
  - intros na Hna. specialize (F1 na ltac:(lia)). specialize (F2 na Hna).
    inversion F1; subst. by constructor.
  - exists (dl1 ++ dl2)%list. rewrite D2, D1, app_assoc. split; [done|]. by eapply dead_numbered_app.
Qed.
Lemma pull_loop_ok s sub max now ack l st l' st' :
  0 <= pl_message_id st -> 0 <= pl_ack_id st ->
  room (pl_message_id st) (Z.of_nat (length l)) -> room (pl_ack_id st) (Z.of_nat (length l)) ->
  pull_loop s sub max now ack l st = Ok (l', st') -> pulled l st l' st'.
Proof.
  revert st l' st'. induction l as [|d l IH]; intros st l' st' H1 H2 R1 R2; cbn [pull_loop].
  { intros [= <- <-]. split_and!; simpl; try lia; [intros; constructor|]. exists []. by rewrite app_nil_r. }
  destruct (max <=? _).
  { intros [= <- <-]. split_and!; try lia; [intros na _; by apply Forall_Forall2_diag, Forall_true|].
    exists []. by rewrite app_nil_r. }
  destruct (pull_step s sub now ack d st) as [[d1 st1]| |] eqn:E1; cbn [mbind outcome_bind]; [|done..].
  destruct (pull_loop s sub max now ack l st1) as [[l1 st2]| |] eqn:E2; cbn [mbind outcome_bind]; [|done..].
  intros [= <- <-]. cbn [length] in R1, R2.
  apply pull_step_ok in E1; [|done|done|eapply room_le; [|done]; lia|eapply room_le; [|done]; lia].
  eapply pulled_cons; [done|]. destruct E1 as (? & ? & _). cbn [length] in *. eapply IH; [lia|lia| | |exact E2].
  - destruct R1 as [?|?]; [by left|right; lia].
  - destruct R2 as [?|?]; [by left|right; lia].
Qed.

Lemma add_dead_letters_ok l nm nm' s na :
  named s_name (subscriptions s) -> store_ok (messages s) (deliveries s) (snapshots s) nm na ->
  dead_numbered nm l nm' ->
  let s' := foldl add_dead_letter s l in
  (store_ok (messages s') (deliveries s') (snapshots s) nm' na
   /\ (subscribed (deliveries s) (subscriptions s) -> subscribed (deliveries s') (subscriptions s)))
  /\ s' = set_deliveries (deliveries s') (set_messages (messages s') s) /\ messages s ⊆ messages s' /\ nm <= nm'.
Proof.
  revert nm s. induction l as [|[topic m] l IH]; intros nm s Hn Hok; simpl.
  { intros <-. split_and!; [done|done|by destruct s|done|lia]. }
  intros [Hid Hl]. pose proof (so_nm _ _ _ _ _ Hok) as H0.
  pose proof (store_ok_publish _ _ _ _ _ m
    (map s_name (List.filter (attached_to topic) (values (subscriptions s)))) Hok Hid
    (NoDup_some_names _ _ _ Hn)) as Hok'. rewrite <- Hid in Hok'.
  edestruct (IH (nm + 1) (add_dead_letter s (topic, m))) as ([Ho Hs] & He & Hm & ?); [done|exact Hok'|done|].
  split_and!; [done| |by rewrite He at 1| |lia].
  { intros Hd. apply Hs. by apply subscribed_push. }
  etrans; [|exact Hm]. simpl. apply insert_subseteq. rewrite Hid.
  destruct (messages s !! show_Z (nm + 1)) eqn:E; [|done].
  destruct (store_ok_message Hok _ _ E) as [_ Hnum]. by destruct (numbered_fresh nm _ H0 Hnum).
Qed.
End Pull.

(** ** Releasing, seeking, snapshots *)

Lemma release_unsent_step na id rs : Forall2 (record_step na) rs (release_unsent id rs).
Proof.
  induction rs as [|d rs IH]; simpl; [constructor|]. destruct (negb _ || d_acked d) eqn:E.
  - constructor; [apply record_step_refl|done].
  - apply orb_false_iff in E as [_ E]. constructor; [by apply record_step_released|].
    apply Forall_Forall2_diag, Forall_true. intros. apply record_step_refl.
Qed.
Lemma release_one_step na id rs rs' : release_one id rs = Some rs' -> Forall2 (record_step na) rs rs'.
Proof.
  revert rs'. induction rs as [|d rs IH]; intros rs'; simpl; [done|]. destruct (negb _ || d_acked d) eqn:E.
  - intros (r & Hr & [= <-])%bind_Some. constructor; [apply record_step_refl|by apply IH].
  - apply orb_false_iff in E as [_ E]. intros [= <-]. constructor; [by apply record_step_released|].
    apply Forall_Forall2_diag, Forall_true. intros. apply record_step_refl.
Qed.
Lemma entry_ok_trim ms nm na max bytes received rs :
  entry_ok ms nm na rs -> entry_ok ms nm na (trim_batch max bytes received rs).2.
Proof.
  unfold trim_batch. destruct (0 <? max); [|done]. simpl. generalize (drop (fitting true received (max - bytes)) received).
  intros l. revert rs. induction l as [|r l IH]; intros rs He; simpl; [done|]. apply IH.
  eapply entry_ok_step; [reflexivity|apply release_unsent_step|done].
Qed.
Lemma entry_ok_release_all ms nm na rs ids : entry_ok ms nm na rs -> entry_ok ms nm na (release_all rs ids).1.
Proof.
  unfold release_all. generalize false. revert rs. induction ids as [|id ids IH]; intros rs b He; simpl; [done|].
  destruct (release_one id rs) as [rs'|] eqn:E; apply IH; [|done].
  eapply entry_ok_step; [reflexivity|by eapply release_one_step|done].
Qed.

Lemma entry_ok_reset ms nm na (f : DeliveryRecord -> DeliveryRecord) rs :
  (forall d, d_message_id (f d) = d_message_id d /\ unleased (f d)) ->
  (forall d, d ∈ rs -> is_Some (ms !! d_message_id d)) ->
  entry_ok ms nm na rs -> entry_ok ms nm na (map f rs).
Proof.
  intros Hf Hm [Ho Hn]. split.
  - rewrite Forall_forall in *. intros d' (d & Hd & <-)%elem_of_lmap. destruct (Ho d Hd) as (? & _).
    destruct (Hf d) as [Hid Hu]. unfold record_ok, has_message. rewrite Hid. split_and!; [done|by left|]. intros _. by apply Hm.
  - rewrite map_map. rewrite (map_ext _ d_message_id); [done|]. intros d. apply Hf.
Qed.
Lemma snapshot_deliveries_ok ms nm na rs :
  entry_ok ms nm na rs ->
  entry_ok ms nm na (snapshot_deliveries rs) /\ Forall (fun d => d_acked d = false) (snapshot_deliveries rs).
Proof.
  intros He. unfold snapshot_deliveries. split.
  - apply entry_ok_reset; [done| |by apply entry_ok_filter].
    intros d [Ha Hd]%elem_of_lfilter. destruct He as [Hf _]. rewrite Forall_forall in Hf.
    destruct (Hf d Hd) as (_ & _ & Hm). apply Hm. by destruct (d_acked d).
  - rewrite Forall_forall. by intros d (x & _ & <-)%elem_of_lmap.
Qed.
Lemma seek_by_time_ok s sub secs :
  delivery_ok s -> entry_ok (messages s) (next_message_id s) (next_ack_id s) (seek_deliveries_by_time s sub secs).
Proof.
  intros Hok. unfold seek_deliveries_by_time. apply entry_ok_reset; [done| |].
  - intros d [Hr _]%elem_of_lfilter. unfold replayable in Hr. by destruct (messages s !! d_message_id d) as [m|].
  - apply entry_ok_filter, (store_ok_entry Hok).
Qed.
