(* ===== verification/PubCalls.v ===== *)
(** Every call of the Pub/Sub service keeps the invariant of PubInvariant, and a
    refused call of a transactional handler changes nothing but the dirty flags and
    messages nobody can receive.  Both are proved together, handler by handler. *)

From S2P Require Import Prelude RustStr RustNum RustText Json PubTime PubModel PubValidation PubResources PubGrpc PubMessages PubSystem PubInvariant.
Local Open Scope string_scope.
Local Open Scope Z_scope.

(** ** Calls that leave the server alone *)

Definition peeks {A} (m : Api A) : Prop := forall w, wp m (fun _ w' => server w' = server w) w.
Create HintDb peeks discriminated.

Lemma peeks_bind {A B} (m : Api A) (f : A -> Api B) : peeks m -> (forall a, peeks (f a)) -> peeks (m ≫= f).
Proof.
  intros Hm Hf w. apply wp_bind. eapply wp_mono; [apply Hm|]. intros [a|e|p] w' Hw; simpl; [|done..].
  eapply wp_mono; [apply Hf|]. intros o w'' Hw'. congruence.
Qed.
Lemma peeks_ret {A} (a : A) : peeks (mret a). Proof. done. Qed.
Lemma peeks_fail {A} e : peeks (A := A) (fail e). Proof. done. Qed.
Lemma peeks_gets {A} (f : World -> A) : peeks (gets f). Proof. done. Qed.
Lemma peeks_lift {A} (o : result ApiError A) : peeks (lift o). Proof. done. Qed.
Lemma peeks_guard c e : peeks (guard_err c e). Proof. by destruct c. Qed.
Lemma peeks_if {A} (b : bool) (m1 m2 : Api A) : peeks m1 -> peeks m2 -> peeks (if b then m1 else m2).
Proof. by destruct b. Qed.
Lemma peeks_tick : peeks next_tick. Proof. done. Qed.
Lemma peeks_for_each {X A} (l : list X) (a : A) f : (forall x a, peeks (f x a)) -> peeks (for_each l a f).
Proof.
  intros Hf. revert a. induction l as [|x l IH]; intros a; [done|]. cbn [for_each].
  apply peeks_bind; [apply Hf|done].
Qed.
#[export] Hint Resolve peeks_ret peeks_fail peeks_gets peeks_lift peeks_guard peeks_tick : peeks.
Ltac solve_peeks :=
  repeat first
    [ progress intros
    | solve [auto with peeks]
    | apply peeks_bind
    | match goal with |- peeks (match ?x with _ => _ end) => destruct x end ].

Section Readers.
Context `{Env}.
Lemma peeks_now : peeks now. Proof. unfold now. solve_peeks. Qed.
Lemma peeks_now_parts : peeks now_parts.
Proof. unfold now_parts. apply peeks_bind; [apply peeks_now|solve_peeks]. Qed.
Lemma peeks_fs_call call : peeks (fs_call call). Proof. unfold fs_call. solve_peeks. Qed.
Lemma peeks_found {V} (field : Server -> gmap string V) k msg : peeks (found field k msg).
Proof. unfold found. solve_peeks. Qed.
Lemma peeks_absent {V} (field : Server -> gmap string V) k msg : peeks (absent field k msg).
Proof. unfold absent. solve_peeks. Qed.
Lemma peeks_checked_names kind p id : peeks (checked_names kind p id).
Proof. unfold checked_names. solve_peeks. Qed.
Lemma peeks_checked_project_first kind p id : peeks (checked_project_first kind p id).
Proof. unfold checked_project_first. solve_peeks. Qed.
Lemma peeks_checked_name v kind n : peeks (checked_name v kind n).
Proof. apply peeks_guard. Qed.
#[local] Hint Resolve peeks_now peeks_now_parts peeks_fs_call peeks_found : peeks.
Lemma peeks_snapshot_expired sn : peeks (snapshot_expired sn).
Proof. unfold snapshot_expired. solve_peeks. Qed.
#[local] Hint Resolve peeks_snapshot_expired : peeks.
Lemma peeks_snapshot_expire_time : peeks snapshot_expire_time.
Proof. unfold snapshot_expire_time. solve_peeks. Qed.
Lemma peeks_expired_names l : peeks (expired_names l).
Proof. induction l as [|[k sn] l IH]; cbn [expired_names]; solve_peeks. Qed.
Lemma peeks_live_snapshot n : peeks (live_snapshot n).
Proof. unfold live_snapshot. solve_peeks. Qed.
Lemma peeks_live_snapshots p l : peeks (live_snapshots p l).
Proof. induction l as [|sn l IH]; cbn [live_snapshots]; solve_peeks. Qed.
#[local] Hint Resolve peeks_live_snapshot : peeks.
Lemma peeks_snapshot_of n sub : peeks (snapshot_of n sub).
Proof. unfold snapshot_of. solve_peeks. Qed.
Lemma peeks_checked_schema_project p n : peeks (checked_schema_project p n).
Proof. unfold checked_schema_project. solve_peeks. Qed.
Lemma peeks_grpc_page {V} (l : list V) n t : peeks (grpc_page l n t).
Proof. unfold grpc_page. solve_peeks. Qed.
Lemma peeks_pullable sub : peeks (pullable sub).
Proof. unfold pullable. solve_peeks. Qed.
Lemma peeks_iam_action `{SerdeJson} a b : peeks (iam_action a b).
Proof. unfold iam_action. solve_peeks. Qed.
End Readers.
#[export] Hint Resolve peeks_now peeks_now_parts peeks_fs_call peeks_found peeks_absent peeks_checked_names
  peeks_checked_project_first peeks_checked_name peeks_snapshot_expired peeks_snapshot_expire_time
  peeks_expired_names peeks_live_snapshot peeks_live_snapshots peeks_snapshot_of peeks_checked_schema_project
  peeks_grpc_page peeks_pullable peeks_iam_action : peeks.

(** ** Keeping the invariant, undoing a refused call *)

(** The same server, but for the flags and some messages. *)
Definition same (s s' : Server) : Prop :=
  exists a b ms, s' = set_flags a b (set_messages ms s) /\ ms ⊆ messages s.
Lemma same_refl s : same s s.
Proof. exists (resource_dirty s), (messages_dirty s), (messages s). split; [by destruct s|done]. Qed.

Definition is_err {A} (o : result ApiError A) : Prop := match o with Err _ => True | _ => False end.
(** From the server [s], reached from [s0], the call keeps the invariant, and if
    [t] it undoes its changes on an error. *)
Definition kp {A} (t : bool) (s0 s : Server) (m : Api A) : Prop :=
  forall w, server w = s ->
    wp m (fun o w' => wf (server w') /\ (t = true -> is_err o -> same s0 (server w'))) w.

Section Rules.
Context {t : bool} {s0 s : Server}.

Lemma kp_ret {A} (a : A) : wf s -> kp t s0 s (mret a).
Proof. intros Hw w <-. by apply wp_ret. Qed.
Lemma kp_gets {B} (f : Server -> Api B) : kp t s0 s (f s) -> kp t s0 s (gets server ≫= f).
Proof. intros Hf w Hw. apply wp_bind, wp_gets. simpl. rewrite Hw. by apply Hf. Qed.
Lemma kp_peeks {A B} (m : Api A) (f : A -> Api B) :
  peeks m -> wf s -> (t = true -> same s0 s) -> (forall a, kp t s0 s (f a)) -> kp t s0 s (m ≫= f).
Proof.
  intros Hm Hw Ht Hf w E. apply wp_bind. eapply wp_mono; [apply Hm|].
  intros [a|e|p] w' Hw'; simpl.
  - apply Hf. congruence.
  - rewrite Hw', E. split; [done|]. intros ? _. by apply Ht.
  - rewrite Hw', E. by split.
Qed.
Lemma kp_read {A} (m : Api A) : peeks m -> wf s -> (t = true -> same s0 s) -> kp t s0 s m.
Proof.
  intros Hm Hw Ht w E. eapply wp_mono; [apply Hm|]. intros o w' Hw'. rewrite Hw', E. split; [done|]. intros ? _. by apply Ht.
Qed.
Lemma kp_change {B} f (m : Api B) : kp t s0 (f s) m -> kp t s0 s (change f ≫= fun _ => m).
Proof. intros Hm w <-. apply wp_bind, wp_modify. simpl. by apply Hm. Qed.
Lemma kp_bind {A B} (m : Api A) (f : A -> Api B) (Q : A -> Server -> Prop) :
  (forall w, server w = s -> wp m (fun o w' => match o with
       | Ok a => Q a (server w')
       | _ => wf (server w') /\ (t = true -> is_err o -> same s0 (server w')) end) w) ->
  (forall a s', Q a s' -> kp t s0 s' (f a)) -> kp t s0 s (m ≫= f).
Proof.
  intros Hm Hf w E. apply wp_bind. eapply wp_mono; [by apply Hm|].
  intros [a|e|p] w' Hw'; simpl; [|by destruct Hw'..]. by eapply Hf.
Qed.
Lemma kp_map {A B} (m : Api A) (f : A -> B) : kp t s0 s m -> kp t s0 s (a ← m; mret (f a)).
Proof.
  intros Hm w E. apply wp_bind. eapply wp_mono; [by apply Hm|]. intros [a|e|p] w' [Hw' ?]; simpl; [by apply wp_ret|by split..].
Qed.
Lemma kp_found {V B} (field : Server -> gmap string V) k msg (f : V -> Api B) :
  wf s -> (t = true -> same s0 s) -> (forall v, field s !! k = Some v -> kp t s0 s (f v)) ->
  kp t s0 s (found field k msg ≫= f).
Proof.
  intros Hw Ht Hf w E. apply wp_bind. unfold found. apply wp_bind, wp_gets. simpl. apply wp_lift. rewrite E.
  destruct (field s !! k) as [v|] eqn:Ev; simpl; [by apply Hf|].
  rewrite E. split; [done|]. intros ? _. by apply Ht.
Qed.
End Rules.

(** ** Persisting *)

Section Persist.
Context `{Env, SerdePretty}.

Lemma set_flags_flags a b a' b' s : set_flags a b (set_flags a' b' s) = set_flags a b s.
Proof. done. Qed.
Lemma set_flags_id s : set_flags (resource_dirty s) (messages_dirty s) s = s.
Proof. by destruct s. Qed.

(** A step that changes the server's flags only, and fails with [store_unavailable] only. *)
Definition flags_only (m : Api unit) : Prop := forall w, wp m (fun o w' =>
  (o = Ok tt \/ o = Err store_unavailable) /\ exists a b, server w' = set_flags a b (server w)) w.
Lemma flags_only_bind m m' : flags_only m -> flags_only m' -> flags_only (m ;; m').
Proof.
  intros Hm Hm' w. apply wp_bind. eapply wp_mono; [apply Hm|].
  intros o w1 [[-> | ->] (a & b & E)]; simpl; [|by eauto].
  eapply wp_mono; [apply Hm'|]. intros o w2 [Ho (a' & b' & E')]. split; [done|]. exists a', b'. by rewrite E', E.
Qed.
Lemma flags_only_fs_call call : flags_only (fs_call call).
Proof.
  intros w. unfold fs_call. apply wp_bind. unfold next_tick, wp at 1. simpl.
  assert (exists a b, server w = set_flags a b (server w)) as Hs by (do 2 eexists; symmetry; apply set_flags_id).
  destruct (call (w_tick w)).
  - apply wp_fail. split; [by right|done].
  - apply wp_ret. split; [by left|done].
Qed.
Lemma flags_only_modify f : (forall w, exists a b, server (f w) = set_flags a b (server w)) -> flags_only (modify f).
Proof. intros Hf w. apply wp_modify. split; [by left|]. apply Hf. Qed.
Lemma flags_only_write_atomic store : (forall w, server (store w) = server w) -> flags_only (write_atomic store).
Proof.
  intros Hs. repeat (apply flags_only_bind; [apply flags_only_fs_call|]). apply flags_only_modify.
  intros w. exists (resource_dirty (server w)), (messages_dirty (server w)). by rewrite Hs, set_flags_id.
Qed.
Lemma flags_only_write_resource_file s : flags_only (write_resource_file s).
Proof.
  apply flags_only_bind; [by apply flags_only_write_atomic|]. apply flags_only_modify.
  intros w. by exists false, (messages_dirty (server w)).
Qed.
Lemma flags_only_write_message_file s : flags_only (write_message_file s).
Proof.
  apply flags_only_bind; [by apply flags_only_write_atomic|]. apply flags_only_modify.
  intros w. by exists (resource_dirty (server w)), false.
Qed.
Lemma flags_only_ret : flags_only (mret tt).
Proof. intros w. apply wp_ret. split; [by left|]. do 2 eexists. symmetry. apply set_flags_id. Qed.
Lemma flags_only_if (b : bool) m m' : flags_only m -> flags_only m' -> flags_only (if b then m else m').
Proof. by destruct b. Qed.

(** Whether it succeeds or not, persisting prunes the messages and sets flags. *)
Lemma wp_persisting w :
  wp persist (fun o w' => (o = Ok tt \/ o = Err store_unavailable)
    /\ exists a b, server w' = set_flags a b (pruned (server w))) w.
Proof.
  unfold persist. apply wp_bind, wp_modify. simpl. apply wp_bind, wp_gets. simpl.
  destruct (in_memory _).
  { apply wp_modify. split; [by left|]. by exists false, false. }
  match goal with |- wp ?m _ ?w1 => assert (flags_only m) as Hm end.
  { apply flags_only_bind; apply flags_only_if; auto using flags_only_write_resource_file,
      flags_only_write_message_file, flags_only_ret. }
  eapply wp_mono; [apply Hm|]. simpl. done.
Qed.

Lemma kp_persist_or {B} t s0 s g (m : Api B) :
  wf (pruned s) ->
  (forall a b, wf (g (set_flags a b (pruned s))) /\ (t = true -> same s0 (g (set_flags a b (pruned s))))) ->
  (forall a b, kp t s0 (set_flags a b (pruned s)) m) ->
  kp t s0 s (persist_or g ≫= fun _ => m).
Proof.
  intros Hw Hg Hm w E. apply wp_bind. unfold persist_or. apply wp_bind, wp_catch.
  eapply wp_mono; [apply wp_persisting|]. intros o w' [Ho (a & b & E')]. rewrite E in E'.
  destruct Ho as [-> | ->]; simpl.
  - apply wp_ret. by eapply Hm.
  - apply wp_bind, wp_modify. simpl. apply wp_fail. simpl. rewrite E'. split; [apply Hg|]. intros ? _. by apply Hg.
Qed.
Lemma kp_persist_or_last t s0 s g :
  wf (pruned s) ->
  (forall a b, wf (g (set_flags a b (pruned s))) /\ (t = true -> same s0 (g (set_flags a b (pruned s))))) ->
  kp t s0 s (persist_or g).
Proof.
  intros Hw Hg w E. unfold persist_or. apply wp_bind, wp_catch.
  eapply wp_mono; [apply wp_persisting|]. intros o w' [Ho (a & b & E')]. rewrite E in E'.
  destruct Ho as [-> | ->]; simpl.
  - apply wp_ret. rewrite E'. by split.
  - apply wp_bind, wp_modify. simpl. apply wp_fail. simpl. rewrite E'. split; [apply Hg|]. intros ? _. by apply Hg.
Qed.
End Persist.

Lemma kp_absent `{Env} {V B} {t s0 s} (field : Server -> gmap string V) k msg (m : Api B) :
  wf s -> (t = true -> same s0 s) -> (field s !! k = None -> kp t s0 s m) ->
  kp t s0 s (absent field k msg ≫= fun _ => m).
Proof.
  intros Hw Ht Hf w E. apply wp_bind. unfold absent. apply wp_bind, wp_gets. simpl. rewrite E.
  apply wp_guard; case_bool_decide as Hk; intros; try done.
  - simpl. rewrite E. split; [done|]. intros ? _. by apply Ht.
  - simpl. apply Hf; [|done]. by apply eq_None_not_Some.
Qed.

(** Walks through a handler to its changes: reading steps, guards and lookups. *)
Ltac kp_base := first [assumption | intros _; apply same_refl].
Ltac kp_step :=
  cbv beta zeta;
  lazymatch goal with
  | |- kp _ _ _ (gets server ≫= _) => apply kp_gets
  | |- kp _ _ _ (found _ _ _ ≫= _) => apply kp_found; [kp_base|kp_base|intros ? ?]
  | |- kp _ _ _ (absent _ _ _ ≫= _) => apply kp_absent; [kp_base|kp_base|intros ?]
  | |- kp _ _ _ (change _ ≫= _) => fail
  | |- kp _ _ _ (mret _) => apply kp_ret
  | |- kp _ _ _ (_ ≫= _) => apply kp_peeks; [solve [solve_peeks]|kp_base|kp_base|intros ?]
  | |- kp _ _ _ _ => apply kp_read; [solve [solve_peeks]|kp_base|kp_base]
  end.
Ltac kp_steps := repeat kp_step.

(** A change of resources, taken back. *)
Section Undo.
Variables (f g : Server -> Server) (s : Server).
Hypothesis Hwf : wf s.
Hypothesis Hf : wf (f s).
Hypothesis Hsub : messages (f s) = messages s.
Hypothesis Hsame : deliveries s ⊆ deliveries (f s) /\ snapshots s ⊆ snapshots (f s)
  /\ next_message_id (f s) = next_message_id s /\ next_ack_id (f s) = next_ack_id s.
Hypothesis Hundo : forall a b m ms,
  exists b', g (set_flags a b (set_messages_dirty m (set_messages ms (f s)))) = set_flags a b' (set_messages ms s).

Lemma undo_resources t a b :
  wf (g (set_flags a b (pruned (f s)))) /\ (t = true -> same s (g (set_flags a b (pruned (f s))))).
Proof.
  pose proof (wf_pruned _ Hf) as (_ & Hd & _). destruct (pruned_eq (f s)) as (m & ms & E & Hms). rewrite E in Hd |- *.
  destruct (Hundo a b m ms) as [b' ->]. assert (ms ⊆ messages s) as Hle.
  { rewrite <- Hsub. destruct Hms as [-> | ->]; [done|apply live_messages_sub]. }
  split; [|intros _; by exists a, b', ms]. split_and!; [apply Hwf| |apply Hwf]. unfold delivery_ok in *. simpl in *.
  destruct Hsame as (? & ? & <- & <-). by eapply (store_ok_sub Hd).
Qed.
End Undo.

(** What each change does to the invariant. *)
Lemma wf_topics m s : named t_name m -> wf s -> wf (set_topics m s).
Proof. intros Hm [(_ & ? & ? & ?) ?]. by split. Qed.
Lemma wf_subscriptions m s :
  named s_name m -> (forall k, is_Some (subscriptions s !! k) -> is_Some (m !! k)) -> wf s -> wf (set_subscriptions m s).
Proof. intros Hm Hk [(? & _ & ? & ?) [? ?]]. split_and!; try done. by eapply subscribed_keys. Qed.
Lemma insert_keys {V} k (v : V) (m : gmap string V) j : is_Some (m !! j) -> is_Some (<[k := v]> m !! j).
Proof. intros. by apply lookup_insert_is_Some'; right. Qed.
Lemma wf_schemas m s : named sc_name m -> wf s -> wf (set_schemas m s).
Proof. intros Hm [(? & ? & ? & _) ?]. by split. Qed.
Lemma wf_topic_named s : wf s -> named t_name (topics s). Proof. by intros [(?&?&?&?) ?]. Qed.
Lemma wf_sub_named s : wf s -> named s_name (subscriptions s). Proof. by intros [(?&?&?&?) ?]. Qed.
Lemma wf_snap_named s : wf s -> named sn_name (snapshots s). Proof. by intros [(?&?&?&?) ?]. Qed.
Lemma wf_schema_named s : wf s -> named sc_name (schemas s). Proof. by intros [(?&?&?&?) ?]. Qed.
Create HintDb wf discriminated.
#[export] Hint Resolve wf_topic_named wf_sub_named wf_snap_named wf_schema_named : wf.

Lemma patch_topic_fields_name p l t : t_name (foldl (patch_topic_field p) t l) = t_name t.
Proof.
  revert t. induction l as [|f l IH]; intros t; [done|]. simpl. rewrite IH. unfold patch_topic_field.
  by repeat destruct (str_eqb _ _).
Qed.

(** ** Resource handlers *)

Lemma insert_delete_none {V} k v (m : gmap string V) : m !! k = None -> delete k (<[k := v]> m) = m.
Proof. intros. by rewrite delete_insert_id. Qed.
Lemma insert_back {V} k v v' (m : gmap string V) : m !! k = Some v -> <[k := v]> (<[k := v']> m) = m.
Proof. intros. by rewrite insert_insert_eq, insert_id. Qed.
Lemma delete_back {V} k v (m : gmap string V) : m !! k = Some v -> <[k := v]> (delete k m) = m.
Proof. intros. by rewrite insert_delete_id. Qed.
Lemma put_some_back {V} k (m : gmap string V) : put_some k (m !! k) (delete k m) = m.
Proof. unfold put_some. destruct (m !! k) eqn:E; [by apply delete_back|by apply delete_id]. Qed.
Lemma put_back_back {V} k v (m : gmap string V) : put_back k (m !! k) (<[k := v]> m) = m.
Proof. unfold put_back. destruct (m !! k) eqn:E; [by apply insert_back|by apply insert_delete_none]. Qed.

(** The same messages and counters, no record or snapshot less. *)
Definition same_store (s s' : Server) : Prop :=
  messages s' = messages s /\ deliveries s ⊆ deliveries s' /\ snapshots s ⊆ snapshots s'
  /\ next_message_id s' = next_message_id s /\ next_ack_id s' = next_ack_id s.
(** [g] takes the change back, whatever happened to the flags and the messages. *)
Definition undoes (g : Server -> Server) (s1 s : Server) : Prop :=
  forall a b m ms, exists b', g (set_flags a b (set_messages_dirty m (set_messages ms s1))) = set_flags a b' (set_messages ms s).

Section Resources.
Context `{Env, SerdeJson, SerdePretty, DebugStr}.

Lemma kp_commit {B} t f g s (m : Api B) :
  wf s -> wf (f s) -> same_store s (f s) -> undoes g (f s) s ->
  (forall s', wf s' -> kp t s s' m) ->
  kp t s s (change f ≫= fun _ => persist_or g ≫= fun _ => m).
Proof.
  intros Hw Hf (? & ? & ? & ? & ?) Hu Hm. apply kp_change, kp_persist_or; [by apply wf_pruned| |].
  - intros a b. by apply undo_resources.
  - intros a b. apply Hm. by apply wf_pruned in Hf.
Qed.
Lemma kp_commit_last t f g s :
  wf s -> wf (f s) -> same_store s (f s) -> undoes g (f s) s -> kp t s s (change f ≫= fun _ => persist_or g).
Proof.
  intros Hw Hf (? & ? & ? & ? & ?) Hu. apply kp_change, kp_persist_or_last; [by apply wf_pruned|].
  intros a b. by apply undo_resources.
Qed.
(** Without a rollback. *)
Lemma kp_commit_keep {B} f s (m : Api B) :
  wf (f s) -> (forall s', wf s' -> kp false s s' m) ->
  kp false s s (change f ≫= fun _ => persist_keep ≫= fun _ => m).
Proof.
  intros Hf Hm. apply kp_change, kp_persist_or; [by apply wf_pruned| |].
  - intros a b. split; [by apply wf_pruned in Hf|done].
  - intros a b. apply Hm. by apply wf_pruned in Hf.
Qed.
Lemma kp_commit_keep_last f s : wf (f s) -> kp false s s (change f ≫= fun _ => persist_keep).
Proof.
  intros Hf. apply kp_change, kp_persist_or_last; [by apply wf_pruned|].
  intros a b. split; [by apply wf_pruned in Hf|done].
Qed.

Ltac undo lem :=
  let a := fresh in let b := fresh in let m := fresh in let ms := fresh in
  intros a b m ms; exists b; unfold compose, on_topics, on_subscriptions, on_schemas; simpl; by rewrite lem.
Ltac put_topic := apply (wf_topics _ _); [apply named_insert; [try done|by apply wf_topic_named]|assumption].
Ltac put_sub := apply (wf_subscriptions _ _);
  [apply named_insert; [try done|by apply wf_sub_named]|intros ?; apply insert_keys|assumption].
Ltac put_schema := apply (wf_schemas _ _); [apply named_insert; [try done|by apply wf_schema_named]|assumption].
Ltac done_kp := intros; by apply kp_ret.

Lemma keeps_create_topic p id r s : wf s -> kp true s s (create_topic p id r).
Proof. intros Hw. unfold create_topic. kp_steps. apply kp_commit; [done|put_topic|done|undo (@insert_delete_none Topic)|done_kp]. Qed.
Lemma keeps_patch_topic p id r l s : wf s -> kp true s s (patch_topic p id r l).
Proof.
  intros Hw. unfold patch_topic. kp_steps. apply kp_commit; [done|put_topic|done|undo (@insert_back Topic)|done_kp].
  simpl. rewrite patch_topic_fields_name. by apply (wf_topic_named s).
Qed.
Lemma keeps_delete_topic p id s : wf s -> kp true s s (delete_topic p id).
Proof.
  intros Hw. unfold delete_topic. kp_steps. apply kp_commit; [done| |done|undo (@delete_back Topic)|done_kp].
  apply (wf_topics _ s); [|done]. eapply named_sub; [apply delete_subseteq|by apply wf_topic_named].
Qed.
Lemma keeps_create_subscription p id r s : wf s -> kp true s s (create_subscription p id r).
Proof.
  intros Hw. unfold create_subscription. kp_steps.
  apply kp_commit; [done|put_sub|done|undo (@insert_delete_none Subscription)|done_kp].
Qed.
Lemma keeps_patch_subscription p id r l s : wf s -> kp true s s (patch_subscription p id r l).
Proof.
  intros Hw. unfold patch_subscription. kp_steps.
  apply kp_commit; [done|put_sub|done|undo (@insert_back Subscription)|done_kp]. simpl. by apply (wf_sub_named s).
Qed.
Lemma keeps_modify_push_config p id c s : wf s -> kp true s s (modify_push_config p id c).
Proof.
  intros Hw. unfold modify_push_config. kp_steps.
  apply kp_commit; [done|put_sub|done|undo (@insert_back Subscription)|done_kp]. simpl. by apply (wf_sub_named s).
Qed.
Lemma keeps_create_schema p id r s : wf s -> kp true s s (create_schema p id r).
Proof.
  intros Hw. unfold create_schema. kp_steps.
  apply kp_commit; [done|put_schema|done|undo (@insert_delete_none Schema)|done_kp].
Qed.
Lemma keeps_delete_schema p id s : wf s -> kp true s s (delete_schema p id).
Proof.
  intros Hw. unfold delete_schema. kp_steps. apply kp_commit; [done| |done|undo (@delete_back Schema)|done_kp].
  apply (wf_schemas _ s); [|done]. eapply named_sub; [apply delete_subseteq|by apply wf_schema_named].
Qed.

Lemma orphaned_name now t sub : s_name (orphaned now t sub) = s_name sub.
Proof. unfold orphaned. by destruct (str_eqb _ _). Qed.
Lemma orphaned_back now t (m : gmap string Subscription) :
  filter (fun e => s_topic e.2 = t) m ∪ (orphaned now t <$> m) = m.
Proof.
  apply map_eq. intros k. rewrite lookup_union, lookup_fmap. destruct (m !! k) as [sub|] eqn:E; simpl.
  - destruct (decide (s_topic sub = t)) as [Ht|Ht].
    + rewrite (proj2 (map_lookup_filter_Some _ _ _ _)) by done. by destruct (orphaned now t sub).
    + rewrite (proj2 (map_lookup_filter_None _ _ _)).
      * unfold orphaned, str_eqb. by rewrite bool_decide_false.
      * right. intros x. rewrite E. by intros [= <-].
  - rewrite (proj2 (map_lookup_filter_None _ _ _)); [done|]. by left.
Qed.

Lemma keeps_grpc_create_topic r s : wf s -> kp true s s (grpc_create_topic r).
Proof.
  intros Hw. unfold grpc_create_topic. kp_steps.
  apply kp_commit; [done|put_topic|done|undo (@insert_delete_none Topic)|done_kp].
Qed.
Lemma update_topic_fields_name u l t t' : try_foldl (update_topic_field u) t l = Ok t' -> t_name t' = t_name t.
Proof.
  revert t. induction l as [|p l IH]; intros t; cbn [try_foldl]; [congruence|].
  destruct (update_topic_field u t p) as [t1| |] eqn:E; cbn [mbind outcome_bind]; [|done..].
  intros Hl%IH. rewrite Hl. unfold update_topic_field, patch_topic_field in E. simpl in E.
  by repeat (destruct (str_eqb _ _) in E; [by injection E as <-|]).
Qed.
Lemma kp_lift_ok {A B} t s0 s (o : result ApiError A) (f : A -> Api B) :
  wf s -> (t = true -> same s0 s) -> (forall a, o = Ok a -> kp t s0 s (f a)) -> kp t s0 s (lift o ≫= f).
Proof.
  intros Hw Ht Hf w E. apply wp_bind, wp_lift. destruct o as [a|e|p]; simpl; rewrite ?E.
  - by apply Hf.
  - split; [done|]. intros ? _. by apply Ht.
  - by split.
Qed.
Lemma keeps_grpc_update_topic r l s : wf s -> kp false s s (grpc_update_topic r l).
Proof.
  intros Hw. unfold grpc_update_topic. do 4 kp_step. apply kp_lift_ok; [done|done|]. intros t Ht. kp_steps.
  apply kp_commit_keep; [|done_kp]. put_topic.
Qed.
Lemma keeps_grpc_delete_topic t s : wf s -> kp true s s (grpc_delete_topic t).
Proof.
  intros Hw. unfold grpc_delete_topic. kp_steps. apply kp_commit_last; [done| |done|].
  - apply (wf_subscriptions _ (set_topics _ s)); simpl.
    + apply named_fmap; [apply orphaned_name|by apply wf_sub_named].
    + intros k. by rewrite lookup_fmap, fmap_is_Some.
    + apply wf_topics; [|done]. eapply named_sub; [apply delete_subseteq|by apply wf_topic_named].
  - intros a' b' m ms. exists b'. unfold compose, on_topics, on_subscriptions. simpl.
    by rewrite orphaned_back, delete_back.
Qed.
Lemma keeps_grpc_modify_push_config sub c s : wf s -> kp false s s (grpc_modify_push_config sub c).
Proof.
  intros Hw. unfold grpc_modify_push_config. kp_steps. apply kp_commit_keep_last. put_sub.
Qed.
Lemma keeps_grpc_update_subscription u l s : wf s -> kp false s s (grpc_update_subscription u l).
Proof. intros Hw. unfold grpc_update_subscription. kp_steps. apply kp_commit_keep; [put_sub|done_kp]. Qed.
Lemma keeps_grpc_create_schema p id r s : wf s -> kp true s s (grpc_create_schema p id r).
Proof.
  intros Hw. unfold grpc_create_schema. kp_steps.
  apply kp_commit; [done|put_schema|done|undo (@insert_delete_none Schema)|done_kp].
Qed.
Lemma keeps_store_schema sc s : wf s -> kp false s s (store_schema sc).
Proof. intros Hw. unfold store_schema. apply kp_commit_keep; [put_schema|done_kp]. Qed.
Ltac schema_kp := kp_steps; by apply keeps_store_schema.
Lemma keeps_grpc_commit_schema n r s : wf s -> kp false s s (grpc_commit_schema n r).
Proof. intros Hw. unfold grpc_commit_schema. schema_kp. Qed.
Lemma keeps_grpc_rollback_schema n r s : wf s -> kp false s s (grpc_rollback_schema n r).
Proof. intros Hw. unfold grpc_rollback_schema. schema_kp. Qed.
Lemma keeps_grpc_delete_schema_revision n r s : wf s -> kp false s s (grpc_delete_schema_revision n r).
Proof. intros Hw. unfold grpc_delete_schema_revision. schema_kp. Qed.
Lemma keeps_grpc_delete_schema n s : wf s -> kp false s s (grpc_delete_schema n).
Proof.
  intros Hw. unfold grpc_delete_schema. kp_steps. apply kp_commit_keep_last.
  apply (wf_schemas _ s); [|done]. eapply named_sub; [apply delete_subseteq|by apply wf_schema_named].
Qed.

(** ** Subscriptions and snapshots *)

(** [g] restores the server but for the flags. *)
Definition restores (g : Server -> Server) (s1 s : Server) : Prop :=
  forall a b m ms, exists a' b', g (set_flags a b (set_messages_dirty m (set_messages ms s1))) = set_flags a' b' s.
Lemma restored g s1 s a b : wf s -> restores g s1 s ->
  wf (g (set_flags a b (pruned s1))) /\ same s (g (set_flags a b (pruned s1))).
Proof.
  intros Hw Hr. destruct (pruned_eq s1) as (m & ms & -> & _). destruct (Hr a b m ms) as (a' & b' & ->).
  split; [done|]. exists a', b', (messages s). split; [by destruct s|done].
Qed.
Lemma kp_restore {B} t f g s (m : Api B) :
  wf s -> wf (f s) -> restores g (f s) s -> (forall s', wf s' -> kp t s s' m) ->
  kp t s s (change f ≫= fun _ => persist_or g ≫= fun _ => m).
Proof.
  intros Hw Hf Hr Hm. apply kp_change, kp_persist_or; [by apply wf_pruned| |].
  - intros a b. destruct (restored g (f s) s a b Hw Hr) as [??]. by split.
  - intros a b. apply Hm. by apply wf_pruned in Hf.
Qed.
Lemma kp_restore_last t f g s :
  wf s -> wf (f s) -> restores g (f s) s -> kp t s s (change f ≫= fun _ => persist_or g).
Proof.
  intros Hw Hf Hr. apply kp_change, kp_persist_or_last; [by apply wf_pruned|].
  intros a b. destruct (restored g (f s) s a b Hw Hr) as [??]. by split.
Qed.

Lemma wf_drop d sn s : d ⊆ deliveries s -> sn ⊆ snapshots s -> wf s -> wf (set_deliveries d (set_snapshots sn s)).
Proof.
  intros Hd Hs [(? & ? & ? & ?) [? ?]]. split_and!; try done.
  - split_and!; try done. simpl. by eapply named_sub.
  - by eapply (store_ok_sub (d := deliveries s) (sn := snapshots s)).
  - by eapply subscribed_sub.
Qed.
Lemma wf_drop_sub k d sn s :
  d ⊆ deliveries s -> d !! k = None -> sn ⊆ snapshots s -> wf s ->
  wf (set_deliveries d (set_snapshots sn (on_subscriptions (delete k) s))).
Proof.
  intros Hd Hk Hs Hw. destruct (wf_drop d sn s Hd Hs Hw) as ((? & ? & ? & ?) & Ho & Hsub). split_and!; try done.
  - split_and!; try done. simpl. eapply named_sub; [apply delete_subseteq|by apply wf_sub_named].
  - intros j rs Hj. simpl in *. rewrite lookup_delete_ne by congruence. by eapply Hsub.
Qed.
Lemma snapshots_of_back k s : snapshots_of k s ∪ (snapshots s ∖ snapshots_of k s) = snapshots s.
Proof. apply map_difference_union. unfold snapshots_of. apply map_filter_subseteq. Qed.
Lemma snapshots_drop k s : snapshots s ∖ snapshots_of k s ⊆ snapshots s.
Proof. apply map_subseteq_difference_l. done. Qed.

Ltac solve_restores :=
  let a := fresh in let b := fresh in let m := fresh in let ms := fresh in
  intros a b m ms; exists a, b; unfold compose, on_deliveries, on_snapshots, on_subscriptions, both_dirty,
    drop_snapshots_of, snapshots_of; simpl; unfold snapshots_of, on_snapshots; simpl;
  rewrite ?(@insert_back Subscription), ?(@delete_back Subscription), ?(@put_some_back (list DeliveryRecord)),
    ?(@delete_back Snapshot), ?(map_difference_union _ _ (map_filter_subseteq _ _)) by done;
  match goal with |- context [set_flags _ _ ?s] => by destruct s end.

Lemma keeps_delete_subscription p id s : wf s -> kp true s s (delete_subscription p id).
Proof.
  intros Hw. unfold delete_subscription. kp_steps. apply kp_restore; [done| |solve_restores|done_kp].
  apply (wf_drop_sub _ (delete _ (deliveries s)) _ (both_dirty s)); simpl; auto.
  - apply delete_subseteq. - apply lookup_delete_eq. - apply (snapshots_drop _ s).
Qed.
Lemma keeps_grpc_delete_subscription sub s : wf s -> kp true s s (grpc_delete_subscription sub).
Proof.
  intros Hw. unfold grpc_delete_subscription. kp_steps. apply kp_restore_last; [done| |solve_restores].
  apply (wf_drop_sub _ (delete _ (deliveries s)) (snapshots s) (both_dirty s)); simpl; auto.
  - apply delete_subseteq. - apply lookup_delete_eq.
Qed.
Lemma keeps_detach_subscription p id s : wf s -> kp true s s (detach_subscription p id).
Proof.
  intros Hw. unfold detach_subscription. kp_steps. apply kp_restore; [done| |solve_restores|done_kp].
  unfold compose. apply (wf_subscriptions _ (both_dirty (set_deliveries (deliveries s) (drop_snapshots_of _ s)))).
  - apply named_insert; [simpl; by apply (wf_sub_named s)|by apply (wf_sub_named s)].
  - intros k. apply insert_keys.
  - by apply (wf_drop _ _ s); [|apply (snapshots_drop _ s)|].
Qed.
Lemma keeps_grpc_detach_subscription sub s : wf s -> kp true s s (grpc_detach_subscription sub).
Proof.
  intros Hw. unfold grpc_detach_subscription. kp_step. kp_step. kp_steps.
  match goal with Hs : subscriptions s !! sub = Some ?v |- _ =>
    assert (s_name v = sub) as -> by (by apply (wf_sub_named s) in Hs) end.
  apply kp_restore_last; [done| |solve_restores].
  apply (wf_drop _ _ (both_dirty (on_subscriptions <[sub := _]> s))); simpl.
  - apply delete_subseteq. - apply (snapshots_drop _ s). - put_sub. simpl. by apply (wf_sub_named s).
Qed.

Lemma wf_put_snapshot k sn s :
  sn_name sn = k -> snapshot_ok (messages s) (next_message_id s) (next_ack_id s) sn -> wf s ->
  wf (on_snapshots <[k := sn]> s).
Proof.
  intros Hk Hok [(? & ? & ? & ?) [Hd ?]]. split_and!; try done.
  - split_and!; try done. by apply named_insert.
  - by apply (store_ok_put_snapshot Hd).
Qed.
Lemma undoes_put_snapshot k sn s : snapshots s !! k = None ->
  undoes (on_snapshots (delete k)) (set_resource_dirty true (on_snapshots <[k := sn]> s)) s
  /\ same_store s (set_resource_dirty true (on_snapshots <[k := sn]> s)).
Proof.
  intros Hk. split.
  - intros a b m ms. exists b. unfold on_snapshots. simpl. by rewrite insert_delete_none.
  - split_and!; try done. by apply insert_subseteq.
Qed.
Lemma keeps_create_snapshot p id sub s : wf s -> kp true s s (create_snapshot p id sub).
Proof.
  intros Hw. unfold create_snapshot. kp_steps.
  match goal with Hk : snapshots s !! ?k = None |- context [<[_ := ?sn]>] =>
    destruct (undoes_put_snapshot k sn s Hk) as [Hu Hs] end.
  apply kp_commit; [done| |exact Hs|exact Hu|done_kp].
  apply (wf_put_snapshot _ _ (set_resource_dirty true s)); [done| |done].
  split; [apply entry_ok_nil|done].
Qed.
Lemma keeps_delete_snapshot p id s : wf s -> kp true s s (delete_snapshot p id).
Proof.
  intros Hw. unfold delete_snapshot. kp_steps. apply kp_restore; [done| |solve_restores|done_kp].
  by apply (wf_drop (deliveries s) (delete (snapshot_name p id) (snapshots s)) (both_dirty s)); [|apply delete_subseteq|].
Qed.
Lemma keeps_grpc_delete_snapshot n s : wf s -> kp true s s (grpc_delete_snapshot n).
Proof.
  intros Hw. unfold grpc_delete_snapshot. kp_steps. apply kp_restore_last; [done| |solve_restores].
  by apply (wf_drop (deliveries s) (delete n (snapshots s)) (both_dirty s)); [|apply delete_subseteq|].
Qed.
Lemma snapshot_fields_ok u l sn sn' : try_foldl (update_snapshot_field u) sn l = Ok sn' ->
  sn_name sn' = sn_name sn /\ sn_deliveries sn' = sn_deliveries sn.
Proof.
  revert sn. induction l as [|p l IH]; intros sn; cbn [try_foldl]; [by intros [= <-]|].
  destruct (update_snapshot_field u sn p) as [sn1| |] eqn:E; cbn [mbind outcome_bind]; [|done..].
  intros [-> ->]%IH. unfold update_snapshot_field in E. by destruct (str_eqb _ _); [injection E as <-|].
Qed.
Lemma kp_live_snapshot {B t s0 s} n (f : Snapshot -> Api B) :
  wf s -> (t = true -> same s0 s) -> (forall sn, snapshots s !! n = Some sn -> kp t s0 s (f sn)) ->
  kp t s0 s (live_snapshot n ≫= f).
Proof.
  intros Hw Ht Hf. apply (kp_bind _ _ (fun sn s' => s' = s /\ snapshots s !! n = Some sn)).
  - intros w E. unfold live_snapshot, found. do 2 apply wp_bind. apply wp_gets. simpl. apply wp_lift. rewrite E.
    destruct (snapshots s !! n) as [sn|]; simpl; [|rewrite E; split; [done|]; intros ? _; by apply Ht].
    apply wp_bind. eapply wp_mono; [apply peeks_snapshot_expired|]. intros o w' Hw'. rewrite E in Hw'.
    destruct o as [b|e|p]; simpl; rewrite ?Hw'; [|split; [done|]; intros ? _; by apply Ht|by split].
    apply wp_bind, wp_guard; intros _; simpl; rewrite ?Hw'; [split; [done|]; intros ? _; by apply Ht|by apply wp_ret].
  - intros sn s' [-> Hsn]. by apply Hf.
Qed.
Lemma keeps_grpc_update_snapshot u l s : wf s -> kp false s s (grpc_update_snapshot u l).
Proof.
  intros Hw. unfold grpc_update_snapshot. do 2 kp_step. apply kp_live_snapshot; [done|done|]. intros sn Hsn.
  apply kp_lift_ok; [done|done|]. intros sn' [Hn Hd]%snapshot_fields_ok.
  apply kp_commit_keep; [|done_kp].
  pose proof (so_snapshots _ _ _ _ _ (proj1 (proj2 Hw)) _ _ Hsn) as Hok. simpl in Hok.
  apply (wf_put_snapshot _ _ (set_resource_dirty true s)); [done| |done].
  unfold snapshot_ok. rewrite Hd. exact Hok.
Qed.

(** ** Generated names *)

Lemma generated_name_taken {V} fuel name prefix i (m : gmap string V) :
  is_Some (m !! generated_name fuel name prefix i m) ->
  forall j, 0 <= j <= Z.of_nat fuel -> is_Some (m !! name (prefix +:+ show_Z (i + j))).
Proof.
  revert i. induction fuel as [|fuel IH]; intros i; simpl.
  - intros Hs j Hj. by replace (i + j) with i by lia.
  - case_bool_decide as Hn; [|done]. intros Hs j Hj. destruct (decide (j = 0)) as [-> | ?].
    + by replace (i + 0) with i by lia.
    + replace (i + j) with (i + 1 + (j - 1)) by lia. apply IH; [done|lia].
Qed.
Lemma generated_name_fresh {V} name prefix (m : gmap string V) :
  (forall a b, 1 <= a -> 1 <= b -> name (prefix +:+ show_Z a) = name (prefix +:+ show_Z b) -> a = b) ->
  m !! generated_name (size m) name prefix 1 m = None.
Proof.
  intros Hinj. destruct (m !! _) as [v|] eqn:E; [|done].
  pose proof (generated_name_taken _ _ _ _ m ltac:(by rewrite E)) as Ht.
  set (l := (fun j => name (prefix +:+ show_Z (1 + Z.of_nat j))) <$> seq 0 (S (size m))).
  assert (NoDup l) as Hnd.
  { apply NoDup_fmap_2_strong; [|apply NoDup_seq]. intros j k Hj Hk Hjk. apply Hinj in Hjk; lia. }
  assert (list_to_set l ⊆ dom m) as Hsub.
  { intros k Hk. rewrite elem_of_list_to_set in Hk. apply list_elem_of_fmap in Hk as (j & -> & Hj).
    apply elem_of_seq in Hj. apply elem_of_dom, Ht. lia. }
  apply subseteq_size in Hsub. rewrite size_list_to_set, size_dom in Hsub by done.
  unfold l in Hsub. rewrite length_fmap, length_seq in Hsub. lia.
Qed.
Lemma numbered_names_inj collection p prefix a b : 1 <= a -> 1 <= b ->
  resource_name collection p (prefix +:+ show_Z a) = resource_name collection p (prefix +:+ show_Z b) -> a = b.
Proof.
  intros Ha Hb E. unfold resource_name in E. repeat apply str_app_inv_head in E. by apply show_Z_inj in E; [|lia..].
Qed.
Lemma generated_subscription_fresh s p : subscriptions s !! generated_subscription_name s p = None.
Proof. apply generated_name_fresh. intros a b. apply numbered_names_inj. Qed.
Lemma generated_snapshot_fresh s p : snapshots s !! generated_snapshot_name s p = None.
Proof. apply generated_name_fresh. intros a b. apply numbered_names_inj. Qed.

Lemma keeps_grpc_create_subscription r s : wf s -> kp true s s (grpc_create_subscription r).
Proof.
  intros Hw. unfold grpc_create_subscription. kp_steps.
  match goal with Hk : subscriptions s !! ?k = None |- _ =>
    assert (deliveries s !! k = None) as Hd by
      (destruct (deliveries s !! k) eqn:E; [|done]; destruct (proj2 (proj2 Hw) _ _ E); congruence) end.
  apply kp_commit; [done|put_sub|done| |done_kp].
  intros a' b' m ms. exists b'. unfold compose, on_deliveries, on_subscriptions. simpl.
  rewrite insert_delete_none, delete_id by done. by destruct s.
Qed.
Lemma keeps_grpc_create_snapshot n sub l s : wf s -> kp true s s (grpc_create_snapshot n sub l).
Proof.
  intros Hw. unfold grpc_create_snapshot. kp_steps.
  set (k := if is_empty n then _ else n).
  assert (snapshots s !! k = None) as Hk by (subst k; destruct (is_empty n); [apply generated_snapshot_fresh|done]).
  match goal with |- context [mkSnapshot k ?a ?b ?c ?d ?e] =>
    destruct (undoes_put_snapshot k (mkSnapshot k a b c d e) s Hk) as [Hu Hs] end.
  apply kp_commit; [done| |exact Hs|exact Hu|done_kp].
  apply (wf_put_snapshot _ _ (set_resource_dirty true s)); [done| |done].
  apply snapshot_deliveries_ok. apply (store_ok_entry (proj1 (proj2 Hw))).
Qed.
End Resources.
