(* ===== verification/PubFlows.v ===== *)
(** Publishing, pulling, acknowledging, seeking and streaming keep the invariant of
    PubInvariant, and a refused one is undone where the handler undoes it. *)

From S2P Require Import Prelude RustStr RustNum RustText Json PubTime PubModel PubValidation PubResources PubGrpc PubMessages PubSystem PubInvariant PubCalls.
Local Open Scope string_scope.
Local Open Scope Z_scope.

(** ** What the steps leave alone *)

(** Everything but the store of messages and records. *)
Definition drifted (s s' : Server) : Prop :=
  exists nm na a b ms d sn,
    s' = set_next_ids nm na (set_flags a b (set_messages ms (set_deliveries d (set_snapshots sn s)))).
Lemma drifted_refl s : drifted s s.
Proof.
  exists (next_message_id s), (next_ack_id s), (resource_dirty s), (messages_dirty s), (messages s), (deliveries s), (snapshots s).
  by destruct s.
Qed.
Lemma drifted_trans s s' s'' : drifted s s' -> drifted s' s'' -> drifted s s''.
Proof.
  intros (nm & na & a & b & ms & d & sn & ->) (nm' & na' & a' & b' & ms' & d' & sn' & ->).
  by exists nm', na', a', b', ms', d', sn'.
Qed.
Section Setters.
Context {s s' : Server} (H : drifted s s').
Lemma drifted_ids nm na : drifted s (set_next_ids nm na s').
Proof. destruct H as (? & ? & a & b & ms & d & sn & ->). by exists nm, na, a, b, ms, d, sn. Qed.
Lemma drifted_resource_dirty a : drifted s (set_resource_dirty a s').
Proof. destruct H as (nm & na & ? & b & ms & d & sn & ->). by exists nm, na, a, b, ms, d, sn. Qed.
Lemma drifted_messages_dirty b : drifted s (set_messages_dirty b s').
Proof. destruct H as (nm & na & a & ? & ms & d & sn & ->). by exists nm, na, a, b, ms, d, sn. Qed.
Lemma drifted_messages ms : drifted s (set_messages ms s').
Proof. destruct H as (nm & na & a & b & ? & d & sn & ->). by exists nm, na, a, b, ms, d, sn. Qed.
Lemma drifted_deliveries d : drifted s (set_deliveries d s').
Proof. destruct H as (nm & na & a & b & ms & ? & sn & ->). by exists nm, na, a, b, ms, d, sn. Qed.
Lemma drifted_snapshots sn : drifted s (set_snapshots sn s').
Proof. destruct H as (nm & na & a & b & ms & d & ? & ->). by exists nm, na, a, b, ms, d, sn. Qed.
End Setters.
Lemma drifted_only_deliveries s s' : only_deliveries s s' -> drifted s s'.
Proof. intros ->. apply drifted_messages_dirty, drifted_deliveries, drifted_refl. Qed.
Lemma drifted_pruned s : drifted s (pruned s).
Proof. destruct (pruned_eq s) as (b & ms & -> & _). apply drifted_messages_dirty, drifted_messages, drifted_refl. Qed.
Lemma drifted_subscriptions s s' : drifted s s' -> subscriptions s' = subscriptions s.
Proof. by intros (? & ? & ? & ? & ? & ? & ? & ->). Qed.
Lemma drifted_names s s' : drifted s s' -> named sn_name (snapshots s') -> names_ok s -> names_ok s'.
Proof. intros (? & ? & ? & ? & ? & ? & ? & ->) Hn (? & ? & _ & ?). by split_and!. Qed.

(** Undoing a pull. *)
Lemma restore_pull_drifted s s' : drifted s s' -> exists a b, restore_pull s s' = set_flags a b s.
Proof. intros (nm & na & a & b & ms & d & sn & ->). exists a, b. by destruct s. Qed.

(** Fewer records, the same counters. *)
Definition shrunk (s s' : Server) : Prop :=
  next_message_id s' = next_message_id s /\ next_ack_id s' = next_ack_id s
  /\ forall sub, (length (records_of s' sub) <= length (records_of s sub))%nat.
Lemma shrunk_trans s s' s'' : shrunk s s' -> shrunk s' s'' -> shrunk s s''.
Proof. intros (? & ? & H1) (? & ? & H2). split_and!; [congruence..|]. intros sub. etrans; [apply H2|apply H1]. Qed.

(** ** Pure steps *)

Lemma filter_length_le {A} (p : A -> bool) l : (length (List.filter p l) <= length l)%nat.
Proof. induction l as [|x l IH]; simpl; [done|]. destruct (p x); simpl; lia. Qed.

Lemma retain_deliveries_shrunk now s sub :
  (length (records_of (retain_deliveries now s) sub) <= length (records_of s sub))%nat.
Proof.
  unfold records_of, retain_deliveries. simpl. rewrite map_lookup_imap.
  destruct (deliveries s !! sub) as [rs|]; simpl; [|done]. unfold retained_records.
  pose proof (filter_length_le (published_since (messages s) (now * NANOS - subscription_message_retention_nanos s sub)) rs) as Hl.
  by destruct (List.filter _ rs).
Qed.
Lemma retained_ok now s :
  wf s -> wf (cleanup_unreferenced_messages (retain_snapshots now (retain_deliveries now s))).
Proof.
  intros ((? & ? & Hsn & ?) & Hd & Hs).
  pose proof (delivery_ok_cleanup _ (delivery_ok_retain_snapshots now _ (delivery_ok_retain now _ Hd))) as Hok.
  destruct (cleanup_unreferenced_eq (retain_snapshots now (retain_deliveries now s))) as [b E]. rewrite E in *.
  split_and!; [split_and!; try done|done|].
  - simpl. by apply named_fmap.
  - simpl. intros k rs Hk. rewrite map_lookup_imap in Hk. apply bind_Some in Hk as (rs' & Hr & _). by eapply Hs.
Qed.
Lemma retained_drifted now s :
  let s' := cleanup_unreferenced_messages (retain_snapshots now (retain_deliveries now s)) in
  drifted s s' /\ shrunk s s'.
Proof.
  cbv zeta. destruct (cleanup_unreferenced_eq (retain_snapshots now (retain_deliveries now s))) as [b ->]. split.
  - apply drifted_messages_dirty, drifted_messages. unfold retain_snapshots.
    apply drifted_resource_dirty, drifted_snapshots. unfold retain_deliveries.
    apply drifted_messages_dirty, drifted_deliveries, drifted_refl.
  - split_and!; [done..|]. intros sub. apply (retain_deliveries_shrunk now s sub).
Qed.

Lemma expire_leases_shrunk `{Build} now s s' : expire_leases now s = Ok s' -> shrunk s s'.
Proof.
  intros E. apply expire_leases_spec in E as [Ho Hs]. rewrite Ho. split_and!; [done..|]. intros sub.
  specialize (Hs sub). unfold expired_in in Hs. unfold records_of. simpl.
  destruct (deliveries s !! sub) as [rs|]; [|by rewrite Hs]. destruct Hs as (rs' & Hm & ->). simpl.
  apply (map_try_Forall2 _ (fun _ _ => True)) in Hm; [|done]. by rewrite (Forall2_length _ _ _ Hm).
Qed.
Lemma expired_ok `{Build} now s s' : wf s -> expire_leases now s = Ok s' -> wf s'.
Proof.
  intros (Hn & Hd & Hs) E. destruct (expire_leases_ok _ _ _ Hd E) as [Hd' Ho].
  apply expire_leases_spec in E as [_ Hsp]. split_and!; [by rewrite Ho|done|].
  intros k rs Hk. specialize (Hsp k). unfold expired_in in Hsp. rewrite Ho. simpl.
  destruct (deliveries s !! k) as [r|] eqn:E; [by eapply Hs|congruence].
Qed.

(** Steps that panic at worst. *)
Definition no_err {A} (o : result ApiError A) : Prop := forall e, o <> Err e.
Lemma no_err_bind {A B} (o : result ApiError A) (f : A -> result ApiError B) :
  no_err o -> (forall a, no_err (f a)) -> no_err (o ≫= f).
Proof. intros Ho Hf e. destruct o as [a|e'|p]; simpl; [apply Hf|by destruct (Ho e')|done]. Qed.
Lemma no_err_ok {A} (a : A) : no_err (Ok a). Proof. done. Qed.
Lemma no_err_checked_i64 `{Build} z : no_err (checked_i64 z).
Proof. unfold checked_i64. intros e. destruct (in_i64 z); [done|]. by destruct overflow_checks. Qed.
Lemma no_err_checked_u64 `{Build} z : no_err (checked_u64 z).
Proof. unfold checked_u64. intros e. destruct (in_width _ _ z); [done|]. by destruct overflow_checks. Qed.
Lemma no_err_map_try {X Y} (f : X -> result ApiError Y) l : (forall x, no_err (f x)) -> no_err (map_try f l).
Proof. intros Hf. induction l; cbn [map_try]; [done|]. repeat (apply no_err_bind; [auto|intros ?]). done. Qed.
Create HintDb no_err discriminated.
#[export] Hint Resolve no_err_ok no_err_checked_i64 no_err_checked_u64 no_err_map_try : no_err.
Ltac solve_no_err :=
  repeat first
    [ progress intros
    | solve [auto with no_err]
    | apply no_err_bind
    | match goal with |- no_err (match ?x with _ => _ end) => destruct x end ].
Lemma no_err_plus_seconds `{Build} n k : no_err (plus_seconds n k).
Proof. unfold plus_seconds. solve_no_err. Qed.
#[export] Hint Resolve no_err_plus_seconds : no_err.
Lemma no_err_expire_record `{Build} s sub now d : no_err (expire_record s sub now d).
Proof. unfold expire_record. solve_no_err. Qed.
#[export] Hint Resolve no_err_expire_record : no_err.
Lemma no_err_expire_leases `{Build} now s : no_err (expire_leases now s).
Proof.
  unfold expire_leases. generalize (btree_iter (deliveries s)). intros l. revert s.
  induction l as [|e l IH]; intros s; cbn [try_foldl]; [done|]. apply no_err_bind; [|done].
  unfold expire_entry. solve_no_err.
Qed.
Section Pure.
Context `{Env}.
Lemma no_err_pull_step s sub now ack d st : no_err (pull_step s sub now ack d st).
Proof. unfold pull_step, pull_dead_letter, pull_deliver. cbv zeta. solve_no_err. Qed.
Lemma no_err_pull_loop s sub max now ack l st : no_err (pull_loop s sub max now ack l st).
Proof.
  revert st. induction l as [|d l IH]; intros st; cbn [pull_loop]; [done|]. destruct (max <=? _); [done|].
  apply no_err_bind; [apply no_err_pull_step|]. intros [d' st']. apply no_err_bind; [apply IH|]. by intros [l' st''].
Qed.
Lemma no_err_update_records n sub ids a k now s : no_err (update_records n sub ids a k now s).
Proof. unfold update_records, update_record. solve_no_err. apply no_err_map_try. solve_no_err. Qed.
Lemma no_err_publish_all t now l s : no_err (publish_all t now l s).
Proof.
  revert s. induction l as [|i l IH]; intros s; cbn [publish_all]; [done|].
  apply no_err_bind; [unfold fresh_message_id; auto with no_err|]. intros n. apply no_err_bind; [apply IH|]. by intros [ids s'].
Qed.
End Pure.

(** ** Cleaning up *)

Section Cleanup.
Context `{Env}.

(** Reading steps that always return. *)
Definition peeks_ok {A} (m : Api A) : Prop := forall w, wp m (fun o w' => (exists a, o = Ok a) /\ server w' = server w) w.
Lemma peeks_ok_bind {A B} (m : Api A) (f : A -> Api B) : peeks_ok m -> (forall a, peeks_ok (f a)) -> peeks_ok (m ≫= f).
Proof.
  intros Hm Hf w. apply wp_bind. eapply wp_mono; [apply Hm|]. intros o w1 [[a ->] E]. simpl.
  eapply wp_mono; [apply Hf|]. intros o w2 [Ho E']. split; [done|congruence].
Qed.
Lemma peeks_ok_ret {A} (a : A) : peeks_ok (mret a). Proof. intros w. apply wp_ret. eauto. Qed.
Lemma peeks_ok_now : peeks_ok now.
Proof.
  unfold now. apply peeks_ok_bind; [intros w; apply wp_gets; eauto|]. intros s. destruct (fixed_now s); [apply peeks_ok_ret|].
  apply peeks_ok_bind; [intros w; unfold next_tick, wp; simpl; eauto|]. intros t. destruct (sys_clock t). apply peeks_ok_ret.
Qed.
Lemma peeks_ok_snapshot_expired sn : peeks_ok (snapshot_expired sn).
Proof.
  unfold snapshot_expired. destruct (is_empty _); [apply peeks_ok_ret|].
  destruct (parse_rfc3339 _) as [[e ?]|]; [|apply peeks_ok_ret].
  apply peeks_ok_bind; [apply peeks_ok_now|intros n; apply peeks_ok_ret].
Qed.
Lemma peeks_ok_expired_names l : peeks_ok (expired_names l).
Proof.
  induction l as [|[k sn] l IH]; cbn [expired_names]; [apply peeks_ok_ret|].
  apply peeks_ok_bind; [apply peeks_ok_snapshot_expired|]. intros e. apply peeks_ok_bind; [done|]. intros r. apply peeks_ok_ret.
Qed.

Definition cleaned (s s' : Server) : Prop := wf s' /\ drifted s s' /\ shrunk s s'.
Lemma cleaned_trans s s' s'' : cleaned s s' -> cleaned s' s'' -> cleaned s s''.
Proof. intros (? & ? & ?) (? & ? & ?). split_and!; [done|by eapply drifted_trans|by eapply shrunk_trans]. Qed.
Lemma cleaned_expired now s s' : wf s -> expire_leases now s = Ok s' -> cleaned s s'.
Proof.
  intros Hw E. split_and!; [by eapply expired_ok|apply drifted_only_deliveries|by eapply expire_leases_shrunk].
  by apply expire_leases_spec in E as [? _].
Qed.

Lemma wf_remove_snapshots names b s :
  wf s -> wf (remove_snapshots names (if (b : bool) then s else set_resource_dirty true s)).
Proof.
  intros Hw. assert (wf (if b then s else set_resource_dirty true s)) as Hw' by (by destruct b).
  unfold remove_snapshots. revert Hw'. generalize (if b then s else set_resource_dirty true s). intros s1 Hw'.
  pose proof (wf_drop (deliveries s1) _ s1 (reflexivity _) (foldl_delete_sub (snapshots s1) names) Hw') as Hd.
  by destruct s1.
Qed.
Lemma wp_cleanup now_secs w : wf (server w) ->
  wp (cleanup_retained_messages now_secs) (fun o w' => o = Ok tt /\ cleaned (server w) (server w')) w.
Proof.
  intros Hw. unfold cleanup_retained_messages, cleanup_expired_snapshots.
  apply wp_bind, wp_bind, wp_gets. simpl. apply wp_bind. eapply wp_mono; [apply peeks_ok_expired_names|].
  intros o w1 [[names ->] E]. simpl. apply wp_modify. simpl. apply wp_modify. simpl. rewrite E.
  split; [done|]. set (s1 := remove_snapshots names _).
  assert (cleaned (server w) s1) as Hc.
  { subst s1. split_and!.
    - pose proof (wf_remove_snapshots names (bool_decide (names = [])) (server w) Hw) as Hr. exact Hr.
    - apply drifted_snapshots. destruct (bool_decide _); [apply drifted_refl|apply drifted_resource_dirty, drifted_refl].
    - destruct (bool_decide _); by split_and!. }
  match goal with |- context [if ?b then s1 else _] => destruct b; [done|] end.
  eapply cleaned_trans; [done|]. destruct Hc as (Hw1 & _ & _). destruct (retained_drifted now_secs s1).
  split_and!; [by apply retained_ok|done|done].
Qed.
Lemma kp_cleanup {B} t s0 s now_secs (m : Api B) :
  wf s -> (forall s', cleaned s s' -> kp t s0 s' m) ->
  kp t s0 s (cleanup_retained_messages now_secs ≫= fun _ => m).
Proof.
  intros Hw Hm. apply (kp_bind _ _ (fun _ s' => cleaned s s')); [|by intros _].
  intros w E. eapply wp_mono; [apply wp_cleanup; by rewrite E|]. intros o w' [-> Hc]. by rewrite E in Hc.
Qed.

(** A pure computation on the server that panics at worst. *)
Lemma kp_try {A B} t s0 s (f : Server -> result ApiError (A * Server)) (g : A -> Api B) :
  wf s -> no_err (f s) -> (forall a s', f s = Ok (a, s') -> kp t s0 s' (g a)) -> kp t s0 s (on_server_try f ≫= g).
Proof.
  intros Hw Hn Hg. apply (kp_bind _ _ (fun a s' => f s = Ok (a, s'))); [|done].
  intros w E. unfold on_server_try. apply wp_bind, wp_gets. simpl. apply wp_bind, wp_lift. rewrite E.
  destruct (f s) as [[a s']|e|p] eqn:Ef; simpl; [by apply wp_bind, wp_modify, wp_ret|by destruct (Hn e)|].
  by rewrite E.
Qed.
Lemma kp_expire {B} t s0 s now_secs (m : Api B) :
  wf s -> (forall s', cleaned s s' -> expire_leases now_secs s = Ok s' -> kp t s0 s' m) ->
  kp t s0 s (expire_leases_now now_secs ≫= fun _ => m).
Proof.
  intros Hw Hm. unfold expire_leases_now. apply kp_try; [done| |].
  - apply no_err_bind; [apply no_err_expire_leases|done].
  - intros [] s'. destruct (expire_leases now_secs s) as [s1| |] eqn:E; cbn [mbind outcome_bind]; [|done..].
    intros [= <-]. apply Hm; [|done]. by eapply cleaned_expired.
Qed.
End Cleanup.

(** ** Publishing *)

(** The counters have room for [k] more, and for the records of any subscription. *)
Definition fits `{Build} (k : Z) (s : Server) : Prop :=
  room (next_message_id s) k
  /\ forall sub, room (next_message_id s) (Z.of_nat (length (records_of s sub)))
              /\ room (next_ack_id s) (Z.of_nat (length (records_of s sub))).
Lemma fits_shrunk `{Build} k s s' : shrunk s s' -> fits k s -> fits k s'.
Proof.
  intros (Hm & Ha & Hl) [Hr Hs]. split; [by rewrite Hm|]. intros sub. rewrite Hm, Ha. destruct (Hs sub) as [H1 H2].
  specialize (Hl sub). split; (eapply room_le; [|done]; lia).
Qed.

Section Publishing.
Context `{Env, SerdeJson, SerdePretty, DebugStr}.

Lemma publish_all_drifted t now l s ids s' :
  publish_all t now l s = Ok (ids, s') ->
  s' = set_deliveries (deliveries s') (set_messages (messages s') (set_next_message_id (next_message_id s') s)).
Proof.
  revert s ids s'. induction l as [|i l IH]; intros s ids s'; cbn [publish_all].
  { intros [= _ <-]. by destruct s. }
  destruct (fresh_message_id s) as [n| |]; cbn [mbind outcome_bind]; [|done..].
  destruct (publish_all t now l _) as [[ids' s2]| |] eqn:Ep; cbn [mbind outcome_bind]; [|done..].
  intros [= _ <-]. apply IH in Ep. rewrite Ep at 1. done.
Qed.
Lemma keeps_publish_messages t l s :
  wf s -> room (next_message_id s) (Z.of_nat (length l)) -> kp true s s (publish_messages t l).
Proof.
  intros Hw Hr. unfold publish_messages. do 2 kp_step. apply kp_try; [done|apply no_err_publish_all|].
  intros ids s1 Ep. pose proof (publish_all_ok _ _ _ _ _ _ Hw Hr Ep) as Hw1. apply publish_all_drifted in Ep.
  apply kp_change, kp_persist_or; [by apply wf_pruned| |].
  - intros b1 b2.
    assert (restores (fun s' => set_deliveries (deliveries s) (set_messages (messages s)
      (set_next_message_id (next_message_id s) s'))) (set_messages_dirty true s1) s) as Hre.
    { intros x y m ms. exists x, y. rewrite Ep. by destruct s. }
    destruct (restored _ _ s b1 b2 Hw Hre). by split.
  - intros b1 b2. apply kp_ret. by apply (wf_pruned (set_messages_dirty true s1)).
Qed.
Lemma keeps_publish p id msgs s :
  wf s -> fits (Z.of_nat (length msgs)) s -> kp true s s (publish p id msgs).
Proof.
  intros Hw [Hf _]. unfold publish. kp_steps. apply kp_map, keeps_publish_messages; [done|]. by rewrite length_map.
Qed.
Lemma keeps_grpc_publish t msgs s :
  wf s -> fits (Z.of_nat (length msgs)) s -> kp true s s (grpc_publish t msgs).
Proof. intros Hw [Hf _]. unfold grpc_publish. kp_steps. by apply keeps_publish_messages. Qed.
End Publishing.

(** ** Pulling *)

Section Pulls.
Context `{Env, SerdeJson, SerdePretty, DebugStr}.

(** The state after the loop: leases handed out, dead letters delivered; the records
    are those of the subscription, to be stored. *)
Definition pulled_state (name : string) (s s' : Server) (records : list DeliveryRecord) : Prop :=
  wf s' /\ drifted s s' /\ entry_ok (messages s') (next_message_id s') (next_ack_id s') records.
(** The server after the loop, before the records are stored. *)
Definition after_loop (st : Pulling) (s : Server) : Server :=
  foldl add_dead_letter (set_next_ids (pl_message_id st) (pl_ack_id st) s) (pl_dead st).
Definition start_loop (s : Server) (sub : Subscription) (now_secs : Z) (records : list DeliveryRecord) (t : nat) : Pulling :=
  mkPulling (next_message_id s) (next_ack_id s) t (leased_keys s sub now_secs records) [] [].
Lemma after_loop_ok name sub max now_secs ack s t l st :
  wf s -> fits 0 s ->
  pull_loop s sub max now_secs ack (records_of s name) (start_loop s sub now_secs (records_of s name) t) = Ok (l, st) ->
  pulled_state name s (after_loop st s) l /\ messages s ⊆ messages (after_loop st s)
  /\ next_ack_id (after_loop st s) = pl_ack_id st.
Proof.
  intros (Hn & Hd & Hs) [_ Hfit] El. destruct (Hfit name) as [R1 R2]. pose proof Hd as [Hnm Hna _ _ _].
  apply pull_loop_ok in El as ((Ha & _) & _ & Hstep & dl & Edl & Hdl); [|done..]. simpl in Ha, Hdl, Edl. unfold after_loop.
  rewrite Edl. pose proof (store_ok_acks Hd (pl_ack_id st) Ha) as Hd'.
  set (s1 := set_next_ids (pl_message_id st) (pl_ack_id st) s).
  destruct (add_dead_letters_ok dl (next_message_id s) (pl_message_id st) s1 (pl_ack_id st)
    (wf_sub_named _ (conj Hn (conj Hd Hs))) Hd' Hdl) as ([Ho Hsub] & He & Hms & Hle).
  split_and!; [split_and!|exact Hms|by rewrite He].
  - split_and!; rewrite He; [done|done|]. by apply Hsub.
  - rewrite He. apply drifted_deliveries, drifted_messages. subst s1. apply drifted_ids, drifted_refl.
  - rewrite He. simpl. eapply entry_ok_mono; [exact Hms|exact Hle|reflexivity|].
    eapply entry_ok_step; [exact Ha|by apply Hstep|]. apply (store_ok_entry Hd).
Qed.
Lemma kp_pull_core {B} t s0 s name sub max now_secs ack (f : list Received * list DeliveryRecord -> Api B) :
  wf s -> fits 0 s ->
  (forall received records s', pulled_state name s s' records -> kp t s0 s' (f (received, records))) ->
  kp t s0 s (pull_with_ack_deadline_core name sub max now_secs ack ≫= f).
Proof.
  intros Hw Hfit Hf.
  apply (kp_bind _ _ (fun r s' => pulled_state name s s' r.2)); [|intros [received records] s'; apply Hf].
  intros w E. unfold pull_with_ack_deadline_core. apply wp_bind, wp_gets. simpl. apply wp_bind, wp_gets. simpl.
  apply wp_bind, wp_lift. rewrite E. clear Hf.
  destruct (pull_loop _ _ _ _ _ _ _) as [[l st]|e|p] eqn:El; simpl; [|by destruct (no_err_pull_loop _ _ _ _ _ _ _ _ El)|by rewrite E].
  apply wp_bind, wp_modify. simpl. apply wp_bind, wp_modify. simpl. apply wp_ret. simpl. rewrite E.
  by apply (after_loop_ok _ _ _ _ _ _ _ _ _ Hw Hfit El).
Qed.

Lemma wf_store_records name rs s :
  is_Some (subscriptions s !! name) -> entry_ok (messages s) (next_message_id s) (next_ack_id s) rs -> wf s ->
  wf (store_records name rs s).
Proof.
  intros Hs Hrs (Hn & Hd & Hsub). split_and!; [done|by apply (store_ok_put Hd)|]. by apply subscribed_put.
Qed.
(** Storing records, and the rollback of a pull. *)
Lemma kp_store_pull {B} t s0 s name rs (m : Api B) :
  wf s0 -> drifted s0 s -> wf (store_records name rs s) ->
  (forall s', wf s' -> kp t s0 s' m) ->
  kp t s0 s (change (store_records name rs) ≫= fun _ => persist_or (restore_pull s0) ≫= fun _ => m).
Proof.
  intros Hw Hdr Hs Hm. apply kp_change, kp_persist_or; [by apply wf_pruned| |].
  - intros a b. edestruct (restore_pull_drifted s0 (set_flags a b (pruned (store_records name rs s)))) as (a' & b' & ->).
    + apply drifted_messages_dirty, drifted_resource_dirty. eapply drifted_trans; [|apply drifted_pruned].
      apply drifted_messages_dirty. by apply drifted_deliveries.
    + split; [done|]. intros _. exists a', b', (messages s0). split; [by destruct s0|done].
  - intros a b. apply Hm. by apply (wf_pruned (store_records name rs s)).
Qed.
Lemma kp_begin_pull {B} t s (f : Z * Server -> Api B) :
  wf s -> (forall now_secs s', cleaned s s' -> kp t s s' (f (now_secs, s))) -> kp t s s (begin_pull ≫= f).
Proof.
  intros Hw Hf. unfold begin_pull.
  apply (kp_bind _ _ (fun r s' => r.2 = s /\ cleaned s s')); [|intros [n s1] s' [E Hc]; cbn [snd] in E; rewrite E; by apply Hf].
  intros w E. apply wp_bind. eapply wp_mono; [apply peeks_now_parts|]. intros [[n m]|e|p] w1 E1; simpl.
  2: { rewrite E1, E. split; [done|]. intros _ _. apply same_refl. } 2: { by rewrite E1, E. }
  apply wp_bind, wp_gets. simpl. rewrite E1, E. apply wp_bind. eapply wp_mono; [apply wp_cleanup; by rewrite E1, E|].
  intros o w2 [-> Hc]. simpl. rewrite E1, E in Hc. apply wp_bind. unfold expire_leases_now, on_server_try.
  apply wp_bind, wp_gets. simpl. apply wp_bind, wp_lift.
  destruct (expire_leases n (server w2)) as [s3|e|p] eqn:E3; cbn [mbind outcome_bind]; simpl.
  - apply wp_bind, wp_modify. simpl. apply wp_ret. simpl. apply wp_ret. simpl. split; [done|].
    eapply cleaned_trans; [done|]. eapply cleaned_expired; [apply Hc|done].
  - by destruct (no_err_expire_leases _ _ _ E3).
  - split; [apply Hc|done].
Qed.
Lemma keeps_pull_batch name sub max s :
  wf s -> is_Some (subscriptions s !! name) -> fits 0 s -> kp true s s (pull_batch name sub max).
Proof.
  intros Hw Hsub Hfit. unfold pull_batch. apply kp_begin_pull; [done|]. intros n s1 (Hw1 & Hd1 & Hs1).
  apply kp_pull_core; [done|by eapply fits_shrunk|]. intros received records s2 (Hw2 & Hd2 & He2).
  pose proof (drifted_trans _ _ _ Hd1 Hd2) as Hd.
  apply kp_store_pull; [done|done| |intros; by apply kp_ret].
  apply wf_store_records; [by rewrite (drifted_subscriptions _ _ Hd)|by apply entry_ok_compact|done].
Qed.
Lemma keeps_pull p id max s : wf s -> fits 0 s -> kp true s s (pull p id max).
Proof.
  intros Hw Hfit. unfold pull. kp_steps. apply kp_map, keeps_pull_batch; [done|eauto|done].
Qed.
Lemma keeps_grpc_pull sub max s : wf s -> fits 0 s -> kp true s s (grpc_pull sub max).
Proof.
  intros Hw Hfit. unfold grpc_pull. do 2 kp_step. kp_steps.
  apply keeps_pull_batch; [done| |done].
  match goal with Hs : subscriptions s !! _ = Some ?v |- _ => rewrite (wf_sub_named s Hw _ _ Hs); eauto end.
Qed.
Lemma keeps_grpc_pull_may_return sub s : wf s -> kp true s s (grpc_pull_may_return sub).
Proof.
  intros Hw. unfold grpc_pull_may_return. kp_step. destruct (subscriptions s !! sub) as [sb|]; [|by apply kp_ret].
  destruct (s_detached sb || _); [by apply kp_ret|]. kp_step. destruct a as [n m]. apply kp_expire; [done|].
  intros s' (Hw' & _) _. kp_step. by apply kp_ret.
Qed.
End Pulls.

(** ** Acknowledging, seeking *)

Section Acks.
Context `{Env, SerdeJson, SerdePretty, DebugStr}.

Lemma nonempty_ids ids : no_empty_ack_id ids = Ok tt -> "" ∉ (list_to_set ids : gset string).
Proof.
  unfold no_empty_ack_id, check. destruct (existsb _ ids) eqn:E; [done|]. intros _ Hin.
  rewrite elem_of_list_to_set in Hin. assert (existsb (fun a => is_empty (trim a)) ids = true); [|congruence].
  apply existsb_exists. exists "". by rewrite <- list_elem_of_In.
Qed.
Lemma updated_ok name sub ids a k now s s' :
  "" ∉ ids -> wf s -> is_Some (subscriptions s !! name) -> update_records name sub ids a k now s = Ok s' ->
  wf s' /\ only_deliveries s s'.
Proof.
  intros Hids (Hn & Hd & Hs) Hsub E. destruct (update_records_ok _ _ _ _ _ _ _ _ Hids Hd E) as [Hd' Ho].
  split; [|done]. unfold update_records in E. destruct (map_try _ _) as [rs| |]; cbn [mbind outcome_bind] in E; [|done..].
  injection E as <-. split_and!; [done|done|]. by apply subscribed_put.
Qed.
(** Leases expired, then records changed. *)
Lemma kp_update {B} t s0 s name sub ids a k now (m : Api B) :
  "" ∉ ids -> wf s -> is_Some (subscriptions s !! name) ->
  (forall s', wf s' -> only_deliveries s s' -> kp t s0 s' m) ->
  kp t s0 s (expire_leases_now now ≫= fun _ =>
    on_server_try (fun s => s' ← update_records name sub ids a k now s; Ok (tt, s')) ≫= fun _ => m).
Proof.
  intros Hids Hw Hsub Hm. apply kp_expire; [done|]. intros s1 (Hw1 & Hd1 & _) [Ho1 _]%expire_leases_spec.
  apply kp_try; [done| |].
  - apply no_err_bind; [apply no_err_update_records|done].
  - intros [] s'. destruct (update_records name sub ids a k now s1) as [s2| |] eqn:E; cbn [mbind outcome_bind]; [|done..].
    intros [= <-]. apply updated_ok in E as [? ?]; [|done|done|by rewrite (drifted_subscriptions _ _ Hd1)].
    apply Hm; [done|by eapply only_deliveries_trans].
Qed.

(** The deliveries put back after leases expired and records changed. *)
Lemma undo_acks t a b s s' :
  wf s -> only_deliveries s s' ->
  let s'' := set_messages (messages s) (set_deliveries (deliveries s) (set_flags a b (pruned s'))) in
  wf s'' /\ (t = true -> same s s'').
Proof.
  intros Hw Ho s''. assert (exists a b, s'' = set_flags a b s) as (a' & b' & ->).
  { subst s''. destruct (pruned_eq s') as (m & ms & -> & _). rewrite Ho. exists a, b. by destruct s. }
  split; [done|]. intros _. exists a', b', (messages s). split; [by destruct s|done].
Qed.

Lemma keeps_update_ack_deadlines p id ids k a s : wf s -> kp true s s (update_ack_deadlines p id ids k a).
Proof.
  intros Hw. unfold update_ack_deadlines. kp_step. destruct ids as [|i ids]; [by apply kp_ret|].
  apply kp_lift_ok; [done|intros; apply same_refl|]. intros [] Hids%nonempty_ids. kp_steps.
  match goal with |- kp _ _ _ (let '(_, _) := ?x in _) => destruct x as [n m] end.
  kp_step. apply kp_update; [done|done|eauto|]. intros s' Hw' Ho.
  apply kp_persist_or; [by apply wf_pruned| |].
  - intros x y. by apply undo_acks.
  - intros x y. apply kp_ret. by apply (wf_pruned s').
Qed.
Lemma keeps_grpc_update_ack_deadline name ids k a s : wf s -> kp false s s (grpc_update_ack_deadline name ids k a).
Proof.
  intros Hw. unfold grpc_update_ack_deadline. destruct ids as [|i ids]; [by apply kp_ret|].
  apply kp_lift_ok; [done|done|]. intros [] Hids%nonempty_ids. kp_steps.
  match goal with |- kp _ _ _ (let '(_, _) := ?x in _) => destruct x as [n m] end.
  apply kp_update; [done|done|eauto|]. intros s' Hw' _. apply kp_persist_or_last; [by apply wf_pruned|].
  intros x y. split; [by apply (wf_pruned s')|done].
Qed.
Lemma keeps_grpc_acknowledge name ids s : wf s -> kp false s s (grpc_acknowledge name ids).
Proof. intros Hw. unfold grpc_acknowledge. kp_step. by apply keeps_grpc_update_ack_deadline. Qed.
Lemma keeps_grpc_modify_ack_deadline name ids k s : wf s -> kp false s s (grpc_modify_ack_deadline name ids k).
Proof. intros Hw. unfold grpc_modify_ack_deadline. do 4 kp_step. by apply keeps_grpc_update_ack_deadline. Qed.
End Acks.

(** ** Seeking *)

Lemma kp_assoc {A B C t s0 s} (m : Api A) (f : A -> Api B) (g : B -> Api C) :
  kp t s0 s (m ≫= fun a => f a ≫= g) -> kp t s0 s ((m ≫= f) ≫= g).
Proof.
  intros Hm w E. specialize (Hm w E). apply wp_bind, wp_bind. apply wp_bind_inv in Hm. eapply wp_mono; [exact Hm|].
  intros [a|e|p] w1 H1; simpl in *; [by apply wp_bind_inv in H1|done..].
Qed.

(** Where nothing is undone, the start does not matter. *)
Lemma kp_start {A s0 s} s1 (m : Api A) : kp false s1 s m -> kp false s0 s m.
Proof. intros Hm w E. eapply wp_mono; [by apply Hm|]. by intros o w' [? _]. Qed.

Section Seeks.
Context `{Env, SerdeJson, SerdePretty, DebugStr}.

Lemma kp_snapshot_of {B t s0 s} n sub (f : Snapshot -> Api B) :
  wf s -> (t = true -> same s0 s) -> (forall sn, snapshots s !! n = Some sn -> kp t s0 s (f sn)) ->
  kp t s0 s (snapshot_of n sub ≫= f).
Proof.
  intros Hw Ht Hf. unfold snapshot_of. apply kp_assoc, kp_live_snapshot; [done..|]. intros sn Hsn.
  apply kp_assoc. apply kp_peeks; [solve_peeks|done|done|]. intros _. by apply Hf.
Qed.
Lemma keeps_replay name rs s :
  wf s -> is_Some (subscriptions s !! name) -> entry_ok (messages s) (next_message_id s) (next_ack_id s) rs ->
  kp true s s (replay name rs).
Proof.
  intros Hw Hs Hrs. unfold replay. kp_step. apply kp_restore; [done|by apply wf_store_records| |intros; by apply kp_ret].
  intros a b m ms. exists a, b. unfold restore_entry, store_records, on_deliveries. simpl. rewrite put_back_back. by destruct s.
Qed.
Lemma keeps_seek p id sn time s : wf s -> kp true s s (seek p id sn time).
Proof.
  intros Hw. unfold seek. kp_steps. destruct (is_empty time).
  - apply kp_snapshot_of; [done|intros _; apply same_refl|]. intros snap Hsn. apply keeps_replay; [done|eauto|].
    apply snapshot_deliveries_ok. apply (so_snapshots _ _ _ _ _ (proj1 (proj2 Hw)) _ _ Hsn).
  - kp_step. apply keeps_replay; [done|eauto|]. apply seek_by_time_ok, Hw.
Qed.
Lemma keeps_grpc_seek name sn time s : wf s -> kp false s s (grpc_seek name sn time).
Proof.
  intros Hw. unfold grpc_seek. kp_steps.
  assert (forall rs, entry_ok (messages s) (next_message_id s) (next_ack_id s) rs ->
    wf (set_messages_dirty true (on_deliveries <[name := rs]> s))) as Hput.
  { intros rs Hrs. apply (wf_store_records name rs s); [eauto|done|done]. }
  destruct time as [secs|]; [|destruct sn as [n|]].
  - eapply kp_change, kp_start, kp_commit_keep_last. apply Hput, seek_by_time_ok, Hw.
  - apply kp_assoc. kp_step. apply kp_assoc, kp_snapshot_of; [done|done|]. intros snap Hsn.
    eapply kp_change, kp_start, kp_commit_keep_last. apply Hput, snapshot_deliveries_ok.
    apply (so_snapshots _ _ _ _ _ (proj1 (proj2 Hw)) _ _ Hsn).
  - kp_step. by apply kp_commit_keep_last.
Qed.
End Seeks.

(** ** Streaming pull *)

(** A call, then another; a failed one undoes nothing. *)
Lemma kp_seq {A B s0 s} (m : Api A) (f : A -> Api B) :
  kp false s s m -> (forall a s', wf s' -> kp false s0 s' (f a)) -> kp false s0 s (m ≫= f).
Proof.
  intros Hm Hf. apply (kp_bind _ _ (fun _ s' => wf s')); [|done].
  intros w E. eapply wp_mono; [by apply Hm|]. intros [a|e|p] w' [? _]; done.
Qed.
Lemma kp_for_each {X A} (l : list X) (f : X -> A -> Api A) s a :
  (forall x a s, wf s -> kp false s s (f x a)) -> wf s -> kp false s s (for_each l a f).
Proof.
  intros Hf. revert s a. induction l as [|x l IH]; intros s a Hw; cbn [for_each]; [by apply kp_ret|].
  apply kp_seq; [by apply Hf|]. intros b s' Hw'. by eapply kp_start, IH.
Qed.

(** Releasing a lease loses no unacknowledged record. *)
Definition still_unacked (l l' : list DeliveryRecord) : Prop :=
  forall d, d ∈ l -> d_acked d = false -> exists d', d' ∈ l' /\ d_message_id d' = d_message_id d /\ d_acked d' = false.
Lemma still_unacked_trans l l' l'' : still_unacked l l' -> still_unacked l' l'' -> still_unacked l l''.
Proof.
  intros H1 H2 d Hd Ha. destruct (H1 d Hd Ha) as (d1 & Hd1 & <- & Ha1). by apply H2.
Qed.
Lemma release_one_unacked id l l' : release_one id l = Some l' -> still_unacked l l'.
Proof.
  revert l'. induction l as [|x l IH]; intros l'; simpl; [done|]. destruct (negb _ || d_acked x) eqn:E.
  - intros (r & Hr & [= <-])%bind_Some d [-> | Hd]%elem_of_cons Ha.
    + exists x. split; [by left|done].
    + destruct (IH _ Hr d Hd Ha) as (d' & Hd' & ?). exists d'. split; [by right|done].
  - apply orb_false_iff in E as [_ E]. intros [= <-] d [-> | Hd]%elem_of_cons Ha; [|exists d; split; [by right|done]].
    eexists. split; [by left|done].
Qed.
Lemma release_all_unacked ids l : still_unacked l (release_all l ids).1.
Proof.
  unfold release_all. generalize false. revert l. induction ids as [|id ids IH]; intros l b; simpl.
  - intros d Hd Ha. by exists d.
  - destruct (release_one id l) as [l'|] eqn:E; [|apply IH].
    eapply still_unacked_trans; [by eapply release_one_unacked|apply IH].
Qed.
Lemma compact_unacked l b : still_unacked l (compact_acked l b).
Proof.
  intros d Hd Ha. exists d. unfold compact_acked. destruct b; [done|]. split; [|done]. apply elem_of_lfilter. by rewrite Ha.
Qed.
Lemma entry_ok_unacked ms0 ms nm na l l' :
  still_unacked l l' -> entry_ok ms0 nm na l -> entry_ok ms nm na l' -> entry_ok ms nm na l.
Proof.
  intros Hu [Hf Hn] [Hf' _]. split; [|done]. rewrite Forall_forall in *. intros d Hd. destruct (Hf d Hd) as (? & ? & _).
  split_and!; [done..|]. intros Ha. destruct (Hu d Hd Ha) as (d' & Hd' & <- & Ha'). by apply (Hf' d' Hd').
Qed.
Lemma kp_catch `{Env} {A B t s0 s} (m : Api A) (f : A + ApiError -> Api B) :
  kp false s s m -> (forall r s', wf s' -> kp t s0 s' (f r)) -> kp t s0 s (catch m ≫= f).
Proof.
  intros Hm Hf w E. apply wp_bind, wp_catch. eapply wp_mono; [by apply Hm|].
  intros [a|e|p] w' [Hw' _]; simpl; [apply (Hf (inl a) _ Hw' w' eq_refl)|apply (Hf (inr e) _ Hw' w' eq_refl)|done].
Qed.

Section Streams.
Context `{Env, SerdeJson, SerdePretty, DebugStr}.

Lemma keeps_grpc_streaming_response name max ack max_bytes bytes s :
  wf s -> fits 0 s -> kp true s s (grpc_streaming_response name max ack max_bytes bytes).
Proof.
  intros Hw Hfit. unfold grpc_streaming_response. kp_steps.
  match goal with Hv : subscriptions s !! name = Some ?v |- _ =>
    assert (is_Some (subscriptions s !! s_name v)) as Hsub by (rewrite (wf_sub_named s Hw _ _ Hv); eauto) end.
  destruct (records_of s _); [by apply kp_ret|].
  apply kp_begin_pull; [done|]. intros n s1 (Hw1 & Hd1 & Hs1).
  apply kp_pull_core; [done|by eapply fits_shrunk|]. intros received records s2 (Hw2 & Hd2 & He2).
  destruct received as [|r received]; [by apply kp_ret|].
  pose proof (entry_ok_trim _ _ _ max_bytes bytes (r :: received) records He2) as Htrim.
  destruct (trim_batch _ _ _ _) as [rcv recs]. pose proof (drifted_trans _ _ _ Hd1 Hd2) as Hd.
  apply kp_store_pull; [done|done| |intros; by apply kp_ret].
  apply wf_store_records; [by rewrite (drifted_subscriptions _ _ Hd)|by apply entry_ok_compact|done].
Qed.
Lemma kp_prune_outstanding {B s0 s} name o (f : gmap string Z -> Api B) :
  wf s -> (forall o s', cleaned s s' -> kp false s0 s' (f o)) ->
  kp false s0 s (grpc_prune_outstanding name o ≫= f).
Proof.
  intros Hw Hf. unfold grpc_prune_outstanding. destruct (bool_decide (o = ∅)).
  - apply kp_peeks; [solve_peeks|done|done|]. intros o'. apply Hf. split_and!; [done|apply drifted_refl|by split_and!].
  - apply kp_assoc, kp_peeks; [solve_peeks|done|done|]. intros [n m]. apply kp_assoc, kp_expire; [done|].
    intros s' Hc _. destruct Hc as (Hw' & ? & ?). apply kp_assoc, kp_gets.
    apply kp_peeks; [solve_peeks|done|done|]. intros o'. by apply Hf.
Qed.
Lemma keeps_stream_tick name max max_bytes st s :
  wf s -> fits 0 s -> kp false s s (stream_tick name max max_bytes st).
Proof.
  intros Hw Hfit. unfold stream_tick. apply kp_prune_outstanding; [done|]. intros o s' (Hw' & Hd & Hs). cbv zeta.
  destruct (negb _); [by apply kp_ret|]. destruct (_ <=? 0); [by apply kp_ret|].
  eapply kp_start, kp_map. intros w E. eapply wp_mono.
  - eapply keeps_grpc_streaming_response; [done|by eapply fits_shrunk|done].
  - intros x w' [? _]. done.
Unshelve. all: exact s.
Qed.
Lemma keeps_modify_one name st e s : wf s -> kp false s s (modify_one name st e).
Proof.
  intros Hw. destruct e as [id k]. unfold modify_one. kp_step. do 2 kp_step.
  apply kp_seq; [by apply keeps_grpc_update_ack_deadline|]. intros. by apply kp_ret.
Qed.
Lemma peeks_grpc_stream_ack_deadline k : peeks (grpc_stream_ack_deadline k).
Proof. unfold grpc_stream_ack_deadline. solve_peeks. Qed.
#[local] Hint Resolve peeks_grpc_stream_ack_deadline : peeks.
Lemma keeps_apply_streaming_pull_request name r i st s :
  wf s -> kp false s s (apply_streaming_pull_request name r i st).
Proof.
  intros Hw. unfold apply_streaming_pull_request. do 5 kp_step.
  apply kp_seq; [|intros; eapply kp_start, kp_for_each; [intros; by apply keeps_modify_one|done]].
  destruct (sp_ack_ids r); [by apply kp_ret|].
  apply kp_seq; [by apply keeps_grpc_update_ack_deadline|]. intros. by apply kp_ret.
Qed.
Lemma keeps_grpc_release_outstanding name o s : wf s -> kp true s s (grpc_release_outstanding name o).
Proof.
  intros Hw. unfold grpc_release_outstanding. destruct (bool_decide _); [by apply kp_ret|]. kp_step.
  destruct (subscriptions s !! name) as [sub|] eqn:Es; [|by apply kp_ret].
  pose proof (entry_ok_release_all _ _ _ _ (btree_iter o).*1 (store_ok_entry (proj1 (proj2 Hw)) name)) as Hr.
  pose proof (release_all_unacked (btree_iter o).*1 (records_of s name)) as Hu. unfold records_of in *.
  destruct (release_all _ _) as [rs changed]. destruct changed; [|by apply kp_ret].
  set (recs := compact_acked rs _). assert (wf (store_records name recs s)) as Hw1.
  { apply wf_store_records; [by rewrite Es|by apply entry_ok_compact|done]. }
  apply kp_change, kp_catch; [|intros; by apply kp_ret].
  apply kp_persist_or_last; [by apply wf_pruned|]. intros x y. split; [|done].
  pose proof (wf_pruned _ Hw1) as (_ & Hd & _). destruct (pruned_eq (store_records name recs s)) as (m & ms & E & _).
  rewrite E in *. unfold on_deliveries. simpl. rewrite put_back_back.
  split_and!; [apply Hw| |apply Hw]. unfold delivery_ok in *. simpl in *.
  pose proof (store_ok_entry (proj1 (proj2 Hw)) name) as Hold.
  assert (entry_ok ms (next_message_id s) (next_ack_id s) (default [] (deliveries s !! name))) as Hent.
  { eapply entry_ok_unacked; [|exact Hold|apply (so_deliveries _ _ _ _ _ Hd name), lookup_insert_eq].
    eapply still_unacked_trans; [exact Hu|apply compact_unacked]. }
  eapply (store_ok_sub (store_ok_put Hd name _ Hent)); [|done]. rewrite insert_insert_eq.
  apply map_subseteq_spec. intros k v Hk. destruct (decide (k = name)) as [-> | ?].
  - by rewrite lookup_insert_eq, Hk.
  - by rewrite lookup_insert_ne.
Qed.
End Streams.
