(* ===== verification/PubRun.v ===== *)
(** Every call of the Pub/Sub service: whatever it answers, the server stays
    well-formed; and a refused call of a transactional handler leaves the server as
    it was. *)

From S2P Require Import Prelude RustStr RustNum RustText Json PubTime PubModel PubValidation PubResources PubGrpc PubMessages PubSystem PubInvariant PubCalls PubFlows.
Local Open Scope string_scope.
Local Open Scope Z_scope.

(** ** Introspection *)

Section Introspection.
Context `{Env, SerdeJson, SerdePretty, DebugStr}.

(** A call that never errs needs no undoing. *)
Lemma keeps_snapshot s : wf s -> kp false s s snapshot.
Proof.
  intros Hw. unfold snapshot. kp_step. destruct a as [n m]. apply kp_expire; [done|]. intros s1 (Hw1 & _) _.
  apply kp_cleanup; [done|]. intros s2 (Hw2 & _). kp_step. by apply kp_ret.
Qed.
Lemma keeps_message_snapshot id s : wf s -> kp false s s (message_snapshot id).
Proof.
  intros Hw. unfold message_snapshot. kp_step. destruct a as [n m]. apply kp_cleanup; [done|].
  intros s1 (Hw1 & _). kp_step. by apply kp_ret.
Qed.
Lemma keeps_handle_introspect method path s : wf s -> kp false s s (handle_introspect method path).
Proof.
  intros Hw. unfold handle_introspect. destruct (negb _); [by apply kp_ret|]. cbv zeta.
  destruct (str_eqb _ "snapshot"); [by apply kp_map, keeps_snapshot|].
  destruct (strip_prefix _ _) as [id|]; [|by apply kp_ret]. destruct (negb _ && negb _); [|by apply kp_ret].
  apply kp_seq; [by apply keeps_message_snapshot|]. intros v s' Hw'. by apply kp_ret.
Qed.
End Introspection.

(** ** Successful responses *)

(** What a handler returns without an error is a success. *)
Definition succeeds (m : Api RestResponse) : Prop :=
  forall w, wp m (fun o _ => match o with Ok r => r_status r < 400 | _ => True end) w.
Lemma succeeds_bind {A} (m : Api A) (f : A -> Api RestResponse) : (forall a, succeeds (f a)) -> succeeds (m ≫= f).
Proof.
  intros Hf w. apply wp_bind. unfold wp. destruct (m w) as [[a|e|p] w']; simpl; [apply Hf|done..].
Qed.
Lemma succeeds_ret r : r_status r < 400 -> succeeds (mret r).
Proof. intros Hr w. by apply wp_ret. Qed.
Lemma succeeds_fail e : succeeds (fail e).
Proof. intros w. by apply wp_fail. Qed.
Ltac unfold_head m := lazymatch m with ?f _ => unfold_head f | ?h => unfold h end.
Ltac solve_succeeds :=
  repeat (cbv beta zeta;
    lazymatch goal with
    | |- succeeds (_ ≫= _) => apply succeeds_bind; intros ?
    | |- succeeds (mret _) => apply succeeds_ret
    | |- succeeds (fail _) => apply succeeds_fail
    | |- succeeds (match ?x with _ => _ end) => destruct x
    | |- r_status (match ?x with _ => _ end) < 400 => destruct x
    | |- r_status _ < 400 => exact eq_refl
    | |- succeeds ?m => unfold_head m
    end).

Create HintDb routes discriminated.

Section Refusals.
Context `{Env, SerdeJson, SerdePretty, DebugStr}.

Definition refused (o : result ApiError RestResponse) : Prop :=
  match o with Ok r => 400 <= r_status r | Err _ => True | Panic _ => False end.
(** A route keeps the invariant, and a refusal leaves the server as it was. *)
Definition undone (s : Server) (m : Api RestResponse) : Prop :=
  forall w, server w = s -> wp m (fun o w' => wf (server w') /\ (refused o -> same s (server w'))) w.
Lemma undone_ret s r : wf s -> undone s (mret r).
Proof. intros Hw w <-. apply wp_ret. split; [done|]. intros _. apply same_refl. Qed.
Lemma undone_response s m : succeeds m -> kp true s s m -> undone s (to_response m).
Proof.
  intros Hs Hm w E. unfold to_response. apply wp_bind, wp_catch.
  assert (wp m (fun o w' => match o with Ok r => r_status r < 400 | _ => True end
    /\ wf (server w') /\ (is_err o -> same s (server w'))) w) as Hb.
  { specialize (Hs w). specialize (Hm w E). unfold wp in *. destruct Hm as [? Ht]. split_and!; [done|done|]. by apply Ht. }
  eapply wp_mono; [exact Hb|]. intros [r|e|p] w' (Hr & Hw' & Hu); simpl.
  - apply wp_ret. split; [done|]. intros Hc. exfalso. unfold refused in Hc. lia.
  - apply wp_ret. split; [done|]. intros _. by apply Hu.
  - by split.
Qed.
Lemma undone_only methods b s m : wf s -> undone s m -> undone s (only methods b m).
Proof. intros. unfold only. destruct b; [done|]. by apply undone_ret. Qed.
Lemma undone_json r s m : wf s -> undone s m -> undone s (with_json r m).
Proof. intros. unfold with_json. destruct (body_is_invalid_json r); [by apply undone_ret|done]. Qed.
Lemma undone_view r s f : wf s -> (forall v, undone s (f v)) -> undone s (with_view r f).
Proof. intros. unfold with_view. cbv zeta. destruct (valid_view _); [done|by apply undone_ret]. Qed.

Lemma undone_peeks m s : peeks m -> wf s -> undone s (to_response m).
Proof.
  intros Hm Hw w E. unfold to_response. apply wp_bind, wp_catch. eapply wp_mono; [apply Hm|].
  intros o w' Hw'. rewrite E in Hw'. destruct o as [r|e|p]; simpl; [apply wp_ret..|]; rewrite Hw'; by split; [|intros _; apply same_refl].
Qed.
#[local] Hint Resolve keeps_create_topic keeps_patch_topic keeps_delete_topic keeps_create_subscription
  keeps_patch_subscription keeps_delete_subscription keeps_modify_push_config keeps_detach_subscription
  keeps_create_snapshot keeps_delete_snapshot keeps_create_schema keeps_delete_schema keeps_publish keeps_pull
  keeps_update_ack_deadlines keeps_seek : routes.

(** The messages a request publishes. *)
Definition publishes_rest (r : Request) : Z :=
  Z.of_nat (length (default [] (arr_member "messages" (parse_body (q_body r))))).
Lemma fits_fewer k k' s : k' <= k -> fits k s -> fits k' s.
Proof. intros Hk [Hr Hs]. split; [by eapply room_le|done]. Qed.

Ltac undone_step :=
  lazymatch goal with
  | |- undone _ (only _ _ _) => apply undone_only; [assumption|]
  | |- undone _ (with_json _ _) => apply undone_json; [assumption|]
  | |- undone _ (with_view _ _) => apply undone_view; [assumption|intros ?]
  | |- undone _ (mret _) => apply undone_ret; assumption
  | |- undone _ (if ?b then _ else _) => destruct b
  | |- undone _ (match ?x with _ => _ end) => destruct x
  | |- undone _ (let '(_, _) := ?x in _) => destruct x
  | |- undone _ (to_response ?m) =>
      first [ apply undone_response; [solve [solve_succeeds]|solve [auto with routes]]
            | apply undone_peeks; [unfold_head m; solve_peeks|assumption] ]
  end.
Ltac solve_undone := repeat undone_step.

Lemma undone_topic r body p id s : wf s -> undone s (route_topic r body p id).
Proof. intros Hw. unfold route_topic. solve_undone. Qed.
Lemma undone_subscription r body p id s : wf s -> undone s (route_subscription r body p id).
Proof. intros Hw. unfold route_subscription. solve_undone. Qed.
Lemma undone_snapshot r body p id s : wf s -> undone s (route_snapshot r body p id).
Proof. intros Hw. unfold route_snapshot. solve_undone. Qed.
Lemma undone_schema r body p id s : wf s -> undone s (route_schema r body p id).
Proof. intros Hw. unfold route_schema. solve_undone. Qed.
Lemma undone_schemas r body p size token s : wf s -> undone s (route_schemas r body p size token).
Proof. intros Hw. unfold route_schemas. cbv zeta. solve_undone. Qed.
Lemma peeks_topic_iam p id a body : peeks (topic_iam p id a body).
Proof. unfold topic_iam. solve_peeks. Qed.
Lemma peeks_subscription_iam p id a body : peeks (subscription_iam p id a body).
Proof. unfold subscription_iam. solve_peeks. Qed.
Lemma undone_subscription_action r body p id a s : wf s -> fits 0 s -> undone s (route_subscription_action r body p id a).
Proof. intros Hw Hf. unfold route_subscription_action, acknowledge, modify_ack_deadline. solve_undone. Qed.
Lemma undone_topic_action r p id a s m :
  wf s -> fits (publishes_rest r) s -> route_topic_action r (parse_body (q_body r)) p id a = Some m -> undone s m.
Proof.
  intros Hw Hf. unfold route_topic_action. cbv zeta. destruct (str_eqb a "publish").
  - intros [= <-]. solve_undone.
  - destruct (is_iam_action a); [|done]. intros [= <-]. solve_undone.
Qed.
Lemma undone_first l s : wf s -> (forall m, Some m ∈ l -> undone s m) -> undone s (first_route l).
Proof.
  intros Hw. induction l as [|[m|] l IH]; intros Hl; cbn [first_route]; [by apply undone_ret|apply Hl; by left|].
  apply IH. intros m Hm. apply Hl. by right.
Qed.
Lemma undone_provider r s m : wf s -> fits (publishes_rest r) s -> Some m ∈ provider_routes r -> undone s m.
Proof.
  intros Hw Hf. assert (fits 0 s) as Hf0 by (eapply fits_fewer; [|exact Hf]; unfold publishes_rest; lia).
  unfold provider_routes. cbv zeta. rewrite !elem_of_cons, elem_of_nil.
  intros Hm. repeat (destruct Hm as [Hm | Hm]); [..|done]; symmetry in Hm.
  { apply bind_Some in Hm as ([[p id] a] & _ & Hm). by eapply undone_topic_action. }
  all: apply fmap_Some in Hm as (x & _ & ->).
  all: first [solve [solve_undone] | idtac].
  - destruct x as [[p id] a]. by apply undone_subscription_action.
  - by apply undone_topic.
  - by apply undone_snapshot.
  - by apply undone_schemas.
  - by apply undone_schema.
  - by apply undone_subscription.
Qed.
Lemma undone_route r s :
  wf s -> fits (publishes_rest r) s -> starts_with "/_introspect/" (q_path r) = false -> undone s (route r).
Proof.
  intros Hw Hf Hp w E. unfold route. apply wp_bind, wp_gets. simpl. rewrite E, Hp. revert w E.
  change (undone s (if negb (authorized (config s) (bearer_token r)) then mret unauthenticated
    else if bool_decide (is_Some (load_err s)) then mret (render_error store_unavailable)
    else if str_eqb (q_path r) "/healthz" || str_eqb (q_path r) "/readyz" then
      if method_is r "GET" then mret (ok_struct health_body)
      else mret (render_error (api_error 405 "METHOD_NOT_ALLOWED" "method not allowed"))
    else first_route (provider_routes r))).
  solve_undone. apply undone_first; [done|]. intros m. by apply undone_provider.
Qed.
Lemma keeps_route r s : wf s -> fits (publishes_rest r) s -> kp false s s (route r).
Proof.
  intros Hw Hf. destruct (starts_with "/_introspect/" (q_path r)) eqn:E.
  - unfold route. kp_step. rewrite E. repeat case_match; try by apply kp_ret. by apply keeps_handle_introspect.
  - intros w Ew. eapply wp_mono; [by apply undone_route|]. by intros o w' [? _].
Qed.
End Refusals.

(** ** Calls *)

Section Calls.
Context `{Env, SerdeJson, SerdePretty, DebugStr}.

(** The messages a call publishes. *)
Definition publishes (c : Call) : Z :=
  match c with
  | Rest r => publishes_rest r
  | Publish _ msgs => Z.of_nat (length msgs)
  | _ => 0
  end.
(** The handlers that take their changes back when the state files cannot be written. *)
Definition transactional (c : Call) : bool :=
  match c with
  | Rest r => negb (starts_with "/_introspect/" (q_path r))
  | UpdateTopic _ _ | UpdateSubscription _ _ | ModifyPushConfig _ _ | UpdateSnapshot _ _
  | Acknowledge _ _ | ModifyAckDeadline _ _ _ | Seek _ _ _
  | CommitSchema _ _ | RollbackSchema _ _ | DeleteSchemaRevision _ _ | DeleteSchema _
  | StreamRequest _ _ _ _ | StreamTick _ _ _ _ => false
  | _ => true
  end.
Definition refusal (o : result ApiError Reply) : Prop :=
  match o with
  | Ok (RRest r) => 400 <= r_status r
  | Err _ => True
  | _ => False
  end.

Lemma kp_weaken {A t s0 s} (m : Api A) : kp true s0 s m -> kp t s0 s m.
Proof. destruct t; [done|]. intros Hm w E. eapply wp_mono; [by apply Hm|]. by intros o w' [? _]. Qed.
Lemma kp_peeks_all {A t s} (m : Api A) : peeks m -> wf s -> kp t s s m.
Proof. intros Hm Hw. apply kp_read; [done|done|]. intros _. apply same_refl. Qed.
#[local] Hint Resolve keeps_grpc_create_topic keeps_grpc_delete_topic keeps_grpc_create_subscription
  keeps_grpc_delete_subscription keeps_grpc_detach_subscription keeps_grpc_create_snapshot
  keeps_grpc_delete_snapshot keeps_grpc_create_schema keeps_grpc_publish keeps_grpc_pull
  keeps_grpc_pull_may_return keeps_grpc_release_outstanding keeps_grpc_update_topic
  keeps_grpc_update_subscription keeps_grpc_modify_push_config keeps_grpc_update_snapshot
  keeps_grpc_acknowledge keeps_grpc_modify_ack_deadline keeps_grpc_seek keeps_grpc_commit_schema
  keeps_grpc_rollback_schema keeps_grpc_delete_schema_revision keeps_grpc_delete_schema
  keeps_apply_streaming_pull_request keeps_stream_tick : routes.

Lemma keeps_run c s : wf s -> fits (publishes c) s -> kp (transactional c) s s (run c).
Proof.
  intros Hw Hf. assert (fits 0 s) as Hf0.
  { eapply fits_fewer; [|exact Hf]. destruct c; simpl; try lia. unfold publishes_rest. lia. }
  destruct c; cbn [run transactional publishes] in *; unfold reply, page_reply, reply; apply kp_map.
  all: first [solve [auto with routes] | idtac].
  - destruct (starts_with _ (q_path r)) eqn:E; [by apply keeps_route|].
    intros w Ew. eapply wp_mono; [by apply undone_route|]. intros o w' [? Hu]. split; [done|].
    intros _ Ho. apply Hu. by destruct o.
  - apply kp_peeks_all; [|done]. unfold grpc_get_topic. solve_peeks.
  - apply kp_peeks_all; [|done]. unfold grpc_list_topics. solve_peeks.
  - apply kp_peeks_all; [|done]. unfold grpc_list_topic_subscriptions. solve_peeks.
  - apply kp_peeks_all; [|done]. unfold grpc_list_topic_snapshots. solve_peeks.
  - apply kp_peeks_all; [|done]. unfold grpc_get_subscription. solve_peeks.
  - apply kp_peeks_all; [|done]. unfold grpc_list_subscriptions. solve_peeks.
  - apply kp_peeks_all; [|done]. unfold grpc_get_snapshot. solve_peeks.
  - apply kp_peeks_all; [|done]. unfold grpc_list_snapshots. solve_peeks.
  - apply kp_peeks_all; [|done]. unfold grpc_get_schema. solve_peeks.
  - apply kp_peeks_all; [|done]. unfold grpc_list_schemas. solve_peeks.
  - apply kp_peeks_all; [|done]. unfold grpc_list_schema_revisions. solve_peeks.
  - apply kp_peeks_all; [|done]. unfold grpc_validate_schema. solve_peeks.
  - apply kp_peeks_all; [|done]. unfold grpc_validate_message. solve_peeks.
Qed.

Lemma reply_refused {A} (f : A -> Reply) (m : Api A) w :
  (forall a r, f a <> RRest r) -> refusal (reply f m w).1 -> is_err (reply f m w).1.
Proof.
  intros Hf. unfold reply, mbind, m_bind. destruct (m w) as [[a|e|p] w']; simpl; [|done..].
  intros Hr. specialize (Hf a). destruct (f a) as [r| | | | | | | | | | | | | |]; try done. by destruct (Hf r).
Qed.
Lemma route_refused r w :
  refusal (run (Rest r) w).1 -> refused (route r w).1 /\ (run (Rest r) w).2 = (route r w).2.
Proof. cbn [run]. unfold reply, mbind, m_bind. by destruct (route r w) as [[x|e|p] w']. Qed.

(** ** The service *)

(** One call at the server. *)
Inductive step : World -> World -> Prop :=
| StepCall c w : fits (publishes c) (server w) -> step w (run c w).2.

(** C10: from the empty server on, every sequence of calls, REST, gRPC and streaming,
    accepted, refused or panicking, leaves the store well-formed: resources filed under
    their names, at most one record of a message per subscription, ids within the
    counters, a leased record under an ack id of its own with a deadline, an
    unacknowledged record with its message still there, and no record without its
    subscription. *)
Theorem pubsub_invariant w0 w :
  server w0 = empty_server (config (server w0)) -> rtc step w0 w -> wf (server w).
Proof.
  intros E Hr. assert (wf (server w0)) as Hw by (rewrite E; apply wf_empty). clear E. revert Hw.
  induction Hr as [w|w w1 w2 [c w' Hf] _ IH]; [done|]. intros Hw. apply IH.
  by apply (keeps_run c (server w') Hw Hf w' eq_refl).
Qed.

(** C11: a refused call of a transactional handler, be it refused on its arguments or because a
    state file cannot be written, leaves the server as it was but for the dirty flags
    and for messages that no unacknowledged record refers to. *)
Theorem refused_call_undone c w :
  wf (server w) -> fits (publishes c) (server w) -> transactional c = true -> refusal (run c w).1 ->
  same (server w) (server (run c w).2) /\ wf (server (run c w).2).
Proof.
  intros Hw Hf Ht Hr. split; [|by apply (keeps_run c (server w) Hw Hf w eq_refl)].
  destruct (keeps_run c (server w) Hw Hf w eq_refl) as [_ Hu].
  destruct c; try (apply Hu; [done|]; cbn [run] in *; unfold page_reply in *; by apply reply_refused).
  cbn [transactional] in Ht. apply negb_true_iff in Ht. apply route_refused in Hr as [Hr ->].
  by apply (undone_route r (server w) Hw Hf Ht w eq_refl).
Qed.
End Calls.
