(* ===== verification/PubDelivery.v ===== *)
(** What publishing does exactly, and what a restart of the Pub/Sub service finds. *)

From S2P Require Import Prelude RustStr RustNum RustText Json PubTime PubModel PubValidation PubResources PubGrpc PubMessages PubSystem PubInvariant PubCalls PubFlows PubRun.
Local Open Scope string_scope.
Local Open Scope Z_scope.

(** What the delivery calls of the Pub/Sub service do, exactly: publishing gives each
    matching subscription one record per message, in order; pulling leases messages
    nobody else holds, under fresh ack ids; acknowledging retires the records it names. *)

(** ** Calls that succeed *)

(** From the server [s], when the call returns [a] and leaves [s'], [P a s']. *)
Definition yields {A} (s : Server) (m : Api A) (P : A -> Server -> Prop) : Prop :=
  forall w, server w = s -> wp m (fun o w' => forall a, o = Ok a -> P a (server w')) w.

Lemma yields_run {A} (m : Api A) P w a w' : yields (server w) m P -> m w = (Ok a, w') -> P a (server w').
Proof. intros Hm E. pose proof (Hm w eq_refl) as Hw. unfold wp in Hw. rewrite E in Hw. by apply Hw. Qed.
Lemma yields_ret {A} s (a : A) P : P a s -> yields s (mret a) P.
Proof. intros HP w <-. apply wp_ret. by intros ? [= <-]. Qed.
Lemma yields_bind {A B} s (m : Api A) (f : A -> Api B) Q P :
  yields s m Q -> (forall a s', Q a s' -> yields s' (f a) P) -> yields s (m ≫= f) P.
Proof.
  intros Hm Hf w E. apply wp_bind. eapply wp_mono; [by apply Hm|].
  intros [a|e|p] w' HQ; simpl; [|done..]. by eapply Hf; [apply HQ|].
Qed.
Lemma yields_mono {A} s (m : Api A) (P Q : A -> Server -> Prop) :
  yields s m P -> (forall a s', P a s' -> Q a s') -> yields s m Q.
Proof. intros Hm HP w E. eapply wp_mono; [by apply Hm|]. intros o w' Ho a Ea. by apply HP, Ho. Qed.
Lemma yields_gets {B} s (f : Server -> Api B) P : yields s (f s) P -> yields s (gets server ≫= f) P.
Proof. intros Hf w E. apply wp_bind, wp_gets. simpl. rewrite E. by apply Hf. Qed.
Lemma yields_peeks {A} s (m : Api A) P : peeks m -> (forall a, P a s) -> yields s m P.
Proof. intros Hm HP w E. eapply wp_mono; [apply Hm|]. intros o w' E' a _. rewrite E', E. apply HP. Qed.
Lemma yields_peeks_bind {A B} s (m : Api A) (f : A -> Api B) P :
  peeks m -> (forall a, yields s (f a) P) -> yields s (m ≫= f) P.
Proof.
  intros Hm Hf. apply (yields_bind _ _ _ (fun _ s' => s' = s)); [by apply yields_peeks|]. by intros a s' ->.
Qed.
Lemma yields_guard {B} s (c : bool) e (f : unit -> Api B) P :
  (c = false -> yields s (f tt) P) -> yields s (guard_err c e ≫= f) P.
Proof.
  intros Hf w E. apply wp_bind, wp_guard; intros Hc; [done|]. simpl. by apply Hf.
Qed.
Lemma yields_lift {A B} s (o : result ApiError A) (f : A -> Api B) P :
  (forall a, o = Ok a -> yields s (f a) P) -> yields s (lift o ≫= f) P.
Proof.
  intros Hf w E. apply wp_bind, wp_lift. destruct o as [a|e|p]; simpl; [by apply Hf|done..].
Qed.
Lemma yields_found `{Env} {V B} s (field : Server -> gmap string V) k msg (f : V -> Api B) P :
  (forall v, field s !! k = Some v -> yields s (f v) P) -> yields s (found field k msg ≫= f) P.
Proof.
  intros Hf w E. apply wp_bind. unfold found. apply wp_bind, wp_gets. simpl. apply wp_lift. rewrite E.
  destruct (field s !! k) eqn:Ev; simpl; [by apply Hf|done].
Qed.
Lemma yields_change {B} s g (m : Api B) P : yields (g s) m P -> yields s (change g ≫= fun _ => m) P.
Proof. intros Hm w <-. apply wp_bind, wp_modify. simpl. by apply Hm. Qed.
Lemma yields_try `{Env} {A B} s (g : Server -> result ApiError (A * Server)) (f : A -> Api B) P :
  (forall a s', g s = Ok (a, s') -> yields s' (f a) P) -> yields s (on_server_try g ≫= f) P.
Proof.
  intros Hf w E. apply wp_bind. unfold on_server_try. apply wp_bind, wp_gets. simpl. apply wp_bind, wp_lift. rewrite E.
  destruct (g s) as [[a s']| |] eqn:Eg; simpl; [|done..]. apply wp_bind, wp_modify. simpl. apply wp_ret. simpl. by apply (Hf a s').
Qed.
(** Once persisted, the messages are pruned and the flags set; a failure is no success. *)
Lemma yields_persist `{Env, SerdePretty} s g P :
  (forall a b, P tt (set_flags a b (pruned s))) -> yields s (persist_or g) P.
Proof.
  intros HP w E. unfold persist_or. apply wp_bind, wp_catch. eapply wp_mono; [apply wp_persisting|].
  intros o w' [Ho (a & b & E')]. rewrite E in E'. destruct Ho as [-> | ->]; simpl.
  - apply wp_ret. intros [] _. rewrite E'. apply HP.
  - apply wp_bind, wp_modify. simpl. by apply wp_fail.
Qed.
Lemma yields_persist_bind `{Env, SerdePretty} {B} s g (m : Api B) P :
  (forall a b, yields (set_flags a b (pruned s)) m P) -> yields s (persist_or g ≫= fun _ => m) P.
Proof.
  intros Hm. apply (yields_bind _ _ _ (fun _ s' => exists a b, s' = set_flags a b (pruned s))).
  - apply yields_persist. eauto.
  - intros [] s' (a & b & ->). apply Hm.
Qed.
Ltac yields_step :=
  cbv beta zeta;
  lazymatch goal with
  | |- yields _ (gets server ≫= _) _ => apply yields_gets
  | |- yields _ (found _ _ _ ≫= _) _ => apply yields_found; intros ? ?
  | |- yields _ (guard_err _ _ ≫= _) _ => apply yields_guard; intros ?
  | |- yields _ (change _ ≫= _) _ => apply yields_change
  | |- yields _ (persist_or _ ≫= _) _ => apply yields_persist_bind; intros ? ?
  | |- yields _ (mret _) _ => apply yields_ret
  | |- yields _ (on_server_try _ ≫= _) _ => apply yields_try; intros ? ?
  | |- yields _ (_ ≫= _) _ => apply yields_peeks_bind; [solve [solve_peeks]|intros ?]
  end.

(** ** Publishing *)

(** The messages a call stores, numbered after [n]. *)
Fixpoint sent (now : string) (n : Z) (l : list Incoming) : list PubsubMessage :=
  match l with
  | [] => []
  | i :: r => published (show_Z (n + 1)) now i :: sent now (n + 1) r
  end.
Definition new_records (topic : string) (sub : Subscription) (ms : list PubsubMessage) : list DeliveryRecord :=
  map (fun m => default_delivery (m_message_id m)) (List.filter (fun m => matches topic m sub) ms).
(** [s'] is [s] with the messages [ms] published on [topic]. *)
Definition delivered (topic : string) (ms : list PubsubMessage) (s s' : Server) : Prop :=
  subscriptions s' = subscriptions s
  /\ forall name sub, subscriptions s !! name = Some sub ->
     records_of s' name = (records_of s name ++ new_records topic sub ms)%list.
Definition holds_all (ms : list PubsubMessage) (s : Server) : Prop :=
  forall m, m ∈ ms -> messages s !! m_message_id m = Some m.

Section Publishing.
Context `{Env, SerdeJson, SerdePretty, DebugStr}.

Lemma matched_subs_elem topic m s name sub :
  wf s -> subscriptions s !! name = Some sub -> (name ∈ matched_subs topic m s <-> matches topic m sub = true).
Proof.
  intros Hw Hs. pose proof (wf_sub_named s Hw) as Hn. unfold matched_subs. rewrite elem_of_lmap. split.
  - intros (sub' & [Hm [k Hk]%elem_of_values]%elem_of_lfilter & E). rewrite <- (Hn _ _ Hk), E in Hk. congruence.
  - intros Hm. exists sub. split; [|by apply (Hn _ _ Hs)]. apply elem_of_lfilter. split; [done|]. apply elem_of_values. eauto.
Qed.
Lemma publish_one_exact topic now i s :
  wf s ->
  let m := published (show_Z (next_message_id s + 1)) now i in
  let s1 := publish_one topic now (show_Z (next_message_id s + 1)) i (set_next_message_id (next_message_id s + 1) s) in
  delivered topic [m] s s1 /\ messages s ⊆ messages s1 /\ messages s1 !! m_message_id m = Some m.
Proof.
  intros Hw m s1. split_and!.
  - split; [done|]. intros name sub Hs. unfold records_of, s1, publish_one, deliver_to, on_deliveries, new_records. simpl.
    rewrite push_deliveries_lookup by (apply NoDup_some_names, (wf_sub_named s), Hw).
    pose proof (matched_subs_elem topic m s name sub Hw Hs) as Hm.
    change (subscriptions (set_next_message_id (next_message_id s + 1) s)) with (subscriptions s).
    destruct (matches topic m sub); [rewrite decide_True by (by apply Hm)|rewrite decide_False by (intros Hx; by apply Hm in Hx)].
    + done. + by rewrite app_nil_r.
  - apply insert_subseteq. change (messages s !! show_Z (next_message_id s + 1) = None).
    destruct (messages s !! show_Z _) as [x|] eqn:E; [|done].
    destruct (so_messages _ _ _ _ _ (proj1 (proj2 Hw)) _ _ E) as [_ Hnum].
    exfalso. eapply numbered_fresh; [|exact Hnum|done]. apply (so_nm _ _ _ _ _ (proj1 (proj2 Hw))).
  - apply lookup_insert_eq.
Qed.
Lemma delivered_trans topic ms ms' s s' s'' :
  delivered topic ms s s' -> delivered topic ms' s' s'' -> delivered topic (ms ++ ms')%list s s''.
Proof.
  intros [E1 D1] [E2 D2]. split; [congruence|]. intros name sub Hs. rewrite (D2 name sub) by congruence.
  rewrite (D1 name sub Hs), <- app_assoc. unfold new_records. by rewrite List.filter_app, map_app.
Qed.
Lemma publish_all_exact topic now l s ids s' :
  wf s -> room (next_message_id s) (Z.of_nat (length l)) -> publish_all topic now l s = Ok (ids, s') ->
  let ms := sent now (next_message_id s) l in
  ids = map m_message_id ms /\ delivered topic ms s s' /\ holds_all ms s' /\ messages s ⊆ messages s'.
Proof.
  revert s ids s'. induction l as [|i l IH]; intros s ids s' Hw Hr; cbn [publish_all sent].
  { intros [= <- <-]. split_and!; [done| |by intros m ?%not_elem_of_nil|done].
    split; [done|]. intros. unfold new_records. simpl. by rewrite app_nil_r. }
  destruct (fresh_message_id s) as [n| |] eqn:En; cbn [mbind outcome_bind]; [|done..].
  pose proof (so_nm _ _ _ _ _ (proj1 (proj2 Hw))) as H0'.
  apply checked_u64_next in En as ->; [|done|eapply room_le; [|done]; simpl; lia].
  destruct (publish_all topic now l _) as [[ids' s2]| |] eqn:Ep; cbn [mbind outcome_bind]; [|done..].
  intros [= <- <-]. destruct (publish_one_exact topic now i s Hw) as (Hd & Hsub & Hm).
  apply IH in Ep as (-> & Hd2 & Hh & Hsub2).
  2: by apply publish_one_ok. 2: { simpl. apply room_step. eapply room_le; [|done]. simpl. lia. }
  simpl in *. split_and!; [done| | |by etrans].
  - by apply (delivered_trans topic [_] _ _ _ _ Hd Hd2).
  - intros m [-> | Hin]%elem_of_cons; [by eapply lookup_weaken|by apply Hh].
Qed.

(** After a publish: the ids are the next numbers, each subscription has its records,
    and the messages somebody is to receive are stored. *)
Definition publish_outcome (topic : string) (l : list Incoming) (s : Server) (ids : list string) (s' : Server) : Prop :=
  exists now, let ms := sent now (next_message_id s) l in
    ids = map m_message_id ms
    /\ delivered topic ms s s'
    /\ (forall m name sub, m ∈ ms -> subscriptions s !! name = Some sub -> matches topic m sub = true ->
        messages s' !! m_message_id m = Some m).
Lemma delivered_held topic ms s s1 s' :
  wf s' -> delivered topic ms s s1 -> deliveries s' = deliveries s1 -> messages s' ⊆ messages s1 -> holds_all ms s1 ->
  forall m name sub, m ∈ ms -> subscriptions s !! name = Some sub -> matches topic m sub = true ->
  messages s' !! m_message_id m = Some m.
Proof.
  intros Hw [_ Hd] E Hsub Hh m name sub Hm Hs Hmt.
  assert (default_delivery (m_message_id m) ∈ records_of s' name) as Hin.
  { unfold records_of. rewrite E. fold (records_of s1 name). rewrite (Hd name sub Hs). apply elem_of_app. right.
    unfold new_records. apply elem_of_lmap. exists m. split; [|done]. by apply elem_of_lfilter. }
  destruct (store_ok_entry (proj1 (proj2 Hw)) name) as [Hf _]. rewrite Forall_forall in Hf.
  destruct (Hf _ Hin) as (_ & _ & Hx). destruct (Hx eq_refl) as [m' Hm']. simpl in Hm'.
  pose proof (lookup_weaken _ _ _ _ Hm' Hsub) as Hm2. rewrite (Hh m Hm) in Hm2. congruence.
Qed.
Lemma publish_messages_exact topic l s :
  wf s -> room (next_message_id s) (Z.of_nat (length l)) ->
  yields s (publish_messages topic l) (publish_outcome topic l s).
Proof.
  intros Hw Hr. unfold publish_messages. yields_step. rename a into n. yields_step. apply yields_try. intros ids s1 Ep.
  pose proof (publish_all_ok _ _ _ _ _ _ Hw Hr Ep) as Hw1.
  apply publish_all_exact in Ep as (-> & Hd & Hh & _); [|done..].
  do 3 yields_step. exists n. split; [done|].
  pose proof (wf_pruned (set_messages_dirty true s1) Hw1) as Hw2.
  destruct (pruned_eq (set_messages_dirty true s1)) as (m & ms & Em & Hms). rewrite Em in *. split.
  - destruct Hd as [Es Hd]. split; [done|]. intros name sub Hs. by rewrite <- (Hd name sub Hs).
  - eapply (delivered_held topic _ _ s1); [exact Hw2|done|done| |done].
    simpl. destruct Hms as [-> | ->]; [done|]. apply (live_messages_sub (set_messages_dirty true s1)).
Qed.

(** C15: a publish that is accepted gives the messages the next ids, in order; each
    subscription gets one unacknowledged record, at the end of its queue, for each of
    the messages on its topic that its filter matches, and no other; and each such message
    is stored under its id, as it was sent. *)
Theorem publish_exact topic l w ids w' :
  wf (server w) -> fits (Z.of_nat (length l)) (server w) -> grpc_publish topic l w = (Ok ids, w') ->
  publish_outcome topic l (server w) ids (server w').
Proof.
  intros Hw [Hr _]. apply yields_run. unfold grpc_publish. do 5 yields_step. by apply publish_messages_exact.
Qed.
End Publishing.

(** Restarts of the Pub/Sub service in single-file mode: what an accepted call has
    written to [resources.json], a new process reads back. *)

(** ** Loading what was stored *)

(** Every resource and queue has a name. *)
Definition all_named (s : Server) : Prop :=
  topics s !! "" = None /\ subscriptions s !! "" = None /\ snapshots s !! "" = None /\ schemas s !! "" = None.

Lemma insert_named_values {V} (name : V -> string) (m : gmap string V) :
  named name m -> m !! "" = None -> insert_named name (values m) ∅ = m.
Proof.
  intros Hn He. unfold insert_named, values. rewrite <- (foldl_insert_btree m) at 2.
  assert (Forall (fun e => name e.2 = e.1 /\ e.1 <> "") (btree_iter m)) as Hall.
  { apply Forall_forall. intros [k v] Hk%elem_of_btree_iter. split; [by apply Hn|]. simpl. intros ->. congruence. }
  revert Hall. generalize (∅ : gmap string V). induction (btree_iter m) as [|[k v] l IH]; intros acc Hall; [done|].
  apply Forall_cons in Hall as [[E1 E2] Hall]. simpl in *. rewrite E1.
  destruct k as [|c k]; [done|]. simpl. by apply IH.
Qed.
Lemma load_deliveries (d : Deliveries) :
  d !! "" = None -> foldl (fun m e => if is_empty e.1 then m else <[e.1 := e.2]> m) ∅ (btree_iter d) = d.
Proof.
  intros He. rewrite <- (foldl_insert_btree d) at 2. apply (foldl_ext_Forall (fun e => e.1 <> "")).
  - apply Forall_forall. intros [k v] Hk%elem_of_btree_iter. simpl. intros ->. congruence.
  - intros m [k v] Hk. simpl in *. by destruct k.
Qed.
Lemma loaded_message_id_bound (ms : list PubsubMessage) n nm :
  0 <= n <= nm -> nm < 2 ^ 64 -> Forall (fun m => numbered nm (m_message_id m)) ms -> 0 <= loaded_message_id ms n <= nm.
Proof.
  intros Hn Hnm Hall. unfold loaded_message_id. revert n Hn. induction Hall as [|m ms (k & E & Hk) _ IH]; intros n Hn; simpl; [lia|].
  apply IH. rewrite E. destruct (is_empty (show_Z k)); [done|]. unfold parse_u64. rewrite parse_show_Z by lia.
  destruct (Z.ltb_spec n k); lia.
Qed.
Lemma load_resource_file c s :
  wf s -> all_named s -> next_message_id s < 2 ^ 64 ->
  let f := resource_file true s in
  load_message_state (rf_messages f) (rf_deliveries f) (rf_next_message_id f) (rf_next_ack_id f)
    (load_resources f (empty_server c))
  = mkServer c (topics s) (subscriptions s) (snapshots s) (schemas s) (messages s) (nonempty_deliveries (deliveries s))
      (next_message_id s) (next_ack_id s) None None false false.
Proof.
  intros Hw (Ht & Hs & Hsn & Hsc) Hnm f. destruct Hw as ((N1 & N2 & N3 & N4) & Hd & Hsub).
  unfold load_message_state, load_resources, f, resource_file. simpl.
  rewrite (insert_named_values t_name), (insert_named_values s_name), (insert_named_values sn_name), (insert_named_values sc_name) by done.
  assert (named m_message_id (messages s)) as Nm.
  { intros k m Hk. by destruct (store_ok_message Hd k m Hk). }
  rewrite insert_named_values; [|done|].
  2: { destruct (messages s !! "") as [m|] eqn:E; [|done]. destruct (store_ok_message Hd _ _ E) as [_ (n & En & Hn)].
       symmetry in En. by apply show_Z_nonempty in En; [|lia]. }
  rewrite load_deliveries.
  2: { unfold nonempty_deliveries. apply map_lookup_filter_None. left.
       destruct (deliveries s !! "") as [rs|] eqn:E; [|done]. destruct (Hsub _ _ E). congruence. }
  unfold set_next_ids, set_deliveries, set_messages. simpl. f_equal.
  pose proof (loaded_message_id_bound (values (messages s)) 0 (next_message_id s)) as Hb.
  pose proof (so_nm _ _ _ _ _ Hd) as H0. specialize (Hb ltac:(lia) Hnm).
  assert (0 <= loaded_message_id (values (messages s)) 0 <= next_message_id s) as Hb'.
  { apply Hb. apply Forall_forall. intros m [k Hk]%elem_of_values. destruct (store_ok_message Hd _ _ Hk) as [-> ?]. done. }
  destruct (Z.ltb_spec (loaded_message_id (values (messages s)) 0) (next_message_id s)); lia.
Qed.

(** ** An accepted call, then a restart *)

Section Durable.
Context `{Env, SerdeJson, SerdePretty, DebugStr}.

(** The server a new process starts with. *)
Definition restarted (c : Config) (s : Server) : Server :=
  mkServer c (topics s) (subscriptions s) (snapshots s) (schemas s) (messages s) (nonempty_deliveries (deliveries s))
    (next_message_id s) (next_ack_id s) None None false false.
(** The state file holds the server's state. *)
Definition on_disk (w : World) : Prop := w_resources w = Some (resource_file_bytes (resource_file true (server w))).

Lemma wp_then {A} (m : Api A) (Q : result ApiError A -> World -> Prop) w o w' : m w = (o, w') -> wp m Q w -> Q o w'.
Proof. unfold wp. by intros ->. Qed.
Lemma wp_write_atomic store w (Q : result ApiError unit -> World -> Prop) :
  (forall t, Q (Ok tt) (store (mkWorld (server w) (w_resources w) (w_pubsub w) t))) ->
  (forall t, Q (Err store_unavailable) (mkWorld (server w) (w_resources w) (w_pubsub w) t)) ->
  wp (write_atomic store) Q w.
Proof.
  intros Hok Herr. unfold write_atomic, fs_call, next_tick, wp, mbind, m_bind, mret, m_ret, fail, modify.
  destruct w as [s r p t]. simpl in *.
  destruct (fs_create_dir_all t); simpl; [apply Herr|].
  destruct (fs_write (S t)); simpl; [apply Herr|].
  destruct (fs_rename (S (S t))); simpl; [apply Herr|apply Hok].
Qed.
(** In single-file mode a change of the messages goes to [resources.json]. *)
Lemma wp_persist_writes w :
  single_file (config (server w)) = true -> storage_path (config (server w)) <> "" ->
  messages_dirty (server w) = true -> wp persist (fun o w' => o = Ok tt -> on_disk w') w.
Proof.
  intros Hsf Hst Hm. unfold persist. apply wp_bind, wp_modify. simpl. apply wp_bind, wp_gets. simpl.
  destruct (pruned_eq (server w)) as (b & ms & E & _).
  assert (messages_dirty (pruned (server w)) = true) as Hdirty.
  { unfold pruned. rewrite Hm. unfold cleanup_unreferenced_messages. case_bool_decide; [done|]. simpl. by rewrite Hm. }
  assert (config (pruned (server w)) = config (server w)) as Ec by (by rewrite E).
  unfold in_memory, writes_resources, writes_messages. rewrite Ec, Hsf, Hdirty, orb_true_r.
  destruct (storage_path (config (server w))) as [|c0 st] eqn:Ep; [done|]. simpl.
  apply wp_bind. unfold write_resource_file. apply wp_bind. rewrite Ec, Hsf. apply wp_write_atomic; [|done]. intros t. simpl.
  apply wp_modify. simpl. apply wp_ret. intros _. done.
Qed.

Lemma publish_all_next topic now l s ids s' :
  0 <= next_message_id s -> next_message_id s + Z.of_nat (length l) < 2 ^ 64 ->
  publish_all topic now l s = Ok (ids, s') -> next_message_id s' = next_message_id s + Z.of_nat (length l).
Proof.
  revert s ids s'. induction l as [|i l IH]; intros s ids s' Hn Hlt; cbn [publish_all].
  { intros [= _ <-]. simpl. lia. }
  cbn [length] in Hlt. destruct (fresh_message_id s) as [n| |] eqn:En; cbn [mbind outcome_bind]; [|done..].
  apply checked_u64_next in En as ->; [|done|right; lia].
  destruct (publish_all topic now l _) as [[ids' s2]| |] eqn:Ep; cbn [mbind outcome_bind]; [|done..].
  intros [= _ <-]. apply IH in Ep; simpl in *; lia.
Qed.
Lemma publish_messages_writes topic l w :
  single_file (config (server w)) = true -> storage_path (config (server w)) <> "" ->
  0 <= next_message_id (server w) -> next_message_id (server w) + Z.of_nat (length l) < 2 ^ 64 ->
  wp (publish_messages topic l) (fun o w' => forall ids, o = Ok ids -> on_disk w'
    /\ config (server w') = config (server w) /\ topics (server w') = topics (server w)
    /\ snapshots (server w') = snapshots (server w) /\ schemas (server w') = schemas (server w)
    /\ next_message_id (server w') = next_message_id (server w) + Z.of_nat (length l)) w.
Proof.
  intros Hsf Hst Hn Hlt. unfold publish_messages. apply wp_bind. eapply wp_mono; [apply peeks_now|].
  intros [n|e|p] w1 E1; simpl; [|done..]. apply wp_bind, wp_gets. simpl. apply wp_bind. unfold on_server_try.
  apply wp_bind, wp_gets. simpl. apply wp_bind, wp_lift. rewrite E1.
  destruct (publish_all topic n l (server w)) as [[ids s1]| |] eqn:Ep; simpl; [|done..].
  pose proof (publish_all_next _ _ _ _ _ _ Hn Hlt Ep) as Hnext. apply publish_all_drifted in Ep.
  assert (config s1 = config (server w) /\ topics s1 = topics (server w) /\ snapshots s1 = snapshots (server w)
    /\ schemas s1 = schemas (server w)) as (C1 & C2 & C3 & C4) by (rewrite Ep; done).
  apply wp_bind, wp_modify. simpl. apply wp_ret. simpl. apply wp_bind, wp_modify. simpl. apply wp_bind.
  unfold persist_or. apply wp_bind, wp_catch. set (w2 := on_server (set_messages_dirty true) _).
  assert (wp persist (fun o w' => (o = Ok tt -> on_disk w')
    /\ exists a b, server w' = set_flags a b (pruned (server w2))) w2) as Hp.
  { pose proof (wp_persist_writes w2) as Hw. pose proof (wp_persisting w2) as [_ Hs]. unfold wp in *. split; [|exact Hs].
    apply Hw; simpl; rewrite ?C1; done. }
  eapply wp_mono; [exact Hp|]. intros [[]|e|p] w3 [Hd (a & b & E3)]; simpl.
  - apply wp_ret. simpl. apply wp_ret. intros ids' _. split; [by apply Hd|]. rewrite E3.
    destruct (pruned_eq (server w2)) as (m & ms & -> & _). subst w2. by simpl.
  - apply wp_bind, wp_modify. simpl. by apply wp_fail.
  - done.
Qed.

(** Starting on a state file that can be read. *)
Lemma new_rereads c s data f p t :
  single_file c = true -> storage_path c <> "" -> fs_read t = None -> resource_from_slice data = inl f ->
  new c (mkWorld s (Some data) p t)
  = (Ok tt, mkWorld (load_message_state (rf_messages f) (rf_deliveries f) (rf_next_message_id f) (rf_next_ack_id f)
                       (load_resources f (empty_server c))) (Some data) p (S t)).
Proof.
  intros Hsf Hst Hfs Hread. destruct (storage_path c) as [|c0 st] eqn:Ep; [congruence|].
  unfold new, mbind, m_bind, modify, on_server. cbn. unfold in_memory. unfold single_file in *. rewrite Ep. cbn.
  unfold catch, load, read_file, mbind, m_bind, gets, next_tick. cbn. rewrite Ep. cbn. rewrite Hfs. cbn.
  rewrite Hread. cbn. unfold single_file. by rewrite Hsf.
Qed.
Lemma restart_rereads c w :
  single_file c = true -> storage_path c <> "" -> wf (server w) -> all_named (server w) ->
  next_message_id (server w) < 2 ^ 64 -> on_disk w -> fs_read (w_tick w) = None ->
  resource_from_slice (resource_file_bytes (resource_file true (server w))) = inl (resource_file true (server w)) ->
  exists w', new c w = (Ok tt, w') /\ server w' = restarted c (server w).
Proof.
  intros Hsf Hst Hw Hnm Hlt Hd Hfs Hread. destruct w as [s r p t]. unfold on_disk in Hd. simpl in Hd. subst r.
  eexists. split; [by apply new_rereads|]. by apply (load_resource_file c s).
Qed.

Lemma records_restarted c s name : records_of (restarted c s) name = records_of s name.
Proof.
  unfold records_of, restarted, nonempty_deliveries. simpl. destruct (deliveries s !! name) as [rs|] eqn:E.
  - destruct rs as [|d rs].
    + rewrite (proj2 (map_lookup_filter_None _ _ _)); [done|]. right. intros x. rewrite E. intros [= <-] Hx. by apply Hx.
    + by rewrite (proj2 (map_lookup_filter_Some _ _ _ (d :: rs))).
  - rewrite (proj2 (map_lookup_filter_None _ _ _)); [done|]. by left.
Qed.

Lemma wp_peeks_bind {A B} (m : Api A) (f : A -> Api B) (Q : B -> World -> Prop) w :
  peeks m -> (forall a w', server w' = server w -> wp (f a) (fun o w'' => forall b, o = Ok b -> Q b w'') w') ->
  wp (m ≫= f) (fun o w'' => forall b, o = Ok b -> Q b w'') w.
Proof. intros Hm Hf. apply wp_bind. eapply wp_mono; [apply Hm|]. intros [a|e|p] w' E; simpl; [by apply Hf|done..]. Qed.

(** C17: a published message survives a crash: when the state is kept in one file, a new
    process started after the publish was accepted comes up with the same resources,
    messages, queues and counters, so each matching subscription still has its record
    of each message. *)
Theorem published_survives topic l w ids w' :
  wf (server w) -> all_named (server w) -> fits (Z.of_nat (length l)) (server w) ->
  next_message_id (server w) + Z.of_nat (length l) < 2 ^ 64 ->
  single_file (config (server w)) = true -> storage_path (config (server w)) <> "" ->
  grpc_publish topic l w = (Ok ids, w') -> fs_read (w_tick w') = None ->
  resource_from_slice (resource_file_bytes (resource_file true (server w'))) = inl (resource_file true (server w')) ->
  exists w2, new (config (server w)) w' = (Ok tt, w2)
    /\ server w2 = restarted (config (server w)) (server w')
    /\ publish_outcome topic l (server w) ids (server w2).
Proof.
  intros Hw Hnm Hfit Hlt Hsf Hst E Hfs Hread. pose proof (so_nm _ _ _ _ _ (proj1 (proj2 Hw))) as Hnn.
  assert (publish_outcome topic l (server w) ids (server w') /\ wf (server w')) as [Ho Hw'].
  { split.
    - revert E. apply (yields_run (grpc_publish topic l)). unfold grpc_publish. do 5 yields_step.
      apply publish_messages_exact; [done|apply Hfit].
    - pose proof (keeps_grpc_publish topic l (server w) Hw Hfit w eq_refl) as Hk. unfold wp in Hk. rewrite E in Hk. apply Hk. }
  assert (on_disk w' /\ config (server w') = config (server w) /\ topics (server w') = topics (server w)
    /\ snapshots (server w') = snapshots (server w) /\ schemas (server w') = schemas (server w)
    /\ next_message_id (server w') = next_message_id (server w) + Z.of_nat (length l)) as (Hd & Ec & Et & Es & Esc & En).
  { assert (wp (grpc_publish topic l) (fun o w' => forall ids, o = Ok ids -> on_disk w'
      /\ config (server w') = config (server w) /\ topics (server w') = topics (server w)
      /\ snapshots (server w') = snapshots (server w) /\ schemas (server w') = schemas (server w)
      /\ next_message_id (server w') = next_message_id (server w) + Z.of_nat (length l)) w) as Hp.
    2: { unfold wp in Hp. rewrite E in Hp. by eapply Hp. }
    unfold grpc_publish. cbv zeta.
    do 5 (apply wp_peeks_bind; [solve_peeks|let a := fresh "a" in let w1 := fresh "v" in let Ew := fresh "Ew" in intros a w1 Ew]).
    match goal with |- wp _ _ ?v => assert (server v = server w) as Ev by congruence; rewrite <- Ev in *; by apply publish_messages_writes end. }
  destruct (restart_rereads (config (server w)) w') as (w2 & Hnew & E2); [done|done|done| |lia|done|done|done|].
  { destruct Hnm as (N1 & N2 & N3 & N4). destruct Ho as (now & _ & [Esub _] & _). unfold all_named. rewrite Et, Es, Esc, Esub. done. }
  exists w2. split_and!; [done|done|]. destruct Ho as (now & Ei & [Esub Hrec] & Hmsg). exists now. rewrite E2.
  split_and!; [done| |done]. split; [done|]. intros name sub Hs. rewrite records_restarted. by apply Hrec.
Qed.
End Durable.
