(* ===== verification/PubPull.v ===== *)
(** What a pull hands out: messages that nobody holds, each under a fresh ack id and a
    lease up to the ack deadline, no more than asked for, and messages with an ordering
    key strictly in order. *)

From S2P Require Import Prelude RustStr RustNum RustText Json PubTime PubModel PubValidation PubResources PubGrpc PubMessages PubSystem PubInvariant PubCalls PubFlows PubRun PubDelivery.
Local Open Scope string_scope.
Local Open Scope Z_scope.

(** ** The loop *)

Section Loop.
Context `{Env}.
Variables (s : Server) (sub : Subscription) (now_secs ack_deadline : Z).

(** A record that is free to go: unacknowledged, held by nobody, past its delay. *)
Definition free (d : DeliveryRecord) : Prop :=
  d_acked d = false /\ leased now_secs d = false /\ after (d_next_delivery_time d) now_secs = false.
(** [d] becomes [d'], leased to the receiver of [r]. *)
Definition handed (d d' : DeliveryRecord) (r : Received) : Prop :=
  free d /\ messages s !! d_message_id d = Some (rc_message r)
  /\ exists t, plus_seconds (E := ApiError) now_secs ack_deadline = Ok t
     /\ d' = with_lease (rc_ack_id r) t (rc_attempt r) d.
(** The ordering key the loop goes by. *)
Definition order_key (m : PubsubMessage) : option string :=
  if s_enable_message_ordering sub then nonempty_key m else None.
Definition record_key (d : DeliveryRecord) : option string := messages s !! d_message_id d ≫= order_key.

Inductive stepped (d : DeliveryRecord) (st : Pulling) : DeliveryRecord -> Pulling -> Prop :=
| Kept st' :
    pl_received st' = pl_received st -> pl_ack_id st' = pl_ack_id st -> pl_blocked st ⊆ pl_blocked st' ->
    (d_acked d = true \/ leased now_secs d = true \/ forall k, record_key d = Some k -> k ∈ pl_blocked st') ->
    stepped d st d st'
| Dead d' st' :
    pl_received st' = pl_received st -> pl_ack_id st' = pl_ack_id st -> pl_blocked st' = pl_blocked st ->
    d_message_id d' = d_message_id d -> d_acked d' = true -> stepped d st d' st'
| Handed d' r st' :
    handed d d' r -> pl_received st' = (pl_received st ++ [r])%list -> pl_ack_id st' = pl_ack_id st + 1 ->
    rc_ack_id r = ack_id_of (d_message_id d) (pl_ack_id st + 1) ->
    (forall k, order_key (rc_message r) = Some k -> k ∉ pl_blocked st) ->
    pl_blocked st' = block (order_key (rc_message r)) (pl_blocked st) -> stepped d st d' st'.

Lemma pull_deliver_stepped m b d st d' st' :
  free d -> 0 <= pl_ack_id st -> room (pl_ack_id st) 1 -> messages s !! d_message_id d = Some m ->
  (forall k, order_key m = Some k -> k ∉ pl_blocked st) -> b = block (order_key m) (pl_blocked st) ->
  pull_deliver now_secs ack_deadline m b d st = Ok (d', st') -> stepped d st d' st'.
Proof.
  intros Hf H0 Hr Hm Hk ->. unfold pull_deliver.
  destruct (checked_u64 _) as [n| |] eqn:En; cbn [mbind outcome_bind]; [|done..]. apply checked_u64_next in En as ->; [|done..].
  destruct (plus_seconds now_secs ack_deadline) as [t| |] eqn:Et; cbn [mbind outcome_bind]; [|done..].
  destruct (checked_i64 _) as [a| |]; cbn [mbind outcome_bind]; [|done..]. intros [= <- <-].
  eapply (Handed _ _ _ (mkReceived (ack_id_of (d_message_id d) (pl_ack_id st + 1)) m a)); try done.
  split_and!; [done|done|]. by exists t.
Qed.
Lemma pull_step_stepped d st d' st' :
  0 <= pl_ack_id st -> room (pl_ack_id st) 1 -> pull_step s sub now_secs ack_deadline d st = Ok (d', st') ->
  stepped d st d' st'.
Proof.
  intros H0 Hr. unfold pull_step.
  destruct (d_acked d) eqn:Ea; cbn [orb]; [intros [= <- <-]; apply Kept; auto|].
  destruct (leased now_secs d) eqn:El; [intros [= <- <-]; apply Kept; auto|].
  destruct (after _ _) eqn:Ef.
  { intros [= <- <-]. apply Kept; [by destruct (s_enable_message_ordering sub)..| |].
    - destruct (s_enable_message_ordering sub); [|done]. unfold block, set_blocked. simpl.
      destruct (key_of_record s d); set_solver.
    - right; right. unfold record_key, order_key, key_of_record. intros k Hk.
      destruct (messages s !! _) as [m|]; [|done]. simpl in *.
      destruct (s_enable_message_ordering sub); [|done]. rewrite Hk. simpl. set_solver. }
  destruct (messages s !! d_message_id d) as [m|] eqn:Em.
  2: { intros [= <- <-]. apply Kept; [done..|]. right; right. unfold record_key. by rewrite Em. }
  assert (forall o, (if dead_letter_target s sub is Some (topic, max_attempts)
                     then if max_attempts <=? d_delivery_attempt d then pull_dead_letter s topic m d st else o else o)
                    = Ok (d', st') -> (o = Ok (d', st') -> stepped d st d' st') -> stepped d st d' st') as Hdl.
  { intros o Ho Hd. destruct (dead_letter_target s sub) as [[topic max]|]; [|by apply Hd].
    destruct (max <=? _); [|by apply Hd]. revert Ho. unfold pull_dead_letter.
    destruct (checked_u64 _) as [n| |]; cbn [mbind outcome_bind]; [|done..].
    destruct (clock_at s (pl_tick st)) as [t t']. intros [= <- <-]. by apply Dead. }
  intros Ho. eapply Hdl; [exact Ho|]. clear Ho Hdl.
  destruct (if s_enable_message_ordering sub then nonempty_key m else None) as [key|] eqn:Ek.
  - case_bool_decide as Hb.
    + intros [= <- <-]. apply Kept; [done..|]. right; right. unfold record_key, order_key. rewrite Em. simpl. rewrite Ek.
      by intros k [= <-].
    + apply pull_deliver_stepped; [done..| |]; unfold order_key; rewrite Ek; [|done]. by intros k [= <-].
  - apply pull_deliver_stepped; [done..| |]; unfold order_key; by rewrite Ek.
Qed.

(** ** A whole pass *)

(** The receptions of a pass over [l], with the records they take. *)
Record passed (max : Z) (l : list DeliveryRecord) (st : Pulling) (l' : list DeliveryRecord) (st' : Pulling)
    (new : list Received) : Prop := mkPassed {
  ps_received : pl_received st' = (pl_received st ++ new)%list;
  ps_count : Z.of_nat (length (pl_received st)) <= max -> Z.of_nat (length (pl_received st')) <= max;
  ps_records : Forall2 (fun d d' => d_message_id d' = d_message_id d /\ (d_acked d' = false -> d_acked d = false)) l l';
  ps_acks : pl_ack_id st' = pl_ack_id st + Z.of_nat (length new);
  ps_numbers : forall i r, new !! i = Some r ->
    exists id, messages s !! id = Some (rc_message r) /\ rc_ack_id r = ack_id_of id (pl_ack_id st + 1 + Z.of_nat i);
  ps_handed : Forall (fun r => exists d d', d ∈ l /\ d' ∈ l' /\ handed d d' r) new;
  ps_order : Forall (fun r => forall k, order_key (rc_message r) = Some k ->
    (k ∉ pl_blocked st) /\ exists pre d' suf, l' = (pre ++ d' :: suf)%list
      /\ d_ack_id d' = rc_ack_id r /\ d_acked d' = false
      /\ Forall (fun x => record_key x = Some k -> d_acked x = true \/ (x ∈ l /\ leased now_secs x = true)) pre) new }.

Lemma passed_nothing max l st : passed max l st l st [].
Proof.
  split; simpl; try done; [by rewrite app_nil_r|by apply Forall_Forall2_diag, Forall_true|lia].
Qed.
Lemma stepped_key d st d' st' : stepped d st d' st' -> record_key d' = record_key d.
Proof.
  destruct 1 as [st'|d' st' ? ? ? E ?|d' r st' (_ & _ & t & _ & ->) _ _ _ _ _]; [done| |done].
  unfold record_key. by rewrite E.
Qed.
Lemma stepped_source d st d' st' :
  stepped d st d' st' -> d_message_id d' = d_message_id d /\ (d_acked d' = false -> d_acked d = false).
Proof.
  destruct 1 as [st'|d' st' ? ? ? E Ea|d' r st' (_ & _ & t & _ & ->) _ _ _ _ _]; [done| |done]. by rewrite Ea.
Qed.
Lemma stepped_blocked d st d' st' : stepped d st d' st' -> pl_blocked st ⊆ pl_blocked st'.
Proof.
  destruct 1 as [st' _ _ Hb _|d' st' _ _ -> _ _|d' r st' _ _ _ _ _ ->]; [done|done|]. destruct (order_key _); set_solver.
Qed.
(** What stands before a later reception of the key is acknowledged, or leased all along. *)
Lemma stepped_prefix d l st d' st' k :
  stepped d st d' st' -> k ∉ pl_blocked st' -> record_key d' = Some k ->
  d_acked d' = true \/ (d' ∈ d :: l /\ leased now_secs d' = true).
Proof.
  intros Hs Hk. destruct Hs as [st' _ _ _ [Ha | [Hl | Hb]]|d' st' _ _ _ _ Ha|d' r st' (_ & Hm & t & _ & ->) _ _ _ _ Eb].
  - by left. - right. split; [by left|done]. - intros Hkey. by destruct Hk; apply Hb. - by left.
  - unfold record_key. simpl. rewrite Hm. simpl. intros Ho. destruct Hk. rewrite Eb, Ho. simpl. set_solver.
Qed.

Lemma passed_cons max d l st d' l' st' st'' new :
  Z.of_nat (length (pl_received st)) < max -> stepped d st d' st' -> passed max l st' l' st'' new ->
  exists new', passed max (d :: l) st (d' :: l') st'' new'.
Proof.
  intros Hmax Hs [R C F A N Ha O]. assert (Forall2 (fun d d' => d_message_id d' = d_message_id d /\ (d_acked d' = false -> d_acked d = false)) (d :: l) (d' :: l')) as Hf2.
  { constructor; [by eapply stepped_source|done]. }
  pose proof (stepped_blocked _ _ _ _ Hs) as Hb.
  assert (Forall (fun r => forall k, order_key (rc_message r) = Some k ->
    (k ∉ pl_blocked st) /\ exists pre x suf, (d' :: l')%list = (pre ++ x :: suf)%list
      /\ d_ack_id x = rc_ack_id r /\ d_acked x = false
      /\ Forall (fun y => record_key y = Some k -> d_acked y = true \/ (y ∈ d :: l /\ leased now_secs y = true)) pre) new) as Ho.
  { eapply Forall_impl; [exact O|]. intros r Hr k Hk. destruct (Hr k Hk) as (Hni & pre & x & suf & -> & Hx & Hu & Hp).
    split; [set_solver|]. exists (d' :: pre), x, suf. split_and!; [done..|]. constructor.
    - intros Hkey. by eapply stepped_prefix.
    - eapply Forall_impl; [exact Hp|]. intros y Hy Hky. destruct (Hy Hky) as [?|[??]]; [by left|right; split; [by right|done]]. }
  assert (Forall (fun r => exists x x', x ∈ d :: l /\ x' ∈ d' :: l' /\ handed x x' r) new) as Hh.
  { eapply Forall_impl; [exact Ha|]. intros r (x & x' & ? & ? & ?). exists x, x'. split_and!; [by right|by right|done]. }
  destruct Hs as [st' E1 E2 _ _|d' st' E1 E2 _ _ _|d' r st' Hd E1 E2 Er Hk Eb].
  1,2: exists new; rewrite E1 in *; rewrite E2 in *; by split; [|auto|..].
  exists (r :: new). rewrite E1 in *. rewrite E2 in *. split.
  - by rewrite R, <- app_assoc.
  - intros _. apply C. rewrite length_app. simpl. lia.
  - done.
  - rewrite A. simpl. lia.
  - intros [|i] x Hx; simpl in Hx.
    + injection Hx as <-. exists (d_message_id d). split; [apply Hd|]. rewrite Er. f_equal. lia.
    + destruct (N i x Hx) as (y & ? & ->). exists y. split; [done|]. f_equal. lia.
  - constructor; [|done]. exists d, d'. split_and!; [by left|by left|done].
  - constructor; [|done]. intros k Hkey. split; [by apply Hk|]. exists [], d', l'.
    destruct Hd as ((Hu & _) & _ & t & _ & ->). split_and!; [done|done|done|constructor].
Qed.
Lemma pull_loop_passed max l st l' st' :
  0 <= pl_ack_id st -> room (pl_ack_id st) (Z.of_nat (length l)) ->
  pull_loop s sub max now_secs ack_deadline l st = Ok (l', st') -> exists new, passed max l st l' st' new.
Proof.
  revert st l' st'. induction l as [|d l IH]; intros st l' st' H0 Hr; cbn [pull_loop].
  { intros [= <- <-]. exists []. apply passed_nothing. }
  destruct (max <=? _) eqn:Em; [intros [= <- <-]; exists []; apply passed_nothing|].
  destruct (pull_step s sub now_secs ack_deadline d st) as [[d1 st1]| |] eqn:E1; cbn [mbind outcome_bind]; [|done..].
  destruct (pull_loop s sub max now_secs ack_deadline l st1) as [[l1 st2]| |] eqn:E2; cbn [mbind outcome_bind]; [|done..].
  intros [= <- <-]. cbn [length] in Hr. apply pull_step_stepped in E1; [|done|eapply room_le; [|done]; lia].
  assert (pl_ack_id st <= pl_ack_id st1 <= pl_ack_id st + 1) as Hle by (destruct E1; lia).
  apply IH in E2 as [new Hp]; [|lia|destruct Hr as [?|?]; [by left|right; lia]].
  eapply passed_cons; [lia|done|done].
Qed.
End Loop.

(** ** Before the loop *)

Section Begin.
Context `{Env, SerdeJson, SerdePretty, DebugStr}.

(** The records of [s'] are records of [s], some expired at [now_secs]. *)
Definition lapsed (now_secs : Z) (s s' : Server) : Prop :=
  forall name d', d' ∈ records_of s' name ->
  exists d, d ∈ records_of s name /\ (d' = d \/ expire_record s' name now_secs d = Ok d').
Definition fewer (s s' : Server) : Prop := forall name d, d ∈ records_of s' name -> d ∈ records_of s name.

Lemma retain_fewer now s : fewer s (retain_deliveries now s).
Proof.
  intros name d. unfold records_of, retain_deliveries. simpl. rewrite map_lookup_imap.
  destruct (deliveries s !! name) as [rs|]; simpl; [|by intros ?%not_elem_of_nil].
  destruct (retained_records s now name rs) as [|x l] eqn:E; simpl; [by intros ?%not_elem_of_nil|].
  rewrite <- E. unfold retained_records. by intros [_ ?]%elem_of_lfilter.
Qed.
Lemma wp_cleanup_fewer now_secs w :
  wp (cleanup_retained_messages now_secs) (fun o w' => fewer (server w) (server w')) w.
Proof.
  unfold cleanup_retained_messages, cleanup_expired_snapshots.
  apply wp_bind, wp_bind, wp_gets. simpl. apply wp_bind. eapply wp_mono; [apply peeks_ok_expired_names|].
  intros o w1 [[names ->] E]. simpl. apply wp_modify. simpl. apply wp_modify. simpl. rewrite E.
  set (s1 := remove_snapshots names _). assert (deliveries s1 = deliveries (server w)) as Es by (subst s1; by destruct (bool_decide _)).
  assert (fewer (server w) s1) as Hfe by (intros name d; unfold records_of; by rewrite Es).
  match goal with |- context [if ?b then s1 else _] => destruct b; [done|] end.
  intros name d Hd. apply Hfe. apply (retain_fewer now_secs s1 name).
  destruct (cleanup_unreferenced_eq (retain_snapshots now_secs (retain_deliveries now_secs s1))) as [b Eb].
  rewrite Eb in Hd. exact Hd.
Qed.
Lemma expired_lapsed now_secs s s' : expire_leases now_secs s = Ok s' -> lapsed now_secs s s'.
Proof.
  intros [Ho Hs]%expire_leases_spec name d'. specialize (Hs name). unfold expired_in in Hs. unfold records_of.
  destruct (deliveries s !! name) as [rs|].
  - destruct Hs as (rs' & Hm & ->). simpl. intros Hd.
    assert (Forall2 (fun x y => expire_record s name now_secs x = Ok y) rs rs') as Hf by (eapply map_try_Forall2; [|exact Hm]; auto).
    apply list_elem_of_lookup in Hd as [i Hi]. eapply Forall2_lookup_r in Hf as (d & Hd & Hx); [|exact Hi].
    exists d. split; [by eapply list_elem_of_lookup_2|]. right. rewrite <- Hx. apply expire_record_subs. by rewrite Ho.
  - rewrite Hs. by intros ?%not_elem_of_nil.
Qed.
(** The state a pull starts its loop from. *)
Definition begun (now_secs : Z) (s s' : Server) : Prop := cleaned s s' /\ lapsed now_secs s s'.
Lemma yields_begin_pull {B} s (f : Z * Server -> Api B) P :
  wf s -> (forall now_secs s', begun now_secs s s' -> yields s' (f (now_secs, s)) P) -> yields s (begin_pull ≫= f) P.
Proof.
  intros Hw Hf. apply (yields_bind _ _ _ (fun r s' => r.2 = s /\ begun r.1 s s')).
  2: { intros [n s1] s' [E Hb]. simpl in *. rewrite E. by apply Hf. }
  unfold begin_pull. yields_step. destruct a as [n m]. yields_step.
  apply (yields_bind _ _ _ (fun _ s' => cleaned s s' /\ fewer s s')).
  { intros w E. pose proof (wp_cleanup n w) as Hc. pose proof (wp_cleanup_fewer n w) as Hfw. rewrite E in *.
    specialize (Hc Hw). unfold wp in *. intros _ _. split; [by destruct Hc as [_ ?]|done]. }
  intros _ s1 [Hc Hfw]. unfold expire_leases_now. apply yields_try. intros [] s2.
  destruct (expire_leases n s1) as [s3| |] eqn:E; cbn [mbind outcome_bind]; [|done..]. intros [= <-].
  yields_step. simpl. split; [done|]. split.
  - eapply cleaned_trans; [done|]. eapply cleaned_expired; [apply Hc|done].
  - intros name d' (d & Hd & Hx)%(expired_lapsed _ _ _ E). exists d. split; [by apply Hfw|done].
Qed.
(** A record held by somebody is not expired. *)
Lemma begun_free now_secs s s' name d d' :
  wf s -> begun now_secs s s' -> d ∈ records_of s name -> d' ∈ records_of s' name -> d_message_id d = d_message_id d' ->
  free now_secs d' -> d_acked d = false /\ leased now_secs d = false.
Proof.
  intros Hw [_ Hl] Hd (d0 & Hd0 & Hx)%Hl Hid (Ha & Hle & _).
  assert (d_message_id d0 = d_message_id d') as Hid0.
  { destruct Hx as [-> | Hx]; [done|]. revert Hx. unfold expire_record. destruct (lease_expired _ _); [|by intros [= ->]].
    destruct (if _ <? _ then _ else _); cbn [mbind outcome_bind]; [|done..]. by intros [= <-]. }
  assert (d0 = d) as ->.
  { destruct (store_ok_entry (proj1 (proj2 Hw)) name) as [_ Hnd]. fold (records_of s name) in Hnd.
    eapply NoDup_map_eq; [exact Hnd|done|done|congruence]. }
  destruct Hx as [-> | Hx]; [done|]. revert Hx. unfold expire_record. destruct (lease_expired now_secs d) eqn:El.
  - unfold lease_expired in El. apply negb_true_iff, orb_false_iff in El as [[? _]%orb_false_iff ?]. done.
  - intros [= ->]. done.
Qed.
End Begin.

(** ** The pull *)

Section Pulls.
Context `{Env, SerdeJson, SerdePretty, DebugStr}.

(** The core of a pull, from the server [s] to [s'], which has the records yet to store. *)
Definition pulled_pass (name : string) (sub : Subscription) (max now_secs ack : Z) (s s' : Server)
    (records : list DeliveryRecord) (received : list Received) : Prop :=
  pulled_state name s s' records /\ messages s ⊆ messages s'
  /\ exists t st, passed s sub now_secs ack max (records_of s name) (start_loop s sub now_secs (records_of s name) t)
       records st received
     /\ next_ack_id s' = pl_ack_id st.
Lemma yields_pull_core {B} s name sub max now_secs ack (f : list Received * list DeliveryRecord -> Api B) P :
  wf s -> fits 0 s ->
  (forall received records s', pulled_pass name sub max now_secs ack s s' records received ->
    yields s' (f (received, records)) P) ->
  yields s (pull_with_ack_deadline_core name sub max now_secs ack ≫= f) P.
Proof.
  intros Hw Hfit Hf.
  apply (yields_bind _ _ _ (fun r s' => pulled_pass name sub max now_secs ack s s' r.2 r.1)); [|intros [received records] s'; apply Hf].
  intros w E. unfold pull_with_ack_deadline_core. apply wp_bind, wp_gets. simpl. apply wp_bind, wp_gets. simpl.
  apply wp_bind, wp_lift. rewrite E. clear Hf.
  destruct (pull_loop _ _ _ _ _ _ _) as [[l st]|e|p] eqn:El; simpl; [|done..].
  apply wp_bind, wp_modify. simpl. apply wp_bind, wp_modify. simpl. apply wp_ret. simpl. rewrite E. intros a [= <-]. simpl.
  destruct (after_loop_ok _ _ _ _ _ _ _ _ _ Hw Hfit El) as (Hp & Hm & Hn). split_and!; [done|done|].
  apply pull_loop_passed in El as [new Hnew]; [|apply Hw|apply Hfit].
  pose proof (ps_received _ _ _ _ _ _ _ _ _ _ Hnew) as Er. simpl in Er. rewrite Er in *.
  exists (w_tick w), st. split; [exact Hnew|exact Hn].
Qed.

(** What a pull with the deadline [ack] tells of one message [r] it returns. *)
Definition leased_to (name : string) (now_secs ack : Z) (s s' : Server) (r : Received) : Prop :=
  let id := m_message_id (rc_message r) in
  messages s' !! id = Some (rc_message r)
  /\ (exists n, rc_ack_id r = ack_id_of id n /\ next_ack_id s < n <= next_ack_id s')
  /\ (exists d, d ∈ records_of s' name /\ d_message_id d = id /\ d_ack_id d = rc_ack_id r
      /\ d_acked d = false /\ d_delivery_attempt d = rc_attempt r
      /\ (secs_ok (now_secs + ack) -> forall t, leased t d = (t <? now_secs + ack)))
  /\ (forall d, d ∈ records_of s name -> d_message_id d = id -> d_acked d = false /\ leased now_secs d = false).
Definition pull_outcome (name : string) (max ack : Z) (s : Server) (received : list Received) (s' : Server) : Prop :=
  exists now_secs,
    (0 <= max -> Z.of_nat (length received) <= max)
    /\ NoDup (map rc_ack_id received)
    /\ Forall (leased_to name now_secs ack s s') received.

Lemma passed_fresh_acks s sub now_secs ack max l st l' st' new :
  0 <= pl_ack_id st -> passed s sub now_secs ack max l st l' st' new -> NoDup (map rc_ack_id new).
Proof.
  intros H0' Hp. apply NoDup_alt. intros i j x Hi Hj. change (map rc_ack_id new) with (rc_ack_id <$> new) in *.
  rewrite list_lookup_fmap in Hi, Hj. apply fmap_Some in Hi as (r & Hi & ->), Hj as (r' & Hj & E).
  destruct (ps_numbers _ _ _ _ _ _ _ _ _ _ Hp _ _ Hi) as (d & _ & E1).
  destruct (ps_numbers _ _ _ _ _ _ _ _ _ _ Hp _ _ Hj) as (d' & _ & E2).
  rewrite E1, E2 in E. apply ack_id_inj in E; lia.
Qed.
Lemma handed_lease s now_secs ack d d' r t :
  handed s now_secs ack d d' r -> secs_ok (now_secs + ack) -> leased t d' = (t <? now_secs + ack).
Proof. intros (_ & _ & x & Hx & ->) Hok. unfold leased. simpl. by eapply after_plus_seconds. Qed.

(** What holds of a pass holds of the server that stores its records. *)
Lemma pass_leased name sub max now_secs ack s0 s s1 s' records received :
  wf s0 -> begun now_secs s0 s -> pulled_pass name sub max now_secs ack s s1 records received ->
  wf s' -> deliveries s' !! name = Some (compact_acked records (s_retain_acked_messages sub)) ->
  messages s' ⊆ messages s1 -> next_ack_id s' = next_ack_id s1 ->
  Forall (leased_to name now_secs ack s0 s') received.
Proof.
  intros Hw0 Hb (_ & Hms & t & st & Hp & En) Hw' Hd Hsub Ena. rewrite Forall_forall. intros r Hr.
  pose proof Hb as ((Hw & _ & _ & Eack & _) & _).
  pose proof (ps_handed _ _ _ _ _ _ _ _ _ _ Hp) as Hh. rewrite Forall_forall in Hh.
  destruct (Hh r Hr) as (d & d' & Hin & Hin' & Hhd). pose proof Hhd as (Hfree & Hm & x & Hx & Ed).
  assert (m_message_id (rc_message r) = d_message_id d) as Hid.
  { by destruct (store_ok_message (proj1 (proj2 Hw)) _ _ Hm). }
  assert (d' ∈ records_of s' name) as Hst.
  { unfold records_of. rewrite Hd. simpl. unfold compact_acked. destruct (s_retain_acked_messages sub); [done|].
    apply elem_of_lfilter. split; [|done]. rewrite Ed. simpl. by destruct Hfree as [-> _]. }
  unfold leased_to. cbv zeta. rewrite Hid. split_and!.
  - destruct (store_ok_entry (proj1 (proj2 Hw')) name) as [Hf _]. rewrite Forall_forall in Hf.
    destruct (Hf d' Hst) as (_ & _ & Hhas). rewrite Ed in Hhas. destruct Hhas as [m Hm']; [apply Hfree|]. simpl in Hm'.
    pose proof (lookup_weaken _ _ _ _ Hm' Hsub) as E1. pose proof (lookup_weaken _ _ _ _ Hm Hms) as E2. congruence.
  - apply list_elem_of_lookup in Hr as [i Hi]. pose proof (lookup_lt_Some _ _ _ Hi) as Hlt.
    destruct (ps_numbers _ _ _ _ _ _ _ _ _ _ Hp _ _ Hi) as (y & Hy & Ey).
    destruct (store_ok_message (proj1 (proj2 Hw)) _ _ Hy) as [Ey' _]. rewrite Hid in Ey'. rewrite Ey'.
    exists (pl_ack_id (start_loop s sub now_secs (records_of s name) t) + 1 + Z.of_nat i). split; [done|].
    rewrite Ena, En, (ps_acks _ _ _ _ _ _ _ _ _ _ Hp). simpl. rewrite <- Eack. lia.
  - exists d'. split_and!; [done|by rewrite Ed|by rewrite Ed|rewrite Ed; apply Hfree|by rewrite Ed|].
    intros Hok t'. by eapply handed_lease.
  - intros d0 Hd0 Hid0. exact (begun_free now_secs s0 s name d0 d Hw0 Hb Hd0 Hin Hid0 Hfree).
Qed.

(** The records stored, persisted. *)
Lemma stored_fields name rs a b s1 :
  let s' := set_flags a b (pruned (store_records name rs s1)) in
  deliveries s' !! name = Some rs /\ messages s' ⊆ messages s1 /\ next_ack_id s' = next_ack_id s1.
Proof.
  cbv zeta. destruct (pruned_eq (store_records name rs s1)) as (m & ms & -> & Hms). simpl.
  split_and!; [apply lookup_insert_eq| |done].
  destruct Hms as [-> | ->]; [done|]. apply (live_messages_sub (store_records name rs s1)).
Qed.
Lemma stored_wf name rs a b s s1 :
  wf s1 -> drifted s s1 -> is_Some (subscriptions s !! name) -> entry_ok (messages s1) (next_message_id s1) (next_ack_id s1) rs ->
  wf (set_flags a b (pruned (store_records name rs s1))).
Proof.
  intros Hw Hd Hs He. apply (wf_pruned (store_records name rs s1)), wf_store_records; [|done|done].
  by rewrite (drifted_subscriptions _ _ Hd).
Qed.

(** The receptions and the queue, after a pull of the ordered subscription. *)
Definition in_order (name : string) (s' : Server) (received : list Received) : Prop :=
  Forall (fun r => forall k, nonempty_key (rc_message r) = Some k ->
    exists before d after, records_of s' name = (before ++ d :: after)%list /\ d_ack_id d = rc_ack_id r
      /\ Forall (fun x => key_of_record s' x = Some k -> d_acked x = true) before) received.
Lemma leased_key_blocked s sub now_secs l x k :
  x ∈ l -> d_acked x = false -> leased now_secs x = true -> record_key s sub x = Some k ->
  k ∈ leased_keys s sub now_secs l.
Proof.
  intros Hx Ha Hl Hk. unfold leased_keys. unfold record_key, order_key in Hk.
  destruct (s_enable_message_ordering sub); [|by destruct (messages s !! _)].
  set (f := fun (keys : gset string) d => _). assert (forall l keys, k ∈ keys -> k ∈ foldl f keys l) as Hmono.
  { clear. induction l as [|d l IH]; intros keys Hk; simpl; [done|]. apply IH. unfold f.
    destruct (d_acked d || _); [done|]. destruct (key_of_record s d); simpl; set_solver. }
  generalize (∅ : gset string). induction l as [|d l IH]; intros keys; [by apply not_elem_of_nil in Hx|].
  apply elem_of_cons in Hx as [<- | Hx]; simpl; [|by apply IH]. apply Hmono. unfold f at 1. rewrite Ha, Hl. simpl.
  unfold key_of_record. assert (messages s !! d_message_id x ≫= nonempty_key = Some k) as -> by exact Hk.
  simpl. set_solver.
Qed.
Lemma pass_in_order name sub max now_secs ack s s1 s' records received :
  wf s -> pulled_pass name sub max now_secs ack s s1 records received ->
  s_enable_message_ordering sub = true ->
  wf s' -> deliveries s' !! name = Some (compact_acked records (s_retain_acked_messages sub)) ->
  messages s' ⊆ messages s1 -> in_order name s' received.
Proof.
  intros Hw (_ & Hms & t & st & Hp & _) Ho Hw' Hd Hsub. unfold in_order.
  eapply Forall_impl; [exact (ps_order _ _ _ _ _ _ _ _ _ _ Hp)|]. intros r Hr k Hk.
  assert (order_key sub (rc_message r) = Some k) as Hk' by (unfold order_key; by rewrite Ho).
  destruct (Hr k Hk') as (Hni & pre & d & suf & El & Eid & Hu & Hpre). simpl in Hni.
  assert (exists pre' suf', compact_acked records (s_retain_acked_messages sub) = (pre' ++ d :: suf')%list
    /\ forall x, x ∈ pre' -> x ∈ pre) as (pre' & suf' & Ec & Hin).
  { rewrite El. unfold compact_acked. destruct (s_retain_acked_messages sub); [by exists pre, suf|].
    rewrite List.filter_app. simpl. rewrite Hu. simpl. do 2 eexists. split; [done|]. by intros x [_ ?]%elem_of_lfilter. }
  exists pre', d, suf'. split_and!; [|done|]. { unfold records_of. by rewrite Hd. }
  rewrite Forall_forall in *. intros x Hx Hkx. destruct (d_acked x) eqn:Ea; [done|]. exfalso.
  assert (record_key s sub x = Some k) as Hkey.
  { unfold record_key, order_key. rewrite Ho. unfold key_of_record in Hkx.
    destruct (messages s' !! d_message_id x) as [m|] eqn:Em; [|done].
    assert (messages s1 !! d_message_id x = Some m) as Em1 by (by eapply lookup_weaken).
    assert (is_Some (messages s !! d_message_id x)) as [m0 Em0].
    { assert (x ∈ records) as Hxr by (rewrite El; apply elem_of_app; left; auto).
      apply list_elem_of_lookup in Hxr as [i Hi].
      destruct (Forall2_lookup_r _ _ _ _ _ (ps_records _ _ _ _ _ _ _ _ _ _ Hp) Hi) as (x0 & Hx0 & -> & Ha0).
      destruct (store_ok_entry (proj1 (proj2 Hw)) name) as [Hf _]. rewrite Forall_forall in Hf.
      apply list_elem_of_lookup_2, Hf in Hx0 as (_ & _ & Hh). by apply Hh, Ha0. }
    pose proof (lookup_weaken _ _ _ _ Em0 Hms) as E2. rewrite Em0. simpl in *. congruence. }
  destruct (Hpre x (Hin x Hx) Hkey) as [?|[Hxl Hl]]; [congruence|].
  apply Hni. by eapply leased_key_blocked.
Qed.

Lemma pull_batch_exact name sub max s :
  wf s -> fits 0 s -> subscriptions s !! name = Some sub ->
  yields s (pull_batch name sub max) (fun received s' =>
    pull_outcome name max (sub_ack_deadline (config s) sub) s received s'
    /\ (s_enable_message_ordering sub = true -> in_order name s' received)).
Proof.
  intros Hw Hfit Hs. unfold pull_batch. apply yields_begin_pull; [done|]. intros n s1 Hb. pose proof Hb as ((Hw1 & Hd1 & Hs1) & _).
  apply yields_pull_core; [done|by eapply fits_shrunk|]. intros received records s2 Hp. pose proof Hp as ((Hw2 & Hd2 & He) & _).
  do 3 yields_step. set (recs := compact_acked _ _).
  match goal with |- context [set_flags ?a ?b _] =>
    pose proof (stored_fields name recs a b s2) as (Hdel & Hsub & Hack);
    pose proof (stored_wf name recs a b s s2 Hw2 (drifted_trans _ _ _ Hd1 Hd2) ltac:(eauto) (entry_ok_compact _ _ _ _ _ He)) as Hw' end.
  split.
  - exists n. pose proof Hp as (_ & _ & t & st & Hpass & _). split_and!.
    + intros Hmax. pose proof (ps_count _ _ _ _ _ _ _ _ _ _ Hpass) as Hc. rewrite (ps_received _ _ _ _ _ _ _ _ _ _ Hpass) in Hc.
      by apply Hc.
    + eapply passed_fresh_acks; [|exact Hpass]. apply Hw1.
    + by eapply pass_leased.
  - intros Ho. exact (pass_in_order name sub max n _ s1 s2 _ records received Hw1 Hp Ho Hw' Hdel Hsub).
Qed.

(** C13: a pull from a subscription with message ordering returns no message with an ordering
    key before every earlier message of the key is acknowledged: whatever stands before
    it in the queue with that key has been. *)
Theorem pull_in_order name max w received w' sub :
  wf (server w) -> fits 0 (server w) -> subscriptions (server w) !! name = Some sub ->
  s_enable_message_ordering sub = true -> grpc_pull name max w = (Ok received, w') ->
  in_order name (server w') received.
Proof.
  intros Hw Hfit Hs Ho. apply (yields_run (grpc_pull name max) (fun received s' => in_order name s' received)). unfold grpc_pull. yields_step. apply yields_found. intros v Hv.
  assert (v = sub) as -> by congruence. do 2 yields_step. rewrite (wf_sub_named _ Hw _ _ Hs).
  eapply yields_mono; [by apply pull_batch_exact|]. intros received' s' [_ Hp]. by apply Hp.
Qed.
End Pulls.
