(* ===== verification/PubAck.v ===== *)
(** Acknowledging and extending leases, the delay between attempts, and the flow
    control of a streaming pull. *)

From S2P Require Import Prelude RustStr RustNum RustText Json PubTime PubModel PubValidation PubResources PubGrpc PubMessages PubSystem PubInvariant PubCalls PubFlows PubRun PubDelivery PubPull.
Local Open Scope string_scope.
Local Open Scope Z_scope.

(** ** Acknowledging *)

Section Acks.
Context `{Env, SerdeJson, SerdePretty, DebugStr}.




Lemma compact_sub rs b d : d ∈ compact_acked rs b -> d ∈ rs.
Proof. unfold compact_acked. destruct b; [done|]. by rewrite elem_of_lfilter; intros [_ ?]. Qed.

End Acks.

(** ** Retry delays *)

(** The delay doubles with every attempt, up to the maximum. *)
Lemma backoff_loop_closed rounds max b :
  0 <= b <= i64_max -> (forall m, max = Some m -> 0 <= m <= i64_max) ->
  backoff_loop rounds max b = Z.min (default i64_max max) (b * 2 ^ Z.of_nat rounds).
Proof.
  intros Hb Hm. revert b Hb. induction rounds as [|r IH]; intros b Hb; simpl.
  - destruct max as [m|]; simpl; [destruct (Z.ltb_spec m b)|]; lia.
  - rewrite Nat2Z.inj_succ, Z.pow_succ_r, Z.mul_assoc by lia. pose proof (Z.pow_pos_nonneg 2 (Z.of_nat r) ltac:(lia) ltac:(lia)) as Hp.
    assert (0 <= saturate_i64 (b * 2) <= i64_max) as Hs by (unfold saturate_i64, i64_min, i64_max in *; lia).
    assert (Z.min i64_max (saturate_i64 (b * 2) * 2 ^ Z.of_nat r) = Z.min i64_max (b * 2 * 2 ^ Z.of_nat r)) as Hsat.
    { unfold saturate_i64. destruct (Z.le_gt_cases (b * 2) i64_max) as [Hle|Hgt].
      - f_equal. f_equal. unfold i64_min, i64_max in *. lia.
      - unfold i64_min, i64_max in *. nia. }
    destruct max as [m|]; simpl; rewrite !IH by done; simpl; [|done].
    specialize (Hm m eq_refl). destruct (Z.leb_spec m b) as [Hle|Hgt]; [nia|]. unfold i64_max in *. lia.
Qed.

Section Retry.
Context `{Build}.

(** when the lease of a message runs out, the next attempt waits from the lease's end
    for the subscription's minimum backoff, doubled for every attempt so far but the
    first, and never longer than the maximum; until then the record is not delivered. *)
Theorem retry_delay_exact s name sub now_secs d d' min :
  subscriptions s !! name = Some sub ->
  policy_backoff_secs (s_retry_policy sub) "minimumBackoff" = Some min -> 0 < min <= i64_max ->
  (forall m, policy_backoff_secs (s_retry_policy sub) "maximumBackoff" = Some m -> 0 < m <= i64_max) ->
  let delay := Z.min (default i64_max (policy_backoff_secs (s_retry_policy sub) "maximumBackoff"))
                 (min * 2 ^ Z.of_nat (Z.to_nat (d_delivery_attempt d - 1))) in
  secs_ok (unix_secs (d_lease_deadline d) + delay) ->
  lease_expired now_secs d = true -> expire_record s name now_secs d = Ok d' ->
  d_ack_id d' = "" /\ d_acked d' = false
  /\ forall t, after (d_next_delivery_time d') t = (t <? unix_secs (d_lease_deadline d) + delay).
Proof.
  intros Hs Hmin Hpos Hmax delay Hok Hl. unfold expire_record. rewrite Hl. unfold retry_backoff. rewrite Hs, Hmin.
  rewrite backoff_loop_closed by (try lia; intros m Hm; specialize (Hmax m Hm); lia). fold delay.
  assert (0 < delay) as Hd.
  { subst delay. pose proof (Z.pow_pos_nonneg 2 (Z.of_nat (Z.to_nat (d_delivery_attempt d - 1))) ltac:(lia) ltac:(lia)).
    destruct (policy_backoff_secs _ "maximumBackoff") as [m|]; simpl; [specialize (Hmax m eq_refl)|unfold i64_max in *]; nia. }
  destruct (Z.ltb_spec 0 delay); [|lia]. destruct (plus_seconds _ delay) as [t| |] eqn:Et; cbn [mbind outcome_bind]; [|done..].
  intros [= <-]. simpl. split_and!; [done| |].
  - unfold lease_expired in Hl. by apply negb_true_iff, orb_false_iff in Hl as [[? _]%orb_false_iff _].
  - intros t'. by eapply after_plus_seconds.
Qed.
End Retry.

(** ** Streaming pull *)

Section Streams.
Context `{Env, SerdeJson, SerdePretty, DebugStr}.

Definition total (l : list (string * Z)) : Z := foldr (fun e n => e.2 + n) 0 l.
#[local] Instance total_proper : Proper ((≡ₚ) ==> eq) total.
Proof. intros l l' Hp. induction Hp; simpl; lia. Qed.
Lemma bytes_total (o : gmap string Z) : streaming_outstanding_bytes o = total (map_to_list o).
Proof.
  unfold streaming_outstanding_bytes.
  assert (forall l a, foldl (fun n (e : string * Z) => n + e.2) a l = a + total l) as ->.
  { induction l as [|e l IH]; intros a; simpl; [lia|]. rewrite IH. lia. }
  simpl. unfold btree_iter. by rewrite merge_sort_Permutation.
Qed.
Definition sizes_ok (o : gmap string Z) : Prop := map_Forall (fun _ n => 0 <= n) o.
Lemma bytes_delete_le k o : sizes_ok o -> streaming_outstanding_bytes (delete k o) <= streaming_outstanding_bytes o.
Proof.
  intros Ho. rewrite !bytes_total. destruct (o !! k) as [v|] eqn:E; [|by rewrite delete_id].
  rewrite <- (map_to_list_delete o k v E). simpl. specialize (Ho k v E). simpl in Ho. lia.
Qed.
Lemma bytes_insert_le k v o :
  sizes_ok o -> streaming_outstanding_bytes (<[k := v]> o) <= streaming_outstanding_bytes o + v.
Proof.
  intros Ho. pose proof (bytes_delete_le k o Ho) as Hd. rewrite <- insert_delete_eq, bytes_total, map_to_list_insert by apply lookup_delete_eq.
  simpl. rewrite <- bytes_total. lia.
Qed.

(** Recording a batch as outstanding. *)
Definition hold (o : gmap string Z) (received : list Received) : gmap string Z :=
  foldl (fun m r => <[rc_ack_id r := received_size r]> m) o received.
Definition batch_size (l : list Received) : Z := foldr (fun r n => received_size r + n) 0 l.
Lemma attributes_size_nonneg m : 0 <= attributes_size m.
Proof.
  unfold attributes_size. assert (forall l a, 0 <= a -> 0 <= foldl (fun n (e : string * string) => n + (str_len e.1 + str_len e.2)) a l) as Hl; [|by apply Hl].
  induction l as [|e l IH]; intros a Ha; simpl; [done|]. apply IH. unfold str_len. lia.
Qed.
Lemma received_size_nonneg r : 0 <= received_size r.
Proof.
  unfold received_size, streaming_received_message_size. pose proof (attributes_size_nonneg (m_attributes (rc_message r))).
  unfold str_len. destruct (decode_base64_bytes _); lia.
Qed.
Lemma hold_bounds o received :
  sizes_ok o -> sizes_ok (hold o received)
  /\ streaming_outstanding_bytes (hold o received) <= streaming_outstanding_bytes o + batch_size received
  /\ (size (hold o received) <= size o + length received)%nat.
Proof.
  revert o. induction received as [|r l IH]; intros o Ho; simpl; [split_and!; [done|lia|lia]|].
  assert (sizes_ok (<[rc_ack_id r := received_size r]> o)) as Ho' by (apply map_Forall_insert_2; [apply received_size_nonneg|done]).
  destruct (IH _ Ho') as (? & ? & ?). pose proof (bytes_insert_le (rc_ack_id r) (received_size r) o Ho).
  assert (size (<[rc_ack_id r := received_size r]> o) <= S (size o))%nat.
  { destruct (o !! rc_ack_id r) eqn:E; [rewrite map_size_insert_Some by eauto; lia|by rewrite map_size_insert_None]. }
  split_and!; [done|lia|lia].
Qed.

(** What fits the budget, the first message apart. *)
Lemma fitting_size l remaining : batch_size (take (fitting false l remaining) l) <= Z.max 0 remaining.
Proof.
  revert remaining. induction l as [|r l IH]; intros remaining; simpl; [lia|]. pose proof (received_size_nonneg r).
  destruct (Z.ltb_spec remaining (received_size r)); simpl; [lia|]. specialize (IH (remaining - received_size r)). lia.
Qed.
Lemma fitting_first l remaining : 0 <= remaining ->
  let kept := take (fitting true l remaining) l in batch_size kept <= remaining \/ (length kept <= 1)%nat.
Proof.
  intros Hr. destruct l as [|r l]; simpl; [lia|]. rewrite andb_false_r. simpl.
  destruct (Z.le_gt_cases (received_size r) remaining) as [Hle|Hgt].
  - left. pose proof (fitting_size l (remaining - received_size r)). lia.
  - right. destruct l as [|r' l]; simpl; [lia|]. pose proof (received_size_nonneg r').
    destruct (Z.ltb_spec (remaining - received_size r) (received_size r')); simpl; lia.
Qed.

(** The budget of a batch: so many messages, so many bytes or a single message. *)
Definition within (max max_bytes bytes : Z) (received : list Received) : Prop :=
  (0 <= max -> Z.of_nat (length received) <= max)
  /\ (0 < max_bytes -> bytes <= max_bytes ->
     batch_size received <= max_bytes - bytes \/ (length received <= 1)%nat).
Lemma trim_within max max_bytes bytes received records :
  (0 <= max -> Z.of_nat (length received) <= max) ->
  within max max_bytes bytes (trim_batch max_bytes bytes received records).1.
Proof.
  intros Hl. unfold trim_batch. destruct (Z.ltb_spec 0 max_bytes); simpl; [|by split; [|lia]]. split.
  - intros Hm. rewrite length_take. specialize (Hl Hm). lia.
  - intros _ Hb. apply fitting_first. lia.
Qed.
Lemma yields_grpc_streaming_response name max ack max_bytes bytes s :
  wf s -> fits 0 s ->
  yields s (grpc_streaming_response name max ack max_bytes bytes) (fun received _ => within max max_bytes bytes received).
Proof.
  intros Hw Hfit. assert (within max max_bytes bytes []) as H0' by (split; simpl; lia).
  unfold grpc_streaming_response. apply yields_found. intros sub Hs. do 2 yields_step.
  destruct (records_of s _); [by yields_step|]. apply yields_begin_pull; [done|]. intros n s1 ((Hw1 & _ & Hs1) & _).
  apply yields_pull_core; [done|by eapply fits_shrunk|]. intros received records s2 (_ & _ & t & st & Hp & _).
  destruct received as [|r received]; [by yields_step|].
  assert (0 <= max -> Z.of_nat (length (r :: received)) <= max) as Hl.
  { intros Hm. pose proof (ps_count _ _ _ _ _ _ _ _ _ _ Hp) as Hc. rewrite (ps_received _ _ _ _ _ _ _ _ _ _ Hp) in Hc. by apply Hc. }
  pose proof (trim_within max max_bytes bytes (r :: received) records Hl) as Ht.
  destruct (trim_batch _ _ _ _) as [kept recs]. by do 3 yields_step.
Qed.
Lemma yields_prune_outstanding {B} s name o (f : gmap string Z -> Api B) P :
  wf s -> (forall o' s', o' ⊆ o -> cleaned s s' -> yields s' (f o') P) ->
  yields s (grpc_prune_outstanding name o ≫= f) P.
Proof.
  intros Hw Hf. apply (yields_bind _ _ _ (fun o' s' => o' ⊆ o /\ cleaned s s')); [|by intros o' s' [??]; apply Hf].
  unfold grpc_prune_outstanding. destruct (bool_decide (o = ∅)).
  { apply yields_ret. split; [done|]. split_and!; [done|apply drifted_refl|by split_and!]. }
  yields_step. match goal with |- yields _ (let '(_, _) := ?x in _) _ => destruct x as [n m] end.
  unfold expire_leases_now. apply yields_try. intros [] s1.
  destruct (expire_leases n s) as [s2| |] eqn:E; cbn [mbind outcome_bind]; [|done..]. intros [= <-].
  do 2 yields_step. split; [apply map_filter_subseteq|by eapply cleaned_expired].
Qed.

(** C27: the flow control of a streaming pull: a delivery tick that sends
    messages keeps what is outstanding on the stream within the client's limits, counted in messages, and in
    bytes unless the batch is a single message that is too large by itself; a stream at
    a limit is sent nothing. *)
Theorem stream_flow_control name max_messages max_bytes st w received st' w' :
  wf (server w) -> fits 0 (server w) -> sizes_ok (st_outstanding st) ->
  stream_tick name max_messages max_bytes st w = (Ok (received, st'), w') ->
  sizes_ok (st_outstanding st')
  /\ (received <> [] -> 0 < max_messages -> Z.of_nat (size (st_outstanding st')) <= max_messages)
  /\ (received <> [] -> 0 < max_bytes ->
      streaming_outstanding_bytes (st_outstanding st') <= max_bytes \/ length received = 1%nat)
  /\ (received = [] -> st_outstanding st' ⊆ st_outstanding st).
Proof.
  intros Hw Hfit Ho.
  apply (yields_run (stream_tick name max_messages max_bytes st) (fun r _ =>
    sizes_ok (st_outstanding r.2)
    /\ (r.1 <> [] -> 0 < max_messages -> Z.of_nat (size (st_outstanding r.2)) <= max_messages)
    /\ (r.1 <> [] -> 0 < max_bytes -> streaming_outstanding_bytes (st_outstanding r.2) <= max_bytes \/ length r.1 = 1%nat)
    /\ (r.1 = [] -> st_outstanding r.2 ⊆ st_outstanding st))).
  unfold stream_tick. apply yields_prune_outstanding; [done|]. intros o s' Hsub (Hw' & _ & Hs'). cbv zeta.
  assert (sizes_ok o) as Ho' by (intros k n Hk; eapply Ho, lookup_weaken; [exact Hk|done]).
  destruct (streaming_has_capacity o max_messages max_bytes) eqn:Hc; cbn [negb]; [|by yields_step].
  destruct (Z.leb_spec (streaming_remaining_capacity o max_messages) 0) as [?|Hrem]; [by yields_step|].
  eapply yields_bind; [apply yields_grpc_streaming_response; [done|by eapply fits_shrunk]|].
  intros received1 s2 [Hn Hb]. yields_step. simpl. fold (hold o received1).
  destruct (hold_bounds o received1 Ho') as (H1' & H2' & H3'). unfold streaming_has_capacity in Hc.
  apply andb_true_iff in Hc as [Hc1%negb_true_iff Hc2%negb_true_iff]. unfold streaming_remaining_capacity in *.
  split_and!; [done| | |].
  - intros _ Hm. destruct (Z.leb_spec max_messages 0); lia.
  - intros Hne Hm. destruct (Hb Hm) as [?|?]; [lia|left; lia|]. right. destruct received1 as [|? [|]]; simpl in *; [done|done|lia].
  - by intros ->.
Qed.
End Streams.
