(* ===== verification/PubDemo.v ===== *)
(** Concrete runs of the Pub/Sub service: the theorems applied to one, the pages of lists
    and the histories of schemas with theirs, and runs on which the service does what it
    does not mean to. *)

From S2P Require Import Prelude RustStr RustNum RustText Json PubTime PubModel PubValidation PubResources PubGrpc PubMessages PubSystem PubInvariant PubCalls PubFlows PubRun PubDelivery PubPull PubAck.
Local Open Scope string_scope.
Local Open Scope Z_scope.

(** A concrete run of the Pub/Sub service, at which the theorems with hypotheses are
    instantiated: a clock that advances a second per reading, a file system that fails
    when told to, and a reader of the one state file the run writes. *)

Definition no_file : ResourceFile := mkResourceFile [] [] [] [] [] ∅ 0 0.
(** [disk_fails t]: the [t]-th system call fails if it writes. *)
Definition demo_env (disk_fails : nat -> bool) (file : ResourceFile) : Env := {|
  env_build := {| overflow_checks := true |};
  sys_clock := fun t => (1700000000 + Z.of_nat t, 0);
  fs_create_dir_all := fun t => None;
  fs_write := fun t => if disk_fails t then Some "disk full" else None;
  fs_rename := fun t => None;
  fs_read := fun t => None;
  resource_from_slice := fun _ => inl file;
  message_from_slice := fun _ => inr "no message file";
  json_from_slice := fun _ => None;
  topic_from_value := fun _ => None;
  subscription_from_value := fun _ => None;
  schema_from_value := fun _ => None |}.
Definition works : Env := demo_env (fun _ => false) no_file.
#[export] Instance demo_json : SerdeJson := {| json_to_vec := fun _ => "" |}.
#[export] Instance demo_pretty : SerdePretty := {| json_to_vec_pretty := fun _ => "" |}.
#[export] Instance demo_debug : DebugStr := {| debug_str := fun s => s |}.

Definition demo_config : Config := mkConfig "p" "off" "" "state" "" 10 604800 600 100 false.
Definition topic_t : string := "projects/p/topics/t".
Definition sub_s : string := "projects/p/subscriptions/s".
Definition demo_topic (name : string) : Topic := mkTopic name ∅ "" "" "" None "".
Definition demo_sub (name topic : string) (ordered : bool) (filter : string) (dead_letter retry : option Value) : Subscription :=
  mkSub name topic false ∅ "" "" 10 ordered false false "" None filter dead_letter retry None.
Definition start : World := mkWorld (empty_server demo_config) None None 0.
Definition serve `{Env, SerdeJson, SerdePretty, DebugStr} (calls : list Call) (w : World) : World := foldl (fun w c => (run c w).2) w calls.
Definition ordered_calls : list Call :=
  [CreateTopic (demo_topic topic_t); CreateSubscription (demo_sub sub_s topic_t true "" None None)].
Definition msg (data key : string) : Incoming := mkIncoming data ∅ key.
Definition setup : World := serve (H := works) ordered_calls start.

(** Whatever the calls, the server they reach is well-formed: the build checks for
    overflow, so the counters have room. *)
Lemma demo_fits fails file k s : fits (H := @env_build (demo_env fails file)) k s.
Proof. split; [by left|]. intros sub. split; by left. Qed.
Lemma demo_wf fails file calls w :
  wf (server w) -> wf (server (serve (H := demo_env fails file) calls w)).
Proof.
  revert w. induction calls as [|c l IH]; intros w Hw; [done|]. simpl. apply IH.
  exact (proj1 (keeps_run (H := demo_env fails file) c (server w) Hw (demo_fits fails file _ _) w eq_refl)).
Qed.
Lemma setup_wf : wf (server setup).
Proof. apply (demo_wf _ _ ordered_calls start), wf_empty. Qed.

(** ** Witnesses *)

Definition two : list Incoming := [msg "aGk=" "k"; msg "eW8=" "k"].
Definition publish_two : Call := Publish topic_t two.
Definition sent_two : World := serve (H := works) [publish_two] setup.
Definition pulled_one : World := serve (H := works) [Pull sub_s 10] sent_two.
Definition acked_one : World := serve (H := works) [Acknowledge sub_s ["1-1"]] pulled_one.
Lemma sent_two_wf : wf (server sent_two).
Proof. apply (demo_wf _ _ [publish_two]), setup_wf. Qed.

Lemma pubsub_invariant_witness : wf (server acked_one).
Proof.
  apply (pubsub_invariant (H := works) start acked_one); [reflexivity|].
  assert (forall calls w, rtc (step (H := works)) w (serve (H := works) calls w)) as Hs.
  { induction calls as [|c l IH]; intros w; [apply rtc_refl|].
    eapply rtc_l; [apply StepCall, demo_fits|apply IH]. }
  unfold acked_one, pulled_one, sent_two, setup.
  etrans; [|apply Hs]. etrans; [|apply Hs].
  etrans; [|apply Hs]. apply Hs.
Defined.

(** The disk fills up at the write of the publish. *)
Definition full : Env := demo_env (fun t => (7 <? t)%nat) no_file.
Lemma refused_call_undone_witness :
  fst (run (H := full) publish_two setup) = Err store_unavailable
  /\ same (server setup) (server (run (H := full) publish_two setup).2).
Proof.
  assert (fst (run (H := full) publish_two setup) = Err store_unavailable) as E by (vm_compute; reflexivity).
  split; [exact E|].
  apply (refused_call_undone (H := full) publish_two setup setup_wf (demo_fits _ _ _ _) eq_refl). by rewrite E.
Defined.

Lemma publish_exact_witness : publish_outcome topic_t two (server setup) ["1"; "2"] (server sent_two).
Proof.
  apply (publish_exact (H := works) topic_t two setup ["1"; "2"] sent_two setup_wf (demo_fits _ _ _ _)).
  vm_compute. reflexivity.
Defined.

Definition first_received : list Received :=
  match run (H := works) (Pull sub_s 10) sent_two with (Ok (RReceived l), _) => l | _ => [] end.
Definition ordered_sub : Subscription :=
  default default_subscription (subscriptions (server sent_two) !! sub_s).
Lemma pull_in_order_witness : in_order sub_s (server pulled_one) first_received.
Proof.
  apply (pull_in_order (H := works) sub_s 10 sent_two first_received pulled_one ordered_sub sent_two_wf (demo_fits _ _ _ _)).
  - vm_compute. reflexivity.
  - vm_compute. reflexivity.
  - vm_compute. reflexivity.
Defined.

Definition retrying : Value := JObject [("minimumBackoff", JString "10s"); ("maximumBackoff", JString "600s")].
Definition retry_sub : Subscription := demo_sub sub_s topic_t false "" None (Some retrying).
Definition retry_server : Server := set_subscriptions {[ sub_s := retry_sub ]} (empty_server demo_config).
Definition third_attempt : DeliveryRecord := mkDelivery "1" "1-3" "2023-11-14T22:13:20Z" ZERO_TIME 3 false.
Definition delayed : DeliveryRecord := mkDelivery "1" "" ZERO_TIME "2023-11-14T22:14:00Z" 3 false.
Lemma retry_delay_exact_witness :
  d_acked delayed = false
  /\ forall t, PubTime.after (d_next_delivery_time delayed) t = (t <? 1700000000 + 40).
Proof.
  pose proof (retry_delay_exact (H := @env_build works) retry_server sub_s retry_sub 1700000005 third_attempt delayed 10) as Hd.
  assert (unix_secs (d_lease_deadline third_attempt) = 1700000000) as Eu by (vm_compute; reflexivity).
  assert (policy_backoff_secs (s_retry_policy retry_sub) "maximumBackoff" = Some 600) as Em by (vm_compute; reflexivity).
  cbv zeta in Hd. rewrite Eu, Em in Hd.
  change (Z.min (default i64_max (Some 600)) (10 * 2 ^ Z.of_nat (Z.to_nat (d_delivery_attempt third_attempt - 1)))) with 40 in Hd.
  destruct Hd as (_ & Ha & Ht); [vm_compute; reflexivity|vm_compute; reflexivity|done| | |vm_compute; reflexivity|vm_compute; reflexivity|].
  - by intros m [= <-].
  - split; [vm_compute; reflexivity|vm_compute; discriminate].
  - split; [exact Ha|exact Ht].
Defined.

Definition empty_stream : Stream := mkStream 10 ∅.
Definition ticked : result ApiError (list Received * Stream) * World :=
  stream_tick (H := works) sub_s 1 4096 empty_stream sent_two.
Definition ticked_batch : list Received * Stream := match ticked.1 with Ok r => r | _ => ([], empty_stream) end.
Lemma stream_flow_control_witness :
  map rc_ack_id ticked_batch.1 = ["1-1"] /\ Z.of_nat (size (st_outstanding ticked_batch.2)) <= 1.
Proof.
  assert (map rc_ack_id ticked_batch.1 = ["1-1"]) as E by (vm_compute; reflexivity). split; [exact E|].
  assert (stream_tick (H := works) sub_s 1 4096 empty_stream sent_two = (Ok (ticked_batch.1, ticked_batch.2), ticked.2)) as Et
    by (vm_compute; reflexivity).
  destruct (stream_flow_control (H := works) sub_s 1 4096 empty_stream sent_two ticked_batch.1 ticked_batch.2 ticked.2
    sent_two_wf (demo_fits _ _ 0 (server sent_two)) (map_Forall_empty _) Et) as (_ & Hn & _).
  apply Hn; [|lia]. intros E0. rewrite E0 in E. discriminate E.
Defined.

(** A restart that reads the file the publish has written. *)
Definition sent_file : ResourceFile := resource_file true (server sent_two).
Definition rereads : Env := demo_env (fun _ => false) sent_file.
Lemma published_survives_witness :
  exists w2, new (H := rereads) demo_config sent_two = (Ok tt, w2)
    /\ map d_message_id (records_of (server w2) sub_s) = ["1"; "2"].
Proof.
  destruct (published_survives (H := rereads) topic_t two setup ["1"; "2"] sent_two setup_wf) as (w2 & Hn & Hs & _).
  - vm_compute. repeat split.
  - apply demo_fits.
  - vm_compute. reflexivity.
  - reflexivity.
  - discriminate.
  - vm_compute. reflexivity.
  - reflexivity.
  - reflexivity.
  - exists w2. split; [exact Hn|]. rewrite Hs, records_restarted. vm_compute. reflexivity.
Defined.

(** Lists and histories: following the page tokens of a list yields it whole, and a
    schema's rollback restores a revision without losing one. *)

(** ** Pages *)

(** A client that follows the tokens, for at most [fuel] pages. *)
Fixpoint follow {A} (fuel : nat) (size : Z) (token : string) (l : list A) : list (list A) :=
  match fuel with
  | O => []
  | S fuel' =>
      match grpc_page_bounds (Z.of_nat (length l)) size token with
      | Ok (start, stop, next) => slice start stop l :: (if is_empty next then [] else follow fuel' size next l)
      | _ => []
      end
  end.
Definition page_limit (size total : Z) : Z := if (0 <? size) && (size <? total) then size else total.

Lemma grpc_page_bounds_at total size p :
  0 <= p <= total -> total <= i64_max ->
  grpc_page_bounds total size (show_Z p)
  = Ok (p, Z.min (p + page_limit size total) total,
        if Z.min (p + page_limit size total) total <? total then show_Z (Z.min (p + page_limit size total) total) else "").
Proof.
  intros Hp Ht. unfold grpc_page_bounds. destruct (is_empty (show_Z p)) eqn:E.
  { apply is_empty_true in E. by apply show_Z_nonempty in E; [|lia]. }
  unfold parse_i64. rewrite parse_show_Z by (unfold i64_min; lia).
  assert ((0 <=? p) && (p <=? total) = true) as -> by lia. done.
Qed.
Lemma slice_drop {A} p q (l : list A) : 0 <= p <= q -> (slice p q l ++ drop (Z.to_nat q) l)%list = drop (Z.to_nat p) l.
Proof.
  intros Hq. unfold slice. replace (Z.to_nat q) with (Z.to_nat p + Z.to_nat (q - p))%nat by lia.
  rewrite <- drop_drop. apply take_drop.
Qed.
Lemma length_slice {A} p q (l : list A) : (length (slice p q l) <= Z.to_nat (q - p))%nat.
Proof. unfold slice. rewrite length_take. lia. Qed.
Lemma follow_from {A} (l : list A) size fuel p :
  Z.of_nat (length l) <= i64_max -> 0 <= p < Z.of_nat (length l) -> Z.of_nat (length l) - p <= Z.of_nat fuel ->
  concat (follow fuel size (show_Z p) l) = drop (Z.to_nat p) l
  /\ Forall (fun page => Z.of_nat (length page) <= page_limit size (Z.of_nat (length l))) (follow fuel size (show_Z p) l).
Proof.
  intros Hmax. revert p. induction fuel as [|fuel IH]; intros p Hp Hf; [lia|]. cbn [follow].
  rewrite grpc_page_bounds_at by lia. set (total := Z.of_nat (length l)) in *. set (q := Z.min _ total).
  assert (q = Z.min (p + page_limit size total) total) as Eq by done. clearbody q.
  assert (0 < page_limit size total) as Hlim by (unfold page_limit; destruct ((0 <? size) && (size <? total)) eqn:E; lia).
  assert (p < q <= total) as Hq by lia. pose proof (length_slice p q l) as Hlen.
  destruct (Z.ltb_spec q total).
  - destruct (is_empty (show_Z q)) eqn:E.
    { apply is_empty_true in E. by apply show_Z_nonempty in E; [|lia]. }
    destruct (IH q ltac:(lia) ltac:(lia)) as [Hc Hall]. simpl. rewrite Hc. split; [apply slice_drop; lia|].
    constructor; [lia|done].
  - assert (q = total) as -> by lia. simpl. split; [|constructor; [lia|constructor]].
    rewrite app_nil_r, <- (slice_drop p total l) by lia. rewrite (drop_ge l (Z.to_nat total)) by lia. by rewrite app_nil_r.
Qed.

(** following the page tokens of a gRPC list from the first page yields every
    element once, in order, in pages of at most the requested size, within as many pages as
    there are elements. *)
Theorem grpc_pages_complete {A} (l : list A) size :
  Z.of_nat (length l) <= i64_max ->
  concat (follow (S (length l)) size "" l) = l
  /\ Forall (fun page => Z.of_nat (length page) <= page_limit size (Z.of_nat (length l))) (follow (S (length l)) size "" l).
Proof.
  intros Hmax. assert (follow (S (length l)) size "" l = follow (S (length l)) size (show_Z 0) l) as ->.
  { cbn [follow]. by rewrite grpc_page_bounds_at by lia. }
  destruct l as [|x l].
  - cbn [follow]. rewrite grpc_page_bounds_at by (unfold i64_max; simpl; lia).
    assert (page_limit size (Z.of_nat (length (@nil A))) = 0) as ->.
    { change (page_limit size 0 = 0). unfold page_limit. destruct (Z.ltb_spec 0 size), (Z.ltb_spec size 0); simpl; lia. }
    simpl. split; [done|]. constructor; [simpl; lia|constructor].
  - apply follow_from; [done|simpl; lia|simpl; lia].
Qed.
Lemma grpc_pages_complete_witness :
  concat (follow 4 2 "" ["a"; "b"; "c"]) = ["a"; "b"; "c"] /\ length (follow 4 2 "" ["a"; "b"; "c"]) = 2%nat.
Proof. split; [|reflexivity]. apply (grpc_pages_complete ["a"; "b"; "c"] 2). vm_compute. discriminate. Defined.

(** ** Schema revisions *)

Lemma max_revision_id_ge l r n :
  r ∈ l -> parse_i64 (rv_revision_id r) = Some n -> n <= max_revision_id l.
Proof.
  intros Hr Hn. unfold max_revision_id. set (f := fun max r => _).
  assert (forall l a, a <= foldl f a l) as Hmono.
  { clear. induction l as [|x l IH]; intros a; simpl; [done|]. etrans; [|apply IH]. unfold f.
    destruct (parse_i64 _) as [i|]; [|done]. destruct (Z.ltb_spec a i); lia. }
  generalize 0. induction l as [|x l IH]; intros a; [by apply not_elem_of_nil in Hr|]. simpl.
  apply elem_of_cons in Hr as [<- | Hr]; [|by apply IH]. etrans; [|apply Hmono]. unfold f. rewrite Hn.
  destruct (Z.ltb_spec a n); lia.
Qed.
Lemma max_revision_id_nonneg l : 0 <= max_revision_id l.
Proof.
  unfold max_revision_id. assert (forall a, 0 <= a -> 0 <= foldl (fun max r => match parse_i64 (rv_revision_id r) with
    | Some id => if max <? id then id else max | None => max end) a l) as Hl; [|by apply Hl].
  induction l as [|x l IH]; intros a Ha; simpl; [done|]. apply IH. destruct (parse_i64 _) as [i|]; [|done].
  destruct (Z.ltb_spec a i); lia.
Qed.
Lemma next_revision_fresh `{Build} l id :
  max_revision_id l < i64_max -> grpc_next_revision_id l = Ok id -> id <> "" /\ forall r, r ∈ l -> rv_revision_id r <> id.
Proof.
  intros Hlt. pose proof (max_revision_id_nonneg l) as H0'. unfold grpc_next_revision_id, checked_i64.
  assert (in_i64 (max_revision_id l + 1) = true) as -> by (unfold in_i64, i64_min, i64_max in *; lia).
  cbn [mbind outcome_bind]. intros [= <-]. split; [apply show_Z_nonempty; lia|]. intros r Hr E.
  assert (parse_i64 (rv_revision_id r) = Some (max_revision_id l + 1)) as Hp.
  { rewrite E. unfold parse_i64. apply parse_show_Z. unfold i64_min. lia. }
  apply (max_revision_id_ge l r _ Hr) in Hp. lia.
Qed.

Section Schemas.
Context `{Env, SerdeJson, SerdePretty, DebugStr}.

(** an accepted rollback adds one revision to the history, under an id none of the
    others has, with the type and definition of the revision that was named, makes it
    the schema's current one, and keeps every revision there was. *)
Theorem rollback_schema_exact name rid sc w r w' :
  wf (server w) -> schemas (server w) !! name = Some sc ->
  max_revision_id (grpc_schema_revisions sc) < i64_max ->
  grpc_rollback_schema name rid w = (Ok r, w') ->
  exists target new sc',
    (target ∈ grpc_schema_revisions sc /\ rv_revision_id target = rid)
    /\ (rv_type new = rv_type target /\ rv_definition new = rv_definition target)
    /\ (forall old, old ∈ grpc_schema_revisions sc -> rv_revision_id old <> rv_revision_id new)
    /\ schemas (server w') !! name = Some sc'
    /\ sc_revisions sc' = (grpc_schema_revisions sc ++ [new])%list
    /\ grpc_current_revision sc' = new.
Proof.
  intros Hw Hs Hmax. apply (yields_run (grpc_rollback_schema name rid) (fun _ s' => exists target new sc',
    (target ∈ grpc_schema_revisions sc /\ rv_revision_id target = rid)
    /\ (rv_type new = rv_type target /\ rv_definition new = rv_definition target)
    /\ (forall old, old ∈ grpc_schema_revisions sc -> rv_revision_id old <> rv_revision_id new)
    /\ schemas s' !! name = Some sc'
    /\ sc_revisions sc' = (grpc_schema_revisions sc ++ [new])%list
    /\ grpc_current_revision sc' = new)).
  unfold grpc_rollback_schema. do 2 yields_step. apply yields_found. intros v Hv. assert (v = sc) as -> by congruence. cbv zeta.
  apply yields_lift. intros target Ht. apply yields_lift. intros id Hid. apply yields_peeks_bind; [solve_peeks|intros n].
  apply (next_revision_fresh _ _ Hmax) in Hid as [_ Hfresh].
  destruct (List.find _ _) as [tg|] eqn:Ef; [|done]. injection Ht as <-. apply List.find_some in Ef as [Hin Heq].
  unfold store_schema, persist_keep. do 3 yields_step. exists tg, (stamped_revision id n tg).
  exists (with_revision (stamped_revision id n tg) (grpc_schema_revisions sc ++ [stamped_revision id n tg])%list sc).
  split_and!; try done; [by apply list_elem_of_In|by apply str_eqb_true|].
  match goal with |- context [pruned ?s] => destruct (pruned_eq s) as (m & ms & -> & _) end. simpl.
  rewrite (wf_schema_named _ Hw _ _ Hs). apply lookup_insert_eq.
Qed.
End Schemas.

Definition schema_s : string := "projects/p/schemas/s".
Definition proto (definition : string) : Schema := mkSchema "" "PROTOCOL_BUFFER" definition "" "" [].
Definition schema_world : World :=
  serve (H := works) [CreateSchema "p" "s" (proto "v1"); CommitSchema schema_s (proto "v2")] start.
Lemma schema_world_wf : wf (server schema_world).
Proof. apply (demo_wf _ _ [CreateSchema "p" "s" (proto "v1"); CommitSchema schema_s (proto "v2")] start), wf_empty. Qed.
Definition stored_schema (w : World) : Schema := default default_schema (schemas (server w) !! schema_s).
Definition rolled_back : result ApiError Schema * World := grpc_rollback_schema (H := works) schema_s "1" schema_world.
Lemma rollback_schema_exact_witness :
  map rv_definition (sc_revisions (stored_schema schema_world)) = ["v1"; "v2"]
  /\ exists new sc', schemas (server rolled_back.2) !! schema_s = Some sc'
     /\ sc_revisions sc' = (sc_revisions (stored_schema schema_world) ++ [new])%list.
Proof.
  split; [vm_compute; reflexivity|].
  assert (exists r, rolled_back = (Ok r, rolled_back.2)) as [r Er] by (eexists; vm_compute; reflexivity).
  destruct (rollback_schema_exact (H := works) schema_s "1" (stored_schema schema_world) schema_world r rolled_back.2 schema_world_wf)
    as (target & new & sc' & _ & _ & _ & Hs & Hr & _).
  - vm_compute. reflexivity.
  - vm_compute. reflexivity.
  - exact Er.
  - exists new, sc'. split; [exact Hs|].
    assert (grpc_schema_revisions (stored_schema schema_world) = sc_revisions (stored_schema schema_world)) as E
      by (vm_compute; reflexivity).
    rewrite E in Hr. exact Hr.
Defined.

(** Behaviours of the Pub/Sub service the model shows that are not what the code means
    to do, each as a closed theorem on a concrete run. *)

(** ** Dead letters *)

Definition dead_letter_to (topic : string) : Value :=
  JObject [("deadLetterTopic", JString topic); ("maxDeliveryAttempts", JNumber (PosInt 5))].
(** Five deliveries, each given back at once. *)
Definition attempts (n : nat) : list Call :=
  flat_map (fun k => [Pull sub_s 10; ModifyAckDeadline sub_s ["1-" +:+ show_Z (Z.of_nat k)] 0]) (seq 1 n).
Definition exhausted (dead_topic : string) (others : list Call) : World :=
  serve (H := works)
    ([CreateTopic (demo_topic topic_t); CreateTopic (demo_topic dead_topic);
      CreateSubscription (demo_sub sub_s topic_t false "" (Some (dead_letter_to dead_topic)) None)] ++ others
     ++ [Publish topic_t [msg "aGk=" ""]] ++ attempts 5)%list start.
(** A subscription whose dead letters go to its own topic loses the message: the pull
    that gives it up adds the dead letter to the subscription's queue, then overwrites
    the queue with its own copy. *)
Theorem dead_letter_to_own_topic_lost :
  let w := serve (H := works) [Pull sub_s 10] (exhausted topic_t []) in
  map d_message_id (records_of (server (exhausted topic_t [])) sub_s) = ["1"]
  /\ records_of (server w) sub_s = [] /\ messages (server w) = ∅.
Proof. vm_compute. repeat split. Qed.

Definition topic_d : string := "projects/p/topics/d".
Definition sub_d : string := "projects/p/subscriptions/d".
Definition stream : Stream := mkStream 10 ∅.
(** A streaming pull that only finds messages to give up returns before it stores the
    records: every tick sends the same dead letter again. *)
Theorem stream_repeats_dead_letters :
  let w := exhausted topic_d [CreateSubscription (demo_sub sub_d topic_d false "" None None)] in
  let tick := StreamTick sub_s 10 0 stream in
  map d_message_id (records_of (server (serve (H := works) [tick; tick; tick] w)) sub_d) = ["2"; "3"; "4"]
  /\ map d_message_id (records_of (server (serve (H := works) [tick; tick; tick] w)) sub_s) = ["1"].
Proof. vm_compute. repeat split. Qed.

(** An attempt limit written as an integral float passes the validation, and is then no limit. *)
Theorem float_attempt_limit_ignored :
  let policy := JObject [("deadLetterTopic", JString topic_d); ("maxDeliveryAttempts", JNumber (Float 4617315517961601024))] in
  validate_dead_letter_policy (Some policy) = Ok tt
  /\ dead_letter_target (server (exhausted topic_d [])) (demo_sub sub_s topic_t false "" (Some policy) None) = None.
Proof. vm_compute. repeat split. Qed.

(** ** Snapshots *)

Definition rest (m : Api RestResponse) (w : World) : World := (m w).2.
(** A snapshot created over REST captures no deliveries, so that seeking back to it
    drops the whole backlog. *)
Theorem rest_snapshot_drops_backlog :
  let w := rest (create_snapshot (H := works) "p" "snap" sub_s) sent_two in
  let w' := rest (seek (H := works) "p" "s" "projects/p/snapshots/snap" "") w in
  map d_message_id (records_of (server w) sub_s) = ["1"; "2"] /\ records_of (server w') sub_s = []
  /\ messages (server w') = ∅.
Proof. vm_compute. repeat split. Qed.

(** ** Persistence *)

(** With separate files, a call can fail on the second one: it is refused and undone in
    memory, but the first file is the one of an accepted call, and nothing is left to
    rewrite it. *)
Definition two_files : Config := mkConfig "p" "off" "" "state" "messages" 10 604800 600 100 false.
Definition second_fails : Env := demo_env (fun k => (16 <? k)%nat) no_file.
Definition two_w (pretty : SerdePretty) : World :=
  serve (H := works) (H1 := pretty) (ordered_calls ++ [publish_two])%list (mkWorld (empty_server two_files) None None 0).
Theorem refused_detach_stays_on_disk (pretty : SerdePretty) :
  let refused := run (H := second_fails) (H1 := pretty) (DetachSubscription sub_s) (two_w pretty) in
  let accepted := run (H := works) (H1 := pretty) (DetachSubscription sub_s) (two_w pretty) in
  fst refused = Err store_unavailable /\ fst accepted = Ok RUnit
  /\ map s_detached (values (subscriptions (server refused.2))) = [false]
  /\ map s_detached (values (subscriptions (server accepted.2))) = [true]
  /\ resource_dirty (server refused.2) = false /\ w_resources refused.2 = w_resources accepted.2.
Proof. vm_compute. repeat split. Qed.

(** Over gRPC an update that cannot be written is refused and kept; over REST it is undone. *)
Definition no_disk : Env := demo_env (fun _ => true) no_file.
Definition labelled : Topic := mkTopic topic_t {[ "a" := "b" ]} "" "" "" None "".
Definition labels_of (w : World) : list (gmap string string) := map t_labels (values (topics (server w))).
Theorem refused_grpc_update_kept :
  let refused := run (H := no_disk) (UpdateTopic labelled ["labels"]) setup in
  fst refused = Err store_unavailable /\ labels_of setup = [∅] /\ labels_of refused.2 = [{[ "a" := "b" ]}]
  /\ labels_of (rest (patch_topic (H := no_disk) "p" "t" labelled ["labels"]) setup) = [∅].
Proof. vm_compute. repeat split. Qed.

(** ** Validation *)

(** A retry policy with a huge minimum backoff is accepted, and makes the server
    panic when a lease of the subscription runs out. *)
Definition huge_retry : Value := JObject [("minimumBackoff", JString "9223372036854775000s")].
Theorem huge_backoff_panics :
  validate_retry_policy (Some huge_retry) = Ok tt
  /\ let w := serve (H := works)
       ([CreateTopic (demo_topic topic_t); CreateSubscription (demo_sub sub_s topic_t false "" None (Some huge_retry));
        Publish topic_t [msg "aGk=" ""]; Pull sub_s 10] ++ repeat (PullMayReturn sub_s) 12)%list start in
     fst (run (H := works) (PullMayReturn sub_s) w) = Panic "arithmetic overflow".
Proof. vm_compute. repeat split. Qed.

(** Padding is accepted in the middle of base64 data. *)
Theorem padding_in_the_middle : decode_base64_bytes "aQ==aQ==" = Some [105; 105].
Proof. vm_compute. reflexivity. Qed.

(** gRPC does not check the ack deadline of a new subscription, which REST limits. *)
Definition long_sub : Subscription :=
  mkSub sub_s topic_t false ∅ "" "" 100000 false false false "" None "" None None None.
Theorem grpc_deadline_unchecked :
  match fst (run (H := works) (CreateSubscription long_sub) (serve (H := works) [CreateTopic (demo_topic topic_t)] start)) with
  | Ok (RSub sub) => s_ack_deadline_seconds sub = 100000
  | _ => False
  end
  /\ match fst (create_subscription (H := works) "p" "s" long_sub (serve (H := works) [CreateTopic (demo_topic topic_t)] start)) with
     | Err e => e_status e = 400
     | _ => False
     end.
Proof. vm_compute. repeat split. Qed.

(** ** Schemas *)

(** Committing to a schema created over REST lists the new revision twice, and loses the
    original one. *)
Theorem commit_loses_original_revision :
  let w := rest (create_schema (H := works) "p" "s" (proto "v1")) start in
  match fst (run (H := works) (ListSchemaRevisions schema_s "FULL" 0 "")
               (serve (H := works) [CommitSchema schema_s (proto "v2")] w)) with
  | Ok (RSchemas l _) => map sc_definition l = ["v2"; "v2"]
  | _ => False
  end.
Proof. vm_compute. reflexivity. Qed.
