(* ===== verification/S3Codecs.v ===== *)
(** The S3 service's encodings: base64 and percent-encoding (services/s3/src/base64.rs,
    percent.rs), and the aws-chunked body framing (aws_chunked.rs). *)

From S2P Require Import Prelude RustStr RustNum RustText.
Local Open Scope Z_scope.

(** The S3 service's byte encodings: base64 in both alphabets
    (src/services/s3/src/base64.rs) and AWS percent-encoding
    (src/services/s3/src/percent.rs).  Object keys and configuration ids become
    file names through the URL alphabet, so the encodings must be invertible and
    their output free of separators. *)

(** ** Base64 *)

Module Base64.

Definition STD : string := "ABCDEFGHIJKLMNOPQRSTUVWXYZabcdefghijklmnopqrstuvwxyz0123456789+/".
Definition URL : string := "ABCDEFGHIJKLMNOPQRSTUVWXYZabcdefghijklmnopqrstuvwxyz0123456789-_".

(** [alphabet[i as usize]] for an index below 64. *)
Definition letter (alphabet : string) (i : Z) : ascii :=
  default nul (String.get (Z.to_nat i) alphabet).

(** One round of [for chunk in input.chunks(3)], for a chunk of [len] bytes with
    [b1], [b2] 0 when missing. *)
Definition encode_chunk (alphabet : string) (pad : bool) (len b0 b1 b2 : Z) : string :=
  let n := Z.lor (Z.lor (Z.shiftl b0 16) (Z.shiftl b1 8)) b2 in
  let out := String (letter alphabet (Z.land (Z.shiftr n 18) 63))
               (String (letter alphabet (Z.land (Z.shiftr n 12) 63)) EmptyString) in
  let out :=
    if 1 <? len then out +:+ char_str (letter alphabet (Z.land (Z.shiftr n 6) 63))
    else if pad then out +:+ "=" else out in
  if 2 <? len then out +:+ char_str (letter alphabet (Z.land n 63))
  else if pad then out +:+ "=" else out.

Fixpoint encode (input : string) (alphabet : string) (pad : bool) : string :=
  match input with
  | EmptyString => EmptyString
  | String a EmptyString => encode_chunk alphabet pad 1 (byte_of a) 0 0
  | String a (String b EmptyString) => encode_chunk alphabet pad 2 (byte_of a) (byte_of b) 0
  | String a (String b (String c rest)) =>
      encode_chunk alphabet pad 3 (byte_of a) (byte_of b) (byte_of c) +:+ encode rest alphabet pad
  end.

(** The table built by [lookup[c as usize] = i]: a later letter overwrites. *)
Fixpoint lookup_from (i : Z) (alphabet : string) (b : ascii) (found : Z) : Z :=
  match alphabet with
  | EmptyString => found
  | String c rest => lookup_from (i + 1) rest b (if Ascii.eqb c b then i else found)
  end.
Definition lookup (alphabet : string) (b : ascii) : Z := lookup_from 0 alphabet b 255.

(** The sextets before the first [=]. *)
Fixpoint sextets (alphabet input : string) : option (list Z) :=
  match input with
  | EmptyString => Some []
  | String b rest =>
      if Ascii.eqb b "=" then Some []
      else
        let v := lookup alphabet b in
        if v =? 255 then None else vs ← sextets alphabet rest; Some (v :: vs)
  end.

(** One round of [for chunk in vals.chunks(4)], with missing sextets 0. *)
Definition decode_chunk (len v0 v1 v2 v3 : Z) : string :=
  let n := Z.lor (Z.lor (Z.lor (Z.shiftl v0 18) (Z.shiftl v1 12)) (Z.shiftl v2 6)) v3 in
  let out := char_str (of_byte (wrap_u 8 (Z.shiftr n 16))) in
  let out := if 3 <=? len then out +:+ char_str (of_byte (wrap_u 8 (Z.shiftr n 8))) else out in
  if 4 <=? len then out +:+ char_str (of_byte (wrap_u 8 n)) else out.

Fixpoint decode_vals (vals : list Z) : option string :=
  match vals with
  | [] => Some EmptyString
  | [_] => None
  | [v0; v1] => Some (decode_chunk 2 v0 v1 0 0)
  | [v0; v1; v2] => Some (decode_chunk 3 v0 v1 v2 0)
  | v0 :: v1 :: v2 :: v3 :: rest =>
      out ← decode_vals rest; Some (decode_chunk 4 v0 v1 v2 v3 +:+ out)
  end.

Definition decode (input alphabet : string) : option string :=
  vals ← sextets alphabet input; decode_vals vals.

Definition std_encode (input : string) : string := encode input STD true.
Definition std_decode (input : string) : option string := decode input STD.
Definition raw_url_encode (input : string) : string := encode input URL false.
Definition raw_url_decode (input : string) : option string := decode input URL.

(** The unit tests of base64.rs. *)
Example std_encode_tests :
  map std_encode [""; "f"; "fo"; "foo"; "foob"] = [""; "Zg=="; "Zm8="; "Zm9v"; "Zm9vYg=="].
Proof. vm_compute. reflexivity. Qed.
Example url_alphabet_distinct_from_std :
  (raw_url_encode (bytes_str [251; 255]), std_encode (bytes_str [251; 255])) = ("-_8", "+/8=").
Proof. vm_compute. reflexivity. Qed.

(** ** Bit fields as arithmetic *)

Lemma lor_shiftl a b k : 0 <= k -> 0 <= b < 2 ^ k -> Z.lor (Z.shiftl a k) b = a * 2 ^ k + b.
Proof.
  intros Hk Hb. assert (Z.land (Z.shiftl a k) b = 0) as Hl.
  { apply Z.bits_inj'. intros n Hn. rewrite Z.land_spec, Z.bits_0.
    destruct (Z.lt_ge_cases n k) as [Hlt|Hge].
    - by rewrite Z.shiftl_spec_low.
    - replace (Z.testbit b n) with false; [apply andb_false_r|]. symmetry.
      destruct (Z.eq_dec b 0) as [->|Hb0]; [apply Z.bits_0|]. apply Z.bits_above_log2; [lia|].
      apply Z.log2_lt_pow2; [lia|]. assert (2 ^ k <= 2 ^ n) by (apply Z.pow_le_mono_r; lia). lia. }
  rewrite <- Z.lxor_lor, <- Z.add_nocarry_lxor by done. by rewrite Z.shiftl_mul_pow2.
Qed.

Lemma low_bits x k : 0 <= k -> Z.land x (2 ^ k - 1) = x mod 2 ^ k.
Proof. intros Hk. rewrite <- Z.land_ones by done. f_equal. rewrite Z.ones_equiv. lia. Qed.

Lemma land_63 x : Z.land x 63 = x mod 64.
Proof. exact (low_bits x 6 ltac:(lia)). Qed.

(** The 24-bit group of three bytes, and of four sextets. *)
Lemma group_bytes b0 b1 b2 :
  0 <= b1 < 256 -> 0 <= b2 < 256 ->
  Z.lor (Z.lor (Z.shiftl b0 16) (Z.shiftl b1 8)) b2 = b0 * 65536 + b1 * 256 + b2.
Proof.
  intros H1 H2. rewrite <- Z.lor_assoc, (lor_shiftl b1 b2 8) by lia.
  rewrite (lor_shiftl b0 _ 16) by lia. lia.
Qed.
Lemma group_sextets v0 v1 v2 v3 :
  0 <= v1 < 64 -> 0 <= v2 < 64 -> 0 <= v3 < 64 ->
  Z.lor (Z.lor (Z.lor (Z.shiftl v0 18) (Z.shiftl v1 12)) (Z.shiftl v2 6)) v3
  = v0 * 262144 + v1 * 4096 + v2 * 64 + v3.
Proof.
  intros H1 H2 H3. rewrite <- !Z.lor_assoc, (lor_shiftl v2 v3 6), (lor_shiftl v1 _ 12) by lia.
  rewrite (lor_shiftl v0 _ 18) by lia. lia.
Qed.

(** ** Round trip *)

Lemma triples_ind (P : string -> Prop) :
  P EmptyString -> (forall a, P (String a EmptyString)) -> (forall a b, P (String a (String b EmptyString))) ->
  (forall a b c r, P r -> P (String a (String b (String c r)))) -> forall s, P s.
Proof.
  intros H0 H1 H2 H3. fix IH 1. intros [|a [|b [|c r]]]; [exact H0|apply H1|apply H2|].
  apply H3, IH.
Qed.

(** The sextets of a byte string, by division. *)
Fixpoint split_bits (s : string) : list Z :=
  match s with
  | EmptyString => []
  | String a EmptyString => [byte_of a / 4; byte_of a mod 4 * 16]
  | String a (String b EmptyString) =>
      [byte_of a / 4; byte_of a mod 4 * 16 + byte_of b / 16; byte_of b mod 16 * 4]
  | String a (String b (String c rest)) =>
      [byte_of a / 4; byte_of a mod 4 * 16 + byte_of b / 16; byte_of b mod 16 * 4 + byte_of c / 64;
       byte_of c mod 64] ++ split_bits rest
  end.

Fixpoint padding (s : string) : string :=
  match s with
  | EmptyString => EmptyString
  | String _ EmptyString => "=="
  | String _ (String _ EmptyString) => "="
  | String _ (String _ (String _ rest)) => padding rest
  end.

Definition spell (alphabet : string) (l : list Z) : string :=
  foldr (fun i s => String (letter alphabet i) s) EmptyString l.

Lemma spell_app alphabet l1 l2 : spell alphabet (l1 ++ l2) = spell alphabet l1 +:+ spell alphabet l2.
Proof. induction l1 as [|i l1 IH]; [done|]. simpl. by rewrite IH, str_app_cons. Qed.

Lemma split_bits_range s : Forall (fun v => 0 <= v < 64) (split_bits s).
Proof.
  induction s as [|a|a b|a b c r IH] using triples_ind; cbn [split_bits app].
  - constructor.
  - pose proof (byte_of_range a). repeat constructor; euclid.
  - pose proof (byte_of_range a). pose proof (byte_of_range b). repeat constructor; euclid.
  - pose proof (byte_of_range a). pose proof (byte_of_range b). pose proof (byte_of_range c).
    do 4 (constructor; [euclid|]). done.
Qed.

Lemma encode_chunk_spec alphabet pad len b0 b1 b2 :
  0 <= b0 < 256 -> 0 <= b1 < 256 -> 0 <= b2 < 256 ->
  encode_chunk alphabet pad len b0 b1 b2
  = spell alphabet [b0 / 4; b0 mod 4 * 16 + b1 / 16]
    +:+ (if 1 <? len then spell alphabet [b1 mod 16 * 4 + b2 / 64] else if pad then "=" else "")
    +:+ (if 2 <? len then spell alphabet [b2 mod 64] else if pad then "=" else "").
Proof.
  intros H0 H1 H2. unfold encode_chunk. cbv zeta. rewrite group_bytes, !land_63, !Z.shiftr_div_pow2 by lia.
  set (n := b0 * 65536 + b1 * 256 + b2).
  replace (n / 2 ^ 18 mod 64) with (b0 / 4) by (unfold n; euclid).
  replace (n / 2 ^ 12 mod 64) with (b0 mod 4 * 16 + b1 / 16) by (unfold n; euclid).
  replace (n / 2 ^ 6 mod 64) with (b1 mod 16 * 4 + b2 / 64) by (unfold n; euclid).
  replace (n mod 64) with (b2 mod 64) by (unfold n; euclid).
  by destruct (1 <? len), (2 <? len), pad.
Qed.

Lemma encode_spec alphabet pad s :
  encode s alphabet pad = spell alphabet (split_bits s) +:+ (if pad then padding s else "").
Proof.
  pose proof byte_of_range.
  induction s as [|a|a b|a b c r IH] using triples_ind; cbn [encode split_bits padding].
  - by destruct pad.
  - rewrite encode_chunk_spec by (done || lia). change (0 / 16) with 0. rewrite Z.add_0_r. by destruct pad.
  - rewrite encode_chunk_spec by (done || lia).
    replace (byte_of b mod 16 * 4 + 0 / 64) with (byte_of b mod 16 * 4) by euclid. by destruct pad.
  - rewrite encode_chunk_spec, IH, spell_app by done. by destruct pad.
Qed.

(** An alphabet of 64 distinct letters other than [=]. *)
Definition good_alphabet (alphabet : string) : Prop :=
  forall i, 0 <= i < 64 -> lookup alphabet (letter alphabet i) = i /\ letter alphabet i <> "="%char.

Definition good_letter (alphabet : string) (i : Z) : bool :=
  (lookup alphabet (letter alphabet i) =? i) && negb (Ascii.eqb (letter alphabet i) "=").

Lemma good_alphabet_check alphabet :
  forallb (good_letter alphabet) (map Z.of_nat (seq 0 64)) = true -> good_alphabet alphabet.
Proof.
  intros Hf i Hi. rewrite forallb_forall in Hf. specialize (Hf i). unfold good_letter in Hf.
  rewrite andb_true_iff, Z.eqb_eq, negb_true_iff, Ascii.eqb_neq in Hf. apply Hf.
  apply in_map_iff. exists (Z.to_nat i). split; [lia|]. apply in_seq. lia.
Qed.

Lemma STD_good : good_alphabet STD.
Proof. apply good_alphabet_check. vm_compute. reflexivity. Qed.
Lemma URL_good : good_alphabet URL.
Proof. apply good_alphabet_check. vm_compute. reflexivity. Qed.

Lemma sextets_spell alphabet l t :
  good_alphabet alphabet -> Forall (fun v => 0 <= v < 64) l ->
  sextets alphabet t = Some [] -> sextets alphabet (spell alphabet l +:+ t) = Some l.
Proof.
  intros Ha Hl Ht. induction Hl as [|v l Hv Hl IH]; [by rewrite str_app_nil_l|].
  cbn [spell foldr]. rewrite str_app_cons. cbn [sextets]. destruct (Ha v Hv) as [-> Hne].
  apply Ascii.eqb_neq in Hne as ->. destruct (Z.eqb_spec v 255); [lia|].
  fold (spell alphabet l). by rewrite IH.
Qed.

Lemma decode_chunk_spec len v0 v1 v2 v3 :
  0 <= v0 < 64 -> 0 <= v1 < 64 -> 0 <= v2 < 64 -> 0 <= v3 < 64 ->
  decode_chunk len v0 v1 v2 v3
  = String (of_byte (v0 * 4 + v1 / 16))
      ((if 3 <=? len then char_str (of_byte (v1 mod 16 * 16 + v2 / 4)) else "")
       +:+ (if 4 <=? len then char_str (of_byte (v2 mod 4 * 64 + v3)) else "")).
Proof.
  intros H0 H1 H2 H3. unfold decode_chunk. cbv zeta.
  rewrite group_sextets, !Z.shiftr_div_pow2 by lia. unfold wrap_u.
  set (n := v0 * 262144 + v1 * 4096 + v2 * 64 + v3).
  replace (n / 2 ^ 16 mod 2 ^ 8) with (v0 * 4 + v1 / 16) by (unfold n; euclid).
  replace (n / 2 ^ 8 mod 2 ^ 8) with (v1 mod 16 * 16 + v2 / 4) by (unfold n; euclid).
  replace (n mod 2 ^ 8) with (v2 mod 4 * 64 + v3) by (unfold n; euclid).
  by destruct (3 <=? len), (4 <=? len).
Qed.

Lemma of_byte_eq z c : z = byte_of c -> of_byte z = c.
Proof. intros ->. apply of_byte_of. Qed.

Lemma decode_split_bits s : decode_vals (split_bits s) = Some s.
Proof.
  induction s as [|a|a b|a b c r IH] using triples_ind; cbn [split_bits app decode_vals]; [done|..].
  - pose proof (byte_of_range a). rewrite decode_chunk_spec by euclid. cbn [Z.leb Z.compare].
    do 2 f_equal. apply of_byte_eq. euclid.
  - pose proof (byte_of_range a). pose proof (byte_of_range b). rewrite decode_chunk_spec by euclid.
    do 2 f_equal; [apply of_byte_eq; euclid|]. change (3 <=? 3) with true. change (4 <=? 3) with false.
    cbn iota. unfold char_str. rewrite str_app_cons. f_equal. apply of_byte_eq. euclid.
  - rewrite IH. cbn [mbind option_bind]. pose proof (byte_of_range a). pose proof (byte_of_range b).
    pose proof (byte_of_range c). rewrite decode_chunk_spec by euclid.
    change (3 <=? 4) with true. change (4 <=? 4) with true. cbn iota. unfold char_str.
    do 2 rewrite ?str_app_cons, ?str_app_nil_l. f_equal.
    f_equal; [apply of_byte_eq; euclid|]. f_equal; [apply of_byte_eq; euclid|].
    f_equal. apply of_byte_eq. euclid.
Qed.

Lemma padding_stops alphabet s : sextets alphabet (padding s) = Some [].
Proof. by induction s using triples_ind. Qed.

Lemma decode_encode alphabet pad s :
  good_alphabet alphabet -> decode (encode s alphabet pad) alphabet = Some s.
Proof.
  intros Ha. unfold decode. rewrite encode_spec, sextets_spell; [..|destruct pad; [apply padding_stops|done]].
  - apply decode_split_bits.
  - done.
  - apply split_bits_range.
Qed.

(** base64 round trip: decoding an encoded byte string gives it back, in the
    padded standard alphabet and in the unpadded URL alphabet, for any bytes. *)
Theorem base64_roundtrip s :
  std_decode (std_encode s) = Some s /\ raw_url_decode (raw_url_encode s) = Some s.
Proof. split; apply decode_encode; [apply STD_good|apply URL_good]. Qed.

(** Letters of the URL alphabet. *)
Definition url_letter (c : ascii) : bool :=
  is_ascii_alphanumeric c || Ascii.eqb c "-" || Ascii.eqb c "_".

Lemma spell_all p alphabet l :
  Forall (fun v => 0 <= v < 64) l ->
  forallb (fun i => p (letter alphabet i)) (map Z.of_nat (seq 0 64)) = true ->
  str_all p (spell alphabet l) = true.
Proof.
  intros Hl Hp. rewrite forallb_forall in Hp. induction Hl as [|v l Hv Hl IH]; [done|].
  cbn [spell foldr str_all]. apply andb_true_iff. split; [|done]. apply Hp.
  apply in_map_iff. exists (Z.to_nat v). split; [lia|]. apply in_seq. lia.
Qed.

(** Path segments: the name under which an object key is stored is a single
    path component made of letters, digits, [-] and [_] only (no separator, no
    dot), so no key can leave its directory; different keys get different names; and
    the name of a non-empty key is not empty. *)
Theorem key_names_safe s t :
  str_all url_letter (raw_url_encode s) = true
  /\ (raw_url_encode s = raw_url_encode t <-> s = t)
  /\ (raw_url_encode s = EmptyString <-> s = EmptyString).
Proof.
  assert (forall s t, raw_url_encode s = raw_url_encode t <-> s = t) as Hinj.
  { intros s' t'. split; [|by intros ->]. intros E.
    assert (Some s' = Some t') as [=->]; [|done].
    rewrite <- (decode_encode URL false s' URL_good), <- (decode_encode URL false t' URL_good).
    unfold raw_url_encode in E. by rewrite E. }
  split_and!; [|apply Hinj|exact (Hinj s EmptyString)].
  unfold raw_url_encode. rewrite encode_spec, str_app_nil_r.
  apply spell_all; [apply split_bits_range|]. vm_compute. reflexivity.
Qed.

End Base64.

(** ** AWS percent-encoding *)

Module Percent.

(** [out.push(ch)] for a character below U+0100. *)
Definition push_char (c : ascii) : string :=
  let n := byte_of c in
  if n <? 128 then char_str c
  else String (of_byte (192 + n / 64)) (char_str (of_byte (128 + n mod 64))).

Definition always_safe (c : ascii) : bool :=
  is_ascii_alphanumeric c || Ascii.eqb c "-" || Ascii.eqb c "_" || Ascii.eqb c "." || Ascii.eqb c "~".

(** [safe.contains(ch)], the byte taken as the code point it numbers. *)
Definition safe_contains (safe : string) (c : ascii) : bool := existsb (Z.eqb (byte_of c)) (chars safe).

(** [{c:02X}] *)
Definition hex2_upper (c : ascii) : string := to_ascii_uppercase (hex2 c).

Fixpoint aws_percent_encode (value safe : string) : string :=
  match value with
  | EmptyString => EmptyString
  | String c rest =>
      (if always_safe c || safe_contains safe c then push_char c
       else String "%" (hex2_upper c)) +:+ aws_percent_encode rest safe
  end.

(** The unit tests of percent.rs. *)
Example encodes_reserved_bytes :
  (aws_percent_encode "a b/c~d" "~-_.", aws_percent_encode "k+e=y" "", aws_percent_encode "A.z-9_~" "")
  = ("a%20b%2Fc~d", "k%2Be%3Dy", "A.z-9_~").
Proof. vm_compute. reflexivity. Qed.

(** Reading an encoded string back: [%XX] is a byte, anything else itself. *)
Fixpoint percent_decode (s : string) : option string :=
  match s with
  | EmptyString => Some EmptyString
  | String p rest =>
      if Ascii.eqb p "%" then
        match rest with
        | String h (String l rest') =>
            a ← hex_digit_value h; b ← hex_digit_value l;
            out ← percent_decode rest'; Some (String (of_byte (a * 16 + b)) out)
        | _ => None
        end
      else out ← percent_decode rest; Some (String p out)
  end.

Lemma all_bytes (p : ascii -> bool) : forallb (fun n => p (of_byte n)) (map Z.of_nat (seq 0 256)) = true -> forall c, p c = true.
Proof.
  intros Hp c. rewrite forallb_forall in Hp. rewrite <- (of_byte_of c). apply Hp. apply in_map_iff.
  pose proof (byte_of_range c). exists (Z.to_nat (byte_of c)). split; [lia|]. apply in_seq. lia.
Qed.

Definition hex_pair_ok (c : ascii) : bool :=
  match hex2_upper c with
  | String h (String l EmptyString) =>
      match hex_digit_value h, hex_digit_value l with
      | Some a, Some b => Ascii.eqb (of_byte (a * 16 + b)) c && always_safe h && always_safe l
      | _, _ => false
      end
  | _ => false
  end.

Lemma hex_pair c :
  exists h l a b, hex2_upper c = String h (String l EmptyString)
    /\ hex_digit_value h = Some a /\ hex_digit_value l = Some b /\ of_byte (a * 16 + b) = c
    /\ always_safe h = true /\ always_safe l = true.
Proof.
  assert (hex_pair_ok c = true) as Hc by (apply all_bytes; vm_compute; reflexivity).
  unfold hex_pair_ok in Hc. destruct (hex2_upper c) as [|h [|l [|]]]; try done.
  destruct (hex_digit_value h) as [a|] eqn:Ea; [|done]. destruct (hex_digit_value l) as [b|] eqn:Eb; [|done].
  rewrite !andb_true_iff, Ascii.eqb_eq in Hc. destruct Hc as [[? ?] ?]. by exists h, l, a, b.
Qed.

(** Extra safe characters: ASCII ones other than [%]. *)
Definition safe_ok (safe : string) : Prop :=
  str_all (fun c => is_ascii c && negb (Ascii.eqb c "%")) safe = true.

Lemma safe_contains_ascii safe c :
  safe_ok safe -> safe_contains safe c = true -> is_ascii c = true /\ c <> "%"%char.
Proof.
  intros Hs. unfold safe_contains, safe_ok in *. induction safe as [|d safe IH]; [done|].
  cbn [str_all] in Hs. rewrite !andb_true_iff, negb_true_iff, Ascii.eqb_neq in Hs.
  destruct Hs as [[Hd Hne] Hs]. rewrite chars_ascii_cons by done. cbn [existsb].
  intros [E%Z.eqb_eq|E]%orb_true_iff; [|by apply IH].
  apply byte_of_inj in E as ->. done.
Qed.

Lemma always_safe_ascii c : always_safe c = true -> is_ascii c = true /\ c <> "%"%char.
Proof.
  intros Hc. assert (negb (always_safe c) || (is_ascii c && negb (Ascii.eqb c "%")) = true) as Hp.
  { revert c Hc. intros c _. revert c. apply (all_bytes (fun c => negb (always_safe c) || _)). vm_compute. reflexivity. }
  rewrite Hc in Hp. simpl in Hp. by rewrite andb_true_iff, negb_true_iff, Ascii.eqb_neq in Hp.
Qed.

(** percent-encoding is invertible and produces safe output: decoding gives the
    original bytes back, and every byte of the output is unreserved, one of the
    extra safe characters, or the [%] of an escape. *)
Theorem percent_roundtrip value safe :
  safe_ok safe ->
  percent_decode (aws_percent_encode value safe) = Some value
  /\ str_all (fun c => always_safe c || safe_contains safe c || Ascii.eqb c "%")
       (aws_percent_encode value safe) = true.
Proof.
  intros Hs. induction value as [|c value [IHd IHs]]; [done|]. cbn [aws_percent_encode].
  destruct (always_safe c || safe_contains safe c) eqn:E.
  - assert (is_ascii c = true /\ c <> "%"%char) as [Ha Hne].
    { apply orb_true_iff in E as [E|E]; [by apply always_safe_ascii|by eapply safe_contains_ascii]. }
    unfold push_char. unfold is_ascii in Ha. rewrite Ha. unfold char_str. rewrite str_app_cons, str_app_nil_l.
    apply Ascii.eqb_neq in Hne. cbn [percent_decode str_all]. rewrite Hne, IHd, E, IHs. done.
  - destruct (hex_pair c) as (h & l & a & b & -> & Ea & Eb & Hc & Sh & Sl).
    rewrite !str_app_cons, str_app_nil_l. cbn [percent_decode str_all]. rewrite Ascii.eqb_refl, Ea, Eb.
    cbn [mbind option_bind]. rewrite IHd, Sh, Sl, IHs. cbn [mbind option_bind]. rewrite Hc.
    split; [done|]. by rewrite orb_true_r.
Qed.

Lemma percent_roundtrip_witness :
  percent_decode (aws_percent_encode "a b/c%d" "/") = Some "a b/c%d"
  /\ aws_percent_encode "a b/c%d" "/" = "a%20b/c%25d".
Proof. split; [apply (percent_roundtrip "a b/c%d" "/"); vm_compute; reflexivity|vm_compute; reflexivity]. Defined.

End Percent.

(** The parser of the [aws-chunked] upload framing of the S3 service
    (src/services/s3/src/aws_chunked.rs): sized, signed chunks, a terminal empty
    chunk, and trailers.  A body is a byte string; [parse] accepts exactly the
    bodies that are framed completely, with nothing after the closing line. *)

Module AwsChunked.

Record Chunk := mkChunk {
  signature : option string;
  data : string }.

Record ChunkedBody := mkBody {
  chunks : list Chunk;
  trailers : list (string * string);
  trailer_signature : option string }.

Definition payload (b : ChunkedBody) : string := foldr (fun c s => data c +:+ s) EmptyString (chunks b).

(** Up to the first line end: the line, when it is UTF-8, and what follows. *)
Definition take_line (rest : string) : option (string * string) :=
  '(line, rest) ← split_once crlf rest;
  if utf8_valid line then Some (line, rest) else None.

(** The size and the signature announced by a chunk's line. *)
Definition chunk_header (line : string) : option (Z * option string) :=
  let '(size, extension) := default (line, "") (split_once ";" line) in
  size ← parse_usize_hex (trim size);
  Some (size, strip_prefix "chunk-signature=" (trim extension)).

(** [rest.get(..size)] and what follows. *)
Definition take_bytes (size : Z) (rest : string) : option (string * string) :=
  if size <=? str_len rest then Some (str_take size rest, str_drop size rest) else None.

(** The first loop.  Every round but the last consumes a line end, so the length of
    the body bounds the number of rounds. *)
Fixpoint parse_chunks (fuel : nat) (rest : string) : option (list Chunk * string) :=
  match fuel with
  | O => None
  | S fuel' =>
      '(line, rest) ← take_line rest;
      '(size, signature) ← chunk_header line;
      '(data, rest) ← take_bytes size rest;
      let chunk := mkChunk signature data in
      if size =? 0 then Some ([chunk], rest)
      else
        rest ← strip_prefix crlf rest;
        '(chunks, rest) ← parse_chunks fuel' rest;
        Some (chunk :: chunks, rest)
  end.

(** The second loop, with the trailers and the trailer signature so far. *)
Fixpoint parse_trailers (fuel : nat) (rest : string) (trailers : list (string * string))
    (trailer_signature : option string)
    : option (list (string * string) * option string * string) :=
  match fuel with
  | O => None
  | S fuel' =>
      '(line, rest) ← take_line rest;
      if is_empty line then Some (trailers, trailer_signature, rest)
      else
        '(name, value) ← split_once ":" line;
        if eq_ignore_ascii_case (trim name) "x-amz-trailer-signature" then
          parse_trailers fuel' rest trailers (Some (trim value))
        else
          parse_trailers fuel' rest (trailers ++ [(trim name, trim value)]) trailer_signature
  end.

Definition parse (body : string) : option ChunkedBody :=
  '(chunks, rest) ← parse_chunks (S (String.length body)) body;
  '(trailers, trailer_signature, rest) ← parse_trailers (S (String.length rest)) rest [] None;
  if negb (is_empty rest) then None
  else Some (mkBody chunks trailers trailer_signature).

(** The unit tests of aws_chunked.rs. *)
Definition lines (l : list string) : string := foldr (fun x s => x +:+ crlf +:+ s) EmptyString l.
Example parses_signed_chunks_and_trailers :
  parse (lines ["5;chunk-signature=aa"; "hello"; "1;chunk-signature=bb"; "!"; "0;chunk-signature=cc";
                "x-amz-checksum-crc32:AAAA"; "x-amz-trailer-signature:dd"; ""])
  = Some (mkBody [mkChunk (Some "aa") "hello"; mkChunk (Some "bb") "!"; mkChunk (Some "cc") ""]
            [("x-amz-checksum-crc32", "AAAA")] (Some "dd")).
Proof. vm_compute. reflexivity. Qed.
Example rejects_truncated_or_invalid_framing :
  map parse ["5" +:+ crlf +:+ "hel"; lines ["5"; "hello"]; lines ["zz"; "hello"; "0"; ""];
             lines ["5"; "helloXX0"; ""]; lines ["ffffffffffffffff"; "x"]; "plain body";
             lines ["3"; "abc"; "0"]; lines ["3"; "abc"; "0"; "x-amz-checksum-crc32:AAAA"];
             lines ["3"; "abc"; "0"; ""] +:+ "trailing"]
  = replicate 9 None.
Proof. vm_compute. reflexivity. Qed.

(** ** The framing *)

(** UTF-8 text without a line end. *)
Definition is_line (line : string) : Prop := split_once crlf line = None /\ utf8_valid line = true.

(** What [parse] accepts: for each chunk a header line that announces its size and
    signature, the data, a line end unless the chunk is empty; only the last chunk
    is empty. *)
Inductive framed : list Chunk -> string -> Prop :=
| framed_last line sg :
    is_line line -> chunk_header line = Some (0, sg) ->
    framed [mkChunk sg EmptyString] (line +:+ crlf)
| framed_chunk line sg d cs s :
    is_line line -> chunk_header line = Some (str_len d, sg) -> d <> EmptyString ->
    framed cs s ->
    framed (mkChunk sg d :: cs) (line +:+ crlf +:+ d +:+ crlf +:+ s).

(** The trailer lines, with the trailers collected so far and the signature. *)
Inductive trailed : list (string * string) -> option string -> list (string * string) -> option string
    -> string -> Prop :=
| trailed_end ts sg : trailed ts sg ts sg crlf
| trailed_line ts sg ts' sg' line name value s :
    is_line line -> line <> EmptyString -> split_once ":" line = Some (name, value) ->
    eq_ignore_ascii_case (trim name) "x-amz-trailer-signature" = false ->
    trailed (ts ++ [(trim name, trim value)]) sg ts' sg' s ->
    trailed ts sg ts' sg' (line +:+ crlf +:+ s)
| trailed_signature ts sg ts' sg' line name value s :
    is_line line -> line <> EmptyString -> split_once ":" line = Some (name, value) ->
    eq_ignore_ascii_case (trim name) "x-amz-trailer-signature" = true ->
    trailed ts (Some (trim value)) ts' sg' s ->
    trailed ts sg ts' sg' (line +:+ crlf +:+ s).


Lemma split_once_first pat s a b : split_once pat s = Some (a, b) -> a = EmptyString \/ split_once pat a = None.
Proof.
  revert a b. induction s as [|c s IH]; intros a b; cbn [split_once].
  - destruct (strip_prefix pat EmptyString); [|done]. intros [= <- <-]. by left.
  - destruct (strip_prefix pat (String c s)) as [r|] eqn:E; [intros [= <- <-]; by left|].
    destruct (split_once pat s) as [[a' b']|] eqn:Es; [|done]. intros [= <- <-]. right.
    cbn [split_once]. destruct (strip_prefix pat (String c a')) as [r|] eqn:E'.
    { apply (strip_prefix_extend _ _ (pat +:+ b')) in E'. rewrite str_app_cons in E'.
      apply split_once_Some in Es as ->. by rewrite E' in E. }
    destruct (IH _ _ eq_refl) as [-> | ->]; [|done]. simpl.
    destruct pat as [|p pat]; [done|]. done.
Qed.

(** The line end found is the first one. *)
Lemma split_line line rest :
  split_once crlf line = None -> split_once crlf (line +:+ crlf +:+ rest) = Some (line, rest).
Proof.
  induction line as [|c line IH]; intros Hn.
  { rewrite str_app_nil_l. change (crlf +:+ rest) with (String cr (String lf rest)). reflexivity. }
  rewrite str_app_cons. cbn [split_once] in *.
  destruct (strip_prefix crlf (String c line)) eqn:E; [done|].
  destruct (split_once crlf line) as [[??]|] eqn:El; [done|].
  assert (strip_prefix crlf (String c (line +:+ crlf +:+ rest)) = None) as ->; [|by rewrite IH].
  cbn [strip_prefix crlf] in E |- *. destruct (Ascii.eqb cr c); [|done].
  destruct line as [|d line]; [done|]. rewrite str_app_cons. by destruct (Ascii.eqb lf d).
Qed.

Lemma take_line_Some s line rest :
  take_line s = Some (line, rest) <-> s = line +:+ crlf +:+ rest /\ is_line line.
Proof.
  unfold take_line, is_line. split.
  - destruct (split_once crlf s) as [[l r]|] eqn:E; [|done]. simpl.
    destruct (utf8_valid l) eqn:El; [|done]. intros [= <- <-].
    pose proof (split_once_Some _ _ _ _ E). split_and!; try done.
    destruct (split_once_first _ _ _ _ E) as [-> | ?]; done.
  - intros (-> & Hl & Hu). rewrite split_line by done. simpl. by rewrite Hu.
Qed.

Lemma take_bytes_Some n s d rest :
  0 <= n -> take_bytes n s = Some (d, rest) <-> s = d +:+ rest /\ str_len d = n.
Proof.
  intros Hn. unfold take_bytes. destruct (Z.leb_spec n (str_len s)) as [Hle|Hgt].
  - destruct (str_split n s) as (Hs & Hl & _); [lia|]. split.
    + intros [= <- <-]. done.
    + intros [E Hd]. rewrite Hs in E. apply str_app_inj_length in E as [-> ->]; [done|].
      unfold str_len in *. lia.
  - split; [done|]. intros [-> Hd]. rewrite str_len_app in Hgt. pose proof (str_len_nonneg rest). lia.
Qed.

Lemma parse_usize_hex_nonneg s n : parse_usize_hex s = Some n -> 0 <= n.
Proof.
  unfold parse_usize_hex, parse_radix.
  assert (forall z, (if (0 <=? z) && (z <=? 2 ^ 64 - 1) then Some z else None) = Some n -> 0 <= n) as Hr.
  { intros z. destruct (Z.leb_spec 0 z); simpl; [|done]. destruct (_ <=? _); [|done]. by intros [= <-]. }
  destruct s as [|c r]; [done|]. destruct (Ascii.eqb c "+"); [|destruct (Ascii.eqb c "-"); [done|]].
  - destruct (parse_digits 16 r); [apply Hr|done].
  - destruct (parse_digits 16 (String c r)); [apply Hr|done].
Qed.

Lemma chunk_header_nonneg line n sg : chunk_header line = Some (n, sg) -> 0 <= n.
Proof.
  unfold chunk_header. destruct (default _ _) as [a b].
  destruct (parse_usize_hex (trim a)) as [z|] eqn:E; [|done]. simpl. intros [= <- _].
  by eapply parse_usize_hex_nonneg.
Qed.

Lemma parse_chunks_sound fuel s cs rest :
  parse_chunks fuel s = Some (cs, rest) -> exists t, framed cs t /\ s = t +:+ rest.
Proof.
  revert s cs rest. induction fuel as [|fuel IH]; intros s cs rest; cbn [parse_chunks]; [done|].
  destruct (take_line s) as [[line r]|] eqn:El; [|done]. apply take_line_Some in El as [-> Hu]. cbn [mbind option_bind].
  destruct (chunk_header line) as [[n sg]|] eqn:Eh; [|done]. cbn [mbind option_bind].
  destruct (take_bytes n r) as [[d r']|] eqn:Eb; [|done]. cbn [mbind option_bind].
  apply take_bytes_Some in Eb as [-> Hd]; [|by eapply chunk_header_nonneg].
  destruct (Z.eqb_spec n 0) as [->|Hn].
  - intros [= <- <-]. assert (d = EmptyString) as -> by (by apply str_len_zero).
    exists (line +:+ crlf). split; [by constructor|]. by rewrite str_app_assoc.
  - destruct (strip_prefix crlf r') as [r2|] eqn:Ep; [|done]. apply strip_prefix_Some in Ep as ->. cbn [mbind option_bind].
    destruct (parse_chunks fuel r2) as [[cs2 r3]|] eqn:Ec; [|done]. intros [= <- <-].
    apply IH in Ec as (t & Ht & ->). exists (line +:+ crlf +:+ d +:+ crlf +:+ t).
    split; [|by rewrite !str_app_assoc]. constructor; try done; [by rewrite Hd|].
    by intros ->.
Qed.

Lemma parse_trailers_sound fuel s ts sg ts' sg' rest :
  parse_trailers fuel s ts sg = Some (ts', sg', rest) ->
  exists t, trailed ts sg ts' sg' t /\ s = t +:+ rest.
Proof.
  revert s ts sg. induction fuel as [|fuel IH]; intros s ts sg; cbn [parse_trailers]; [done|].
  destruct (take_line s) as [[line r]|] eqn:El; [|done]. apply take_line_Some in El as [-> Hu]. cbn [mbind option_bind].
  destruct (is_empty line) eqn:Ee.
  { apply is_empty_true in Ee as ->. intros [= <- <- <-]. exists crlf. split; [constructor|done]. }
  assert (line <> EmptyString) as Hne by (by intros ->).
  destruct (split_once ":" line) as [[name value]|] eqn:Es; [|done]. cbn [mbind option_bind].
  destruct (eq_ignore_ascii_case _ _) eqn:Eq; intros Hp; apply IH in Hp as (t & Ht & ->);
    exists (line +:+ crlf +:+ t); (split; [|by rewrite !str_app_assoc]).
  - by eapply trailed_signature.
  - by eapply trailed_line.
Qed.

(** ** Every framed body is accepted *)

Lemma framed_nonempty cs t : framed cs t -> (2 <= String.length t)%nat.
Proof.
  destruct 1; rewrite !str_length_app; change (String.length crlf) with 2%nat; lia.
Qed.

Lemma parse_chunks_complete cs t fuel rest :
  framed cs t -> (String.length t <= fuel)%nat -> parse_chunks fuel (t +:+ rest) = Some (cs, rest).
Proof.
  intros Hf. revert fuel. induction Hf as [line sg Hl Hh|line sg d cs s Hl Hh Hd Hf IH]; intros fuel Hfuel.
  - destruct fuel as [|fuel].
    { rewrite str_length_app in Hfuel. change (String.length crlf) with 2%nat in Hfuel. lia. }
    cbn [parse_chunks]. rewrite str_app_assoc.
    rewrite (proj2 (take_line_Some _ line rest)) by done. cbn [mbind option_bind]. rewrite Hh. cbn [mbind option_bind].
    by rewrite (proj2 (take_bytes_Some 0 rest EmptyString rest ltac:(lia))).
  - pose proof (framed_nonempty _ _ Hf).
    rewrite !str_length_app in Hfuel. change (String.length crlf) with 2%nat in Hfuel.
    destruct fuel as [|fuel]; [lia|]. cbn [parse_chunks]. rewrite !str_app_assoc.
    rewrite (proj2 (take_line_Some _ line _)) by done. cbn [mbind option_bind]. rewrite Hh. cbn [mbind option_bind].
    rewrite (proj2 (take_bytes_Some _ _ d _ (str_len_nonneg d))) by done. cbn [mbind option_bind].
    destruct (Z.eqb_spec (str_len d) 0) as [E|_]; [by apply str_len_zero in E|].
    rewrite strip_prefix_app. cbn [mbind option_bind]. rewrite IH by lia. done.
Qed.

Lemma trailed_nonempty ts sg ts' sg' t : trailed ts sg ts' sg' t -> (2 <= String.length t)%nat.
Proof.
  destruct 1; rewrite ?str_length_app; change (String.length crlf) with 2%nat; lia.
Qed.

Lemma parse_trailers_complete ts sg ts' sg' t fuel rest :
  trailed ts sg ts' sg' t -> (String.length t <= fuel)%nat ->
  parse_trailers fuel (t +:+ rest) ts sg = Some (ts', sg', rest).
Proof.
  intros Ht. revert fuel.
  induction Ht as [ts sg|ts sg ts' sg' line name value s Hl Hne Hs Hq Ht IH
                  |ts sg ts' sg' line name value s Hl Hne Hs Hq Ht IH]; intros fuel Hfuel.
  { destruct fuel; [change (String.length crlf) with 2%nat in Hfuel; lia|]. cbn [parse_trailers].
    by rewrite (proj2 (take_line_Some _ EmptyString rest)). }
  all: rewrite !str_length_app in Hfuel; change (String.length crlf) with 2%nat in Hfuel.
  all: destruct fuel as [|fuel]; [lia|]; cbn [parse_trailers]; rewrite !str_app_assoc.
  all: rewrite (proj2 (take_line_Some _ line _)) by done; cbn [mbind option_bind].
  all: destruct (is_empty line) eqn:Ee; [by apply is_empty_true in Ee|].
  all: rewrite Hs; cbn [mbind option_bind]; rewrite Hq; apply IH; lia.
Qed.

(** C30: the upload framing is recognised exactly: [parse] succeeds on a body iff the
    body is a sequence of chunks (a header line announcing the size of the data, the
    data, a line end), closed by an empty chunk, then trailer lines and an empty line,
    and nothing else; it returns those very chunks and trailers.  So no byte outside
    the announced, signed chunks reaches the payload, and parsing always ends. *)
Theorem parse_exact body b :
  parse body = Some b <->
  exists t t', framed (chunks b) t /\ trailed [] None (trailers b) (trailer_signature b) t'
    /\ body = t +:+ t'.
Proof.
  unfold parse. split.
  - destruct (parse_chunks _ body) as [[cs rest]|] eqn:Ec; [|done]. cbn [mbind option_bind].
    apply parse_chunks_sound in Ec as (t & Ht & ->).
    destruct (parse_trailers _ rest [] None) as [[[ts sg] rest']|] eqn:Et; [|done]. cbn [mbind option_bind].
    apply parse_trailers_sound in Et as (t' & Ht' & ->).
    destruct (is_empty rest') eqn:Ee; [|done]. apply is_empty_true in Ee as ->.
    intros [= <-]. exists t, t'. by rewrite str_app_nil_r.
  - intros (t & t' & Ht & Ht' & ->).
    rewrite (parse_chunks_complete (chunks b) t) by (done || rewrite str_length_app; lia). cbn [mbind option_bind].
    pose proof (parse_trailers_complete _ _ _ _ t' (S (String.length t')) EmptyString Ht' ltac:(lia)) as Hp.
    rewrite str_app_nil_r in Hp. rewrite Hp. cbn [mbind option_bind]. by destruct b.
Qed.

End AwsChunked.
