(* ===== verification/DynState.v ===== *)
(** The DynamoDB server's streams (services/dynamodb/src/streams.rs), its state and its
    persistence (server.rs, persistence.rs). *)

From S2P Require Import Prelude RustStr RustNum Json DynModel DynValue S3Codecs.
Local Open Scope string_scope.
Local Open Scope Z_scope.

(** DynamoDB Streams (src/services/dynamodb/src/streams.rs): the record of a write
    and the shard iterator, a JSON object in unpadded URL base64. *)

(** ** Stream records *)

Definition stream_event_name (existed delete : bool) : string :=
  if delete then "REMOVE" else if existed then "MODIFY" else "INSERT".

Definition set_size_bytes (n : Z) (i : StreamRecordImage) : StreamRecordImage :=
  mkImage (approximate_creation_date_time i) (img_keys i) (new_image i) (old_image i)
    (sequence_number i) n (img_view_type i).

Definition build_stream_record `{SerdeJson} (description : TableDescription) (region : string)
    (existing_count : Z) (event : string) (old_item new_item : option Item) (now_unix : Z)
    : option StreamRecord :=
  spec ← stream_specification description;
  if negb (stream_enabled spec) then None
  else if str_eqb event "REMOVE" && negb (bool_decide (is_Some old_item)) then None
  else
    source ← (if str_eqb event "REMOVE" then old_item else new_item);
    keys ← ok_opt (extract_key description source);
    let sequence := show_Z (existing_count + 1) in
    let view_type := stream_view_type spec in
    let written := if negb (str_eqb event "REMOVE") then default ∅ new_item else ∅ in
    let new_ := if str_eqb view_type "NEW_IMAGE" || str_eqb view_type "NEW_AND_OLD_IMAGES" then written else ∅ in
    let old_ := if str_eqb view_type "OLD_IMAGE" || str_eqb view_type "NEW_AND_OLD_IMAGES"
                then default ∅ old_item else ∅ in
    let image := mkImage now_unix keys new_ old_ sequence 0 view_type in
    let image := set_size_bytes (str_len (marshal (image_value image))) image in
    Some (mkRecord (table_name description +:+ ":" +:+ sequence) event "aws:dynamodb" "1.1" region image).

(** ** base64url *)

(** One chunk of up to three bytes. *)
Definition url_letter (n : Z) : ascii := Base64.letter Base64.URL (Z.land n 63).
Definition url_chunk (len b0 b1 b2 : Z) : string :=
  let n := Z.lor (Z.lor (Z.shiftl b0 16) (Z.shiftl b1 8)) b2 in
  char_str (url_letter (Z.shiftr n 18)) +:+ char_str (url_letter (Z.shiftr n 12))
  +:+ (if 1 <? len then char_str (url_letter (Z.shiftr n 6)) else "")
  +:+ (if 2 <? len then char_str (url_letter n) else "").
Fixpoint base64url_encode (input : string) : string :=
  match input with
  | EmptyString => EmptyString
  | String a EmptyString => url_chunk 1 (byte_of a) 0 0
  | String a (String b EmptyString) => url_chunk 2 (byte_of a) (byte_of b) 0
  | String a (String b (String c rest)) =>
      url_chunk 3 (byte_of a) (byte_of b) (byte_of c) +:+ base64url_encode rest
  end.

Definition url_val (c : ascii) : option Z :=
  if in_range "A" "Z" c then Some (byte_of c - 65)
  else if in_range "a" "z" c then Some (byte_of c - 97 + 26)
  else if in_range "0" "9" c then Some (byte_of c - 48 + 52)
  else if Ascii.eqb c "-" then Some 62
  else if Ascii.eqb c "_" then Some 63 else None.

(** [for &c in chunk { n = (n << 6) | val(c)?; }] *)
Fixpoint url_acc (n : Z) (chunk : list ascii) : option Z :=
  match chunk with
  | [] => Some n
  | c :: r => v ← url_val c; url_acc (Z.lor (Z.shiftl n 6) v) r
  end.
Definition url_bytes (chunk : list ascii) : option string :=
  let len := Z.of_nat (length chunk) in
  if len =? 1 then None
  else
    n ← url_acc 0 chunk;
    let n := Z.shiftl n (6 * (4 - len)) in
    Some (char_str (of_byte (wrap_u 8 (Z.shiftr n 16)))
          +:+ (if 2 <? len then char_str (of_byte (wrap_u 8 (Z.shiftr n 8))) else "")
          +:+ (if 3 <? len then char_str (of_byte (wrap_u 8 n)) else "")).
Fixpoint base64url_decode (input : string) : option string :=
  match input with
  | EmptyString => Some EmptyString
  | String a (String b (String c (String d rest))) =>
      out ← url_bytes [a; b; c; d]; more ← base64url_decode rest; Some (out +:+ more)
  | String a (String b (String c EmptyString)) => url_bytes [a; b; c]
  | String a (String b EmptyString) => url_bytes [a; b]
  | String a EmptyString => url_bytes [a]
  end.

(** The unit test of streams.rs. *)
Example base64url_matches_known_vector :
  map base64url_encode ["abc"; "ab"; "a"] = ["YWJj"; "YWI"; "YQ"]
  /\ map base64url_decode ["YWJj"; "YWI"; "Y"] = [Some "abc"; Some "ab"; None].
Proof. split; vm_compute; reflexivity. Qed.

(** ** Shard iterators *)

Record StreamIterator := mkIterator { it_stream_arn : string; it_shard_id : string; it_position : Z }.
Definition iterator_value (i : StreamIterator) : Value :=
  struct_value [field "streamArn" (JString (it_stream_arn i)); field "shardId" (JString (it_shard_id i));
                field "position" (int_value (it_position i))].

Section Iterators.
(** [serde_json::from_slice], at the iterator's type. *)
Context `{SerdeJson} (from_slice : string -> StreamIterator + string).

Definition encode_iterator (iterator : StreamIterator) : string :=
  base64url_encode (marshal (iterator_value iterator)).
Definition decode_iterator (value : string) : outcome StreamIterator :=
  payload ← ok_or "invalid base64" (base64url_decode value);
  iterator ← of_result (from_slice payload);
  if is_empty (it_stream_arn iterator) || is_empty (it_shard_id iterator)
  then Err "invalid stream iterator" else Ok iterator.
End Iterators.

(** ** base64url is the URL alphabet of base64 *)

Lemma url_chunk_spec len b0 b1 b2 :
  url_chunk len b0 b1 b2 = Base64.encode_chunk Base64.URL false len b0 b1 b2.
Proof.
  unfold url_chunk, Base64.encode_chunk, url_letter. by destruct (1 <? len), (2 <? len).
Qed.
Lemma base64url_encode_spec s : base64url_encode s = Base64.raw_url_encode s.
Proof.
  unfold Base64.raw_url_encode.
  induction s as [|a|a b|a b c r IH] using Base64.triples_ind; cbn [base64url_encode Base64.encode];
    rewrite ?url_chunk_spec; [done..|]. by rewrite IH.
Qed.

Lemma url_val_letter : forallb (fun i => bool_decide (url_val (Base64.letter Base64.URL i) = Some i))
  (map Z.of_nat (seq 0 64)) = true.
Proof. vm_compute. reflexivity. Qed.
Lemma url_val_spec i : 0 <= i < 64 -> url_val (Base64.letter Base64.URL i) = Some i.
Proof.
  intros Hi. pose proof url_val_letter as Hf. rewrite forallb_forall in Hf. specialize (Hf i).
  apply (bool_decide_unpack _), Is_true_true, Hf, in_map_iff. exists (Z.to_nat i).
  split; [lia|]. apply in_seq. lia.
Qed.

(** The accumulated sextets. *)
Definition sextets_value (vs : list Z) : Z := foldl (fun n v => n * 64 + v) 0 vs.
Definition url_char (v : Z) : ascii := Base64.letter Base64.URL v.

Lemma url_acc_spec n vs :
  0 <= n -> Forall (fun v => 0 <= v < 64) vs ->
  url_acc n (map url_char vs) = Some (foldl (fun n v => n * 64 + v) n vs).
Proof.
  intros Hn Hvs. revert n Hn. induction Hvs as [|v vs Hv Hvs IH]; intros n Hn; [done|].
  cbn [map url_acc foldl]. rewrite url_val_spec by done. cbn [mbind option_bind].
  rewrite (Base64.lor_shiftl n v 6) by lia. apply IH. lia.
Qed.

(** A chunk of sextets decodes as in the S3 decoder. *)
Lemma url_bytes_spec vs :
  let len := Z.of_nat (length vs) in
  2 <= len <= 4 -> Forall (fun v => 0 <= v < 64) vs ->
  url_bytes (map url_char vs)
  = Some (Base64.decode_chunk len (nth 0 vs 0) (nth 1 vs 0) (nth 2 vs 0) (nth 3 vs 0)).
Proof.
  intros len Hl Hvs. unfold url_bytes. rewrite length_map. fold len.
  replace (len =? 1) with false by lia. rewrite url_acc_spec by done. cbn [mbind option_bind]. cbv zeta.
  unfold len in *. clear len.
  destruct vs as [|v0 [|v1 [|v2 [|v3 [|v4 vs]]]]]; cbn [length] in Hl; try lia;
    repeat (apply Forall_cons in Hvs as [? Hvs]); cbn [length nth foldl];
    rewrite Base64.decode_chunk_spec by lia; rewrite Z.shiftl_mul_pow2 by lia;
    rewrite !Z.shiftr_div_pow2 by lia; unfold wrap_u;
    repeat match goal with
      |- context [Z.of_nat (S ?n)] => let v := eval vm_compute in (Z.of_nat (S n)) in change (Z.of_nat (S n)) with v
    end; cbn -[Z.div Z.modulo Z.mul of_byte Z.pow];
    unfold char_str; rewrite ?str_app_nil_r; rewrite ?str_app_cons, ?str_app_nil_l;
    repeat (f_equal; try euclid).
Qed.

Lemma chunks_ind (P : list Z -> Prop) :
  P [] -> (forall a b, P [a; b]) -> (forall a b c, P [a; b; c]) ->
  (forall a b c d r, P r -> P (a :: b :: c :: d :: r)) -> (forall a, P [a]) -> forall l, P l.
Proof.
  intros H0 H2 H3 H4 H1. fix IH 1. intros [|a [|b [|c [|d r]]]]; [done..|]. apply H4, IH.
Qed.

Lemma base64url_decode_spell vs :
  Forall (fun v => 0 <= v < 64) vs ->
  base64url_decode (Base64.spell Base64.URL vs) = Base64.decode_vals vs.
Proof.
  induction vs as [|a b|a b c|a b c d r IH|a] using chunks_ind; intros Hvs; [done| | | |].
  - exact (url_bytes_spec [a; b] ltac:(simpl; lia) Hvs).
  - exact (url_bytes_spec [a; b; c] ltac:(simpl; lia) Hvs).
  - assert (Forall (fun v => 0 <= v < 64) [a; b; c; d]) as H4.
    { rewrite !Forall_cons in Hvs. destruct_and! Hvs. by repeat constructor. }
    do 4 apply Forall_inv_tail in Hvs.
    pose proof (url_bytes_spec [a; b; c; d] ltac:(simpl; lia) H4) as E. cbn [map nth length] in E.
    change (Z.of_nat 4) with 4 in E.
    unfold Base64.spell in *. cbn [foldr base64url_decode Base64.decode_vals].
    unfold url_char in E. rewrite E. cbn [mbind option_bind]. by rewrite IH.
  - done.
Qed.

Lemma base64url_roundtrip s : base64url_decode (base64url_encode s) = Some s.
Proof.
  rewrite base64url_encode_spec. unfold Base64.raw_url_encode.
  rewrite Base64.encode_spec, str_app_nil_r, base64url_decode_spell by apply Base64.split_bits_range.
  apply Base64.decode_split_bits.
Qed.

(** Shard iterators survive the trip to the client, if the JSON library reads back
    what it writes. *)
Lemma iterator_roundtrip `{SerdeJson} from_slice it :
  from_slice (marshal (iterator_value it)) = inl it ->
  it_stream_arn it <> "" -> it_shard_id it <> "" ->
  decode_iterator from_slice (encode_iterator it) = Ok it.
Proof.
  intros Hj Ha Hs. unfold decode_iterator, encode_iterator. rewrite base64url_roundtrip.
  cbn [ok_or mbind outcome_bind]. rewrite Hj. cbn [of_result mbind outcome_bind].
  destruct (is_empty (it_stream_arn it)) eqn:E1; [by apply is_empty_true in E1|].
  destruct (is_empty (it_shard_id it)) eqn:E2; [by apply is_empty_true in E2|]. done.
Qed.

(** The state of the DynamoDB server and its persistence
    (src/services/dynamodb/src/server.rs, persistence.rs): tables, backups, the
    cache of encoded tables and the dirty set behind the incremental [persist].

    A [World] is the server with its disk.  What is not the repository's code is a
    field of the class [Env]: the system clock, the file system calls, the SHA-256
    digest and the JSON readers; the JSON writer is [SerdeJson]. *)

(** ** State *)

Record Config := mkConfig {
  cfg_addr : string; cfg_region : string; cfg_auth_mode : string; cfg_access_key_id : string;
  cfg_secret_access_key : string; storage_path : string; cfg_max_item_bytes : Z; cfg_max_tables : Z }.

Definition DEFAULT_REGION : string := "us-east-1".
Definition ACCOUNT_ID : string := "000000000000".
Definition region (c : Config) : string := if is_empty (cfg_region c) then DEFAULT_REGION else cfg_region c.
Definition max_tables (c : Config) : Z := if 0 <? cfg_max_tables c then cfg_max_tables c else 256.
Definition max_item_bytes (c : Config) : Z := if 0 <? cfg_max_item_bytes c then cfg_max_item_bytes c else 400000.

Record TableState := mkTable {
  st_description : TableDescription;
  st_items : gmap string Item;
  st_stream_records : list StreamRecord;
  st_tags : gmap string string;
  st_continuous_backups : option ContinuousBackupsDescription;
  st_resource_policy : string;
  st_resource_policy_revision : string }.
Definition new_table (d : TableDescription) : TableState := mkTable d ∅ [] ∅ None "" "".

Record Server := mkServer {
  config : Config;
  tables : gmap string TableState;
  backups : gmap string BackupDescription;
  backup_tables : gmap string TableDescription;
  backup_items : gmap string (gmap string Item);
  load_err : option string;
  table_cache : gmap string string;
  dirty_tables : gset string;
  fixed_now_unix : option Z;
  fixed_now_millis : option Z }.

(** [PersistedTable] has the fields of [TableState]. *)
Record PersistedState := mkPersisted {
  p_tables : gmap string TableState;
  p_backups : gmap string BackupDescription;
  p_backup_tables : gmap string TableDescription;
  p_backup_items : gmap string (gmap string Item) }.

(** The server, [state.json], and the number of system calls made. *)
Record World := mkWorld { server : Server; w_disk : option string; w_tick : nat }.

Class Env := {
  (** [SystemTime::now()] since the epoch, at the k-th call. *)
  clock_unix : nat -> Z;
  clock_millis : nat -> Z;
  (** The error of the k-th file system call, if it fails. *)
  fs_create_dir_all : nat -> option string;
  fs_write : nat -> option string;
  fs_rename : nat -> option string;
  fs_read : nat -> option string;
  (** serde_json at three types, and hex of SHA-256. *)
  state_from_slice : string -> PersistedState + string;
  iterator_from_slice : string -> StreamIterator + string;
  is_json : string -> bool;
  sha256_hex : string -> string }.

(** ** Updates of the state *)

Definition set_item_count (n : Z) (d : TableDescription) : TableDescription :=
  mkDesc (attribute_definitions d) (billing_mode_summary d) (creation_date_time d)
    (global_secondary_indexes d) n (key_schema d) (latest_stream_arn d) (latest_stream_label d)
    (local_secondary_indexes d) (stream_specification d) (table_arn d) (table_name d)
    (table_size_bytes d) (table_status d) (time_to_live_description d).
Definition set_indexes (gsis : list GlobalSecondaryIndexDescription)
    (lsis : list LocalSecondaryIndexDescription) (d : TableDescription) : TableDescription :=
  mkDesc (attribute_definitions d) (billing_mode_summary d) (creation_date_time d)
    gsis (item_count d) (key_schema d) (latest_stream_arn d) (latest_stream_label d)
    lsis (stream_specification d) (table_arn d) (table_name d)
    (table_size_bytes d) (table_status d) (time_to_live_description d).
Definition set_description (d : TableDescription) (t : TableState) : TableState :=
  mkTable d (st_items t) (st_stream_records t) (st_tags t) (st_continuous_backups t)
    (st_resource_policy t) (st_resource_policy_revision t).
Definition set_items (i : gmap string Item) (t : TableState) : TableState :=
  mkTable (st_description t) i (st_stream_records t) (st_tags t) (st_continuous_backups t)
    (st_resource_policy t) (st_resource_policy_revision t).
Definition set_stream_records (l : list StreamRecord) (t : TableState) : TableState :=
  mkTable (st_description t) (st_items t) l (st_tags t) (st_continuous_backups t)
    (st_resource_policy t) (st_resource_policy_revision t).

Definition set_tables (ts : gmap string TableState) (s : Server) : Server :=
  mkServer (config s) ts (backups s) (backup_tables s) (backup_items s) (load_err s)
    (table_cache s) (dirty_tables s) (fixed_now_unix s) (fixed_now_millis s).
Definition set_backups (b : gmap string BackupDescription) (bt : gmap string TableDescription)
    (bi : gmap string (gmap string Item)) (s : Server) : Server :=
  mkServer (config s) (tables s) b bt bi (load_err s)
    (table_cache s) (dirty_tables s) (fixed_now_unix s) (fixed_now_millis s).
Definition set_cache (c : gmap string string) (d : gset string) (s : Server) : Server :=
  mkServer (config s) (tables s) (backups s) (backup_tables s) (backup_items s) (load_err s)
    c d (fixed_now_unix s) (fixed_now_millis s).
Definition set_load_err (e : option string) (s : Server) : Server :=
  mkServer (config s) (tables s) (backups s) (backup_tables s) (backup_items s) e
    (table_cache s) (dirty_tables s) (fixed_now_unix s) (fixed_now_millis s).
Definition add_dirty (name : string) (s : Server) : Server :=
  set_cache (table_cache s) ({[name]} ∪ dirty_tables s) s.
Definition remove_dirty (name : string) (s : Server) : Server :=
  set_cache (table_cache s) (dirty_tables s ∖ {[name]}) s.
Definition put_table (name : string) (t : TableState) (s : Server) : Server :=
  set_tables (<[name := t]> (tables s)) s.
(** [self.tables.get_mut(name)] followed by an update of what it points to. *)
Definition alter_table (f : TableState -> TableState) (name : string) (s : Server) : Server :=
  set_tables (alter f name (tables s)) s.

Definition on_server (f : Server -> Server) (w : World) : World := mkWorld (f (server w)) (w_disk w) (w_tick w).
Definition set_disk (d : option string) (w : World) : World := mkWorld (server w) d (w_tick w).

(** ** Item counts *)

Definition item_has_all_keys (value : Item) (schema : list KeySchemaElement) : bool :=
  forallb (fun e => bool_decide (is_Some (value !! attribute_name e))) schema.
Definition count_items (items : gmap string Item) (schema : list KeySchemaElement) : Z :=
  Z.of_nat (length (List.filter (fun e => item_has_all_keys e.2 schema) (btree_iter items))).
Definition gsi_counted (items : gmap string Item) (i : GlobalSecondaryIndexDescription)
    : GlobalSecondaryIndexDescription :=
  mkGsi (gsi_arn i) (gsi_name i) (gsi_size_bytes i) (gsi_status i) (count_items items (gsi_key_schema i))
    (gsi_key_schema i) (gsi_projection i) (gsi_provisioned_throughput i).
Definition lsi_counted (items : gmap string Item) (i : LocalSecondaryIndexDescription)
    : LocalSecondaryIndexDescription :=
  mkLsi (lsi_arn i) (lsi_name i) (lsi_size_bytes i) (count_items items (lsi_key_schema i))
    (lsi_key_schema i) (lsi_projection i).
Definition update_index_item_counts (state : TableState) : TableState :=
  let d := st_description state in
  set_description (set_indexes (map (gsi_counted (st_items state)) (global_secondary_indexes d))
                     (map (lsi_counted (st_items state)) (local_secondary_indexes d)) d) state.
(** [state.description.item_count = state.items.len(); update_index_item_counts(state)] *)
Definition recount (state : TableState) : TableState :=
  update_index_item_counts
    (set_description (set_item_count (Z.of_nat (size (st_items state))) (st_description state)) state).

(** ** The state file *)

(** [PersistedTableRef] and [PersistedTable] *)
Definition table_value (t : TableState) : Value :=
  struct_value [
    field "description" (description_value (st_description t));
    field "items" (map_value item_value (st_items t));
    list_field "streamRecords" stream_record_value (st_stream_records t);
    skip_if (bool_decide (st_tags t = ∅)) "tags" (map_value JString (st_tags t));
    opt_field "continuousBackups" continuous_backups_value (st_continuous_backups t);
    str_field "resourcePolicy" (st_resource_policy t);
    str_field "resourcePolicyRevision" (st_resource_policy_revision t)].
Definition backup_items_value (m : gmap string (gmap string Item)) : Value :=
  map_value (map_value item_value) m.
Definition state_value (p : PersistedState) : Value :=
  struct_value [
    field "tables" (map_value table_value (p_tables p));
    skip_if (bool_decide (p_backups p = ∅)) "backups" (map_value backup_value (p_backups p));
    skip_if (bool_decide (p_backup_tables p = ∅)) "backupTables" (map_value description_value (p_backup_tables p));
    skip_if (bool_decide (p_backup_items p = ∅)) "backupItems" (backup_items_value (p_backup_items p))].

Section Persistence.
Context `{SerdeJson}.

Definition to_state_json (p : PersistedState) : string := to_vec (state_value p).
Definition encode_persisted_table (state : TableState) : string := marshal (table_value state).

(** The tables encoded anew: dirty, or not in the cache. *)
Definition fresh_tables (s : Server) : gmap string string :=
  map_imap (fun name state =>
    if bool_decide (name ∈ dirty_tables s) || negb (bool_decide (is_Some (table_cache s !! name)))
    then Some (encode_persisted_table state) else None) (tables s).
Definition encoded_table (fresh cache : gmap string string) (name : string) : result ApiError string :=
  match fresh !! name with
  | Some e => Ok e
  | None => match cache !! name with
            | Some e => Ok e
            | None => Panic "every table has fresh or cached encoded bytes"
            end
  end.

Definition json_key (k : string) : string := char_str dquote +:+ k +:+ char_str dquote +:+ ":".
(** The loop over [self.tables.keys()]. *)
Fixpoint table_members (fresh cache : gmap string string) (names : list string) (first : bool)
    : result ApiError string :=
  match names with
  | [] => Ok ""
  | name :: rest =>
      encoded ← encoded_table fresh cache name;
      more ← table_members fresh cache rest false;
      Ok ((if first then "" else ",") +:+ marshal (JString name) +:+ ":" +:+ encoded +:+ more)
  end.
Definition map_section {V} (k : string) (f : V -> Value) (m : gmap string V) : string :=
  if bool_decide (m = ∅) then "" else "," +:+ json_key k +:+ marshal (map_value f m).
Definition state_buffer (s : Server) (fresh : gmap string string) : result ApiError string :=
  members ← table_members fresh (table_cache s) (btree_iter (tables s)).*1 true;
  Ok ("{" +:+ json_key "tables" +:+ "{" +:+ members +:+ "}"
      +:+ map_section "backups" backup_value (backups s)
      +:+ map_section "backupTables" description_value (backup_tables s)
      +:+ map_section "backupItems" (map_value item_value) (backup_items s)
      +:+ "}" +:+ char_str lf).
End Persistence.

(** ** System calls *)

Definition Api : Type -> Type := ME ApiError World.

Section System.
Context `{Env, SerdeJson}.

Definition next_tick : Api nat := fun w => (Ok (w_tick w), mkWorld (server w) (w_disk w) (S (w_tick w))).
Definition fs_failed : ApiError := internal "failed to persist dynamodb state".
(** A file system call under [.map_err(|_| ApiError::internal(..))?]. *)
Definition fs_call (call : nat -> option string) : Api unit :=
  t ← next_tick;
  match call t with None => mret tt | Some _ => fail fs_failed end.

Definition now_unix : Api Z :=
  s ← gets server;
  match fixed_now_unix s with Some n => mret n | None => t ← next_tick; mret (clock_unix t) end.
Definition now_millis : Api Z :=
  s ← gets server;
  match fixed_now_millis s with Some n => mret n | None => t ← next_tick; mret (clock_millis t) end.

(** [cache.extend(fresh); dirty.clear(); cache.retain(|name| tables.contains(name))] *)
Definition commit_cache (fresh : gmap string string) (s : Server) : Server :=
  set_cache (map_imap (fun name b => if bool_decide (is_Some (tables s !! name)) then Some b else None)
               (fresh ∪ table_cache s)) ∅ s.

Definition persist : Api unit :=
  s ← gets server;
  if is_empty (storage_path (config s)) then mret tt
  else
    fs_call fs_create_dir_all;;
    let fresh := fresh_tables s in
    buf ← lift (state_buffer s fresh);
    fs_call fs_write;;
    fs_call fs_rename;;
    modify (set_disk (Some buf));;
    modify (on_server (commit_cache fresh)).

(** [if let Err(err) = self.persist() { rollback; return Err(err); }] *)
Definition persist_or (rollback : Server -> Server) : Api unit :=
  r ← catch persist;
  match r with
  | inl _ => mret tt
  | inr e => modify (on_server rollback);; fail e
  end.

(** [Server::load]; its errors are strings. *)
Definition load_table (t : TableState) : TableState := recount t.
Definition load : ME string World unit :=
  t ← (fun w => (Ok (w_tick w), mkWorld (server w) (w_disk w) (S (w_tick w))));
  disk ← gets w_disk;
  match disk with
  | None => mret tt
  | Some data =>
      match fs_read t with
      | Some e => fail e
      | None =>
          persisted ← lift (of_result (state_from_slice data));
          modify (on_server (fun s =>
            set_backups (p_backups persisted) (p_backup_tables persisted) (p_backup_items persisted)
              (foldl (fun s e => put_table e.1 (load_table e.2) s) s (btree_iter (p_tables persisted)))))
      end
  end.
(** [Server::new], in place of the running server. *)
Definition new (c : Config) : ME string World unit :=
  modify (on_server (fun _ => mkServer c ∅ ∅ ∅ ∅ None ∅ ∅ None None));;
  if is_empty (storage_path c) then mret tt
  else
    r ← catch load;
    match r with
    | inl _ => mret tt
    | inr e => modify (on_server (set_load_err (Some e)))
    end.

Definition table_arn_of (c : Config) (name : string) : string :=
  "arn:aws:dynamodb:" +:+ region c +:+ ":" +:+ ACCOUNT_ID +:+ ":table/" +:+ name.

Definition append_stream_record (table event : string) (old_item new_item : option Item) : Api unit :=
  s ← gets server;
  now ← now_unix;
  match tables s !! table with
  | None => mret tt
  | Some state =>
      match build_stream_record (st_description state) (region (config s))
              (Z.of_nat (length (st_stream_records state))) event old_item new_item now with
      | Some record =>
          modify (on_server (put_table table
            (set_stream_records (st_stream_records state ++ [record])%list state)))
      | None => mret tt
      end
  end.

(** [self.tables.get(name).ok_or_else(|| not_found("table not found"))?] *)
Definition table_named (name : string) : Api TableState :=
  s ← gets server; lift (ok_or (not_found "table not found") (tables s !! name)).
(** [.map_err(ApiError::validation)?] *)
Definition validated {A} (o : outcome A) : result ApiError A := map_err validation o.
End System.
