(* ===== verification/DynItems.v ===== *)
(** The item operations of the DynamoDB server (src/services/dynamodb/src/server.rs):
    PutItem, GetItem, DeleteItem, UpdateItem, Query, Scan, the batch calls and the
    transactions.  A write validates, checks its condition against the stored item,
    changes the table, appends its stream record, persists, and takes everything
    back when persisting fails. *)

From S2P Require Import Prelude RustStr RustNum RustText Json DynModel DynValue DynExpr DynUpdate DynQuery DynState.
Local Open Scope string_scope.
Local Open Scope Z_scope.

Section Items.
Context `{Env, SerdeJson, UnicodeCase}.

Definition upper_or_none (value : string) : string :=
  if is_empty value then "NONE" else to_uppercase value.
Definition valid_return_consumed_capacity (value : string) : bool :=
  bool_decide (upper_or_none value ∈ ["NONE"; "TOTAL"; "INDEXES"]).

(** [old] against [new]: new or changed attributes, and the old values of the
    changed or removed ones. *)
Definition same_attribute (a b : option Value) : bool :=
  match a, b with Some x, Some y => attribute_values_equal x y | _, _ => false end.
Definition updated_attributes (old new : Item) : Item :=
  map_imap (fun name v => if same_attribute (old !! name) (Some v) then None else Some v) new.
Definition updated_old_attributes (old new : Item) : Item :=
  map_imap (fun name v => if same_attribute (Some v) (new !! name) then None else Some v) old.

Definition consumed (table_name : string) : Value :=
  JObject (obj_insert "CapacityUnits" (int_value 1) (obj_insert "TableName" (JString table_name) [])).
Definition no_capacity (mode : string) : bool := is_empty mode || eq_ignore_ascii_case mode "NONE".
Definition add_consumed_capacity (response : list (string * Value)) (table_name mode : string)
    : list (string * Value) :=
  if no_capacity mode then response else obj_insert "ConsumedCapacity" (consumed table_name) response.
Definition append_batch_consumed_capacity (values : list Value) (table_name mode : string) : list Value :=
  if no_capacity mode then values else (values ++ [consumed table_name])%list.

Definition validate_item_size (c : Config) (value : Item) : outcome unit :=
  validate_item_attribute_values value;;
  if max_item_bytes c <? str_len (marshal (item_value value))
  then Err ("item size exceeds maximum of " +:+ show_Z (max_item_bytes c) +:+ " bytes") else Ok tt.

(** The response body of a [Map]. *)
Definition respond (response : list (string * Value)) : string := to_vec (JObject response).
Definition all_old (return_values : string) (old_item : option Item) (response : list (string * Value))
    : list (string * Value) :=
  if str_eqb return_values "ALL_OLD" then
    match old_item with Some prev => obj_insert "Attributes" (item_value prev) response | None => response end
  else response.

Definition check_table_name (name : string) : Api unit :=
  guard_err (is_empty name) (validation "table name is required").
Definition none_or_all_old (v : string) : bool := str_eqb v "NONE" || str_eqb v "ALL_OLD".
Definition check_return_values (v : string) : Api unit :=
  guard_err (negb (none_or_all_old v)) (validation "return values must be NONE or ALL_OLD").
Definition check_failure_return (v : string) : Api unit :=
  guard_err (negb (none_or_all_old v))
    (validation "return values on condition check failure must be NONE or ALL_OLD").
Definition check_capacity (v : string) : Api unit :=
  guard_err (negb (valid_return_consumed_capacity v))
    (validation "return consumed capacity must be NONE, TOTAL, or INDEXES").

(** [self.tables.get_mut(name).unwrap()] *)
Definition table_unwrap (name : string) : Api TableState :=
  s ← gets server;
  match tables s !! name with Some t => mret t | None => panic "called `Option::unwrap()` on a `None` value" end.

Definition restore_item (key : string) (prev : option Item) (items : gmap string Item) : gmap string Item :=
  match prev with Some item => <[key := item]> items | None => delete key items end.

(** The tail of PutItem and UpdateItem: store, count, log, persist or roll back. *)
Definition store_item (table key : string) (item : Item) (old_item : option Item) : Api unit :=
  before ← table_unwrap table;
  let stream_len := length (st_stream_records before) in
  modify (on_server (put_table table (recount (set_items (<[key := item]> (st_items before)) before))));;
  modify (on_server (add_dirty table));;
  append_stream_record table (stream_event_name (bool_decide (is_Some old_item)) false) old_item (Some item);;
  persist_or (alter_table (fun state =>
    recount (set_stream_records (take stream_len (st_stream_records state))
      (set_items (restore_item key old_item (st_items state)) state))) table).

(** The tail of DeleteItem. *)
Definition drop_item (table key : string) (old_item : option Item) : Api unit :=
  before ← table_unwrap table;
  let stream_len := length (st_stream_records before) in
  modify (on_server (put_table table (recount (set_items (delete key (st_items before)) before))));;
  append_stream_record table "REMOVE" old_item None;;
  modify (on_server (add_dirty table));;
  persist_or (alter_table (fun state =>
    recount (set_stream_records (take stream_len (st_stream_records state))
      (set_items (match old_item with Some prev => <[key := prev]> (st_items state) | None => st_items state end)
         state))) table).

(** [check_condition(..).map_err(|msg| ApiError::condition_check_failed(..))?] *)
Definition condition_or_fail (expression : string) (names : Names) (values : Values) (old_item : option Item)
    (failure_return : string) : Api unit :=
  lift (map_err (fun msg => condition_check_failed msg failure_return old_item)
          (check_condition expression names values old_item)).

Definition put_item (request : PutItemRequest) : Api string :=
  check_table_name (pi_table_name request);;
  guard_err (bool_decide (pi_item request = ∅)) (validation "item is required");;
  s ← gets server;
  lift (validated (validate_item_size (config s) (pi_item request)));;
  let return_values := upper_or_none (pi_return_values request) in
  check_return_values return_values;;
  let failure_return := upper_or_none (pi_return_values_on_condition_check_failure request) in
  check_failure_return failure_return;;
  check_capacity (pi_return_consumed_capacity request);;
  state ← table_named (pi_table_name request);
  key ← lift (validated (item_key (st_description state) (pi_item request)));
  let old_item := st_items state !! key in
  condition_or_fail (pi_condition_expression request) (pi_expression_attribute_names request)
    (pi_expression_attribute_values request) old_item failure_return;;
  store_item (pi_table_name request) key (pi_item request) old_item;;
  mret (respond (add_consumed_capacity (all_old return_values old_item [])
                   (pi_table_name request) (pi_return_consumed_capacity request))).

Definition get_item (request : GetItemRequest) : Api string :=
  check_table_name (gi_table_name request);;
  check_capacity (gi_return_consumed_capacity request);;
  state ← table_named (gi_table_name request);
  key ← lift (validated (item_key (st_description state) (gi_key request)));
  let response := match st_items state !! key with
    | Some found => obj_insert "Item" (item_value (project_item found (gi_projection_expression request)
                      (gi_expression_attribute_names request))) []
    | None => []
    end in
  mret (respond (add_consumed_capacity response (gi_table_name request) (gi_return_consumed_capacity request))).

Definition delete_item (request : DeleteItemRequest) : Api string :=
  check_table_name (di_table_name request);;
  state ← table_named (di_table_name request);
  key ← lift (validated (item_key (st_description state) (di_key request)));
  let return_values := upper_or_none (di_return_values request) in
  check_return_values return_values;;
  let failure_return := upper_or_none (di_return_values_on_condition_check_failure request) in
  check_failure_return failure_return;;
  check_capacity (di_return_consumed_capacity request);;
  let old_item := st_items state !! key in
  condition_or_fail (di_condition_expression request) (di_expression_attribute_names request)
    (di_expression_attribute_values request) old_item failure_return;;
  drop_item (di_table_name request) key old_item;;
  mret (respond (add_consumed_capacity (all_old return_values old_item [])
                   (di_table_name request) (di_return_consumed_capacity request))).

(** [apply_update_expression(&mut updated, ..)], on a working copy. *)
Definition updated_item (expression : string) (names : Names) (values : Values) (item : Item)
    : result ApiError Item :=
  match apply_update_expression names values expression item with
  | (Ok _, updated) => Ok updated
  | (Err e, _) => Err (validation e)
  | (Panic w, _) => Panic w
  end.

Definition update_response (return_values : string) (existed : bool) (old updated : Item)
    : list (string * Value) :=
  let attributes attrs := if bool_decide (attrs = ∅) then [] else obj_insert "Attributes" (item_value attrs) [] in
  if str_eqb return_values "ALL_NEW" then obj_insert "Attributes" (item_value updated) []
  else if str_eqb return_values "ALL_OLD" then
    if existed then obj_insert "Attributes" (item_value old) [] else []
  else if str_eqb return_values "UPDATED_NEW" then attributes (updated_attributes old updated)
  else if str_eqb return_values "UPDATED_OLD" then attributes (updated_old_attributes old updated)
  else [].

Definition update_item (request : UpdateItemRequest) : Api string :=
  check_table_name (ui_table_name request);;
  state ← table_named (ui_table_name request);
  key ← lift (validated (item_key (st_description state) (ui_key request)));
  let return_values := upper_or_none (ui_return_values request) in
  guard_err (negb (bool_decide (return_values ∈ ["NONE"; "ALL_OLD"; "UPDATED_OLD"; "ALL_NEW"; "UPDATED_NEW"])))
    (validation "return values must be NONE, ALL_OLD, UPDATED_OLD, ALL_NEW, or UPDATED_NEW");;
  let failure_return := upper_or_none (ui_return_values_on_condition_check_failure request) in
  check_failure_return failure_return;;
  check_capacity (ui_return_consumed_capacity request);;
  let old_item := st_items state !! key in
  condition_or_fail (ui_condition_expression request) (ui_expression_attribute_names request)
    (ui_expression_attribute_values request) old_item failure_return;;
  updated ← lift (updated_item (ui_update_expression request) (ui_expression_attribute_names request)
              (ui_expression_attribute_values request) (default (ui_key request) old_item));
  s ← gets server;
  lift (validated (validate_item_size (config s) updated));;
  store_item (ui_table_name request) key updated old_item;;
  mret (respond (add_consumed_capacity
    (update_response return_values (bool_decide (is_Some old_item)) (default ∅ old_item) updated)
    (ui_table_name request) (ui_return_consumed_capacity request))).

(** ** Reading many items *)

Definition table_has_index (description : TableDescription) (index_name : string) : bool :=
  existsb (fun i => str_eqb (gsi_name i) index_name) (global_secondary_indexes description)
  || existsb (fun i => str_eqb (lsi_name i) index_name) (local_secondary_indexes description).
Definition check_index (description : TableDescription) (index_name : string) : Api unit :=
  guard_err (negb (is_empty index_name) && negb (table_has_index description index_name))
    (validation "index not found").

Definition query (request : QueryRequest) : Api string :=
  check_table_name (qr_table_name request);;
  guard_err (is_empty (trim (qr_key_condition_expression request)))
    (validation "key condition expression is required");;
  lift (validated (validate_select (qr_select request) (qr_projection_expression request)));;
  check_capacity (qr_return_consumed_capacity request);;
  state ← table_named (qr_table_name request);
  let description := st_description state in
  check_index description (qr_index_name request);;
  let items := sorted_items_for_query (st_items state) description (qr_index_name request) in
  let items := if bool_decide (qr_scan_index_forward request = Some false) then reverse_items items else items in
  start_key ← lift (validated (start_key_string description (qr_exclusive_start_key request)));
  let names := qr_expression_attribute_names request in
  let values := qr_expression_attribute_values request in
  response ← lift (validated (collect_items
    (fun candidate => match_key_condition names values candidate (qr_key_condition_expression request))
    description (qr_index_name request) items (qr_limit request) start_key
    (qr_projection_expression request) names false));
  mret (respond (add_consumed_capacity (apply_select response (qr_select request))
                   (qr_table_name request) (qr_return_consumed_capacity request))).

Definition scan (request : ScanRequest) : Api string :=
  check_table_name (sc_table_name request);;
  lift (validated (validate_select (sc_select request) (sc_projection_expression request)));;
  check_capacity (sc_return_consumed_capacity request);;
  state ← table_named (sc_table_name request);
  let description := st_description state in
  check_index description (sc_index_name request);;
  start_key ← lift (validated (start_key_string description (sc_exclusive_start_key request)));
  let items := sorted_items_for_scan (st_items state) description (sc_index_name request) in
  let names := sc_expression_attribute_names request in
  let values := sc_expression_attribute_values request in
  response ← lift (validated (collect_items
    (fun candidate => match_filter names values candidate (sc_filter_expression request))
    description (sc_index_name request) items (sc_limit request) start_key
    (sc_projection_expression request) names true));
  mret (respond (add_consumed_capacity (apply_select response (sc_select request))
                   (sc_table_name request) (sc_return_consumed_capacity request))).

(** The items found for the keys of one table of BatchGetItem. *)
Definition batch_found (state : TableState) (table_request : BatchGetTableRequest) (key_value : Item)
    (found_items : list Value) : Api (list Value) :=
  key ← lift (validated (item_key (st_description state) key_value));
  match st_items state !! key with
  | Some found =>
      mret (found_items ++ [item_value (project_item found (bgt_projection_expression table_request)
                              (bgt_expression_attribute_names table_request))])%list
  | None => mret found_items
  end.
Definition batch_get_table (mode : string) (entry : string * BatchGetTableRequest)
    (acc : list (string * Value) * list Value) : Api (list (string * Value) * list Value) :=
  let '(table_name, table_request) := entry in
  state ← table_named table_name;
  guard_err (nil_b (bgt_keys table_request)) (validation "keys are required");;
  found_items ← for_each (bgt_keys table_request) [] (batch_found state table_request);
  mret (obj_insert table_name (JArray found_items) acc.1,
        append_batch_consumed_capacity acc.2 table_name mode).
Definition with_consumed (consumed : list Value) (response : list (string * Value)) : list (string * Value) :=
  if nil_b consumed then response else obj_insert "ConsumedCapacity" (JArray consumed) response.

Definition batch_get_item (request : BatchGetItemRequest) : Api string :=
  guard_err (bool_decide (bg_request_items request = ∅)) (validation "request items are required");;
  check_capacity (bg_return_consumed_capacity request);;
  '(responses, consumed) ← for_each (btree_iter (bg_request_items request)) ([], [])
      (batch_get_table (bg_return_consumed_capacity request));
  mret (respond (with_consumed consumed
    (obj_insert "UnprocessedKeys" (JObject []) (obj_insert "Responses" (JObject responses) [])))).

(** ** Planned writes *)

Record PlannedWrite := mkPlanned { pw_table : string; pw_key : string; pw_put : option Item }.

(** The stored item a write will replace, if its table exists. *)
Definition backup_of (s : Server) (write : PlannedWrite) : option (string * string * option Item) :=
  state ← tables s !! pw_table write;
  Some (pw_table write, pw_key write, st_items state !! pw_key write).
Definition apply_write (write : PlannedWrite) (touched : gset string) : Api (gset string) :=
  state ← table_unwrap (pw_table write);
  modify (on_server (put_table (pw_table write)
    (set_items (restore_item (pw_key write) (pw_put write) (st_items state)) state)));;
  mret ({[pw_table write]} ∪ touched).
Definition recount_tables (touched : gset string) (s : Server) : Server :=
  set_tables (map_imap (fun name t => Some (if bool_decide (name ∈ touched) then recount t else t)) (tables s)) s.
Definition undo_write (s : Server) (backup : string * string * option Item) : Server :=
  let '(table, key, prev) := backup in
  alter_table (fun state => set_items (restore_item key prev (st_items state)) state) table s.

Definition apply_planned_writes (plan : list PlannedWrite) : Api unit :=
  s ← gets server;
  let backups := omap (backup_of s) plan in
  touched ← for_each plan ∅ apply_write;
  modify (on_server (recount_tables touched));;
  modify (on_server (fun s => set_cache (table_cache s) (touched ∪ dirty_tables s) s));;
  persist_or (fun s => recount_tables touched (foldl undo_write s (rev backups))).

(** One write request of BatchWriteItem. *)
Definition plan_write (c : Config) (table_name : string) (state : TableState) (write : WriteRequest)
    (plan : list PlannedWrite) : Api (list PlannedWrite) :=
  let has_put := bool_decide (is_Some (wr_put_request write)) in
  let has_delete := bool_decide (is_Some (wr_delete_request write)) in
  guard_err (Bool.eqb has_put has_delete) (validation "each write request must contain exactly one operation");;
  plan ← match wr_put_request write with
         | Some put =>
             guard_err (bool_decide (pr_item put = ∅)) (validation "put item is required");;
             lift (validated (validate_item_size c (pr_item put)));;
             key ← lift (validated (item_key (st_description state) (pr_item put)));
             mret (plan ++ [mkPlanned table_name key (Some (pr_item put))])%list
         | None => mret plan
         end;
  match wr_delete_request write with
  | Some del =>
      key ← lift (validated (item_key (st_description state) (del_key del)));
      mret (plan ++ [mkPlanned table_name key None])%list
  | None => mret plan
  end.

Definition plan_batch_table (c : Config) (mode : string) (entry : string * list WriteRequest)
    (acc : list PlannedWrite * list Value) : Api (list PlannedWrite * list Value) :=
  let '(table_name, writes) := entry in
  state ← table_named table_name;
  guard_err (nil_b writes) (validation "write requests are required");;
  plan ← for_each writes acc.1 (plan_write c table_name state);
  mret (plan, append_batch_consumed_capacity acc.2 table_name mode).

Definition batch_write_item (request : BatchWriteItemRequest) : Api string :=
  guard_err (bool_decide (bw_request_items request = ∅)) (validation "request items are required");;
  check_capacity (bw_return_consumed_capacity request);;
  s ← gets server;
  '(plan, consumed) ← for_each (btree_iter (bw_request_items request)) ([], [])
      (plan_batch_table (config s) (bw_return_consumed_capacity request));
  apply_planned_writes plan;;
  mret (respond (with_consumed consumed (obj_insert "UnprocessedItems" (JObject []) []))).

(** ** Transactions *)

Definition transact_get (transaction_item : TransactGetItem) (responses : list Value) : Api (list Value) :=
  get ← lift (ok_or (validation "each transaction item must contain a Get operation") (tgi_get transaction_item));
  check_table_name (tg_table_name get);;
  state ← table_named (tg_table_name get);
  key ← lift (validated (item_key (st_description state) (tg_key get)));
  mret (responses ++ [match st_items state !! key with
    | None => JObject []
    | Some found => JObject (obj_insert "Item" (item_value (project_item found (tg_projection_expression get)
                                                  (tg_expression_attribute_names get))) [])
    end])%list.
Definition transact_get_items (request : TransactGetItemsRequest) : Api string :=
  guard_err (nil_b (tgs_transact_items request)) (validation "transaction items are required");;
  responses ← for_each (tgs_transact_items request) [] transact_get;
  mret (respond (obj_insert "Responses" (JArray responses) [])).

Definition transaction_cancelled : ApiError :=
  api_error 400 "TransactionCanceledException" "transaction cancelled".
Definition transact_condition (expression : string) (names : Names) (values : Values) (old_item : option Item)
    : Api unit :=
  lift (map_err (fun _ => transaction_cancelled) (check_condition expression names values old_item)).

Definition validate_transact_put (request : TransactPut) : Api PlannedWrite :=
  check_table_name (tp_table_name request);;
  guard_err (bool_decide (tp_item request = ∅)) (validation "item is required");;
  state ← table_named (tp_table_name request);
  key ← lift (validated (item_key (st_description state) (tp_item request)));
  transact_condition (tp_condition_expression request) (tp_expression_attribute_names request)
    (tp_expression_attribute_values request) (st_items state !! key);;
  s ← gets server;
  lift (validated (validate_item_size (config s) (tp_item request)));;
  mret (mkPlanned (tp_table_name request) key (Some (tp_item request))).
Definition validate_transact_update (request : TransactUpdate) : Api PlannedWrite :=
  check_table_name (tu_table_name request);;
  state ← table_named (tu_table_name request);
  key ← lift (validated (item_key (st_description state) (tu_key request)));
  let old_item := st_items state !! key in
  transact_condition (tu_condition_expression request) (tu_expression_attribute_names request)
    (tu_expression_attribute_values request) old_item;;
  updated ← lift (updated_item (tu_update_expression request) (tu_expression_attribute_names request)
              (tu_expression_attribute_values request) (default (tu_key request) old_item));
  s ← gets server;
  lift (validated (validate_item_size (config s) updated));;
  mret (mkPlanned (tu_table_name request) key (Some updated)).
Definition validate_transact_delete (request : TransactDelete) : Api PlannedWrite :=
  check_table_name (td_table_name request);;
  state ← table_named (td_table_name request);
  key ← lift (validated (item_key (st_description state) (td_key request)));
  transact_condition (td_condition_expression request) (td_expression_attribute_names request)
    (td_expression_attribute_values request) (st_items state !! key);;
  mret (mkPlanned (td_table_name request) key None).
Definition validate_transact_condition_check (request : TransactConditionCheck) : Api unit :=
  check_table_name (tcc_table_name request);;
  guard_err (is_empty (trim (tcc_condition_expression request))) (validation "condition expression is required");;
  state ← table_named (tcc_table_name request);
  key ← lift (validated (item_key (st_description state) (tcc_key request)));
  transact_condition (tcc_condition_expression request) (tcc_expression_attribute_names request)
    (tcc_expression_attribute_values request) (st_items state !! key).

Definition count_transact_write_operations (item : TransactWriteItem) : Z :=
  let one {A} (o : option A) := match o with Some _ => 1 | None => 0 end in
  one (tw_put item) + one (tw_update item) + one (tw_delete item) + one (tw_condition_check item).

(** The table and key attributes a transaction item names. *)
Definition transact_target (item : TransactWriteItem) : result ApiError (string * Item) :=
  match tw_put item, tw_update item, tw_delete item, tw_condition_check item with
  | Some put, _, _, _ => Ok (tp_table_name put, tp_item put)
  | None, Some update, _, _ => Ok (tu_table_name update, tu_key update)
  | None, None, Some delete, _ => Ok (td_table_name delete, td_key delete)
  | None, None, None, Some check => Ok (tcc_table_name check, tcc_key check)
  | None, None, None, None => Panic "count_transact_write_operations guarantees exactly one operation"
  end.
(** The key of the item a transaction item names, when it has one. *)
Definition transact_key (s : Server) (table_name : string) (key_values : Item) : option string :=
  if is_empty table_name then None
  else state ← tables s !! table_name; ok_opt (item_key (st_description state) key_values).

Definition plan_transact (transaction_item : TransactWriteItem)
    (acc : list PlannedWrite * list (string * string)) : Api (list PlannedWrite * list (string * string)) :=
  let '(plan, seen_keys) := acc in
  guard_err (negb (count_transact_write_operations transaction_item =? 1))
    (validation "each transaction item must contain exactly one operation");;
  '(table_name, key_values) ← lift (transact_target transaction_item);
  s ← gets server;
  seen_keys ← match transact_key s table_name key_values with
              | Some key =>
                  if bool_decide ((table_name, key) ∈ seen_keys) then
                    fail (validation "Transaction request cannot include multiple operations on one item")
                  else mret ((table_name, key) :: seen_keys)
              | None => mret seen_keys
              end;
  match tw_put transaction_item, tw_update transaction_item, tw_delete transaction_item,
        tw_condition_check transaction_item with
  | Some put, _, _, _ => w ← validate_transact_put put; mret (plan ++ [w], seen_keys)%list
  | None, Some update, _, _ => w ← validate_transact_update update; mret (plan ++ [w], seen_keys)%list
  | None, None, Some delete, _ => w ← validate_transact_delete delete; mret (plan ++ [w], seen_keys)%list
  | None, None, None, Some check => validate_transact_condition_check check;; mret (plan, seen_keys)
  | None, None, None, None => mret (plan, seen_keys)
  end.

Definition transact_write_items (request : TransactWriteItemsRequest) : Api string :=
  guard_err (nil_b (tws_transact_items request)) (validation "transaction items are required");;
  '(plan, _) ← for_each (tws_transact_items request) ([], []) plan_transact;
  apply_planned_writes plan;;
  mret (respond []).
End Items.
