(* ===== verification/DynTables.v ===== *)
(** The management calls of the DynamoDB server (services/dynamodb/src/server.rs): tables,
    and time to live, backups, tags, policies and global tables. *)

From S2P Require Import Prelude RustStr RustNum RustText Json DynNumber DynModel DynState DynItems.
Local Open Scope string_scope.
Local Open Scope Z_scope.

(** Table management in the DynamoDB server: the request validation of
    src/services/dynamodb/src/validation.rs, the stream label of time_util.rs, and
    CreateTable, DescribeTable, UpdateTable, DeleteTable, ListTables of server.rs. *)

(** ** validation.rs *)

Definition one_of (l : list string) (s : string) : bool := existsb (str_eqb s) l.
Definition unless_err (ok : bool) (e : string) : outcome unit := if ok then Ok tt else Err e.

Definition validate_stream_specification (spec : StreamSpecification) : outcome unit :=
  if negb (stream_enabled spec) then Ok tt
  else if one_of ["KEYS_ONLY"; "NEW_IMAGE"; "OLD_IMAGE"; "NEW_AND_OLD_IMAGES"] (stream_view_type spec) then Ok tt
  else if is_empty (stream_view_type spec) then Err "stream view type is required when stream is enabled"
  else Err "stream view type must be KEYS_ONLY, NEW_IMAGE, OLD_IMAGE, or NEW_AND_OLD_IMAGES".

Definition table_hash_key (schema : list KeySchemaElement) : string :=
  match List.find (fun e => str_eqb (key_type e) "HASH") schema with
  | Some e => attribute_name e
  | None => ""
  end.

(** The names of the attribute definitions, each checked. *)
Fixpoint defined_attributes (definitions : list AttributeDefinition) (attributes : gset string)
    : outcome (gset string) :=
  match definitions with
  | [] => Ok attributes
  | d :: rest =>
      unless_err (negb (is_empty (ad_name d))) "attribute name is required";;
      unless_err (one_of ["S"; "N"; "B"] (ad_type d)) "attribute type must be S, N, or B";;
      defined_attributes rest ({[ad_name d]} ∪ attributes)
  end.

(** The loop that counts HASH and RANGE keys, with its three messages. *)
Fixpoint count_keys (check_name : bool) (undefined bad_type : string) (attributes : gset string)
    (schema : list KeySchemaElement) (hash_keys range_keys : Z) : outcome (Z * Z) :=
  match schema with
  | [] => Ok (hash_keys, range_keys)
  | e :: rest =>
      unless_err (negb (check_name && is_empty (attribute_name e))) "key attribute name is required";;
      unless_err (bool_decide (attribute_name e ∈ attributes)) undefined;;
      if str_eqb (key_type e) "HASH" then
        count_keys check_name undefined bad_type attributes rest (hash_keys + 1) range_keys
      else if str_eqb (key_type e) "RANGE" then
        count_keys check_name undefined bad_type attributes rest hash_keys (range_keys + 1)
      else Err bad_type
  end.
Definition good_keys (hash_keys range_keys : Z) (schema : list KeySchemaElement) : bool :=
  (hash_keys =? 1) && (range_keys <=? 1) && (Z.of_nat (length schema) <=? 2).
Definition projection_type_ok (projection_type : string) : bool :=
  one_of [""; "ALL"; "KEYS_ONLY"; "INCLUDE"] projection_type.
Definition billing_mode_ok (mode : string) : bool :=
  is_empty mode || one_of ["PAY_PER_REQUEST"; "PROVISIONED"] mode.

Definition global_index_keys (attributes : gset string) (schema : list KeySchemaElement) : outcome unit :=
  unless_err (negb (nil_b schema)) "global secondary index key schema is required";;
  '(hash_keys, range_keys) ← count_keys false
      "global secondary index key schema attributes must be defined"
      "global secondary index key type must be HASH or RANGE" attributes schema 0 0;
  unless_err (good_keys hash_keys range_keys schema)
    "global secondary index key schema must include one HASH key and at most one RANGE key".
Definition global_projection (projection : IndexProjectionRequest) : outcome unit :=
  unless_err (projection_type_ok (ip_projection_type projection))
    "global secondary index projection type must be ALL, KEYS_ONLY, or INCLUDE".

Fixpoint validate_global_indexes (attributes index_names : gset string)
    (indexes : list GlobalSecondaryIndexRequest) : outcome (gset string) :=
  match indexes with
  | [] => Ok index_names
  | index :: rest =>
      unless_err (negb (is_empty (gsr_index_name index))) "global secondary index name is required";;
      unless_err (negb (bool_decide (gsr_index_name index ∈ index_names)))
        "global secondary index names must be unique";;
      global_index_keys attributes (gsr_key_schema index);;
      global_projection (gsr_projection index);;
      validate_global_indexes attributes ({[gsr_index_name index]} ∪ index_names) rest
  end.

(** The keys of a local index: the table's HASH key first, and one RANGE key. *)
Definition local_index_keys (attributes : gset string) (table_schema schema : list KeySchemaElement)
    : outcome unit :=
  match schema with
  | [first; _] =>
      unless_err (str_eqb (key_type first) "HASH" && str_eqb (attribute_name first) (table_hash_key table_schema))
        "local secondary index HASH key must match table HASH key";;
      '(_, range_keys) ← count_keys false
          "local secondary index key schema attributes must be defined"
          "local secondary index key type must be HASH or RANGE" attributes schema 0 0;
      unless_err (range_keys =? 1) "local secondary index key schema must include one RANGE key"
  | _ => Err "local secondary index key schema must include table HASH key and one RANGE key"
  end.
Fixpoint validate_local_indexes (attributes index_names : gset string) (table_schema : list KeySchemaElement)
    (indexes : list LocalSecondaryIndexRequest) : outcome unit :=
  match indexes with
  | [] => Ok tt
  | index :: rest =>
      unless_err (negb (is_empty (lsr_index_name index))) "local secondary index name is required";;
      unless_err (negb (bool_decide (lsr_index_name index ∈ index_names)))
        "secondary index names must be unique";;
      local_index_keys attributes table_schema (lsr_key_schema index);;
      unless_err (projection_type_ok (ip_projection_type (lsr_projection index)))
        "local secondary index projection type must be ALL, KEYS_ONLY, or INCLUDE";;
      validate_local_indexes attributes ({[lsr_index_name index]} ∪ index_names) table_schema rest
  end.

Definition validate_create_table_request (request : CreateTableRequest) : outcome unit :=
  unless_err (negb (is_empty (ct_table_name request))) "table name is required";;
  unless_err (negb (nil_b (ct_key_schema request))) "key schema is required";;
  attributes ← defined_attributes (ct_attribute_definitions request) ∅;
  '(hash_keys, range_keys) ← count_keys true "key schema attributes must be defined"
      "key type must be HASH or RANGE" attributes (ct_key_schema request) 0 0;
  unless_err (good_keys hash_keys range_keys (ct_key_schema request))
    "key schema must include one HASH key and at most one RANGE key";;
  unless_err (billing_mode_ok (ct_billing_mode request)) "billing mode must be PAY_PER_REQUEST or PROVISIONED";;
  (if stream_enabled (ct_stream_specification request)
   then validate_stream_specification (ct_stream_specification request) else Ok tt);;
  index_names ← validate_global_indexes attributes ∅ (ct_global_secondary_indexes request);
  validate_local_indexes attributes index_names (ct_key_schema request) (ct_local_secondary_indexes request).

Fixpoint check_updates (types : gmap string string) (updates : list AttributeDefinition) : outcome unit :=
  match updates with
  | [] => Ok tt
  | d :: rest =>
      unless_err (negb (is_empty (ad_name d))) "attribute name is required";;
      unless_err (one_of ["S"; "N"; "B"] (ad_type d)) "attribute type must be S, N, or B";;
      unless_err (match types !! ad_name d with Some t => str_eqb t (ad_type d) | None => true end)
        "attribute definitions cannot change existing attribute type";;
      check_updates (<[ad_name d := ad_type d]> types) rest
  end.
Definition validate_attribute_definition_updates (existing updates : list AttributeDefinition) : outcome unit :=
  check_updates (foldl (fun m d => <[ad_name d := ad_type d]> m) ∅ existing) updates.

(** ** time_util.rs: the stream label *)

Definition civil_from_days (z : Z) : Z * Z * Z :=
  let z := z + 719468 in
  let era := (if 0 <=? z then z else z - 146096) /t 146097 in
  let doe := wrap_u 64 (z - era * 146097) in
  let yoe := (doe - doe / 1460 + doe / 36524 - doe / 146096) / 365 in
  let y := yoe + era * 400 in
  let doy := doe - (365 * yoe + yoe / 4 - yoe / 100) in
  let mp := (5 * doy + 2) / 153 in
  let d := doy - (153 * mp + 2) / 5 + 1 in
  let m := if mp <? 10 then mp + 3 else mp - 9 in
  (if m <=? 2 then y + 1 else y, m, d).
Definition stream_label (unix_millis : Z) : string :=
  let secs := unix_millis / 1000 in
  let millis := unix_millis mod 1000 in
  let days := secs / 86400 in
  let secs_of_day := secs mod 86400 in
  let '(year, month, day) := civil_from_days days in
  show_pad 4 year +:+ "-" +:+ show_pad 2 month +:+ "-" +:+ show_pad 2 day +:+ "T"
  +:+ show_pad 2 (secs_of_day / 3600) +:+ ":" +:+ show_pad 2 (secs_of_day mod 3600 / 60) +:+ ":"
  +:+ show_pad 2 (secs_of_day mod 60) +:+ "." +:+ show_pad 3 millis.
Example stream_label_test : stream_label 1700000000123 = "2023-11-14T22:13:20.123".
Proof. vm_compute. reflexivity. Qed.

(** ** Indexes *)

Definition projection_from_request (req : IndexProjectionRequest) : IndexProjection :=
  mkProjection (if is_empty (ip_projection_type req) then "ALL" else ip_projection_type req)
    (ip_non_key_attributes req).
Definition index_arn (region table_name index_name : string) : string :=
  "arn:aws:dynamodb:" +:+ region +:+ ":" +:+ ACCOUNT_ID +:+ ":table/" +:+ table_name +:+ "/index/" +:+ index_name.
Definition gsi_descriptions (region table_name : string) (indexes : list GlobalSecondaryIndexRequest)
    : list GlobalSecondaryIndexDescription :=
  map (fun index => mkGsi (index_arn region table_name (gsr_index_name index)) (gsr_index_name index) 0
         "ACTIVE" 0 (gsr_key_schema index) (projection_from_request (gsr_projection index)) ∅) indexes.
Definition lsi_descriptions (region table_name : string) (indexes : list LocalSecondaryIndexRequest)
    : list LocalSecondaryIndexDescription :=
  map (fun index => mkLsi (index_arn region table_name (lsr_index_name index)) (lsr_index_name index) 0
         0 (lsr_key_schema index) (projection_from_request (lsr_projection index))) indexes.

Definition attribute_definition_set (existing updates : list AttributeDefinition) : gset string :=
  list_to_set (map ad_name existing)
  ∪ list_to_set (List.filter (fun n => negb (is_empty n)) (map ad_name updates)).
Fixpoint merge_new (merged : list AttributeDefinition) (seen : gset string) (updates : list AttributeDefinition)
    : list AttributeDefinition :=
  match updates with
  | [] => merged
  | d :: rest =>
      if is_empty (ad_name d) || bool_decide (ad_name d ∈ seen) then merge_new merged seen rest
      else merge_new (merged ++ [d])%list ({[ad_name d]} ∪ seen) rest
  end.
Definition merge_attribute_definitions (existing updates : list AttributeDefinition) : list AttributeDefinition :=
  merge_new existing (list_to_set (map ad_name existing)) updates.

Definition validate_global_secondary_index_create (index : GlobalSecondaryIndexRequest) (attributes : gset string)
    (description : TableDescription) : outcome unit :=
  unless_err (negb (is_empty (gsr_index_name index))) "global secondary index name is required";;
  unless_err (negb (table_has_index description (gsr_index_name index))) "secondary index name already exists";;
  global_index_keys attributes (gsr_key_schema index);;
  global_projection (gsr_projection index).

Definition with_definitions (l : list AttributeDefinition) (d : TableDescription) : TableDescription :=
  mkDesc l (billing_mode_summary d) (creation_date_time d) (global_secondary_indexes d) (item_count d)
    (key_schema d) (latest_stream_arn d) (latest_stream_label d) (local_secondary_indexes d)
    (stream_specification d) (table_arn d) (table_name d) (table_size_bytes d) (table_status d)
    (time_to_live_description d).
Definition with_gsis (l : list GlobalSecondaryIndexDescription) (d : TableDescription) : TableDescription :=
  set_indexes l (local_secondary_indexes d) d.
(** [vec.remove(vec.iter().position(p)?)] *)
Fixpoint remove_first {A} (p : A -> bool) (l : list A) : option (list A) :=
  match l with
  | [] => None
  | x :: r => if p x then Some r else r' ← remove_first p r; Some (x :: r')
  end.

Definition apply_index_update (region : string) (attributes : gset string)
    (definitions : list AttributeDefinition) (update : GlobalSecondaryIndexUpdate) (description : TableDescription)
    : outcome TableDescription :=
  let one {A} (o : option A) := match o with Some _ => 1 | None => 0 end in
  unless_err (one (gsu_create update) + one (gsu_delete update) + one (gsu_update update) =? 1)
    "each global secondary index update must contain exactly one action";;
  unless_err (match gsu_update update with Some _ => false | None => true end)
    "global secondary index throughput updates are not supported";;
  match gsu_create update, gsu_delete update with
  | Some create, _ =>
      validate_global_secondary_index_create create attributes description;;
      let description := with_definitions
        (merge_attribute_definitions (attribute_definitions description) definitions) description in
      Ok (with_gsis (global_secondary_indexes description
                       ++ gsi_descriptions region (table_name description) [create])%list description)
  | None, Some delete =>
      match remove_first (fun i => str_eqb (gsi_name i) (dgsi_index_name delete))
              (global_secondary_indexes description) with
      | Some l => Ok (with_gsis l description)
      | None => Err "global secondary index does not exist"
      end
  | None, None => Ok description
  end.
Fixpoint apply_index_updates (region : string) (attributes : gset string) (definitions : list AttributeDefinition)
    (updates : list GlobalSecondaryIndexUpdate) (description : TableDescription) : outcome TableDescription :=
  match updates with
  | [] => Ok description
  | update :: rest =>
      description ← apply_index_update region attributes definitions update description;
      apply_index_updates region attributes definitions rest description
  end.
Definition apply_global_secondary_index_updates (description : TableDescription) (region : string)
    (definitions : list AttributeDefinition) (updates : list GlobalSecondaryIndexUpdate) : outcome TableDescription :=
  validate_attribute_definition_updates (attribute_definitions description) definitions;;
  apply_index_updates region (attribute_definition_set (attribute_definitions description) definitions)
    definitions updates description.

(** ** Table lifecycle *)

Definition with_billing (mode : string) (d : TableDescription) : TableDescription :=
  mkDesc (attribute_definitions d) (Some (mkBilling mode)) (creation_date_time d) (global_secondary_indexes d)
    (item_count d) (key_schema d) (latest_stream_arn d) (latest_stream_label d) (local_secondary_indexes d)
    (stream_specification d) (table_arn d) (table_name d) (table_size_bytes d) (table_status d)
    (time_to_live_description d).
Definition with_stream (spec : option StreamSpecification) (arn label : string) (d : TableDescription)
    : TableDescription :=
  mkDesc (attribute_definitions d) (billing_mode_summary d) (creation_date_time d) (global_secondary_indexes d)
    (item_count d) (key_schema d) arn label (local_secondary_indexes d)
    spec (table_arn d) (table_name d) (table_size_bytes d) (table_status d) (time_to_live_description d).

Definition billing_mode (value : string) : string := if is_empty value then "PAY_PER_REQUEST" else value.

Definition list_tables (s : Server) (request : ListTablesRequest) : result ApiError (list string * option string) :=
  if (lt_limit request <? 0) || (100 <? lt_limit request) then Err (validation "limit must be between 1 and 100")
  else
    let names := (btree_iter (tables s)).*1 in
    start ← (if is_empty (lt_exclusive_start_table_name request) then Ok 0%nat
             else match list_find (fun n => n = lt_exclusive_start_table_name request) names with
                  | Some (i, _) => Ok (S i)
                  | None => Err (validation "exclusive start table name does not exist")
                  end);
    let len := length names in
    let start := Nat.min start len in
    let limit := Z.to_nat (lt_limit request) in
    let end_ := if (0 <? lt_limit request) && Nat.ltb (start + limit) len then (start + limit)%nat else len in
    let last_evaluated := if Nat.ltb end_ len then names !! (end_ - 1)%nat else None in
    Ok (take (end_ - start) (drop start names), last_evaluated).
Definition list_tables_value (names : list string) (last : option string) : Value :=
  struct_value [field "TableNames" (json_strings names); opt_field "LastEvaluatedTableName" JString last].

Section Lifecycle.
Context `{Env, SerdeJson, UnicodeCase}.

Definition list_tables_api (request : ListTablesRequest) : Api string :=
  s ← gets server;
  '(names, last) ← lift (list_tables s request);
  mret (to_vec (list_tables_value names last)).

Definition described (k : string) (d : TableDescription) : string :=
  to_vec (struct_value [field k (description_value d)]).

Definition enable_stream_description (description : TableDescription) (spec : StreamSpecification)
    : Api TableDescription :=
  s ← gets server;
  label ← (if is_empty (latest_stream_label description)
           then millis ← now_millis; mret (stream_label millis)
           else mret (latest_stream_label description));
  let arn := table_arn description +:+ "/stream/" +:+ label in
  let arn := if str_eqb arn ("/stream/" +:+ label)
             then "arn:aws:dynamodb:" +:+ region (config s) +:+ ":" +:+ ACCOUNT_ID +:+ ":table/"
                  +:+ table_name description +:+ "/stream/" +:+ label
             else arn in
  mret (with_stream (Some (mkStreamSpec true (stream_view_type spec))) arn label description).

Definition table_limit_exceeded : ApiError := api_error 400 "LimitExceededException" "table limit exceeded".
Definition check_room (s : Server) (name : string) : Api unit :=
  guard_err (bool_decide (is_Some (tables s !! name))) (in_use "table already exists");;
  guard_err (max_tables (config s) <=? Z.of_nat (size (tables s))) table_limit_exceeded.
(** [self.tables.remove(name); self.dirty_tables.remove(name)] *)
Definition forget_table (name : string) (s : Server) : Server :=
  remove_dirty name (set_tables (delete name (tables s)) s).
(** The tail of CreateTable and RestoreTableFromBackup. *)
Definition add_table (name : string) (t : TableState) : Api unit :=
  modify (on_server (put_table name t));;
  modify (on_server (add_dirty name));;
  persist_or (forget_table name).

Definition create_table (request : CreateTableRequest) : Api string :=
  lift (validated (validate_create_table_request request));;
  s ← gets server;
  let name := ct_table_name request in
  let region := region (config s) in
  now ← now_unix;
  let description := mkDesc (ct_attribute_definitions request)
    (Some (mkBilling (billing_mode (ct_billing_mode request)))) now
    (gsi_descriptions region name (ct_global_secondary_indexes request)) 0 (ct_key_schema request) "" ""
    (lsi_descriptions region name (ct_local_secondary_indexes request)) None
    (table_arn_of (config s) name) name 0 "ACTIVE" None in
  description ← (if stream_enabled (ct_stream_specification request)
                 then lift (validated (validate_stream_specification (ct_stream_specification request)));;
                      enable_stream_description description (ct_stream_specification request)
                 else mret description);
  check_room s name;;
  add_table name (new_table description);;
  mret (described "TableDescription" description).

Definition describe_table (name : string) : Api string :=
  check_table_name name;;
  state ← table_named name;
  mret (described "Table" (st_description state)).

Definition delete_table (name : string) : Api string :=
  check_table_name name;;
  state ← table_named name;
  modify (on_server (fun s => set_tables (delete name (tables s)) s));;
  persist_or (put_table name state);;
  mret (described "TableDescription" (st_description state)).

Definition update_table (request : UpdateTableRequest) : Api string :=
  let name := ut_table_name request in
  check_table_name name;;
  guard_err (negb (billing_mode_ok (ut_billing_mode request)))
    (validation "billing mode must be PAY_PER_REQUEST or PROVISIONED");;
  lift (match ut_stream_specification request with
        | Some spec => validated (validate_stream_specification spec)
        | None => Ok tt
        end);;
  state ← table_named name;
  s ← gets server;
  let previous := st_description state in
  let description := if is_empty (ut_billing_mode request) then previous
                     else with_billing (ut_billing_mode request) previous in
  description ← match ut_stream_specification request with
                | Some spec =>
                    if stream_enabled spec then enable_stream_description description spec
                    else mret (with_stream (Some (mkStreamSpec false "")) "" "" description)
                | None => mret description
                end;
  description ← (if nil_b (ut_global_secondary_index_updates request) then mret description
                 else lift (validated (apply_global_secondary_index_updates description (region (config s))
                              (ut_attribute_definitions request) (ut_global_secondary_index_updates request))));
  before ← table_unwrap name;
  let after := update_index_item_counts (set_description description before) in
  modify (on_server (put_table name after));;
  modify (on_server (add_dirty name));;
  persist_or (alter_table (set_description previous) name);;
  mret (described "TableDescription" (st_description after)).

Definition describe_limits : string :=
  to_vec (struct_value [field "AccountMaxReadCapacityUnits" (int_value 80000);
    field "AccountMaxWriteCapacityUnits" (int_value 80000); field "TableMaxReadCapacityUnits" (int_value 40000);
    field "TableMaxWriteCapacityUnits" (int_value 40000)]).
Definition describe_endpoints (c : Config) : string :=
  let address := if is_empty (cfg_addr c) then "127.0.0.1:18000" else cfg_addr c in
  to_vec (struct_value [field "Endpoints" (JArray [struct_value [field "Address" (JString address);
    field "CachePeriodInMinutes" (int_value 1440)]])]).
End Lifecycle.

(** Time to live, backups, tags and resource policies in the DynamoDB server
    (src/services/dynamodb/src/server.rs). *)

(** ** Field updates *)

Definition with_ttl (t : option TimeToLiveDescription) (d : TableDescription) : TableDescription :=
  mkDesc (attribute_definitions d) (billing_mode_summary d) (creation_date_time d) (global_secondary_indexes d)
    (item_count d) (key_schema d) (latest_stream_arn d) (latest_stream_label d) (local_secondary_indexes d)
    (stream_specification d) (table_arn d) (table_name d) (table_size_bytes d) (table_status d) t.
Definition set_ttl (t : option TimeToLiveDescription) (s : TableState) : TableState :=
  set_description (with_ttl t (st_description s)) s.
Definition set_tags (tags : gmap string string) (t : TableState) : TableState :=
  mkTable (st_description t) (st_items t) (st_stream_records t) tags (st_continuous_backups t)
    (st_resource_policy t) (st_resource_policy_revision t).
Definition set_continuous_backups (c : option ContinuousBackupsDescription) (t : TableState) : TableState :=
  mkTable (st_description t) (st_items t) (st_stream_records t) (st_tags t) c
    (st_resource_policy t) (st_resource_policy_revision t).
Definition set_policy (p : string * string) (t : TableState) : TableState :=
  mkTable (st_description t) (st_items t) (st_stream_records t) (st_tags t) (st_continuous_backups t) p.1 p.2.

(** ** Descriptions *)

Definition ttl_description (description : TableDescription) : TimeToLiveDescription :=
  default (mkTtl "" "DISABLED") (time_to_live_description description).
Definition ttl_item_expired (value : Item) (attribute_name : string) (now : Z) : bool :=
  match (a ← value !! attribute_name; str_member "N" a) with
  | None => false
  | Some seconds =>
      if negb (is_valid_number seconds) then false
      else negb (bool_decide (compare_number_strings seconds (show_Z now) = Gt))
  end.
Definition continuous_backups_for_state (value : option ContinuousBackupsDescription)
    : ContinuousBackupsDescription :=
  default (mkCb "ENABLED" (mkPitr "DISABLED")) value.
Definition backup_description_for_table (description : TableDescription) (name : string) (created_at : Z)
    : BackupDescription :=
  let arn := table_arn description +:+ "/backup/" +:+ show_Z created_at +:+ "-" +:+ name in
  let mode := match billing_mode_summary description with Some b => bm_billing_mode b | None => "PAY_PER_REQUEST" end in
  mkBackup
    (mkDetails arn created_at name (table_size_bytes description) "AVAILABLE" "USER")
    (mkSource (attribute_definitions description) mode (item_count description) (key_schema description)
       (table_arn description) (creation_date_time description) (table_arn description)
       (table_name description) (table_size_bytes description)).
Definition backup_summary_for_description (d : BackupDescription) : BackupSummary :=
  mkSummary (backup_arn (backup_details d)) (backup_creation_date_time (backup_details d))
    (backup_name (backup_details d)) (backup_size_bytes (backup_details d)) (backup_status (backup_details d))
    (backup_type (backup_details d)) (src_table_arn (source_table_details d)) (src_table_name (source_table_details d)).

(** [exclusive_start] and [limit] over a sorted list, as ListBackups and ListStreams
    page it: the page and the key of its last element when more is left. *)
Definition page_of {A} (key : A -> string) (l : list A) (exclusive_start missing : string) (limit : Z)
    : result ApiError (list A * option string) :=
  start ← (if is_empty exclusive_start then Ok 0%nat
           else match list_find (fun a => key a = exclusive_start) l with
                | Some (i, _) => Ok (S i)
                | None => Err (validation missing)
                end);
  let n := Z.to_nat limit in
  let end_ := if (0 <? limit) && Nat.ltb (start + n) (length l) then (start + n)%nat else length l in
  Ok (take (end_ - start) (drop start l), if Nat.ltb end_ (length l) then key <$> l !! (end_ - 1)%nat else None).
Definition by_table_then_arn {A} (table arn : A -> string) (a b : A) : comparison :=
  if str_eqb (table a) (table b) then String.compare (arn a) (arn b) else String.compare (table a) (table b).

Section Admin.
Context `{Env, SerdeJson, UnicodeCase}.

Definition respond1 (k : string) (v : Value) : string := respond (obj_insert k (to_value v) []).

(** ** Time to live *)

Definition describe_time_to_live (name : string) : Api string :=
  check_table_name name;;
  state ← table_named name;
  mret (respond1 "TimeToLiveDescription" (ttl_value (ttl_description (st_description state)))).

(** [get_mut], a change of one part of the table, [persist], and the part restored. *)
Definition change_table (name : string) (change undo : TableState -> TableState) : Api unit :=
  modify (on_server (alter_table change name));;
  modify (on_server (add_dirty name));;
  persist_or (alter_table undo name).

Definition ttl_spec_value (s : TimeToLiveSpecification) : Value :=
  struct_value [str_field "AttributeName" (ttls_attribute_name s); field "Enabled" (JBool (ttls_enabled s))].
Definition update_time_to_live (request : UpdateTimeToLiveRequest) : Api string :=
  check_table_name (uttl_table_name request);;
  let spec := uttl_time_to_live_specification request in
  guard_err (ttls_enabled spec && is_empty (ttls_attribute_name spec))
    (validation "ttl attribute name is required when ttl is enabled");;
  state ← table_named (uttl_table_name request);
  change_table (uttl_table_name request)
    (set_ttl (Some (mkTtl (ttls_attribute_name spec) (if ttls_enabled spec then "ENABLED" else "DISABLED"))))
    (set_ttl (time_to_live_description (st_description state)));;
  mret (respond1 "TimeToLiveSpecification" (ttl_spec_value spec)).

Definition expired_keys (now : Z) (state : TableState) : list string :=
  let ttl := ttl_description (st_description state) in
  if negb (str_eqb (time_to_live_status ttl) "ENABLED") || is_empty (ttl_attribute_name ttl) then []
  else (List.filter (fun e => ttl_item_expired e.2 (ttl_attribute_name ttl) now) (btree_iter (st_items state))).*1.
Definition expired_tables (now : Z) (s : Server) : list (string * list string) :=
  List.filter (fun e => negb (nil_b e.2)) (map (fun e => (e.1, expired_keys now e.2)) (btree_iter (tables s))).
(** Removes the expired items of one table, keeping them for the rollback. *)
Definition expire_table (entry : string * list string) (backups : list (string * string * Item))
    : Api (list (string * string * Item)) :=
  let '(table, keys) := entry in
  state ← table_unwrap table;
  let removed := omap (fun key => item ← st_items state !! key; Some (table, key, item)) keys in
  modify (on_server (put_table table (recount (set_items (foldl (fun m k => delete k m) (st_items state) keys) state))));;
  mret (backups ++ removed)%list.
Definition put_back (s : Server) (backup : string * string * Item) : Server :=
  let '(table, key, item) := backup in
  alter_table (fun state => set_items (<[key := item]> (st_items state)) state) table s.
Definition expire_ttl_items (now : Z) : Api unit :=
  s ← gets server;
  let changed := expired_tables now s in
  if nil_b changed then mret tt
  else
    backups ← for_each changed [] expire_table;
    let touched := list_to_set changed.*1 in
    modify (on_server (fun s => set_cache (table_cache s) (touched ∪ dirty_tables s) s));;
    persist_or (fun s => recount_tables touched (foldl put_back s backups)).

(** ** Continuous backups *)

Definition describe_continuous_backups (name : string) : Api string :=
  check_table_name name;;
  state ← table_named name;
  mret (respond1 "ContinuousBackupsDescription"
    (continuous_backups_value (continuous_backups_for_state (st_continuous_backups state)))).
Definition update_continuous_backups (request : UpdateContinuousBackupsRequest) : Api string :=
  check_table_name (ucb_table_name request);;
  let status := if pitrs_point_in_time_recovery_enabled (ucb_point_in_time_recovery_specification request)
                then "ENABLED" else "DISABLED" in
  let description := mkCb "ENABLED" (mkPitr status) in
  state ← table_named (ucb_table_name request);
  change_table (ucb_table_name request) (set_continuous_backups (Some description))
    (set_continuous_backups (st_continuous_backups state));;
  mret (respond1 "ContinuousBackupsDescription" (continuous_backups_value description)).

(** ** Backups *)

Definition check_backup_arn (arn : string) : Api unit :=
  guard_err (is_empty arn) (validation "backup arn is required").
Definition backup_not_found : ApiError := api_error 400 "BackupNotFoundException" "backup not found".
Definition backup_named (arn : string) : Api BackupDescription :=
  s ← gets server; lift (ok_or backup_not_found (backups s !! arn)).

Definition create_backup (request : CreateBackupRequest) : Api string :=
  check_table_name (cb_table_name request);;
  guard_err (is_empty (cb_backup_name request)) (validation "backup name is required");;
  state ← table_named (cb_table_name request);
  created_at ← now_unix;
  s ← gets server;
  let description := backup_description_for_table (st_description state) (cb_backup_name request) created_at in
  let arn := backup_arn (backup_details description) in
  guard_err (bool_decide (is_Some (backups s !! arn))) (api_error 400 "BackupInUseException" "backup already exists");;
  modify (on_server (fun s => set_backups (<[arn := description]> (backups s))
    (<[arn := st_description state]> (backup_tables s)) (<[arn := st_items state]> (backup_items s)) s));;
  persist_or (fun s => set_backups (delete arn (backups s)) (delete arn (backup_tables s))
    (delete arn (backup_items s)) s);;
  mret (respond1 "BackupDetails" (backup_details_value (backup_details description))).
Definition describe_backup (request : BackupArnRequest) : Api string :=
  check_backup_arn (ba_backup_arn request);;
  description ← backup_named (ba_backup_arn request);
  mret (respond1 "BackupDescription" (backup_value description)).

Definition check_limit (limit max : Z) : Api unit :=
  guard_err ((limit <? 0) || (max <? limit)) (validation ("limit must be between 1 and " +:+ show_Z max)).
Definition list_backups (request : ListBackupsRequest) : Api string :=
  check_limit (lb_limit request) 100;;
  s ← gets server;
  let of_table (d : BackupDescription) := is_empty (lb_table_name request)
    || str_eqb (src_table_name (source_table_details d)) (lb_table_name request) in
  let summaries := sort_by (by_table_then_arn bs_table_name bs_backup_arn)
    (map backup_summary_for_description (List.filter of_table (btree_iter (backups s)).*2)) in
  '(page, last) ← lift (page_of bs_backup_arn summaries (lb_exclusive_start_backup_arn request)
      "exclusive start backup arn does not exist" (lb_limit request));
  let response := obj_insert "BackupSummaries" (to_value (JArray (map backup_summary_value page))) [] in
  mret (respond (match last with
                 | Some arn => obj_insert "LastEvaluatedBackupArn" (JString arn) response
                 | None => response
                 end)).
Definition put_opt {V} (k : string) (o : option V) (m : gmap string V) : gmap string V :=
  match o with Some v => <[k := v]> m | None => m end.
Definition delete_backup (request : BackupArnRequest) : Api string :=
  check_backup_arn (ba_backup_arn request);;
  let arn := ba_backup_arn request in
  description ← backup_named arn;
  s ← gets server;
  let table_backup := backup_tables s !! arn in
  let items_backup := backup_items s !! arn in
  modify (on_server (fun s => set_backups (delete arn (backups s)) (delete arn (backup_tables s))
    (delete arn (backup_items s)) s));;
  persist_or (fun s => set_backups (<[arn := description]> (backups s))
    (put_opt arn table_backup (backup_tables s)) (put_opt arn items_backup (backup_items s)) s);;
  mret (respond1 "BackupDescription" (backup_value description)).

Definition rename_gsi (new_arn : string) (i : GlobalSecondaryIndexDescription) : GlobalSecondaryIndexDescription :=
  mkGsi (new_arn +:+ "/index/" +:+ gsi_name i) (gsi_name i) (gsi_size_bytes i) (gsi_status i) (gsi_item_count i)
    (gsi_key_schema i) (gsi_projection i) (gsi_provisioned_throughput i).
Definition rename_lsi (new_arn : string) (i : LocalSecondaryIndexDescription) : LocalSecondaryIndexDescription :=
  mkLsi (new_arn +:+ "/index/" +:+ lsi_name i) (lsi_name i) (lsi_size_bytes i) (lsi_item_count i)
    (lsi_key_schema i) (lsi_projection i).
(** The description a backup without its own table description is restored to. *)
Definition source_description (backup : BackupDescription) : TableDescription :=
  let src := source_table_details backup in
  mkDesc (src_attribute_definitions src)
    (Some (mkBilling (if is_empty (src_billing_mode src) then "PAY_PER_REQUEST" else src_billing_mode src)))
    0 [] 0 (src_key_schema src) "" "" [] None "" "" 0 "" None.
Definition restored_table_description (s : Server) (target : string) (backup : BackupDescription) (created_at : Z)
    : TableDescription :=
  let arn := backup_arn (backup_details backup) in
  let d := default (source_description backup) (backup_tables s !! arn) in
  let new_arn := table_arn_of (config s) target in
  let count := match backup_items s !! arn with Some i => Z.of_nat (size i) | None => 0 end in
  mkDesc (attribute_definitions d) (billing_mode_summary d) created_at
    (map (rename_gsi new_arn) (global_secondary_indexes d)) count (key_schema d) "" ""
    (map (rename_lsi new_arn) (local_secondary_indexes d)) None new_arn target
    (backup_size_bytes (backup_details backup)) "ACTIVE" (time_to_live_description d).
Definition restore_table_from_backup (request : RestoreTableFromBackupRequest) : Api string :=
  check_backup_arn (rtb_backup_arn request);;
  guard_err (is_empty (rtb_target_table_name request)) (validation "target table name is required");;
  backup ← backup_named (rtb_backup_arn request);
  s ← gets server;
  check_room s (rtb_target_table_name request);;
  created_at ← now_unix;
  let description := restored_table_description s (rtb_target_table_name request) backup created_at in
  let items := default ∅ (backup_items s !! rtb_backup_arn request) in
  let state := recount (set_items items (new_table description)) in
  add_table (rtb_target_table_name request) state;;
  mret (described "TableDescription" (st_description state)).

(** ** Tags and resource policies *)

Definition table_for_arn (s : Server) (arn : string) : option string :=
  fst <$> btree_find (fun t => str_eqb (table_arn (st_description t)) arn) (tables s).
Definition resource_named (arn : string) : Api (string * TableState) :=
  s ← gets server;
  name ← lift (ok_or (not_found "resource not found") (table_for_arn s arn));
  state ← table_unwrap name;
  mret (name, state).
Definition check_resource (arn : string) : Api unit :=
  guard_err (is_empty arn) (validation "resource arn is required").

Fixpoint project_tags (tags : list Tag) (projected : gmap string string) : result ApiError (gmap string string) :=
  match tags with
  | [] => Ok projected
  | t :: rest =>
      if is_empty (tag_key t) then Err (validation "tag key is required")
      else project_tags rest (<[tag_key t := tag_value t]> projected)
  end.
Definition tag_resource (request : TagResourceRequest) : Api string :=
  check_resource (tr_resource_arn request);;
  guard_err (nil_b (tr_tags request)) (validation "tags are required");;
  '(name, state) ← resource_named (tr_resource_arn request);
  projected ← lift (project_tags (tr_tags request) (st_tags state));
  guard_err (50 <? Z.of_nat (size projected)) (api_error 400 "LimitExceededException" "tag limit exceeded");;
  change_table name (set_tags projected) (set_tags (st_tags state));;
  mret (respond []).
Definition list_tags_of_resource (request : ListTagsOfResourceRequest) : Api string :=
  check_resource (ltr_resource_arn request);;
  guard_err (negb (is_empty (ltr_next_token request))) (validation "next token is invalid");;
  '(_, state) ← resource_named (ltr_resource_arn request);
  mret (respond1 "Tags" (JArray (map (fun e => tag_value_json (mkTag e.1 e.2)) (btree_iter (st_tags state))))).
Definition untag_resource (request : UntagResourceRequest) : Api string :=
  check_resource (ur_resource_arn request);;
  guard_err (nil_b (ur_tag_keys request)) (validation "tag keys are required");;
  '(name, state) ← resource_named (ur_resource_arn request);
  change_table name (set_tags (foldl (fun m k => delete k m) (st_tags state) (ur_tag_keys request)))
    (set_tags (st_tags state));;
  mret (respond []).

Definition resource_policy_revision (policy : string) : string := sha256_hex policy.
Definition put_resource_policy (request : PutResourcePolicyRequest) : Api string :=
  check_resource (prp_resource_arn request);;
  guard_err (is_empty (trim (prp_policy request))) (validation "policy is required");;
  guard_err (negb (is_json (prp_policy request))) (validation "policy must be valid JSON");;
  '(name, state) ← resource_named (prp_resource_arn request);
  let revision := resource_policy_revision (prp_policy request) in
  change_table name (set_policy (prp_policy request, revision))
    (set_policy (st_resource_policy state, st_resource_policy_revision state));;
  mret (respond1 "RevisionId" (JString revision)).
Definition get_resource_policy (request : ResourceArnRequest) : Api string :=
  check_resource (ra_resource_arn request);;
  '(_, state) ← resource_named (ra_resource_arn request);
  guard_err (is_empty (st_resource_policy state))
    (api_error 400 "PolicyNotFoundException" "resource policy not found");;
  mret (respond (obj_insert "RevisionId" (JString (st_resource_policy_revision state))
                   (obj_insert "Policy" (JString (st_resource_policy state)) []))).
Definition delete_resource_policy (request : ResourceArnRequest) : Api string :=
  check_resource (ra_resource_arn request);;
  '(name, state) ← resource_named (ra_resource_arn request);
  change_table name (set_policy ("", ""))
    (set_policy (st_resource_policy state, st_resource_policy_revision state));;
  mret (respond []).
End Admin.
