(* ===== verification/DynReads.v ===== *)
(** The stream calls of the DynamoDB server (src/services/dynamodb/src/server.rs)
    and PartiQL SELECT (src/services/dynamodb/src/partiql.rs). *)

From S2P Require Import Prelude RustStr RustNum RustText Json DynModel DynValue DynQuery DynState DynItems DynTables.
Local Open Scope string_scope.
Local Open Scope Z_scope.

(** ** Streams *)

Record StreamSummary := mkStreamSummary { ss_stream_arn : string; ss_stream_label : string; ss_table_name : string }.
Definition stream_summary_value (s : StreamSummary) : Value :=
  struct_value [field "StreamArn" (JString (ss_stream_arn s)); field "StreamLabel" (JString (ss_stream_label s));
                field "TableName" (JString (ss_table_name s))].

Definition table_stream_enabled (d : TableDescription) : bool :=
  match stream_specification d with Some s => stream_enabled s | None => false end.
Definition SHARD_ID : string := "shardId-000000000000".

(** The [StreamDescription] of a table: one shard, open from sequence number 0. *)
Definition stream_description_value (d : TableDescription) : Value :=
  let view := match stream_specification d with Some s => stream_view_type s | None => "" end in
  struct_value [field "CreationRequestDateTime" (int_value (creation_date_time d));
    list_field "KeySchema" key_schema_value (key_schema d); str_field "LastEvaluatedShardId" "";
    field "Shards" (JArray [struct_value [
      field "SequenceNumberRange" (struct_value [str_field "EndingSequenceNumber" "";
                                                 field "StartingSequenceNumber" (JString "0")]);
      field "ShardId" (JString SHARD_ID)]]);
    field "StreamArn" (JString (latest_stream_arn d)); field "StreamLabel" (JString (latest_stream_label d));
    field "StreamStatus" (JString "ENABLED"); field "StreamViewType" (JString view);
    field "TableName" (JString (table_name d))].

Definition table_for_stream (s : Server) (stream_arn : string) : option TableState :=
  snd <$> btree_find (fun t => str_eqb (latest_stream_arn (st_description t)) stream_arn
                               && table_stream_enabled (st_description t)) (tables s).
Definition stream_shard_exists (s : Server) (stream_arn shard_id : string) : bool :=
  bool_decide (is_Some (table_for_stream s stream_arn)) && str_eqb shard_id SHARD_ID.

Definition stream_records (s : Server) (stream_arn : string) (position limit : Z) : list StreamRecord :=
  match table_for_stream s stream_arn with
  | None => []
  | Some state =>
      let len := Z.of_nat (length (st_stream_records state)) in
      if len <=? position then []
      else
        let start := Z.max position 0 in
        let effective := if (limit <=? 0) || (1000 <? limit) then 1000 else limit in
        let end_ := Z.min (start + effective) len in
        take (Z.to_nat (end_ - start)) (drop (Z.to_nat start) (st_stream_records state))
  end.

Fixpoint sequence_position (i : Z) (sequence : string) (after : bool) (records : list StreamRecord) : option Z :=
  match records with
  | [] => None
  | r :: rest =>
      if str_eqb (sequence_number (sr_dynamodb r)) sequence then Some (if after then i + 1 else i)
      else sequence_position (i + 1) sequence after rest
  end.
Definition stream_position_for_sequence (s : Server) (stream_arn sequence : string) (after : bool) : option Z :=
  state ← table_for_stream s stream_arn; sequence_position 0 sequence after (st_stream_records state).

Section Streams.
Context `{Env, SerdeJson, UnicodeCase}.

Definition list_streams (request : ListStreamsRequest) : Api string :=
  check_limit (ls_limit request) 100;;
  s ← gets server;
  guard_err (negb (is_empty (ls_table_name request)) && negb (bool_decide (is_Some (tables s !! ls_table_name request))))
    (not_found "table not found");;
  let wanted (d : TableDescription) :=
    (is_empty (ls_table_name request) || str_eqb (table_name d) (ls_table_name request))
    && negb (is_empty (latest_stream_arn d)) && table_stream_enabled d in
  let summary (d : TableDescription) := mkStreamSummary (latest_stream_arn d) (latest_stream_label d) (table_name d) in
  let streams := sort_by (by_table_then_arn ss_table_name ss_stream_arn)
    (map summary (List.filter wanted (map st_description (btree_iter (tables s)).*2))) in
  '(page, last) ← lift (page_of ss_stream_arn streams (ls_exclusive_start_stream_arn request)
      "exclusive start stream arn does not exist" (ls_limit request));
  let response := obj_insert "Streams" (to_value (JArray (map stream_summary_value page))) [] in
  mret (respond (match last with
                 | Some arn => obj_insert "LastEvaluatedStreamArn" (JString arn) response
                 | None => response
                 end)).

Definition check_stream_arn (arn : string) : Api unit :=
  guard_err (is_empty arn) (validation "stream arn is required").
Definition describe_stream (request : DescribeStreamRequest) : Api string :=
  check_stream_arn (ds_stream_arn request);;
  check_limit (ds_limit request) 100;;
  guard_err (negb (is_empty (ds_exclusive_start_shard_id request)))
    (validation "exclusive start shard id does not exist");;
  s ← gets server;
  state ← lift (ok_or (not_found "stream not found") (table_for_stream s (ds_stream_arn request)));
  mret (respond1 "StreamDescription" (stream_description_value (st_description state))).

Definition shard_not_found : ApiError := not_found "stream shard not found".
Definition trimmed (message : string) : ApiError := api_error 400 "TrimmedDataAccessException" message.

Definition get_shard_iterator (request : GetShardIteratorRequest) : Api string :=
  check_stream_arn (gsh_stream_arn request);;
  guard_err (is_empty (gsh_shard_id request)) (validation "shard id is required");;
  let type := gsh_shard_iterator_type request in
  (if one_of ["TRIM_HORIZON"; "LATEST"; "AT_SEQUENCE_NUMBER"; "AFTER_SEQUENCE_NUMBER"] type then mret tt
   else if is_empty type then fail (validation "shard iterator type is required")
   else fail (validation "unsupported shard iterator type"));;
  let needs_seq := one_of ["AT_SEQUENCE_NUMBER"; "AFTER_SEQUENCE_NUMBER"] type in
  guard_err (needs_seq && is_empty (gsh_sequence_number request)) (validation "sequence number is required");;
  s ← gets server;
  guard_err (negb (stream_shard_exists s (gsh_stream_arn request) (gsh_shard_id request))) shard_not_found;;
  let position := if str_eqb type "LATEST"
    then match table_for_stream s (gsh_stream_arn request) with
         | Some t => Z.of_nat (length (st_stream_records t))
         | None => 0
         end
    else 0 in
  position ← (if needs_seq
    then lift (ok_or (trimmed "sequence number is invalid")
                (stream_position_for_sequence s (gsh_stream_arn request) (gsh_sequence_number request)
                   (str_eqb type "AFTER_SEQUENCE_NUMBER")))
    else mret position);
  let iterator := encode_iterator (mkIterator (gsh_stream_arn request) (gsh_shard_id request) position) in
  mret (respond (obj_insert "ShardIterator" (JString iterator) [])).

(** The records of GetRecords and the iterator that follows them. *)
Definition records_page (request : GetRecordsRequest) : Api (string * list StreamRecord) :=
  guard_err (is_empty (gr_shard_iterator request)) (validation "shard iterator is required");;
  check_limit (gr_limit request) 1000;;
  iterator ← lift (map_err (fun _ => trimmed "shard iterator is invalid")
               (decode_iterator iterator_from_slice (gr_shard_iterator request)));
  s ← gets server;
  guard_err (negb (stream_shard_exists s (it_stream_arn iterator) (it_shard_id iterator))) shard_not_found;;
  let records := stream_records s (it_stream_arn iterator) (it_position iterator) (gr_limit request) in
  let next := encode_iterator (mkIterator (it_stream_arn iterator) (it_shard_id iterator)
                (it_position iterator + Z.of_nat (length records))) in
  mret (next, records).
Definition get_records (request : GetRecordsRequest) : Api string :=
  '(next, records) ← records_page request;
  mret (to_vec (struct_value [field "NextShardIterator" (JString next);
                              field "Records" (JArray (map stream_record_value records))])).
End Streams.

(** ** PartiQL *)

Record PartiQLCondition := mkCondition { pc_attribute : string; pc_value : Value }.
Record PartiQLSelect := mkSelect {
  pq_table_name : string; pq_projections : list string; pq_conditions : list PartiQLCondition }.

Definition trim_identifier (value : string) : string :=
  let value := trim value in
  match value with
  | String first ((String _ _) as rest) =>
      let quoted q := Ascii.eqb first q && ends_with (char_str q) rest in
      if quoted dquote || quoted "'"%char || quoted "`"%char
      then String.substring 1 (String.length value - 2) value else value
  | _ => value
  end.

Fixpoint projection_names (tokens : list string) : outcome (list string) :=
  match tokens with
  | [] => Ok []
  | token :: rest =>
      let name := trim_identifier (trim token) in
      unless_err (negb (is_empty name)) "invalid SELECT projection";;
      names ← projection_names rest;
      Ok (name :: names)
  end.
Definition parse_projections (value : string) : outcome (list string) :=
  let value := trim value in
  unless_err (negb (is_empty value)) "SELECT projection is required";;
  if str_eqb value "*" then Ok [] else projection_names (split_char "," value).

Fixpoint and_parts (current : list string) (fields : list string) : list string :=
  match fields with
  | [] => match current with [] => [] | _ => [str_join " " current] end
  | f :: rest =>
      if eq_ignore_ascii_case f "AND" then str_join " " current :: and_parts [] rest
      else and_parts (current ++ [f])%list rest
  end.
Definition split_and (value : string) : list string := and_parts [] (split_whitespace value).

Fixpoint where_conditions (parts : list string) (parameters : list Value) : outcome (list PartiQLCondition) :=
  match parts with
  | [] => match parameters with [] => Ok [] | _ => Err "too many PartiQL parameters" end
  | part :: rest =>
      '(left_, right_) ← ok_or "WHERE supports equality predicates only" (split_once "=" part);
      let attribute := trim_identifier (trim left_) in
      unless_err (negb (is_empty attribute)) "invalid WHERE attribute";;
      unless_err (str_eqb (trim right_) "?") "WHERE predicates must use positional parameters";;
      match parameters with
      | [] => Err "missing PartiQL parameter"
      | value :: parameters =>
          conditions ← where_conditions rest parameters;
          Ok (mkCondition attribute value :: conditions)
      end
  end.
Definition parse_where (value : string) (parameters : list Value) : outcome (list PartiQLCondition) :=
  let value := trim value in
  if is_empty value then
    match parameters with [] => Ok [] | _ => Err "too many PartiQL parameters" end
  else where_conditions (split_and value) parameters.

Definition conditions_match (value : Item) (conditions : list PartiQLCondition) : bool :=
  forallb (fun c => match value !! pc_attribute c with Some actual => value_eqb actual (pc_value c) | None => false end)
    conditions.
Definition project_names (value : Item) (projections : list string) : Item :=
  if nil_b projections then value
  else foldl (fun projected name => match value !! name with Some a => <[name := a]> projected | None => projected end)
         ∅ projections.
Definition conditions_cover_key (description : TableDescription) (conditions : list PartiQLCondition) : bool :=
  forallb (fun e => existsb (str_eqb (attribute_name e)) (map pc_attribute conditions)) (key_schema description).

Section PartiQL.
Context `{Env, SerdeJson, UnicodeCase}.

Definition parse_select (statement : string) (parameters : list Value) : outcome PartiQLSelect :=
  let statement := trim statement in
  let statement := trim (default statement (strip_suffix ";" statement)) in
  unless_err (negb (is_empty statement)) "statement is required";;
  let upper := to_uppercase statement in
  unless_err (starts_with "SELECT " upper) "only SELECT statements are supported";;
  from_index ← ok_or "SELECT statement must include FROM" (find " FROM " upper);
  projection_part ← str_slice 7 from_index statement;
  after_from ← str_slice (from_index + 6) (str_len statement) statement;
  let projection_part := trim projection_part in
  let after_from := trim after_from in
  '(table_name_raw, where_part) ← match find " WHERE " (to_uppercase after_from) with
    | Some where_index =>
        a ← str_slice 0 where_index after_from;
        b ← str_slice (where_index + 7) (str_len after_from) after_from;
        Ok (trim a, trim b)
    | None => Ok (after_from, "")
    end;
  let table_name := trim_identifier table_name_raw in
  unless_err (negb (is_empty table_name)) "table name is required";;
  projections ← parse_projections projection_part;
  conditions ← parse_where where_part parameters;
  Ok (mkSelect table_name projections conditions).

(** ExecuteStatement's loop: at most [limit] matching items, projected. *)
Fixpoint select_items (statement : PartiQLSelect) (limit : Z) (source : list KeyedItem) (items : list Value)
    : list Value :=
  match source with
  | [] => items
  | candidate :: rest =>
      if negb (conditions_match (ki_value candidate) (pq_conditions statement)) then
        select_items statement limit rest items
      else
        let items := (items ++ [item_value (project_names (ki_value candidate) (pq_projections statement))])%list in
        if (0 <? limit) && (Z.of_nat (length items) =? limit) then items
        else select_items statement limit rest items
  end.
Definition execute_statement (request : ExecuteStatementRequest) : Api string :=
  statement ← lift (validated (parse_select (es_statement request) (es_parameters request)));
  state ← table_named (pq_table_name statement);
  let source := sorted_items_for_query (st_items state) (st_description state) "" in
  let items := select_items statement (es_limit request) source [] in
  mret (respond (add_consumed_capacity (obj_insert "Items" (JArray items) [])
                   (pq_table_name statement) (es_return_consumed_capacity request))).

Record BatchStatementResponse := mkBatchResponse {
  br_error : option (string * string); br_item : option Item; br_table_name : string }.
Definition batch_response_value (r : BatchStatementResponse) : Value :=
  struct_value [
    opt_field "Error" (fun e => struct_value [field "Code" (JString e.1); field "Message" (JString e.2)]) (br_error r);
    opt_field "Item" item_value (br_item r); str_field "TableName" (br_table_name r)].

Definition KEY_CONDITIONS : string :=
  "SELECT statement must include equality conditions for all key attributes".
(** The first item that meets the conditions, projected. *)
Definition select_first (state : TableState) (statement : PartiQLSelect) : option Item :=
  (fun candidate => project_names (ki_value candidate) (pq_projections statement))
    <$> List.find (fun candidate => conditions_match (ki_value candidate) (pq_conditions statement))
          (sorted_items_for_query (st_items state) (st_description state) "").

Definition Responses : Type := list BatchStatementResponse * list Value.
Definition respond_to (mode : string) (r : BatchStatementResponse) (acc : Responses) : Responses :=
  ((acc.1 ++ [r])%list, append_batch_consumed_capacity acc.2 (br_table_name r) mode).

(** One statement of BatchExecuteStatement: errors are part of the answer. *)
Definition batch_statement (mode : string) (request : BatchStatementRequest) (acc : Responses) : Api Responses :=
  match parse_select (bst_statement request) (bst_parameters request) with
  | Panic w => panic w
  | Err msg => mret ((acc.1 ++ [mkBatchResponse (Some ("ValidationError", msg)) None ""])%list, acc.2)
  | Ok statement =>
      s ← gets server;
      let name := pq_table_name statement in
      match tables s !! name with
      | None => mret (respond_to mode (mkBatchResponse (Some ("ResourceNotFound", "table not found")) None name) acc)
      | Some state =>
          if negb (conditions_cover_key (st_description state) (pq_conditions statement)) then
            mret (respond_to mode (mkBatchResponse (Some ("ValidationError", KEY_CONDITIONS)) None name) acc)
          else mret (respond_to mode (mkBatchResponse None (select_first state statement) name) acc)
      end
  end.
(** One statement of ExecuteTransaction: errors end the call. *)
Definition transact_statement (mode : string) (request : BatchStatementRequest) (acc : Responses) : Api Responses :=
  statement ← lift (validated (parse_select (bst_statement request) (bst_parameters request)));
  let name := pq_table_name statement in
  state ← table_named name;
  guard_err (negb (conditions_cover_key (st_description state) (pq_conditions statement))) (validation KEY_CONDITIONS);;
  mret (respond_to mode (mkBatchResponse None (select_first state statement) name) acc).

Definition statement_response (acc : Responses) : string :=
  respond (with_consumed acc.2 (obj_insert "Responses" (to_value (JArray (map batch_response_value acc.1))) [])).
Definition batch_execute_statement (request : BatchExecuteStatementRequest) : Api string :=
  guard_err (nil_b (bes_statements request)) (validation "statements are required");;
  guard_err (25 <? Z.of_nat (length (bes_statements request)))
    (validation "statements must contain 25 or fewer entries");;
  acc ← for_each (bes_statements request) ([], []) (batch_statement (bes_return_consumed_capacity request));
  mret (statement_response acc).
Definition execute_transaction (request : ExecuteTransactionRequest) : Api string :=
  guard_err (nil_b (et_transact_statements request)) (validation "transaction statements are required");;
  guard_err (100 <? Z.of_nat (length (et_transact_statements request)))
    (validation "transaction statements must contain 100 or fewer entries");;
  acc ← for_each (et_transact_statements request) ([], []) (transact_statement (et_return_consumed_capacity request));
  mret (statement_response acc).
End PartiQL.

(** The unit tests of partiql.rs, and a statement that the service cannot take: with
    nothing between SELECT and FROM the projection is the slice [7..6]. *)
Section Tests.
#[local] Instance plain_upper : UnicodeCase := {| upper_char := fun c => c |}.
Example parse_select_tests :
  let u1 := json1 "S" (JString "u1") in let two := json1 "N" (JString "2") in
  parse_select "SELECT * FROM T WHERE pk = ?" [u1] = Ok (mkSelect "T" [] [mkCondition "pk" u1])
  /\ parse_select "SELECT name, sk FROM 'T' WHERE pk = ? AND sk = ?" [u1; two]
     = Ok (mkSelect "T" ["name"; "sk"] [mkCondition "pk" u1; mkCondition "sk" two])
  /\ parse_select "DELETE FROM T WHERE pk = ?" [u1] = Err "only SELECT statements are supported"
  /\ parse_select "SELECT * FROM T WHERE pk = ?" [] = Err "missing PartiQL parameter"
  /\ parse_select "SELECT * FROM T" [u1] = Err "too many PartiQL parameters".
Proof. split_and!; vm_compute; reflexivity. Qed.
Lemma select_from_panics : is_panic (parse_select "SELECT FROM T" []) = true.
Proof. vm_compute. reflexivity. Qed.
End Tests.
