(* ===== verification/DynWrites.v ===== *)
(** What the DynamoDB server's writes have in common: persistence with its cache, the
    writing tails as transactions, and writes planned before they are applied. *)

From S2P Require Import Prelude RustStr RustNum RustText Json DynModel DynValue DynState DynItems DynTables.
Local Open Scope string_scope.
Local Open Scope Z_scope.

(** Persistence of the DynamoDB server: the buffer assembled from cached and fresh
    tables is the serialisation of the whole state, so the cache is never visible
    on disk; and [persist] either writes it or changes nothing. *)

(** ** The serialiser's compact format

    What serde_json documents of its compact writer: an object is its members in
    order between braces, without white space; a plain word needs no escapes. *)
Definition json_members (json : Value -> string) (m : list (string * Value)) : string :=
  RustText.str_join "," (map (fun e => json (JString e.1) +:+ ":" +:+ json e.2) m).
Class SerdeCompact `{SerdeJson} := {
  compact_object : forall m, json_to_vec (JObject m) = "{" +:+ json_members json_to_vec m +:+ "}";
  compact_word : forall k, str_all is_ascii_alphabetic k = true ->
    json_to_vec (JString k) = char_str dquote +:+ k +:+ char_str dquote }.

(** ** Escaping, piece by piece *)

Lemma line_separator_not_ascii c c1 c2 last :
  is_ascii c = true \/ is_ascii c1 = true \/ is_ascii c2 = true -> 128 <= last < 256 ->
  str_eqb (String c (String c1 (char_str c2))) (line_separator last) = false.
Proof.
  intros Ha Hl. apply bool_decide_eq_false. unfold line_separator, char_str. rewrite !bytes_str_cons. intros E.
  injection E as E1 E2 E3.
  assert (forall b, 128 <= b < 256 -> is_ascii (of_byte b) = false) as Hb.
  { intros b Hr. unfold is_ascii. rewrite byte_of_of by lia. lia. }
  destruct Ha as [Ha|[Ha|Ha]]; subst; rewrite Hb in Ha by lia; done.
Qed.

(** An ASCII byte is escaped on its own. *)
Lemma html_escape_ascii_cons c s :
  is_ascii c = true -> html_escape (String c s) = html_escape (char_str c) +:+ html_escape s.
Proof.
  intros Hc. unfold char_str. cbn [html_escape].
  destruct (Ascii.eqb c "<"); [done|]. destruct (Ascii.eqb c ">"); [done|]. destruct (Ascii.eqb c "&"); [done|].
  destruct s as [|c1 [|c2 r]]; try done.
  by rewrite !line_separator_not_ascii by (auto || lia).
Qed.

Definition ascii_head (s : string) : Prop := match s with String c _ => is_ascii c = true | EmptyString => True end.

Lemma html_escape_app a b : ascii_head b -> html_escape (a +:+ b) = html_escape a +:+ html_escape b.
Proof.
  intros Hb. destruct b as [|d b]; [by rewrite !str_app_nil_r|]. simpl in Hb.
  remember (String.length a) as n eqn:Hn.
  revert a Hn. induction (lt_wf n) as [n _ IH]. intros a ->.
  destruct a as [|c a]; [done|]. rewrite str_app_cons.
  assert (forall a', (String.length a' < S (String.length a))%nat ->
            html_escape (a' +:+ String d b) = html_escape a' +:+ html_escape (String d b)) as IHa.
  { intros a' Hl. by apply (IH (String.length a')). }
  cbn [html_escape].
  destruct (Ascii.eqb c "<"); [by rewrite IHa by lia|]. destruct (Ascii.eqb c ">"); [by rewrite IHa by lia|].
  destruct (Ascii.eqb c "&"); [by rewrite IHa by lia|].
  destruct a as [|c1 [|c2 r]].
  - rewrite str_app_nil_l. destruct b as [|d1 r]; [done|].
    by rewrite !line_separator_not_ascii by (auto || lia).
  - rewrite str_app_cons, str_app_nil_l, !line_separator_not_ascii by (auto || lia).
    change (String c1 (String d b)) with (char_str c1 +:+ String d b). by rewrite IHa by (simpl; lia).
  - rewrite !str_app_cons.
    destruct (str_eqb _ (line_separator 168)); [by rewrite IHa by (simpl; lia)|].
    destruct (str_eqb _ (line_separator 169)); [by rewrite IHa by (simpl; lia)|].
    pose proof (IHa (String c1 (String c2 r)) ltac:(simpl; lia)) as E. rewrite !str_app_cons in E. by rewrite E.
Qed.

Lemma html_escape_word s : str_all is_ascii_alphabetic s = true -> html_escape s = s.
Proof.
  induction s as [|c s IH]; [done|]. cbn [str_all]. intros [Hc Hs]%andb_true_iff.
  assert (is_ascii c = true /\ html_escape (char_str c) = char_str c) as [Ha Hq].
  { destruct c as [[] [] [] [] [] [] [] []]; vm_compute in Hc; try done; by vm_compute. }
  by rewrite html_escape_ascii_cons, Hq, IH.
Qed.

(** ** The state buffer *)

Section Buffer.
Context `{SerdeCompact}.

Lemma json_members_cons json k v m :
  json_members json ((k, v) :: m)
  = (json (JString k) +:+ ":" +:+ json v) +:+ (if nil_b m then "" else "," +:+ json_members json m).
Proof. destruct m; [by rewrite str_app_nil_r|done]. Qed.

Lemma html_escape_members m :
  html_escape (json_members json_to_vec m) = json_members marshal m.
Proof.
  induction m as [|[k v] m IH]; [done|]. rewrite !json_members_cons.
  rewrite html_escape_app by by destruct (nil_b m). rewrite html_escape_app by done.
  change (":" +:+ ?x) with (String ":" x). rewrite (html_escape_ascii_cons ":") by done. f_equal.
  destruct (nil_b m); [done|]. change ("," +:+ ?x) with (String "," x).
  rewrite (html_escape_ascii_cons ",") by done. by rewrite IH.
Qed.
Lemma marshal_object m : marshal (JObject m) = "{" +:+ json_members marshal m +:+ "}".
Proof.
  unfold marshal at 1. rewrite compact_object. change ("{" +:+ ?x) with (String "{" x).
  rewrite html_escape_ascii_cons, html_escape_app by done. by rewrite html_escape_members.
Qed.
Lemma marshal_word k : str_all is_ascii_alphabetic k = true ->
  marshal (JString k) +:+ ":" = json_key k.
Proof.
  intros Hk. unfold marshal, json_key. rewrite compact_word by done.
  change (char_str dquote +:+ ?x) with (String dquote x).
  rewrite html_escape_ascii_cons, html_escape_app, (html_escape_word k) by done.
  change (html_escape (char_str dquote)) with (char_str dquote).
  change (html_escape (String dquote EmptyString)) with (char_str dquote). by rewrite !str_app_assoc.
Qed.

Lemma table_members_ok {V} (f : V -> Value) fresh cache l first :
  (forall n v, (n, v) ∈ l -> encoded_table fresh cache n = Ok (marshal (f v))) ->
  table_members fresh cache l.*1 first
  = Ok ((if first || nil_b l then "" else ",") +:+ json_members marshal (map (fun e => (e.1, f e.2)) l)).
Proof.
  revert first. induction l as [|[n v] l IH]; intros first Hl; [by destruct first|].
  cbn [fmap list_fmap fst table_members]. rewrite (Hl n v) by by left. cbn [mbind outcome_bind].
  rewrite IH by (intros; apply Hl; by right). cbn [mbind outcome_bind map fst snd].
  rewrite json_members_cons, !str_app_assoc. do 2 f_equal; [by destruct first|]. do 3 f_equal.
  by destruct l as [|[]].
Qed.

(** The servers whose cache tells the truth: a cached encoding is that of the stored
    table, unless the table is dirty. *)
Definition coherent (s : Server) : Prop := forall n b t,
  table_cache s !! n = Some b -> tables s !! n = Some t ->
  n ∈ dirty_tables s \/ b = encode_persisted_table t.

Lemma encoded_table_ok s n t :
  coherent s -> tables s !! n = Some t ->
  encoded_table (fresh_tables s) (table_cache s) n = Ok (encode_persisted_table t).
Proof.
  intros Hc Ht. unfold encoded_table, fresh_tables. rewrite map_lookup_imap, Ht. cbn [mbind option_bind].
  destruct (bool_decide (n ∈ dirty_tables s)) eqn:Ed; [done|].
  destruct (table_cache s !! n) as [b|] eqn:Eb; [|done]. rewrite bool_decide_true by done. simpl.
  destruct (Hc n b t Eb Ht) as [Hd | ->]; [by apply bool_decide_eq_false in Ed|done].
Qed.

Definition persisted_of (s : Server) : PersistedState :=
  mkPersisted (tables s) (backups s) (backup_tables s) (backup_items s).

Lemma map_section_spec {V} k (f : V -> Value) (m : gmap string V) fields :
  str_all is_ascii_alphabetic k = true ->
  (if nil_b (omap id (skip_if (bool_decide (m = ∅)) k (map_value f m) :: fields)) then ""
   else "," +:+ json_members marshal (omap id (skip_if (bool_decide (m = ∅)) k (map_value f m) :: fields)))
  = map_section k f m +:+ (if nil_b (omap id fields) then "" else "," +:+ json_members marshal (omap id fields)).
Proof.
  intros Hk. unfold map_section, skip_if. destruct (bool_decide (m = ∅)); cbn [omap list_omap id]; [done|].
  cbn [nil_b]. rewrite json_members_cons, <- (marshal_word k) by done. by rewrite !str_app_assoc.
Qed.

(** What [persist] writes is the serialisation of the whole state. *)
Lemma state_buffer_ok s :
  coherent s -> state_buffer s (fresh_tables s) = Ok (to_state_json (persisted_of s)).
Proof.
  intros Hc. unfold state_buffer.
  rewrite (table_members_ok table_value).
  2: { intros n t Hin. apply elem_of_btree_iter in Hin. by apply encoded_table_ok. }
  cbn [mbind outcome_bind orb]. unfold to_state_json, to_vec, state_value, struct_value. f_equal.
  change (html_escape (json_to_vec ?v)) with (marshal v). rewrite marshal_object.
  cbn [p_tables p_backups p_backup_tables p_backup_items persisted_of]. unfold backup_items_value.
  change (omap id (field "tables" ?v :: ?r)) with (("tables", v) :: omap id r).
  rewrite json_members_cons, map_section_spec, map_section_spec, map_section_spec by done.
  cbn [omap list_omap nil_b]. rewrite str_app_nil_r.
  change (map_value table_value ?m) with (JObject (map (fun e => (e.1, table_value e.2)) (btree_iter m))).
  rewrite marshal_object, <- (marshal_word "tables") by done. by rewrite !str_app_assoc.
Qed.
End Buffer.

(** ** [persist] *)

(** Two servers that differ in their cache only. *)
Definition same_data (s s' : Server) : Prop := set_cache ∅ ∅ s = set_cache ∅ ∅ s'.
#[export] Instance same_data_equiv : Equivalence same_data.
Proof. unfold same_data. split; [by intros s|by intros s s'|by intros s s' s'' -> ->]. Qed.
Lemma same_data_inv s s' : same_data s s' ->
  config s = config s' /\ tables s = tables s' /\ persisted_of s = persisted_of s'.
Proof. unfold same_data, set_cache, persisted_of. intros [=]. split_and!; congruence. Qed.

Section Persist.
Context `{Env, SerdeCompact}.

(** The state file holds the whole state; before the first write there is nothing. *)
Definition synced (w : World) : Prop :=
  is_empty (storage_path (config (server w))) = true
  \/ w_disk w = Some (to_state_json (persisted_of (server w)))
  \/ (w_disk w = None /\ persisted_of (server w) = mkPersisted ∅ ∅ ∅ ∅).

Lemma commit_coherent s : coherent s -> coherent (commit_cache (fresh_tables s) s).
Proof.
  intros Hc n b t. unfold commit_cache. cbn [set_cache table_cache tables].
  rewrite map_lookup_imap. intros Hb Ht. right.
  apply bind_Some in Hb as (b' & Hb & E). case_bool_decide; [|done]. injection E as ->.
  pose proof (encoded_table_ok s n t Hc Ht) as He. unfold encoded_table in He.
  rewrite lookup_union in Hb. destruct (fresh_tables s !! n) as [f|].
  - assert (b = f) as -> by (destruct (table_cache s !! n); cbn in Hb; congruence). congruence.
  - assert (table_cache s !! n = Some b) as E by (by destruct (table_cache s !! n)). rewrite E in He. congruence.
Qed.

(** Every run of [persist]: written and clean, or nothing happened. *)
Lemma wp_dyn_persist Q w :
  coherent (server w) ->
  (forall w', same_data (server w') (server w) -> coherent (server w') ->
     (is_empty (storage_path (config (server w))) = false -> w_disk w' = Some (to_state_json (persisted_of (server w)))) ->
     Q (Ok tt) w') ->
  (forall w', server w' = server w -> w_disk w' = w_disk w -> Q (Err fs_failed) w') ->
  wp persist Q w.
Proof.
  intros Hc Hok Herr. unfold persist. apply wp_bind, wp_gets. cbn [bind_post].
  destruct (is_empty (storage_path (config (server w)))) eqn:Es; [by apply wp_ret, Hok|].
  assert (forall call Q w1, server w1 = server w -> w_disk w1 = w_disk w ->
    (forall w2, server w2 = server w -> w_disk w2 = w_disk w -> Q (Ok tt) w2) ->
    (forall w2, server w2 = server w -> w_disk w2 = w_disk w -> Q (Err fs_failed) w2) ->
    wp (fs_call call) Q w1) as Hcall.
  { intros call Q' w1 Hs Hd HA HB. unfold fs_call. apply wp_bind. unfold next_tick, wp at 1. cbn [fst snd bind_post].
    destruct (call (w_tick w1)); [by apply wp_fail, HB|by apply wp_ret, HA]. }
  apply wp_bind, Hcall; try done. intros w1 S1 D1. cbn [bind_post]. cbv zeta.
  rewrite state_buffer_ok by done. apply wp_bind, wp_lift. cbn [bind_post].
  apply wp_bind, Hcall; try done. intros w2 S2 D2. cbn [bind_post].
  apply wp_bind, Hcall; try done. intros w3 S3 D3. cbn [bind_post].
  apply wp_bind, wp_modify. cbn [bind_post]. apply wp_modify. apply Hok.
  - unfold on_server. cbn. by rewrite S3.
  - unfold on_server. cbn. rewrite S3. by apply commit_coherent.
  - done.
Qed.

(** A transaction: from [w0] the program changed the server without touching the disk,
    and [r] takes the change back.  Either the change stays and is on disk, or the
    data are those of [w0] and so is the disk. *)
Lemma wp_dyn_persist_or r w0 w Q :
  coherent (server w) -> coherent (r (server w)) -> same_data (r (server w)) (server w0) ->
  w_disk w = w_disk w0 -> config (server w) = config (server w0) -> synced w0 ->
  (forall w', same_data (server w') (server w) -> coherent (server w') -> synced w' -> Q (Ok tt) w') ->
  (forall w', same_data (server w') (server w0) -> coherent (server w') -> synced w' -> Q (Err fs_failed) w') ->
  wp (persist_or r) Q w.
Proof.
  intros Hc Hcr Hr Hd Hcfg Hsync Hok Herr. unfold persist_or.
  apply wp_bind, wp_catch. apply wp_dyn_persist; [done|..].
  - intros w' Hs Hc' Hw. cbn [bind_post]. apply wp_ret, Hok; [done..|].
    unfold synced. apply same_data_inv in Hs as (-> & _ & ->).
    destruct (is_empty _); [by left|right; left]. by apply Hw.
  - intros w' Hs Hd'. cbn [bind_post]. apply wp_bind, wp_modify. cbn [bind_post]. apply wp_fail.
    unfold on_server. rewrite Hs. apply Herr; [done..|].
    unfold synced in *. cbn [server w_disk]. apply same_data_inv in Hr as (-> & _ & ->). by rewrite Hd', Hd.
Qed.

(** Changing tables marked dirty keeps the cache truthful. *)
Lemma coherent_touch s s' :
  coherent s -> table_cache s' = table_cache s ->
  (forall n t, tables s' !! n = Some t ->
     n ∈ dirty_tables s' \/ (tables s !! n = Some t /\ (n ∈ dirty_tables s -> n ∈ dirty_tables s'))) ->
  coherent s'.
Proof.
  intros Hc Hcache Ht n b t Hb Hn. rewrite Hcache in Hb.
  destruct (Ht n t Hn) as [?|[Hn' Hd]]; [by left|]. destruct (Hc n b t Hb Hn'); [left; auto|by right].
Qed.
End Persist.

(** The invariant of the DynamoDB server and its preservation by the tails of the
    writing calls: storing and deleting an item, planned writes, changes of a
    table, and adding or dropping a table. *)

(** ** The invariant *)

Definition items_ok (items : gmap string Item) : Prop := map_Forall (fun _ i => item_ok i) items.
(** The k-th record of a stream carries sequence number k, counted from 1. *)
Definition sequenced (l : list StreamRecord) : Prop :=
  forall i r, l !! i = Some r -> sequence_number (sr_dynamodb r) = show_Z (Z.of_nat i + 1).
(** A table whose counts are right, whose items are well-typed and whose stream is numbered. *)
Record table_ok (t : TableState) : Prop := mkTableOk {
  tok_counted : recount t = t;
  tok_items : items_ok (st_items t);
  tok_stream : sequenced (st_stream_records t) }.
Definition tables_ok (s : Server) : Prop := map_Forall (fun _ t => table_ok t) (tables s).
(** The items of a backup are well-typed, and only a backup in the list has any. *)
Definition backups_ok (s : Server) : Prop :=
  map_Forall (fun _ i => items_ok i) (backup_items s)
  /\ forall arn, backups s !! arn = None -> backup_tables s !! arn = None /\ backup_items s !! arn = None.
Lemma backups_ok_data s s' : same_data s s' -> backups_ok s' -> backups_ok s.
Proof.
  intros (_ & _ & HP)%same_data_inv. pose proof (f_equal p_backups HP) as H1.
  pose proof (f_equal p_backup_tables HP) as H2. pose proof (f_equal p_backup_items HP) as H3. cbn in *.
  unfold backups_ok. by rewrite H1, H2, H3.
Qed.

Section Ok.
Context `{Env, SerdeCompact}.
Record world_ok (w : World) : Prop := mkOk {
  ok_coherent : coherent (server w);
  ok_synced : synced w;
  ok_tables : tables_ok (server w);
  ok_backups : backups_ok (server w) }.

(** The invariant looks at the server and its disk. *)
Lemma world_ok_still w w' :
  world_ok w -> server w' = server w -> w_disk w' = w_disk w -> world_ok w'.
Proof. intros [] Hs Hd. constructor; unfold synced in *; by rewrite ?Hs, ?Hd. Qed.
Lemma world_ok_data w0 w :
  world_ok w0 -> same_data (server w) (server w0) -> coherent (server w) -> synced w -> world_ok w.
Proof.
  intros [] Hd Hc Hs. constructor; [done..| |by apply (backups_ok_data _ _ Hd)].
  apply same_data_inv in Hd as (_ & Ht & _). unfold tables_ok in *. by rewrite Ht.
Qed.

(** What a call may do: succeed with [P], or fail and change nothing. *)
Definition txn {A} (w0 : World) (P : A -> Server -> Prop) (o : result ApiError A) (w : World) : Prop :=
  world_ok w /\ match o with Ok a => P a (server w) | _ => same_data (server w) (server w0) end.
End Ok.

(** ** Counting *)

Lemma recount_stream l t : recount (set_stream_records l t) = set_stream_records l (recount t).
Proof. done. Qed.
Lemma recount_items i t : recount (set_items i (recount t)) = recount (set_items i t).
Proof.
  unfold recount, update_index_item_counts, set_indexes, set_description, set_items, set_item_count. cbn.
  rewrite !map_map. done.
Qed.
Lemma recount_idemp t : recount (recount t) = recount t.
Proof. destruct t. exact (recount_items _ _). Qed.
Lemma set_items_twice i j t : set_items i (set_items j t) = set_items i t.
Proof. done. Qed.
Lemma set_items_id t : set_items (st_items t) t = t.
Proof. by destruct t. Qed.
Lemma set_stream_id t : set_stream_records (st_stream_records t) t = t.
Proof. by destruct t. Qed.

Lemma sequenced_snoc l r :
  sequenced l -> sequence_number (sr_dynamodb r) = show_Z (Z.of_nat (length l) + 1) -> sequenced (l ++ [r])%list.
Proof.
  intros Hl Hr i x Hx. apply lookup_app_Some in Hx as [Hx|[Hi Hx]]; [by apply Hl|].
  apply list_lookup_singleton_Some in Hx as [E ->]. rewrite Hr. do 2 f_equal. lia.
Qed.
Lemma sequenced_option l (o : option StreamRecord) :
  sequenced l -> (forall r, o = Some r -> sequence_number (sr_dynamodb r) = show_Z (Z.of_nat (length l) + 1)) ->
  sequenced (l ++ option_list o)%list.
Proof. intros Hl Ho. destruct o as [r|]; cbn; [by apply sequenced_snoc; auto|by rewrite app_nil_r]. Qed.
Lemma sequenced_nil : sequenced [].
Proof. by intros i r. Qed.
Lemma build_stream_sequence `{SerdeJson} d reg n event old new now r :
  build_stream_record d reg n event old new now = Some r -> sequence_number (sr_dynamodb r) = show_Z (n + 1).
Proof.
  unfold build_stream_record. intros E.
  apply bind_Some in E as (spec & _ & E). destruct (negb (stream_enabled spec)); [done|].
  destruct (_ && _); [done|]. apply bind_Some in E as (src & _ & E). apply bind_Some in E as (keys & _ & E).
  by injection E as <-.
Qed.

Lemma validate_item_size_ok `{SerdeJson} c item : validate_item_size c item = Ok tt -> item_ok item.
Proof.
  unfold validate_item_size. intros ([] & Hv & _)%bind_Ok. unfold validate_item_attribute_values in Hv.
  rewrite try_each_Ok, Forall_forall in Hv. intros k v Hkv.
  apply elem_of_btree_iter, Hv in Hkv. apply bind_Ok in Hkv as ([] & Hk%unless_Ok & Ha). cbn in Hk, Ha.
  split; [|by apply validate_Ok in Ha]. intros ->. done.
Qed.

Lemma items_ok_insert items k i : items_ok items -> item_ok i -> items_ok (<[k := i]> items).
Proof. intros. by apply map_Forall_insert_2. Qed.
Lemma items_ok_delete items k : items_ok items -> items_ok (delete k items).
Proof. intros. by apply map_Forall_delete. Qed.
Lemma items_ok_restore items k o :
  items_ok items -> (forall i, o = Some i -> item_ok i) -> items_ok (restore_item k o items).
Proof. destruct o; simpl; intros; [apply items_ok_insert; auto|by apply items_ok_delete]. Qed.
Lemma restore_after items k : restore_item k (items !! k) items = items.
Proof.
  destruct (items !! k) as [i|] eqn:E; simpl; [by apply insert_id|by apply delete_id].
Qed.
Lemma table_ok_items t i :
  table_ok t -> items_ok i -> table_ok (recount (set_items i t)).
Proof. intros [] Hi. constructor; [apply recount_idemp|done|done]. Qed.

(** ** Changing one table *)

Lemma put_table_id n t s : tables s !! n = Some t -> put_table n t s = s.
Proof. intros Ht. unfold put_table, set_tables. rewrite insert_id by done. by destruct s. Qed.
Lemma put_table_twice n t t' s : put_table n t (put_table n t' s) = put_table n t s.
Proof. unfold put_table, set_tables. cbn. by rewrite insert_insert_eq. Qed.
Lemma alter_put n f t s : alter_table f n (put_table n t s) = put_table n (f t) s.
Proof. unfold alter_table, put_table, set_tables. cbn. by rewrite alter_insert_eq. Qed.
Lemma alter_is_put n f t s : tables s !! n = Some t -> alter_table f n s = put_table n (f t) s.
Proof. intros Ht. rewrite <- (put_table_id n t s Ht) at 1. apply alter_put. Qed.
Lemma add_dirty_put n m t s : add_dirty m (put_table n t s) = put_table n t (add_dirty m s).
Proof. done. Qed.
Lemma alter_dirty n m f s : alter_table f n (add_dirty m s) = add_dirty m (alter_table f n s).
Proof. done. Qed.
Lemma same_data_dirty n s : same_data (add_dirty n s) s.
Proof. done. Qed.
Lemma same_data_cache c d s : same_data (set_cache c d s) s.
Proof. done. Qed.

Section Tails.
Context `{Env, SerdeCompact}.

Lemma coherent_put n t s : coherent s -> coherent (put_table n t (add_dirty n s)).
Proof.
  intros Hc. apply (coherent_touch s); [done..|]. intros m u Hm. cbn in *.
  destruct (decide (m = n)) as [->|Hne]; [left; set_solver|]. rewrite lookup_insert_ne in Hm by done.
  right. split; [done|]. set_solver.
Qed.

(** Committing a change of one table, with a rollback that restores the table. *)
Lemma wp_commit_table n t t' w0 w r Q :
  world_ok w0 -> tables (server w0) !! n = Some t -> table_ok t' ->
  server w = put_table n t' (add_dirty n (server w0)) -> w_disk w = w_disk w0 ->
  r t' = t ->
  (forall w', world_ok w' -> same_data (server w') (put_table n t' (server w0)) -> Q (Ok tt) w') ->
  (forall w', world_ok w' -> same_data (server w') (server w0) -> Q (Err fs_failed) w') ->
  wp (persist_or (alter_table r n)) Q w.
Proof.
  intros Hok Ht Ht' Hw Hd Hr HOk HErr.
  assert (alter_table r n (server w) = add_dirty n (server w0)) as Hback.
  { rewrite Hw, alter_put, Hr. by apply put_table_id. }
  apply (wp_dyn_persist_or _ w0).
  - rewrite Hw. apply coherent_put, Hok.
  - rewrite Hback. apply (coherent_touch (server w0)); [apply Hok|done|]. intros m u Hm. right.
    split; [done|]. cbn. set_solver.
  - by rewrite Hback.
  - done.
  - by rewrite Hw.
  - apply Hok.
  - intros w' Hs Hc Hsy. rewrite Hw in Hs. apply HOk; [|done].
    constructor; [done..| |]; destruct (same_data_inv _ _ Hs) as (_ & HT & HP).
    + unfold tables_ok. rewrite HT. cbn. apply map_Forall_insert_2; [done|]. apply Hok.
    + by apply (backups_ok_data _ _ Hs), Hok.
  - intros w' Hs Hc Hsy. apply HErr; [by apply (world_ok_data w0)|done].
Qed.

Lemma wp_table_unwrap n t w (Q : result ApiError TableState -> World -> Prop) :
  tables (server w) !! n = Some t -> Q (Ok t) w -> wp (table_unwrap n) Q w.
Proof. intros Ht HQ. unfold table_unwrap. apply wp_bind, wp_gets. cbn [bind_post]. rewrite Ht. by apply wp_ret. Qed.

Lemma wp_now_unix w (Q : result ApiError Z -> World -> Prop) :
  (forall n w', server w' = server w -> w_disk w' = w_disk w -> Q (Ok n) w') -> wp now_unix Q w.
Proof.
  intros HQ. unfold now_unix. apply wp_bind, wp_gets. cbn [bind_post].
  destruct (fixed_now_unix (server w)); [by apply wp_ret, HQ|].
  apply wp_bind. unfold next_tick, wp at 1. cbn [fst snd bind_post]. by apply wp_ret, HQ.
Qed.

(** The record of a write, appended when the stream is on. *)
Lemma wp_append_stream_record n t event old new w (Q : result ApiError unit -> World -> Prop) :
  tables (server w) !! n = Some t ->
  (forall now w', let rs := option_list (build_stream_record (st_description t) (region (config (server w)))
                        (Z.of_nat (length (st_stream_records t))) event old new now) in
     server w' = put_table n (set_stream_records (st_stream_records t ++ rs) t) (server w) ->
     w_disk w' = w_disk w -> Q (Ok tt) w') ->
  wp (append_stream_record n event old new) Q w.
Proof.
  intros Ht HQ. unfold append_stream_record. apply wp_bind, wp_gets. cbn [bind_post].
  apply wp_bind, wp_now_unix. intros now w1 Hs Hd. cbn [bind_post]. rewrite Ht.
  specialize (HQ now). destruct (build_stream_record _ _ _ _ _ _ _) as [r|] eqn:E.
  - apply wp_modify, HQ; [|done]. unfold on_server. cbn. by rewrite Hs.
  - apply wp_ret, HQ; [|done]. cbn. rewrite app_nil_r, set_stream_id, put_table_id; done.
Qed.

(** A table with other items, recounted, and the records of the write added. *)
Definition written (t : TableState) (items : gmap string Item) (rs : list StreamRecord) : TableState :=
  set_stream_records (st_stream_records t ++ rs) (recount (set_items items t)).
(** The record of a write on [t]: at most one, with the next sequence number. *)
Definition record_of (c : Config) (t : TableState) (items : gmap string Item) (event : string)
    (old new : option Item) (rs : list StreamRecord) : Prop :=
  exists now, rs = option_list (build_stream_record (st_description (recount (set_items items t))) (region c)
                     (Z.of_nat (length (st_stream_records t))) event old new now).

Lemma table_ok_written c t items event old new rs :
  table_ok t -> items_ok items -> record_of c t items event old new rs -> table_ok (written t items rs).
Proof.
  intros [] Hi (now & ->). unfold written. constructor.
  - rewrite recount_stream, recount_idemp. done.
  - done.
  - apply sequenced_option; [done|]. intros r E. by apply build_stream_sequence in E.
Qed.
Lemma rollback_written t items items' rs :
  recount t = t -> items' = st_items t ->
  recount (set_stream_records (take (length (st_stream_records t)) (st_stream_records (written t items rs)))
    (set_items items' (written t items rs))) = t.
Proof.
  intros Hc ->. unfold written. cbn [st_stream_records set_stream_records].
  rewrite take_app_length, recount_stream.
  change (set_items ?i (set_stream_records ?l ?u)) with (set_stream_records l (set_items i u)).
  rewrite recount_stream, recount_items, set_items_twice, set_items_id, Hc. exact (set_stream_id t).
Qed.

Section ItemTails.
Context (n key : string) (t : TableState) (w : World).
Hypothesis w_ok : world_ok w.
Hypothesis Ht : tables (server w) !! n = Some t.

Lemma t_ok : table_ok t.
Proof. exact (ok_tables _ w_ok n t Ht). Qed.

Lemma wp_store_item item (Q : result ApiError unit -> World -> Prop) :
  item_ok item ->
  let items := <[key := item]> (st_items t) in
  let event := stream_event_name (bool_decide (is_Some (st_items t !! key))) false in
  (forall w' rs, world_ok w' -> record_of (config (server w)) t items event (st_items t !! key) (Some item) rs ->
     same_data (server w') (put_table n (written t items rs) (server w)) -> Q (Ok tt) w') ->
  (forall w', world_ok w' -> same_data (server w') (server w) -> Q (Err fs_failed) w') ->
  wp (store_item n key item (st_items t !! key)) Q w.
Proof.
  intros Hi items event HOk HErr. pose proof t_ok as Htok. unfold store_item.
  apply wp_bind, (wp_table_unwrap _ t); [done|]. cbn [bind_post]. cbv zeta.
  apply wp_bind, wp_modify. cbn [bind_post]. apply wp_bind, wp_modify. cbn [bind_post].
  apply wp_bind, (wp_append_stream_record _ (recount (set_items items t))).
  { cbn. by rewrite lookup_insert_eq. }
  intros now w1 rs Hs Hd. cbn [bind_post].
  assert (record_of (config (server w)) t items event (st_items t !! key) (Some item) rs) as Hrs by by exists now.
  apply (wp_commit_table n t (written t items rs) w); try done.
  - apply (table_ok_written (config (server w)) t items event (st_items t !! key) (Some item)); [done| |done].
    by apply items_ok_insert; [apply Htok|].
  - rewrite Hs. unfold on_server. cbn [server]. rewrite add_dirty_put, put_table_twice. done.
  - apply rollback_written; [apply Htok|]. cbn. unfold items.
    destruct (st_items t !! key) as [i|] eqn:E; cbn; [rewrite insert_insert_eq; by apply insert_id|].
    rewrite delete_insert_eq. by apply delete_id.
  - intros w' Hok Hsd. by apply (HOk w' rs).
Qed.

Lemma wp_drop_item (Q : result ApiError unit -> World -> Prop) :
  let items := delete key (st_items t) in
  (forall w' rs, world_ok w' -> record_of (config (server w)) t items "REMOVE" (st_items t !! key) None rs ->
     same_data (server w') (put_table n (written t items rs) (server w)) -> Q (Ok tt) w') ->
  (forall w', world_ok w' -> same_data (server w') (server w) -> Q (Err fs_failed) w') ->
  wp (drop_item n key (st_items t !! key)) Q w.
Proof.
  intros items HOk HErr. pose proof t_ok as Htok. unfold drop_item.
  apply wp_bind, (wp_table_unwrap _ t); [done|]. cbn [bind_post]. cbv zeta.
  apply wp_bind, wp_modify. cbn [bind_post].
  apply wp_bind, (wp_append_stream_record _ (recount (set_items items t))).
  { cbn. by rewrite lookup_insert_eq. }
  intros now w1 rs Hs Hd. cbn [bind_post]. apply wp_bind, wp_modify. cbn [bind_post].
  assert (record_of (config (server w)) t items "REMOVE" (st_items t !! key) None rs) as Hrs by by exists now.
  apply (wp_commit_table n t (written t items rs) w); try done.
  - apply (table_ok_written (config (server w)) t items "REMOVE" (st_items t !! key) None); [done| |done].
    apply items_ok_delete, Htok.
  - unfold on_server. cbn [server]. rewrite Hs. unfold on_server. cbn [server]. by rewrite put_table_twice.
  - apply rollback_written; [apply Htok|]. cbn. unfold items.
    destruct (st_items t !! key) as [i|] eqn:E; [rewrite insert_delete_eq; by apply insert_id|by apply delete_id].
  - intros w' Hok Hsd. by apply (HOk w' rs).
Qed.
End ItemTails.
End Tails.

(** Planned writes of the DynamoDB server: BatchWriteItem and TransactWriteItems apply
    a list of writes to the tables, and undo it from the items saved before. *)

(** The items of table [n] after a list of writes. *)
Definition write_items (plan : list PlannedWrite) (n : string) (items : gmap string Item) : gmap string Item :=
  foldl (fun items w => if bool_decide (pw_table w = n) then restore_item (pw_key w) (pw_put w) items else items)
    items plan.
Definition map_tables (f : string -> TableState -> TableState) (s : Server) : Server :=
  set_tables (map_imap (fun n t => Some (f n t)) (tables s)) s.
Definition applied (plan : list PlannedWrite) : Server -> Server :=
  map_tables (fun n t => set_items (write_items plan n (st_items t)) t).
(** ... and counted again. *)
Definition planned (plan : list PlannedWrite) : Server -> Server :=
  map_tables (fun n t => recount (set_items (write_items plan n (st_items t)) t)).

Lemma map_tables_lookup f s n : tables (map_tables f s) !! n = f n <$> tables s !! n.
Proof. unfold map_tables. cbn. rewrite map_lookup_imap. by destruct (tables s !! n). Qed.
Lemma set_tables_eq s s' ts : set_tables ts s = set_tables ts s' -> tables s = tables s' -> s = s'.
Proof. destruct s, s'. unfold set_tables. cbn. intros [=] ->. by subst. Qed.
Lemma server_eq s s' : set_tables ∅ s = set_tables ∅ s' -> (forall n, tables s !! n = tables s' !! n) -> s = s'.
Proof. intros Hs Ht. apply (set_tables_eq s s' ∅); [done|]. by apply map_eq. Qed.

Lemma write_items_snoc plan w n items :
  write_items (plan ++ [w]) n items
  = if bool_decide (pw_table w = n) then restore_item (pw_key w) (pw_put w) (write_items plan n items)
    else write_items plan n items.
Proof. unfold write_items. by rewrite foldl_app. Qed.
Lemma write_items_ok plan n items :
  items_ok items -> Forall (fun w => forall i, pw_put w = Some i -> item_ok i) plan ->
  items_ok (write_items plan n items).
Proof.
  intros Hi Hp. induction plan as [|w plan IH] using rev_ind; [done|]. apply Forall_app in Hp as [Hp Hw].
  rewrite write_items_snoc. case_bool_decide; [|by apply IH]. apply items_ok_restore; [by apply IH|].
  by apply Forall_inv in Hw.
Qed.
(** Only the keys named by the plan change. *)
Lemma write_items_other plan n items k :
  Forall (fun w => (pw_table w, pw_key w) <> (n, k)) plan -> write_items plan n items !! k = items !! k.
Proof.
  intros Hp. induction plan as [|w plan IH] using rev_ind; [done|]. apply Forall_app in Hp as [Hp Hw].
  apply Forall_inv in Hw. rewrite write_items_snoc. case_bool_decide as E; [|by apply IH].
  assert (pw_key w <> k) as Hk by (intros Hk; apply Hw; by rewrite E, Hk).
  destruct (pw_put w); cbn; rewrite ?lookup_insert_ne, ?lookup_delete_ne by done; by apply IH.
Qed.
Lemma write_items_not_touched plan n items :
  n ∉ map pw_table plan -> write_items plan n items = items.
Proof.
  intros Hn. apply map_eq. intros k. apply write_items_other. apply Forall_forall. intros w Hw [= <- _].
  apply Hn, list_elem_of_In, in_map_iff. exists w. split; [done|]. by apply list_elem_of_In.
Qed.

(** ** Undoing *)

Definition backup_list (s : Server) (plan : list PlannedWrite) : list (string * string * option Item) :=
  omap (backup_of s) plan.
Lemma elem_of_backups s plan b :
  b ∈ backup_list s plan <->
  exists w t, w ∈ plan /\ tables s !! pw_table w = Some t /\ b = (pw_table w, pw_key w, st_items t !! pw_key w).
Proof.
  unfold backup_list. rewrite list_elem_of_omap. unfold backup_of. split.
  - intros (w & Hw & E). apply bind_Some in E as (t & Ht & [= <-]). eauto.
  - intros (w & t & Hw & Ht & ->). exists w. split; [done|]. by rewrite Ht.
Qed.

Lemma elem_of_rev {A} (x : A) l : x ∈ rev l <-> x ∈ l.
Proof. rewrite !list_elem_of_In. symmetry. apply in_rev. Qed.

(** Undoing a list of backups of [s0] puts the original item under every saved key
    and leaves the others. *)
Lemma undo_lookup s0 l s n t0 t :
  (forall b, b ∈ l -> exists u, tables s0 !! b.1.1 = Some u /\ b.2 = st_items u !! b.1.2) ->
  tables s0 !! n = Some t0 -> tables s !! n = Some t ->
  exists items, tables (foldl undo_write s l) !! n = Some (set_items items t)
    /\ (forall k, (n, k) ∈ l.*1 -> items !! k = st_items t0 !! k)
    /\ (forall k, (n, k) ∉ l.*1 -> items !! k = st_items t !! k).
Proof.
  intros Hl H0. revert s t. induction l as [|[[m k] prev] l IH]; intros s t Ht.
  - exists (st_items t). cbn. rewrite set_items_id. split_and!; [done| |done]. intros k Hk. by apply elem_of_nil in Hk.
  - assert (tables (undo_write s (m, k, prev)) !! n
      = Some (set_items (if bool_decide (m = n) then restore_item k prev (st_items t) else st_items t) t)) as Hu.
    { cbn. case_bool_decide as E; [subst; by rewrite lookup_alter_eq, Ht|].
      by rewrite lookup_alter_ne, set_items_id. }
    destruct (IH ltac:(intros b Hb; apply Hl; by right) _ _ Hu) as (items & Hi & Hin & Hout).
    exists items. cbn [foldl]. rewrite Hi, set_items_twice. split; [done|]. cbn [fmap list_fmap fst].
    split; intros k' Hk'.
    + destruct (decide ((n, k') ∈ l.*1)) as [?|Hni]; [by apply Hin|].
      apply elem_of_cons in Hk' as [[= <- <-]|?]; [|done]. rewrite Hout by done. cbn. rewrite bool_decide_true by done.
      destruct (Hl (n, k', prev)) as (u & Hu' & Ep); [by left|]. cbn in Hu', Ep. simplify_eq.
      destruct (st_items t0 !! k') eqn:E; cbn; [by rewrite lookup_insert_eq|by rewrite lookup_delete_eq].
    + apply not_elem_of_cons in Hk' as [Hne Hk']. rewrite Hout by done. cbn.
      case_bool_decide as E; [|done]. subst. assert (k <> k') by congruence.
      destruct prev; cbn; by rewrite ?lookup_insert_ne, ?lookup_delete_ne.
Qed.
Lemma undo_missing l s n : tables s !! n = None -> tables (foldl undo_write s l) !! n = None.
Proof.
  revert s. induction l as [|[[m k] prev] l IH]; intros s Hs; [done|]. cbn [foldl]. apply IH. cbn.
  destruct (decide (m = n)) as [->|]; [by rewrite lookup_alter_eq, Hs|by rewrite lookup_alter_ne].
Qed.
Lemma undo_rest l s : set_tables ∅ (foldl undo_write s l) = set_tables ∅ s.
Proof. revert s. induction l as [|[[m k] prev] l IH]; intros s; [done|]. cbn [foldl]. by rewrite IH. Qed.

(** ** The whole of [apply_planned_writes] *)

Lemma applied_snoc plan w s t :
  tables s !! pw_table w = Some t ->
  let u := set_items (write_items plan (pw_table w) (st_items t)) t in
  put_table (pw_table w) (set_items (restore_item (pw_key w) (pw_put w) (st_items u)) u) (applied plan s)
  = applied (plan ++ [w]) s.
Proof.
  intros Ht u. apply server_eq; [done|]. intros n. unfold applied at 2. rewrite map_tables_lookup. cbn.
  destruct (decide (pw_table w = n)) as [<-|Hn].
  - rewrite lookup_insert_eq, Ht. cbn. by rewrite write_items_snoc, bool_decide_true.
  - rewrite lookup_insert_ne by done. unfold applied, map_tables. cbn. rewrite map_lookup_imap.
    destruct (tables s !! n); [|done]. cbn. by rewrite write_items_snoc, bool_decide_false.
Qed.
Definition touched_by (plan : list PlannedWrite) : gset string := list_to_set (map pw_table plan).
Lemma elem_of_touched plan n : n ∈ touched_by plan <-> n ∈ map pw_table plan.
Proof. apply elem_of_list_to_set. Qed.

Lemma touched_snoc plan w : {[pw_table w]} ∪ touched_by plan = touched_by (plan ++ [w]).
Proof.
  apply set_eq. intros n. unfold touched_by. rewrite map_app, list_to_set_app_L. cbn. set_solver.
Qed.

Lemma recount_applied plan s :
  tables_ok s -> recount_tables (touched_by plan) (applied plan s) = planned plan s.
Proof.
  intros Hok. apply server_eq; [done|]. intros n. unfold planned. rewrite map_tables_lookup.
  unfold recount_tables. cbn [set_tables tables]. rewrite map_lookup_imap.
  pose proof (map_tables_lookup (fun n t => set_items (write_items plan n (st_items t)) t) s n) as E.
  change (map_tables _ s) with (applied plan s) in E. rewrite E. clear E.
  destruct (tables s !! n) as [t|] eqn:Ht; [|done]. cbn. case_bool_decide as Hn; [done|].
  rewrite write_items_not_touched by (by rewrite <- elem_of_touched). rewrite set_items_id.
  by rewrite (tok_counted _ (Hok n t Ht)).
Qed.

(** The rollback finds every table as it was, from any saved items that cover the plan. *)
Lemma undo_planned plan s c d l :
  tables_ok s ->
  (forall b, b ∈ l -> exists u, tables s !! b.1.1 = Some u /\ b.2 = st_items u !! b.1.2) ->
  (forall w t, w ∈ plan -> tables s !! pw_table w = Some t -> (pw_table w, pw_key w) ∈ l.*1) ->
  recount_tables (touched_by plan) (foldl undo_write (set_cache c d (planned plan s)) l) = set_cache c d s.
Proof.
  intros Hok Hb Hcover. apply server_eq.
  { unfold recount_tables. change (set_tables ∅ (set_tables ?x ?y)) with (set_tables ∅ y). by rewrite undo_rest. }
  intros n. change (tables (set_cache c d s)) with (tables s). unfold recount_tables. cbn [set_tables tables].
  rewrite map_lookup_imap.
  pose proof (map_tables_lookup (fun n t => recount (set_items (write_items plan n (st_items t)) t)) s n) as Hp.
  change (map_tables _ s) with (planned plan s) in Hp.
  destruct (tables s !! n) as [t|] eqn:Ht; [|by rewrite undo_missing].
  cbn [fmap option_fmap option_map] in Hp.
  destruct (undo_lookup s _ (set_cache c d (planned plan s)) n t _ Hb Ht Hp) as (items & Hi & Hin & Hout).
  rewrite Hi. cbn. assert (items = st_items t) as ->.
  { apply map_eq. intros k. destruct (decide ((n, k) ∈ l.*1)) as [?|Hk]; [by apply Hin|].
    rewrite Hout by done. apply write_items_other, Forall_forall. intros w Hw [= <- <-]. by apply Hk, (Hcover w t). }
  f_equal. case_bool_decide as Hn.
  - rewrite recount_items, set_items_twice, set_items_id. apply Hok in Ht. apply Ht.
  - rewrite write_items_not_touched by (by rewrite <- elem_of_touched). rewrite set_items_id.
    rewrite (tok_counted _ (Hok n t Ht)). apply set_items_id.
Qed.
Lemma undo_backups plan s c d :
  tables_ok s ->
  recount_tables (touched_by plan) (foldl undo_write (set_cache c d (planned plan s)) (rev (backup_list s plan)))
  = set_cache c d s.
Proof.
  intros Hok. apply undo_planned; [done|..].
  - intros b Hb. rewrite elem_of_rev in Hb. apply elem_of_backups in Hb as (w & u & _ & Hu & ->). eauto.
  - intros w t Hw Ht. apply list_elem_of_fmap. exists (pw_table w, pw_key w, st_items t !! pw_key w).
    split; [done|]. rewrite elem_of_rev. apply elem_of_backups. eauto.
Qed.
Lemma tables_ok_planned plan s :
  tables_ok s -> Forall (fun w => forall i, pw_put w = Some i -> item_ok i) plan -> tables_ok (planned plan s).
Proof.
  intros Hok Hp n t Ht. unfold planned in Ht. rewrite map_tables_lookup in Ht.
  apply fmap_Some in Ht as (t0 & Ht & ->). apply Hok in Ht. apply table_ok_items; [done|].
  apply write_items_ok; [apply Ht|done].
Qed.

Section Apply.
Context `{Env, SerdeCompact}.

(** Committing planned writes: the server holds the plan's result with the touched
    tables marked dirty, and [r] undoes it. *)
Lemma wp_commit_planned plan w0 w r (Q : result ApiError unit -> World -> Prop) :
  world_ok w0 ->
  let s := server w0 in
  Forall (fun p => forall i, pw_put p = Some i -> item_ok i) plan ->
  server w = set_cache (table_cache s) (touched_by plan ∪ dirty_tables s) (planned plan s) ->
  w_disk w = w_disk w0 ->
  r (server w) = set_cache (table_cache s) (touched_by plan ∪ dirty_tables s) s ->
  (forall w', world_ok w' -> same_data (server w') (planned plan s) -> Q (Ok tt) w') ->
  (forall w', world_ok w' -> same_data (server w') s -> Q (Err fs_failed) w') ->
  wp (persist_or r) Q w.
Proof.
  intros Hok s Hit Hsrv Hd Hr HOk HErr. apply (wp_dyn_persist_or _ w0).
  - rewrite Hsrv. apply (coherent_touch s); [apply Hok|done|]. intros n t Ht. cbn in Ht. rewrite map_lookup_imap in Ht.
    apply bind_Some in Ht as (t0 & Ht & [= <-]). cbn. destruct (decide (n ∈ touched_by plan)) as [?|Hn]; [left; set_solver|].
    right. rewrite write_items_not_touched by (by rewrite <- elem_of_touched). rewrite set_items_id.
    split; [|set_solver]. rewrite Ht. by rewrite (tok_counted _ (ok_tables _ Hok n t0 Ht)).
  - rewrite Hr. apply (coherent_touch s); [apply Hok|done|]. intros n t Ht. right. split; [done|]. cbn. set_solver.
  - by rewrite Hr.
  - done.
  - by rewrite Hsrv.
  - apply Hok.
  - intros w' Hsd Hc Hsy. rewrite Hsrv in Hsd. apply HOk; [|done].
    destruct (same_data_inv _ _ Hsd) as (_ & HT & HP). constructor; [done..| |].
    + unfold tables_ok. rewrite HT. apply tables_ok_planned; [apply Hok|done].
    + by apply (backups_ok_data _ _ Hsd), Hok.
  - intros w' Hsd Hc Hsy. apply HErr; [by apply (world_ok_data w0)|done].
Qed.

Lemma wp_apply_planned_writes plan w (Q : result ApiError unit -> World -> Prop) :
  world_ok w ->
  Forall (fun p => is_Some (tables (server w) !! pw_table p)) plan ->
  Forall (fun p => forall i, pw_put p = Some i -> item_ok i) plan ->
  (forall w', world_ok w' -> same_data (server w') (planned plan (server w)) -> Q (Ok tt) w') ->
  (forall w', world_ok w' -> same_data (server w') (server w) -> Q (Err fs_failed) w') ->
  wp (apply_planned_writes plan) Q w.
Proof.
  intros Hok Hex Hit HOk HErr. set (s := server w) in *. unfold apply_planned_writes.
  apply wp_bind, wp_gets. cbn [bind_post]. cbv zeta. fold s. fold (backup_list s plan).
  apply wp_bind. apply (wp_for_each (fun rest touched w' => exists dn, plan = (dn ++ rest)%list
    /\ server w' = applied dn s /\ w_disk w' = w_disk w /\ touched = touched_by dn)).
  - intros p rest touched w1 (dn & Hpl & Hs & Hd & ->). unfold apply_write.
    assert (is_Some (tables s !! pw_table p)) as [t Ht].
    { rewrite Hpl in Hex. apply Forall_app in Hex as [_ Hex]. by apply Forall_inv in Hex. }
    apply wp_bind, (wp_table_unwrap _ (set_items (write_items dn (pw_table p) (st_items t)) t)).
    { rewrite Hs. unfold applied. by rewrite map_tables_lookup, Ht. }
    cbn [bind_post]. apply wp_bind, wp_modify. cbn [bind_post]. apply wp_ret. exists (dn ++ [p])%list.
    split_and!; [by rewrite <- app_assoc| |done|].
    + unfold on_server. cbn [server]. rewrite Hs. by apply applied_snoc.
    + apply touched_snoc.
  - intros touched w1 (dn & Hpl & Hs & Hd & ->). cbn [bind_post]. rewrite app_nil_r in Hpl. subst dn.
    apply wp_bind, wp_modify. cbn [bind_post]. apply wp_bind, wp_modify. cbn [bind_post].
    assert (Hsrv : server (on_server (fun s0 => set_cache (table_cache s0) (touched_by plan ∪ dirty_tables s0) s0)
              (on_server (recount_tables (touched_by plan)) w1))
            = set_cache (table_cache s) (touched_by plan ∪ dirty_tables s) (planned plan s)).
    { unfold on_server. cbn [server]. rewrite Hs, recount_applied by apply Hok. done. }
    apply (wp_commit_planned plan w); try done. rewrite Hsrv. apply undo_backups, Hok.
  - exists []. split_and!; [done| |done|done]. apply server_eq; [done|]. intros n. unfold applied.
    rewrite map_tables_lookup. cbn. fold s. destruct (tables s !! n); [|done]. cbn. by rewrite set_items_id.
Qed.
End Apply.
