(* ===== verification/DynTxn.v ===== *)
(** Every writing call of the DynamoDB server as a transaction: a part that only
    reads, then one of the tails of DynWrites. *)

From S2P Require Import Prelude RustStr RustNum RustText Json DynModel DynValue DynExpr DynUpdate DynState DynItems DynTables DynReads DynWrites.
Local Open Scope string_scope.
Local Open Scope Z_scope.

(** ** Computations that only read *)

Definition still (w0 w : World) : Prop := server w = server w0 /\ w_disk w = w_disk w0.
Definition reads {A} (m : Api A) : Prop := forall w, still w (snd (m w)).

Lemma still_refl w : still w w.
Proof. done. Qed.
Lemma still_trans w0 w1 w2 : still w0 w1 -> still w1 w2 -> still w0 w2.
Proof. intros [] []. split; congruence. Qed.

Lemma reads_bind {A B} (m : Api A) (f : A -> Api B) : reads m -> (forall a, reads (f a)) -> reads (m ≫= f).
Proof.
  intros Hm Hf w. specialize (Hm w). unfold mbind, m_bind. destruct (m w) as [[a|e|p] w'] eqn:E; try done.
  eapply still_trans; [apply Hm|]. apply Hf.
Qed.
Lemma reads_ret {A} (a : A) : reads (mret a).
Proof. done. Qed.
Lemma reads_lift {A} (o : result ApiError A) : reads (lift o).
Proof. done. Qed.
Lemma reads_gets {A} (f : World -> A) : reads (gets f).
Proof. done. Qed.
Lemma reads_fail {A} e : reads (fail e : Api A).
Proof. done. Qed.
Lemma reads_panic {A} e : reads (panic e : Api A).
Proof. done. Qed.
Lemma reads_guard b e : reads (guard_err b e).
Proof. by destruct b. Qed.
Lemma reads_for_each {X A} (xs : list X) (acc : A) (body : X -> A -> Api A) :
  (forall x a, reads (body x a)) -> reads (for_each xs acc body).
Proof.
  intros Hb. revert acc. induction xs as [|x xs IH]; intros acc; [done|]. cbn [for_each].
  apply reads_bind; [apply Hb|apply IH].
Qed.

Create HintDb reads discriminated.
#[export] Hint Resolve reads_ret reads_lift reads_gets reads_fail reads_panic reads_guard : reads.
Ltac solve_reads :=
  repeat first
    [ progress intros
    | solve [auto with reads]
    | apply reads_bind
    | apply reads_for_each
    | match goal with
      | |- reads (match ?x with _ => _ end) => destruct x
      | |- reads (let _ := _ in _) => cbv zeta
      end ].

Section Reads.
Context `{Env, SerdeJson, UnicodeCase}.

Lemma reads_tick : reads next_tick.
Proof. done. Qed.
Lemma reads_table_named n : reads (table_named n).
Proof. unfold table_named. solve_reads. Qed.
Lemma reads_table_unwrap n : reads (table_unwrap n).
Proof. unfold table_unwrap. solve_reads. Qed.
#[local] Hint Resolve reads_tick reads_table_named reads_table_unwrap : reads.
Lemma reads_now_unix : reads now_unix.
Proof. unfold now_unix. solve_reads. Qed.
Lemma reads_now_millis : reads now_millis.
Proof. unfold now_millis. solve_reads. Qed.
#[local] Hint Resolve reads_now_unix reads_now_millis : reads.
Lemma reads_enable_stream d spec : reads (enable_stream_description d spec).
Proof. unfold enable_stream_description. solve_reads. Qed.
Lemma reads_condition e n v o f : reads (condition_or_fail e n v o f).
Proof. unfold condition_or_fail. solve_reads. Qed.
Lemma reads_transact_condition e n v o : reads (transact_condition e n v o).
Proof. unfold transact_condition. solve_reads. Qed.
Lemma reads_check_table_name n : reads (check_table_name n).
Proof. unfold check_table_name. solve_reads. Qed.
Lemma reads_check_return_values n : reads (check_return_values n).
Proof. unfold check_return_values. solve_reads. Qed.
Lemma reads_check_failure_return n : reads (check_failure_return n).
Proof. unfold check_failure_return. solve_reads. Qed.
Lemma reads_check_capacity n : reads (check_capacity n).
Proof. unfold check_capacity. solve_reads. Qed.
Lemma reads_check_room s n : reads (check_room s n).
Proof. unfold check_room. solve_reads. Qed.
Lemma reads_backup_named n : reads (backup_named n).
Proof. unfold backup_named. solve_reads. Qed.
Lemma reads_resource_named n : reads (resource_named n).
Proof. unfold resource_named. solve_reads. Qed.
#[local] Hint Resolve reads_condition reads_transact_condition reads_check_table_name : reads.
Lemma reads_transact_put r : reads (validate_transact_put r).
Proof. unfold validate_transact_put. solve_reads. Qed.
Lemma reads_transact_update r : reads (validate_transact_update r).
Proof. unfold validate_transact_update. solve_reads. Qed.
Lemma reads_transact_delete r : reads (validate_transact_delete r).
Proof. unfold validate_transact_delete. solve_reads. Qed.
Lemma reads_transact_check r : reads (validate_transact_condition_check r).
Proof. unfold validate_transact_condition_check. solve_reads. Qed.
#[local] Hint Resolve reads_transact_put reads_transact_update reads_transact_delete reads_transact_check : reads.
Lemma reads_plan_transact i acc : reads (plan_transact i acc).
Proof. unfold plan_transact. solve_reads. Qed.
Lemma reads_plan_write c n t r plan : reads (plan_write c n t r plan).
Proof. unfold plan_write. solve_reads. Qed.
#[local] Hint Resolve reads_plan_write : reads.
Lemma reads_plan_batch c m e acc : reads (plan_batch_table c m e acc).
Proof. unfold plan_batch_table. solve_reads. Qed.
Lemma reads_check_index d n : reads (check_index d n).
Proof. unfold check_index. solve_reads. Qed.
Lemma reads_check_limit l m : reads (check_limit l m).
Proof. unfold check_limit. solve_reads. Qed.
Lemma reads_check_resource n : reads (check_resource n).
Proof. unfold check_resource. solve_reads. Qed.
Lemma reads_check_backup_arn n : reads (check_backup_arn n).
Proof. unfold check_backup_arn. solve_reads. Qed.
Lemma reads_check_stream_arn n : reads (check_stream_arn n).
Proof. unfold check_stream_arn. solve_reads. Qed.
End Reads.
#[export] Hint Resolve reads_tick reads_table_named reads_table_unwrap reads_now_unix reads_now_millis
  reads_enable_stream reads_condition reads_transact_condition reads_check_table_name reads_check_return_values
  reads_check_failure_return reads_check_capacity reads_check_room reads_backup_named reads_resource_named
  reads_transact_put reads_transact_update reads_transact_delete reads_transact_check reads_plan_transact
  reads_plan_write reads_plan_batch reads_check_index reads_check_limit reads_check_resource
  reads_check_backup_arn reads_check_stream_arn : reads.

(** ** Transactions *)

Section Txn.
Context `{Env, SerdeCompact, UnicodeCase}.

Lemma txn_read {A B} (m : Api A) (f : A -> Api B) P w0 w :
  world_ok w0 -> still w0 w -> reads m ->
  (forall a w', still w0 w' -> (m w).1 = Ok a -> wp (f a) (txn w0 P) w') ->
  wp (m ≫= f) (txn w0 P) w.
Proof.
  intros Hok Hs Hr Hf. apply wp_bind. specialize (Hr w). unfold wp, bind_post in *.
  destruct (m w) as [[a|e|p] w'] eqn:E; cbn [fst snd] in *.
  - apply Hf; [by eapply still_trans|done].
  - destruct (still_trans _ _ _ Hs Hr) as [Hs' Hd]. split; [by apply (world_ok_still w0)|]. by rewrite Hs'.
  - destruct (still_trans _ _ _ Hs Hr) as [Hs' Hd]. split; [by apply (world_ok_still w0)|]. by rewrite Hs'.
Qed.
Lemma txn_ret {A} (a : A) P w0 w : world_ok w -> P a (server w) -> wp (mret a) (txn w0 P) w.
Proof. intros. by apply wp_ret. Qed.
(** A tail followed by the response. *)
Lemma txn_tail {B} (m : Api unit) (f : unit -> Api B) P w0 w :
  wp m (fun o w' => world_ok w' /\ match o with
                                   | Ok _ => wp (f tt) (txn w0 P) w'
                                   | _ => same_data (server w') (server w0)
                                   end) w ->
  wp (m ≫= f) (txn w0 P) w.
Proof.
  intros Hm. apply wp_bind. eapply wp_mono; [exact Hm|]. intros [[]|e|p] w' [Hok Hx]; cbn [bind_post]; [done|by split..].
Qed.

Lemma guard_Ok b e w a : (guard_err b e w : result ApiError unit * World).1 = Ok a -> b = false.
Proof. by destruct b. Qed.
Lemma table_named_Ok n w t : (table_named n w).1 = Ok t -> tables (server w) !! n = Some t.
Proof.
  unfold table_named, mbind, m_bind, gets, lift. cbn. destruct (tables (server w) !! n); [|done]. by intros [= ->].
Qed.
Lemma validated_Ok {A} (o : outcome A) a : validated o = Ok a -> o = Ok a.
Proof. destruct o; [|done..]. by intros [= ->]. Qed.
Lemma still_server w0 w : still w0 w -> server w = server w0.
Proof. by intros []. Qed.

(** Tails keep working from a world that only ticked. *)
Lemma world_ok_from w0 w : world_ok w0 -> still w0 w -> world_ok w.
Proof. intros ? []. by apply (world_ok_still w0). Qed.
End Txn.

Lemma lift_Ok {S A} (o : result ApiError A) (w : S) a : (lift o w).1 = Ok a -> o = Ok a.
Proof. done. Qed.
Lemma gets_Ok {S A} (f : S -> A) (w : S) (a : A) : (gets f w : result ApiError A * S).1 = Ok a -> a = f w.
Proof. by intros [=]. Qed.
Lemma map_err_Ok {E F A} (f : E -> F) (o : result E A) a : map_err f o = Ok a -> o = Ok a.
Proof. destruct o; [|done..]. by intros [= ->]. Qed.

(** Inversion of reading computations that succeeded. *)
Lemma read_bind_Ok {A B} (m : Api A) (f : A -> Api B) w0 w b :
  still w0 w -> reads m -> ((m ≫= f) w).1 = Ok b ->
  exists a w', still w0 w' /\ (m w).1 = Ok a /\ (f a w').1 = Ok b.
Proof.
  intros Hst Hr E. specialize (Hr w). unfold mbind, m_bind in E.
  destruct (m w) as [[a|e|p] w'] eqn:Em; try done. exists a, w'. split; [|done]. by eapply still_trans.
Qed.
Lemma read_for_each_Ok {X A} (Inv : list X -> A -> Prop) (body : X -> A -> Api A) w0 :
  (forall x a, reads (body x a)) ->
  (forall dn x a a' w, still w0 w -> Inv dn a -> (body x a w).1 = Ok a' -> Inv (dn ++ [x])%list a') ->
  forall xs acc w r, still w0 w -> Inv [] acc -> (for_each xs acc body w).1 = Ok r -> Inv xs r.
Proof.
  intros Hr Hstep.
  assert (forall xs dn acc w r, still w0 w -> Inv dn acc -> (for_each xs acc body w).1 = Ok r -> Inv (dn ++ xs)%list r)
    as Hgen; [|intros xs; apply (Hgen xs [])].
  induction xs as [|x xs IH]; intros dn acc w r Hst HI E.
  - injection E as <-. by rewrite app_nil_r.
  - cbn [for_each] in E. apply (read_bind_Ok _ _ w0) in E as (a & w1 & Hst1 & Ha & E); [|done|apply Hr].
    replace (dn ++ x :: xs)%list with ((dn ++ [x]) ++ xs)%list by by rewrite <- app_assoc.
    apply (IH _ a w1); [done| |done]. by apply (Hstep dn x acc a w).
Qed.

(** Walks over the part of a call that only reads, keeping what each step says of
    the server the call started from. *)
Ltac txn_read :=
  cbv zeta;
  match goal with Hst : still ?w0 ?w |- wp _ (txn ?w0 _) ?w =>
    apply txn_read; [assumption|exact Hst|solve [solve_reads]|];
    let a := fresh "a" in let w1 := fresh "w" in let Hw := fresh "Hst" in let Ha := fresh "Hread" in
    intros a w1 Hw Ha; cbn beta;
    match type of Ha with
    | (gets _ _).1 = _ => apply gets_Ok in Ha; rewrite (still_server _ _ Hst) in Ha; subst a
    | (table_named _ _).1 = _ => apply table_named_Ok in Ha; rewrite (still_server _ _ Hst) in Ha
    | (lift _ _).1 = _ => apply lift_Ok in Ha; try (apply validated_Ok in Ha);
        try (destruct a; apply validate_item_size_ok in Ha)
    | (condition_or_fail _ _ _ _ _ _).1 = _ =>
        unfold condition_or_fail in Ha; apply lift_Ok, map_err_Ok in Ha; destruct a
    | (guard_err _ _ _).1 = _ => apply guard_Ok in Ha; destruct a
    | _ => idtac
    end
  end.
(** The same walk over a hypothesis. *)
Ltac read_step H :=
  cbv zeta in H;
  match type of H with (_ ?w).1 = Ok _ =>
    match goal with Hst : still ?w0 w |- _ =>
      apply (read_bind_Ok _ _ w0) in H; [|exact Hst|solve [solve_reads]];
      let a := fresh "a" in let w1 := fresh "w" in let Hw := fresh "Hst" in let Ha := fresh "Hread" in
      destruct H as (a & w1 & Hw & Ha & H); cbn beta in H;
      match type of Ha with
      | (gets _ _).1 = _ => apply gets_Ok in Ha; rewrite (still_server _ _ Hst) in Ha; subst a
      | (table_named _ _).1 = _ => apply table_named_Ok in Ha; rewrite (still_server _ _ Hst) in Ha
      | (lift _ _).1 = _ => apply lift_Ok in Ha; try (apply validated_Ok in Ha);
          try (destruct a; apply validate_item_size_ok in Ha)
      | (transact_condition _ _ _ _ _).1 = _ =>
          unfold transact_condition in Ha; apply lift_Ok, map_err_Ok in Ha; destruct a
      | (guard_err _ _ _).1 = _ => apply guard_Ok in Ha; destruct a
      | _ => idtac
      end
    end
  end.
Ltac read_ret H := injection H as H; try subst.

Section Calls.
Context `{Env, SerdeCompact, UnicodeCase}.

(** What PutItem and UpdateItem do when they succeed: the item is stored under [key],
    the stream record added, and nothing else changes. *)
Definition stored (s : Server) (n key : string) (item : Item) (s' : Server) : Prop :=
  exists t rs, tables s !! n = Some t
    /\ record_of (config s) t (<[key := item]> (st_items t))
         (stream_event_name (bool_decide (is_Some (st_items t !! key))) false) (st_items t !! key) (Some item) rs
    /\ same_data s' (put_table n (written t (<[key := item]> (st_items t)) rs) s).
Definition dropped (s : Server) (n key : string) (s' : Server) : Prop :=
  exists t rs, tables s !! n = Some t
    /\ record_of (config s) t (delete key (st_items t)) "REMOVE" (st_items t !! key) None rs
    /\ same_data s' (put_table n (written t (delete key (st_items t)) rs) s).

Lemma txn_store {B} n key item t (f : unit -> Api B) P w0 w :
  world_ok w0 -> still w0 w -> tables (server w0) !! n = Some t -> item_ok item ->
  (forall w', world_ok w' -> stored (server w0) n key item (server w') -> wp (f tt) (txn w0 P) w') ->
  wp (store_item n key item (st_items t !! key) ≫= f) (txn w0 P) w.
Proof.
  intros Hok Hst Ht Hi Hf. apply txn_tail. pose proof (still_server _ _ Hst) as Hs.
  apply (wp_store_item n key t w); [by apply (world_ok_from w0)|by rewrite Hs|done|..]; rewrite Hs.
  - intros w' rs Hok' Hr Hsd. split; [done|]. apply Hf; [done|]. by exists t, rs.
  - intros w' Hok' Hsd. by split.
Qed.
Lemma txn_drop {B} n key t (f : unit -> Api B) P w0 w :
  world_ok w0 -> still w0 w -> tables (server w0) !! n = Some t ->
  (forall w', world_ok w' -> dropped (server w0) n key (server w') -> wp (f tt) (txn w0 P) w') ->
  wp (drop_item n key (st_items t !! key) ≫= f) (txn w0 P) w.
Proof.
  intros Hok Hst Ht Hf. apply txn_tail. pose proof (still_server _ _ Hst) as Hs.
  apply (wp_drop_item n key t w); [by apply (world_ok_from w0)|by rewrite Hs|..]; rewrite Hs.
  - intros w' rs Hok' Hr Hsd. split; [done|]. apply Hf; [done|]. by exists t, rs.
  - intros w' Hok' Hsd. by split.
Qed.

(** The stored item a call works on, and its condition. *)
Definition target (s : Server) (n : string) (key_attributes : Item) (key : string) (old : option Item) : Prop :=
  exists t, tables s !! n = Some t /\ item_key (st_description t) key_attributes = Ok key
    /\ old = st_items t !! key.

Definition put_result (s : Server) (r : PutItemRequest) (s' : Server) : Prop :=
  exists key old, target s (pi_table_name r) (pi_item r) key old
    /\ check_condition (pi_condition_expression r) (pi_expression_attribute_names r)
         (pi_expression_attribute_values r) old = Ok tt
    /\ item_ok (pi_item r) /\ stored s (pi_table_name r) key (pi_item r) s'.
Lemma put_item_txn r w :
  world_ok w -> wp (put_item r) (txn w (fun _ => put_result (server w) r)) w.
Proof.
  intros Hok. unfold put_item. assert (still w w) as Hst by done.
  repeat txn_read. match goal with t : TableState, k : string |- _ =>
    apply (txn_store _ k _ t); try done; intros w' Hok' Hs; apply txn_ret; [done|];
    exists k, (st_items t !! k); split; [by exists t|done] end.
Qed.

Definition delete_result (s : Server) (r : DeleteItemRequest) (s' : Server) : Prop :=
  exists key old, target s (di_table_name r) (di_key r) key old
    /\ check_condition (di_condition_expression r) (di_expression_attribute_names r)
         (di_expression_attribute_values r) old = Ok tt
    /\ dropped s (di_table_name r) key s'.
Lemma delete_item_txn r w :
  world_ok w -> wp (delete_item r) (txn w (fun _ => delete_result (server w) r)) w.
Proof.
  intros Hok. unfold delete_item. assert (still w w) as Hst by done.
  repeat txn_read. match goal with t : TableState, k : string |- _ =>
    apply (txn_drop _ k t); try done; intros w' Hok' Hs; apply txn_ret; [done|];
    exists k, (st_items t !! k); split; [by exists t|done] end.
Qed.

Definition update_result (s : Server) (r : UpdateItemRequest) (s' : Server) : Prop :=
  exists key old item, target s (ui_table_name r) (ui_key r) key old
    /\ check_condition (ui_condition_expression r) (ui_expression_attribute_names r)
         (ui_expression_attribute_values r) old = Ok tt
    /\ updated_item (ui_update_expression r) (ui_expression_attribute_names r)
         (ui_expression_attribute_values r) (default (ui_key r) old) = Ok item
    /\ item_ok item /\ stored s (ui_table_name r) key item s'.
Lemma update_item_txn r w :
  world_ok w -> wp (update_item r) (txn w (fun _ => update_result (server w) r)) w.
Proof.
  intros Hok. unfold update_item. assert (still w w) as Hst by done.
  repeat txn_read. match goal with t : TableState, k : string, i : Item |- _ =>
    apply (txn_store _ k i t); try done; intros w' Hok' Hs; apply txn_ret; [done|];
    exists k, (st_items t !! k), i; split; [by exists t|done] end.
Qed.

(** ** Batches *)

(** What one write request of a batch plans. *)
Definition planned_write (s : Server) (name : string) (write : WriteRequest) (p : PlannedWrite) : Prop :=
  exists t, tables s !! name = Some t /\ pw_table p = name
    /\ match wr_put_request write, wr_delete_request write with
       | Some put, None => item_key (st_description t) (pr_item put) = Ok (pw_key p)
                           /\ pw_put p = Some (pr_item put) /\ item_ok (pr_item put)
       | None, Some del => item_key (st_description t) (del_key del) = Ok (pw_key p) /\ pw_put p = None
       | _, _ => False
       end.
Lemma plan_write_Ok s name t write plan w0 w plan' :
  still w0 w -> server w0 = s -> tables s !! name = Some t ->
  (plan_write (config s) name t write plan w).1 = Ok plan' ->
  exists p, plan' = (plan ++ [p])%list /\ planned_write s name write p.
Proof.
  intros Hst <- Ht E. unfold plan_write in E. read_step E. read_step E.
  destruct (wr_put_request write) as [put|] eqn:Ep, (wr_delete_request write) as [del|] eqn:Ed; try done.
  - repeat read_step Hread0. read_ret Hread0. read_ret E. eexists. split; [done|]. exists t. by rewrite Ep, Ed.
  - read_ret Hread0. read_step E. read_ret E. eexists. split; [done|]. exists t. by rewrite Ep, Ed.
Qed.

(** The plan of a batch: one write per request, table by table. *)
Definition table_requests (e : string * list WriteRequest) : list (string * WriteRequest) := map (pair e.1) e.2.
Definition batch_requests (r : BatchWriteItemRequest) : list (string * WriteRequest) :=
  concat (map table_requests (btree_iter (bw_request_items r))).
Definition batch_plan (s : Server) (requests : list (string * WriteRequest)) (plan : list PlannedWrite) : Prop :=
  Forall2 (fun e p => planned_write s e.1 e.2 p) requests plan.
Lemma plan_batch_Ok mode entry acc w0 w acc' done_ :
  still w0 w -> batch_plan (server w0) done_ acc.1 ->
  (plan_batch_table (config (server w0)) mode entry acc w).1 = Ok acc' ->
  batch_plan (server w0) (done_ ++ table_requests entry) acc'.1.
Proof.
  intros Hst HI E. destruct entry as [name writes]. unfold plan_batch_table in E. do 3 read_step E.
  read_ret E. cbn.
  apply (read_for_each_Ok (fun dn plan => batch_plan (server w0) (done_ ++ map (pair name) dn) plan) _ w0) in Hread1; try done.
  - intros. solve_reads.
  - intros dn x plan plan' w' Hst' HI' E'.
    apply (plan_write_Ok (server w0) name a x plan w0) in E' as (p & -> & Hp); try done.
    rewrite map_app, app_assoc. apply Forall2_app; [done|]. by repeat constructor.
  - by rewrite app_nil_r.
Qed.

Definition batch_result (s : Server) (r : BatchWriteItemRequest) (s' : Server) : Prop :=
  exists plan, batch_plan s (batch_requests r) plan /\ same_data s' (planned plan s).
Lemma batch_plan_ok s requests plan :
  batch_plan s requests plan ->
  Forall (fun p => is_Some (tables s !! pw_table p)) plan
  /\ Forall (fun p => forall i, pw_put p = Some i -> item_ok i) plan.
Proof.
  induction 1 as [|[name write] p rs plan (t & Ht & Hn & Hp) _ [IH1 IH2]]; [by split|].
  split; constructor; try done.
  - rewrite Hn. by exists t.
  - intros i Hi. cbn in Hp. destruct (wr_put_request write), (wr_delete_request write); try done.
    + destruct Hp as (_ & E & ?). by simplify_eq.
    + destruct Hp as (_ & E). by simplify_eq.
Qed.
Lemma txn_planned {B} plan (f : unit -> Api B) P w0 w :
  world_ok w0 -> still w0 w -> Forall (fun p => is_Some (tables (server w0) !! pw_table p)) plan ->
  Forall (fun p => forall i, pw_put p = Some i -> item_ok i) plan ->
  (forall w', world_ok w' -> same_data (server w') (planned plan (server w0)) -> wp (f tt) (txn w0 P) w') ->
  wp (apply_planned_writes plan ≫= f) (txn w0 P) w.
Proof.
  intros Hok Hst He Hi Hf. apply txn_tail. pose proof (still_server _ _ Hst) as Hs.
  apply wp_apply_planned_writes; rewrite ?Hs; try done; [by apply (world_ok_from w0)|..]; intros w' Hok' Hsd; split; auto.
Qed.
Lemma batch_write_txn r w :
  world_ok w -> wp (batch_write_item r) (txn w (fun _ => batch_result (server w) r)) w.
Proof.
  intros Hok. unfold batch_write_item. assert (still w w) as Hst by done.
  repeat txn_read. match goal with a : _ * _ |- _ => destruct a as [plan consumed] end.
  match goal with Hf : (for_each _ _ _ _).1 = _ |- _ => rename Hf into Hplan end.
  apply (read_for_each_Ok (fun dn acc => batch_plan (server w) (concat (map table_requests dn)) acc.1) _ w) in Hplan;
    [|by intros; auto with reads| |done|constructor].
  2: { intros dn x acc acc' w' Hst' HI E. rewrite map_app, concat_app. cbn. rewrite app_nil_r.
       by apply (plan_batch_Ok (bw_return_consumed_capacity r) x acc w w'). }
  cbn [fst] in Hplan. destruct (batch_plan_ok _ _ _ Hplan). apply txn_planned; try done.
  intros w' Hok' Hsd. apply txn_ret; [done|]. by exists plan.
Qed.

(** ** Transactions *)

(** What one item of TransactWriteItems plans, judged on the state before the call:
    its operation's condition holds of the stored item, and the write is the
    put item, the update's result, or the deletion; a condition check plans nothing. *)
Definition transact_step (s : Server) (item : TransactWriteItem) (k : string * string) (o : option PlannedWrite) : Prop :=
  exists old,
  match tw_put item, tw_update item, tw_delete item, tw_condition_check item with
  | Some r, None, None, None =>
      tp_table_name r = k.1 /\ target s k.1 (tp_item r) k.2 old
      /\ check_condition (tp_condition_expression r) (tp_expression_attribute_names r)
           (tp_expression_attribute_values r) old = Ok tt
      /\ item_ok (tp_item r) /\ o = Some (mkPlanned k.1 k.2 (Some (tp_item r)))
  | None, Some r, None, None =>
      exists updated, tu_table_name r = k.1 /\ target s k.1 (tu_key r) k.2 old
      /\ check_condition (tu_condition_expression r) (tu_expression_attribute_names r)
           (tu_expression_attribute_values r) old = Ok tt
      /\ updated_item (tu_update_expression r) (tu_expression_attribute_names r)
           (tu_expression_attribute_values r) (default (tu_key r) old) = Ok updated
      /\ item_ok updated /\ o = Some (mkPlanned k.1 k.2 (Some updated))
  | None, None, Some r, None =>
      td_table_name r = k.1 /\ target s k.1 (td_key r) k.2 old
      /\ check_condition (td_condition_expression r) (td_expression_attribute_names r)
           (td_expression_attribute_values r) old = Ok tt
      /\ o = Some (mkPlanned k.1 k.2 None)
  | None, None, None, Some r =>
      tcc_table_name r = k.1 /\ target s k.1 (tcc_key r) k.2 old
      /\ check_condition (tcc_condition_expression r) (tcc_expression_attribute_names r)
           (tcc_expression_attribute_values r) old = Ok tt
      /\ o = None
  | _, _, _, _ => False
  end.

Lemma check_table_name_Ok n (w : World) a : (check_table_name n w).1 = Ok a -> is_empty n = false.
Proof. unfold check_table_name. apply guard_Ok. Qed.
Lemma target_key s n attrs key old : is_empty n = false -> target s n attrs key old -> transact_key s n attrs = Some key.
Proof.
  intros Hn (t & Ht & Hk & _). unfold transact_key. rewrite Hn, Ht. cbn. by rewrite Hk.
Qed.

(** The four validations, on the items they are called for. *)
Ltac read_table H := match type of H with (check_table_name _ _).1 = _ => apply check_table_name_Ok in H end.
Lemma validate_put_Ok item r w0 w p :
  still w0 w -> tw_put item = Some r -> tw_update item = None -> tw_delete item = None -> tw_condition_check item = None ->
  (validate_transact_put r w).1 = Ok p ->
  is_empty (tp_table_name r) = false /\ exists key, transact_key (server w0) (tp_table_name r) (tp_item r) = Some key
    /\ transact_step (server w0) item (tp_table_name r, key) (Some p).
Proof.
  intros Hst E1 E2 E3 E4 E. unfold validate_transact_put in E. repeat read_step E. read_ret E.
  read_table Hread. split; [done|].
  assert (target (server w0) (tp_table_name r) (tp_item r) a1 (st_items a0 !! a1)) as Ht by by exists a0.
  exists a1. split; [by eapply target_key|]. exists (st_items a0 !! a1). by rewrite E1, E2, E3, E4.
Qed.
Lemma validate_update_Ok item r w0 w p :
  still w0 w -> tw_put item = None -> tw_update item = Some r -> tw_delete item = None -> tw_condition_check item = None ->
  (validate_transact_update r w).1 = Ok p ->
  is_empty (tu_table_name r) = false /\ exists key, transact_key (server w0) (tu_table_name r) (tu_key r) = Some key
    /\ transact_step (server w0) item (tu_table_name r, key) (Some p).
Proof.
  intros Hst E1 E2 E3 E4 E. unfold validate_transact_update in E. repeat read_step E. read_ret E.
  read_table Hread. split; [done|].
  assert (target (server w0) (tu_table_name r) (tu_key r) a1 (st_items a0 !! a1)) as Ht by by exists a0.
  exists a1. split; [by eapply target_key|]. exists (st_items a0 !! a1). rewrite E1, E2, E3, E4. by eexists.
Qed.
Lemma validate_delete_Ok item r w0 w p :
  still w0 w -> tw_put item = None -> tw_update item = None -> tw_delete item = Some r -> tw_condition_check item = None ->
  (validate_transact_delete r w).1 = Ok p ->
  is_empty (td_table_name r) = false /\ exists key, transact_key (server w0) (td_table_name r) (td_key r) = Some key
    /\ transact_step (server w0) item (td_table_name r, key) (Some p).
Proof.
  intros Hst E1 E2 E3 E4 E. unfold validate_transact_delete in E. repeat read_step E. read_ret E.
  read_table Hread. split; [done|].
  assert (target (server w0) (td_table_name r) (td_key r) a1 (st_items a0 !! a1)) as Ht by by exists a0.
  exists a1. split; [by eapply target_key|]. exists (st_items a0 !! a1). by rewrite E1, E2, E3, E4.
Qed.
Lemma validate_check_Ok item r w0 w u :
  still w0 w -> tw_put item = None -> tw_update item = None -> tw_delete item = None -> tw_condition_check item = Some r ->
  (validate_transact_condition_check r w).1 = Ok u ->
  is_empty (tcc_table_name r) = false /\ exists key, transact_key (server w0) (tcc_table_name r) (tcc_key r) = Some key
    /\ transact_step (server w0) item (tcc_table_name r, key) None.
Proof.
  intros Hst E1 E2 E3 E4 E. unfold validate_transact_condition_check in E. repeat read_step E.
  unfold transact_condition in E. apply lift_Ok, map_err_Ok in E. destruct u.
  read_table Hread. split; [done|].
  assert (target (server w0) (tcc_table_name r) (tcc_key r) a1 (st_items a0 !! a1)) as Ht by by exists a0.
  exists a1. split; [by eapply target_key|]. exists (st_items a0 !! a1). by rewrite E1, E2, E3, E4.
Qed.

Lemma count_one item :
  count_transact_write_operations item = 1 ->
  (exists r, tw_put item = Some r /\ tw_update item = None /\ tw_delete item = None /\ tw_condition_check item = None)
  \/ (exists r, tw_put item = None /\ tw_update item = Some r /\ tw_delete item = None /\ tw_condition_check item = None)
  \/ (exists r, tw_put item = None /\ tw_update item = None /\ tw_delete item = Some r /\ tw_condition_check item = None)
  \/ (exists r, tw_put item = None /\ tw_update item = None /\ tw_delete item = None /\ tw_condition_check item = Some r).
Proof.
  unfold count_transact_write_operations.
  destruct (tw_put item), (tw_update item), (tw_delete item), (tw_condition_check item); intros E; try done; eauto 9.
Qed.

(** The plan of a transaction: each item with the key it names, no key twice. *)
Definition transact_plan (s : Server) (items : list TransactWriteItem) (plan : list PlannedWrite)
    (keys : list (string * string)) : Prop :=
  NoDup keys /\ exists l, plan = omap snd l /\ keys = l.*1
    /\ Forall2 (fun item e => transact_step s item e.1 e.2) items l.
Lemma transact_plan_snoc s items plan keys item k o :
  transact_plan s items plan keys -> k ∉ keys -> transact_step s item k o ->
  transact_plan s (items ++ [item]) (plan ++ option_list o) (keys ++ [k]).
Proof.
  intros (Hnd & l & -> & -> & Hf) Hk Hs. split.
  - apply NoDup_app. split_and!; [done| |apply NoDup_singleton].
    intros x Hx Hx'. apply elem_of_cons in Hx' as [->|Hx']; [done|]. by apply elem_of_nil in Hx'.
  - exists (l ++ [(k, o)])%list. rewrite omap_app, fmap_app. split_and!; [by destruct o|done|].
    apply Forall2_app; [done|]. by repeat constructor.
Qed.

Definition transact_acc (s : Server) (items : list TransactWriteItem)
    (acc : list PlannedWrite * list (string * string)) : Prop :=
  exists keys, acc.2 = rev keys /\ transact_plan s items acc.1 keys.
Lemma transact_acc_snoc s items plan seen item k o :
  transact_acc s items (plan, seen) -> k ∉ seen -> transact_step s item k o ->
  transact_acc s (items ++ [item]) (plan ++ option_list o, k :: seen)%list.
Proof.
  intros (keys & Hs & Hp) Hk Hstep. cbn in *. subst. exists (keys ++ [k])%list. cbn. rewrite rev_app_distr.
  split; [done|]. apply transact_plan_snoc; [done| |done]. by rewrite <- elem_of_rev.
Qed.
(** The part of [plan_transact] before the validation, for the key the validation finds. *)
Lemma seen_keys_Ok s name attrs key (seen seen' : list (string * string)) w :
  transact_key s name attrs = Some key ->
  ((match transact_key s name attrs return Api (list (string * string)) with
   | Some key =>
       if bool_decide ((name, key) ∈ seen)
       then fail (validation "Transaction request cannot include multiple operations on one item")
       else mret ((name, key) :: seen)
   | None => mret seen
   end) w).1 = Ok seen' ->
  ((name, key) ∉ seen) /\ seen' = (name, key) :: seen.
Proof. intros ->. case_bool_decide; [done|]. by intros [= <-]. Qed.

Lemma plan_transact_Ok item acc w0 w acc' dn :
  still w0 w -> transact_acc (server w0) dn acc -> (plan_transact item acc w).1 = Ok acc' ->
  transact_acc (server w0) (dn ++ [item]) acc'.
Proof.
  intros Hst HI E. destruct acc as [plan seen]. unfold plan_transact in E. read_step E.
  apply negb_false_iff, Z.eqb_eq, count_one in Hread. read_step E. destruct a as [name attrs].
  do 2 read_step E. destruct Hread as [(r & E1 & E2 & E3 & E4)|[(r & E1 & E2 & E3 & E4)|[(r & E1 & E2 & E3 & E4)|(r & E1 & E2 & E3 & E4)]]];
    unfold transact_target in Hread0; rewrite ?E1, ?E2, ?E3, ?E4 in Hread0, E; injection Hread0 as <- <-;
    read_step E; read_ret E.
  - destruct (validate_put_Ok item r w0 _ _ Hst3 E1 E2 E3 E4 Hread) as (_ & key & Hk & Hstep).
    apply (seen_keys_Ok _ _ _ _ _ _ _ Hk) in Hread1 as [Hni ->]. by eapply transact_acc_snoc in Hstep.
  - destruct (validate_update_Ok item r w0 _ _ Hst3 E1 E2 E3 E4 Hread) as (_ & key & Hk & Hstep).
    apply (seen_keys_Ok _ _ _ _ _ _ _ Hk) in Hread1 as [Hni ->]. by eapply transact_acc_snoc in Hstep.
  - destruct (validate_delete_Ok item r w0 _ _ Hst3 E1 E2 E3 E4 Hread) as (_ & key & Hk & Hstep).
    apply (seen_keys_Ok _ _ _ _ _ _ _ Hk) in Hread1 as [Hni ->]. by eapply transact_acc_snoc in Hstep.
  - destruct (validate_check_Ok item r w0 _ _ Hst3 E1 E2 E3 E4 Hread) as (_ & key & Hk & Hstep).
    apply (seen_keys_Ok _ _ _ _ _ _ _ Hk) in Hread1 as [Hni ->]. eapply transact_acc_snoc in Hstep; [|done..].
    by rewrite app_nil_r in Hstep.
Qed.

Definition transact_result (s : Server) (r : TransactWriteItemsRequest) (s' : Server) : Prop :=
  exists plan keys, transact_plan s (tws_transact_items r) plan keys /\ same_data s' (planned plan s).
Lemma transact_plan_ok s items plan keys :
  transact_plan s items plan keys ->
  Forall (fun p => is_Some (tables s !! pw_table p)) plan
  /\ Forall (fun p => forall i, pw_put p = Some i -> item_ok i) plan.
Proof.
  intros (_ & l & -> & _ & Hf). clear keys.
  induction Hf as [|item [k o] items l (old & Hs) _ [IH1 IH2]]; [by split|]. cbn [fst snd] in Hs.
  assert (match o with Some p => is_Some (tables s !! pw_table p) /\ (forall i, pw_put p = Some i -> item_ok i)
                     | None => True end) as Ho.
  { destruct (tw_put item), (tw_update item), (tw_delete item), (tw_condition_check item); try done.
    - destruct Hs as (_ & (x & Ht & _) & _ & Hi & ->). split; [by exists x|]. by intros i [= <-].
    - destruct Hs as (u & _ & (x & Ht & _) & _ & _ & Hi & ->). split; [by exists x|]. by intros i [= <-].
    - destruct Hs as (_ & (x & Ht & _) & _ & ->). split; [by exists x|]. done.
    - by destruct Hs as (_ & _ & _ & ->). }
  destruct o; [|done]. destruct Ho. split; by constructor.
Qed.
Lemma transact_write_txn r w :
  world_ok w -> wp (transact_write_items r) (txn w (fun _ => transact_result (server w) r)) w.
Proof.
  intros Hok. unfold transact_write_items. assert (still w w) as Hst by done.
  repeat txn_read. match goal with a : _ * _ |- _ => destruct a as [plan seen] end.
  match goal with Hf : (for_each _ _ _ _).1 = _ |- _ => rename Hf into Hplan end.
  apply (read_for_each_Ok (transact_acc (server w)) _ w) in Hplan;
    [|by intros; auto with reads| |done|].
  2: { intros dn x acc acc' w' Hst' HI E. by eapply plan_transact_Ok. }
  2: { exists []. split; [done|]. split; [constructor|]. by exists []. }
  destruct Hplan as (keys & _ & Hplan). destruct (transact_plan_ok _ _ _ _ Hplan). apply txn_planned; try done.
  intros w' Hok' Hsd. apply txn_ret; [done|]. by exists plan, keys.
Qed.
End Calls.
