(* ===== verification/DynManage.v ===== *)
(** The management calls of the DynamoDB server and the expiry sweep as transactions. *)

From S2P Require Import Prelude RustStr RustNum RustText Json DynModel DynValue DynState DynItems DynTables DynReads DynWrites DynTxn.
Local Open Scope string_scope.
Local Open Scope Z_scope.

(** The management calls of the DynamoDB server as transactions: tables, time to
    live, backups, tags and policies. *)

Section Manage.
Context `{Env, SerdeCompact, UnicodeCase}.

(** ** One part of a table *)

Lemma alter_table_with (f : TableState -> TableState) n t s :
  tables s !! n = Some t -> alter_table f n s = put_table n (f t) s.
Proof. apply alter_is_put. Qed.

(** Changes that keep the counts, the items and the stream. *)
Lemma table_ok_same t t' :
  table_ok t -> recount t' = t' -> st_items t' = st_items t -> st_stream_records t' = st_stream_records t -> table_ok t'.
Proof. intros [] Hc Hi Hs. constructor; by rewrite ?Hi, ?Hs. Qed.

Lemma wp_assoc {A B C} (m : Api A) (f : A -> Api B) (g : B -> Api C) Q w :
  wp ((m ≫= f) ≫= g) Q w <-> wp (m ≫= (fun a => f a ≫= g)) Q w.
Proof. unfold wp, mbind, m_bind. by destruct (m w) as [[] ?]. Qed.

(** The commit of a changed table, with its rollback. *)
Lemma txn_commit {B} n t t' r (f : unit -> Api B) P w0 w :
  world_ok w0 -> tables (server w0) !! n = Some t -> table_ok t' -> r t' = t ->
  server w = put_table n t' (server w0) -> w_disk w = w_disk w0 ->
  (forall w', world_ok w' -> same_data (server w') (put_table n t' (server w0)) -> wp (f tt) (txn w0 P) w') ->
  wp (modify (on_server (add_dirty n));; persist_or (alter_table r n) ≫= f) (txn w0 P) w.
Proof.
  intros Hok Ht Ht' Hr Hw Hd Hf. apply wp_bind, wp_modify. cbn [bind_post]. apply txn_tail.
  apply (wp_commit_table n t t' w0); try done.
  - unfold on_server. cbn [server]. by rewrite Hw.
  - intros w' Hok' Hsd. split; [done|]. by apply Hf.
Qed.
Definition changed (s : Server) (n : string) (f : TableState -> TableState) (s' : Server) : Prop :=
  exists t, tables s !! n = Some t /\ same_data s' (put_table n (f t) s).
Lemma txn_change {B} n t change undo (f : unit -> Api B) P w0 w :
  world_ok w0 -> still w0 w -> tables (server w0) !! n = Some t ->
  table_ok (change t) -> undo (change t) = t ->
  (forall w', world_ok w' -> changed (server w0) n change (server w') -> wp (f tt) (txn w0 P) w') ->
  wp (change_table n change undo ≫= f) (txn w0 P) w.
Proof.
  intros Hok [Hs Hd] Ht Htok Hu Hf. unfold change_table. apply wp_assoc.
  apply wp_bind, wp_modify. cbn [bind_post]. apply wp_assoc.
  apply (txn_commit n t (change t)); try done.
  - unfold on_server. cbn [server]. by rewrite Hs, (alter_is_put n change t).
  - intros w' Hok' Hsd. apply Hf; [done|]. by exists t.
Qed.

(** ** Tables coming and going *)

Definition added (s : Server) (n : string) (t : TableState) (s' : Server) : Prop :=
  tables s !! n = None /\ Z.of_nat (size (tables s)) < max_tables (config s) /\ same_data s' (put_table n t s).
Lemma txn_add {B} n t (f : unit -> Api B) P w0 w :
  world_ok w0 -> still w0 w -> tables (server w0) !! n = None ->
  Z.of_nat (size (tables (server w0))) < max_tables (config (server w0)) -> table_ok t ->
  (forall w', world_ok w' -> added (server w0) n t (server w') -> wp (f tt) (txn w0 P) w') ->
  wp (add_table n t ≫= f) (txn w0 P) w.
Proof.
  intros Hok Hst Hn Hroom Ht Hf. apply txn_tail. pose proof (still_server _ _ Hst) as Hs. unfold add_table.
  apply wp_bind, wp_modify. cbn [bind_post]. apply wp_bind, wp_modify. cbn [bind_post].
  unfold on_server. cbn [server w_disk w_tick]. rewrite Hs.
  assert (same_data (forget_table n (add_dirty n (put_table n t (server w0)))) (server w0)) as Hback.
  { unfold same_data, forget_table, set_tables, set_cache, add_dirty, remove_dirty, put_table. cbn.
    rewrite delete_insert_id by done. by destruct (server w0). }
  apply (wp_dyn_persist_or _ w0); try done.
  - cbn [server]. rewrite add_dirty_put. apply coherent_put, Hok.
  - cbn [server]. apply (coherent_touch (server w0)); [apply Hok|done|]. intros m u Hm.
    apply same_data_inv in Hback as (_ & HT & _). rewrite HT in Hm. right. split; [done|]. cbn.
    assert (m <> n) by (by intros ->; rewrite Hn in Hm). set_solver.
  - by destruct Hst.
  - apply Hok.
  - intros w' Hsd Hc Hsy. cbn [server] in Hsd.
    assert (same_data (server w') (put_table n t (server w0))) as Hsd' by exact Hsd.
    assert (world_ok w') as Hok'.
    { destruct (same_data_inv _ _ Hsd') as (_ & HT & HP). constructor; [done..| |].
      - unfold tables_ok. rewrite HT. cbn. apply map_Forall_insert_2; [done|]. apply Hok.
      - by apply (backups_ok_data _ _ Hsd'), Hok. }
    split; [done|]. apply Hf; [done|]. by split.
  - intros w' Hsd Hc Hsy. split; [by apply (world_ok_data w0)|done].
Qed.

Definition removed (s : Server) (n : string) (s' : Server) : Prop :=
  exists t, tables s !! n = Some t /\ same_data s' (set_tables (delete n (tables s)) s).
Lemma delete_table_txn n w :
  world_ok w -> wp (delete_table n) (txn w (fun _ => removed (server w) n)) w.
Proof.
  intros Hok. unfold delete_table. assert (still w w) as Hst by done. do 2 txn_read.
  rename a0 into t, Hread0 into Ht. pose proof (still_server _ _ Hst1) as Hs.
  apply wp_bind, wp_modify. cbn [bind_post]. unfold on_server. rewrite Hs. apply txn_tail.
  assert (put_table n t (set_tables (delete n (tables (server w))) (server w)) = server w) as Hback.
  { unfold put_table, set_tables. cbn. rewrite insert_delete_id by done. by destruct (server w). }
  apply (wp_dyn_persist_or _ w); try done; cbn [server w_disk].
  - apply (coherent_touch (server w)); [apply Hok|done|]. intros m u Hm. right. cbn in *.
    by apply lookup_delete_Some in Hm as [_ Hm].
  - rewrite Hback. apply Hok.
  - by rewrite Hback.
  - by destruct Hst1.
  - apply Hok.
  - intros w' Hsd Hc Hsy. assert (world_ok w') as Hok'.
    { destruct (same_data_inv _ _ Hsd) as (_ & HT & HP). constructor; [done..| |].
      - unfold tables_ok. rewrite HT. cbn. apply map_Forall_delete, Hok.
      - by apply (backups_ok_data _ _ Hsd), Hok. }
    split; [done|]. apply txn_ret; [done|]. by exists t.
  - intros w' Hsd Hc Hsy. split; [by apply (world_ok_data w)|done].
Qed.

Lemma table_unwrap_Ok n w t : (table_unwrap n w).1 = Ok t -> tables (server w) !! n = Some t.
Proof.
  unfold table_unwrap, mbind, m_bind, gets, lift. cbn. destruct (tables (server w) !! n); [|done]. by intros [= ->].
Qed.

(** UpdateTable works on the description and then counts the indexes. *)
Lemma recount_description d t :
  item_count d = Z.of_nat (size (st_items t)) ->
  recount (update_index_item_counts (set_description d t)) = update_index_item_counts (set_description d t).
Proof.
  intros Hd. assert (update_index_item_counts (set_description d t) = recount (set_description d t)) as ->.
  { unfold recount. f_equal. unfold set_description, set_item_count. cbn. rewrite <- Hd. by destruct d. }
  apply recount_idemp.
Qed.
Lemma table_ok_count t : table_ok t -> item_count (st_description t) = Z.of_nat (size (st_items t)).
Proof. intros [Hc _ _]. apply (f_equal (item_count ∘ st_description)) in Hc. by symmetry. Qed.
Lemma apply_index_update_count region attributes definitions u d d' :
  apply_index_update region attributes definitions u d = Ok d' -> item_count d' = item_count d.
Proof.
  unfold apply_index_update. intros ([] & _ & E)%bind_Ok. apply bind_Ok in E as ([] & _ & E).
  destruct (gsu_create u).
  - apply bind_Ok in E as ([] & _ & E). by injection E as <-.
  - destruct (gsu_delete u); [|by injection E as <-]. destruct (remove_first _ _); [|done]. by injection E as <-.
Qed.
Lemma apply_index_updates_count region attributes definitions us d d' :
  apply_index_updates region attributes definitions us d = Ok d' -> item_count d' = item_count d.
Proof.
  revert d. induction us as [|u us IH]; intros d; cbn [apply_index_updates]; [by intros [= ->]|].
  intros (d1 & Hd1 & E)%bind_Ok. apply IH in E. by apply apply_index_update_count in Hd1 as <-.
Qed.
Lemma enable_stream_is d spec w d' :
  (enable_stream_description d spec w).1 = Ok d' ->
  exists arn label, d' = with_stream (Some (mkStreamSpec true (stream_view_type spec))) arn label d
    /\ (latest_stream_label d <> "" -> label = latest_stream_label d).
Proof.
  intros E. unfold enable_stream_description in E. assert (still w w) as Hst by done. do 2 read_step E.
  injection E as <-. eexists _, _. split; [done|]. intros Hne. match goal with Hl : _ = Ok ?l |- ?l = _ => revert Hl end. destruct (is_empty _) eqn:Ee.
  - by apply is_empty_true in Ee.
  - by intros [= <-].
Qed.

(** The stream an update asks for: enabled with the view asked for and the label it had,
    disabled, or as it was. *)
Definition streamed (spec : option StreamSpecification) (d d' : TableDescription) : Prop :=
  match spec with
  | None => d' = d
  | Some spec =>
      if stream_enabled spec
      then exists arn label, d' = with_stream (Some (mkStreamSpec true (stream_view_type spec))) arn label d
             /\ (latest_stream_label d <> "" -> label = latest_stream_label d)
      else d' = with_stream (Some (mkStreamSpec false "")) "" "" d
  end.
(** UpdateTable: the billing mode, the stream and then the indexes of the description, with
    the indexes counted anew over the same items. *)
Definition updated (s : Server) (r : UpdateTableRequest) (s' : Server) : Prop :=
  exists t d1 d, tables s !! ut_table_name r = Some t
    /\ streamed (ut_stream_specification r)
         (if is_empty (ut_billing_mode r) then st_description t else with_billing (ut_billing_mode r) (st_description t)) d1
    /\ (if nil_b (ut_global_secondary_index_updates r) then d = d1
        else apply_global_secondary_index_updates d1 (region (config s)) (ut_attribute_definitions r)
               (ut_global_secondary_index_updates r) = Ok d)
    /\ item_count d = item_count (st_description t)
    /\ same_data s' (put_table (ut_table_name r) (update_index_item_counts (set_description d t)) s).
Lemma update_table_txn r w :
  world_ok w -> wp (update_table r) (txn w (fun _ => updated (server w) r)) w.
Proof.
  intros Hok. unfold update_table. assert (still w w) as Hst by done. do 5 txn_read.
  match goal with Ht' : tables _ !! _ = Some ?x |- _ => rename x into t; rename Ht' into Ht end.
  set (d0 := if is_empty _ then _ else _). assert (item_count d0 = item_count (st_description t)) as Hc0
    by (subst d0; by destruct (is_empty _)).
  txn_read. match goal with Hr : _ = Ok ?x |- _ => rename x into d1; rename Hr into Hd1 end.
  assert (streamed (ut_stream_specification r) d0 d1) as Hs1.
  { revert Hd1. unfold streamed. destruct (ut_stream_specification r) as [spec|]; [destruct (stream_enabled spec)|].
    all: try apply enable_stream_is. all: by intros [= <-]. }
  assert (item_count d1 = item_count (st_description t)) as Hc1.
  { revert Hs1. unfold streamed. destruct (ut_stream_specification r) as [spec|]; [destruct (stream_enabled spec)|].
    - by intros (? & ? & -> & _).
    - by intros ->.
    - by intros ->. }
  clear Hd1. txn_read. match goal with Hr : _ = Ok ?x |- _ => rename x into d; rename Hr into Hd end.
  assert (if nil_b (ut_global_secondary_index_updates r) then d = d1
          else apply_global_secondary_index_updates d1 (region (config (server w))) (ut_attribute_definitions r)
                 (ut_global_secondary_index_updates r) = Ok d) as Hd2.
  { revert Hd. destruct (nil_b _); [by intros [= <-]|]. by intros Hr%lift_Ok%validated_Ok. }
  assert (item_count d = item_count (st_description t)) as Hc.
  { revert Hd2. destruct (nil_b _); [by intros ->|]. unfold apply_global_secondary_index_updates.
    intros (? & _ & Hr)%bind_Ok. apply apply_index_updates_count in Hr. congruence. }
  clear Hd. match goal with Hs : still w ?w1 |- wp _ _ ?w1 => rename w1 into w1', Hs into Hst1' end.
  txn_read. match goal with Hr : (table_unwrap _ _).1 = Ok ?x |- _ => rename x into before; rename Hr into Hb end.
  apply table_unwrap_Ok in Hb. rewrite (still_server _ _ Hst1'), Ht in Hb. injection Hb as <-.
  pose proof (ok_tables _ Hok _ _ Ht) as Htok.
  apply wp_bind, wp_modify. cbn [bind_post]. apply (txn_commit _ t (update_index_item_counts (set_description d t))); try done.
  - apply (table_ok_same t); [done| |done..]. apply recount_description. rewrite Hc. by apply table_ok_count.
  - by destruct t.
  - unfold on_server. cbn [server]. by rewrite (still_server _ _ Hst6).
  - by destruct Hst6.
  - intros w' Hok' Hsd. apply txn_ret; [done|]. by exists t, d1, d.
Qed.

(** A new table counts nothing. *)
Lemma count_items_empty schema : count_items ∅ schema = 0.
Proof. done. Qed.
Definition zero_counts (d : TableDescription) : Prop :=
  item_count d = 0 /\ Forall (fun i => gsi_item_count i = 0) (global_secondary_indexes d)
  /\ Forall (fun i => lsi_item_count i = 0) (local_secondary_indexes d).
Lemma new_table_ok d : zero_counts d -> table_ok (new_table d).
Proof.
  intros (Hd & Hg & Hl). constructor; [|done|exact sequenced_nil].
  assert (map (gsi_counted ∅) (global_secondary_indexes d) = global_secondary_indexes d) as Eg.
  { rewrite <- (map_id (global_secondary_indexes d)) at 2. apply map_ext_in. intros i Hi.
    rewrite List.Forall_forall in Hg. specialize (Hg i Hi). unfold gsi_counted. rewrite count_items_empty, <- Hg. by destruct i. }
  assert (map (lsi_counted ∅) (local_secondary_indexes d) = local_secondary_indexes d) as El.
  { rewrite <- (map_id (local_secondary_indexes d)) at 2. apply map_ext_in. intros i Hi.
    rewrite List.Forall_forall in Hl. specialize (Hl i Hi). unfold lsi_counted. rewrite count_items_empty, <- Hl. by destruct i. }
  unfold recount, update_index_item_counts, set_description, set_indexes, set_item_count, new_table. cbn.
  rewrite Eg, El. destruct d. cbn in *. by subst.
Qed.
Lemma check_room_Ok s n w a :
  (check_room s n w).1 = Ok a -> tables s !! n = None /\ Z.of_nat (size (tables s)) < max_tables (config s).
Proof.
  unfold check_room. intros E. assert (still w w) as Hst by done. read_step E. apply guard_Ok in E.
  apply bool_decide_eq_false, eq_None_not_Some in Hread. split; [done|]. lia.
Qed.
(** The description a CreateTable request asks for. *)
Definition requested (s : Server) (r : CreateTableRequest) (d : TableDescription) : Prop :=
  table_name d = ct_table_name r /\ key_schema d = ct_key_schema r
  /\ attribute_definitions d = ct_attribute_definitions r
  /\ table_arn d = table_arn_of (config s) (ct_table_name r) /\ zero_counts d.
Definition created (s : Server) (r : CreateTableRequest) (s' : Server) : Prop :=
  validate_create_table_request r = Ok tt
  /\ exists d, requested s r d /\ added s (ct_table_name r) (new_table d) s'.
Lemma requested_zero s r d : requested s r d -> zero_counts d.
Proof. by intros (_ & _ & _ & _ & Hz). Qed.
Lemma create_table_txn r w :
  world_ok w -> wp (create_table r) (txn w (fun _ => created (server w) r)) w.
Proof.
  intros Hok. unfold create_table. assert (still w w) as Hst by done. repeat txn_read.
  match goal with Hr : (check_room _ _ _).1 = _, x : TableDescription, Hd' : _ = Ok ?x, Hv' : validate_create_table_request r = Ok ?u |- _ =>
    apply check_room_Ok in Hr as [Hn Hroom]; rename x into d; rename Hd' into Hd; rename Hv' into Hv; destruct u end.
  assert (requested (server w) r d) as Hreq.
  { revert Hd. destruct (stream_enabled _).
    - intros E. read_step E. apply enable_stream_is in E as (? & ? & -> & _). repeat (split; [done|]).
      split; apply Forall_fmap, Forall_true; done.
    - intros [= <-]. repeat (split; [done|]). split; apply Forall_fmap, Forall_true; done. }
  apply txn_add; try done; [by eapply new_table_ok, requested_zero|].
  intros w' Hok' Hadd. apply txn_ret; [done|]. split; [done|]. by exists d.
Qed.
Definition restored (s : Server) (r : RestoreTableFromBackupRequest) (s' : Server) : Prop :=
  exists b t at_, backups s !! rtb_backup_arn r = Some b
    /\ t = recount (set_items (default ∅ (backup_items s !! rtb_backup_arn r))
             (new_table (restored_table_description s (rtb_target_table_name r) b at_)))
    /\ added s (rtb_target_table_name r) t s'.
Lemma backup_named_Ok arn w b : (backup_named arn w).1 = Ok b -> backups (server w) !! arn = Some b.
Proof.
  unfold backup_named, mbind, m_bind, gets, lift. cbn. destruct (backups (server w) !! arn); [|done]. by intros [= ->].
Qed.
Lemma restore_table_txn r w :
  world_ok w -> wp (restore_table_from_backup r) (txn w (fun _ => restored (server w) r)) w.
Proof.
  intros Hok. unfold restore_table_from_backup. assert (still w w) as Hst by done. repeat txn_read.
  match goal with Hr : (check_room _ _ _).1 = _, Hb : (backup_named _ ?w1).1 = Ok ?x, Hs : still w ?w1 |- _ =>
    apply check_room_Ok in Hr as [Hn Hroom]; apply backup_named_Ok in Hb; rewrite (still_server _ _ Hs) in Hb;
    rename x into b end.
  apply txn_add; try done.
  - constructor; [apply recount_idemp| |exact sequenced_nil].
    destruct (ok_backups _ Hok) as [Hi _]. cbn.
    destruct (backup_items (server w) !! rtb_backup_arn r) as [i|] eqn:E; [by apply (Hi _ _ E)|done].
  - intros w' Hok' Hadd. apply txn_ret; [done|]. by eexists b, _, _.
Qed.

(** ** Settings of a table *)

(** Time to live, continuous backups, tags and policies are outside the counts. *)
Lemma table_ok_ttl o t : table_ok t -> table_ok (set_ttl o t).
Proof.
  intros Ht. apply (table_ok_same t); [done| |done..]. destruct Ht as [Hc _ _]. unfold set_ttl.
  assert (recount (set_description (with_ttl o (st_description t)) t)
          = set_description (with_ttl o (st_description (recount t))) (recount t)) as -> by done.
  by rewrite Hc.
Qed.
Lemma table_ok_cb o t : table_ok t -> table_ok (set_continuous_backups o t).
Proof.
  intros Ht. apply (table_ok_same t); [done| |done..]. destruct Ht as [Hc _ _].
  assert (recount (set_continuous_backups o t) = set_continuous_backups o (recount t)) as -> by done. by rewrite Hc.
Qed.
Lemma table_ok_tags m t : table_ok t -> table_ok (set_tags m t).
Proof.
  intros Ht. apply (table_ok_same t); [done| |done..]. destruct Ht as [Hc _ _].
  assert (recount (set_tags m t) = set_tags m (recount t)) as -> by done. by rewrite Hc.
Qed.
Lemma table_ok_policy p t : table_ok t -> table_ok (set_policy p t).
Proof.
  intros Ht. apply (table_ok_same t); [done| |done..]. destruct Ht as [Hc _ _].
  assert (recount (set_policy p t) = set_policy p (recount t)) as -> by done. by rewrite Hc.
Qed.

Lemma update_time_to_live_txn r w :
  let spec := uttl_time_to_live_specification r in
  world_ok w -> wp (update_time_to_live r) (txn w (fun _ => changed (server w) (uttl_table_name r)
    (set_ttl (Some (mkTtl (ttls_attribute_name spec) (if ttls_enabled spec then "ENABLED" else "DISABLED")))))) w.
Proof.
  intros spec Hok. unfold update_time_to_live. assert (still w w) as Hst by done. repeat txn_read.
  match goal with t : TableState |- _ => apply (txn_change _ t); try done end.
  - by eapply table_ok_ttl, ok_tables.
  - match goal with t : TableState |- _ => destruct t as [[] ? ? ? ? ? ?] end. done.
Qed.
Lemma update_continuous_backups_txn r w :
  world_ok w -> wp (update_continuous_backups r) (txn w (fun _ => changed (server w) (ucb_table_name r)
    (set_continuous_backups (Some (mkCb "ENABLED" (mkPitr
       (if pitrs_point_in_time_recovery_enabled (ucb_point_in_time_recovery_specification r)
        then "ENABLED" else "DISABLED"))))))) w.
Proof.
  intros Hok. unfold update_continuous_backups. assert (still w w) as Hst by done. repeat txn_read.
  match goal with t : TableState |- _ => apply (txn_change _ t); try done end.
  - by eapply table_ok_cb, ok_tables.
  - match goal with t : TableState |- _ => by destruct t end.
Qed.

Lemma resource_named_Ok arn w n t :
  (resource_named arn w).1 = Ok (n, t) -> tables (server w) !! n = Some t.
Proof.
  intros E. unfold resource_named in E. assert (still w w) as Hst by done. do 3 read_step E. injection E as -> ->.
  match goal with Hu : (table_unwrap _ ?w1).1 = _, Hs : still w ?w1 |- _ =>
    apply table_unwrap_Ok in Hu; by rewrite <- (still_server _ _ Hs) end.
Qed.
(** A setting of the table a resource ARN names. *)
Definition resource_changed (s : Server) (f : TableState -> TableState) (s' : Server) : Prop :=
  exists n, changed s n f s'.
Lemma txn_resource {B} arn (k : string -> TableState -> Api B) P w0 w :
  world_ok w0 -> still w0 w ->
  (forall n t w', still w0 w' -> tables (server w0) !! n = Some t -> table_ok t -> wp (k n t) (txn w0 P) w') ->
  wp (resource_named arn ≫= fun '(n, t) => k n t) (txn w0 P) w.
Proof.
  intros Hok Hst Hk. txn_read. destruct a as [n t]. apply resource_named_Ok in Hread.
  rewrite (still_server _ _ Hst) in Hread. apply Hk; [done..|]. by apply (ok_tables _ Hok n).
Qed.

Definition tagged (s : Server) (r : TagResourceRequest) (s' : Server) : Prop :=
  exists n t tags, tables s !! n = Some t /\ project_tags (tr_tags r) (st_tags t) = Ok tags
    /\ Z.of_nat (size tags) <= 50 /\ same_data s' (put_table n (set_tags tags t) s).
Lemma tag_resource_txn r w :
  world_ok w -> wp (tag_resource r) (txn w (fun _ => tagged (server w) r)) w.
Proof.
  intros Hok. unfold tag_resource. assert (still w w) as Hst by done. do 2 txn_read.
  apply txn_resource; [done..|]. intros n t w' Hst' Ht Htok. repeat txn_read.
  apply (txn_change _ t); [done..|by apply table_ok_tags|by destruct t|].
  intros w'' Hok' (t' & Ht' & Hsd). rewrite Ht in Ht'. injection Ht' as <-. apply txn_ret; [done|].
  eexists n, t, _. repeat split; try done. lia.
Qed.
Definition untagged (s : Server) (r : UntagResourceRequest) (s' : Server) : Prop :=
  exists n t, tables s !! n = Some t
    /\ same_data s' (put_table n (set_tags (foldl (fun m k => delete k m) (st_tags t) (ur_tag_keys r)) t) s).
Lemma untag_resource_txn r w :
  world_ok w -> wp (untag_resource r) (txn w (fun _ => untagged (server w) r)) w.
Proof.
  intros Hok. unfold untag_resource. assert (still w w) as Hst by done. do 2 txn_read.
  apply txn_resource; [done..|]. intros n t w' Hst' Ht Htok.
  apply (txn_change _ t); [done..|by apply table_ok_tags|by destruct t|].
  intros w'' Hok' (t' & Ht' & Hsd). rewrite Ht in Ht'. injection Ht' as <-. apply txn_ret; [done|]. by exists n, t.
Qed.
Lemma put_resource_policy_txn r w :
  world_ok w -> wp (put_resource_policy r) (txn w (fun _ => resource_changed (server w)
    (set_policy (prp_policy r, resource_policy_revision (prp_policy r))))) w.
Proof.
  intros Hok. unfold put_resource_policy. assert (still w w) as Hst by done. do 3 txn_read.
  apply txn_resource; [done..|]. intros n t w' Hst' Ht Htok.
  apply (txn_change _ t); [done..|by apply table_ok_policy|by destruct t|].
  intros w'' Hok' Hc. apply txn_ret; [done|]. by exists n.
Qed.
Lemma delete_resource_policy_txn r w :
  world_ok w -> wp (delete_resource_policy r) (txn w (fun _ => resource_changed (server w) (set_policy ("", "")))) w.
Proof.
  intros Hok. unfold delete_resource_policy. assert (still w w) as Hst by done. do 1 txn_read.
  apply txn_resource; [done..|]. intros n t w' Hst' Ht Htok.
  apply (txn_change _ t); [done..|by apply table_ok_policy|by destruct t|].
  intros w'' Hok' Hc. apply txn_ret; [done|]. by exists n.
Qed.

(** ** Backups *)

(** The commit of a change to the backups alone. *)
Lemma txn_backups {B} g b bt bi r (f : unit -> Api B) P w0 w :
  world_ok w0 -> still w0 w -> let s' := set_backups b bt bi (server w0) in
  g (server w0) = s' -> backups_ok s' -> r s' = server w0 ->
  (forall w', world_ok w' -> same_data (server w') s' -> wp (f tt) (txn w0 P) w') ->
  wp (modify (on_server g);; persist_or r ≫= f) (txn w0 P) w.
Proof.
  intros Hok Hst s' Hg Hbok Hr Hf. apply wp_bind, wp_modify. cbn [bind_post]. apply txn_tail.
  unfold on_server. rewrite (still_server _ _ Hst), Hg.
  apply (wp_dyn_persist_or _ w0); try done; cbn [server w_disk].
  - apply (coherent_touch (server w0)); [apply Hok|done|]. intros m u Hm. by right.
  - rewrite Hr. apply Hok.
  - by rewrite Hr.
  - by destruct Hst.
  - apply Hok.
  - intros w' Hsd Hc Hsy. assert (world_ok w') as Hok'.
    { constructor; [done..| |by apply (backups_ok_data _ _ Hsd)].
      destruct (same_data_inv _ _ Hsd) as (_ & HT & _). unfold tables_ok. rewrite HT. apply Hok. }
    split; [done|]. by apply Hf.
  - intros w' Hsd Hc Hsy. split; [by apply (world_ok_data w0)|done].
Qed.

Lemma set_backups_id s : set_backups (backups s) (backup_tables s) (backup_items s) s = s.
Proof. by destruct s. Qed.

Definition backed_up (s : Server) (r : CreateBackupRequest) (s' : Server) : Prop :=
  exists t at_ b arn, b = backup_description_for_table (st_description t) (cb_backup_name r) at_
    /\ arn = backup_arn (backup_details b)
    /\ tables s !! cb_table_name r = Some t /\ backups s !! arn = None
    /\ same_data s' (set_backups (<[arn := b]> (backups s)) (<[arn := st_description t]> (backup_tables s))
                       (<[arn := st_items t]> (backup_items s)) s).
Lemma create_backup_txn r w :
  world_ok w -> wp (create_backup r) (txn w (fun _ => backed_up (server w) r)) w.
Proof.
  intros Hok. unfold create_backup. assert (still w w) as Hst by done. repeat txn_read.
  match goal with Hd : bool_decide _ = false, Ht' : tables _ !! _ = Some ?x |- _ =>
    apply bool_decide_eq_false, eq_None_not_Some in Hd; rename x into t; rename Ht' into Ht; rename Hd into Hnone end.
  destruct (ok_backups _ Hok) as [Hi Hdom]. destruct (Hdom _ Hnone) as [HnT HnI].
  eapply txn_backups; try done.
  - split; cbn.
    + apply map_Forall_insert_2; [|done]. apply (ok_tables _ Hok _ _ Ht).
    + intros arn. rewrite !lookup_insert_None. intros [Ha Hne]. by destruct (Hdom _ Ha).
  - unfold set_backups at 1. cbn. rewrite !delete_insert_id by done. apply set_backups_id.
  - intros w' Hok' Hsd. apply txn_ret; [done|]. by eexists t, _, _, _.
Qed.
Definition backup_dropped (s : Server) (arn : string) (s' : Server) : Prop :=
  is_Some (backups s !! arn)
  /\ same_data s' (set_backups (delete arn (backups s)) (delete arn (backup_tables s)) (delete arn (backup_items s)) s).
Lemma put_opt_delete {V} k (m : gmap string V) : put_opt k (m !! k) (delete k m) = m.
Proof.
  destruct (m !! k) as [v|] eqn:E; cbn; [by rewrite insert_delete_id|by apply delete_id].
Qed.
Lemma delete_backup_txn r w :
  world_ok w -> wp (delete_backup r) (txn w (fun _ => backup_dropped (server w) (ba_backup_arn r))) w.
Proof.
  intros Hok. unfold delete_backup. assert (still w w) as Hst by done. repeat txn_read.
  match goal with Hb : (backup_named _ ?w1).1 = Ok ?x, Hs : still w ?w1 |- _ =>
    apply backup_named_Ok in Hb; rewrite (still_server _ _ Hs) in Hb; rename x into b; rename Hb into Hback end.
  destruct (ok_backups _ Hok) as [Hi Hdom].
  eapply txn_backups; try done.
  - split; cbn; [by apply map_Forall_delete|]. intros arn. rewrite !lookup_delete_None. intros [->|Ha]; [by auto|].
    destruct (Hdom _ Ha). auto.
  - unfold set_backups at 1. cbn. rewrite !put_opt_delete, insert_delete_id by done. apply set_backups_id.
Qed.
End Manage.

(** The expiry sweep of the DynamoDB server: it removes exactly the items whose
    time to live is over, in every table at once or not at all. *)

(** ** What expires *)

(** The item is over its table's time to live. *)
Definition is_expired (now : Z) (d : TableDescription) (i : Item) : bool :=
  str_eqb (time_to_live_status (ttl_description d)) "ENABLED"
  && negb (is_empty (ttl_attribute_name (ttl_description d)))
  && ttl_item_expired i (ttl_attribute_name (ttl_description d)) now.
(** The items of a table that stay. *)
Definition live (now : Z) (t : TableState) : gmap string Item :=
  filter (fun e => is_expired now (st_description t) e.2 = false) (st_items t).
Definition removal (e : string * list string) : list PlannedWrite := map (fun k => mkPlanned e.1 k None) e.2.
Definition sweep (l : list (string * list string)) : list PlannedWrite := l ≫= removal.

Lemma elem_of_filter_b {A} (p : A -> bool) l x : x ∈ List.filter p l <-> x ∈ l /\ p x = true.
Proof. by rewrite !list_elem_of_In, filter_In. Qed.
Lemma elem_of_expired_keys now t k :
  k ∈ expired_keys now t <-> exists i, st_items t !! k = Some i /\ is_expired now (st_description t) i = true.
Proof.
  unfold expired_keys, is_expired. set (ttl := ttl_description _).
  destruct (str_eqb _ _); cbn [negb orb andb].
  2: { split; [by intros ?%elem_of_nil|by intros (? & _ & ?)]. }
  destruct (is_empty _); cbn [negb andb].
  { split; [by intros ?%elem_of_nil|by intros (? & _ & ?)]. }
  rewrite list_elem_of_fmap. split.
  - intros ([k' i] & -> & [Hi Hx]%elem_of_filter_b). exists i. by rewrite <- elem_of_btree_iter.
  - intros (i & Hi & Hx). exists (k, i). split; [done|]. apply elem_of_filter_b. split; [|done]. by apply elem_of_btree_iter.
Qed.
Lemma elem_of_expired_tables now s n ks :
  (n, ks) ∈ expired_tables now s <-> exists t, tables s !! n = Some t /\ ks = expired_keys now t /\ ks <> [].
Proof.
  unfold expired_tables. rewrite elem_of_filter_b. cbn [snd]. rewrite list_elem_of_fmap. split.
  - intros [([n' t] & [= -> ->] & Ht) Hn]. exists t. rewrite <- elem_of_btree_iter. split; [done|]. split; [done|].
    by destruct (expired_keys now t).
  - intros (t & Ht & -> & Hn). split; [|by destruct (expired_keys now t)]. exists (n, t).
    split; [done|]. by apply elem_of_btree_iter.
Qed.
Lemma NoDup_expired_tables now s : NoDup (expired_tables now s).*1.
Proof.
  unfold expired_tables. pose proof (NoDup_btree_keys (tables s)) as Hn.
  induction (btree_iter (tables s)) as [|[n t] l IH]; [done|]. cbn in *. apply NoDup_cons in Hn as [Hx Hn].
  destruct (negb _); cbn; [|by apply IH]. apply NoDup_cons. split; [|by apply IH].
  intros Hin. apply Hx. apply list_elem_of_fmap in Hin as ([n' ks] & -> & [Hin _]%elem_of_filter_b).
  apply list_elem_of_fmap in Hin as ([n2 t2] & [= -> ->] & Hin). apply list_elem_of_fmap. by exists (n2, t2).
Qed.

(** ** What the sweep leaves *)

Lemma sweep_snoc l e : sweep (l ++ [e]) = (sweep l ++ removal e)%list.
Proof. unfold sweep. rewrite bind_app. cbn. by rewrite app_nil_r. Qed.
Lemma sweep_tables l n : n ∈ map pw_table (sweep l) -> n ∈ l.*1.
Proof.
  unfold sweep. induction l as [|[m ks] l IH]; [done|]. cbn. rewrite map_app, elem_of_app. intros [Hn|Hn].
  - apply elem_of_cons. left. unfold removal in Hn. rewrite map_map in Hn.
    apply list_elem_of_fmap in Hn as (k & -> & _). done.
  - apply elem_of_cons. right. by apply IH.
Qed.
Lemma write_items_app p q n items : write_items (p ++ q) n items = write_items q n (write_items p n items).
Proof. unfold write_items. by rewrite foldl_app. Qed.
Lemma write_removal n ks m items :
  write_items (removal (n, ks)) m items
  = if bool_decide (n = m) then foldl (fun i k => delete k i) items ks else items.
Proof.
  unfold removal, write_items. cbn. revert items. induction ks as [|k ks IH]; intros items; cbn.
  - by case_bool_decide.
  - rewrite IH. by case_bool_decide.
Qed.
Lemma lookup_foldl_delete {V} (ks : list string) (m : gmap string V) k :
  foldl (fun i k => delete k i) m ks !! k = if bool_decide (k ∈ ks) then None else m !! k.
Proof.
  revert m. induction ks as [|k' ks IH]; intros m; cbn; [done|]. rewrite IH.
  destruct (decide (k ∈ ks)) as [Hk|Hk].
  - by rewrite !bool_decide_true by (done || (apply elem_of_cons; auto)).
  - rewrite (bool_decide_false _ Hk). destruct (decide (k = k')) as [->|Hne].
    + rewrite lookup_delete_eq, bool_decide_true; [done|]. apply elem_of_cons. auto.
    + rewrite lookup_delete_ne, bool_decide_false; [done| |done]. rewrite elem_of_cons. by intros [?|?].
Qed.

(** Exactly the live items are left. *)
Lemma write_sweep now s n t :
  tables s !! n = Some t -> write_items (sweep (expired_tables now s)) n (st_items t) = live now t.
Proof.
  intros Ht. assert (write_items (sweep (expired_tables now s)) n (st_items t)
    = foldl (fun i k => delete k i) (st_items t) (expired_keys now t)) as ->.
  { destruct (decide (expired_keys now t = [])) as [E|E].
    - rewrite E. apply write_items_not_touched. intros Hn%sweep_tables.
      apply list_elem_of_fmap in Hn as ([m ks] & -> & Hin). apply elem_of_expired_tables in Hin as (t' & Ht' & -> & Hne).
      cbn in *. rewrite Ht in Ht'. injection Ht' as <-. done.
    - assert ((n, expired_keys now t) ∈ expired_tables now s) as Hin by (apply elem_of_expired_tables; by eauto).
      pose proof (NoDup_expired_tables now s) as Hnd. apply list_elem_of_split in Hin as (l1 & l2 & Hl). rewrite Hl in *.
      rewrite fmap_app in Hnd. apply NoDup_app in Hnd as (_ & Hd & Hnd). cbn in Hd, Hnd. apply NoDup_cons in Hnd as [Hn2 _].
      unfold sweep. rewrite bind_app, bind_cons. fold (sweep l1) (sweep l2).
      rewrite !write_items_app, write_removal, bool_decide_true by done.
      rewrite (write_items_not_touched (sweep l1)).
      + apply write_items_not_touched. by intros Hx%sweep_tables.
      + intros Hx%sweep_tables. apply (Hd n Hx). apply elem_of_cons. auto. }
  apply map_eq. intros k. rewrite lookup_foldl_delete. unfold live. symmetry.
  case_bool_decide as Hk.
  - apply elem_of_expired_keys in Hk as (i & Hi & Hx). apply map_lookup_filter_None. right.
    intros j Hj. rewrite Hi in Hj. injection Hj as <-. cbn. by rewrite Hx.
  - destruct (st_items t !! k) as [i|] eqn:Hi.
    + apply map_lookup_filter_Some. split; [done|]. cbn. apply not_true_is_false. intros Hx. apply Hk.
      apply elem_of_expired_keys. by eauto.
    + apply map_lookup_filter_None. by left.
Qed.
(** The server after a sweep. *)
Definition swept (now : Z) : Server -> Server := map_tables (fun _ t => recount (set_items (live now t) t)).
Lemma planned_sweep now s : planned (sweep (expired_tables now s)) s = swept now s.
Proof.
  apply server_eq; [done|]. intros n. unfold planned, swept. rewrite !map_tables_lookup.
  destruct (tables s !! n) as [t|] eqn:Ht; [|done]. cbn. by rewrite (write_sweep now s n t).
Qed.

(** ** The sweep as a transaction *)

(** The items the sweep keeps for its rollback. *)
Definition saved (s : Server) (l : list (string * list string)) : list (string * string * Item) :=
  l ≫= fun e => match tables s !! e.1 with
                | Some t => omap (fun key => item ← st_items t !! key; Some (e.1, key, item)) e.2
                | None => []
                end.
Lemma elem_of_saved s l b :
  b ∈ saved s l <-> exists n ks k t i, b = (n, k, i) /\ (n, ks) ∈ l /\ k ∈ ks
    /\ tables s !! n = Some t /\ st_items t !! k = Some i.
Proof.
  unfold saved. rewrite list_elem_of_bind. split.
  - intros ([n ks] & Hb & Hin). cbn in Hb. destruct (tables s !! n) as [t|] eqn:Ht; [|by apply elem_of_nil in Hb].
    apply list_elem_of_omap in Hb as (k & Hk & E). apply bind_Some in E as (i & Hi & [= <-]). by exists n, ks, k, t, i.
  - intros (n & ks & k & t & i & -> & Hin & Hk & Ht & Hi). exists (n, ks). split; [|done]. cbn. rewrite Ht.
    apply list_elem_of_omap. exists k. by rewrite Hi.
Qed.
Definition as_backup (b : string * string * Item) : string * string * option Item := (b.1, Some b.2).
Lemma put_back_undo l s : foldl put_back s l = foldl undo_write s (map as_backup l).
Proof. revert s. induction l as [|[[n k] i] l IH]; intros s; [done|]. cbn. apply IH. Qed.

Lemma touched_sweep now s : list_to_set (expired_tables now s).*1 = touched_by (sweep (expired_tables now s)).
Proof.
  apply set_eq. intros n. rewrite elem_of_list_to_set, elem_of_touched. split; [|apply sweep_tables].
  intros Hn. apply list_elem_of_fmap in Hn as ([m ks] & -> & Hin). pose proof Hin as (t & _ & -> & Hne)%elem_of_expired_tables.
  destruct (expired_keys now t) as [|k ks]; [done|]. apply list_elem_of_fmap. exists (mkPlanned m k None).
  split; [done|]. apply list_elem_of_bind. exists (m, k :: ks). split; [|done]. apply elem_of_cons. auto.
Qed.
Lemma undo_sweep now s c d :
  tables_ok s ->
  recount_tables (touched_by (sweep (expired_tables now s)))
    (foldl put_back (set_cache c d (planned (sweep (expired_tables now s)) s)) (saved s (expired_tables now s)))
  = set_cache c d s.
Proof.
  intros Hok. rewrite put_back_undo. apply undo_planned; [done|..].
  - intros b Hb. apply list_elem_of_fmap in Hb as (x & -> & Hx).
    apply elem_of_saved in Hx as (n & ks & k & t & i & -> & _ & _ & Ht & Hi). by exists t.
  - intros w t Hw Ht. apply list_elem_of_bind in Hw as ([n ks] & Hw & Hin).
    apply list_elem_of_fmap in Hw as (k & -> & Hk). cbn in *.
    apply list_elem_of_fmap. pose proof Hin as (t' & Ht' & -> & _)%elem_of_expired_tables.
    rewrite Ht in Ht'. injection Ht' as <-. pose proof Hk as (i & Hi & _)%elem_of_expired_keys.
    exists (n, k, Some i). split; [done|]. apply list_elem_of_fmap. exists (n, k, i). split; [done|].
    apply elem_of_saved. by exists n, (expired_keys now t), k, t, i.
Qed.

Section Sweep.
Context `{Env, SerdeCompact, UnicodeCase}.

Lemma expire_ttl_items_txn now w :
  world_ok w -> wp (expire_ttl_items now) (txn w (fun _ s' => same_data s' (swept now (server w)))) w.
Proof.
  intros Hok. set (s := server w). unfold expire_ttl_items. apply wp_bind, wp_gets. cbn [bind_post]. cbv zeta. fold s.
  set (l := expired_tables now s). destruct (nil_b l) eqn:El.
  { apply wp_ret. split; [done|]. cbn. rewrite <- planned_sweep. fold l. destruct l; [|done].
    assert (planned (sweep []) s = s) as ->; [|done]. apply server_eq; [done|]. intros n. unfold planned.
    rewrite map_tables_lookup. destruct (tables s !! n) as [t|] eqn:Ht; [|done]. cbn. rewrite set_items_id.
    by rewrite (tok_counted _ (ok_tables _ Hok n t Ht)). }
  apply wp_bind. apply (wp_for_each (fun rest backups w' => exists dn, l = (dn ++ rest)%list
    /\ server w' = planned (sweep dn) s /\ w_disk w' = w_disk w /\ backups = saved s dn)).
  - intros [n ks] rest backups w1 (dn & Hl & Hs & Hd & ->). unfold expire_table.
    assert ((n, ks) ∈ l) as Hin by (rewrite Hl; set_solver).
    apply elem_of_expired_tables in Hin as (t & Ht & _ & _).
    assert (n ∉ map pw_table (sweep dn)) as Hn.
    { intros Hx%sweep_tables. pose proof (NoDup_expired_tables now s) as Hnd. fold l in Hnd.
      rewrite Hl, fmap_app in Hnd. apply NoDup_app in Hnd as (_ & Hdis & _). apply (Hdis n Hx). apply elem_of_cons. auto. }
    apply wp_bind, (wp_table_unwrap _ t).
    { rewrite Hs. unfold planned. rewrite map_tables_lookup, Ht. cbn. rewrite write_items_not_touched by done.
      rewrite set_items_id. by rewrite (tok_counted _ (ok_tables _ Hok n t Ht)). }
    cbn [bind_post]. cbv zeta. apply wp_bind, wp_modify. cbn [bind_post]. apply wp_ret. exists (dn ++ [(n, ks)])%list.
    split_and!; [by rewrite <- app_assoc| |done|].
    + unfold on_server. cbn [server]. rewrite Hs. apply server_eq; [done|]. intros m. cbn [put_table set_tables tables].
      unfold planned. rewrite sweep_snoc, map_tables_lookup. destruct (decide (n = m)) as [<-|Hne].
      * rewrite lookup_insert_eq, Ht. cbn [fmap option_fmap option_map]. rewrite write_items_app, write_removal, bool_decide_true by done.
        by rewrite write_items_not_touched.
      * rewrite lookup_insert_ne by done. change (tables (planned (sweep dn) s) !! m) with (tables (map_tables (fun n t => recount (set_items (write_items (sweep dn) n (st_items t)) t)) s) !! m).
        rewrite map_tables_lookup. destruct (tables s !! m); [|done]. cbn [fmap option_fmap option_map].
        by rewrite write_items_app, write_removal, bool_decide_false by done.
    + unfold saved. rewrite bind_app. cbn. by rewrite app_nil_r, Ht.
  - intros backups w1 (dn & Hl & Hs & Hd & ->). cbn [bind_post]. rewrite app_nil_r in Hl. subst dn.
    apply wp_bind, wp_modify. cbn [bind_post].
    pose proof (touched_sweep now s : list_to_set l.*1 = touched_by (sweep l)) as Et. rewrite Et.
    apply (wp_commit_planned (sweep l) w); try done.
    + apply Forall_forall. intros p Hp. apply list_elem_of_bind in Hp as (e & Hp & _).
      by apply list_elem_of_fmap in Hp as (k & -> & _).
    + unfold on_server. cbn [server]. by rewrite Hs.
    + unfold on_server. cbn [server]. rewrite Hs. apply undo_sweep, Hok.
    + intros w' Hok' Hsd. split; [done|]. by rewrite <- planned_sweep.
  - exists []. split_and!; [done| |done|done]. symmetry. apply server_eq; [done|]. intros n. unfold planned.
    rewrite map_tables_lookup. fold s. destruct (tables s !! n) as [t|] eqn:Ht; [|done]. cbn. rewrite set_items_id.
    by rewrite (tok_counted _ (ok_tables _ Hok n t Ht)).
Qed.
End Sweep.
