(* ===== verification/DynSystem.v ===== *)
(** The DynamoDB server as a whole: the calls of http.rs's [dispatch], what each
    does to the data, and the theorems about every state the server can reach. *)

From S2P Require Import Prelude RustStr RustNum RustText Json DynModel DynValue DynExpr DynUpdate DynState DynItems DynTables DynReads DynWrites DynTxn DynManage.
Local Open Scope string_scope.
Local Open Scope Z_scope.

(** ** The calls *)

(** The operations of the dispatch table with their decoded requests. *)
Inductive Call :=
  | ListTables (r : ListTablesRequest) | CreateTable (r : CreateTableRequest) | DescribeTable (name : string)
  | DeleteTable (name : string) | UpdateTable (r : UpdateTableRequest) | DescribeLimits | DescribeEndpoints
  | PutItem (r : PutItemRequest) | GetItem (r : GetItemRequest) | DeleteItem (r : DeleteItemRequest)
  | UpdateItem (r : UpdateItemRequest) | Query (r : QueryRequest) | Scan (r : ScanRequest)
  | BatchGetItem (r : BatchGetItemRequest) | BatchWriteItem (r : BatchWriteItemRequest)
  | ExecuteStatement (r : ExecuteStatementRequest) | BatchExecuteStatement (r : BatchExecuteStatementRequest)
  | ExecuteTransaction (r : ExecuteTransactionRequest) | TransactGetItems (r : TransactGetItemsRequest)
  | TransactWriteItems (r : TransactWriteItemsRequest) | ListStreams (r : ListStreamsRequest)
  | DescribeStream (r : DescribeStreamRequest) | GetShardIterator (r : GetShardIteratorRequest)
  | GetRecords (r : GetRecordsRequest) | DescribeTimeToLive (name : string)
  | UpdateTimeToLive (r : UpdateTimeToLiveRequest) | DescribeContinuousBackups (name : string)
  | UpdateContinuousBackups (r : UpdateContinuousBackupsRequest) | CreateBackup (r : CreateBackupRequest)
  | DescribeBackup (r : BackupArnRequest) | ListBackups (r : ListBackupsRequest) | DeleteBackup (r : BackupArnRequest)
  | RestoreTableFromBackup (r : RestoreTableFromBackupRequest) | TagResource (r : TagResourceRequest)
  | ListTagsOfResource (r : ListTagsOfResourceRequest) | UntagResource (r : UntagResourceRequest)
  | PutResourcePolicy (r : PutResourcePolicyRequest) | GetResourcePolicy (r : ResourceArnRequest)
  | DeleteResourcePolicy (r : ResourceArnRequest).

Record Outcome := mkOutcome { oc_status : Z; oc_error_type : option string; oc_body : string }.
Definition outcome_ok (body : string) : Outcome := mkOutcome 200 None body.

Section Dispatch.
Context `{Env, SerdeJson, UnicodeCase}.

Definition from_error (e : ApiError) : Outcome := mkOutcome (e_status e) (Some (e_name e)) (body_bytes e).
Definition error_outcome (status : Z) (name message : string) : Outcome := from_error (api_error status name message).

(** The arms of the dispatch table. *)
Definition run (c : Call) : Api string :=
  match c with
  | ListTables r => list_tables_api r | CreateTable r => create_table r | DescribeTable n => describe_table n
  | DeleteTable n => delete_table n | UpdateTable r => update_table r
  | DescribeLimits => mret describe_limits | DescribeEndpoints => s ← gets server; mret (describe_endpoints (config s))
  | PutItem r => put_item r | GetItem r => get_item r | DeleteItem r => delete_item r | UpdateItem r => update_item r
  | Query r => query r | Scan r => scan r | BatchGetItem r => batch_get_item r | BatchWriteItem r => batch_write_item r
  | ExecuteStatement r => execute_statement r | BatchExecuteStatement r => batch_execute_statement r
  | ExecuteTransaction r => execute_transaction r | TransactGetItems r => transact_get_items r
  | TransactWriteItems r => transact_write_items r | ListStreams r => list_streams r
  | DescribeStream r => describe_stream r | GetShardIterator r => get_shard_iterator r | GetRecords r => get_records r
  | DescribeTimeToLive n => describe_time_to_live n | UpdateTimeToLive r => update_time_to_live r
  | DescribeContinuousBackups n => describe_continuous_backups n
  | UpdateContinuousBackups r => update_continuous_backups r | CreateBackup r => create_backup r
  | DescribeBackup r => describe_backup r | ListBackups r => list_backups r | DeleteBackup r => delete_backup r
  | RestoreTableFromBackup r => restore_table_from_backup r | TagResource r => tag_resource r
  | ListTagsOfResource r => list_tags_of_resource r | UntagResource r => untag_resource r
  | PutResourcePolicy r => put_resource_policy r | GetResourcePolicy r => get_resource_policy r
  | DeleteResourcePolicy r => delete_resource_policy r
  end.
End Dispatch.

(** The name of a call's operation. *)
Definition op_name (c : Call) : string :=
  match c with
  | ListTables _ => "ListTables" | CreateTable _ => "CreateTable" | DescribeTable _ => "DescribeTable"
  | DeleteTable _ => "DeleteTable" | UpdateTable _ => "UpdateTable" | DescribeLimits => "DescribeLimits"
  | DescribeEndpoints => "DescribeEndpoints" | PutItem _ => "PutItem" | GetItem _ => "GetItem"
  | DeleteItem _ => "DeleteItem" | UpdateItem _ => "UpdateItem" | Query _ => "Query" | Scan _ => "Scan"
  | BatchGetItem _ => "BatchGetItem" | BatchWriteItem _ => "BatchWriteItem" | ExecuteStatement _ => "ExecuteStatement"
  | BatchExecuteStatement _ => "BatchExecuteStatement" | ExecuteTransaction _ => "ExecuteTransaction"
  | TransactGetItems _ => "TransactGetItems" | TransactWriteItems _ => "TransactWriteItems"
  | ListStreams _ => "ListStreams" | DescribeStream _ => "DescribeStream" | GetShardIterator _ => "GetShardIterator"
  | GetRecords _ => "GetRecords" | DescribeTimeToLive _ => "DescribeTimeToLive"
  | UpdateTimeToLive _ => "UpdateTimeToLive" | DescribeContinuousBackups _ => "DescribeContinuousBackups"
  | UpdateContinuousBackups _ => "UpdateContinuousBackups" | CreateBackup _ => "CreateBackup"
  | DescribeBackup _ => "DescribeBackup" | ListBackups _ => "ListBackups" | DeleteBackup _ => "DeleteBackup"
  | RestoreTableFromBackup _ => "RestoreTableFromBackup" | TagResource _ => "TagResource"
  | ListTagsOfResource _ => "ListTagsOfResource" | UntagResource _ => "UntagResource"
  | PutResourcePolicy _ => "PutResourcePolicy" | GetResourcePolicy _ => "GetResourcePolicy"
  | DeleteResourcePolicy _ => "DeleteResourcePolicy"
  end.
Definition known_ops : list string :=
  ["ListTables"; "CreateTable"; "DescribeTable"; "DeleteTable"; "UpdateTable"; "DescribeLimits"; "DescribeEndpoints";
   "PutItem"; "GetItem"; "DeleteItem"; "UpdateItem"; "Query"; "Scan"; "BatchGetItem"; "BatchWriteItem";
   "ExecuteStatement"; "BatchExecuteStatement"; "ExecuteTransaction"; "TransactGetItems"; "TransactWriteItems";
   "ListStreams"; "DescribeStream"; "GetShardIterator"; "GetRecords"; "DescribeTimeToLive"; "UpdateTimeToLive";
   "DescribeContinuousBackups"; "UpdateContinuousBackups"; "CreateBackup"; "DescribeBackup"; "ListBackups";
   "DeleteBackup"; "RestoreTableFromBackup"; "TagResource"; "ListTagsOfResource"; "UntagResource";
   "PutResourcePolicy"; "GetResourcePolicy"; "DeleteResourcePolicy"].
(** [serde_json::from_slice::<T>(body)] with the request type of the operation. *)
Class Decoder := {
  decode : string -> string -> option Call;
  decode_op : forall op body c, decode op body = Some c -> op_name c = op }.

Definition TARGET_PREFIX : string := "DynamoDB_20120810.".

Section Serve.
Context `{Env, SerdeJson, UnicodeCase, Decoder}.

Definition unknown_operation : Outcome := error_outcome 400 "UnknownOperationException" "unknown operation".
Definition to_outcome (o : string + ApiError) : Outcome :=
  match o with inl body => outcome_ok body | inr e => from_error e end.
(** [decode], and the two operations that have no request. *)
Definition request_of (op body : string) : option Call :=
  if str_eqb op "DescribeLimits" then Some DescribeLimits
  else if str_eqb op "DescribeEndpoints" then Some DescribeEndpoints
  else decode op (if is_empty body then "{}" else body).
(** [dispatch] after the signature check. *)
Definition dispatch (target body : string) (now : Z) : Api Outcome :=
  match strip_prefix TARGET_PREFIX target with
  | None => mret unknown_operation
  | Some op =>
      expired ← catch (expire_ttl_items now);
      match expired with
      | inr e => mret (from_error e)
      | inl _ =>
          if negb (bool_decide (op ∈ known_ops)) then mret unknown_operation
          else match request_of op body with
               | None => mret (error_outcome 400 "SerializationException" "invalid json request")
               | Some c => r ← catch (run c); mret (to_outcome r)
               end
      end
  end.
End Serve.

(** ** What a call does to the data *)

(** The specification of a call that succeeds: the data before and after it. *)
Definition effect `{Env, SerdeCompact, UnicodeCase} (c : Call) (s s' : Server) : Prop :=
  match c with
  | CreateTable r => created s r s'
  | DeleteTable n => removed s n s'
  | UpdateTable r => updated s r s'
  | PutItem r => put_result s r s'
  | DeleteItem r => delete_result s r s'
  | UpdateItem r => update_result s r s'
  | BatchWriteItem r => batch_result s r s'
  | TransactWriteItems r => transact_result s r s'
  | UpdateTimeToLive r =>
      let spec := uttl_time_to_live_specification r in
      changed s (uttl_table_name r)
        (set_ttl (Some (mkTtl (ttls_attribute_name spec) (if ttls_enabled spec then "ENABLED" else "DISABLED")))) s'
  | UpdateContinuousBackups r =>
      changed s (ucb_table_name r) (set_continuous_backups (Some (mkCb "ENABLED" (mkPitr
        (if pitrs_point_in_time_recovery_enabled (ucb_point_in_time_recovery_specification r)
         then "ENABLED" else "DISABLED"))))) s'
  | CreateBackup r => backed_up s r s'
  | DeleteBackup r => backup_dropped s (ba_backup_arn r) s'
  | RestoreTableFromBackup r => restored s r s'
  | TagResource r => tagged s r s'
  | UntagResource r => untagged s r s'
  | PutResourcePolicy r =>
      resource_changed s (set_policy (prp_policy r, resource_policy_revision (prp_policy r))) s'
  | DeleteResourcePolicy r => resource_changed s (set_policy ("", "")) s'
  | _ => same_data s' s
  end.

Section System.
Context `{Env, SerdeCompact, UnicodeCase}.

(** The calls that only read. *)
Lemma txn_reads {A} (m : Api A) w : world_ok w -> reads m -> wp m (txn w (fun _ s' => same_data s' (server w))) w.
Proof.
  intros Hok Hr. specialize (Hr w). unfold wp. destruct (m w) as [o w']. cbn in Hr. destruct Hr as [Hs Hd].
  split; [by apply (world_ok_still w)|]. destruct o; cbn; by rewrite Hs.
Qed.
Lemma reads_batch_get c e acc : reads (batch_get_table c e acc).
Proof. unfold batch_get_table. solve_reads. Qed.
Lemma reads_transact_get x acc : reads (transact_get x acc).
Proof. unfold transact_get. solve_reads. Qed.
Lemma reads_execute r : reads (execute_statement r).
Proof. unfold execute_statement. solve_reads. Qed.
Lemma reads_batch_statement m x acc : reads (batch_statement m x acc).
Proof. unfold batch_statement. solve_reads. Qed.
Lemma reads_transact_statement m x acc : reads (transact_statement m x acc).
Proof. unfold transact_statement. solve_reads. Qed.
Lemma reads_records_page r : reads (records_page r).
Proof. unfold records_page. solve_reads. Qed.
#[local] Hint Resolve reads_batch_get reads_transact_get reads_execute reads_batch_statement reads_transact_statement
  reads_records_page : reads.
Lemma run_reads c : match c with
  | CreateTable _ | DeleteTable _ | UpdateTable _ | PutItem _ | DeleteItem _ | UpdateItem _ | BatchWriteItem _
  | TransactWriteItems _ | UpdateTimeToLive _ | UpdateContinuousBackups _ | CreateBackup _ | DeleteBackup _
  | RestoreTableFromBackup _ | TagResource _ | UntagResource _ | PutResourcePolicy _ | DeleteResourcePolicy _ => True
  | _ => reads (run c)
  end.
Proof.
  destruct c; try done; cbn [run].
  all: try solve [auto with reads].
  all: unfold list_tables_api, describe_table, get_item, query, scan, batch_get_item, batch_execute_statement,
    execute_transaction, transact_get_items, list_streams, describe_stream, get_shard_iterator, get_records,
    describe_time_to_live, describe_continuous_backups, describe_backup, list_backups, list_tags_of_resource,
    get_resource_policy; solve_reads.
Qed.

(** Every call is a transaction with its effect. *)
Lemma run_txn c w : world_ok w -> wp (run c) (txn w (fun _ => effect c (server w))) w.
Proof.
  intros Hok. pose proof (run_reads c) as Hr.
  destruct c; try (by apply txn_reads); cbn [run effect].
  - by apply create_table_txn.
  - by apply delete_table_txn.
  - by apply update_table_txn.
  - by apply put_item_txn.
  - by apply delete_item_txn.
  - by apply update_item_txn.
  - by apply batch_write_txn.
  - exact (transact_write_txn _ w Hok).
  - by apply update_time_to_live_txn.
  - by apply update_continuous_backups_txn.
  - by apply create_backup_txn.
  - by apply delete_backup_txn.
  - by apply restore_table_txn.
  - by apply tag_resource_txn.
  - by apply untag_resource_txn.
  - by apply put_resource_policy_txn.
  - by apply delete_resource_policy_txn.
Qed.

(** ** Reachable states *)

Context `{Decoder}.

(** What a request did. A response without an error: the expired items went, and the
    call the request names had its effect on what was left. Otherwise: nothing, or the
    expired items went. *)
Definition served (target body : string) (now : Z) (o : result ApiError Outcome) (s s' : Server) : Prop :=
  match o with
  | Ok (mkOutcome _ None _) =>
      exists op c s1, strip_prefix TARGET_PREFIX target = Some op /\ request_of op body = Some c
        /\ same_data s1 (swept now s) /\ effect c s1 s'
  | _ => same_data s' s \/ same_data s' (swept now s)
  end.
Lemma dispatch_served target body now w :
  world_ok w ->
  wp (dispatch target body now) (fun o w' => world_ok w' /\ served target body now o (server w) (server w')) w.
Proof.
  intros Hok. unfold dispatch. destruct (strip_prefix _ _) as [op|] eqn:Ep; [|by apply wp_ret; split; [|left]].
  apply wp_bind, wp_catch. eapply wp_mono; [by apply expire_ttl_items_txn|].
  intros [[]|e|p] w1 [Hok1 Hd]; cbn [bind_post].
  2,3: try apply wp_ret; (split; [done|by left]).
  destruct (negb _); [apply wp_ret; split; [done|]; by right|].
  destruct (request_of op body) as [c|] eqn:Ec; [|apply wp_ret; split; [done|]; by right].
  apply wp_bind, wp_catch. eapply wp_mono; [by apply run_txn|].
  intros [b|e|p] w2 [Hok2 Hd2]; cbn [bind_post].
  - apply wp_ret. split; [done|]. by exists op, c, (server w1).
  - apply wp_ret. split; [done|]. right. by rewrite Hd2.
  - split; [done|]. right. by rewrite Hd2.
Qed.
End System.

(** ** Starting and restarting *)

Section Restart.
Context `{Env, SerdeCompact, UnicodeCase, Decoder}.

(** A server that holds [p] and nothing else. *)
Definition holding (c : Config) (p : PersistedState) : Server :=
  mkServer c (p_tables p) (p_backups p) (p_backup_tables p) (p_backup_items p) None ∅ ∅ None None.
Lemma put_tables_foldl (f : TableState -> TableState) l s :
  foldl (fun s e => put_table e.1 (f e.2) s) s l
  = set_tables (foldl (fun m e => <[e.1 := f e.2]> m) (tables s) l) s.
Proof.
  revert s. induction l as [|[n t] l IH]; intros s; cbn; [by destruct s|]. by rewrite IH.
Qed.
Lemma foldl_load m : map_Forall (fun _ t => recount t = t) m ->
  foldl (fun m e => <[e.1 := load_table e.2]> m) ∅ (btree_iter m) = m.
Proof.
  intros Hm. rewrite <- (foldl_insert_btree m) at 2.
  assert (Forall (fun e => recount e.2 = e.2) (btree_iter m)) as Hf.
  { apply Forall_forall. intros [n t] Hin. apply elem_of_btree_iter in Hin. exact (Hm n t Hin). }
  generalize (∅ : gmap string TableState). induction Hf as [|[n t] l Ht _ IH]; intros acc; [done|].
  cbn [foldl fst snd]. change (load_table t) with (recount t). cbn [snd] in Ht. rewrite Ht. apply IH.
Qed.
(** [Server::new] on a state file that decodes to counted tables. *)
Lemma new_loads c p w :
  is_empty (storage_path c) = false -> w_disk w = Some (to_state_json p) -> fs_read (w_tick w) = None ->
  state_from_slice (to_state_json p) = inl p -> map_Forall (fun _ t => recount t = t) (p_tables p) ->
  new c w = (Ok tt, mkWorld (holding c p) (w_disk w) (S (w_tick w))).
Proof.
  intros Hs Hd Hr Hj Hc. unfold new, load, catch, mbind, m_bind, modify, gets, on_server, lift. cbn.
  rewrite Hs. cbn. rewrite Hd, Hr, Hj. cbn. rewrite put_tables_foldl. cbn. by rewrite foldl_load.
Qed.
Lemma new_on_nothing c w :
  is_empty (storage_path c) = true \/ w_disk w = None ->
  exists tick, new c w = (Ok tt, mkWorld (holding c (mkPersisted ∅ ∅ ∅ ∅)) (w_disk w) tick).
Proof.
  intros Hs. unfold new, load, catch, mbind, m_bind, modify, gets, on_server, lift. cbn.
  destruct (is_empty _); [by eexists|]. destruct Hs as [Hs|Hs]; [done|]. rewrite Hs. cbn. by eexists.
Qed.

(** The states the server can reach: a first start on an empty directory, requests,
    and restarts where the state file is read and decoded as it was encoded. *)
Inductive reachable : World -> Prop :=
  | reach_start c s tick : reachable (new c (mkWorld s None tick)).2
  | reach_request target body now w : reachable w -> reachable (dispatch target body now w).2
  | reach_restart w :
      reachable w -> fs_read (w_tick w) = None ->
      state_from_slice (to_state_json (persisted_of (server w))) = inl (persisted_of (server w)) ->
      reachable (new (config (server w)) w).2.

Lemma holding_ok c p d k :
  tables_ok (holding c p) -> backups_ok (holding c p) ->
  is_empty (storage_path c) = true \/ d = Some (to_state_json p) \/ (d = None /\ p = mkPersisted ∅ ∅ ∅ ∅) ->
  world_ok (mkWorld (holding c p) d k).
Proof.
  intros Ht Hb Hd. constructor; [| |done..].
  - intros n b t Hc. change ((∅ : gmap string string) !! n = Some b) in Hc. by apply lookup_empty_Some in Hc.
  - unfold synced. cbn. by destruct p.
Qed.
Lemma holding_empty_ok c d k :
  is_empty (storage_path c) = true \/ d = None -> world_ok (mkWorld (holding c (mkPersisted ∅ ∅ ∅ ∅)) d k).
Proof.
  intros Hd. apply holding_ok; [done| |destruct Hd; auto]. split; [done|]. by intros.
Qed.
(** A restart keeps the data, when there is a file for it. *)
Lemma restart_ok w :
  world_ok w -> fs_read (w_tick w) = None ->
  state_from_slice (to_state_json (persisted_of (server w))) = inl (persisted_of (server w)) ->
  world_ok (new (config (server w)) w).2
  /\ (is_empty (storage_path (config (server w))) = false ->
      server (new (config (server w)) w).2 = holding (config (server w)) (persisted_of (server w))).
Proof.
  intros Hok Hr Hj. set (c := config (server w)).
  destruct (is_empty (storage_path c)) eqn:Es.
  { destruct (new_on_nothing c w) as [k ->]; [by left|]. split; [|done]. apply holding_empty_ok. by left. }
  destruct (ok_synced _ Hok) as [Hx|[Hd|[Hd Hp]]]; [unfold c in Es; congruence| |].
  - rewrite (new_loads c (persisted_of (server w)) w); try done.
    + split; [|done]. apply holding_ok; [apply Hok|apply Hok|auto].
    + intros n t Ht. apply (ok_tables _ Hok n t Ht).
  - destruct (new_on_nothing c w) as [k ->]; [by right|]. split; [apply holding_empty_ok; by right|]. by rewrite Hp.
Qed.

Lemma reachable_ok w : reachable w -> world_ok w.
Proof.
  induction 1 as [c s tick|target body now w _ IH|w _ IH Hr Hj].
  - destruct (new_on_nothing c (mkWorld s None tick)) as [k ->]; [by right|]. apply holding_empty_ok. by right.
  - pose proof (dispatch_served target body now w IH) as Hd. unfold wp in Hd.
    destruct (dispatch target body now w) as [o w']. apply Hd.
  - by apply restart_ok.
Qed.
End Restart.
