(* ===== verification/DynTheorems.v ===== *)
(** What the DynamoDB server guarantees, and the concrete run on which the guarantees are
    exercised. *)

From S2P Require Import Prelude RustStr RustNum RustText Json DynModel DynValue DynExpr DynUpdate DynQuery DynState DynItems DynTables DynReads DynWrites DynTxn DynManage DynSystem.
Local Open Scope string_scope.
Local Open Scope Z_scope.

(** A concrete environment and a short history of the DynamoDB server in it, for the
    witnesses of DynTheorems. *)

(** ** The environment *)

(** A serialiser in serde_json's format, for strings without escapes. *)
Fixpoint compact_json (v : Value) : string :=
  match v with
  | JNull => "null" | JBool true => "true" | JBool false => "false"
  | JNumber (PosInt z) => show_Z z | JNumber (NegInt z) => show_Z z | JNumber _ => "0"
  | JString s => char_str dquote +:+ s +:+ char_str dquote
  | JArray l => "[" +:+ str_join "," (map compact_json l) +:+ "]"
  | JObject m => "{" +:+ str_join "," (map (fun e => (char_str dquote +:+ e.1 +:+ char_str dquote) +:+ ":" +:+ compact_json e.2) m) +:+ "}"
  end.
#[export] Instance demo_serde : SerdeJson := {| json_to_vec := compact_json |}.
#[export] Instance demo_compact : SerdeCompact.
Proof. by split. Qed.
#[export] Instance demo_upper : UnicodeCase := {| upper_char := fun c => c |}.

Definition demo_arn : string := "arn:aws:dynamodb:us-east-1:000000000000:table/t/stream/2023-11-14T22:13:20.000".
Definition demo_iterators : list (string * StreamIterator) :=
  map (fun i => let it := mkIterator demo_arn SHARD_ID (Z.of_nat i) in (marshal (iterator_value it), it)) (seq 0 8).
Definition find_iterator (s : string) : StreamIterator + string :=
  match list_find (fun e => e.1 = s) demo_iterators with Some (_, e) => inl e.2 | None => inr "invalid iterator" end.
(** A clock that stands still, a disk that works, and a reader of one state. *)
Definition demo_env (p : PersistedState) : Env := {|
  clock_unix := fun _ => 1700000000; clock_millis := fun _ => 1700000000000;
  fs_create_dir_all := fun _ => None; fs_write := fun _ => None; fs_rename := fun _ => None; fs_read := fun _ => None;
  state_from_slice := fun s => if str_eqb s (to_state_json p) then inl p else inr "invalid state";
  iterator_from_slice := find_iterator;
  is_json := fun _ => true; sha256_hex := fun s => s |}.
Definition nothing : PersistedState := mkPersisted ∅ ∅ ∅ ∅.

(** ** The requests *)

Definition demo_config : Config := mkConfig "" "" "relaxed" "" "" "/data" 0 2.
Definition str_attr (s : string) : Value := json1 "S" (JString s).
Definition num_attr (s : string) : Value := json1 "N" (JString s).
Definition item1 : Item := list_to_map [("pk", str_attr "a"); ("ttl", num_attr "1700000000")].
Definition item2 : Item := list_to_map [("pk", str_attr "b"); ("n", num_attr "1")].
Definition key1 : Item := list_to_map [("pk", str_attr "a")].
Definition demo_create : CreateTableRequest :=
  mkCreateTableRequest "t" [mkAttrDef "pk" "S"; mkAttrDef "n" "N"] [mkKey "pk" "HASH"]
    [mkGlobalSecondaryIndexRequest "by-n" [mkKey "n" "HASH"] (mkIndexProjectionRequest "ALL" [])] [] ""
    (mkStreamSpec true "NEW_AND_OLD_IMAGES").
Definition demo_put (i : Item) : PutItemRequest := mkPutItemRequest "t" i "" ∅ ∅ "" "" "".
Definition demo_get (key : Item) : GetItemRequest := mkGetItemRequest "t" key "" ∅ false "".
Definition demo_delete (key : Item) : DeleteItemRequest := mkDeleteItemRequest "t" key "" ∅ ∅ "" "" "".
Definition demo_ttl : UpdateTimeToLiveRequest := mkUpdateTimeToLiveRequest "t" (mkTimeToLiveSpecification "ttl" true).
Definition demo_backup : CreateBackupRequest := mkCreateBackupRequest "t" "b".
Definition demo_restore : RestoreTableFromBackupRequest :=
  mkRestoreTableFromBackupRequest "arn:aws:dynamodb:us-east-1:000000000000:table/t/backup/1700000000-b" "u".

(** The bodies of the demo are words for the requests. *)
Definition demo_calls : list (string * Call) :=
  [("create", CreateTable demo_create); ("put1", PutItem (demo_put item1)); ("put2", PutItem (demo_put item2));
   ("get1", GetItem (demo_get key1)); ("delete1", DeleteItem (demo_delete key1)); ("ttl", UpdateTimeToLive demo_ttl);
   ("backup", CreateBackup demo_backup); ("restore", RestoreTableFromBackup demo_restore)].
Definition demo_decode (op body : string) : option Call :=
  match list_find (fun e => e.1 = body) demo_calls with
  | Some (_, (_, c)) => if str_eqb (op_name c) op then Some c else None
  | None => None
  end.
#[export, program] Instance demo_decoder : Decoder := {| decode := demo_decode |}.
Next Obligation.
  intros op body c. unfold demo_decode. destruct (list_find _ _) as [[i [b c']]|]; [|done].
  destruct (str_eqb (op_name c') op) eqn:E; [|done]. intros [= <-]. by apply bool_decide_eq_true in E.
Qed.

(** ** The history *)

Definition requests (l : list (string * string)) (now : Z) {E : Env} (w : World) : World :=
  foldl (fun w r => (dispatch (TARGET_PREFIX +:+ r.1) r.2 now w).2) w l.
Definition demo_start {E : Env} : World := (new demo_config (mkWorld (holding demo_config nothing) None 0)).2.
Definition demo_history : list (string * string) :=
  [("CreateTable", "create"); ("PutItem", "put1"); ("PutItem", "put2")].
Definition demo_world (p : PersistedState) : World := requests (E := demo_env p) demo_history 0 (demo_start (E := demo_env p)).
Definition demo_state : PersistedState := Eval vm_compute in persisted_of (server (demo_world nothing)).

Lemma requests_reachable {E : Env} l now w : reachable w -> reachable (requests l now w).
Proof.
  unfold requests. revert w. induction l as [|r l IH]; intros w Hr; [done|]. cbn. by apply IH, reach_request.
Qed.
Lemma demo_reachable p : reachable (H := demo_env p) (demo_world p).
Proof. unfold demo_world. apply (@requests_reachable (demo_env p)). exact (@reach_start (demo_env p) _ _ _ demo_config _ 0). Qed.
Example demo_items : st_items <$> (p_tables demo_state !! "t") =
  Some (list_to_map [("[" +:+ compact_json (str_attr "a") +:+ "]", item1); ("[" +:+ compact_json (str_attr "b") +:+ "]", item2)]).
Proof. vm_compute. reflexivity. Qed.
Definition demo_table : TableState :=
  Eval vm_compute in default (new_table (source_description (mkBackup (mkDetails "" 0 "" 0 "" "") (mkSource [] "" 0 [] "" 0 "" "" 0))))
    (p_tables demo_state !! "t").

(** The theorems about the DynamoDB server: what holds in every reachable state, and
    what each kind of call promises its client. *)

(** ** The items of a server *)

Definition item_at (s : Server) (n k : string) : option Item := t ← tables s !! n; st_items t !! k.

Lemma item_at_same s s' n k : same_data s s' -> item_at s n k = item_at s' n k.
Proof. intros (_ & Ht & _)%same_data_inv. unfold item_at. by rewrite Ht. Qed.
Lemma item_at_put n t' s m k :
  item_at (put_table n t' s) m k = if bool_decide (n = m) then st_items t' !! k else item_at s m k.
Proof.
  unfold item_at, put_table, set_tables. cbn [tables]. case_bool_decide as E.
  - subst. by rewrite lookup_insert_eq.
  - by rewrite lookup_insert_ne.
Qed.
Lemma item_at_planned plan s n k : item_at (planned plan s) n k = t ← tables s !! n; write_items plan n (st_items t) !! k.
Proof. unfold item_at, planned. rewrite map_tables_lookup. by destruct (tables s !! n). Qed.

(** One item replaced by [o], and every other item of the server as it was. *)
Definition only_item (s : Server) (n key : string) (o : option Item) (s' : Server) : Prop :=
  item_at s' n key = o /\ forall m k, (m, k) <> (n, key) -> item_at s' m k = item_at s m k.

Section Items.
Context `{Env, SerdeCompact, UnicodeCase}.

Lemma put_only s n t items rs key o s' :
  tables s !! n = Some t -> same_data s' (put_table n (written t items rs) s) ->
  items !! key = o -> (forall k, k <> key -> items !! k = st_items t !! k) -> only_item s n key o s'.
Proof.
  intros Ht Hsd Hkey Hother. split.
  - by rewrite (item_at_same _ _ _ _ Hsd), item_at_put, bool_decide_true.
  - intros m k Hne. rewrite (item_at_same _ _ _ _ Hsd), item_at_put. case_bool_decide as E; [|done]. subst m.
    change (st_items (written t items rs)) with items. rewrite Hother by congruence. unfold item_at. by rewrite Ht.
Qed.
Lemma stored_only s n key item s' : stored s n key item s' -> only_item s n key (Some item) s'.
Proof.
  intros (t & rs & Ht & _ & Hsd). apply (put_only s n t (<[key := item]> (st_items t)) rs); try done.
  - apply lookup_insert_eq.
  - intros k Hk. by apply lookup_insert_ne.
Qed.
Lemma dropped_only s n key s' : dropped s n key s' -> only_item s n key None s'.
Proof.
  intros (t & rs & Ht & _ & Hsd). apply (put_only s n t (delete key (st_items t)) rs); try done.
  - apply lookup_delete_eq.
  - intros k Hk. by apply lookup_delete_ne.
Qed.
Lemma check_table_first {A} n (f : unit -> Api A) w a w' :
  (check_table_name n ≫= f) w = (Ok a, w') -> is_empty n = false.
Proof. unfold check_table_name, guard_err, mbind, m_bind. by destruct (is_empty n). Qed.
(** GetItem of a stored item, without a projection. *)
Lemma get_item_hit g w t key found :
  is_empty (gi_table_name g) = false -> valid_return_consumed_capacity (gi_return_consumed_capacity g) = true ->
  tables (server w) !! gi_table_name g = Some t -> item_key (st_description t) (gi_key g) = Ok key ->
  st_items t !! key = Some found -> trim (gi_projection_expression g) = "" ->
  (get_item g w).1 = Ok (respond (add_consumed_capacity [("Item", item_value found)]
                       (gi_table_name g) (gi_return_consumed_capacity g))).
Proof.
  intros Hn Hc Ht Hk Hi Hp. unfold get_item, check_table_name, check_capacity, guard_err, table_named.
  rewrite Hn, Hc. cbn [negb]. unfold mbind, m_bind, mret, m_ret, gets, lift. cbn [fst]. rewrite Ht. cbn [ok_or]. rewrite Hk.
  cbn [validated map_err]. rewrite Hi. unfold project_item. rewrite Hp. done.
Qed.
(** [item_key] reads the key schema alone. *)
Lemma item_key_schema d d' i : key_schema d = key_schema d' -> item_key d i = item_key d' i.
Proof. intros Hk. unfold item_key. by rewrite Hk. Qed.
Lemma stored_table s n key item s' : stored s n key item s' ->
  exists t t', tables s !! n = Some t /\ tables s' !! n = Some t' /\ st_items t' !! key = Some item
    /\ key_schema (st_description t') = key_schema (st_description t).
Proof.
  intros (t & rs & Ht & _ & Hsd). apply same_data_inv in Hsd as (_ & HT & _). eexists t, _. split; [done|]. rewrite HT. cbn.
  rewrite lookup_insert_eq. split; [done|]. split; [apply lookup_insert_eq|done].
Qed.

(** A plan of a transaction names its items, each once. *)
Definition named (s : Server) (e : (string * string) * option PlannedWrite) : Prop :=
  forall p, e.2 = Some p -> e.1 = (pw_table p, pw_key p) /\ is_Some (tables s !! pw_table p).
Lemma transact_step_named s item e : transact_step s item e.1 e.2 -> named s e.
Proof.
  destruct e as [[n k] o]. intros (old & Hs) p Hp. cbn in *. subst o.
  destruct (tw_put item), (tw_update item), (tw_delete item), (tw_condition_check item); try done.
  - destruct Hs as (_ & (u & Hu & _) & _ & _ & [= ->]). by split; [|exists u].
  - destruct Hs as (v & _ & (u & Hu & _) & _ & _ & _ & [= ->]). by split; [|exists u].
  - destruct Hs as (_ & (u & Hu & _) & _ & [= ->]). by split; [|exists u].
  - by destruct Hs as (_ & _ & _ & [=]).
Qed.
Lemma restore_item_key k o items : restore_item k o items !! k = o.
Proof. destruct o; cbn; [apply lookup_insert_eq|apply lookup_delete_eq]. Qed.
Lemma write_items_hit s l n k p items :
  Forall (named s) l -> NoDup l.*1 -> ((n, k), Some p) ∈ l -> write_items (omap snd l) n items !! k = pw_put p.
Proof.
  intros Hn Hnd Hin. apply list_elem_of_split in Hin as (l1 & l2 & ->). rewrite fmap_app in Hnd.
  apply NoDup_app in Hnd as (_ & _ & Hnd). cbn in Hnd. apply NoDup_cons in Hnd as [Hni _].
  apply Forall_app in Hn as [_ Hn]. apply Forall_cons in Hn as [Hp Hn]. destruct (Hp p eq_refl) as [[= -> ->] _].
  rewrite omap_app. change (omap snd ((?a, Some ?b) :: ?x)) with (b :: omap snd x). rewrite write_items_app.
  change (p :: omap snd l2) with ([p] ++ omap snd l2)%list. rewrite write_items_app, write_items_other.
  - cbn. rewrite bool_decide_true by done. apply restore_item_key.
  - apply Forall_forall. intros q Hq E. apply list_elem_of_omap in Hq as ([k' o] & Hin & Ho). cbn in Ho. subst o.
    rewrite Forall_forall in Hn. destruct (Hn _ Hin q eq_refl) as [Hk _]. cbn in Hk. apply Hni. rewrite <- E, <- Hk.
    apply list_elem_of_fmap. by exists (k', Some q).
Qed.
Lemma write_items_miss s l n k items :
  Forall (named s) l -> (forall p, ((n, k), Some p) ∉ l) -> write_items (omap snd l) n items !! k = items !! k.
Proof.
  intros Hn Hno. apply write_items_other, Forall_forall. intros q Hq E.
  apply list_elem_of_omap in Hq as ([k' o] & Hin & Ho). cbn in Ho. subst o. rewrite Forall_forall in Hn.
  destruct (Hn _ Hin q eq_refl) as [Hk _]. cbn in Hk. apply (Hno q). by rewrite <- E, <- Hk.
Qed.
End Items.

Section Theorems.
Context `{Env, SerdeCompact, UnicodeCase, Decoder}.

(** C4: in every reachable state each table counts its items and the items of each
    index, holds only valid items, and numbers its stream from 1 without gaps; and
    the state file is the serialisation of all the data, whichever tables the
    incremental encoder took from its cache. *)
Theorem server_invariant w :
  reachable w ->
  (forall n t, tables (server w) !! n = Some t ->
     item_count (st_description t) = Z.of_nat (size (st_items t))
     /\ Forall (fun i => gsi_item_count i = count_items (st_items t) (gsi_key_schema i))
          (global_secondary_indexes (st_description t))
     /\ Forall (fun i => lsi_item_count i = count_items (st_items t) (lsi_key_schema i))
          (local_secondary_indexes (st_description t))
     /\ items_ok (st_items t) /\ sequenced (st_stream_records t))
  /\ (is_empty (storage_path (config (server w))) = false ->
      w_disk w = Some (to_state_json (persisted_of (server w)))
      \/ w_disk w = None /\ persisted_of (server w) = mkPersisted ∅ ∅ ∅ ∅).
Proof.
  intros Hr. apply reachable_ok in Hr as [_ Hs Ht _]. split.
  - intros n t Hn. pose proof (Ht n t Hn) as [Hc Hi Hq]. split; [by apply table_ok_count, (Ht n)|].
    split_and!; [| |done..].
    + apply (f_equal (global_secondary_indexes ∘ st_description)) in Hc. cbn in Hc. rewrite <- Hc.
      apply List.Forall_forall. intros x Hx. by apply in_map_iff in Hx as (y & <- & _).
    + apply (f_equal (local_secondary_indexes ∘ st_description)) in Hc. cbn in Hc. rewrite <- Hc.
      apply List.Forall_forall. intros x Hx. by apply in_map_iff in Hx as (y & <- & _).
  - intros Hp. destruct Hs as [Hs|Hs]; [congruence|done].
Qed.

(** C2: every request of a reachable server either has its call's specified effect on
    the data left after expiry, and says so, or reports an error and leaves the data
    as they were but for expired items; failed writes to disk included. *)
Theorem server_refines_effects target body now w :
  reachable w ->
  let '(o, w') := dispatch target body now w in served target body now o (server w) (server w') /\ reachable w'.
Proof.
  intros Hr. pose proof (dispatch_served target body now w (reachable_ok w Hr)) as Hd. unfold wp in Hd.
  pose proof (reach_request target body now w Hr) as Hr'.
  destruct (dispatch target body now w) as [o w']. by split; [apply Hd|].
Qed.

(** C21: a restart on the file of a reachable server finds all its tables and backups. *)
Theorem restart_finds_data w :
  reachable w -> is_empty (storage_path (config (server w))) = false -> fs_read (w_tick w) = None ->
  state_from_slice (to_state_json (persisted_of (server w))) = inl (persisted_of (server w)) ->
  let w' := (new (config (server w)) w).2 in
  persisted_of (server w') = persisted_of (server w) /\ load_err (server w') = None.
Proof.
  intros Hr Hp Hf Hj. destruct (restart_ok w (reachable_ok w Hr) Hf Hj) as [_ Hs]. cbv zeta. rewrite Hs by done.
  by destruct (server w).
Qed.

(** The calls that add no table keep the names; the others had room for one more. *)
Definition names_kept (s s' : Server) : Prop := config s' = config s /\ dom (tables s') ⊆ dom (tables s).
Definition one_more (s s' : Server) : Prop :=
  config s' = config s /\ Z.of_nat (size (tables s)) < max_tables (config s)
  /\ size (tables s') = S (size (tables s)).
Lemma kept_same s s' : same_data s' s -> names_kept s s'.
Proof. intros (Hc & Ht & _)%same_data_inv. split; [done|]. by rewrite Ht. Qed.
Lemma kept_put n t t' s s' : tables s !! n = Some t -> same_data s' (put_table n t' s) -> names_kept s s'.
Proof.
  intros Hn (Hc & Ht & _)%same_data_inv. split; [done|]. rewrite Ht. cbn. apply elem_of_dom_2 in Hn.
  rewrite dom_insert. apply union_subseteq. split; [by apply singleton_subseteq_l|done].
Qed.
Lemma kept_map f s s' : same_data s' (map_tables f s) -> names_kept s s'.
Proof.
  intros (Hc & Ht & _)%same_data_inv. split; [done|]. rewrite Ht. intros n. rewrite !elem_of_dom, map_tables_lookup.
  by intros [t (u & Hu & _)%fmap_Some].
Qed.
Lemma added_more s n t s' : added s n t s' -> one_more s s'.
Proof.
  intros (Hn & Hr & (Hc & Ht & _)%same_data_inv). split; [done|]. split; [done|]. rewrite Ht. cbn.
  by rewrite map_size_insert_None.
Qed.
Lemma effect_names c s s' : effect c s s' -> names_kept s s' \/ one_more s s'.
Proof.
  destruct c; cbn [effect]; try (intros ?; left; by apply kept_same).
  - intros (_ & d & _ & Ha). right. by eapply added_more.
  - intros (t & Ht & (Hc & HT & _)%same_data_inv). left. split; [done|]. rewrite HT. cbn. rewrite dom_delete.
    by intros x [? _]%elem_of_difference.
  - intros (t & d1 & d & Ht & _ & _ & _ & Hs). left. by eapply kept_put.
  - intros (k & o & _ & _ & _ & t & rs & Ht & _ & Hs). left. by eapply kept_put.
  - intros (k & o & _ & _ & t & rs & Ht & _ & Hs). left. by eapply kept_put.
  - intros (k & o & i & _ & _ & _ & _ & t & rs & Ht & _ & Hs). left. by eapply kept_put.
  - intros (plan & _ & Hs). left. by eapply kept_map.
  - intros (plan & ks & _ & Hs). left. by eapply kept_map.
  - intros (t & Ht & Hs). left. by eapply kept_put.
  - intros (t & Ht & Hs). left. by eapply kept_put.
  - intros (t & ? & ? & ? & _ & _ & _ & _ & (Hc & HT & _)%same_data_inv). left. split; [done|]. by rewrite HT.
  - intros (_ & (Hc & HT & _)%same_data_inv). left. split; [done|]. by rewrite HT.
  - intros (b & t & a & _ & _ & Ha). right. by eapply added_more.
  - intros (n & t & tags & Ht & _ & _ & Hs). left. by eapply kept_put.
  - intros (n & t & Ht & Hs). left. by eapply kept_put.
  - intros (n & t & Ht & Hs). left. by eapply kept_put.
  - intros (n & t & Ht & Hs). left. by eapply kept_put.
Qed.

Definition within_limit (s : Server) : Prop := Z.of_nat (size (tables s)) <= max_tables (config s).
Lemma max_tables_pos c : 0 <= max_tables c.
Proof. unfold max_tables. destruct (0 <? cfg_max_tables c) eqn:E; lia. Qed.
Lemma within_empty c : within_limit (holding c (mkPersisted ∅ ∅ ∅ ∅)).
Proof. unfold within_limit, holding. cbn [tables p_tables config]. rewrite map_size_empty. apply max_tables_pos. Qed.
Lemma within_names s s' : names_kept s s' \/ one_more s s' -> within_limit s -> within_limit s'.
Proof.
  unfold within_limit. intros [[-> Hd]|(-> & Hr & Hz)] Hw; [|rewrite Hz; lia]. apply subseteq_size in Hd. rewrite !size_dom in Hd. lia.
Qed.
(** the server never holds more tables than its configured limit, by whatever
    calls they came and went, and across restarts. *)
Theorem table_limit w : reachable w -> within_limit (server w).
Proof.
  induction 1 as [c s tick|target body now w Hr IH|w Hr IH Hf Hj].
  - destruct (new_on_nothing c (mkWorld s None tick)) as [k ->]; [by right|]. apply within_empty.
  - pose proof (dispatch_served target body now w (reachable_ok w Hr)) as Hd. unfold wp in Hd.
    destruct (dispatch target body now w) as [o w']. destruct Hd as [_ Hd]. cbn [fst snd] in Hd |- *.
    assert (forall s1, same_data s1 (swept now (server w)) -> within_limit s1) as Hsw.
    { intros s1 Hs. apply (within_names (server w)); [left; by eapply kept_map|done]. }
    assert (forall s1, same_data s1 (server w) \/ same_data s1 (swept now (server w)) -> within_limit s1) as Hor.
    { intros s1 [Hs|Hs]; [|by apply Hsw]. apply (within_names (server w)); [left; by apply kept_same|done]. }
    destruct o as [[st [e|] b]|e|p]; [by apply Hor| |by apply Hor..].
    destruct Hd as (op & c & s1 & _ & _ & Hs & He). apply (within_names s1); [by eapply effect_names|by apply Hsw].
  - destruct (is_empty (storage_path (config (server w)))) eqn:Es.
    + destruct (new_on_nothing (config (server w)) w) as [k ->]; [by left|]. apply within_empty.
    + destruct (restart_ok w (reachable_ok w Hr) Hf Hj) as [_ Hs]. rewrite Hs by done. exact IH.
Qed.

(** what PutItem stores GetItem reads back under the same key, every attribute of
    it, and no other item of any table changes. *)
Theorem put_item_get_item r g w b w' :
  reachable w -> put_item r w = (Ok b, w') ->
  gi_table_name g = pi_table_name r -> trim (gi_projection_expression g) = "" ->
  valid_return_consumed_capacity (gi_return_consumed_capacity g) = true ->
  (forall t, tables (server w) !! pi_table_name r = Some t ->
     item_key (st_description t) (gi_key g) = item_key (st_description t) (pi_item r)) ->
  (exists key, only_item (server w) (pi_table_name r) key (Some (pi_item r)) (server w'))
  /\ (get_item g w').1 = Ok (respond (add_consumed_capacity [("Item", item_value (pi_item r))]
                          (gi_table_name g) (gi_return_consumed_capacity g))).
Proof.
  intros Hr E Hn Hp Hcap Hkey. pose proof (put_item_txn r w (reachable_ok w Hr)) as Ht. unfold wp in Ht. rewrite E in Ht.
  destruct Ht as [_ (key & old & (t0 & Ht0 & Hk & _) & _ & _ & Hs)]. split; [exists key; by apply stored_only|].
  apply check_table_first in E as Hne.
  destruct (stored_table _ _ _ _ _ Hs) as (t & t' & Ht & Ht' & Hi & Hks). rewrite Ht0 in Ht. injection Ht as <-.
  apply (get_item_hit g w' t' key); rewrite ?Hn; try done. by rewrite (item_key_schema _ _ _ Hks), Hkey.
Qed.

(** C20: PutItem, UpdateItem and DeleteItem write one item, under the key the request
    names in its table's schema and only when the condition holds of the stored
    item: the request's item, the update evaluated on the stored item or on the key
    attributes, or nothing. A call that fails leaves every item as it was. *)
Theorem item_writes_exact c w :
  reachable w ->
  let '(o, w') := run c w in let s := server w in let s' := server w' in
  match c, o with
  | PutItem r, Ok _ => exists key old, target s (pi_table_name r) (pi_item r) key old
      /\ check_condition (pi_condition_expression r) (pi_expression_attribute_names r)
           (pi_expression_attribute_values r) old = Ok tt
      /\ only_item s (pi_table_name r) key (Some (pi_item r)) s'
  | UpdateItem r, Ok _ => exists key old item, target s (ui_table_name r) (ui_key r) key old
      /\ check_condition (ui_condition_expression r) (ui_expression_attribute_names r)
           (ui_expression_attribute_values r) old = Ok tt
      /\ updated_item (ui_update_expression r) (ui_expression_attribute_names r)
           (ui_expression_attribute_values r) (default (ui_key r) old) = Ok item
      /\ only_item s (ui_table_name r) key (Some item) s'
  | DeleteItem r, Ok _ => exists key old, target s (di_table_name r) (di_key r) key old
      /\ check_condition (di_condition_expression r) (di_expression_attribute_names r)
           (di_expression_attribute_values r) old = Ok tt
      /\ only_item s (di_table_name r) key None s'
  | _, Ok _ => True
  | _, _ => forall n k, item_at s' n k = item_at s n k
  end.
Proof.
  intros Hr. pose proof (run_txn c w (reachable_ok w Hr)) as Ht. unfold wp in Ht.
  destruct (run c w) as [o w']. destruct Ht as [_ Ht]. cbn [fst snd] in Ht.
  assert (match o with Ok _ => True | _ => forall n k, item_at (server w') n k = item_at (server w) n k end) as Herr.
  { destruct o; [done|..]; intros n k; by apply item_at_same. }
  destruct c; destruct o; try done; cbn [effect] in Ht.
  - destruct Ht as (key & old & Htar & Hc & _ & Hs). exists key, old. split; [done|]. split; [done|]. by apply stored_only.
  - destruct Ht as (key & old & Htar & Hc & Hs). exists key, old. split; [done|]. split; [done|]. by apply dropped_only.
  - destruct Ht as (key & old & item & Htar & Hc & Hu & _ & Hs). exists key, old, item. repeat (split; [done|]).
    by apply stored_only.
Qed.

(** C5: TransactWriteItems is all or nothing. When it succeeds, its items name
    different keys, the condition of each holds in the state before the call, every
    key gets exactly what its own item plans from that state, and no other item
    changes; when it fails, nothing has changed. *)
Theorem transact_write_atomic r w :
  reachable w ->
  let '(o, w') := transact_write_items r w in
  match o with
  | Ok _ => exists l : list ((string * string) * option PlannedWrite),
      NoDup l.*1 /\ Forall2 (fun item e => transact_step (server w) item e.1 e.2) (tws_transact_items r) l
      /\ (forall n k p, ((n, k), Some p) ∈ l -> item_at (server w') n k = pw_put p)
      /\ (forall n k, (forall p, ((n, k), Some p) ∉ l) -> item_at (server w') n k = item_at (server w) n k)
  | _ => same_data (server w') (server w)
  end.
Proof.
  intros Hr. pose proof (transact_write_txn r w (reachable_ok w Hr)) as Ht. unfold wp in Ht.
  destruct (transact_write_items r w) as [o w']. destruct Ht as [_ Ht]. cbn [fst snd] in Ht. destruct o as [b|e|p]; [|done..].
  destruct Ht as (plan & keys & (Hnd & l & -> & -> & Hf) & Hsd). exists l. split; [done|]. split; [done|].
  assert (Forall (named (server w)) l) as Hnamed.
  { clear -Hf. induction Hf; constructor; [by eapply transact_step_named|done]. }
  split.
  - intros n k p Hin. rewrite (item_at_same _ _ n k Hsd), item_at_planned.
    pose proof Hin as Hn. rewrite Forall_forall in Hnamed. apply Hnamed in Hn. destruct (Hn p eq_refl) as [[= -> _] [t Ht]].
    rewrite Ht. cbn. rewrite <- Forall_forall in Hnamed. by apply (write_items_hit (server w) l _ k p).
  - intros n k Hno. rewrite (item_at_same _ _ n k Hsd), item_at_planned. unfold item_at.
    destruct (tables (server w) !! n) as [t|]; [|done]. cbn. by apply (write_items_miss (server w)).
Qed.

(** the sweep before a request removes exactly the items whose time to live is
    over, from every table with time to live enabled; if the state cannot be written
    they are all put back. *)
Theorem expiry_exact now w :
  reachable w ->
  let '(o, w') := expire_ttl_items now w in
  match o with
  | Ok _ => forall n t, tables (server w) !! n = Some t -> forall k i,
      item_at (server w') n k = Some i <-> st_items t !! k = Some i /\ is_expired now (st_description t) i = false
  | _ => same_data (server w') (server w)
  end.
Proof.
  intros Hr. pose proof (expire_ttl_items_txn now w (reachable_ok w Hr)) as Ht. unfold wp in Ht.
  destruct (expire_ttl_items now w) as [o w']. destruct Ht as [_ Ht]. cbn [fst snd] in Ht. destruct o as [[]|e|p]; [|done..].
  intros n t Hn k i. rewrite (item_at_same _ _ n k Ht). unfold item_at, swept. rewrite map_tables_lookup, Hn. cbn.
  apply map_lookup_filter_Some.
Qed.

(** a table restored from a backup has the items, the key schema and the attribute
    definitions its source had when the backup was made, whatever happened to the
    source since, and correct counts. *)
Theorem backup_restore r w b w1 arn :
  reachable w -> create_backup r w = (Ok b, w1) ->
  backups (server w) !! arn = None -> is_Some (backups (server w1) !! arn) ->
  exists t, tables (server w) !! cb_table_name r = Some t /\
  forall q w2 b2 w3,
    reachable w2 -> backups (server w2) !! arn = backups (server w1) !! arn ->
    backup_tables (server w2) !! arn = backup_tables (server w1) !! arn ->
    backup_items (server w2) !! arn = backup_items (server w1) !! arn ->
    rtb_backup_arn q = arn -> restore_table_from_backup q w2 = (Ok b2, w3) ->
    tables (server w2) !! rtb_target_table_name q = None /\
    exists t', tables (server w3) !! rtb_target_table_name q = Some t' /\ st_items t' = st_items t
      /\ key_schema (st_description t') = key_schema (st_description t)
      /\ attribute_definitions (st_description t') = attribute_definitions (st_description t)
      /\ recount t' = t'.
Proof.
  intros Hr E Hnew Hsome. pose proof (create_backup_txn r w (reachable_ok w Hr)) as Ht. unfold wp in Ht. rewrite E in Ht.
  destruct Ht as [_ (t & at_ & bk & arn' & Hbk & Harn & Ht & Hnone & Hsd)]. exists t. split; [done|].
  cbn [fst snd] in Hsd. apply same_data_inv in Hsd as (_ & _ & HP). injection HP as _ HB HBT HBI.
  assert (arn' = arn) as ->.
  { destruct (decide (arn' = arn)) as [|Hne]; [done|]. rewrite HB, lookup_insert_ne, Hnew in Hsome by done. by destruct Hsome. }
  intros q w2 b2 w3 Hr2 E1 E2 E3 Hq Er.
  pose proof (restore_table_txn q w2 (reachable_ok w2 Hr2)) as Hres. unfold wp in Hres. rewrite Er in Hres.
  destruct Hres as [Hok3 (b' & t' & at2 & Hb' & Ht' & Hnew' & _ & Hsd3)]. split; [done|]. exists t'.
  cbn [fst snd] in Hsd3. apply same_data_inv in Hsd3 as (_ & HT3 & _).
  assert (backup_tables (server w2) !! rtb_backup_arn q = Some (st_description t)) as HT.
  { by rewrite Hq, E2, HBT, lookup_insert_eq. }
  assert (backup_items (server w2) !! rtb_backup_arn q = Some (st_items t)) as HI.
  { by rewrite Hq, E3, HBI, lookup_insert_eq. }
  assert (backup_arn (backup_details b') = rtb_backup_arn q) as Hb.
  { rewrite Hq, E1, HB, lookup_insert_eq in Hb'. injection Hb' as <-. by rewrite Hq. }
  split; [rewrite HT3; apply lookup_insert_eq|]. rewrite HI in Ht'. unfold restored_table_description in Ht'.
  rewrite Hb, HT, HI in Ht'. rewrite Ht'. repeat (split; [done|]). apply recount_idemp.
Qed.

(** ** Streams *)

(** [fuel] calls of GetRecords, each with the iterator the one before returned. *)
Fixpoint replay (fuel : nat) (limit : Z) (iterator : string) : Api (list StreamRecord) :=
  match fuel with
  | O => mret []
  | S fuel =>
      '(next, records) ← records_page (mkGetRecordsRequest iterator limit);
      rest ← replay fuel limit next;
      mret (records ++ rest)%list
  end.
Definition page_size (limit : Z) : Z := if (limit <=? 0) || (1000 <? limit) then 1000 else limit.

Lemma stream_records_drop s arn t pos limit :
  table_for_stream s arn = Some t -> 0 <= pos ->
  stream_records s arn pos limit
  = take (Z.to_nat (page_size limit)) (drop (Z.to_nat pos) (st_stream_records t)).
Proof.
  intros Ht Hp. unfold stream_records. rewrite Ht. fold (page_size limit).
  assert (0 < page_size limit) by (unfold page_size; destruct (limit <=? 0) eqn:?, (1000 <? limit) eqn:?; cbn; lia).
  destruct (_ <=? pos) eqn:E.
  - rewrite drop_ge by lia. by rewrite take_nil.
  - rewrite Z.max_l by lia. destruct (Z.min_spec (pos + page_size limit) (Z.of_nat (length (st_stream_records t)))) as [[Hm ->]|[Hm ->]].
    + f_equal. lia.
    + rewrite !take_ge by (rewrite ?length_drop; lia). done.
Qed.

Lemma encode_iterator_some it : is_empty (encode_iterator it) = false.
Proof.
  destruct (is_empty (encode_iterator it)) eqn:E; [|done]. apply is_empty_true in E. unfold encode_iterator in E.
  pose proof (base64url_roundtrip (marshal (iterator_value it))) as Hr. rewrite E in Hr.
  unfold iterator_value, struct_value in Hr. by rewrite marshal_object in Hr.
Qed.
Lemma records_page_at s arn t pos limit w :
  server w = s -> table_for_stream s arn = Some t -> arn <> "" -> 0 <= pos -> 0 <= limit <= 1000 ->
  let it p := mkIterator arn SHARD_ID p in
  iterator_from_slice (marshal (iterator_value (it pos))) = inl (it pos) ->
  is_empty (encode_iterator (it pos)) = false ->
  let page := take (Z.to_nat (page_size limit)) (drop (Z.to_nat pos) (st_stream_records t)) in
  records_page (mkGetRecordsRequest (encode_iterator (it pos)) limit) w
  = (Ok (encode_iterator (it (pos + Z.of_nat (length page))), page), w).
Proof.
  intros Hs Ht Ha Hp Hl it Hj He page. unfold records_page, check_limit, guard_err. cbn [gr_shard_iterator gr_limit].
  rewrite He. assert ((limit <? 0) || (1000 <? limit) = false) as -> by lia.
  unfold mbind, m_bind, mret, m_ret, lift, gets. rewrite iterator_roundtrip by done. cbn [map_err].
  unfold stream_shard_exists. cbn [it it_stream_arn it_shard_id it_position]. rewrite Hs, Ht.
  rewrite (stream_records_drop s arn t pos limit Ht Hp). fold page. done.
Qed.

(** C22: a client that starts at TRIM_HORIZON and follows the iterators reads every
    record of a stream, each once and in order, numbered 1, 2, 3 ..., for every page
    size; further calls return nothing. *)
Theorem stream_replay_complete w arn t limit fuel :
  reachable w -> table_for_stream (server w) arn = Some t -> arn <> "" -> 0 <= limit <= 1000 ->
  let it p := mkIterator arn SHARD_ID p in
  (forall p, 0 <= p <= Z.of_nat (length (st_stream_records t)) ->
     iterator_from_slice (marshal (iterator_value (it p))) = inl (it p)) ->
  Z.of_nat (length (st_stream_records t)) <= Z.of_nat fuel * page_size limit ->
  (replay fuel limit (encode_iterator (it 0)) w).1 = Ok (st_stream_records t)
  /\ map (fun r => sequence_number (sr_dynamodb r)) (st_stream_records t)
     = map (fun i => show_Z (Z.of_nat i)) (seq 1 (length (st_stream_records t))).
Proof.
  intros Hr Ht Ha Hl it. subst it. cbv beta. intros Hj Hf. set (it p := mkIterator arn SHARD_ID p). split.
  - assert (forall f p w', server w' = server w -> 0 <= p <= Z.of_nat (length (st_stream_records t)) ->
      (replay f limit (encode_iterator (mkIterator arn SHARD_ID p)) w').1
      = Ok (take (f * Z.to_nat (page_size limit)) (drop (Z.to_nat p) (st_stream_records t)))) as Hgen.
    { induction f as [|f IH]; intros p w' Hs Hp; [done|]. cbn [replay].
      unfold mbind at 1. unfold m_bind at 1.
      rewrite (records_page_at (server w) arn t p limit w'); try done; [|lia|by apply Hj|apply encode_iterator_some].
      set (rs := st_stream_records t) in *. set (n := Z.to_nat (page_size limit)).
      set (page := take n (drop (Z.to_nat p) rs)).
      assert (Z.of_nat (length page) = Z.min (Z.of_nat n) (Z.of_nat (length rs) - p)) as Hlen.
      { unfold page. rewrite length_take, length_drop. lia. }
      specialize (IH (p + Z.of_nat (length page)) w' Hs ltac:(lia)). unfold mbind, m_bind.
      destruct (replay f limit _ w') as [[r|e|x] w2]; cbn [fst] in IH; [|done..]. injection IH as ->. cbn [fst mret m_ret].
      f_equal. rewrite Nat.mul_succ_l, Nat.add_comm. fold n.
      rewrite <- take_take_drop. fold page. do 2 f_equal. rewrite drop_drop.
      destruct (decide (Z.of_nat (length page) = Z.of_nat n)).
      - f_equal. lia.
      - rewrite !drop_ge by lia. done. }
    rewrite Hgen by (done || lia). f_equal. cbn [Z.to_nat drop]. apply take_ge.
    assert (0 < page_size limit) by (unfold page_size; destruct (limit <=? 0) eqn:?, (1000 <? limit) eqn:?; cbn; lia).
    nia.
  - apply list_eq. intros i. rewrite !list_lookup_fmap. destruct (st_stream_records t !! i) as [r|] eqn:Er.
    + assert (sequenced (st_stream_records t)) as Hseq.
      { unfold table_for_stream in Ht. destruct (btree_find _ _) as [[n u]|] eqn:Eb; [|done]. injection Ht as ->.
        apply btree_find_Some in Eb as (Hn & _). apply reachable_ok in Hr as [_ _ Hok _]. apply (Hok n t Hn). }
      pose proof (lookup_lt_Some _ _ _ Er) as Hi. rewrite lookup_seq_lt by done. cbn. rewrite (Hseq i r Er). do 2 f_equal. lia.
    + apply lookup_ge_None in Er. rewrite lookup_seq_ge by done. done.
Qed.
End Theorems.

(** ** Witnesses *)

Abbreviation demo := (demo_env demo_state).
Definition w2 : World := demo_world demo_state.

Lemma server_invariant_witness :
  exists t, tables (server w2) !! "t" = Some t /\ item_count (st_description t) = 2
    /\ Forall (fun i => gsi_item_count i = count_items (st_items t) (gsi_key_schema i))
         (global_secondary_indexes (st_description t))
    /\ sequenced (st_stream_records t) /\ length (st_stream_records t) = 2%nat
    /\ w_disk w2 = Some (to_state_json (persisted_of (server w2))).
Proof.
  destruct (server_invariant (H := demo) w2 (demo_reachable _)) as [Ht Hd]. exists demo_table.
  assert (tables (server w2) !! "t" = Some demo_table) as E by (vm_compute; reflexivity).
  destruct (Ht _ _ E) as (Hc & Hg & _ & _ & Hs). split; [exact E|]. split; [rewrite Hc; vm_compute; reflexivity|].
  split; [exact Hg|]. split; [exact Hs|]. split; [vm_compute; reflexivity|].
  destruct Hd as [Hd|[Hd _]]; [vm_compute; reflexivity|exact Hd|]. exfalso. revert Hd. vm_compute. discriminate.
Defined.
Lemma server_refines_effects_witness :
  let '(o, w') := dispatch (H := demo) "DynamoDB_20120810.DeleteItem" "delete1" 1600000000 w2 in
  served (H := demo) "DynamoDB_20120810.DeleteItem" "delete1" 1600000000 o (server w2) (server w')
  /\ reachable (H := demo) w'.
Proof. apply (server_refines_effects (H := demo) "DynamoDB_20120810.DeleteItem" "delete1" 1600000000 w2). exact (demo_reachable _). Defined.
Lemma restart_finds_data_witness :
  let w' := (new (H := demo) (config (server w2)) w2).2 in
  p_tables demo_state !! "t" = Some demo_table /\ tables (server w') !! "t" = Some demo_table.
Proof.
  assert (persisted_of (server w2) = demo_state) as E by (vm_compute; reflexivity).
  destruct (restart_finds_data (H := demo) w2 (demo_reachable _)) as [Hp _].
  - vm_compute. reflexivity.
  - reflexivity.
  - rewrite E. vm_compute. reflexivity.
  - cbv zeta. apply (f_equal p_tables) in Hp. cbn [persisted_of p_tables] in Hp. rewrite Hp. split; vm_compute; reflexivity.
Defined.
Lemma put_item_get_item_witness :
  exists b w', put_item (H := demo) (demo_put item1) w2 = (Ok b, w')
    /\ (get_item (demo_get key1) w').1 = Ok (respond [("Item", item_value item1)]).
Proof.
  destruct (put_item (H := demo) (demo_put item1) w2) as [o w'] eqn:E.
  assert (o = Ok (respond [])) as -> by (change o with (o, w').1; rewrite <- E; vm_compute; reflexivity).
  exists (respond []), w'. split; [reflexivity|].
  destruct (put_item_get_item (demo_put item1) (demo_get key1) w2 (respond []) w' (demo_reachable _) E) as [_ Hg].
  - reflexivity.
  - reflexivity.
  - vm_compute. reflexivity.
  - intros t. intros Ht. assert (t = demo_table) as ->; [|vm_compute; reflexivity]. revert Ht.
    assert (tables (server w2) !! pi_table_name (demo_put item1) = Some demo_table) as -> by (vm_compute; reflexivity).
    by intros [= <-].
  - exact Hg.
Defined.

Lemma item_writes_exact_witness :
  let '(o, w') := run (H := demo) (DeleteItem (demo_delete key1)) w2 in
  exists key, item_at (server w2) "t" key = Some item1 /\ item_at (server w') "t" key = None
    /\ forall m k, (m, k) <> ("t", key) -> item_at (server w') m k = item_at (server w2) m k.
Proof.
  pose proof (item_writes_exact (H := demo) (DeleteItem (demo_delete key1)) w2 (demo_reachable _)) as Ht.
  destruct (run (H := demo) (DeleteItem (demo_delete key1)) w2) as [o w'] eqn:E.
  assert (o = Ok (respond [])) as -> by (change o with (o, w').1; rewrite <- E; vm_compute; reflexivity).
  destruct Ht as (key & old & (t & Hn & Hk & Ho) & _ & Hi & Hrest). exists key. split; [|split; [exact Hi|exact Hrest]].
  assert (t = demo_table) as ->.
  { revert Hn. assert (tables (server w2) !! di_table_name (demo_delete key1) = Some demo_table) as -> by (vm_compute; reflexivity).
    by intros [= <-]. }
  assert (key = "[" +:+ compact_json (str_attr "a") +:+ "]") as ->; [|vm_compute; reflexivity].
  revert Hk. assert (item_key (st_description demo_table) (di_key (demo_delete key1))
    = Ok ("[" +:+ compact_json (str_attr "a") +:+ "]")) as -> by (vm_compute; reflexivity). by intros [= <-].
Defined.
Definition demo_transact : TransactWriteItemsRequest :=
  mkTransactWriteItemsRequest
    [mkTransactWriteItem (Some (mkTransactPut "t" item2 "" ∅ ∅)) None None None;
     mkTransactWriteItem None None (Some (mkTransactDelete "t" key1 "" ∅ ∅)) None].
Lemma transact_write_atomic_witness :
  exists w', transact_write_items (H := demo) demo_transact w2 = (Ok (respond []), w')
  /\ exists l, NoDup l.*1
    /\ Forall2 (fun item e => transact_step (server w2) item e.1 e.2) (tws_transact_items demo_transact) l
    /\ forall n k p, ((n, k), Some p) ∈ l -> item_at (server w') n k = pw_put p.
Proof.
  pose proof (transact_write_atomic (H := demo) demo_transact w2 (demo_reachable _)) as Ht.
  destruct (transact_write_items (H := demo) demo_transact w2) as [o w'] eqn:E.
  assert (o = Ok (respond [])) as -> by (change o with (o, w').1; rewrite <- E; vm_compute; reflexivity).
  exists w'. split; [reflexivity|]. destruct Ht as (l & Hnd & Hf & Hw & _). exists l. split; [exact Hnd|].
  split; [exact Hf|exact Hw].
Defined.
Lemma table_limit_witness : within_limit (server w2) /\ max_tables (config (server w2)) = 2.
Proof. split; [apply (table_limit (H := demo)); exact (demo_reachable _)|vm_compute; reflexivity]. Defined.

(** The table with its time to live on: the first item is over. *)
Definition w3 : World := requests (E := demo) [("UpdateTimeToLive", "ttl")] 0 w2.
Lemma expiry_exact_witness :
  exists t, tables (server w3) !! "t" = Some t /\ size (st_items t) = 2%nat
    /\ size (live 1700000000 t) = 1%nat
    /\ forall k i, item_at (server (expire_ttl_items (H := demo) 1700000000 w3).2) "t" k = Some i
         <-> st_items t !! k = Some i /\ is_expired 1700000000 (st_description t) i = false.
Proof.
  pose proof (expiry_exact (H := demo) 1700000000 w3 (requests_reachable _ _ _ (demo_reachable _))) as Ht.
  destruct (expire_ttl_items (H := demo) 1700000000 w3) as [o w'] eqn:E.
  assert (o = Ok tt) as -> by (change o with (o, w').1; rewrite <- E; vm_compute; reflexivity).
  assert (exists t, tables (server w3) !! "t" = Some t /\ size (st_items t) = 2%nat /\ size (live 1700000000 t) = 1%nat) as (t & Hn & H1 & H2).
  { eexists. split; [vm_compute; reflexivity|]. split; vm_compute; reflexivity. }
  exists t. split; [exact Hn|]. split; [exact H1|]. split; [exact H2|]. exact (Ht "t" t Hn).
Defined.

Definition w4 : World := requests (E := demo) [("CreateBackup", "backup")] 0 w2.
Lemma backup_restore_witness :
  exists t', tables (server (restore_table_from_backup (H := demo) demo_restore w4).2) !! "u" = Some t'
    /\ st_items t' = st_items demo_table.
Proof.
  destruct (create_backup (H := demo) demo_backup w2) as [o w1] eqn:E.
  assert (exists b, o = Ok b) as [b ->].
  { change o with (o, w1).1. rewrite <- E. eexists. vm_compute. reflexivity. }
  assert (server w1 = server w4) as Es by (change w1 with ((Ok b : result ApiError string), w1).2; rewrite <- E; vm_compute; reflexivity).
  destruct (restore_table_from_backup (H := demo) demo_restore w4) as [o3 w5] eqn:E3.
  assert (exists b3, o3 = Ok b3) as [b3 ->].
  { change o3 with (o3, w5).1. rewrite <- E3. eexists. vm_compute. reflexivity. }
  destruct (backup_restore (H := demo) demo_backup w2 b w1 (rtb_backup_arn demo_restore) (demo_reachable _) E) as (t & Ht & Hrest).
  - vm_compute. reflexivity.
  - rewrite Es. eexists. vm_compute. reflexivity.
  - destruct (Hrest demo_restore w4 b3 w5) as (_ & t' & Ht' & Hi & _).
    + exact (requests_reachable _ _ _ (demo_reachable _)).
    + by rewrite Es.
    + by rewrite Es.
    + by rewrite Es.
    + reflexivity.
    + exact E3.
    + exists t'. split; [exact Ht'|]. rewrite Hi. revert Ht.
      assert (tables (server w2) !! cb_table_name demo_backup = Some demo_table) as -> by (vm_compute; reflexivity).
      by intros [= <-].
Defined.
Lemma stream_replay_complete_witness :
  (replay (H := demo) 3 1 (encode_iterator (mkIterator demo_arn SHARD_ID 0)) w2).1 = Ok (st_stream_records demo_table)
  /\ map (fun r => sequence_number (sr_dynamodb r)) (st_stream_records demo_table) = ["1"; "2"].
Proof.
  destruct (stream_replay_complete (H := demo) w2 demo_arn demo_table 1 3) as [Hr Hs].
  - exact (demo_reachable _).
  - vm_compute. reflexivity.
  - discriminate.
  - lia.
  - assert (Z.of_nat (length (st_stream_records demo_table)) = 2) as -> by (vm_compute; reflexivity).
    intros p Hp. assert (p = 0 \/ p = 1 \/ p = 2) as [->|[->| ->]] by lia; vm_compute; reflexivity.
  - assert (Z.of_nat (length (st_stream_records demo_table)) = 2) as -> by (vm_compute; reflexivity). done.
  - split; [exact Hr|exact Hs].
Defined.
