(* ===== verification/MailSmtp.v ===== *)
(** The SMTP server of the mail service (src/services/mail/src/smtp.rs): one
    connection as a state machine driven by the lines of the client.  The reader is
    the sequence of what [fill_buf] yields (chunks of bytes, an expired deadline, an
    error, and the end of the stream when nothing is left); the writer may fail at
    any write or flush; base64 decoding and the mail store behind [Service::receive]
    are parameters. *)

From S2P Require Import Prelude RustStr RustNum RustText.
Local Open Scope Z_scope.

(** ** Data *)

Definition SMTP_AUTH_OFF : string := "off".
Definition SMTP_AUTH_RELAXED : string := "relaxed".
Definition SMTP_AUTH_STRICT : string := "strict".

Record SmtpConfig := mkConfig {
  max_message_bytes : Z;
  auth_mode : string;
  username : string;
  password : string }.

Record SmtpLimits := mkLimits {
  max_line_bytes : Z;
  idle_timeout : bool;
  max_recipients : Z }.

Definition standard : SmtpLimits := mkLimits (1024 * 1024) true 1000.

Record SmtpServer := mkServer {
  config : SmtpConfig;
  envelope_capture : bool;
  limits : SmtpLimits }.

Record Envelope := mkEnvelope { from : string; to : list string }.
Definition default_envelope : Envelope := mkEnvelope "" [].

(** What a wait on the reader ends with. *)
Inductive read_event :=
| Bytes (b : string)
| Deadline
| ReadError.

(** A message handed to the store: its envelope, the captured HELO, the body. *)
Record Received := mkReceived {
  r_envelope : Envelope;
  r_helo : option string;
  r_raw : string }.

Record Session := mkSession {
  greeted : bool;
  has_mail_from : bool;
  authenticated : bool;
  crlf_seen : bool;
  last_crlf : bool;
  envelope : Envelope;
  helo : string;
  reader : list read_event;
  writes : nat;
  output : list string;
  stored : list Received }.

Definition new_session (input : list read_event) : Session :=
  mkSession false false false false false default_envelope "" input 0 [] [].

Definition set_greeted b s := mkSession b (has_mail_from s) (authenticated s) (crlf_seen s) (last_crlf s)
  (envelope s) (helo s) (reader s) (writes s) (output s) (stored s).
Definition set_has_mail_from b s := mkSession (greeted s) b (authenticated s) (crlf_seen s) (last_crlf s)
  (envelope s) (helo s) (reader s) (writes s) (output s) (stored s).
Definition set_authenticated b s := mkSession (greeted s) (has_mail_from s) b (crlf_seen s) (last_crlf s)
  (envelope s) (helo s) (reader s) (writes s) (output s) (stored s).
Definition set_crlf seen last s := mkSession (greeted s) (has_mail_from s) (authenticated s) seen last
  (envelope s) (helo s) (reader s) (writes s) (output s) (stored s).
Definition set_envelope e s := mkSession (greeted s) (has_mail_from s) (authenticated s) (crlf_seen s)
  (last_crlf s) e (helo s) (reader s) (writes s) (output s) (stored s).
Definition set_helo h s := mkSession (greeted s) (has_mail_from s) (authenticated s) (crlf_seen s)
  (last_crlf s) (envelope s) h (reader s) (writes s) (output s) (stored s).
Definition set_reader r s := mkSession (greeted s) (has_mail_from s) (authenticated s) (crlf_seen s)
  (last_crlf s) (envelope s) (helo s) r (writes s) (output s) (stored s).
Definition set_writer n o s := mkSession (greeted s) (has_mail_from s) (authenticated s) (crlf_seen s)
  (last_crlf s) (envelope s) (helo s) (reader s) n o (stored s).
Definition set_stored l s := mkSession (greeted s) (has_mail_from s) (authenticated s) (crlf_seen s)
  (last_crlf s) (envelope s) (helo s) (reader s) (writes s) (output s) l.

(** What is not part of smtp.rs: whether the n-th write or flush succeeds, the base64
    crate's decoder, and whether the service stores the n-th message. *)
Class MailEnv := {
  write_ok : nat -> bool;
  base64_decode : string -> option string;
  store_ok : nat -> Received -> bool }.

(** ** Parsing of command lines *)

Definition auth_mode_normalized (c : SmtpConfig) : string :=
  let mode := to_ascii_lowercase (trim (auth_mode c)) in
  if is_empty mode then SMTP_AUTH_OFF else mode.

(** Strips a trailing line end; was it CRLF? *)
Definition strip_line_end (buf : string) : string * bool :=
  match strip_suffix (char_str lf) buf with
  | None => (buf, false)
  | Some buf =>
      match strip_suffix (char_str cr) buf with
      | Some buf => (buf, true)
      | None => (buf, false)
      end
  end.

Definition is_blank (c : ascii) : bool := Ascii.eqb c " " || (byte_of c =? 9).

Definition split_smtp_command (line : string) : string * string :=
  let line := trim_end_by is_blank line in
  if is_empty line then (EmptyString, EmptyString)
  else
    match split_once " " line with
    | None => (to_ascii_uppercase line, EmptyString)
    | Some (command, arg) => (to_ascii_uppercase command, trim_start_by is_blank arg)
    end.

Definition split_auth_arg (arg : string) : string * string :=
  let arg := trim arg in
  if is_empty arg then (EmptyString, EmptyString)
  else
    match split_once " " arg with
    | None => (arg, EmptyString)
    | Some (mechanism, rest) => (mechanism, trim rest)
    end.

(** [arg.get(..n)] agrees with the first [n] bytes wherever the prefix is ASCII. *)
Definition prefix_ignore_case (prefix arg : string) : option string :=
  if str_len arg <? str_len prefix then None
  else if eq_ignore_ascii_case (str_take (str_len prefix) arg) prefix
  then Some (str_drop (str_len prefix) arg) else None.

Definition parse_path_arg (arg prefix : string) (allow_empty : bool) : option (string * string) :=
  rest ← prefix_ignore_case prefix (trim arg);
  let rest := trim rest in
  match rest with
  | EmptyString => None
  | String c inner =>
      if Ascii.eqb c "<" then
        '(address, after) ← find_by (Ascii.eqb ">") inner;
        if negb allow_empty && is_empty address then None
        else
          match after with
          | String _ (String d _) =>
              if is_blank d then Some (address, trim (str_drop 1 after)) else None
          | _ => Some (address, EmptyString)
          end
      else
        match find_by is_blank rest with
        | None => Some (rest, EmptyString)
        | Some (address, remaining) =>
            if is_empty address then None else Some (address, trim (str_drop 1 remaining))
        end
  end.

Definition parse_address_arg (arg prefix : string) : option string :=
  '(address, rest) ← parse_path_arg arg prefix false;
  if is_empty (trim rest) then Some address else None.

(** The loop over the parameters of MAIL: the first SIZE decides. *)
Fixpoint mail_size (fields : list string) : option (option Z) :=
  match fields with
  | [] => Some None
  | field :: fields =>
      match split_once "=" field with
      | None => mail_size fields
      | Some (name, value) =>
          if negb (eq_ignore_ascii_case name "SIZE") then mail_size fields
          else if is_empty value || negb (str_all is_ascii_digit value) then None
          else Some (Some (default i64_max (parse_i64 value)))
      end
  end.

Definition parse_mail_from_arg (arg : string) : option (string * Z * bool) :=
  '(address, rest) ← parse_path_arg arg "FROM:" true;
  size ← mail_size (split_whitespace rest);
  match size with
  | Some n => Some (address, n, true)
  | None => Some (address, 0, false)
  end.

(** [diff |= usize::from(a.get(i).unwrap_or(0) ^ b.get(i).unwrap_or(0))] over the
    longer length; first the indices past the end of [a]. *)
Fixpoint diff_tail (b : string) (diff : Z) : Z :=
  match b with
  | EmptyString => diff
  | String y b' => diff_tail b' (Z.lor diff (Z.lxor 0 (byte_of y)))
  end.
Fixpoint diff_loop (a b : string) (diff : Z) : Z :=
  match a, b with
  | EmptyString, _ => diff_tail b diff
  | String x a', EmptyString => diff_loop a' EmptyString (Z.lor diff (Z.lxor (byte_of x) 0))
  | String x a', String y b' => diff_loop a' b' (Z.lor diff (Z.lxor (byte_of x) (byte_of y)))
  end.
Definition constant_time_eq (a b : string) : bool :=
  diff_loop a b (Z.lxor (str_len a) (str_len b)) =? 0.

Definition sanitize_helo (helo : string) : string :=
  str_concat (firstn 255 (List.filter (fun c => negb (is_control c)) (char_strs helo))).

(** ** The session *)

Section Session.
Context `{MailEnv}.
Variable srv : SmtpServer.

Local Abbreviation S := (M Session).

(** [write_all(line).await.is_ok()] and [flush().await.is_ok()]; a failed write may
    not have reached the client. *)
Definition write_all (line : string) : S bool := fun s =>
  let ok := write_ok (writes s) in
  (Ok ok, set_writer (Datatypes.S (writes s)) (if ok then output s ++ [line] else output s) s).
Definition flush : S bool := fun s =>
  (Ok (write_ok (writes s)), set_writer (Datatypes.S (writes s)) (output s) s).

Definition reply (code : Z) (message : string) : S bool :=
  ok ← write_all (show_Z code +:+ " " +:+ message +:+ crlf);
  if negb ok then mret false else flush.

(** How reading a line ends: with a line, or with what is replied before giving up. *)
Inductive read_result :=
| Line (buf : string) (rest : list read_event)
| Closed
| IdleTimeout (rest : list read_event)
| TooLong (rest : list read_event).

(** The loop of [read_line_raw]: [events] is what the reader will yield. *)
Fixpoint read_loop (buf : string) (events : list read_event) : read_result :=
  let finish := if is_empty buf then Closed else Line buf [] in
  match events with
  | [] => finish
  | ReadError :: _ => Closed
  | Deadline :: rest => if idle_timeout (limits srv) then IdleTimeout rest else read_loop buf rest
  | Bytes available :: rest =>
      if is_empty available then finish
      else
        let '(taken, remains, finished) :=
          match split_once (char_str lf) available with
          | Some (a, b) => (a +:+ char_str lf, b, true)
          | None => (available, EmptyString, false)
          end in
        if (0 <? max_line_bytes (limits srv))
           && (max_line_bytes (limits srv) <? str_len buf + str_len taken) then TooLong events
        else if finished
        then Line (buf +:+ taken) (if is_empty remains then rest else Bytes remains :: rest)
        else read_loop (buf +:+ taken) rest
  end.

Definition read_line_raw : S (option string) :=
  s ← get;
  match read_loop EmptyString (reader s) with
  | Line buf rest => _ ← modify (set_reader rest); mret (Some buf)
  | Closed => mret None
  | IdleTimeout rest => _ ← modify (set_reader rest); _ ← reply 421 "idle timeout"; mret None
  | TooLong rest => _ ← modify (set_reader rest); _ ← reply 500 "line exceeds limit"; mret None
  end.

Definition read_line_bytes : S (option string) :=
  buf ← read_line_raw;
  match buf with
  | None => mret None
  | Some buf =>
      let '(buf, crlf) := strip_line_end buf in
      _ ← modify (fun s => set_crlf (crlf_seen s || crlf) crlf s);
      mret (Some buf)
  end.

Definition read_line_string : S (option string) :=
  line ← read_line_bytes; mret (from_utf8_lossy <$> line).

Definition reset_envelope : S unit :=
  modify (fun s => set_has_mail_from false (set_envelope default_envelope s)).

Fixpoint write_lines (lines : list string) : S bool :=
  match lines with
  | [] => mret true
  | payload :: lines =>
      let separator := match lines with [] => " " | _ => "-" end in
      ok ← write_all ("250" +:+ separator +:+ payload +:+ crlf);
      if negb ok then mret false else write_lines lines
  end.

Definition reply_ehlo : S bool :=
  let max := max_message_bytes (config srv) in
  let auth_enabled := negb (str_eqb (auth_mode_normalized (config srv)) SMTP_AUTH_OFF) in
  let lines := ["devcloud"] ++ (if 0 <? max then ["SIZE " +:+ show_Z max] else [])
               ++ (if auth_enabled then ["AUTH PLAIN LOGIN"] else []) in
  ok ← write_lines lines;
  if negb ok then mret false else flush.

(** ** DATA *)

(** Does a line [.] end the message?  [crlf_seen], [crlf] and [after_crlf] as in the
    loop, the first already updated. *)
Definition is_terminator (crlf_seen crlf after_crlf : bool) : bool :=
  if crlf_seen then crlf && after_crlf else negb crlf && negb after_crlf.

(** [if line.starts_with(b"..") { line.remove(0); }] *)
Definition unstuff (line : string) : string :=
  if starts_with ".." line then str_drop 1 line else line.

(** The lines of the message up to its end: [None] when the connection ends first. *)
Fixpoint data_loop (fuel : nat) (raw : string) (oversized : bool) : S (option (string * bool)) :=
  match fuel with
  | O => panic "out of fuel"
  | Datatypes.S fuel' =>
      line ← read_line_raw;
      match line with
      | None => mret None
      | Some line =>
          let '(line, crlf) := strip_line_end line in
          after_crlf ← gets last_crlf;
          _ ← modify (fun s => set_crlf (crlf_seen s || crlf) crlf s);
          seen ← gets crlf_seen;
          if str_eqb line "." && is_terminator seen crlf after_crlf then mret (Some (raw, oversized))
          else
            let line := unstuff line in
            if oversized then data_loop fuel' raw true
            else
              let next_len := str_len raw + str_len line + 2 in
              let max := max_message_bytes (config srv) in
              if (0 <? max) && (max <? next_len) then data_loop fuel' raw true
              else data_loop fuel' (raw +:+ line +:+ RustStr.crlf) false
      end
  end.

(** What is left to read, in bytes and events: every line takes some of it. *)
Definition event_size (e : read_event) : nat :=
  match e with Bytes b => Datatypes.S (String.length b) | _ => 1 end.
Definition read_size (events : list read_event) : nat := sum_list_with event_size events.

(** [self.service.receive_from_session(..)] or [self.service.receive(..)]. *)
Definition receive (raw : string) : S bool := fun s =>
  let m := mkReceived (envelope s) (if envelope_capture srv then Some (helo s) else None) raw in
  let ok := store_ok (length (stored s)) m in
  (Ok ok, if ok then set_stored (stored s ++ [m]) s else s).

Definition handle_data : S bool :=
  ok ← reply 354 "End data with <CR><LF>.<CR><LF>";
  if negb ok then mret false
  else
    fuel ← gets (fun s => Datatypes.S (read_size (reader s)));
    data ← data_loop fuel EmptyString false;
    match (data : option (string * bool)) with
    | None => mret false
    | Some (raw, oversized) =>
        if oversized then
          _ ← reset_envelope; reply 552 "message size exceeds limit"
        else
          received ← receive raw;
          _ ← reset_envelope;
          if (received : bool) then reply 250 "OK"
          else reply 451 "requested action aborted: local error in processing"
    end.

(** ** AUTH *)

Definition complete_auth (user pass : string) : S bool :=
  let user_ok := constant_time_eq user (username (config srv)) in
  let pass_ok := constant_time_eq pass (password (config srv)) in
  if str_eqb (auth_mode_normalized (config srv)) SMTP_AUTH_STRICT && negb (user_ok && pass_ok)
  then reply 535 "authentication failed"
  else _ ← modify (set_authenticated true); reply 235 "authentication succeeded".

(** [s.splitn(3, NUL)] when there are three parts. *)
Definition split_plain (s : string) : option (string * string * string) :=
  '(a, r) ← split_once (char_str nul) s;
  '(b, c) ← split_once (char_str nul) r;
  Some (a, b, c).

(** The response to a challenge, unless it came with the command. *)
Definition challenge (initial prompt : string) : S (option string) :=
  if is_empty initial then
    ok ← reply 334 prompt;
    if negb ok then mret None else read_line_string
  else mret (Some initial).

Definition handle_auth_plain (initial : string) : S bool :=
  encoded ← challenge initial EmptyString;
  match encoded with
  | None => mret false
  | Some encoded =>
      if str_eqb encoded "*" then reply 501 "authentication cancelled"
      else
        match base64_decode encoded with
        | None => reply 501 "invalid base64"
        | Some decoded =>
            match split_plain (from_utf8_lossy decoded) with
            | None => reply 501 "malformed PLAIN credentials"
            | Some (_, user, pass) => complete_auth user pass
            end
        end
  end.

Definition read_auth_login_field (initial prompt : string) : S (option string) :=
  encoded ← challenge initial prompt;
  match encoded with
  | None => mret None
  | Some encoded =>
      if str_eqb encoded "*" then _ ← reply 501 "authentication cancelled"; mret None
      else
        match base64_decode encoded with
        | Some d => mret (Some (from_utf8_lossy d))
        | None => _ ← reply 501 "invalid base64"; mret None
        end
  end.

Definition handle_auth_login (initial : string) : S bool :=
  user ← read_auth_login_field initial "VXNlcm5hbWU6";
  match user with
  | None => mret false
  | Some user =>
      pass ← read_auth_login_field EmptyString "UGFzc3dvcmQ6";
      match pass with
      | None => mret false
      | Some pass => complete_auth user pass
      end
  end.

Definition handle_auth (arg : string) : S bool :=
  let '(mechanism, initial) := split_auth_arg arg in
  let mechanism := to_ascii_uppercase mechanism in
  if str_eqb mechanism "PLAIN" then handle_auth_plain initial
  else if str_eqb mechanism "LOGIN" then handle_auth_login initial
  else if is_empty mechanism then reply 501 "syntax error in AUTH"
  else reply 504 "unrecognized authentication type".

(** ** Commands *)

Definition handle_helo (command arg : string) : S bool :=
  if is_empty (trim arg) then reply 500 "syntax error"
  else
    _ ← modify (fun s => set_helo (sanitize_helo arg) (set_greeted true s));
    _ ← reset_envelope;
    if str_eqb command "EHLO" then reply_ehlo else reply 250 "OK".

Definition handle_mail (arg : string) : S bool :=
  s ← get;
  if negb (greeted s) then reply 503 "bad sequence of commands"
  else
    match parse_mail_from_arg arg with
    | None => reply 500 "syntax error"
    | Some (from, size, has_size) =>
        let max := max_message_bytes (config srv) in
        if has_size && (0 <? max) && (max <? size) then
          _ ← reset_envelope; reply 552 "message size exceeds limit"
        else
          _ ← modify (fun s => set_has_mail_from true (set_envelope (mkEnvelope from []) s));
          reply 250 "OK"
    end.

Definition handle_rcpt (arg : string) : S bool :=
  s ← get;
  if negb (has_mail_from s) then reply 503 "bad sequence of commands"
  else
    match parse_address_arg arg "TO:" with
    | None => reply 500 "syntax error"
    | Some address =>
        if (0 <? max_recipients (limits srv))
           && (max_recipients (limits srv) <=? Z.of_nat (length (to (envelope s))))
        then reply 452 "too many recipients"
        else
          _ ← modify (fun s => set_envelope (mkEnvelope (from (envelope s)) (to (envelope s) ++ [address])) s);
          reply 250 "OK"
    end.

Definition handle_line (line : string) : S bool :=
  let '(command, arg) := split_smtp_command line in
  let cmd := str_eqb command in
  s ← get;
  if cmd "HELO" || cmd "EHLO" then handle_helo command arg
  else if cmd "MAIL" then handle_mail arg
  else if cmd "RCPT" then handle_rcpt arg
  else if cmd "DATA" then
    if negb (has_mail_from s) || match to (envelope s) with [] => true | _ => false end
    then reply 503 "bad sequence of commands"
    else if negb (is_empty (trim arg)) then reply 500 "syntax error"
    else handle_data
  else if cmd "AUTH" then
    if negb (greeted s) then reply 503 "bad sequence of commands"
    else if str_eqb (auth_mode_normalized (config srv)) SMTP_AUTH_OFF
    then reply 502 "command not implemented"
    else if authenticated s || has_mail_from s then reply 503 "bad sequence of commands"
    else handle_auth arg
  else if cmd "RSET" then
    if negb (is_empty (trim arg)) then reply 500 "syntax error"
    else _ ← reset_envelope; reply 250 "OK"
  else if cmd "NOOP" then reply 250 "OK"
  else if cmd "QUIT" then _ ← reply 221 "bye"; mret false
  else if is_empty command then reply 500 "syntax error"
  else reply 502 "command not implemented".

(** The loop of [handle_conn]. *)
Fixpoint conn_loop (fuel : nat) : S unit :=
  match fuel with
  | O => panic "out of fuel"
  | Datatypes.S fuel' =>
      line ← read_line_string;
      match line with
      | None => mret tt
      | Some line =>
          more ← handle_line line;
          if negb more then mret tt else conn_loop fuel'
      end
  end.

Definition session_loop : S unit :=
  fuel ← gets (fun s => Datatypes.S (read_size (reader s)));
  conn_loop fuel.

Definition handle_conn : S unit :=
  ok ← reply 220 "devcloud ESMTP ready";
  if negb ok then mret tt else session_loop.

End Session.
