(* ===== verification/MailProofs.v ===== *)
(** What the SMTP sessions of the mail service guarantee: every session ends and
    keeps its protocol invariant; a message is framed by CRLF.CRLF only; what a
    client sends dot-stuffed is what is stored; credentials are compared exactly. *)

From S2P Require Import Prelude RustStr RustNum RustText MailSmtp.
Local Open Scope Z_scope.

(** ** Reading *)

Section Reading.
Context `{MailEnv}.
Variable srv : SmtpServer.

(** Steps that only read, reply and note line ends. *)
Definition quiet (s s' : Session) : Prop :=
  exists r n o a b, s' = set_writer n o (set_crlf a b (set_reader r s))
    /\ (read_size r <= read_size (reader s))%nat.

Lemma quiet_refl s : quiet s s.
Proof. exists (reader s), (writes s), (output s), (crlf_seen s), (last_crlf s). by destruct s. Qed.
Lemma quiet_trans s1 s2 s3 : quiet s1 s2 -> quiet s2 s3 -> quiet s1 s3.
Proof.
  intros (r & n & o & a & b & -> & H1) (r' & n' & o' & a' & b' & -> & H2).
  eexists _, _, _, _, _. split; [reflexivity|]. simpl in H2. lia.
Qed.
Lemma quiet_writer n o s : quiet s (set_writer n o s).
Proof. exists (reader s), n, o, (crlf_seen s), (last_crlf s). by destruct s. Qed.
Lemma quiet_crlf a b s : quiet s (set_crlf a b s).
Proof. exists (reader s), (writes s), (output s), a, b. by destruct s. Qed.
Lemma quiet_reader r s : (read_size r <= read_size (reader s))%nat -> quiet s (set_reader r s).
Proof. exists r, (writes s), (output s), (crlf_seen s), (last_crlf s). by destruct s. Qed.

Lemma wp_reply code msg (Q : outcome bool -> Session -> Prop) s :
  (forall b n o, Q (Ok b) (set_writer n o s)) -> wp (reply code msg) Q s.
Proof.
  intros HQ. unfold reply. apply wp_bind. unfold wp, write_all, bind_post. cbn [fst snd].
  destruct (write_ok (writes s)); apply HQ.
Qed.

Lemma read_loop_size buf events b rest :
  read_loop srv buf events = Line b rest ->
  (read_size rest <= read_size events)%nat
  /\ (buf = EmptyString -> (read_size rest < read_size events)%nat).
Proof.
  revert buf. induction events as [|e events IH]; intros buf; cbn [read_loop].
  - destruct (is_empty buf) eqn:E; [done|]. intros [= _ <-]. split; [done|]. by intros ->.
  - destruct e as [a| |]; [| |done].
    + destruct (is_empty a).
      { destruct (is_empty buf) eqn:E; [done|]. intros [= _ <-]. cbn. split; [lia|]. by intros ->. }
      destruct (split_once (char_str lf) a) as [[x y]|] eqn:Es.
      * apply split_once_Some in Es as ->. destruct (_ && _); [done|]. intros [= _ <-].
        unfold read_size. destruct (is_empty y); cbn [sum_list_with event_size];
          rewrite !str_length_app; cbn [String.length char_str]; lia.
      * destruct (_ && _); [done|]. intros Hl. apply IH in Hl as [Hl _].
        unfold read_size in *. cbn [sum_list_with event_size]. lia.
    + destruct (idle_timeout (limits srv)); [done|]. intros Hl. apply IH in Hl as [Hl _].
      unfold read_size in *. cbn [sum_list_with event_size]. lia.
Qed.

Lemma read_loop_timeout_size buf events rest :
  read_loop srv buf events = IdleTimeout rest \/ read_loop srv buf events = TooLong rest ->
  (read_size rest <= read_size events)%nat.
Proof.
  revert buf. induction events as [|e events IH]; intros buf; cbn [read_loop].
  - destruct (is_empty buf); by intros [?|?].
  - assert (read_size events <= read_size (e :: events))%nat as Hle
      by (unfold read_size; destruct e; simpl; lia).
    destruct e as [a| |]; [| |by intros [?|?]].
    + destruct (is_empty a); [destruct (is_empty buf); by intros [?|?]|].
      destruct (split_once (char_str lf) a) as [[x y]|] eqn:Es.
      * destruct (_ && _); [intros [?|[= <-]]; done|by intros [?|?]].
      * destruct (_ && _); [intros [?|[= <-]]; done|]. intros Hl. apply IH in Hl. lia.
    + destruct (idle_timeout (limits srv)); [intros [[= <-]|?]; done|]. intros Hl. apply IH in Hl. lia.
Qed.

(** A line read leaves less to read; nothing else but reader and writer changes. *)
Lemma wp_read_line_raw (Q : outcome (option string) -> Session -> Prop) s :
  (forall buf rest, read_loop srv EmptyString (reader s) = Line buf rest ->
     (read_size rest < read_size (reader s))%nat -> Q (Ok (Some buf)) (set_reader rest s)) ->
  (forall s', quiet s s' -> Q (Ok None) s') ->
  wp (read_line_raw srv) Q s.
Proof.
  intros HS HN. unfold read_line_raw. apply wp_bind. unfold wp, get, bind_post. cbn [fst snd].
  destruct (read_loop srv EmptyString (reader s)) as [buf rest| |rest|rest] eqn:E.
  - apply wp_bind, wp_modify. apply wp_ret. apply HS; [done|]. by apply read_loop_size in E as [_ E]; apply E.
  - apply wp_ret, HN, quiet_refl.
  - apply wp_bind, wp_modify. apply wp_bind, wp_reply. intros b n o. apply wp_ret, HN.
    eapply quiet_trans; [apply quiet_reader|apply quiet_writer]. eapply read_loop_timeout_size; eauto.
  - apply wp_bind, wp_modify. apply wp_bind, wp_reply. intros b n o. apply wp_ret, HN.
    eapply quiet_trans; [apply quiet_reader|apply quiet_writer]. eapply read_loop_timeout_size; eauto.
Qed.

(** A line read as text: the session stays quiet, and a line leaves less to read. *)
Lemma wp_read_line_string (Q : outcome (option string) -> Session -> Prop) s :
  (forall line s', quiet s s' -> (read_size (reader s') < read_size (reader s))%nat -> Q (Ok (Some line)) s') ->
  (forall s', quiet s s' -> Q (Ok None) s') ->
  wp (read_line_string srv) Q s.
Proof.
  intros HS HN. unfold read_line_string, read_line_bytes. apply wp_bind, wp_bind, wp_read_line_raw.
  - intros buf rest _ Hlt. unfold bind_post. destruct (strip_line_end buf) as [line c].
    apply wp_bind, wp_modify. apply wp_ret. apply wp_ret. apply HS; [|done].
    eapply quiet_trans; [|apply quiet_crlf]. apply quiet_reader. lia.
  - intros s' Hq. apply wp_ret. apply wp_ret. by apply HN.
Qed.

(** ** DATA *)

(** Bytes that are whole CRLF-terminated lines. *)
Definition crlf_lines (raw : string) : Prop := raw = EmptyString \/ exists r, raw = r +:+ crlf.

Definition body_ok (raw : string) : Prop :=
  crlf_lines raw
  /\ (0 < max_message_bytes (config srv) -> str_len raw <= max_message_bytes (config srv)).

Lemma wp_data_loop fuel raw oversized (Q : outcome (option (string * bool)) -> Session -> Prop) s :
  (read_size (reader s) < fuel)%nat -> body_ok raw ->
  (forall raw' ov s', quiet s s' -> body_ok raw' -> Q (Ok (Some (raw', ov))) s') ->
  (forall s', quiet s s' -> Q (Ok None) s') ->
  wp (data_loop srv fuel raw oversized) Q s.
Proof.
  revert raw oversized s. induction fuel as [|fuel IH]; intros raw ov s Hf Hb HS HN; [lia|].
  cbn [data_loop]. apply wp_bind, wp_read_line_raw; [|intros s' Hq; by apply wp_ret, HN].
  intros buf rest _ Hlt. unfold bind_post. destruct (strip_line_end buf) as [line c].
  apply wp_bind, wp_gets. unfold bind_post. apply wp_bind, wp_modify. unfold bind_post.
  apply wp_bind, wp_gets. unfold bind_post.
  set (s1 := set_crlf _ _ _). assert (quiet s s1) as Hq1
    by (eapply quiet_trans; [|apply quiet_crlf]; apply quiet_reader; lia).
  destruct (_ && _); [apply wp_ret, HS; done|]. cbv zeta.
  assert (forall raw' ov', body_ok raw' -> wp (data_loop srv fuel raw' ov') Q s1) as Hgo.
  { intros raw' ov' Hb'. apply IH; [simpl; lia|done|..]; intros; [apply HS|apply HN]; try done;
      by eapply quiet_trans. }
  destruct ov; [by apply Hgo|].
  destruct (Z.ltb_spec 0 (max_message_bytes (config srv))); [destruct (Z.ltb_spec (max_message_bytes (config srv))
    (str_len raw + str_len (unstuff line) + 2))|]; simpl; apply Hgo; try done.
  all: split; [right; exists (raw +:+ unstuff line); by rewrite str_app_assoc|].
  all: intros ?; rewrite !str_len_app; change (str_len crlf) with 2; lia.
Qed.

End Reading.

(** ** The session invariant *)

Section Invariant.
Context `{MailEnv}.
Variable srv : SmtpServer.

Definition rcpts_ok (l : list string) : Prop :=
  0 < max_recipients (limits srv) -> Z.of_nat (length l) <= max_recipients (limits srv).

(** A stored message: it has recipients, within the limits, its body is CRLF lines
    within the size limit, and the HELO is recorded iff capture is on. *)
Record message_ok (m : Received) : Prop := mkMessageOk {
  mo_rcpts : to (r_envelope m) <> [];
  mo_limit : rcpts_ok (to (r_envelope m));
  mo_body : body_ok srv (r_raw m);
  mo_helo : is_Some (r_helo m) <-> envelope_capture srv = true }.

Record session_inv (s : Session) : Prop := mkInv {
  i_idle : has_mail_from s = false -> envelope s = default_envelope;
  i_greet : has_mail_from s = true -> greeted s = true;
  i_rcpts : rcpts_ok (to (envelope s));
  i_auth : authenticated s = true ->
             greeted s = true /\ auth_mode_normalized (config srv) <> SMTP_AUTH_OFF;
  i_stored : Forall message_ok (stored s) }.

(** A step of the session: it keeps the invariant, does not read anything twice and
    does not unstore a message. *)
Record step_ok (s s' : Session) : Prop := mkStepOk {
  st_inv : session_inv s -> session_inv s';
  st_size : (read_size (reader s') <= read_size (reader s))%nat;
  st_stored : exists l, stored s' = stored s ++ l }.

Lemma step_refl s : step_ok s s.
Proof. split; [done|done|]. exists []. by rewrite app_nil_r. Qed.
Lemma step_trans s1 s2 s3 : step_ok s1 s2 -> step_ok s2 s3 -> step_ok s1 s3.
Proof.
  intros [I1 S1 [l1 E1]] [I2 S2 [l2 E2]]. split; [auto|lia|]. exists (l1 ++ l2). by rewrite E2, E1, app_assoc.
Qed.
Lemma step_quiet s s' : quiet s s' -> step_ok s s'.
Proof.
  intros (r & n & o & a & b & -> & Hr). split; [|done|exists []; by rewrite app_nil_r].
  by intros [? ? ? ? ?].
Qed.
Lemma step_writer n o s : step_ok s (set_writer n o s).
Proof. apply step_quiet, quiet_writer. Qed.

(** The operation from [s0] answered, and made a step. *)
Definition post (s0 : Session) (o : outcome bool) (s' : Session) : Prop :=
  (exists b, o = Ok b) /\ step_ok s0 s'.

Lemma post_from s0 s m : step_ok s0 s -> wp m (post s) s -> wp m (post s0) s.
Proof.
  intros H1 Hm. eapply wp_mono; [exact Hm|]. intros o s' [Ho H2]. split; [done|].
  by eapply step_trans.
Qed.

Lemma reply_post s0 s code msg : step_ok s0 s -> wp (reply code msg) (post s0) s.
Proof.
  intros H1. apply wp_reply. intros b n o. split; [eauto|].
  eapply step_trans; [done|apply step_writer].
Qed.
Lemma ret_post s0 s b : step_ok s0 s -> wp (mret b) (post s0) s.
Proof. intros H1. apply wp_ret. split; eauto. Qed.

Lemma reset_step s : step_ok s (set_has_mail_from false (set_envelope default_envelope s)).
Proof.
  split; [|done|exists []; by rewrite app_nil_r]. intros [? ? ? ? ?]. split; simpl; try done.
  intros ?. simpl. lia.
Qed.
Lemma reset_post s0 s m :
  step_ok s0 s -> (forall s1, step_ok s0 s1 -> wp m (post s0) s1) ->
  wp (reset_envelope ≫= fun _ => m) (post s0) s.
Proof.
  intros H1 Hm. unfold reset_envelope. apply wp_bind, wp_modify. apply Hm.
  eapply step_trans; [done|apply reset_step].
Qed.

Lemma write_lines_post s0 lines s : step_ok s0 s -> wp (write_lines lines) (post s0) s.
Proof.
  revert s. induction lines as [|x lines IH]; intros s H1; cbn [write_lines]; [by apply ret_post|].
  apply wp_bind. unfold wp at 1, write_all, bind_post. cbn [fst snd].
  match goal with |- context [set_writer ?n ?o s] => set (s1 := set_writer n o s) end.
  assert (step_ok s0 s1) by (eapply step_trans; [done|apply step_writer]).
  destruct (write_ok (writes s)); simpl; [by apply IH|by apply ret_post].
Qed.

Lemma ehlo_post s0 s : step_ok s0 s -> wp (reply_ehlo srv) (post s0) s.
Proof.
  intros H1. unfold reply_ehlo. cbv zeta. apply wp_bind.
  eapply wp_mono; [by apply write_lines_post|]. intros o s' [[b ->] H2]. simpl.
  destruct b; simpl; [|by apply ret_post]. unfold wp, flush. cbn [fst snd].
  split; [eauto|]. eapply step_trans; [done|apply step_writer].
Qed.

Lemma helo_post s command arg : wp (handle_helo srv command arg) (post s) s.
Proof.
  unfold handle_helo. destruct (is_empty (trim arg)); [apply reply_post, step_refl|].
  apply wp_bind, wp_modify. unfold bind_post, reset_envelope. apply wp_bind, wp_modify. unfold bind_post.
  match goal with |- wp _ _ ?x => assert (step_ok s x) as Hs end.
  { split; [|done|exists []; by rewrite app_nil_r]. intros [? ? ? Ha ?]. split; simpl; try done.
    - intros ?. simpl. lia.
    - intros Hau. split; [done|]. by apply Ha. }
  destruct (str_eqb command "EHLO"); [by apply ehlo_post|by apply reply_post].
Qed.

Lemma mail_post s arg : wp (handle_mail srv arg) (post s) s.
Proof.
  unfold handle_mail. apply wp_bind. unfold wp at 1, get, bind_post. cbn [fst snd].
  destruct (greeted s) eqn:Eg; simpl; [|apply reply_post, step_refl].
  destruct (parse_mail_from_arg arg) as [[[from size] has]|]; [|apply reply_post, step_refl].
  destruct (has && _ && _).
  - apply reset_post; [apply step_refl|]. intros. by apply reply_post.
  - apply wp_bind, wp_modify. apply reply_post.
    split; [|done|exists []; by rewrite app_nil_r]. intros [? ? ? ? ?]. split; simpl; try done.
    intros ?. simpl. lia.
Qed.

Lemma rcpt_post s arg : wp (handle_rcpt srv arg) (post s) s.
Proof.
  unfold handle_rcpt. apply wp_bind. unfold wp at 1, get, bind_post. cbn [fst snd].
  destruct (has_mail_from s) eqn:Em; simpl; [|apply reply_post, step_refl].
  destruct (parse_address_arg arg "TO:") as [address|]; [|apply reply_post, step_refl].
  destruct (_ && _) eqn:El; [apply reply_post, step_refl|].
  apply wp_bind, wp_modify. apply reply_post.
  split; [|done|exists []; by rewrite app_nil_r]. intros [? ? Hr ? ?]. split; simpl; try done.
  - by rewrite Em.
  - intros Hmax. specialize (Hr Hmax). simpl in Hr |- *. rewrite length_app. simpl. lia.
Qed.

Lemma complete_auth_post s user pass :
  greeted s = true -> auth_mode_normalized (config srv) <> SMTP_AUTH_OFF ->
  wp (complete_auth srv user pass) (post s) s.
Proof.
  intros Hg Hm. unfold complete_auth. destruct (_ && _); [apply reply_post, step_refl|].
  apply wp_bind, wp_modify. apply reply_post.
  split; [|done|exists []; by rewrite app_nil_r]. by intros [? ? ? ? ?].
Qed.

(** Asking for a response, whatever the operation made of it. *)
Lemma wp_challenge initial prompt (Q : outcome (option string) -> Session -> Prop) s :
  (forall o s', quiet s s' -> Q (Ok o) s') -> wp (challenge srv initial prompt) Q s.
Proof.
  intros HQ. unfold challenge. destruct (is_empty initial); [|apply wp_ret, HQ, quiet_refl].
  apply wp_bind, wp_reply. intros b n o. unfold bind_post.
  destruct b; simpl; [|apply wp_ret, HQ, quiet_writer].
  apply wp_read_line_string; intros; apply HQ; (eapply quiet_trans; [apply quiet_writer|done]).
Qed.

Lemma quiet_greeted s s' : quiet s s' -> greeted s' = greeted s.
Proof. by intros (r & n & o & a & b & -> & _). Qed.

Lemma plain_post s initial :
  greeted s = true -> auth_mode_normalized (config srv) <> SMTP_AUTH_OFF ->
  wp (handle_auth_plain srv initial) (post s) s.
Proof.
  intros Hg Hm. unfold handle_auth_plain. apply wp_bind, wp_challenge. intros o s' Hq.
  pose proof (step_quiet _ _ Hq). unfold bind_post.
  destruct o as [enc|]; [|by apply ret_post]. destruct (str_eqb enc "*"); [by apply reply_post|].
  destruct (base64_decode enc) as [d|]; [|by apply reply_post].
  destruct (split_plain _) as [[[? user] pass]|]; [|by apply reply_post].
  eapply post_from; [done|]. apply complete_auth_post; [|done]. by rewrite (quiet_greeted s).
Qed.

Lemma wp_login_field initial prompt (Q : outcome (option string) -> Session -> Prop) s :
  (forall o s', quiet s s' -> Q (Ok o) s') -> wp (read_auth_login_field srv initial prompt) Q s.
Proof.
  intros HQ. unfold read_auth_login_field. apply wp_bind, wp_challenge. intros o s' Hq. unfold bind_post.
  assert (forall n w, quiet s (set_writer n w s')) as Hw
    by (intros n w; eapply quiet_trans; [done|apply quiet_writer]).
  destruct o as [enc|]; [|by apply wp_ret, HQ].
  destruct (str_eqb enc "*"); [apply wp_bind, wp_reply; intros; by apply wp_ret, HQ|].
  destruct (base64_decode enc); [by apply wp_ret, HQ|apply wp_bind, wp_reply; intros; by apply wp_ret, HQ].
Qed.

Lemma login_post s initial :
  greeted s = true -> auth_mode_normalized (config srv) <> SMTP_AUTH_OFF ->
  wp (handle_auth_login srv initial) (post s) s.
Proof.
  intros Hg Hm. unfold handle_auth_login. apply wp_bind, wp_login_field. intros o s' Hq. unfold bind_post.
  destruct o as [user|]; [|by apply ret_post, step_quiet].
  apply wp_bind, wp_login_field. intros o s2 Hq2. unfold bind_post.
  pose proof (quiet_trans _ _ _ Hq Hq2) as Hq3. pose proof (step_quiet _ _ Hq3).
  destruct o as [pass|]; [|by apply ret_post].
  eapply post_from; [done|]. apply complete_auth_post; [|done]. by rewrite (quiet_greeted s).
Qed.

Lemma data_post s :
  has_mail_from s = true -> to (envelope s) <> [] -> wp (handle_data srv) (post s) s.
Proof.
  intros Hm Ht. unfold handle_data. apply wp_bind, wp_reply. intros b n o. unfold bind_post.
  pose proof (quiet_writer n o s) as Hq0. set (s0 := set_writer n o s) in *.
  destruct b; simpl; [|by apply ret_post, step_quiet].
  apply wp_bind, wp_gets. unfold bind_post. apply wp_bind, wp_data_loop; [lia| | |].
  - split; [by left|]. intros ?. change (str_len "") with 0. lia.
  - intros raw ov s1 Hq Hb. unfold bind_post. pose proof (quiet_trans _ _ _ Hq0 Hq) as Hq1.
    pose proof (step_quiet _ _ Hq1) as H1. destruct ov; [apply reset_post; [done|intros; by apply reply_post]|].
    apply wp_bind. unfold wp at 1, receive, bind_post. cbn [fst snd].
    set (m := mkReceived _ _ _). destruct (store_ok _ m).
    + apply reset_post; [|intros; by apply reply_post].
      eapply step_trans; [exact H1|]. split; [|done|by exists [m]].
      intros [? ? Hr ? Hst]. split; try done. simpl. apply Forall_app. split; [done|].
      apply Forall_singleton. destruct Hq1 as (r & n' & o' & a & c & -> & _). split; simpl; [done|done|done|].
      destruct (envelope_capture srv); split; first [done|by eexists|by intros [? ?]].
    + apply reset_post; [done|intros; by apply reply_post].
  - intros s1 Hq. unfold bind_post. apply ret_post, step_quiet. exact (quiet_trans _ _ _ Hq0 Hq).
Qed.

Lemma handle_line_post s line : wp (handle_line srv line) (post s) s.
Proof.
  unfold handle_line. destruct (split_smtp_command line) as [command arg]. cbv zeta.
  apply wp_bind. unfold wp at 1, get, bind_post. cbn [fst snd].
  pose proof (step_refl s).
  destruct (_ || _); [apply helo_post|].
  destruct (str_eqb command "MAIL"); [apply mail_post|].
  destruct (str_eqb command "RCPT"); [apply rcpt_post|].
  destruct (str_eqb command "DATA").
  { destruct (has_mail_from s) eqn:Em; simpl; [|by apply reply_post].
    destruct (to (envelope s)) as [|x l] eqn:Et; [by apply reply_post|].
    destruct (is_empty (trim arg)); simpl; [|by apply reply_post].
    apply data_post; [done|by rewrite Et]. }
  destruct (str_eqb command "AUTH").
  { destruct (greeted s) eqn:Eg; simpl; [|by apply reply_post].
    destruct (str_eqb (auth_mode_normalized (config srv)) SMTP_AUTH_OFF) eqn:Em; [by apply reply_post|].
    destruct (_ || _); [by apply reply_post|]. unfold handle_auth.
    destruct (split_auth_arg arg) as [mech initial]. cbv zeta.
    assert (auth_mode_normalized (config srv) <> SMTP_AUTH_OFF) as Hm
      by (intros E; apply str_eqb_true in E; by rewrite E in Em).
    destruct (str_eqb _ "PLAIN"); [by apply plain_post|]. destruct (str_eqb _ "LOGIN"); [by apply login_post|].
    destruct (is_empty _); by apply reply_post. }
  destruct (str_eqb command "RSET").
  { destruct (is_empty (trim arg)); simpl; [|by apply reply_post].
    apply reset_post; [done|]. intros. by apply reply_post. }
  destruct (str_eqb command "NOOP"); [by apply reply_post|].
  destruct (str_eqb command "QUIT").
  { apply wp_bind, wp_reply. intros. unfold bind_post. apply ret_post, step_writer. }
  destruct (is_empty command); by apply reply_post.
Qed.

Lemma conn_loop_ends fuel s :
  (read_size (reader s) < fuel)%nat ->
  wp (conn_loop srv fuel) (fun o s' => o = Ok tt /\ step_ok s s') s.
Proof.
  revert s. induction fuel as [|fuel IH]; intros s Hf; [lia|]. cbn [conn_loop].
  apply wp_bind, wp_read_line_string; unfold bind_post.
  - intros line s1 Hq Hlt. apply wp_bind. eapply wp_mono; [apply handle_line_post|].
    intros o s2 [[b ->] H2]. simpl. pose proof (step_trans _ _ _ (step_quiet _ _ Hq) H2) as H12.
    destruct b; simpl; [|by apply wp_ret]. eapply wp_mono; [apply IH|].
    + pose proof (st_size _ _ H2). lia.
    + intros o s3 [-> H3]. split; [done|]. by eapply step_trans.
  - intros s1 Hq. apply wp_ret. split; [done|]. by apply step_quiet.
Qed.

Lemma new_session_inv input : session_inv (new_session input).
Proof. split; simpl; try done. intros ?. simpl. lia. Qed.

End Invariant.

(** C31: every session is safe and ends: whatever bytes a client sends, in whatever
    pieces, with any deadline or error in between, whichever writes fail and whichever
    messages the store refuses, [handle_conn] returns; commands are honoured in order
    only (recipients need MAIL, MAIL needs a greeting, AUTH is offered and comes after
    one); and every message handed to the store has recipients within the limit and a
    body of complete CRLF lines within the size limit. *)
Theorem session_safe `{MailEnv} srv input :
  exists s', handle_conn srv (new_session input) = (Ok tt, s') /\ session_inv srv s'.
Proof.
  assert (wp (handle_conn srv) (fun o s' => o = Ok tt /\ session_inv srv s') (new_session input)) as Hwp.
  { pose proof (new_session_inv srv input) as Hi. unfold handle_conn. apply wp_bind, wp_reply.
    intros b n o. unfold bind_post. pose proof (step_writer srv n o (new_session input)) as H0.
    destruct b; simpl; [|apply wp_ret; split; [done|by apply H0]].
    unfold session_loop. apply wp_bind, wp_gets. unfold bind_post.
    eapply wp_mono; [apply conn_loop_ends; lia|]. intros o' s' [-> H1]. split; [done|].
    apply (st_inv _ _ _ H1), (st_inv _ _ _ H0), Hi. }
  unfold wp in Hwp. destruct (handle_conn srv (new_session input)) as [o s']. destruct Hwp as [Ho Hi].
  simpl in *. subst o. by exists s'.
Qed.

(** ** Lines, however the network cuts them *)

(** The reader yields exactly these bytes, in non-empty pieces. *)
Inductive delivers : list read_event -> string -> Prop :=
| delivers_end : delivers [] EmptyString
| delivers_piece b es d : b <> EmptyString -> delivers es d -> delivers (Bytes b :: es) (b +:+ d).

Abbreviation no_lf s := (str_all (negb ∘ Ascii.eqb lf) s = true).

Section Lines.
Context `{MailEnv}.
Variable srv : SmtpServer.

Definition fits (n : Z) : Prop := max_line_bytes (limits srv) <= 0 \/ n <= max_line_bytes (limits srv).

Lemma fits_le n m : fits n -> m <= n -> fits m.
Proof. unfold fits. lia. Qed.
Lemma fits_check n : fits n -> (0 <? max_line_bytes (limits srv)) && (max_line_bytes (limits srv) <? n) = false.
Proof. unfold fits. lia. Qed.

Lemma no_lf_app s t : no_lf (s +:+ t) <-> no_lf s /\ no_lf t.
Proof. by rewrite str_all_app, andb_true_iff. Qed.

(** The first line feed of [b ++ d], inside [b] or after it. *)
Lemma first_lf b d line rest :
  b +:+ d = line +:+ char_str lf +:+ rest -> no_lf line ->
  (exists b2, b = line +:+ char_str lf +:+ b2 /\ rest = b2 +:+ d)
  \/ (exists l2, line = b +:+ l2 /\ d = l2 +:+ char_str lf +:+ rest).
Proof.
  revert b. induction line as [|c line IH]; intros b E Hn.
  - rewrite str_app_nil_l in E. destruct b as [|x b].
    + right. exists EmptyString. by rewrite !str_app_nil_l in *.
    + left. rewrite str_app_cons in E. change (char_str lf +:+ rest) with (String lf rest) in E.
      injection E as -> <-. by exists b.
  - cbn [str_all] in Hn. apply andb_true_iff in Hn as [Hc Hn]. destruct b as [|x b].
    + right. exists (String c line). rewrite str_app_nil_l in *. done.
    + rewrite !str_app_cons in E. injection E as -> E. destruct (IH b E Hn) as [(b2 & -> & ->)|(l2 & -> & ->)].
      * left. exists b2. by rewrite str_app_cons.
      * right. exists l2. by rewrite str_app_cons.
Qed.

Lemma split_once_lf line rest :
  no_lf line -> split_once (char_str lf) (line +:+ char_str lf +:+ rest) = Some (line, rest).
Proof. apply split_once_char. Qed.
Lemma no_lf_split s : no_lf s -> split_once (char_str lf) s = None.
Proof. apply split_once_char_None. Qed.

Lemma read_loop_line buf es data line rest :
  delivers es data -> data = line +:+ char_str lf +:+ rest -> no_lf line ->
  fits (str_len buf + str_len line + 1) ->
  exists es', read_loop srv buf es = Line (buf +:+ line +:+ char_str lf) es' /\ delivers es' rest.
Proof.
  intros Hd. revert buf line. induction Hd as [|b es d Hb Hd IH]; intros buf line E Hn Hf.
  { destruct line; by rewrite ?str_app_nil_l in E. }
  cbn [read_loop]. assert (is_empty b = false) as -> by (by destruct b).
  destruct (first_lf b d line rest E Hn) as [(b2 & -> & ->)|(l2 & -> & ->)].
  - rewrite split_once_lf by done. rewrite fits_check.
    + eexists. split; [done|]. destruct b2 as [|x b2]; cbn [is_empty]; [by rewrite str_app_nil_l|].
      by constructor.
    + eapply fits_le; [exact Hf|]. rewrite str_len_app. change (str_len (char_str lf)) with 1. lia.
  - apply no_lf_app in Hn as [Hnb Hn]. rewrite no_lf_split by done. rewrite str_len_app in Hf.
    rewrite fits_check by (eapply fits_le; [exact Hf|]; pose proof (str_len_nonneg l2); lia).
    destruct (IH (buf +:+ b) l2) as (es' & -> & Hd'); [done|done| |].
    { rewrite str_len_app. eapply fits_le; [exact Hf|]. lia. }
    exists es'. by rewrite !str_app_assoc.
Qed.

Lemma read_loop_partial buf es data :
  delivers es data -> no_lf data -> fits (str_len buf + str_len data) ->
  read_loop srv buf es = if is_empty (buf +:+ data) then Closed else Line (buf +:+ data) [].
Proof.
  intros Hd. revert buf. induction Hd as [|b es d Hb Hd IH]; intros buf Hn Hf; cbn [read_loop].
  { by rewrite str_app_nil_r. }
  apply no_lf_app in Hn as [Hnb Hn]. rewrite str_len_app in Hf.
  assert (is_empty b = false) as -> by (by destruct b). rewrite no_lf_split by done.
  rewrite fits_check by (eapply fits_le; [exact Hf|]; pose proof (str_len_nonneg d); lia).
  rewrite IH; [by rewrite str_app_assoc|done|]. rewrite str_len_app. eapply fits_le; [exact Hf|]. lia.
Qed.

(** ** Line ends *)

Fixpoint ends_cr (s : string) : bool :=
  match s with
  | EmptyString => false
  | String c EmptyString => Ascii.eqb cr c
  | String _ r => ends_cr r
  end.

Lemma ends_cr_app l : ends_cr (l +:+ char_str cr) = true.
Proof.
  induction l as [|c l IH]; [done|]. rewrite str_app_cons. cbn [ends_cr].
  destruct (l +:+ char_str cr) eqn:E; [|done]. by destruct l.
Qed.

Lemma ends_cr_split s : ends_cr s = true -> exists l, s = l +:+ char_str cr.
Proof.
  induction s as [|c s IH]; [done|]. cbn [ends_cr]. destruct s as [|d s].
  - intros <-%Ascii.eqb_eq. by exists EmptyString.
  - intros Hs. destruct (IH Hs) as [l ->]. exists (String c l). by rewrite str_app_cons.
Qed.

Lemma strip_line_end_crlf l : strip_line_end (l +:+ char_str cr +:+ char_str lf) = (l, true).
Proof.
  unfold strip_line_end. rewrite <- str_app_assoc, strip_suffix_app. by rewrite strip_suffix_app.
Qed.

Lemma strip_line_end_lf s : ends_cr s = false -> strip_line_end (s +:+ char_str lf) = (s, false).
Proof.
  intros Hs. unfold strip_line_end. rewrite strip_suffix_app.
  destruct (strip_suffix (char_str cr) s) as [l|] eqn:E; [|done].
  apply strip_suffix_Some in E as ->. by rewrite ends_cr_app in Hs.
Qed.

Lemma strip_line_end_partial s : s <> EmptyString -> no_lf s -> strip_line_end s = (s, false).
Proof.
  intros _ Hn. unfold strip_line_end. destruct (strip_suffix (char_str lf) s) as [l|] eqn:E; [|done].
  apply strip_suffix_Some in E as ->. apply no_lf_app in Hn as [_ Hn]. by vm_compute in Hn.
Qed.

End Lines.

(** ** Where a message ends *)

(** The end-of-message mark of a CRLF client, the line break before it included. *)
Definition mark : string := crlf +:+ "." +:+ crlf.

(** What follows the first mark. *)
Definition message_end (s : string) : option string := snd <$> split_once mark s.

(** The line break that precedes the next line, when it is CRLF. *)
Definition pre (after_crlf : bool) : string := if after_crlf then crlf else EmptyString.

Section MessageEnd.

Lemma message_end_skip c s :
  strip_prefix mark (String c s) = None -> message_end (String c s) = message_end s.
Proof.
  intros Hp. unfold message_end. cbn [split_once]. rewrite Hp. by destruct (split_once mark s) as [[??]|].
Qed.

Lemma message_end_here s : message_end (mark +:+ s) = Some s.
Proof.
  unfold message_end, mark, crlf, cr, lf. rewrite !str_app_cons, !str_app_nil_l. reflexivity.
Qed.

(** The mark starts with CR LF. *)
Lemma not_mark_cr c s : c <> cr -> strip_prefix mark (String c s) = None.
Proof.
  intros Hc. unfold mark, crlf. rewrite !str_app_cons. cbn [strip_prefix].
  destruct (Ascii.eqb_spec cr c); congruence.
Qed.
Lemma not_mark_lf c d s : d <> lf -> strip_prefix mark (String c (String d s)) = None.
Proof.
  intros Hd. unfold mark, crlf. rewrite !str_app_cons, str_app_nil_l. cbn [strip_prefix].
  destruct (Ascii.eqb cr c); [|done]. destruct (Ascii.eqb_spec lf d); congruence.
Qed.

Lemma no_lf_cons c s : no_lf (String c s) <-> c <> lf /\ no_lf s.
Proof.
  cbn [str_all]. rewrite andb_true_iff. split.
  - intros [Hc Hs]. apply negb_true_iff, Ascii.eqb_neq in Hc. done.
  - intros [Hc Hs]. split; [|done]. apply negb_true_iff, Ascii.eqb_neq. congruence.
Qed.

(** No mark starts inside a line, up to its line break. *)
Lemma message_end_line line rest :
  no_lf line ->
  message_end (line +:+ char_str lf +:+ rest) = message_end (pre (ends_cr line) +:+ rest).
Proof.
  change (char_str lf +:+ rest) with (String lf rest). induction line as [|c line IH]; intros Hn.
  - rewrite !str_app_nil_l. apply message_end_skip, not_mark_cr. discriminate.
  - apply no_lf_cons in Hn as [Hc Hn]. rewrite str_app_cons. destruct line as [|d line].
    + cbn [ends_cr]. rewrite str_app_nil_l. destruct (Ascii.eqb_spec cr c) as [<-|Hcr].
      * reflexivity.
      * rewrite message_end_skip by (by apply not_mark_cr; congruence).
        rewrite message_end_skip by (by apply not_mark_cr; discriminate). done.
    + rewrite message_end_skip, IH; [done|done|]. rewrite str_app_cons. apply not_mark_lf.
      by apply no_lf_cons in Hn as [? _].
Qed.

Lemma message_end_partial s : no_lf s -> message_end s = None.
Proof.
  induction s as [|c s IH]; intros Hn; [done|]. apply no_lf_cons in Hn as [_ Hn].
  rewrite message_end_skip; [by apply IH|]. destruct s as [|d s].
  - unfold mark, crlf. rewrite !str_app_cons. cbn [strip_prefix]. by destruct (Ascii.eqb cr c).
  - apply not_mark_lf. by apply no_lf_cons in Hn as [? _].
Qed.

(** A line that is not the end of the message does not hold the mark. *)
Lemma message_end_next after_crlf line rest :
  no_lf line -> ~ (after_crlf = true /\ line = "." +:+ char_str cr) ->
  message_end (pre after_crlf +:+ line +:+ char_str lf +:+ rest)
  = message_end (pre (ends_cr line) +:+ rest).
Proof.
  intros Hn Hx. rewrite <- (message_end_line line rest Hn). destruct after_crlf; [|done].
  cbn [pre]. unfold crlf at 1. rewrite !str_app_cons, str_app_nil_l.
  rewrite message_end_skip; [rewrite message_end_skip; [done|apply not_mark_cr; discriminate]|].
  destruct (strip_prefix mark _) as [r|] eqn:E; [|done]. exfalso. apply strip_prefix_Some in E.
  unfold mark, crlf in E. rewrite !str_app_cons, !str_app_nil_l in E. injection E as E. apply Hx.
  split; [done|]. change (char_str lf +:+ rest) with (String lf rest) in E.
  destruct line as [|x [|y [|z line]]]; rewrite ?str_app_cons, ?str_app_nil_l in E.
  - injection E as E. discriminate.
  - injection E as -> E. discriminate.
  - injection E as -> -> E. done.
  - injection E as _ _ -> E. rewrite !no_lf_cons in Hn. by destruct Hn as (_ & _ & ? & _).
Qed.

Lemma message_end_dot rest : message_end (pre true +:+ ("." +:+ char_str cr) +:+ char_str lf +:+ rest) = Some rest.
Proof. rewrite <- message_end_here. f_equal. Qed.

Lemma message_end_tail after_crlf s : no_lf s -> message_end (pre after_crlf +:+ s) = None.
Proof.
  intros Hn. destruct after_crlf; [|by apply message_end_partial].
  cbn [pre]. unfold crlf. rewrite !str_app_cons, str_app_nil_l.
  rewrite message_end_skip; [rewrite message_end_skip; [by apply message_end_partial|apply not_mark_cr; discriminate]|].
  destruct (strip_prefix mark _) as [r|] eqn:E; [|done]. exfalso. apply strip_prefix_Some in E.
  unfold mark, crlf in E. rewrite !str_app_cons, !str_app_nil_l in E. injection E as E.
  destruct s as [|x [|y [|z s]]]; try done; injection E as _ _ -> E. rewrite !no_lf_cons in Hn. by destruct Hn as (_ & _ & ? & _).
Qed.

(** What a line, read with its line end, does to the search for the mark. *)
Lemma message_end_read after_crlf line l c rest :
  no_lf line -> strip_line_end (line +:+ char_str lf) = (l, c) ->
  message_end (pre after_crlf +:+ line +:+ char_str lf +:+ rest)
  = if str_eqb l "." && (c && after_crlf) then Some rest else message_end (pre c +:+ rest).
Proof.
  intros Hn Hs. destruct (ends_cr line) eqn:Ec.
  - destruct (ends_cr_split line Ec) as [l' ->]. rewrite str_app_assoc, strip_line_end_crlf in Hs.
    injection Hs as <- <-. destruct (str_eqb l' ".") eqn:El; [destruct after_crlf|]; simpl andb.
    + apply str_eqb_true in El as ->. apply message_end_dot.
    + rewrite message_end_next, Ec; [done|done|]. by intros [? _].
    + rewrite message_end_next, Ec; [done|done|]. intros [_ E].
      assert (Some l' = Some ".") as [= ->]; [|done].
      by rewrite <- (strip_suffix_app (char_str cr) l'), <- (strip_suffix_app (char_str cr) "."), E.
  - rewrite (strip_line_end_lf _ Ec) in Hs. injection Hs as <- <-. rewrite andb_false_l, andb_false_r.
    rewrite message_end_next, Ec; [done|done|]. intros [_ ->]. done.
Qed.

(** A byte string is one unfinished line, or a first line and the rest. *)
Lemma line_cases s :
  no_lf s \/ exists line rest, s = line +:+ char_str lf +:+ rest /\ no_lf line.
Proof.
  induction s as [|c s IH]; [by left|]. destruct (Ascii.eqb_spec lf c) as [<-|Hc].
  - right. exists EmptyString, s. done.
  - destruct IH as [IH|(line & rest & -> & Hn)].
    + left. apply no_lf_cons. split; congruence.
    + right. exists (String c line), rest. rewrite str_app_cons. split; [done|].
      apply no_lf_cons. split; congruence.
Qed.

End MessageEnd.

Section Data.
Context `{MailEnv}.
Variable srv : SmtpServer.

(** What the loop does with a line. *)
Definition next_body (raw : string) (oversized : bool) (line : string) : string * bool :=
  if oversized then (raw, true)
  else if (0 <? max_message_bytes (config srv))
          && (max_message_bytes (config srv) <? str_len raw + str_len (unstuff line) + 2)
  then (raw, true)
  else (raw +:+ unstuff line +:+ crlf, false).

Lemma data_loop_line fuel raw ov s buf es line c :
  read_loop srv EmptyString (reader s) = Line buf es -> strip_line_end buf = (line, c) ->
  let s1 := set_crlf (crlf_seen s || c) c (set_reader es s) in
  data_loop srv (S fuel) raw ov s
  = if str_eqb line "." && is_terminator (crlf_seen s || c) c (last_crlf s)
    then (Ok (Some (raw, ov)), s1)
    else data_loop srv fuel (next_body raw ov line).1 (next_body raw ov line).2 s1.
Proof.
  intros Hr Hs s1. cbn [data_loop]. unfold read_line_raw, get, gets, modify, mbind, m_bind, mret, m_ret.
  rewrite Hr, Hs. cbn [reader set_reader last_crlf crlf_seen set_crlf]. fold s1.
  destruct (str_eqb line "." && _); [done|]. unfold next_body. destruct ov; [done|].
  by destruct (_ && _).
Qed.

Lemma data_loop_end fuel raw ov s :
  read_loop srv EmptyString (reader s) = Closed -> data_loop srv (S fuel) raw ov s = (Ok None, s).
Proof.
  intros Hr. cbn [data_loop]. unfold read_line_raw, get, mbind, m_bind, mret, m_ret. by rewrite Hr.
Qed.

Lemma read_size_delivers es d : delivers es d -> (String.length d <= read_size es)%nat.
Proof.
  induction 1 as [|b es d Hb Hd IH]; [done|]. rewrite str_length_app. unfold read_size in *.
  cbn [sum_list_with event_size]. lia.
Qed.

Lemma data_loop_mark fuel raw ov s stream :
  delivers (reader s) stream -> fits srv (str_len stream) -> crlf_seen s = true ->
  (String.length stream < fuel)%nat ->
  match message_end (pre (last_crlf s) +:+ stream) with
  | Some rest =>
      exists raw' ov' s', data_loop srv fuel raw ov s = (Ok (Some (raw', ov')), s')
        /\ delivers (reader s') rest
  | None => exists s', data_loop srv fuel raw ov s = (Ok None, s')
  end.
Proof.
  revert raw ov s stream. induction fuel as [|fuel IH]; intros raw ov s stream Hd Hf Hseen Hlen; [lia|].
  destruct (line_cases stream) as [Hn|(line & rest & -> & Hn)].
  - rewrite message_end_tail by done.
    pose proof (read_loop_partial srv EmptyString (reader s) stream Hd Hn) as Hp.
    rewrite str_app_nil_l in Hp. specialize (Hp Hf). destruct stream as [|c stream].
    { exists s. by apply data_loop_end. }
    cbn [is_empty] in Hp. erewrite data_loop_line; [|exact Hp|by apply strip_line_end_partial].
    rewrite Hseen. simpl orb. unfold is_terminator. rewrite andb_false_l, andb_false_r.
    destruct fuel as [|fuel]; [simpl in Hlen; lia|]. eexists. apply data_loop_end. done.
  - destruct (read_loop_line srv EmptyString (reader s) _ line rest Hd eq_refl Hn) as (es & Hr & Hd').
    { eapply fits_le; [exact Hf|]. rewrite !str_len_app. change (str_len EmptyString) with 0.
      change (str_len (char_str lf)) with 1. pose proof (str_len_nonneg rest). lia. }
    rewrite str_app_nil_l in Hr.
    destruct (strip_line_end (line +:+ char_str lf)) as [l c] eqn:Hs.
    rewrite (message_end_read _ line l c rest Hn Hs), (data_loop_line fuel raw ov s _ es l c Hr Hs), Hseen.
    rewrite !str_length_app in Hlen. change (String.length (char_str lf)) with 1%nat in Hlen.
    cbn [orb is_terminator]. destruct (str_eqb l "." && _); [by eexists _, _, _|].
    eapply (IH _ _ (set_crlf true c (set_reader es s)) rest); [done| |done|lia].
    eapply fits_le; [exact Hf|]. rewrite !str_len_app. pose proof (str_len_nonneg line).
    pose proof (str_len_nonneg (char_str lf)). lia.
Qed.

(** ** What a client sends is what is stored *)

(** A line as RFC 5321 sends it: a leading dot is doubled. *)
Definition stuff (line : string) : string := if starts_with "." line then String "." line else line.
Definition sent_line (line : string) : string := stuff line +:+ crlf.
Definition sent (lines : list string) : string := str_concat (map sent_line lines).
Definition body (lines : list string) : string := str_concat (map (fun l => l +:+ crlf) lines).

Lemma starts_with_cons a p c s :
  starts_with (String a p) (String c s) = Ascii.eqb a c && starts_with p s.
Proof.
  unfold starts_with. cbn [strip_prefix]. destruct (Ascii.eqb a c); [done|].
  apply bool_decide_eq_false_2. by intros [? ?].
Qed.
Lemma starts_with_nil s : starts_with "" s = true.
Proof. apply bool_decide_eq_true_2. by eexists. Qed.

Lemma str_drop_1 c s : str_drop 1 (String c s) = s.
Proof.
  unfold str_drop. change (Z.to_nat 1) with 1%nat. cbn [String.length Nat.sub String.substring].
  rewrite Nat.sub_0_r. apply substring_full.
Qed.

Lemma unstuff_stuff line : unstuff (stuff line) = line.
Proof.
  destruct line as [|c line]; [done|]. unfold stuff, unstuff.
  destruct (starts_with "." (String c line)) eqn:E.
  - rewrite starts_with_cons, Ascii.eqb_refl, E. apply str_drop_1.
  - rewrite starts_with_cons in E |- *. rewrite starts_with_nil, andb_true_r in E. by rewrite E.
Qed.

Lemma stuff_not_dot line : str_eqb (stuff line) "." = false.
Proof.
  apply not_true_is_false. intros E%str_eqb_true. unfold stuff in E.
  destruct (starts_with "." line) eqn:Es; [injection E as ->|subst line]; vm_compute in Es; done.
Qed.

Lemma stuff_no_lf line : no_lf line -> no_lf (stuff line).
Proof. intros Hn. unfold stuff. destruct (starts_with "." line); [|done]. apply no_lf_cons. done. Qed.

Lemma sent_line_lf line rest :
  sent_line line +:+ rest = (stuff line +:+ char_str cr) +:+ char_str lf +:+ rest.
Proof. unfold sent_line. by rewrite !str_app_assoc. Qed.

Definition size_ok (n : Z) : Prop :=
  max_message_bytes (config srv) <= 0 \/ n <= max_message_bytes (config srv).

(** Reading one CRLF line of the message. *)
Lemma read_sent s l rest :
  delivers (reader s) (l +:+ crlf +:+ rest) -> no_lf l -> fits srv (str_len l + 2) ->
  exists es, read_loop srv EmptyString (reader s) = Line (l +:+ crlf) es /\ delivers es rest.
Proof.
  intros Hd Hn Hf.
  destruct (read_loop_line srv EmptyString (reader s) _ (l +:+ char_str cr) rest Hd) as (es & Hr & Hd').
  - change crlf with (char_str cr +:+ char_str lf). by rewrite !str_app_assoc.
  - apply no_lf_app. done.
  - rewrite str_len_app. change (str_len EmptyString) with 0. change (str_len (char_str cr)) with 1.
    eapply fits_le; [exact Hf|]. lia.
  - exists es. split; [|done]. rewrite Hr, str_app_nil_l, str_app_assoc. done.
Qed.

Lemma data_loop_sent lines raw s rest fuel :
  delivers (reader s) (sent lines +:+ "." +:+ crlf +:+ rest) ->
  Forall (fun l => no_lf l /\ fits srv (str_len (stuff l) + 2)) lines -> fits srv 3 ->
  last_crlf s = true -> size_ok (str_len raw + str_len (body lines)) -> (length lines < fuel)%nat ->
  exists s', data_loop srv fuel raw false s = (Ok (Some (raw +:+ body lines, false)), s')
    /\ delivers (reader s') rest /\ quiet s s'.
Proof.
  intros Hd Hl Hf3. revert raw s fuel Hd. induction Hl as [|l lines [Hn Hf] Hl IH];
    intros raw s fuel Hd Hc Hsz Hfuel; (destruct fuel as [|fuel]; [simpl in Hfuel; lia|]).
  - destruct (read_sent s "." rest Hd eq_refl Hf3) as (es & Hr & Hd').
    assert (strip_line_end ("." +:+ crlf) = (".", true)) as Hs by reflexivity.
    rewrite (data_loop_line fuel raw false s _ es "." true Hr Hs), Hc, orb_true_r.
    change (str_eqb "." ".") with true. cbn [is_terminator andb]. eexists. split; [|split].
    + change (body []) with EmptyString. by rewrite str_app_nil_r.
    + done.
    + eapply quiet_trans; [|apply quiet_crlf]. apply quiet_reader.
      by apply read_loop_size in Hr as [? _].
  - assert (sent (l :: lines) = stuff l +:+ crlf +:+ sent lines) as Hsent
      by (unfold sent, sent_line; cbn [map str_concat foldr]; by rewrite str_app_assoc).
    assert (body (l :: lines) = l +:+ crlf +:+ body lines) as Hbody
      by (unfold body; cbn [map str_concat foldr]; by rewrite str_app_assoc).
    rewrite Hsent, !str_app_assoc in Hd. rewrite Hbody, !str_len_app in Hsz.
    change (str_len crlf) with 2 in Hsz. pose proof (str_len_nonneg (body lines)).
    destruct (read_sent s (stuff l) _ Hd (stuff_no_lf l Hn) Hf) as (es & Hr & Hd').
    assert (strip_line_end (stuff l +:+ crlf) = (stuff l, true)) as Hs
      by (change crlf with (char_str cr +:+ char_str lf); apply strip_line_end_crlf).
    rewrite (data_loop_line fuel raw false s _ es _ true Hr Hs), stuff_not_dot. cbn [andb].
    unfold next_body. rewrite unstuff_stuff.
    assert ((0 <? max_message_bytes (config srv))
            && (max_message_bytes (config srv) <? str_len raw + str_len l + 2) = false) as ->
      by (unfold size_ok in Hsz; lia). cbn [fst snd].
    destruct (IH (raw +:+ l +:+ crlf) (set_crlf (crlf_seen s || true) true (set_reader es s)) fuel)
      as (s' & -> & Hd2 & Hq); [done|done| |simpl in Hfuel; lia|].
    { rewrite !str_len_app. change (str_len crlf) with 2. unfold size_ok in *. lia. }
    exists s'. split_and!; [by rewrite Hbody, !str_app_assoc|done|].
    eapply quiet_trans; [|exact Hq]. eapply quiet_trans; [|apply quiet_crlf]. apply quiet_reader.
    by apply read_loop_size in Hr as [? _].
Qed.

Lemma reply_ok code msg s :
  write_ok (writes s) = true -> write_ok (S (writes s)) = true ->
  exists o, reply code msg s = (Ok true, set_writer (S (S (writes s))) o s).
Proof.
  intros H1 H2. unfold reply, write_all, flush, mbind, m_bind. rewrite H1. simpl. rewrite H2. eauto.
Qed.

Lemma lines_size lines tail : (length lines <= String.length (sent lines +:+ tail))%nat.
Proof.
  rewrite str_length_app. assert (length lines <= String.length (sent lines))%nat; [|lia].
  induction lines as [|l lines IH]; [done|]. unfold sent in *. cbn [map str_concat foldr length].
  rewrite str_length_app. unfold sent_line at 1. rewrite str_length_app.
  change (String.length crlf) with 2%nat. unfold str_concat in IH. lia.
Qed.

End Data.

(** C32: a message ends at the first CRLF.CRLF and nowhere else: for a client that has
    used CRLF, whatever it sends after DATA and however the network cuts it, the body
    is read up to the first [CR LF . CR LF] (the line break of the DATA command counts)
    and what follows is left for the next command; a dot between bare line feeds or
    half line breaks does not end it, so no message can smuggle in another; without
    the mark the connection ends with nothing stored. *)
Theorem data_ends_at_mark `{MailEnv} srv s stream :
  delivers (reader s) stream -> fits srv (str_len stream) -> crlf_seen s = true -> last_crlf s = true ->
  match split_once mark (crlf +:+ stream) with
  | Some (_, rest) =>
      exists raw ov s', data_loop srv (S (read_size (reader s))) EmptyString false s = (Ok (Some (raw, ov)), s')
        /\ delivers (reader s') rest
  | None =>
      exists s', data_loop srv (S (read_size (reader s))) EmptyString false s = (Ok None, s')
  end.
Proof.
  intros Hd Hf Hs Hl. pose proof (read_size_delivers _ _ Hd) as Hr.
  pose proof (data_loop_mark srv (S (read_size (reader s))) EmptyString false s stream Hd Hf Hs ltac:(lia)) as Hm.
  rewrite Hl in Hm. unfold message_end in Hm. cbn [pre] in Hm.
  by destruct (split_once mark (crlf +:+ stream)) as [[? ?]|].
Qed.

(** round trip: a message sent as RFC 5321 prescribes (each line with a leading dot
    doubled and ended by CRLF, then the line [.]), in whatever pieces it arrives, is
    handed to the store with exactly those lines as its body, under the envelope of the
    transaction; the transaction is over, and what the client sent next is still to be
    read. *)
Theorem data_roundtrip `{MailEnv} srv s lines rest :
  delivers (reader s) (sent lines +:+ "." +:+ crlf +:+ rest) -> last_crlf s = true ->
  Forall (fun l => no_lf l /\ fits srv (str_len (stuff l) + 2)) lines -> fits srv 3 ->
  size_ok srv (str_len (body lines)) ->
  write_ok (writes s) = true -> write_ok (S (writes s)) = true ->
  let m := mkReceived (envelope s) (if envelope_capture srv then Some (helo s) else None) (body lines) in
  store_ok (length (stored s)) m = true ->
  exists b s', handle_data srv s = (Ok b, s') /\ stored s' = stored s ++ [m]
    /\ delivers (reader s') rest /\ has_mail_from s' = false /\ envelope s' = default_envelope.
Proof.
  intros Hd Hc Hl Hf3 Hsz W1 W2 m Hst. pose proof (read_size_delivers _ _ Hd) as Hr.
  pose proof (lines_size lines ("." +:+ crlf +:+ rest)) as Hls.
  unfold handle_data, mbind, m_bind.
  destruct (reply_ok 354 "End data with <CR><LF>.<CR><LF>" s W1 W2) as (o & ->). cbn [negb].
  set (s0 := set_writer _ o s). unfold gets.
  destruct (data_loop_sent srv lines EmptyString s0 rest (S (read_size (reader s0))))
    as (s1 & -> & Hd1 & r & n & o1 & a & c & Hs1 & _); [done|done|done|done|done|simpl; lia|].
  assert (envelope s1 = envelope s /\ helo s1 = helo s /\ stored s1 = stored s) as (Ee & Eh & Es)
    by (by rewrite Hs1).
  rewrite str_app_nil_l. unfold receive. rewrite Ee, Eh, Es. fold m. rewrite Hst.
  unfold reset_envelope, modify.
  set (s2 := set_has_mail_from false _).
  pose proof (fun Q => wp_reply 250 "OK" Q s2) as Hrep. unfold wp in Hrep.
  specialize (Hrep (fun o s' => exists b n' o', o = Ok b /\ s' = set_writer n' o' s2)).
  destruct (reply 250 "OK" s2) as [o2 s3]. cbn [fst snd] in Hrep.
  destruct Hrep as (b & n' & o' & -> & ->); [by eauto 10|]. eexists b, _. split; [reflexivity|]. done.
Qed.

(** ** Credentials *)

Lemma diff_tail_zero b d : diff_tail b d = 0 -> d = 0.
Proof.
  revert d. induction b as [|y b IH]; intros d; cbn [diff_tail]; [done|].
  by intros [? _]%IH%Z.lor_eq_0_iff.
Qed.

Lemma diff_loop_zero a b d :
  str_len a = str_len b -> diff_loop a b d = 0 <-> d = 0 /\ a = b.
Proof.
  revert b d. induction a as [|x a IH]; intros [|y b] d Hl; cbn [diff_loop diff_tail].
  - split; [done|]. by intros [? _].
  - rewrite str_len_cons in Hl. pose proof (str_len_nonneg b). change (str_len "") with 0 in Hl. lia.
  - rewrite str_len_cons in Hl. pose proof (str_len_nonneg a). change (str_len "") with 0 in Hl. lia.
  - rewrite !str_len_cons in Hl. rewrite IH, Z.lor_eq_0_iff, Z.lxor_eq_0_iff by lia. split.
    + intros [[-> E] ->]. split; [done|]. f_equal. by apply byte_of_inj.
    + by intros [-> [= -> ->]].
Qed.

Lemma diff_loop_start a b d : diff_loop a b d = 0 -> d = 0.
Proof.
  revert b d. induction a as [|x a IH]; intros b d; [apply diff_tail_zero|].
  destruct b; cbn [diff_loop]; by intros [? _]%IH%Z.lor_eq_0_iff.
Qed.

Lemma constant_time_eq_true a b : constant_time_eq a b = true <-> a = b.
Proof.
  unfold constant_time_eq. rewrite Z.eqb_eq. split.
  - intros E. pose proof (proj1 (Z.lxor_eq_0_iff _ _) (diff_loop_start _ _ _ E)) as Hl.
    apply (diff_loop_zero a b _ Hl) in E. by destruct E.
  - intros ->. apply diff_loop_zero; [done|]. by rewrite Z.lxor_nilpotent.
Qed.

(** Strict authentication: after credentials are presented the session is
    authenticated iff it was, or the mode is not strict, or both the user name and the
    password are exactly the configured ones (compared in full by the constant-time
    loop); nothing else of the transaction changes. *)
Theorem complete_auth_exact `{MailEnv} srv user pass s :
  let s' := (complete_auth srv user pass s).2 in
  (authenticated s' = true <->
     authenticated s = true \/ auth_mode_normalized (config srv) <> SMTP_AUTH_STRICT
     \/ (user = username (config srv) /\ pass = password (config srv)))
  /\ greeted s' = greeted s /\ has_mail_from s' = has_mail_from s /\ envelope s' = envelope s
  /\ stored s' = stored s /\ reader s' = reader s.
Proof.
  intros s'.
  assert (forall code msg s0, exists n o, (reply code msg s0).2 = set_writer n o s0) as Hrep.
  { intros code msg s0. pose proof (wp_reply code msg (fun _ s1 => exists n o, s1 = set_writer n o s0) s0) as Hw.
    unfold wp in Hw. apply Hw. eauto. }
  rewrite <- (constant_time_eq_true user), <- (constant_time_eq_true pass).
  assert (auth_mode_normalized (config srv) <> SMTP_AUTH_STRICT <->
          str_eqb (auth_mode_normalized (config srv)) SMTP_AUTH_STRICT = false) as ->
    by (rewrite <- not_true_iff_false, str_eqb_true; done).
  unfold s', complete_auth.
  destruct (str_eqb (auth_mode_normalized (config srv)) SMTP_AUTH_STRICT);
    [destruct (constant_time_eq user _), (constant_time_eq pass _)|]; cbn [andb negb];
    unfold mbind, m_bind, modify;
    match goal with |- context [reply ?c ?m ?s0] => destruct (Hrep c m s0) as (n & o & ->) end;
    (split; [simpl; intuition congruence|done]).
Qed.

(** ** Witnesses *)

(** A connection whose writes succeed and a store that takes everything. *)
Definition demo_mail : MailEnv :=
  {| write_ok := fun _ => true; base64_decode := fun s => Some s; store_ok := fun _ _ => true |}.
Definition demo_server : SmtpServer := mkServer (mkConfig 100 "strict" "u" "p") true standard.
Definition demo_line (s : string) : string := s +:+ crlf.

(** In DATA, with a message whose second line is a dot, and a smuggling attempt in
    its third; the bytes arrive in two pieces. *)
Definition demo_lines : list string := ["hello"; "."; "x" +:+ char_str cr].
Definition demo_next : string := demo_line "QUIT".
Definition demo_bytes : string := sent demo_lines +:+ "." +:+ crlf +:+ demo_next.
Definition demo_session : Session :=
  mkSession true true false true true (mkEnvelope "a@b" ["c@d"]) "me"
    [Bytes (str_take 7 demo_bytes); Bytes (str_drop 7 demo_bytes)] 0 [] [].

Lemma demo_delivers : delivers (reader demo_session) demo_bytes.
Proof.
  assert (demo_bytes = str_take 7 demo_bytes +:+ str_drop 7 demo_bytes +:+ "") as -> by reflexivity.
  repeat constructor; by vm_compute.
Qed.

Lemma data_ends_at_mark_witness :
  exists raw ov s',
    @data_loop demo_mail demo_server (S (read_size (reader demo_session))) "" false demo_session
    = (Ok (Some (raw, ov)), s') /\ delivers (reader s') demo_next.
Proof.
  pose proof (@data_ends_at_mark demo_mail demo_server demo_session demo_bytes demo_delivers
    ltac:(right; vm_compute; discriminate) eq_refl eq_refl) as Hd.
  assert (split_once mark (crlf +:+ demo_bytes)
          = Some (crlf +:+ "hello" +:+ crlf +:+ ".." +:+ crlf +:+ "x" +:+ char_str cr, demo_next)) as E
    by (vm_compute; reflexivity).
  rewrite E in Hd. exact Hd.
Defined.

Lemma data_roundtrip_witness :
  exists b s', @handle_data demo_mail demo_server demo_session = (Ok b, s')
    /\ map r_raw (stored s') = [body demo_lines].
Proof.
  destruct (@data_roundtrip demo_mail demo_server demo_session demo_lines demo_next demo_delivers eq_refl)
    as (b & s' & Hd & Hs & _).
  - repeat constructor; (by vm_compute) || (right; vm_compute; discriminate).
  - right. vm_compute. discriminate.
  - right. vm_compute. discriminate.
  - reflexivity.
  - reflexivity.
  - reflexivity.
  - exists b, s'. split; [exact Hd|]. rewrite Hs. reflexivity.
Defined.
