(* ===== verification/StateFile.v ===== *)
(** What the small AWS registries share: floating-point numbers as serde_json keeps them,
    paging by the last key seen, and a state file that is written whole or not at all. *)

From Stdlib Require Import SpecFloat.
From S2P Require Import Prelude RustStr RustNum Json.
Local Open Scope Z_scope.

(** [f64] as Rust computes with it: the Standard Library's IEEE-754 binary64, and
    its bits, which is what [serde_json] keeps of a number with a fraction. *)

Abbreviation f64 := spec_float.

(** [z as f64]: to nearest, ties to even. *)
Definition f64_of_Z (z : Z) : f64 := binary_normalize 53 1024 z 0 false.
Definition f64_div : f64 -> f64 -> f64 := SFdiv 53 1024.
Definition f64_mul : f64 -> f64 -> f64 := SFmul 53 1024.
Definition f64_add : f64 -> f64 -> f64 := SFadd 53 1024.

(** [f.to_bits()] *)
Definition f64_bits (f : f64) : Z :=
  match f with
  | S754_zero s => if s then 2 ^ 63 else 0
  | S754_infinity s => (if s then 2 ^ 63 else 0) + 2047 * 2 ^ 52
  | S754_nan => 2047 * 2 ^ 52 + 2 ^ 51
  | S754_finite s m e =>
      (if s then 2 ^ 63 else 0)
      + (if Z.pos m <? 2 ^ 52 then Z.pos m else (e + 1075) * 2 ^ 52 + (Z.pos m - 2 ^ 52))
  end.
Definition f64_finite (f : f64) : bool :=
  match f with S754_zero _ | S754_finite _ _ _ => true | _ => false end.

(** [Value::from(f)] and serde_json's writer: what is not finite is [null]. *)
Definition f64_value (f : f64) : Value := if f64_finite f then JNumber (Float (f64_bits f)) else JNull.

Example f64_of_millis : map (fun n => f64_bits (f64_div (f64_of_Z n) (f64_of_Z 1000))) [0; 1500; 1700000000123]
  = [0; 4609434218613702656; 4744917124794277691].
Proof. vm_compute. reflexivity. Qed.

(** Paging over a map in key order by the last key seen: what follows a key in
    [btree_iter] is what compares greater. *)

Section KeyPages.
Context {V : Type}.
Implicit Types (l : list (string * V)) (e : string * V).

Lemma key_le_compare e e' : key_le e e' <-> String.compare e.1 e'.1 <> Gt.
Proof. unfold key_le, String.le, String.leb. by destruct (String.compare e.1 e'.1). Qed.

Lemma sorted_app_inv l l' :
  StronglySorted key_le (l ++ l') -> forall e e', e ∈ l -> e' ∈ l' -> key_le e e'.
Proof.
  induction l as [|x l IH]; [intros _ e e' Hin; by apply elem_of_nil in Hin|]. simpl. intros Hs e e' He He'.
  apply StronglySorted_inv in Hs as [Hs Hf]. apply elem_of_cons in He as [->|He]; [|by apply IH].
  rewrite Forall_forall in Hf. apply Hf, elem_of_app. by right.
Qed.
Lemma sorted_suffix l l' : StronglySorted key_le (l ++ l') -> StronglySorted key_le l'.
Proof. induction l; [done|]. simpl. intros [? _]%StronglySorted_inv. auto. Qed.

(** A test that holds of the keys greater than [k] selects what follows [k]. *)
Lemma filter_past (p : string * V -> bool) l e l' :
  StronglySorted key_le (l ++ e :: l') -> NoDup (l ++ e :: l').*1 ->
  (forall x, p x = match String.compare x.1 e.1 with Gt => true | _ => false end) ->
  List.filter p (l ++ e :: l') = l'.
Proof.
  intros Hs Hn Hp. rewrite List.filter_app.
  assert (List.filter p l = []) as ->.
  { assert (forall x, x ∈ l -> p x = false) as Hf.
    { intros x Hx. rewrite Hp. assert (key_le x e) as Hle.
      { eapply sorted_app_inv; [exact Hs|done|apply elem_of_cons; by left]. }
      apply key_le_compare in Hle. by destruct (String.compare x.1 e.1). }
    clear -Hf. induction l as [|x l IH]; [done|]. simpl. rewrite Hf by (apply elem_of_cons; by left).
    apply IH. intros y Hy. apply Hf, elem_of_cons. by right. }
  simpl. rewrite Hp, string_compare_refl.
  assert (forall x, x ∈ l' -> p x = true) as Hf.
  { intros x Hx. rewrite Hp. apply sorted_suffix, StronglySorted_inv in Hs as [_ Hs].
    rewrite Forall_forall in Hs. specialize (Hs x Hx). apply key_le_compare in Hs.
    rewrite (String.compare_antisym x.1 e.1). destruct (String.compare e.1 x.1) eqn:Ec; [|done|done].
    apply String.compare_eq_iff in Ec. rewrite fmap_app, fmap_cons in Hn. apply NoDup_app in Hn as (_ & _ & Hn).
    apply NoDup_cons in Hn as [Hn _]. destruct Hn. rewrite Ec. by apply list_elem_of_fmap_2. }
  clear -Hf. induction l' as [|x l' IH]; [done|]. simpl. rewrite Hf by (apply elem_of_cons; by left). f_equal.
  apply IH. intros y Hy. apply Hf, elem_of_cons. by right.
Qed.
End KeyPages.

(** The store the small AWS services share (services/ssm, services/applicationautoscaling):
    a state behind a [Mutex] that a panic poisons, kept in one [state.json] that is
    replaced through a temporary file, on a host whose every system call may fail. *)

Local Open Scope string_scope.
Local Open Scope Z_scope.

(** The host, call by call: the k-th system call reads the clock, or fails with the
    error given, or succeeds. *)
Class Host := {
  (** Nanoseconds since the epoch, negative before it. *)
  host_clock : nat -> Z;
  fs_create_dir_all : nat -> option string;
  fs_write : nat -> option string;
  (** What a failed write leaves in the file it was writing. *)
  fs_torn : nat -> string -> option string;
  fs_rename : nat -> option string;
  (** An error other than [NotFound]. *)
  fs_read : nat -> option string }.

Record World (S : Type) := mkWorld {
  w_state : S; w_poisoned : bool; w_file : option string; w_tmp : option string; w_tick : nat }.
Arguments mkWorld {S}.
Arguments w_state {S}.
Arguments w_poisoned {S}.
Arguments w_file {S}.
Arguments w_tmp {S}.
Arguments w_tick {S}.

Section Store.
Context `{Host} {E S : Type}.
Implicit Types w : World S.

Definition set_state (s : S) w : World S := mkWorld s (w_poisoned w) (w_file w) (w_tmp w) (w_tick w).
Definition set_files (file tmp : option string) w : World S :=
  mkWorld (w_state w) (w_poisoned w) file tmp (w_tick w).
Definition poison w : World S := mkWorld (w_state w) true (w_file w) (w_tmp w) (w_tick w).

Definition next_tick : ME E (World S) nat := fun w =>
  (Ok (w_tick w), mkWorld (w_state w) (w_poisoned w) (w_file w) (w_tmp w) (w_tick w + 1)).

(** [SystemTime::now().duration_since(UNIX_EPOCH).unwrap_or_default()], in nanoseconds. *)
Definition since_epoch : ME E (World S) Z := t ← next_tick; mret (Z.max 0 (host_clock t)).

(** [self.state.lock().unwrap()], held to the end of the handler. *)
Definition with_lock {A} (m : ME E (World S) A) : ME E (World S) A := fun w =>
  if w_poisoned w then (Panic "PoisonError", w)
  else match m w with
       | (Panic why, w') => (Panic why, poison w')
       | r => r
       end.

(** The [Result<(), String>] of a file system step as a value: [None] is [Ok(())]. *)
Definition fs_step (call : nat -> option string) (torn done : nat -> World S -> World S)
    : ME E (World S) (option string) :=
  t ← next_tick;
  match call t with
  | Some e => modify (torn t);; mret (Some e)
  | None => modify (done t);; mret None
  end.
(** [a?; b] *)
Definition and_then (a b : ME E (World S) (option string)) : ME E (World S) (option string) :=
  r ← a; match r with Some e => mret (Some e) | None => b end.

(** [create_dir_all(dir)?; write(tmp, data)?; rename(tmp, path)] *)
Definition replace_file (data : string) : ME E (World S) (option string) :=
  and_then (fs_step fs_create_dir_all (fun _ w => w) (fun _ w => w))
  (and_then (fs_step fs_write (fun t w => set_files (w_file w) (fs_torn t data) w)
                              (fun _ w => set_files (w_file w) (Some data) w))
            (fs_step fs_rename (fun _ w => w) (fun _ w => set_files (w_tmp w) None w))).

(** The whole of what a handler can leave: a failed replacement touches neither the
    state nor the file, a successful one puts the data in the file. *)
Lemma wp_replace_file data w (Q : result E (option string) -> World S -> Prop) :
  (forall e tmp tick, Q (Ok (Some e)) (mkWorld (w_state w) (w_poisoned w) (w_file w) tmp tick)) ->
  (forall tick, Q (Ok None) (mkWorld (w_state w) (w_poisoned w) (Some data) None tick)) ->
  wp (replace_file data) Q w.
Proof.
  intros Hf Ho. unfold replace_file, and_then, fs_step, wp, next_tick, mbind, m_bind, mret, m_ret, modify.
  destruct w as [s p file tmp tick]. simpl in *.
  destruct (fs_create_dir_all _); simpl; [apply Hf|].
  destruct (fs_write _); simpl; [apply Hf|].
  destruct (fs_rename _); simpl; [apply Hf|apply Ho].
Qed.

Lemma wp_since_epoch w (Q : result E Z -> World S -> Prop) :
  (forall n tick, 0 <= n -> Q (Ok n) (mkWorld (w_state w) (w_poisoned w) (w_file w) (w_tmp w) tick)) ->
  wp since_epoch Q w.
Proof. intros HQ. apply HQ. lia. Qed.

Lemma wp_with_lock {A} (m : ME E (World S) A) w (Q : result E A -> World S -> Prop) :
  (w_poisoned w = true -> Q (Panic "PoisonError") w) ->
  (w_poisoned w = false -> wp m (fun o w' => match o with Panic why => Q (Panic why) (poison w') | _ => Q o w' end) w) ->
  wp (with_lock m) Q w.
Proof.
  unfold wp, with_lock. destruct (w_poisoned w); [by auto|]. intros _ Hm. specialize (Hm eq_refl).
  by destruct (m w) as [[]].
Qed.
End Store.

(** ** Answers *)

(** One operation result of such a service: HTTP status, optional [X-Amzn-Errortype], JSON body. *)
Record Outcome := mkOutcome { o_status : Z; o_error_type : option string; o_body : Value }.
(** [json!({ .. })] *)
Definition json_obj (fields : list (string * Value)) : Value := to_value (JObject fields).
Definition ok_outcome (body : Value) : Outcome := mkOutcome 200 None body.
