(* ===== verification/AwsSigV4.v ===== *)
(** AWS Signature Version 4 as the small AWS services verify it
    (services/ssm/src/sigv4.rs; the files of services/sts and
    services/applicationautoscaling differ in the service's name and in what an
    absent [x-amz-content-sha256] stands for, the two fields of [Signer]).  The
    digests are those of the crates sha2, hmac and hex. *)

From S2P Require Import Prelude RustStr RustNum RustText Json S3Codecs.
Local Open Scope string_scope.
Local Open Scope Z_scope.

Class Digests := {
  sha256 : string -> string;
  hmac : string -> string -> string;
  hex_encode : string -> string }.

Definition SIGV4_ALGORITHM : string := "AWS4-HMAC-SHA256".

(** What a service's copy of the file fixes. *)
Record Signer := mkSigner { sigv4_service : string; hashes_unsent_payload : bool }.
Definition ssm_signer : Signer := mkSigner "ssm" true.

Record SignatureError := mkSigError { se_name : string; se_status : Z }.
Definition sig_err (name : string) (status : Z) : SignatureError := mkSigError name status.

Record SignedRequest := mkSigned {
  sg_method : string; sg_path : string; sg_query : string; sg_host : string;
  sg_authorization : string; sg_amz_date : string; sg_content_sha256 : string;
  sg_header : string -> option string; sg_body : string }.
Record Credentials := mkCreds {
  auth_mode : string; access_key_id : string; secret_access_key : string; cr_region : string }.

Definition default_str (value fallback : string) : string := if is_empty value then fallback else value.

(** ** Parsing the header *)

(** [HashMap::from] of the [key=value] parts, the last of a key winning. *)
Definition insert_param (m : gmap string string) (part : string) : gmap string string :=
  match split_once "=" (trim part) with
  | Some (k, v) => <[k := v]> m
  | None => m
  end.
Definition parse_auth_params (value : string) : gmap string string :=
  foldl insert_param ∅ (split_char "," value).

Definition parse_credential_scope (credential : string) : option (string * string * string * string) :=
  match split_char "/" credential with
  | [access_key; date_stamp; region; service; terminator] =>
      if str_eqb terminator "aws4_request" then Some (access_key, date_stamp, region, service) else None
  | _ => None
  end.

Definition is_lower_hex (value : string) (length : Z) : bool :=
  (str_len value =? length) && str_all (fun c => is_ascii_digit c || in_range "a" "f" c) value.

(** ** Canonical forms *)

Definition safe_byte (safe : string) (c : ascii) : bool := Percent.always_safe c || Percent.safe_contains safe c.
(** A byte the test passes is below 128 in every call, where [push] writes it as it is. *)
Fixpoint aws_percent_encode (value safe : string) : string :=
  match value with
  | EmptyString => EmptyString
  | String c rest =>
      (if safe_byte safe c then Percent.push_char c else String "%" (Percent.hex2_upper c))
      +:+ aws_percent_encode rest safe
  end.

(** The loop over byte offsets; [i + 2 < bytes.len()] holds when two bytes follow. *)
Fixpoint url_decode_bytes (s : string) : string :=
  match s with
  | EmptyString => EmptyString
  | String c r =>
      if Ascii.eqb c "%" then
        match r with
        | String h (String l r') =>
            match to_digit 16 h, to_digit 16 l with
            | Some hi, Some lo => String (of_byte (hi * 16 + lo)) (url_decode_bytes r')
            | _, _ => String c (url_decode_bytes r)
            end
        | _ => String c (url_decode_bytes r)
        end
      else if Ascii.eqb c "+" then String " " (url_decode_bytes r)
      else String c (url_decode_bytes r)
  end.
Definition url_decode (s : string) : string := from_utf8_lossy (url_decode_bytes s).

Definition canonical_uri (path : string) : string :=
  if is_empty path then "/" else aws_percent_encode path "/~".

Definition query_pair (item : string) : string * string :=
  match split_once "=" item with
  | Some (k, v) => (url_decode k, url_decode v)
  | None => (url_decode item, EmptyString)
  end.
Definition pair_cmp : string * string -> string * string -> comparison :=
  lex (fun a b => String.compare a.1 b.1) (fun a b => String.compare a.2 b.2).
Definition show_pair (p : string * string) : string :=
  aws_percent_encode p.1 "~-_" +:+ "=" +:+ aws_percent_encode p.2 "~-_".
Definition canonical_query_string (query : string) : string :=
  if is_empty query then EmptyString
  else str_join "&" (map show_pair (sort_by pair_cmp (map query_pair (split_char "&" query)))).

Definition normalize_header_value (value : string) : string := str_join " " (split_whitespace value).
Definition canonical_header (req : SignedRequest) (item : string) : string :=
  let name := trim item in
  if is_empty name then EmptyString
  else
    let value := if str_eqb name "host" then sg_host req else default EmptyString (sg_header req name) in
    name +:+ ":" +:+ normalize_header_value value +:+ char_str lf.
Definition canonical_headers (req : SignedRequest) (signed_headers : string) : string :=
  str_concat (map (canonical_header req) (split_char ";" (to_ascii_lowercase signed_headers))).

(** [constant_time_eq]: [diff] collects the differing bits of the pairs. *)
Fixpoint xor_diff (a b : string) (diff : Z) : Z :=
  match a, b with
  | String x a', String y b' => xor_diff a' b' (Z.lor diff (Z.lxor (byte_of x) (byte_of y)))
  | _, _ => diff
  end.
Definition constant_time_eq (a b : string) : bool :=
  if str_len a =? str_len b then xor_diff a b 0 =? 0 else false.

(** ** Verification *)

Section Verify.
Context `{Digests} (sv : Signer).
Implicit Types (req : SignedRequest) (creds : Credentials).

Definition sha256_hex (value : string) : string := hex_encode (sha256 value).

Definition derive_signing_key (secret date_stamp region : string) : string :=
  let date_key := hmac ("AWS4" +:+ default_str secret "dev") date_stamp in
  let region_key := hmac date_key region in
  let service_key := hmac region_key (sigv4_service sv) in
  hmac service_key "aws4_request".

Definition canonical_request req (signed_headers payload_hash : string) : string :=
  str_join (char_str lf)
    [sg_method req; canonical_uri (sg_path req); canonical_query_string (sg_query req);
     canonical_headers req signed_headers; to_ascii_lowercase signed_headers; payload_hash].
Definition string_to_sign req (date_stamp region signed_headers payload_hash : string) : string :=
  let scope := str_join "/" [date_stamp; region; sigv4_service sv; "aws4_request"] in
  str_join (char_str lf)
    [SIGV4_ALGORITHM; sg_amz_date req; scope; sha256_hex (canonical_request req signed_headers payload_hash)].
Definition signature_for_request req (date_stamp region signed_headers payload_hash : string) creds : string :=
  let signing_key := derive_signing_key (secret_access_key creds) date_stamp region in
  hex_encode (hmac signing_key (string_to_sign req date_stamp region signed_headers payload_hash)).

Definition verify_payload_hash req (payload_hash : string) : result SignatureError unit :=
  if str_eqb payload_hash "UNSIGNED-PAYLOAD" then Ok tt
  else if starts_with "STREAMING-" payload_hash then Err (sig_err "NotImplemented" 501)
  else if constant_time_eq (to_ascii_lowercase payload_hash) (sha256_hex (sg_body req)) then Ok tt
  else Err (sig_err "InvalidSignatureException" 403).

Definition valid_credential (access_key region service : string) creds : bool :=
  str_eqb access_key (default_str (access_key_id creds) "dev")
  && str_eqb region (default_str (cr_region creds) "us-east-1")
  && str_eqb service (sigv4_service sv).

Definition incomplete : SignatureError := sig_err "IncompleteSignatureException" 400.
(** [if cond { return Err(e) }] *)
Definition reject_if (cond : bool) (e : SignatureError) : result SignatureError unit :=
  if cond then Err e else Ok tt.

(** The header's parameters, up to the checks both modes make first. *)
Definition auth_param (m : gmap string string) (k : string) : string := default EmptyString (m !! k).
Definition read_authorization (auth : string)
    : result SignatureError (string * string * string * string * string * string) :=
  params ← ok_or incomplete (strip_prefix (SIGV4_ALGORITHM +:+ " ") auth);
  let values := parse_auth_params params in
  let signed_headers := auth_param values "SignedHeaders" in
  let signature := auth_param values "Signature" in
  '(access_key, date_stamp, region, service) ←
    ok_or incomplete (parse_credential_scope (auth_param values "Credential"));
  _ ← reject_if (is_empty signed_headers || is_empty signature) incomplete;
  Ok (access_key, date_stamp, region, service, signed_headers, signature).

Definition payload_hash_of req : result SignatureError string :=
  if is_empty (sg_content_sha256 req) then
    Ok (if hashes_unsent_payload sv then sha256_hex (sg_body req) else "UNSIGNED-PAYLOAD")
  else (_ ← verify_payload_hash req (sg_content_sha256 req); Ok (sg_content_sha256 req)).

Definition verify_full req (auth : string) creds : result SignatureError unit :=
  '(access_key, date_stamp, region, service, signed_headers, signature) ← read_authorization auth;
  _ ← reject_if (negb (valid_credential access_key region service creds))
        (sig_err "UnrecognizedClientException" 403);
  _ ← reject_if (is_empty (sg_amz_date req)) incomplete;
  payload_hash ← payload_hash_of req;
  let expected := signature_for_request req date_stamp region signed_headers payload_hash creds in
  reject_if (negb (constant_time_eq signature expected)) (sig_err "InvalidSignatureException" 403).

Definition verify_shape req (auth : string) : result SignatureError unit :=
  '(access_key, date_stamp, region, service, signed_headers, signature) ← read_authorization auth;
  _ ← reject_if (negb (str_eqb service (sigv4_service sv)) || negb (is_lower_hex signature 64)) incomplete;
  _ ← reject_if (is_empty (sg_amz_date req)) incomplete;
  if negb (is_empty (sg_content_sha256 req)) then verify_payload_hash req (sg_content_sha256 req) else Ok tt.

Definition verify_signature req creds : result SignatureError unit :=
  if is_empty (auth_mode creds) || eq_ignore_ascii_case (auth_mode creds) "relaxed" then Ok tt
  else
    let auth := trim (sg_authorization req) in
    if is_empty auth then Err (sig_err "AccessDeniedException" 403)
    else if eq_ignore_ascii_case (auth_mode creds) "signed-relaxed" then verify_shape req auth
    else verify_full req auth creds.
End Verify.

(** ** Lemmas: the digests and the canonical forms *)

Lemma xor_diff_zero a b diff :
  String.length a = String.length b -> 0 <= diff -> xor_diff a b diff = 0 <-> diff = 0 /\ a = b.
Proof.
  revert b diff. induction a as [|x a IH]; intros [|y b] diff Hl Hd; simpl in *; try lia; [tauto|].
  pose proof (byte_of_range x). pose proof (byte_of_range y).
  rewrite IH; [|lia|apply Z.lor_nonneg; split; [done|]; apply Z.lxor_nonneg; lia].
  rewrite Z.lor_eq_0_iff, Z.lxor_eq_0_iff. split.
  - intros [[-> E%byte_of_inj] ->]. by subst.
  - intros [-> [= -> ->]]. done.
Qed.

Definition encode_piece (safe : string) (c : ascii) : string :=
  if safe_byte safe c then Percent.push_char c else String "%" (Percent.hex2_upper c).
Lemma encode_graphic safe s :
  forallb (fun n => str_all graphic (encode_piece safe (of_byte n))) (map Z.of_nat (seq 0 256)) = true ->
  str_all graphic (aws_percent_encode s safe) = true.
Proof.
  intros Hp. pose proof (Percent.all_bytes (fun c => str_all graphic (encode_piece safe c)) Hp) as Hc.
  induction s as [|c s IH]; [done|]. cbn [aws_percent_encode].
  rewrite str_all_app, IH, andb_true_r. exact (Hc c).
Qed.
Lemma canonical_uri_graphic path : str_all graphic (canonical_uri path) = true.
Proof.
  unfold canonical_uri. destruct (is_empty path); [done|]. apply encode_graphic. by vm_compute.
Qed.
Lemma canonical_query_graphic query : str_all graphic (canonical_query_string query) = true.
Proof.
  unfold canonical_query_string. destruct (is_empty query); [done|]. apply str_all_join; [done|].
  apply Forall_map, Forall_true. intros p. unfold show_pair.
  rewrite !str_all_app, !encode_graphic by (by vm_compute). done.
Qed.

(** *** What the canonical forms keep of a request *)

Lemma aws_percent_encode_inj safe v w :
  Percent.safe_ok safe -> aws_percent_encode v safe = aws_percent_encode w safe -> v = w.
Proof.
  intros Hs E. change (Percent.aws_percent_encode v safe = Percent.aws_percent_encode w safe) in E.
  apply (f_equal Percent.percent_decode) in E.
  rewrite (proj1 (Percent.percent_roundtrip v safe Hs)), (proj1 (Percent.percent_roundtrip w safe Hs)) in E.
  by injection E.
Qed.
(** An empty path reads as the root. *)
Lemma canonical_uri_inj p q : canonical_uri p = canonical_uri q -> default_str p "/" = default_str q "/".
Proof.
  assert (forall p, canonical_uri p = aws_percent_encode (default_str p "/") "/~") as Hc
    by (intros s; unfold canonical_uri, default_str; by destruct (is_empty s)).
  rewrite !Hc. apply aws_percent_encode_inj. by vm_compute.
Qed.

(** A byte of an encoded name or value does not separate parameters. *)
Definition query_safe : string := "~-_".
Lemma encoded_free c v :
  forallb (fun n => negb (Ascii.eqb c (of_byte n)) || negb (safe_byte query_safe (of_byte n) || Ascii.eqb (of_byte n) "%"))
    (map Z.of_nat (seq 0 256)) = true ->
  free_of c (aws_percent_encode v query_safe).
Proof.
  intros Hp. assert (Percent.safe_ok query_safe) as Hs by by vm_compute.
  generalize (proj2 (Percent.percent_roundtrip v query_safe Hs)). apply str_all_impl. intros d Hd.
  pose proof (Percent.all_bytes (fun d => negb (Ascii.eqb c d) || negb (safe_byte query_safe d || Ascii.eqb d "%")) Hp d) as Hc.
  cbv beta in Hc. unfold safe_byte in Hc. rewrite Hd in Hc. cbn [negb] in Hc. by rewrite orb_false_r in Hc.
Qed.
Lemma show_pair_inj p q : show_pair p = show_pair q -> p = q.
Proof.
  unfold show_pair. fold query_safe. intros E. apply (cut_first "=") in E as [E1 E2]; [|apply encoded_free; by vm_compute..].
  apply aws_percent_encode_inj in E1, E2; [|by vm_compute..]. destruct p, q. simpl in *. congruence.
Qed.
Lemma show_pair_free p : free_of "&" (show_pair p).
Proof.
  unfold show_pair, free_of. fold query_safe. rewrite !str_all_app.
  rewrite !(encoded_free "&" : forall v, _ -> str_all _ _ = true) by by vm_compute. done.
Qed.
Lemma join_shown_inj l l' :
  l <> [] -> l' <> [] -> str_join "&" (map show_pair l) = str_join "&" (map show_pair l') -> l = l'.
Proof.
  intros Hl Hl' E. apply (f_equal (split_char "&")) in E.
  rewrite !(split_join "&") in E; [|by destruct l', l|apply Forall_map, Forall_true; intros; apply show_pair_free..
    |by destruct l|apply Forall_map, Forall_true; intros; apply show_pair_free].
  revert E. apply list_fmap_eq_inj. exact show_pair_inj.
Qed.

(** The parameters of a query, in any order. *)
Definition query_pairs (query : string) : list (string * string) :=
  if is_empty query then [] else map query_pair (split_char "&" query).
Lemma canonical_query_inj q q' :
  canonical_query_string q = canonical_query_string q' -> query_pairs q ≡ₚ query_pairs q'.
Proof.
  assert (forall q, split_char "&" q <> []) as Hne.
  { intros s E. unfold split_char in E. destruct s as [|c s]; [done|]. cbn [split_by] in E.
    destruct (Ascii.eqb "&" c); [done|]. by destruct (split_by _ s). }
  assert (forall q, canonical_query_string q
    = str_join "&" (map show_pair (sort_by pair_cmp (query_pairs q)))) as Hc.
  { intros s. unfold canonical_query_string, query_pairs. by destruct (is_empty s). }
  rewrite !Hc. set (l := sort_by _ (query_pairs q)). set (l' := sort_by _ (query_pairs q')).
  assert (l ≡ₚ query_pairs q) as <- by apply sort_by_perm. assert (l' ≡ₚ query_pairs q') as <- by apply sort_by_perm.
  assert (forall p l, str_join "&" (map show_pair (p :: l)) <> "") as Hs.
  { intros p k E. apply (f_equal (str_all (negb ∘ Ascii.eqb "="))) in E. destruct k as [|x k]; cbn [map str_join] in E;
      unfold show_pair in E; rewrite ?str_all_app in E; simpl in E; by rewrite ?andb_false_r in E. }
  intros E. destruct l as [|x l], l' as [|x' l']; [done|by symmetry in E; apply Hs in E|by apply Hs in E|].
  by apply join_shown_inj in E as ->.
Qed.

(** How a query spells text, independently of the decoder: [+] is a space, [%] and two
    hexadecimal digits a byte, a stray [%] and any other character itself. *)
Definition escape_of (w : string) : option (ascii * string) :=
  match w with
  | String h (String l r) => a ← to_digit 16 h; b ← to_digit 16 l; Some (of_byte (a * 16 + b), r)
  | _ => None
  end.
Inductive spells : string -> string -> Prop :=
| spells_nil : spells "" ""
| spells_plus w t : spells w t -> spells (String "+" w) (String " " t)
| spells_escape w c r t : escape_of w = Some (c, r) -> spells r t -> spells (String "%" w) (String c t)
| spells_stray w t : escape_of w = None -> spells w t -> spells (String "%" w) (String "%" t)
| spells_plain c w t : c <> "+"%char -> c <> "%"%char -> spells w t -> spells (String c w) (String c t).
(** An item [name=value], or a name alone, and the parameter it means. *)
Inductive item_spells : string -> string * string -> Prop :=
| item_pair wk wv k v : free_of "=" wk -> spells wk k -> spells wv v ->
    item_spells (wk +:+ "=" +:+ wv) (from_utf8_lossy k, from_utf8_lossy v)
| item_name wk k : free_of "=" wk -> spells wk k -> item_spells wk (from_utf8_lossy k, "").
(** The parameters a query lists: none when it is empty, else those of its items. *)
Inductive query_lists : string -> list (string * string) -> Prop :=
| lists_none : query_lists "" []
| lists_items items params : str_join "&" items <> "" -> Forall (free_of "&") items ->
    Forall2 item_spells items params -> query_lists (str_join "&" items) params.

Lemma decode_percent w :
  url_decode_bytes (String "%" w)
  = match escape_of w with Some (c, r) => String c (url_decode_bytes r) | None => String "%" (url_decode_bytes w) end.
Proof.
  destruct w as [|h [|l w]]; [done..|]. cbn [url_decode_bytes escape_of]. rewrite Ascii.eqb_refl.
  by destruct (to_digit 16 h); [destruct (to_digit 16 l)|].
Qed.
Lemma decode_plain c w : c <> "+"%char -> c <> "%"%char -> url_decode_bytes (String c w) = String c (url_decode_bytes w).
Proof. intros Hp He. cbn [url_decode_bytes]. by rewrite (proj2 (Ascii.eqb_neq c "%")), (proj2 (Ascii.eqb_neq c "+")). Qed.
Lemma escape_shorter w c r : escape_of w = Some (c, r) -> (String.length r < String.length w)%nat.
Proof.
  destruct w as [|h [|l w]]; [done..|]. simpl. destruct (to_digit 16 h), (to_digit 16 l); try done.
  intros [= _ <-]. lia.
Qed.
(** The decoder reads what is spelled, and every string spells something. *)
Lemma spells_decoded w t : spells w t -> url_decode_bytes w = t.
Proof.
  induction 1 as [|w t _ IH|w c r t He _ IH|w t He _ IH|c w t Hp He _ IH]; [done|by simpl; rewrite IH|..].
  - by rewrite decode_percent, He, IH.
  - by rewrite decode_percent, He, IH.
  - by rewrite decode_plain, IH.
Qed.
Lemma spells_total w : spells w (url_decode_bytes w).
Proof.
  induction w as [w IH] using (induction_ltof1 _ String.length). unfold ltof in IH. destruct w as [|c w]; [constructor|].
  destruct (Ascii.eqb_spec c "%") as [->|Hp]; [|destruct (Ascii.eqb_spec c "+") as [->|Hq]].
  - rewrite decode_percent. destruct (escape_of w) as [[c r]|] eqn:E.
    + apply (spells_escape _ _ r); [done|]. apply IH. apply escape_shorter in E. simpl. lia.
    + apply spells_stray; [done|]. apply IH. simpl. lia.
  - apply spells_plus, IH. simpl. lia.
  - rewrite decode_plain by done. apply spells_plain; [done..|]. apply IH. simpl. lia.
Qed.
Lemma item_decoded item p : item_spells item p -> query_pair item = p.
Proof.
  unfold query_pair, url_decode. destruct 1 as [wk wv k v Hf Hk Hv|wk k Hf Hk].
  - change "=" with (char_str "="). rewrite split_once_char by done. by rewrite (spells_decoded _ _ Hk), (spells_decoded _ _ Hv).
  - change "=" with (char_str "="). rewrite split_once_char_None by done. by rewrite (spells_decoded _ _ Hk).
Qed.
Lemma query_listed q params : query_lists q params -> query_pairs q = params.
Proof.
  destruct 1 as [|items params Hne Hf Hs]; [done|]. unfold query_pairs.
  assert (is_empty (str_join "&" items) = false) as -> by by destruct (str_join "&" items).
  rewrite (split_join "&") by (done || by intros ->). clear Hne Hf.
  induction Hs as [|i p items params Hi _ IH]; [done|]. simpl. by rewrite (item_decoded _ _ Hi), IH.
Qed.

Lemma split_char_parts c s : s = str_join (char_str c) (split_char c s) /\ Forall (free_of c) (split_char c s).
Proof.
  unfold split_char. induction s as [|d s [E Hf]]; [split; [done|by repeat constructor]|].
  cbn [split_by]. pose proof (split_by_nonempty (Ascii.eqb c) s) as Hn. destruct (split_by (Ascii.eqb c) s) as [|w ws]; [done|].
  apply Forall_cons in Hf as [Hw Hws]. destruct (Ascii.eqb_spec c d) as [<-|Hc].
  - split; [by rewrite E at 1|by repeat constructor].
  - split; [rewrite E at 1; by destruct ws|]. constructor; [|done]. unfold free_of in *. cbn [str_all]. rewrite Hw.
    unfold compose. by rewrite (proj2 (Ascii.eqb_neq c d)).
Qed.
Lemma split_once_free c s :
  match split_once (char_str c) s with
  | Some (a, b) => s = a +:+ char_str c +:+ b /\ free_of c a
  | None => free_of c s
  end.
Proof.
  induction s as [|d s IH]; [done|]. cbn [split_once strip_prefix char_str]. destruct (Ascii.eqb_spec c d) as [<-|Hc]; [done|].
  fold (char_str c). unfold free_of in *. destruct (split_once (char_str c) s) as [[a b]|]; cbn [mbind option_bind].
  - destruct IH as [-> Hf]. split; [by rewrite str_app_cons|]. cbn [str_all]. rewrite Hf. unfold compose. by rewrite (proj2 (Ascii.eqb_neq c d)).
  - cbn [str_all]. rewrite IH. unfold compose. by rewrite (proj2 (Ascii.eqb_neq c d)).
Qed.
(** Every query lists parameters. *)
Lemma query_lists_some q : exists params, query_lists q params.
Proof.
  destruct (decide (q = "")) as [->|Hq]; [by exists []; constructor|].
  destruct (split_char_parts "&" q) as [E Hf]. exists (map query_pair (split_char "&" q)).
  assert (query_lists (str_join "&" (split_char "&" q)) (map query_pair (split_char "&" q))) as Hl; [|by rewrite E at 1].
  constructor; [by change "&" with (char_str "&") at 1; rewrite <- E|done|].
  clear. induction (split_char "&" q) as [|item items IH]; [constructor|]. simpl. constructor; [|done].
  unfold query_pair, url_decode. pose proof (split_once_free "=" item) as Hs. change (char_str "=") with "=" in Hs.
  destruct (split_once "=" item) as [[k v]|].
  - destruct Hs as [-> Hk]. constructor; [done|apply spells_total..].
  - constructor; [done|apply spells_total].
Qed.

(** The headers a signature names, and the words of a header's value. *)
Definition signed_names (signed_headers : string) : list string :=
  List.filter (negb ∘ is_empty) (map trim (split_char ";" (to_ascii_lowercase signed_headers))).
Definition header_words (req : SignedRequest) (name : string) : list string :=
  split_whitespace (if str_eqb name "host" then sg_host req else default "" (sg_header req name)).

Lemma normalized_free v : free_of lf (normalize_header_value v).
Proof.
  unfold normalize_header_value, free_of. apply str_all_join; [done|].
  eapply Forall_impl; [apply split_whitespace_words|]. intros w [_ Hw]. apply no_space_free; [|done].
  by apply (bool_decide_unpack _); vm_compute.
Qed.
Lemma normalized_inj v w : normalize_header_value v = normalize_header_value w -> split_whitespace v = split_whitespace w.
Proof.
  unfold normalize_header_value. intros E. apply (f_equal split_whitespace) in E.
  by rewrite !split_whitespace_join in E by apply split_whitespace_words.
Qed.
Lemma canonical_headers_inj r1 r2 signed_headers :
  canonical_headers r1 signed_headers = canonical_headers r2 signed_headers ->
  forall name, name ∈ signed_names signed_headers -> header_words r1 name = header_words r2 name.
Proof.
  unfold canonical_headers, signed_names. induction (split_char ";" _) as [|item items IH]; intros E name; [by intros ?%elem_of_nil|].
  cbn [map str_concat foldr List.filter] in *. fold (str_concat (map (canonical_header r1) items)) in E.
  fold (str_concat (map (canonical_header r2) items)) in E. unfold canonical_header at 1 3 in E. unfold compose at 1.
  destruct (is_empty (trim item)); [by apply IH|]. cbn [negb]. rewrite !str_app_assoc in E.
  apply str_app_inj_l, str_app_inj_l in E. apply cut_first in E as [E1 E2]; [|apply normalized_free..].
  intros [->|Hn]%elem_of_cons; [by apply normalized_inj|by apply IH].
Qed.

(** What the crates document of their output: digests of 32 bytes, printed with two
    lower-case hexadecimal digits a byte. *)
Class DigestLaws `{Digests} := {
  hex_sha256 v : is_lower_hex (hex_encode (sha256 v)) 64 = true;
  hex_hmac k v : is_lower_hex (hex_encode (hmac k v)) 64 = true;
  hex_inj v w : hex_encode v = hex_encode w -> v = w }.

Lemma lower_hex_graphic s n : is_lower_hex s n = true -> str_all graphic s = true.
Proof.
  intros [_ Hs]%andb_true_iff. revert Hs. apply str_all_impl. intros c.
  unfold graphic, is_ascii_digit, in_range. change (byte_of "!") with 33. change (byte_of "~") with 126.
  change (byte_of "0") with 48. change (byte_of "9") with 57. change (byte_of "a") with 97.
  change (byte_of "f") with 102. lia.
Qed.
Lemma lower_hex_nonempty s : is_lower_hex s 64 = true -> is_empty s = false.
Proof. by destruct s. Qed.
Lemma lower_hex_lowercase s n : is_lower_hex s n = true -> to_ascii_lowercase s = s.
Proof.
  intros [_ Hs]%andb_true_iff. induction s as [|c s IH]; [done|]. cbn [str_all] in Hs.
  apply andb_true_iff in Hs as [Hc Hs]. unfold to_ascii_lowercase in *. cbn [str_map]. f_equal; [|by apply IH].
  unfold to_lower_byte. destruct (is_ascii_uppercase c) eqn:E; [exfalso|done].
  unfold is_ascii_digit, is_ascii_uppercase, in_range in *. change (byte_of "0") with 48 in *.
  change (byte_of "9") with 57 in *. change (byte_of "a") with 97 in *. change (byte_of "f") with 102 in *.
  change (byte_of "A") with 65 in *. change (byte_of "Z") with 90 in *. lia.
Qed.

(** ** Properties *)

(** the comparison of signatures, written to take the same time whatever differs, is
    equality of the bytes. *)
Theorem constant_time_eq_correct a b : constant_time_eq a b = true <-> a = b.
Proof.
  unfold constant_time_eq, str_len. destruct (Z.eqb_spec (Z.of_nat (String.length a)) (Z.of_nat (String.length b))).
  - rewrite Z.eqb_eq, xor_diff_zero by lia. tauto.
  - split; [done|]. by intros ->.
Qed.

Section Verified.
Context `{DigestLaws} (sv : Signer).
Implicit Types (req : SignedRequest) (creds : Credentials).

(** The [Authorization] header as clients write it. *)
Definition authorization_header (access_key date_stamp region signed_headers signature : string) : string :=
  SIGV4_ALGORITHM +:+ " Credential="
  +:+ str_join "/" [access_key; date_stamp; region; sigv4_service sv; "aws4_request"]
  +:+ ", SignedHeaders=" +:+ signed_headers +:+ ", Signature=" +:+ signature.

(** A component of the header: graphic ASCII without the two separators. *)
Definition component (s : string) : Prop :=
  str_all (fun c => graphic c && negb (Ascii.eqb "/" c) && negb (Ascii.eqb "," c)) s = true.
Lemma component_graphic s : component s -> str_all graphic s = true.
Proof. apply str_all_impl. intros c [[Hc _]%andb_true_iff _]%andb_true_iff. done. Qed.
Lemma component_free s : component s -> free_of "/" s /\ free_of "," s.
Proof.
  intros Hs. split; revert Hs; apply str_all_impl; intros c [[_ ?]%andb_true_iff ?]%andb_true_iff; done.
Qed.

Lemma insert_param_eq m k v :
  free_of "=" k -> str_all graphic k = true -> str_all graphic v = true ->
  insert_param m (k +:+ "=" +:+ v) = <[k := v]> m /\ insert_param m (String " " (k +:+ "=" +:+ v)) = <[k := v]> m.
Proof.
  intros Hk Hgk Hgv. assert (str_all graphic (k +:+ "=" +:+ v) = true) as Hg by by rewrite !str_all_app, Hgk, Hgv.
  unfold insert_param. rewrite trim_graphic, trim_space_graphic by done.
  change (split_once "=" (k +:+ "=" +:+ v)) with (split_once (char_str "=") (k +:+ char_str "=" +:+ v)).
  by rewrite split_once_char.
Qed.

Lemma parse_auth_params_header credential signed_headers signature :
  str_all graphic credential = true -> free_of "," credential ->
  str_all graphic signed_headers = true -> free_of "," signed_headers ->
  str_all graphic signature = true -> free_of "," signature ->
  parse_auth_params ("Credential=" +:+ credential +:+ ", SignedHeaders=" +:+ signed_headers
                     +:+ ", Signature=" +:+ signature)
  = <["Signature" := signature]> (<["SignedHeaders" := signed_headers]> {["Credential" := credential]}).
Proof.
  intros Gc Fc Gs Fs Gg Fg. unfold parse_auth_params.
  assert (split_char "," ("Credential=" +:+ credential +:+ ", SignedHeaders=" +:+ signed_headers
                     +:+ ", Signature=" +:+ signature)
          = ["Credential" +:+ "=" +:+ credential; String " " ("SignedHeaders" +:+ "=" +:+ signed_headers);
             String " " ("Signature" +:+ "=" +:+ signature)]) as ->.
  { rewrite <- (split_join "," [_; _; _]); [by rewrite ?str_app_assoc|done|].
    unfold free_of in *. repeat constructor; cbn [str_all]; rewrite ?str_all_app, ?Fc, ?Fs, ?Fg; done. }
  cbn [foldl].
  rewrite (proj1 (insert_param_eq _ "Credential" _ eq_refl eq_refl Gc)).
  rewrite (proj2 (insert_param_eq _ "SignedHeaders" _ eq_refl eq_refl Gs)).
  by rewrite (proj2 (insert_param_eq _ "Signature" _ eq_refl eq_refl Gg)).
Qed.

Lemma read_authorization_header access_key date_stamp region signed_headers signature :
  component access_key -> component date_stamp -> component region -> component (sigv4_service sv) ->
  component signed_headers -> signed_headers <> "" -> is_lower_hex signature 64 = true ->
  read_authorization (authorization_header access_key date_stamp region signed_headers signature)
  = Ok (access_key, date_stamp, region, sigv4_service sv, signed_headers, signature).
Proof.
  intros Ha Hd Hr Hs Hh Hne Hx. unfold read_authorization, authorization_header.
  set (credential := str_join "/" _).
  assert (Forall component [access_key; date_stamp; region; sigv4_service sv; "aws4_request"]) as Hc
    by (repeat constructor; done).
  assert (strip_prefix (SIGV4_ALGORITHM +:+ " ")
    (SIGV4_ALGORITHM +:+ " Credential=" +:+ credential +:+ ", SignedHeaders=" +:+ signed_headers
     +:+ ", Signature=" +:+ signature)
    = Some ("Credential=" +:+ credential +:+ ", SignedHeaders=" +:+ signed_headers +:+ ", Signature=" +:+ signature))
    as ->.
  { change " Credential=" with (" " +:+ "Credential="). rewrite !str_app_assoc.
    rewrite <- (str_app_assoc SIGV4_ALGORITHM " "). apply strip_prefix_app. }
  cbn [mbind outcome_bind ok_or].
  assert (str_all graphic signature = true) as Hgx by by eapply lower_hex_graphic.
  assert (free_of "," signature) as Hfx.
  { clear -Hx. apply andb_true_iff in Hx as [_ Hx]. revert Hx. apply str_all_impl. intros c Hc.
    apply negb_true_iff. destruct (Ascii.eqb_spec "," c) as [<-|]; done. }
  rewrite parse_auth_params_header; first last.
  - done.
  - done.
  - by apply component_free.
  - by apply component_graphic.
  - subst credential. apply str_all_join; [done|]. eapply Forall_impl; [exact Hc|]. intros s. by intros [_ ?]%component_free.
  - subst credential. apply str_all_join; [done|]. eapply Forall_impl; [exact Hc|]. apply component_graphic.
  - unfold auth_param, parse_credential_scope. rewrite lookup_insert_ne, lookup_insert_eq by done.
    rewrite lookup_insert_eq, !lookup_insert_ne, lookup_singleton_eq by done. cbn [from_option]. unfold id.
    assert (split_char "/" credential = [access_key; date_stamp; region; sigv4_service sv; "aws4_request"]) as ->.
    { apply (split_join "/"); [done|]. eapply Forall_impl; [exact Hc|]. intros s. by intros [? _]%component_free. }
    cbn. rewrite (lower_hex_nonempty signature Hx). by destruct signed_headers.
Qed.

Lemma graphic_no_space s : str_all graphic s = true -> no_space s = true.
Proof.
  induction s as [|c s IH]; [done|]. cbn [str_all no_space]. intros [Hc Hs]%andb_true_iff.
  rewrite strip_one_of_graphic by (done || by vm_compute). by apply IH.
Qed.
Lemma trim_header access_key date_stamp region signed_headers signature :
  component access_key -> component date_stamp -> component region -> component (sigv4_service sv) ->
  component signed_headers -> is_lower_hex signature 64 = true ->
  let header := authorization_header access_key date_stamp region signed_headers signature in
  trim header = header /\ is_empty header = false.
Proof.
  intros Ha Hd Hr Hs Hh Hx header. split; [|done].
  set (credential := str_join "/" [access_key; date_stamp; region; sigv4_service sv; "aws4_request"]).
  assert (header = str_join " " [SIGV4_ALGORITHM; "Credential=" +:+ credential +:+ ",";
                                 "SignedHeaders=" +:+ signed_headers +:+ ","; "Signature=" +:+ signature]) as ->.
  { subst header. unfold authorization_header. fold credential. cbn [str_join]. by rewrite !str_app_assoc. }
  assert (str_all graphic credential = true).
  { apply str_all_join; [done|]. repeat constructor; by apply component_graphic. }
  apply trim_join. repeat constructor; try done; apply graphic_no_space; rewrite !str_all_app;
    rewrite ?(component_graphic _ Hh), ?(lower_hex_graphic _ _ Hx); try done. by rewrite andb_true_r.
Qed.

(** C37: a client that signs with the configured key, region and service is accepted in
    every mode: the [Authorization] header made of [signature_for_request] over the
    request, whatever headers it names, with a date and a payload hash that is right
    where it is sent. *)
Theorem signed_request_accepted req creds date_stamp signed_headers payload_hash :
  let access_key := default_str (access_key_id creds) "dev" in
  let region := default_str (cr_region creds) "us-east-1" in
  component access_key -> component date_stamp -> component region -> component (sigv4_service sv) ->
  component signed_headers -> signed_headers <> "" -> sg_amz_date req <> "" ->
  payload_hash_of sv req = Ok payload_hash ->
  sg_authorization req = authorization_header access_key date_stamp region signed_headers
    (signature_for_request sv req date_stamp region signed_headers payload_hash creds) ->
  verify_signature sv req creds = Ok tt.
Proof.
  intros access_key region Ha Hd Hr Hs Hh Hne Hdate Hp Hauth. unfold verify_signature.
  destruct (is_empty (auth_mode creds) || _); [done|]. rewrite Hauth.
  set (signature := signature_for_request _ _ _ _ _ _ _) in *.
  assert (is_lower_hex signature 64 = true) as Hx by apply hex_hmac.
  destruct (trim_header access_key date_stamp region signed_headers signature) as [-> ->]; [done..|].
  assert (is_empty (sg_amz_date req) = false) as Hd' by by destruct (sg_amz_date req).
  destruct (eq_ignore_ascii_case _ _).
  - unfold verify_shape. rewrite read_authorization_header by done. cbn.
    rewrite str_eqb_refl, Hx. cbn. rewrite Hd'. cbn. unfold payload_hash_of in Hp.
    destruct (is_empty (sg_content_sha256 req)); [done|]. cbn.
    by destruct (verify_payload_hash req _) as [[] | |].
  - unfold verify_full. rewrite read_authorization_header by done. cbn. unfold valid_credential.
    subst access_key region. rewrite !str_eqb_refl. cbn. rewrite Hd'. cbn. rewrite Hp. cbn.
    subst signature. by rewrite (proj2 (constant_time_eq_correct _ _) eq_refl).
Qed.

(** What acceptance in strict mode establishes. *)
Lemma verify_full_inv req auth creds :
  verify_full sv req auth creds = Ok tt ->
  exists access_key date_stamp region service signed_headers signature payload_hash,
    read_authorization auth = Ok (access_key, date_stamp, region, service, signed_headers, signature)
    /\ valid_credential sv access_key region service creds = true
    /\ payload_hash_of sv req = Ok payload_hash
    /\ signature = signature_for_request sv req date_stamp region signed_headers payload_hash creds.
Proof.
  unfold verify_full. intros Hv.
  destruct (read_authorization auth) as [[[[[[ak ds] rg] svc] sh] sg] | |]; [|done..]. cbn in Hv.
  destruct (valid_credential sv ak rg svc creds) eqn:Hc; [|done]. cbn in Hv.
  destruct (is_empty (sg_amz_date req)); [done|]. cbn in Hv.
  destruct (payload_hash_of sv req) as [ph| |]; [|done..]. cbn in Hv.
  destruct (constant_time_eq sg _) eqn:E; [|done]. apply constant_time_eq_correct in E.
  by exists ak, ds, rg, svc, sh, sg, ph.
Qed.

(** Verification refuses with an error status and never panics. *)
Definition rejects {A} (r : result SignatureError A) : Prop :=
  match r with Ok _ => True | Err e => se_status e <> 200 | Panic _ => False end.
Lemma rejects_bind {A B} (r : result SignatureError A) (f : A -> result SignatureError B) :
  rejects r -> (forall a, rejects (f a)) -> rejects (r ≫= f).
Proof. destruct r; simpl; auto. Qed.
Lemma rejects_ok_or {A} (e : SignatureError) (o : option A) : se_status e <> 200 -> rejects (ok_or e o).
Proof. by destruct o. Qed.
Lemma rejects_if cond e : se_status e <> 200 -> rejects (reject_if cond e).
Proof. by destruct cond. Qed.
Lemma rejects_payload req payload_hash : rejects (verify_payload_hash req payload_hash).
Proof. unfold verify_payload_hash. repeat case_match; done. Qed.
Lemma rejects_authorization auth : rejects (read_authorization auth).
Proof.
  unfold read_authorization. apply rejects_bind; [by apply rejects_ok_or|]. intros params.
  apply rejects_bind; [by apply rejects_ok_or|]. intros [[[ak ds] rg] svc].
  apply rejects_bind; [by apply rejects_if|]. done.
Qed.
Lemma rejects_full req auth creds : rejects (verify_full sv req auth creds).
Proof.
  unfold verify_full. apply rejects_bind; [apply rejects_authorization|]. intros [[[[[ak ds] rg] svc] sh] sg].
  apply rejects_bind; [by apply rejects_if|]. intros _. apply rejects_bind; [by apply rejects_if|]. intros _.
  apply rejects_bind; [|intros ph; by apply rejects_if].
  unfold payload_hash_of. destruct (is_empty _); [done|]. apply rejects_bind; [apply rejects_payload|]. done.
Qed.
Lemma rejects_shape req auth : rejects (verify_shape sv req auth).
Proof.
  unfold verify_shape. apply rejects_bind; [apply rejects_authorization|]. intros [[[[[ak ds] rg] svc] sh] sg].
  apply rejects_bind; [by apply rejects_if|]. intros _. apply rejects_bind; [by apply rejects_if|]. intros _.
  destruct (negb _); [apply rejects_payload|done].
Qed.
Lemma rejects_signature req creds : rejects (verify_signature sv req creds).
Proof.
  unfold verify_signature. destruct (_ || _); [done|]. destruct (is_empty _); [done|].
  destruct (eq_ignore_ascii_case _ _); [apply rejects_shape|apply rejects_full].
Qed.

(** No collision of a digest between two given inputs. *)
Definition no_collision (f : string -> string) (x y : string) : Prop := f x = f y -> x = y.

Lemma declared_hash req payload_hash :
  payload_hash_of sv req = Ok payload_hash ->
  free_of lf payload_hash
  /\ (payload_hash = "UNSIGNED-PAYLOAD" \/ to_ascii_lowercase payload_hash = sha256_hex (sg_body req)).
Proof.
  assert (free_of lf (sha256_hex (sg_body req))) as Hfree
    by (eapply graphic_free; [|eapply lower_hex_graphic, hex_sha256]; done).
  unfold payload_hash_of. destruct (is_empty (sg_content_sha256 req)).
  - destruct (hashes_unsent_payload sv); intros [= <-]; [|split; [done|by left]].
    split; [done|]. right. eapply lower_hex_lowercase, hex_sha256.
  - unfold verify_payload_hash. destruct (str_eqb _ "UNSIGNED-PAYLOAD") eqn:E.
    + cbn. intros [= <-]. apply str_eqb_true in E as ->. split; [done|by left].
    + destruct (starts_with _ _); [done|]. destruct (constant_time_eq _ _) eqn:E'; [|done]. cbn. intros [= <-].
      apply constant_time_eq_correct in E'. split; [|by right]. rewrite <- E' in Hfree. clear -Hfree.
      unfold free_of, to_ascii_lowercase in *. induction (sg_content_sha256 req) as [|c s IH]; [done|].
      cbn [str_map str_all] in *. apply andb_true_iff in Hfree as [Hc Hs]. rewrite IH by done.
      rewrite andb_true_r. unfold compose in *. apply negb_true_iff in Hc. apply negb_true_iff.
      destruct (Ascii.eqb_spec "010" c) as [<-|]; [by vm_compute in Hc|done].
Qed.

Lemma string_to_sign_inj r1 r2 date_stamp region signed_headers ph1 ph2 :
  string_to_sign sv r1 date_stamp region signed_headers ph1
  = string_to_sign sv r2 date_stamp region signed_headers ph2 ->
  sg_amz_date r1 = sg_amz_date r2
  /\ sha256_hex (canonical_request r1 signed_headers ph1) = sha256_hex (canonical_request r2 signed_headers ph2).
Proof.
  unfold string_to_sign. set (scope := str_join "/" _). set (h1 := sha256_hex _). set (h2 := sha256_hex _).
  intros E. apply (cut_last_line lf [_; _; scope] [_; _; scope]) in E as [E Eh]; [|done..| |];
    [|eapply graphic_free; [done|eapply lower_hex_graphic, hex_sha256]..].
  split; [|done]. cbn [str_join] in E. apply str_app_inj_l, str_app_inj_l in E.
  assert (String.length (sg_amz_date r1) = String.length (sg_amz_date r2)) as Hl.
  { apply (f_equal String.length) in E. rewrite !str_length_app in E. lia. }
  by destruct (str_app_inj_length _ _ _ _ Hl E).
Qed.

Lemma canonical_request_inj r1 r2 signed_headers ph1 ph2 :
  free_of lf (sg_method r1) -> free_of lf (sg_method r2) -> free_of lf ph1 -> free_of lf ph2 ->
  canonical_request r1 signed_headers ph1 = canonical_request r2 signed_headers ph2 ->
  sg_method r1 = sg_method r2 /\ canonical_uri (sg_path r1) = canonical_uri (sg_path r2)
  /\ canonical_query_string (sg_query r1) = canonical_query_string (sg_query r2)
  /\ canonical_headers r1 signed_headers = canonical_headers r2 signed_headers /\ ph1 = ph2.
Proof.
  intros M1 M2 P1 P2. unfold canonical_request. cbn [str_join]. intros E.
  apply cut_first in E as [-> E]; [|done..].
  apply cut_first in E as [-> E]; [|eapply graphic_free; [|apply canonical_uri_graphic]; done..].
  apply cut_first in E as [-> E]; [|eapply graphic_free; [|apply canonical_query_graphic]; done..].
  set (l := to_ascii_lowercase signed_headers) in *.
  apply (cut_last_line lf [_; l] [_; l]) in E as [E ->]; [|done..].
  cbn [str_join] in E. apply (f_equal str_rev) in E. rewrite !str_rev_append, !str_app_assoc in E.
  apply str_app_inj_l, str_app_inj_l in E. apply (f_equal str_rev) in E. rewrite !str_rev_involutive in E. done.
Qed.

(** C36: a signature binds the request.  Unless two of the strings compared collide under
    a digest, two requests that a service accepts in strict mode under one [Authorization]
    header have the same date, method and path (an empty path reading as the root), list
    the same query parameters in some order, have the same words in every signed header,
    and have the same body unless the first declares its payload unsigned. *)
Theorem signature_binds_request r1 r2 auth creds
    access_key date_stamp region service signed_headers signature ph1 ph2 :
  read_authorization auth = Ok (access_key, date_stamp, region, service, signed_headers, signature) ->
  verify_full sv r1 auth creds = Ok tt -> verify_full sv r2 auth creds = Ok tt ->
  payload_hash_of sv r1 = Ok ph1 -> payload_hash_of sv r2 = Ok ph2 ->
  no_collision (hmac (derive_signing_key sv (secret_access_key creds) date_stamp region))
    (string_to_sign sv r1 date_stamp region signed_headers ph1)
    (string_to_sign sv r2 date_stamp region signed_headers ph2) ->
  no_collision sha256 (canonical_request r1 signed_headers ph1) (canonical_request r2 signed_headers ph2) ->
  no_collision sha256 (sg_body r1) (sg_body r2) ->
  free_of lf (sg_method r1) -> free_of lf (sg_method r2) ->
  sg_amz_date r1 = sg_amz_date r2 /\ sg_method r1 = sg_method r2
  /\ default_str (sg_path r1) "/" = default_str (sg_path r2) "/"
  /\ (forall params1 params2, query_lists (sg_query r1) params1 -> query_lists (sg_query r2) params2 ->
        params1 ≡ₚ params2)
  /\ (forall name, name ∈ signed_names signed_headers -> header_words r1 name = header_words r2 name)
  /\ (ph1 <> "UNSIGNED-PAYLOAD" -> sg_body r1 = sg_body r2).
Proof.
  intros Hr V1 V2 P1 P2 Cm Cr Cb M1 M2.
  destruct (verify_full_inv _ _ _ V1) as (ak1 & ds1 & rg1 & sv1 & sh1 & sg1 & p1 & R1 & _ & Q1 & S1).
  destruct (verify_full_inv _ _ _ V2) as (ak2 & ds2 & rg2 & sv2 & sh2 & sg2 & p2 & R2 & _ & Q2 & S2).
  rewrite Hr in R1, R2. injection R1 as -> -> -> -> -> ->. injection R2 as -> -> -> -> -> ->.
  rewrite P1 in Q1. rewrite P2 in Q2. injection Q1 as ->. injection Q2 as ->.
  rewrite S2 in S1. apply hex_inj in S1. symmetry in S1. apply Cm in S1.
  apply string_to_sign_inj in S1 as [Hd Hc]. apply hex_inj, Cr in Hc.
  destruct (declared_hash _ _ P1) as [F1 H1]. destruct (declared_hash _ _ P2) as [F2 H2].
  apply canonical_request_inj in Hc as (Hm & Hu & Hq & Hh & ->); [|done..].
  split_and!; [done|done|by apply canonical_uri_inj| |by apply canonical_headers_inj|].
  - intros l1 l2 <-%query_listed <-%query_listed. by apply canonical_query_inj.
  - intros Hne. destruct H1 as [|H1]; [done|]. destruct H2 as [|H2]; [done|].
    apply Cb. apply hex_inj. unfold sha256_hex in *. congruence.
Qed.
End Verified.
