(* ===== verification/SsmServer.v ===== *)
(** The Systems Manager parameter store: services/ssm/src/server.rs, every operation
    with its validation, its rollback and its state file. *)

From Stdlib Require Import SpecFloat.
From S2P Require Import Prelude RustStr RustNum RustText Json StateFile AwsSigV4.
Local Open Scope string_scope.
Local Open Scope Z_scope.

Definition MAX_NAME_CHARS : Z := 2048.
Definition MAX_STANDARD_VALUE_BYTES : Z := 4096.
Definition MAX_ADVANCED_VALUE_BYTES : Z := 8192.
Definition DEFAULT_DESCRIBE_PAGE : Z := 50.
Definition MAX_DESCRIBE_PAGE : Z := 50.

Record Config := mkConfig {
  cfg_addr : string; cfg_region : string; cfg_account_id : string; cfg_auth_mode : string;
  cfg_access_key_id : string; cfg_secret_access_key : string; cfg_storage_path : string }.

Definition error_outcome (status : Z) (name message : string) : Outcome :=
  mkOutcome status (Some name) (json_obj [("__type", JString name); ("message", JString message)]).
Definition validation (message : string) : Outcome := error_outcome 400 "ValidationException" message.
Definition not_found (name : string) : Outcome :=
  error_outcome 400 "ParameterNotFound" ("Parameter " +:+ name +:+ " not found.").

Record SsmParameter := mkParam {
  p_kind : string; p_value : string; p_version : Z; p_last_modified : f64;
  p_description : string; p_key_id : string; p_tier : string; p_data_type : string }.
(** The derived [Serialize]. *)
Definition parameter_value (p : SsmParameter) : Value :=
  struct_value
    [field "Type" (JString (p_kind p)); field "Value" (JString (p_value p));
     field "Version" (int_value (p_version p)); field "LastModifiedDate" (f64_value (p_last_modified p));
     str_field "Description" (p_description p); str_field "KeyId" (p_key_id p);
     field "Tier" (JString (p_tier p)); field "DataType" (JString (p_data_type p))].
Definition persisted_value (parameters : gmap string SsmParameter) : Value :=
  struct_value [field "Parameters" (map_value parameter_value parameters)].

Record PutParameterRequest := mkPut {
  put_name : string; put_value : option string; put_kind : string; put_overwrite : bool;
  put_description : string; put_key_id : string; put_tier : string; put_data_type : string }.
Record GetParameterRequest := mkGet { get_name : string; get_with_decryption : bool }.
Record DeleteParameterRequest := mkDelete { del_name : string }.
Record DescribeParametersRequest := mkDescribe {
  desc_max_results : option Z; desc_next_token : string;
  desc_filters : list Value; desc_parameter_filters : list Value }.

(** serde_json's readers, at the types read. *)
Class Readers := {
  put_from_slice : string -> option PutParameterRequest;
  get_from_slice : string -> option GetParameterRequest;
  delete_from_slice : string -> option DeleteParameterRequest;
  describe_from_slice : string -> option DescribeParametersRequest;
  state_from_slice : string -> gmap string SsmParameter + string }.

Definition decode {T} (from_slice : string -> option T) (body : string) : result Outcome T :=
  let body := if is_empty body then "{}" else body in
  ok_or (error_outcome 400 "SerializationException" "invalid request body") (from_slice body).

(** ** Names and selectors *)

Definition name_byte (b : ascii) : bool :=
  is_ascii_alphanumeric b || Ascii.eqb b "_" || Ascii.eqb b "." || Ascii.eqb b "-" || Ascii.eqb b "/".
Definition validate_name (name : string) : result Outcome unit :=
  if is_empty name then Err (validation "Parameter name must not be empty.")
  else if MAX_NAME_CHARS <? Z.of_nat (length (chars name)) then
    Err (validation "Parameter name exceeds the maximum length of 2048 characters.")
  else if contains "/" name && negb (starts_with "/" name) then
    Err (validation "Parameter name: hierarchical names must begin with a forward slash (/).")
  else
    let first_segment := to_ascii_lowercase (trim_start_by (Ascii.eqb "/") name) in
    if starts_with "aws" first_segment || starts_with "ssm" first_segment then
      Err (validation ("Parameter name: can't be prefixed with " +:+ char_str dquote +:+ "aws" +:+ char_str dquote
                       +:+ " or " +:+ char_str dquote +:+ "ssm" +:+ char_str dquote +:+ " (case-insensitive)."))
    else if negb (str_all name_byte name) then
      Err (validation "Parameter name: only a mix of letters, numbers and the following 4 symbols .-_/ are allowed.")
    else Ok tt.

(** [s.rsplit_once(c)] *)
Definition rsplit_once (c : ascii) (s : string) : option (string * string) :=
  match split_once (char_str c) (str_rev s) with
  | Some (b, a) => Some (str_rev a, str_rev b)
  | None => None
  end.
Definition split_selector (name : string) : result Outcome (string * option Z) :=
  match rsplit_once ":" name with
  | None => Ok (name, None)
  | Some (base, selector) =>
      match parse_u64 selector with
      | Some v => Ok (base, Some v)
      | None => Err (validation "Parameter labels are not supported by devcloud; use a numeric version selector.")
      end
  end.

(** ** The server *)

Record Server := mkServer { parameters : gmap string SsmParameter; load_err : option string }.
Abbreviation SsmWorld := (World Server).
Abbreviation Api := (ME Outcome SsmWorld).

Definition set_parameters (ps : gmap string SsmParameter) (w : SsmWorld) : SsmWorld :=
  set_state (mkServer ps (load_err (w_state w))) w.

Definition region (c : Config) : string := if is_empty (cfg_region c) then "us-east-1" else cfg_region c.
Definition account_id (c : Config) : string := if is_empty (cfg_account_id c) then "000000000000" else cfg_account_id c.
Definition arn (c : Config) (name : string) : string :=
  let path := if starts_with "/" name then name else "/" +:+ name in
  "arn:aws:ssm:" +:+ region c +:+ ":" +:+ account_id c +:+ ":parameter" +:+ path.

(** Restores the entry that [insert] or [remove] replaced. *)
Definition restore (name : string) (previous : option SsmParameter) (w : SsmWorld) : SsmWorld :=
  set_parameters (match previous with
                  | Some p => <[name := p]> (parameters (w_state w))
                  | None => delete name (parameters (w_state w))
                  end) w.

Section Server.
Context `{Host, Build, Digests, SerdeJson, Readers} (c : Config).

Definition encrypted_placeholder (value : string) : string :=
  "devcloud-kms-encrypted:" +:+ hex_encode (sha256 value).

(** Milliseconds as a float, divided by a thousand. *)
Definition now_epoch_seconds : Api f64 :=
  nanos ← since_epoch; mret (f64_div (f64_of_Z (nanos / 1000000)) (f64_of_Z 1000)).

Definition load : ME string SsmWorld unit :=
  t ← next_tick;
  match fs_read t with
  | Some e => fail e
  | None =>
      file ← gets w_file;
      match file with
      | None => mret tt
      | Some data =>
          persisted ← lift (of_result (state_from_slice data));
          modify (set_parameters persisted)
      end
  end.
(** A new process: a new mutex around an empty map, then the state file. *)
Definition new : ME string SsmWorld unit :=
  modify (fun w => mkWorld (mkServer ∅ None) false (w_file w) (w_tmp w) (w_tick w));;
  if is_empty (cfg_storage_path c) then mret tt
  else
    r ← catch load;
    match r with
    | inl _ => mret tt
    | inr e => modify (fun w => set_state (mkServer (parameters (w_state w)) (Some e)) w)
    end.

Definition persist : Api (option string) :=
  if is_empty (cfg_storage_path c) then mret None
  else
    ps ← gets (fun w => parameters (w_state w));
    replace_file (json_to_vec (persisted_value ps)).
(** [if self.persist(..).is_err() { rollback; return error }] *)
Definition persist_or (rollback : SsmWorld -> SsmWorld) : Api unit :=
  r ← persist;
  match r with
  | None => mret tt
  | Some _ => modify rollback;; fail (error_outcome 500 "InternalServerError" "failed to persist ssm state")
  end.

Definition tier_of (tier : string) : result Outcome string :=
  if is_empty tier || str_eqb tier "Standard" || str_eqb tier "Intelligent-Tiering" then Ok "Standard"
  else if str_eqb tier "Advanced" then Ok "Advanced"
  else Err (validation "Tier must be one of Standard, Advanced, Intelligent-Tiering.").
Definition data_type_of (data_type : string) : result Outcome string :=
  if is_empty data_type || str_eqb data_type "text" then Ok "text"
  else if str_eqb data_type "aws:ec2:image" || str_eqb data_type "aws:ssm:integration" then Ok data_type
  else Err (validation "DataType must be one of text, aws:ec2:image, aws:ssm:integration.").
Definition kind_of (previous : option SsmParameter) (kind : string) (overwrite : bool) : result Outcome string :=
  match previous with
  | Some p =>
      if negb overwrite then
        Err (error_outcome 400 "ParameterAlreadyExists"
          "The parameter already exists. To overwrite this value, set the overwrite option in the request to true.")
      else Ok (if is_empty kind then p_kind p else kind)
  | None => if is_empty kind then Err (validation "Type is required when creating a parameter.") else Ok kind
  end.
Definition limit_of (tier : string) : Z :=
  if str_eqb tier "Advanced" then MAX_ADVANCED_VALUE_BYTES else MAX_STANDARD_VALUE_BYTES.

(** The checks before the lock: the value, the tier and the data type stored. *)
Definition check_put (req : PutParameterRequest) : result Outcome (string * string * string) :=
  _ ← validate_name (put_name req);
  value ← ok_or (validation "Value is required.") (put_value req);
  if is_empty value then Err (validation "Parameter value must not be empty.")
  else if negb (is_empty (put_kind req))
          && negb (existsb (str_eqb (put_kind req)) ["String"; "StringList"; "SecureString"]) then
    Err (validation "Type must be one of String, StringList, SecureString.")
  else
    tier ← tier_of (put_tier req);
    if limit_of tier <? str_len value then
      Err (validation ("Parameter value exceeds the maximum size of " +:+ show_Z (limit_of tier)
                       +:+ " bytes for the " +:+ tier +:+ " tier."))
    else
      data_type ← data_type_of (put_data_type req);
      Ok (value, tier, data_type).

Definition next_version (previous : option SsmParameter) : result Outcome Z :=
  match previous with Some p => checked_u64 (p_version p + 1) | None => Ok 1 end.
Definition key_id_of (kind key_id : string) : string :=
  if str_eqb kind "SecureString" then (if is_empty key_id then "alias/aws/ssm" else key_id) else "".
Definition description_of (previous : option SsmParameter) (description : string) : string :=
  if is_empty description then match previous with Some p => p_description p | None => "" end else description.

Definition put_parameter (body : string) : Api Outcome :=
  req ← lift (decode put_from_slice body);
  '(value, tier, data_type) ← lift (check_put req);
  with_lock (
    ps ← gets (fun w => parameters (w_state w));
    let previous := ps !! put_name req in
    kind ← lift (kind_of previous (put_kind req) (put_overwrite req));
    version ← lift (next_version previous);
    let description := description_of previous (put_description req) in
    let key_id := key_id_of kind (put_key_id req) in
    last_modified ← now_epoch_seconds;
    modify (set_parameters
      (<[put_name req := mkParam kind value version last_modified description key_id tier data_type]> ps));;
    persist_or (restore (put_name req) previous);;
    mret (ok_outcome (json_obj [("Version", int_value version); ("Tier", JString tier)]))).

Definition find_parameter (name : string) (e : Outcome) : Api SsmParameter :=
  ps ← gets (fun w => parameters (w_state w)); lift (ok_or e (ps !! name)).

Definition shown_value (p : SsmParameter) (with_decryption : bool) : string :=
  if str_eqb (p_kind p) "SecureString" && negb with_decryption then encrypted_placeholder (p_value p) else p_value p.
Definition parameter_out (name : string) (version : option Z) (p : SsmParameter) (with_decryption : bool) : Value :=
  json_obj ([("Name", JString name); ("Type", JString (p_kind p)); ("Value", JString (shown_value p with_decryption));
             ("Version", int_value (p_version p)); ("LastModifiedDate", f64_value (p_last_modified p));
             ("ARN", JString (arn c name)); ("DataType", JString (p_data_type p))]
            ++ match version with Some _ => [("Selector", JString (":" +:+ show_Z (p_version p)))] | None => [] end)%list.
Definition get_parameter (body : string) : Api Outcome :=
  req ← lift (decode get_from_slice body);
  '(name, version) ← lift (split_selector (get_name req));
  lift (validate_name name);;
  with_lock (
    p ← find_parameter name (not_found (get_name req));
    guard_err (match version with Some v => negb (v =? p_version p) | None => false end)
      (error_outcome 400 "ParameterVersionNotFound"
        ("Systems Manager could not find version " +:+ show_Z (default 0 version) +:+ " of " +:+ name +:+ "."));;
    mret (ok_outcome (json_obj [("Parameter", parameter_out name version p (get_with_decryption req))]))).

Definition delete_parameter (body : string) : Api Outcome :=
  req ← lift (decode delete_from_slice body);
  lift (validate_name (del_name req));;
  with_lock (
    previous ← find_parameter (del_name req) (not_found (del_name req));
    modify (fun w => set_parameters (delete (del_name req) (parameters (w_state w))) w);;
    persist_or (restore (del_name req) (Some previous));;
    mret (ok_outcome (json_obj []))).

Definition page_size (max_results : option Z) : result Outcome Z :=
  match max_results with
  | None => Ok DEFAULT_DESCRIBE_PAGE
  | Some n => if (1 <=? n) && (n <=? MAX_DESCRIBE_PAGE) then Ok n
              else Err (validation "MaxResults must be between 1 and 50.")
  end.
Definition past_token {V} (token : string) (e : string * V) : bool :=
  is_empty token || match String.compare e.1 token with Gt => true | _ => false end.
Definition describe_entry (e : string * SsmParameter) : Value :=
  let '(name, p) := e in
  json_obj (([("Name", JString name); ("ARN", JString (arn c name)); ("Type", JString (p_kind p));
              ("Version", int_value (p_version p)); ("LastModifiedDate", f64_value (p_last_modified p));
              ("Tier", JString (p_tier p)); ("DataType", JString (p_data_type p))]
             ++ (if is_empty (p_description p) then [] else [("Description", JString (p_description p))])
             ++ (if is_empty (p_key_id p) then [] else [("KeyId", JString (p_key_id p))])))%list.
(** The page after [token] and the token of the next one. *)
Definition describe_page (ps : gmap string SsmParameter) (token : string) (page : Z)
    : list (string * SsmParameter) * option string :=
  let items := take (Z.to_nat (page + 1)) (List.filter (past_token token) (btree_iter ps)) in
  let listed := take (Z.to_nat page) items in
  (listed,
   if page <? Z.of_nat (length items) then fst <$> (items !! Z.to_nat (page - 1)) else None).
Definition describe_parameters (body : string) : Api Outcome :=
  req ← lift (decode describe_from_slice body);
  guard_err (negb (nil_b (desc_filters req)) || negb (nil_b (desc_parameter_filters req)))
    (validation "DescribeParameters filters are not supported by devcloud.");;
  page ← lift (page_size (desc_max_results req));
  with_lock (
    ps ← gets (fun w => parameters (w_state w));
    let '(listed, next) := describe_page ps (desc_next_token req) page in
    mret (ok_outcome (json_obj ([("Parameters", JArray (map describe_entry listed))]
      ++ match next with Some n => [("NextToken", JString n)] | None => [] end)%list))).

Definition operation_of (operation body : string) : Api Outcome :=
  if str_eqb operation "PutParameter" then put_parameter body
  else if str_eqb operation "GetParameter" then get_parameter body
  else if str_eqb operation "DeleteParameter" then delete_parameter body
  else if str_eqb operation "DescribeParameters" then describe_parameters body
  else fail (error_outcome 400 "UnknownOperationException" "unknown operation").
(** Both arms of a handler's result are answers. *)
Definition dispatch (operation body : string) : ME string SsmWorld Outcome := fun w =>
  match operation_of operation body w with
  | (Ok o, w') | (Err o, w') => (Ok o, w')
  | (Panic why, w') => (Panic why, w')
  end.
End Server.
