(* ===== verification/SsmTheorems.v ===== *)
(** The parameter store's correctness: the abstract register it implements, its state file,
    refusals and paging, and what a secret's plaintext can reach. *)

From S2P Require Import Prelude RustStr RustNum RustText Json StateFile AwsSigV4 SsmServer.
Local Open Scope string_scope.
Local Open Scope Z_scope.

(** The parameter store's correctness: the abstract register it implements, the state
    file, refusals, paging, and what a secret's plaintext can reach. *)

Abbreviation Register := (gmap string SsmParameter).
Create HintDb refuses discriminated.

Section Register.
Context `{Host, Build, Digests, SerdeJson, Readers} (c : Config).
Implicit Types (w : SsmWorld) (ps : Register).

(** ** The register

    What a call does, without the lock, the files and the rollbacks. *)

Definition put_answer (version : Z) (tier : string) : Outcome :=
  ok_outcome (json_obj [("Version", int_value version); ("Tier", JString tier)]).
Definition get_answer (name : string) (version : option Z) (p : SsmParameter) (with_decryption : bool) : Outcome :=
  ok_outcome (json_obj [("Parameter", parameter_out c name version p with_decryption)]).
Definition describe_answer (listed : list (string * SsmParameter)) (next : option string) : Outcome :=
  ok_outcome (json_obj ([("Parameters", JArray (map (describe_entry c) listed))]
      ++ match next with Some n => [("NextToken", JString n)] | None => [] end)%list).

Inductive register_step (ps : Register) : string -> string -> Outcome -> Register -> Prop :=
| step_put body req value tier data_type kind version at_ :
    decode put_from_slice body = Ok req -> check_put req = Ok (value, tier, data_type) ->
    kind_of (ps !! put_name req) (put_kind req) (put_overwrite req) = Ok kind ->
    next_version (ps !! put_name req) = Ok version ->
    register_step ps "PutParameter" body (put_answer version tier)
      (<[put_name req := mkParam kind value version at_ (description_of (ps !! put_name req) (put_description req))
                           (key_id_of kind (put_key_id req)) tier data_type]> ps)
| step_get body req name version p :
    decode get_from_slice body = Ok req -> split_selector (get_name req) = Ok (name, version) ->
    validate_name name = Ok tt -> ps !! name = Some p ->
    (forall v, version = Some v -> v = p_version p) ->
    register_step ps "GetParameter" body (get_answer name version p (get_with_decryption req)) ps
| step_delete body req p :
    decode delete_from_slice body = Ok req -> validate_name (del_name req) = Ok tt -> ps !! del_name req = Some p ->
    register_step ps "DeleteParameter" body (ok_outcome (json_obj [])) (delete (del_name req) ps)
| step_describe body req page :
    decode describe_from_slice body = Ok req -> desc_filters req = [] -> desc_parameter_filters req = [] ->
    page_size (desc_max_results req) = Ok page ->
    register_step ps "DescribeParameters" body
      (describe_answer (describe_page ps (desc_next_token req) page).1 (describe_page ps (desc_next_token req) page).2)
      ps.

(** ** Calls *)

Definition storage_off : bool := is_empty (cfg_storage_path c).
(** The state file holds the register. *)
Definition saved w : Prop :=
  storage_off = true \/ w_file w = Some (json_to_vec (persisted_value (parameters (w_state w)))).
Definition unchanged w w' : Prop :=
  w_state w' = w_state w /\ w_file w' = w_file w /\ w_poisoned w' = w_poisoned w.

(** A call answers and takes the register's step, saved or with the files as they
    were; or it is refused and changes nothing; or it panics. *)
Definition call_post (operation body : string) w (o : result Outcome Outcome) w' : Prop :=
  match o with
  | Ok out =>
      w_poisoned w = false /\ w_poisoned w' = false /\ load_err (w_state w') = load_err (w_state w)
      /\ o_status out = 200
      /\ register_step (parameters (w_state w)) operation body out (parameters (w_state w'))
      /\ (saved w' \/ unchanged w w')
      /\ (storage_off = true -> w_file w' = w_file w)
  | Err e => o_status e <> 200 /\ unchanged w w'
  | Panic _ =>
      w_state w' = w_state w /\ w_file w' = w_file w
      /\ (w_poisoned w = true \/
          operation = "PutParameter" /\ overflow_checks = true
          /\ exists name p, parameters (w_state w) !! name = Some p /\ ~ 0 <= p_version p + 1 < 2 ^ 64)
  end.

Lemma unchanged_refl w : unchanged w w.
Proof. done. Qed.

Lemma refused_decode {T} (f : string -> option T) body e : decode f body = Err e -> o_status e <> 200.
Proof. unfold decode, ok_or. by destruct (f _) as [x|]; [|intros [= <-]]. Qed.
Lemma decode_no_panic {T} (f : string -> option T) body why : decode f body <> Panic why.
Proof. unfold decode, ok_or. by destruct (f _). Qed.

(** Pure checks refuse with an error status and never panic. *)
Definition refuses {A} (r : result Outcome A) : Prop :=
  match r with Ok _ => True | Err e => o_status e <> 200 | Panic _ => False end.
Lemma refuses_bind {A B} (r : result Outcome A) (f : A -> result Outcome B) :
  refuses r -> (forall a, refuses (f a)) -> refuses (r ≫= f).
Proof. destruct r; simpl; auto. Qed.
Lemma refuses_decode {T} (f : string -> option T) body : refuses (decode f body).
Proof. unfold decode, ok_or. by destruct (f _). Qed.
Lemma refuses_ok_or {A} e (o : option A) : o_status e <> 200 -> refuses (ok_or e o).
Proof. by destruct o. Qed.
Lemma refuses_validate name : refuses (validate_name name).
Proof. unfold validate_name. repeat case_match; done. Qed.
Lemma refuses_selector name : refuses (split_selector name).
Proof. unfold split_selector. repeat case_match; done. Qed.
Lemma refuses_tier tier : refuses (tier_of tier).
Proof. unfold tier_of. repeat case_match; done. Qed.
Lemma refuses_data_type d : refuses (data_type_of d).
Proof. unfold data_type_of. repeat case_match; done. Qed.
Lemma refuses_kind previous kind overwrite : refuses (kind_of previous kind overwrite).
Proof. unfold kind_of. repeat case_match; done. Qed.
Lemma refuses_page n : refuses (page_size n).
Proof. unfold page_size. repeat case_match; done. Qed.
Hint Resolve refuses_decode refuses_validate refuses_selector refuses_tier refuses_data_type refuses_kind
  refuses_page : refuses.
Lemma refuses_check_put req : refuses (check_put req).
Proof.
  unfold check_put. apply refuses_bind; [apply refuses_validate|]. intros _.
  apply refuses_bind; [by apply refuses_ok_or|]. intros value.
  destruct (is_empty value); [done|]. destruct (negb _ && _); [done|].
  apply refuses_bind; [apply refuses_tier|]. intros tier. destruct (_ <? _); [done|].
  apply refuses_bind; [apply refuses_data_type|]. done.
Qed.
Hint Resolve refuses_check_put : refuses.

(** A check before the lock: its refusal ends the call. *)
Lemma ssm_check {A B} (r : result Outcome A) (f : A -> Api B) w (Q : result Outcome B -> SsmWorld -> Prop) :
  refuses r -> (forall e, o_status e <> 200 -> Q (Err e) w) -> (forall a, r = Ok a -> wp (f a) Q w) ->
  wp (lift r ≫= f) Q w.
Proof. intros Hr He Hf. apply wp_bind, wp_lift. destruct r; simpl in *; eauto. done. Qed.

Lemma ssm_persist_or rollback w (Q : result Outcome unit -> SsmWorld -> Prop) :
  (forall tmp tick, Q (Err (error_outcome 500 "InternalServerError" "failed to persist ssm state"))
     (rollback (mkWorld (w_state w) (w_poisoned w) (w_file w) tmp tick))) ->
  (storage_off = true -> Q (Ok tt) w) ->
  (forall tick, storage_off = false ->
     Q (Ok tt) (mkWorld (w_state w) (w_poisoned w) (Some (json_to_vec (persisted_value (parameters (w_state w))))) None tick)) ->
  wp (persist_or c rollback) Q w.
Proof.
  intros Hf Hoff Hon. unfold persist_or, persist. apply wp_bind. fold storage_off.
  destruct storage_off eqn:Eoff.
  - apply wp_ret. simpl. apply wp_ret. auto.
  - apply wp_bind, wp_gets. simpl. apply wp_replace_file; simpl; intros.
    + apply wp_bind, wp_modify. simpl. by apply wp_fail.
    + apply wp_ret. auto.
Qed.

(** Undoing an insertion or a removal. *)
Lemma restore_undo name ps ps' err poisoned file tmp tick :
  (forall k, k <> name -> ps' !! k = ps !! k) ->
  restore name (ps !! name) (mkWorld (mkServer ps' err) poisoned file tmp tick)
  = mkWorld (mkServer ps err) poisoned file tmp tick.
Proof.
  intros Hk. unfold restore, set_parameters, set_state. simpl. f_equal. f_equal. apply map_eq. intros k.
  destruct (decide (k = name)) as [->|Hne].
  - destruct (ps !! name) eqn:E; [by rewrite lookup_insert_eq|by rewrite lookup_delete_eq].
  - destruct (ps !! name); [rewrite lookup_insert_ne by done|rewrite lookup_delete_ne by done]; by apply Hk.
Qed.

Lemma next_version_no_err previous e : next_version previous <> Err e.
Proof. unfold next_version, checked_u64. destruct previous; [|done]. by repeat case_match. Qed.
Lemma next_version_panic previous why :
  next_version previous = Panic why ->
  overflow_checks = true /\ exists p, previous = Some p /\ ~ 0 <= p_version p + 1 < 2 ^ 64.
Proof.
  unfold next_version, checked_u64, in_width. destruct previous as [p|]; [|done]. intros Hv.
  destruct ((0 <=? p_version p + 1) && (p_version p + 1 <=? 2 ^ 64 - 1)) eqn:E; [done|].
  destruct overflow_checks; [|done]. split; [done|]. exists p. split; [done|]. lia.
Qed.

Lemma put_parameter_post body w : wp (put_parameter c body) (call_post "PutParameter" body w) w.
Proof.
  unfold put_parameter.
  apply ssm_check; [auto with refuses|by intros|]. intros req Hreq.
  apply ssm_check; [auto with refuses|by intros|]. intros [[value tier] data_type] Hcheck.
  apply wp_with_lock; [by intros; simpl; auto|]. intros Hp.
  apply wp_bind, wp_gets. simpl. set (ps := parameters (w_state w)). set (previous := ps !! put_name req).
  apply ssm_check; [auto with refuses|by intros|]. intros kind Hkind.
  apply wp_bind, wp_lift. destruct (next_version previous) as [version|e|why] eqn:Hv; simpl.
  - apply wp_bind. unfold now_epoch_seconds. apply wp_bind, wp_since_epoch. intros nanos tick _. simpl. apply wp_ret.
    set (at_ := f64_div _ _). simpl. apply wp_bind, wp_modify. simpl. apply wp_bind.
    set (p := mkParam _ _ _ _ _ _ _ _). apply ssm_persist_or; simpl.
    + intros tmp tick'. unfold set_parameters, set_state. simpl. subst previous. rewrite restore_undo.
      * split; [done|]. split; [|done]. simpl. subst ps. by destruct (w_state w).
      * intros k Hk. by apply lookup_insert_ne.
    + intros Hoff. apply wp_ret. repeat split; try done; [by econstructor|left; by left].
    + intros tick' Hon. apply wp_ret. repeat split; try done; [by econstructor|left; by right|congruence].
  - by apply next_version_no_err in Hv.
  - repeat split; try done. right. split; [done|]. apply next_version_panic in Hv as (Ho & p & Hprev & Hr).
    split; [done|]. by exists (put_name req), p.
Qed.

Lemma get_parameter_post body w : wp (get_parameter c body) (call_post "GetParameter" body w) w.
Proof.
  unfold get_parameter.
  apply ssm_check; [auto with refuses|by intros|]. intros req Hreq.
  apply ssm_check; [auto with refuses|by intros|]. intros [name version] Hsel.
  apply ssm_check; [auto with refuses|by intros|]. intros [] Hname.
  apply wp_with_lock; [by intros; simpl; auto|]. intros Hp. unfold find_parameter.
  apply wp_bind, wp_bind, wp_gets. simpl. apply wp_lift. destruct (_ !! name) as [p|] eqn:Ep; simpl; [|done].
  apply wp_bind, wp_guard; intros Hg; simpl; [done|]. apply wp_ret.
  repeat split; try done; [|right; done]. econstructor; try done. intros v ->. simpl in Hg.
  apply negb_false_iff in Hg. lia.
Qed.

Lemma delete_parameter_post body w : wp (delete_parameter c body) (call_post "DeleteParameter" body w) w.
Proof.
  unfold delete_parameter.
  apply ssm_check; [auto with refuses|by intros|]. intros req Hreq.
  apply ssm_check; [auto with refuses|by intros|]. intros [] Hname.
  apply wp_with_lock; [by intros; simpl; auto|]. intros Hp. unfold find_parameter.
  apply wp_bind, wp_bind, wp_gets. simpl. apply wp_lift. destruct (_ !! del_name req) as [p|] eqn:Ep; simpl; [|done].
  apply wp_bind, wp_modify. simpl. apply wp_bind, ssm_persist_or; simpl.
  - intros tmp tick. unfold set_parameters, set_state. simpl. rewrite <- Ep, restore_undo.
    + split; [done|]. split; [|done]. simpl. by destruct (w_state w).
    + intros k Hk. by apply lookup_delete_ne.
  - intros Hoff. apply wp_ret. repeat split; try done; [by econstructor|left; by left].
  - intros tick Hon. apply wp_ret. repeat split; try done; [by econstructor|left; by right|congruence].
Qed.

Lemma describe_parameters_post body w : wp (describe_parameters c body) (call_post "DescribeParameters" body w) w.
Proof.
  unfold describe_parameters.
  apply ssm_check; [auto with refuses|by intros|]. intros req Hreq.
  apply wp_bind, wp_guard; intros Hg; simpl; [done|]. apply orb_false_iff in Hg as [Hg1 Hg2].
  apply ssm_check; [auto with refuses|by intros|]. intros page Hpage.
  apply wp_with_lock; [by intros; simpl; auto|]. intros Hp.
  apply wp_bind, wp_gets. simpl. apply wp_ret. repeat split; try done; [|by right].
  apply (step_describe (parameters (w_state w)) body req page Hreq);
    [by destruct (desc_filters req)|by destruct (desc_parameter_filters req)|done].
Qed.

Lemma operation_post operation body w : wp (operation_of c operation body) (call_post operation body w) w.
Proof.
  unfold operation_of. destruct (str_eqb operation "PutParameter") eqn:E1.
  { apply str_eqb_true in E1 as ->. apply put_parameter_post. }
  destruct (str_eqb operation "GetParameter") eqn:E2.
  { apply str_eqb_true in E2 as ->. apply get_parameter_post. }
  destruct (str_eqb operation "DeleteParameter") eqn:E3.
  { apply str_eqb_true in E3 as ->. apply delete_parameter_post. }
  destruct (str_eqb operation "DescribeParameters") eqn:E4.
  { apply str_eqb_true in E4 as ->. apply describe_parameters_post. }
  by apply wp_fail.
Qed.

(** ** Histories *)

(** Calls, and restarts on a register that serde_json reads back. *)
Definition reads_back ps : Prop := state_from_slice (json_to_vec (persisted_value ps)) = inl ps.
Inductive ssm_step w : SsmWorld -> Prop :=
| ssm_call operation body : ssm_step w (dispatch c operation body w).2
| ssm_restart : reads_back (parameters (w_state w)) -> fs_read (w_tick w) = None -> ssm_step w (new c w).2.
(** A first start on an empty disk. *)
Definition ssm_boot : SsmWorld := mkWorld (mkServer ∅ None) false None None 0.
Definition ssm_reachable w : Prop := rtc ssm_step ssm_boot w.

Definition wf_entry (name : string) (p : SsmParameter) : Prop :=
  validate_name name = Ok tt
  /\ p_kind p ∈ ["String"; "StringList"; "SecureString"]
  /\ p_value p <> "" /\ str_len (p_value p) <= limit_of (p_tier p)
  /\ p_tier p ∈ ["Standard"; "Advanced"]
  /\ p_data_type p ∈ ["text"; "aws:ec2:image"; "aws:ssm:integration"]
  /\ 0 <= p_version p < 2 ^ 64
  /\ (p_key_id p <> "" <-> p_kind p = "SecureString").
Definition wf_register ps : Prop := map_Forall wf_entry ps.

(** The file is the register's, or there is neither. *)
Definition on_disk w : Prop :=
  storage_off = true \/ w_file w = Some (json_to_vec (persisted_value (parameters (w_state w))))
  \/ w_file w = None /\ parameters (w_state w) = ∅.
Definition ssm_inv w : Prop :=
  wf_register (parameters (w_state w)) /\ load_err (w_state w) = None /\ on_disk w
  /\ (storage_off = true -> w_file w = None).

Lemma check_put_inv req value tier data_type :
  check_put req = Ok (value, tier, data_type) ->
  validate_name (put_name req) = Ok tt /\ put_value req = Some value /\ value <> ""
  /\ (put_kind req = "" \/ put_kind req ∈ ["String"; "StringList"; "SecureString"])
  /\ str_len value <= limit_of tier /\ tier ∈ ["Standard"; "Advanced"]
  /\ data_type ∈ ["text"; "aws:ec2:image"; "aws:ssm:integration"].
Proof.
  unfold check_put. destruct (validate_name (put_name req)) as [[]| |]; [|done..]. cbn [mbind outcome_bind].
  destruct (put_value req) as [v|]; [|done]. cbn [ok_or mbind outcome_bind].
  destruct (is_empty v) eqn:Ev; [done|]. destruct (negb _ && _) eqn:Ek; [done|].
  destruct (tier_of (put_tier req)) as [t| |] eqn:Et; [|done..]. cbn [mbind outcome_bind].
  destruct (Z.ltb_spec (limit_of t) (str_len v)); [done|].
  destruct (data_type_of _) as [d| |] eqn:Edt; [|done..]. cbn [mbind outcome_bind]. intros [= <- <- <-].
  split; [done|]. split; [done|]. split; [by destruct v|]. split.
  { apply andb_false_iff in Ek as [Ek|Ek]; apply negb_false_iff in Ek.
    - apply is_empty_true in Ek. by left.
    - right. apply existsb_exists in Ek as (x & Hx & ->%str_eqb_true). by apply list_elem_of_In. }
  split; [done|]. split.
  - unfold tier_of in Et. repeat case_match; simplify_eq; set_solver.
  - unfold data_type_of in Edt. repeat case_match; simplify_eq; try set_solver.
    match goal with E : _ || _ = true |- _ => apply orb_true_iff in E as [->%str_eqb_true | ->%str_eqb_true] end;
      set_solver.
Qed.

Lemma register_step_wf ps operation body out ps' :
  register_step ps operation body out ps' -> wf_register ps -> wf_register ps'.
Proof.
  intros Hs Hwf. destruct Hs as [b req value tier data_type kind version at_ Hd Hc Hk Hv| | |]; try done.
  - apply map_Forall_insert_2; [|done].
    apply check_put_inv in Hc as (Hn & _ & Hne & Hkind & Hl & Ht & Hdt).
    split; [done|]. simpl.
    assert (kind ∈ ["String"; "StringList"; "SecureString"]) as Hkk.
    { unfold kind_of in Hk. destruct (ps !! put_name req) as [q|] eqn:Eq.
      - destruct (negb _); [done|]. destruct (is_empty (put_kind req)) eqn:Em; injection Hk as <-.
        + by apply (Hwf _ _ Eq).
        + destruct Hkind as [E|]; [by rewrite E in Em|done].
      - destruct (is_empty (put_kind req)) eqn:Em; [done|]. injection Hk as <-.
        destruct Hkind as [E|]; [by rewrite E in Em|done]. }
    repeat (split; [done|]). split.
    + unfold next_version in Hv. destruct (ps !! put_name req); [by eapply checked_u64_range|].
      injection Hv as <-. lia.
    + unfold key_id_of. destruct (str_eqb kind "SecureString") eqn:E.
      * apply str_eqb_true in E as ->. split; [done|]. intros _. by destruct (put_key_id req).
      * split; [done|]. intros ->. done.
  - by apply map_Forall_delete.
Qed.

(** The three outcomes of a call at its caller. *)
Lemma dispatch_post operation body w :
  (exists out, dispatch c operation body w = (Ok out, (dispatch c operation body w).2)
     /\ (call_post operation body w (Ok out) (dispatch c operation body w).2
         \/ call_post operation body w (Err out) (dispatch c operation body w).2))
  \/ exists why, dispatch c operation body w = (Panic why, (dispatch c operation body w).2)
     /\ call_post operation body w (Panic why) (dispatch c operation body w).2.
Proof.
  pose proof (operation_post operation body w) as Hp. unfold wp in Hp. unfold dispatch.
  destruct (operation_of c operation body w) as [[out|out|why] w'] eqn:E; simpl in *; eauto 6.
Qed.

Lemma dispatch_inv operation body w : ssm_inv w -> ssm_inv (dispatch c operation body w).2.
Proof.
  intros (Hwf & Herr & Hd & Hoff). set (w' := (dispatch c operation body w).2).
  assert (forall w0, w_state w0 = w_state w -> w_file w0 = w_file w -> ssm_inv w0) as Hsame.
  { intros w0 Hs Hf. unfold ssm_inv, on_disk. by rewrite Hs, Hf. }
  destruct (dispatch_post operation body w) as [(out & _ & [Hp|Hp])|(why & _ & Hp)]; fold w' in Hp; simpl in Hp.
  - destruct Hp as (_ & _ & Hl & _ & Hs & [Hsv|(Hu1 & Hu2 & _)] & Ho); [|by apply Hsame].
    split; [by eapply register_step_wf|]. split; [congruence|]. split.
    + destruct Hsv as [|Hsv]; [by left|right; by left].
    + intros Hst. rewrite Ho by done. auto.
  - destruct Hp as (_ & Hs & Hf & _). by apply Hsame.
  - destruct Hp as (Hs & Hf & _). by apply Hsame.
Qed.

Lemma new_restores w :
  on_disk w -> (storage_off = true -> w_file w = None) -> reads_back (parameters (w_state w)) ->
  fs_read (w_tick w) = None -> storage_off = false ->
  exists tick, new c w = (Ok tt, mkWorld (mkServer (parameters (w_state w)) None) false (w_file w) (w_tmp w) tick).
Proof.
  intros Hd _ Hr Hrd Hst. unfold storage_off in *. unfold new, mbind, m_bind, modify. rewrite Hst. unfold catch, load, mbind, m_bind, next_tick.
  simpl. rewrite Hrd. unfold gets. simpl. destruct Hd as [Ho|[Hf|[Hf He]]]; [unfold storage_off in Ho; congruence| |].
  - rewrite Hf. unfold lift. rewrite Hr. simpl. eauto.
  - rewrite Hf, He. simpl. eauto.
Qed.
Lemma new_off w : storage_off = true ->
  new c w = (Ok tt, mkWorld (mkServer ∅ None) false (w_file w) (w_tmp w) (w_tick w)).
Proof. intros Hst. unfold new, mbind, m_bind, modify. unfold storage_off in Hst. by rewrite Hst. Qed.

Lemma ssm_step_inv w w' : ssm_step w w' -> ssm_inv w -> ssm_inv w'.
Proof.
  intros [operation body|Hr Hrd] Hi; [by apply dispatch_inv|]. destruct Hi as (Hwf & Herr & Hd & Hoff).
  destruct storage_off eqn:Hst.
  - rewrite new_off by done. split; [done|]. split; [done|]. split; [by left|]. intros _. simpl. auto.
  - destruct (new_restores w) as [tick ->]; [done|by rewrite Hst|done..|].
    split; [done|]. split; [done|]. split; [exact Hd|]. intros Ho. by rewrite Hst in Ho.
Qed.
Lemma ssm_reachable_inv w : ssm_reachable w -> ssm_inv w.
Proof.
  unfold ssm_reachable. intros Hr. assert (ssm_inv ssm_boot) as Hb.
  { split; [apply map_Forall_empty|]. split; [done|]. split; [right; by right|done]. }
  induction Hr as [|w1 w2 w3 Hs _ IH]; [done|]. apply IH. by eapply ssm_step_inv.
Qed.

(** ** Paging *)

(** A client's walk: a page of each size in turn, from the token of the last. *)
Fixpoint walk ps (sizes : list Z) (token : string) : list (string * SsmParameter) * option string :=
  match sizes with
  | [] => ([], Some token)
  | page :: sizes =>
      let '(listed, next) := describe_page ps token page in
      match next with
      | None => (listed, None)
      | Some token => let '(rest, last) := walk ps sizes token in ((listed ++ rest)%list, last)
      end
  end.

(** What the page after a token shows: the token is empty, or the last key listed. *)
Definition resumes ps (token : string) (l : list (string * SsmParameter)) : Prop :=
  List.filter (past_token token) (btree_iter ps) = l.

Lemma resumes_start ps : resumes ps "" (btree_iter ps).
Proof. unfold resumes. induction (btree_iter ps) as [|e l IH]; [done|]. simpl. by rewrite IH. Qed.
Lemma resumes_after ps pre e l :
  btree_iter ps = (pre ++ e :: l)%list -> e.1 <> "" -> resumes ps e.1 l.
Proof.
  intros E He. unfold resumes. rewrite E. apply filter_past.
  - rewrite <- E. apply btree_iter_sorted.
  - rewrite <- E. apply NoDup_btree_keys.
  - intros x. unfold past_token. by destruct e.1.
Qed.

Lemma describe_page_eq ps token l page :
  resumes ps token l -> 1 <= page ->
  if decide (Z.of_nat (length l) <= page) then describe_page ps token page = (l, None)
  else exists a e r, l = (a ++ e :: r)%list /\ r <> [] /\ Z.of_nat (length a) + 1 = page
    /\ describe_page ps token page = ((a ++ [e])%list, Some e.1).
Proof.
  intros Hr Hp. unfold describe_page. rewrite Hr. destruct (decide _) as [Hl|Hl].
  - rewrite !take_ge by (rewrite ?length_take; lia). destruct (Z.ltb_spec page (Z.of_nat (length l))); [lia|done].
  - apply Z.nle_gt in Hl. destruct (lookup_lt_is_Some_2 l (Z.to_nat (page - 1))) as [e He]; [lia|].
    pose proof (take_drop_middle l _ _ He) as Hsplit.
    exists (take (Z.to_nat (page - 1)) l), e, (drop (S (Z.to_nat (page - 1))) l). split; [done|]. split; [|split].
    + intros Hd. apply (f_equal length) in Hd. rewrite length_drop in Hd. simpl in Hd. lia.
    + rewrite length_take. lia.
    + rewrite take_take, Nat.min_l by lia. rewrite length_take.
      destruct (Z.ltb_spec page (Z.of_nat (Nat.min (Z.to_nat (page + 1)) (length l)))); [|lia]. f_equal.
      * replace (Z.to_nat page) with (S (Z.to_nat (page - 1))) by lia. by apply take_S_r.
      * rewrite lookup_take_lt by lia. by rewrite He.
Qed.

Lemma walk_resumes ps sizes token pre l :
  (forall k p, ps !! k = Some p -> k <> "") ->
  btree_iter ps = (pre ++ l)%list -> resumes ps token l ->
  Forall (fun n => 1 <= n) sizes -> sizes <> [] -> (length l <= length sizes)%nat ->
  walk ps sizes token = (l, None).
Proof.
  intros Hk. revert token pre l. induction sizes as [|page sizes IH]; intros token pre l He Hr Hs Hne Hlen; [done|].
  apply Forall_cons in Hs as [Hp Hs]. cbn [walk].
  pose proof (describe_page_eq ps token l page Hr Hp) as Hd. destruct (decide _) as [Hl|Hl]; [by rewrite Hd|].
  destruct Hd as (a & e & r & -> & Hrne & Ha & ->).
  rewrite (IH e.1 (pre ++ a ++ [e])%list r).
  - by rewrite <- app_assoc.
  - by rewrite He, <- !app_assoc.
  - apply (resumes_after ps (pre ++ a)); [by rewrite He, <- app_assoc|]. destruct e as [k p]. apply (Hk k p).
    apply elem_of_btree_iter. rewrite He. set_solver.
  - done.
  - intros ->. rewrite length_app in Hlen. destruct r; [done|]. simpl in *. lia.
  - rewrite length_app in Hlen. simpl in *. lia.
Qed.
End Register.
Section Facts.
Context `{Host, Build, Digests, SerdeJson, Readers} (c : Config).
Implicit Types (w : SsmWorld) (ps : Register).

(** A name that is stored has no selector in it. *)
Lemma rsplit_once_none x s : free_of x s -> rsplit_once x s = None.
Proof.
  intros Hs. unfold rsplit_once. rewrite split_once_char_None; [done|]. by rewrite str_all_rev.
Qed.
Lemma rsplit_once_app x s t : free_of x t -> rsplit_once x (s +:+ char_str x +:+ t) = Some (s, t).
Proof.
  intros Ht. unfold rsplit_once. rewrite !str_rev_append, str_app_assoc. change (str_rev (char_str x)) with (char_str x).
  rewrite split_once_char by (by rewrite str_all_rev). by rewrite !str_rev_involutive.
Qed.
Lemma validate_name_bytes name : validate_name name = Ok tt -> str_all name_byte name = true /\ name <> "".
Proof.
  unfold validate_name. destruct (is_empty name) eqn:E; [done|]. repeat case_match; try done. intros _.
  split; [by apply negb_false_iff|by destruct name].
Qed.
Lemma name_no_colon name : validate_name name = Ok tt -> free_of ":" name.
Proof.
  intros [Hn _]%validate_name_bytes. revert Hn. apply str_all_impl. intros x Hx. apply negb_true_iff.
  destruct (Ascii.eqb_spec ":" x) as [<-|]; done.
Qed.
(** The [Name] a client sends: the name alone, or with the version it wants. *)
Definition selected (name : string) (version : option Z) : string :=
  match version with None => name | Some v => name +:+ ":" +:+ show_Z v end.
Lemma split_selected name version :
  validate_name name = Ok tt -> (forall v, version = Some v -> 0 <= v < 2 ^ 64) ->
  split_selector (selected name version) = Ok (name, version).
Proof.
  intros Hn Hv. unfold split_selector, selected. destruct version as [v|].
  - specialize (Hv v eq_refl). change ":" with (char_str ":"). rewrite rsplit_once_app.
    + unfold parse_u64. by rewrite parse_show_Z by lia.
    + unfold show_Z. destruct (Z.ltb_spec v 0); [lia|]. eapply str_all_impl; [|by apply str_all_show].
      intros x Hx. apply negb_true_iff. destruct (Ascii.eqb_spec ":" x) as [<-|]; done.
  - by rewrite rsplit_once_none by by apply name_no_colon.
Qed.

Lemma get_parameter_eval w body name version p d :
  decode get_from_slice body = Ok (mkGet (selected name version) d) -> validate_name name = Ok tt ->
  parameters (w_state w) !! name = Some p -> 0 <= p_version p < 2 ^ 64 ->
  (forall v, version = Some v -> v = p_version p) -> w_poisoned w = false ->
  dispatch c "GetParameter" body w = (Ok (get_answer c name version p d), w).
Proof.
  intros Hd Hn Hp Hr Hv Hl. unfold dispatch, operation_of. simpl.
  unfold get_parameter, mbind, m_bind, lift. rewrite Hd. simpl. rewrite split_selected; [|done|].
  - rewrite Hn. unfold with_lock. rewrite Hl. unfold find_parameter, mbind, m_bind, gets, lift. simpl. rewrite Hp. simpl.
    unfold guard_err. destruct version as [v|]; simpl.
    + rewrite (Hv v eq_refl), Z.eqb_refl. done.
    + done.
  - intros v Ev. by rewrite (Hv v Ev).
Qed.

(** C33: the server refines the register.  In every reachable state a call either
    answers 200 and takes the register's step for it - one entry set under the next
    version, one entry read, one removed, one page listed - with the state file holding
    the new register, or answers an error and changes nothing; it panics only where a
    version overflows, or after that. *)
Theorem ssm_refines_register w operation body :
  ssm_reachable c w ->
  let '(o, w') := dispatch c operation body w in
  match o with
  | Ok out =>
      (o_status out = 200
       /\ register_step c (parameters (w_state w)) operation body out (parameters (w_state w'))
       /\ (saved c w' \/ unchanged w w'))
      \/ (o_status out <> 200 /\ unchanged w w')
  | Err _ => False
  | Panic _ =>
      w_state w' = w_state w /\ w_file w' = w_file w
      /\ (w_poisoned w = true
          \/ overflow_checks = true /\ exists name p,
               parameters (w_state w) !! name = Some p /\ p_version p + 1 = 2 ^ 64)
  end.
Proof.
  intros Hr. pose proof (ssm_reachable_inv c w Hr) as (Hwf & _).
  destruct (dispatch_post c operation body w) as [(out & -> & [Hp|Hp])|(why & -> & Hp)]; simpl in Hp.
  - left. tauto.
  - right. done.
  - destruct Hp as (? & ? & [?|(_ & Ho & name & p & Hl & Hv)]); [tauto|]. split; [done|]. split; [done|]. right.
    split; [done|]. exists name, p. split; [done|]. destruct (Hwf _ _ Hl) as (_ & _ & _ & _ & _ & _ & Hvr & _). lia.
Qed.

(** what is put is got.  After an accepted PutParameter a GetParameter of the name,
    alone or with the version just assigned, answers the value as sent, under that
    version - the first of a new name, the next of an old one. *)
Theorem ssm_put_get w body out w' req gbody version value tier data_type :
  ssm_reachable c w ->
  dispatch c "PutParameter" body w = (Ok out, w') -> o_status out = 200 ->
  decode put_from_slice body = Ok req -> check_put req = Ok (value, tier, data_type) ->
  decode get_from_slice gbody = Ok (mkGet (selected (put_name req) version) true) ->
  let next := match parameters (w_state w) !! put_name req with Some p => p_version p + 1 | None => 1 end in
  next < 2 ^ 64 -> (version = None \/ version = Some next) ->
  out = put_answer next tier
  /\ exists p, dispatch c "GetParameter" gbody w' = (Ok (get_answer c (put_name req) version p true), w')
       /\ p_value p = value /\ p_version p = next /\ shown_value p true = value.
Proof.
  intros Hr Hput Hst Hreq Hc Hget next Hnext Hver. pose proof (ssm_reachable_inv c w Hr) as (Hwf & _).
  pose proof (dispatch_post c "PutParameter" body w) as Hp. rewrite Hput in Hp. simpl in Hp.
  destruct Hp as [(out' & [= <-] & [Hp|[Hp _]])|(why & [=] & _)]; [|done].
  destruct Hp as (_ & Hpois & _ & _ & Hs & _).
  inversion Hs as [b r v t d kind ver at_ Hd Hc' Hk Hv| | |]; subst.
  rewrite Hreq in Hd. injection Hd as <-. rewrite Hc in Hc'. injection Hc' as <- <- <-.
  assert (ver = next) as ->.
  { unfold next_version in Hv. subst next.
    destruct (parameters (w_state w) !! put_name req) as [p|] eqn:Ep; [|congruence].
    destruct (Hwf _ _ Ep) as (_ & _ & _ & _ & _ & _ & Hvr & _). unfold checked_u64, in_width in Hv.
    destruct ((0 <=? p_version p + 1) && (p_version p + 1 <=? 2 ^ 64 - 1)) eqn:E; [congruence|lia]. }
  split; [done|]. destruct (check_put_inv _ _ _ _ Hc) as (Hn & _).
  assert (0 <= next) as Hn0.
  { subst next. destruct (_ !! put_name req) as [p|] eqn:Ep; [|lia].
    destruct (Hwf _ _ Ep) as (_ & _ & _ & _ & _ & _ & Hvr & _). lia. }
  match goal with E : _ = parameters (w_state w') |- _ => rename E into Hps end.
  eexists. split.
  - eapply get_parameter_eval; [done|done|rewrite <- Hps; apply lookup_insert_eq|..|done]; cbn [p_version].
    + clearbody next. lia.
    + intros v ->. by destruct Hver as [|[= ->]].
  - simpl. unfold shown_value. simpl. by rewrite andb_false_r.
Qed.

(** what the store holds is always in order and survives: in every reachable state
    each entry has a valid name, a value within its tier's limit, a known type, tier and
    data type, a version, and a key exactly for a SecureString; and a restart on the
    state file comes up with the same entries, serving. *)
Theorem ssm_store_sound w :
  ssm_reachable c w ->
  wf_register (parameters (w_state w)) /\ load_err (w_state w) = None
  /\ (cfg_storage_path c <> "" -> reads_back (parameters (w_state w)) -> fs_read (w_tick w) = None ->
      exists w', new c w = (Ok tt, w') /\ parameters (w_state w') = parameters (w_state w)
        /\ load_err (w_state w') = None /\ w_poisoned w' = false).
Proof.
  intros Hr. pose proof (ssm_reachable_inv c w Hr) as (Hwf & Herr & Hd & Hoff).
  split; [done|]. split; [done|]. intros Hst Hrb Hrd.
  destruct (new_restores c w) as [tick ->]; try done.
  - unfold storage_off. by destruct (cfg_storage_path c).
  - by eexists.
Qed.

Lemma describe_parameters_eval w body req page :
  decode describe_from_slice body = Ok req -> desc_filters req = [] -> desc_parameter_filters req = [] ->
  page_size (desc_max_results req) = Ok page -> w_poisoned w = false ->
  let answer := describe_page (parameters (w_state w)) (desc_next_token req) page in
  dispatch c "DescribeParameters" body w = (Ok (describe_answer c answer.1 answer.2), w).
Proof.
  intros Hd Hf Hpf Hp Hl. unfold dispatch, operation_of. simpl.
  unfold describe_parameters, mbind, m_bind, lift. rewrite Hd. simpl. rewrite Hf, Hpf. simpl. rewrite Hp.
  unfold with_lock. by rewrite Hl.
Qed.

(** DescribeParameters is complete: following [NextToken] with pages of any sizes
    the operation admits lists every parameter once, in name order, and ends - within as
    many pages as there are parameters.  Each page is what the call answers. *)
Theorem ssm_describe_complete w sizes :
  ssm_reachable c w ->
  Forall (fun n => page_size (Some n) = Ok n) sizes -> sizes <> [] ->
  (size (parameters (w_state w)) <= length sizes)%nat ->
  walk (parameters (w_state w)) sizes "" = (btree_iter (parameters (w_state w)), None)
  /\ forall body req page,
       decode describe_from_slice body = Ok req -> desc_filters req = [] -> desc_parameter_filters req = [] ->
       page_size (desc_max_results req) = Ok page -> w_poisoned w = false ->
       let answer := describe_page (parameters (w_state w)) (desc_next_token req) page in
       dispatch c "DescribeParameters" body w = (Ok (describe_answer c answer.1 answer.2), w).
Proof.
  intros Hr Hs Hne Hlen. pose proof (ssm_reachable_inv c w Hr) as (Hwf & _).
  split; [|intros; by apply describe_parameters_eval].
  apply (walk_resumes _ _ _ []); try done.
  - intros k p Hk. destruct (Hwf _ _ Hk) as [Hv _]. by apply validate_name_bytes in Hv as [_ Hv].
  - apply resumes_start.
  - eapply Forall_impl; [exact Hs|]. intros n. unfold page_size. destruct (Z.leb_spec 1 n); done.
  - unfold btree_iter. by rewrite merge_sort_Permutation, length_map_to_list.
Qed.
End Facts.

(** What the plaintext of a SecureString can reach: a relational reading of the
    parameter store's handlers, in which two servers that differ in such plaintexts
    alone answer alike. *)

Section Secrets.
Context `{Host, Build, Digests, SerdeJson, Readers} (c : Config).

(** What is public of a parameter: the plaintext of a SecureString only by its digest. *)
Definition public (p : SsmParameter) : SsmParameter :=
  mkParam (p_kind p) (if str_eqb (p_kind p) "SecureString" then sha256 (p_value p) else p_value p)
    (p_version p) (p_last_modified p) (p_description p) (p_key_id p) (p_tier p) (p_data_type p).
Definition same_public (ps ps' : Register) : Prop := public <$> ps = public <$> ps'.

(** The two servers: the same but for those plaintexts and the contents of their files. *)
Definition alike (w w' : SsmWorld) : Prop :=
  same_public (parameters (w_state w)) (parameters (w_state w')) /\ load_err (w_state w) = load_err (w_state w')
  /\ w_poisoned w = w_poisoned w' /\ w_tick w = w_tick w'.

(** [m] and [m'], run alike, end alike with related results. *)
Definition result_rel {A} (R : A -> A -> Prop) (o o' : result Outcome A) : Prop :=
  match o, o' with
  | Ok a, Ok a' => R a a'
  | Err e, Err e' => e = e'
  | Panic y, Panic y' => y = y'
  | _, _ => False
  end.
Definition agree {A} (R : A -> A -> Prop) (m m' : Api A) : Prop :=
  forall w w', alike w w' -> result_rel R (m w).1 (m' w').1 /\ alike (m w).2 (m' w').2.

Lemma agree_bind {A B} (R : A -> A -> Prop) (R' : B -> B -> Prop) (m m' : Api A) (f f' : A -> Api B) :
  agree R m m' -> (forall a a', R a a' -> agree R' (f a) (f' a')) -> agree R' (m ≫= f) (m' ≫= f').
Proof.
  intros Hm Hf w w' Hw. specialize (Hm w w' Hw). unfold mbind, m_bind.
  destruct (m w) as [[a|e|y] v], (m' w') as [[a'|e'|y'] v']; simpl in *; destruct Hm as [Hr Hv]; try done.
  by apply Hf.
Qed.
Lemma agree_lift {A} (r : result Outcome A) : agree eq (lift r) (lift r).
Proof. intros w w' Hw. unfold lift. by destruct r. Qed.
Lemma agree_ret {A} (R : A -> A -> Prop) a a' : R a a' -> agree R (mret a) (mret a').
Proof. by intros Hr w w' Hw. Qed.
Lemma agree_check {A B} (R : B -> B -> Prop) (r : result Outcome A) (f f' : A -> Api B) :
  (forall a, r = Ok a -> agree R (f a) (f' a)) -> agree R (lift r ≫= f) (lift r ≫= f').
Proof. intros Hf w w' Hw. unfold mbind, m_bind, lift. destruct r; [by apply Hf|done..]. Qed.
Lemma agree_lift_rel {A} (R : A -> A -> Prop) (r r' : result Outcome A) : result_rel R r r' -> agree R (lift r) (lift r').
Proof. intros Hr w w' Hw. unfold lift. by destruct r, r'. Qed.
Lemma agree_guard (b b' : bool) e : b = b' -> agree eq (guard_err b e) (guard_err b' e).
Proof. intros <- w w' Hw. by destruct b. Qed.
Lemma agree_gets : agree same_public (gets (fun w : SsmWorld => parameters (w_state w))) (gets (fun w => parameters (w_state w))).
Proof. intros w w' Hw. split; [apply Hw|done]. Qed.
Lemma agree_modify f f' : (forall w w', alike w w' -> alike (f w) (f' w')) -> agree eq (modify f) (modify f').
Proof. intros Hf w w' Hw. split; [done|]. by apply Hf. Qed.
Lemma agree_tick : agree eq next_tick next_tick.
Proof. intros w w' (Hp & Hl & Hm & Ht). unfold next_tick. simpl. split; [done|]. repeat split; simpl; congruence. Qed.
Lemma agree_since : agree eq since_epoch since_epoch.
Proof. apply (agree_bind eq); [apply agree_tick|]. intros t _ <-. by apply agree_ret. Qed.
Lemma agree_step call torn torn' done_ done_' :
  (forall t w w', alike w w' -> alike (torn t w) (torn' t w') /\ alike (done_ t w) (done_' t w')) ->
  agree eq (fs_step call torn done_) (fs_step call torn' done_').
Proof.
  intros Hf. apply (agree_bind eq); [apply agree_tick|]. intros t _ <-.
  destruct (call t); (apply (agree_bind eq); [apply agree_modify; intros; by apply Hf|]; intros; by apply agree_ret).
Qed.
Lemma agree_and_then a a' b b' : agree eq a a' -> agree eq b b' -> agree eq (and_then a b) (and_then a' b').
Proof. intros Ha Hb. apply (agree_bind eq); [done|]. intros [e|] _ <-; [by apply agree_ret|done]. Qed.
Lemma agree_replace data data' : agree eq (replace_file data) (replace_file data').
Proof. repeat apply agree_and_then; apply agree_step; intros t w w' Hw; split; exact Hw. Qed.
Lemma agree_persist_or rollback rollback' :
  (forall w w', alike w w' -> alike (rollback w) (rollback' w')) -> agree eq (persist_or c rollback) (persist_or c rollback').
Proof.
  intros Hr. apply (agree_bind eq).
  - unfold persist. destruct (is_empty _); [by apply agree_ret|].
    apply (agree_bind _ _ _ _ _ _ agree_gets). intros ps ps' _. apply agree_replace.
  - intros [e|] _ <-; [|by apply agree_ret]. apply (agree_bind eq); [by apply agree_modify|]. intros _ _ _. by intros w w' Hw.
Qed.
Lemma agree_lock {A} (R : A -> A -> Prop) m m' : agree R m m' -> agree R (with_lock m) (with_lock m').
Proof.
  intros Hm w w' Hw. unfold with_lock. specialize (Hm w w' Hw). pose proof Hw as (_ & _ & Hp & _).
  rewrite <- Hp. destruct (w_poisoned w) eqn:E; [done|].
  destruct (m w) as [[a|e|y] v], (m' w') as [[a'|e'|y'] v']; simpl in *; destruct Hm as [Hr Hv]; try done.
  split; [done|]. destruct Hv as (? & ? & ? & ?). by repeat split.
Qed.

Lemma alike_set ps ps' w w' : same_public ps ps' -> alike w w' -> alike (set_parameters ps w) (set_parameters ps' w').
Proof. intros Hs (_ & ? & ? & ?). by repeat split. Qed.
Lemma same_lookup ps ps' k : same_public ps ps' -> public <$> ps !! k = public <$> ps' !! k.
Proof. intros Hs. rewrite <- !lookup_fmap. by rewrite Hs. Qed.
Lemma same_insert ps ps' k p p' : same_public ps ps' -> public p = public p' -> same_public (<[k := p]> ps) (<[k := p']> ps').
Proof. intros Hs Hp. unfold same_public in *. by rewrite !fmap_insert, Hs, Hp. Qed.
Lemma same_delete ps ps' k : same_public ps ps' -> same_public (delete k ps) (delete k ps').
Proof. intros Hs. unfold same_public in *. by rewrite !fmap_delete, Hs. Qed.
Lemma alike_restore k o o' w w' : public <$> o = public <$> o' -> alike w w' -> alike (restore k o w) (restore k o' w').
Proof.
  intros Ho Hw. unfold restore. apply alike_set; [|done]. destruct Hw as [Hs _].
  destruct o, o'; try done; [apply (inj Some) in Ho; by apply same_insert|by apply same_delete].
Qed.

(** What the answers use of a parameter is public. *)
Lemma public_fields p p' : public p = public p' ->
  p_kind p = p_kind p' /\ p_version p = p_version p' /\ p_last_modified p = p_last_modified p'
  /\ p_description p = p_description p' /\ p_key_id p = p_key_id p' /\ p_tier p = p_tier p' /\ p_data_type p = p_data_type p'
  /\ shown_value p false = shown_value p' false.
Proof.
  destruct p as [k v n l d i t y], p' as [k' v' n' l' d' i' t' y']. unfold public, shown_value, encrypted_placeholder. simpl.
  intros [= -> Hv -> -> -> -> -> ->]. repeat (split; [done|]). rewrite andb_true_r.
  destruct (str_eqb k' "SecureString"); [by rewrite Hv|done].
Qed.
Lemma public_option {A} (f : SsmParameter -> A) o o' d :
  (forall p p', public p = public p' -> f p = f p') -> public <$> o = public <$> o' ->
  match o with Some p => f p | None => d end = match o' with Some p => f p | None => d end.
Proof. intros Hf. destruct o, o'; try done. intros Ho. apply (inj Some) in Ho. by apply Hf. Qed.

Definition same_entry (e e' : string * SsmParameter) : Prop := e.1 = e'.1 /\ public e.2 = public e'.2.
Lemma map_eq_Forall2 {A B} (f : A -> B) l l' : map f l = map f l' -> Forall2 (fun x y => f x = f y) l l'.
Proof. revert l'. induction l as [|x l IH]; intros [|y l'] E; try done. injection E as E1 E2. constructor; auto. Qed.
Lemma same_entries ps ps' : same_public ps ps' -> Forall2 same_entry (btree_iter ps) (btree_iter ps').
Proof.
  intros Hs. pose proof (f_equal btree_iter Hs) as Hb. rewrite !btree_iter_fmap in Hb.
  apply map_eq_Forall2 in Hb. eapply Forall2_impl; [exact Hb|]. intros [k p] [k' p'] E.
  split; [exact (f_equal fst E)|exact (f_equal snd E)].
Qed.
Lemma same_filter token l l' : Forall2 same_entry l l' ->
  Forall2 same_entry (List.filter (past_token token) l) (List.filter (past_token token) l').
Proof.
  induction 1 as [|e e' l l' [Hk Hp] Hl IH]; [constructor|]. simpl.
  assert (past_token token e = past_token token e') as -> by (unfold past_token; by rewrite Hk).
  destruct (past_token token e'); [by constructor|done].
Qed.
Lemma describe_entry_public e e' : same_entry e e' -> describe_entry c e = describe_entry c e'.
Proof.
  destruct e as [k p], e' as [k' p']. intros [Hk Hp]. simpl in Hk. subst k'.
  destruct (public_fields _ _ Hp) as (H1' & H2' & H3' & H4' & H5' & H6' & H7' & _). simpl in *.
  by rewrite H1', H2', H3', H4', H5', H6', H7'.
Qed.
Lemma describe_page_public ps ps' token page : same_public ps ps' ->
  map (describe_entry c) (describe_page ps token page).1 = map (describe_entry c) (describe_page ps' token page).1
  /\ (describe_page ps token page).2 = (describe_page ps' token page).2.
Proof.
  intros Hs. unfold describe_page. simpl.
  pose proof (Forall2_take _ _ _ (Z.to_nat (page + 1)) (same_filter token _ _ (same_entries _ _ Hs))) as Hf.
  set (l := take (Z.to_nat (page + 1)) (List.filter _ (btree_iter ps))) in *.
  set (l' := take (Z.to_nat (page + 1)) (List.filter _ (btree_iter ps'))) in *. clearbody l l'. split.
  - apply (Forall2_take _ _ _ (Z.to_nat page)) in Hf. induction Hf as [|e e' r r' He Hr IH]; [done|].
    simpl. by rewrite IH, (describe_entry_public _ _ He).
  - rewrite (Forall2_length _ _ _ Hf). destruct (_ <? _); [|done].
    destruct (l !! Z.to_nat (page - 1)) as [e|] eqn:E.
    + destruct (Forall2_lookup_l _ _ _ _ _ Hf E) as (e' & -> & [He _]). simpl. by rewrite He.
    + apply lookup_ge_None in E. rewrite (Forall2_length _ _ _ Hf) in E. by rewrite (proj2 (lookup_ge_None _ _) E).
Qed.

(** ** The handlers *)

Lemma agree_put body : agree eq (put_parameter c body) (put_parameter c body).
Proof.
  unfold put_parameter. apply agree_check. intros req _. apply agree_check. intros [[value tier] data_type] _.
  apply agree_lock, (agree_bind _ _ _ _ _ _ agree_gets). intros ps ps' Hs.
  pose proof (same_lookup _ _ (put_name req) Hs) as Ho.
  set (o := ps !! put_name req) in *. set (o' := ps' !! put_name req) in *. clearbody o o'.
  assert (kind_of o (put_kind req) (put_overwrite req) = kind_of o' (put_kind req) (put_overwrite req)) as <-.
  { unfold kind_of. destruct o as [p|], o' as [p'|]; try done. apply (inj Some) in Ho.
    by rewrite (proj1 (public_fields _ _ Ho)). }
  assert (next_version o = next_version o') as <-.
  { unfold next_version. apply (public_option (fun p => checked_u64 (p_version p + 1))); [|done].
    intros p p' Hp. by destruct (public_fields _ _ Hp) as (_ & -> & _). }
  assert (description_of o (put_description req) = description_of o' (put_description req)) as <-.
  { unfold description_of. destruct (is_empty _); [|done]. apply (public_option p_description); [|done].
    intros p p' Hp. by destruct (public_fields _ _ Hp) as (_ & _ & _ & -> & _). }
  apply agree_check. intros kind _. apply agree_check. intros version _.
  apply (agree_bind eq).
  { apply (agree_bind eq); [apply agree_since|]. intros n _ <-. by apply agree_ret. }
  intros at_ _ <-. apply (agree_bind eq).
  { apply agree_modify. intros w w' Hw. apply alike_set; [by apply same_insert|done]. }
  intros _ _ _. apply (agree_bind eq); [apply agree_persist_or; intros; by apply alike_restore|].
  intros _ _ _. by apply agree_ret.
Qed.

Lemma agree_find name e : agree (fun p p' => public p = public p') (find_parameter name e) (find_parameter name e).
Proof.
  unfold find_parameter. apply (agree_bind _ _ _ _ _ _ agree_gets). intros ps ps' Hs. apply agree_lift_rel.
  pose proof (same_lookup _ _ name Hs) as Ho. destruct (ps !! name), (ps' !! name); try done.
  by apply (inj Some) in Ho.
Qed.

Lemma agree_get body : (forall req, decode get_from_slice body = Ok req -> get_with_decryption req = false) ->
  agree eq (get_parameter c body) (get_parameter c body).
Proof.
  intros Hno. unfold get_parameter. apply agree_check. intros req Hreq. apply agree_check. intros [name version] _.
  apply agree_check. intros [] _. apply agree_lock, (agree_bind _ _ _ _ _ _ (agree_find _ _)). intros p p' Hp.
  destruct (public_fields _ _ Hp) as (Hk & Hv & Ht & _ & _ & _ & Hd & Hs). rewrite Hv.
  apply (agree_bind eq); [by apply agree_guard|]. intros _ _ _. apply agree_ret. do 4 f_equal.
  unfold parameter_out. by rewrite (Hno req Hreq), Hk, Hv, Ht, Hd, Hs.
Qed.

Lemma agree_delete body : agree eq (delete_parameter c body) (delete_parameter c body).
Proof.
  unfold delete_parameter. apply agree_check. intros req _. apply agree_check. intros [] _.
  apply agree_lock, (agree_bind _ _ _ _ _ _ (agree_find _ _)). intros p p' Hp.
  apply (agree_bind eq).
  { apply agree_modify. intros w w' Hw. apply alike_set; [|done]. apply same_delete. by destruct Hw as [Hs _]. }
  intros _ _ _. apply (agree_bind eq).
  { apply agree_persist_or. intros w w' Hw. apply alike_restore; [|done]. simpl. by rewrite Hp. }
  intros _ _ _. by apply agree_ret.
Qed.

Lemma agree_describe body : agree eq (describe_parameters c body) (describe_parameters c body).
Proof.
  unfold describe_parameters. apply agree_check. intros req _. apply (agree_bind eq); [by apply agree_guard|].
  intros _ _ _. apply agree_check. intros page _. apply agree_lock, (agree_bind _ _ _ _ _ _ agree_gets).
  intros ps ps' Hs. destruct (describe_page_public ps ps' (desc_next_token req) page Hs) as [E1 E2].
  destruct (describe_page ps _ _) as [l n], (describe_page ps' _ _) as [l' n']. simpl in E1, E2. subst n'.
  apply agree_ret. by rewrite E1.
Qed.

(** C39: a secret stays in the store.  Two servers that differ only in the plaintexts of
    SecureString parameters with equal digests, and in what their files hold, give the
    same answer to every call but a GetParameter with decryption, and still differ in
    nothing else afterwards: no answer, no error and no page depends on a plaintext
    beyond its digest. *)
Theorem ssm_secret_confined operation body w w' :
  alike w w' ->
  (operation = "GetParameter" -> forall req, decode get_from_slice body = Ok req -> get_with_decryption req = false) ->
  (dispatch c operation body w).1 = (dispatch c operation body w').1
  /\ alike (dispatch c operation body w).2 (dispatch c operation body w').2.
Proof.
  intros Hw Hno. assert (agree eq (operation_of c operation body) (operation_of c operation body)) as Ha.
  { unfold operation_of. destruct (str_eqb operation "PutParameter"); [apply agree_put|].
    destruct (str_eqb operation "GetParameter") eqn:E; [apply agree_get; apply Hno; by apply str_eqb_true|].
    destruct (str_eqb operation "DeleteParameter"); [apply agree_delete|].
    destruct (str_eqb operation "DescribeParameters"); [apply agree_describe|].
    intros v v' Hv. split; [done|exact Hv]. }
  specialize (Ha w w' Hw). unfold dispatch.
  destruct (operation_of c operation body w) as [[o|o|y] v], (operation_of c operation body w') as [[o'|o'|y'] v'];
    simpl in *; destruct Ha as [Hr Hv]; try done; split; congruence || done.
Qed.
End Secrets.
