(* ===== verification/AwsHttp.v ===== *)
(** The HTTP/1.1 front end of the AWS JSON services (services/ssm/src/http.rs): reading a
    request, the gate and signature check before dispatch, the response; and that a
    request read in pieces is the request sent. *)

From S2P Require Import Prelude RustStr RustNum RustText Json StateFile AwsSigV4.
Local Open Scope string_scope.
Local Open Scope Z_scope.

(** The HTTP/1.1 front end of the AWS JSON services (services/ssm/src/http.rs; the one
    of services/applicationautoscaling differs in the strings of [Front]): reading one
    request from a connection in whatever pieces it arrives, the gate and the signature
    check before dispatch, and the response. *)

Definition MAX_HEADER_BYTES : Z := 64 * 1024.
Definition MAX_BODY_BYTES : Z := 8 * 1024 * 1024.
Definition head_end : string := crlf +:+ crlf.

Record Request := mkRequest {
  rq_method : string; rq_path : string; rq_query : string; rq_headers : gmap string string; rq_body : string }.
Definition header (req : Request) (name : string) : string := default "" (rq_headers req !! name).

(** What the reads of a connection yield, in order; reading nothing, or past the last
    of them, is the end of the stream. *)
Inductive read_event := Data (bytes : string) | Failed (e : string).

(** ** The head *)

(** Collects until the blank line: the buffer, its offset and what is left to read. *)
Fixpoint read_head (buf : string) (input : list read_event)
    : result string (option (string * Z * list read_event)) :=
  match find head_end buf with
  | Some pos => Ok (if MAX_HEADER_BYTES <? pos + 4 then None else Some (buf, pos, input))
  | None =>
      if MAX_HEADER_BYTES <? str_len buf then Ok None
      else match input with
           | [] => Ok None
           | Failed e :: _ => Err e
           | Data d :: rest => if is_empty d then Ok None else read_head (buf +:+ d) rest
           end
  end.

(** [s.split(pat)]; every step but the last consumes the pattern. *)
Fixpoint split_on (fuel : nat) (pat s : string) : list string :=
  match split_once pat s, fuel with
  | Some (a, b), S fuel => a :: split_on fuel pat b
  | _, _ => [s]
  end.
Definition split_str (pat s : string) : list string := split_on (String.length s) pat s.

(** The header lines: [None] is the early return on a second framing header. *)
Fixpoint read_headers (lines : list string) (headers : gmap string string) : option (gmap string string) :=
  match lines with
  | [] => Some headers
  | line :: lines =>
      match split_once ":" line with
      | Some (k, v) =>
          let key := to_ascii_lowercase (trim k) in
          if (str_eqb key "content-length" || str_eqb key "transfer-encoding")
             && bool_decide (is_Some (headers !! key)) then None
          else read_headers lines (<[key := trim v]> headers)
      | None => read_headers lines headers
      end
  end.

(** [value.parse::<usize>()] of digits only. *)
Definition content_length (headers : gmap string string) : option Z :=
  match headers !! "content-length" with
  | None => Some 0
  | Some value =>
      if negb (is_empty value) && str_all is_ascii_digit value then parse_radix 10 0 (2 ^ 64 - 1) value else None
  end.

Definition split_target (target : string) : string * string :=
  match split_once "?" target with Some (p, q) => (p, q) | None => (target, "") end.

(** The request but for its body, and the body's length. *)
Definition parse_head (head : string) : option (string * string * string * gmap string string * Z) :=
  let lines := split_str crlf (from_utf8_lossy head) in
  let request_line := default "" (list.head lines) in
  let parts := split_char " " request_line in
  let method := default "" (list.head parts) in
  let target := default "/" (parts !! 1%nat) in
  let '(path, query) := split_target target in
  headers ← read_headers (tail lines) ∅;
  if bool_decide (is_Some (headers !! "transfer-encoding")) then None
  else
    length ← content_length headers;
    if MAX_BODY_BYTES <? length then None else Some (method, path, query, headers, length).

(** ** The body *)

Fixpoint read_body (body : string) (length : Z) (input : list read_event) : result string (option string) :=
  if length <=? str_len body then Ok (Some (str_take length body))
  else match input with
       | [] => Ok None
       | Failed e :: _ => Err e
       | Data d :: rest => if is_empty d then Ok None else read_body (body +:+ d) length rest
       end.

Definition read_rest (r : option (string * Z * list read_event)) : result string (option Request) :=
  match r with
  | None => Ok None
  | Some (buf, pos, rest) =>
      match parse_head (str_take pos buf) with
      | None => Ok None
      | Some (method, path, query, headers, length) =>
          body ← read_body (str_drop (pos + 4) buf) length rest;
          Ok (match body with Some b => Some (mkRequest method path query headers b) | None => None end)
      end
  end.
Definition read_request (input : list read_event) : result string (option Request) := read_head "" input ≫= read_rest.

(** ** The gate and the response *)

Definition reason_phrase (status : Z) : string :=
  if status =? 200 then "OK" else if status =? 400 then "Bad Request" else if status =? 403 then "Forbidden"
  else if status =? 404 then "Not Found" else if status =? 405 then "Method Not Allowed"
  else if status =? 500 then "Internal Server Error" else if status =? 501 then "Not Implemented" else "Status".

(** What a service's copy of the file fixes. *)
Record Front := mkFront {
  target_prefix : string; server_name : string; load_failed : string;
  error_out : Z -> string -> string -> Outcome; signer : Signer }.

Section Front.
Context `{Digests, SerdeJson} (f : Front) {S : Type}.

Definition response_bytes (outcome : Outcome) : string :=
  let body := json_to_vec (o_body outcome) +:+ char_str lf in
  "HTTP/1.1 " +:+ show_Z (o_status outcome) +:+ " " +:+ reason_phrase (o_status outcome) +:+ crlf
  +:+ "Server: " +:+ server_name f +:+ crlf
  +:+ "Content-Type: application/x-amz-json-1.1" +:+ crlf
  +:+ (match o_error_type outcome with Some t => "X-Amzn-Errortype: " +:+ t +:+ crlf | None => "" end)
  +:+ (if o_status outcome =? 405 then "Allow: POST" +:+ crlf else "")
  +:+ "Content-Length: " +:+ show_Z (str_len body) +:+ crlf
  +:+ "Connection: close" +:+ crlf +:+ crlf +:+ body.

Definition signed_request (req : Request) : SignedRequest :=
  mkSigned (rq_method req) (rq_path req) (rq_query req) (header req "host") (header req "authorization")
    (header req "x-amz-date") (header req "x-amz-content-sha256") (fun name => rq_headers req !! name) (rq_body req).

Context (creds : Credentials) (load_err : S -> option string)
  (dispatch : string -> string -> ME string (World S) Outcome).

(** The answers given before dispatch, or the operation to dispatch. *)
Definition gate (req : Request) (s : S) : Outcome + string :=
  if bool_decide (is_Some (load_err s)) then inl (error_out f 500 "InternalServerError" (load_failed f))
  else if negb (str_eqb (rq_path req) "/") then inl (error_out f 404 "ResourceNotFoundException" "not found")
  else if negb (str_eqb (rq_method req) "POST") then inl (error_out f 405 "ValidationException" "method not allowed")
  else
    let content_type := header req "content-type" in
    if negb (is_empty content_type) && negb (starts_with "application/x-amz-json-1.1" content_type) then
      inl (error_out f 400 "ValidationException" "unsupported content type")
    else match verify_signature (signer f) (signed_request req) creds with
         | Err e => inl (error_out f (se_status e) (se_name e) (se_name e))
         | _ =>
             match strip_prefix (target_prefix f) (header req "x-amz-target") with
             | None => inl (error_out f 400 "UnknownOperationException" "unknown operation")
             | Some operation => inr operation
             end
         end.
Definition process (req : Request) : ME string (World S) Outcome :=
  s ← gets w_state;
  match gate req s with
  | inl o => mret o
  | inr operation => dispatch operation (rq_body req)
  end.

(** One connection: the bytes written to it, if any.  A panic ends the task. *)
Definition handle_conn (input : list read_event) (w : World S) : option string * World S :=
  match read_request input with
  | Ok (Some req) =>
      match process req w with
      | (Ok o, w') => (Some (response_bytes o), w')
      | (_, w') => (None, w')
      end
  | _ => (None, w)
  end.
End Front.

(** What the gate of the AWS JSON front ends lets through, for every service behind it:
    its refusals are errors, and in strict mode only authenticated requests pass. *)

(** Strict mode: neither of the two relaxed ones. *)
Definition strict (mode : string) : Prop :=
  mode <> "" /\ eq_ignore_ascii_case mode "relaxed" = false /\ eq_ignore_ascii_case mode "signed-relaxed" = false.

Section Gate.
Context `{Digests, SerdeJson} (f : Front) {S : Type} (creds : Credentials) (load_err : S -> option string)
  (dispatch : string -> string -> ME string (World S) Outcome).
Context (error_status : forall status name message, o_status (error_out f status name message) = status).

Lemma gate_refuses req s out : gate f creds load_err req s = inl out -> o_status out <> 200.
Proof.
  unfold gate. destruct (bool_decide _); [intros [= <-]; by rewrite error_status|].
  destruct (negb _); [intros [= <-]; by rewrite error_status|].
  destruct (negb _); [intros [= <-]; by rewrite error_status|].
  destruct (negb _ && _); [intros [= <-]; by rewrite error_status|].
  pose proof (rejects_signature (signer f) (signed_request req) creds) as Hr.
  destruct (verify_signature _ _ _); simpl in Hr; [|intros [= <-]; by rewrite error_status|done].
  destruct (strip_prefix _ _); [done|]. intros [= <-]. by rewrite error_status.
Qed.
Lemma gate_loaded req s operation : gate f creds load_err req s = inr operation -> load_err s = None.
Proof. unfold gate. destruct (load_err s); [|done]. by rewrite bool_decide_eq_true_2. Qed.

(** A POST to "/" that carries the signature the configured secret gives it. *)
Definition authenticated (req : Request) : Prop :=
  exists access_key date_stamp region service signed_headers signature payload_hash,
    rq_path req = "/" /\ rq_method req = "POST"
    /\ read_authorization (trim (header req "authorization"))
       = Ok (access_key, date_stamp, region, service, signed_headers, signature)
    /\ valid_credential (signer f) access_key region service creds = true
    /\ payload_hash_of (signer f) (signed_request req) = Ok payload_hash
    /\ signature = signature_for_request (signer f) (signed_request req) date_stamp region signed_headers
                     payload_hash creds.
Lemma gate_authenticated req s operation :
  strict (auth_mode creds) -> gate f creds load_err req s = inr operation -> authenticated req.
Proof.
  intros (Hm1 & Hm2 & Hm3) Eg. unfold gate in Eg. destruct (bool_decide _); [done|].
  destruct (str_eqb (rq_path req) "/") eqn:Ep; [|done]. destruct (str_eqb (rq_method req) "POST") eqn:Em; [|done].
  cbn [negb] in Eg. destruct (negb _ && _); [done|].
  destruct (verify_signature _ _ _) as [[]| |why] eqn:Ev; [|done|]; clear Eg; revert Ev; unfold verify_signature;
    rewrite Hm2, Hm3; destruct (auth_mode creds) eqn:Emode; try done;
    cbn [is_empty orb]; destruct (is_empty (trim _)); try done; intros Ev.
  - apply verify_full_inv in Ev as (ak & ds & rg & svc & sh & sg & ph & Hr & Hc & Hp & Hs).
    exists ak, ds, rg, svc, sh, sg, ph. repeat split; try done; by apply str_eqb_true.
  - pose proof (rejects_full (signer f) (signed_request req) (trim (sg_authorization (signed_request req))) creds) as Hr.
    by rewrite Ev in Hr.
Qed.

(** A connection in strict mode: an unauthenticated one touches nothing. *)
Lemma conn_authenticated input w :
  strict (auth_mode creds) ->
  let '(response, w') := handle_conn f creds load_err dispatch input w in
  (w' = w /\ (response = None \/ exists out, response = Some (response_bytes f out) /\ o_status out <> 200))
  \/ exists req, read_request input = Ok (Some req) /\ authenticated req.
Proof.
  intros Hm. unfold handle_conn.
  destruct (read_request input) as [[req|]| |] eqn:Er; [|left; split; [done|by left]..].
  unfold process, mbind, m_bind, gets. destruct (gate _ _ _ req (w_state w)) as [out|operation] eqn:Eg.
  { left. split; [done|]. right. exists out. split; [done|]. by eapply gate_refuses. }
  match goal with |- context [let (_, _) := ?r in _] => destruct r as [response w'] end.
  right. exists req. split; [done|]. by eapply gate_authenticated.
Qed.
(** A connection is no call, or the call its request names. *)
Lemma conn_calls input w :
  (handle_conn f creds load_err dispatch input w).2 = w
  \/ exists req operation,
       read_request input = Ok (Some req) /\ load_err (w_state w) = None
       /\ (strict (auth_mode creds) -> authenticated req)
       /\ handle_conn f creds load_err dispatch input w
          = (match (dispatch operation (rq_body req) w).1 with Ok o => Some (response_bytes f o) | _ => None end,
             (dispatch operation (rq_body req) w).2).
Proof.
  unfold handle_conn. destruct (read_request input) as [[req|]| |] eqn:Er; [|by left..].
  unfold process, mbind, m_bind, gets. destruct (gate _ _ _ req (w_state w)) as [out|operation] eqn:Eg; [by left|].
  right. exists req, operation. split; [done|]. split; [by eapply gate_loaded|].
  split; [intros Hm; by eapply gate_authenticated|]. by destruct (dispatch operation (rq_body req) w) as [[] ?].
Qed.
End Gate.

(** The front end reads the same request from a connection however its bytes are cut,
    reads back what a client writes, and lets nothing past that is cut short,
    ambiguous or, in strict mode, not signed. *)

(** ** Reading, whatever the pieces *)

Definition whole_request (s : string) : option Request :=
  match find head_end s with
  | None => None
  | Some pos =>
      if MAX_HEADER_BYTES <? pos + 4 then None
      else match parse_head (str_take pos s) with
           | None => None
           | Some (method, path, query, headers, length) =>
               let rest := str_drop (pos + 4) s in
               if length <=? str_len rest then Some (mkRequest method path query headers (str_take length rest)) else None
           end
  end.

Section Pieces.
Implicit Types (ds : list string).
Definition pieces ds : list read_event := map Data ds.
Definition nonempty (d : string) : Prop := d <> "".

Lemma concat_cons d ds : str_concat (d :: ds) = d +:+ str_concat ds.
Proof. done. Qed.

Lemma read_head_pieces ds buf :
  Forall nonempty ds ->
  match find head_end (buf +:+ str_concat ds) with
  | Some pos =>
      if MAX_HEADER_BYTES <? pos + 4 then read_head buf (pieces ds) = Ok None
      else exists buf' ds', read_head buf (pieces ds) = Ok (Some (buf', pos, pieces ds'))
             /\ buf' +:+ str_concat ds' = buf +:+ str_concat ds /\ find head_end buf' = Some pos /\ Forall nonempty ds'
  | None => read_head buf (pieces ds) = Ok None
  end.
Proof.
  revert buf. induction ds as [|d ds IH]; intros buf Hne.
  - rewrite str_app_nil_r. cbn [pieces map read_head]. destruct (find head_end buf) as [pos|] eqn:E.
    + destruct (_ <? _); [done|]. exists buf, []. by rewrite str_app_nil_r.
    + by destruct (_ <? _).
  - apply Forall_cons in Hne as [Hd Hne]. cbn [pieces map read_head]. destruct (find head_end buf) as [pos|] eqn:E.
    + rewrite (find_extend _ _ _ _ E). destruct (_ <? _); [done|]. exists buf, (d :: ds). repeat split; try done.
      by constructor.
    + assert (is_empty d = false) as -> by (by destruct d). specialize (IH (buf +:+ d) Hne).
      rewrite str_app_assoc in IH. rewrite concat_cons.
      destruct (Z.ltb_spec MAX_HEADER_BYTES (str_len buf)) as [Hbig|_]; [|exact IH].
      destruct (find head_end (buf +:+ d +:+ str_concat ds)) as [pos|] eqn:E'; [|done].
      pose proof (find_beyond _ _ _ _ E E') as Hb. change (str_len head_end) with 4 in Hb.
      by destruct (Z.ltb_spec MAX_HEADER_BYTES (pos + 4)); [|lia].
Qed.

Lemma read_body_pieces ds body n :
  0 <= n -> Forall nonempty ds ->
  read_body body n (pieces ds)
  = Ok (if n <=? str_len (body +:+ str_concat ds) then Some (str_take n (body +:+ str_concat ds)) else None).
Proof.
  intros Hn. revert body. induction ds as [|d ds IH]; intros body Hne; cbn [pieces map read_body].
  - rewrite str_app_nil_r. by destruct (n <=? str_len body).
  - apply Forall_cons in Hne as [Hd Hne]. rewrite concat_cons. destruct (Z.leb_spec n (str_len body)).
    + rewrite !str_len_app. pose proof (str_len_nonneg d). pose proof (str_len_nonneg (str_concat ds)).
      destruct (Z.leb_spec n (str_len body + (str_len d + str_len (str_concat ds)))); [|lia].
      by rewrite str_take_app by lia.
    + assert (is_empty d = false) as -> by (by destruct d). fold (pieces ds). rewrite IH by done. by rewrite str_app_assoc.
Qed.

Lemma parse_head_length head method path query headers n :
  parse_head head = Some (method, path, query, headers, n) -> 0 <= n <= MAX_BODY_BYTES.
Proof.
  unfold parse_head. destruct (split_target _) as [p q]. destruct (read_headers _ _) as [h|]; [|done]. cbn.
  destruct (bool_decide _); [done|]. destruct (content_length h) as [l|] eqn:El; [|done]. cbn.
  destruct (Z.ltb_spec MAX_BODY_BYTES l); [done|]. intros [= <- <- <- <- <-]. split; [|done].
  unfold content_length in El. destruct (h !! "content-length") as [v|]; [|injection El as <-; lia].
  destruct (_ && _); [|done]. apply parse_radix_bounds in El. lia.
Qed.

(** a request does not depend on how its bytes arrive: whatever pieces the
    connection yields, the front end reads what it would read of the whole, and nothing
    at all of a head without its end, of a head or a body over the limits, or of a body
    shorter than its [Content-Length]. *)
Theorem read_request_whole ds :
  Forall nonempty ds -> read_request (pieces ds) = Ok (whole_request (str_concat ds)).
Proof.
  intros Hne. pose proof (read_head_pieces ds "" Hne) as Hh. rewrite str_app_nil_l in Hh.
  unfold read_request, whole_request. destruct (find head_end (str_concat ds)) as [pos|] eqn:E; [|by rewrite Hh].
  destruct (MAX_HEADER_BYTES <? pos + 4); [by rewrite Hh|].
  destruct Hh as (buf & ds' & -> & Hs & Hf & Hne'). cbn [mbind outcome_bind read_rest].
  destruct (find_bound _ _ _ Hf) as [Hp Hb]. change (str_len head_end) with 4 in Hb.
  rewrite <- Hs, str_take_app, str_drop_app by lia.
  destruct (parse_head (str_take pos buf)) as [[[[[m p] q] h] n]|] eqn:Ep; [|done].
  apply parse_head_length in Ep. rewrite read_body_pieces by (done || lia). cbn. by destruct (n <=? _).
Qed.
End Pieces.

(** ** What a client writes *)

Section Written.

(** Printable ASCII. *)
Definition printable (c : ascii) : bool := in_range " " "~" c.
Record header_ok (h : string * string) : Prop := {
  ho_name : str_all (fun c => graphic c && negb (Ascii.eqb ":" c)) h.1 = true;
  ho_nonempty : h.1 <> "";
  ho_value : str_all printable h.2 = true;
  ho_trimmed : trim h.2 = h.2 }.
Definition header_line (h : string * string) : string := h.1 +:+ ": " +:+ h.2.
Definition request_line (method target : string) : string := method +:+ " " +:+ target +:+ " HTTP/1.1".
Definition head_lines (method target : string) (headers : list (string * string)) : list string :=
  request_line method target :: map header_line headers.
Definition head_text (method target : string) (headers : list (string * string)) : string :=
  str_join crlf (head_lines method target headers).
Definition request_text (method target : string) (headers : list (string * string)) (body : string) : string :=
  head_text method target headers +:+ head_end +:+ body.
Definition lower_key (h : string * string) : string * string := (to_ascii_lowercase h.1, h.2).
Definition headers_map (headers : list (string * string)) : gmap string string := list_to_map (map lower_key headers).

Definition line_ok (l : string) : Prop := free_of cr l /\ l <> "".


Lemma split_head_end lines t :
  lines <> [] -> Forall line_ok lines ->
  split_once head_end (str_join crlf lines +:+ head_end +:+ t) = Some (str_join crlf lines, t).
Proof.
  intros Hne Hl. change head_end with (String cr (String lf (String cr (String lf "")))).
  induction Hl as [|l lines [Hf Hn] Hls IH]; [done|]. destruct lines as [|l' lines].
  - cbn [str_join]. rewrite split_once_skip by done.
    change (split_once _ (_ +:+ t)) with (Some (EmptyString, t)). cbv iota. by rewrite str_app_nil_r.
  - change (str_join crlf (l :: l' :: lines)) with (l +:+ crlf +:+ str_join crlf (l' :: lines)).
    rewrite !str_app_assoc, split_once_skip by done. specialize (IH ltac:(done)).
    apply Forall_cons in Hls as [[Hf' Hn'] _].
    assert (exists c s, str_join crlf (l' :: lines) = String c s /\ Ascii.eqb cr c = false) as (c & s & Es & Hc).
    { destruct l' as [|c l']; [done|]. apply andb_true_iff in Hf' as [Hc _]. apply negb_true_iff in Hc.
      destruct lines as [|l2 lines]; [by exists c, l'|]. exists c, (l' +:+ crlf +:+ str_join crlf (l2 :: lines)). done. }
    rewrite Es in IH |- *. rewrite !str_app_cons in IH |- *. change (crlf +:+ ?x) with (String cr (String lf x)).
    cbn [split_once strip_prefix] in IH |- *. rewrite Hc in IH |- *.
    change (Ascii.eqb cr cr) with true. change (Ascii.eqb lf lf) with true. change (Ascii.eqb cr lf) with false.
    cbn [split_once strip_prefix]. cbn iota. rewrite IH. done.
Qed.


Lemma split_on_lines fuel lines :
  lines <> [] -> Forall (free_of cr) lines -> (length lines <= S fuel)%nat ->
  split_on fuel crlf (str_join crlf lines) = lines.
Proof.
  intros Hne Hl. revert fuel. induction Hl as [|l lines Hf Hls IH]; intros fuel Hlen; [done|].
  destruct lines as [|l' lines].
  - cbn [str_join]. assert (split_once crlf l = None) as E.
    { rewrite <- (str_app_nil_r l). unfold crlf. rewrite split_once_skip by done. done. }
    destruct fuel; cbn [split_on]; by rewrite E.
  - change (str_join crlf (l :: l' :: lines)) with (l +:+ crlf +:+ str_join crlf (l' :: lines)).
    destruct fuel as [|fuel]; [simpl in Hlen; lia|]. cbn [split_on]. rewrite split_once_crlf by done.
    f_equal. apply IH; [done|]. simpl in *. lia.
Qed.
Lemma join_length lines : (length lines <= S (String.length (str_join crlf lines)))%nat.
Proof.
  induction lines as [|l lines IH]; [simpl; lia|]. destruct lines as [|l' lines]; [simpl; lia|].
  change (str_join crlf (l :: l' :: lines)) with (l +:+ crlf +:+ str_join crlf (l' :: lines)).
  rewrite !str_length_app. cbn [length] in *. change (String.length crlf) with 2%nat. lia.
Qed.

Lemma graphic_printable s : str_all graphic s = true -> str_all printable s = true.
Proof.
  apply str_all_impl. intros c. unfold graphic, printable, in_range. change (byte_of " ") with 32.
  change (byte_of "!") with 33. lia.
Qed.
Lemma printable_ascii s : str_all printable s = true -> str_all is_ascii s = true.
Proof. apply str_all_impl. intros c. unfold printable, in_range, is_ascii. change (byte_of "~") with 126. lia. Qed.
Lemma printable_no_cr s : str_all printable s = true -> free_of cr s.
Proof.
  apply str_all_impl. intros c Hc. apply negb_true_iff. destruct (Ascii.eqb_spec cr c) as [<-|]; [|done]. by vm_compute in Hc.
Qed.

Lemma header_line_printable h : header_ok h -> str_all printable (header_line h) = true.
Proof.
  intros [Hn _ Hv _]. unfold header_line. rewrite !str_all_app, Hv.
  rewrite (graphic_printable h.1); [done|]. revert Hn. apply str_all_impl. by intros c [? _]%andb_true_iff.
Qed.
Lemma head_lines_ok method target headers :
  str_all graphic method = true -> str_all graphic target = true -> Forall header_ok headers ->
  Forall (fun l => str_all printable l = true) (head_lines method target headers)
  /\ Forall line_ok (head_lines method target headers).
Proof.
  intros Hm Ht Hh.
  assert (Forall (fun l => str_all printable l = true) (head_lines method target headers)) as Hp.
  { constructor.
    - unfold request_line. rewrite !str_all_app, (graphic_printable method), (graphic_printable target) by done. done.
    - apply Forall_map. eapply Forall_impl; [exact Hh|]. apply header_line_printable. }
  split; [done|]. apply Forall_forall. intros l Hl. split.
  - rewrite Forall_forall in Hp. by apply printable_no_cr, Hp.
  - unfold head_lines in Hl. apply elem_of_cons in Hl as [->|Hl].
    + unfold request_line. by destruct method.
    + apply list_elem_of_fmap in Hl as (h & -> & Hin). rewrite Forall_forall in Hh. destruct (Hh h Hin) as [_ Hne _ _].
      unfold header_line. by destruct h.1.
Qed.

Lemma read_headers_lines headers m :
  Forall header_ok headers -> NoDup (map fst (map lower_key headers)) ->
  Forall (fun h => m !! h.1 = None) (map lower_key headers) ->
  read_headers (map header_line headers) m = Some (headers_map headers ∪ m).
Proof.
  intros Hh. revert m. induction Hh as [|h headers [Hn Hne Hv Ht] Hh IH]; intros m Hnd Hm.
  - cbn. unfold headers_map. simpl. by rewrite (left_id_L ∅ (∪)).
  - cbn [map] in Hnd. apply NoDup_cons in Hnd as [Hnin Hnd]. apply Forall_cons in Hm as [Hm1 Hm].
    cbn [map read_headers].
    assert (str_all graphic h.1 = true) as Hg by (revert Hn; apply str_all_impl; by intros c [? _]%andb_true_iff).
    assert (split_once ":" (header_line h) = Some (h.1, String " " h.2)) as ->.
    { unfold header_line. change (": " +:+ h.2) with (char_str ":" +:+ String " " h.2). apply (split_once_char ":").
      revert Hn. apply str_all_impl. by intros c [_ ?]%andb_true_iff. }
    rewrite trim_graphic by done. assert (trim (String " " h.2) = h.2) as -> by (rewrite <- Ht at 2; reflexivity).
    simpl in Hm1. rewrite Hm1. rewrite bool_decide_eq_false_2 by (by intros []). rewrite andb_false_r.
    rewrite IH; [|done|].
    + f_equal. unfold headers_map. cbn [map list_to_map foldr]. simpl.
      rewrite <- insert_union_l, <- insert_union_r; [done|].
      apply not_elem_of_list_to_map_1. done.
    + rewrite Forall_forall in Hm |- *. intros h' Hin. rewrite lookup_insert_ne; [by apply Hm|].
      intros E. apply Hnin. simpl. rewrite E. by apply list_elem_of_fmap_2.
Qed.

Lemma parse_head_text method target headers path query n :
  str_all graphic method = true -> str_all graphic target = true -> Forall header_ok headers ->
  NoDup (map fst (map lower_key headers)) -> split_target target = (path, query) ->
  headers_map headers !! "transfer-encoding" = None ->
  content_length (headers_map headers) = Some n -> n <= MAX_BODY_BYTES ->
  parse_head (head_text method target headers) = Some (method, path, query, headers_map headers, n).
Proof.
  intros Hm Ht Hh Hnd Hq Hte Hcl Hn. destruct (head_lines_ok _ _ _ Hm Ht Hh) as [Hp Hl].
  unfold parse_head, head_text. rewrite from_utf8_lossy_ascii.
  2:{ apply str_all_join; [done|]. eapply Forall_impl; [exact Hp|]. apply printable_ascii. }
  unfold split_str. rewrite split_on_lines; [|done| |apply join_length].
  2:{ eapply Forall_impl; [exact Hl|]. by intros l [? _]. }
  cbn [head_lines list.head from_option id tail].
  assert (split_char " " (request_line method target) = [method; target; "HTTP/1.1"]) as ->.
  { apply (split_join " " [method; target; "HTTP/1.1"]); [done|].
    repeat constructor; by apply graphic_free. }
  cbn [list.head from_option id lookup list_lookup]. rewrite Hq.
  rewrite read_headers_lines; [|done|done|apply Forall_true; intros; apply lookup_empty].
  rewrite (right_id_L ∅ (∪)). cbn [mbind option_bind]. rewrite Hte, bool_decide_eq_false_2 by (by intros []).
  rewrite Hcl. cbn [mbind option_bind]. by destruct (Z.ltb_spec MAX_BODY_BYTES n); [lia|].
Qed.

(** C38: what a client writes is read back: a request line, header fields and a body of
    the declared length, in whatever pieces they arrive, give the method, the path and
    query of the target, the fields under their lower-case names, and the body. *)
Theorem request_read_back method target headers body ds path query :
  str_all graphic method = true -> str_all graphic target = true -> split_target target = (path, query) ->
  Forall header_ok headers -> NoDup (map fst (map lower_key headers)) ->
  headers_map headers !! "transfer-encoding" = None ->
  headers_map headers !! "content-length" = Some (show_Z (str_len body)) ->
  str_len (head_text method target headers) + 4 <= MAX_HEADER_BYTES -> str_len body <= MAX_BODY_BYTES ->
  Forall nonempty ds -> str_concat ds = request_text method target headers body ->
  read_request (pieces ds) = Ok (Some (mkRequest method path query (headers_map headers) body)).
Proof.
  intros Hm Ht Hq Hh Hnd Hte Hcl Hhl Hbl Hne Hds.
  pose proof (read_head_pieces ds "" Hne) as Hread. rewrite str_app_nil_l, Hds in Hread.
  destruct (head_lines_ok _ _ _ Hm Ht Hh) as [_ Hl].
  assert (find head_end (request_text method target headers body) = Some (str_len (head_text method target headers))) as Hf.
  { unfold find, request_text, head_text. by rewrite split_head_end. }
  rewrite Hf in Hread. destruct (Z.ltb_spec MAX_HEADER_BYTES (str_len (head_text method target headers) + 4)); [lia|].
  destruct Hread as (buf & ds' & Hr & Hs & Hfb & Hne'). unfold read_request. rewrite Hr. cbn [mbind outcome_bind read_rest].
  destruct (find_bound _ _ _ Hfb) as [Hp Hb]. change (str_len head_end) with 4 in Hb.
  rewrite <- (str_take_app _ buf (str_concat ds')) by lia. rewrite Hs.
  unfold request_text at 1. destruct (str_take_drop_app (head_text method target headers) (head_end +:+ body)) as [-> _].
  assert (content_length (headers_map headers) = Some (str_len body)) as Hlen.
  { unfold content_length. rewrite Hcl. pose proof (str_len_nonneg body).
    assert (str_all is_ascii_digit (show_Z (str_len body)) = true /\ is_empty (show_Z (str_len body)) = false) as [Hd He].
    { unfold show_Z. destruct (Z.ltb_spec (str_len body) 0); [lia|]. split; [by apply str_all_show|].
      pose proof (show_radix_nonempty 10 (str_len body)). by destruct (show_radix 10 (str_len body)). }
    rewrite Hd, He. cbn. apply parse_show_Z. change MAX_BODY_BYTES with 8388608 in Hbl. lia. }
  rewrite (parse_head_text _ _ _ path query (str_len body)) by done. rewrite read_body_pieces by (done || apply str_len_nonneg).
  rewrite <- str_drop_app by lia. rewrite Hs. unfold request_text. rewrite <- str_app_assoc.
  replace (str_len (head_text method target headers) + 4) with (str_len (head_text method target headers +:+ head_end))
    by by rewrite str_len_app.
  destruct (str_take_drop_app (head_text method target headers +:+ head_end) body) as [_ ->].
  rewrite Z.leb_refl. cbn. rewrite <- (str_app_nil_r body) at 2.
  by destruct (str_take_drop_app body "") as [-> _].
Qed.
End Written.
