(* ===== verification/SsmFront.v ===== *)
(** The parameter store behind its front end: one connection, from the bytes read to
    the register (services/ssm/src/http.rs around server.rs). *)

From S2P Require Import Prelude RustStr RustNum RustText Json StateFile AwsSigV4 SsmServer SsmTheorems AwsHttp.
Local Open Scope string_scope.
Local Open Scope Z_scope.

Definition ssm_front : Front :=
  mkFront "AmazonSSM." "devcloud-ssm" "failed to load ssm state" error_outcome ssm_signer.
Definition ssm_creds (c : Config) : Credentials :=
  mkCreds (cfg_auth_mode c) (cfg_access_key_id c) (cfg_secret_access_key c) (cfg_region c).

Section Front.
Context `{Host, Build, Digests, SerdeJson, Readers} (c : Config).
Implicit Types w : SsmWorld.

Definition ssm_conn : list read_event -> SsmWorld -> option string * SsmWorld :=
  handle_conn ssm_front (ssm_creds c) load_err (dispatch c).

(** C34: what is refused changes nothing.  Whatever bytes a connection delivers, either
    the register and the state file stay as they were, or a complete request arrived and
    its answer is the 200 of a call that took the register's step and saved it. *)
Theorem ssm_refused_unchanged input w :
  let '(response, w') := ssm_conn input w in
  (w_state w' = w_state w /\ w_file w' = w_file w)
  \/ exists req operation out,
       read_request input = Ok (Some req) /\ response = Some (response_bytes ssm_front out) /\ o_status out = 200
       /\ load_err (w_state w) = None
       /\ register_step c (parameters (w_state w)) operation (rq_body req) out (parameters (w_state w'))
       /\ saved c w'.
Proof.
  unfold ssm_conn. pose proof (conn_calls ssm_front (ssm_creds c) load_err (dispatch c) input w) as Hc.
  destruct (handle_conn _ _ _ _ input w) as [response w']. cbn [snd] in Hc.
  destruct Hc as [->|(req & operation & Hr & Hload & _ & [= -> ->])]; [by left|].
  destruct (dispatch_post c operation (rq_body req) w) as [(out & Ho & [Hp|Hp])|(why & Ho & Hp)]; simpl in Hp.
  - destruct Hp as (_ & _ & _ & Hst & Hs & [Hsv|(? & ? & _)] & _); [|by left]. right.
    exists req, operation, out. by rewrite Ho.
  - left. by destruct Hp as (_ & ? & ? & _).
  - left. tauto.
Qed.

(** C35: in strict mode nothing is read or written without a signature: a connection
    that changes the register or the state file, or is answered at all by a call,
    delivered a POST to "/" whose [Authorization] names the configured key, region and
    service and carries the signature that the configured secret gives that very
    request, over the hash of its body unless that is declared unsigned. *)
Theorem ssm_strict_authenticated input w :
  strict (cfg_auth_mode c) ->
  let '(response, w') := ssm_conn input w in
  (w' = w /\ (response = None \/ exists out, response = Some (response_bytes ssm_front out) /\ o_status out <> 200))
  \/ exists req access_key date_stamp region service signed_headers signature payload_hash,
       read_request input = Ok (Some req) /\ rq_path req = "/" /\ rq_method req = "POST"
       /\ read_authorization (trim (header req "authorization"))
          = Ok (access_key, date_stamp, region, service, signed_headers, signature)
       /\ valid_credential ssm_signer access_key region service (ssm_creds c) = true
       /\ payload_hash_of ssm_signer (signed_request req) = Ok payload_hash
       /\ signature = signature_for_request ssm_signer (signed_request req) date_stamp region signed_headers
                        payload_hash (ssm_creds c).
Proof.
  intros Hm. pose proof (conn_authenticated ssm_front (ssm_creds c) load_err (dispatch c) (fun _ _ _ => eq_refl) input w Hm) as Hc.
  unfold ssm_conn. destruct (handle_conn _ _ _ _ input w) as [response w'].
  destruct Hc as [?|(req & Hr & ak & ds & rg & svc & sh & sg & ph & ? & ? & ? & ? & ? & ?)]; [by left|right].
  by exists req, ak, ds, rg, svc, sh, sg, ph.
Qed.
End Front.
