(* ===== verification/AwsDemo.v ===== *)
(** A concrete host, digests and serialiser for the AWS services, and the parameter store
    in it. *)

From S2P Require Import Prelude RustStr RustNum RustText Json S3Codecs StateFile AwsSigV4 SsmServer SsmTheorems AwsHttp SsmFront.
Local Open Scope string_scope.
Local Open Scope Z_scope.

(** A concrete host, digests and serialiser for the AWS services: the environment in
    which the demonstrations run. *)

(** ** Digests *)

Fixpoint demo_hex (s : string) : string :=
  match s with EmptyString => "" | String b r => hex2 b +:+ demo_hex r end.
(** Thirty-two bytes of the input, padded: no digest, but of a digest's shape. *)
Definition demo_digest (v : string) : string := String.substring 0 32 (v +:+ str_repeat 32 "0").
#[export] Instance demo_digests : Digests :=
  {| sha256 := demo_digest; hmac := fun k v => demo_digest (v +:+ k); hex_encode := demo_hex |}.

Lemma substring_length n s : (n <= String.length s)%nat -> String.length (String.substring 0 n s) = n.
Proof.
  revert s. induction n as [|n IH]; intros s Hn; destruct s as [|c s]; simpl in *; try lia. rewrite IH; lia.
Qed.
Lemma demo_digest_length v : String.length (demo_digest v) = 32%nat.
Proof. apply substring_length. rewrite str_length_app, str_length_repeat. lia. Qed.
Definition hex_byte_ok (c : ascii) : bool :=
  is_lower_hex (hex2 c) 2
  && match hex2 c with
     | String h (String l EmptyString) =>
         match hex_digit_value h, hex_digit_value l with
         | Some a, Some b => Ascii.eqb (of_byte (a * 16 + b)) c
         | _, _ => false
         end
     | _ => false
     end.
Lemma hex_byte c : exists h l, hex2 c = String h (String l "") /\ is_lower_hex (hex2 c) 2 = true
  /\ forall d, hex2 d = hex2 c -> d = c.
Proof.
  assert (forall c, hex_byte_ok c = true) as Hall by (apply Percent.all_bytes; by vm_compute).
  pose proof (Hall c) as Hc. unfold hex_byte_ok in Hc. apply andb_true_iff in Hc as [Hl Hc].
  destruct (hex2 c) as [|h [|l [|]]] eqn:E; try done. exists h, l. split; [done|]. split; [done|].
  intros d Hd. pose proof (Hall d) as Hd'. unfold hex_byte_ok in Hd'. rewrite Hd in Hd'.
  apply andb_true_iff in Hd' as [_ Hd']. destruct (hex_digit_value h), (hex_digit_value l); try done.
  apply Ascii.eqb_eq in Hc, Hd'. congruence.
Qed.
Lemma demo_hex_shape s : is_lower_hex (demo_hex s) (2 * str_len s) = true.
Proof.
  unfold is_lower_hex. induction s as [|c s IH]; [done|]. cbn [demo_hex].
  destruct (hex_byte c) as (h & l & E & Hx & _). unfold is_lower_hex in Hx.
  apply andb_true_iff in Hx as [Hl Hx]. apply andb_true_iff in IH as [IH1 IH2].
  rewrite str_all_app, Hx, IH2, str_len_app, str_len_cons. apply Z.eqb_eq in Hl, IH1. rewrite andb_true_r.
  apply Z.eqb_eq. lia.
Qed.
#[export] Instance demo_laws : DigestLaws.
Proof.
  assert (forall v, is_lower_hex (demo_hex (demo_digest v)) 64 = true) as Hd.
  { intros v. pose proof (demo_hex_shape (demo_digest v)) as Hs. unfold str_len in Hs. by rewrite demo_digest_length in Hs. }
  split; intros; [apply Hd..|]. revert w H. induction v as [|c v IH]; intros [|d w] E; simpl in E; try done.
  - destruct (hex_byte d) as (h & l & Ed & _). by rewrite Ed in E.
  - destruct (hex_byte c) as (h & l & Ec & _). by rewrite Ec in E.
  - destruct (hex_byte c) as (h & l & Ec & _ & Hi). destruct (hex_byte d) as (h' & l' & Ed & _ & _).
    rewrite Ec, Ed in E. rewrite !str_app_cons, !str_app_nil_l in E. injection E as E1 E2 E3.
    rewrite (IH w E3). f_equal. symmetry. apply Hi. congruence.
Qed.

(** ** The environment *)

#[export] Instance demo_host : Host :=
  {| host_clock := fun t => 1700000000000000000 + Z.of_nat t * 1000000000;
     fs_create_dir_all := fun _ => None; fs_write := fun _ => None; fs_torn := fun _ _ => None;
     fs_rename := fun _ => None; fs_read := fun _ => None |}.
#[export] Instance demo_build : Build := {| overflow_checks := true |}.
Fixpoint demo_json (v : Value) : string :=
  match v with
  | JString s => s
  | JArray l => str_concat (map demo_json l)
  | JObject m => str_concat (map (fun e => e.1 +:+ "=" +:+ demo_json e.2 +:+ ";") m)
  | _ => ""
  end.
#[export] Instance demo_serde : SerdeJson := {| json_to_vec := demo_json |}.

(** Concrete readers for the parameter store, a short history on them, and the
    properties applied to it. *)

(** ** The readers *)

Definition demo_put (value : string) (overwrite : bool) : PutParameterRequest :=
  mkPut "/app/token" (Some value) (if overwrite then "" else "SecureString") overwrite "" "" "" "".
Definition at_tick (t : Z) : f64 := f64_div (f64_of_Z ((1700000000 + t) * 1000)) (f64_of_Z 1000).
Definition demo_entry (value : string) (version t : Z) : SsmParameter :=
  mkParam "SecureString" value version (at_tick t) "" "alias/aws/ssm" "Standard" "text".
#[export] Instance demo_readers : Readers :=
  {| put_from_slice := fun b => if str_eqb b "put" then Some (demo_put "s3cret" false)
       else if str_eqb b "again" then Some (demo_put "s4cret" true) else None;
     get_from_slice := fun b => if str_eqb b "get" then Some (mkGet "/app/token:2" true)
       else if str_eqb b "peek" then Some (mkGet "/app/token" false) else None;
     delete_from_slice := fun b => if str_eqb b "delete" then Some (mkDelete "/app/token") else None;
     describe_from_slice := fun b => if str_eqb b "{}" then Some (mkDescribe None "" [] []) else None;
     state_from_slice := fun _ => inl {["/app/token" := demo_entry "s4cret" 2 4]} |}.

Definition demo_config : Config := mkConfig "127.0.0.1:4583" "" "" "strict" "" "" "/data/ssm".
Definition call (operation body : string) (w : SsmWorld) : SsmWorld := (dispatch demo_config operation body w).2.
Definition demo_world : SsmWorld := call "PutParameter" "put" ssm_boot.
Definition demo_world2 : SsmWorld := call "PutParameter" "again" demo_world.

Lemma ssm_demo_reachable : ssm_reachable demo_config demo_world.
Proof. apply rtc_once. constructor. Qed.
Lemma ssm_demo_reachable2 : ssm_reachable demo_config demo_world2.
Proof. eapply rtc_r; [apply ssm_demo_reachable|]. constructor. Qed.
Example demo_store : parameters (w_state demo_world2) = {["/app/token" := demo_entry "s4cret" 2 4]}.
Proof. vm_compute. reflexivity. Qed.

(** ** Witnesses *)

Lemma ssm_refines_register_witness :
  let '(o, w') := dispatch demo_config "DeleteParameter" "delete" demo_world in
  match o with Ok out => o_status out = 200 | _ => False end /\ parameters (w_state w') = ∅.
Proof.
  pose proof (ssm_refines_register demo_config demo_world "DeleteParameter" "delete" ssm_demo_reachable) as Hr.
  destruct (dispatch demo_config "DeleteParameter" "delete" demo_world) as [o w'] eqn:E.
  vm_compute in E. injection E as <- <-. vm_compute. done.
Defined.

Lemma ssm_put_get_witness :
  exists p, dispatch demo_config "GetParameter" "get" demo_world2
    = (Ok (get_answer demo_config "/app/token" (Some 2) p true), demo_world2)
    /\ p_value p = "s4cret" /\ p_version p = 2 /\ shown_value p true = "s4cret".
Proof.
  refine (proj2 (ssm_put_get demo_config demo_world "again" _ demo_world2 (demo_put "s4cret" true) "get" (Some 2)
    "s4cret" "Standard" "text" ssm_demo_reachable _ _ _ _ _ _ _)); try (vm_compute; reflexivity).
  by right.
Defined.

Lemma ssm_store_sound_witness :
  exists w', new demo_config demo_world2 = (Ok tt, w') /\ parameters (w_state w') = parameters (w_state demo_world2)
    /\ load_err (w_state w') = None /\ w_poisoned w' = false.
Proof.
  apply (ssm_store_sound demo_config demo_world2 ssm_demo_reachable2); [done| |done]. vm_compute. reflexivity.
Defined.

Lemma ssm_describe_complete_witness :
  walk (parameters (w_state demo_world2)) [1] "" = ([("/app/token", demo_entry "s4cret" 2 4)], None).
Proof.
  destruct (ssm_describe_complete demo_config demo_world2 [1] ssm_demo_reachable2) as [Hw _];
    [by repeat constructor|done|vm_compute; lia|]. rewrite Hw. vm_compute. reflexivity.
Defined.

(** Another secret of the same digest: the first 32 bytes decide it here. *)
Definition long_secret (last : string) : string := str_repeat 32 "x" +:+ last.
Definition secret_world (last : string) : SsmWorld :=
  mkWorld (mkServer {["/app/token" := demo_entry (long_secret last) 1 0]} None) false None None 0.
Lemma ssm_secret_confined_witness :
  (dispatch demo_config "GetParameter" "peek" (secret_world "a")).1
  = (dispatch demo_config "GetParameter" "peek" (secret_world "b")).1
  /\ parameters (w_state (secret_world "a")) <> parameters (w_state (secret_world "b")).
Proof.
  split; [|intros E; apply (f_equal (fun ps : Register => p_value <$> ps !! "/app/token")) in E; discriminate E].
  refine (proj1 (ssm_secret_confined demo_config "GetParameter" "peek" (secret_world "a") (secret_world "b") _ _)).
  - split; [vm_compute; reflexivity|done].
  - intros _ req. vm_compute. by intros [= <-].
Defined.

(** ** A signed request *)

Definition demo_body : string := "put".
Definition demo_unsigned (user_agent : string) : SignedRequest :=
  mkSigned "POST" "/" "" "localhost" "" "20260101T000000Z" ""
    (fun name => if str_eqb name "user-agent" then Some user_agent else None) demo_body.
Definition demo_creds : Credentials := ssm_creds demo_config.
Definition demo_signature : string :=
  signature_for_request ssm_signer (demo_unsigned "sdk") "20260101" "us-east-1" "host;x-amz-date"
    (sha256_hex demo_body) demo_creds.
Definition demo_authorization : string :=
  authorization_header ssm_signer "dev" "20260101" "us-east-1" "host;x-amz-date" demo_signature.
Definition demo_signed (user_agent : string) : SignedRequest :=
  let r := demo_unsigned user_agent in
  mkSigned (sg_method r) (sg_path r) (sg_query r) (sg_host r) demo_authorization (sg_amz_date r)
    (sg_content_sha256 r) (sg_header r) (sg_body r).

Lemma signed_request_accepted_witness : verify_signature ssm_signer (demo_signed "sdk") demo_creds = Ok tt.
Proof.
  apply (signed_request_accepted ssm_signer (demo_signed "sdk") demo_creds "20260101" "host;x-amz-date"
    (sha256_hex demo_body)); by vm_compute.
Defined.

(** A header outside [SignedHeaders] is free, the body is not. *)
Lemma signature_binds_request_witness :
  sg_body (demo_signed "sdk") = sg_body (demo_signed "curl").
Proof.
  assert (read_authorization demo_authorization
          = Ok ("dev", "20260101", "us-east-1", "ssm", "host;x-amz-date", demo_signature)) as Hr by (vm_compute; reflexivity).
  assert (forall u, verify_full ssm_signer (demo_signed u) demo_authorization demo_creds = Ok tt) as Hv
    by (intros u; vm_compute; reflexivity).
  assert (forall u, payload_hash_of ssm_signer (demo_signed u) = Ok (sha256_hex demo_body)) as Hp by done.
  assert (sha256_hex demo_body <> "UNSIGNED-PAYLOAD") as Hu by (vm_compute; discriminate).
  destruct (signature_binds_request ssm_signer (demo_signed "sdk") (demo_signed "curl") demo_authorization demo_creds
    "dev" "20260101" "us-east-1" "ssm" "host;x-amz-date" demo_signature (sha256_hex demo_body) (sha256_hex demo_body)
    Hr (Hv "sdk") (Hv "curl") (Hp "sdk") (Hp "curl") (fun _ => eq_refl) (fun _ => eq_refl) (fun _ => eq_refl)
    eq_refl eq_refl) as (_ & _ & _ & _ & _ & Hb).
  exact (Hb Hu).
Defined.

(** ** A connection *)

Definition demo_headers : list (string * string) :=
  [("Host", "localhost"); ("X-Amz-Target", "AmazonSSM.PutParameter"); ("X-Amz-Date", "20260101T000000Z");
   ("Authorization", demo_authorization); ("Content-Length", "3")].
Definition demo_text : string := request_text "POST" "/" demo_headers demo_body.
(** The same bytes in two pieces. *)
Definition demo_pieces : list string := [String.substring 0 40 demo_text; String.substring 40 1000 demo_text].

Lemma read_request_whole_witness : read_request (pieces demo_pieces) = Ok (whole_request (str_concat demo_pieces)).
Proof. apply (read_request_whole demo_pieces). by repeat constructor. Defined.

Lemma header_ok_demo : Forall header_ok demo_headers.
Proof. repeat constructor; done || by vm_compute. Qed.
Lemma request_read_back_witness :
  read_request (pieces demo_pieces) = Ok (Some (mkRequest "POST" "/" "" (headers_map demo_headers) demo_body)).
Proof.
  apply (request_read_back "POST" "/" demo_headers demo_body demo_pieces "/" "");
    first [done | apply header_ok_demo | vm_compute; reflexivity | by vm_compute | by repeat constructor | idtac].
  by apply (bool_decide_unpack _); vm_compute.
Defined.

(** The signed connection reaches the register in strict mode. *)
Lemma ssm_strict_authenticated_witness :
  parameters (w_state (ssm_conn demo_config (pieces demo_pieces) ssm_boot).2) <> ∅
  /\ exists req, read_request (pieces demo_pieces) = Ok (Some req) /\ rq_path req = "/" /\ rq_method req = "POST".
Proof.
  pose proof (ssm_strict_authenticated demo_config (pieces demo_pieces) ssm_boot ltac:(by vm_compute)) as Hs.
  assert (p_version <$> parameters (w_state (ssm_conn demo_config (pieces demo_pieces) ssm_boot).2) !! "/app/token" = Some 1)
    as Hv by (vm_compute; reflexivity).
  destruct (ssm_conn demo_config (pieces demo_pieces) ssm_boot) as [response w']. cbn [snd] in Hv |- *.
  split; [intros E; rewrite E in Hv; discriminate Hv|].
  destruct Hs as [[Hw _]|(req & ak & ds & rg & svc & sh & sg & ph & Hr & Hp & Hm & _)].
  - rewrite Hw in Hv. discriminate Hv.
  - exists req. exact (conj Hr (conj Hp Hm)).
Defined.
