(* ===== verification/AasServer.v ===== *)
(** Application Auto Scaling: the records of services/applicationautoscaling/src/types.rs
    and the calls of server.rs. *)

From S2P Require Import Prelude RustStr RustNum RustText SqsTime Json StateFile AwsSigV4.
Local Open Scope string_scope.
Local Open Scope Z_scope.

(** Application Auto Scaling: the entities and requests of
    services/applicationautoscaling/src/types.rs with their wire form, and its clock
    text, time_fmt.rs. *)

(** ** Stored entities *)

Record SuspendedState := mkSuspended {
  DynamicScalingInSuspended : option bool; DynamicScalingOutSuspended : option bool;
  ScheduledScalingSuspended : option bool }.
Record ScalableTarget := mkTarget {
  st_ServiceNamespace : string; st_ResourceId : string; st_ScalableDimension : string;
  st_MinCapacity : Z; st_MaxCapacity : Z; st_RoleARN : string;
  st_SuspendedState : SuspendedState; st_CreationTime : string }.
Record ScalingPolicy := mkPolicy {
  sp_PolicyARN : string; sp_PolicyName : string; sp_ServiceNamespace : string; sp_ResourceId : string;
  sp_ScalableDimension : string; sp_PolicyType : string;
  sp_StepScalingPolicyConfiguration : option Value; sp_TargetTrackingScalingPolicyConfiguration : option Value;
  sp_Alarms : list Value; sp_CreationTime : string }.
Record ScheduledAction := mkAction {
  sa_ScheduledActionName : string; sa_ServiceNamespace : string; sa_ResourceId : string;
  sa_ScalableDimension : string; sa_Schedule : string; sa_Timezone : string;
  sa_StartTime : option string; sa_EndTime : option string; sa_ScalableTargetAction : option Value;
  sa_CreationTime : string }.

(** The derived [Serialize]. *)
Definition suspended_value (s : SuspendedState) : Value :=
  struct_value [opt_field "DynamicScalingInSuspended" JBool (DynamicScalingInSuspended s);
                opt_field "DynamicScalingOutSuspended" JBool (DynamicScalingOutSuspended s);
                opt_field "ScheduledScalingSuspended" JBool (ScheduledScalingSuspended s)].
Definition target_value (t : ScalableTarget) : Value :=
  struct_value
    [field "ServiceNamespace" (JString (st_ServiceNamespace t)); field "ResourceId" (JString (st_ResourceId t));
     field "ScalableDimension" (JString (st_ScalableDimension t));
     field "MinCapacity" (int_value (st_MinCapacity t)); field "MaxCapacity" (int_value (st_MaxCapacity t));
     str_field "RoleARN" (st_RoleARN t); field "SuspendedState" (suspended_value (st_SuspendedState t));
     field "CreationTime" (JString (st_CreationTime t))].
Definition policy_value (p : ScalingPolicy) : Value :=
  struct_value
    [field "PolicyARN" (JString (sp_PolicyARN p)); field "PolicyName" (JString (sp_PolicyName p));
     field "ServiceNamespace" (JString (sp_ServiceNamespace p)); field "ResourceId" (JString (sp_ResourceId p));
     field "ScalableDimension" (JString (sp_ScalableDimension p)); field "PolicyType" (JString (sp_PolicyType p));
     opt_field "StepScalingPolicyConfiguration" id (sp_StepScalingPolicyConfiguration p);
     opt_field "TargetTrackingScalingPolicyConfiguration" id (sp_TargetTrackingScalingPolicyConfiguration p);
     field "Alarms" (JArray (sp_Alarms p)); field "CreationTime" (JString (sp_CreationTime p))].
Definition action_value (a : ScheduledAction) : Value :=
  struct_value
    [field "ScheduledActionName" (JString (sa_ScheduledActionName a));
     field "ServiceNamespace" (JString (sa_ServiceNamespace a)); field "ResourceId" (JString (sa_ResourceId a));
     str_field "ScalableDimension" (sa_ScalableDimension a); field "Schedule" (JString (sa_Schedule a));
     str_field "Timezone" (sa_Timezone a); opt_field "StartTime" JString (sa_StartTime a);
     opt_field "EndTime" JString (sa_EndTime a); opt_field "ScalableTargetAction" id (sa_ScalableTargetAction a);
     field "CreationTime" (JString (sa_CreationTime a))].

(** The four maps; also the state file's schema. *)
Record Tables := mkTables {
  scalable_targets : gmap string ScalableTarget;
  scaling_policies : gmap string ScalingPolicy;
  scheduled_actions : gmap string ScheduledAction;
  tags : gmap string (gmap string string) }.
Definition no_tables : Tables := mkTables ∅ ∅ ∅ ∅.
Definition persisted_value (t : Tables) : Value :=
  struct_value
    [field "ScalableTargets" (map_value target_value (scalable_targets t));
     field "ScalingPolicies" (map_value policy_value (scaling_policies t));
     field "ScheduledActions" (map_value action_value (scheduled_actions t));
     field "Tags" (map_value (map_value JString) (tags t))].

(** ** Requests *)

Record RegisterScalableTargetRequest := mkRegister {
  rt_ServiceNamespace : string; rt_ResourceId : string; rt_ScalableDimension : string;
  rt_MinCapacity : option Z; rt_MaxCapacity : option Z; rt_RoleARN : string;
  rt_SuspendedState : option SuspendedState; rt_Tags : gmap string string }.
Record DescribeScalableTargetsRequest := mkDescTargets {
  dt_ServiceNamespace : string; dt_ResourceIds : list string; dt_ScalableDimension : string }.
Record DeregisterScalableTargetRequest := mkDeregister {
  de_ServiceNamespace : string; de_ResourceId : string; de_ScalableDimension : string }.
Record PutScalingPolicyRequest := mkPutPolicy {
  pp_PolicyName : string; pp_ServiceNamespace : string; pp_ResourceId : string; pp_ScalableDimension : string;
  pp_PolicyType : string; pp_StepScalingPolicyConfiguration : option Value;
  pp_TargetTrackingScalingPolicyConfiguration : option Value }.
Record DescribeScalingPoliciesRequest := mkDescPolicies {
  dp_PolicyNames : list string; dp_ServiceNamespace : string; dp_ResourceId : string; dp_ScalableDimension : string }.
Record DeleteScalingPolicyRequest := mkDelPolicy {
  xp_PolicyName : string; xp_ServiceNamespace : string; xp_ResourceId : string; xp_ScalableDimension : string }.
Record DescribeScalingActivitiesRequest := mkDescActivities {
  dv_ServiceNamespace : string; dv_ResourceId : string; dv_ScalableDimension : string }.
Record PutScheduledActionRequest := mkPutAction {
  pa_ServiceNamespace : string; pa_ScheduledActionName : string; pa_ResourceId : string;
  pa_ScalableDimension : string; pa_Schedule : string; pa_Timezone : string;
  pa_StartTime : option string; pa_EndTime : option string; pa_ScalableTargetAction : option Value }.
Record DescribeScheduledActionsRequest := mkDescActions {
  da_ServiceNamespace : string; da_ScheduledActionNames : list string; da_ResourceId : string;
  da_ScalableDimension : string }.
Record DeleteScheduledActionRequest := mkDelAction {
  xa_ServiceNamespace : string; xa_ScheduledActionName : string; xa_ResourceId : string; xa_ScalableDimension : string }.
Record TagResourceRequest := mkTag { tr_ResourceARN : string; tr_Tags : gmap string string }.
Record UntagResourceRequest := mkUntag { ur_ResourceARN : string; ur_TagKeys : list string }.
Record ListTagsForResourceRequest := mkListTags { lt_ResourceARN : string }.

(** serde_json's readers, at the types read. *)
Class Readers := {
  register_from_slice : string -> option RegisterScalableTargetRequest;
  describe_targets_from_slice : string -> option DescribeScalableTargetsRequest;
  deregister_from_slice : string -> option DeregisterScalableTargetRequest;
  put_policy_from_slice : string -> option PutScalingPolicyRequest;
  describe_policies_from_slice : string -> option DescribeScalingPoliciesRequest;
  delete_policy_from_slice : string -> option DeleteScalingPolicyRequest;
  describe_activities_from_slice : string -> option DescribeScalingActivitiesRequest;
  put_action_from_slice : string -> option PutScheduledActionRequest;
  describe_actions_from_slice : string -> option DescribeScheduledActionsRequest;
  delete_action_from_slice : string -> option DeleteScheduledActionRequest;
  tag_from_slice : string -> option TagResourceRequest;
  untag_from_slice : string -> option UntagResourceRequest;
  list_tags_from_slice : string -> option ListTagsForResourceRequest;
  state_from_slice : string -> Tables + string }.

(** ** The clock as text *)

(** time_fmt.rs prints an instant as services/sqs does. *)
Definition now_rfc3339 `{Host} {E S} : ME E (World S) string :=
  nanos ← since_epoch; mret (rfc3339_from_unix (nanos / 10 ^ 9) (nanos mod 10 ^ 9)).

(** Application Auto Scaling: services/applicationautoscaling/src/server.rs, every
    operation with its validation, its rollback and its state file. *)

Definition SUPPORTED_NAMESPACE : string := "dynamodb".

Record Config := mkConfig {
  cfg_addr : string; cfg_region : string; cfg_account_id : string; cfg_auth_mode : string;
  cfg_access_key_id : string; cfg_secret_access_key : string; cfg_storage_path : string }.

Definition error_outcome (status : Z) (name message : string) : Outcome :=
  mkOutcome status (Some name)
    (json_obj [("__type", JString ("com.amazonaws.application-autoscaling.v20160206#" +:+ name));
               ("message", JString message)]).
Definition validation (message : string) : Outcome := error_outcome 400 "ValidationException" message.
Definition object_not_found (what : string) : Outcome :=
  error_outcome 400 "ObjectNotFoundException" (what +:+ " not found").
Definition persist_error : Outcome :=
  error_outcome 500 "InternalServerError" "failed to persist application-autoscaling state".

Definition decode {T} (from_slice : string -> option T) (body : string) : result Outcome T :=
  ok_or (error_outcome 400 "SerializationException" "invalid json request") (from_slice body).
Definition validate_namespace (ns : string) : result Outcome unit :=
  if is_empty ns then Err (validation "ServiceNamespace is required")
  else if negb (str_eqb ns SUPPORTED_NAMESPACE) then Err (validation "only dynamodb namespace is supported")
  else Ok tt.
(** [if cond { return validation(message) }] *)
Definition check (cond : bool) (message : string) : result Outcome unit :=
  if cond then Err (validation message) else Ok tt.

(** ** Keys and maps *)

Definition scalable_target_key (namespace resource_id dimension : string) : string :=
  str_join "|" [namespace; resource_id; dimension].
Definition scaling_policy_key (namespace resource_id dimension policy : string) : string :=
  str_join "|" [namespace; resource_id; dimension; policy].
Definition scheduled_action_key (namespace resource_id dimension name : string) : string :=
  str_join "|" [namespace; resource_id; dimension; name].

Definition restore_entry {T} (key : string) (previous : option T) (map : gmap string T) : gmap string T :=
  match previous with Some value => <[key := value]> map | None => delete key map end.
(** The entries removed, in key order, and the map without them. *)
Definition drain_matching {T} (prefix : string) (map : gmap string T) : list (string * T) * gmap string T :=
  let removed := List.filter (fun e => starts_with prefix e.1) (btree_iter map) in
  (removed, foldl (fun m e => delete e.1 m) map removed).
(** [map.extend(entries)] *)
Definition extend {T} (entries : list (string * T)) (map : gmap string T) : gmap string T :=
  foldl (fun m e => <[e.1 := e.2]> m) map entries.

(** ** The server *)

(** The state behind the mutex, the process's counter of [new_uuid] and the load error. *)
Record Server := mkServer { tables : Tables; uuid_counter : Z; load_err : option string }.
Abbreviation AasWorld := (World Server).
Abbreviation Api := (ME Outcome AasWorld).

Definition set_tables (t : Tables) (w : AasWorld) : AasWorld :=
  set_state (mkServer t (uuid_counter (w_state w)) (load_err (w_state w))) w.
Definition on_tables (f : Tables -> Tables) (w : AasWorld) : AasWorld := set_tables (f (tables (w_state w))) w.
Definition on_targets (f : gmap string ScalableTarget -> gmap string ScalableTarget) (t : Tables) : Tables :=
  mkTables (f (scalable_targets t)) (scaling_policies t) (scheduled_actions t) (tags t).
Definition on_policies (f : gmap string ScalingPolicy -> gmap string ScalingPolicy) (t : Tables) : Tables :=
  mkTables (scalable_targets t) (f (scaling_policies t)) (scheduled_actions t) (tags t).
Definition on_actions (f : gmap string ScheduledAction -> gmap string ScheduledAction) (t : Tables) : Tables :=
  mkTables (scalable_targets t) (scaling_policies t) (f (scheduled_actions t)) (tags t).
Definition on_tags (f : gmap string (gmap string string) -> gmap string (gmap string string)) (t : Tables) : Tables :=
  mkTables (scalable_targets t) (scaling_policies t) (scheduled_actions t) (f (tags t)).

(** [n.to_be_bytes()] of a [u64] *)
Definition to_be_bytes (n : Z) : list Z := map (fun k => Z.land (Z.shiftr n (8 * (7 - Z.of_nat k))) 255) (seq 0 8).
(** The 16 bytes with the version and variant bits in place. *)
Definition uuid_bytes (nanos n : Z) : list Z :=
  let b := (to_be_bytes nanos ++ to_be_bytes n)%list in
  let b := alter (fun x => Z.lor (Z.land x 15) 64) 6%nat b in
  alter (fun x => Z.lor (Z.land x 63) 128) 8%nat b.
Definition uuid_text (h : string) : string :=
  String.substring 0 8 h +:+ "-" +:+ String.substring 8 4 h +:+ "-" +:+ String.substring 12 4 h +:+ "-"
  +:+ String.substring 16 4 h +:+ "-" +:+ String.substring 20 12 h.

(** What the describe calls answer. *)
Definition list_answer {T} (member : string) (value : T -> Value) (l : list T) : Outcome :=
  ok_outcome (to_value (struct_value [field member (JArray (map value l))])).
(** [filter.is_empty() || filter.contains(name)] of the [HashSet] collected *)
Definition listed_in (filter : list string) (name : string) : bool :=
  nil_b filter || existsb (str_eqb name) filter.
(** [asked.is_empty() || asked == has] *)
Definition asked_for (asked has : string) : bool := is_empty asked || str_eqb has asked.

Section Server.
Context `{Host, Digests, SerdeJson, Readers} (c : Config).

(** [fetch_add] wraps; [as_nanos() as u64] truncates. *)
Definition new_uuid : Api string :=
  n ← gets (fun w => uuid_counter (w_state w));
  modify (fun w => set_state (mkServer (tables (w_state w)) ((n + 1) mod 2 ^ 64) (load_err (w_state w))) w);;
  nanos ← since_epoch;
  mret (uuid_text (hex_encode (bytes_str (uuid_bytes (nanos mod 2 ^ 64) n)))).
Definition policy_arn (uuid region account namespace resource_id policy_name : string) : string :=
  "arn:aws:autoscaling:" +:+ region +:+ ":" +:+ account +:+ ":scalingPolicy:" +:+ uuid +:+ ":resource/"
  +:+ namespace +:+ "/" +:+ resource_id +:+ ":policyName/" +:+ policy_name.
Definition build_policy_arn (region account namespace resource_id policy_name : string) : Api string :=
  uuid ← new_uuid; mret (policy_arn uuid region account namespace resource_id policy_name).

Definition load : ME string AasWorld unit :=
  t ← next_tick;
  match fs_read t with
  | Some e => fail e
  | None =>
      file ← gets w_file;
      match file with
      | None => mret tt
      | Some data =>
          persisted ← lift (of_result (state_from_slice data));
          modify (set_tables persisted)
      end
  end.
(** A new process: a new mutex around empty maps, a new counter, then the state file. *)
Definition new : ME string AasWorld unit :=
  modify (fun w => mkWorld (mkServer no_tables 0 None) false (w_file w) (w_tmp w) (w_tick w));;
  if is_empty (cfg_storage_path c) then mret tt
  else
    r ← catch load;
    match r with
    | inl _ => mret tt
    | inr e => modify (fun w => set_state (mkServer (tables (w_state w)) (uuid_counter (w_state w)) (Some e)) w)
    end.

Definition persist : Api (option string) :=
  if is_empty (cfg_storage_path c) then mret None
  else
    t ← gets (fun w => tables (w_state w));
    replace_file (json_to_vec (persisted_value t)).
(** [if self.persist(..).is_err() { rollback; return Self::persist_error() }] *)
Definition persist_or (rollback : Tables -> Tables) : Api unit :=
  r ← persist;
  match r with
  | None => mret tt
  | Some _ => modify (on_tables rollback);; fail persist_error
  end.
Definition empty_answer : Outcome := ok_outcome (json_obj []).

(** ** Scalable targets *)

Definition check_register (req : RegisterScalableTargetRequest) : result Outcome unit :=
  _ ← validate_namespace (rt_ServiceNamespace req);
  _ ← check (is_empty (rt_ResourceId req)) "ResourceId is required";
  check (is_empty (rt_ScalableDimension req)) "ScalableDimension is required".
Definition registered (req : RegisterScalableTargetRequest) (existing : option ScalableTarget) (now : string)
    : ScalableTarget :=
  let '(min, max, role, suspended, created) :=
    match existing with
    | Some e => (st_MinCapacity e, st_MaxCapacity e,
                 (if is_empty (rt_RoleARN req) then st_RoleARN e else rt_RoleARN req),
                 st_SuspendedState e, st_CreationTime e)
    | None => (0, 0, rt_RoleARN req, mkSuspended None None None, now)
    end in
  mkTarget (rt_ServiceNamespace req) (rt_ResourceId req) (rt_ScalableDimension req)
    (default min (rt_MinCapacity req)) (default max (rt_MaxCapacity req)) role
    (default suspended (rt_SuspendedState req)) created.
Definition register_scalable_target (body : string) : Api Outcome :=
  req ← lift (decode register_from_slice body);
  lift (check_register req);;
  let key := scalable_target_key (rt_ServiceNamespace req) (rt_ResourceId req) (rt_ScalableDimension req) in
  with_lock (
    previous ← gets (fun w => scalable_targets (tables (w_state w)) !! key);
    now ← now_rfc3339;
    modify (on_tables (on_targets (<[key := registered req previous now]>)));;
    persist_or (on_targets (restore_entry key previous));;
    mret empty_answer).

Definition target_matches (req : DescribeScalableTargetsRequest) (target : ScalableTarget) : bool :=
  str_eqb (st_ServiceNamespace target) (dt_ServiceNamespace req)
  && listed_in (dt_ResourceIds req) (st_ResourceId target)
  && asked_for (dt_ScalableDimension req) (st_ScalableDimension target).
Definition describe_scalable_targets (body : string) : Api Outcome :=
  req ← lift (decode describe_targets_from_slice body);
  lift (validate_namespace (dt_ServiceNamespace req));;
  with_lock (
    t ← gets (fun w => tables (w_state w));
    mret (list_answer "ScalableTargets" target_value
            (List.filter (target_matches req) (btree_iter (scalable_targets t)).*2))).

Definition check_deregister (req : DeregisterScalableTargetRequest) : result Outcome unit :=
  _ ← validate_namespace (de_ServiceNamespace req);
  check (is_empty (de_ResourceId req) || is_empty (de_ScalableDimension req))
    "ResourceId and ScalableDimension are required".
Definition deregister_scalable_target (body : string) : Api Outcome :=
  req ← lift (decode deregister_from_slice body);
  lift (check_deregister req);;
  let key := scalable_target_key (de_ServiceNamespace req) (de_ResourceId req) (de_ScalableDimension req) in
  with_lock (
    t ← gets (fun w => tables (w_state w));
    removed_target ← lift (ok_or (object_not_found "scalable target") (scalable_targets t !! key));
    let prefix := key +:+ "|" in
    let '(removed_policies, policies) := drain_matching prefix (scaling_policies t) in
    let '(removed_actions, actions) := drain_matching prefix (scheduled_actions t) in
    modify (set_tables (mkTables (delete key (scalable_targets t)) policies actions (tags t)));;
    persist_or (fun t => on_actions (extend removed_actions) (on_policies (extend removed_policies)
                           (on_targets (<[key := removed_target]>) t)));;
    mret empty_answer).

(** ** Scaling policies *)

Definition policy_type_of (asked : string) : string := if is_empty asked then "StepScaling" else asked.
Definition check_put_policy (req : PutScalingPolicyRequest) : result Outcome unit :=
  _ ← validate_namespace (pp_ServiceNamespace req);
  _ ← check (is_empty (pp_PolicyName req)) "PolicyName is required";
  _ ← check (is_empty (pp_ResourceId req) || is_empty (pp_ScalableDimension req))
        "ResourceId and ScalableDimension are required";
  let policy_type := policy_type_of (pp_PolicyType req) in
  check (negb (str_eqb policy_type "StepScaling") && negb (str_eqb policy_type "TargetTrackingScaling"))
    "PolicyType must be StepScaling or TargetTrackingScaling".
Definition put_policy (req : PutScalingPolicyRequest) (arn created : string) : ScalingPolicy :=
  mkPolicy arn (pp_PolicyName req) (pp_ServiceNamespace req) (pp_ResourceId req) (pp_ScalableDimension req)
    (policy_type_of (pp_PolicyType req)) (pp_StepScalingPolicyConfiguration req)
    (pp_TargetTrackingScalingPolicyConfiguration req) [] created.
Definition put_policy_answer (arn : string) : Outcome :=
  ok_outcome (to_value (struct_value [field "PolicyARN" (JString arn); field "Alarms" (JArray [])])).
Definition put_scaling_policy (body : string) : Api Outcome :=
  req ← lift (decode put_policy_from_slice body);
  lift (check_put_policy req);;
  let key := scaling_policy_key (pp_ServiceNamespace req) (pp_ResourceId req) (pp_ScalableDimension req)
               (pp_PolicyName req) in
  let region := default_str (cfg_region c) "us-east-1" in
  let account := default_str (cfg_account_id c) "000000000000" in
  with_lock (
    previous ← gets (fun w => scaling_policies (tables (w_state w)) !! key);
    now ← now_rfc3339;
    policy ← match previous with
             | Some existing => mret (put_policy req (sp_PolicyARN existing) (sp_CreationTime existing))
             | None =>
                 arn ← build_policy_arn region account (pp_ServiceNamespace req) (pp_ResourceId req) (pp_PolicyName req);
                 mret (put_policy req arn now)
             end;
    modify (on_tables (on_policies (<[key := policy]>)));;
    persist_or (on_policies (restore_entry key previous));;
    mret (put_policy_answer (sp_PolicyARN policy))).

Definition policy_matches (req : DescribeScalingPoliciesRequest) (policy : ScalingPolicy) : bool :=
  str_eqb (sp_ServiceNamespace policy) (dp_ServiceNamespace req)
  && asked_for (dp_ResourceId req) (sp_ResourceId policy)
  && asked_for (dp_ScalableDimension req) (sp_ScalableDimension policy)
  && listed_in (dp_PolicyNames req) (sp_PolicyName policy).
Definition describe_scaling_policies (body : string) : Api Outcome :=
  req ← lift (decode describe_policies_from_slice body);
  lift (validate_namespace (dp_ServiceNamespace req));;
  with_lock (
    t ← gets (fun w => tables (w_state w));
    mret (list_answer "ScalingPolicies" policy_value
            (List.filter (policy_matches req) (btree_iter (scaling_policies t)).*2))).

Definition check_delete_policy (req : DeleteScalingPolicyRequest) : result Outcome unit :=
  _ ← validate_namespace (xp_ServiceNamespace req);
  check (is_empty (xp_PolicyName req) || is_empty (xp_ResourceId req) || is_empty (xp_ScalableDimension req))
    "PolicyName, ResourceId, and ScalableDimension are required".
Definition delete_scaling_policy (body : string) : Api Outcome :=
  req ← lift (decode delete_policy_from_slice body);
  lift (check_delete_policy req);;
  let key := scaling_policy_key (xp_ServiceNamespace req) (xp_ResourceId req) (xp_ScalableDimension req)
               (xp_PolicyName req) in
  with_lock (
    t ← gets (fun w => tables (w_state w));
    removed ← lift (ok_or (object_not_found "scaling policy") (scaling_policies t !! key));
    modify (on_tables (on_policies (delete key)));;
    persist_or (on_policies (<[key := removed]>));;
    mret empty_answer).

Definition describe_scaling_activities (body : string) : Api Outcome :=
  req ← lift (decode describe_activities_from_slice body);
  lift (validate_namespace (dv_ServiceNamespace req));;
  mret (list_answer "ScalingActivities" id []).

(** ** Scheduled actions *)

Definition check_put_action (req : PutScheduledActionRequest) : result Outcome unit :=
  _ ← validate_namespace (pa_ServiceNamespace req);
  _ ← check (is_empty (pa_ScheduledActionName req)) "ScheduledActionName is required";
  check (is_empty (pa_ResourceId req) || is_empty (pa_ScalableDimension req))
    "ResourceId and ScalableDimension are required".
Definition put_action (req : PutScheduledActionRequest) (existing : option ScheduledAction) (now : string)
    : ScheduledAction :=
  mkAction (pa_ScheduledActionName req) (pa_ServiceNamespace req) (pa_ResourceId req) (pa_ScalableDimension req)
    (pa_Schedule req) (pa_Timezone req) (pa_StartTime req) (pa_EndTime req) (pa_ScalableTargetAction req)
    (match existing with Some e => sa_CreationTime e | None => now end).
Definition put_scheduled_action (body : string) : Api Outcome :=
  req ← lift (decode put_action_from_slice body);
  lift (check_put_action req);;
  let key := scheduled_action_key (pa_ServiceNamespace req) (pa_ResourceId req) (pa_ScalableDimension req)
               (pa_ScheduledActionName req) in
  with_lock (
    previous ← gets (fun w => scheduled_actions (tables (w_state w)) !! key);
    now ← now_rfc3339;
    modify (on_tables (on_actions (<[key := put_action req previous now]>)));;
    persist_or (on_actions (restore_entry key previous));;
    mret empty_answer).

Definition action_matches (req : DescribeScheduledActionsRequest) (action : ScheduledAction) : bool :=
  str_eqb (sa_ServiceNamespace action) (da_ServiceNamespace req)
  && asked_for (da_ResourceId req) (sa_ResourceId action)
  && asked_for (da_ScalableDimension req) (sa_ScalableDimension action)
  && listed_in (da_ScheduledActionNames req) (sa_ScheduledActionName action).
Definition describe_scheduled_actions (body : string) : Api Outcome :=
  req ← lift (decode describe_actions_from_slice body);
  lift (validate_namespace (da_ServiceNamespace req));;
  with_lock (
    t ← gets (fun w => tables (w_state w));
    mret (list_answer "ScheduledActions" action_value
            (List.filter (action_matches req) (btree_iter (scheduled_actions t)).*2))).

Definition check_delete_action (req : DeleteScheduledActionRequest) : result Outcome unit :=
  _ ← validate_namespace (xa_ServiceNamespace req);
  check (is_empty (xa_ScheduledActionName req) || is_empty (xa_ResourceId req) || is_empty (xa_ScalableDimension req))
    "ScheduledActionName, ResourceId, and ScalableDimension are required".
Definition delete_scheduled_action (body : string) : Api Outcome :=
  req ← lift (decode delete_action_from_slice body);
  lift (check_delete_action req);;
  let key := scheduled_action_key (xa_ServiceNamespace req) (xa_ResourceId req) (xa_ScalableDimension req)
               (xa_ScheduledActionName req) in
  with_lock (
    t ← gets (fun w => tables (w_state w));
    removed ← lift (ok_or (object_not_found "scheduled action") (scheduled_actions t !! key));
    modify (on_tables (on_actions (delete key)));;
    persist_or (on_actions (<[key := removed]>));;
    mret empty_answer).

(** ** Tags *)

Definition tag_resource (body : string) : Api Outcome :=
  req ← lift (decode tag_from_slice body);
  lift (check (is_empty (tr_ResourceARN req)) "ResourceARN is required");;
  with_lock (
    previous_bucket ← gets (fun w => tags (tables (w_state w)) !! tr_ResourceARN req);
    let bucket := extend (btree_iter (tr_Tags req)) (default ∅ previous_bucket) in
    modify (on_tables (on_tags (<[tr_ResourceARN req := bucket]>)));;
    persist_or (on_tags (restore_entry (tr_ResourceARN req) previous_bucket));;
    mret empty_answer).
(** The bucket without the keys; an emptied bucket goes. *)
Definition untagged (arn : string) (keys : list string) (m : gmap string (gmap string string))
    : gmap string (gmap string string) :=
  match m !! arn with
  | None => m
  | Some bucket =>
      let bucket := foldl (fun b k => delete k b) bucket keys in
      if bool_decide (bucket = ∅) then delete arn m else <[arn := bucket]> m
  end.
Definition untag_resource (body : string) : Api Outcome :=
  req ← lift (decode untag_from_slice body);
  lift (check (is_empty (ur_ResourceARN req)) "ResourceARN is required");;
  with_lock (
    previous_bucket ← gets (fun w => tags (tables (w_state w)) !! ur_ResourceARN req);
    modify (on_tables (on_tags (untagged (ur_ResourceARN req) (ur_TagKeys req))));;
    persist_or (on_tags (restore_entry (ur_ResourceARN req) previous_bucket));;
    mret empty_answer).
Definition tags_answer (bucket : gmap string string) : Outcome :=
  ok_outcome (to_value (struct_value [field "Tags" (map_value JString bucket)])).
Definition list_tags_for_resource (body : string) : Api Outcome :=
  req ← lift (decode list_tags_from_slice body);
  lift (check (is_empty (lt_ResourceARN req)) "ResourceARN is required");;
  with_lock (
    bucket ← gets (fun w => tags (tables (w_state w)) !! lt_ResourceARN req);
    mret (tags_answer (default ∅ bucket))).

(** ** Dispatch *)

Definition operation_of (operation : string) : option (string -> Api Outcome) :=
  if str_eqb operation "RegisterScalableTarget" then Some register_scalable_target
  else if str_eqb operation "DescribeScalableTargets" then Some describe_scalable_targets
  else if str_eqb operation "DeregisterScalableTarget" then Some deregister_scalable_target
  else if str_eqb operation "PutScalingPolicy" then Some put_scaling_policy
  else if str_eqb operation "DescribeScalingPolicies" then Some describe_scaling_policies
  else if str_eqb operation "DeleteScalingPolicy" then Some delete_scaling_policy
  else if str_eqb operation "DescribeScalingActivities" then Some describe_scaling_activities
  else if str_eqb operation "PutScheduledAction" then Some put_scheduled_action
  else if str_eqb operation "DescribeScheduledActions" then Some describe_scheduled_actions
  else if str_eqb operation "DeleteScheduledAction" then Some delete_scheduled_action
  else if str_eqb operation "TagResource" then Some tag_resource
  else if str_eqb operation "UntagResource" then Some untag_resource
  else if str_eqb operation "ListTagsForResource" then Some list_tags_for_resource
  else None.
(** Both arms of a handler's result are answers. *)
Definition dispatch (operation body : string) : ME string AasWorld Outcome := fun w =>
  match operation_of operation with
  | None => (Ok (error_outcome 400 "UnknownOperationException" "unknown operation"), w)
  | Some handler =>
      match handler body w with
      | (Ok o, w') | (Err o, w') => (Ok o, w')
      | (Panic why, w') => (Panic why, w')
      end
  end.
End Server.
