(* ===== verification/AasTheorems.v ===== *)
(** Application Auto Scaling's correctness: the registry it implements, what
    deregistering a target takes along, refusals and restarts. *)

From S2P Require Import Prelude RustStr RustNum RustText Json StateFile AwsSigV4 AasServer.
Local Open Scope string_scope.
Local Open Scope Z_scope.

Create HintDb aas_refuses discriminated.

(** ** Maps *)

Lemma starts_with_filter {T} prefix (m : gmap string T) k v :
  (k, v) ∈ List.filter (fun e => starts_with prefix e.1) (btree_iter m) <->
  m !! k = Some v /\ starts_with prefix k = true.
Proof. rewrite list_elem_of_In, filter_In, <- list_elem_of_In, elem_of_btree_iter. done. Qed.

Lemma foldl_delete_lookup {T} (l : list (string * T)) (m : gmap string T) k :
  foldl (fun m e => delete e.1 m) m l !! k = if decide (k ∈ l.*1) then None else m !! k.
Proof.
  revert m. induction l as [|[k' v'] l IH]; intros m; [done|]. cbn. rewrite IH.
  destruct (decide (k ∈ l.*1)) as [Hk|Hk].
  - rewrite decide_True; [done|]. apply elem_of_cons. by right.
  - destruct (decide (k = k')) as [->|Hne].
    + rewrite lookup_delete_eq, decide_True; [done|]. apply elem_of_cons. by left.
    + rewrite lookup_delete_ne by done. rewrite decide_False; [done|]. rewrite elem_of_cons. tauto.
Qed.

(** What is left after draining, as a filter. *)
Definition without {T} (prefix : string) (m : gmap string T) : gmap string T :=
  filter (fun e => starts_with prefix e.1 = false) m.
Lemma drained_keys {T} prefix (m : gmap string T) k :
  k ∈ (drain_matching prefix m).1.*1 <-> is_Some (m !! k) /\ starts_with prefix k = true.
Proof.
  unfold drain_matching. cbn. rewrite list_elem_of_fmap. split.
  - intros ([k' v] & -> & Hin%starts_with_filter). naive_solver.
  - intros [[v Hv] Hp]. exists (k, v). split; [done|]. by apply starts_with_filter.
Qed.
Lemma drain_rest {T} prefix (m : gmap string T) : (drain_matching prefix m).2 = without prefix m.
Proof.
  apply map_eq. intros k. change (drain_matching prefix m).2 with
    (foldl (fun m e => delete e.1 m) m (drain_matching prefix m).1).
  rewrite foldl_delete_lookup. unfold without. rewrite map_lookup_filter.
  destruct (decide _) as [[Hs Hp]%drained_keys|Hn]; destruct (m !! k) as [v|] eqn:E; simpl; try done.
  - rewrite option_guard_False; [done|]. simpl. by rewrite Hp.
  - rewrite option_guard_True; [done|]. simpl. destruct (starts_with prefix k) eqn:Ep; [|done].
    destruct Hn. apply drained_keys. by rewrite E.
Qed.

Lemma extend_lookup {T} (l : list (string * T)) (m : gmap string T) k :
  NoDup l.*1 -> extend l m !! k = match (list_to_map l : gmap string T) !! k with Some v => Some v | None => m !! k end.
Proof. apply foldl_insert_lookup. Qed.
Lemma drained_NoDup {T} prefix (m : gmap string T) : NoDup (drain_matching prefix m).1.*1.
Proof.
  unfold drain_matching. cbn. pose proof (NoDup_btree_keys m) as Hn. revert Hn.
  induction (btree_iter m) as [|e l IH]; [done|]. cbn. intros [Hni Hn]%NoDup_cons.
  destruct (starts_with prefix e.1); [|by apply IH]. cbn. apply NoDup_cons. split; [|by apply IH].
  intros Hin. apply Hni. apply list_elem_of_fmap in Hin as (y & -> & Hy). apply list_elem_of_In in Hy.
  apply filter_In in Hy as [Hy _]. apply list_elem_of_fmap_2. by apply list_elem_of_In.
Qed.
(** The rollback puts everything back. *)
Lemma extend_drained {T} prefix (m : gmap string T) : extend (drain_matching prefix m).1 (drain_matching prefix m).2 = m.
Proof.
  apply map_eq. intros k. rewrite extend_lookup by apply drained_NoDup. rewrite drain_rest.
  destruct ((list_to_map _ : gmap string T) !! k) as [v|] eqn:E.
  - apply elem_of_list_to_map in E; [|apply drained_NoDup]. by apply starts_with_filter in E as [-> _].
  - apply not_elem_of_list_to_map in E. rewrite drained_keys in E. unfold without. rewrite map_lookup_filter.
    destruct (m !! k) as [v|] eqn:Ek; [|done]. simpl. rewrite option_guard_True; [done|]. simpl.
    destruct (starts_with prefix k); [|done]. destruct E. eauto.
Qed.
Lemma extend_union {T} (a m : gmap string T) : extend (btree_iter a) m = a ∪ m.
Proof.
  apply map_eq. intros k. rewrite extend_lookup by apply NoDup_btree_keys.
  rewrite list_to_map_btree_iter, lookup_union. by destruct (a !! k), (m !! k).
Qed.
Lemma restore_entry_undo {T} key (m m' : gmap string T) :
  (forall k, k <> key -> m' !! k = m !! k) -> restore_entry key (m !! key) m' = m.
Proof.
  intros Hk. unfold restore_entry. apply map_eq. intros k. destruct (decide (k = key)) as [->|Hne].
  - destruct (m !! key) eqn:E; [by rewrite lookup_insert_eq|by rewrite lookup_delete_eq].
  - destruct (m !! key); [rewrite lookup_insert_ne by done|rewrite lookup_delete_ne by done]; by apply Hk.
Qed.
Lemma restore_insert {T} key v (m : gmap string T) : restore_entry key (m !! key) (<[key := v]> m) = m.
Proof. apply restore_entry_undo. intros k Hk. by apply lookup_insert_ne. Qed.

(** Removing the tags of [keys]; the bucket goes with its last tag. *)
Definition minus_tags (keys : list string) (bucket : gmap string string) : gmap string string :=
  filter (fun e => e.1 ∉ keys) bucket.
Lemma minus_tags_lookup keys b k : minus_tags keys b !! k = if decide (k ∈ keys) then None else b !! k.
Proof.
  unfold minus_tags. rewrite map_lookup_filter. destruct (b !! k) as [v|]; [|by destruct (decide _)]. cbn.
  destruct (decide (k ∈ keys)); [rewrite option_guard_False|rewrite option_guard_True]; simpl; done || tauto.
Qed.
Lemma foldl_delete_keys (b : gmap string string) keys : foldl (fun b k => delete k b) b keys = minus_tags keys b.
Proof.
  apply map_eq. intros k. rewrite minus_tags_lookup. revert b.
  induction keys as [|k' keys IH]; intros b; cbn [foldl].
  - rewrite decide_False; [done|]. apply not_elem_of_nil.
  - rewrite IH. destruct (decide (k ∈ keys)) as [Hk|Hk].
    + rewrite decide_True; [done|]. apply elem_of_cons. by right.
    + destruct (decide (k = k')) as [->|Hne].
      * rewrite lookup_delete_eq, decide_True; [done|]. apply elem_of_cons. by left.
      * rewrite lookup_delete_ne, decide_False; [done| |done]. rewrite elem_of_cons. tauto.
Qed.

(** ** The registry

    What a call does, without the lock, the files, the rollbacks and the loops. *)

Section Registry.
Context `{Host, Digests, SerdeJson, Readers} (c : Config).
Implicit Types (w : AasWorld) (t : Tables).

Definition target_key (req : DeregisterScalableTargetRequest) : string :=
  scalable_target_key (de_ServiceNamespace req) (de_ResourceId req) (de_ScalableDimension req).
Definition deregistered (key : string) t : Tables :=
  mkTables (delete key (scalable_targets t)) (without (key +:+ "|") (scaling_policies t))
    (without (key +:+ "|") (scheduled_actions t)) (tags t).

Inductive registry_step t : string -> string -> Outcome -> Tables -> Prop :=
| step_register body req now :
    decode register_from_slice body = Ok req -> check_register req = Ok tt ->
    let key := scalable_target_key (rt_ServiceNamespace req) (rt_ResourceId req) (rt_ScalableDimension req) in
    registry_step t "RegisterScalableTarget" body empty_answer
      (on_targets (<[key := registered req (scalable_targets t !! key) now]>) t)
| step_describe_targets body req :
    decode describe_targets_from_slice body = Ok req -> validate_namespace (dt_ServiceNamespace req) = Ok tt ->
    registry_step t "DescribeScalableTargets" body
      (list_answer "ScalableTargets" target_value
         (List.filter (target_matches req) (btree_iter (scalable_targets t)).*2)) t
| step_deregister body req :
    decode deregister_from_slice body = Ok req -> check_deregister req = Ok tt ->
    is_Some (scalable_targets t !! target_key req) ->
    registry_step t "DeregisterScalableTarget" body empty_answer (deregistered (target_key req) t)
| step_put_policy body req arn created :
    decode put_policy_from_slice body = Ok req -> check_put_policy req = Ok tt ->
    let key := scaling_policy_key (pp_ServiceNamespace req) (pp_ResourceId req) (pp_ScalableDimension req)
                 (pp_PolicyName req) in
    match scaling_policies t !! key with
    | Some p => arn = sp_PolicyARN p /\ created = sp_CreationTime p
    | None => exists uuid, arn = policy_arn uuid (default_str (cfg_region c) "us-east-1")
                             (default_str (cfg_account_id c) "000000000000")
                             (pp_ServiceNamespace req) (pp_ResourceId req) (pp_PolicyName req)
    end ->
    registry_step t "PutScalingPolicy" body (put_policy_answer arn)
      (on_policies (<[key := put_policy req arn created]>) t)
| step_describe_policies body req :
    decode describe_policies_from_slice body = Ok req -> validate_namespace (dp_ServiceNamespace req) = Ok tt ->
    registry_step t "DescribeScalingPolicies" body
      (list_answer "ScalingPolicies" policy_value
         (List.filter (policy_matches req) (btree_iter (scaling_policies t)).*2)) t
| step_delete_policy body req :
    decode delete_policy_from_slice body = Ok req -> check_delete_policy req = Ok tt ->
    let key := scaling_policy_key (xp_ServiceNamespace req) (xp_ResourceId req) (xp_ScalableDimension req)
                 (xp_PolicyName req) in
    is_Some (scaling_policies t !! key) ->
    registry_step t "DeleteScalingPolicy" body empty_answer (on_policies (delete key) t)
| step_describe_activities body req :
    decode describe_activities_from_slice body = Ok req -> validate_namespace (dv_ServiceNamespace req) = Ok tt ->
    registry_step t "DescribeScalingActivities" body (list_answer "ScalingActivities" id []) t
| step_put_action body req now :
    decode put_action_from_slice body = Ok req -> check_put_action req = Ok tt ->
    let key := scheduled_action_key (pa_ServiceNamespace req) (pa_ResourceId req) (pa_ScalableDimension req)
                 (pa_ScheduledActionName req) in
    registry_step t "PutScheduledAction" body empty_answer
      (on_actions (<[key := put_action req (scheduled_actions t !! key) now]>) t)
| step_describe_actions body req :
    decode describe_actions_from_slice body = Ok req -> validate_namespace (da_ServiceNamespace req) = Ok tt ->
    registry_step t "DescribeScheduledActions" body
      (list_answer "ScheduledActions" action_value
         (List.filter (action_matches req) (btree_iter (scheduled_actions t)).*2)) t
| step_delete_action body req :
    decode delete_action_from_slice body = Ok req -> check_delete_action req = Ok tt ->
    let key := scheduled_action_key (xa_ServiceNamespace req) (xa_ResourceId req) (xa_ScalableDimension req)
                 (xa_ScheduledActionName req) in
    is_Some (scheduled_actions t !! key) ->
    registry_step t "DeleteScheduledAction" body empty_answer (on_actions (delete key) t)
| step_tag body req :
    decode tag_from_slice body = Ok req -> tr_ResourceARN req <> "" ->
    registry_step t "TagResource" body empty_answer
      (on_tags (partial_alter (fun b => Some (tr_Tags req ∪ default ∅ b)) (tr_ResourceARN req)) t)
| step_untag body req :
    decode untag_from_slice body = Ok req -> ur_ResourceARN req <> "" ->
    registry_step t "UntagResource" body empty_answer
      (on_tags (partial_alter (fun b => b ← b; let rest := minus_tags (ur_TagKeys req) b in
                                        if decide (rest = ∅) then None else Some rest) (ur_ResourceARN req)) t)
| step_list_tags body req :
    decode list_tags_from_slice body = Ok req -> lt_ResourceARN req <> "" ->
    registry_step t "ListTagsForResource" body (tags_answer (default ∅ (tags t !! lt_ResourceARN req))) t.

(** ** Calls *)

Definition storage_off : bool := is_empty (cfg_storage_path c).
Definition saved w : Prop :=
  storage_off = true \/ w_file w = Some (json_to_vec (persisted_value (tables (w_state w)))).
(** Nothing but the tick, the temporary file and the counter of [new_uuid] moved. *)
Definition unchanged w w' : Prop :=
  tables (w_state w') = tables (w_state w) /\ load_err (w_state w') = load_err (w_state w)
  /\ w_file w' = w_file w /\ w_poisoned w' = w_poisoned w.

(** A call answers and takes the registry's step, saved or with everything as it was;
    or it is refused and changes nothing; a panic is the poisoned lock's. *)
Definition call_post (operation body : string) w (o : result Outcome Outcome) w' : Prop :=
  match o with
  | Ok out =>
      w_poisoned w' = w_poisoned w /\ load_err (w_state w') = load_err (w_state w)
      /\ o_status out = 200 /\ registry_step (tables (w_state w)) operation body out (tables (w_state w'))
      /\ (saved w' \/ unchanged w w') /\ (storage_off = true -> w_file w' = w_file w)
  | Err e => o_status e <> 200 /\ unchanged w w'
  | Panic _ => w' = w /\ w_poisoned w = true
  end.
(** The same under the lock, where nothing panics. *)
Definition locked_post (operation body : string) w (o : result Outcome Outcome) w' : Prop :=
  ~ is_panic o /\ call_post operation body w o w'.

Lemma aas_unchanged_refl w : unchanged w w.
Proof. done. Qed.
Lemma unchanged_trans w1 w2 w3 : unchanged w1 w2 -> unchanged w2 w3 -> unchanged w1 w3.
Proof. unfold unchanged. intuition congruence. Qed.

(** Pure checks refuse with an error status and never panic. *)
Definition refuses {A} (r : result Outcome A) : Prop :=
  match r with Ok _ => True | Err e => o_status e <> 200 | Panic _ => False end.
Lemma aas_refuses_bind {A B} (r : result Outcome A) (f : A -> result Outcome B) :
  refuses r -> (forall a, refuses (f a)) -> refuses (r ≫= f).
Proof. destruct r; simpl; auto. Qed.
Lemma aas_refuses_decode {T} (f : string -> option T) body : refuses (decode f body).
Proof. unfold decode, ok_or. by destruct (f _). Qed.
Lemma refuses_check cond message : refuses (check cond message).
Proof. by destruct cond. Qed.
Lemma refuses_namespace ns : refuses (validate_namespace ns).
Proof. unfold validate_namespace. by repeat case_match. Qed.
Hint Resolve aas_refuses_decode refuses_check refuses_namespace : aas_refuses.
Lemma refuses_register req : refuses (check_register req).
Proof. unfold check_register. repeat (apply aas_refuses_bind; [auto with aas_refuses|intros _]). auto with aas_refuses. Qed.
Lemma refuses_deregister req : refuses (check_deregister req).
Proof. unfold check_deregister. repeat (apply aas_refuses_bind; [auto with aas_refuses|intros _]). auto with aas_refuses. Qed.
Lemma refuses_put_policy req : refuses (check_put_policy req).
Proof. unfold check_put_policy. repeat (apply aas_refuses_bind; [auto with aas_refuses|intros _]). auto with aas_refuses. Qed.
Lemma refuses_delete_policy req : refuses (check_delete_policy req).
Proof. unfold check_delete_policy. repeat (apply aas_refuses_bind; [auto with aas_refuses|intros _]). auto with aas_refuses. Qed.
Lemma refuses_put_action req : refuses (check_put_action req).
Proof. unfold check_put_action. repeat (apply aas_refuses_bind; [auto with aas_refuses|intros _]). auto with aas_refuses. Qed.
Lemma refuses_delete_action req : refuses (check_delete_action req).
Proof. unfold check_delete_action. repeat (apply aas_refuses_bind; [auto with aas_refuses|intros _]). auto with aas_refuses. Qed.
Hint Resolve refuses_register refuses_deregister refuses_put_policy refuses_delete_policy refuses_put_action
  refuses_delete_action : aas_refuses.

(** A check before the lock: its refusal ends the call. *)
Lemma aas_check {A} op body (r : result Outcome A) (f : A -> Api Outcome) w :
  refuses r -> (forall a, r = Ok a -> wp (f a) (call_post op body w) w) -> wp (lift r ≫= f) (call_post op body w) w.
Proof. intros Hr Hf. apply wp_bind, wp_lift. destruct r; simpl in *; eauto; done. Qed.
Lemma aas_lock op body (m : Api Outcome) w :
  (w_poisoned w = false -> wp m (locked_post op body w) w) -> wp (with_lock m) (call_post op body w) w.
Proof.
  intros Hm. apply wp_with_lock; [done|]. intros Hp. eapply wp_mono; [by apply Hm|].
  intros [out|e|why] w' [Hn Hc]; [done..|]. by destruct Hn.
Qed.
(** A read under the lock. *)
Lemma aas_answer op body out w :
  o_status out = 200 -> registry_step (tables (w_state w)) op body out (tables (w_state w)) ->
  locked_post op body w (Ok out) w.
Proof. intros Hst Hs. split; [by intros []|]. repeat split; try done. by right. Qed.
Lemma aas_refusal op body e w : o_status e <> 200 -> locked_post op body w (Err e) w.
Proof. intros He. split; [by intros []|]. done. Qed.

(** The tail of every change: put it in, persist it or take it back. *)
Lemma aas_change op body w w1 f rollback out :
  w_poisoned w = false -> unchanged w w1 -> o_status out = 200 ->
  registry_step (tables (w_state w)) op body out (f (tables (w_state w))) ->
  rollback (f (tables (w_state w))) = tables (w_state w) ->
  wp (modify (on_tables f) ≫= (fun _ => persist_or c rollback ≫= (fun _ => mret out))) (locked_post op body w) w1.
Proof.
  intros Hp (Ht & Hl & Hf & Hp1) Hst Hs Hrb. apply wp_bind, wp_modify. simpl. apply wp_bind.
  unfold persist_or, persist. apply wp_bind. fold storage_off. destruct storage_off eqn:Eoff.
  - apply wp_ret. simpl. apply wp_ret. simpl. apply wp_ret. split; [by intros []|].
    repeat split; simpl; try (intros; congruence); try done. left; by left.
  - apply wp_bind, wp_gets. simpl. apply wp_replace_file; simpl.
    + intros e tmp tick. apply wp_bind, wp_modify. simpl. apply wp_fail. simpl.
      split; [by intros []|]. split; [done|]. by repeat split; simpl; congruence.
    + intros tick. apply wp_ret. simpl. apply wp_ret. split; [by intros []|].
      repeat split; simpl; try (intros; congruence); try done. left; by right.
Qed.

Lemma aas_now op body (f : string -> Api Outcome) w w1 :
  unchanged w w1 ->
  (forall now w2, unchanged w w2 -> tables (w_state w2) = tables (w_state w) -> wp (f now) (locked_post op body w) w2) ->
  wp (now_rfc3339 ≫= f) (locked_post op body w) w1.
Proof.
  intros Hu Hf. apply wp_bind. unfold now_rfc3339. apply wp_bind, wp_since_epoch. intros n tick _. simpl.
  apply wp_ret. simpl. apply Hf; [by eapply unchanged_trans|]. simpl. apply Hu.
Qed.

Lemma wp_build_arn region account ns rid name w (Q : result Outcome string -> AasWorld -> Prop) :
  (forall uuid w', unchanged w w' -> Q (Ok (policy_arn uuid region account ns rid name)) w') ->
  wp (build_policy_arn region account ns rid name) Q w.
Proof.
  intros HQ. unfold build_policy_arn. apply wp_bind. unfold new_uuid. apply wp_bind, wp_gets. simpl.
  apply wp_bind, wp_modify. simpl. apply wp_bind, wp_since_epoch. intros nanos tick _. simpl. apply wp_ret. simpl.
  apply wp_ret. by apply HQ.
Qed.

(** ** The handlers *)

Abbreviation meets op handler := (forall body w, wp (handler body) (call_post op body w) w).

Lemma register_meets : meets "RegisterScalableTarget" (register_scalable_target c).
Proof.
  intros body w. unfold register_scalable_target.
  apply aas_check; [auto with aas_refuses|]. intros req Hreq. apply aas_check; [auto with aas_refuses|]. intros [] Hc.
  apply aas_lock. intros Hp. apply wp_bind, wp_gets. cbn [bind_post].
  apply aas_now; [done|]. intros now w2 Hu Ht. apply aas_change; try done; [by econstructor|].
  unfold on_targets. simpl. rewrite restore_insert. by destruct (tables (w_state w)).
Qed.
Lemma describe_targets_meets : meets "DescribeScalableTargets" describe_scalable_targets.
Proof.
  intros body w. unfold describe_scalable_targets.
  apply aas_check; [auto with aas_refuses|]. intros req Hreq. apply aas_check; [auto with aas_refuses|]. intros [] Hc.
  apply aas_lock. intros Hp. apply wp_bind, wp_gets. simpl. apply wp_ret. apply aas_answer; [done|by constructor].
Qed.
Lemma deregister_meets : meets "DeregisterScalableTarget" (deregister_scalable_target c).
Proof.
  intros body w. unfold deregister_scalable_target.
  apply aas_check; [auto with aas_refuses|]. intros req Hreq. apply aas_check; [auto with aas_refuses|]. intros [] Hc.
  apply aas_lock. intros Hp. apply wp_bind, wp_gets. cbn [bind_post]. apply wp_bind, wp_lift.
  set (t := tables (w_state w)). fold (target_key req). set (key := target_key req).
  destruct (scalable_targets t !! key) as [target|] eqn:Et; cbn [ok_or bind_post]; [|by apply aas_refusal].
  pose proof (extend_drained (key +:+ "|") (scaling_policies t)) as Hep.
  pose proof (extend_drained (key +:+ "|") (scheduled_actions t)) as Hea.
  pose proof (drain_rest (key +:+ "|") (scaling_policies t)) as Hrp.
  pose proof (drain_rest (key +:+ "|") (scheduled_actions t)) as Hra.
  destruct (drain_matching _ (scaling_policies t)) as [ps ps'], (drain_matching _ (scheduled_actions t)) as [acts acts'].
  simpl in Hep, Hea, Hrp, Hra.
  apply (aas_change _ _ w w (fun _ => mkTables (delete key (scalable_targets t)) ps' acts' (tags t))); try done.
  - rewrite Hrp, Hra. apply step_deregister; done.
  - unfold on_actions, on_policies, on_targets. simpl. rewrite Hep, Hea, insert_delete_id by exact Et. fold t. by destruct t.
Qed.
Lemma put_policy_meets : meets "PutScalingPolicy" (put_scaling_policy c).
Proof.
  intros body w. unfold put_scaling_policy.
  apply aas_check; [auto with aas_refuses|]. intros req Hreq. apply aas_check; [auto with aas_refuses|]. intros [] Hc.
  apply aas_lock. intros Hp. apply wp_bind, wp_gets. cbn [bind_post].
  apply aas_now; [done|]. intros now w2 Hu Ht. apply wp_bind. set (key := scaling_policy_key _ _ _ _).
  destruct (_ !! key) as [p|] eqn:Ep.
  - apply wp_ret. cbn [bind_post sp_PolicyARN put_policy].
    apply (aas_change _ _ w w2 (on_policies (<[key := put_policy req (sp_PolicyARN p) (sp_CreationTime p)]>))); try done.
    + apply step_put_policy; try done. fold key. by rewrite Ep.
    + rewrite <- Ep. unfold on_policies. simpl. rewrite restore_insert. by destruct (tables (w_state w)).
  - apply wp_bind. apply wp_build_arn. intros uuid w3 Hu3. simpl. apply wp_ret. cbn [bind_post sp_PolicyARN put_policy].
    match goal with |- context [put_policy req ?a now] =>
      apply (aas_change _ _ w w3 (on_policies (<[key := put_policy req a now]>))) end; try done.
    + by eapply unchanged_trans.
    + apply step_put_policy; try done. fold key. rewrite Ep. by eexists.
    + rewrite <- Ep. unfold on_policies. simpl. rewrite restore_insert. by destruct (tables (w_state w)).
Qed.
Lemma describe_policies_meets : meets "DescribeScalingPolicies" describe_scaling_policies.
Proof.
  intros body w. unfold describe_scaling_policies.
  apply aas_check; [auto with aas_refuses|]. intros req Hreq. apply aas_check; [auto with aas_refuses|]. intros [] Hc.
  apply aas_lock. intros Hp. apply wp_bind, wp_gets. simpl. apply wp_ret. apply aas_answer; [done|by constructor].
Qed.
Lemma delete_policy_meets : meets "DeleteScalingPolicy" (delete_scaling_policy c).
Proof.
  intros body w. unfold delete_scaling_policy.
  apply aas_check; [auto with aas_refuses|]. intros req Hreq. apply aas_check; [auto with aas_refuses|]. intros [] Hc.
  apply aas_lock. intros Hp. apply wp_bind, wp_gets. cbn [bind_post]. apply wp_bind, wp_lift.
  destruct (_ !! scaling_policy_key _ _ _ _) as [p|] eqn:Ep; cbn [ok_or bind_post]; [|by apply aas_refusal].
  apply aas_change; try done; [by econstructor|].
  unfold on_policies. simpl. rewrite insert_delete_id by done. by destruct (tables (w_state w)).
Qed.
Lemma describe_activities_meets : meets "DescribeScalingActivities" describe_scaling_activities.
Proof.
  intros body w. unfold describe_scaling_activities.
  apply aas_check; [auto with aas_refuses|]. intros req Hreq. apply aas_check; [auto with aas_refuses|]. intros [] Hc.
  apply wp_ret. apply (aas_answer _ body _ w); [done|by eapply step_describe_activities].
Qed.
Lemma put_action_meets : meets "PutScheduledAction" (put_scheduled_action c).
Proof.
  intros body w. unfold put_scheduled_action.
  apply aas_check; [auto with aas_refuses|]. intros req Hreq. apply aas_check; [auto with aas_refuses|]. intros [] Hc.
  apply aas_lock. intros Hp. apply wp_bind, wp_gets. cbn [bind_post].
  apply aas_now; [done|]. intros now w2 Hu Ht. apply aas_change; try done; [by econstructor|].
  unfold on_actions. simpl. rewrite restore_insert. by destruct (tables (w_state w)).
Qed.
Lemma describe_actions_meets : meets "DescribeScheduledActions" describe_scheduled_actions.
Proof.
  intros body w. unfold describe_scheduled_actions.
  apply aas_check; [auto with aas_refuses|]. intros req Hreq. apply aas_check; [auto with aas_refuses|]. intros [] Hc.
  apply aas_lock. intros Hp. apply wp_bind, wp_gets. simpl. apply wp_ret. apply aas_answer; [done|by constructor].
Qed.
Lemma delete_action_meets : meets "DeleteScheduledAction" (delete_scheduled_action c).
Proof.
  intros body w. unfold delete_scheduled_action.
  apply aas_check; [auto with aas_refuses|]. intros req Hreq. apply aas_check; [auto with aas_refuses|]. intros [] Hc.
  apply aas_lock. intros Hp. apply wp_bind, wp_gets. cbn [bind_post]. apply wp_bind, wp_lift.
  destruct (_ !! scheduled_action_key _ _ _ _) as [p|] eqn:Ep; cbn [ok_or bind_post]; [|by apply aas_refusal].
  apply aas_change; try done; [by econstructor|].
  unfold on_actions. simpl. rewrite insert_delete_id by done. by destruct (tables (w_state w)).
Qed.

Lemma check_named s message : check (is_empty s) message = Ok tt -> s <> "".
Proof. unfold check. by destruct s. Qed.
Lemma on_tags_undo t arn f : on_tags (restore_entry arn (tags t !! arn)) (on_tags (partial_alter f arn) t) = t.
Proof.
  unfold on_tags. simpl. rewrite restore_entry_undo; [by destruct t|]. intros k Hk. by rewrite lookup_partial_alter_ne.
Qed.
Lemma tag_meets : meets "TagResource" (tag_resource c).
Proof.
  intros body w. unfold tag_resource.
  apply aas_check; [auto with aas_refuses|]. intros req Hreq. apply aas_check; [auto with aas_refuses|].
  intros [] Hc%check_named. apply aas_lock. intros Hp. apply wp_bind, wp_gets. cbn [bind_post]. rewrite extend_union.
  set (arn := tr_ResourceARN req). set (t := tables (w_state w)).
  assert (on_tags (<[arn := tr_Tags req ∪ default ∅ (tags t !! arn)]>) t
          = on_tags (partial_alter (fun b => Some (tr_Tags req ∪ default ∅ b)) arn) t) as Heq.
  { unfold on_tags. f_equal. apply map_eq. intros k. destruct (decide (k = arn)) as [->|Hne].
    - by rewrite lookup_insert_eq, lookup_partial_alter_eq.
    - by rewrite lookup_insert_ne, lookup_partial_alter_ne. }
  apply aas_change; try done; fold t arn; rewrite Heq; [by constructor|apply on_tags_undo].
Qed.
Lemma untagged_alter arn keys m :
  untagged arn keys m
  = partial_alter (fun b => b ← b; let rest := minus_tags keys b in if decide (rest = ∅) then None else Some rest) arn m.
Proof.
  unfold untagged. apply map_eq. intros k. destruct (m !! arn) as [b|] eqn:E.
  - rewrite foldl_delete_keys. destruct (decide (k = arn)) as [->|Hne].
    + rewrite lookup_partial_alter_eq, E. simpl. case_bool_decide as Hb.
      * by rewrite lookup_delete_eq, decide_True.
      * by rewrite lookup_insert_eq, decide_False.
    + rewrite lookup_partial_alter_ne by done.
      case_bool_decide; [by rewrite lookup_delete_ne|by rewrite lookup_insert_ne].
  - destruct (decide (k = arn)) as [->|Hne]; [by rewrite lookup_partial_alter_eq, E|by rewrite lookup_partial_alter_ne].
Qed.
Lemma untag_meets : meets "UntagResource" (untag_resource c).
Proof.
  intros body w. unfold untag_resource.
  apply aas_check; [auto with aas_refuses|]. intros req Hreq. apply aas_check; [auto with aas_refuses|].
  intros [] Hc%check_named. apply aas_lock. intros Hp. apply wp_bind, wp_gets. cbn [bind_post].
  set (arn := ur_ResourceARN req). set (t := tables (w_state w)).
  assert (on_tags (untagged arn (ur_TagKeys req)) t
          = on_tags (partial_alter (fun b => b ← b; let rest := minus_tags (ur_TagKeys req) b in
                                     if decide (rest = ∅) then None else Some rest) arn) t) as Heq.
  { unfold on_tags. by rewrite untagged_alter. }
  apply aas_change; try done; fold t arn; rewrite Heq; [by constructor|apply on_tags_undo].
Qed.
Lemma list_tags_meets : meets "ListTagsForResource" list_tags_for_resource.
Proof.
  intros body w. unfold list_tags_for_resource.
  apply aas_check; [auto with aas_refuses|]. intros req Hreq. apply aas_check; [auto with aas_refuses|].
  intros [] Hc%check_named.
  apply aas_lock. intros Hp. apply wp_bind, wp_gets. simpl. apply wp_ret. apply aas_answer; [done|by constructor].
Qed.

Lemma operation_meets operation handler :
  operation_of c operation = Some handler -> forall body w, wp (handler body) (call_post operation body w) w.
Proof.
  unfold operation_of. intros Hop body w.
  repeat match type of Hop with
    | (if str_eqb operation ?s then Some _ else _) = _ =>
        let E := fresh "E" in destruct (str_eqb operation s) eqn:E;
        [apply str_eqb_true in E as ->; injection Hop as <-|clear E]
    end; [apply register_meets|apply describe_targets_meets|apply deregister_meets|apply put_policy_meets
         |apply describe_policies_meets|apply delete_policy_meets|apply describe_activities_meets
         |apply put_action_meets|apply describe_actions_meets|apply delete_action_meets|apply tag_meets
         |apply untag_meets|apply list_tags_meets|done].
Qed.

(** The outcomes of a call at its caller. *)
Lemma aas_dispatch_post operation body w :
  (exists out, dispatch c operation body w = (Ok out, (dispatch c operation body w).2)
     /\ (call_post operation body w (Ok out) (dispatch c operation body w).2
         \/ call_post operation body w (Err out) (dispatch c operation body w).2))
  \/ exists why, dispatch c operation body w = (Panic why, (dispatch c operation body w).2)
     /\ call_post operation body w (Panic why) (dispatch c operation body w).2.
Proof.
  unfold dispatch. destruct (operation_of c operation) as [handler|] eqn:Eo.
  - pose proof (operation_meets operation handler Eo body w) as Hp. unfold wp in Hp.
    destruct (handler body w) as [[out|out|why] w'] eqn:E; simpl in *; eauto 6.
  - left. eexists. split; [done|]. right. done.
Qed.

(** ** Histories *)

(** Calls, and restarts on tables that serde_json reads back. *)
Definition reads_back t : Prop := state_from_slice (json_to_vec (persisted_value t)) = inl t.
Inductive aas_step w : AasWorld -> Prop :=
| aas_call operation body : aas_step w (dispatch c operation body w).2
| aas_restart : reads_back (tables (w_state w)) -> fs_read (w_tick w) = None -> aas_step w (new c w).2.
(** A first start on an empty disk. *)
Definition aas_boot : AasWorld := mkWorld (mkServer no_tables 0 None) false None None 0.
Definition aas_reachable w : Prop := rtc aas_step aas_boot w.

Lemma map_Forall_without {T} (P : string -> T -> Prop) prefix m : map_Forall P m -> map_Forall P (without prefix m).
Proof. intros Hm k v [Hv _]%map_lookup_filter_Some. by apply Hm. Qed.
(** Every entry is stored under its own names, which are not empty. *)
Definition own_target (key : string) (t : ScalableTarget) : Prop :=
  key = scalable_target_key (st_ServiceNamespace t) (st_ResourceId t) (st_ScalableDimension t)
  /\ st_ServiceNamespace t = SUPPORTED_NAMESPACE /\ st_ResourceId t <> "" /\ st_ScalableDimension t <> "".
Definition own_policy (key : string) (p : ScalingPolicy) : Prop :=
  key = scaling_policy_key (sp_ServiceNamespace p) (sp_ResourceId p) (sp_ScalableDimension p) (sp_PolicyName p)
  /\ sp_ServiceNamespace p = SUPPORTED_NAMESPACE /\ sp_ResourceId p <> "" /\ sp_ScalableDimension p <> ""
  /\ sp_PolicyName p <> "" /\ sp_PolicyType p ∈ ["StepScaling"; "TargetTrackingScaling"].
Definition own_action (key : string) (a : ScheduledAction) : Prop :=
  key = scheduled_action_key (sa_ServiceNamespace a) (sa_ResourceId a) (sa_ScalableDimension a) (sa_ScheduledActionName a)
  /\ sa_ServiceNamespace a = SUPPORTED_NAMESPACE /\ sa_ResourceId a <> "" /\ sa_ScalableDimension a <> ""
  /\ sa_ScheduledActionName a <> "".
Definition wf_tables t : Prop :=
  map_Forall own_target (scalable_targets t) /\ map_Forall own_policy (scaling_policies t)
  /\ map_Forall own_action (scheduled_actions t).

Lemma wf_no_tables : wf_tables no_tables.
Proof. split; [|split]; apply map_Forall_empty. Qed.
Definition on_disk w : Prop :=
  storage_off = true \/ w_file w = Some (json_to_vec (persisted_value (tables (w_state w))))
  \/ w_file w = None /\ tables (w_state w) = no_tables.
Definition aas_inv w : Prop :=
  wf_tables (tables (w_state w)) /\ load_err (w_state w) = None /\ w_poisoned w = false /\ on_disk w
  /\ (storage_off = true -> w_file w = None).

Lemma check_ok cond message : check cond message = Ok tt -> cond = false.
Proof. by destruct cond. Qed.
Lemma namespace_ok ns : validate_namespace ns = Ok tt -> ns = SUPPORTED_NAMESPACE.
Proof.
  unfold validate_namespace. destruct (is_empty ns); [done|].
  destruct (str_eqb ns SUPPORTED_NAMESPACE) eqn:E; [by apply str_eqb_true in E as ->|done].
Qed.
Lemma checks_ok {A} (r : result Outcome unit) (f : unit -> result Outcome A) a : (r ≫= f) = Ok a -> r = Ok tt /\ f tt = Ok a.
Proof. by destruct r as [[]| |]. Qed.
Lemma named_not_empty s : is_empty s = false -> s <> "".
Proof. by destruct s. Qed.
Ltac checked H :=
  repeat match type of H with
  | (_ ≫= _) = Ok _ =>
      let H1 := fresh "Hck" in apply checks_ok in H as [H1 H];
      first [apply namespace_ok in H1 | apply check_ok in H1]
  end; apply check_ok in H;
  repeat match goal with
  | E : _ || _ = false |- _ => apply orb_false_iff in E as [? ?]
  | E : is_empty _ = false |- _ => apply named_not_empty in E
  end.

Lemma registry_step_wf t operation body out t' :
  registry_step t operation body out t' -> wf_tables t -> wf_tables t'.
Proof.
  intros Hs (Ht & Hp & Ha). destruct Hs as [b req now Hd Hc key|b req|b req Hd Hc|b req arn created Hd Hc key Harn
    |b req|b req Hd Hc key|b req|b req now Hd Hc key|b req|b req Hd Hc key|b req|b req|b req]; try done.
  - unfold check_register in Hc. checked Hc. split; [|done]. apply map_Forall_insert_2; [|done].
    unfold registered. by destruct (scalable_targets t !! key).
  - split; [by apply map_Forall_delete|]. split; by apply map_Forall_without.
  - unfold check_put_policy in Hc. checked Hc. split; [done|]. split; [|done]. apply map_Forall_insert_2; [|done].
    split; [done|]. simpl. repeat (split; [done|]). revert Hc. set (ty := policy_type_of _). intros Hty.
    apply andb_false_iff in Hty as [Hty|Hty]; apply negb_false_iff, str_eqb_true in Hty; rewrite Hty; set_solver.
  - split; [done|]. split; [by apply map_Forall_delete|done].
  - unfold check_put_action in Hc. checked Hc. split; [done|]. split; [done|]. by apply map_Forall_insert_2.
  - split; [done|]. split; [done|]. by apply map_Forall_delete.
Qed.

Lemma aas_dispatch_inv operation body w : aas_inv w -> aas_inv (dispatch c operation body w).2.
Proof.
  intros (Hwf & Herr & Hp & Hd & Hoff). set (w' := (dispatch c operation body w).2).
  assert (forall w0, unchanged w w0 -> aas_inv w0) as Hsame.
  { intros w0 (Ht & Hl & Hf & Hp0). unfold aas_inv, on_disk. by rewrite Ht, Hl, Hf, Hp0. }
  destruct (aas_dispatch_post operation body w) as [(out & _ & [Hc|Hc])|(why & _ & Hc)]; fold w' in Hc; simpl in Hc.
  - destruct Hc as (Hp' & Hl & _ & Hs & [Hsv|Hu] & Ho); [|by apply Hsame].
    split; [by eapply registry_step_wf|]. split; [congruence|]. split; [congruence|]. split.
    + destruct Hsv as [|Hsv]; [by left|right; by left].
    + intros Hst. rewrite Ho by done. auto.
  - apply Hsame, Hc.
  - destruct Hc as [_ Hc]. congruence.
Qed.
Lemma aas_new_restores w :
  on_disk w -> reads_back (tables (w_state w)) -> fs_read (w_tick w) = None -> storage_off = false ->
  exists tick, new c w = (Ok tt, mkWorld (mkServer (tables (w_state w)) 0 None) false (w_file w) (w_tmp w) tick).
Proof.
  intros Hd Hr Hrd Hst. unfold storage_off in *. unfold new, mbind, m_bind, modify. rewrite Hst.
  unfold catch, load, mbind, m_bind, next_tick. simpl. rewrite Hrd. unfold gets. simpl.
  destruct Hd as [Ho|[Hf|[Hf He]]]; [unfold storage_off in Ho; congruence| |].
  - rewrite Hf. unfold lift. rewrite Hr. simpl. eauto.
  - rewrite Hf, He. simpl. eauto.
Qed.
Lemma aas_step_inv w w' : aas_step w w' -> aas_inv w -> aas_inv w'.
Proof.
  intros [operation body|Hr Hrd] Hi; [by apply aas_dispatch_inv|]. destruct Hi as (Hwf & Herr & Hp & Hd & Hoff).
  destruct storage_off eqn:Hst.
  - unfold new, mbind, m_bind, modify. unfold storage_off in Hst. rewrite Hst.
    split; [exact wf_no_tables|]. repeat (split; [done|]). split; [by left|]. intros _. simpl. auto.
  - destruct (aas_new_restores w) as [tick ->]; [done..|].
    split; [done|]. split; [done|]. split; [done|]. split; [exact Hd|]. intros Ho. congruence.
Qed.
Lemma aas_reachable_inv w : aas_reachable w -> aas_inv w.
Proof.
  unfold aas_reachable. intros Hr. assert (aas_inv aas_boot) as Hb.
  { split; [exact wf_no_tables|]. repeat (split; [done|]). split; [right; by right|done]. }
  induction Hr as [|w1 w2 w3 Hs _ IH]; [done|]. apply IH. by eapply aas_step_inv.
Qed.

(** ** What deregistering takes along *)

(** No separator in the names that make up the prefix of a key. *)
Definition plain (resource_id dimension : string) : Prop := free_of "|" resource_id /\ free_of "|" dimension.
#[export] Instance plain_dec resource_id dimension : Decision (plain resource_id dimension).
Proof. unfold plain, free_of. apply _. Defined.
Definition plain_tables t : Prop :=
  map_Forall (fun _ p => plain (sp_ResourceId p) (sp_ScalableDimension p)) (scaling_policies t)
  /\ map_Forall (fun _ a => plain (sa_ResourceId a) (sa_ScalableDimension a)) (scheduled_actions t).
#[export] Instance plain_tables_dec t : Decision (plain_tables t).
Proof. unfold plain_tables. apply _. Defined.

Lemma key_prefix rid dim r d name :
  plain rid dim -> plain r d ->
  starts_with (scalable_target_key SUPPORTED_NAMESPACE rid dim +:+ "|")
    (scaling_policy_key SUPPORTED_NAMESPACE r d name) = true <-> r = rid /\ d = dim.
Proof.
  intros [Hr Hd] [Hr' Hd']. change "|" with (char_str "|"). rewrite starts_with_true.
  unfold scalable_target_key, scaling_policy_key. cbn [str_join]. split.
  - intros [rest E]. rewrite !str_app_assoc in E. apply str_app_inj_l, str_app_inj_l in E.
    apply cut_first in E as [-> E]; [|done..]. by apply cut_first in E as [-> _].
  - intros [-> ->]. exists name. by rewrite !str_app_assoc.
Qed.
End Registry.

Section Facts.
Context `{Host, Digests, SerdeJson, Readers} (c : Config).
Implicit Types (w : AasWorld) (t : Tables).

(** An accepted call is the registry's step. *)
Lemma accepted_step w operation body out w' :
  dispatch c operation body w = (Ok out, w') -> o_status out = 200 ->
  registry_step c (tables (w_state w)) operation body out (tables (w_state w')).
Proof.
  intros Hd Hst. pose proof (aas_dispatch_post c operation body w) as Hp. rewrite Hd in Hp. simpl in Hp.
  destruct Hp as [(out' & [= <-] & [Hp|[Hp _]])|(why & [=] & _)]; [|done]. tauto.
Qed.
Lemma without_lookup {T} prefix (m : gmap string T) k v :
  without prefix m !! k = Some v <-> m !! k = Some v /\ starts_with prefix k <> true.
Proof. unfold without. rewrite map_lookup_filter_Some, not_true_iff_false. done. Qed.

(** C40: Application Auto Scaling refines its registry.  In every reachable state every
    call answers - none panics - and either answers 200 and takes the registry's step,
    with the state file holding the new tables (or, for a read, everything as it was), or
    answers an error and changes no table and no file. *)
Theorem aas_refines_registry w operation body :
  aas_reachable c w ->
  let '(o, w') := dispatch c operation body w in
  exists out, o = Ok out
  /\ ((o_status out = 200
       /\ registry_step c (tables (w_state w)) operation body out (tables (w_state w'))
       /\ (saved c w' \/ unchanged w w'))
      \/ (o_status out <> 200 /\ unchanged w w')).
Proof.
  intros Hr. pose proof (aas_reachable_inv c w Hr) as (_ & _ & Hp & _).
  destruct (aas_dispatch_post c operation body w) as [(out & -> & [Hc|Hc])|(why & _ & _ & Hc)]; simpl in *.
  - exists out. split; [done|]. left. tauto.
  - exists out. by split; [|right].
  - congruence.
Qed.

Lemma deregister_inv t body out t' :
  registry_step c t "DeregisterScalableTarget" body out t' ->
  exists req, decode deregister_from_slice body = Ok req /\ check_deregister req = Ok tt
    /\ is_Some (scalable_targets t !! target_key req) /\ t' = deregistered (target_key req) t.
Proof. intros Hs. inversion Hs; subst. by eexists. Qed.

(** deregistering a target takes along exactly what belongs to it.  When the
    resource ids and dimensions stored have no separator in them, an accepted
    DeregisterScalableTarget removes the target, its scaling policies and its scheduled
    actions, and keeps every other target, policy, action and tag. *)
Theorem aas_deregister_exact w body out w' req :
  aas_reachable c w -> plain_tables (tables (w_state w)) ->
  dispatch c "DeregisterScalableTarget" body w = (Ok out, w') -> o_status out = 200 ->
  decode deregister_from_slice body = Ok req -> plain (de_ResourceId req) (de_ScalableDimension req) ->
  let t := tables (w_state w) in let t' := tables (w_state w') in
  is_Some (scalable_targets t !! target_key req)
  /\ scalable_targets t' = delete (target_key req) (scalable_targets t)
  /\ (forall k p, scaling_policies t' !! k = Some p <->
        scaling_policies t !! k = Some p
        /\ ~ (sp_ResourceId p = de_ResourceId req /\ sp_ScalableDimension p = de_ScalableDimension req))
  /\ (forall k a, scheduled_actions t' !! k = Some a <->
        scheduled_actions t !! k = Some a
        /\ ~ (sa_ResourceId a = de_ResourceId req /\ sa_ScalableDimension a = de_ScalableDimension req))
  /\ tags t' = tags t.
Proof.
  intros Hr [Hpp Hpa] Hd Hst Hreq Hplain t t'. pose proof (aas_reachable_inv c w Hr) as ((_ & Hwp & Hwa) & _).
  pose proof (accepted_step w _ _ _ _ Hd Hst) as Hs. fold t t' in Hs. clearbody t'.
  apply deregister_inv in Hs as (r & Hd' & Hc & Hin & ->). rewrite Hreq in Hd'. injection Hd' as <-.
  unfold check_deregister in Hc. apply checks_ok in Hc as [Hns%namespace_ok _].
  split; [done|]. split; [done|].
  split; [|split; [|done]]; intros k x; cbn; rewrite without_lookup; unfold target_key; rewrite Hns.
  - split; intros [Hk Hn]; (split; [done|]); contradict Hn; destruct (Hwp _ _ Hk) as (Hkey & Hpns & _);
      rewrite Hpns in Hkey; rewrite Hkey in *; eapply key_prefix; try done; by eapply (Hpp _ _ Hk).
  - split; intros [Hk Hn]; (split; [done|]); contradict Hn; destruct (Hwa _ _ Hk) as (Hkey & Hpns & _);
      rewrite Hpns in Hkey; rewrite Hkey in *; eapply key_prefix; try done; by eapply (Hpa _ _ Hk).
Qed.

(** what the registry holds is in order and survives: in every reachable state each
    entry is stored under its own namespace and names, none of them empty, and a restart
    on the state file comes up serving the same tables. *)
Theorem aas_store_sound w :
  aas_reachable c w ->
  wf_tables (tables (w_state w)) /\ load_err (w_state w) = None
  /\ (cfg_storage_path c <> "" -> reads_back (tables (w_state w)) -> fs_read (w_tick w) = None ->
      exists w', new c w = (Ok tt, w') /\ tables (w_state w') = tables (w_state w)
        /\ load_err (w_state w') = None /\ w_poisoned w' = false).
Proof.
  intros Hr. pose proof (aas_reachable_inv c w Hr) as (Hwf & Herr & Hp & Hd & Hoff).
  split; [done|]. split; [done|]. intros Hst Hrb Hrd.
  destruct (aas_new_restores c w) as [tick ->]; try done.
  - unfold storage_off. by destruct (cfg_storage_path c).
  - by eexists.
Qed.
End Facts.
