(* ===== verification/AasFront.v ===== *)
(** Application Auto Scaling behind its front end (services/applicationautoscaling/src,
    http.rs and sigv4.rs around server.rs). *)

From S2P Require Import Prelude RustStr RustNum RustText Json StateFile AwsSigV4 AwsHttp AasServer AasTheorems.
Local Open Scope string_scope.
Local Open Scope Z_scope.

Definition aas_signer : Signer := mkSigner "application-autoscaling" false.
Definition aas_front : Front :=
  mkFront "AnyScaleFrontendService." "devcloud-application-autoscaling"
    "failed to load application-autoscaling state" error_outcome aas_signer.
Definition aas_creds (c : Config) : Credentials :=
  mkCreds (cfg_auth_mode c) (cfg_access_key_id c) (cfg_secret_access_key c) (cfg_region c).

Section Front.
Context `{Host, Digests, SerdeJson, Readers} (c : Config).
Implicit Types w : AasWorld.

Definition aas_conn : list read_event -> AasWorld -> option string * AasWorld :=
  handle_conn aas_front (aas_creds c) load_err (dispatch c).

(** Application Auto Scaling from the wire: whatever bytes a connection delivers,
    either every table and the state file stay as they were, or a complete request
    arrived - in strict mode one that the configured secret signed - and its answer is
    the 200 of a call that took the registry's step and saved it. *)
Theorem aas_conn_safe input w :
  let '(response, w') := aas_conn input w in
  (tables (w_state w') = tables (w_state w) /\ load_err (w_state w') = load_err (w_state w) /\ w_file w' = w_file w)
  \/ exists req operation out,
       read_request input = Ok (Some req) /\ response = Some (response_bytes aas_front out) /\ o_status out = 200
       /\ (strict (cfg_auth_mode c) -> authenticated aas_front (aas_creds c) req)
       /\ registry_step c (tables (w_state w)) operation (rq_body req) out (tables (w_state w'))
       /\ saved c w'.
Proof.
  unfold aas_conn. pose proof (conn_calls aas_front (aas_creds c) load_err (dispatch c) input w) as Hc.
  destruct (handle_conn _ _ _ _ input w) as [response w']. cbn [snd] in Hc.
  destruct Hc as [->|(req & operation & Hr & Hload & Hauth & [= -> ->])]; [by left|].
  destruct (aas_dispatch_post c operation (rq_body req) w) as [(out & Ho & [Hp|Hp])|(why & Ho & Hp)]; simpl in Hp.
  - destruct Hp as (_ & _ & Hst & Hs & [Hsv|(? & ? & ? & _)] & _); [|by left]. right.
    exists req, operation, out. rewrite Ho. done.
  - left. destruct Hp as (_ & ? & ? & ? & _). done.
  - left. destruct Hp as [-> _]. done.
Qed.

(** The signature says nothing of the body: without [x-amz-content-sha256] the request
    signed is the same whatever the body is. *)
Theorem aas_body_unsigned req body' auth creds :
  sg_content_sha256 req = "" ->
  verify_full aas_signer
    (mkSigned (sg_method req) (sg_path req) (sg_query req) (sg_host req) (sg_authorization req) (sg_amz_date req)
       (sg_content_sha256 req) (sg_header req) body') auth creds
  = verify_full aas_signer req auth creds.
Proof. intros Hs. unfold verify_full, payload_hash_of. cbn. rewrite Hs. done. Qed.
End Front.
