(* ===== verification/AasDemo.v ===== *)
(** Application Auto Scaling on a concrete environment: a short history, the properties
    applied to it, and a run in which deregistering one target removes the policy of
    another. *)

From S2P Require Import Prelude RustStr RustNum RustText Json StateFile AwsSigV4 AwsHttp AwsDemo AasServer AasTheorems AasFront.
Local Open Scope string_scope.
Local Open Scope Z_scope.

Definition table_dimension : string := "dynamodb:table:ReadCapacityUnits".
Definition demo_register (rid dim : string) : RegisterScalableTargetRequest :=
  mkRegister "dynamodb" rid dim (Some 1) (Some 10) "" None ∅.
Definition demo_put_policy (rid dim name : string) : PutScalingPolicyRequest :=
  mkPutPolicy name "dynamodb" rid dim "" None None.
#[export] Instance demo_readers : Readers :=
  {| register_from_slice := fun b => if str_eqb b "r1" then Some (demo_register "table/a" table_dimension)
       else if str_eqb b "r2" then Some (demo_register "table/a" "x") else if str_eqb b "r3" then Some (demo_register "table/a" "x|y") else None;
     describe_targets_from_slice := fun _ => None;
     deregister_from_slice := fun b => if str_eqb b "d1" then Some (mkDeregister "dynamodb" "table/a" table_dimension)
       else if str_eqb b "d2" then Some (mkDeregister "dynamodb" "table/a" "x") else None;
     put_policy_from_slice := fun b => if str_eqb b "p1" then Some (demo_put_policy "table/a" table_dimension "up")
       else if str_eqb b "p2" then Some (demo_put_policy "table/b" table_dimension "up")
       else if str_eqb b "p3" then Some (demo_put_policy "table/a" "x|y" "up") else None;
     describe_policies_from_slice := fun _ => None;
     delete_policy_from_slice := fun _ => None;
     describe_activities_from_slice := fun _ => None;
     put_action_from_slice := fun _ => None;
     describe_actions_from_slice := fun _ => None;
     delete_action_from_slice := fun _ => None;
     tag_from_slice := fun b => if str_eqb b "t1" then Some (mkTag "arn:x" {["k" := "v"]}) else None;
     untag_from_slice := fun b => if str_eqb b "u1" then Some (mkUntag "arn:x" ["k"]) else None;
     list_tags_from_slice := fun _ => None;
     state_from_slice := fun _ => inr "no reader" |}.

Definition demo_config : Config := mkConfig "127.0.0.1:4590" "" "" "relaxed" "" "" "/data/aas".
Definition call (w : AasWorld) (c : string * string) : AasWorld := (dispatch demo_config c.1 c.2 w).2.
Definition demo_calls : list (string * string) :=
  [("RegisterScalableTarget", "r1"); ("PutScalingPolicy", "p1"); ("PutScalingPolicy", "p2"); ("TagResource", "t1")].
Definition demo_world : AasWorld := foldl call aas_boot demo_calls.

Lemma calls_reachable calls : aas_reachable demo_config (foldl call aas_boot calls).
Proof.
  assert (forall w, aas_reachable demo_config w -> aas_reachable demo_config (foldl call w calls)) as Hg.
  { induction calls as [|x calls IH]; intros w Hw; [done|]. cbn. apply IH. eapply rtc_r; [exact Hw|]. constructor. }
  apply Hg. apply rtc_refl.
Qed.

Lemma aas_refines_registry_witness :
  let '(o, w') := dispatch demo_config "UntagResource" "u1" demo_world in
  match o with Ok out => o_status out = 200 | _ => False end /\ tags (tables (w_state w')) = ∅.
Proof.
  pose proof (aas_refines_registry demo_config demo_world "UntagResource" "u1" (calls_reachable demo_calls)) as Hr.
  assert (fst (dispatch demo_config "UntagResource" "u1" demo_world) = Ok empty_answer) as Ho by (vm_compute; reflexivity).
  assert (tags (tables (w_state (snd (dispatch demo_config "UntagResource" "u1" demo_world)))) = ∅) as Ht by (vm_compute; reflexivity).
  destruct (dispatch demo_config "UntagResource" "u1" demo_world) as [o w']. cbn [fst snd] in Ho, Ht. rewrite Ho. done.
Defined.

(** The policy of the target goes, the other table's stays. *)
Lemma aas_deregister_exact_witness :
  exists k p, scaling_policies (tables (w_state demo_world)) !! k = Some p /\ sp_ResourceId p = "table/b"
    /\ scaling_policies (tables (w_state (call demo_world ("DeregisterScalableTarget", "d1")))) !! k = Some p.
Proof.
  assert (fst (dispatch demo_config "DeregisterScalableTarget" "d1" demo_world) = Ok empty_answer) as Ho by (vm_compute; reflexivity).
  set (k := "dynamodb|table/b|dynamodb:table:ReadCapacityUnits|up").
  assert (is_Some (scaling_policies (tables (w_state demo_world)) !! k)) as [p Hp] by (vm_compute; by eexists).
  assert (sp_ResourceId <$> (scaling_policies (tables (w_state demo_world)) !! k) = Some "table/b") as Hrid by (vm_compute; reflexivity).
  rewrite Hp in Hrid. injection Hrid as Hrid. exists k, p. split; [exact Hp|]. split; [exact Hrid|].
  assert (plain_tables (tables (w_state demo_world))) as Hpl.
  { split; apply (bool_decide_unpack _); vm_compute; reflexivity. }
  unfold call. cbn [fst snd]. destruct (dispatch demo_config "DeregisterScalableTarget" "d1" demo_world) as [o w'] eqn:E.
  cbn [fst] in Ho. subst o. cbn [snd].
  apply (aas_deregister_exact demo_config demo_world "d1" empty_answer w' (mkDeregister "dynamodb" "table/a" table_dimension)
    (calls_reachable demo_calls) Hpl E eq_refl eq_refl (conj eq_refl eq_refl)).
  split; [exact Hp|]. cbn. rewrite Hrid. by intros [[=] _].
Defined.

(** A separator in a name: deregistering dimension "x" of a table also removes the policy
    of its dimension "x|y", whose target stays. *)
Example aas_deregister_takes_other :
  let w := foldl call aas_boot [("RegisterScalableTarget", "r2"); ("RegisterScalableTarget", "r3"); ("PutScalingPolicy", "p3")] in
  let w' := call w ("DeregisterScalableTarget", "d2") in
  sp_ScalableDimension <$> (btree_iter (scaling_policies (tables (w_state w)))).*2 = ["x|y"]
  /\ scaling_policies (tables (w_state w')) = ∅
  /\ st_ScalableDimension <$> (btree_iter (scalable_targets (tables (w_state w')))).*2 = ["x|y"].
Proof. vm_compute. done. Qed.
