(* ===== verification/Disk.v ===== *)
(** The file system as std::fs shows it, and the facts about its trees. *)

From S2P Require Import Prelude RustStr RustText.
Local Open Scope string_scope.
Local Open Scope Z_scope.

(** A file system as std::fs shows it: a tree of directories and files addressed by
    their components, on a disk whose every system call may fail and leave part of its
    work behind.  There are no symbolic links below the root.  A hard link is a second
    file with the same bytes: the stores replace linked files by renaming and never
    write into one. *)

Abbreviation path := (list string).
Inductive node := File (data : string) | Dir.
Abbreviation tree := (gmap (list string) node).

(** [io::ErrorKind], and the rest of the errors with their message. *)
Inductive io_error :=
| NotFound (what : string)
| AlreadyExists
| NotADirectory
| IsADirectory
| DirectoryNotEmpty
| Fault (why : string)
| Other (why : string).

(** The k-th system call: whether it fails, and what a failing one leaves behind; the
    order in which a directory is read. *)
Class Disk := {
  disk_fault : nat -> option string;
  disk_torn : nat -> string -> option string;
  disk_made : nat -> nat;
  disk_left : nat -> path -> bool;
  disk_order : nat -> list string -> list string }.
Class DiskLaws `{Disk} := { disk_order_perm : forall t l, disk_order t l ≡ₚ l }.
(** A disk on which nothing fails. *)
Definition calm `{Disk} : Prop := forall t, disk_fault t = None.

(** ** Paths *)

Definition path_parent (p : path) : path := removelast p.
(** [Path::components] of a relative path: empty and [.] components go. *)
Definition components (s : string) : path :=
  List.filter (fun c => negb (is_empty c) && negb (str_eqb c ".")) (split_char "/" s).
(** [p.join(s)]: an absolute path replaces the whole; here it leaves the root. *)
Definition join (p : path) (s : string) : path :=
  if starts_with "/" s then "/" :: components s else (p ++ components s)%list.
(** A name that is one component of its own. *)
Definition plain_name (s : string) : bool :=
  negb (is_empty s) && negb (str_eqb s ".") && negb (str_eqb s "..") && str_all (fun c => negb (Ascii.eqb "/" c)) s.

Fixpoint below (p q : path) : option path :=
  match p, q with
  | [], _ => Some q
  | c :: p, d :: q => if str_eqb c d then below p q else None
  | _ :: _, [] => None
  end.
Definition nil_path (p : path) : bool := match p with [] => true | _ => false end.
Definition prefixes (p : path) : list path := map (fun n => take n p) (seq 0 (S (length p))).

(** ** The tree *)

(** Why nothing is found at [p]. *)
Definition absent (t : tree) (p : path) : io_error :=
  if existsb (fun q => match t !! q with Some (File _) => true | _ => false end) (prefixes p)
  then NotADirectory else NotFound "".
Definition parent_error (t : tree) (p : path) : option io_error :=
  match t !! path_parent p with
  | Some Dir => None
  | Some (File _) => Some NotADirectory
  | None => Some (absent t p)
  end.
(** The names in a directory. *)
Definition entry_names (t : tree) (p : path) : list string :=
  omap (fun e => match below p e.1 with Some [n] => Some n | _ => None end) (map_to_list t).

Definition put_file (p : path) (data : string) (t : tree) : tree + io_error :=
  match t !! p, parent_error t p with
  | Some Dir, _ => inr IsADirectory
  | _, Some e => inr e
  | _, None => inl (<[p := File data]> t)
  end.
Definition made_dirs (ps : list path) (t : tree) : tree + io_error :=
  foldl (fun r p => match r with
                    | inr e => inr e
                    | inl t => match t !! p with
                               | None => inl (<[p := Dir]> t)
                               | Some Dir => inl t
                               | Some (File _) => inr NotADirectory
                               end
                    end) (inl t) ps.
Definition cleared (p : path) (keep : path -> bool) (t : tree) : tree :=
  filter (fun e => match below p e.1 with Some rest => keep rest | None => true end = true) t.
(** What is left of a directory: an entry stays only with the directories it is in. *)
Definition survives (left : path -> bool) (rest : path) : bool := forallb left (prefixes rest).

(** ** System calls *)

Record DiskState := mkDisk { files : tree; calls : nat }.
Section Calls.
Context `{Disk}.
Abbreviation IO := (ME io_error DiskState).

Definition syscall {A} (run : tree -> (A * tree) + io_error) (failed : nat -> tree -> tree) : IO A := fun d =>
  match disk_fault (calls d) with
  | Some why => (Err (Fault why), mkDisk (failed (calls d) (files d)) (calls d + 1))
  | None => match run (files d) with
            | inl (a, t) => (Ok a, mkDisk t (calls d + 1))
            | inr e => (Err e, mkDisk (files d) (calls d + 1))
            end
  end.
Definition query {A} (f : tree -> A + io_error) : IO A :=
  syscall (fun t => match f t with inl a => inl (a, t) | inr e => inr e end) (fun _ t => t).
Definition change (f : tree -> tree + io_error) (failed : nat -> tree -> tree) : IO unit :=
  syscall (fun t => match f t with inl t => inl (tt, t) | inr e => inr e end) failed.

(** [fs::read] *)
Definition fs_read (p : path) : IO string :=
  query (fun t => match t !! p with
                  | Some (File data) => inl data
                  | Some Dir => inr IsADirectory
                  | None => inr (absent t p)
                  end).
(** [fs::metadata] *)
Definition fs_metadata (p : path) : IO node :=
  query (fun t => match t !! p with Some n => inl n | None => inr (absent t p) end).
(** [fs::read_dir]; each entry's [file_type()] is a call of its own. *)
Definition fs_read_dir (p : path) : IO (list string) := fun d =>
  query (fun t => match t !! p with
                  | Some Dir => inl (disk_order (calls d) (entry_names t p))
                  | Some (File _) => inr NotADirectory
                  | None => inr (absent t p)
                  end) d.
(** [fs::write]: the file is created or truncated first. *)
Definition fs_write (p : path) (data : string) : IO unit :=
  change (put_file p data)
    (fun k t => match disk_torn k data with
                | Some torn => match put_file p torn t with inl t' => t' | inr _ => t end
                | None => t
                end).
(** [fs::rename] of a file *)
Definition fs_rename (a b : path) : IO unit :=
  change (fun t => match t !! a with
                   | Some (File data) => match put_file b data t with inl t' => inl (delete a t') | inr e => inr e end
                   | Some Dir => inr (Other "rename of a directory")
                   | None => inr (absent t a)
                   end) (fun _ t => t).
Definition fs_remove_file (p : path) : IO unit :=
  change (fun t => match t !! p with
                   | Some (File _) => inl (delete p t)
                   | Some Dir => inr IsADirectory
                   | None => inr (absent t p)
                   end) (fun _ t => t).
Definition fs_remove_dir (p : path) : IO unit :=
  change (fun t => match t !! p with
                   | Some Dir => match entry_names t p with [] => inl (delete p t) | _ => inr DirectoryNotEmpty end
                   | Some (File _) => inr NotADirectory
                   | None => inr (absent t p)
                   end) (fun _ t => t).
Definition fs_remove_dir_all (p : path) : IO unit :=
  change (fun t => match t !! p with
                   | Some Dir => inl (cleared p (fun _ => false) t)
                   | Some (File _) => inr NotADirectory
                   | None => inr (absent t p)
                   end)
    (fun k t => cleared p (survives (fun rest => nil_path rest || disk_left k rest)) t).
Definition fs_create_dir_all (p : path) : IO unit :=
  change (made_dirs (prefixes p))
    (fun k t => match made_dirs (take (disk_made k) (prefixes p)) t with inl t' => t' | inr _ => t end).
(** [fs::hard_link] of a file *)
Definition fs_hard_link (a b : path) : IO unit :=
  change (fun t => match t !! a with
                   | Some (File data) => if bool_decide (is_Some (t !! b)) then inr AlreadyExists else put_file b data t
                   | Some Dir => inr (Other "link of a directory")
                   | None => inr (absent t a)
                   end) (fun _ t => t).
(** [OpenOptions::new().write(true).create_new(true).open(p)] *)
Definition fs_create_new (p : path) : IO unit :=
  change (fun t => if bool_decide (is_Some (t !! p)) then inr AlreadyExists else put_file p "" t) (fun _ t => t).
End Calls.

(** Reasoning about a disk: paths, what a subtree holds, and the system calls on a disk
    that does not fail. *)

(** ** Paths *)

Lemma below_app p r : below p (p ++ r) = Some r.
Proof. induction p as [|c p IH]; [done|]. simpl. unfold str_eqb. by rewrite bool_decide_eq_true_2. Qed.
Lemma below_Some p q r : below p q = Some r <-> q = (p ++ r)%list.
Proof.
  split; [|intros ->; apply below_app]. revert q. induction p as [|c p IH]; intros q; simpl; [by intros [= ->]|].
  destruct q as [|d q]; [done|]. destruct (str_eqb c d) eqn:E; [|done]. apply str_eqb_true in E as ->.
  intros ->%IH. done.
Qed.
Lemma below_None p q : below p q = None <-> forall r, q <> (p ++ r)%list.
Proof.
  split.
  - intros Hn r ->. by rewrite below_app in Hn.
  - intros Hq. destruct (below p q) as [r|] eqn:E; [|done]. by apply below_Some in E as ->; destruct (Hq r).
Qed.

Lemma plain_name_parts s : plain_name s = true -> s <> "" /\ s <> "." /\ s <> ".." /\ free_of "/" s.
Proof.
  unfold plain_name. rewrite !andb_true_iff, !negb_true_iff. intros [[[H1 H2] H3] H4]. repeat split.
  - by intros ->.
  - by intros ->.
  - by intros ->.
  - exact H4.
Qed.
Lemma split_char_free c s : free_of c s -> split_char c s = [s].
Proof.
  intros Hs. rewrite <- (split_join c [s]) at 1; [done|done|]. by constructor.
Qed.
Lemma join_plain p s : plain_name s = true -> join p s = (p ++ [s])%list.
Proof.
  intros (Hne & Hd & _ & Hf)%plain_name_parts. unfold join.
  destruct (starts_with "/" s) eqn:E.
  - apply starts_with_true in E as [r ->]. by apply andb_true_iff in Hf as [? _].
  - unfold components. rewrite split_char_free by done. simpl.
    destruct (is_empty s) eqn:Es; [by destruct s|]. destruct (str_eqb s ".") eqn:Ed; [by apply str_eqb_true in Ed|]. done.
Qed.

Lemma elem_of_prefixes p q : q ∈ prefixes p <-> exists r, p = (q ++ r)%list.
Proof.
  unfold prefixes. rewrite list_elem_of_In, in_map_iff. split.
  - intros (n & <- & _). exists (drop n p). by rewrite take_drop.
  - intros [r ->]. exists (length q). split; [by rewrite take_app_length|]. apply in_seq. rewrite length_app. lia.
Qed.
Lemma prefixes_snoc p c : prefixes (p ++ [c]) = (prefixes p ++ [p ++ [c]])%list.
Proof.
  unfold prefixes. rewrite length_app. cbn [length]. replace (S (length p + 1)) with (S (length p) + 1)%nat by lia.
  rewrite seq_app, map_app. f_equal.
  - apply map_ext_in. intros n Hn%in_seq. rewrite take_app_le by lia. done.
  - cbn [seq map]. rewrite take_ge; [done|]. rewrite length_app. cbn [length]. lia.
Qed.
Lemma prefixes_app p r q : q ∈ prefixes (p ++ r) -> q ∈ prefixes p \/ exists q', q' ∈ prefixes r /\ q = (p ++ q')%list.
Proof.
  induction r as [|c r IH] using rev_ind.
  - rewrite app_nil_r. auto.
  - rewrite app_assoc, prefixes_snoc, elem_of_app, list_elem_of_singleton. intros [Hq| ->].
    + destruct (IH Hq) as [?|(q' & Hq' & ->)]; [by left|]. right. exists q'. split; [|done].
      rewrite prefixes_snoc, elem_of_app. by left.
    + right. exists (r ++ [c])%list. split; [|by rewrite app_assoc]. apply elem_of_prefixes. exists []. by rewrite app_nil_r.
Qed.
Lemma path_parent_snoc p c : path_parent (p ++ [c]) = p.
Proof. apply removelast_last. Qed.

Lemma elem_of_entry_names t p n : n ∈ entry_names t p <-> is_Some (t !! (p ++ [n])%list).
Proof.
  unfold entry_names. rewrite list_elem_of_omap. split.
  - intros ([q x] & Hin & Hb). apply elem_of_map_to_list in Hin. cbn in Hb.
    destruct (below p q) as [[|m [|]]|] eqn:E; try done. injection Hb as ->. apply below_Some in E as ->. eauto.
  - intros [x Hx]. exists ((p ++ [n])%list, x). split; [by apply elem_of_map_to_list|]. cbn. by rewrite below_app.
Qed.
Lemma NoDup_entry_names t p : NoDup (entry_names t p).
Proof.
  unfold entry_names. pose proof (NoDup_fst_map_to_list t) as Hn. revert Hn. generalize (map_to_list t) as l.
  induction l as [|[q x] l IH]; cbn; [constructor|]. intros [Hni Hn]%NoDup_cons.
  destruct (below p q) as [[|m [|]]|] eqn:E; auto. constructor; [|auto].
  rewrite list_elem_of_omap. intros ([q' x'] & Hin & Hb). cbn in Hb.
  destruct (below p q') as [[|m' [|]]|] eqn:E'; try done. injection Hb as ->.
  apply below_Some in E as ->. apply below_Some in E' as ->. apply Hni. by apply (list_elem_of_fmap_2 fst) in Hin.
Qed.

(** Nothing on the way to [p] is a file. *)
Definition no_file_above (t : tree) (p : path) : Prop := forall q d, q ∈ prefixes p -> t !! q <> Some (File d).
Lemma absent_NotFound t p : no_file_above t p -> absent t p = NotFound "".
Proof.
  intros Hn. unfold absent. destruct (existsb _ _) eqn:E; [|done]. apply existsb_exists in E as (q & Hq & Ht).
  apply list_elem_of_In in Hq. destruct (t !! q) as [[d|]|] eqn:Eq; try done. by destruct (Hn q d Hq).
Qed.
Lemma parent_error_Dir t p : t !! path_parent p = Some Dir -> parent_error t p = None.
Proof. intros Hp. unfold parent_error. by rewrite Hp. Qed.

Lemma lookup_cleared p keep t q :
  cleared p keep t !! q = match below p q with Some rest => if keep rest then t !! q else None | None => t !! q end.
Proof.
  unfold cleared. rewrite map_lookup_filter. destruct (t !! q) as [x|]; [|by repeat case_match]. cbn.
  destruct (decide (match below p q with Some rest => keep rest | None => true end = true)) as [Hk|Hk].
  - rewrite option_guard_True by exact Hk. cbn. repeat case_match; done.
  - rewrite option_guard_False by exact Hk. cbn. repeat case_match; done.
Qed.

(** Making directories: those that are missing appear, nothing else changes. *)
Lemma made_dirs_ok ps t :
  (forall q d, q ∈ ps -> t !! q <> Some (File d)) ->
  exists t', made_dirs ps t = inl t'
    /\ forall q, t' !! q = if decide (q ∈ ps) then Some Dir else t !! q.
Proof.
  unfold made_dirs. revert t. induction ps as [|p ps IH]; intros t Hp; cbn [foldl].
  - exists t. split; [done|]. intros q. rewrite decide_False; [done|]. apply not_elem_of_nil.
  - assert (exists t1, match t !! p with None => inl (<[p:=Dir]> t) | Some Dir => inl t
                       | Some (File _) => inr NotADirectory end = (inl t1 : tree + io_error)
            /\ forall q, t1 !! q = if decide (q = p) then Some Dir else t !! q) as (t1 & -> & Ht1).
    { destruct (t !! p) as [[d|]|] eqn:E.
      - exfalso. apply (Hp p d); [apply elem_of_cons; by left|done].
      - exists t. split; [done|]. intros q. case_decide as Hq; [by rewrite Hq|done].
      - exists (<[p:=Dir]> t). split; [done|]. intros q. case_decide as Hq; [rewrite Hq; by rewrite lookup_insert_eq|].
        by rewrite lookup_insert_ne. }
    destruct (IH t1) as (t' & -> & Ht').
    + intros q d Hq. rewrite Ht1. case_decide; [done|]. apply Hp, elem_of_cons. by right.
    + exists t'. split; [done|]. intros q. rewrite Ht', Ht1.
      destruct (decide (q ∈ ps)) as [Hq|Hq].
      * rewrite decide_True; [done|]. apply elem_of_cons. by right.
      * destruct (decide (q = p)) as [->|Hne].
        -- rewrite decide_True; [done|]. apply elem_of_cons. by left.
        -- rewrite decide_False; [done|]. rewrite elem_of_cons. tauto.
Qed.

(** ** What a subtree holds *)

(** A directory, a file of given bytes, or a file of which something holds. *)
Inductive entry := EDir | EFile (P : string -> Prop).
Definition node_is (n : option node) (e : option entry) : Prop :=
  match n, e with
  | None, None => True
  | Some Dir, Some EDir => True
  | Some (File d), Some (EFile P) => P d
  | _, _ => False
  end.
Definition layout := path -> option entry.
Definition holds (t : tree) (p : path) (f : layout) : Prop := forall r, node_is (t !! (p ++ r)%list) (f r).

Definition at_ (r : path) (e : option entry) (f : layout) : layout := fun q => if decide (q = r) then e else f q.
Definition clear_at (r : path) (f : layout) : layout := fun q => match below r q with Some _ => None | None => f q end.
Definition dirs_at (rs : list path) (f : layout) : layout := fun q => if decide (q ∈ rs) then Some EDir else f q.

Lemma holds_ext t p f g : (forall r, f r = g r) -> holds t p f -> holds t p g.
Proof. intros E Hf r. rewrite <- E. apply Hf. Qed.
Lemma holds_insert t p f r n e : node_is (Some n) (Some e) -> holds t p f -> holds (<[(p ++ r)%list := n]> t) p (at_ r (Some e) f).
Proof.
  intros Hn Hf q. unfold at_. destruct (decide (q = r)) as [->|Hne]; [by rewrite lookup_insert_eq|].
  rewrite lookup_insert_ne; [apply Hf|]. by intros ->%app_inv_head.
Qed.
Lemma holds_delete t p f r : holds t p f -> holds (delete (p ++ r)%list t) p (at_ r None f).
Proof.
  intros Hf q. unfold at_. destruct (decide (q = r)) as [->|Hne]; [by rewrite lookup_delete_eq|].
  rewrite lookup_delete_ne; [apply Hf|]. by intros ->%app_inv_head.
Qed.
Lemma below_app_both p r q : below (p ++ r) (p ++ q) = below r q.
Proof. induction p as [|c p IH]; [done|]. simpl. unfold str_eqb. by rewrite bool_decide_eq_true_2. Qed.
Lemma holds_clear t p f r : holds t p f -> holds (cleared (p ++ r)%list (fun _ => false) t) p (clear_at r f).
Proof.
  intros Hf q. rewrite lookup_cleared, below_app_both. unfold clear_at. destruct (below r q); [done|apply Hf].
Qed.
Lemma holds_same t t' p f : (forall r, t' !! (p ++ r)%list = t !! (p ++ r)%list) -> holds t p f -> holds t' p f.
Proof. intros E Hf r. rewrite E. apply Hf. Qed.
Lemma holds_Dir t p f r : holds t p f -> f r = Some EDir -> t !! (p ++ r)%list = Some Dir.
Proof. intros Hf E. specialize (Hf r). rewrite E in Hf. by destruct (t !! _) as [[]|]. Qed.
Lemma holds_None t p f r : holds t p f -> f r = None -> t !! (p ++ r)%list = None.
Proof. intros Hf E. specialize (Hf r). rewrite E in Hf. by destruct (t !! _) as [[]|]. Qed.
Lemma holds_File t p f r P : holds t p f -> f r = Some (EFile P) -> exists d, t !! (p ++ r)%list = Some (File d) /\ P d.
Proof. intros Hf E. specialize (Hf r). rewrite E in Hf. destruct (t !! _) as [[]|]; try done. eauto. Qed.

(** Two trees agree but for what is below [p]. *)
Definition same_outside (p : path) (t t' : tree) : Prop := forall q, below p q = None -> t' !! q = t !! q.
Lemma same_outside_refl p t : same_outside p t t.
Proof. done. Qed.
Lemma same_outside_trans p t1 t2 t3 : same_outside p t1 t2 -> same_outside p t2 t3 -> same_outside p t1 t3.
Proof. intros H1 H2 q Hq. by rewrite H2, H1. Qed.
Lemma same_outside_insert p t r n : same_outside p t (<[(p ++ r)%list := n]> t).
Proof. intros q Hq. rewrite lookup_insert_ne; [done|]. intros <-. by rewrite below_app in Hq. Qed.
Lemma same_outside_delete p t r : same_outside p t (delete (p ++ r)%list t).
Proof. intros q Hq. rewrite lookup_delete_ne; [done|]. intros <-. by rewrite below_app in Hq. Qed.
Lemma same_outside_clear p t r : same_outside p t (cleared (p ++ r)%list (fun _ => false) t).
Proof.
  intros q Hq. rewrite lookup_cleared. destruct (below (p ++ r) q) as [x|] eqn:E; [|done].
  apply below_Some in E as ->. by rewrite <- app_assoc, below_app in Hq.
Qed.
