(* ===== verification/S3Store.v ===== *)
(** The S3 store's data and its buckets: the records and checks of services/s3/src/model.rs,
    validation.rs, time_fmt.rs, hashes.rs and objops.rs, and the paths, files and buckets
    of store.rs. *)

From S2P Require Import Prelude RustStr RustNum RustText SqsTime PubTime S3Codecs Disk.
Local Open Scope string_scope.
Local Open Scope Z_scope.

(** The object store's metadata (services/s3/src/model.rs), its checks of names
    (validation.rs), its timestamps (time_fmt.rs), checksums (hashes.rs) and the
    normalisation of inputs with the object-lock decision (objops.rs).  The calendar is
    SqsTime's and the timestamp parser PubTime's: the services carry the same text.
    Sums with a client's numbers are checked or wrapped as the build has it. *)

(** ** model.rs *)

Definition NULL_VERSION_ID : string := "null".

Record DefaultRetention := mkDefaultRetention { dr_mode : string; dr_days : Z; dr_years : Z }.
(** [ObjectLockConfiguration] with its rule. *)
Record ObjectLockConfiguration := mkLock { xmlns : string; object_lock_enabled : string; default_retention : DefaultRetention }.
Definition no_lock : ObjectLockConfiguration := mkLock "" "" (mkDefaultRetention "" 0 0).
Record Bucket := mkBucket {
  b_name : string; b_created_at : string; versioning : string; b_acl : string;
  object_lock_config : ObjectLockConfiguration }.
Record ServerSideEncryption := mkSse { algorithm : string; kms_key_id : string; bucket_key_enabled : option bool }.
Record ObjectRetention := mkRetention { r_mode : string; retain_until_date : string }.
Definition no_retention : ObjectRetention := mkRetention "" "".

Record Object := mkObject {
  o_bucket : string; o_key : string; etag : string; o_size : Z;
  created_at : string; last_modified : string; updated_at : string; metageneration : Z;
  content_type : string; content_encoding : string; crc32c : string; cache_control : string;
  content_disposition : string; metadata : gmap string string; version_id : string; delete_marker : bool;
  acl : string; encryption : ServerSideEncryption; retention : ObjectRetention;
  (** The status of [ObjectLegalHold]. *)
  legal_hold : string; resumable_upload_id : string }.
(** [Object::default()] *)
Definition no_object : Object :=
  mkObject "" "" "" 0 "" "" "" 0 "" "" "" "" "" ∅ "" false "" (mkSse "" "" None) no_retention "" "".
Definition set_etag (e : string) (o : Object) : Object :=
  mkObject (o_bucket o) (o_key o) e (o_size o) (created_at o) (last_modified o) (updated_at o) (metageneration o)
    (content_type o) (content_encoding o) (crc32c o) (cache_control o) (content_disposition o) (metadata o)
    (version_id o) (delete_marker o) (acl o) (encryption o) (retention o) (legal_hold o) (resumable_upload_id o).
Definition set_version_id (v : string) (o : Object) : Object :=
  mkObject (o_bucket o) (o_key o) (etag o) (o_size o) (created_at o) (last_modified o) (updated_at o) (metageneration o)
    (content_type o) (content_encoding o) (crc32c o) (cache_control o) (content_disposition o) (metadata o)
    v (delete_marker o) (acl o) (encryption o) (retention o) (legal_hold o) (resumable_upload_id o).
Definition set_acl (a : string) (o : Object) : Object :=
  mkObject (o_bucket o) (o_key o) (etag o) (o_size o) (created_at o) (last_modified o) (updated_at o) (metageneration o)
    (content_type o) (content_encoding o) (crc32c o) (cache_control o) (content_disposition o) (metadata o)
    (version_id o) (delete_marker o) a (encryption o) (retention o) (legal_hold o) (resumable_upload_id o).
Definition set_retention (r : ObjectRetention) (o : Object) : Object :=
  mkObject (o_bucket o) (o_key o) (etag o) (o_size o) (created_at o) (last_modified o) (updated_at o) (metageneration o)
    (content_type o) (content_encoding o) (crc32c o) (cache_control o) (content_disposition o) (metadata o)
    (version_id o) (delete_marker o) (acl o) (encryption o) r (legal_hold o) (resumable_upload_id o).
Definition set_legal_hold (status : string) (o : Object) : Object :=
  mkObject (o_bucket o) (o_key o) (etag o) (o_size o) (created_at o) (last_modified o) (updated_at o) (metageneration o)
    (content_type o) (content_encoding o) (crc32c o) (cache_control o) (content_disposition o) (metadata o)
    (version_id o) (delete_marker o) (acl o) (encryption o) (retention o) status (resumable_upload_id o).

Record MultipartUpload := mkUpload {
  u_bucket : string; u_key : string; u_upload_id : string; u_created_at : string; u_content_type : string;
  u_content_encoding : string; u_cache_control : string; u_content_disposition : string;
  u_metadata : gmap string string; u_encryption : ServerSideEncryption }.
Record MultipartPart := mkPart { part_number : Z; part_etag : string; part_size : Z; part_last_modified : string }.

Record LifecycleRule := mkRule {
  rule_id : string; rule_prefix : string; filter_prefix : string; rule_status : string;
  expire_days : option Z; expire_date : string }.
Record LifecycleConfiguration := mkLifecycle { lc_xmlns : string; lc_rules : list LifecycleRule }.

(** ** validation.rs *)

Definition is_bucket_alnum (b : ascii) : bool := is_ascii_lowercase b || is_ascii_digit b.
Definition is_ipv4_like (name : string) : bool :=
  let parts := split_char "." name in
  (length parts =? 4)%nat
  && forallb (fun part => negb (is_empty part) && (str_len part <=? 3) && str_all is_ascii_digit part) parts.
(** [bytes[0]] and [bytes[len - 1]] *)
Definition first_byte (s : string) : option ascii := String.get 0 s.
Definition last_byte (s : string) : option ascii := String.get (String.length s - 1) s.
Definition byte_alnum (b : option ascii) : bool := match b with Some b => is_bucket_alnum b | None => false end.
Definition valid_bucket_name (name : string) : bool :=
  if (str_len name <? 3) || (63 <? str_len name) then false
  else if contains "/" name || contains "\" name || contains ".." name then false
  else if negb (byte_alnum (first_byte name)) || negb (byte_alnum (last_byte name)) then false
  else if contains ".-" name || contains "-." name || is_ipv4_like name then false
  else str_all (fun c => is_bucket_alnum c || Ascii.eqb c "-" || Ascii.eqb c ".") name.
Definition valid_object_key (key : string) : bool := negb (is_empty key) && negb (contains (char_str nul) key).
Definition valid_version_id (version_id : string) : bool :=
  negb (existsb (str_eqb version_id) [""; "."; ".."])
  && str_all (fun c => negb (existsb (Ascii.eqb c) ["/"; "\"; nul; ":"]%char)) version_id.
Definition valid_upload_id (upload_id : string) : bool :=
  (str_len upload_id =? 32) && str_all (fun c => is_ascii_digit c || in_range "a" "f" c) upload_id.

(** ** time_fmt.rs *)

Definition GO_ZERO_TIME : string := "0001-01-01T00:00:00Z".
(** [>] on pairs *)
Definition instant_after (a b : Z * Z) : bool := (b.1 <? a.1) || ((b.1 =? a.1) && (b.2 <? a.2)).
Definition instant_of (value : string) : Z * Z := default (i64_min, 0) (parse_rfc3339 value).
Definition time_after (a b : string) : bool := instant_after (instant_of a) (instant_of b).
Definition rfc3339_seconds_from_unix (secs : Z) : string := rfc3339_from_unix secs 0.
(** [days_from_civil] of a client's year. *)
Definition days_i64 `{Build} {E} (y m d : Z) : result E Z :=
  match days_from_civil_checked y m d with
  | Some days => Ok days
  | None => if overflow_checks then Panic "arithmetic overflow" else Ok (wrap_s 64 (days_from_civil y m d))
  end.
Definition add_calendar_years_rfc3339 `{Build} {E} (value : string) (years : Z) : result E (option string) :=
  match parse_rfc3339 value with
  | None => Ok None
  | Some (secs, _) =>
      let '(y, m, d) := civil_from_days (secs / 86400) in
      y ← checked_i64 (y + years);
      serial ← days_i64 y m d;
      days ← checked_i64 (serial * 86400);
      t ← checked_i64 (days + secs mod 86400);
      Ok (Some (rfc3339_seconds_from_unix t))
  end.
Definition parse_lifecycle_date `{Build} {E} (value : string) : result E (option Z) :=
  match parse_rfc3339 value with
  | Some (secs, _) => Ok (Some secs)
  | None =>
      match parse_ymd value with
      | None => Ok None
      | Some (y, m, d) => days ← days_i64 y m d; t ← checked_i64 (days * 86400); Ok (Some t)
      end
  end.

(** ** hashes.rs *)

(** The crates md5 and hex, and [str::to_lowercase]; ["{:x}"] of a digest is its
    [hex::encode]. *)
Class Hashes := {
  md5 : string -> string;
  hex_encode : string -> string;
  hex_decode : string -> option string;
  to_lowercase : string -> string }.
Class HashLaws `{Hashes} := {
  md5_length : forall s, String.length (md5 s) = 16%nat;
  hex_decode_encode : forall s, hex_decode (hex_encode s) = Some s;
  hex_encode_lower : forall s, str_all (fun c => is_ascii_digit c || in_range "a" "f" c) (hex_encode s) = true;
  hex_encode_length : forall s, String.length (hex_encode s) = (2 * String.length s)%nat }.

Definition crc_bit (crc : Z) : Z :=
  if negb (Z.land crc 1 =? 0) then Z.lxor (Z.shiftr crc 1) 0x82F63B78 else Z.shiftr crc 1.
Definition crc_byte (crc : Z) (byte : ascii) : Z := Nat.iter 8 crc_bit (Z.lxor crc (byte_of byte)).
Fixpoint crc_loop (crc : Z) (data : string) : Z :=
  match data with EmptyString => crc | String b r => crc_loop (crc_byte crc b) r end.
Definition crc32c_sum (data : string) : Z := Z.lxor (crc_loop 0xFFFFFFFF data) 0xFFFFFFFF.
Definition be32 (n : Z) : string :=
  bytes_str [Z.land (Z.shiftr n 24) 255; Z.land (Z.shiftr n 16) 255; Z.land (Z.shiftr n 8) 255; Z.land n 255].
Definition crc32c_base64 (data : string) : string := Base64.std_encode (be32 (crc32c_sum data)).

Section Hashing.
Context `{Hashes}.
Definition quoted (s : string) : string := char_str dquote +:+ s +:+ char_str dquote.
Definition md5_etag (data : string) : string := quoted (hex_encode (md5 data)).
(** The raw digests of the parts, or none when one is not sixteen bytes of hex. *)
Fixpoint raw_md5s (part_etags : list string) : option string :=
  match part_etags with
  | [] => Some ""
  | e :: rest =>
      match hex_decode (trim_by (Ascii.eqb dquote) e) with
      | Some raw => if str_len raw =? 16 then r ← raw_md5s rest; Some (raw +:+ r) else None
      | None => None
      end
  end.
Definition multipart_etag (part_etags : list string) : string :=
  let count := show_Z (Z.of_nat (length part_etags)) in
  match raw_md5s part_etags with
  | None => quoted count
  | Some hashes => quoted (hex_encode (md5 hashes) +:+ "-" +:+ count)
  end.
Inductive ContentMd5Error := Md5Invalid | Md5Mismatch.
Definition validate_content_md5 (header body : string) : result ContentMd5Error unit :=
  if is_empty header then Ok tt
  else match Base64.std_decode header with
       | Some expected =>
           if negb (str_len expected =? 16) then Err Md5Invalid
           else if str_eqb (md5 body) expected then Ok tt else Err Md5Mismatch
       | None => Err Md5Invalid
       end.
End Hashing.

(** ** objops.rs *)

Record PutObjectInput := mkPutInput {
  pi_bucket : string; pi_key : string; pi_body : string; pi_content_md5 : string; pi_content_type : string;
  pi_content_encoding : string; pi_cache_control : string; pi_content_disposition : string;
  pi_metadata : gmap string string; pi_encryption : ServerSideEncryption; pi_retention : ObjectRetention;
  pi_legal_hold : string }.
Record CreateMultipartUploadInput := mkUploadInput {
  ci_bucket : string; ci_key : string; ci_content_type : string; ci_content_encoding : string;
  ci_cache_control : string; ci_content_disposition : string; ci_metadata : gmap string string;
  ci_encryption : ServerSideEncryption }.
Record UpdateObjectMetadataInput := mkUpdateInput {
  ui_bucket : string; ui_key : string; ui_content_type : string; ui_content_encoding : string;
  ui_cache_control : string; ui_content_disposition : string; ui_metadata : option (gmap string string) }.

(** Collected in key order, the last of equal keys winning. *)
Definition clean_metadata `{Hashes} (m : gmap string string) : gmap string string :=
  foldl (fun acc e => <[to_lowercase e.1 := e.2]> acc) ∅ (btree_iter m).
Definition clean_server_side_encryption (e : ServerSideEncryption) : ServerSideEncryption :=
  mkSse (trim (algorithm e)) (trim (kms_key_id e)) (bucket_key_enabled e).
Definition clean_object_retention (r : ObjectRetention) : ObjectRetention :=
  mkRetention (trim (r_mode r)) (trim (retain_until_date r)).
Definition clean_object_legal_hold (status : string) : string := trim status.

Definition object_lock_prevents_delete (object : Object) (now : string) (bypass_governance : bool) : bool :=
  if str_eqb (legal_hold object) "ON" then true
  else if is_empty (r_mode (retention object)) || is_empty (retain_until_date (retention object)) then false
  else if str_eqb (r_mode (retention object)) "GOVERNANCE" && bypass_governance then false
  else match parse_rfc3339 (retain_until_date (retention object)) with
       | None => true
       | Some _ => time_after (retain_until_date (retention object)) now
       end.
Definition default_object_retention `{Build} {E} (config : ObjectLockConfiguration) (now : string) : result E ObjectRetention :=
  let d := default_retention config in
  let until (v : option string) := match v with Some v => mkRetention (dr_mode d) v | None => no_retention end in
  if is_empty (dr_mode d) then Ok no_retention
  else if 0 <? dr_days d then
    match parse_rfc3339 now with
    | None => Ok no_retention
    | Some (secs, _) =>
        span ← checked_i64 (dr_days d * 86400);
        t ← checked_i64 (secs + span);
        Ok (until (Some (rfc3339_seconds_from_unix t)))
    end
  else if 0 <? dr_years d then v ← add_calendar_years_rfc3339 now (dr_years d); Ok (until v)
  else Ok no_retention.
Definition object_version_id (object : Object) : string :=
  if is_empty (version_id object) then NULL_VERSION_ID else version_id object.

(** The vectors of the code's own tests. *)
Example crc32c_known_vectors :
  crc32c_base64 "content" = "Ya91Mw==" /\ crc32c_base64 "" = "AAAAAA==" /\ crc32c_base64 "hello world" = "yZRlqg==".
Proof. vm_compute. done. Qed.
Example bucket_names :
  forallb valid_bucket_name ["my-bucket"; "a.b.c"; "abc"] = true
  /\ existsb valid_bucket_name ["ab"; "-bucket"; "bucket-"; "My-Bucket"; "a..b"; "a.-b"; "a-.b"; "192.168.1.1"; "a/b/c"; "a_b_c"] = false.
Proof. vm_compute. done. Qed.
Example default_retention_days_and_years `{Build} :
  default_object_retention (E := unit) (mkLock "" "" (mkDefaultRetention "GOVERNANCE" 30 0)) "2026-05-30T12:00:00.5Z"
  = Ok (mkRetention "GOVERNANCE" "2026-06-29T12:00:00Z")
  /\ default_object_retention (E := unit) (mkLock "" "" (mkDefaultRetention "GOVERNANCE" 0 1)) "2026-05-30T12:00:00Z"
     = Ok (mkRetention "GOVERNANCE" "2027-05-30T12:00:00Z").
Proof. vm_compute. done. Qed.

(** The store on disk: services/s3/src/store.rs - its layout, its clock and identifiers,
    atomic writes, and the buckets. *)

Inductive StoreError :=
| InvalidBucketName | InvalidObjectKey | BucketNotEmpty | BucketNotExist | InvalidContentMd5 | ContentMd5Mismatch
| ObjectLocked | VersionIdRequired | InvalidVersionId | InvalidUploadId | InvalidPartNumber
| MultipartUploadNotExist | InvalidPart (number : Z) | PreconditionFailed | Io (e : io_error).

(** A metadata file's text: [encode] is the derived [Serialize] through
    [wire_json::to_vec_indent], [decode] is [serde_json::from_slice]. *)
Class Codec (T : Type) := { encode : T -> string; decode : string -> T + string }.
Class CodecLaws T `{Codec T} := { decode_encode : forall x : T, decode (encode x) = inl x }.

Definition SIDECAR_FILES : list string :=
  ["bucket.json"; "versioning.json"; "policy.json"; "cors.json"; "acl.json"; "lifecycle.json"; "notification.json";
   "notification-events.json"; "object-lock.json"; "replication.json"].
Definition SIDECAR_DIRS : list string := ["inventory"; "analytics"].

(** The process's part of the state besides the disk: the test queue of identifiers and
    the counter mixed into random ones. *)
Record Store := mkStore { disk : DiskState; fixed_version_ids : list string; id_counter : Z }.
Definition on_disk (d : DiskState) (s : Store) : Store := mkStore d (fixed_version_ids s) (id_counter s).
Definition the_files (s : Store) : tree := files (disk s).

(** The clock, in nanoseconds since the epoch, and the pinned clock of tests. *)
Class Clock := { clock_nanos : nat -> Z; fixed_now : option string }.

(** ** Layout, from the store's root *)

Definition bucket_path (name : string) : path := join [] name.
Definition resumable_upload_receipt_path (upload_id : string) : path := join [] (".gcs-upload-" +:+ upload_id +:+ ".json").
Definition objects_path (bucket : string) : path := join (bucket_path bucket) "objects".
Definition object_path (bucket key : string) : path := join (objects_path bucket) (Base64.raw_url_encode key).
Definition object_versions_path (bucket key : string) : path := join (object_path bucket key) "versions".
Definition version_path (object_path : path) (version_id : string) : result StoreError path :=
  if negb (valid_version_id version_id) then Err InvalidVersionId
  else Ok (join (join object_path "versions") version_id).
Definition multipart_path (bucket : string) : path := join (bucket_path bucket) "multipart".
Definition multipart_upload_path (bucket upload_id : string) : path := join (multipart_path bucket) upload_id.
(** ["{part_number:05}"]: the sign counts towards the width. *)
Definition part_name (n : Z) : string :=
  if n <? 0 then "-" +:+ pad_left 4 "0" (show_Z (- n)) else pad_left 5 "0" (show_Z n).
Definition multipart_part_path (bucket upload_id : string) (n : Z) : path :=
  join (join (multipart_upload_path bucket upload_id) "parts") (part_name n).
(** [path.join("object.json")] and the like *)
Definition object_json (p : path) : path := join p "object.json".
Definition body_file (p : path) : path := join p "body".
(** [with_file_name(name + ".tmp")] *)
Definition atomic_tmp_path (p : path) : path := (path_parent p ++ [default "" (last p) +:+ ".tmp"])%list.

Section Store.
Context `{Disk, Clock, Hashes}.
Abbreviation IO := (ME io_error DiskState).
Abbreviation St := (ME StoreError Store).

(** [op?] on an I/O result, and the result itself. *)
Definition io {A} (m : IO A) : St A := fun s =>
  let '(r, d) := m (disk s) in (map_err Io r, on_disk d s).
Definition try_io {A} (m : IO A) : St (A + io_error) := fun s =>
  match m (disk s) with
  | (Ok a, d) => (Ok (inl a), on_disk d s)
  | (Err e, d) => (Ok (inr e), on_disk d s)
  | (Panic why, d) => (Panic why, on_disk d s)
  end.
(** [let _ = op] *)
Definition ignore {A} (m : IO A) : St unit := _ ← try_io m; mret tt.
(** [NotFound] as [None], every other error as an error. *)
Definition found {A} (m : IO A) : St (option A) :=
  r ← try_io m;
  match r with
  | inl a => mret (Some a)
  | inr (NotFound _) => mret None
  | inr e => fail (Io e)
  end.
(** [path.exists()] and [path.is_file()]: an error is [false]. *)
Definition exists_ (p : path) : St bool := r ← try_io (fs_metadata p); mret (match r with inl _ => true | inr _ => false end).
Definition is_file (p : path) : St bool :=
  r ← try_io (fs_metadata p); mret (match r with inl (File _) => true | _ => false end).
(** [entry?] with its [file_type()?] *)
Definition entry_is_dir (p : path) : St bool := n ← io (fs_metadata p); mret (match n with Dir => true | File _ => false end).

Definition decoded {T} `{Codec T} (data : string) : St T :=
  match decode data with inl x => mret x | inr why => fail (Io (Other why)) end.
Definition read_json_file {T} `{Codec T} (p : path) : St (option T) :=
  data ← found (fs_read p);
  match data with None => mret None | Some data => x ← decoded data; mret (Some x) end.

Definition write_atomic (p : path) (data : string) : St unit :=
  let tmp := atomic_tmp_path p in
  r ← try_io (fs_write tmp data);
  match r with
  | inr e => ignore (fs_remove_file tmp);; fail (Io e)
  | inl _ =>
      r ← try_io (fs_rename tmp p);
      match r with
      | inr e => ignore (fs_remove_file tmp);; fail (Io e)
      | inl _ => mret tt
      end
  end.
Definition write_json {T} `{Codec T} (p : path) (value : T) : St unit := write_atomic p (encode value).
Definition remove_if_exists (p : path) : St unit := _ ← found (fs_remove_file p); mret tt.
Definition remove_dir_all_if_exists (p : path) : St unit := _ ← found (fs_remove_dir_all p); mret tt.

(** ** The clock and identifiers *)

Definition tick : St nat := fun s =>
  (Ok (calls (disk s)), on_disk (mkDisk (files (disk s)) (calls (disk s) + 1)) s).
(** [SystemTime::now().duration_since(UNIX_EPOCH).unwrap_or_default()] *)
Definition since_epoch : St Z := t ← tick; mret (Z.max 0 (clock_nanos t)).
Definition now : St string :=
  match fixed_now with
  | Some ts => mret ts
  | None => nanos ← since_epoch; mret (rfc3339nano_from_unix (nanos / 10 ^ 9) (nanos mod 10 ^ 9))
  end.

Definition GOLDEN : Z := 0x9E3779B97F4A7C15.
Definition w64 (z : Z) : Z := z mod 2 ^ 64.
(** The new state and the output. *)
Definition splitmix64 (state : Z) : Z * Z :=
  let state := w64 (state + GOLDEN) in
  let z := w64 (Z.lxor state (Z.shiftr state 30) * 0xBF58476D1CE4E5B9) in
  let z := w64 (Z.lxor z (Z.shiftr z 27) * 0x94D049BB133111EB) in
  (state, Z.lxor z (Z.shiftr z 31)).
Definition be64 (n : Z) : string :=
  bytes_str (map (fun k => Z.land (Z.shiftr n (8 * (7 - Z.of_nat k))) 255) (seq 0 8)).
Definition random_id (nanos seq : Z) : string :=
  let '(state, a) := splitmix64 (Z.lxor (w64 nanos) (w64 (seq * GOLDEN))) in
  let '(_, b) := splitmix64 state in
  hex_encode (be64 a +:+ be64 b).
Definition new_version_id : St string :=
  ids ← gets fixed_version_ids;
  match ids with
  | id :: rest => modify (fun s => mkStore (disk s) rest (id_counter s));; mret id
  | [] =>
      seq ← gets id_counter;
      modify (fun s => mkStore (disk s) (fixed_version_ids s) (w64 (id_counter s + 1)));;
      nanos ← since_epoch;
      mret (random_id nanos seq)
  end.

(** ** Buckets *)

Context `{Codec Bucket}.
Definition get_bucket (name : string) : St (option Bucket) :=
  if negb (valid_bucket_name name) then fail InvalidBucketName
  else read_json_file (join (bucket_path name) "bucket.json").
(** [get_bucket(..)?.ok_or(BucketNotExist)?] *)
Definition the_bucket (name : string) : St Bucket := b ← get_bucket name; lift (ok_or BucketNotExist b).

Definition create_bucket (name : string) : St (Bucket * bool) :=
  existing ← get_bucket name;
  match existing with
  | Some b => mret (b, false)
  | None =>
      created_at ← now;
      let bucket := mkBucket name created_at "" "" no_lock in
      let path := bucket_path name in
      io (fs_create_dir_all path);;
      write_json (join path "bucket.json") bucket;;
      mret (bucket, true)
  end.

Definition bucket_cmp (a b : Bucket) : comparison := String.compare (b_name a) (b_name b).
Definition list_buckets : St (list Bucket) :=
  entries ← found (fs_read_dir []);
  match entries with
  | None => mret []
  | Some entries =>
      buckets ← for_each entries [] (fun name acc =>
        dir ← entry_is_dir (join [] name);
        if negb dir then mret acc
        else
          b ← get_bucket name;
          mret (match b with Some b => (acc ++ [b])%list | None => acc end));
      mret (sort_by bucket_cmp buckets)
  end.

Definition delete_bucket (name : string) : St bool :=
  if negb (valid_bucket_name name) then fail InvalidBucketName
  else
    let path := bucket_path name in
    there ← found (fs_metadata path);
    match there with
    | None => mret false
    | Some _ =>
        entries ← io (fs_read_dir path);
        for_each entries tt (fun entry _ =>
          if existsb (str_eqb entry) SIDECAR_DIRS then mret tt
          else guard_err (negb (existsb (str_eqb entry) SIDECAR_FILES)) BucketNotEmpty);;
        remove_if_exists (join path "bucket.json");;
        for_each (tail SIDECAR_FILES) tt (fun sidecar _ => remove_if_exists (join path sidecar));;
        for_each SIDECAR_DIRS tt (fun dir _ => remove_dir_all_if_exists (join path dir));;
        io (fs_remove_dir path);;
        mret true
    end.
End Store.
