(* ===== verification/S3Objects.v ===== *)
(** The object data plane of the S3 store: services/s3/src/store_objects.rs and
    store_multipart.rs. *)

From S2P Require Import Prelude RustStr RustNum RustText SqsTime PubTime S3Codecs Disk S3Store.
Local Open Scope string_scope.
Local Open Scope Z_scope.

(** The object data plane: services/s3/src/store_objects.rs - putting, reading, updating
    and deleting objects, versions, delete markers, the rebuilding of the current object,
    listings, and the receipts of resumable uploads. *)

(** A provider's condition against the store's own errors. *)
Inductive ConditionalError (E : Type) := StoreErr (e : StoreError) | Condition (e : E).
Arguments StoreErr {E} e.
Arguments Condition {E} e.

Definition missing (what : string) : StoreError := Io (NotFound what).

(** ** Orders *)

(** By key, then the later first, then the greater version id first. *)
Definition version_cmp (a b : Object) : comparison :=
  match String.compare (o_key a) (o_key b) with
  | Eq => if time_after (last_modified a) (last_modified b) then Lt
          else if time_after (last_modified b) (last_modified a) then Gt
          else String.compare (version_id b) (version_id a)
  | other => other
  end.
Definition object_cmp (a b : Object) : comparison := String.compare (o_key a) (o_key b).
(** Whether the rebuild keeps [latest] over [object]. *)
Definition stays_latest (latest object : Object) : bool :=
  time_after (last_modified latest) (last_modified object)
  || (negb (time_after (last_modified object) (last_modified latest))
      && match String.compare (version_id object) (version_id latest) with Gt => false | _ => true end).

Section Objects.
Context `{Disk, Clock, Hashes, Build} `{Codec Bucket, Codec Object}.
Abbreviation St := (ME StoreError Store).

Definition read_object (p : path) : St (option Object) := read_json_file p.
Definition or_default_version (default_vid : string) (o : Object) : Object :=
  if is_empty (version_id o) then set_version_id default_vid o else o.
Definition read_object_metadata_for_version_list (p : path) (default_vid : string) : St (option Object) :=
  o ← read_object p; mret (or_default_version default_vid <$> o).

Definition require_bucket_and_key (bucket key : string) : St unit :=
  if negb (valid_bucket_name bucket) then fail InvalidBucketName
  else if negb (valid_object_key key) then fail InvalidObjectKey
  else
    b ← get_bucket bucket;
    guard_err (match b with None => true | Some _ => false end) BucketNotExist.

(** ** Versions and receipts *)

Definition version_dir (p : path) (version_id : string) : St path := lift (version_path p version_id).
Definition write_object_version (object_path : path) (object : Object) (body : string) : St unit :=
  if is_empty (version_id object) then mret tt
  else
    version_path ← version_dir object_path (version_id object);
    io (fs_create_dir_all version_path);;
    write_json (object_json version_path) object;;
    if delete_marker object then ignore (fs_remove_file (body_file version_path))
    else write_atomic (body_file version_path) body.

Definition invalid_receipt (upload_id : string) (o : Object) : bool :=
  negb (str_eqb (resumable_upload_id o) upload_id) || delete_marker o
  || negb (valid_bucket_name (o_bucket o)) || negb (valid_object_key (o_key o)).
Definition read_resumable_upload_receipt (upload_id : string) : St (option Object) :=
  if negb (valid_upload_id upload_id) then mret None
  else
    receipt ← read_object (resumable_upload_receipt_path upload_id);
    guard_err (match receipt with Some o => invalid_receipt upload_id o | None => false end)
      (Io (Other "invalid resumable upload receipt"));;
    mret receipt.

Definition path_eqb (p q : path) : bool := bool_decide (p = q).
Definition same_commit (receipt object : Object) : bool :=
  str_eqb (o_bucket receipt) (o_bucket object) && str_eqb (o_key receipt) (o_key object)
  && str_eqb (last_modified receipt) (last_modified object) && str_eqb (etag receipt) (etag object)
  && (o_size receipt =? o_size object).
Definition preserve_resumable_upload_result (object : Object) (source : path) : St unit :=
  let upload_id := resumable_upload_id object in
  if is_empty upload_id then mret tt
  else if negb (valid_upload_id upload_id) || negb (valid_bucket_name (o_bucket object))
          || negb (valid_object_key (o_key object)) || delete_marker object then fail InvalidUploadId
  else
    receipt ← read_resumable_upload_receipt upload_id;
    match receipt with
    | Some receipt => guard_err (negb (same_commit receipt object)) InvalidUploadId
    | None =>
        let path := object_path (o_bucket object) (o_key object) in
        (if negb (is_empty (version_id object)) && path_eqb source (object_json path) then
           body ← io (fs_read (body_file path));
           write_object_version path object body
         else mret tt);;
        io (fs_hard_link source (resumable_upload_receipt_path upload_id))
    end.
Definition preserve_current_resumable_upload (bucket key : string) : St unit :=
  let path := object_json (object_path bucket key) in
  o ← read_object path;
  match o with Some object => preserve_resumable_upload_result object path | None => mret tt end.
Definition read_current_object_metadata (bucket key : string) : St (option Object) :=
  read_object (object_json (object_path bucket key)).

(** ** Putting *)

Definition md5_checked (header body : string) : result StoreError unit :=
  map_err (fun e => match e with Md5Invalid => InvalidContentMd5 | Md5Mismatch => ContentMd5Mismatch end)
    (validate_content_md5 header body).
(** The retention asked for, or the bucket's default one. *)
Definition chosen_retention (input : PutObjectInput) (bucket : Bucket) (now : string) : result StoreError ObjectRetention :=
  let r := clean_object_retention (pi_retention input) in
  if is_empty (r_mode r) then default_object_retention (object_lock_config bucket) now else Ok r.
(** The object of an input, but for its version id. *)
Definition new_object (input : PutObjectInput) (r : ObjectRetention) (now upload_id : string) : Object :=
  mkObject (pi_bucket input) (pi_key input) (md5_etag (pi_body input)) (str_len (pi_body input))
    now now now 1
    (if is_empty (pi_content_type input) then "application/octet-stream" else pi_content_type input)
    (pi_content_encoding input) (crc32c_base64 (pi_body input)) (pi_cache_control input)
    (pi_content_disposition input) (clean_metadata (pi_metadata input)) "" false ""
    (clean_server_side_encryption (pi_encryption input)) r
    (clean_object_legal_hold (pi_legal_hold input)) upload_id.
Definition version_for (versioning : string) : St string :=
  if str_eqb versioning "Enabled" then new_version_id
  else if str_eqb versioning "Suspended" then mret NULL_VERSION_ID
  else mret "".
Definition put_object_with_resumable_id_locked (input : PutObjectInput) (upload_id : string) : St Object :=
  guard_err (negb (valid_bucket_name (pi_bucket input))) InvalidBucketName;;
  guard_err (negb (valid_object_key (pi_key input))) InvalidObjectKey;;
  bucket ← the_bucket (pi_bucket input);
  lift (md5_checked (pi_content_md5 input) (pi_body input));;
  now ← now;
  r ← lift (chosen_retention input bucket now);
  version ← version_for (versioning bucket);
  let object := set_version_id version (new_object input r now upload_id) in
  let path := object_path (pi_bucket input) (pi_key input) in
  io (fs_create_dir_all path);;
  preserve_current_resumable_upload (pi_bucket input) (pi_key input);;
  write_atomic (body_file path) (pi_body input);;
  write_json (object_json path) object;;
  (if negb (is_empty (version_id object)) then write_object_version path object (pi_body input) else mret tt);;
  mret object.
Definition put_object_locked (input : PutObjectInput) : St Object := put_object_with_resumable_id_locked input "".
(** The root-wide lock makes a call one step. *)
Definition put_object (input : PutObjectInput) : St Object := put_object_locked input.
Definition current_object_exists (bucket key : string) : St bool :=
  o ← read_object (object_json (object_path bucket key));
  mret (match o with Some o => negb (delete_marker o) | None => false end).
Definition put_object_if_absent (input : PutObjectInput) : St Object :=
  require_bucket_and_key (pi_bucket input) (pi_key input);;
  there ← current_object_exists (pi_bucket input) (pi_key input);
  guard_err there PreconditionFailed;;
  put_object_locked input.

(** ** Conditions *)

Section Conditions.
Context {E : Type}.
Definition store_op {A} (m : St A) : ME (ConditionalError E) Store A := fun s =>
  let '(r, s') := m s in (map_err StoreErr r, s').
Definition check_current_object_locked (bucket key : string) (predicate : option Object -> result E unit)
    : ME (ConditionalError E) Store unit :=
  store_op (require_bucket_and_key bucket key);;
  current ← store_op (read_current_object_metadata bucket key);
  lift (map_err Condition
    (predicate (match current with Some o => if delete_marker o then None else Some o | None => None end))).
Definition put_object_if (input : PutObjectInput) (predicate : option Object -> result E unit)
    : ME (ConditionalError E) Store Object :=
  check_current_object_locked (pi_bucket input) (pi_key input) predicate;;
  store_op (put_object_locked input).
End Conditions.

(** ** Resumable uploads *)

Definition get_resumable_upload_result_locked (bucket : string) (key : option string) (upload_id : string)
    : St (option Object) :=
  if negb (valid_upload_id upload_id) || negb (valid_bucket_name bucket)
     || match key with Some k => negb (valid_object_key k) | None => false end then mret None
  else
    receipt ← read_resumable_upload_receipt upload_id;
    match receipt with
    | Some receipt =>
        mret (if str_eqb (o_bucket receipt) bucket
                 && match key with Some k => str_eqb (o_key receipt) k | None => true end
              then Some receipt else None)
    | None =>
        match key with
        | None => mret None
        | Some key =>
            let path := object_json (object_path bucket key) in
            o ← read_object path;
            match o with
            | Some object =>
                if negb (delete_marker object) && str_eqb (resumable_upload_id object) upload_id
                   && str_eqb (o_bucket object) bucket && str_eqb (o_key object) key
                then preserve_resumable_upload_result object path;; read_resumable_upload_receipt upload_id
                else mret None
            | None => mret None
            end
        end
    end.
Definition get_resumable_upload_result (bucket : string) (key : option string) (upload_id : string)
    : St (option Object) := get_resumable_upload_result_locked bucket key upload_id.
Definition resumable_result_for_input_locked (input : PutObjectInput) (upload_id : string) : St (option Object) :=
  receipt ← read_resumable_upload_receipt upload_id;
  match receipt with
  | Some receipt =>
      guard_err (negb (str_eqb (o_bucket receipt) (pi_bucket input)) || negb (str_eqb (o_key receipt) (pi_key input)))
        InvalidUploadId;;
      mret (Some receipt)
  | None => get_resumable_upload_result_locked (pi_bucket input) (Some (pi_key input)) upload_id
  end.
Definition commit_resumable_object_locked (input : PutObjectInput) (upload_id : string) : St Object :=
  object ← put_object_with_resumable_id_locked input upload_id;
  io (fs_hard_link (object_json (object_path (o_bucket object) (o_key object)))
        (resumable_upload_receipt_path upload_id));;
  mret object.
Definition put_resumable_object (input : PutObjectInput) (upload_id : string) : St Object :=
  guard_err (negb (valid_upload_id upload_id)) InvalidUploadId;;
  receipt ← resumable_result_for_input_locked input upload_id;
  match receipt with
  | Some receipt => mret receipt
  | None => commit_resumable_object_locked input upload_id
  end.
Definition put_resumable_object_if {E} (input : PutObjectInput) (upload_id : string)
    (predicate : option Object -> result E unit) : ME (ConditionalError E) Store Object :=
  store_op (guard_err (negb (valid_upload_id upload_id)) InvalidUploadId);;
  receipt ← store_op (resumable_result_for_input_locked input upload_id);
  match receipt with
  | Some receipt => mret receipt
  | None =>
      check_current_object_locked (pi_bucket input) (pi_key input) predicate;;
      store_op (commit_resumable_object_locked input upload_id)
  end.

(** ** Reading *)

Definition get_object (bucket key : string) : St (option (Object * string)) :=
  require_bucket_and_key bucket key;;
  let path := object_path bucket key in
  o ← read_object (object_json path);
  match o with
  | None => mret None
  | Some object =>
      if delete_marker object then mret None
      else body ← io (fs_read (body_file path)); mret (Some (object, body))
  end.
Definition get_object_snapshot (bucket key : string) : St (option (Object * string)) := get_object bucket key.

(** A version's metadata with its body; a delete marker's body is empty. *)
Definition with_body (object : Object) (p : path) : St (option (Object * string)) :=
  if delete_marker object then mret (Some (object, ""))
  else body ← io (fs_read (body_file p)); mret (Some (object, body)).
Definition get_null_object_version (bucket key : string) : St (option (Object * string)) :=
  let version_path := join (object_versions_path bucket key) NULL_VERSION_ID in
  o ← read_object (object_json version_path);
  match o with
  | Some object => with_body object version_path
  | None =>
      let current_path := object_path bucket key in
      o ← read_object (object_json current_path);
      match o with
      | None => mret None
      | Some object =>
          if negb (is_empty (version_id object)) && negb (str_eqb (version_id object) NULL_VERSION_ID) then mret None
          else with_body (set_version_id NULL_VERSION_ID object) current_path
      end
  end.
Definition get_object_version (bucket key version_id : string) : St (option (Object * string)) :=
  if is_empty version_id then get_object bucket key
  else
    require_bucket_and_key bucket key;;
    null_version ← (if str_eqb version_id NULL_VERSION_ID then get_null_object_version bucket key else mret None);
    match null_version with
    | Some found => mret (Some found)
    | None =>
        path ← version_dir (object_path bucket key) version_id;
        o ← read_object (object_json path);
        match o with None => mret None | Some object => with_body object path end
    end.

(** ** Metadata *)

Definition replaced (old asked : string) : string := if is_empty asked then old else asked.
Definition updated_object (input : UpdateObjectMetadataInput) (now : string) (o : Object) : Object :=
  mkObject (o_bucket o) (o_key o) (etag o) (o_size o)
    (if is_empty (created_at o) || str_eqb (created_at o) GO_ZERO_TIME then last_modified o else created_at o)
    (last_modified o) now ((if metageneration o <? 1 then 1 else metageneration o) + 1)
    (replaced (content_type o) (ui_content_type input)) (replaced (content_encoding o) (ui_content_encoding input))
    (crc32c o) (replaced (cache_control o) (ui_cache_control input))
    (replaced (content_disposition o) (ui_content_disposition input))
    (match ui_metadata input with Some m => clean_metadata m | None => metadata o end)
    (version_id o) (delete_marker o) (acl o) (encryption o) (retention o) (legal_hold o) (resumable_upload_id o).
Definition update_object_metadata_locked (input : UpdateObjectMetadataInput) : St (option Object) :=
  require_bucket_and_key (ui_bucket input) (ui_key input);;
  let path := object_path (ui_bucket input) (ui_key input) in
  o ← read_object (object_json path);
  match o with
  | None => mret None
  | Some object =>
      preserve_resumable_upload_result object (object_json path);;
      now ← now;
      let object := updated_object input now object in
      write_json (object_json path) object;;
      mret (Some object)
  end.
Definition update_object_metadata (input : UpdateObjectMetadataInput) : St (option Object) :=
  update_object_metadata_locked input.
Definition update_object_metadata_if {E} (input : UpdateObjectMetadataInput)
    (predicate : option Object -> result E unit) : ME (ConditionalError E) Store (option Object) :=
  check_current_object_locked (ui_bucket input) (ui_key input) predicate;;
  store_op (update_object_metadata_locked input).

(** ** Rebuilding the current object *)

Definition latest_of (p : path) (versions : list string) : St (option (Object * string)) :=
  for_each versions None (fun name latest =>
    let version_path := join p name in
    dir ← entry_is_dir version_path;
    if negb dir then mret latest
    else
      o ← read_object (object_json version_path);
      object ← lift (ok_or (missing "read object version metadata") o);
      if match latest with Some (l, _) => stays_latest l object | None => false end then mret latest
      else
        body ← (if delete_marker object then mret "" else io (fs_read (body_file version_path)));
        mret (Some (object, body))).
Definition rebuild_current_object (bucket key : string) : St unit :=
  preserve_current_resumable_upload bucket key;;
  let path := object_path bucket key in
  let versions_dir := join path "versions" in
  entries ← found (fs_read_dir versions_dir);
  match entries with
  | None => remove_dir_all_if_exists path
  | Some entries =>
      latest ← latest_of versions_dir entries;
      match latest with
      | None => remove_dir_all_if_exists path
      | Some (latest, latest_body) =>
          write_json (object_json path) latest;;
          if delete_marker latest then ignore (fs_remove_file (body_file path))
          else write_atomic (body_file path) latest_body
      end
  end.

(** ** Deleting *)

Definition delete_marker_object (bucket key version_id now : string) : Object :=
  mkObject bucket key "" 0 GO_ZERO_TIME now now 0 "" "" "" "" "" ∅ version_id true "" (mkSse "" "" None) no_retention "" "".
Definition versioned (b : Bucket) : bool := str_eqb (versioning b) "Enabled" || str_eqb (versioning b) "Suspended".
Definition delete_object_with_result_locked (bucket key : string) (bypass_governance : bool) : St (Object * bool) :=
  guard_err (negb (valid_bucket_name bucket)) InvalidBucketName;;
  guard_err (negb (valid_object_key key)) InvalidObjectKey;;
  existing_bucket ← the_bucket bucket;
  let path := object_path bucket key in
  there ← exists_ path;
  if negb there then mret (no_object, false)
  else
    current ← read_current_object_metadata bucket key;
    (match current with
     | Some current =>
         (if versioned existing_bucket && delete_marker current then mret tt
          else
            checked_at ← now;
            guard_err (object_lock_prevents_delete current checked_at bypass_governance) ObjectLocked);;
         preserve_resumable_upload_result current (object_json path)
     | None => mret tt
     end);;
    if versioned existing_bucket then
      now ← now;
      version ← (if str_eqb (versioning existing_bucket) "Suspended" then mret NULL_VERSION_ID else new_version_id : St string);
      let marker := delete_marker_object bucket key version now in
      write_json (object_json path) marker;;
      write_object_version path marker "";;
      ignore (fs_remove_file (body_file path));;
      mret (marker, true)
    else
      io (fs_remove_dir_all path);;
      ignore (fs_remove_dir (objects_path bucket));;
      mret (no_object, true).
Definition delete_object_with_result (bucket key : string) (bypass_governance : bool) : St (Object * bool) :=
  delete_object_with_result_locked bucket key bypass_governance.
Definition delete_object (bucket key : string) : St bool :=
  r ← delete_object_with_result bucket key false; mret r.2.
Definition delete_object_if {E} (bucket key : string) (predicate : option Object -> result E unit)
    : ME (ConditionalError E) Store bool :=
  check_current_object_locked bucket key predicate;;
  r ← store_op (delete_object_with_result_locked bucket key false); mret r.2.

Definition delete_object_version (bucket key version_id : string) (bypass_governance : bool) : St (Object * bool) :=
  guard_err (is_empty version_id) VersionIdRequired;;
  require_bucket_and_key bucket key;;
  version_path ← version_dir (object_path bucket key) version_id;
  preserve_current_resumable_upload bucket key;;
  v ← get_object_version bucket key version_id;
  match v with
  | None => mret (no_object, false)
  | Some (object, _) =>
      (if delete_marker object then mret tt
       else
         checked_at ← now;
         guard_err (object_lock_prevents_delete object checked_at bypass_governance) ObjectLocked);;
      snapshot ← is_file (object_json version_path);
      (if (snapshot : bool) then preserve_resumable_upload_result object (object_json version_path) else mret tt);;
      remove_dir_all_if_exists version_path;;
      rebuild_current_object bucket key;;
      mret (object, true)
  end.

(** [claim_resumable_upload_event]: the first claim of a committed result wins. *)
Definition claim_resumable_upload_event `{EqDecision Object} (object : Object) : St bool :=
  receipt ← read_resumable_upload_receipt (resumable_upload_id object);
  guard_err (negb (bool_decide (receipt = Some object))) InvalidUploadId;;
  let path := join [] (".gcs-upload-" +:+ resumable_upload_id object +:+ ".notified") in
  r ← try_io (fs_create_new path);
  match r with
  | inl _ => mret true
  | inr AlreadyExists =>
      n ← io (fs_metadata path);
      match n with File _ => mret false | Dir => fail (Io AlreadyExists) end
  | inr e => fail (Io e)
  end.

(** ** Listing *)

Definition list_objects (bucket prefix : string) : St (option (list Object)) :=
  b ← get_bucket bucket;
  match b with
  | None => mret None
  | Some _ =>
      entries ← found (fs_read_dir (objects_path bucket));
      match entries with
      | None => mret (Some [])
      | Some entries =>
          objects ← for_each entries [] (fun name acc =>
            let p := join (objects_path bucket) name in
            dir ← entry_is_dir p;
            if negb dir then mret acc
            else
              o ← read_object (object_json p);
              object ← lift (ok_or (missing "read object metadata") o);
              mret (if negb (delete_marker object) && starts_with prefix (o_key object)
                    then (acc ++ [object])%list else acc));
          mret (Some (sort_by object_cmp objects))
      end
  end.

(** The object to list, when its key has the prefix. *)
Definition prefixed (prefix : string) (o : option Object) : list Object :=
  match o with Some o => if starts_with prefix (o_key o) then [o] else [] | None => [] end.
Definition listed_versions (prefix : string) (object_dir : path) : St (list Object) :=
  let key_versions_path := join object_dir "versions" in
  entries ← found (fs_read_dir key_versions_path);
  match entries with
  | None => o ← read_object_metadata_for_version_list (object_json object_dir) NULL_VERSION_ID; mret (prefixed prefix o)
  | Some entries =>
      versions ← for_each entries [] (fun name acc =>
        let p := join key_versions_path name in
        dir ← entry_is_dir p;
        if negb dir then mret acc
        else
          o ← read_object (object_json p);
          object ← lift (ok_or (missing "read object version metadata") o);
          mret (acc ++ prefixed prefix (Some object))%list);
      null_there ← exists_ (join key_versions_path NULL_VERSION_ID);
      if (null_there : bool) then mret versions
      else
        o ← read_object_metadata_for_version_list (object_json object_dir) NULL_VERSION_ID;
        mret (versions ++ match o with
                          | Some o => if str_eqb (object_version_id o) NULL_VERSION_ID then prefixed prefix (Some o) else []
                          | None => []
                          end)%list
  end.
Definition list_object_versions (bucket prefix : string) : St (option (list Object)) :=
  b ← get_bucket bucket;
  match b with
  | None => mret None
  | Some _ =>
      entries ← found (fs_read_dir (objects_path bucket));
      match entries with
      | None => mret (Some [])
      | Some entries =>
          versions ← for_each entries [] (fun name acc =>
            let object_dir := join (objects_path bucket) name in
            dir ← entry_is_dir object_dir;
            if negb dir then mret acc
            else v ← listed_versions prefix object_dir; mret (acc ++ v)%list);
          mret (Some (sort_by version_cmp versions))
      end
  end.
End Objects.

(** Multipart uploads: services/s3/src/store_multipart.rs. *)

Section Multipart.
Context `{Disk, Clock, Hashes, Build} `{Codec Bucket, Codec Object, Codec MultipartUpload, Codec MultipartPart}.
Abbreviation St := (ME StoreError Store).

Definition upload_json (bucket upload_id : string) : path := join (multipart_upload_path bucket upload_id) "upload.json".
Definition create_multipart_upload (input : CreateMultipartUploadInput) : St MultipartUpload :=
  require_bucket_and_key (ci_bucket input) (ci_key input);;
  upload_id ← new_version_id;
  created_at ← now;
  let upload :=
    mkUpload (ci_bucket input) (ci_key input) upload_id created_at
      (if is_empty (ci_content_type input) then "application/octet-stream" else ci_content_type input)
      (ci_content_encoding input) (ci_cache_control input) (ci_content_disposition input)
      (clean_metadata (ci_metadata input)) (clean_server_side_encryption (ci_encryption input)) in
  io (fs_create_dir_all (join (multipart_upload_path (ci_bucket input) upload_id) "parts"));;
  write_json (upload_json (ci_bucket input) upload_id) upload;;
  mret upload.

Definition get_multipart_upload (bucket key upload_id : string) : St (option MultipartUpload) :=
  guard_err (negb (valid_upload_id upload_id)) InvalidUploadId;;
  require_bucket_and_key bucket key;;
  upload ← read_json_file (upload_json bucket upload_id);
  mret (match upload with Some u => if str_eqb (u_key u) key then Some u else None | None => None end).

(** [(1..=10000).contains(&n)] *)
Definition valid_part_number (n : Z) : bool := (1 <=? n) && (n <=? 10000).
Definition upload_part (bucket key upload_id : string) (n : Z) (body content_md5 : string) : St MultipartPart :=
  guard_err (negb (valid_part_number n)) InvalidPartNumber;;
  upload ← get_multipart_upload bucket key upload_id;
  guard_err (match upload with Some u => negb (str_eqb (u_key u) key) | None => true end) MultipartUploadNotExist;;
  lift (md5_checked content_md5 body);;
  last_modified ← now;
  let part := mkPart n (md5_etag body) (str_len body) last_modified in
  let path := multipart_part_path bucket upload_id n in
  io (fs_create_dir_all path);;
  write_atomic (body_file path) body;;
  write_json (join path "part.json") part;;
  mret part.

Definition part_cmp (a b : MultipartPart) : comparison := (part_number a ?= part_number b)%Z.
(** The metadata in every directory of [dir]. *)
Definition read_each {T} `{Codec T} (dir : path) (file what : string) (entries : list string) : St (list T) :=
  for_each entries [] (fun name acc =>
    is_dir ← entry_is_dir (join dir name);
    if negb is_dir then mret acc
    else
      x ← read_json_file (join (join dir name) file);
      x ← lift (ok_or (missing what) x);
      mret (acc ++ [x])%list).
Definition read_multipart_parts (bucket upload_id : string) : St (list MultipartPart) :=
  let parts_dir := join (multipart_upload_path bucket upload_id) "parts" in
  entries ← found (fs_read_dir parts_dir);
  match entries with
  | None => mret []
  | Some entries =>
      parts ← read_each parts_dir "part.json" "read multipart part metadata" entries;
      mret (sort_by part_cmp parts)
  end.
Definition list_parts (bucket key upload_id : string) : St (option (MultipartUpload * list MultipartPart)) :=
  upload ← get_multipart_upload bucket key upload_id;
  match upload with
  | None => mret None
  | Some upload => parts ← read_multipart_parts bucket upload_id; mret (Some (upload, parts))
  end.

(** One listed part: its body, when it is there and of the recorded size. *)
Definition read_part (bucket upload_id : string) (n : Z) : St (string * string) :=
  let part_path := multipart_part_path bucket upload_id n in
  part ← read_json_file (T := MultipartPart) (join part_path "part.json");
  part ← lift (ok_or (InvalidPart n) part);
  body ← found (fs_read (body_file part_path));
  body ← lift (ok_or (InvalidPart n) body);
  guard_err (negb (str_len body =? part_size part)) (InvalidPart n);;
  mret (body, part_etag part).
(** The bodies in the order listed, and their etags. *)
Definition gather_parts (bucket upload_id : string) (part_numbers : list Z) : St (string * list string) :=
  for_each part_numbers ("", []) (fun n acc =>
    '(body, tag) ← read_part bucket upload_id n; mret (acc.1 +:+ body, (acc.2 ++ [tag])%list)).
Definition upload_input (upload : MultipartUpload) (body : string) : PutObjectInput :=
  mkPutInput (u_bucket upload) (u_key upload) body "" (u_content_type upload) (u_content_encoding upload)
    (u_cache_control upload) (u_content_disposition upload) (u_metadata upload) (u_encryption upload)
    no_retention "".
Definition complete_multipart_upload_locked (bucket key upload_id : string) (part_numbers : list Z) : St (option Object) :=
  upload ← get_multipart_upload bucket key upload_id;
  match upload with
  | None => mret None
  | Some upload =>
      '(combined, part_etags) ← gather_parts bucket upload_id part_numbers;
      object ← put_object_locked (upload_input upload combined);
      let object := set_etag (multipart_etag part_etags) object in
      let object_path := object_path (u_bucket upload) (u_key upload) in
      write_json (object_json object_path) object;;
      (if negb (is_empty (version_id object)) then write_object_version object_path object combined else mret tt);;
      remove_dir_all_if_exists (multipart_upload_path bucket upload_id);;
      ignore (fs_remove_dir (multipart_path bucket));;
      mret (Some object)
  end.
Definition complete_multipart_upload (bucket key upload_id : string) (part_numbers : list Z) : St (option Object) :=
  complete_multipart_upload_locked bucket key upload_id part_numbers.
Definition complete_multipart_upload_if_absent (bucket key upload_id : string) (part_numbers : list Z)
    : St (option Object) :=
  upload ← get_multipart_upload bucket key upload_id;
  match upload with
  | None => mret None
  | Some _ =>
      there ← current_object_exists bucket key;
      guard_err there PreconditionFailed;;
      complete_multipart_upload_locked bucket key upload_id part_numbers
  end.
Definition abort_multipart_upload (bucket key upload_id : string) : St bool :=
  upload ← get_multipart_upload bucket key upload_id;
  match upload with
  | None => mret false
  | Some _ =>
      remove_dir_all_if_exists (multipart_upload_path bucket upload_id);;
      ignore (fs_remove_dir (multipart_path bucket));;
      mret true
  end.
Definition upload_cmp (a b : MultipartUpload) : comparison :=
  match String.compare (u_key a) (u_key b) with
  | Eq => String.compare (u_upload_id a) (u_upload_id b)
  | other => other
  end.
Definition list_multipart_uploads (bucket : string) : St (option (list MultipartUpload)) :=
  b ← get_bucket bucket;
  match b with
  | None => mret None
  | Some _ =>
      entries ← found (fs_read_dir (multipart_path bucket));
      match entries with
      | None => mret (Some [])
      | Some entries =>
          uploads ← read_each (multipart_path bucket) "upload.json" "read multipart upload metadata" entries;
          mret (Some (sort_by upload_cmp uploads))
      end
  end.
End Multipart.
