(* ===== verification/S3Config.v ===== *)
(** The buckets' sub-resources and the objects' access lists and locks:
    services/s3/src/store_config.rs and store_objectlock.rs. *)

From S2P Require Import Prelude RustStr RustNum RustText SqsTime PubTime S3Codecs Disk S3Store S3Objects.
Local Open Scope string_scope.
Local Open Scope Z_scope.

Record VersioningFile := mkVersioningFile { vf_status : string }.
Record AclFile := mkAclFile { af_acl : string }.

(** A sidecar file under [bucket]. *)
Definition sidecar (bucket file : string) : path := join (bucket_path bucket) file.

Section Config.
Context `{Disk, Clock, Hashes, Build} `{Codec Bucket, Codec Object, Codec VersioningFile, Codec AclFile,
  Codec ObjectLockConfiguration, Codec LifecycleConfiguration}.
Abbreviation St := (ME StoreError Store).

(** [bucket.json] replaced under the bucket's name. *)
Definition save_bucket (bucket : string) (b : Bucket) : St unit := write_json (sidecar bucket "bucket.json") b.
Definition set_versioning (status : string) (b : Bucket) : Bucket :=
  mkBucket (b_name b) (b_created_at b) status (b_acl b) (object_lock_config b).
Definition set_lock_config (config : ObjectLockConfiguration) (b : Bucket) : Bucket :=
  mkBucket (b_name b) (b_created_at b) (versioning b) (b_acl b) config.
Definition set_bucket_acl (acl : string) (b : Bucket) : Bucket :=
  mkBucket (b_name b) (b_created_at b) (versioning b) acl (object_lock_config b).

(** ** Versioning *)

Definition put_bucket_versioning (bucket status : string) : St unit :=
  guard_err (negb (str_eqb status "Enabled") && negb (str_eqb status "Suspended"))
    (Io (Other "invalid versioning status"));;
  existing ← the_bucket bucket;
  save_bucket bucket (set_versioning status existing);;
  write_json (sidecar bucket "versioning.json") (mkVersioningFile status).
Definition get_bucket_versioning (bucket : string) : St (string * bool) :=
  existing ← get_bucket bucket;
  match existing with
  | None => mret ("", false)
  | Some b =>
      if negb (is_empty (versioning b)) then mret (versioning b, true)
      else
        f ← read_json_file (sidecar bucket "versioning.json");
        mret (match f with Some f => vf_status f | None => "" end, true)
  end.

(** ** Object lock *)

Definition put_bucket_object_lock_configuration (bucket : string) (config : ObjectLockConfiguration) : St unit :=
  existing ← the_bucket bucket;
  save_bucket bucket (set_lock_config config existing);;
  write_json (sidecar bucket "object-lock.json") config.
Definition get_bucket_object_lock_configuration (bucket : string) : St (option (ObjectLockConfiguration * bool)) :=
  existing ← get_bucket bucket;
  match existing with
  | None => mret None
  | Some b =>
      if negb (is_empty (object_lock_enabled (object_lock_config b))) then mret (Some (object_lock_config b, true))
      else
        config ← read_json_file (sidecar bucket "object-lock.json");
        mret (Some (match config with Some config => (config, true) | None => (no_lock, false) end))
  end.
Definition delete_bucket_object_lock_configuration (bucket : string) : St bool :=
  existing ← the_bucket bucket;
  save_bucket bucket (set_lock_config no_lock existing);;
  remove_if_exists (sidecar bucket "object-lock.json");;
  mret true.

(** ** Lifecycle *)

Definition no_lifecycle : LifecycleConfiguration := mkLifecycle "" [].
Definition put_bucket_lifecycle (bucket : string) (config : LifecycleConfiguration) : St unit :=
  the_bucket bucket;; write_json (sidecar bucket "lifecycle.json") config.
Definition get_bucket_lifecycle (bucket : string) : St (option (LifecycleConfiguration * bool)) :=
  existing ← get_bucket bucket;
  match existing with
  | None => mret None
  | Some _ =>
      config ← read_json_file (sidecar bucket "lifecycle.json");
      mret (Some (match config with Some config => (config, true) | None => (no_lifecycle, false) end))
  end.
Definition delete_bucket_lifecycle (bucket : string) : St bool :=
  the_bucket bucket;; remove_if_exists (sidecar bucket "lifecycle.json");; mret true.

(** Whether an enabled rule expires [object]: after its days, or at its date. *)
Definition days_passed (rule : LifecycleRule) (object : Object) (now_secs : Z) : result StoreError bool :=
  match expire_days rule, parse_rfc3339 (last_modified object) with
  | Some days, Some (modified, _) =>
      span ← checked_i64 (days * 86400); expires_at ← checked_i64 (modified + span); Ok (expires_at <=? now_secs)
  | _, _ => Ok false
  end.
Definition date_passed (rule : LifecycleRule) (now_secs : Z) : result StoreError bool :=
  if is_empty (expire_date rule) then Ok false
  else
    date ← parse_lifecycle_date (expire_date rule);
    Ok (match date with Some expires_at => expires_at <=? now_secs | None => false end).
Definition rule_expires (rule : LifecycleRule) (object : Object) (now_secs : Z) : result StoreError bool :=
  let prefix := if is_empty (filter_prefix rule) then rule_prefix rule else filter_prefix rule in
  if negb (str_eqb (rule_status rule) "Enabled") then Ok false
  else if negb (is_empty prefix) && negb (starts_with prefix (o_key object)) then Ok false
  else
    passed ← days_passed rule object now_secs;
    if (passed : bool) then Ok true else date_passed rule now_secs.
Fixpoint some_rule_expires (rules : list LifecycleRule) (object : Object) (now_secs : Z) : result StoreError bool :=
  match rules with
  | [] => Ok false
  | rule :: rules =>
      expires ← rule_expires rule object now_secs;
      if (expires : bool) then Ok true else some_rule_expires rules object now_secs
  end.
Definition lifecycle_expires_object (config : LifecycleConfiguration) (object : Object) (now : string) : result StoreError bool :=
  match parse_rfc3339 now with
  | None => Ok false
  | Some (now_secs, _) => some_rule_expires (lc_rules config) object now_secs
  end.
(** A locked object is skipped. *)
Definition expire_object (object : Object) : St Z :=
  r ← catch (delete_object_with_result (o_bucket object) (o_key object) false);
  match r with
  | inl (_, deleted) => mret (if (deleted : bool) then 1 else 0)
  | inr ObjectLocked => mret 0
  | inr e => fail e
  end.
Definition apply_bucket_lifecycle (bucket now : string) : St (Z * bool) :=
  config ← get_bucket_lifecycle bucket;
  match config with
  | None => mret (0, false)
  | Some (_, false) => mret (0, true)
  | Some (config, true) =>
      objects ← list_objects bucket "";
      match objects with
      | None => mret (0, false)
      | Some objects =>
          expired ← for_each objects 0 (fun object expired =>
            expires ← lift (lifecycle_expires_object config object now);
            if (expires : bool) then n ← expire_object object; mret (expired + n)
            else mret expired);
          mret (expired, true)
      end
  end.

(** ** Policy *)

Definition put_bucket_policy (bucket policy : string) : St unit :=
  the_bucket bucket;; io (fs_write (sidecar bucket "policy.json") policy).
Definition get_bucket_policy (bucket : string) : St (option (string * bool)) :=
  existing ← get_bucket bucket;
  match existing with
  | None => mret None
  | Some _ =>
      data ← found (fs_read (sidecar bucket "policy.json"));
      mret (Some (match data with Some data => (data, true) | None => ("", false) end))
  end.
Definition delete_bucket_policy (bucket : string) : St bool :=
  the_bucket bucket;; remove_if_exists (sidecar bucket "policy.json");; mret true.

(** ** Access lists *)

Definition put_bucket_acl (bucket acl : string) : St unit :=
  existing ← the_bucket bucket;
  save_bucket bucket (set_bucket_acl acl existing);;
  write_json (sidecar bucket "acl.json") (mkAclFile acl).
Definition acl_or_private (f : option AclFile) : string :=
  match f with Some f => if is_empty (af_acl f) then "private" else af_acl f | None => "private" end.
Definition get_bucket_acl (bucket : string) : St (option string) :=
  existing ← get_bucket bucket;
  match existing with
  | None => mret None
  | Some b =>
      if negb (is_empty (b_acl b)) then mret (Some (b_acl b))
      else f ← read_json_file (sidecar bucket "acl.json"); mret (Some (acl_or_private f))
  end.

(** The object or version a lock or access call is about, its receipt kept. *)
Definition object_for_update (bucket key version_id : string) : St (option (Object * string)) :=
  require_bucket_and_key bucket key;;
  (if is_empty version_id then mret tt else version_dir (object_path bucket key) version_id;; mret tt);;
  preserve_current_resumable_upload bucket key;;
  found ← get_object_version bucket key version_id;
  match found with
  | None => mret None
  | Some (object, body) =>
      (if is_empty version_id then mret tt
       else
         p ← version_dir (object_path bucket key) version_id;
         snapshot ← is_file (object_json p);
         if (snapshot : bool) then preserve_resumable_upload_result object (object_json p) else mret tt);;
      mret (Some (object, body))
  end.
Definition put_object_acl (bucket key version_id acl : string) : St bool :=
  found ← object_for_update bucket key version_id;
  match found with
  | None => mret false
  | Some (object, body) =>
      let object := set_acl acl object in
      let body := if delete_marker object then "" else body in
      if negb (is_empty version_id) then
        p ← version_dir (object_path bucket key) version_id;
        write_json (object_json p) object;;
        mret true
      else
        let path := object_path bucket key in
        write_json (object_json path) object;;
        (if negb (is_empty (S3Store.version_id object)) then write_object_version path object body else mret tt);;
        write_json (join path "acl.json") (mkAclFile acl);;
        mret true
  end.
Definition get_object_acl (bucket key version_id : string) : St (option string) :=
  found ← get_object_version bucket key version_id;
  match found with
  | None => mret None
  | Some (object, _) =>
      if negb (is_empty (acl object)) then mret (Some (acl object))
      else f ← read_json_file (join (object_path bucket key) "acl.json"); mret (Some (acl_or_private f))
  end.

(** ** Retention and legal hold *)

Definition update_object_lock_metadata (bucket key version_id : string) (update : Object -> Object) : St (option Object) :=
  found ← object_for_update bucket key version_id;
  match found with
  | None => mret None
  | Some (object, body) =>
      let object := update object in
      let body := if delete_marker object then "" else body in
      (if negb (is_empty version_id) then
         p ← version_dir (object_path bucket key) version_id; write_json (object_json p) object
       else write_json (object_json (object_path bucket key)) object);;
      (if negb (is_empty (S3Store.version_id object)) then write_object_version (object_path bucket key) object body
       else mret tt);;
      mret (Some object)
  end.
Definition put_object_retention (bucket key version_id : string) (r : ObjectRetention) : St (option Object) :=
  update_object_lock_metadata bucket key version_id (set_retention (clean_object_retention r)).
Definition get_object_retention (bucket key version_id : string) : St (option ObjectRetention) :=
  found ← get_object_version bucket key version_id;
  mret (match found with Some (o, _) => Some (clean_object_retention (retention o)) | None => None end).
Definition put_object_legal_hold (bucket key version_id status : string) : St (option Object) :=
  update_object_lock_metadata bucket key version_id (set_legal_hold (clean_object_legal_hold status)).
Definition get_object_legal_hold (bucket key version_id : string) : St (option string) :=
  found ← get_object_version bucket key version_id;
  mret (match found with Some (o, _) => Some (clean_object_legal_hold (legal_hold o)) | None => None end).
End Config.
