(* ===== verification/S3Xml.v ===== *)
(** XML as the S3 service writes and reads it: the serialiser of services/s3/src/xml.rs,
    the scanner of cors.rs for the blocks of a tag, and that the scanner finds in a
    document what the serialiser wrote there. *)

From S2P Require Import Prelude RustStr RustNum RustText.
Local Open Scope string_scope.

(** ** Writing *)

Inductive Content (E : Type) := Empty | Text (t : string) | Children (l : list E).
Arguments Empty {E}.
Arguments Text {E} t.
Arguments Children {E} l.
Inductive Element := mkElement { e_name : string; e_attrs : list (string * string); e_content : Content Element }.

Definition Element_new (name : string) : Element := mkElement name [] Empty.
Definition attr (e : Element) (name value : string) : Element :=
  mkElement (e_name e) (e_attrs e ++ [(name, value)])%list (e_content e).
Definition text (e : Element) (value : string) : Element := mkElement (e_name e) (e_attrs e) (Text value).
(** A child added to a text replaces it. *)
Definition child (e c : Element) : Element :=
  mkElement (e_name e) (e_attrs e)
    (Children (match e_content e with Children l => l ++ [c] | _ => [c] end)%list).
Definition text_child (e : Element) (name value : string) : Element := child e (text (Element_new name) value).

(** The bytes escaped are ASCII, so escaping bytes is escaping characters. *)
Definition escaped_char (c : ascii) : string :=
  if Ascii.eqb c "&" then "&amp;" else if Ascii.eqb c "<" then "&lt;" else if Ascii.eqb c ">" then "&gt;"
  else if Ascii.eqb c dquote then "&#34;" else if Ascii.eqb c "'" then "&#39;"
  else if Ascii.eqb c (of_byte 9) then "&#x9;" else if Ascii.eqb c lf then "&#xA;"
  else if Ascii.eqb c cr then "&#xD;" else char_str c.
(** Every byte replaced by a string. *)
Fixpoint flat (f : ascii -> string) (s : string) : string :=
  match s with EmptyString => "" | String c s => f c +:+ flat f s end.
Definition escape : string -> string := flat escaped_char.

Definition write_attr (a : string * string) : string :=
  " " +:+ a.1 +:+ "=" +:+ char_str dquote +:+ escape a.2 +:+ char_str dquote.
Fixpoint write (e : Element) : string :=
  match e with
  | mkElement name attrs content =>
      "<" +:+ name +:+ str_concat (map write_attr attrs) +:+ ">"
      +:+ match content with Empty => "" | Text t => escape t | Children l => str_concat (map write l) end
      +:+ "</" +:+ name +:+ ">"
  end.

(** ** Reading *)

(** [s.replace(pat, to)] for a pattern that is not empty. *)
Fixpoint replace_go (fuel : nat) (pat to s : string) : string :=
  match fuel with
  | O => s
  | S fuel =>
      match strip_prefix pat s, s with
      | Some r, _ => to +:+ replace_go fuel pat to r
      | None, EmptyString => ""
      | None, String c s => String c (replace_go fuel pat to s)
      end
  end.
Definition str_replace (pat to s : string) : string := replace_go (S (String.length s)) pat to s.

Definition xml_unescape (value : string) : string :=
  str_replace "&amp;" "&" (str_replace "&apos;" "'" (str_replace "&quot;" (char_str dquote)
    (str_replace "&gt;" ">" (str_replace "&lt;" "<" value)))).

Fixpoint blocks_go (fuel : nat) (open close rest : string) : list string :=
  match fuel with
  | O => []
  | S fuel =>
      match split_once open rest with
      | None => []
      | Some (_, inner) =>
          match split_once close inner with
          | None => []
          | Some (block, rest) => block :: blocks_go fuel open close rest
          end
      end
  end.
Definition xml_blocks (xml tag : string) : list string :=
  blocks_go (S (String.length xml)) ("<" +:+ tag +:+ ">") ("</" +:+ tag +:+ ">") xml.
Definition xml_values (xml tag : string) : list string := map (fun v => xml_unescape (trim v)) (xml_blocks xml tag).

(** ** Escaping is undone by unescaping *)

Section Replace.
Context (pat to : string) (Hpat : pat <> "").

Lemma replace_go_fuel f1 f2 s :
  (String.length s < f1)%nat -> (String.length s < f2)%nat -> replace_go f1 pat to s = replace_go f2 pat to s.
Proof.
  revert f2 s. induction f1 as [|f1 IH]; intros [|f2] s H1 H2; [lia..|]. cbn [replace_go].
  destruct (strip_prefix pat s) as [r|] eqn:E.
  - apply strip_prefix_Some in E. subst s. rewrite str_length_app in *. destruct pat as [|c p]; [done|].
    simpl in *. f_equal. apply IH; lia.
  - destruct s as [|c s]; [done|]. simpl in *. f_equal. apply IH; lia.
Qed.
Lemma replace_hit r : str_replace pat to (pat +:+ r) = to +:+ str_replace pat to r.
Proof.
  unfold str_replace at 1. cbn [replace_go]. rewrite strip_prefix_app. f_equal.
  apply replace_go_fuel; rewrite ?str_length_app; [|lia]. destruct pat; [done|]. simpl. lia.
Qed.
Lemma replace_miss c s : strip_prefix pat (String c s) = None ->
  str_replace pat to (String c s) = String c (str_replace pat to s).
Proof. intros E. unfold str_replace at 1. cbn [replace_go]. by rewrite E. Qed.
Lemma replace_nil : str_replace pat to "" = "".
Proof. unfold str_replace. simpl. by destruct pat. Qed.
End Replace.

(** Bytes before the first of the pattern stay. *)
Lemma replace_free x p to l r : free_of x l ->
  str_replace (String x p) to (l +:+ r) = l +:+ str_replace (String x p) to r.
Proof.
  induction l as [|c l IH]; [done|]. intros [Hc Hl]%andb_true_iff. apply negb_true_iff in Hc.
  rewrite !str_app_cons, replace_miss; [by rewrite IH|]. cbn [strip_prefix]. by rewrite Hc.
Qed.
(** So does an entity that is not the pattern. *)
Lemma replace_other x p to l r : strip_prefix (String x p) (String x l +:+ r) = None -> free_of x l ->
  str_replace (String x p) to (String x l +:+ r) = String x l +:+ str_replace (String x p) to r.
Proof. intros E Hl. rewrite str_app_cons in *. rewrite replace_miss by done. by rewrite replace_free. Qed.

(** One pass takes the text written by [f] to the text written by [g]. *)
Lemma replace_stage x p to f g (ok : ascii -> bool) s :
  (forall c r, ok c = true -> str_replace (String x p) to (f c +:+ r) = g c +:+ str_replace (String x p) to r) ->
  str_all ok s = true -> str_replace (String x p) to (flat f s) = flat g s.
Proof.
  intros Hfg. induction s as [|c s IH]; [by rewrite replace_nil|]. intros [Hc Hs]%andb_true_iff.
  cbn [flat]. by rewrite Hfg, IH.
Qed.

(** Bytes [xml_unescape] gets back: the others are written as numeric references. *)
Definition named (c : ascii) : bool :=
  negb (Ascii.eqb c dquote || Ascii.eqb c "'" || Ascii.eqb c (of_byte 9) || Ascii.eqb c lf || Ascii.eqb c cr).
Definition amp_gt (c : ascii) : string := if Ascii.eqb c "&" then "&amp;" else if Ascii.eqb c ">" then "&gt;" else char_str c.
Definition amp_only (c : ascii) : string := if Ascii.eqb c "&" then "&amp;" else char_str c.

Lemma escaped_named c : named c = true ->
  escaped_char c = if Ascii.eqb c "&" then "&amp;" else if Ascii.eqb c "<" then "&lt;" else if Ascii.eqb c ">" then "&gt;"
                   else char_str c.
Proof.
  unfold named. rewrite negb_true_iff, !orb_false_iff. intros [[[[E1 E2] E3] E4] E5].
  unfold escaped_char. by rewrite E1, E2, E3, E4, E5.
Qed.

Lemma replace_plain x p to c r : c <> x ->
  str_replace (String x p) to (char_str c +:+ r) = char_str c +:+ str_replace (String x p) to r.
Proof. intros Hc. apply replace_free. unfold free_of. cbn. destruct (Ascii.eqb_spec x c); [congruence|done]. Qed.
Ltac replace_step :=
  repeat match goal with |- context [Ascii.eqb ?c ?d] => is_var c; destruct (Ascii.eqb_spec c d) as [->|] end;
  cbn [Ascii.eqb Bool.eqb]; try done;
  first [ by apply (replace_hit _ _) | by apply replace_other | by apply replace_plain ].

Lemma unescape_escape s : str_all named s = true -> xml_unescape (escape s) = s.
Proof.
  intros Hs. unfold xml_unescape, escape.
  rewrite (replace_stage _ _ _ escaped_char amp_gt named); [|intros c r Hc|done].
  2: { rewrite escaped_named by done. unfold amp_gt. replace_step. }
  rewrite (replace_stage _ _ _ amp_gt amp_only named); [|intros c r Hc|done].
  2: { unfold amp_gt, amp_only. replace_step. }
  assert (forall p to, (forall r, strip_prefix (String "&" p) ("&amp;" +:+ r) = None) ->
    str_replace (String "&" p) to (flat amp_only s) = flat amp_only s) as Hskip.
  { intros p to E. apply (replace_stage _ _ _ _ _ named); [|done]. intros c r _. unfold amp_only.
    destruct (Ascii.eqb_spec c "&") as [->|Hc]; [by apply replace_other|by apply replace_plain]. }
  rewrite !Hskip by done. rewrite (replace_stage _ _ _ amp_only char_str named); [|intros c r Hc|done].
  - clear. induction s as [|c s IH]; [done|]. cbn [flat]. by rewrite IH.
  - unfold amp_only. replace_step.
Qed.

(** ** The scanner finds what the serialiser wrote *)

Definition open_tag (t : string) : string := String "<" (t +:+ ">").
Definition close_tag (t : string) : string := String "<" ("/" +:+ t +:+ ">").
(** A name that opens no closing tag and ends where its tag ends. *)
Definition tag_name (t : string) : Prop :=
  free_of "<" t /\ free_of ">" t /\ match t with String c _ => c <> "/"%char | EmptyString => False end.
(** An element with the text [v] as written. *)
Definition field (f : string * string) : string := open_tag f.1 +:+ f.2 +:+ close_tag f.1.

(** The search for [pat] passes over [l]. *)
Definition skips (pat l : string) : Prop := forall r,
  split_once pat (l +:+ r) = match split_once pat r with Some (a, b) => Some (l +:+ a, b) | None => None end.

Lemma skips_nil pat : skips pat "".
Proof. intros r. rewrite str_app_nil_l. by destruct (split_once pat r) as [[]|]. Qed.
Lemma skips_app pat l l' : skips pat l -> skips pat l' -> skips pat (l +:+ l').
Proof.
  intros Hl Hl' r. rewrite str_app_assoc, Hl, Hl'. destruct (split_once pat r) as [[a b]|]; [|done]. by rewrite str_app_assoc.
Qed.
Lemma skips_free x pat l : free_of x l -> skips (String x pat) l.
Proof. intros Hl r. by apply split_once_skip. Qed.
Lemma skips_miss x pat l : (forall r, strip_prefix pat (l +:+ r) = None) -> free_of x l -> skips (String x pat) (String x l).
Proof.
  intros E Hl r. rewrite str_app_cons. cbn [split_once strip_prefix]. rewrite Ascii.eqb_refl, E, (split_once_skip x pat l r Hl).
  by destruct (split_once (String x pat) r) as [[]|].
Qed.
Lemma split_once_here pat r : pat <> "" -> split_once pat (pat +:+ r) = Some ("", r).
Proof. destruct pat as [|c p]; [done|]. intros _. rewrite str_app_cons. cbn [split_once]. by rewrite <- str_app_cons, strip_prefix_app. Qed.
Lemma split_once_after pat l r : pat <> "" -> skips pat l -> split_once pat (l +:+ pat +:+ r) = Some (l, r).
Proof. intros Hp Hl. by rewrite Hl, split_once_here, str_app_nil_r by done. Qed.

(** Two names followed by a [>] are prefixes of one text only when they are equal. *)
Lemma names_differ t t' r : free_of ">" t -> free_of ">" t' -> t <> t' -> strip_prefix (t +:+ ">") ((t' +:+ ">") +:+ r) = None.
Proof.
  intros Ht Ht' Hne. destruct (strip_prefix _ _) as [r'|] eqn:E; [|done]. apply strip_prefix_Some in E. destruct Hne.
  rewrite !str_app_assoc in E. by apply (cut_first ">") in E as [-> _].
Qed.

Section Tags.
Context (t t' : string) (Ht : tag_name t) (Ht' : tag_name t').
Lemma open_skips_open : t <> t' -> skips (open_tag t) (open_tag t').
Proof.
  destruct Ht as (_ & Hg & _), Ht' as (Hl & Hg' & _). intros Hne. apply skips_miss.
  - intros r. by apply names_differ.
  - unfold free_of in *. by rewrite str_all_app, Hl.
Qed.
Lemma open_skips_close : skips (open_tag t) (close_tag t').
Proof.
  destruct Ht as (_ & _ & Hc), Ht' as (Hl & _ & _). apply skips_miss.
  - intros r. destruct t as [|c u]; [done|]. rewrite !str_app_cons. cbn [strip_prefix]. by destruct (Ascii.eqb_spec c "/").
  - unfold free_of in *. by rewrite !str_all_app, Hl.
Qed.
Lemma close_skips_open : skips (close_tag t) (open_tag t').
Proof.
  destruct Ht' as (Hl & _ & Hc). apply skips_miss.
  - intros r. destruct t' as [|c u]; [done|]. rewrite !str_app_cons. cbn [strip_prefix].
    by destruct (Ascii.eqb_spec "/" c) as [<-|].
  - unfold free_of in *. by rewrite str_all_app, Hl.
Qed.
Lemma close_skips_close : t <> t' -> skips (close_tag t) (close_tag t').
Proof.
  destruct Ht as (_ & Hg & _), Ht' as (Hl & Hg' & _). intros Hne. apply skips_miss.
  - intros r. rewrite !str_app_cons. cbn [strip_prefix]. rewrite Ascii.eqb_refl, !str_app_nil_l. by apply names_differ.
  - unfold free_of in *. by rewrite !str_all_app, Hl.
Qed.
End Tags.

Lemma open_skips_field t f : tag_name t -> tag_name f.1 -> free_of "<" f.2 -> t <> f.1 -> skips (open_tag t) (field f).
Proof.
  intros. unfold field. repeat apply skips_app; [by apply open_skips_open|by apply skips_free|by apply open_skips_close].
Qed.
Lemma close_skips_field t f : tag_name t -> tag_name f.1 -> free_of "<" f.2 -> t <> f.1 -> skips (close_tag t) (field f).
Proof.
  intros. unfold field. repeat apply skips_app; [by apply close_skips_open|by apply skips_free|by apply close_skips_close].
Qed.

(** *** The blocks of a tag *)

Lemma blocks_go_fuel f1 f2 t s : (String.length s < f1)%nat -> (String.length s < f2)%nat ->
  blocks_go f1 (open_tag t) (close_tag t) s = blocks_go f2 (open_tag t) (close_tag t) s.
Proof.
  revert f2 s. induction f1 as [|f1 IH]; intros [|f2] s H1 H2; [lia..|]. cbn [blocks_go].
  destruct (split_once (open_tag t) s) as [[a inner]|] eqn:E; [|done].
  destruct (split_once (close_tag t) inner) as [[v r]|] eqn:E'; [|done]. f_equal.
  apply split_once_Some in E, E'. subst s inner. rewrite !str_length_app in H1, H2. simpl in H1, H2. apply IH; lia.
Qed.
Lemma xml_blocks_unfold s t : xml_blocks s t = match split_once (open_tag t) s with
  | Some (_, inner) => match split_once (close_tag t) inner with Some (v, r) => v :: xml_blocks r t | None => [] end
  | None => [] end.
Proof.
  unfold xml_blocks at 1. change ("<" +:+ t +:+ ">") with (open_tag t). change ("</" +:+ t +:+ ">") with (close_tag t).
  cbn [blocks_go]. destruct (split_once (open_tag t) s) as [[a inner]|] eqn:E; [|done].
  destruct (split_once (close_tag t) inner) as [[v r]|] eqn:E'; [|done]. f_equal.
  apply split_once_Some in E, E'. subst s inner. rewrite !str_length_app. simpl. apply blocks_go_fuel; lia.
Qed.
Lemma xml_blocks_skip l r t : skips (open_tag t) l -> xml_blocks (l +:+ r) t = xml_blocks r t.
Proof. intros Hl. rewrite !xml_blocks_unfold, Hl. by destruct (split_once (open_tag t) r) as [[]|]. Qed.
Lemma xml_blocks_block v r t : skips (close_tag t) v -> xml_blocks (field (t, v) +:+ r) t = v :: xml_blocks r t.
Proof.
  intros Hv. rewrite xml_blocks_unfold. unfold field. simpl fst. simpl snd. rewrite !str_app_assoc, split_once_here by done.
  by rewrite split_once_after.
Qed.
Lemma xml_blocks_nil t : xml_blocks "" t = [].
Proof. rewrite xml_blocks_unfold. done. Qed.

(** The texts under [t] among elements of text alone. *)
Lemma xml_blocks_fields fs r t : tag_name t -> Forall (fun f => tag_name f.1 /\ free_of "<" f.2) fs ->
  xml_blocks (str_concat (map field fs) +:+ r) t = (map snd (List.filter (fun f => str_eqb f.1 t) fs) ++ xml_blocks r t)%list.
Proof.
  intros Ht. induction 1 as [|f fs [Hf Hv] _ IH]; [done|]. simpl. rewrite str_app_assoc.
  destruct (str_eqb f.1 t) eqn:E.
  - apply str_eqb_true in E. destruct f as [t' v]. simpl in *. subst t'.
    rewrite xml_blocks_block by by apply skips_free. by rewrite IH.
  - rewrite xml_blocks_skip, IH; [done|]. apply open_skips_field; try done. intros ->. by rewrite (proj2 (str_eqb_true _ _)) in E.
Qed.
(** Elements of other names hold no end tag of [t]. *)
Lemma close_skips_fields fs t : tag_name t -> Forall (fun f => tag_name f.1 /\ free_of "<" f.2 /\ t <> f.1) fs ->
  skips (close_tag t) (str_concat (map field fs)).
Proof.
  intros Ht. induction 1 as [|f fs (Hf & Hv & Hne) _ IH]; simpl; [apply skips_nil|].
  apply skips_app; [by apply close_skips_field|done].
Qed.
Lemma escape_free s : free_of "<" (escape s).
Proof.
  unfold free_of, escape. induction s as [|c s IH]; [done|]. cbn [flat]. rewrite str_all_app, IH, andb_true_r.
  unfold escaped_char. repeat match goal with |- context [Ascii.eqb c ?d] => destruct (Ascii.eqb_spec c d); [done|] end.
  cbn [str_all char_str]. unfold compose. by destruct (Ascii.eqb_spec "<" c); [congruence|].
Qed.
