(* ===== verification/S3Cors.v ===== *)
(** Cross-origin rules of the S3 service (services/s3/src/cors.rs): reading and writing
    the configuration document, choosing the rule of a request, and the headers of its
    answer; that a configuration is read back as written, and that what is answered can
    not break out of its header line. *)

From S2P Require Import Prelude RustStr RustNum RustText S3Xml.
Local Open Scope string_scope.
Local Open Scope Z_scope.

Definition XMLNS : string := "http://s3.amazonaws.com/doc/2006-03-01/".
Definition MAX_RULES : Z := 100.
Definition ALLOWED_METHODS : list string := ["GET"; "PUT"; "POST"; "DELETE"; "HEAD"].
Definition DEFAULT_RULE_MAX_AGE_SECONDS : Z := 3600.
Definition DEFAULT_RULE_EXPOSE_HEADERS : list string :=
  ["ETag"; "Content-Range"; "Accept-Ranges"; "x-amz-version-id"; "x-amz-delete-marker"].

Record CorsRule := mkCorsRule {
  cr_id : string; allowed_origins : list string; allowed_methods : list string; allowed_headers : list string;
  expose_headers : list string; max_age_seconds : option Z }.
Record CorsConfiguration := mkCors { cors_rules : list CorsRule }.

Definition default_rule (origins : list string) : option CorsRule :=
  match origins with
  | [] => None
  | _ => Some (mkCorsRule "" origins ALLOWED_METHODS ["*"] DEFAULT_RULE_EXPOSE_HEADERS (Some DEFAULT_RULE_MAX_AGE_SECONDS))
  end.

(** ** The document *)

Definition MALFORMED : string := "the XML is not well-formed or does not match the CORS schema".
Definition is_header_name (value : string) : bool :=
  negb (is_empty value)
  && str_all (fun b => is_ascii_alphanumeric b || str_any (Ascii.eqb b) "!#$%&'+-.^_`|~") value.
(** [v.matches('*').count()] *)
Fixpoint stars (v : string) : Z :=
  match v with EmptyString => 0 | String c v => (if Ascii.eqb c "*" then 1 else 0) + stars v end.

Definition validate_rule (rule : CorsRule) : result string unit :=
  if match allowed_origins rule with [] => true | _ => false end
     || match allowed_methods rule with [] => true | _ => false end
  then Err "each CORSRule needs an AllowedOrigin and an AllowedMethod"
  else if negb (forallb (fun m => existsb (str_eqb m) ALLOWED_METHODS) (allowed_methods rule))
  then Err "AllowedMethod must be one of GET, PUT, POST, DELETE, HEAD"
  else if existsb (fun v => 1 <? stars v) (allowed_origins rule ++ allowed_headers rule)
  then Err "AllowedOrigin and AllowedHeader may contain one wildcard"
  else if existsb (contains "*") (expose_headers rule) then Err "ExposeHeader may not contain a wildcard"
  else if negb (forallb is_header_name (expose_headers rule)) then Err "ExposeHeader must be a valid HTTP header name"
  else Ok tt.
Definition validate (rules : list CorsRule) : result string unit :=
  if match rules with [] => true | _ => false end || (MAX_RULES <? Z.of_nat (length rules))
  then Err "a CORS configuration must have between 1 and 100 rules"
  else try_each validate_rule rules.

(** One [<CORSRule>] block. *)
Definition parse_rule (block : string) : result string CorsRule :=
  max_age_seconds ← match xml_blocks block "MaxAgeSeconds" with
                    | value :: _ => n ← ok_or MALFORMED (parse_u32 (trim value)); Ok (Some n)
                    | [] => Ok None
                    end;
  Ok (mkCorsRule (default "" (head (xml_values block "ID"))) (xml_values block "AllowedOrigin")
        (xml_values block "AllowedMethod") (xml_values block "AllowedHeader") (xml_values block "ExposeHeader")
        max_age_seconds).
Fixpoint parse_rules (blocks : list string) : result string (list CorsRule) :=
  match blocks with
  | [] => Ok []
  | block :: blocks => rule ← parse_rule block; rules ← parse_rules blocks; Ok (rule :: rules)
  end.
Definition parse_configuration (body : string) : result string CorsConfiguration :=
  if negb (utf8_valid body) then Err MALFORMED
  else if negb (contains "<CORSConfiguration" body) then Err MALFORMED
  else
    rules ← parse_rules (xml_blocks body "CORSRule");
    _ ← validate rules;
    Ok (mkCors rules).

Definition text_children (tag : string) (values : list string) (e : Element) : Element :=
  foldl (fun e v => text_child e tag v) e values.
Definition rule_element (rule : CorsRule) : Element :=
  let e := Element_new "CORSRule" in
  let e := if is_empty (cr_id rule) then e else text_child e "ID" (cr_id rule) in
  let e := text_children "ExposeHeader" (expose_headers rule) (text_children "AllowedHeader" (allowed_headers rule)
             (text_children "AllowedMethod" (allowed_methods rule) (text_children "AllowedOrigin" (allowed_origins rule) e))) in
  match max_age_seconds rule with Some n => text_child e "MaxAgeSeconds" (show_Z n) | None => e end.
Definition configuration_element (config : CorsConfiguration) : Element :=
  foldl (fun root rule => child root (rule_element rule)) (attr (Element_new "CORSConfiguration") "xmlns" XMLNS)
    (cors_rules config).
Definition configuration_xml (config : CorsConfiguration) : string := write (configuration_element config).

(** ** Requests *)

Definition wildcard_match (pattern value : string) : bool :=
  match split_once "*" pattern with
  | Some (prefix, suffix) =>
      (str_len prefix + str_len suffix <=? str_len value) && starts_with prefix value && ends_with suffix value
  | None => str_eqb pattern value
  end.
Definition allows (origin method : string) (request_headers : list string) (rule : CorsRule) : bool :=
  existsb (str_eqb method) (allowed_methods rule)
  && existsb (fun pattern => wildcard_match pattern origin) (allowed_origins rule)
  && forallb (fun header =>
       existsb (fun pattern => wildcard_match (to_ascii_lowercase pattern) (to_ascii_lowercase header)) (allowed_headers rule))
       request_headers.
Definition find_rule (rules : list CorsRule) (origin method : string) (request_headers : list string) : option CorsRule :=
  List.find (allows origin method request_headers) rules.

Definition response_headers (rule : CorsRule) (origin : string) : list (string * string) :=
  let any_origin := existsb (str_eqb "*") (allowed_origins rule) in
  ([("Access-Control-Allow-Origin", if any_origin then "*" else origin);
    ("Access-Control-Allow-Methods", str_join ", " (allowed_methods rule))]
   ++ (if any_origin then [] else [("Access-Control-Allow-Credentials", "true")])
   ++ (match expose_headers rule with [] => [] | hs => [("Access-Control-Expose-Headers", str_join ", " hs)] end)
   ++ (match max_age_seconds rule with Some n => [("Access-Control-Max-Age", show_Z n)] | None => [] end))%list.

(** ** A configuration is read back as it was written *)

(** Graphic ASCII without quotes: the service writes quotes, tabs and line ends as
    numeric references, which it does not read back. *)
Definition plain_char (c : ascii) : bool := graphic c && negb (Ascii.eqb c dquote) && negb (Ascii.eqb c "'").
Definition plain (s : string) : bool := str_all plain_char s.
Definition rule_plain (rule : CorsRule) : Prop :=
  plain (cr_id rule) = true
  /\ Forall (fun v => plain v = true) (allowed_origins rule ++ allowed_headers rule ++ expose_headers rule)
  /\ from_option (fun n => 0 <= n < 2 ^ 32) True (max_age_seconds rule).

(** *** The document as text *)

Definition with_children (name : string) (attrs : list (string * string)) (l : list Element) : Element :=
  mkElement name attrs (match l with [] => Empty | _ => Children l end).
Lemma child_with name attrs l c : child (with_children name attrs l) c = with_children name attrs (l ++ [c]).
Proof. unfold child, with_children. simpl. by destruct l. Qed.
Lemma text_children_with tag vs name attrs l :
  text_children tag vs (with_children name attrs l)
  = with_children name attrs (l ++ map (fun v => text (Element_new tag) v) vs).
Proof.
  unfold text_children. revert l. induction vs as [|v vs IH]; intros l; simpl; [by rewrite app_nil_r|].
  unfold text_child. rewrite child_with, IH. by rewrite <- app_assoc.
Qed.
Lemma write_with name attrs l : write (with_children name attrs l)
  = "<" +:+ name +:+ str_concat (map write_attr attrs) +:+ ">" +:+ str_concat (map write l) +:+ "</" +:+ name +:+ ">".
Proof. unfold with_children. by destruct l. Qed.
Lemma write_text tag v : write (text (Element_new tag) v) = field (tag, escape v).
Proof.
  unfold field, open_tag, close_tag, text, Element_new. cbn [write e_name e_attrs fst snd].
  change (String "<" (tag +:+ ">")) with ("<" +:+ tag +:+ ">"). by rewrite !str_app_assoc.
Qed.

Definition values_of (tag : string) (vs : list string) : list (string * string) := map (fun v => (tag, escape v)) vs.
Definition rule_fields (rule : CorsRule) : list (string * string) :=
  values_of "ID" (if is_empty (cr_id rule) then [] else [cr_id rule]) ++ values_of "AllowedOrigin" (allowed_origins rule)
  ++ values_of "AllowedMethod" (allowed_methods rule) ++ values_of "AllowedHeader" (allowed_headers rule)
  ++ values_of "ExposeHeader" (expose_headers rule)
  ++ values_of "MaxAgeSeconds" (option_list (show_Z <$> max_age_seconds rule)).
Definition rule_text (rule : CorsRule) : string := str_concat (map field (rule_fields rule)).

Lemma rule_element_eq rule : rule_element rule = with_children "CORSRule" []
  (map (fun v => text (Element_new "ID") v) (if is_empty (cr_id rule) then [] else [cr_id rule])
   ++ map (fun v => text (Element_new "AllowedOrigin") v) (allowed_origins rule)
   ++ map (fun v => text (Element_new "AllowedMethod") v) (allowed_methods rule)
   ++ map (fun v => text (Element_new "AllowedHeader") v) (allowed_headers rule)
   ++ map (fun v => text (Element_new "ExposeHeader") v) (expose_headers rule)
   ++ map (fun v => text (Element_new "MaxAgeSeconds") v) (option_list (show_Z <$> max_age_seconds rule))).
Proof.
  unfold rule_element. change (Element_new "CORSRule") with (with_children "CORSRule" [] []).
  assert ((if is_empty (cr_id rule) then with_children "CORSRule" [] []
           else text_child (with_children "CORSRule" [] []) "ID" (cr_id rule))
          = text_children "ID" (if is_empty (cr_id rule) then [] else [cr_id rule]) (with_children "CORSRule" [] [])) as ->
    by by destruct (is_empty _).
  rewrite !text_children_with. simpl. destruct (max_age_seconds rule) as [n|]; simpl.
  - unfold text_child. rewrite child_with. by rewrite <- !app_assoc.
  - by rewrite app_nil_r, <- !app_assoc.
Qed.
Lemma write_rule rule : write (rule_element rule) = field ("CORSRule", rule_text rule).
Proof.
  rewrite rule_element_eq, write_with. unfold field, open_tag, close_tag, rule_text, rule_fields, values_of.
  cbn [fst snd map str_concat foldr].
  rewrite !map_app, !map_map. assert (forall tag vs, map (fun v => write (text (Element_new tag) v)) vs
    = map (fun v => field (tag, escape v)) vs) as Hm by (intros; apply map_ext; intros; apply write_text).
  rewrite !Hm. reflexivity.
Qed.
Lemma configuration_xml_eq rules : configuration_xml (mkCors rules)
  = ("<CORSConfiguration" +:+ write_attr ("xmlns", XMLNS) +:+ ">")
    +:+ str_concat (map (fun rule => field ("CORSRule", rule_text rule)) rules) +:+ "</CORSConfiguration>".
Proof.
  unfold configuration_xml, configuration_element. cbn [cors_rules].
  change (attr (Element_new "CORSConfiguration") "xmlns" XMLNS) with (with_children "CORSConfiguration" [("xmlns", XMLNS)] []).
  assert (forall l, foldl (fun root rule => child root (rule_element rule)) (with_children "CORSConfiguration" [("xmlns", XMLNS)] l) rules
    = with_children "CORSConfiguration" [("xmlns", XMLNS)] (l ++ map rule_element rules)) as ->.
  { induction rules as [|r rules IH]; intros l; simpl; [by rewrite app_nil_r|]. rewrite child_with, IH. by rewrite <- app_assoc. }
  rewrite write_with. simpl app. rewrite map_map. rewrite (map_ext _ _ write_rule). cbn [map str_concat foldr].
  by rewrite !str_app_assoc.
Qed.

(** *** Reading it *)

Ltac known_tag := repeat split; done.
Lemma rule_fields_ok rule : Forall (fun f => tag_name f.1 /\ free_of "<" f.2 /\ f.1 <> "CORSRule") (rule_fields rule).
Proof.
  unfold rule_fields, values_of. rewrite !Forall_app. split_and!; apply Forall_map, Forall_true; intros v; cbn [fst snd];
    (split; [known_tag|]); (split; [apply escape_free|done]).
Qed.
Lemma values_filter tag tag' vs :
  map snd (List.filter (fun f => str_eqb f.1 tag) (values_of tag' vs)) = if str_eqb tag' tag then map escape vs else [].
Proof.
  unfold values_of. induction vs as [|v vs IH]; [by destruct (str_eqb _ _)|]. simpl. destruct (str_eqb tag' tag) eqn:E; simpl; by rewrite IH.
Qed.
Lemma rule_blocks rule tag : tag_name tag -> xml_blocks (rule_text rule) tag
  = map snd (List.filter (fun f => str_eqb f.1 tag) (rule_fields rule)).
Proof.
  intros Ht. unfold rule_text. rewrite <- (str_app_nil_r (str_concat _)), xml_blocks_fields; [|done|].
  - by rewrite xml_blocks_nil, app_nil_r.
  - eapply Forall_impl; [apply rule_fields_ok|]. by intros f (? & ? & _).
Qed.

Lemma plain_named s : plain s = true -> str_all named s = true.
Proof.
  apply str_all_impl. intros c. unfold plain_char, named. intros [[Hg Hq]%andb_true_iff Ha]%andb_true_iff.
  apply negb_true_iff in Hq, Ha. rewrite Hq, Ha. simpl. apply negb_true_iff.
  destruct (Ascii.eqb_spec c (of_byte 9)) as [->|]; [by vm_compute in Hg|].
  destruct (Ascii.eqb_spec c lf) as [->|]; [by vm_compute in Hg|]. by destruct (Ascii.eqb_spec c cr) as [->|]; [vm_compute in Hg|].
Qed.
Lemma escape_graphic s : plain s = true -> str_all graphic (escape s) = true.
Proof.
  unfold plain, escape. induction s as [|c s IH]; [done|]. intros [Hc Hs]%andb_true_iff. cbn [flat]. rewrite str_all_app, IH, andb_true_r by done.
  unfold escaped_char. repeat match goal with |- context [Ascii.eqb c ?d] => destruct (Ascii.eqb_spec c d); [done|] end.
  unfold plain_char in Hc. apply andb_true_iff in Hc as [[Hg _]%andb_true_iff _]. cbn. by rewrite Hg.
Qed.
Lemma value_read v : plain v = true -> xml_unescape (trim (escape v)) = v.
Proof. intros Hv. rewrite trim_graphic by by apply escape_graphic. by apply unescape_escape, plain_named. Qed.
Lemma values_read vs : Forall (fun v => plain v = true) vs -> map (fun v => xml_unescape (trim v)) (map escape vs) = vs.
Proof. induction 1 as [|v vs Hv _ IH]; [done|]. simpl. by rewrite value_read, IH. Qed.

Lemma rule_values rule tag vs : tag_name tag ->
  map snd (List.filter (fun f => str_eqb f.1 tag) (rule_fields rule)) = map escape vs ->
  Forall (fun v => plain v = true) vs -> xml_values (rule_text rule) tag = vs.
Proof. intros Ht E Hv. unfold xml_values. by rewrite rule_blocks, E, values_read. Qed.
Lemma rule_fields_filter rule tag : map snd (List.filter (fun f => str_eqb f.1 tag) (rule_fields rule))
  = ((if str_eqb "ID" tag then map escape (if is_empty (cr_id rule) then [] else [cr_id rule]) else [])
    ++ (if str_eqb "AllowedOrigin" tag then map escape (allowed_origins rule) else [])
    ++ (if str_eqb "AllowedMethod" tag then map escape (allowed_methods rule) else [])
    ++ (if str_eqb "AllowedHeader" tag then map escape (allowed_headers rule) else [])
    ++ (if str_eqb "ExposeHeader" tag then map escape (expose_headers rule) else [])
    ++ (if str_eqb "MaxAgeSeconds" tag then map escape (option_list (show_Z <$> max_age_seconds rule)) else []))%list.
Proof. unfold rule_fields. by rewrite !List.filter_app, !map_app, !values_filter. Qed.

Lemma digit_text s : str_all is_ascii_digit s = true -> plain s = true /\ escape s = s.
Proof.
  unfold plain, escape. induction s as [|c s IH]; [done|]. intros [Hc Hs]%andb_true_iff.
  destruct (IH Hs) as [IH1 IH2]. cbn [str_all flat]. rewrite IH1, IH2.
  assert (plain_char c = true /\ escaped_char c = char_str c) as [-> ->]; [|done]. revert Hc. clear.
  intros Hc. assert (exists d, c = of_byte d /\ 48 <= d <= 57) as (d & -> & Hd).
  { exists (byte_of c). unfold is_ascii_digit, in_range in Hc. change (byte_of "0") with 48 in Hc. change (byte_of "9") with 57 in Hc.
    split; [|lia]. unfold of_byte, byte_of. by rewrite N2Z.id, ascii_N_embedding. }
  assert (d = 48 \/ d = 49 \/ d = 50 \/ d = 51 \/ d = 52 \/ d = 53 \/ d = 54 \/ d = 55 \/ d = 56 \/ d = 57) as Hin by lia.
  by repeat destruct Hin as [->|Hin]; [..|subst d].
Qed.
Lemma show_Z_text n : 0 <= n -> plain (show_Z n) = true /\ escape (show_Z n) = show_Z n.
Proof. intros Hn. apply digit_text. unfold show_Z. destruct (Z.ltb_spec n 0); [lia|]. by apply str_all_show. Qed.
Lemma allowed_method_plain m : existsb (str_eqb m) ALLOWED_METHODS = true -> plain m = true.
Proof. intros (x & Hx & ->%str_eqb_true)%existsb_exists. by repeat (destruct Hx as [<-|Hx]; [done|]). Qed.
Lemma validate_rule_Ok rule : validate_rule rule = Ok tt ->
  allowed_origins rule <> [] /\ forallb (fun m => existsb (str_eqb m) ALLOWED_METHODS) (allowed_methods rule) = true
  /\ forallb is_header_name (expose_headers rule) = true.
Proof.
  unfold validate_rule. destruct (_ || _) eqn:Ho; [done|]. destruct (negb _) eqn:Hm; [done|]. destruct (existsb _ _); [done|].
  destruct (existsb _ _); [done|]. destruct (negb _) eqn:He in |- *; [done|]. intros _. apply negb_false_iff in Hm, He.
  split; [|done]. by destruct (allowed_origins rule).
Qed.

Lemma parse_rule_text rule : rule_plain rule -> validate_rule rule = Ok tt -> parse_rule (rule_text rule) = Ok rule.
Proof.
  intros (Hid & Hvs & Hage) (_ & Hm & _)%validate_rule_Ok. rewrite !Forall_app in Hvs. destruct Hvs as (Ho & Hh & He).
  assert (forall tag, tag_name tag -> xml_blocks (rule_text rule) tag = _) as Hb
    by (intros tag Ht; rewrite rule_blocks by done; apply rule_fields_filter).
  unfold parse_rule. rewrite Hb by known_tag. cbn [str_eqb].
  rewrite (rule_values rule "ID" (if is_empty (cr_id rule) then [] else [cr_id rule])); [|known_tag|..].
  rewrite (rule_values rule "AllowedOrigin" (allowed_origins rule)); [|known_tag|..].
  rewrite (rule_values rule "AllowedMethod" (allowed_methods rule)); [|known_tag|..].
  rewrite (rule_values rule "AllowedHeader" (allowed_headers rule)); [|known_tag|..].
  rewrite (rule_values rule "ExposeHeader" (expose_headers rule)); [|known_tag|..].
  all: try (rewrite rule_fields_filter; simpl; by rewrite ?app_nil_r).
  all: try done.
  - simpl. destruct rule as [id os ms hs es age]. simpl in *. destruct age as [n|]; simpl in *.
    + destruct (show_Z_text n) as [Hp Hs]; [lia|]. rewrite trim_graphic by by apply escape_graphic. rewrite Hs.
      unfold parse_u32. rewrite parse_show_Z by lia. simpl. destruct (is_empty id) eqn:E; [|done]. by destruct id.
    + destruct (is_empty id) eqn:E; [|done]. by destruct id.
  - apply Forall_forall. intros m Hin. apply allowed_method_plain. rewrite forallb_forall in Hm. by apply Hm, list_elem_of_In.
  - destruct (is_empty _); [done|]. by constructor.
Qed.

Lemma xml_blocks_rules rules : xml_blocks (str_concat (map (fun rule => field ("CORSRule", rule_text rule)) rules)
  +:+ "</CORSConfiguration>") "CORSRule" = map rule_text rules.
Proof.
  induction rules as [|rule rules IH].
  - rewrite xml_blocks_unfold. reflexivity.
  - cbn [map str_concat foldr]. rewrite str_app_assoc, xml_blocks_block; [by rewrite <- IH|].
    apply close_skips_fields; [known_tag|]. eapply Forall_impl; [apply rule_fields_ok|]. naive_solver.
Qed.
Lemma parse_rules_text rules : Forall rule_plain rules -> try_each validate_rule rules = Ok tt ->
  parse_rules (map rule_text rules) = Ok rules.
Proof.
  induction 1 as [|rule rules Hp _ IH]; [done|]. simpl. intros Hv. destruct (validate_rule rule) as [[]| |] eqn:E; try done.
  simpl in Hv. rewrite parse_rule_text by done. simpl. by rewrite IH.
Qed.
Lemma str_all_concat p l : Forall (fun s => str_all p s = true) l -> str_all p (str_concat l) = true.
Proof. induction 1 as [|s l Hs _ IH]; [done|]. unfold str_concat. simpl. by rewrite str_all_app, Hs. Qed.
Lemma field_ascii t v : str_all is_ascii t = true -> str_all is_ascii v = true -> str_all is_ascii (field (t, v)) = true.
Proof.
  intros Ht Hv. change (str_all is_ascii (("<" +:+ t +:+ ">") +:+ v +:+ ("</" +:+ t +:+ ">")) = true).
  by rewrite !str_all_app, Ht, Hv.
Qed.
Lemma rule_text_ascii rule : rule_plain rule -> validate_rule rule = Ok tt -> str_all is_ascii (rule_text rule) = true.
Proof.
  intros (Hid & Hvs & Hage) (_ & Hm & _)%validate_rule_Ok. rewrite !Forall_app in Hvs. destruct Hvs as (Ho & Hh & He).
  assert (forall tag vs, str_all is_ascii tag = true -> Forall (fun v => plain v = true) vs ->
    Forall (fun s => str_all is_ascii s = true) (map field (values_of tag vs))) as Hf.
  { intros tag vs Ht Hv. unfold values_of. rewrite map_map. apply Forall_map. eapply Forall_impl; [exact Hv|]. intros v Hp.
    apply field_ascii; [done|]. by apply graphic_ascii, escape_graphic. }
  unfold rule_text, rule_fields. apply str_all_concat. rewrite !map_app, !Forall_app. split_and!; apply Hf; try done.
  - destruct (is_empty _); [done|]. by constructor.
  - apply Forall_forall. intros m Hin. apply allowed_method_plain. rewrite forallb_forall in Hm. by apply Hm, list_elem_of_In.
  - destruct (max_age_seconds rule) as [n|]; [|done]. simpl in *. constructor; [|done]. apply show_Z_text. lia.
Qed.

(** C29: The document the service writes for a valid configuration - rules of plain text,
    with any of the five lists - is parsed back to exactly that configuration. *)
Theorem cors_read_back config : Forall rule_plain (cors_rules config) -> validate (cors_rules config) = Ok tt ->
  parse_configuration (configuration_xml config) = Ok config.
Proof.
  destruct config as [rules]. simpl. intros Hp Hv. pose proof Hv as Hv'. unfold validate in Hv. destruct (_ || _); [done|].
  unfold parse_configuration. rewrite configuration_xml_eq.
  assert (forall body, str_all is_ascii body = true -> negb (utf8_valid body) = false) as ->.
  { intros body Hb. by rewrite utf8_valid_ascii. }
  - rewrite (proj2 (negb_false_iff _)); [|unfold contains; apply bool_decide_eq_true; rewrite str_app_assoc; apply (split_once_found "<CORSConfiguration" "")].
    rewrite xml_blocks_skip, xml_blocks_rules; [|by apply skips_miss].
    rewrite parse_rules_text by done. simpl. by rewrite Hv'.
  - rewrite !str_all_app. apply andb_true_iff. split; [done|]. rewrite andb_true_r. apply str_all_concat, Forall_map.
    assert (Forall (fun r => validate_rule r = Ok tt) rules) as Hr.
    { clear -Hv. revert Hv. induction rules as [|r rules IH]; [done|]. simpl. destruct (validate_rule r) as [[]| |] eqn:E; try done.
      intros Hv. constructor; [done|]. by apply IH. }
    eapply Forall_impl; [exact (proj2 (Forall_and _ _) (conj Hp Hr))|]. intros r [Hrp Hrv]. apply field_ascii; [done|].
    by apply rule_text_ascii.
Qed.

Definition demo_rules : list CorsRule :=
  [mkCorsRule "web" ["https://*.example.com"; "http://localhost?a<b&c>d"] ["GET"; "PUT"] ["*"; "x-amz-*"] ["ETag"; "x-amz-version-id"] (Some 600);
   mkCorsRule "" ["*"] ["HEAD"] [] [] None].
Lemma cors_read_back_witness : parse_configuration (configuration_xml (mkCors demo_rules)) = Ok (mkCors demo_rules).
Proof.
  apply cors_read_back; [|vm_compute; reflexivity]. repeat constructor; try (vm_compute; reflexivity); simpl; lia.
Defined.

(** A rule id with an apostrophe is not: it comes back as a numeric reference. *)
Example cors_apostrophe_lost :
  let rule := mkCorsRule "it's" ["*"] ["GET"] [] [] None in
  match parse_configuration (configuration_xml (mkCors [rule])) with
  | Ok (mkCors [r]) => cr_id r = "it&#39;s"
  | _ => False
  end.
Proof. vm_compute. done. Qed.

(** ** What a request is granted *)

Lemma longer_head a b c d : a +:+ b = c +:+ d -> (String.length a <= String.length c)%nat ->
  exists m, c = a +:+ m /\ b = m +:+ d.
Proof.
  revert c. induction a as [|x a IH]; intros c E Hl; [by exists c|].
  destruct c as [|y c]; simpl in Hl; [lia|]. rewrite !str_app_cons in E. injection E as -> E.
  destruct (IH c E) as (m & -> & ->); [lia|]. by exists m.
Qed.
(** A pattern of one wildcard matches exactly the texts with its two ends. *)
Lemma wildcard_match_star prefix suffix value : free_of "*" prefix ->
  wildcard_match (prefix +:+ "*" +:+ suffix) value = true <-> exists middle, value = prefix +:+ middle +:+ suffix.
Proof.
  intros Hp. unfold wildcard_match. change "*" with (char_str "*"). rewrite split_once_char by done.
  rewrite !andb_true_iff, starts_with_true, ends_with_true. split.
  - intros [[Hl [r ->]] [l Hr]]. apply Z.leb_le in Hl. destruct (longer_head _ _ _ _ Hr) as (m & -> & ->); [|by exists m].
    apply (f_equal str_len) in Hr. rewrite !str_len_app in *. unfold str_len in *. lia.
  - intros [m ->]. split_and!; [rewrite !str_len_app; pose proof (str_len_nonneg m); lia|by eexists|].
    exists (prefix +:+ m). by rewrite str_app_assoc.
Qed.

(** A text that stays on its header line. *)
Definition line_char (c : ascii) : bool := negb (Ascii.eqb c cr) && negb (Ascii.eqb c lf).
Definition on_line (s : string) : Prop := str_all line_char s = true.

Lemma plain_on_line s : plain s = true -> on_line s.
Proof.
  apply str_all_impl. intros c. unfold plain_char, line_char. intros [[Hg _]%andb_true_iff _]%andb_true_iff.
  destruct (Ascii.eqb_spec c cr) as [->|]; [by vm_compute in Hg|]. by destruct (Ascii.eqb_spec c lf) as [->|]; [vm_compute in Hg|].
Qed.
Lemma header_name_on_line h : is_header_name h = true -> on_line h.
Proof.
  intros [_ Hh]%andb_true_iff. revert Hh. apply str_all_impl. intros c Hc. unfold line_char.
  destruct (Ascii.eqb_spec c cr) as [->|]; [by vm_compute in Hc|]. by destruct (Ascii.eqb_spec c lf) as [->|]; [vm_compute in Hc|].
Qed.
Lemma parse_configuration_Ok body config : parse_configuration body = Ok config ->
  Forall (fun rule => validate_rule rule = Ok tt /\ from_option (fun n => 0 <= n < 2 ^ 32) True (max_age_seconds rule)) (cors_rules config).
Proof.
  unfold parse_configuration. destruct (negb _); [done|]. destruct (negb _); [done|].
  destruct (parse_rules _) as [rules| |] eqn:E; [simpl|done..]. unfold validate. destruct (_ || _); [done|].
  destruct (try_each validate_rule rules) as [[]| |] eqn:Hv; [|done..]. simpl. intros [= <-]. simpl.
  revert rules E Hv. generalize (xml_blocks body "CORSRule") as blocks. induction blocks as [|b blocks IH]; simpl; [by intros ? [= <-]|].
  intros rules. destruct (parse_rule b) as [r| |] eqn:Er; [simpl|done..]. destruct (parse_rules blocks) as [rs| |] eqn:Ers; [simpl|done..].
  intros [= <-]. simpl. destruct (validate_rule r) as [[]| |] eqn:Hvr; [simpl|done..]. intros Hv. constructor; [|by apply IH].
  split; [done|]. revert Er. unfold parse_rule. destruct (xml_blocks b "MaxAgeSeconds") as [|v ?]; [by intros [= <-]|].
  simpl. destruct (parse_u32 (trim v)) as [n|] eqn:En; [|done]. intros [= <-]. simpl. apply parse_radix_bounds in En. lia.
Qed.

(** A rule found in an accepted configuration grants a request only what it lists: the
    method, an origin one of its patterns matches, and headers its patterns match;
    credentials only to the origin that asked; and no header of the answer can be left
    by an end of line in the configuration. *)
Theorem cors_grants body config origin method headers rule :
  parse_configuration body = Ok config -> find_rule (cors_rules config) origin method headers = Some rule -> on_line origin ->
  In method (allowed_methods rule)
  /\ (exists pattern, In pattern (allowed_origins rule) /\ wildcard_match pattern origin = true)
  /\ Forall (fun h => exists pattern, In pattern (allowed_headers rule)
       /\ wildcard_match (to_ascii_lowercase pattern) (to_ascii_lowercase h) = true) headers
  /\ Forall (fun h => on_line h.2) (response_headers rule origin)
  /\ (In ("Access-Control-Allow-Credentials", "true") (response_headers rule origin) ->
      In ("Access-Control-Allow-Origin", origin) (response_headers rule origin) /\ ~ In "*" (allowed_origins rule)).
Proof.
  intros Hp [Hin Ha]%find_some Ho. apply parse_configuration_Ok in Hp. rewrite Forall_forall in Hp.
  destruct (Hp rule) as [(_ & Hm & He)%validate_rule_Ok Hage]; [by apply list_elem_of_In|].
  unfold allows in Ha. apply andb_true_iff in Ha as [[Ha1 Ha2]%andb_true_iff Ha3]. split_and!.
  - apply existsb_exists in Ha1 as (m & Hm' & ->%str_eqb_true). done.
  - by apply existsb_exists in Ha2.
  - apply Forall_forall. intros h Hh. rewrite forallb_forall in Ha3. by apply existsb_exists, Ha3, list_elem_of_In.
  - unfold response_headers. rewrite !Forall_app. split_and!.
    + apply Forall_cons. split; [simpl; destruct (existsb (str_eqb "*") _); [exact eq_refl|exact Ho]|]. apply Forall_singleton. apply str_all_join; [done|]. apply Forall_forall. intros m Hin'.
      apply plain_on_line, allowed_method_plain. rewrite forallb_forall in Hm. by apply Hm, list_elem_of_In.
    + destruct (existsb (str_eqb "*") _); [constructor|by apply Forall_singleton].
    + destruct (expose_headers rule) as [|h hs] eqn:E; [done|]. apply Forall_singleton, str_all_join; [done|]. apply Forall_forall.
      intros m Hin'. apply header_name_on_line. rewrite forallb_forall in He. by apply He, list_elem_of_In.
    + destruct (max_age_seconds rule) as [n|]; [|done]. apply Forall_singleton, plain_on_line. simpl in *. apply show_Z_text. lia.
  - unfold response_headers. destruct (existsb (str_eqb "*") (allowed_origins rule)) eqn:E.
    + rewrite app_nil_l, !in_app_iff. intros H. exfalso.
      destruct (expose_headers rule), (max_age_seconds rule); simpl in H; naive_solver.
    + intros _. split; [by left|]. intros Hs. assert (existsb (str_eqb "*") (allowed_origins rule) = true) as Ht; [|congruence].
      apply existsb_exists. exists "*". by rewrite (proj2 (str_eqb_true _ _)).
Qed.
