(* ===== verification/S3Sidecars.v ===== *)
(** The buckets' other configurations: CORS, notification, replication, analytics and
    inventory (services/s3/src/store_config.rs, store_inventory.rs, csv.rs), with the
    recording of events and the replication of writes that http.rs derives from them. *)

From S2P Require Import Prelude RustStr RustNum RustText SqsTime PubTime S3Codecs Disk S3Store S3Objects S3Config S3Cors.
Local Open Scope string_scope.
Local Open Scope Z_scope.

(** ** Data (model.rs) *)

Record NotificationFilterRule := mkFilterRule { fr_name : string; fr_value : string }.
(** [NotificationFilter] with its [NotificationS3KeyFilter]: the rules. *)
Record NotificationFilter := mkNotificationFilter { s3_key_rules : list NotificationFilterRule }.
Record NotificationTopicConfig := mkTopicConfig {
  tc_id : string; tc_topic : string; tc_events : list string; tc_filter : NotificationFilter }.
Record NotificationQueueConfig := mkQueueConfig {
  qc_id : string; qc_queue : string; qc_events : list string; qc_filter : NotificationFilter }.
Record NotificationLambdaConfig := mkLambdaConfig {
  lf_id : string; lambda_function : string; lf_events : list string; lf_filter : NotificationFilter }.
Record NotificationConfiguration := mkNotification {
  n_xmlns : string; topic_configurations : list NotificationTopicConfig;
  queue_configurations : list NotificationQueueConfig; lambda_function_configurations : list NotificationLambdaConfig;
  event_bridge_configuration : option unit }.
Definition no_notification : NotificationConfiguration := mkNotification "" [] [] [] None.
Record NotificationEventRecord := mkEvent {
  event_id : string; event_name : string; event_time : string; ev_bucket : string; ev_key : string;
  ev_etag : string; ev_size : Z; ev_version_id : string; ev_delete_marker : bool }.

Record ReplicationRule := mkReplicationRule {
  rr_id : string; priority : Z; rr_prefix : string; rr_filter_prefix : string; rr_status : string;
  destination_bucket : string; destination_storage_class : string; delete_marker_replication : string }.
Record ReplicationConfiguration := mkReplication { rc_xmlns : string; role : string; rc_rules : list ReplicationRule }.
Definition no_replication : ReplicationConfiguration := mkReplication "" "" [].

(** The [s3BucketDestination] of the export is [ac_format], [ac_bucket] and [ac_prefix]. *)
Record AnalyticsConfiguration := mkAnalytics {
  ac_xmlns : string; ac_id : string; ac_filter_prefix : string; output_schema_version : string;
  ac_format : string; ac_bucket : string; ac_prefix : string }.
Definition no_analytics : AnalyticsConfiguration := mkAnalytics "" "" "" "" "" "" "".
Definition set_analytics_id (id : string) (c : AnalyticsConfiguration) : AnalyticsConfiguration :=
  mkAnalytics (ac_xmlns c) id (ac_filter_prefix c) (output_schema_version c) (ac_format c) (ac_bucket c) (ac_prefix c).

(** The [s3BucketDestination] is [account_id], [ic_bucket], [ic_format] and [ic_prefix]. *)
Record InventoryConfiguration := mkInventory {
  ic_xmlns : string; ic_id : string; is_enabled : bool; included_object_versions : string; frequency : string;
  account_id : string; ic_bucket : string; ic_format : string; ic_prefix : string; optional_fields : list string }.
Definition no_inventory : InventoryConfiguration := mkInventory "" "" false "" "" "" "" "" "" [].
Definition set_inventory_id (id : string) (c : InventoryConfiguration) : InventoryConfiguration :=
  mkInventory (ic_xmlns c) id (is_enabled c) (included_object_versions c) (frequency c) (account_id c) (ic_bucket c)
    (ic_format c) (ic_prefix c) (optional_fields c).
Record InventoryReportManifest := mkManifest {
  configuration_id : string; source_bucket : string; im_format : string; included_versions : string;
  im_fields : list string; object_count : Z; report_key : string }.

(** ** csv.rs *)

Definition field_needs_quotes (field : string) : bool :=
  if is_empty field then false
  else if str_eqb field "\." then true
  else if str_any (fun c => Ascii.eqb c lf || Ascii.eqb c cr || Ascii.eqb c dquote || Ascii.eqb c ",") field then true
  else bool_decide (is_Some (strip_one_of white_space field)).
(** The quotes of a field doubled; the other characters as they are. *)
Fixpoint doubled (field : string) : string :=
  match field with
  | EmptyString => ""
  | String c r => (if Ascii.eqb c dquote then String dquote (char_str dquote) else char_str c) +:+ doubled r
  end.
Definition write_field (field : string) : string :=
  if field_needs_quotes field then char_str dquote +:+ doubled field +:+ char_str dquote else field.
Definition write_record (record : list string) : string := str_join "," (map write_field record) +:+ char_str lf.
Definition write_csv (records : list (list string)) : string := str_concat (map write_record records).

(** ** The fields of a report *)

Definition inventory_included_versions (config : InventoryConfiguration) : string :=
  if str_eqb (included_object_versions config) "All" then "All" else "Current".
Definition inventory_report_format (config : InventoryConfiguration) : string :=
  let format := trim (ic_format config) in if is_empty format then "CSV" else format.
Definition inventory_report_fields (config : InventoryConfiguration) : list string :=
  let fields := ["Bucket"; "Key"; "Size"; "LastModifiedDate"; "ETag"; "StorageClass"] in
  let fields := if str_eqb (inventory_included_versions config) "All"
                then (fields ++ ["VersionId"; "IsLatest"])%list else fields in
  foldl (fun fields field =>
    let field := trim field in
    if is_empty field || existsb (str_eqb field) fields then fields else (fields ++ [field])%list)
    fields (optional_fields config).

Definition show_bool (b : bool) : string := if b then "true" else "false".
Definition inventory_value (object : Object) (latest : gmap string string) (field : string) : string :=
  if str_eqb field "Bucket" then o_bucket object
  else if str_eqb field "Key" then o_key object
  else if str_eqb field "Size" then show_Z (o_size object)
  else if str_eqb field "LastModifiedDate" then
    match parse_rfc3339 (last_modified object) with
    | Some (secs, _) => rfc3339_seconds_from_unix secs
    | None => last_modified object
    end
  else if str_eqb field "ETag" then etag object
  else if str_eqb field "StorageClass" then "STANDARD"
  else if str_eqb field "VersionId" then version_id object
  else if str_eqb field "IsLatest" then show_bool (bool_decide (latest !! o_key object = Some (version_id object)))
  else if str_eqb field "EncryptionStatus" then algorithm (encryption object)
  else if str_eqb field "ObjectLockRetainUntilDate" then retain_until_date (retention object)
  else if str_eqb field "ObjectLockRetentionMode" then r_mode (retention object)
  else if str_eqb field "ObjectLockLegalHoldStatus" then legal_hold object
  else "".
Definition inventory_report_row (object : Object) (latest : gmap string string) (fields : list string) : list string :=
  map (inventory_value object latest) fields.

(** The version ids of the latest objects, and when those were modified. *)
Definition latest_step (acc : gmap string string * gmap string string) (object : Object) : gmap string string * gmap string string :=
  let '(latest, latest_modified) := acc in
  let newer := match latest_modified !! o_key object with
               | Some current => time_after (last_modified object) current
               | None => true
               end in
  if newer then (<[o_key object := version_id object]> latest, <[o_key object := last_modified object]> latest_modified)
  else acc.
Definition latest_version_ids (objects : list Object) : gmap string string := (foldl latest_step (∅, ∅) objects).1.
Definition inventory_report_object_count (objects : list Object) : Z :=
  Z.of_nat (length (List.filter (fun o => negb (delete_marker o)) objects)).

Definition dedup_key (o : Object) : string := o_bucket o +:+ char_str nul +:+ o_key o +:+ char_str nul +:+ version_id o.
Definition deduplicate_inventory_objects (objects : list Object) : list Object :=
  (foldl (fun acc o => if bool_decide (dedup_key o ∈ acc.1) then acc else ({[dedup_key o]} ∪ acc.1, acc.2 ++ [o])%list)
    (∅ : gset string, []) objects).2.

Definition inventory_path (bucket : string) : path := join (bucket_path bucket) "inventory".
Definition inventory_config_path (bucket id : string) : path :=
  join (inventory_path bucket) (Base64.raw_url_encode id +:+ ".json").
Definition inventory_report_path (bucket id : string) : path :=
  join (join (inventory_path bucket) "reports") (Base64.raw_url_encode id).
Definition inventory_report_csv_path (bucket id : string) : path := join (inventory_report_path bucket id) "inventory.csv".
Definition inventory_report_manifest_path (bucket id : string) : path := join (inventory_report_path bucket id) "manifest.json".
Definition analytics_path (bucket : string) : path := join (bucket_path bucket) "analytics".
Definition analytics_config_path (bucket id : string) : path :=
  join (analytics_path bucket) (Base64.raw_url_encode id +:+ ".json").

Section Sidecars.
Context `{Disk, Clock, Hashes, Build} `{Codec Bucket, Codec Object, Codec CorsConfiguration,
  Codec NotificationConfiguration, Codec (list NotificationEventRecord), Codec ReplicationConfiguration,
  Codec AnalyticsConfiguration, Codec InventoryConfiguration, Codec InventoryReportManifest}.
Abbreviation St := (ME StoreError Store).

(** ** CORS: written in place, not through a temporary file; the encoding is compact *)

Definition put_bucket_cors (bucket : string) (config : CorsConfiguration) : St unit :=
  the_bucket bucket;; io (fs_write (sidecar bucket "cors.json") (encode config)).
Definition get_bucket_cors (bucket : string) : St (option CorsConfiguration) :=
  existing ← get_bucket bucket;
  match existing with
  | None => mret None
  | Some _ =>
      data ← found (fs_read (sidecar bucket "cors.json"));
      match data with Some data => config ← decoded data; mret (Some config) | None => mret None end
  end.
Definition delete_bucket_cors (bucket : string) : St unit :=
  the_bucket bucket;; remove_if_exists (sidecar bucket "cors.json").

(** ** Notification *)

Definition put_bucket_notification (bucket : string) (config : NotificationConfiguration) : St unit :=
  the_bucket bucket;; write_json (sidecar bucket "notification.json") config.
Definition get_bucket_notification (bucket : string) : St (option NotificationConfiguration) :=
  existing ← get_bucket bucket;
  match existing with
  | None => mret None
  | Some _ => config ← read_json_file (sidecar bucket "notification.json"); mret (Some (default no_notification config))
  end.
Definition append_notification_event (bucket : string) (event : NotificationEventRecord) : St bool :=
  existing ← get_bucket bucket;
  match existing with
  | None => mret false
  | Some _ =>
      let path := sidecar bucket "notification-events.json" in
      events ← read_json_file (T := list NotificationEventRecord) path;
      write_json path (default [] events ++ [event])%list;;
      mret true
  end.
Definition list_notification_events (bucket : string) : St (option (list NotificationEventRecord)) :=
  existing ← get_bucket bucket;
  match existing with
  | None => mret None
  | Some _ => events ← read_json_file (sidecar bucket "notification-events.json"); mret (Some (default [] events))
  end.

(** [event.trim_end_matches('*')] of an event that ends in [:*] *)
Definition event_matches (event_name event : string) : bool :=
  str_eqb event event_name
  || ends_with ":*" event && starts_with (trim_end_by (Ascii.eqb "*") event) event_name.
Definition filter_rule_matches (key : string) (rule : NotificationFilterRule) : bool :=
  if str_eqb (fr_name rule) "prefix" then starts_with (fr_value rule) key
  else if str_eqb (fr_name rule) "suffix" then ends_with (fr_value rule) key
  else false.
Definition notification_rule_matches (events : list string) (filter : NotificationFilter) (event_name key : string) : bool :=
  existsb (event_matches event_name) events && forallb (filter_rule_matches key) (s3_key_rules filter).
Definition notification_matches (config : NotificationConfiguration) (event_name key : string) : bool :=
  existsb (fun c => notification_rule_matches (tc_events c) (tc_filter c) event_name key) (topic_configurations config)
  || existsb (fun c => notification_rule_matches (qc_events c) (qc_filter c) event_name key) (queue_configurations config)
  || existsb (fun c => notification_rule_matches (lf_events c) (lf_filter c) event_name key) (lambda_function_configurations config).
Definition record_object_event (bucket key event_name : string) (object : Object) : St unit :=
  config ← get_bucket_notification bucket;
  match config with
  | None => mret tt
  | Some config =>
      if negb (notification_matches config event_name key) then mret tt
      else
        event_id ← new_version_id;
        event_time ← now;
        _ ← append_notification_event bucket
              (mkEvent event_id event_name event_time bucket key (etag object) (o_size object) (version_id object)
                 (delete_marker object));
        mret tt
  end.

(** ** Replication *)

Definition put_bucket_replication (bucket : string) (config : ReplicationConfiguration) : St unit :=
  the_bucket bucket;; write_json (sidecar bucket "replication.json") config.
Definition get_bucket_replication (bucket : string) : St (option (ReplicationConfiguration * bool)) :=
  existing ← get_bucket bucket;
  match existing with
  | None => mret None
  | Some _ =>
      config ← read_json_file (sidecar bucket "replication.json");
      mret (Some (match config with Some config => (config, true) | None => (no_replication, false) end))
  end.
Definition delete_bucket_replication (bucket : string) : St bool :=
  the_bucket bucket;; remove_if_exists (sidecar bucket "replication.json");; mret true.

Definition replication_rule_matches (rule : ReplicationRule) (key : string) : bool :=
  let prefix := if is_empty (rr_filter_prefix rule) then rr_prefix rule else rr_filter_prefix rule in
  is_empty prefix || starts_with prefix key.
Definition replication_destination_bucket (value : string) : option string :=
  let value := trim value in
  if is_empty value then None
  else
    let value := match strip_prefix "arn:aws:s3:::" value with
                 | Some stripped => match split_once "/" stripped with Some (bucket, _) => bucket | None => stripped end
                 | None => value
                 end in
    if is_empty value then None else Some value.
(** The bucket a rule sends a key of [bucket] to, when it is another one that exists. *)
Definition replica_target (bucket : string) (rule : ReplicationRule) : St (option string) :=
  match replication_destination_bucket (destination_bucket rule) with
  | None => mret None
  | Some destination =>
      if str_eqb destination bucket then mret None
      else b ← get_bucket destination; mret (match b with Some _ => Some destination | None => None end)
  end.
Definition replica_input (destination key body : string) (object : Object) : PutObjectInput :=
  mkPutInput destination key body "" (content_type object) (content_encoding object) (cache_control object)
    (content_disposition object) (metadata object) (encryption object) (retention object) (legal_hold object).
Definition replicate_object_write (bucket key : string) (object : Object) : St unit :=
  config ← get_bucket_replication bucket;
  match config with
  | Some (config, true) =>
      if delete_marker object then mret tt
      else
        version ← get_object_version bucket key (version_id object);
        match version with
        | None => mret tt
        | Some (_, body) =>
            for_each (rc_rules config) tt (fun rule _ =>
              if negb (str_eqb (rr_status rule) "Enabled") || negb (replication_rule_matches rule key) then mret tt
              else
                destination ← replica_target bucket rule;
                match destination with
                | None => mret tt
                | Some destination => _ ← put_object (replica_input destination key body object); mret tt
                end)
        end
  | _ => mret tt
  end.
Definition replicate_object_delete_marker (bucket key : string) : St unit :=
  config ← get_bucket_replication bucket;
  match config with
  | Some (config, true) =>
      for_each (rc_rules config) tt (fun rule _ =>
        if negb (str_eqb (rr_status rule) "Enabled") || negb (str_eqb (delete_marker_replication rule) "Enabled")
           || negb (replication_rule_matches rule key) then mret tt
        else
          destination ← replica_target bucket rule;
          match destination with
          | None => mret tt
          | Some destination => _ ← delete_object_with_result destination key false; mret tt
          end)
  | _ => mret tt
  end.

(** ** Analytics *)

(** Every file of [dir] that is no directory, read. *)
Definition read_config_dir {T} `{Codec T} (dir : path) : St (list T) :=
  entries ← found (fs_read_dir dir);
  match entries with
  | None => mret []
  | Some entries =>
      for_each entries [] (fun name acc =>
        is_dir ← entry_is_dir (join dir name);
        if (is_dir : bool) then mret acc
        else
          config ← read_json_file (join dir name);
          mret (match config with Some config => (acc ++ [config])%list | None => acc end))
  end.

Definition put_bucket_analytics (bucket id : string) (config : AnalyticsConfiguration) : St unit :=
  the_bucket bucket;;
  io (fs_create_dir_all (analytics_path bucket));;
  write_json (analytics_config_path bucket id) (set_analytics_id id config).
Definition get_bucket_analytics (bucket id : string) : St (option (AnalyticsConfiguration * bool)) :=
  existing ← get_bucket bucket;
  match existing with
  | None => mret None
  | Some _ =>
      config ← read_json_file (analytics_config_path bucket id);
      mret (Some (match config with Some config => (config, true) | None => (no_analytics, false) end))
  end.
Definition list_bucket_analytics (bucket : string) : St (option (list AnalyticsConfiguration)) :=
  existing ← get_bucket bucket;
  match existing with
  | None => mret None
  | Some _ =>
      configs ← read_config_dir (T := AnalyticsConfiguration) (analytics_path bucket);
      mret (Some (sort_by (fun a b => String.compare (ac_id a) (ac_id b)) configs))
  end.
Definition delete_bucket_analytics (bucket id : string) : St bool :=
  the_bucket bucket;;
  remove_if_exists (analytics_config_path bucket id);;
  ignore (fs_remove_dir (analytics_path bucket));;
  mret true.

(** ** Inventory *)

Definition inventory_report_objects (bucket : string) (config : InventoryConfiguration) : St (list Object) :=
  if str_eqb (inventory_included_versions config) "All" then
    objects ← list_object_versions bucket "";
    objects ← lift (ok_or BucketNotExist objects);
    mret (deduplicate_inventory_objects objects)
  else
    objects ← list_objects bucket "";
    lift (ok_or BucketNotExist objects).
(** The header and a row for every object that is no delete marker. *)
Definition inventory_records (objects : list Object) (fields : list string) : list (list string) :=
  fields :: map (fun o => inventory_report_row o (latest_version_ids objects) fields)
              (List.filter (fun o => negb (delete_marker o)) objects).
Definition inventory_manifest (bucket id : string) (config : InventoryConfiguration) (objects : list Object) : InventoryReportManifest :=
  mkManifest id bucket (inventory_report_format config) (inventory_included_versions config)
    (inventory_report_fields config) (inventory_report_object_count objects)
    ("inventory/reports/" +:+ Base64.raw_url_encode id +:+ "/inventory.csv").
Definition write_inventory_report (bucket id : string) (config : InventoryConfiguration) : St unit :=
  objects ← inventory_report_objects bucket config;
  let fields := inventory_report_fields config in
  io (fs_create_dir_all (inventory_report_path bucket id));;
  io (fs_write (inventory_report_csv_path bucket id) (write_csv (inventory_records objects fields)));;
  write_json (inventory_report_manifest_path bucket id) (inventory_manifest bucket id config objects).

Definition put_bucket_inventory (bucket id : string) (config : InventoryConfiguration) : St unit :=
  the_bucket bucket;;
  let config := set_inventory_id id config in
  io (fs_create_dir_all (inventory_path bucket));;
  write_json (inventory_config_path bucket id) config;;
  if negb (is_enabled config) || negb (str_eqb (inventory_report_format config) "CSV")
  then remove_dir_all_if_exists (inventory_report_path bucket id)
  else write_inventory_report bucket id config.
Definition get_bucket_inventory (bucket id : string) : St (option (InventoryConfiguration * bool)) :=
  existing ← get_bucket bucket;
  match existing with
  | None => mret None
  | Some _ =>
      config ← read_json_file (inventory_config_path bucket id);
      mret (Some (match config with Some config => (config, true) | None => (no_inventory, false) end))
  end.
Definition list_bucket_inventories (bucket : string) : St (option (list InventoryConfiguration)) :=
  existing ← get_bucket bucket;
  match existing with
  | None => mret None
  | Some _ =>
      configs ← read_config_dir (T := InventoryConfiguration) (inventory_path bucket);
      mret (Some (sort_by (fun a b => String.compare (ic_id a) (ic_id b)) configs))
  end.
Definition delete_bucket_inventory (bucket id : string) : St bool :=
  the_bucket bucket;;
  remove_if_exists (inventory_config_path bucket id);;
  remove_dir_all_if_exists (inventory_report_path bucket id);;
  ignore (fs_remove_dir (inventory_path bucket));;
  mret true.
End Sidecars.
