(* ===== verification/S3Calm.v ===== *)
(** The store on a disk that does not fail: one rule for each of its steps; and what it
    promises: a bucket as a map of keys, and how the map lies on the disk. *)

From S2P Require Import Prelude RustStr RustNum RustText SqsTime PubTime S3Codecs Disk S3Store S3Objects S3Config.
Local Open Scope string_scope.
Local Open Scope Z_scope.

(** The store's steps on a disk that does not fail: one rule for each. *)

Section Calm.
Context `{Disk, Clock, Hashes} (Hcalm : calm).
Abbreviation IO := (ME io_error DiskState).
Abbreviation St := (ME StoreError Store).

(** [m] gives [r] on the tree [t] and leaves [t']. *)
Definition runs {A} (m : IO A) (t : tree) (r : A + io_error) (t' : tree) : Prop :=
  forall d, files d = t -> m d = (of_result r, mkDisk t' (calls d + 1)).

Lemma runs_query {A} (f : tree -> A + io_error) t r : f t = r -> runs (query f) t r t.
Proof. intros Hf d Hd. unfold query, syscall. rewrite Hcalm, Hd, Hf. by destruct r. Qed.
Lemma runs_change f g t r : f t = r -> runs (change f g) t (match r with inl _ => inl tt | inr e => inr e end)
  (match r with inl t' => t' | inr _ => t end).
Proof. intros Hf d Hd. unfold change, syscall. rewrite Hcalm, Hd, Hf. by destruct r. Qed.

Lemma runs_read t p data : t !! p = Some (File data) -> runs (fs_read p) t (inl data) t.
Proof. intros Hp. apply runs_query. by rewrite Hp. Qed.
Lemma runs_read_none t p : t !! p = None -> no_file_above t p -> runs (fs_read p) t (inr (NotFound "")) t.
Proof. intros Hp Hn. apply runs_query. by rewrite Hp, absent_NotFound. Qed.
Lemma runs_metadata t p n : t !! p = Some n -> runs (fs_metadata p) t (inl n) t.
Proof. intros Hp. apply runs_query. by rewrite Hp. Qed.
Lemma runs_metadata_none t p : t !! p = None -> no_file_above t p -> runs (fs_metadata p) t (inr (NotFound "")) t.
Proof. intros Hp Hn. apply runs_query. by rewrite Hp, absent_NotFound. Qed.
Lemma runs_read_dir t p d : t !! p = Some Dir -> files d = t ->
  fs_read_dir p d = (Ok (disk_order (calls d) (entry_names t p)), mkDisk t (calls d + 1)).
Proof. intros Hp Hd. unfold fs_read_dir, query, syscall. by rewrite Hcalm, Hd, Hp. Qed.
Lemma runs_read_dir_none t p : t !! p = None -> no_file_above t p -> runs (fs_read_dir p) t (inr (NotFound "")) t.
Proof. intros Hp Hn d Hd. unfold fs_read_dir, query, syscall. by rewrite Hcalm, Hd, Hp, absent_NotFound. Qed.
Lemma put_file_ok t p data : t !! path_parent p = Some Dir -> t !! p <> Some Dir -> put_file p data t = inl (<[p:=File data]> t).
Proof. intros Hd Hp. unfold put_file. rewrite parent_error_Dir by done. by destruct (t !! p) as [[]|]. Qed.
Lemma runs_write t p data :
  t !! path_parent p = Some Dir -> t !! p <> Some Dir -> runs (fs_write p data) t (inl tt) (<[p:=File data]> t).
Proof. intros Hd Hp. eapply (runs_change _ _ t (inl _)). by apply put_file_ok. Qed.
Lemma runs_rename t a b data :
  t !! a = Some (File data) -> t !! path_parent b = Some Dir -> t !! b <> Some Dir ->
  runs (fs_rename a b) t (inl tt) (delete a (<[b:=File data]> t)).
Proof.
  intros Ha Hd Hb. eapply (runs_change _ _ t (inl _)). by rewrite Ha, put_file_ok.
Qed.
Lemma runs_remove_file t p data : t !! p = Some (File data) -> runs (fs_remove_file p) t (inl tt) (delete p t).
Proof. intros Hp. eapply (runs_change _ _ t (inl _)). by rewrite Hp. Qed.
Lemma runs_remove_file_none t p :
  t !! p = None -> no_file_above t p -> runs (fs_remove_file p) t (inr (NotFound "")) t.
Proof. intros Hp Hn. eapply (runs_change _ _ t (inr _)). by rewrite Hp, absent_NotFound. Qed.
Lemma runs_remove_dir t p : t !! p = Some Dir ->
  runs (fs_remove_dir p) t (match entry_names t p with [] => inl tt | _ => inr DirectoryNotEmpty end)
    (match entry_names t p with [] => delete p t | _ => t end).
Proof.
  intros Hp. destruct (entry_names t p) eqn:E; [eapply (runs_change _ _ t (inl _))|eapply (runs_change _ _ t (inr _))];
    by rewrite Hp, E.
Qed.
Lemma runs_remove_dir_all t p : t !! p = Some Dir -> runs (fs_remove_dir_all p) t (inl tt) (cleared p (fun _ => false) t).
Proof. intros Hp. eapply (runs_change _ _ t (inl _)). by rewrite Hp. Qed.
Lemma runs_remove_dir_all_none t p :
  t !! p = None -> no_file_above t p -> runs (fs_remove_dir_all p) t (inr (NotFound "")) t.
Proof. intros Hp Hn. eapply (runs_change _ _ t (inr _)). by rewrite Hp, absent_NotFound. Qed.
Lemma runs_create_dir_all t p : no_file_above t p ->
  exists t', runs (fs_create_dir_all p) t (inl tt) t'
    /\ forall q, t' !! q = if decide (q ∈ prefixes p) then Some Dir else t !! q.
Proof.
  intros Hn. destruct (made_dirs_ok (prefixes p) t) as (t' & Hm & Ht'); [by intros q d; apply Hn|].
  exists t'. split; [|done]. by eapply (runs_change _ _ t (inl _)).
Qed.

(** ** In the store's monad *)

(** Only the files and the number of calls have moved. *)
Definition moved (s : Store) (t : tree) (s' : Store) : Prop :=
  the_files s' = t /\ fixed_version_ids s' = fixed_version_ids s /\ id_counter s' = id_counter s.
Lemma moved_refl s : moved s (the_files s) s.
Proof. done. Qed.

Lemma wp_io {A} (m : IO A) s r t' (Q : result StoreError A -> Store -> Prop) :
  runs m (the_files s) r t' -> (forall s', moved s t' s' -> Q (map_err Io (of_result r)) s') -> wp (io m) Q s.
Proof. intros Hm HQ. unfold wp, io. rewrite (Hm (disk s)) by done. by apply HQ. Qed.
Lemma wp_try_io {A} (m : IO A) s r t' (Q : result StoreError (A + io_error) -> Store -> Prop) :
  runs m (the_files s) r t' -> (forall s', moved s t' s' -> Q (Ok r) s') -> wp (try_io m) Q s.
Proof. intros Hm HQ. unfold wp, try_io. rewrite (Hm (disk s)) by done. destruct r; by apply HQ. Qed.
Lemma wp_ignore {A} (m : IO A) s r t' (Q : result StoreError unit -> Store -> Prop) :
  runs m (the_files s) r t' -> (forall s', moved s t' s' -> Q (Ok tt) s') -> wp (ignore m) Q s.
Proof. intros Hm HQ. unfold ignore. apply wp_bind. eapply wp_try_io; [exact Hm|]. intros s' Hs'. apply wp_ret. auto. Qed.
Lemma wp_found {A} (m : IO A) s r t' (Q : result StoreError (option A) -> Store -> Prop) :
  runs m (the_files s) r t' ->
  (forall s', moved s t' s' -> Q (match r with inl a => Ok (Some a) | inr (NotFound _) => Ok None | inr e => Err (Io e) end) s') ->
  wp (found m) Q s.
Proof.
  intros Hm HQ. unfold found. apply wp_bind. eapply wp_try_io; [exact Hm|]. intros s' Hs'. specialize (HQ s' Hs').
  destruct r as [a|[]]; by first [apply wp_ret|apply wp_fail].
Qed.
Lemma wp_found_read_dir s p (Q : result StoreError (option (list string)) -> Store -> Prop) :
  the_files s !! p = Some Dir ->
  (forall names s', moved s (the_files s) s' -> (exists k, names = disk_order k (entry_names (the_files s) p)) -> Q (Ok (Some names)) s') ->
  wp (found (fs_read_dir p)) Q s.
Proof.
  intros Hp HQ. unfold found. apply wp_bind. unfold wp, try_io. rewrite (runs_read_dir (the_files s)) by done.
  apply HQ; [done|]. eauto.
Qed.
Lemma wp_exists s p (Q : result StoreError bool -> Store -> Prop) :
  (forall s', moved s (the_files s) s' -> Q (Ok (bool_decide (is_Some (the_files s !! p)))) s') -> wp (exists_ p) Q s.
Proof.
  intros HQ. unfold exists_. apply wp_bind. destruct (the_files s !! p) as [n|] eqn:E.
  - eapply wp_try_io; [by eapply runs_metadata|]. intros s' Hs'. apply wp_ret. apply HQ. done.
  - eapply wp_try_io; [eapply runs_query; by rewrite E|]. intros s' Hs'. apply wp_ret. apply HQ. done.
Qed.
Lemma wp_is_file s p (Q : result StoreError bool -> Store -> Prop) :
  (forall s', moved s (the_files s) s' -> Q (Ok (match the_files s !! p with Some (File _) => true | _ => false end)) s') ->
  wp (is_file p) Q s.
Proof.
  intros HQ. unfold is_file. apply wp_bind. destruct (the_files s !! p) as [n|] eqn:E.
  - eapply wp_try_io; [by eapply runs_metadata|]. intros s' Hs'. apply wp_ret. specialize (HQ s' Hs'). by destruct n.
  - eapply wp_try_io; [eapply runs_query; by rewrite E|]. intros s' Hs'. apply wp_ret. by apply HQ.
Qed.
Lemma wp_entry_is_dir s p n (Q : result StoreError bool -> Store -> Prop) :
  the_files s !! p = Some n ->
  (forall s', moved s (the_files s) s' -> Q (Ok (match n with Dir => true | File _ => false end)) s') ->
  wp (entry_is_dir p) Q s.
Proof.
  intros Hp HQ. unfold entry_is_dir. apply wp_bind. eapply wp_io; [by eapply runs_metadata|]. intros s' Hs'.
  simpl. apply wp_ret. auto.
Qed.

(** The file at [p] reads as [x]. *)
Definition json_at {T} `{Codec T} (t : tree) (p : path) (x : T) : Prop :=
  exists data, t !! p = Some (File data) /\ decode data = inl x.
Lemma wp_read_json {T} `{Codec T} s p (x : T) (Q : result StoreError (option T) -> Store -> Prop) :
  json_at (the_files s) p x -> (forall s', moved s (the_files s) s' -> Q (Ok (Some x)) s') -> wp (read_json_file p) Q s.
Proof.
  intros (data & Hp & Hd) HQ. unfold read_json_file. apply wp_bind. eapply wp_found; [by eapply runs_read|].
  intros s' Hs'. simpl. apply wp_bind. unfold decoded. rewrite Hd. apply wp_ret. simpl. apply wp_ret. auto.
Qed.
Lemma wp_read_json_none {T} `{Codec T} s p (Q : result StoreError (option T) -> Store -> Prop) :
  the_files s !! p = None -> no_file_above (the_files s) p ->
  (forall s', moved s (the_files s) s' -> Q (Ok None) s') -> wp (read_json_file p) Q s.
Proof.
  intros Hp Hn HQ. unfold read_json_file. apply wp_bind. eapply wp_found; [by eapply runs_read_none|].
  intros s' Hs'. simpl. apply wp_ret. auto.
Qed.

(** A file replaced through its temporary sibling. *)
Lemma wp_atomic s d name data (Q : result StoreError unit -> Store -> Prop) :
  the_files s !! d = Some Dir -> the_files s !! (d ++ [name])%list <> Some Dir ->
  the_files s !! (d ++ [name +:+ ".tmp"])%list = None ->
  (forall s', moved s (<[(d ++ [name])%list := File data]> (the_files s)) s' -> Q (Ok tt) s') ->
  wp (write_atomic (d ++ [name])%list data) Q s.
Proof.
  intros Hd Hp Ht HQ. unfold write_atomic, atomic_tmp_path. rewrite path_parent_snoc, last_snoc. cbn [from_option]. unfold id.
  set (tmp := (d ++ [name +:+ ".tmp"])%list) in *. set (p := (d ++ [name])%list) in *.
  assert (tmp <> p) as Hne.
  { subst tmp p. intros E%app_inv_head. injection E as E. apply (f_equal String.length) in E.
    rewrite str_length_app in E. simpl in E. lia. }
  assert (d <> tmp) as Hdt by (subst tmp; intros E; apply (f_equal length) in E; rewrite length_app in E; simpl in E; lia).
  apply wp_bind. eapply wp_try_io.
  { apply runs_write; [|by rewrite Ht]. subst tmp. by rewrite path_parent_snoc. }
  intros s1 Hs1. simpl. apply wp_bind. destruct Hs1 as (Hf1 & Hi1 & Hc1). eapply wp_try_io.
  { rewrite Hf1. apply (runs_rename _ _ _ data); [by rewrite lookup_insert_eq|..].
    - subst p. rewrite path_parent_snoc. by rewrite lookup_insert_ne.
    - by rewrite lookup_insert_ne. }
  intros s2 (Hf2 & Hi2 & Hc2). simpl. apply wp_ret. apply HQ. split; [|split; congruence]. rewrite Hf2.
  apply map_eq. intros q. destruct (decide (q = tmp)) as [->|Hq].
  - rewrite lookup_delete_eq, lookup_insert_ne by done. by rewrite Ht.
  - rewrite lookup_delete_ne by done. destruct (decide (q = p)) as [->|Hqp].
    + by rewrite !lookup_insert_eq.
    + by rewrite !lookup_insert_ne by done.
Qed.

Lemma wp_create_dir_all s p (Q : result StoreError unit -> Store -> Prop) :
  no_file_above (the_files s) p ->
  (forall t' s', moved s t' s' -> (forall q, t' !! q = if decide (q ∈ prefixes p) then Some Dir else the_files s !! q) -> Q (Ok tt) s') ->
  wp (io (fs_create_dir_all p)) Q s.
Proof.
  intros Hn HQ. destruct (runs_create_dir_all _ _ Hn) as (t' & Hm & Ht'). eapply wp_io; [exact Hm|].
  intros s' Hs'. by eapply HQ.
Qed.

Lemma wp_store_now s (Q : result StoreError string -> Store -> Prop) :
  (forall ts s', moved s (the_files s) s' -> Q (Ok ts) s') -> wp now Q s.
Proof.
  intros HQ. unfold now. destruct fixed_now; [by apply wp_ret, HQ|]. apply wp_bind. unfold since_epoch. apply wp_bind.
  unfold tick, wp. cbn. by apply HQ.
Qed.
(** A new identifier: the test queue's next, or 32 hexadecimal digits. *)
Lemma wp_new_version_id s (Q : result StoreError string -> Store -> Prop) :
  (forall id s', the_files s' = the_files s ->
     (id ∈ fixed_version_ids s \/ exists nanos seq, id = random_id nanos seq) ->
     (fixed_version_ids s' = tail (fixed_version_ids s)) -> Q (Ok id) s') ->
  wp new_version_id Q s.
Proof.
  intros HQ. unfold new_version_id. apply wp_bind, wp_gets. simpl. destruct (fixed_version_ids s) as [|id rest] eqn:E.
  - apply wp_bind, wp_gets. simpl. apply wp_bind, wp_modify. simpl. apply wp_bind. unfold since_epoch. apply wp_bind.
    unfold tick, wp. cbn. apply HQ; [done| |done]. right. eauto.
  - apply wp_bind, wp_modify. simpl. apply wp_ret. apply HQ; [done|left|done]. apply elem_of_cons. by left.
Qed.
End Calm.

(** What the object store promises: a bucket as a map from keys to an object with its
    versions, and how such a map lies on the disk. *)

(** ** The abstract bucket *)

(** The current object with its bytes, the versions by their ids, the access list. *)
Record Key := mkKey {
  k_current : Object; k_body : string; k_versions : gmap string (Object * string); k_acl : option AclFile }.
Abbreviation Keys := (gmap string Key).

Definition versions_of (k : option Key) : gmap string (Object * string) := from_option k_versions ∅ k.
Definition acl_of (k : option Key) : option AclFile := k ≫= k_acl.
Definition with_version (o : Object) (body : string) (vs : gmap string (Object * string)) : gmap string (Object * string) :=
  if is_empty (version_id o) then vs else <[version_id o := (o, body)]> vs.
(** A new current object over what was there; a delete marker has no bytes. *)
Definition put_key (o : Object) (body : string) (old : option Key) : Key :=
  mkKey o body (with_version o body (versions_of old)) (acl_of old).
(** The current object is the one no other version comes after. *)
Definition latest_version (vs : gmap string (Object * string)) (v : string) (o : Object) (body : string) : Prop :=
  vs !! v = Some (o, body)
  /\ forall v' o' body', vs !! v' = Some (o', body') -> v' <> v -> stays_latest o o' = true.

(** ** Its layout *)

Section Layout.
Context `{Codec Bucket, Codec Object, Codec AclFile}.

Definition json_entry {T} `{Codec T} (x : T) : entry := EFile (fun d => decode d = inl x).
Definition body_entry (o : Object) (body : string) : option entry :=
  if delete_marker o then None else Some (EFile (eq body)).
Definition version_layout (ob : Object * string) : layout := fun r =>
  match r with
  | [] => Some EDir
  | [f] => if str_eqb f "object.json" then Some (json_entry ob.1)
           else if str_eqb f "body" then body_entry ob.1 ob.2 else None
  | _ => None
  end.
(** The directory of versions, when it is there. *)
Definition versions_layout (there : bool) (vs : gmap string (Object * string)) : layout := fun r =>
  match r with
  | [] => if there then Some EDir else None
  | v :: r => ob ← vs !! v; version_layout ob r
  end.
(** An object's directory: its own files and the versions. *)
Definition split_layout (top : string -> option entry) (there : bool) (vs : gmap string (Object * string)) : layout :=
  fun r =>
  match r with
  | [] => Some EDir
  | f :: r' => if str_eqb f "versions" then versions_layout there vs r'
               else match r' with [] => top f | _ => None end
  end.
Definition key_top (k : Key) (f : string) : option entry :=
  if str_eqb f "object.json" then Some (json_entry (k_current k))
  else if str_eqb f "body" then body_entry (k_current k) (k_body k)
  else if str_eqb f "acl.json" then json_entry <$> k_acl k
  else None.
Definition no_versions (vs : gmap string (Object * string)) : bool := bool_decide (vs = ∅).
Definition key_layout (k : Key) : layout := split_layout (key_top k) (negb (no_versions (k_versions k))) (k_versions k).
Definition maybe_key (k : option Key) : layout := fun r => k ← k; key_layout k r.

(** ** A bucket on the disk *)

Definition base (b : string) : path := [b; "objects"].
Definition dir_of (b k : string) : path := [b; "objects"; Base64.raw_url_encode k].

(** Every version under its own id, every object under its own name, and none that a
    resumable upload of Cloud Storage committed. *)
Definition own_object (b k : string) (o : Object) : Prop :=
  o_bucket o = b /\ o_key o = k /\ resumable_upload_id o = "".
Definition own_key (b k : string) (x : Key) : Prop :=
  valid_object_key k = true /\ own_object b k (k_current x)
  /\ (version_id (k_current x) = "" \/ valid_version_id (version_id (k_current x)) = true)
  /\ (delete_marker (k_current x) = true -> k_body x = "")
  /\ map_Forall (fun v ob => valid_version_id v = true /\ version_id ob.1 = v /\ own_object b k ob.1
                             /\ (delete_marker ob.1 = true -> ob.2 = "")) (k_versions x).

Definition BUCKET_DIRS : list string := ["objects"; "multipart"; "inventory"; "analytics"].
(** What is in a bucket's directory: the sidecar files and the directories. *)
Definition beside (n : string) (x : node) : Prop :=
  match x with File _ => n ∈ SIDECAR_FILES | Dir => n ∈ BUCKET_DIRS end.
(** The bucket [b] with metadata [B]: its files, every key's directory, and nothing else
    in the directory of objects, which is there when some key is. *)
Definition bucket_at (t : tree) (b : string) (B : Bucket) (m : Keys) : Prop :=
  valid_bucket_name b = true
  /\ t !! [] = Some Dir /\ t !! [b] = Some Dir /\ json_at t [b; "bucket.json"] B
  /\ (forall n x, t !! [b; n] = Some x -> beside n x)
  /\ (t !! base b = Some Dir \/ t !! base b = None /\ m = ∅)
  /\ (forall k, valid_object_key k = true -> holds t (dir_of b k) (maybe_key (m !! k)))
  /\ (forall n x, t !! [b; "objects"; n] = Some x -> exists k, is_Some (m !! k) /\ n = Base64.raw_url_encode k)
  /\ map_Forall (own_key b) m.
End Layout.

(** ** Names are single components *)

Lemma valid_bucket_plain b : valid_bucket_name b = true -> plain_name b = true.
Proof.
  unfold valid_bucket_name. destruct (_ || _) eqn:El; [done|]. destruct (contains "/" b || _ || _) eqn:Ec; [done|].
  destruct (negb _ || negb _) eqn:Ea; [done|]. destruct (_ || _ || is_ipv4_like b) eqn:Ei; [done|]. intros Hall.
  unfold plain_name. rewrite !andb_true_iff. apply orb_false_iff in El as [El _].
  assert (b <> "" /\ b <> "." /\ b <> "..") as (H1 & H2 & H3) by (repeat split; intros ->; by vm_compute in El).
  repeat split.
  - by destruct b.
  - apply negb_true_iff. unfold str_eqb. by apply bool_decide_eq_false_2.
  - apply negb_true_iff. unfold str_eqb. by apply bool_decide_eq_false_2.
  - revert Hall. apply str_all_impl. intros c Hc. apply negb_true_iff. destruct (Ascii.eqb_spec "/" c) as [<-|]; [|done].
    by vm_compute in Hc.
Qed.
Lemma valid_version_plain v : valid_version_id v = true -> plain_name v = true.
Proof.
  unfold valid_version_id, plain_name. rewrite !andb_true_iff, negb_true_iff. intros [Hv Hall].
  cbn [existsb] in Hv. rewrite !orb_false_iff in Hv. destruct Hv as (H1 & H2 & H3 & _). repeat split.
  - apply negb_true_iff. destruct v; [by vm_compute in H1|done].
  - by rewrite H2.
  - by rewrite H3.
  - revert Hall. apply str_all_impl. intros c Hc. apply negb_true_iff. destruct (Ascii.eqb_spec "/" c) as [<-|]; [|done].
    by vm_compute in Hc.
Qed.
Lemma encoded_name_plain k : k <> "" -> plain_name (Base64.raw_url_encode k) = true.
Proof.
  intros Hne. destruct (Base64.key_names_safe k k) as (Hall & _ & Hempty).
  assert (Base64.raw_url_encode k <> "") as Hn by (intros E; apply Hempty in E as ->; done).
  unfold plain_name. rewrite !andb_true_iff. repeat split.
  - by destruct (Base64.raw_url_encode k).
  - apply negb_true_iff. unfold str_eqb. apply bool_decide_eq_false_2. intros E. by rewrite E in Hall.
  - apply negb_true_iff. unfold str_eqb. apply bool_decide_eq_false_2. intros E. by rewrite E in Hall.
  - revert Hall. apply str_all_impl. intros c Hc. apply negb_true_iff. destruct (Ascii.eqb_spec "/" c) as [<-|]; [|done].
    by vm_compute in Hc.
Qed.
Lemma key_name_plain k : valid_object_key k = true -> plain_name (Base64.raw_url_encode k) = true.
Proof. intros Hk. apply encoded_name_plain. by intros ->. Qed.

Lemma bucket_path_eq b : valid_bucket_name b = true -> bucket_path b = [b].
Proof. intros Hb. unfold bucket_path. by rewrite join_plain by by apply valid_bucket_plain. Qed.
Lemma objects_path_eq b : valid_bucket_name b = true -> objects_path b = base b.
Proof. intros Hb. unfold objects_path. by rewrite bucket_path_eq. Qed.
Lemma object_path_eq b k : valid_bucket_name b = true -> valid_object_key k = true -> object_path b k = dir_of b k.
Proof. intros Hb Hk. unfold object_path. rewrite objects_path_eq by done. by rewrite join_plain by by apply key_name_plain. Qed.
Lemma version_path_eq p v : valid_version_id v = true -> version_path p v = Ok (p ++ ["versions"; v])%list.
Proof.
  intros Hv. unfold version_path. rewrite Hv. cbn [negb]. rewrite (join_plain p) by done.
  rewrite join_plain by by apply valid_version_plain. by rewrite <- app_assoc.
Qed.
Lemma object_json_eq p : object_json p = (p ++ ["object.json"])%list.
Proof. by apply join_plain. Qed.
Lemma body_file_eq p : body_file p = (p ++ ["body"])%list.
Proof. by apply join_plain. Qed.
Lemma dir_of_inj b k k' : dir_of b k = dir_of b k' -> k = k'.
Proof. intros [= E]. by apply (Base64.key_names_safe k k'). Qed.
