(* ===== verification/S3Reads.v ===== *)
(** The steps of the store seen at one directory, and what reading an object, its versions
    and its listings answers. *)

From S2P Require Import Prelude RustStr RustNum RustText SqsTime PubTime S3Codecs Disk S3Store S3Objects S3Config S3Calm.
Local Open Scope string_scope.
Local Open Scope Z_scope.

(** The steps of the store seen at one directory: what each leaves below it, and that
    nothing else changes. *)

(** Every directory on the way to [p], and [p] itself, is there. *)
Definition rooted (t : tree) (p : path) : Prop := forall q, q ∈ prefixes p -> t !! q = Some Dir.
Lemma rooted_no_file t p : rooted t p -> no_file_above t p.
Proof. intros Hr q d Hq. by rewrite (Hr q Hq). Qed.
Lemma below_prefix p q r : q ∈ prefixes p -> below p q = Some r -> q = p.
Proof.
  intros [x ->]%elem_of_prefixes E%below_Some. apply (f_equal length) in E. rewrite !length_app in E.
  destruct x; [by rewrite app_nil_r|simpl in E; lia].
Qed.

(** From [s] to [s'] the directory [p] takes the layout [f], the rest stays. *)
Definition step (p : path) (f : layout) (s s' : Store) : Prop :=
  holds (the_files s') p f /\ same_outside p (the_files s) (the_files s') /\ fixed_version_ids s' = fixed_version_ids s.
Lemma file_step_trans p f1 f2 s s1 s2 : step p f1 s s1 -> step p f2 s1 s2 -> step p f2 s s2.
Proof. intros (_ & E1 & I1) (H2 & E2 & I2). split_and!; [done|by eapply same_outside_trans|congruence]. Qed.
Lemma step_ext p f g s s' : (forall r, f r = g r) -> step p f s s' -> step p g s s'.
Proof. intros E (H1 & H2 & H3). split_and!; [|done|done]. by eapply holds_ext. Qed.
Lemma step_moved p f s t s' : moved s t s' -> holds t p f -> same_outside p (the_files s) t -> step p f s s'.
Proof. intros (Ht & Hi & _) Hf Hs. rewrite <- Ht in *. done. Qed.
Lemma step_still p f s s' : moved s (the_files s) s' -> holds (the_files s) p f -> step p f s s'.
Proof. intros Hm Hf. by eapply step_moved. Qed.
Lemma step_rooted p f s s' : step p f s s' -> f [] = Some EDir -> rooted (the_files s) p -> rooted (the_files s') p.
Proof.
  intros (Hf & Hs & _) Hd Hr q Hq. destruct (below p q) as [r|] eqn:E.
  - apply (below_prefix _ _ _ Hq) in E as ->. eapply holds_Dir in Hf; [|exact Hd]. by rewrite app_nil_r in Hf.
  - rewrite Hs by done. by apply Hr.
Qed.

Section Steps.
Context `{Disk, Clock, Hashes} (Hcalm : calm).

Lemma wp_put s p f r name data (P : string -> Prop) (Q : result StoreError unit -> Store -> Prop) :
  holds (the_files s) p f -> f r = Some EDir -> f (r ++ [name])%list <> Some EDir -> f (r ++ [name +:+ ".tmp"])%list = None ->
  P data -> (forall s', step p (at_ (r ++ [name])%list (Some (EFile P)) f) s s' -> Q (Ok tt) s') ->
  wp (write_atomic (p ++ r ++ [name])%list data) Q s.
Proof.
  intros Hf Hr Hn Ht HP HQ. rewrite app_assoc. apply wp_atomic; [done|..].
  - by eapply holds_Dir.
  - rewrite <- app_assoc. intros E. specialize (Hf (r ++ [name])%list). rewrite E in Hf.
    by destruct (f (r ++ [name])%list) as [[]|].
  - rewrite <- app_assoc. by eapply holds_None.
  - intros s' Hs'. apply HQ. rewrite <- app_assoc in Hs'. eapply step_moved; [exact Hs'| |apply same_outside_insert].
    by apply holds_insert.
Qed.

(** Making directories below [p]. *)
Lemma wp_make_dirs s p f r (Q : result StoreError unit -> Store -> Prop) :
  rooted (the_files s) p -> holds (the_files s) p f -> (forall q P, q ∈ prefixes r -> f q <> Some (EFile P)) ->
  (forall s', step p (dirs_at (prefixes r) f) s s' -> Q (Ok tt) s') ->
  wp (io (fs_create_dir_all (p ++ r)%list)) Q s.
Proof.
  intros Hroot Hf Hr HQ.
  assert (forall q, q ∈ prefixes (p ++ r) <-> q ∈ prefixes p \/ exists q', q' ∈ prefixes r /\ q = (p ++ q')%list) as Hpre.
  { intros q. rewrite !elem_of_prefixes. split.
    - intros [x E]. destruct (decide (length q <= length p)%nat) as [Hl|Hl].
      + left. exists (drop (length q) p). assert (q = take (length q) p) as Eq.
        { apply (f_equal (take (length q))) in E. rewrite take_app_length, take_app_le in E by done. done. }
        rewrite Eq at 1. by rewrite take_drop.
      + right. exists (drop (length p) q). assert (q = p ++ drop (length p) q)%list as Eq.
        { apply (f_equal (take (length p))) in E. rewrite take_app_length, take_app_le in E by lia.
          rewrite E at 1. by rewrite take_drop. }
        split; [|done]. apply elem_of_prefixes. exists x. apply (app_inv_head p). rewrite E, Eq at 1. by rewrite <- app_assoc.
    - intros [[x ->]|(q' & [x ->]%elem_of_prefixes & ->)]; eexists; by rewrite <- app_assoc. }
  apply wp_create_dir_all; [done|..].
  - intros q d Hq E. apply Hpre in Hq as [Hq|(q' & Hq & ->)]; [by rewrite (Hroot q Hq) in E|].
    specialize (Hf q'). rewrite E in Hf. destruct (f q') as [[|P]|] eqn:Eq; try done. by eapply Hr.
  - intros t' s' Hm Ht'. apply HQ. eapply step_moved; [exact Hm|..].
    + intros q. rewrite Ht'. unfold dirs_at. destruct (decide (q ∈ prefixes r)) as [Hq|Hq].
      * rewrite decide_True; [done|]. apply Hpre. right. eauto.
      * destruct (decide (p ++ q ∈ prefixes (p ++ r))%list) as [Hpq|_]; [|apply Hf].
        apply Hpre in Hpq as [Hpq|(q' & Hq' & E%app_inv_head)]; [|by subst q'].
        assert (p ++ q = p)%list as E by (eapply below_prefix; [done|apply below_app]).
        apply (f_equal length) in E. rewrite length_app in E. destruct q; [|simpl in E; lia].
        destruct Hq. apply elem_of_prefixes. eauto.
    + intros q Hq. rewrite Ht'. case_decide as Hd; [|done].
      apply Hpre in Hd as [Hd|(q' & _ & ->)]; [by rewrite (Hroot q Hd)|by rewrite below_app in Hq].
Qed.

(** [let _ = fs::remove_file(..)] *)
Lemma wp_drop s p f r (Q : result StoreError unit -> Store -> Prop) :
  holds (the_files s) p f -> f r <> Some EDir ->
  (forall s', step p (at_ r None f) s s' -> Q (Ok tt) s') -> wp (ignore (fs_remove_file (p ++ r)%list)) Q s.
Proof.
  intros Hf Hr HQ. pose proof (Hf r) as Hn. destruct (the_files s !! (p ++ r)%list) as [[data|]|] eqn:E.
  - eapply wp_ignore; [by eapply runs_remove_file|]. intros s' Hs'. apply HQ.
    eapply step_moved; [exact Hs'| |apply same_outside_delete]. by apply holds_delete.
  - by destruct (f r) as [[]|].
  - eapply wp_ignore.
    { eapply (runs_change Hcalm _ _ _ (inr _)). by rewrite E. }
    intros s' Hs'. apply HQ. eapply step_still; [exact Hs'|]. intros q. unfold at_.
    destruct (decide (q = r)) as [->|]; [by rewrite E|apply Hf].
Qed.

(** [remove_dir_all_if_exists(..)] of a directory that is there. *)
Lemma wp_clear s p f r (Q : result StoreError unit -> Store -> Prop) :
  holds (the_files s) p f -> f r = Some EDir ->
  (forall s', step p (clear_at r f) s s' -> Q (Ok tt) s') -> wp (remove_dir_all_if_exists (p ++ r)%list) Q s.
Proof.
  intros Hf Hr HQ. unfold remove_dir_all_if_exists. apply wp_bind. eapply wp_found.
  { apply runs_remove_dir_all; [done|]. by eapply holds_Dir. }
  intros s' Hs'. simpl. apply wp_ret, HQ. eapply step_moved; [exact Hs'| |apply same_outside_clear]. by apply holds_clear.
Qed.
Lemma wp_clear_none s p (Q : result StoreError unit -> Store -> Prop) :
  the_files s !! p = None -> no_file_above (the_files s) p ->
  (forall s', moved s (the_files s) s' -> Q (Ok tt) s') -> wp (remove_dir_all_if_exists p) Q s.
Proof.
  intros Hp Hn HQ. unfold remove_dir_all_if_exists. apply wp_bind. eapply wp_found.
  { by apply runs_remove_dir_all_none. }
  intros s' Hs'. simpl. apply wp_ret, HQ. done.
Qed.

(** ** An object's directory *)

Context `{Codec Bucket, Codec Object, Codec AclFile} `{!CodecLaws Object, !CodecLaws AclFile}.

(** Only the three files are beside the versions. *)
Definition tidy (top : string -> option entry) : Prop :=
  forall n, match top n with
            | None => True
            | Some EDir => False
            | Some (EFile _) => n = "object.json" \/ n = "body" \/ n = "acl.json"
            end.
Definition set_top (n : string) (e : option entry) (top : string -> option entry) : string -> option entry :=
  fun n' => if str_eqb n' n then e else top n'.
Definition no_top : string -> option entry := fun _ => None.
Lemma tidy_no_top : tidy no_top.
Proof. done. Qed.
Lemma tidy_set_top n P top : n = "object.json" \/ n = "body" \/ n = "acl.json" ->
  tidy top -> tidy (set_top n (Some (EFile P)) top).
Proof.
  intros Hn Ht n'. unfold set_top. destruct (str_eqb n' n) eqn:E; [|apply Ht]. by apply str_eqb_true in E as ->.
Qed.
Lemma tidy_drop_top n top : tidy top -> tidy (set_top n None top).
Proof. intros Ht n'. unfold set_top. destruct (str_eqb n' n); [done|apply Ht]. Qed.
Lemma tidy_key k : tidy (key_top k).
Proof.
  intros n. unfold key_top, body_entry. destruct (str_eqb n "object.json") eqn:E1.
  { apply str_eqb_true in E1 as ->. simpl. auto. }
  destruct (str_eqb n "body") eqn:E2.
  { apply str_eqb_true in E2 as ->. destruct (delete_marker _); simpl; auto. }
  destruct (str_eqb n "acl.json") eqn:E3; [|done].
  apply str_eqb_true in E3 as ->. destruct (k_acl k); simpl; auto.
Qed.
Lemma tidy_not_dir top n : tidy top -> top n <> Some EDir.
Proof. intros Ht E. specialize (Ht n). by rewrite E in Ht. Qed.
Lemma tidy_none top n : tidy top -> n <> "object.json" -> n <> "body" -> n <> "acl.json" -> top n = None.
Proof. intros Ht H1' H2' H3'. specialize (Ht n). destruct (top n) as [[]|]; [done| |done]. destruct Ht as [?|[?|?]]; contradiction. Qed.

Lemma split_top top there vs n : n <> "versions" -> split_layout top there vs [n] = top n.
Proof. intros Hn. simpl. unfold str_eqb. by rewrite bool_decide_eq_false_2. Qed.
Lemma split_set_top n e top there vs r : n <> "versions" ->
  at_ [n] e (split_layout top there vs) r = split_layout (set_top n e top) there vs r.
Proof.
  intros Hn. unfold at_, set_top. destruct r as [|f [|g r]]; [done| |by rewrite decide_False].
  simpl. unfold str_eqb. destruct (decide ([f] = [n])) as [[= ->]|Hne].
  { by rewrite bool_decide_eq_false_2, bool_decide_eq_true_2. }
  rewrite (bool_decide_eq_false_2 (f = n)); [done|]. by intros ->.
Qed.

Lemma wp_put_top s p top there vs n data (P : string -> Prop) (Q : result StoreError unit -> Store -> Prop) :
  holds (the_files s) p (split_layout top there vs) -> tidy top -> n = "object.json" \/ n = "body" \/ n = "acl.json" ->
  P data -> (forall s', step p (split_layout (set_top n (Some (EFile P)) top) there vs) s s' -> Q (Ok tt) s') ->
  wp (write_atomic (p ++ [n])%list data) Q s.
Proof.
  intros Hf Ht Hn HP HQ. assert (n <> "versions" /\ n +:+ ".tmp" <> "versions") as [Hv Hv'] by (by destruct Hn as [->|[->| ->]]).
  eapply (wp_put s p (split_layout top there vs) [] n); [exact Hf|done|..].
  - cbn [app]. rewrite split_top by done. by apply tidy_not_dir.
  - cbn [app]. rewrite split_top by done. apply tidy_none; [done|..]; by destruct Hn as [->|[->| ->]].
  - exact HP.
  - intros s' Hs'. apply HQ. eapply step_ext; [|exact Hs']. intros r. by apply split_set_top.
Qed.
Lemma wp_drop_top s p top there vs n (Q : result StoreError unit -> Store -> Prop) :
  holds (the_files s) p (split_layout top there vs) -> tidy top -> n <> "versions" ->
  (forall s', step p (split_layout (set_top n None top) there vs) s s' -> Q (Ok tt) s') ->
  wp (ignore (fs_remove_file (p ++ [n])%list)) Q s.
Proof.
  intros Hf Ht Hn HQ. eapply wp_drop; [exact Hf|..].
  - rewrite split_top by done. by apply tidy_not_dir.
  - intros s' Hs'. apply HQ. eapply step_ext; [|exact Hs']. intros r. by apply split_set_top.
Qed.

(** A version written whole. *)
Definition there_ok (there : bool) (vs : gmap string (Object * string)) : Prop := there = false -> vs = ∅.
Lemma version_dirs_layout top there vs v o body : there_ok there vs ->
  forall r, at_ ["versions"; v; "body"] (body_entry o body)
              (at_ ["versions"; v; "object.json"] (Some (json_entry o))
                 (dirs_at (prefixes ["versions"; v]) (split_layout top there vs))) r
            = split_layout top true (<[v := (o, body)]> vs) r.
Proof.
  intros Hok r. unfold at_, dirs_at. change (prefixes ["versions"; v]) with [[]; ["versions"]; ["versions"; v]].
  destruct r as [|f r].
  { rewrite !decide_False by done. by rewrite decide_True by set_solver. }
  destruct (decide (f = "versions")) as [->|Hf].
  2: { rewrite !decide_False by set_solver. simpl. unfold str_eqb. by rewrite bool_decide_eq_false_2. }
  destruct r as [|v' r].
  { rewrite !decide_False by done. rewrite decide_True by set_solver. done. }
  destruct (decide (v' = v)) as [->|Hv].
  2: { rewrite !decide_False by set_solver. simpl. by rewrite lookup_insert_ne by congruence. }
  cbn. rewrite lookup_insert_eq. cbn. destruct r as [|g [|? ?]].
  - rewrite !decide_False by done. by rewrite decide_True by set_solver.
  - destruct (decide (g = "body")) as [->|Hg]; [by rewrite decide_True by done|].
    unfold str_eqb.
    rewrite decide_False by congruence. destruct (decide (g = "object.json")) as [->|Hg'].
    { rewrite decide_True; [|done]. by rewrite bool_decide_eq_true_2. }
    rewrite !decide_False by set_solver. destruct (vs !! v); cbn; unfold str_eqb; by repeat case_bool_decide.
  - rewrite !decide_False by set_solver. by destruct (vs !! v).
Qed.

Lemma wp_write_version s p top there vs o body (Q : result StoreError unit -> Store -> Prop) :
  rooted (the_files s) p -> holds (the_files s) p (split_layout top there vs) -> there_ok there vs ->
  valid_version_id (version_id o) = true ->
  (forall s', step p (split_layout top true (<[version_id o := (o, body)]> vs)) s s' -> Q (Ok tt) s') ->
  wp (write_object_version p o body) Q s.
Proof.
  intros Hroot Hf Hok Hv HQ. unfold write_object_version. set (v := version_id o) in *.
  assert (is_empty v = false) as -> by (by destruct v).
  apply wp_bind. unfold version_dir. rewrite version_path_eq by done. apply wp_lift. simpl. apply wp_bind.
  set (f := split_layout top there vs) in *. set (f1 := dirs_at (prefixes ["versions"; v]) f).
  assert (f1 ["versions"; v] = Some EDir) as Hd.
  { unfold f1, dirs_at. rewrite decide_True; [done|]. apply elem_of_prefixes. by exists []. }
  assert (forall g, f1 ["versions"; v; g] = if str_eqb g "object.json" then f ["versions"; v; g]
                    else if str_eqb g "body" then f ["versions"; v; g] else None) as Hg.
  { intros g. unfold f1, dirs_at. change (prefixes ["versions"; v]) with [[]; ["versions"]; ["versions"; v]].
    rewrite decide_False by set_solver. subst f. cbn. destruct (vs !! v); [|by repeat case_match]. cbn. by repeat case_match. }
  assert (forall g, f1 ["versions"; v; g] <> Some EDir) as Hg'.
  { intros g. rewrite Hg. subst f. cbn. destruct (vs !! v) as [[o' b']|]; [|by repeat case_match]. cbn.
    unfold body_entry. by repeat case_match. }
  eapply (wp_make_dirs _ p f ["versions"; v]); [done..| |].
  { intros q P Hq E. apply elem_of_prefixes in Hq as [x Hx]. subst f. destruct q as [|a [|b [|c q]]]; cbn in E; [done| | |done].
    - injection Hx as <- _. unfold str_eqb in E. rewrite bool_decide_eq_true_2 in E by done. by destruct there.
    - injection Hx as <- <- _. unfold str_eqb in E. rewrite bool_decide_eq_true_2 in E by done. by destruct (vs !! v). }
  intros s1 Hs1. fold f1 in Hs1. simpl. apply wp_bind. pose proof (step_rooted _ _ _ _ Hs1) as Hroot1. destruct Hs1 as (Hf1 & Hs1').
  unfold write_json. rewrite object_json_eq. replace ((p ++ ["versions"; v]) ++ ["object.json"])%list
    with (p ++ ["versions"; v] ++ ["object.json"])%list by (by rewrite <- app_assoc).
  eapply (wp_put _ p f1 ["versions"; v] "object.json" _ (fun d => decode d = inl o)); [exact Hf1|exact Hd|apply Hg'| | |].
  { change (f1 ["versions"; v; "object.json.tmp"] = None). by rewrite Hg. }
  { apply decode_encode. }
  intros s2 Hs2. simpl. set (f2 := at_ _ _ _) in Hs2. pose proof Hs2 as (Hf2 & _).
  assert (f2 ["versions"; v] = Some EDir) as Hd2 by (unfold f2, at_; rewrite decide_False by done; exact Hd).
  assert (f2 ["versions"; v; "body"] <> Some EDir) as Hb2 by (unfold f2, at_; rewrite decide_False by done; apply Hg').
  assert (forall s3, step p (at_ ["versions"; v; "body"] (body_entry o body) f2) s2 s3 -> Q (Ok tt) s3) as Hend.
  { intros s3 Hs3. apply HQ. eapply step_ext; [apply (version_dirs_layout _ there)|]; [done|].
    eapply file_step_trans; [|exact Hs3]. eapply file_step_trans; [split; [exact Hf1|exact Hs1']|exact Hs2]. }
  rewrite body_file_eq. replace ((p ++ ["versions"; v]) ++ ["body"])%list
    with (p ++ ["versions"; v] ++ ["body"])%list by (by rewrite <- app_assoc).
  unfold body_entry in Hend. destruct (delete_marker o).
  - by eapply wp_drop.
  - eapply (wp_put _ p f2 ["versions"; v] "body" _ (eq body)); [exact Hf2|exact Hd2|exact Hb2| |reflexivity|exact Hend].
    unfold f2, at_. rewrite decide_False by done. change (f1 ["versions"; v; "body.tmp"] = None). by rewrite Hg.
Qed.
End Steps.

(** One object seen by the store's calls: what reading it, its versions and its bucket
    answers, and how a change of it changes the bucket. *)

(** What lies above a file of the layout is no file. *)
Definition open_to (f : layout) (r : path) : Prop := forall q P, q ∈ prefixes r -> f q <> Some (EFile P).
Lemma no_file_below t p f r : no_file_above t p -> holds t p f -> open_to f r -> no_file_above t (p ++ r)%list.
Proof.
  intros Hn Hf Ho q d Hq E. apply prefixes_app in Hq as [Hq|(q' & Hq & ->)]; [by eapply Hn|].
  specialize (Hf q'). rewrite E in Hf. destruct (f q') as [[|P]|] eqn:Eq; try done. by eapply Ho.
Qed.

Section Reads.
Context `{Disk, Clock, Hashes} (Hcalm : calm).

Lemma wp_read_at {T} `{Codec T} s p f r (x : option T) (Q : result StoreError (option T) -> Store -> Prop) :
  no_file_above (the_files s) p -> holds (the_files s) p f -> (f r = None -> open_to f r) -> f r = json_entry <$> x ->
  (forall s', moved s (the_files s) s' -> Q (Ok x) s') -> wp (read_json_file (p ++ r)%list) Q s.
Proof.
  intros Hn Hf Ho Hr HQ. destruct x as [x|]; simpl in Hr.
  - apply (wp_read_json Hcalm _ _ x); [|done]. destruct (holds_File _ _ _ _ _ Hf Hr) as (d & Hd & Hx). by exists d.
  - apply wp_read_json_none; [done|by eapply holds_None| |done]. eapply no_file_below; eauto.
Qed.

Context `{Codec Bucket, Codec Object, Codec AclFile} `{!CodecLaws Bucket, !CodecLaws Object, !CodecLaws AclFile}.

Lemma no_version v : versions_of None !! v = None.
Proof. apply lookup_empty. Qed.
Lemma open_file x n : maybe_key x [n] = None -> open_to (maybe_key x) [n].
Proof.
  intros Hn q P Hq E. apply elem_of_prefixes in Hq as [r Hr]. destruct q as [|a [|? ?]]; [by destruct x| |done].
  injection Hr as <- _. by rewrite Hn in E.
Qed.
Lemma open_version x v n : maybe_key x ["versions"; v; n] = None -> open_to (maybe_key x) ["versions"; v; n].
Proof.
  intros Hn q P Hq E. apply elem_of_prefixes in Hq as [r Hr]. destruct x as [y|]; [|done].
  destruct q as [|a [|c [|d [|? ?]]]]; [done|..].
  - injection Hr as <- _. simpl in E. by destruct (negb _).
  - injection Hr as <- <- _. simpl in E. by destruct (k_versions y !! v).
  - injection Hr as <- <- <- _. by rewrite Hn in E.
  - done.
Qed.

(** ** One object *)

Record at_key (t : tree) (b : string) (B : Bucket) (k : string) (x : option Key) : Prop := mkAt {
  ak_name : valid_bucket_name b = true;
  ak_key : valid_object_key k = true;
  ak_root : t !! [] = Some Dir;
  ak_dir : t !! [b] = Some Dir;
  ak_json : json_at t [b; "bucket.json"] B;
  ak_base : t !! base b = Some Dir \/ t !! base b = None /\ x = None;
  ak_holds : holds t (dir_of b k) (maybe_key x);
  ak_own : forall y, x = Some y -> own_key b k y }.

(** Nothing else has changed but for the directory of objects. *)
Definition frame (b k : string) (t t' : tree) : Prop :=
  forall q, below (dir_of b k) q = None -> q <> base b -> t' !! q = t !! q.
Lemma frame_refl b k t : frame b k t t.
Proof. done. Qed.
Lemma frame_trans b k t1 t2 t3 : frame b k t1 t2 -> frame b k t2 t3 -> frame b k t1 t3.
Proof. intros H1' H2' q Hq Hb. by rewrite H2', H1'. Qed.
Lemma frame_outside b k t t' : same_outside (dir_of b k) t t' -> frame b k t t'.
Proof. intros Hs q Hq _. by apply Hs. Qed.

Lemma bucket_at_key t b B m k : bucket_at t b B m -> valid_object_key k = true -> at_key t b B k (m !! k).
Proof.
  intros (Hb & H1' & H2' & H3' & _ & H4' & H5' & _ & H7') Hk. split; auto.
  - destruct H4' as [?|[? ->]]; [by left|right]. by rewrite lookup_empty.
Qed.
Lemma bucket_json_not_below b k : below (dir_of b k) [b; "bucket.json"] = None.
Proof. apply below_None. intros r. by destruct r. Qed.
Lemma above_not_below b k : below (dir_of b k) [] = None /\ below (dir_of b k) [b] = None /\ below (dir_of b k) (base b) = None.
Proof. split_and!; apply below_None; by intros [|? ?]. Qed.

(** A call that leaves [x] under [k] leaves the rest of the bucket. *)
Lemma key_back t t' b B m k x : bucket_at t b B m -> at_key t' b B k x -> frame b k t t' ->
  (t' !! base b = None -> forall n, t' !! (base b ++ [n])%list = None) ->
  bucket_at t' b B (partial_alter (fun _ => x) k m).
Proof.
  intros (Hb & H1' & H2' & H3' & Hbes & H4' & H5' & H6' & H7') Hk Hfr Hbase. destruct Hk as [_ K1 K2 K3 K4 K5 K6 K7].
  assert (forall k', k' <> k -> forall r, t' !! (dir_of b k' ++ r)%list = t !! (dir_of b k' ++ r)%list) as Hother.
  { intros k' Hne r. apply Hfr; [|done]. apply below_None. intros r' [= E]. destruct Hne. by apply (Base64.key_names_safe k' k). }
  split_and!; [done..| | | | |].
  - intros n y Hy. destruct (decide ([b; n] = base b)) as [[= ->]|Hne].
    + destruct K5 as [K5|[K5 _]]; change (base b) with [b; "objects"] in K5; rewrite K5 in Hy; [|done].
      injection Hy as <-. simpl. set_solver.
    + apply Hbes. rewrite <- Hfr; [done| |done]. apply below_None. by intros [|? ?].
  - destruct K5 as [K5|[K5 _]]; [by left|right]. split; [done|]. apply map_eq. intros k'. rewrite lookup_empty.
    specialize (Hbase K5 (Base64.raw_url_encode k')). change (base b ++ [_])%list with (dir_of b k') in Hbase.
    destruct (decide (k' = k)) as [->|Hne].
    + rewrite lookup_partial_alter_eq. specialize (K6 []). rewrite app_nil_r, Hbase in K6. by destruct x.
    + rewrite lookup_partial_alter_ne by done. destruct (m !! k') as [y|] eqn:Ey; [|done].
      assert (valid_object_key k' = true) as Hk' by (by apply (H7' _ _ Ey)).
      specialize (H5' k' Hk' []). rewrite app_nil_r, Ey in H5'. rewrite <- (app_nil_r (dir_of b k')), Hother, app_nil_r in Hbase by done.
      by rewrite Hbase in H5'.
  - intros k' Hk'. destruct (decide (k' = k)) as [->|Hne]; [by rewrite lookup_partial_alter_eq|].
    rewrite lookup_partial_alter_ne by done. eapply holds_same; [by apply Hother|auto].
  - intros n y Hn. destruct (decide (n = Base64.raw_url_encode k)) as [->|Hne].
    + exists k. split; [|done]. rewrite lookup_partial_alter_eq. specialize (K6 []). rewrite app_nil_r in K6.
      unfold dir_of in K6. rewrite Hn in K6. destruct x; [done|]. by destruct y.
    + rewrite Hfr in Hn; [|apply below_None; intros r' [= E _]; congruence|done].
      destruct (H6' _ _ Hn) as (k' & Hk' & ->). exists k'. split; [|done]. rewrite lookup_partial_alter_ne; [done|]. congruence.
  - intros k' y Hy. destruct (decide (k' = k)) as [->|Hne].
    + rewrite lookup_partial_alter_eq in Hy. by apply K7.
    + rewrite lookup_partial_alter_ne in Hy by done. by apply H7'.
Qed.

Section OneKey.
Context (b : string) (B : Bucket) (k : string).
Implicit Types (x : option Key) (s : Store).
Abbreviation dir := (dir_of b k).

Lemma at_key_moved s s' x : at_key (the_files s) b B k x -> moved s (the_files s) s' -> at_key (the_files s') b B k x.
Proof. by intros Ha (-> & _). Qed.
Lemma at_key_open t x : at_key t b B k x -> no_file_above t dir.
Proof.
  intros [_ _ K1 K2 _ K4 K5 _] q d Hq E.
  change (prefixes dir) with [[]; [b]; base b; dir] in Hq. rewrite !elem_of_cons in Hq.
  destruct Hq as [->|[->|[->|[->|[]%elem_of_nil]]]]; rewrite ?E in *; try done; [naive_solver|].
  specialize (K5 []). rewrite app_nil_r, E in K5. by destruct x.
Qed.
Lemma at_key_rooted t (x : Key) : at_key t b B k (Some x) -> rooted t dir.
Proof.
  intros [_ _ K1 K2 _ K4 K5 _] q Hq.
  change (prefixes dir) with [[]; [b]; base b; dir] in Hq. rewrite !elem_of_cons in Hq.
  destruct Hq as [->|[->|[->|[->|[]%elem_of_nil]]]]; try done; [naive_solver|].
  specialize (K5 []). rewrite app_nil_r in K5. by destruct (t !! dir) as [[]|].
Qed.
(** The same while the object's directory is being rewritten. *)
Record open_key (t : tree) (f : layout) : Prop := mkOpen {
  op_name : valid_bucket_name b = true;
  op_key : valid_object_key k = true;
  op_json : json_at t [b; "bucket.json"] B;
  op_rooted : rooted t dir;
  op_holds : holds t dir f }.
Lemma at_key_opened t (x : Key) : at_key t b B k (Some x) -> open_key t (key_layout x).
Proof. intros Ha. split; try apply Ha. by eapply at_key_rooted. Qed.
Lemma open_key_step s s' f g : open_key (the_files s) f -> step dir g s s' -> g [] = Some EDir -> open_key (the_files s') g.
Proof.
  intros [K1 K2 (d & Hd & Hx) K4 K5] Hs Hg. split; [done..| | |apply Hs].
  - exists d. split; [|done]. destruct Hs as (_ & Ho & _). rewrite Ho; [done|apply bucket_json_not_below].
  - by eapply step_rooted.
Qed.
Lemma open_key_closed t f x : open_key t f -> (forall r, f r = maybe_key x r) ->
  (forall y, x = Some y -> own_key b k y) -> at_key t b B k x.
Proof.
  intros [K1 K2 K3 K4 K5] Hr Hown. split; [done..| | |done| |by eapply holds_ext|done].
  - apply K4. apply elem_of_prefixes. by eexists.
  - apply K4. apply elem_of_prefixes. by exists ["objects"; Base64.raw_url_encode k].
  - left. apply K4. apply elem_of_prefixes. by exists [Base64.raw_url_encode k].
Qed.
Lemma open_key_moved s s' f : open_key (the_files s) f -> moved s (the_files s) s' -> open_key (the_files s') f.
Proof. by intros Ho (-> & _). Qed.

Lemma wp_the_bucket s x (Q : result StoreError Bucket -> Store -> Prop) :
  at_key (the_files s) b B k x -> (forall s', moved s (the_files s) s' -> Q (Ok B) s') -> wp (the_bucket b) Q s.
Proof.
  intros Ha HQ. unfold the_bucket, get_bucket. rewrite (ak_name _ _ _ _ _ Ha). cbn [negb]. apply wp_bind.
  rewrite bucket_path_eq by apply Ha. rewrite join_plain by done.
  apply (wp_read_json Hcalm _ _ B); [apply Ha|]. intros s' Hs'. apply wp_lift. by apply HQ.
Qed.
Lemma wp_require s x (Q : result StoreError unit -> Store -> Prop) :
  at_key (the_files s) b B k x -> (forall s', moved s (the_files s) s' -> Q (Ok tt) s') -> wp (require_bucket_and_key b k) Q s.
Proof.
  intros Ha HQ. unfold require_bucket_and_key, get_bucket. rewrite (ak_name _ _ _ _ _ Ha), (ak_key _ _ _ _ _ Ha). cbn [negb].
  apply wp_bind. rewrite bucket_path_eq by apply Ha. rewrite join_plain by done.
  apply (wp_read_json Hcalm _ _ B); [apply Ha|]. intros s' Hs'. by apply HQ.
Qed.

Lemma wp_read_current s x (Q : result StoreError (option Object) -> Store -> Prop) :
  at_key (the_files s) b B k x -> (forall s', moved s (the_files s) s' -> Q (Ok (k_current <$> x)) s') ->
  wp (read_object (object_json (object_path b k))) Q s.
Proof.
  intros Ha HQ. rewrite object_path_eq by apply Ha. rewrite object_json_eq. unfold read_object.
  eapply (wp_read_at _ dir (maybe_key x) ["object.json"] (k_current <$> x)); [by eapply at_key_open|apply Ha|apply open_file|by destruct x|done].
Qed.
Lemma wp_read_acl s x (Q : result StoreError (option AclFile) -> Store -> Prop) :
  at_key (the_files s) b B k x -> (forall s', moved s (the_files s) s' -> Q (Ok (acl_of x)) s') ->
  wp (read_json_file (join (object_path b k) "acl.json")) Q s.
Proof.
  intros Ha HQ. rewrite object_path_eq by apply Ha. rewrite join_plain by done.
  eapply (wp_read_at _ dir (maybe_key x) ["acl.json"] (acl_of x)); [by eapply at_key_open|apply Ha|apply open_file|by destruct x|done].
Qed.
Lemma wp_read_body s (x : Key) (Q : result StoreError string -> Store -> Prop) :
  at_key (the_files s) b B k (Some x) -> delete_marker (k_current x) = false ->
  (forall s', moved s (the_files s) s' -> Q (Ok (k_body x)) s') -> wp (io (fs_read (body_file (object_path b k)))) Q s.
Proof.
  intros Ha Hm HQ. rewrite object_path_eq by apply Ha. rewrite body_file_eq.
  assert (maybe_key (Some x) ["body"] = Some (EFile (eq (k_body x)))) as E.
  { cbn. unfold key_top, body_entry. by rewrite Hm. }
  destruct (holds_File _ _ _ _ _ (ak_holds _ _ _ _ _ Ha) E) as (d & Hd & <-).
  eapply wp_io; [by apply runs_read|]. exact HQ.
Qed.
Lemma wp_read_version s x v (Q : result StoreError (option Object) -> Store -> Prop) :
  at_key (the_files s) b B k x ->
  (forall s', moved s (the_files s) s' -> Q (Ok (fst <$> versions_of x !! v)) s') ->
  wp (read_object (object_json (dir ++ ["versions"; v])%list)) Q s.
Proof.
  intros Ha HQ. rewrite object_json_eq, <- app_assoc. unfold read_object.
  eapply (wp_read_at _ dir (maybe_key x) ["versions"; v; "object.json"] (fst <$> versions_of x !! v));
    [by eapply at_key_open|apply Ha|apply open_version| |done].
  destruct x as [y|]; [|by rewrite no_version]. simpl. by destruct (k_versions y !! v).
Qed.
Lemma wp_read_version_body s x v ob (Q : result StoreError string -> Store -> Prop) :
  at_key (the_files s) b B k x -> versions_of x !! v = Some ob -> delete_marker ob.1 = false ->
  (forall s', moved s (the_files s) s' -> Q (Ok ob.2) s') ->
  wp (io (fs_read (body_file (dir ++ ["versions"; v])%list))) Q s.
Proof.
  intros Ha Hv Hm HQ. rewrite body_file_eq, <- app_assoc.
  assert (maybe_key x ["versions"; v; "body"] = Some (EFile (eq ob.2))) as E.
  { destruct x as [y|]; [|by rewrite no_version in Hv]. simpl in *. rewrite Hv. cbn. unfold body_entry. by rewrite Hm. }
  destruct (holds_File _ _ _ _ _ (ak_holds _ _ _ _ _ Ha) E) as (d & Hd & <-).
  eapply wp_io; [by apply runs_read|]. exact HQ.
Qed.
Lemma wp_with_version_body s x v ob (Q : result StoreError (option (Object * string)) -> Store -> Prop) :
  at_key (the_files s) b B k x -> versions_of x !! v = Some ob ->
  (forall s', moved s (the_files s) s' -> Q (Ok (Some ob)) s') -> wp (with_body ob.1 (dir ++ ["versions"; v])%list) Q s.
Proof.
  intros Ha Hv HQ. unfold with_body. destruct ob as [o body]. simpl. destruct (delete_marker o) eqn:Em.
  - apply wp_ret. destruct x as [y|]; [|by rewrite no_version in Hv]. simpl in Hv.
    destruct (ak_own _ _ _ _ _ Ha y eq_refl) as (_ & _ & _ & _ & Hall). apply Hall in Hv as (_ & _ & _ & Hb).
    simpl in Hb. rewrite <- (Hb Em) at 1. by apply HQ.
  - apply wp_bind. apply (wp_read_version_body _ x v (o, body)); [done..|]. intros s' Hs'. simpl. apply wp_ret. by apply HQ.
Qed.
Lemma wp_with_current_body s (x : Key) (Q : result StoreError (option (Object * string)) -> Store -> Prop) o :
  at_key (the_files s) b B k (Some x) -> delete_marker o = delete_marker (k_current x) ->
  (forall s', moved s (the_files s) s' -> Q (Ok (Some (o, k_body x))) s') -> wp (with_body o (object_path b k)) Q s.
Proof.
  intros Ha Ho HQ. unfold with_body. rewrite Ho. destruct (delete_marker (k_current x)) eqn:Em.
  - apply wp_ret. destruct (ak_own _ _ _ _ _ Ha x eq_refl) as (_ & _ & _ & Hb & _). rewrite <- (Hb Em). by apply HQ.
  - apply wp_bind. apply (wp_read_body _ x); [done..|]. intros s' Hs'. simpl. apply wp_ret. by apply HQ.
Qed.

(** ** What reading answers *)

(** The object itself; a delete marker answers as if there were none. *)
Definition shown (x : option Key) : option (Object * string) :=
  y ← x; if delete_marker (k_current y) then None else Some (k_current y, k_body y).
(** The version [null]: the one stored so, or the object put before versioning. *)
Definition null_version (x : option Key) : option (Object * string) :=
  match versions_of x !! "null" with
  | Some ob => Some ob
  | None => y ← x; if is_empty (version_id (k_current y)) || str_eqb (version_id (k_current y)) "null"
                   then Some (set_version_id "null" (k_current y), k_body y) else None
  end.
Definition shown_version (x : option Key) (v : string) : option (Object * string) :=
  if is_empty v then shown x else if str_eqb v "null" then null_version x else versions_of x !! v.

Lemma wp_get_object s x (Q : result StoreError (option (Object * string)) -> Store -> Prop) :
  at_key (the_files s) b B k x -> (forall s', moved s (the_files s) s' -> Q (Ok (shown x)) s') -> wp (get_object b k) Q s.
Proof.
  intros Ha HQ. unfold get_object. apply wp_bind. eapply wp_require; [done|]. intros s1 M1. simpl. apply wp_bind.
  pose proof (at_key_moved _ _ _ Ha M1) as Ha1. eapply wp_read_current; [done|]. intros s2 M2.
  pose proof (at_key_moved _ _ _ Ha1 M2) as Ha2.
  assert (forall s3, moved s2 (the_files s2) s3 -> Q (Ok (shown x)) s3) as HQ2.
  { intros s3 M3. apply HQ. destruct M1 as (E1 & ? & ?), M2 as (E2 & ? & ?), M3 as (E3 & ? & ?). split_and!; congruence. }
  clear HQ. destruct x as [y|]; simpl; [|by apply wp_ret, HQ2]. unfold shown in HQ2. cbn in HQ2.
  destruct (delete_marker (k_current y)) eqn:Em; [by apply wp_ret, HQ2|]. apply wp_bind.
  eapply wp_read_body; [done..|]. intros s3 M3. simpl. by apply wp_ret, HQ2.
Qed.
End OneKey.
End Reads.
