(* ===== verification/S3Calls.v ===== *)
(** The calls on one object: what putting and deleting leave, and that the current object
    rebuilt from its versions is the latest of them. *)

From S2P Require Import Prelude RustStr RustNum RustText SqsTime PubTime S3Codecs Disk S3Store S3Objects S3Config S3Calm S3Reads.
Local Open Scope string_scope.
Local Open Scope Z_scope.

Lemma still_in_place s s1 s2 : moved s (the_files s) s1 -> moved s1 (the_files s1) s2 -> moved s (the_files s) s2.
Proof. intros (E1 & ? & ?) (E2 & ? & ?). split_and!; congruence. Qed.

(** ** Layouts of an object being put *)

Section Layouts.
Context `{Codec Bucket, Codec Object, Codec AclFile}.

Definition top_of (x : option Key) : string -> option entry := from_option key_top no_top x.
Definition made_layout (x : option Key) : layout :=
  split_layout (top_of x) (negb (no_versions (versions_of x))) (versions_of x).
Lemma split_ext top top' there vs r : (forall f, top f = top' f) -> split_layout top there vs r = split_layout top' there vs r.
Proof. intros E. destruct r as [|f [|g r]]; [done| |done]. simpl. by rewrite E. Qed.
Lemma tidy_of x : tidy (top_of x).
Proof. destruct x; [apply tidy_key|apply tidy_no_top]. Qed.
Lemma there_no_versions vs : there_ok (negb (no_versions vs)) vs.
Proof. unfold there_ok, no_versions. intros E%negb_false_iff. by apply bool_decide_eq_true_1 in E. Qed.

Lemma put_top_layout o body x f : delete_marker o = false ->
  set_top "object.json" (Some (json_entry o)) (set_top "body" (Some (EFile (eq body))) (top_of x)) f
  = key_top (put_key o body x) f.
Proof.
  intros Hm. unfold set_top, key_top. simpl. unfold body_entry. rewrite Hm.
  destruct (str_eqb f "object.json") eqn:E1; [done|]. destruct (str_eqb f "body") eqn:E2; [done|].
  destruct x as [y|]; [|by destruct (str_eqb f "acl.json")]. simpl. unfold key_top. by rewrite E1, E2.
Qed.
Lemma marker_top_layout o x f : delete_marker o = true ->
  set_top "body" None (set_top "object.json" (Some (json_entry o)) (top_of x)) f = key_top (put_key o "" x) f.
Proof.
  intros Hm. unfold set_top, key_top. simpl. unfold body_entry. rewrite Hm.
  destruct (str_eqb f "body") eqn:E2.
  { apply str_eqb_true in E2 as ->. done. }
  destruct (str_eqb f "object.json") eqn:E1; [done|].
  destruct x as [y|]; [|by destruct (str_eqb f "acl.json")]. simpl. unfold key_top. by rewrite E1, E2.
Qed.
Lemma versions_there o body vs : version_id o <> "" ->
  no_versions (with_version o body vs) = false /\ with_version o body vs = <[version_id o := (o, body)]> vs.
Proof.
  intros Hv. unfold with_version. assert (is_empty (version_id o) = false) as -> by (by destruct (version_id o)).
  split; [|done]. unfold no_versions. apply bool_decide_eq_false_2. apply insert_non_empty.
Qed.
Lemma put_layout top o body x r : (forall f, top f = key_top (put_key o body x) f) ->
  version_id o = "" -> split_layout top (negb (no_versions (versions_of x))) (versions_of x) r = key_layout (put_key o body x) r.
Proof.
  intros Ht Hv. unfold key_layout. simpl. unfold with_version. rewrite Hv. simpl. by apply split_ext.
Qed.
Lemma put_layout_version top o body x r : (forall f, top f = key_top (put_key o body x) f) ->
  version_id o <> "" -> split_layout top true (<[version_id o := (o, body)]> (versions_of x)) r = key_layout (put_key o body x) r.
Proof.
  intros Ht Hv. unfold key_layout. simpl. destruct (versions_there o body (versions_of x) Hv) as [-> ->]. by apply split_ext.
Qed.
Lemma own_put b k o body x : valid_object_key k = true -> (forall y, x = Some y -> own_key b k y) -> own_object b k o ->
  version_id o = "" \/ valid_version_id (version_id o) = true -> (delete_marker o = true -> body = "") ->
  own_key b k (put_key o body x).
Proof.
  intros Hk Hx Ho Hv Hm. split_and!; [done|apply Ho..|done|done|]. simpl.
  assert (map_Forall (fun v ob => valid_version_id v = true /\ version_id ob.1 = v /\ own_object b k ob.1
    /\ (delete_marker ob.1 = true -> ob.2 = "")) (versions_of x)) as Hvs.
  { destruct x as [y|]; [|apply map_Forall_empty]. by apply (Hx y eq_refl). }
  unfold with_version. destruct (is_empty (version_id o)) eqn:E; [done|].
  apply map_Forall_insert_2; [|done]. simpl. split_and!; [|done|apply Ho..|done]. destruct Hv as [Hv|Hv]; [by rewrite Hv in E|done].
Qed.
End Layouts.

(** ** The later of two versions *)

Lemma instant_after_spec a b : instant_after a b = true <-> b.1 < a.1 \/ (b.1 = a.1 /\ b.2 < a.2).
Proof. unfold instant_after. rewrite orb_true_iff, andb_true_iff, !Z.ltb_lt, Z.eqb_eq. done. Qed.
Lemma instant_after_false a b : instant_after a b = false <-> a.1 < b.1 \/ (b.1 = a.1 /\ a.2 <= b.2).
Proof. unfold instant_after. rewrite orb_false_iff, andb_false_iff, !Z.ltb_ge, Z.eqb_neq. lia. Qed.
Definition id_after (a b : Object) : bool := match String.compare (version_id a) (version_id b) with Gt => true | _ => false end.
Lemma id_after_trans a b c : id_after a b = true -> id_after c b = false -> id_after c a = false.
Proof.
  unfold id_after. pose proof (total_string (fun _ => True)) as T. intros E1 E2.
  pose proof (tc_trans _ _ T (version_id c) (version_id b) (version_id a)) as Ht.
  pose proof (tc_gt _ _ T (version_id a) (version_id b)) as Hg.
  destruct (String.compare (version_id a) (version_id b)); try done.
  destruct (String.compare (version_id c) (version_id a)); try done.
  exfalso. apply Ht; auto. by destruct (String.compare (version_id c) (version_id b)).
Qed.
Lemma stays_latest_spec l o : stays_latest l o = true <->
  let a := instant_of (last_modified l) in let c := instant_of (last_modified o) in
  c.1 < a.1 \/ (c.1 = a.1 /\ (c.2 < a.2 \/ (c.2 = a.2 /\ id_after o l = false))).
Proof.
  cbv zeta. unfold stays_latest, time_after. rewrite orb_true_iff, andb_true_iff, negb_true_iff, instant_after_spec, instant_after_false.
  assert (forall c, match c with Gt => false | _ => true end = negb (match c with Gt => true | _ => false end)) as -> by by intros [].
  change (match String.compare _ _ with Gt => true | _ => false end) with (id_after o l). destruct (id_after o l); simpl; lia.
Qed.
Lemma stays_latest_trans l o o' : stays_latest l o = false -> stays_latest l o' = true -> stays_latest o o' = true.
Proof.
  intros Hn. assert (~ stays_latest l o = true) as Hn' by by rewrite Hn. revert Hn'. rewrite !stays_latest_spec. cbv zeta.
  pose proof (id_after_trans o l o') as Ht. destruct (id_after o l), (id_after o' l), (id_after o' o); lia.
Qed.
Lemma id_after_refl o : id_after o o = false.
Proof. unfold id_after. by rewrite string_compare_refl. Qed.
Lemma stays_latest_refl o : stays_latest o o = true.
Proof. apply stays_latest_spec. cbv zeta. rewrite id_after_refl. lia. Qed.

Section Calls.
Context `{Disk, Clock, Hashes, Build} (Hcalm : calm).
Context `{Codec Bucket, Codec Object, Codec AclFile} `{!CodecLaws Bucket, !CodecLaws Object, !CodecLaws AclFile}.
Context `{!HashLaws}.
Abbreviation St := (ME StoreError Store).

Section OneKey.
Context (b : string) (B : Bucket) (k : string).
Implicit Types (x : option Key) (s : Store).
Abbreviation dir := (dir_of b k).
Abbreviation now_key s x := (at_key (the_files s) b B k x).
Abbreviation now_open s f := (open_key b B k (the_files s) f).

(** What a call may use up of the queue of identifiers. *)
Definition ids_left (s s' : Store) : Prop := fixed_version_ids s' `suffix_of` fixed_version_ids s.
(** The object is now [x] and nothing else has changed; without objects their
    directory may be gone. *)
Definition becomes (s s' : Store) x : Prop :=
  now_key s' x /\ frame b k (the_files s) (the_files s') /\ ids_left s s'
  /\ (the_files s' !! base b = None -> forall n, the_files s' !! (base b ++ [n])%list = None).

Lemma becomes_still s s' x : now_key s x -> moved s (the_files s) s' ->
  (forall n, the_files s !! base b = None -> the_files s !! (base b ++ [n])%list = None) -> becomes s s' x.
Proof.
  intros Ha (E & Hi & _) Hb. unfold becomes. rewrite E. split_and!; [done..| |auto].
  unfold ids_left. by rewrite Hi.
Qed.

(** ** Reading a version *)

Lemma wp_null_version s x (Q : result StoreError (option (Object * string)) -> Store -> Prop) :
  now_key s x -> (forall s', moved s (the_files s) s' -> Q (Ok (null_version x)) s') -> wp (get_null_object_version b k) Q s.
Proof.
  intros Ha HQ. unfold get_null_object_version, object_versions_path.
  assert (join (join (object_path b k) "versions") NULL_VERSION_ID = dir ++ ["versions"; "null"])%list as ->.
  { rewrite object_path_eq by apply Ha. rewrite (join_plain dir) by done. rewrite join_plain by done. by rewrite <- app_assoc. }
  apply wp_bind. eapply wp_read_version; [done..|]. intros s1 M1. pose proof (at_key_moved _ _ _ _ _ _ Ha M1) as Ha1.
  unfold null_version in HQ. simpl. destruct (versions_of x !! "null") as [ob|] eqn:E; simpl.
  - eapply wp_with_version_body; [done..|]. intros s2 M2. by apply HQ, (still_in_place s s1).
  - apply wp_bind. eapply wp_read_current; [done..|]. intros s2 M2. pose proof (at_key_moved _ _ _ _ _ _ Ha1 M2) as Ha2.
    pose proof (still_in_place _ _ _ M1 M2) as M. destruct x as [y|]; simpl; [|by apply wp_ret, HQ]. simpl in HQ.
    set (o := k_current y) in *.
    assert (negb (is_empty (version_id o)) && negb (str_eqb (version_id o) NULL_VERSION_ID)
            = negb (is_empty (version_id o) || str_eqb (version_id o) "null")) as -> by by rewrite negb_orb.
    destruct (is_empty (version_id o) || str_eqb (version_id o) "null"); simpl; [|by apply wp_ret, HQ].
    eapply wp_with_current_body; [done..|]. intros s3 M3. apply HQ. by eapply still_in_place.
Qed.
Lemma wp_get_version s x v (Q : result StoreError (option (Object * string)) -> Store -> Prop) :
  now_key s x ->
  (forall s', moved s (the_files s) s' ->
     Q (if is_empty v || valid_version_id v then Ok (shown_version x v) else Err InvalidVersionId) s') ->
  wp (get_object_version b k v) Q s.
Proof.
  intros Ha HQ. unfold get_object_version. unfold shown_version in HQ. destruct (is_empty v) eqn:Ev; simpl in HQ.
  { by eapply wp_get_object. }
  apply wp_bind. eapply wp_require; [done..|]. intros s1 M1. pose proof (at_key_moved _ _ _ _ _ _ Ha M1) as Ha1. simpl. apply wp_bind.
  assert (forall s2, moved s1 (the_files s1) s2 ->
    Q (if valid_version_id v then Ok (if str_eqb v "null" then null_version x else versions_of x !! v) else Err InvalidVersionId) s2)
    as HQ1 by (intros s2 M2; by apply HQ, (still_in_place s s1)).
  assert (forall s2, moved s1 (the_files s1) s2 -> str_eqb v "null" = false \/ null_version x = None ->
     wp (path ← version_dir (object_path b k) v; o ← read_object (object_json path);
         match o with None => mret None | Some object => with_body object path end) Q s2) as Hrest.
  { intros s2 M2 Hn. pose proof (at_key_moved _ _ _ _ _ _ Ha1 M2) as Ha2. apply wp_bind. unfold version_dir.
    rewrite object_path_eq by apply Ha. destruct (valid_version_id v) eqn:Hv.
    2: { apply wp_lift. unfold version_path. rewrite Hv. simpl. by apply HQ1. }
    rewrite version_path_eq by done. apply wp_lift. simpl. apply wp_bind. eapply wp_read_version; [done..|]. intros s3 M3.
    pose proof (at_key_moved _ _ _ _ _ _ Ha2 M3) as Ha3. simpl. pose proof (still_in_place _ _ _ M2 M3) as M.
    assert ((if str_eqb v "null" then null_version x else versions_of x !! v) = versions_of x !! v) as Er.
    { destruct (str_eqb v "null") eqn:E; [|done]. destruct Hn as [|Hn]; [done|]. apply str_eqb_true in E as ->.
      unfold null_version in *. by destruct (versions_of x !! "null"). }
    rewrite Er in HQ1. destruct (versions_of x !! v) as [ob|] eqn:E; simpl; [|by apply wp_ret, HQ1].
    eapply wp_with_version_body; [done..|]. intros s4 M4. by apply HQ1, (still_in_place s1 s3). }
  change NULL_VERSION_ID with "null". destruct (str_eqb v "null") eqn:En.
  - eapply wp_null_version; [done|]. intros s2 M2. simpl. destruct (null_version x) as [ob|] eqn:E; [|by apply Hrest; auto].
    apply wp_ret. apply str_eqb_true in En as ->. by apply HQ1.
  - apply wp_ret. simpl. apply Hrest; [done|by left].
Qed.

(** ** Putting *)

(** The version id a put or a delete marker takes. *)
Definition fits_versioning (status v : string) : Prop :=
  if str_eqb status "Enabled" then valid_version_id v = true
  else v = if str_eqb status "Suspended" then "null" else "".

Lemma random_id_valid nanos seq : valid_version_id (random_id nanos seq) = true.
Proof.
  unfold random_id. destruct (splitmix64 _) as [st a]. destruct (splitmix64 st) as [st' c].
  set (raw := be64 a +:+ be64 c). assert (String.length (hex_encode raw) = 32%nat) as Hl.
  { rewrite hex_encode_length. subst raw. rewrite str_length_app. done. }
  unfold valid_version_id. apply andb_true_iff. split.
  - apply negb_true_iff. cbn [existsb]. rewrite !orb_false_iff. unfold str_eqb.
    split_and!; try done; apply bool_decide_eq_false_2; intros E; by rewrite E in Hl.
  - eapply str_all_impl; [|apply hex_encode_lower]. intros ch Hc. apply negb_true_iff. cbn [existsb].
    assert (forall d, is_ascii_digit d || in_range "a" "f" d = false -> Ascii.eqb ch d = false) as Hd.
    { intros d Hd. destruct (Ascii.eqb_spec ch d) as [->|]; [congruence|done]. }
    by rewrite !Hd.
Qed.
Lemma wp_new_id s (Q : result StoreError string -> Store -> Prop) :
  Forall (fun v => valid_version_id v = true) (fixed_version_ids s) ->
  (forall v s', the_files s' = the_files s -> ids_left s s' -> valid_version_id v = true -> Q (Ok v) s') -> wp new_version_id Q s.
Proof.
  intros Hids HQ. apply wp_new_version_id. intros v s' Hf Hv Hi. apply HQ; [done|..].
  - unfold ids_left. rewrite Hi. destruct (fixed_version_ids s) as [|i l]; [done|]. by apply suffix_cons_r.
  - destruct Hv as [Hv|(n & q & ->)]; [|apply random_id_valid]. by eapply Forall_forall in Hids.
Qed.
Lemma wp_version_for s status (Q : result StoreError string -> Store -> Prop) :
  Forall (fun v => valid_version_id v = true) (fixed_version_ids s) ->
  (forall v s', the_files s' = the_files s -> ids_left s s' -> fits_versioning status v -> Q (Ok v) s') ->
  wp (version_for status) Q s.
Proof.
  intros Hids HQ. unfold version_for. unfold fits_versioning in HQ. destruct (str_eqb status "Enabled"); [by apply wp_new_id|].
  destruct (str_eqb status "Suspended"); apply wp_ret; (apply HQ; [done|unfold ids_left; reflexivity|done]).
Qed.

Lemma wp_preserve s x (Q : result StoreError unit -> Store -> Prop) :
  now_key s x -> (forall s', moved s (the_files s) s' -> Q (Ok tt) s') -> wp (preserve_current_resumable_upload b k) Q s.
Proof.
  intros Ha HQ. unfold preserve_current_resumable_upload. apply wp_bind. eapply wp_read_current; [done..|].
  intros s1 M1. simpl. destruct x as [y|]; simpl; [|by apply wp_ret, HQ].
  destruct (ak_own _ _ _ _ _ Ha y eq_refl) as (_ & (_ & _ & Hr) & _). unfold preserve_resumable_upload_result.
  rewrite Hr. simpl. by apply wp_ret, HQ.
Qed.
Lemma wp_preserve_open s x (Q : result StoreError unit -> Store -> Prop) :
  now_open s (made_layout x) -> (forall y, x = Some y -> own_key b k y) ->
  (forall s', moved s (the_files s) s' -> Q (Ok tt) s') -> wp (preserve_current_resumable_upload b k) Q s.
Proof.
  intros Ho Hown HQ. unfold preserve_current_resumable_upload. rewrite object_path_eq by apply Ho. rewrite object_json_eq.
  apply wp_bind. unfold read_object.
  eapply (wp_read_at Hcalm _ dir (made_layout x) ["object.json"] (k_current <$> x));
    [eapply rooted_no_file, op_rooted, Ho|apply Ho| |by destruct x|].
  - intros E q P Hq E'. apply elem_of_prefixes in Hq as [r Hr]. destruct q as [|a [|? ?]]; [done| |done].
    injection Hr as <- _. by rewrite E in E'.
  - intros s1 M1. simpl. destruct x as [y|]; simpl; [|by apply wp_ret, HQ].
    destruct (Hown y eq_refl) as (_ & (_ & _ & Hr) & _). unfold preserve_resumable_upload_result.
    rewrite Hr. simpl. by apply wp_ret, HQ.
Qed.

(** The object's directory made; what was in it stays. *)
Lemma wp_key_dir s x (Q : result StoreError unit -> Store -> Prop) :
  now_key s x ->
  (forall s', now_open s' (made_layout x) -> frame b k (the_files s) (the_files s') ->
     fixed_version_ids s' = fixed_version_ids s -> Q (Ok tt) s') ->
  wp (io (fs_create_dir_all (object_path b k))) Q s.
Proof.
  intros Ha HQ. rewrite object_path_eq by apply Ha. apply wp_create_dir_all; [done|by eapply at_key_open|].
  intros t' s' (E & Hi & _) Ht'. destruct (ak_json _ _ _ _ _ Ha) as (d & Hd & Hx).
  assert (forall q, below dir q = None -> q <> base b -> t' !! q = the_files s !! q) as Hfr.
  { intros q Hq Hb. rewrite Ht'. case_decide as Hp; [|done].
    change (prefixes dir) with [[]; [b]; base b; dir] in Hp. rewrite !elem_of_cons in Hp.
    destruct Hp as [->|[->|[->|[->|[]%elem_of_nil]]]]; [by rewrite (ak_root _ _ _ _ _ Ha)|by rewrite (ak_dir _ _ _ _ _ Ha)|done|].
    assert (below dir dir = Some []) as Hc by (rewrite <- (app_nil_r dir) at 2; apply below_app). by rewrite Hc in Hq. }
  apply HQ; rewrite ?E; [|exact Hfr|done]. split; try apply Ha.
  - exists d. split; [|done]. rewrite Hfr; [done|apply bucket_json_not_below|done].
  - intros q Hq. rewrite Ht'. by rewrite decide_True.
  - intros r. rewrite Ht'. case_decide as Hp.
    + assert (r = []) as -> by (apply (app_inv_head dir); rewrite app_nil_r; eapply below_prefix; [done|apply below_app]). done.
    + pose proof (ak_holds _ _ _ _ _ Ha r) as Hr. destruct x as [y|]; [exact Hr|].
      destruct r as [|f r]; [destruct Hp; apply elem_of_prefixes; by exists []|].
      assert (made_layout None (f :: r) = None) as ->; [|exact Hr].
      simpl. destruct (str_eqb f "versions"); [|by destruct r]. destruct r as [|v r]; [done|]. simpl. by rewrite no_version.
Qed.

(** The object as a put makes it. *)
Definition put_result (input : PutObjectInput) (r : ObjectRetention) (ts v : string) : Object :=
  set_version_id v (new_object input r ts "").
Definition not_err {E A} (r : result E A) : Prop := match r with Err _ => False | _ => True end.
Lemma not_err_bind {E A C} (r : result E A) (f : A -> result E C) : not_err r -> (forall a, not_err (f a)) -> not_err (r ≫= f).
Proof. destruct r; simpl; auto. Qed.
Lemma not_err_checked {E} z : not_err (checked_i64 (E := E) z).
Proof. unfold checked_i64. destruct (in_i64 z); [done|]. by destruct overflow_checks. Qed.
Lemma not_err_days {E} y m d : not_err (days_i64 (E := E) y m d).
Proof. unfold days_i64. destruct (days_from_civil_checked y m d); [done|]. by destruct overflow_checks. Qed.
Lemma not_err_years {E} value years : not_err (add_calendar_years_rfc3339 (E := E) value years).
Proof.
  unfold add_calendar_years_rfc3339. destruct (parse_rfc3339 value) as [[secs n]|]; [|done]. destruct (civil_from_days _) as [[y m] d].
  repeat (apply not_err_bind; [apply not_err_checked || apply not_err_days|]; intros ?). done.
Qed.
Lemma chosen_not_err input ts e : chosen_retention input B ts <> Err e.
Proof.
  assert (not_err (chosen_retention input B ts)) as Hn; [|by intros E; rewrite E in Hn].
  unfold chosen_retention. destruct (is_empty _); [|done]. unfold default_object_retention. cbv zeta.
  destruct (is_empty _); [done|]. destruct (0 <? _).
  - destruct (parse_rfc3339 ts) as [[secs n]|]; [|done]. repeat (apply not_err_bind; [apply not_err_checked|]; intros ?). done.
  - destruct (0 <? _); [|done]. apply not_err_bind; [apply not_err_years|done].
Qed.
Lemma fits_valid status v : fits_versioning status v -> v = "" \/ valid_version_id v = true.
Proof. unfold fits_versioning. repeat case_match; intros; subst; auto. Qed.

Lemma wp_put_object s x input (Q : result StoreError Object -> Store -> Prop) :
  now_key s x -> pi_bucket input = b -> pi_key input = k ->
  Forall (fun v => valid_version_id v = true) (fixed_version_ids s) ->
  (forall s' e, moved s (the_files s) s' -> md5_checked (pi_content_md5 input) (pi_body input) = Err e -> Q (Err e) s') ->
  (forall ts why s', moved s (the_files s) s' -> chosen_retention input B ts = Panic why -> Q (Panic why) s') ->
  (forall ts r v s', md5_checked (pi_content_md5 input) (pi_body input) = Ok tt -> chosen_retention input B ts = Ok r ->
     fits_versioning (versioning B) v ->
     becomes s s' (Some (put_key (put_result input r ts v) (pi_body input) x)) -> Q (Ok (put_result input r ts v)) s') ->
  wp (put_object input) Q s.
Proof.
  intros Ha Hib Hik Hids HE HP HQ. unfold put_object, put_object_locked, put_object_with_resumable_id_locked.
  rewrite Hib, Hik, (ak_name _ _ _ _ _ Ha), (ak_key _ _ _ _ _ Ha). cbn [negb guard_err].
  apply wp_bind, wp_ret, wp_bind, wp_ret. simpl. apply wp_bind. eapply wp_the_bucket; [done..|]. intros s1 M1. simpl.
  apply wp_bind, wp_lift. destruct (md5_checked _ _) as [[]|e|why] eqn:Emd; simpl.
  2: { by apply HE. }
  2: { unfold md5_checked in Emd. unfold validate_content_md5 in Emd. by repeat case_match. }
  apply wp_bind. eapply wp_store_now. intros ts s2 M2. simpl. pose proof (still_in_place _ _ _ M1 M2) as M. clear M1 M2.
  apply wp_bind, wp_lift. destruct (chosen_retention input B ts) as [r|e|why] eqn:Er; simpl; [|by apply chosen_not_err in Er|by eapply HP].
  apply wp_bind. apply wp_version_for; [by destruct M as (_ & -> & _)|]. intros v s3 F3 I3 Hv. simpl.
  assert (now_key s3 x) as Ha3 by (rewrite F3; by eapply at_key_moved).
  assert (ids_left s s3) as I by (unfold ids_left in *; by destruct M as (_ & <- & _)).
  assert (the_files s3 = the_files s) as F by (rewrite F3; apply M). clear I3 F3 M.
  change (set_version_id v (new_object input r ts "")) with (put_result input r ts v). set (o := put_result input r ts v) in *.
  apply wp_bind. eapply wp_key_dir; [done|]. intros s4 O4 F4 I4. simpl.
  apply wp_bind. eapply wp_preserve_open; [done|apply Ha|]. intros s5 M5. simpl.
  assert (now_open s5 (made_layout x)) as O5 by by eapply open_key_moved.
  rewrite object_path_eq by apply Ha. rewrite body_file_eq, object_json_eq.
  apply wp_bind. eapply (wp_put_top Hcalm _ dir (top_of x) _ _ "body" _ (eq (pi_body input))); [apply O5|apply tidy_of|auto|done|].
  intros s6 S6. simpl. pose proof (open_key_step _ _ _ _ _ _ _ O5 S6 eq_refl) as O6.
  apply wp_bind. unfold write_json.
  eapply (wp_put_top Hcalm _ dir _ _ _ "object.json" _ (fun d => decode d = inl o)); [apply O6|by apply tidy_set_top; [auto|apply tidy_of]|auto|apply decode_encode|].
  intros s7 S7. simpl. pose proof (open_key_step _ _ _ _ _ _ _ O6 S7 eq_refl) as O7. pose proof (file_step_trans _ _ _ _ _ _ S6 S7) as S.
  assert (forall f, set_top "object.json" (Some (json_entry o)) (set_top "body" (Some (EFile (eq (pi_body input)))) (top_of x)) f
            = key_top (put_key o (pi_body input) x) f) as Htop by (intros f; by apply put_top_layout).
  assert (own_key b k (put_key o (pi_body input) x)) as Hown.
  { apply own_put; [apply Ha|apply Ha|by split_and!|by eapply fits_valid|done]. }
  assert (forall s8 f, step dir f s5 s8 -> (forall r, f r = key_layout (put_key o (pi_body input) x) r) -> now_open s8 f ->
            becomes s s8 (Some (put_key o (pi_body input) x))) as Hdone.
  { intros s8 f S8 Hf O8. split_and!.
    - eapply open_key_closed; [exact O8|exact Hf|]. by intros y [= <-].
    - rewrite <- F. eapply frame_trans; [exact F4|]. destruct M5 as (<- & _). apply frame_outside, S8.
    - unfold ids_left. destruct S8 as (_ & _ & ->). destruct M5 as (_ & -> & _). by rewrite I4.
    - intros E. exfalso. rewrite (op_rooted _ _ _ _ _ O8 (base b)) in E; [done|].
      apply elem_of_prefixes. by exists [Base64.raw_url_encode k]. }
  apply wp_bind. change (version_id o) with v. destruct (is_empty v) eqn:Ev; simpl.
  - apply wp_ret. simpl. apply wp_ret. apply (HQ ts r v); [done..|]. eapply Hdone; [exact S| |exact O7].
    intros p. apply put_layout; [exact Htop|]. by apply is_empty_true in Ev.
  - assert (v <> "") as Hne by by intros ->. destruct (fits_valid _ _ Hv) as [|Hvv]; [done|].
    eapply (wp_write_version Hcalm _ dir _ _ _ o); [apply O7|apply O7|apply there_no_versions|exact Hvv|].
    intros s8 S8. simpl. apply wp_ret. apply (HQ ts r v); [done..|].
    eapply Hdone; [by eapply file_step_trans| |by eapply open_key_step].
    intros p. by apply put_layout_version.
Qed.

(** ** Deleting *)

(** Whether the lock is asked: not for a marker over a marker. *)
Definition lock_asked (y : Key) : bool := negb (versioned B && delete_marker (k_current y)).
Lemma fits_versioned v : fits_versioning (versioning B) v -> versioned B = true -> valid_version_id v = true.
Proof.
  unfold fits_versioning, versioned. destruct (str_eqb _ "Enabled"); [done|]. simpl. intros -> ->. done.
Qed.
Lemma wp_marker_version s (Q : result StoreError string -> Store -> Prop) :
  Forall (fun v => valid_version_id v = true) (fixed_version_ids s) -> versioned B = true ->
  (forall v s', the_files s' = the_files s -> ids_left s s' -> fits_versioning (versioning B) v -> Q (Ok v) s') ->
  wp (if str_eqb (versioning B) "Suspended" then mret NULL_VERSION_ID else new_version_id : St string) Q s.
Proof.
  intros Hids Hv HQ. unfold fits_versioning in HQ. unfold versioned in Hv. destruct (str_eqb (versioning B) "Suspended") eqn:Es.
  - apply wp_ret. apply HQ; [done|unfold ids_left; reflexivity|]. by apply str_eqb_true in Es as ->.
  - rewrite orb_false_r in Hv. rewrite Hv in HQ. by apply wp_new_id.
Qed.
Lemma preserve_own o p s (Q : result StoreError unit -> Store -> Prop) :
  own_object b k o -> Q (Ok tt) s -> wp (preserve_resumable_upload_result o p) Q s.
Proof. intros (_ & _ & Hr) HQ. unfold preserve_resumable_upload_result. rewrite Hr. simpl. by apply wp_ret. Qed.

(** The object's directory removed whole. *)
Definition nothing : layout := fun _ => None.
Lemma clear_all f r : clear_at [] f r = nothing r.
Proof. done. Qed.
Lemma gone_key s s' f :
  now_open s f -> step dir nothing s s' -> now_key s' None /\ the_files s' !! base b = Some Dir.
Proof.
  intros [K1 K2 (d & Hd & Hx) K4 K5] (Hf & Ho & _). destruct (above_not_below b k) as (N1 & N2 & N3).
  assert (the_files s' !! base b = Some Dir) as Hb.
  { rewrite Ho by done. apply K4. apply elem_of_prefixes. by exists [Base64.raw_url_encode k]. }
  split; [|done]. split; [done..| | | |by left|exact Hf|done].
  - rewrite Ho by done. apply K4. apply elem_of_prefixes. by eexists.
  - rewrite Ho by done. apply K4. apply elem_of_prefixes. by exists ["objects"; Base64.raw_url_encode k].
  - exists d. split; [|done]. rewrite Ho; [done|apply bucket_json_not_below].
Qed.
Lemma wp_remove_key s f (Q : result StoreError unit -> Store -> Prop) :
  now_open s f -> f [] = Some EDir -> (forall s', step dir nothing s s' -> Q (Ok tt) s') ->
  wp (remove_dir_all_if_exists dir) Q s.
Proof.
  intros Ho Hd HQ. replace dir with (dir ++ [])%list by apply app_nil_r. eapply (wp_clear Hcalm _ _ f); [apply Ho|done|].
  intros s' S'. apply HQ. by eapply step_ext; [|exact S'].
Qed.

Lemma wp_delete_object s x bypass (Q : result StoreError (Object * bool) -> Store -> Prop) :
  now_key s x -> Forall (fun v => valid_version_id v = true) (fixed_version_ids s) ->
  (forall s', moved s (the_files s) s' -> x = None -> Q (Ok (no_object, false)) s') ->
  (forall y ts s', moved s (the_files s) s' -> x = Some y -> lock_asked y = true ->
     object_lock_prevents_delete (k_current y) ts bypass = true -> Q (Err ObjectLocked) s') ->
  (forall y ts ts' v s', x = Some y -> (lock_asked y = true -> object_lock_prevents_delete (k_current y) ts' bypass = false) ->
     versioned B = true -> fits_versioning (versioning B) v ->
     becomes s s' (Some (put_key (delete_marker_object b k v ts) "" x)) -> Q (Ok (delete_marker_object b k v ts, true)) s') ->
  (forall y ts s', x = Some y -> object_lock_prevents_delete (k_current y) ts bypass = false -> versioned B = false ->
     becomes s s' None -> Q (Ok (no_object, true)) s') ->
  wp (delete_object_with_result b k bypass) Q s.
Proof.
  intros Ha Hids HN HL HM HD. unfold delete_object_with_result, delete_object_with_result_locked.
  rewrite (ak_name _ _ _ _ _ Ha), (ak_key _ _ _ _ _ Ha). cbn [negb guard_err].
  apply wp_bind, wp_ret, wp_bind, wp_ret. simpl. apply wp_bind. eapply wp_the_bucket; [done..|]. intros s1 M1. simpl.
  pose proof (at_key_moved _ _ _ _ _ _ Ha M1) as Ha1. apply wp_bind. rewrite object_path_eq by apply Ha. apply wp_exists; [done|].
  intros s2 M2. simpl. pose proof (still_in_place _ _ _ M1 M2) as M. pose proof (at_key_moved _ _ _ _ _ _ Ha1 M2) as Ha2. clear M1 M2.
  pose proof (ak_holds _ _ _ _ _ Ha1 []) as Hd. rewrite app_nil_r in Hd. destruct x as [y|].
  2: { destruct (the_files s1 !! dir) as [[]|]; try done. rewrite bool_decide_eq_false_2 by (by intros [? ?]). simpl. apply wp_ret. auto. }
  destruct (the_files s1 !! dir) as [[]|] eqn:Ed; try done. rewrite bool_decide_eq_true_2 by by eexists. simpl. clear Ed Hd Ha1 s1.
  apply wp_bind. unfold read_current_object_metadata. eapply wp_read_current; [done..|]. intros s3 M3. simpl.
  pose proof (at_key_moved _ _ _ _ _ _ Ha2 M3) as Ha3. pose proof (still_in_place _ _ _ M M3) as M'. clear M M3 Ha2 s2.
  destruct (ak_own _ _ _ _ _ Ha3 y eq_refl) as (_ & Hown & _).
  assert (forall s4, moved s3 (the_files s3) s4 ->
    (exists ts, lock_asked y = true -> object_lock_prevents_delete (k_current y) ts bypass = false) ->
    wp (if versioned B then
          now ← now;
          version ← (if str_eqb (versioning B) "Suspended" then mret NULL_VERSION_ID else new_version_id : St string);
          let marker := delete_marker_object b k version now in
          write_json (object_json dir) marker;;
          write_object_version dir marker "";;
          ignore (fs_remove_file (body_file dir));;
          mret (marker, true)
        else
          io (fs_remove_dir_all dir);; ignore (fs_remove_dir (objects_path b));; mret (no_object, true)) Q s4) as Hrest.
  { intros s4 M4 [ts0 Hlock]. pose proof (still_in_place _ _ _ M' M4) as M. pose proof (at_key_moved _ _ _ _ _ _ Ha3 M4) as Ha4.
    clear M' M4 Ha3. destruct (versioned B) eqn:Hv.
    - apply wp_bind, wp_store_now. intros ts s5 M5. simpl. pose proof (at_key_moved _ _ _ _ _ _ Ha4 M5) as Ha5.
      pose proof (still_in_place _ _ _ M M5) as M'. apply wp_bind. apply wp_marker_version; [by destruct M' as (_ & -> & _)|done|].
      intros v s6 F6 I6 Hf. simpl. assert (now_key s6 (Some y)) as Ha6 by by rewrite F6.
      set (mk := delete_marker_object b k v ts). pose proof (at_key_opened _ _ _ _ _ Ha6) as O6.
      rewrite object_json_eq, body_file_eq. apply wp_bind. unfold write_json.
      eapply (wp_put_top Hcalm _ dir (key_top y) _ _ "object.json" _ (fun d => decode d = inl mk)); [apply O6|apply tidy_key|auto|apply decode_encode|].
      intros s7 S7. simpl. pose proof (open_key_step _ _ _ _ _ _ _ O6 S7 eq_refl) as O7. apply wp_bind.
      pose proof (fits_versioned v Hf Hv) as Hvv.
      eapply (wp_write_version Hcalm _ dir _ _ _ mk); [apply O7|apply O7|apply there_no_versions|exact Hvv|]. intros s8 S8. simpl.
      pose proof (open_key_step _ _ _ _ _ _ _ O7 S8 eq_refl) as O8. apply wp_bind.
      eapply (wp_drop_top Hcalm _ dir _ _ _ "body"); [apply O8|apply tidy_set_top; [auto|apply tidy_key]|done|].
      intros s9 S9. simpl. apply wp_ret.
      assert (forall r, split_layout (set_top "body" None (set_top "object.json" (Some (json_entry mk)) (key_top y))) true
               (<[version_id mk:=(mk, "")]> (k_versions y)) r = key_layout (put_key mk "" (Some y)) r) as Hlay.
      { intros r. apply (put_layout_version _ mk "" (Some y)); [|by intros E; change (version_id mk) with v in E; rewrite E in Hvv].
        intros f. by apply (marker_top_layout mk (Some y)). }
      apply (HM y ts ts0 v); [done|done|done|done|]. split_and!.
      + eapply open_key_closed; [by eapply open_key_step|exact Hlay|]. intros z [= <-].
        apply own_put; [apply Ha4|apply Ha4|by split_and!|by right|done].
      + apply frame_outside. destruct M' as (<- & _). rewrite <- F6. eapply same_outside_trans; [apply S7|].
        eapply same_outside_trans; [apply S8|apply S9].
      + unfold ids_left. destruct S9 as (_ & _ & ->), S8 as (_ & _ & ->), S7 as (_ & _ & ->). destruct M' as (_ & <- & _). exact I6.
      + intros E. exfalso. pose proof (open_key_step _ _ _ _ _ _ _ O8 S9 eq_refl) as O9.
        rewrite (op_rooted _ _ _ _ _ O9 (base b)) in E; [done|]. apply elem_of_prefixes. by exists [Base64.raw_url_encode k].
    - pose proof (at_key_opened _ _ _ _ _ Ha4) as O4. apply wp_bind. eapply wp_io.
      { apply runs_remove_dir_all; [done|]. replace dir with (dir ++ [])%list by apply app_nil_r. eapply holds_Dir; [apply O4|done]. }
      intros s5 M5. simpl.
      assert (step dir nothing s4 s5) as S5.
      { eapply step_moved; [exact M5|..].
        - replace dir with (dir ++ [])%list at 1 by apply app_nil_r. eapply holds_ext; [|eapply holds_clear, O4]. done.
        - replace dir with (dir ++ [])%list at 2 by apply app_nil_r. apply same_outside_clear. }
      destruct (gone_key _ _ _ O4 S5) as [Ha5 Hb5]. rewrite objects_path_eq by apply Ha. apply wp_bind.
      eapply wp_ignore; [by apply runs_remove_dir|]. intros s6 (E6 & I6 & _). simpl. apply wp_ret.
      destruct (above_not_below b k) as (N1 & N2 & N3).
      assert (forall q, q <> base b -> the_files s6 !! q = the_files s5 !! q) as Hsame.
      { intros q Hq. rewrite E6. destruct (entry_names _ _); [by rewrite lookup_delete_ne|done]. }
      apply (HD y ts0); [done| |done|].
      { apply Hlock. unfold lock_asked. by rewrite Hv. }
      destruct Ha5 as [A1 A2 A3 A4 (d & Hd & Hx) A6 A7 A8]. split_and!.
      + split; [done|done|by rewrite Hsame|by rewrite Hsame| | | |done].
        * exists d. split; [|done]. by rewrite Hsame.
        * rewrite E6. destruct (entry_names _ _); [right; by rewrite lookup_delete_eq|by left].
        * intros r. rewrite Hsame; [apply A7|]. done.
      + intros q Hq Hb. rewrite Hsame by done. destruct S5 as (_ & S5 & _). rewrite S5 by done. by destruct M as (-> & _).
      + unfold ids_left. rewrite I6. destruct S5 as (_ & _ & ->). by destruct M as (_ & -> & _).
      + intros E n. rewrite Hsame by done. rewrite E6 in E. destruct (entry_names (the_files s5) (base b)) as [|n' l] eqn:En.
        * destruct (the_files s5 !! (base b ++ [n])%list) as [nd|] eqn:Enn; [|done].
          assert (n ∈ entry_names (the_files s5) (base b)) as Hin by (apply elem_of_entry_names; eauto). rewrite En in Hin. by apply elem_of_nil in Hin.
        * by rewrite Hb5 in E. }
  apply wp_bind. destruct (versioned B && delete_marker (k_current y)) eqn:Hmm; simpl.
  - apply wp_bind, wp_ret. simpl. apply preserve_own; [done|]. simpl. apply Hrest; [done|]. exists "". unfold lock_asked. by rewrite Hmm.
  - apply wp_bind, wp_bind, wp_store_now. intros ts s4 M4. simpl. apply wp_guard; intros Hl; simpl.
    + apply (HL y ts); [by eapply still_in_place|done|unfold lock_asked; by rewrite Hmm|done].
    + apply preserve_own; [done|]. simpl. apply Hrest; [done|]. by exists ts.
Qed.
End OneKey.
End Calls.

(** Deleting one version: the current object is rebuilt as the latest of the versions
    that remain, whatever the order in which their directory is read. *)

Section Rebuild.
Context `{Disk, Clock, Hashes, Build} (Hcalm : calm) `{!DiskLaws}.
Context `{Codec Bucket, Codec Object, Codec AclFile} `{!CodecLaws Bucket, !CodecLaws Object, !CodecLaws AclFile}.
Context `{!HashLaws}.
Abbreviation St := (ME StoreError Store).
Context (b : string) (B : Bucket) (k : string).
Implicit Types (x : option Key) (s : Store) (vs : gmap string (Object * string)).
Abbreviation dir := (dir_of b k).
Abbreviation now_key s x := (at_key (the_files s) b B k x).
Abbreviation now_open s f := (open_key b B k (the_files s) f).

Definition own_versions vs : Prop :=
  map_Forall (fun v ob => valid_version_id v = true /\ version_id ob.1 = v /\ own_object b k ob.1
                          /\ (delete_marker ob.1 = true -> ob.2 = "")) vs.
(** The object as its versions make it. *)
Definition rebuilt vs (acl : option AclFile) x : Prop :=
  match x with
  | None => vs = ∅
  | Some y => exists v, latest_version vs v (k_current y) (k_body y) /\ k_versions y = vs /\ k_acl y = acl
  end.
(** The latest version is one. *)
Lemma latest_unique vs v o body v' o' body' : own_versions vs ->
  latest_version vs v o body -> latest_version vs v' o' body' -> v = v' /\ o = o' /\ body = body'.
Proof.
  intros Hown [H1' H2'] [H3' H4']. destruct (decide (v = v')) as [<-|Hne]; [naive_solver|]. exfalso.
  specialize (H2' _ _ _ H3' (not_eq_sym Hne)). specialize (H4' _ _ _ H1' Hne). apply stays_latest_spec in H2', H4'. cbv zeta in H2', H4'.
  assert (id_after o' o = false /\ id_after o o' = false) as [E1 E2]
    by (destruct (id_after o' o), (id_after o o'); lia).
  apply Hown in H1' as (_ & <- & _), H3' as (_ & <- & _). simpl in *. apply Hne. unfold id_after in *.
  pose proof (total_string (fun _ => True)) as T. pose proof (tc_anti _ _ T (version_id o) (version_id o') I I) as Ha.
  destruct (String.compare (version_id o) (version_id o')) eqn:E; [|rewrite Ha in E1; done|done].
  by apply String.compare_eq_iff in E.
Qed.

Definition latest_so_far vs (done : list string) (acc : option (Object * string)) : Prop :=
  match acc with
  | None => done = []
  | Some (o, body) => exists v, v ∈ done /\ vs !! v = Some (o, body)
      /\ forall v' o' body', v' ∈ done -> vs !! v' = Some (o', body') -> v' <> v -> stays_latest o o' = true
  end.
Lemma latest_step_keep vs done l body name o body' : vs !! name = Some (o, body') -> stays_latest l o = true ->
  latest_so_far vs done (Some (l, body)) -> latest_so_far vs (done ++ [name]) (Some (l, body)).
Proof.
  intros Hn Hs (v & Hv & Hl & Hall). exists v. split_and!; [set_solver|done|]. intros v' o' b' Hin Hv' Hne.
  apply elem_of_app in Hin as [Hin|Hin]; [by eapply Hall|]. apply list_elem_of_singleton in Hin as ->. by simplify_eq.
Qed.
Lemma latest_step_take vs done acc name o body : vs !! name = Some (o, body) ->
  (match acc with Some (l, _) => stays_latest l o | None => false end) = false ->
  latest_so_far vs done acc -> latest_so_far vs (done ++ [name]) (Some (o, body)).
Proof.
  intros Hn Hs Ha. exists name. split_and!; [set_solver|done|]. intros v' o' b' Hin Hv' Hne.
  apply elem_of_app in Hin as [Hin|Hin]; [|by apply list_elem_of_singleton in Hin as ->].
  destruct acc as [[l lb]|]; simpl in Ha; [|subst done; by apply elem_of_nil in Hin].
  destruct Ha as (v & Hv & Hl & Hall). apply (stays_latest_trans l); [done|].
  destruct (decide (v' = v)) as [->|Hne']; [|by eapply Hall]. simplify_eq. apply stays_latest_refl.
Qed.
Lemma latest_done vs names acc : (forall v, v ∈ names <-> is_Some (vs !! v)) -> latest_so_far vs names acc ->
  match acc with None => vs = ∅ | Some (o, body) => exists v, latest_version vs v o body end.
Proof.
  intros Hn. destruct acc as [[o body]|]; simpl.
  - intros (v & Hv & Hl & Hall). exists v. split; [done|]. intros v' o' b' Hv'. eapply Hall; [|done]. apply Hn. eauto.
  - intros ->. apply map_eq. intros v. rewrite lookup_empty. destruct (vs !! v) eqn:E; [|done].
    assert (v ∈ []) as Hv by (apply Hn; eauto). by apply elem_of_nil in Hv.
Qed.

(** ** Reading all versions *)

Section Versions.
Context (top : string -> option entry) (vs : gmap string (Object * string)) (Hown : own_versions vs).
Abbreviation f := (split_layout top true vs).

Lemma version_names s : now_open s f -> forall v, v ∈ entry_names (the_files s) (dir ++ ["versions"])%list <-> is_Some (vs !! v).
Proof.
  intros Ho v. rewrite elem_of_entry_names, <- app_assoc. pose proof (op_holds _ _ _ _ _ Ho ["versions"; v]) as Hv.
  simpl in Hv. destruct (vs !! v) as [ob|] eqn:E; simpl in Hv; (split; [|]); intros Hs.
  - by eexists.
  - cbn. destruct (the_files s !! _) as [nd|]; [by eexists|done].
  - cbn in Hs. destruct (the_files s !! _) as [nd|]; [by destruct nd|]. by destruct Hs.
  - by destruct Hs.
Qed.
Lemma wp_version_meta s v ob (Q : result StoreError (option Object) -> Store -> Prop) :
  now_open s f -> vs !! v = Some ob -> (forall s', moved s (the_files s) s' -> Q (Ok (Some ob.1)) s') ->
  wp (read_object (object_json (dir ++ ["versions"; v])%list)) Q s.
Proof.
  intros Ho Hv HQ. rewrite object_json_eq, <- app_assoc. unfold read_object.
  assert (f ["versions"; v; "object.json"] = Some (json_entry ob.1)) as Hf by (simpl; by rewrite Hv).
  eapply (wp_read_at Hcalm _ dir f ["versions"; v; "object.json"] (Some ob.1));
    [eapply rooted_no_file, op_rooted, Ho|apply Ho|by rewrite Hf|exact Hf|exact HQ].
Qed.
Lemma wp_version_bytes s v ob (Q : result StoreError string -> Store -> Prop) :
  now_open s f -> vs !! v = Some ob -> (forall s', moved s (the_files s) s' -> Q (Ok ob.2) s') ->
  wp (if delete_marker ob.1 then mret "" else io (fs_read (body_file (dir ++ ["versions"; v])%list)) : St string) Q s.
Proof.
  intros Ho Hv HQ. destruct (Hown _ _ Hv) as (_ & _ & _ & Hm). destruct (delete_marker ob.1) eqn:Em.
  - apply wp_ret. rewrite <- (Hm eq_refl). by apply HQ.
  - assert (f ["versions"; v; "body"] = Some (EFile (eq ob.2))) as Hf.
    { simpl. rewrite Hv. cbn. unfold body_entry. by rewrite Em. }
    destruct (holds_File _ _ _ _ _ (op_holds _ _ _ _ _ Ho) Hf) as (d & Hd & <-).
    rewrite body_file_eq, <- app_assoc. eapply wp_io; [by apply runs_read|]. exact HQ.
Qed.
Lemma wp_latest_of s names (Q : result StoreError (option (Object * string)) -> Store -> Prop) :
  now_open s f -> (forall v, v ∈ names <-> is_Some (vs !! v)) ->
  (forall acc s', moved s (the_files s) s' ->
     match acc with None => vs = ∅ | Some (o, body) => exists v, latest_version vs v o body end -> Q (Ok acc) s') ->
  wp (latest_of (dir ++ ["versions"])%list names) Q s.
Proof.
  intros Ho Hn HQ. unfold latest_of.
  apply (wp_for_each (fun left acc s' => moved s (the_files s) s' /\ exists done, names = (done ++ left)%list /\ latest_so_far vs done acc)).
  - intros name left acc s1 (M1 & done & -> & Hacc). pose proof (open_key_moved _ _ _ _ _ _ Ho M1) as Ho1.
    assert (is_Some (vs !! name)) as [[o body] Hv] by (apply Hn; set_solver).
    destruct (Hown _ _ Hv) as (Hvv & _). rewrite join_plain by by apply valid_version_plain. rewrite <- app_assoc. cbn [app].
    apply wp_bind. apply (wp_entry_is_dir Hcalm _ _ Dir).
    { eapply holds_Dir; [apply Ho1|]. simpl. by rewrite Hv. }
    intros s2 M2. simpl. pose proof (open_key_moved _ _ _ _ _ _ Ho1 M2) as Ho2. pose proof (still_in_place _ _ _ M1 M2) as M.
    apply wp_bind. apply (wp_version_meta _ _ (o, body)); [done..|]. intros s3 M3. simpl.
    pose proof (open_key_moved _ _ _ _ _ _ Ho2 M3) as Ho3. pose proof (still_in_place _ _ _ M M3) as M'.
    apply wp_bind, wp_lift. simpl. destruct (match acc with Some (l, _) => stays_latest l o | None => false end) eqn:Es.
    + apply wp_ret. split; [done|]. exists (done ++ [name])%list. split; [by rewrite <- app_assoc|].
      destruct acc as [[l lb]|]; [|done]. by eapply latest_step_keep.
    + apply wp_bind. apply (wp_version_bytes _ _ (o, body)); [done..|]. intros s4 M4. simpl. apply wp_ret.
      split; [by eapply still_in_place|]. exists (done ++ [name])%list. split; [by rewrite <- app_assoc|]. by eapply latest_step_take.
  - intros acc s' (M & done & -> & Hacc). apply HQ; [done|]. rewrite app_nil_r in Hn. by eapply latest_done.
  - split; [apply moved_refl|]. by exists [].
Qed.
End Versions.

(** ** Rebuilding *)

Lemma rebuilt_top o body vs acl y f : k_acl y = acl ->
  set_top "body" (body_entry o body) (set_top "object.json" (Some (json_entry o)) (key_top y)) f = key_top (mkKey o body vs acl) f.
Proof.
  intros <-. unfold set_top, key_top. simpl. destruct (str_eqb f "body") eqn:E2; [by apply str_eqb_true in E2 as ->|].
  by destruct (str_eqb f "object.json").
Qed.
Lemma own_rebuilt vs v o body acl : valid_object_key k = true -> own_versions vs -> vs !! v = Some (o, body) ->
  own_key b k (mkKey o body vs acl).
Proof.
  intros Hk Hown Hv. destruct (Hown _ _ Hv) as (H1' & H2' & H3' & H4'). simpl in *.
  split_and!; [done|apply H3'..| |done|exact Hown]. right. simpl. by rewrite H2'.
Qed.
Lemma wp_write_rebuilt s y vs v o body (Q : result StoreError unit -> Store -> Prop) :
  now_open s (split_layout (key_top y) true vs) -> own_versions vs -> latest_version vs v o body ->
  (forall s', now_key s' (Some (mkKey o body vs (k_acl y))) -> same_outside dir (the_files s) (the_files s') ->
     fixed_version_ids s' = fixed_version_ids s -> Q (Ok tt) s') ->
  wp (write_json (object_json dir) o;;
      if delete_marker o then ignore (fs_remove_file (body_file dir)) else write_atomic (body_file dir) body) Q s.
Proof.
  intros Ho Hown [Hv Hl] HQ. apply wp_bind. unfold write_json. rewrite object_json_eq, body_file_eq.
  eapply (wp_put_top Hcalm _ dir (key_top y) _ _ "object.json" _ (fun d => decode d = inl o));
    [apply Ho|apply tidy_key|auto|apply decode_encode|].
  intros s1 S1. simpl. pose proof (open_key_step _ _ _ _ _ _ _ Ho S1 eq_refl) as O1.
  assert (vs <> ∅) as Hne by (intros ->; by rewrite lookup_empty in Hv).
  assert (forall s2, step dir (split_layout (set_top "body" (body_entry o body) (set_top "object.json" (Some (json_entry o)) (key_top y))) true vs) s1 s2 ->
            Q (Ok tt) s2) as Hend.
  { intros s2 S2. pose proof (file_step_trans _ _ _ _ _ _ S1 S2) as (_ & Hs & Hi). apply HQ; [|done|done].
    eapply open_key_closed; [by eapply open_key_step| |].
    - intros r. simpl. unfold key_layout. simpl. unfold no_versions. rewrite bool_decide_eq_false_2 by done. simpl.
      apply split_ext. intros f. by apply rebuilt_top.
    - intros z [= <-]. eapply own_rebuilt; [apply Ho|done|done]. }
  unfold body_entry in Hend. destruct (delete_marker o) eqn:Em.
  - eapply (wp_drop_top Hcalm _ dir _ _ _ "body"); [apply O1|apply tidy_set_top; [auto|apply tidy_key]|done|exact Hend].
  - eapply (wp_put_top Hcalm _ dir _ _ _ "body" _ (eq body)); [apply O1|apply tidy_set_top; [auto|apply tidy_key]|auto|done|exact Hend].
Qed.

(** After the rebuild: the object is what the versions make it. *)
Definition rebuilt_post vs acl (s s' : Store) : Prop :=
  exists x', rebuilt vs acl x' /\ now_key s' x' /\ same_outside dir (the_files s) (the_files s')
             /\ fixed_version_ids s' = fixed_version_ids s /\ the_files s' !! base b = Some Dir.
Lemma wp_remove_rebuilt s f acl (Q : result StoreError unit -> Store -> Prop) :
  now_open s f -> f [] = Some EDir -> (forall s', rebuilt_post ∅ acl s s' -> Q (Ok tt) s') ->
  wp (remove_dir_all_if_exists dir) Q s.
Proof.
  intros Ho Hd HQ. eapply wp_remove_key; [done..|]. intros s' S'. destruct (gone_key _ _ _ _ _ _ Ho S') as [Ha Hb].
  apply HQ. exists None. split_and!; [done|done|apply S'..|done].
Qed.
Lemma rebuilt_post_still s1 s2 s3 vs acl : moved s1 (the_files s1) s2 -> rebuilt_post vs acl s2 s3 -> rebuilt_post vs acl s1 s3.
Proof. intros (E & I & _) (x & R1 & R2 & R3 & R4 & R5). exists x. rewrite E in R3. split_and!; [done..| |done]. congruence. Qed.

Lemma wp_rebuild s y there vs (Q : result StoreError unit -> Store -> Prop) :
  now_open s (split_layout (key_top y) there vs) -> there_ok there vs -> own_key b k y -> own_versions vs ->
  (forall s', rebuilt_post vs (k_acl y) s s' -> Q (Ok tt) s') -> wp (rebuild_current_object b k) Q s.
Proof.
  intros Ho Hth Hy Hown HQ. unfold rebuild_current_object. apply wp_bind.
  unfold preserve_current_resumable_upload. rewrite object_path_eq by apply Ho. apply wp_bind. unfold read_object.
  rewrite object_json_eq.
  eapply (wp_read_at Hcalm _ dir _ ["object.json"] (Some (k_current y)));
    [eapply rooted_no_file, op_rooted, Ho|apply Ho|done|done|].
  intros s1 M1. simpl. pose proof (open_key_moved _ _ _ _ _ _ Ho M1) as Ho1. destruct Hy as (Hk & Hcur & _).
  eapply preserve_own; [exact Hcur|]. simpl. apply wp_bind. rewrite (join_plain dir) by done.
  assert (forall s2 s', moved s1 (the_files s1) s2 -> rebuilt_post vs (k_acl y) s2 s' -> Q (Ok tt) s') as HQ2.
  { intros s2 s' M2 R. apply HQ. eapply rebuilt_post_still; [by eapply still_in_place|done]. }
  destruct there.
  - apply wp_found_read_dir; [done|by eapply holds_Dir; [apply Ho1|]|]. intros names s2 M2 [n ->]. simpl.
    pose proof (open_key_moved _ _ _ _ _ _ Ho1 M2) as Ho2. apply wp_bind.
    eapply wp_latest_of; [done|exact Ho2|..].
    { intros v. rewrite disk_order_perm. by eapply version_names. }
    intros acc s3 M3 Hacc. simpl. pose proof (open_key_moved _ _ _ _ _ _ Ho2 M3) as Ho3.
    pose proof (still_in_place _ _ _ M2 M3) as M. destruct acc as [[o body]|].
    + destruct Hacc as [v Hl]. eapply wp_write_rebuilt; [done..|]. intros s4 Ha4 Hs4 Hi4. apply (HQ2 s3); [done|].
      exists (Some (mkKey o body vs (k_acl y))). split_and!; [|done..|].
      * exists v. done.
      * destruct (ak_base _ _ _ _ _ Ha4) as [|[_ [=]]]. done.
    + subst vs. eapply wp_remove_rebuilt; [done..|]. intros s4 R. by eapply HQ2.
  - rewrite (Hth eq_refl) in *. eapply wp_found.
    { apply runs_read_dir_none; [done|by eapply holds_None; [apply Ho1|]|].
      eapply no_file_below; [eapply rooted_no_file, op_rooted, Ho1|apply Ho1|]. intros q P Hq.
      apply elem_of_prefixes in Hq as [r Hr]. destruct q as [|a [|? ?]]; [done| |done]. by injection Hr as <- _. }
    intros s2 M2. simpl. eapply wp_remove_rebuilt; [by eapply open_key_moved|done|]. intros s4 R. by eapply HQ2.
Qed.

(** ** Deleting a version *)

Lemma clear_version top vs v r : 
  clear_at ["versions"; v] (split_layout top true vs) r = split_layout top true (delete v vs) r.
Proof.
  unfold clear_at. destruct r as [|f r]; [done|]. cbn [below].
  assert (str_eqb "versions" f = str_eqb f "versions") as -> by (apply bool_decide_ext; split; congruence).
  simpl. destruct (str_eqb f "versions") eqn:Ef; [|done]. destruct r as [|v' r]; [done|]. simpl. unfold str_eqb.
  destruct (decide (v = v')) as [<-|Hne].
  - rewrite bool_decide_eq_true_2 by done. by rewrite lookup_delete_eq.
  - rewrite bool_decide_eq_false_2 by done. by rewrite lookup_delete_ne.
Qed.
(** The version's own directory removed, if it has one. *)
Lemma wp_remove_version s y v (Q : result StoreError unit -> Store -> Prop) :
  now_key s (Some y) -> valid_version_id v = true ->
  (forall s' there, now_open s' (split_layout (key_top y) there (delete v (k_versions y))) -> there_ok there (delete v (k_versions y)) ->
     same_outside dir (the_files s) (the_files s') -> fixed_version_ids s' = fixed_version_ids s -> Q (Ok tt) s') ->
  wp (remove_dir_all_if_exists (dir ++ ["versions"; v])%list) Q s.
Proof.
  intros Ha Hv HQ. pose proof (at_key_opened _ _ _ _ _ Ha) as Ho. destruct (k_versions y !! v) as [ob|] eqn:E.
  - assert (negb (no_versions (k_versions y)) = true) as Hth.
    { apply negb_true_iff, bool_decide_eq_false_2. intros En. by rewrite En, lookup_empty in E. }
    eapply (wp_clear Hcalm _ _ (key_layout y)); [apply Ho|cbn; by rewrite E|]. intros s' S'.
    assert (step dir (split_layout (key_top y) true (delete v (k_versions y))) s s') as S2.
    { eapply step_ext; [|exact S']. intros r. unfold key_layout. rewrite Hth. apply clear_version. }
    apply (HQ s' true); [by eapply open_key_step|by intros [=]|apply S2..].
  - apply wp_clear_none; [done|..].
    + eapply holds_None; [apply Ho|]. cbn. by rewrite E.
    + eapply no_file_below; [eapply rooted_no_file, op_rooted, Ho|apply Ho|]. intros q P Hq.
      apply elem_of_prefixes in Hq as [r Hr]. destruct q as [|a [|c [|? ?]]]; [done| | |done].
      * injection Hr as <- _. cbn. by destruct (negb _).
      * injection Hr as <- <- _. cbn. by rewrite E.
    + intros s' M. assert (delete v (k_versions y) = k_versions y) as Ed by by apply delete_id.
      apply (HQ s' (negb (no_versions (k_versions y)))); rewrite ?Ed; [by eapply open_key_moved|apply there_no_versions|by destruct M as (-> & _)|apply M].
Qed.

Lemma shown_version_own t x v o body : at_key t b B k x -> v <> "" -> shown_version x v = Some (o, body) ->
  exists y, x = Some y /\ own_key b k y /\ own_object b k o.
Proof.
  intros Ha Hv. unfold shown_version. assert (is_empty v = false) as -> by by destruct v.
  assert (forall v, versions_of x !! v = Some (o, body) -> exists y, x = Some y /\ own_key b k y /\ own_object b k o) as Hvs.
  { intros v' Hv'. destruct x as [y|]; [|by rewrite no_version in Hv']. exists y. pose proof (ak_own _ _ _ _ _ Ha y eq_refl) as Hy.
    split_and!; [done|done|..]; destruct Hy as (_ & _ & _ & _ & Hall); apply Hall in Hv' as (_ & _ & Ho & _); apply Ho. }
  destruct (str_eqb v "null"); [|apply Hvs]. unfold null_version. destruct (versions_of x !! "null") as [ob|] eqn:E.
  - intros [= ->]. by eapply Hvs.
  - destruct x as [y|]; [|done]. simpl. pose proof (ak_own _ _ _ _ _ Ha y eq_refl) as Hy.
    destruct (_ || _); [|done]. intros [= <- _]. exists y. split_and!; try done; apply Hy.
Qed.

Lemma wp_delete_version s x v bypass (Q : result StoreError (Object * bool) -> Store -> Prop) :
  now_key s x ->
  (forall s', moved s (the_files s) s' -> is_empty v = true -> Q (Err VersionIdRequired) s') ->
  (forall s', moved s (the_files s) s' -> is_empty v = false -> valid_version_id v = false -> Q (Err InvalidVersionId) s') ->
  (forall s', moved s (the_files s) s' -> valid_version_id v = true -> shown_version x v = None -> Q (Ok (no_object, false)) s') ->
  (forall o body ts s', moved s (the_files s) s' -> valid_version_id v = true -> shown_version x v = Some (o, body) ->
     delete_marker o = false -> object_lock_prevents_delete o ts bypass = true -> Q (Err ObjectLocked) s') ->
  (forall o body ts x' s', valid_version_id v = true -> shown_version x v = Some (o, body) ->
     delete_marker o = true \/ object_lock_prevents_delete o ts bypass = false ->
     rebuilt (delete v (versions_of x)) (acl_of x) x' -> becomes b B k s s' x' -> Q (Ok (o, true)) s') ->
  wp (delete_object_version b k v bypass) Q s.
Proof.
  intros Ha H1' H2' H3' H4' H5'. unfold delete_object_version. apply wp_bind, wp_guard; intros Ev; simpl; [by apply H1'|].
  apply wp_bind. eapply wp_require; [done..|]. intros s1 M1. simpl. apply wp_bind. unfold version_dir.
  rewrite object_path_eq by apply Ha. apply wp_lift. unfold version_path at 1. destruct (valid_version_id v) eqn:Hv; simpl; [|by apply H2'].
  pose proof (version_path_eq dir v Hv) as Hp. unfold version_path in Hp. rewrite Hv in Hp. cbn [negb] in Hp.
  assert (join (join dir "versions") v = dir ++ ["versions"; v])%list as -> by congruence. clear Hp.
  pose proof (at_key_moved _ _ _ _ _ _ Ha M1) as Ha1. apply wp_bind. eapply wp_preserve; [done..|]. intros s2 M2. simpl.
  pose proof (at_key_moved _ _ _ _ _ _ Ha1 M2) as Ha2. pose proof (still_in_place _ _ _ M1 M2) as M. clear M1 M2 Ha1.
  apply wp_bind. eapply wp_get_version; [done..|]. intros s3 M3. rewrite Hv, Ev. simpl.
  pose proof (at_key_moved _ _ _ _ _ _ Ha2 M3) as Ha3. pose proof (still_in_place _ _ _ M M3) as M'. clear M M3 Ha2.
  destruct (shown_version x v) as [[o body]|] eqn:Es; simpl; [|by apply wp_ret, H3'].
  assert (v <> "") as Hne by by intros ->.
  destruct (shown_version_own (the_files s3) x v o body Ha3 Hne Es) as (y & -> & Hy & Ho).
  assert (forall s4, moved s3 (the_files s3) s4 -> (exists ts, delete_marker o = true \/ object_lock_prevents_delete o ts bypass = false) ->
    wp (snapshot ← is_file (object_json (dir ++ ["versions"; v])%list);
        (if (snapshot : bool) then preserve_resumable_upload_result o (object_json (dir ++ ["versions"; v])%list) else mret tt);;
        remove_dir_all_if_exists (dir ++ ["versions"; v])%list;;
        rebuild_current_object b k;;
        mret (o, true)) Q s4) as Hrest.
  { intros s4 M4 [ts Hts]. pose proof (at_key_moved _ _ _ _ _ _ Ha3 M4) as Ha4. pose proof (still_in_place _ _ _ M' M4) as M.
    apply wp_bind, wp_is_file; [done|]. intros s5 M5. simpl. pose proof (at_key_moved _ _ _ _ _ _ Ha4 M5) as Ha5.
    pose proof (still_in_place _ _ _ M M5) as M6. clear M M4 M5 Ha4. apply wp_bind.
    assert (forall (c : bool) Q', Q' (Ok tt) s5 ->
      wp (if c then preserve_resumable_upload_result o (object_json (dir ++ ["versions"; v])%list) else mret tt) Q' s5) as Hpres.
    { intros [] Q' HQ'; [by eapply preserve_own|by apply wp_ret]. }
    apply Hpres. simpl. apply wp_bind. eapply wp_remove_version; [done..|]. intros s6 there O6 Hth Hs6 Hi6. simpl.
    apply wp_bind. eapply (wp_rebuild _ y); [done|done|done| |].
    { apply map_Forall_delete. apply Hy. }
    intros s7 (x' & R1 & R2 & R3 & R4 & R5). simpl. apply wp_ret. apply (H5' o body ts x'); [done..|]. split_and!.
    - exact R2.
    - apply frame_outside. destruct M6 as (<- & _). by eapply same_outside_trans.
    - unfold ids_left. rewrite R4, Hi6. by destruct M6 as (_ & -> & _).
    - by rewrite R5. }
  apply wp_bind. destruct (delete_marker o) eqn:Em.
  - apply wp_ret. simpl. apply Hrest; [done|]. exists "". by left.
  - apply wp_bind, wp_store_now. intros ts s4 M4. simpl. apply wp_guard; intros Hl; simpl.
    + by apply (H4' o body ts); [eapply still_in_place|..].
    + apply Hrest; [done|]. exists ts. by right.
Qed.
End Rebuild.
