(* ===== verification/S3Refine.v ===== *)
(** A bucket as an abstract machine, and that the store implements it: on a disk that does
    not fail every call answers as the machine does and leaves its next state. *)

From S2P Require Import Prelude RustStr RustNum RustText SqsTime PubTime S3Codecs Disk S3Store S3Objects S3Config S3Calm S3Reads S3Calls.
Local Open Scope string_scope.
Local Open Scope Z_scope.

(** ** Calls and answers *)

Inductive Call :=
| PutObject (input : PutObjectInput)
| GetObject (key : string)
| GetObjectVersion (key version : string)
| DeleteObject (key : string) (bypass : bool)
| DeleteObjectVersion (key version : string) (bypass : bool)
| ListObjects (prefix : string)
| PutVersioning (status : string).
Inductive Answer :=
| Stored (o : Object)
| Fetched (r : option (Object * string))
| Removed (o : Object) (deleted : bool)
| Listing (l : option (list Object))
| Done.
Definition call_key (c : Call) : option string :=
  match c with
  | PutObject input => Some (pi_key input)
  | GetObject k | GetObjectVersion k _ | DeleteObject k _ | DeleteObjectVersion k _ _ => Some k
  | _ => None
  end.
(** Puts are addressed to the bucket. *)
Definition for_bucket (b : string) (c : Call) : Prop :=
  match c with PutObject input => pi_bucket input = b | _ => True end.

Section Machine.
Context `{Disk, Clock, Hashes, Build} `{Codec Bucket, Codec Object, Codec VersioningFile}.
Abbreviation St := (ME StoreError Store).

Definition perform (b : string) (c : Call) : St Answer :=
  match c with
  | PutObject input => o ← put_object input; mret (Stored o)
  | GetObject k => r ← get_object b k; mret (Fetched r)
  | GetObjectVersion k v => r ← get_object_version b k v; mret (Fetched r)
  | DeleteObject k bypass => '(o, d) ← delete_object_with_result b k bypass; mret (Removed o d)
  | DeleteObjectVersion k v bypass => '(o, d) ← delete_object_version b k v bypass; mret (Removed o d)
  | ListObjects prefix => l ← list_objects b prefix; mret (Listing l)
  | PutVersioning status => put_bucket_versioning b status;; mret Done
  end.

(** ** The machine *)

(** The current objects that are no markers, with the prefix, in key order. *)
Definition listed_one (prefix : string) (e : string * Key) : option Object :=
  let o := k_current e.2 in if negb (delete_marker o) && starts_with prefix (o_key o) then Some o else None.
Definition listed (prefix : string) (m : Keys) : list Object := omap (listed_one prefix) (btree_iter m).

Inductive refused (B : Bucket) (m : Keys) : Call -> StoreError -> Prop :=
| refused_key c k : call_key c = Some k -> valid_object_key k = false -> refused B m c InvalidObjectKey
| refused_md5 input e : md5_checked (pi_content_md5 input) (pi_body input) = Err e -> refused B m (PutObject input) e
| refused_lock k bypass y ts : m !! k = Some y -> lock_asked B y = true ->
    object_lock_prevents_delete (k_current y) ts bypass = true -> refused B m (DeleteObject k bypass) ObjectLocked
| refused_no_version k v bypass : is_empty v = true -> refused B m (DeleteObjectVersion k v bypass) VersionIdRequired
| refused_get_version k v : is_empty v = false -> valid_version_id v = false -> refused B m (GetObjectVersion k v) InvalidVersionId
| refused_delete_version k v bypass : is_empty v = false -> valid_version_id v = false ->
    refused B m (DeleteObjectVersion k v bypass) InvalidVersionId
| refused_version_lock k v bypass o body ts : shown_version (m !! k) v = Some (o, body) -> delete_marker o = false ->
    object_lock_prevents_delete o ts bypass = true -> refused B m (DeleteObjectVersion k v bypass) ObjectLocked
| refused_status status : status <> "Enabled" -> status <> "Suspended" ->
    refused B m (PutVersioning status) (Io (Other "invalid versioning status")).

(** What an accepted call answers and leaves. *)
Inductive effect (b : string) (B : Bucket) (m : Keys) : Call -> Answer -> Bucket -> Keys -> Prop :=
| effect_put input ts r v : chosen_retention input B ts = Ok r -> fits_versioning (versioning B) v ->
    let o := put_result input r ts v in
    effect b B m (PutObject input) (Stored o) B (<[pi_key input := put_key o (pi_body input) (m !! pi_key input)]> m)
| effect_get k : effect b B m (GetObject k) (Fetched (shown (m !! k))) B m
| effect_get_version k v : effect b B m (GetObjectVersion k v) (Fetched (shown_version (m !! k) v)) B m
| effect_delete_none k bypass : m !! k = None -> effect b B m (DeleteObject k bypass) (Removed no_object false) B m
| effect_delete_marker k bypass y ts ts' v : m !! k = Some y -> versioned B = true -> fits_versioning (versioning B) v ->
    (lock_asked B y = true -> object_lock_prevents_delete (k_current y) ts' bypass = false) ->
    let marker := delete_marker_object b k v ts in
    effect b B m (DeleteObject k bypass) (Removed marker true) B (<[k := put_key marker "" (m !! k)]> m)
| effect_delete k bypass y ts : m !! k = Some y -> versioned B = false ->
    object_lock_prevents_delete (k_current y) ts bypass = false ->
    effect b B m (DeleteObject k bypass) (Removed no_object true) B (delete k m)
| effect_no_such_version k v bypass : shown_version (m !! k) v = None ->
    effect b B m (DeleteObjectVersion k v bypass) (Removed no_object false) B m
| effect_delete_version k v bypass o body ts x : shown_version (m !! k) v = Some (o, body) ->
    delete_marker o = true \/ object_lock_prevents_delete o ts bypass = false ->
    rebuilt (delete v (versions_of (m !! k))) (acl_of (m !! k)) x ->
    effect b B m (DeleteObjectVersion k v bypass) (Removed o true) B (partial_alter (fun _ => x) k m)
| effect_list prefix : effect b B m (ListObjects prefix) (Listing (Some (listed prefix m))) B m
| effect_versioning status : status = "Enabled" \/ status = "Suspended" ->
    effect b B m (PutVersioning status) Done (set_versioning status B) m.

(** A call panics only when the default retention of its bucket overflows. *)
Definition transition (b : string) (B : Bucket) (m : Keys) (c : Call) (r : result StoreError Answer) (B' : Bucket) (m' : Keys) : Prop :=
  match r with
  | Ok a => effect b B m c a B' m'
  | Err e => refused B m c e /\ B' = B /\ m' = m
  | Panic why => B' = B /\ m' = m
      /\ exists input ts, c = PutObject input /\ chosen_retention input B ts = Panic why
  end.
End Machine.

(** ** Listing *)

Section Listing.
Context `{Disk, Clock, Hashes, Build} (Hcalm : calm) `{!DiskLaws}.
Context `{Codec Bucket, Codec Object, Codec AclFile}.

Lemma objects_entries t b B (m : Keys) l : bucket_at t b B m -> t !! base b = Some Dir -> l ≡ₚ entry_names t (base b) ->
  exists es, l = (fun e : string * Key => Base64.raw_url_encode e.1) <$> es /\ es ≡ₚ map_to_list m.
Proof.
  intros (_ & _ & _ & _ & _ & _ & Hk & Hn & Hown) Hd Hl.
  assert (l ≡ₚ (fun e : string * Key => Base64.raw_url_encode e.1) <$> map_to_list m) as Hp.
  { apply NoDup_Permutation; rewrite ?Hl.
    - apply NoDup_entry_names.
    - change (fun e : string * Key => Base64.raw_url_encode e.1) with (Base64.raw_url_encode ∘ (fst : string * Key -> string)).
      rewrite list_fmap_compose. apply NoDup_fmap_2; [|apply NoDup_fst_map_to_list].
      intros k k' E. by apply (Base64.key_names_safe k k').
    - intros n. rewrite Hl, elem_of_entry_names, list_elem_of_fmap. split.
      + intros [x Hx]. destruct (Hn n x Hx) as (k & [y Hy] & ->). exists (k, y). split; [done|]. by apply elem_of_map_to_list.
      + intros ([k y] & -> & Hin). apply elem_of_map_to_list in Hin. simpl.
        specialize (Hk k (proj1 (Hown _ _ Hin)) []). rewrite app_nil_r, Hin in Hk. cbn. unfold dir_of in Hk.
        destruct (t !! [b; "objects"; Base64.raw_url_encode k]); [by eexists|done]. }
  apply Permutation_map_inv in Hp as (es & -> & Hes). exists es. by split.
Qed.

Lemma listed_sorted prefix (m : Keys) : map_Forall (fun k y => o_key (k_current y) = k) m ->
  StronglySorted (fun o o' => object_cmp o o' = Lt) (listed prefix m).
Proof.
  intros Hm. unfold listed. assert (forall k y, (k, y) ∈ btree_iter m -> o_key (k_current y) = k) as Hk.
  { intros k y Hin. apply elem_of_btree_iter in Hin. by apply Hm. }
  pose proof (btree_iter_sorted m) as Hs. pose proof (NoDup_btree_keys m) as Hnd. revert Hk Hs Hnd. generalize (btree_iter m) as l.
  induction l as [|[k y] l IH]; intros Hk Hs Hnd; [constructor|]. cbn [omap list_omap] in *. apply StronglySorted_inv in Hs as [Hs Hf].
  cbn in Hnd. apply NoDup_cons in Hnd as [Hni Hnd].
  assert (StronglySorted (fun o o' => object_cmp o o' = Lt) (omap (listed_one prefix) l)) as Hl.
  { apply IH; [|done|done]. intros k' y' Hin. apply Hk. by right. }
  destruct (listed_one prefix (k, y)) as [o|] eqn:E; [|exact Hl]. constructor; [exact Hl|].
  apply Forall_forall. intros o' Ho'. apply list_elem_of_omap in Ho' as ([k' y'] & Hin & E').
  unfold listed_one in E, E'. simpl in E, E'. destruct (_ && _); [|done]. destruct (_ && _) in E'; [|done].
  injection E as <-. injection E' as <-. unfold object_cmp. rewrite (Hk k y), (Hk k' y') by set_solver.
  rewrite Forall_forall in Hf. specialize (Hf _ Hin). unfold key_le in Hf. simpl in Hf.
  destruct (String.compare k k') eqn:Ec; [|done|].
  - apply String.compare_eq_iff in Ec as ->. destruct Hni. apply list_elem_of_fmap. by exists (k', y').
  - unfold String.le, String.leb in Hf. by rewrite Ec in Hf.
Qed.

Lemma elem_of_listed prefix (m : Keys) o :
  o ∈ listed prefix m <-> exists k y, m !! k = Some y /\ k_current y = o /\ delete_marker o = false /\ starts_with prefix (o_key o) = true.
Proof.
  unfold listed. rewrite list_elem_of_omap. split.
  - intros ([k y] & Hin & E). apply elem_of_btree_iter in Hin. unfold listed_one in E. simpl in E.
    destruct (negb _ && _) eqn:Eb; [|done]. injection E as <-. apply andb_true_iff in Eb as [Em%negb_true_iff Ep]. eauto 10.
  - intros (k & y & Hm & <- & Hd & Hp). exists (k, y). split; [by apply elem_of_btree_iter|]. unfold listed_one. simpl. by rewrite Hd, Hp.
Qed.
Lemma sorted_listed prefix (m : Keys) l : map_Forall (fun k y => o_key (k_current y) = k) m ->
  l ≡ₚ listed prefix m -> sort_by object_cmp l = listed prefix m.
Proof.
  intros Hm Hl. pose proof (total_by (fun _ => True) (fun _ => True) o_key String.compare (total_string _) (fun _ _ => I)) as T.
  apply (StronglySorted_unique_strong (fun a b => object_cmp a b <> Gt)).
  - intros o o' Ho Ho' H1' H2'. rewrite sort_by_perm, Hl in Ho. apply elem_of_listed in Ho as (k & y & Hk & <- & _).
    apply elem_of_listed in Ho' as (k' & y' & Hk' & <- & _). pose proof (Hm _ _ Hk) as E. pose proof (Hm _ _ Hk') as E'. simpl in *.
    assert (object_cmp (k_current y) (k_current y') = Eq) as Heq.
    { pose proof (tc_anti _ _ T (k_current y) (k_current y') I I) as Ha. unfold object_cmp in *.
      destruct (String.compare (o_key (k_current y)) (o_key (k_current y'))); [done| |done]. by rewrite Ha in H2'. }
    apply String.compare_eq_iff in Heq. rewrite E, E' in Heq. subst k'. by assert (y = y') as -> by congruence.
  - apply (sort_by_sorted _ (fun _ => True)); [intros x y _ _; by apply (tc_gt _ _ T)|intros x y z _ _ _; by apply (tc_trans _ _ T)|by apply Forall_true].
  - clear l Hl. induction (listed_sorted prefix m Hm) as [|o os Hs IH Ho]; [constructor|]. constructor; [exact IH|].
    eapply Forall_impl; [exact Ho|]. intros o' E. by rewrite E.
  - by rewrite sort_by_perm.
Qed.

Lemma wp_list_objects s b B (m : Keys) prefix (Q : result StoreError (option (list Object)) -> Store -> Prop) :
  bucket_at (the_files s) b B m ->
  (forall s', moved s (the_files s) s' -> Q (Ok (Some (listed prefix m))) s') -> wp (list_objects b prefix) Q s.
Proof.
  intros Hb HQ. pose proof Hb as (Hname & _ & Hbd & Hjson & _ & Hbase & Hkeys & _ & Hown). unfold list_objects, get_bucket.
  rewrite Hname. cbn [negb]. rewrite bucket_path_eq, objects_path_eq by done. rewrite join_plain by done.
  apply wp_bind. apply (wp_read_json Hcalm _ _ B); [done|]. intros s1 M1. simpl. apply wp_bind.
  assert (the_files s1 = the_files s) as F1 by apply M1.
  destruct Hbase as [Hd|[Hd ->]].
  2: { eapply wp_found; [apply runs_read_dir_none; [done|by rewrite F1|]|].
       - intros q d Hq. change (prefixes (base b)) with [[]; [b]; base b] in Hq. rewrite !elem_of_cons in Hq. rewrite F1.
         destruct Hq as [->|[->|[->|[]%elem_of_nil]]]; destruct Hb as (_ & Hr & Hd' & _); by rewrite ?Hr, ?Hd', ?Hd.
       - intros s2 M2. simpl. apply wp_ret. by apply HQ, (still_in_place s s1). }
  apply wp_found_read_dir; [done|by rewrite F1|]. intros names s2 M2 [n ->]. simpl. pose proof (still_in_place _ _ _ M1 M2) as M.
  destruct (objects_entries (the_files s) b B m (disk_order n (entry_names (the_files s1) (base b)))) as (es & -> & Hes);
    [done|done|rewrite F1; apply disk_order_perm|].
  apply wp_bind. apply (wp_for_each (fun left acc s' => moved s (the_files s) s' /\ exists done l', es = (done ++ l')%list
      /\ left = (fun e : string * Key => Base64.raw_url_encode e.1) <$> l' /\ acc = omap (listed_one prefix) done)).
  - intros name left acc s3 (M3 & done & l' & -> & Hl & ->). destruct l' as [|[k y] l']; [done|]. injection Hl as -> ->. simpl.
    assert (m !! k = Some y) as Hk by (apply elem_of_map_to_list; rewrite <- Hes; set_solver).
    pose proof (proj1 (Hown _ _ Hk)) as Hv. pose proof (bucket_at_key _ _ _ _ k Hb Hv) as Ha. rewrite Hk in Ha.
    rewrite join_plain by by apply key_name_plain. change (base b ++ [_])%list with (dir_of b k).
    assert (the_files s3 = the_files s) as F3 by apply M3. apply wp_bind. apply (wp_entry_is_dir Hcalm _ _ Dir).
    { rewrite F3. apply (at_key_rooted _ _ _ _ _ Ha). apply elem_of_prefixes. exists []. by rewrite app_nil_r. }
    intros s4 M4. simpl. pose proof (still_in_place _ _ _ M3 M4) as M'. apply wp_bind. rewrite <- (object_path_eq b k) by done.
    eapply (wp_read_current Hcalm b B k _ (Some y)); [by destruct M' as (-> & _)|]. intros s5 M5. simpl. apply wp_bind, wp_lift. simpl.
    apply wp_ret. split; [by eapply still_in_place|]. exists (done ++ [(k, y)])%list, l'. split_and!; [by rewrite <- app_assoc|done|].
    rewrite omap_app. cbn. unfold listed_one. simpl. destruct (_ && _); [done|by rewrite app_nil_r].
  - intros acc s' (M' & done & l' & -> & Hl & ->). simpl. apply wp_ret. destruct l'; [|done]. rewrite app_nil_r in Hes.
    rewrite (sorted_listed prefix m); [by apply HQ|by intros k y Hy; apply (Hown _ _ Hy)|]. unfold listed.
    apply omap_Permutation. rewrite Hes. unfold btree_iter. by rewrite merge_sort_Permutation.
  - split; [done|]. exists [], es. done.
Qed.
End Listing.

(** The store refines the bucket machine, call by call and for every sequence of calls. *)

Section Refine.
Context `{Disk, Clock, Hashes, Build} (Hcalm : calm) `{!DiskLaws, !HashLaws}.
Context `{Codec Bucket, Codec Object, Codec AclFile, Codec VersioningFile}.
Context `{!CodecLaws Bucket, !CodecLaws Object, !CodecLaws AclFile}.
Abbreviation St := (ME StoreError Store).

Definition ids_ok (s : Store) : Prop := Forall (fun v => valid_version_id v = true) (fixed_version_ids s).
Lemma ids_ok_left s s' : ids_left s s' -> ids_ok s -> ids_ok s'.
Proof. intros [l E]. unfold ids_ok. rewrite E, Forall_app. by intros [_ ?]. Qed.

(** What a call from [s] may leave. *)
Definition leaves b (s s' : Store) (B' : Bucket) (m' : Keys) : Prop :=
  bucket_at (the_files s') b B' m' /\ ids_ok s' /\ same_outside [b] (the_files s) (the_files s').

Section OneCall.
Context (b : string) (B : Bucket) (m : Keys) (s : Store) (Hb : bucket_at (the_files s) b B m) (Hids : ids_ok s).

Lemma leaves_still s' : moved s (the_files s) s' -> leaves b s s' B m.
Proof. intros (E & I & _). unfold leaves, ids_ok. by rewrite E, I. Qed.
Lemma leaves_key s' k x : becomes b B k s s' x -> leaves b s s' B (partial_alter (fun _ => x) k m).
Proof.
  intros (Ha & Hf & Hi & Hbase). split_and!; [by eapply key_back|by eapply ids_ok_left|].
  intros q Hq. pose proof (proj1 (below_None [b] q) Hq) as Hq'. clear Hq. rename Hq' into Hq. apply Hf.
  - apply below_None. intros r ->. by apply (Hq ("objects" :: Base64.raw_url_encode k :: r)).
  - intros ->. by apply (Hq ["objects"]).
Qed.
Lemma leaves_put s' k y : becomes b B k s s' (Some y) -> leaves b s s' B (<[k := y]> m).
Proof. apply leaves_key. Qed.
Lemma leaves_delete s' k : becomes b B k s s' None -> leaves b s s' B (delete k m).
Proof. apply leaves_key. Qed.

Lemma bad_key_require k (Q : result StoreError unit -> Store -> Prop) :
  valid_object_key k = false -> Q (Err InvalidObjectKey) s -> wp (require_bucket_and_key b k) Q s.
Proof. intros Hk HQ. unfold require_bucket_and_key. rewrite (proj1 Hb), Hk. simpl. by apply wp_fail. Qed.
Lemma bad_key c k (Q : result StoreError Answer -> Store -> Prop) :
  for_bucket b c -> call_key c = Some k -> valid_object_key k = false ->
  (forall e, refused B m c e -> Q (Err e) s) -> wp (perform b c) Q s.
Proof.
  intros Hc Hk Hv HQ. pose proof (HQ _ (refused_key _ _ _ _ Hk Hv)) as HQk. pose proof (proj1 Hb) as Hname.
  destruct c; simpl in Hk; try done; injection Hk as <-; simpl.
  - unfold put_object, put_object_locked, put_object_with_resumable_id_locked. simpl in Hc. rewrite Hc, Hname, Hv. by repeat wp_step.
  - apply wp_bind. unfold get_object. apply wp_bind, bad_key_require; done.
  - apply wp_bind. unfold get_object_version, get_object. destruct (is_empty version); apply wp_bind, bad_key_require; done.
  - unfold delete_object_with_result, delete_object_with_result_locked. rewrite Hname, Hv. by repeat wp_step.
  - apply wp_bind. unfold delete_object_version. apply wp_bind, wp_guard; intros Ev; simpl.
    + by apply HQ, refused_no_version.
    + apply wp_bind, bad_key_require; done.
Qed.

Lemma sidecar_names : Forall (fun f => (f ∉ BUCKET_DIRS) /\ ((f +:+ ".tmp") ∉ SIDECAR_FILES)
  /\ ((f +:+ ".tmp") ∉ BUCKET_DIRS)) SIDECAR_FILES.
Proof. refine (bool_decide_unpack _ _). vm_compute. exact I. Qed.
(** bucket.json and versioning.json replaced. *)
Lemma put_sidecar t file data B' : bucket_at t b B m -> file ∈ SIDECAR_FILES ->
  (if decide (file = "bucket.json") then decode data = inl B' else B' = B) ->
  bucket_at (<[[b; file] := File data]> t) b B' m /\ same_outside [b] t (<[[b; file] := File data]> t)
  /\ t !! [b] = Some Dir /\ t !! [b; file] <> Some Dir /\ t !! [b; file +:+ ".tmp"] = None.
Proof.
  intros (Hn & Hr & Hd & Hj & Hbes & Hbase & Hk & Hnm & Hown) Hfile HB.
  assert (file <> "objects") as Hno.
  { intros ->. destruct (proj1 (Forall_forall _ _) sidecar_names _ Hfile) as (Hno & _). apply Hno. by left. }
  assert (forall q, q <> [b; file] -> <[[b; file]:=File data]> t !! q = t !! q) as Hq by (intros q Hne; by rewrite lookup_insert_ne).
  split_and!.
  - split_and!; [done|by rewrite Hq|by rewrite Hq| | |by rewrite Hq by (intros [=]; congruence)| | |done].
    + unfold json_at. case_decide as Ef.
      * subst file. exists data. by rewrite lookup_insert_eq.
      * subst B'. rewrite Hq by congruence. exact Hj.
    + intros n x Hx. destruct (decide (n = file)) as [->|Hne].
      * rewrite lookup_insert_eq in Hx. by injection Hx as <-.
      * rewrite Hq in Hx by congruence. by apply Hbes.
    + intros k Hkv. eapply holds_same; [|by apply Hk]. intros r. by rewrite Hq.
    + intros n x Hx. rewrite Hq in Hx by done. by eapply Hnm.
  - intros q Hne. rewrite Hq; [done|]. intros ->. by apply (proj1 (below_None _ _) Hne [file]).
  - done.
  - intros E. apply Hbes in E. by destruct (proj1 (Forall_forall _ _) sidecar_names _ Hfile) as (? & _).
  - destruct (t !! [b; file +:+ ".tmp"]) as [x|] eqn:E; [|done]. apply Hbes in E. exfalso.
    destruct (proj1 (Forall_forall _ _) sidecar_names _ Hfile) as (_ & H1' & H2'). by destruct x.
Qed.

Lemma wp_put_sidecar file data B' (Q : result StoreError unit -> Store -> Prop) :
  file ∈ SIDECAR_FILES -> plain_name file = true ->
  (if decide (file = "bucket.json") then decode data = inl B' else B' = B) ->
  (forall s', leaves b s s' B' m -> Q (Ok tt) s') -> wp (write_atomic (sidecar b file) data) Q s.
Proof.
  intros Hf Hp HB HQ. destruct (put_sidecar (the_files s) file data B' Hb Hf HB) as (Hb' & Hs & Hd & Hnd & Ht).
  unfold sidecar. rewrite bucket_path_eq by apply Hb. rewrite join_plain by done.
  apply (wp_atomic Hcalm _ [b]); [done..|]. intros s' (E & I & _). apply HQ. unfold leaves, ids_ok. by rewrite E, I.
Qed.

End OneCall.

Lemma leaves_trans b s s1 s2 B1 m1 B2 m2 : leaves b s s1 B1 m1 -> leaves b s1 s2 B2 m2 -> leaves b s s2 B2 m2.
Proof. intros (_ & _ & S1) (Hb & Hi & S2). split_and!; [done|done|]. by eapply same_outside_trans. Qed.

Lemma wp_put_versioning b B m s status (Q : result StoreError unit -> Store -> Prop) :
  bucket_at (the_files s) b B m -> ids_ok s ->
  (status <> "Enabled" -> status <> "Suspended" -> Q (Err (Io (Other "invalid versioning status"))) s) ->
  (forall s', status = "Enabled" \/ status = "Suspended" -> leaves b s s' (set_versioning status B) m -> Q (Ok tt) s') ->
  wp (put_bucket_versioning b status) Q s.
Proof.
  intros Hb Hids HE HQ. unfold put_bucket_versioning. apply wp_bind, wp_guard.
  { rewrite andb_true_iff, !negb_true_iff. intros [E1 E2]. apply HE; intros ->; done. }
  intros Hs. simpl. assert (status = "Enabled" \/ status = "Suspended") as Hst.
  { apply andb_false_iff in Hs as [Hs%negb_false_iff|Hs%negb_false_iff]; apply str_eqb_true in Hs; auto. }
  unfold the_bucket, get_bucket. rewrite (proj1 Hb). cbn [negb]. rewrite bucket_path_eq by apply Hb.
  rewrite join_plain by done. apply wp_bind, wp_bind. apply (wp_read_json Hcalm _ _ B); [apply Hb|].
  intros s1 M1. apply wp_lift. simpl. pose proof (leaves_still b B m s Hb Hids s1 M1) as L1. apply wp_bind.
  unfold save_bucket, write_json.
  eapply (wp_put_sidecar b B m s1 (proj1 L1) (proj1 (proj2 L1)) "bucket.json" _ (set_versioning status B)); [by left|done|apply decode_encode|].
  intros s2 L2. simpl.
  eapply (wp_put_sidecar b _ m s2 (proj1 L2) (proj1 (proj2 L2)) "versioning.json" _ (set_versioning status B)); [right; by left|done|done|].
  intros s3 L3. apply HQ; [done|]. eapply leaves_trans; [|exact L3]. by eapply leaves_trans.
Qed.

Lemma perform_refines b B m s c (Q : result StoreError Answer -> Store -> Prop) :
  bucket_at (the_files s) b B m -> ids_ok s -> for_bucket b c ->
  (forall r s' B' m', transition b B m c r B' m' -> leaves b s s' B' m' -> Q r s') -> wp (perform b c) Q s.
Proof.
  intros Hb Hids Hc HQ.
  assert (forall e s', moved s (the_files s) s' -> refused B m c e -> Q (Err e) s') as HE.
  { intros e s' M R. apply (HQ (Err e) s' B m); [done|by apply leaves_still]. }
  assert (forall a s', moved s (the_files s) s' -> effect b B m c a B m -> Q (Ok a) s') as HS.
  { intros a s' M E. apply (HQ (Ok a) s' B m); [done|by apply leaves_still]. }
  assert (forall k, call_key c = Some k -> valid_object_key k = false -> wp (perform b c) Q s) as Hbad.
  { intros k Hk Hv. eapply bad_key; [done..|]. intros e R. apply HE; [apply moved_refl|done]. }
  assert (forall k, call_key c = Some k -> (at_key (the_files s) b B k (m !! k) -> wp (perform b c) Q s) -> wp (perform b c) Q s) as Hkey.
  { intros k Hk Hgood. destruct (valid_object_key k) eqn:Hv; [|by eapply Hbad]. apply Hgood. by apply bucket_at_key. }
  clear Hbad. destruct c as [input|k|k v|k bypass|k v bypass|prefix|status]; simpl in Hkey; simpl perform in *.
  - apply (Hkey _ eq_refl). intros Ha. apply wp_bind. eapply (wp_put_object Hcalm b B); [done..| | |].
    + intros s' e M Hmd. simpl. by apply HE; [|constructor].
    + intros ts why s' M Hp. simpl. apply (HQ (Panic why) s' B m); [|by apply leaves_still]. split_and!; [done..|]. by exists input, ts.
    + intros ts r v s' _ Hr Hv Hbec. simpl. apply wp_ret. eapply HQ; [by apply effect_put|by apply leaves_put].
  - apply (Hkey _ eq_refl). intros Ha. apply wp_bind. eapply wp_get_object; [done..|]. intros s' M. simpl. apply wp_ret.
    by apply HS; [|constructor].
  - apply (Hkey _ eq_refl). intros Ha. apply wp_bind. eapply (wp_get_version Hcalm); [done..|]. intros s' M.
    destruct (is_empty v) eqn:Ev; simpl; [by apply wp_ret, HS; [|constructor]|].
    destruct (valid_version_id v) eqn:Hv; simpl; [by apply wp_ret, HS; [|constructor]|]. by apply HE; [|constructor].
  - apply (Hkey _ eq_refl). intros Ha. apply wp_bind. eapply (wp_delete_object Hcalm b B); [done..| | | |].
    + intros s' M Hm. simpl. apply wp_ret, HS; [done|]. by apply effect_delete_none.
    + intros y ts s' M Hm Hl Hp. simpl. apply HE; [done|]. by eapply refused_lock.
    + intros y ts ts' v s' Hm Hl Hv Hf Hbec. simpl. apply wp_ret. eapply HQ; [by eapply effect_delete_marker|by apply leaves_put].
    + intros y ts s' Hm Hl Hv Hbec. simpl. apply wp_ret. eapply HQ; [by eapply effect_delete|by apply leaves_delete].
  - apply (Hkey _ eq_refl). intros Ha. apply wp_bind. eapply (wp_delete_version Hcalm b B); [done..| | | | |].
    + intros s' M Hv. simpl. by apply HE; [|constructor].
    + intros s' M Hv Hv'. simpl. by apply HE; [|constructor].
    + intros s' M Hv Hn. simpl. apply wp_ret. by apply HS; [|constructor].
    + intros o body ts s' M Hv Hs Hd Hp. simpl. apply HE; [done|]. by eapply refused_version_lock.
    + intros o body ts x' s' Hv Hs Hd Hr Hbec. simpl. apply wp_ret. eapply HQ; [by eapply effect_delete_version|by eapply leaves_key].
  - apply wp_bind. eapply wp_list_objects; [done..|]. intros s' M. simpl. apply wp_ret. by apply HS; [|constructor].
  - apply wp_bind. apply (wp_put_versioning b B m); [done..| |].
    + intros H1' H2'. simpl. apply HE; [apply moved_refl|by constructor].
    + intros s' Hst L. simpl. apply wp_ret. by eapply HQ; [apply effect_versioning|].
Qed.

(** ** Sequences of calls *)

(** A client's calls one after the other; a refused one is answered and the next served. *)
Fixpoint perform_all (b : string) (cs : list Call) (s : Store) : list (result StoreError Answer) * Store :=
  match cs with
  | [] => ([], s)
  | c :: cs => let '(r, s) := perform b c s in let '(rs, s) := perform_all b cs s in (r :: rs, s)
  end.
Inductive trace (b : string) : Bucket -> Keys -> list Call -> list (result StoreError Answer) -> Bucket -> Keys -> Prop :=
| trace_done B m : trace b B m [] [] B m
| trace_call B m c r B1 m1 cs rs B2 m2 :
    transition b B m c r B1 m1 -> trace b B1 m1 cs rs B2 m2 -> trace b B m (c :: cs) (r :: rs) B2 m2.

Lemma perform_all_refines b B m s cs :
  bucket_at (the_files s) b B m -> ids_ok s -> Forall (for_bucket b) cs ->
  let (rs, s') := perform_all b cs s in
  exists B' m', trace b B m cs rs B' m' /\ bucket_at (the_files s') b B' m'
                /\ same_outside [b] (the_files s) (the_files s').
Proof.
  intros Hb Hids Hcs. revert B m s Hb Hids. induction Hcs as [|c cs Hc Hcs IH]; intros B m s Hb Hids; simpl.
  { exists B, m. split_and!; [constructor|done|done]. }
  pose proof (perform_refines b B m s c (fun r s' => exists B' m', transition b B m c r B' m' /\ leaves b s s' B' m') Hb Hids Hc) as Hp.
  unfold wp in Hp. destruct (perform b c s) as [r s1]. simpl in Hp.
  destruct Hp as (B1 & m1 & Ht & Hb1 & Hi1 & Ho1); [by eauto 10|]. specialize (IH B1 m1 s1 Hb1 Hi1).
  destruct (perform_all b cs s1) as [rs s2]. destruct IH as (B2 & m2 & Htr & Hb2 & Ho2).
  exists B2, m2. split_and!; [by econstructor|done|by eapply same_outside_trans].
Qed.


(** C3: On a disk that does not fail every sequence of object and versioning calls on a
    bucket is answered as the bucket machine answers it, the files are the machine's state, and nothing outside the bucket's directory changes. *)
Theorem store_refines_machine b B m s cs :
  bucket_at (the_files s) b B m -> ids_ok s -> Forall (for_bucket b) cs ->
  let (rs, s') := perform_all b cs s in
  exists B' m', trace b B m cs rs B' m' /\ bucket_at (the_files s') b B' m'
                /\ same_outside [b] (the_files s) (the_files s').
Proof. intros Hb Hids Hcs. by apply perform_all_refines. Qed.
End Refine.
