(* ===== verification/S3Theorems.v ===== *)
(** What the object store guarantees: what is put is read back, versions stay, a legal hold
    holds; and a completed multipart upload is its parts. *)

From S2P Require Import Prelude RustStr RustNum RustText SqsTime PubTime S3Codecs Disk S3Store S3Objects S3Config S3Calm S3Reads S3Calls S3Refine.
Local Open Scope string_scope.
Local Open Scope Z_scope.

Section Theorems.
Context `{Disk, Clock, Hashes, Build} (Hcalm : calm) `{!DiskLaws, !HashLaws}.
Context `{Codec Bucket, Codec Object, Codec AclFile, Codec VersioningFile}.
Context `{!CodecLaws Bucket, !CodecLaws Object, !CodecLaws AclFile}.

(** A call that writes a version of [k] under the id [v]. *)
Definition takes_id (k v : string) (c : Call) (r : result StoreError Answer) : Prop :=
  match c, r with
  | PutObject input, Ok (Stored o) => pi_key input = k /\ version_id o = v
  | DeleteObject k' _, Ok (Removed o true) => k' = k /\ version_id o = v
  | _, _ => False
  end.
Definition deletes_version (k v : string) (c : Call) : Prop :=
  match c with DeleteObjectVersion k' v' _ => k' = k /\ v' = v | _ => False end.

Lemma with_version_other o body vs v : version_id o <> v -> with_version o body vs !! v = vs !! v.
Proof. intros Hv. unfold with_version. destruct (is_empty _); [done|]. by rewrite lookup_insert_ne. Qed.
Lemma held o ts bypass : legal_hold o = "ON" -> object_lock_prevents_delete o ts bypass = true.
Proof. intros Ho. unfold object_lock_prevents_delete. by rewrite Ho. Qed.

(** One call of the machine keeps a version. *)
Lemma transition_keeps b B m c r B' m' k v o body :
  transition b B m c r B' m' -> versioned B = true -> v <> "" ->
  versions_of (m !! k) !! v = Some (o, body) -> ~ takes_id k v c r ->
  (legal_hold o = "ON" /\ delete_marker o = false) \/ ~ deletes_version k v c ->
  versioned B' = true /\ versions_of (m' !! k) !! v = Some (o, body).
Proof.
  intros Ht HB Hne Hv Hid Hd. destruct r as [a|e|why]; [|by destruct Ht as (_ & -> & ->)|by destruct Ht as (-> & -> & _)]. simpl in Ht.
  assert (forall k' o' body', (k' = k -> version_id o' <> v) ->
    versions_of (<[k' := put_key o' body' (m !! k')]> m !! k) !! v = Some (o, body)) as Hput.
  { intros k' o' body' Hk'. destruct (decide (k' = k)) as [->|Hnk]; [|by rewrite lookup_insert_ne].
    rewrite lookup_insert_eq. simpl. rewrite with_version_other; auto. }
  destruct Ht as [input ts r v' Hr Hf o'|k'|k' v'|k' bypass Hm|k' bypass y ts ts' v' Hm HB' Hf Hl marker|k' bypass y ts Hm HB' Hl
    |k' v' bypass Hs|k' v' bypass o' body' ts x Hs Hl Hr|prefix|status Hst]; try done.
  - split; [done|]. apply Hput. intros <- E. by apply Hid.
  - split; [done|]. apply Hput. intros -> E. by apply Hid.
  - congruence.
  - split; [done|]. destruct (decide (k' = k)) as [->|Hnk]; [|by rewrite lookup_partial_alter_ne].
    rewrite lookup_partial_alter_eq.
    destruct (decide (v' = v)) as [->|Hnv].
    + exfalso. destruct Hd as [[Hon Hdm]|Hd]; [|by apply Hd].
      assert (shown_version (m !! k) v = Some (o, body)) as Hsv.
      { unfold shown_version. assert (is_empty v = false) as -> by by destruct v.
        destruct (str_eqb v "null") eqn:En; [|done]. apply str_eqb_true in En as ->. unfold null_version. by rewrite Hv. }
      rewrite Hsv in Hs. injection Hs as <- <-. rewrite (held o ts bypass Hon) in Hl. destruct Hl as [Hl|Hl]; congruence.
    + destruct x as [y|]; simpl in Hr.
      * destruct Hr as (v0 & _ & Hvs & _). simpl. rewrite Hvs. by rewrite lookup_delete_ne.
      * exfalso. assert (delete v' (versions_of (m !! k)) !! v = None) as E by by rewrite Hr, lookup_empty.
        rewrite lookup_delete_ne in E by done. by rewrite Hv in E.
  - destruct Hst as [->| ->]; done.
Qed.
Lemma trace_keeps b B m cs rs B' m' k v o body :
  trace b B m cs rs B' m' -> versioned B = true -> v <> "" ->
  versions_of (m !! k) !! v = Some (o, body) -> Forall2 (fun c r => ~ takes_id k v c r) cs rs ->
  (legal_hold o = "ON" /\ delete_marker o = false) \/ Forall (fun c => ~ deletes_version k v c) cs ->
  versioned B' = true /\ versions_of (m' !! k) !! v = Some (o, body).
Proof.
  induction 1 as [|B m c r B1 m1 cs rs B2 m2 Ht Htr IH]; intros HB Hne Hv Hid Hd; [done|].
  apply Forall2_cons in Hid as [Hid Hids].
  destruct (transition_keeps _ _ _ _ _ _ _ _ _ _ _ Ht HB Hne Hv Hid) as [HB1 Hv1].
  { destruct Hd as [Hd|Hd]; [by left|right]. by apply Forall_cons in Hd as [? _]. }
  apply IH; [done..|]. destruct Hd as [Hd|Hd]; [by left|right]. by apply Forall_cons in Hd as [_ ?].
Qed.

Lemma effect_put_inv b B m input a B' m' : effect b B m (PutObject input) a B' m' ->
  exists ts r v, fits_versioning (versioning B) v /\ a = Stored (put_result input r ts v) /\ B' = B
    /\ m' = <[pi_key input := put_key (put_result input r ts v) (pi_body input) (m !! pi_key input)]> m.
Proof. inversion 1; subst. eauto 10. Qed.
Lemma bucket_own t b B m k y : bucket_at t b B m -> m !! k = Some y -> own_key b k y.
Proof. intros (_ & _ & _ & _ & _ & _ & _ & _ & Hown) Hk. by apply Hown. Qed.

(** C6: An accepted PutObject is read back exactly by the next GetObject; in a versioned
    bucket the version it made is read back by its id after any calls that write no
    version under the same id and do not delete that version - not even a deletion
    removes it while it is under legal hold. *)
Theorem put_version_kept b B m s input o s1 cs rs s2 :
  bucket_at (the_files s) b B m -> ids_ok s -> pi_bucket input = b ->
  put_object input s = (Ok o, s1) ->
  fst (get_object b (pi_key input) s1) = Ok (Some (o, pi_body input))
  /\ (versioned B = true -> Forall (for_bucket b) cs -> perform_all b cs s1 = (rs, s2) ->
      Forall2 (fun c r => ~ takes_id (pi_key input) (version_id o) c r) cs rs ->
      legal_hold o = "ON" \/ Forall (fun c => ~ deletes_version (pi_key input) (version_id o) c) cs ->
      fst (get_object_version b (pi_key input) (version_id o) s2) = Ok (Some (o, pi_body input))).
Proof.
  intros Hb Hids Hib Hput. set (k := pi_key input).
  pose proof (perform_refines Hcalm b B m s (PutObject input)
    (fun r s' => exists B' m', transition b B m (PutObject input) r B' m' /\ leaves b s s' B' m') Hb Hids Hib) as Hp.
  specialize (Hp (fun r s' B' m' T L => ex_intro _ B' (ex_intro _ m' (conj T L)))).
  unfold wp in Hp. cbn [perform] in Hp. unfold mbind, m_bind in Hp. rewrite Hput in Hp. simpl in Hp.
  destruct Hp as (B1 & m1 & Ht & Hb1 & Hi1 & Ho1). apply effect_put_inv in Ht as (ts & r & v & Hf & [= Ho] & -> & ->).
  rewrite <- Ho in *. fold k in Hb1. set (y := put_key o (pi_body input) (m !! k)) in *.
  assert (valid_object_key k = true) as Hk by (eapply (proj1 (bucket_own _ _ _ _ k y Hb1 (lookup_insert_eq _ _ _)))).
  split.
  - pose proof (bucket_at_key _ _ _ _ k Hb1 Hk) as Ha. rewrite lookup_insert_eq in Ha.
    pose proof (wp_get_object Hcalm b B k s1 (Some y) (fun r _ => r = Ok (shown (Some y))) Ha (fun _ _ => eq_refl)) as Hg.
    unfold wp in Hg. rewrite Hg. subst y. unfold shown. simpl. by rewrite Ho.
  - intros HB Hcs Hall Hid Hd. pose proof (fits_versioned B v Hf HB) as Hvv.
    pose proof (perform_all_refines Hcalm b B (<[k := y]> m) s1 cs Hb1 Hi1 Hcs) as Hr. rewrite Hall in Hr.
    destruct Hr as (B2 & m2 & Htr & Hb2 & _). assert (version_id o = v) as Hv by by rewrite Ho.
    assert (v <> "") as Hne by (intros ->; done).
    destruct (trace_keeps b B (<[k := y]> m) cs rs B2 m2 k v o (pi_body input)) as [_ Hkept]; [done..| | | |].
    + rewrite lookup_insert_eq. simpl. unfold with_version. rewrite Hv. destruct (is_empty v) eqn:E; [by apply is_empty_true in E|].
      by rewrite lookup_insert_eq.
    + by rewrite <- Hv.
    + rewrite <- Hv. destruct Hd as [Hd|Hd]; [left; split; [done|by rewrite Ho]|by right].
    + pose proof (bucket_at_key _ _ _ _ k Hb2 Hk) as Ha. rewrite Hv.
      pose proof (wp_get_version Hcalm b B2 k s2 (m2 !! k) v (fun r _ => r = Ok (shown_version (m2 !! k) v)) Ha) as Hg.
      rewrite Hvv, orb_true_r in Hg. specialize (Hg (fun _ _ => eq_refl)). unfold wp in Hg. rewrite Hg.
      unfold shown_version. destruct (is_empty v) eqn:E; [by apply is_empty_true in E|].
      destruct (str_eqb v "null") eqn:En; [|by rewrite Hkept]. apply str_eqb_true in En as ->. unfold null_version. by rewrite Hkept.
Qed.
End Theorems.

(** Completing a multipart upload: the object is the listed parts in the order listed. *)

Abbreviation Parts := (gmap Z (MultipartPart * string)).
(** The bytes of the parts numbered [ns], one after the other, and their etags. *)
Fixpoint part_bytes (parts : Parts) (ns : list Z) : string :=
  match ns with
  | [] => ""
  | n :: ns => match parts !! n with Some (_, body) => body +:+ part_bytes parts ns | None => part_bytes parts ns end
  end.
Definition part_etags (parts : Parts) (ns : list Z) : list string := omap (fun n => part_etag ∘ fst <$> parts !! n) ns.
Lemma part_bytes_snoc parts ns n mp body : parts !! n = Some (mp, body) ->
  part_bytes parts (ns ++ [n]) = part_bytes parts ns +:+ body.
Proof.
  intros Hn. induction ns as [|n' ns IH]; cbn [part_bytes app].
  - rewrite Hn. by rewrite str_app_nil_r.
  - rewrite IH. destruct (parts !! n') as [[]|]; [by rewrite str_app_assoc|done].
Qed.
Lemma part_etags_snoc parts ns n mp body : parts !! n = Some (mp, body) ->
  part_etags parts (ns ++ [n]) = (part_etags parts ns ++ [part_etag mp])%list.
Proof. intros Hn. unfold part_etags. rewrite omap_app. cbn. by rewrite Hn. Qed.

Lemma wp_bind_bind {E S A B C} (m : ME E S A) (n : A -> ME E S B) (f : B -> ME E S C) Q (s : S) :
  wp ((m ≫= n) ≫= f) Q s -> wp (m ≫= fun a => n a ≫= f) Q s.
Proof. unfold wp, mbind, m_bind. by destruct (m s) as [[]]. Qed.

Definition updir (b id : string) : path := [b; "multipart"; id].
Lemma upload_id_plain id : valid_upload_id id = true -> plain_name id = true.
Proof.
  unfold valid_upload_id. rewrite andb_true_iff. intros [Hl%Z.eqb_eq Hall]. unfold plain_name. rewrite !andb_true_iff.
  assert (forall s, str_len s <> 32 -> str_eqb id s = false) as Hne.
  { intros s Hs. unfold str_eqb. apply bool_decide_eq_false_2. by intros ->. }
  split_and!.
  - destruct id; [by vm_compute in Hl|done].
  - by rewrite Hne.
  - by rewrite Hne.
  - revert Hall. apply str_all_impl. intros c Hc. apply negb_true_iff. destruct (Ascii.eqb_spec "/" c) as [<-|]; [|done].
    by vm_compute in Hc.
Qed.

Section Uploads.
Context `{Disk, Clock, Hashes, Build} (Hcalm : calm) `{!DiskLaws, !HashLaws}.
Context `{Codec Bucket, Codec Object, Codec AclFile, Codec MultipartUpload, Codec MultipartPart}.
Context `{!CodecLaws Bucket, !CodecLaws Object, !CodecLaws AclFile}.

Lemma updir_eq b id : valid_bucket_name b = true -> valid_upload_id id = true -> multipart_upload_path b id = updir b id.
Proof.
  intros Hb Hid. unfold multipart_upload_path, multipart_path. rewrite bucket_path_eq by done. rewrite (join_plain [b]) by done.
  rewrite join_plain by by apply upload_id_plain. done.
Qed.

(** The upload [id] with its parts on the disk, every body of the size recorded. *)
Definition uploaded (t : tree) (b id : string) (u : MultipartUpload) (parts : Parts) : Prop :=
  json_at t (upload_json b id) u /\ t !! updir b id = Some Dir
  /\ map_Forall (fun n pb => json_at t (join (multipart_part_path b id n) "part.json") pb.1
                             /\ t !! body_file (multipart_part_path b id n) = Some (File pb.2)
                             /\ part_size pb.1 = str_len pb.2) parts.

Section OneUpload.
Context (b : string) (B : Bucket) (m : Keys) (id : string) (u : MultipartUpload) (parts : Parts).

Lemma wp_gather s ns (Q : result StoreError (string * list string) -> Store -> Prop) :
  uploaded (the_files s) b id u parts -> Forall (fun n => is_Some (parts !! n)) ns ->
  (forall s', moved s (the_files s) s' -> Q (Ok (part_bytes parts ns, part_etags parts ns)) s') ->
  wp (gather_parts b id ns) Q s.
Proof.
  intros (_ & _ & Hparts) Hns HQ. unfold gather_parts.
  apply (wp_for_each (fun left acc s' => moved s (the_files s) s' /\ exists done, ns = (done ++ left)%list
    /\ acc = (part_bytes parts done, part_etags parts done))).
  - intros n left acc s1 (M1 & done & -> & ->). apply Forall_app in Hns as [_ [[[mp body] Hn] _]%Forall_cons].
    destruct (Hparts _ _ Hn) as (Hj & Hbody & Hsize). simpl in *. assert (the_files s1 = the_files s) as F1 by apply M1.
    apply wp_bind. unfold read_part. apply wp_bind. apply (wp_read_json Hcalm _ _ mp); [by rewrite F1|]. intros s2 M2. simpl.
    pose proof (still_in_place _ _ _ M1 M2) as M. apply wp_bind, wp_lift. simpl. apply wp_bind. eapply wp_found.
    { apply runs_read; [done|]. destruct M as (-> & _). exact Hbody. }
    intros s3 M3. simpl. apply wp_bind, wp_lift. simpl. rewrite Hsize, Z.eqb_refl. cbn [negb guard_err].
    apply wp_bind, wp_ret. simpl. apply wp_ret. simpl. apply wp_ret. split; [by eapply still_in_place|].
    exists (done ++ [n])%list. rewrite <- app_assoc. split; [done|]. by erewrite part_bytes_snoc, part_etags_snoc.
  - intros acc s1 (M1 & done & -> & ->). rewrite app_nil_r in HQ. by apply HQ.
  - split; [apply moved_refl|]. by exists [].
Qed.

(** The object's metadata written once more, with another etag. *)
Lemma wp_reput s k x o0 o body (Q : result StoreError unit -> Store -> Prop) :
  at_key (the_files s) b B k (Some (put_key o0 body x)) -> version_id o = version_id o0 -> delete_marker o = false ->
  delete_marker o0 = false -> own_key b k (put_key o body x) ->
  (forall s', at_key (the_files s') b B k (Some (put_key o body x)) -> same_outside (dir_of b k) (the_files s) (the_files s') ->
     fixed_version_ids s' = fixed_version_ids s -> Q (Ok tt) s') ->
  wp (write_json (object_json (object_path b k)) o;;
      if negb (is_empty (version_id o)) then write_object_version (object_path b k) o body else mret tt) Q s.
Proof.
  intros Ha Hvo Hm Hm0 Hown HQ. set (y0 := put_key o0 body x) in *. pose proof (at_key_opened _ _ _ _ _ Ha) as O.
  rewrite object_path_eq by apply Ha. rewrite object_json_eq. apply wp_bind. unfold write_json.
  eapply (wp_put_top Hcalm _ (dir_of b k) (key_top y0) _ _ "object.json" _ (fun d => decode d = inl o)); [apply O|apply tidy_key|auto|apply decode_encode|].
  intros s1 S1. simpl. pose proof (open_key_step _ _ _ _ _ _ _ O S1 eq_refl) as O1.
  assert (forall f, set_top "object.json" (Some (json_entry o)) (key_top y0) f = key_top (put_key o body x) f) as Htop.
  { intros f. unfold set_top, key_top. simpl. unfold body_entry. rewrite Hm, Hm0. by destruct (str_eqb f "object.json"). }
  assert (forall s2 f, step (dir_of b k) f s s2 -> open_key b B k (the_files s2) f ->
    (forall r, f r = key_layout (put_key o body x) r) -> Q (Ok tt) s2) as Hend.
  { intros s2 f S2 O2 Hf. apply HQ; [|apply S2..]. eapply open_key_closed; [exact O2|exact Hf|]. by intros z [= <-]. }
  destruct (is_empty (version_id o)) eqn:Ev; simpl.
  - apply wp_ret. eapply Hend; [exact S1|exact O1|]. intros r. apply is_empty_true in Ev. unfold key_layout. simpl.
    unfold with_version. rewrite <- Hvo, Ev. simpl. by apply split_ext.
  - destruct Hown as (_ & _ & [Hve|Hvv] & _); [simpl in Hve; by rewrite Hve in Ev|]. simpl in Hvv.
    assert (version_id o <> "") as Hne by by intros E; rewrite E in Ev.
    eapply (wp_write_version Hcalm _ (dir_of b k) _ _ _ o); [apply O1|apply O1|apply there_no_versions|exact Hvv|].
    intros s2 S2. eapply Hend; [by eapply file_step_trans|by eapply open_key_step|]. intros r.
    rewrite <- (put_layout_version _ o body x r Htop Hne). simpl. unfold with_version. rewrite <- Hvo, Ev.
    by rewrite insert_insert_eq.
Qed.

(** What is below another directory of the bucket is not the bucket's objects. *)
Lemma bucket_at_subdir c t t' (m' : Keys) : bucket_at t b B m' -> c ∉ ["objects"; "bucket.json"] ->
  same_outside [b; c] t t' -> (forall x, t' !! [b; c] = Some x -> beside c x) -> bucket_at t' b B m'.
Proof.
  intros (Hn & Hr & Hd & Hj & Hbes & Hbase & Hk & Hnm & Hown) Hc Hs Hm. rewrite !not_elem_of_cons in Hc.
  destruct Hc as (Hc1 & Hc2 & _).
  assert (forall c' r, c' <> c -> t' !! (b :: c' :: r) = t !! (b :: c' :: r)) as Hq.
  { intros c' r Hc. apply Hs. apply below_None. intros q [= E]. congruence. }
  split_and!; [done| | | | | | | |done].
  - rewrite Hs; [done|]. by apply below_None.
  - rewrite Hs; [done|]. apply below_None. by intros q.
  - destruct Hj as (d & Hdd & Hx). exists d. split; [|done]. by rewrite Hq by done.
  - intros n x Hx. destruct (decide (n = c)) as [->|Hne]; [by apply Hm|]. apply Hbes. by rewrite <- Hq.
  - unfold base. by rewrite !Hq by done.
  - intros k Hkv. eapply holds_same; [|by apply Hk]. intros r. by apply Hq.
  - intros n x Hx. rewrite Hq in Hx by done. by eapply Hnm.
Qed.
Lemma wp_drop_dir s p (Q : result StoreError unit -> Store -> Prop) :
  (forall s' t', moved s t' s' -> t' = the_files s \/ t' = delete p (the_files s) -> Q (Ok tt) s') ->
  wp (ignore (fs_remove_dir p)) Q s.
Proof.
  intros HQ. destruct (the_files s !! p) as [[d|]|] eqn:E.
  - eapply wp_ignore; [eapply (runs_change Hcalm _ _ _ (inr _)); by rewrite E|]. intros s' M. eapply HQ; [exact M|by left].
  - eapply wp_ignore; [by apply runs_remove_dir|]. intros s' M. eapply HQ; [exact M|]. destruct (entry_names _ _); auto.
  - eapply wp_ignore; [eapply (runs_change Hcalm _ _ _ (inr _)); by rewrite E|]. intros s' M. eapply HQ; [exact M|by left].
Qed.

Lemma wp_remove_upload s (m' : Keys) (Q : result StoreError unit -> Store -> Prop) :
  valid_upload_id id = true -> bucket_at (the_files s) b B m' -> the_files s !! updir b id = Some Dir ->
  (forall s', bucket_at (the_files s') b B m' -> (forall r, the_files s' !! (updir b id ++ r)%list = None) -> Q (Ok tt) s') ->
  wp (remove_dir_all_if_exists (multipart_upload_path b id);; ignore (fs_remove_dir (multipart_path b))) Q s.
Proof.
  intros Hid Hb Hd HQ. rewrite updir_eq by (done || apply Hb). unfold multipart_path. rewrite bucket_path_eq by apply Hb.
  rewrite join_plain by done. change ([b] ++ ["multipart"])%list with [b; "multipart"]. unfold remove_dir_all_if_exists.
  apply wp_bind, wp_bind. eapply wp_found; [by apply runs_remove_dir_all|]. intros s1 (E1 & _). simpl. apply wp_ret. simpl.
  apply wp_drop_dir. intros s2 t2 (E2 & _) Ht2. rewrite E1 in Ht2.
  assert (forall q, t2 !! q = None \/ (t2 !! q = the_files s !! q /\ below (updir b id) q = None)) as Hlook.
  { intros q. destruct Ht2 as [->| ->]; [|destruct (decide (q = [b; "multipart"])) as [->|Hne];
      [left; by rewrite lookup_delete_eq|rewrite lookup_delete_ne by done]];
      rewrite lookup_cleared; destruct (below (updir b id) q); auto. }
  apply HQ; rewrite E2.
  - eapply (bucket_at_subdir "multipart"); [exact Hb|set_solver|..].
    + intros q Hq. assert (below (updir b id) q = None) as Hq'.
      { apply below_None. intros r ->. by apply (proj1 (below_None _ _) Hq (id :: r)). }
      assert (q <> [b; "multipart"]) as Hne by (intros ->; by apply (proj1 (below_None _ _) Hq [])).
      destruct Ht2 as [->| ->]; [|rewrite lookup_delete_ne by done]; by rewrite lookup_cleared, Hq'.
    + intros x Hx. destruct Hb as (_ & _ & _ & _ & Hbes & _). apply Hbes.
      destruct (Hlook [b; "multipart"]) as [E|[E _]]; congruence.
  - intros r. destruct (Hlook (updir b id ++ r)%list) as [E|[_ E]]; [done|]. by rewrite below_app in E.
Qed.
End OneUpload.

(** C18: Completing a multipart upload stores exactly the bytes of the listed parts in the
    order listed, under the composite etag of their etags and with the upload's headers,
    as the key's current object - and as its newest version in a versioned bucket - and
    removes the upload; no other object of the bucket changes. *)
Theorem complete_concatenates b B m s id u parts ns :
  bucket_at (the_files s) b B m -> ids_ok s -> valid_upload_id id = true -> uploaded (the_files s) b id u parts ->
  u_bucket u = b -> valid_object_key (u_key u) = true -> Forall (fun n => is_Some (parts !! n)) ns ->
  (forall ts why, default_object_retention (E := StoreError) (object_lock_config B) ts <> Panic why) ->
  let (r, s') := complete_multipart_upload b (u_key u) id ns s in
  exists ts kept v, let body := part_bytes parts ns in
    let o := set_etag (multipart_etag (part_etags parts ns)) (put_result (upload_input u body) kept ts v) in
    fits_versioning (versioning B) v /\ r = Ok (Some o)
    /\ bucket_at (the_files s') b B (<[u_key u := put_key o body (m !! u_key u)]> m)
    /\ forall q, the_files s' !! (updir b id ++ q)%list = None.
Proof.
  intros Hb Hids Hid Hup Hub Hk Hns Hnp. set (k := u_key u) in *. set (body := part_bytes parts ns).
  pose proof (bucket_at_key _ _ _ _ k Hb Hk) as Ha. set (x := m !! k) in *.
  set (Q := fun (r : result StoreError (option Object)) s' => exists ts kept v,
    let o := set_etag (multipart_etag (part_etags parts ns)) (put_result (upload_input u body) kept ts v) in
    fits_versioning (versioning B) v /\ r = Ok (Some o) /\ bucket_at (the_files s') b B (<[k := put_key o body x]> m)
    /\ forall q, the_files s' !! (updir b id ++ q)%list = None).
  assert (wp (complete_multipart_upload b k id ns) Q s) as Hwp.
  2: { unfold wp in Hwp. by destruct (complete_multipart_upload b k id ns s). }
  unfold complete_multipart_upload, complete_multipart_upload_locked, get_multipart_upload. rewrite Hid. cbn [negb guard_err].
  apply wp_bind, wp_bind, wp_ret. simpl. apply wp_bind. eapply wp_require; [done..|]. intros s1 M1. simpl.
  apply wp_bind. apply (wp_read_json Hcalm _ _ u); [destruct M1 as (-> & _); apply Hup|]. intros s2 M2. simpl.
  pose proof (still_in_place _ _ _ M1 M2) as M. apply wp_ret. simpl. fold k. assert (str_eqb k k = true) as -> by by apply str_eqb_true.
  apply wp_bind. eapply (wp_gather _ id u parts); [destruct M as (-> & _); exact Hup|done|]. intros s3 M3. simpl. fold body.
  pose proof (still_in_place _ _ _ M M3) as M'. clear M M1 M2 M3 s1 s2. pose proof (at_key_moved _ _ _ _ _ _ Ha M') as Ha3.
  assert (the_files s3 = the_files s) as F3 by apply M'. apply wp_bind.
  eapply (wp_put_object Hcalm b B k s3 x (upload_input u body)); [exact Ha3|done|done|by destruct M' as (_ & -> & _)|intros; done| |].
  { intros ts why s4 _ Hp. exfalso. unfold chosen_retention in Hp. by apply Hnp in Hp. }
  intros ts kept v s4 _ _ Hv Hbec. simpl. set (o0 := put_result (upload_input u body) kept ts v) in *.
  set (o := set_etag (multipart_etag (part_etags parts ns)) o0).
  assert (bucket_at (the_files s3) b B m) as Hb3 by by rewrite F3.
  assert (ids_ok s3) as Hi3 by (unfold ids_ok; by destruct M' as (_ & -> & _)).
  pose proof Hbec as (Ha4 & Hf4 & _). rewrite Hub. fold k.
  apply wp_bind_bind, wp_bind. eapply (wp_reput b B s4 k x o0 o body); [exact Ha4|done|done|done| |].
  { apply own_put; [done|apply Ha|by split_and!|by eapply fits_valid|done]. }
  intros s5 Ha5 Hs5 _. simpl.
  assert (bucket_at (the_files s5) b B (<[k := put_key o body x]> m)) as Hb5.
  { change (<[k := put_key o body x]> m) with (partial_alter (fun _ => Some (put_key o body x)) k m).
    eapply (key_back Hcalm); [exact Hb3|exact Ha5|eapply frame_trans; [exact Hf4|by apply frame_outside]|].
    intros E. by destruct (ak_base _ _ _ _ _ Ha5) as [E0|[_ [=]]]; rewrite E0 in E. }
  apply wp_bind_bind, wp_bind. eapply (wp_remove_upload b B id s5 _ _ Hid Hb5).
  { destruct Hup as (_ & Hd & _). destruct (above_not_below b k) as (_ & _ & N3).
    assert (below (dir_of b k) (updir b id) = None) as Hnb by by (apply below_None; intros q).
    rewrite Hs5 by done. rewrite Hf4 by done. by rewrite F3. }
  intros s6 Hb6 Hgone. simpl. apply wp_ret. exists ts, kept, v. done.
Qed.
End Uploads.
