(* ===== verification/S3Reports.v ===== *)
(** The configurations beside the objects: a CSV file is read back as the records it was
    written from, an inventory report lists exactly the bucket's current objects, and
    storing a configuration changes nothing else of the bucket. *)

From S2P Require Import Prelude RustStr RustNum RustText SqsTime PubTime S3Codecs Disk S3Store S3Objects S3Config S3Cors S3Sidecars S3Calm S3Reads S3Calls S3Refine S3Theorems.
Local Open Scope string_scope.
Local Open Scope Z_scope.

(** ** A reader of CSV (RFC 4180, lines ended by a line feed) *)

Inductive CsvState := Start | Unquoted | Quoted | Closing.
Fixpoint read_csv_from (st : CsvState) (field : string) (record : list string) (s : string) : option (list (list string)) :=
  match s with
  | EmptyString => match st, record with Start, [] => Some [] | _, _ => None end
  | String c s =>
      match st with
      | Quoted => if Ascii.eqb c dquote then read_csv_from Closing field record s
                  else read_csv_from Quoted (field +:+ char_str c) record s
      | _ =>
          if Ascii.eqb c lf then rs ← read_csv_from Start "" [] s; Some ((record ++ [field])%list :: rs)
          else if Ascii.eqb c "," then read_csv_from Start "" (record ++ [field])%list s
          else match st with
               | Start => if Ascii.eqb c dquote then read_csv_from Quoted "" record s
                          else read_csv_from Unquoted (char_str c) record s
               | Unquoted => if Ascii.eqb c dquote then None else read_csv_from Unquoted (field +:+ char_str c) record s
               | _ => if Ascii.eqb c dquote then read_csv_from Quoted (field +:+ char_str dquote) record s else None
               end
      end
  end.
Definition read_csv (s : string) : option (list (list string)) := read_csv_from Start "" [] s.

Definition bare_char (c : ascii) : bool := negb (Ascii.eqb c lf || Ascii.eqb c cr || Ascii.eqb c dquote || Ascii.eqb c ",").
(** What follows a whole field. *)
Definition field_done (field : string) (record : list string) (d : ascii) (s : string) : option (list (list string)) :=
  if Ascii.eqb d lf then rs ← read_csv_from Start "" [] s; Some ((record ++ [field])%list :: rs)
  else read_csv_from Start "" (record ++ [field])%list s.
Definition ends_field (d : ascii) : Prop := d = lf \/ d = ","%char.

Lemma end_of_field st field record d s : ends_field d -> st <> Quoted ->
  read_csv_from st field record (String d s) = field_done field record d s.
Proof. unfold field_done. intros [->| ->] Hst; by destruct st. Qed.
Lemma read_unquoted field record d s f : ends_field d -> str_all bare_char f = true ->
  read_csv_from Unquoted field record (f +:+ String d s) = field_done (field +:+ f) record d s.
Proof.
  intros Hd. revert field. induction f as [|c f IH]; intros field.
  - intros _. rewrite str_app_nil_l, str_app_nil_r. by apply end_of_field.
  - intros [Hc Hf]%andb_true_iff. unfold bare_char in Hc. apply negb_true_iff in Hc.
    rewrite !orb_false_iff in Hc. destruct Hc as [[[E1 E2] E3] E4].
    rewrite str_app_cons. cbn [read_csv_from]. rewrite E1, E4, E3, IH by done. by rewrite str_app_assoc.
Qed.
Lemma read_quoted field record d s f : ends_field d ->
  read_csv_from Quoted field record (doubled f +:+ String dquote (String d s)) = field_done (field +:+ f) record d s.
Proof.
  intros Hd. revert field. induction f as [|c f IH]; intros field.
  - rewrite str_app_nil_r. cbn [doubled]. rewrite str_app_nil_l. cbn [read_csv_from]. rewrite Ascii.eqb_refl. by apply (end_of_field Closing).
  - cbn [doubled]. assert (field +:+ String c f = (field +:+ char_str c) +:+ f) as -> by by rewrite str_app_assoc.
    rewrite <- IH. set (rest := String dquote (String d s)). destruct (Ascii.eqb_spec c dquote) as [->|Hc].
    + change (read_csv_from Quoted field record (String dquote (String dquote (doubled f +:+ rest)))
              = read_csv_from Quoted (field +:+ char_str dquote) record (doubled f +:+ rest)).
      cbn [read_csv_from]. by rewrite Ascii.eqb_refl.
    + change (read_csv_from Quoted field record (String c (doubled f +:+ rest))
              = read_csv_from Quoted (field +:+ char_str c) record (doubled f +:+ rest)).
      cbn [read_csv_from]. by rewrite (proj2 (Ascii.eqb_neq c dquote)).
Qed.
Lemma read_field record d s f : ends_field d ->
  read_csv_from Start "" record (write_field f +:+ String d s) = field_done f record d s.
Proof.
  intros Hd. unfold write_field. destruct (field_needs_quotes f) eqn:Eq.
  - rewrite !str_app_assoc.
    change (read_csv_from Start "" record (String dquote (doubled f +:+ String dquote (String d s))) = field_done f record d s).
    by apply (read_quoted "").
  - destruct f as [|c f]; [by apply end_of_field|]. unfold field_needs_quotes in Eq. cbn [is_empty] in Eq.
    destruct (str_eqb _ _); [done|]. destruct (str_any _ _) eqn:Ea; [done|]. unfold str_any in Ea. apply negb_false_iff in Ea.
    cbn [str_all] in Ea. apply andb_true_iff in Ea as [Hc Hf].
    unfold compose in Hc. apply negb_true_iff in Hc. rewrite !orb_false_iff in Hc. destruct Hc as [[[E1 E2] E3] E4].
    rewrite str_app_cons. cbn [read_csv_from]. rewrite E1, E4, E3. by rewrite read_unquoted.
Qed.
Lemma read_record record s fs : fs <> [] ->
  read_csv_from Start "" record (str_join "," (map write_field fs) +:+ String lf s)
  = (rs ← read_csv s; Some ((record ++ fs)%list :: rs)).
Proof.
  revert record. induction fs as [|f fs IH]; intros record; [done|]. intros _. destruct fs as [|f' fs].
  - cbn [map str_join]. rewrite read_field by by left. unfold field_done. by rewrite Ascii.eqb_refl.
  - change (str_join "," (map write_field (f :: f' :: fs)))
      with (write_field f +:+ String "," (str_join "," (map write_field (f' :: fs)))).
    rewrite str_app_assoc, str_app_cons, read_field by by right. unfold field_done.
    rewrite (IH (record ++ [f])%list) by done. by rewrite <- app_assoc.
Qed.
Lemma read_line r s : r <> [] -> read_csv (write_record r +:+ s) = (rs ← read_csv s; Some (r :: rs)).
Proof.
  intros Hr. unfold write_record, read_csv at 1. rewrite str_app_assoc. change (char_str lf +:+ s) with (String lf s).
  by rewrite read_record.
Qed.
(** Records with fields, whatever the fields hold, are read back as they were written. *)
Lemma csv_read_back records : Forall (fun r => r <> []) records -> read_csv (write_csv records) = Some records.
Proof.
  unfold write_csv. induction 1 as [|r rs Hr _ IH]; [done|].
  change (str_concat (map write_record (r :: rs))) with (write_record r +:+ str_concat (map write_record rs)).
  by rewrite read_line, IH.
Qed.

(** ** The inventory report *)

Section Reports.
Context `{Disk, Clock, Hashes, Build} (Hcalm : calm) `{!DiskLaws, !HashLaws}.
Context `{Codec Bucket, Codec Object, Codec AclFile, Codec VersioningFile, Codec InventoryConfiguration, Codec InventoryReportManifest}.
Context `{!CodecLaws Bucket, !CodecLaws Object, !CodecLaws AclFile, !CodecLaws InventoryConfiguration, !CodecLaws InventoryReportManifest}.
Context (b : string) (B : Bucket) (m : Keys) (id : string).

Definition inv : path := [b; "inventory"].
Definition reports : path := (inv ++ ["reports"])%list.
Definition report : path := (reports ++ [Base64.raw_url_encode id])%list.
Definition config_file : string := Base64.raw_url_encode id +:+ ".json".
(** Directories where directories go and files where files go. *)
Definition inventory_room (t : tree) : Prop :=
  (forall p d, p ∈ [inv; reports; report] -> t !! p <> Some (File d))
  /\ t !! (inv ++ [config_file])%list <> Some Dir /\ t !! (inv ++ [config_file +:+ ".tmp"])%list = None
  /\ t !! (report ++ ["inventory.csv"])%list <> Some Dir
  /\ t !! (report ++ ["manifest.json"])%list <> Some Dir /\ t !! (report ++ ["manifest.json.tmp"])%list = None.

Lemma config_file_plain : plain_name config_file = true.
Proof.
  destruct (Base64.key_names_safe id id) as (Hall & _ & _). unfold plain_name, config_file. rewrite !andb_true_iff.
  assert (forall s, String.length s = 0%nat \/ String.length s = 1%nat \/ String.length s = 2%nat ->
    Base64.raw_url_encode id +:+ ".json" <> s) as Hne.
  { intros s Hs E. apply (f_equal String.length) in E. rewrite str_length_app in E. simpl in E. lia. }
  repeat split.
  - specialize (Hne "" ltac:(by left)). by destruct (_ +:+ _).
  - apply negb_true_iff. unfold str_eqb. apply bool_decide_eq_false_2, Hne. auto.
  - apply negb_true_iff. unfold str_eqb. apply bool_decide_eq_false_2, Hne. auto.
  - rewrite str_all_app. apply andb_true_iff. split; [|done]. revert Hall. apply str_all_impl. intros c Hc. apply negb_true_iff.
    destruct (Ascii.eqb_spec "/" c) as [<-|]; [|done]. by vm_compute in Hc.
Qed.
Lemma config_file_not_reports : config_file <> "reports" /\ config_file +:+ ".tmp" <> "reports".
Proof.
  assert (forall s e, ends_with e s = true -> ends_with e "reports" = false -> s <> "reports") as He by (intros s e E1 E2 ->; congruence).
  split; [apply (He _ ".json")|apply (He _ ".tmp")]; try done; apply ends_with_true; by eexists.
Qed.

Section Named.
Context (Hb : valid_bucket_name b = true) (Hid : id <> "").
Lemma inventory_path_eq : inventory_path b = inv.
Proof. unfold inventory_path. by rewrite bucket_path_eq, join_plain. Qed.
Lemma inventory_config_path_eq : inventory_config_path b id = (inv ++ [config_file])%list.
Proof. unfold inventory_config_path. rewrite inventory_path_eq. by rewrite join_plain by apply config_file_plain. Qed.
Lemma inventory_report_path_eq : inventory_report_path b id = report.
Proof.
  unfold inventory_report_path. rewrite inventory_path_eq, (join_plain inv) by done. by rewrite join_plain by by apply encoded_name_plain.
Qed.
Lemma inventory_report_csv_path_eq : inventory_report_csv_path b id = (report ++ ["inventory.csv"])%list.
Proof. unfold inventory_report_csv_path. by rewrite inventory_report_path_eq, join_plain. Qed.
Lemma inventory_report_manifest_path_eq : inventory_report_manifest_path b id = (report ++ ["manifest.json"])%list.
Proof. unfold inventory_report_manifest_path. by rewrite inventory_report_path_eq, join_plain. Qed.
End Named.

Lemma not_prefix_snoc (p : path) x : (p ++ [x])%list ∈ prefixes p -> False.
Proof. intros [r E]%elem_of_prefixes. apply (f_equal length) in E. rewrite !length_app in E. simpl in E. lia. Qed.
(** What the steps below the directory of inventories leave of the bucket. *)
Definition beside_inventory (t t' : tree) : Prop := same_outside inv t t' /\ t' !! inv = Some Dir.
Lemma beside_bucket t t' : bucket_at t b B m -> beside_inventory t t' -> bucket_at t' b B m.
Proof.
  intros Hb [Hs Hd]. eapply (bucket_at_subdir b B "inventory"); [exact Hb|set_solver|exact Hs|].
  intros x Hx. unfold inv in Hd. rewrite Hd in Hx. injection Hx as <-. right; right; by left.
Qed.

Lemma wp_bucket_at s (Q : result StoreError Bucket -> Store -> Prop) :
  bucket_at (the_files s) b B m -> (forall s', moved s (the_files s) s' -> Q (Ok B) s') -> wp (the_bucket b) Q s.
Proof.
  intros Hb HQ. unfold the_bucket, get_bucket. rewrite (proj1 Hb). cbn [negb]. rewrite bucket_path_eq by apply Hb.
  rewrite join_plain by done. apply wp_bind. apply (wp_read_json Hcalm _ _ B); [apply Hb|]. intros s' M. simpl.
  apply wp_lift. by apply HQ.
Qed.
(** A directory of inventories or of a report, made. *)
Lemma wp_make_dir s p (Q : result StoreError unit -> Store -> Prop) :
  bucket_at (the_files s) b B m -> p = inv \/ p = report -> (forall q d, q ∈ [inv; reports; report] -> the_files s !! q <> Some (File d)) ->
  (forall s', beside_inventory (the_files s) (the_files s') ->
     (forall q, the_files s' !! q = if decide (q ∈ prefixes p) then Some Dir else the_files s !! q) -> Q (Ok tt) s') ->
  wp (io (fs_create_dir_all p)) Q s.
Proof.
  intros Hb Hp Hn HQ. pose proof Hb as (_ & Hr & Hd & _).
  assert (forall q, q ∈ prefixes p -> q = [] \/ q = [b] \/ q ∈ [inv; reports; report]) as Hpre.
  { intros q Hq. destruct Hp as [-> | ->].
    - change (prefixes inv) with [[]; [b]; inv] in Hq. rewrite !elem_of_cons in *. naive_solver.
    - change (prefixes report) with [[]; [b]; inv; reports; report] in Hq. rewrite !elem_of_cons in *. naive_solver. }
  apply wp_create_dir_all; [done| |].
  - intros q d Hq. destruct (Hpre q Hq) as [->|[->|Hq']]; [by rewrite Hr|by rewrite Hd|by apply Hn].
  - intros t' s' (E & _) Hq. rewrite <- E in Hq. apply HQ; [split|done].
    + intros q Ho. rewrite Hq. case_decide as Hin; [|done]. destruct (Hpre q Hin) as [->|[->|Hin']]; [done..|]. exfalso.
      rewrite !elem_of_cons in Hin'. unfold reports, report in Hin'.
      destruct Hin' as [->|[->|[->|[]%elem_of_nil]]]; revert Ho; unfold reports; rewrite <- ?app_assoc;
        rewrite ?below_app; try done. by rewrite <- (app_nil_r inv), below_app.
    + rewrite Hq. case_decide as Hin; [done|]. exfalso. apply Hin. apply elem_of_prefixes. destruct Hp as [-> | ->].
      * exists []. by rewrite app_nil_r.
      * exists ["reports"; Base64.raw_url_encode id]. done.
Qed.

Lemma report_fields_some config : inventory_report_fields config <> [].
Proof.
  unfold inventory_report_fields. set (fs := if str_eqb _ _ then _ else _). assert (fs <> []) as Hfs by (subst fs; by destruct (str_eqb _ _)).
  revert Hfs. generalize fs as l. induction (optional_fields config) as [|f os IH]; intros l Hl; [done|]. simpl. apply IH.
  destruct (_ || _); [done|]. by destruct l.
Qed.
Definition inventory_report_of (config : InventoryConfiguration) : list (list string) :=
  inventory_report_fields config
    :: map (fun o => inventory_report_row o (latest_version_ids (listed "" m)) (inventory_report_fields config)) (listed "" m).
Lemma filter_listed : List.filter (fun o => negb (delete_marker o)) (listed "" m) = listed "" m.
Proof.
  assert (Forall (fun o => negb (delete_marker o) = true) (listed "" m)) as Hall.
  { apply Forall_forall. intros o (k & y & _ & _ & Hm & _)%elem_of_listed. by rewrite Hm. }
  induction Hall as [|o os Ho _ IH]; [done|]. simpl. by rewrite Ho, IH.
Qed.
Lemma records_listed config : inventory_records (listed "" m) (inventory_report_fields config) = inventory_report_of config.
Proof.
  unfold inventory_records, inventory_report_of. by rewrite filter_listed.
Qed.

(** The report as it lies on the disk. *)
Definition report_at (t : tree) (config : InventoryConfiguration) : Prop :=
  t !! inventory_report_csv_path b id = Some (File (write_csv (inventory_report_of config)))
  /\ json_at t (inventory_report_manifest_path b id) (inventory_manifest b id config (listed "" m)).
Lemma wp_write_report s config (Q : result StoreError unit -> Store -> Prop) :
  bucket_at (the_files s) b B m -> id <> "" -> inventory_room (the_files s) -> the_files s !! inv = Some Dir ->
  inventory_included_versions config = "Current" ->
  (forall s', beside_inventory (the_files s) (the_files s') -> report_at (the_files s') config ->
     (forall q, below report q = None -> q <> reports -> the_files s' !! q = the_files s !! q) -> Q (Ok tt) s') ->
  wp (write_inventory_report b id config) Q s.
Proof.
  intros Hb Hid Hroom Hinv Hcur HQ. pose proof (proj1 Hb) as Hname. unfold write_inventory_report, inventory_report_objects.
  rewrite Hcur. cbn [str_eqb]. apply wp_bind, wp_bind. apply (wp_list_objects Hcalm s b B m); [done|]. intros s1 (F1 & _). simpl.
  apply wp_lift. simpl. rewrite <- F1 in *. rewrite inventory_report_csv_path_eq, inventory_report_manifest_path_eq, inventory_report_path_eq by done.
  apply wp_bind. apply wp_make_dir; [done|by right|apply Hroom|]. intros s2 B2 T2. cbn [bind_post]. rewrite records_listed.
  destruct Hroom as (Hdirs & _ & _ & Hcsv & Hman & Htmp).
  assert (forall x, the_files s2 !! (report ++ [x])%list = the_files s1 !! (report ++ [x])%list) as Hin.
  { intros x. rewrite T2. rewrite decide_False; [done|]. intros Hx. by apply not_prefix_snoc in Hx. }
  assert (the_files s2 !! report = Some Dir) as Hrep.
  { rewrite T2, decide_True; [done|]. apply elem_of_prefixes. exists []. by rewrite app_nil_r. }
  apply wp_bind. eapply wp_io; [apply runs_write; [done|by rewrite path_parent_snoc|by rewrite Hin]|].
  intros s3 (F3 & _). cbn [bind_post map_err of_result]. unfold write_json.
  assert (forall x, report <> (report ++ [x])%list) as Hne by (intros x E; apply (f_equal length) in E; rewrite length_app in E; simpl in E; lia).
  assert (forall x y, x <> y -> (report ++ [x])%list <> (report ++ [y])%list) as Hxy by (intros x y Hd E; apply app_inv_head in E; congruence).
  apply (wp_atomic Hcalm).
  - by rewrite F3, lookup_insert_ne.
  - rewrite F3, lookup_insert_ne by by apply Hxy. by rewrite Hin.
  - rewrite F3, lookup_insert_ne by by apply Hxy. by rewrite Hin.
  - intros s4 (F4 & _). rewrite F3 in F4. apply HQ; rewrite F4.
    + split.
      * apply (same_outside_trans _ _ (the_files s2)); [apply B2|].
        apply (same_outside_trans _ _ (<[(report ++ ["inventory.csv"])%list := File (write_csv (inventory_report_of config))]> (the_files s2)));
          [apply (same_outside_insert inv _ ["reports"; Base64.raw_url_encode id; "inventory.csv"])
          |apply (same_outside_insert inv _ ["reports"; Base64.raw_url_encode id; "manifest.json"])].
      * rewrite !lookup_insert_ne by done. apply B2.
    + unfold report_at. rewrite inventory_report_csv_path_eq, inventory_report_manifest_path_eq by done. split.
      * by rewrite lookup_insert_ne, lookup_insert_eq by by apply Hxy.
      * eexists. split; [apply lookup_insert_eq|apply decode_encode].
    + intros q Hq Hqr. rewrite !lookup_insert_ne by (intros <-; by rewrite below_app in Hq). rewrite T2.
      case_decide as Hp; [|done]. change (prefixes report) with [[]; [b]; inv; reports; report] in Hp.
      rewrite !elem_of_cons in Hp. destruct Hb as (_ & Hr & Hd & _). symmetry.
      destruct Hp as [->|[->|[->|[->|[->|[]%elem_of_nil]]]]]; try done. by rewrite <- (app_nil_r report), below_app in Hq.
Qed.

(** The configuration written: its file is new, the rest below the inventories as it was. *)
Definition config_saved (config : InventoryConfiguration) (t t' : tree) : Prop :=
  beside_inventory t t' /\ t' !! (inv ++ [config_file])%list = Some (File (encode config))
  /\ forall x r, x <> config_file -> t' !! (inv ++ x :: r)%list = t !! (inv ++ x :: r)%list.
Lemma wp_save_config s config (Q : result StoreError unit -> Store -> Prop) :
  bucket_at (the_files s) b B m -> inventory_room (the_files s) ->
  (forall s', config_saved config (the_files s) (the_files s') -> Q (Ok tt) s') ->
  wp (io (fs_create_dir_all inv);; write_json (inv ++ [config_file])%list config) Q s.
Proof.
  intros Hb (Hdirs & Hcfg & Htmp & _) HQ. apply wp_bind, wp_make_dir; [done|by left|done|]. intros s2 B2 T2. cbn [bind_post].
  change (prefixes inv) with [[]; [b]; inv] in T2.
  assert (forall x r, the_files s2 !! (inv ++ x :: r)%list = the_files s !! (inv ++ x :: r)%list) as Hq.
  { intros x r. rewrite T2, decide_False; [done|]. rewrite !not_elem_of_cons. split_and!; try done. apply not_elem_of_nil. }
  unfold write_json. apply (wp_atomic Hcalm); [apply B2|by rewrite Hq|by rewrite Hq|]. intros s3 (F3 & _). apply HQ. rewrite F3.
  split_and!; [split|apply lookup_insert_eq|].
  - eapply same_outside_trans; [apply B2|apply same_outside_insert].
  - rewrite lookup_insert_ne by done. apply B2.
  - intros x r Hx. rewrite lookup_insert_ne; [by apply Hq|]. intros E. injection E. congruence.
Qed.
Lemma room_kept config t t' : inventory_room t -> config_saved config t t' -> inventory_room t'.
Proof.
  intros (Hdirs & _ & Htmp & Hcsv & Hman & Hmtmp) ([_ Hinv] & Hc & Hin). destruct config_file_not_reports as [Hne _].
  set (e := Base64.raw_url_encode id) in *.
  assert (forall q r, q = (inv ++ "reports" :: r)%list -> t' !! q = t !! q) as Hrep by (intros q r ->; by apply Hin).
  unfold inventory_room. split_and!.
  - intros p d Hp. rewrite !elem_of_cons in Hp. destruct Hp as [->|[->|[->|[]%elem_of_nil]]]; [by rewrite Hinv| |].
    + rewrite (Hrep reports []) by done. apply Hdirs. right; by left.
    + rewrite (Hrep report [e]) by done. apply Hdirs. right; right; by left.
  - by rewrite Hc.
  - rewrite Hin; [done|]. intros E. apply (f_equal String.length) in E. rewrite str_length_app in E. simpl in E. lia.
  - by rewrite (Hrep _ [e; "inventory.csv"]).
  - by rewrite (Hrep _ [e; "manifest.json"]).
  - by rewrite (Hrep _ [e; "manifest.json.tmp"]).
Qed.
Lemma wp_put_inventory s config (Q : result StoreError unit -> Store -> Prop) :
  let config' := set_inventory_id id config in
  bucket_at (the_files s) b B m -> id <> "" -> inventory_room (the_files s) ->
  is_enabled config = true -> inventory_report_format config = "CSV" -> inventory_included_versions config = "Current" ->
  (forall s', beside_inventory (the_files s) (the_files s') -> json_at (the_files s') (inv ++ [config_file])%list config' ->
     report_at (the_files s') config' -> Q (Ok tt) s') -> wp (put_bucket_inventory b id config) Q s.
Proof.
  intros config' Hb Hid Hroom He Hf Hcur HQ. pose proof (proj1 Hb) as Hname. unfold put_bucket_inventory.
  apply wp_bind, wp_bucket_at; [done|]. intros s1 (F1 & _). cbn [bind_post]. fold config'. rewrite <- F1 in *.
  rewrite inventory_config_path_eq, inventory_path_eq by done. apply wp_bind_bind, wp_bind, wp_save_config; [done..|].
  intros s3 Hs. cbn [bind_post]. change (is_enabled config') with (is_enabled config). rewrite He. cbn [negb orb].
  change (inventory_report_format config') with (inventory_report_format config). rewrite Hf. cbn [str_eqb negb].
  pose proof Hs as (B3 & Hc & _).
  apply wp_write_report; [by eapply beside_bucket|done|by eapply room_kept|apply B3|done|]. intros s4 B4 R4 K4. apply HQ; [|..|done].
  - split; [eapply same_outside_trans; [apply B3|apply B4]|apply B4].
  - exists (encode config'). split; [|apply decode_encode]. rewrite K4; [done| |].
    + apply below_None. by intros q [=].
    + intros [= E]. by destruct config_file_not_reports.
Qed.
Lemma wp_get_inventory s config : bucket_at (the_files s) b B m -> json_at (the_files s) (inv ++ [config_file])%list config ->
  wp (get_bucket_inventory b id) (fun r _ => r = Ok (Some (config, true))) s.
Proof.
  intros Hb Hj. pose proof (proj1 Hb) as Hname. unfold get_bucket_inventory, get_bucket. rewrite Hname. cbn [negb].
  rewrite inventory_config_path_eq, bucket_path_eq, join_plain by done.
  apply wp_bind, (wp_read_json Hcalm _ _ B); [apply Hb|]. intros s1 (F1 & _). cbn [bind_post].
  apply wp_bind, (wp_read_json Hcalm _ _ config); [by rewrite F1|]. intros s2 _. cbn [bind_post]. by apply wp_ret.
Qed.

(** *** What the columns say *)

(** The columns of every report. *)
Definition standard_columns : list string := ["Bucket"; "Key"; "Size"; "LastModifiedDate"; "ETag"; "StorageClass"].
Definition known_columns : list string :=
  (standard_columns ++ ["VersionId"; "IsLatest"; "EncryptionStatus"; "ObjectLockRetainUntilDate"; "ObjectLockRetentionMode";
                        "ObjectLockLegalHoldStatus"])%list.
(** The cell of a column in the row of a current object. *)
Inductive says (o : Object) : string -> string -> Prop :=
| says_bucket : says o "Bucket" b
| says_key : says o "Key" (o_key o)
| says_size : says o "Size" (show_Z (o_size o))
| says_modified secs nanos : parse_rfc3339 (last_modified o) = Some (secs, nanos) ->
    says o "LastModifiedDate" (rfc3339_seconds_from_unix secs)
| says_modified_text : parse_rfc3339 (last_modified o) = None -> says o "LastModifiedDate" (last_modified o)
| says_etag : says o "ETag" (etag o)
| says_class : says o "StorageClass" "STANDARD"
| says_version : says o "VersionId" (version_id o)
| says_latest : says o "IsLatest" "true"
| says_encryption : says o "EncryptionStatus" (algorithm (encryption o))
| says_retained : says o "ObjectLockRetainUntilDate" (retain_until_date (retention o))
| says_mode : says o "ObjectLockRetentionMode" (r_mode (retention o))
| says_hold : says o "ObjectLockLegalHoldStatus" (legal_hold o)
| says_nothing column : column ∉ known_columns -> says o column "".
(** The header: the standard columns, then the optional fields asked for, trimmed and in
    their order, each once. *)
Definition report_header (config : InventoryConfiguration) (header : list string) : Prop :=
  NoDup header
  /\ exists extra, header = (standard_columns ++ extra)%list /\ extra `sublist_of` map trim (optional_fields config)
       /\ forall f, f ∈ header <-> f ∈ standard_columns \/ (f <> "" /\ f ∈ map trim (optional_fields config)).

Lemma fields_added os fs : NoDup fs ->
  let fs' := foldl (fun fields field => let field := trim field in
    if is_empty field || existsb (str_eqb field) fields then fields else (fields ++ [field])%list) fs os in
  NoDup fs' /\ exists extra, fs' = (fs ++ extra)%list /\ extra `sublist_of` map trim os
    /\ forall f, f ∈ fs' <-> f ∈ fs \/ (f <> "" /\ f ∈ map trim os).
Proof.
  revert fs. induction os as [|x os IH]; intros fs Hnd.
  { split; [done|]. exists []. rewrite app_nil_r. split_and!; [done|constructor|]. intros f. rewrite elem_of_nil. tauto. }
  cbn [foldl map]. destruct (is_empty (trim x) || existsb (str_eqb (trim x)) fs) eqn:E.
  - destruct (IH fs Hnd) as (Hn & extra & Hfs & Hs & Hm). split; [exact Hn|]. exists extra. split_and!; [exact Hfs|by constructor|].
    intros f. rewrite Hm, elem_of_cons. apply orb_true_iff in E as [E%is_empty_true|(g & Hg & Hx)%existsb_exists].
    + rewrite E. naive_solver.
    + apply str_eqb_true in Hx as ->. apply list_elem_of_In in Hg. naive_solver.
  - apply orb_false_iff in E as [E1 E2].
    assert (trim x ∉ fs) as Hx.
    { intros Hin. rewrite (proj2 (existsb_exists _ _)) in E2; [done|]. exists (trim x). split; [by apply list_elem_of_In|by apply str_eqb_true]. }
    assert (trim x <> "") as Hne by (intros Hx0; by rewrite Hx0 in E1).
    destruct (IH (fs ++ [trim x])%list) as (Hn & extra & Hfs & Hs & Hm).
    { apply NoDup_app. split_and!; [done| |by apply NoDup_singleton]. by intros y Hy ->%list_elem_of_singleton. }
    split; [exact Hn|]. exists (trim x :: extra). rewrite <- app_assoc in Hfs. split_and!; [exact Hfs|by constructor|].
    intros f. rewrite Hm, elem_of_app, list_elem_of_singleton, elem_of_cons. naive_solver.
Qed.
Lemma report_header_of config : inventory_included_versions config = "Current" ->
  report_header config (inventory_report_fields config).
Proof.
  intros Hcur. unfold report_header, inventory_report_fields. rewrite Hcur. cbn [str_eqb].
  apply (fields_added (optional_fields config) standard_columns). by apply (bool_decide_unpack _); vm_compute.
Qed.

(** With one object a key every object is the latest. *)
Lemma latest_only os acc o : NoDup (map o_key os) -> (forall x, x ∈ os -> acc.2 !! o_key x = None) -> o ∈ os ->
  (foldl latest_step acc os).1 !! o_key o = Some (version_id o).
Proof.
  assert (forall os acc k, k ∉ map o_key os -> (foldl latest_step acc os).1 !! k = acc.1 !! k) as Hother.
  { clear. induction os as [|x os IH]; intros acc k Hk; [done|]. apply not_elem_of_cons in Hk as [Hne Hk].
    cbn [foldl]. rewrite IH by done. destruct acc as [l lm]. unfold latest_step. destruct (lm !! o_key x) as [t|];
      [destruct (time_after _ _); [|done]|]; simpl; by rewrite lookup_insert_ne. }
  revert acc. induction os as [|x os IH]; intros acc Hnd Hacc Ho; [by apply elem_of_nil in Ho|].
  cbn [map] in Hnd. apply NoDup_cons in Hnd as [Hx Hnd]. cbn [foldl]. destruct acc as [l lm]. unfold latest_step at 2.
  pose proof (Hacc x (list_elem_of_here _ _)) as Hlm. simpl in Hlm. rewrite Hlm.
  apply elem_of_cons in Ho as [->|Ho].
  - rewrite Hother by done. apply lookup_insert_eq.
  - apply IH; [done| |done]. intros y Hy. simpl. rewrite lookup_insert_ne; [by apply (Hacc y); right|].
    intros E. apply Hx. rewrite E. by apply list_elem_of_fmap_2.
Qed.
Lemma value_says o latest column : o_bucket o = b -> latest !! o_key o = Some (version_id o) ->
  says o column (inventory_value o latest column).
Proof.
  intros Hb Hl. unfold inventory_value. rewrite Hl, bool_decide_true by done.
  assert (forall x, str_eqb column x = true -> column = x) as He by (intros x Hx; by apply str_eqb_true).
  repeat (match goal with |- context [if str_eqb column ?x then _ else _] =>
    destruct (str_eqb column x) eqn:?; [rewrite (He x) by done; rewrite <- ?Hb;
      try (destruct (parse_rfc3339 (last_modified o)) as [[]|] eqn:?); first [by econstructor|by rewrite Hb; econstructor]|] end).
  apply says_nothing. unfold known_columns, standard_columns. cbn [app].
  repeat (apply not_elem_of_cons; split; [intros ->; by vm_compute in *|]). apply not_elem_of_nil.
Qed.
Lemma rows_say t o header : bucket_at t b B m -> o ∈ listed "" m ->
  Forall2 (says o) header (inventory_report_row o (latest_version_ids (listed "" m)) header).
Proof.
  intros (_ & _ & _ & _ & _ & _ & _ & _ & Hown) Ho.
  assert (map_Forall (fun k y => o_key (k_current y) = k) m) as Hkeys by (intros k y Hy; by apply (Hown k y Hy)).
  assert (NoDup (map o_key (listed "" m))) as Hnd.
  { clear Ho. induction (listed_sorted Hcalm "" m Hkeys) as [|x os _ IH Hx]; [constructor|]. cbn [map]. constructor; [|done].
    intros (y & E & Hy)%list_elem_of_fmap. rewrite Forall_forall in Hx. specialize (Hx y Hy). unfold object_cmp in Hx.
    rewrite E in Hx. by rewrite string_compare_refl in Hx. }
  pose proof Ho as (k & y & Hy & <- & _)%elem_of_listed. unfold inventory_report_row.
  assert ((k_current y) ∈ listed "" m) as Hin by done. clear Ho.
  induction header as [|f fs IH]; [constructor|]. cbn [map]. constructor; [|done]. apply value_says; [by apply (Hown k y Hy)|].
  unfold latest_version_ids. apply latest_only; [done|done|done].
Qed.

(** C19: On a disk that does not fail, with no stray files in the way, storing an enabled CSV
    inventory of the current versions writes a report that, read as CSV, is the header of the
    standard columns and the optional fields asked for, and for every object of the bucket,
    in key order, the row that says of it what each column means; the manifest names the
    columns and counts the rows, the configuration is read back, and nothing but the
    bucket's inventories changes. *)
Theorem inventory_report_exact s config :
  bucket_at (the_files s) b B m -> id <> "" -> inventory_room (the_files s) ->
  is_enabled config = true -> trim (ic_format config) = "" \/ trim (ic_format config) = "CSV" ->
  included_object_versions config <> "All" ->
  let (r, s') := put_bucket_inventory b id config s in
  r = Ok tt /\ bucket_at (the_files s') b B m /\ same_outside inv (the_files s) (the_files s')
  /\ fst (get_bucket_inventory b id s') = Ok (Some (set_inventory_id id config, true))
  /\ exists csv header rows, the_files s' !! (report ++ ["inventory.csv"])%list = Some (File csv)
       /\ read_csv csv = Some (header :: rows)
       /\ report_header config header /\ Forall2 (fun o row => Forall2 (says o) header row) (listed "" m) rows
       /\ json_at (the_files s') (report ++ ["manifest.json"])%list
            (mkManifest id b "CSV" "Current" header (Z.of_nat (length rows))
               ("inventory/reports/" +:+ Base64.raw_url_encode id +:+ "/inventory.csv")).
Proof.
  intros Hb Hid Hroom He Hf0 Hcur0. pose proof (proj1 Hb) as Hname.
  assert (inventory_report_format config = "CSV") as Hf by (unfold inventory_report_format; by destruct Hf0 as [-> | ->]).
  assert (inventory_included_versions config = "Current") as Hcur.
  { unfold inventory_included_versions. destruct (str_eqb _ _) eqn:E; [by apply str_eqb_true in E|done]. }
  pose proof (wp_put_inventory s config (fun r s' => r = Ok tt /\ beside_inventory (the_files s) (the_files s')
    /\ json_at (the_files s') (inv ++ [config_file])%list (set_inventory_id id config)
    /\ report_at (the_files s') (set_inventory_id id config)) Hb Hid Hroom He Hf Hcur) as Hwp.
  specialize (Hwp (fun _ Hs Hj Hr => conj eq_refl (conj Hs (conj Hj Hr)))). unfold wp in Hwp.
  destruct (put_bucket_inventory b id config s) as [r s']. simpl in Hwp. destruct Hwp as (-> & Hbes & Hj & Hcsv & Hman).
  rewrite inventory_report_csv_path_eq in Hcsv by done. rewrite inventory_report_manifest_path_eq in Hman by done.
  pose proof (beside_bucket _ _ Hb Hbes) as Hb'. split_and!; [done|done|apply Hbes|by apply wp_get_inventory|].
  set (header := inventory_report_fields (set_inventory_id id config)) in *.
  eexists _, header, _. split_and!; [exact Hcsv| | | |].
  - apply csv_read_back. constructor; [apply (report_fields_some config)|].
    apply Forall_map, Forall_true. intros o E%map_eq_nil. by apply (report_fields_some config).
  - by apply report_header_of.
  - apply Forall2_fmap_r, Forall_Forall2_diag, Forall_forall. intros o Ho. by eapply rows_say.
  - unfold inventory_manifest in Hman. fold header in Hman.
    unfold inventory_report_object_count in Hman. rewrite filter_listed in Hman.
    change (inventory_report_format (set_inventory_id id config)) with (inventory_report_format config) in Hman.
    change (inventory_included_versions (set_inventory_id id config)) with (inventory_included_versions config) in Hman.
    rewrite Hf, Hcur in Hman. by rewrite length_map.
Qed.
End Reports.
