(* ===== verification/S3Confined.v ===== *)
(** Calls on one object touch nothing else, on a disk that may fail at any system call
    and leave it half done. *)

From S2P Require Import Prelude RustStr RustNum RustText SqsTime PubTime S3Codecs Disk S3Store S3Objects S3Config S3Calm.
Local Open Scope string_scope.
Local Open Scope Z_scope.

(** ** Steps that keep the paths of [P] *)

Definition agree (P : path -> Prop) (t t' : tree) : Prop := forall q, P q -> t' !! q = t !! q.
Lemma agree_refl P t : agree P t t.
Proof. done. Qed.
Lemma agree_trans P t1 t2 t3 : agree P t1 t2 -> agree P t2 t3 -> agree P t1 t3.
Proof. intros H1 H2 q Hq. by rewrite H2, H1. Qed.
Lemma agree_insert P p n t : ~ P p -> agree P t (<[p := n]> t).
Proof. intros Hp q Hq. rewrite lookup_insert_ne; [done|]. by intros ->. Qed.
Lemma tree_agree_delete P p t : ~ P p -> agree P t (delete p t).
Proof. intros Hp q Hq. rewrite lookup_delete_ne; [done|]. by intros ->. Qed.
Lemma agree_put_file P p data t t' : ~ P p -> put_file p data t = inl t' -> agree P t t'.
Proof.
  intros Hp. unfold put_file. destruct (t !! p) as [[]|], (parent_error t p); try done; intros [= <-]; by apply agree_insert.
Qed.
Lemma agree_cleared P p keep t : (forall q, P q -> below p q = None) -> agree P t (cleared p keep t).
Proof. intros Hp q Hq. by rewrite lookup_cleared, Hp. Qed.
Lemma agree_made_dirs P ps t t' : (forall p, p ∈ ps -> ~ P p) -> made_dirs ps t = inl t' -> agree P t t'.
Proof.
  unfold made_dirs. revert t. induction ps as [|p ps IH]; intros t Hp; cbn [foldl]; [by intros [= <-]|].
  assert (forall e, foldl (fun r p => match r with inr e => inr e | inl t => match t !! p with
    None => inl (<[p:=Dir]> t) | Some Dir => inl t | Some (File _) => inr NotADirectory end end) (inr e : tree + io_error) ps = inr e)
    as Hbad by (clear; induction ps; intros e; cbn [foldl]; auto).
  destruct (t !! p) as [[d|]|]; [by rewrite Hbad|..]; intros E.
  - apply (IH t); [|done]. intros p' Hp'. apply Hp. by right.
  - eapply agree_trans; [|apply (IH (<[p:=Dir]> t)); [|done]]; [apply agree_insert, Hp; by left|].
    intros p' Hp'. apply Hp. by right.
Qed.

Create HintDb keeps discriminated.

Section Keeps.
Context `{Disk, Clock, Hashes}.
Abbreviation IO := (ME io_error DiskState).
Abbreviation St := (ME StoreError Store).
Context (P : path -> Prop).

Definition keeps_io {A} (m : IO A) : Prop := forall d, agree P (files d) (files (m d).2).
Definition keeps {E A} (m : ME E Store A) : Prop := forall s, agree P (the_files s) (the_files (m s).2).

Lemma keeps_query {A} (f : tree -> A + io_error) : keeps_io (query f).
Proof. intros d. unfold query, syscall. destruct (disk_fault _); [apply agree_refl|]. by destruct (f (files d)). Qed.
Lemma keeps_change f g : (forall t t', f t = inl t' -> agree P t t') -> (forall n t, agree P t (g n t)) -> keeps_io (change f g).
Proof.
  intros Hf Hg d. unfold change, syscall. destruct (disk_fault _); [apply Hg|].
  destruct (f (files d)) as [t|] eqn:E; [by apply Hf|apply agree_refl].
Qed.
Lemma keeps_read p : keeps_io (fs_read p).
Proof. apply keeps_query. Qed.
Lemma keeps_metadata p : keeps_io (fs_metadata p).
Proof. apply keeps_query. Qed.
Lemma keeps_read_dir p : keeps_io (fs_read_dir p).
Proof. intros d. apply keeps_query. Qed.
Lemma keeps_write p data : ~ P p -> keeps_io (fs_write p data).
Proof.
  intros Hp. apply keeps_change; [intros t t'; by apply agree_put_file|]. intros n t. destruct (disk_torn n data) as [torn|]; [|done].
  destruct (put_file p torn t) eqn:E; [by eapply agree_put_file|done].
Qed.
Lemma keeps_rename a b : ~ P a -> ~ P b -> keeps_io (fs_rename a b).
Proof.
  intros Ha Hb. apply keeps_change; [|done]. intros t t'. destruct (t !! a) as [[data|]|]; [|done..].
  destruct (put_file b data t) as [t1|] eqn:E; [|done]. intros [= <-].
  eapply agree_trans; [by eapply agree_put_file|by apply tree_agree_delete].
Qed.
Lemma keeps_remove_file p : ~ P p -> keeps_io (fs_remove_file p).
Proof.
  intros Hp. apply keeps_change; [|done]. intros t t'. destruct (t !! p) as [[]|]; try done. intros [= <-]. by apply tree_agree_delete.
Qed.
Lemma keeps_remove_dir p : ~ P p -> keeps_io (fs_remove_dir p).
Proof.
  intros Hp. apply keeps_change; [|done]. intros t t'. destruct (t !! p) as [[]|]; try done.
  destruct (entry_names t p); [|done]. intros [= <-]. by apply tree_agree_delete.
Qed.
Lemma keeps_remove_dir_all p : (forall q, P q -> below p q = None) -> keeps_io (fs_remove_dir_all p).
Proof.
  intros Hp. apply keeps_change; [|intros n t; by apply agree_cleared]. intros t t'. destruct (t !! p) as [[]|]; try done.
  intros [= <-]. by apply agree_cleared.
Qed.
Lemma keeps_create_dir_all p : (forall q, q ∈ prefixes p -> ~ P q) -> keeps_io (fs_create_dir_all p).
Proof.
  intros Hp. apply keeps_change; [intros t t'; by apply agree_made_dirs|]. intros n t.
  destruct (made_dirs _ t) as [t'|] eqn:E; [|done]. eapply agree_made_dirs; [|exact E].
  intros q Hq. apply Hp. apply list_elem_of_lookup in Hq as [i Hi]. apply lookup_take_Some in Hi as [Hi _]. by eapply list_elem_of_lookup_2.
Qed.
Lemma keeps_hard_link a b : ~ P b -> keeps_io (fs_hard_link a b).
Proof.
  intros Hb. apply keeps_change; [|done]. intros t t'. destruct (t !! a) as [[data|]|]; [|done..].
  destruct (bool_decide _); [done|]. by apply agree_put_file.
Qed.

Lemma keeps_in {A} (m : IO A) : keeps_io m -> keeps (io m).
Proof. intros Hm s q Hq. unfold io. specialize (Hm (disk s)). destruct (m (disk s)) as [r d]. by apply Hm. Qed.
Lemma keeps_try {A} (m : IO A) : keeps_io m -> keeps (try_io m).
Proof. intros Hm s q Hq. unfold try_io. specialize (Hm (disk s)). destruct (m (disk s)) as [[]  d]; by apply Hm. Qed.
Lemma keeps_ret {E A} (a : A) : keeps (mret a : ME E Store A).
Proof. done. Qed.
Lemma keeps_fail {E A} (e : E) : keeps (fail e : ME E Store A).
Proof. done. Qed.
Lemma keeps_lift {E A} (r : result E A) : keeps (lift r).
Proof. done. Qed.
Lemma keeps_gets {E A} (f : Store -> A) : keeps (gets f : ME E Store A).
Proof. done. Qed.
Lemma keeps_bind {E A B} (m : ME E Store A) (f : A -> ME E Store B) : keeps m -> (forall a, keeps (f a)) -> keeps (m ≫= f).
Proof.
  intros Hm Hf s q Hq. unfold mbind, m_bind. specialize (Hm s). destruct (m s) as [[a|e|w] s1]; simpl in *; [|by apply Hm..].
  rewrite Hf by done. by apply Hm.
Qed.
(** What follows a check that has passed. *)
Lemma keeps_guard {E A} (c : bool) (e : E) (f : unit -> ME E Store A) : (c = false -> keeps (f tt)) -> keeps (guard_err c e ≫= f).
Proof. intros Hf s q Hq. unfold guard_err. destruct c; [done|]. by apply Hf. Qed.
Lemma keeps_lift_bind {E A B} (r : result E A) (f : A -> ME E Store B) : (forall a, r = Ok a -> keeps (f a)) -> keeps (lift r ≫= f).
Proof. intros Hf s q Hq. unfold mbind, m_bind, lift. destruct r as [a|e|w]; [by apply Hf|done..]. Qed.
Lemma keeps_for_each {E X A} (body : X -> A -> ME E Store A) xs acc : (forall x a, keeps (body x a)) -> keeps (for_each xs acc body).
Proof. intros Hb. revert acc. induction xs as [|x xs IH]; intros acc; [done|]. by apply keeps_bind. Qed.
Lemma keeps_tick : keeps tick.
Proof. done. Qed.
Lemma keeps_guard_err {E} (c : bool) (e : E) : keeps (guard_err c e).
Proof. by destruct c. Qed.
End Keeps.

#[export] Hint Resolve keeps_read keeps_metadata keeps_read_dir keeps_in keeps_try keeps_ret keeps_fail keeps_lift keeps_gets
  keeps_tick keeps_guard_err : keeps.
(** Binds and branches down to steps that are known. *)
Ltac solve_keeps := repeat first
  [ progress intros | solve [auto with keeps] | apply keeps_guard | apply keeps_bind | apply keeps_for_each
  | match goal with |- keeps _ (match ?x with _ => _ end) => destruct x eqn:? end ].

Section Store.
Context `{Disk, Clock, Hashes, Build} `{Codec Bucket, Codec Object}.
Context (P : path -> Prop).
Abbreviation keeps := (keeps P).
Lemma keeps_ignore {A} (m : ME io_error DiskState A) : keeps_io P m -> keeps (ignore m).
Proof. intros Hm. unfold ignore. solve_keeps. Qed.
Lemma keeps_found {A} (m : ME io_error DiskState A) : keeps_io P m -> keeps (found m).
Proof. intros Hm. unfold found. solve_keeps. Qed.
Hint Resolve keeps_ignore keeps_found : keeps.
Lemma keeps_exists p : keeps (exists_ p).
Proof. unfold exists_. solve_keeps. Qed.
Lemma keeps_is_file p : keeps (is_file p).
Proof. unfold is_file. solve_keeps. Qed.
Lemma keeps_entry_is_dir p : keeps (entry_is_dir p).
Proof. unfold entry_is_dir. solve_keeps. Qed.
Lemma keeps_decoded {T} `{Codec T} data : keeps (decoded (T := T) data).
Proof. unfold decoded. solve_keeps. Qed.
Hint Resolve keeps_exists keeps_is_file keeps_entry_is_dir keeps_decoded : keeps.
Lemma keeps_read_json {T} `{Codec T} p : keeps (read_json_file (T := T) p).
Proof. unfold read_json_file. solve_keeps. Qed.
Lemma keeps_now : keeps now.
Proof. unfold now, since_epoch. solve_keeps. Qed.
Lemma keeps_new_version_id : keeps new_version_id.
Proof.
  unfold new_version_id, since_epoch. apply keeps_bind; [apply keeps_gets|]. intros [|id ids].
  - apply keeps_bind; [apply keeps_gets|]. intros seq. apply keeps_bind; [done|]. solve_keeps.
  - apply keeps_bind; [done|]. solve_keeps.
Qed.
Lemma keeps_get_bucket b : keeps (get_bucket b).
Proof. unfold get_bucket. destruct (negb _); [solve_keeps|apply keeps_read_json]. Qed.
Hint Resolve keeps_read_json keeps_now keeps_new_version_id keeps_get_bucket : keeps.
Lemma keeps_the_bucket b : keeps (the_bucket b).
Proof. unfold the_bucket. solve_keeps. Qed.
Lemma keeps_require b k : keeps (require_bucket_and_key b k).
Proof. unfold require_bucket_and_key. solve_keeps. Qed.
Lemma keeps_read_object p : keeps (read_object p).
Proof. apply keeps_read_json. Qed.
Hint Resolve keeps_the_bucket keeps_require keeps_read_object : keeps.
Lemma keeps_read_receipt id : keeps (read_resumable_upload_receipt id).
Proof. unfold read_resumable_upload_receipt. solve_keeps. Qed.
Lemma keeps_get_object b k : keeps (get_object b k).
Proof. unfold get_object. solve_keeps. Qed.
Lemma keeps_with_body o p : keeps (with_body o p).
Proof. unfold with_body. solve_keeps. Qed.
Hint Resolve keeps_read_receipt keeps_get_object keeps_with_body : keeps.
Lemma keeps_get_null b k : keeps (get_null_object_version b k).
Proof. unfold get_null_object_version. solve_keeps. Qed.
Hint Resolve keeps_get_null : keeps.
Lemma keeps_get_version b k v : keeps (get_object_version b k v).
Proof. unfold get_object_version, version_dir. solve_keeps. Qed.
Lemma keeps_latest_of p names : keeps (latest_of p names).
Proof. unfold latest_of. solve_keeps. Qed.

Lemma keeps_write_atomic d n data : ~ P (d ++ [n])%list -> ~ P (d ++ [n +:+ ".tmp"])%list -> keeps (write_atomic (d ++ [n])%list data).
Proof.
  intros Hp Ht. unfold write_atomic, atomic_tmp_path. rewrite path_parent_snoc, last_snoc. cbn [from_option]. unfold id.
  apply keeps_bind; [by apply keeps_try, keeps_write|]. intros r. destruct r; cbv beta iota.
  - apply keeps_bind; [by apply keeps_try, keeps_rename|]. intros r. destruct r; [solve_keeps|].
    apply keeps_bind; [by apply keeps_ignore, keeps_remove_file|]. solve_keeps.
  - apply keeps_bind; [by apply keeps_ignore, keeps_remove_file|]. solve_keeps.
Qed.
End Store.

#[export] Hint Resolve keeps_ignore keeps_found keeps_exists keeps_is_file keeps_entry_is_dir keeps_decoded keeps_read_json
  keeps_now keeps_new_version_id keeps_get_bucket keeps_the_bucket keeps_require keeps_read_object keeps_read_receipt
  keeps_get_object keeps_with_body keeps_get_null keeps_get_version keeps_latest_of : keeps.

(** ** The paths of one object *)

(** The receipt of a resumable upload, at the root. *)
Definition receipt_path (q : path) : bool :=
  match q with [n] => starts_with ".gcs-upload-" n && ends_with ".json" n | _ => false end.
(** The object's directory and what is in it, the directories it is in, the receipts. *)
Definition touched (b k : string) (q : path) : bool :=
  match below (dir_of b k) q with
  | Some _ => true
  | None => bool_decide (q ∈ [[]; [b]; base b]) || receipt_path q
  end.

Lemma receipt_touched b k id : valid_upload_id id = true -> touched b k (resumable_upload_receipt_path id) = true.
Proof.
  intros Hid. set (n := ".gcs-upload-" +:+ id +:+ ".json"). assert (resumable_upload_receipt_path id = [n]) as ->.
  { unfold resumable_upload_receipt_path. apply join_plain. unfold plain_name. fold n.
    assert (exists r, n = String "." (String "g" r)) as [r Hr] by by eexists.
    apply andb_true_iff. split; [rewrite Hr; by destruct r|]. subst n. rewrite !str_all_app.
    apply andb_true_iff. split; [done|]. apply andb_true_iff. split; [|done].
    unfold valid_upload_id in Hid. apply andb_true_iff in Hid as [_ Hid]. revert Hid. apply str_all_impl.
    intros c Hc. apply negb_true_iff. destruct (Ascii.eqb_spec "/" c) as [<-|]; [|done]. by vm_compute in Hc. }
  unfold touched. assert (below (dir_of b k) [n] = None) as -> by (apply below_None; by intros [|? ?]).
  apply orb_true_iff. right. change (starts_with ".gcs-upload-" n && ends_with ".json" n = true). apply andb_true_iff. split.
  - apply starts_with_true. by eexists.
  - apply ends_with_true. exists (".gcs-upload-" +:+ id). unfold n. by rewrite str_app_assoc.
Qed.

Section OneObject.
Context `{Disk, Clock, Hashes, Build} `{Codec Bucket, Codec Object, Codec AclFile}.
Context (b k : string) (Hb : valid_bucket_name b = true) (Hk : valid_object_key k = true).
Abbreviation dir := (dir_of b k).
Definition elsewhere (q : path) : Prop := touched b k q = false.
Abbreviation keeps := (keeps elsewhere).

Lemma here r : ~ elsewhere (dir ++ r)%list.
Proof. unfold elsewhere, touched. by rewrite below_app. Qed.
Lemma here_prefix r q : q ∈ prefixes (dir ++ r) -> ~ elsewhere q.
Proof.
  intros [Hq|(q' & _ & ->)]%prefixes_app; [|apply here].
  change (prefixes dir) with ([[]; [b]; base b] ++ [dir])%list in Hq. apply elem_of_app in Hq as [Hq|Hq].
  - unfold elsewhere, touched. destruct (below dir q); [done|]. by rewrite bool_decide_eq_true_2.
  - apply list_elem_of_singleton in Hq as ->. replace dir with (dir ++ [])%list by apply app_nil_r. apply here.
Qed.
Lemma keeps_put_at r n data : keeps (write_atomic ((dir ++ r) ++ [n])%list data).
Proof. apply keeps_write_atomic; rewrite <- app_assoc; apply here. Qed.
Lemma keeps_make r : keeps_io elsewhere (fs_create_dir_all (dir ++ r)%list).
Proof. apply keeps_create_dir_all. apply here_prefix. Qed.
Lemma keeps_drop r : keeps_io elsewhere (fs_remove_file (dir ++ r)%list).
Proof. apply keeps_remove_file, here. Qed.
Lemma keeps_clear r : keeps_io elsewhere (fs_remove_dir_all (dir ++ r)%list).
Proof.
  apply keeps_remove_dir_all. intros q Hq. apply below_None. intros x ->. rewrite <- app_assoc in Hq. by apply here in Hq.
Qed.
Lemma keeps_receipt id a : valid_upload_id id = true -> keeps_io elsewhere (fs_hard_link a (resumable_upload_receipt_path id)).
Proof. intros Hid. apply keeps_hard_link. unfold elsewhere. by rewrite receipt_touched. Qed.
Hint Resolve keeps_put_at keeps_make keeps_drop keeps_clear keeps_receipt : keeps.

Lemma version_path_ok p v p' : version_path p v = Ok p' -> p' = (p ++ ["versions"; v])%list.
Proof.
  destruct (valid_version_id v) eqn:Hv; [rewrite version_path_eq by done; by intros [= <-]|].
  unfold version_path. by rewrite Hv.
Qed.
Lemma keeps_write_version r o body : keeps (write_object_version (dir ++ r)%list o body).
Proof.
  unfold write_object_version, version_dir. destruct (is_empty _); [solve_keeps|].
  apply keeps_lift_bind. intros p ->%version_path_ok. rewrite <- app_assoc. unfold write_json.
  rewrite object_json_eq, body_file_eq. apply keeps_bind; [solve_keeps|]. intros _.
  apply keeps_bind; [solve_keeps|]. intros _. destruct (delete_marker o); [|solve_keeps].
  rewrite <- app_assoc. solve_keeps.
Qed.
(** The result is kept with its version, which lies in the same directory, and a receipt. *)
Lemma keeps_preserve o r : keeps (preserve_resumable_upload_result o ((dir ++ r) ++ ["object.json"])%list).
Proof.
  unfold preserve_resumable_upload_result. destruct (is_empty _) eqn:Ee; [solve_keeps|].
  destruct (_ || delete_marker o) eqn:Ev; [solve_keeps|]. rewrite !orb_false_iff, !negb_false_iff in Ev.
  destruct Ev as [[[Hid Hob] Hok] _]. apply keeps_bind; [solve_keeps|]. intros [receipt|]; [solve_keeps|].
  apply keeps_bind; [|solve_keeps]. destruct (_ && path_eqb _ _) eqn:Ep; [|solve_keeps].
  apply andb_true_iff in Ep as [_ Ep]. apply bool_decide_eq_true_1 in Ep. rewrite object_json_eq in Ep.
  apply app_inj_tail in Ep as [<- _]. apply keeps_bind; [solve_keeps|]. intros body. apply keeps_write_version.
Qed.
Lemma keeps_preserve_top o : keeps (preserve_resumable_upload_result o (dir ++ ["object.json"])%list).
Proof. pose proof (keeps_preserve o []) as Hp. by rewrite app_nil_r in Hp. Qed.
Lemma keeps_put_top n data : keeps (write_atomic (dir ++ [n])%list data).
Proof. pose proof (keeps_put_at [] n data) as Hp. by rewrite app_nil_r in Hp. Qed.
Lemma keeps_write_version_top o body : keeps (write_object_version dir o body).
Proof. pose proof (keeps_write_version [] o body) as Hp. by rewrite app_nil_r in Hp. Qed.
Lemma keeps_make_top : keeps_io elsewhere (fs_create_dir_all dir).
Proof. pose proof (keeps_make []) as Hp. by rewrite app_nil_r in Hp. Qed.
Lemma keeps_clear_top : keeps_io elsewhere (fs_remove_dir_all dir).
Proof. pose proof (keeps_clear []) as Hp. by rewrite app_nil_r in Hp. Qed.
Lemma keeps_remove_all r : keeps (remove_dir_all_if_exists (dir ++ r)%list).
Proof. unfold remove_dir_all_if_exists. solve_keeps. Qed.
Lemma keeps_remove_all_top : keeps (remove_dir_all_if_exists dir).
Proof. pose proof (keeps_remove_all []) as Hp. by rewrite app_nil_r in Hp. Qed.
Lemma keeps_drop_base : keeps_io elsewhere (fs_remove_dir (base b)).
Proof. apply keeps_remove_dir. apply (here_prefix []). apply elem_of_prefixes. by exists [Base64.raw_url_encode k]. Qed.
Hint Resolve keeps_write_version keeps_preserve keeps_preserve_top keeps_put_top keeps_write_version_top keeps_make_top
  keeps_clear_top keeps_remove_all keeps_remove_all_top keeps_drop_base : keeps.

Lemma keeps_preserve_current : keeps (preserve_current_resumable_upload b k).
Proof. unfold preserve_current_resumable_upload. rewrite object_path_eq, object_json_eq by done. solve_keeps. Qed.
Hint Resolve keeps_preserve_current : keeps.

(** ** The calls *)

Lemma keeps_version_for status : keeps (version_for status).
Proof. unfold version_for. solve_keeps. Qed.
Hint Resolve keeps_version_for : keeps.
Lemma keeps_put input id : pi_bucket input = b -> pi_key input = k -> keeps (put_object_with_resumable_id_locked input id).
Proof.
  intros Hib Hik. unfold put_object_with_resumable_id_locked. rewrite Hib, Hik, object_path_eq by done.
  rewrite body_file_eq, object_json_eq. unfold write_json. solve_keeps.
Qed.
Lemma keeps_rebuild : keeps (rebuild_current_object b k).
Proof.
  unfold rebuild_current_object. rewrite object_path_eq by done. rewrite (join_plain dir) by done.
  rewrite object_json_eq, body_file_eq. unfold write_json. solve_keeps.
Qed.
Hint Resolve keeps_rebuild : keeps.
Lemma keeps_delete bypass : keeps (delete_object_with_result b k bypass).
Proof.
  unfold delete_object_with_result, delete_object_with_result_locked, read_current_object_metadata.
  rewrite object_path_eq, objects_path_eq by done. rewrite object_json_eq, body_file_eq. unfold write_json. solve_keeps.
Qed.
Lemma keeps_delete_version v bypass : keeps (delete_object_version b k v bypass).
Proof.
  unfold delete_object_version, version_dir. rewrite object_path_eq by done. apply keeps_guard. intros _.
  apply keeps_bind; [solve_keeps|]. intros _. apply keeps_lift_bind. intros p ->%version_path_ok. rewrite object_json_eq. solve_keeps.
Qed.
Lemma keeps_update_metadata input : ui_bucket input = b -> ui_key input = k -> keeps (update_object_metadata input).
Proof.
  intros Hib Hik. unfold update_object_metadata, update_object_metadata_locked. rewrite Hib, Hik, object_path_eq by done.
  rewrite object_json_eq. unfold write_json. solve_keeps.
Qed.
Lemma keeps_for_update v : keeps (object_for_update b k v).
Proof.
  unfold object_for_update, version_dir. rewrite object_path_eq by done. apply keeps_bind; [solve_keeps|]. intros _.
  apply keeps_bind; [solve_keeps|]. intros _. apply keeps_bind; [solve_keeps|]. intros _.
  apply keeps_bind; [solve_keeps|]. intros [[o body]|]; [|solve_keeps]. apply keeps_bind; [|solve_keeps].
  destruct (is_empty v); [solve_keeps|]. apply keeps_lift_bind. intros p ->%version_path_ok. rewrite object_json_eq. solve_keeps.
Qed.
Hint Resolve keeps_for_update : keeps.
Lemma keeps_put_acl v acl : keeps (put_object_acl b k v acl).
Proof.
  unfold put_object_acl, version_dir. rewrite object_path_eq by done. rewrite (join_plain dir) by done.
  apply keeps_bind; [solve_keeps|]. intros [[o body]|]; [|solve_keeps]. destruct (negb (is_empty v)).
  - apply keeps_lift_bind. intros p ->%version_path_ok. rewrite object_json_eq. unfold write_json. solve_keeps.
  - rewrite object_json_eq. unfold write_json. solve_keeps.
Qed.
Lemma keeps_update_lock v f : keeps (update_object_lock_metadata b k v f).
Proof.
  unfold update_object_lock_metadata, version_dir. rewrite object_path_eq by done.
  apply keeps_bind; [solve_keeps|]. intros [[o body]|]; [|solve_keeps]. apply keeps_bind; [|solve_keeps].
  destruct (negb (is_empty v)).
  - apply keeps_lift_bind. intros p ->%version_path_ok. rewrite object_json_eq. unfold write_json. solve_keeps.
  - rewrite object_json_eq. unfold write_json. solve_keeps.
Qed.
Lemma keeps_resumable_result input id : pi_bucket input = b -> pi_key input = k -> keeps (resumable_result_for_input_locked input id).
Proof.
  intros Hib Hik. unfold resumable_result_for_input_locked, get_resumable_upload_result_locked. rewrite Hib, Hik.
  rewrite object_path_eq, object_json_eq by done. solve_keeps.
Qed.
Lemma keeps_put_resumable input id : pi_bucket input = b -> pi_key input = k -> keeps (put_resumable_object input id).
Proof.
  intros Hib Hik. unfold put_resumable_object, commit_resumable_object_locked. apply keeps_guard. intros Hid%negb_false_iff.
  apply keeps_bind; [by apply keeps_resumable_result|]. intros [receipt|]; [solve_keeps|].
  apply keeps_bind; [by apply keeps_put|]. solve_keeps.
Qed.
End OneObject.

(** ** All calls on one object *)

Inductive ObjectCall :=
| CPut (input : PutObjectInput)
| CPutIfAbsent (input : PutObjectInput)
| CPutResumable (input : PutObjectInput) (upload_id : string)
| CUpdateMetadata (input : UpdateObjectMetadataInput)
| CGet (bucket key version : string)
| CDelete (bucket key : string) (bypass : bool)
| CDeleteVersion (bucket key version : string) (bypass : bool)
| CPutAcl (bucket key version acl : string)
| CPutRetention (bucket key version : string) (r : ObjectRetention)
| CPutLegalHold (bucket key version status : string).
Definition target (c : ObjectCall) : string * string :=
  match c with
  | CPut i | CPutIfAbsent i | CPutResumable i _ => (pi_bucket i, pi_key i)
  | CUpdateMetadata i => (ui_bucket i, ui_key i)
  | CGet b k _ | CDelete b k _ | CDeleteVersion b k _ _ | CPutAcl b k _ _ | CPutRetention b k _ _ | CPutLegalHold b k _ _ => (b, k)
  end.

Section All.
Context `{Disk, Clock, Hashes, Build} `{Codec Bucket, Codec Object, Codec AclFile}.
Abbreviation St := (ME StoreError Store).

Definition object_call (c : ObjectCall) : St unit :=
  match c with
  | CPut i => put_object i;; mret tt
  | CPutIfAbsent i => put_object_if_absent i;; mret tt
  | CPutResumable i id => put_resumable_object i id;; mret tt
  | CUpdateMetadata i => update_object_metadata i;; mret tt
  | CGet b k v => get_object_version b k v;; mret tt
  | CDelete b k bypass => delete_object_with_result b k bypass;; mret tt
  | CDeleteVersion b k v bypass => delete_object_version b k v bypass;; mret tt
  | CPutAcl b k v acl => put_object_acl b k v acl;; mret tt
  | CPutRetention b k v r => put_object_retention b k v r;; mret tt
  | CPutLegalHold b k v status => put_object_legal_hold b k v status;; mret tt
  end.

Lemma keeps_put_if_absent b k input : valid_bucket_name b = true -> valid_object_key k = true ->
  pi_bucket input = b -> pi_key input = k -> keeps (elsewhere b k) (put_object_if_absent input).
Proof.
  intros Hb Hk Hib Hik. unfold put_object_if_absent, current_object_exists, put_object_locked.
  apply keeps_bind; [solve_keeps|]. intros _. apply keeps_bind; [solve_keeps|]. intros there. apply keeps_guard. intros _.
  by apply keeps_put.
Qed.
Lemma valid_call c : valid_bucket_name (target c).1 = true -> valid_object_key (target c).2 = true ->
  keeps (elsewhere (target c).1 (target c).2) (object_call c).
Proof.
  intros Hb Hk. destruct c; simpl in *; (apply keeps_bind; [|solve_keeps]).
  - by apply keeps_put.
  - by apply keeps_put_if_absent.
  - by apply keeps_put_resumable.
  - by apply keeps_update_metadata.
  - solve_keeps.
  - by apply keeps_delete.
  - by apply keeps_delete_version.
  - by apply keeps_put_acl.
  - by apply keeps_update_lock.
  - by apply keeps_update_lock.
Qed.

(** With an invalid name nothing is written at all. *)
Lemma keeps_bad_require P {A} b k (f : unit -> St A) : valid_bucket_name b && valid_object_key k = false ->
  keeps P (require_bucket_and_key b k ≫= f).
Proof.
  intros Hv s. unfold require_bucket_and_key. destruct (valid_bucket_name b), (valid_object_key k); done.
Qed.
Lemma keeps_bad_put P input id : valid_bucket_name (pi_bucket input) && valid_object_key (pi_key input) = false ->
  keeps P (put_object_with_resumable_id_locked input id).
Proof.
  intros Hv s. unfold put_object_with_resumable_id_locked. destruct (valid_bucket_name _), (valid_object_key _); done.
Qed.
Lemma invalid_call P c : valid_bucket_name (target c).1 && valid_object_key (target c).2 = false -> keeps P (object_call c).
Proof.
  intros Hv. destruct c; simpl in *; (apply keeps_bind; [|solve_keeps]).
  - by apply keeps_bad_put.
  - by apply keeps_bad_require.
  - unfold put_resumable_object. apply keeps_guard. intros _. apply keeps_bind.
    + unfold resumable_result_for_input_locked. apply keeps_bind; [solve_keeps|]. intros [r|]; [solve_keeps|].
      unfold get_resumable_upload_result_locked. rewrite <- orb_assoc, <- negb_andb, Hv, orb_true_r. solve_keeps.
    + intros [r|]; [solve_keeps|]. unfold commit_resumable_object_locked. intros s.
      unfold put_object_with_resumable_id_locked. destruct (valid_bucket_name _), (valid_object_key _); done.
  - by apply keeps_bad_require.
  - unfold get_object_version. destruct (is_empty _); by apply keeps_bad_require.
  - intros s. unfold delete_object_with_result, delete_object_with_result_locked.
    destruct (valid_bucket_name _), (valid_object_key _); done.
  - unfold delete_object_version. apply keeps_guard. intros _. by apply keeps_bad_require.
  - intros s. unfold put_object_acl, object_for_update, require_bucket_and_key.
    destruct (valid_bucket_name _), (valid_object_key _); done.
  - intros s. unfold put_object_retention, update_object_lock_metadata, object_for_update, require_bucket_and_key.
    destruct (valid_bucket_name _), (valid_object_key _); done.
  - intros s. unfold put_object_legal_hold, update_object_lock_metadata, object_for_update, require_bucket_and_key.
    destruct (valid_bucket_name _), (valid_object_key _); done.
Qed.

(** C14: Whatever the disk does - any system call may fail and leave a file torn or a
    directory half removed - and whatever it holds, a call on one object changes no path
    but those of the object's own directory, the directories that one is in, and the
    receipts of resumable uploads. *)
Theorem object_calls_confined c s q :
  the_files (object_call c s).2 !! q = the_files s !! q \/ touched (target c).1 (target c).2 q = true.
Proof.
  destruct (touched (target c).1 (target c).2 q) eqn:Ht; [by right|left].
  destruct (valid_bucket_name (target c).1 && valid_object_key (target c).2) eqn:Hv.
  - apply andb_true_iff in Hv as [Hb Hk]. by apply (valid_call c Hb Hk).
  - by apply (invalid_call (fun _ => True) c Hv).
Qed.
End All.
