(* ===== verification/S3Demo.v ===== *)
(** A concrete disk, clock, digests and metadata files, the theorems applied to concrete
    runs, and runs on which the store does what it does not mean to. *)

From S2P Require Import Prelude RustStr RustNum RustText SqsTime PubTime S3Codecs Disk S3Store S3Objects S3Config S3Xml S3Cors S3Sidecars S3Calm S3Reads S3Calls S3Refine S3Theorems S3Reports.
Local Open Scope string_scope.
Local Open Scope Z_scope.

(** ** Metadata files: fields one after the other, each byte marked, each field ended *)

Fixpoint enc_field (s : string) : string :=
  match s with EmptyString => ";" | String c r => String "+" (String c (enc_field r)) end.
Fixpoint dec_field (s : string) : option (string * string) :=
  match s with
  | String "+" (String c r) => '(f, rest) ← dec_field r; Some (String c f, rest)
  | String ";" r => Some ("", r)
  | _ => None
  end.
Lemma dec_enc_field s r : dec_field (enc_field s +:+ r) = Some (s, r).
Proof. induction s as [|c s IH]; [done|]. cbn [enc_field]. rewrite !str_app_cons. cbn [dec_field]. by rewrite IH. Qed.
Fixpoint enc_fields (l : list string) : string :=
  match l with [] => "" | f :: l => enc_field f +:+ enc_fields l end.
Fixpoint dec_fields (fuel : nat) (s : string) : option (list string) :=
  match fuel, s with
  | _, EmptyString => Some []
  | O, _ => None
  | S fuel, _ => '(f, rest) ← dec_field s; l ← dec_fields fuel rest; Some (f :: l)
  end.
Lemma enc_field_length s : (0 < String.length (enc_field s))%nat.
Proof. destruct s; simpl; lia. Qed.
Lemma enc_fields_length l : (length l <= String.length (enc_fields l))%nat.
Proof. induction l as [|f l IH]; [done|]. cbn [enc_fields length]. rewrite str_length_app. pose proof (enc_field_length f). lia. Qed.
Lemma dec_enc_fields l fuel : (length l <= fuel)%nat -> dec_fields fuel (enc_fields l) = Some l.
Proof.
  revert fuel. induction l as [|f l IH]; intros fuel Hf; [by destruct fuel|]. destruct fuel as [|fuel]; [simpl in Hf; lia|].
  cbn [enc_fields dec_fields]. rewrite dec_enc_field. cbn. rewrite IH by (simpl in Hf; lia).
  destruct (enc_field f +:+ enc_fields l) eqn:E; [|done]. apply (f_equal String.length) in E.
  rewrite str_length_app in E. pose proof (enc_field_length f). simpl in E. lia.
Qed.

(** A type as its fields. *)
Class Fields (T : Type) := { to_fields : T -> list string; of_fields : list string -> option T }.
Class FieldsLaw T `{Fields T} := { of_to_fields : forall x : T, of_fields (to_fields x) = Some x }.
Definition fields_codec {T} `{Fields T} : Codec T :=
  {| encode := fun x => enc_fields (to_fields x);
     decode := fun s => match l ← dec_fields (String.length s) s; of_fields l with Some x => inl x | None => inr "bad file" end |}.
Lemma fields_codec_laws {T} `{FieldsLaw T} : @CodecLaws T fields_codec.
Proof.
  split. intros x. cbn. rewrite dec_enc_fields by apply enc_fields_length. cbn. by rewrite of_to_fields.
Qed.

Fixpoint pos_text (p : positive) : string :=
  match p with xH => "1" | xO p => String "o" (pos_text p) | xI p => String "i" (pos_text p) end.
Fixpoint pos_of (s : string) : option positive :=
  match s with
  | String "1" EmptyString => Some xH
  | String "o" r => xO <$> pos_of r
  | String "i" r => xI <$> pos_of r
  | _ => None
  end.
Lemma pos_of_text p : pos_of (pos_text p) = Some p.
Proof. induction p as [p IH|p IH|]; cbn [pos_text pos_of]; [by rewrite IH..|done]. Qed.
Definition int_text (z : Z) : string :=
  match z with Z0 => "0" | Zpos p => String "+" (pos_text p) | Zneg p => String "-" (pos_text p) end.
Definition int_of (s : string) : option Z :=
  match s with
  | String "0" EmptyString => Some 0
  | String "+" r => Zpos <$> pos_of r
  | String "-" r => Zneg <$> pos_of r
  | _ => None
  end.
Lemma int_of_text z : int_of (int_text z) = Some z.
Proof. destruct z as [|p|p]; cbn [int_text int_of]; [done|by rewrite pos_of_text..]. Qed.
Definition bool_text (b : bool) : string := if b then "t" else "f".
Definition bool_of (s : string) : option bool := match s with "t" => Some true | "f" => Some false | _ => None end.
Definition opt_bool_text (b : option bool) : string := match b with Some b => bool_text b | None => "n" end.
Definition opt_bool_of (s : string) : option (option bool) := match s with "n" => Some None | _ => Some <$> bool_of s end.
Fixpoint pairs_of (l : list string) : option (list (string * string)) :=
  match l with
  | [] => Some []
  | k :: v :: l => r ← pairs_of l; Some ((k, v) :: r)
  | _ => None
  end.
Fixpoint pairs_text (l : list (string * string)) : list string :=
  match l with [] => [] | (k, v) :: l => k :: v :: pairs_text l end.
Definition map_text (m : gmap string string) : string := enc_fields (pairs_text (map_to_list m)).
Definition map_of (s : string) : option (gmap string string) :=
  l ← dec_fields (String.length s) s; ps ← pairs_of l; Some (list_to_map ps).
Lemma pairs_of_text l : pairs_of (pairs_text l) = Some l.
Proof. induction l as [|[k v] l IH]; [done|]. cbn. by rewrite IH. Qed.
Lemma map_of_text m : map_of (map_text m) = Some m.
Proof.
  unfold map_of, map_text. rewrite dec_enc_fields by apply enc_fields_length. cbn. rewrite pairs_of_text. cbn.
  by rewrite list_to_map_to_list.
Qed.
Lemma bool_of_text b : bool_of (bool_text b) = Some b.
Proof. by destruct b. Qed.
Lemma opt_bool_of_text b : opt_bool_of (opt_bool_text b) = Some b.
Proof. by destruct b as [[]|]. Qed.

#[export] Instance bucket_fields : Fields Bucket :=
  {| to_fields := fun b => [b_name b; b_created_at b; versioning b; b_acl b; xmlns (object_lock_config b);
       object_lock_enabled (object_lock_config b); dr_mode (default_retention (object_lock_config b));
       int_text (dr_days (default_retention (object_lock_config b))); int_text (dr_years (default_retention (object_lock_config b)))];
     of_fields := fun l => match l with
       | [n; c; v; a; x; e; m; d; y] => d ← int_of d; y ← int_of y; Some (mkBucket n c v a (mkLock x e (mkDefaultRetention m d y)))
       | _ => None end |}.
#[export] Instance bucket_fields_law : FieldsLaw Bucket.
Proof. split. intros [n c v a [x e [m d y]]]. cbn. by rewrite !int_of_text. Qed.
#[export] Instance object_fields : Fields Object :=
  {| to_fields := fun o => [o_bucket o; o_key o; etag o; int_text (o_size o); created_at o; last_modified o; updated_at o;
       int_text (metageneration o); content_type o; content_encoding o; crc32c o; cache_control o; content_disposition o;
       map_text (metadata o); version_id o; bool_text (delete_marker o); acl o; algorithm (encryption o);
       kms_key_id (encryption o); opt_bool_text (bucket_key_enabled (encryption o)); r_mode (retention o);
       retain_until_date (retention o); legal_hold o; resumable_upload_id o];
     of_fields := fun l => match l with
       | [b; k; e; sz; c; lm; u; mg; ct; ce; cr; cc; cd; md; v; dm; a; al; km; bk; rm; ru; lh; ri] =>
           sz ← int_of sz; mg ← int_of mg; md ← map_of md; dm ← bool_of dm; bk ← opt_bool_of bk;
           Some (mkObject b k e sz c lm u mg ct ce cr cc cd md v dm a (mkSse al km bk) (mkRetention rm ru) lh ri)
       | _ => None end |}.
#[export] Instance object_fields_law : FieldsLaw Object.
Proof.
  split. intros [b k e sz c lm u mg ct ce cr cc cd md v dm a [al km bk] [rm ru] lh ri]. cbn.
  by rewrite !int_of_text, map_of_text, bool_of_text, opt_bool_of_text.
Qed.
#[export] Instance acl_fields : Fields AclFile :=
  {| to_fields := fun a => [af_acl a]; of_fields := fun l => match l with [a] => Some (mkAclFile a) | _ => None end |}.
#[export] Instance acl_fields_law : FieldsLaw AclFile.
Proof. split. by intros []. Qed.
#[export] Instance versioning_fields : Fields VersioningFile :=
  {| to_fields := fun f => [vf_status f]; of_fields := fun l => match l with [a] => Some (mkVersioningFile a) | _ => None end |}.
#[export] Instance part_fields : Fields MultipartPart :=
  {| to_fields := fun p => [int_text (part_number p); part_etag p; int_text (part_size p); part_last_modified p];
     of_fields := fun l => match l with
       | [n; e; s; m] => n ← int_of n; s ← int_of s; Some (mkPart n e s m) | _ => None end |}.
#[export] Instance part_fields_law : FieldsLaw MultipartPart.
Proof. split. intros [n e sz md]. cbn. by rewrite !int_of_text. Qed.
#[export] Instance upload_fields : Fields MultipartUpload :=
  {| to_fields := fun u => [u_bucket u; u_key u; u_upload_id u; u_created_at u; u_content_type u; u_content_encoding u;
       u_cache_control u; u_content_disposition u; map_text (u_metadata u); algorithm (u_encryption u);
       kms_key_id (u_encryption u); opt_bool_text (bucket_key_enabled (u_encryption u))];
     of_fields := fun l => match l with
       | [b; k; i; c; ct; ce; cc; cd; md; al; km; bk] =>
           md ← map_of md; bk ← opt_bool_of bk; Some (mkUpload b k i c ct ce cc cd md (mkSse al km bk))
       | _ => None end |}.
#[export] Instance upload_fields_law : FieldsLaw MultipartUpload.
Proof. split. intros [b k i c ct ce cc cd md [al km bk]]. cbn. by rewrite map_of_text, opt_bool_of_text. Qed.
Definition list_text (l : list string) : string := enc_fields l.
Definition list_of (s : string) : option (list string) := dec_fields (String.length s) s.
Arguments list_text : simpl never.
Arguments list_of : simpl never.
Lemma list_of_text l : list_of (list_text l) = Some l.
Proof. apply dec_enc_fields, enc_fields_length. Qed.
#[export] Instance inventory_fields : Fields InventoryConfiguration :=
  {| to_fields := fun c => [ic_xmlns c; ic_id c; bool_text (is_enabled c); included_object_versions c; frequency c;
       account_id c; ic_bucket c; ic_format c; ic_prefix c; list_text (optional_fields c)];
     of_fields := fun l => match l with
       | [x; i; e; v; f; a; b; t; p; o] => e ← bool_of e; o ← list_of o; Some (mkInventory x i e v f a b t p o)
       | _ => None end |}.
#[export] Instance inventory_fields_law : FieldsLaw InventoryConfiguration.
Proof. split. intros [x i e v f a b t p o]. cbn. by rewrite bool_of_text, list_of_text. Qed.
#[export] Instance manifest_fields : Fields InventoryReportManifest :=
  {| to_fields := fun c => [configuration_id c; source_bucket c; im_format c; included_versions c; list_text (im_fields c);
       int_text (object_count c); report_key c];
     of_fields := fun l => match l with
       | [i; b; f; v; fs; n; k] => fs ← list_of fs; n ← int_of n; Some (mkManifest i b f v fs n k) | _ => None end |}.
#[export] Instance manifest_fields_law : FieldsLaw InventoryReportManifest.
Proof. split. intros [i b f v fs n k]. cbn. by rewrite list_of_text, int_of_text. Qed.
#[export] Instance demo_codec {T} `{Fields T} : Codec T := fields_codec.
#[export] Instance demo_codec_laws {T} `{FieldsLaw T} : CodecLaws T := fields_codec_laws.

(** ** Digests, clock, disk *)

Fixpoint hex_text (s : string) : string := match s with EmptyString => "" | String b r => hex2 b +:+ hex_text r end.
Fixpoint hex_bytes (s : string) : option string :=
  match s with
  | EmptyString => Some ""
  | String h (String l r) =>
      a ← hex_digit_value h; c ← hex_digit_value l; r ← hex_bytes r; Some (String (of_byte (a * 16 + c)) r)
  | _ => None
  end.
Definition hex_ok (c : ascii) : bool :=
  match hex2 c with
  | String h (String l EmptyString) =>
      match hex_digit_value h, hex_digit_value l with
      | Some a, Some d => Ascii.eqb (of_byte (a * 16 + d)) c
      | _, _ => false
      end && (is_ascii_digit h || in_range "a" "f" h) && (is_ascii_digit l || in_range "a" "f" l)
  | _ => false
  end.
Lemma hex2_ok c : exists h l a d, hex2 c = String h (String l "") /\ hex_digit_value h = Some a /\ hex_digit_value l = Some d
  /\ of_byte (a * 16 + d) = c /\ (is_ascii_digit h || in_range "a" "f" h) = true /\ (is_ascii_digit l || in_range "a" "f" l) = true.
Proof.
  assert (hex_ok c = true) as Hc by (revert c; apply Percent.all_bytes; by vm_compute). unfold hex_ok in Hc.
  destruct (hex2 c) as [|h [|l [|]]]; try done. rewrite !andb_true_iff in Hc. destruct Hc as [[Hc Hh] Hl].
  destruct (hex_digit_value h) as [a|] eqn:Ea, (hex_digit_value l) as [d|] eqn:Ed; try done. apply Ascii.eqb_eq in Hc. by exists h, l, a, d.
Qed.
(** Sixteen bytes of the length and the checksum: no digest, but of a digest's shape. *)
Definition demo_md5 (s : string) : string := be64 (str_len s) +:+ be64 (crc32c_sum s).
#[export] Instance demo_hashes : Hashes :=
  {| md5 := demo_md5; hex_encode := hex_text; hex_decode := hex_bytes; to_lowercase := to_ascii_lowercase |}.
#[export] Instance demo_hash_laws : HashLaws.
Proof.
  split.
  - intros s. cbn. unfold demo_md5. by rewrite str_length_app.
  - intros s. cbn. induction s as [|c s IH]; [done|]. cbn [hex_text].
    destruct (hex2_ok c) as (h & l & a & d & -> & Ha & Hd & Hc & _). rewrite !str_app_cons, str_app_nil_l.
    cbn [hex_bytes]. rewrite Ha, Hd, IH. cbn. by rewrite Hc.
  - intros s. cbn. induction s as [|c s IH]; [done|]. cbn [hex_text]. rewrite str_all_app, IH, andb_true_r.
    destruct (hex2_ok c) as (h & l & a & d & -> & _ & _ & _ & Hh & Hl). cbn [str_all]. by rewrite Hh, Hl.
  - intros s. cbn. induction s as [|c s IH]; [done|]. cbn [hex_text String.length]. rewrite str_length_app, IH.
    destruct (hex2_ok c) as (h & l & a & d & -> & _). cbn [String.length]. lia.
Qed.
#[export] Instance demo_build : Build := {| overflow_checks := true |}.
#[export] Instance demo_clock : Clock := {| clock_nanos := fun t => 1780000000000000000 + Z.of_nat t * 1000000000; fixed_now := None |}.
(** The disk that fails at the calls of [faults]. *)
Definition disk_failing (faults : list nat) : Disk :=
  {| disk_fault := fun t => if bool_decide (t ∈ faults) then Some "disk full" else None; disk_torn := fun _ _ => None;
     disk_made := fun _ => 0%nat; disk_left := fun _ _ => true; disk_order := fun _ l => l |}.
Definition good_disk : Disk := disk_failing [].
Lemma good_calm : @calm good_disk.
Proof. intros t. done. Qed.
Lemma good_laws : @DiskLaws good_disk.
Proof. split. done. Qed.

(** ** A fresh bucket *)

Section Fresh.
Context `{Codec Bucket, Codec Object, Codec AclFile} `{!CodecLaws Bucket}.
Definition fresh_tree (b : string) (B : Bucket) : tree :=
  <[[b; "bucket.json"] := File (encode B)]> (<[[b] := Dir]> {[ [] := Dir ]}).
Lemma fresh_bucket b B : valid_bucket_name b = true -> bucket_at (fresh_tree b B) b B ∅.
Proof.
  intros Hb. unfold fresh_tree.
  assert (forall c x r, <[[b; "bucket.json"] := File (encode B)]> (<[[b] := Dir]> ({[ [] := Dir ]} : tree)) !! (b :: c :: x :: r) = None) as Hn
    by (intros c x r; by rewrite !lookup_insert_ne, lookup_singleton_ne by done).
  assert (forall c, c <> "bucket.json" -> <[[b; "bucket.json"] := File (encode B)]> (<[[b] := Dir]> ({[ [] := Dir ]} : tree)) !! [b; c] = None) as Hn2
    by (intros c Hc; rewrite lookup_insert_ne by congruence; by rewrite lookup_insert_ne, lookup_singleton_ne by done).
  split_and!; [done|..].
  - rewrite !lookup_insert_ne by done. apply lookup_singleton_eq.
  - rewrite lookup_insert_ne by done. apply lookup_insert_eq.
  - exists (encode B). rewrite lookup_insert_eq. split; [done|]. apply decode_encode.
  - intros n x Hx. destruct (decide (n = "bucket.json")) as [->|Hne]; [|by rewrite Hn2 in Hx].
    rewrite lookup_insert_eq in Hx. injection Hx as <-. by left.
  - right. split; [|done]. by apply Hn2.
  - intros k Hk r. unfold dir_of. cbn [app]. rewrite lookup_empty. by rewrite Hn.
  - intros n x Hx. by rewrite Hn in Hx.
  - apply map_Forall_empty.
Qed.
End Fresh.

Definition demo_bucket (status : string) : Bucket := mkBucket "bucket" "2026-06-01T00:00:00Z" status "" no_lock.
Definition demo_store (status : string) : Store :=
  mkStore (mkDisk (fresh_tree "bucket" (demo_bucket status)) 0) [] 0.
Definition demo_put (key body hold : string) : PutObjectInput :=
  mkPutInput "bucket" key body "" "text/plain" "" "" "" ∅ (mkSse "" "" None) no_retention hold.
Lemma demo_at status : bucket_at (the_files (demo_store status)) "bucket" (demo_bucket status) ∅.
Proof. apply fresh_bucket. by vm_compute. Qed.
Lemma demo_ids status : ids_ok (demo_store status).
Proof. constructor. Qed.

(** ** The theorems at concrete runs *)

Section Good.
#[local] Existing Instance good_disk.
#[local] Existing Instance good_laws.

Definition demo_calls : list Call :=
  [PutObject (demo_put "b" "one" ""); PutObject (demo_put "a" "two" ""); PutObject (demo_put "a" "three" "");
   PutVersioning "Suspended"; DeleteObject "b" false; PutObject (demo_put "c" "four" "ON"); ListObjects ""; GetObjectVersion "b" "null";
   DeleteObjectVersion "b" "null" false; DeleteObjectVersion "c" "null" true; GetObject "b"; GetObject "a"; DeleteObject "" false].
Lemma store_refines_machine_witness :
  let (rs, s') := perform_all "bucket" demo_calls (demo_store "Enabled") in
  exists B' m', trace "bucket" (demo_bucket "Enabled") ∅ demo_calls rs B' m' /\ bucket_at (the_files s') "bucket" B' m'
                /\ same_outside ["bucket"] (the_files (demo_store "Enabled")) (the_files s').
Proof.
  apply (store_refines_machine good_calm "bucket" (demo_bucket "Enabled") ∅); [apply demo_at|apply demo_ids|].
  repeat constructor.
Defined.
(** What the run answers. *)
Example demo_answers : map (fun r => match r with
    | Ok (Stored o) => "stored " +:+ o_key o
    | Ok (Fetched (Some (o, body))) => "found " +:+ body
    | Ok (Fetched None) => "none"
    | Ok (Removed o d) => (if d then "removed " else "absent ") +:+ o_key o
    | Ok (Listing (Some l)) => "list " +:+ str_concat (map o_key l)
    | Ok (Listing None) => "no bucket"
    | Ok Done => "done"
    | Err ObjectLocked => "locked"
    | Err InvalidObjectKey => "bad key"
    | _ => "error" end) (perform_all "bucket" demo_calls (demo_store "Enabled")).1
  = ["stored b"; "stored a"; "stored a"; "done"; "removed b"; "stored c"; "list ac"; "found ";
     "removed b"; "locked"; "found one"; "found three"; "bad key"].
Proof. vm_compute. reflexivity. Qed.

(** A version under legal hold, and the calls that follow it. *)
Definition held_put : PutObjectInput := demo_put "k" "kept" "ON".
Definition held_calls (v : string) : list Call :=
  [PutObject (demo_put "k" "later" ""); DeleteObject "k" false; DeleteObjectVersion "k" v true; ListObjects ""].
Definition held_run : result StoreError Object * Store := put_object held_put (demo_store "Enabled").
Definition held_object : Object := match held_run.1 with Ok o => o | _ => no_object end.
Definition held_after : list (result StoreError Answer) * Store :=
  perform_all "bucket" (held_calls (version_id held_object)) held_run.2.
Lemma held_run_eq : put_object held_put (demo_store "Enabled") = (Ok held_object, held_run.2).
Proof.
  assert (held_run.1 = Ok held_object) as <- by (vm_compute; reflexivity). apply surjective_pairing.
Qed.
Lemma held_after_eq : perform_all "bucket" (held_calls (version_id held_object)) held_run.2 = (held_after.1, held_after.2).
Proof. apply surjective_pairing. Qed.
Lemma held_ids : Forall2 (fun c r => ~ takes_id (pi_key held_put) (version_id held_object) c r)
  (held_calls (version_id held_object)) held_after.1.
Proof. vm_compute. repeat (apply Forall2_cons_2; [intuition congruence|]). constructor. Qed.
Lemma held_on : legal_hold held_object = "ON".
Proof. vm_compute. reflexivity. Qed.
Lemma held_for : Forall (for_bucket "bucket") (held_calls (version_id held_object)).
Proof. repeat constructor. Qed.
Lemma put_version_kept_witness :
  legal_hold held_object = "ON"
  /\ fst (get_object_version "bucket" (pi_key held_put) (version_id held_object) held_after.2)
     = Ok (Some (held_object, pi_body held_put)).
Proof.
  split; [exact held_on|].
  exact (proj2 (put_version_kept good_calm "bucket" (demo_bucket "Enabled") ∅ (demo_store "Enabled") held_put held_object held_run.2
    (held_calls (version_id held_object)) held_after.1 held_after.2 (demo_at _) (demo_ids _) eq_refl held_run_eq)
    eq_refl held_for held_after_eq held_ids (or_introl held_on)).
Defined.
(** The calls were served, but for the deletion. *)
Example held_answers : map (fun r => match r with Ok _ => true | _ => false end) held_after.1 = [true; true; false; true].
Proof. vm_compute. reflexivity. Qed.

(** An upload of two parts, completed in the other order. *)
Definition upload_id : string := "0123456789abcdef0123456789abcdef".
Definition demo_upload : MultipartUpload :=
  mkUpload "bucket" "big" upload_id "2026-06-01T00:00:00Z" "text/plain" "" "" "" ∅ (mkSse "" "" None).
Definition demo_part (n : Z) (body : string) : MultipartPart := mkPart n (md5_etag body) (str_len body) "2026-06-01T00:00:00Z".
Definition demo_parts : Parts := {[ 1 := (demo_part 1 "hello ", "hello "); 2 := (demo_part 2 "world", "world") ]}.
Definition part_files (n : Z) (body : string) (t : tree) : tree :=
  let p := multipart_part_path "bucket" upload_id n in
  <[body_file p := File body]> (<[join p "part.json" := File (encode (demo_part n body))]> (<[p := Dir]> t)).
Definition upload_tree : tree :=
  part_files 1 "hello " (part_files 2 "world"
    (<[["bucket"; "multipart"; upload_id; "parts"] := Dir]>
      (<[["bucket"; "multipart"; upload_id; "upload.json"] := File (encode demo_upload)]>
        (<[["bucket"; "multipart"; upload_id] := Dir]>
          (<[["bucket"; "multipart"] := Dir]> (fresh_tree "bucket" (demo_bucket "Enabled"))))))).
Definition upload_store : Store := mkStore (mkDisk upload_tree 0) [] 0.
Lemma insert_outside p q n t t' r : below p q = Some r -> same_outside p t t' -> same_outside p t (<[q := n]> t').
Proof.
  intros Hq%below_Some Hs x Hx. subst q. rewrite lookup_insert_ne; [by apply Hs|]. intros <-. by rewrite below_app in Hx.
Qed.
Lemma upload_bucket : bucket_at (the_files upload_store) "bucket" (demo_bucket "Enabled") ∅.
Proof.
  apply (bucket_at_subdir "bucket" (demo_bucket "Enabled") "multipart" (fresh_tree "bucket" (demo_bucket "Enabled"))); [apply demo_at|set_solver| |].
  - change (the_files upload_store) with upload_tree. unfold upload_tree, part_files. cbv zeta.
    repeat (eapply insert_outside; [vm_compute; reflexivity|]). apply same_outside_refl.
  - intros x. assert (the_files upload_store !! ["bucket"; "multipart"] = Some Dir) as -> by (vm_compute; reflexivity).
    intros [= <-]. right. by left.
Qed.
Lemma upload_there : uploaded (the_files upload_store) "bucket" upload_id demo_upload demo_parts.
Proof.
  assert (forall n body, n = 1 \/ n = 2 -> upload_tree !! body_file (multipart_part_path "bucket" upload_id n) = Some (File body) ->
    upload_tree !! join (multipart_part_path "bucket" upload_id n) "part.json" = Some (File (encode (demo_part n body))) ->
    json_at (the_files upload_store) (join (multipart_part_path "bucket" upload_id n) "part.json") (demo_part n body)
    /\ the_files upload_store !! body_file (multipart_part_path "bucket" upload_id n) = Some (File body)
    /\ part_size (demo_part n body) = str_len body) as Hpart.
  { intros n body _ Hb Hp. split_and!; [|exact Hb|done]. eexists. split; [exact Hp|]. apply decode_encode. }
  split_and!.
  - eexists. split; [vm_compute; reflexivity|]. vm_compute. reflexivity.
  - vm_compute. reflexivity.
  - apply map_Forall_insert_2; [|apply map_Forall_singleton]; (apply Hpart; [auto|vm_compute; reflexivity..]).
Qed.
Definition completed : result StoreError (option Object) * Store :=
  complete_multipart_upload "bucket" (u_key demo_upload) upload_id [2; 1] upload_store.
Lemma complete_concatenates_witness :
  part_bytes demo_parts [2; 1] = "worldhello "
  /\ let (r, s') := complete_multipart_upload "bucket" (u_key demo_upload) upload_id [2; 1] upload_store in
     exists ts kept v, let body := part_bytes demo_parts [2; 1] in
       let o := set_etag (multipart_etag (part_etags demo_parts [2; 1])) (put_result (upload_input demo_upload body) kept ts v) in
       fits_versioning (versioning (demo_bucket "Enabled")) v /\ r = Ok (Some o)
       /\ bucket_at (the_files s') "bucket" (demo_bucket "Enabled") (<[u_key demo_upload := put_key o body ((∅ : Keys) !! u_key demo_upload)]> ∅)
       /\ forall q, the_files s' !! (updir "bucket" upload_id ++ q)%list = None.
Proof.
  split; [reflexivity|].
  apply (complete_concatenates good_calm "bucket" (demo_bucket "Enabled") ∅ upload_store upload_id demo_upload demo_parts [2; 1]);
    [exact upload_bucket|constructor|reflexivity|exact upload_there|reflexivity|reflexivity| |intros ts why; discriminate].
  repeat constructor; vm_compute; by eexists.
Defined.

(** Three objects, one of them deleted, and an inventory of them. *)
Definition listed_calls : list Call :=
  [PutObject (demo_put "plain.txt" "one" ""); PutObject (demo_put "a, b" "two!" "ON"); PutObject (demo_put "gone" "three" ""); DeleteObject "gone" false].
Definition listed_store : Store := (perform_all "bucket" listed_calls (demo_store "")).2.
Definition demo_inventory : InventoryConfiguration :=
  mkInventory "" "" true "Current" "Daily" "" "arn:aws:s3:::reports" "CSV" "" ["ObjectLockLegalHoldStatus"; "Size"; "Nonsense"].
Lemma listed_at : exists B m, bucket_at (the_files listed_store) "bucket" B m.
Proof.
  pose proof (perform_all_refines good_calm "bucket" (demo_bucket "") ∅ (demo_store "") listed_calls (demo_at _) (demo_ids _)) as Hr.
  unfold listed_store. destruct (perform_all "bucket" listed_calls (demo_store "")) as [rs s']. destruct Hr as (B & m & _ & Hb & _); [|by exists B, m].
  repeat constructor.
Qed.
Lemma listed_room : inventory_room "bucket" "weekly" (the_files listed_store).
Proof.
  unfold inventory_room. split_and!; [|vm_compute; congruence..]. intros p d Hp. rewrite !elem_of_cons in Hp.
  destruct Hp as [->|[->|[->|[]%elem_of_nil]]]; vm_compute; congruence.
Qed.
Lemma inventory_report_exact_witness : exists B m, bucket_at (the_files listed_store) "bucket" B m
  /\ let (r, s') := put_bucket_inventory "bucket" "weekly" demo_inventory listed_store in
     r = Ok tt /\ bucket_at (the_files s') "bucket" B m /\ same_outside (inv "bucket") (the_files listed_store) (the_files s')
     /\ fst (get_bucket_inventory "bucket" "weekly" s') = Ok (Some (set_inventory_id "weekly" demo_inventory, true))
     /\ exists csv header rows, the_files s' !! (report "bucket" "weekly" ++ ["inventory.csv"])%list = Some (File csv)
          /\ read_csv csv = Some (header :: rows)
          /\ report_header demo_inventory header
          /\ Forall2 (fun o row => Forall2 (says "bucket" o) header row) (listed "" m) rows
          /\ json_at (the_files s') (report "bucket" "weekly" ++ ["manifest.json"])%list
               (mkManifest "weekly" "bucket" "CSV" "Current" header (Z.of_nat (length rows))
                  ("inventory/reports/" +:+ Base64.raw_url_encode "weekly" +:+ "/inventory.csv")).
Proof.
  destruct listed_at as (B & m & Hb). exists B, m. split; [exact Hb|].
  apply (inventory_report_exact good_calm "bucket" B m "weekly" listed_store demo_inventory Hb); [done|exact listed_room|done|right; reflexivity|done].
Defined.
(** The keys, sizes and legal holds of the report. *)
Example inventory_report_text :
  match the_files (put_bucket_inventory "bucket" "weekly" demo_inventory listed_store).2 !! inventory_report_csv_path "bucket" "weekly" with
  | Some (File csv) => map (fun r => (nth 1 r "", nth 2 r "", nth 6 r "")) <$> read_csv csv
  | _ => None
  end = Some [("Key", "Size", "ObjectLockLegalHoldStatus"); ("a, b", "4", "ON"); ("plain.txt", "3", "")].
Proof. vm_compute. reflexivity. Qed.
End Good.

(** Runs on which the object store does what it does not mean to. *)

(** The state after the calls, its system calls counted from none. *)
Definition after (cs : list Call) (s : Store) : Store :=
  let s := (perform_all (H := good_disk) "bucket" cs s).2 in mkStore (mkDisk (the_files s) 0) (fixed_version_ids s) (id_counter s).
Definition body_of (r : result StoreError (option (Object * string))) : string :=
  match r with Ok (Some (_, body)) => body | Ok None => "none" | _ => "error" end.
Definition is_ok {E A} (r : result E A) : bool := match r with Ok _ => true | _ => false end.

(** A put whose metadata cannot be written leaves the new bytes under the old metadata:
    the etag answered is not the etag of the body answered. *)
Example half_put_mixes_object :
  let s := after [PutObject (demo_put "k" "old" "")] (demo_store "") in
  let '(r, s') := put_object (H := (disk_failing [6%nat])) (demo_put "k" "new!" "") s in
  r = Err (Io (Fault "disk full"))
  /\ match (get_object (H := good_disk) "bucket" "k" s').1 with
     | Ok (Some (o, body)) => body = "new!" /\ etag o = md5_etag "old" /\ o_size o = 3
     | _ => False
     end.
Proof. vm_compute. done. Qed.

(** A put that fails early leaves a directory without metadata, and the bucket can no
    longer be listed. *)
Example failed_put_breaks_listing :
  let s := after [PutObject (demo_put "k" "old" "")] (demo_store "") in
  let s' := (put_object (H := (disk_failing [4%nat])) (demo_put "other" "new" "") s).2 in
  is_ok (list_objects (H := good_disk) "bucket" "" s).1 = true
  /\ (list_objects (H := good_disk) "bucket" "" s').1 = Err (missing "read object metadata").
Proof. vm_compute. done. Qed.

Section Good.
#[local] Existing Instance good_disk.

(** An object put before versioning was enabled should stay as the version [null]: the
    next put drops it. *)
Example null_version_lost :
  let s := after [PutObject (demo_put "k" "first" ""); PutVersioning "Enabled"] (demo_store "") in
  body_of (get_object_version "bucket" "k" "null" s).1 = "first"
  /\ body_of (get_object_version "bucket" "k" "null" (after [PutObject (demo_put "k" "second" "")] s)).1 = "none".
Proof. vm_compute. done. Qed.

(** Object lock is asked for by deletions only: in a bucket without versioning an object
    under legal hold is overwritten. *)
Example held_object_overwritten :
  let s := after [PutObject (demo_put "k" "held" "ON")] (demo_store "") in
  (delete_object_with_result "bucket" "k" true s).1 = Err ObjectLocked
  /\ body_of (get_object "bucket" "k" (after [PutObject (demo_put "k" "gone" "")] s)).1 = "gone".
Proof. vm_compute. done. Qed.

(** The version [null] of an object without versions is found, but its retention cannot
    be set: there is no directory versions/null to write to. *)
Example null_retention_fails :
  let s := after [PutObject (demo_put "k" "body" "")] (demo_store "") in
  is_ok (get_object_retention "bucket" "k" "null" s).1 = true
  /\ is_ok (put_object_retention "bucket" "k" "null" (mkRetention "GOVERNANCE" "2030-01-01T00:00:00Z") s).1 = false.
Proof. vm_compute. done. Qed.

(** A legal hold put on the current version by its id is not seen without the id, and a
    deletion without the id is not refused. *)
Example hold_by_id_unseen :
  let s := (put_object (demo_put "k" "body" "") (demo_store "Enabled")).2 in
  match (get_object "bucket" "k" s).1 with
  | Ok (Some (o, _)) =>
      let s' := (put_object_legal_hold "bucket" "k" (version_id o) "ON" s).2 in
      (get_object_legal_hold "bucket" "k" (version_id o) s').1 = Ok (Some "ON")
      /\ (get_object_legal_hold "bucket" "k" "" s').1 = Ok (Some "")
      /\ is_ok (delete_object_with_result "bucket" "k" false s').1 = true
  | _ => False
  end.
Proof. vm_compute. done. Qed.

(** The access list of an object outlives it: the object put next inherits it. *)
Example acl_inherited :
  let s := (put_object_acl "bucket" "k" "" "public-read" (after [PutObject (demo_put "k" "old" "")] (demo_store ""))).2 in
  (get_object_acl "bucket" "k" "" (after [PutObject (demo_put "k" "new" "")] s)).1 = Ok (Some "public-read").
Proof. vm_compute. done. Qed.

(** A default retention of so many days that the sum overflows is accepted, and then
    every put into the bucket panics in a build with overflow checks. *)
#[local] Instance lock_fields : Fields ObjectLockConfiguration :=
  {| to_fields := fun c => [object_lock_enabled c]; of_fields := fun _ => None |}.
Example huge_retention_panics :
  let config := mkLock "" "Enabled" (mkDefaultRetention "GOVERNANCE" (2 ^ 62) 0) in
  let s := put_bucket_object_lock_configuration "bucket" config (demo_store "") in
  s.1 = Ok tt /\ (put_object (demo_put "k" "body" "") s.2).1 = Panic "arithmetic overflow".
Proof. vm_compute. done. Qed.

(** After its last version is deleted a bucket is empty and cannot be deleted. *)
Example emptied_bucket_stays :
  let s := (put_object (demo_put "k" "body" "") (demo_store "Enabled")).2 in
  match (get_object "bucket" "k" s).1 with
  | Ok (Some (o, _)) =>
      let s' := (delete_object_version "bucket" "k" (version_id o) false s).2 in
      (list_objects "bucket" "" s').1 = Ok (Some []) /\ (delete_bucket "bucket" s').1 = Err BucketNotEmpty
  | _ => False
  end
  /\ (delete_bucket "bucket" (after [PutObject (demo_put "k" "body" ""); DeleteObject "k" false] (demo_store ""))).1 = Ok true.
Proof. vm_compute. done. Qed.

(** One directory at the root with a name that is no bucket's makes listing the buckets fail. *)
Example stray_directory_breaks_buckets :
  let t := <[["lost+found"] := Dir]> (the_files (demo_store "")) in
  is_ok (list_buckets (demo_store "")).1 = true
  /\ (list_buckets (mkStore (mkDisk t 0) [] 0)).1 = Err InvalidBucketName.
Proof. vm_compute. done. Qed.
End Good.
